(* ===== verification/_CoqProject ===== *)
-Q . S2P
Prelude.v
KMonad.v
Spinlock.v
Riscv.v
Mem.v
Printf.v
Kalloc.v
KallocSafety.v
KallocSpec.v
Vm.v
Proc.v
ProcFile.v
VmTable.v
VmWalk.v
VmMap.v
VmUnmap.v
VmAlloc.v
VmCopy.v
VmFree.v
VmUser.v
VmDemo.v
VmSpec.v
VmSpaceSpec.v
ProcMem.v
ProcSpace.v
ProcRun.v
ProcFork.v
ProcTable.v
ProcLife.v
ProcBoot.v
ProcSpec.v
Trace.v
Console.v
ConsoleRun.v
ConsoleSpec.v
Pipe.v
PipeSpec.v
Sleeplock.v
Virtio.v
VirtioRun.v
VirtioSys.v
VirtioInv.v
VirtioSafe.v
VirtioSpec.v
Bio.v
BioSpec.v
FsState.v
Log.v
LogCrash.v
LogOps.v
LogSpec.v
Fs.v
FsTxn.v
FsCommit.v
FsBlocks.v
FsFile.v
FsIo.v
FsSpec.v
Kernel.v
File.v
Sysfile.v
Exec.v
Syscall.v
KernelLaws.v
Guarantee.v
FileRefs.v
Csr.v
Trap.v
TrapSpec.v
Trampoline.v
TrampolineSpec.v
User.v
Grep.v
UserSpec.v
Shell.v
ShellSpec.v
Umalloc.v
Utils.v
Mkfs.v
MkfsSpec.v
