(* ===== verification/Prelude.v ===== *)
(** * xv6-riscv with superpages: a verification development

    The sources are the RISC-V version of xv6, a small Unix: a kernel for a
    multi-core machine with Sv39 paging, and the programs that run on it.  This
    version maps large ranges of user memory with 2 MiB superpages.  The
    kernel is a stack of layers, and the files below follow it from the bottom
    up; every definition of a layer is the translation of a function, a loop or
    a structure of the C source, under the name it has there.

    ** How C becomes Rocq

    Integers are [Z] with the wrap-around of their width written out ([u8],
    [u32], [u64], [i32] in this file).  Kernel functions are computations of
    [KMonad]: a function of the spin locks that are held and of an explicit
    state, whose outcome is a value with the new state, a panic with its
    message, undefined behaviour, an event (a character printed, a block
    written to the disk), or a switch to another thread ([sleep], [sched]) with
    the continuation that runs when the thread is switched to again.  Taking a
    lock twice or releasing one that is not held panics, as [holding] makes it
    do.  Loops are recursion on the list they walk, or on fuel; a theorem about
    such a loop says that it returns, not only what it returns if it does.
    The fuel of a loop is a bound computed from its arguments (the number of
    pages of a range, of bytes of a string, of blocks of a file), written where
    the function calls its loop, and the theorems show that it suffices.  A
    loop around [sleep] has no such bound: within one call it is followed through
    64 wake-ups ([WAKEUPS] of [Sleeplock]), while the transition systems of [wait],
    pipes, the console and the disk driver resume a sleeper any number of times.

    ** Files

    - [Prelude]: integers, list and option lemmas, ring buffers, tactics.
      [KMonad]: the monad.  [Trace]: events of a computation, crashes in the
      middle of it, and the bytes of blocks.
    - [Riscv]: param.h, memlayout.h and the paging macros of riscv.h.  The
      addresses of linker symbols are the class [Layout]; what kernel.ld
      guarantees about them is [LayoutOk].
    - [Spinlock]: spinlock.c as interleaved memory accesses of CPUs; mutual
      exclusion, and that the locks of the monad are refined by it.
    - [Mem]: physical memory as bytes; string.c.  [Printf]: printf.c.
    - [Kalloc], [KallocSafety], [KallocSpec]: kalloc.c, the free list in the
      free pages and the pool of superpages; safety for every client.
    - [Vm]: vm.c.  [VmTable]: page tables as trees of pages.  [VmWalk],
      [VmMap], [VmUnmap], [VmAlloc], [VmCopy], [VmFree], [VmUser]: what each
      routine does to the tree, to the free pages and to the memory, and what
      the hardware then sees.  [VmDemo]: a small machine.  [VmSpec],
      [VmSpaceSpec]: the theorems.
    - [Proc], [ProcFile]: proc.c; the functions that use files are over the
      interface [FileOps].  [ProcMem], [ProcSpace]: address spaces of processes,
      disjoint from each other and from the free pages.  [ProcRun], [ProcFork],
      [ProcTable]: what each function does.  [ProcLife]: processes and the
      scheduler as a transition system with its invariant.  [ProcBoot]: the
      first process and a small system.  [ProcSpec]: the theorems.
    - [Pipe], [PipeSpec]: pipe.c with any number of readers and writers.
    - [Sleeplock]: sleeplock.c, and the interface of the buffer cache that the
      layers above are written against (a disk and the blocks in use).  [Bio]:
      bio.c and its ring of buffers.  [BioSpec]: bio.c implements the interface.
    - [FsState]: the state of log.c and fs.c and a calculus of executions.
      [Log], [LogCrash], [LogOps], [LogSpec]: log.c;
      commits are atomic under power failures.
    - [Fs]: fs.c.  [FsTxn], [FsCommit]: file-system code inside transactions.
      [FsBlocks], [FsFile], [FsIo]: the block allocator, the block map and
      inodes on disk, reading and writing.  [FsSpec]: a small file system
      and the theorems.
    - [Console], [ConsoleRun], [ConsoleSpec]: console.c and uart.c;
      readers, writers, typed characters and interrupts as a transition system,
      and the line editor over lists that it implements.
    - [Virtio]: virtio_disk.c, over the registers of the device.  [VirtioRun]:
      what its pieces do between two memory barriers.  [VirtioSys]: threads,
      interrupts and the device as a transition system, and the disk with
      atomic requests that it implements.  [VirtioInv], [VirtioSafe],
      [VirtioSpec]: its invariant and the theorems.
    - [Kernel]: the state of the whole kernel, and how it implements the
      interfaces of its components.  [File], [Sysfile], [Exec], [Syscall]:
      file.c, sysfile.c, exec.c, sysproc.c and syscall.c.  [KernelLaws]: the
      laws of those interfaces.  [Guarantee]: reasoning about threads that
      sleep while others run.  [FileRefs]: descriptors and reference counts
      over all system calls, interleaved in any way.
    - [Csr]: the control registers and start.c.  [Trap]: trap.c, plic.c and
      main.c.  [TrapSpec]: the state in which a trap returns.  [Trampoline]: trampoline.S, kernelvec.S and swtch.S as
      instructions.  [TrampolineSpec]: what they do to registers.
    - [User]: ulib.c and printf.c of the user library, over an interface to
      the system calls.  [Grep]: grep, wc and cat.  [UserSpec]: what they print.
      [Utils]: ls, echo, rm, ln, mkdir, kill and init, and what the first two print.
    - [Shell]: sh.c.  [ShellSpec]: a grammar of command lines that its parser
      implements, and the programs that it runs for a line.
    - [Umalloc]: umalloc.c, with the headers of its blocks in memory, and the
      allocator of separate areas that it implements.
    - [Mkfs]: mkfs.c, over the files of the build host.  [MkfsSpec]: the file
      system that it writes, in terms of what the kernel reads.

    ** What the theorems show

    Locks exclude.  The allocator never hands out a page twice and loses none.
    Mapping, unmapping, growing, copying and destroying address spaces do
    exactly that to what programs see, page tables stay trees, and no page is
    lost when memory runs out half-way.  [copyout] cannot be made to write
    outside the user's own writable pages.  Processes that fork, exit, grow and
    store to their memory never share any (there is no exec among the steps of
    [ProcLife], and no shrinking that cuts a superpage), [fork] makes a copy, the
    process table stays a tree of living processes under the first one,
    and no wake-up of [wait] is lost.  Pipes deliver bytes to their readers
    in order, and neither side sleeps when it could go on.  The buffer cache is a
    cache.  The log makes transactions atomic and durable whenever the machine
    stops, also during recovery; a write to a file is such a transaction and
    changes exactly the range it should.
    The disk driver serves requests one at a time as far as its callers can
    tell, when the device serves them as the virtio specification says, and it
    panics only on an error that the device reports.  The console edits lines, and output leaves in the order in which it came.
    The references of an open file are its descriptors and what threads in
    the kernel hold, so no descriptor outlives its file.  Every trap from user
    mode returns there, to the instruction and with the registers and the privilege
    that it should.
    The assembly of traps and switches loses no register.  grep, wc, ls and echo
    print what they should, whatever the sizes of the reads that the kernel makes.
    The shell parses exactly the lines of its grammar, within the bounds of
    its buffers, and each process that it forks for a line runs its part of
    the command, with the descriptors that redirections and pipes give it.  The memory that malloc gives is the caller's alone
    until it is freed, and freed blocks are joined.  The image that mkfs writes
    has the files it was given, in the layout that the kernel relies on.
    The theorems named [..._panics], [..._overflows], [walkaddr_superpage] and
    [kill_zero_poisons_fork] show behaviour that the code does not intend.

    ** Not modelled

    Memory ordering: the machine of [Spinlock] is sequentially consistent.
    entry.S and mycpu are not modelled; the test programs under user/ test
    the system and are no part of it.  The kernel of [Kernel] is that of one thread between two
    switches; what other threads do meanwhile is in the transition systems of
    processes, pipes, the console, the disk driver and [FileRefs].
*)

From Stdlib Require Export ZArith Lia Bool List String.
From stdpp Require Export base list list_numbers gmap strings.

#[global] Open Scope Z_scope.

(** ** Machine integers

    C integers are [Z]; wrap-around is written out with these. *)

Definition u8 (x : Z) : Z := x mod 2 ^ 8.
Definition u16 (x : Z) : Z := x mod 2 ^ 16.
Definition u32 (x : Z) : Z := x mod 2 ^ 32.
Definition u64 (x : Z) : Z := x mod 2 ^ 64.
(** Conversion to a signed [int]: two's complement reading of the low 32 bits. *)
Definition i32 (x : Z) : Z := (x + 2 ^ 31) mod 2 ^ 32 - 2 ^ 31.

Lemma u64_small x : 0 <= x < 2 ^ 64 -> u64 x = x.
Proof. apply Z.mod_small. Qed.

Lemma u32_small x : 0 <= x < 2 ^ 32 -> u32 x = x.
Proof. apply Z.mod_small. Qed.

Lemma u64_range x : 0 <= u64 x < 2 ^ 64.
Proof. apply Z.mod_pos_bound. lia. Qed.

Lemma u32_range x : 0 <= u32 x < 2 ^ 32.
Proof. apply Z.mod_pos_bound. lia. Qed.

Lemma i32_small x : - 2 ^ 31 <= x < 2 ^ 31 -> i32 x = x.
Proof. intros H. unfold i32. rewrite Z.mod_small; lia. Qed.

(** ** Alignment by masking

    [x & ~(2^k - 1)] rounds down to a multiple of [2^k]. *)

Lemma land_lnot_ones x k : 0 <= k -> Z.land x (Z.lnot (Z.ones k)) = x - x mod 2 ^ k.
Proof.
  intros Hk.
  replace (Z.land x (Z.lnot (Z.ones k))) with (Z.ldiff x (Z.ones k))
    by (apply Z.bits_inj'; intros i Hi;
        rewrite Z.land_spec, Z.ldiff_spec, Z.lnot_spec; auto).
  rewrite Z.ldiff_ones_r, Z.shiftr_div_pow2, Z.shiftl_mul_pow2 by lia.
  pose proof (Z.div_mod x (2 ^ k) ltac:(apply Z.pow_nonzero; lia)). lia.
Qed.

Lemma mod_add_aligned x y k : k <> 0 -> x mod k = 0 -> (x + y) mod k = y mod k.
Proof. intros Hk Hx. rewrite Z.add_mod, Hx, Z.add_0_l, Z.mod_mod; auto. Qed.

(** ** Tactics *)

(** Break boolean tests in the goal or hypotheses into propositions for [lia]. *)
Ltac bool_cases :=
  repeat match goal with
    | |- context [?a =? ?b] => destruct (Z.eqb_spec a b)
    | |- context [?a <? ?b] => destruct (Z.ltb_spec a b)
    | |- context [?a <=? ?b] => destruct (Z.leb_spec a b)
    | H : context [?a =? ?b] |- _ => destruct (Z.eqb_spec a b)
    | H : context [?a <? ?b] |- _ => destruct (Z.ltb_spec a b)
    | H : context [?a <=? ?b] |- _ => destruct (Z.leb_spec a b)
    end.

Ltac zb := bool_cases; cbn [andb orb negb] in *; try congruence; try lia.

(** Destruct existentials and conjunctions of the context. *)
Ltac deex :=
  repeat match goal with
    | H : exists x, _ |- _ => destruct H as [? H]
    | H : _ /\ _ |- _ => destruct H
    end.

(** ** Lists indexed by [Z] *)

Definition nthZ {A} (d : A) (l : list A) (i : Z) : A := nth (Z.to_nat i) l d.

Definition updZ {A} (l : list A) (i : Z) (v : A) : list A := <[Z.to_nat i := v]> l.

Lemma length_updZ {A} (l : list A) i v : length (updZ l i v) = length l.
Proof. apply length_insert. Qed.

Lemma nthZ_updZ_eq {A} (d : A) l i v :
  0 <= i < Z.of_nat (length l) -> nthZ d (updZ l i v) i = v.
Proof.
  intros H. unfold nthZ, updZ. apply nth_lookup_Some.
  apply list_lookup_insert_eq. lia.
Qed.

Lemma nthZ_updZ_ne {A} (d : A) l i j v :
  0 <= i -> 0 <= j -> i <> j -> nthZ d (updZ l i v) j = nthZ d l j.
Proof.
  intros Hi Hj H. unfold nthZ, updZ. rewrite !nth_lookup.
  rewrite list_lookup_insert_ne; [reflexivity | lia].
Qed.

Lemma take_pred_snoc {A} (d : A) n (l : list A) :
  (0 < n <= length l)%nat -> take n l = take (n - 1) l ++ [nth (n - 1) l d].
Proof.
  intros H. destruct n as [|n]; [lia |]. rewrite (Nat.sub_succ n 0), Nat.sub_0_r.
  destruct (lookup_lt_is_Some_2 l n ltac:(lia)) as [x Hx].
  rewrite (nth_lookup_Some _ _ _ _ Hx). now apply take_S_r.
Qed.

Lemma updZ_same {A} (d : A) l i : 0 <= i -> updZ l i (nthZ d l i) = l.
Proof.
  intros Hi. unfold updZ, nthZ. destruct (decide (Z.to_nat i < length l)%nat) as [Hl | Hl].
  - apply list_insert_id. destruct (nth_lookup_or_length l (Z.to_nat i) d); [assumption | lia].
  - apply list_insert_ge. lia.
Qed.

Lemma take_updZ_snoc {A} (l : list A) n v :
  0 <= n < Z.of_nat (length l) ->
  take (Z.to_nat (n + 1)) (updZ l n v) = take (Z.to_nat n) l ++ [v].
Proof.
  intros Hn. unfold updZ. rewrite Z2Nat.inj_add by lia.
  rewrite Nat.add_comm. change (Z.to_nat 1 + Z.to_nat n)%nat with (S (Z.to_nat n)).
  rewrite (take_S_r _ _ v) by (apply list_lookup_insert_eq; lia).
  rewrite take_insert_ge by lia. reflexivity.
Qed.

(** ** Ring buffers

    A buffer of [N] bytes with a read and a write counter that wrap at [W], a
    multiple of [N], as in the console, the UART and the pipes: [ring q] says
    that the bytes between the counters are [q], oldest first. *)

Section ring.
Variables N W : Z.
Hypothesis HN : 0 < N.
Hypothesis HW : (N | W).
Hypothesis HWN : N < W.

Record ring (buf : list Z) (r w : Z) (q : list Z) : Prop := {
  rb_len : Z.of_nat (length buf) = N;
  rb_r : 0 <= r < W;
  rb_w : w = (r + Z.of_nat (length q)) mod W;
  rb_room : Z.of_nat (length q) <= N;
  rb_at : forall k c, q !! k = Some c -> nthZ 0 buf ((r + Z.of_nat k) mod N) = c }.

Lemma mod_slot a b : (a mod W + b) mod N = (a + b) mod N.
Proof.
  destruct HW as [z Hz]. rewrite (Z.add_mod (a mod W)), (Z.add_mod a b) by lia. f_equal. f_equal.
  apply Z.mod_mod_divide. now exists z.
Qed.

Lemma mod_add a b : (a mod W + b) mod W = (a + b) mod W.
Proof. apply Z.add_mod_idemp_l. lia. Qed.

Lemma mod_slot0 a : (a mod W) mod N = a mod N.
Proof. rewrite <- (Z.add_0_r (a mod W)), mod_slot. f_equal. lia. Qed.

Lemma slots_ne x k n : 0 <= k < n -> n < N -> (x + k) mod N <> (x + n) mod N.
Proof.
  intros Hk Hn E. assert (Hd : (x + n - (x + k)) mod N = 0) by (rewrite Zminus_mod, E, Z.sub_diag; apply Z.mod_0_l; lia).
  replace (x + n - (x + k)) with (n - k) in Hd by lia. rewrite Z.mod_small in Hd; lia.
Qed.

(** How many bytes there are, by the counters. *)
Lemma ring_count buf r w q : ring buf r w q -> (w - r) mod W = Z.of_nat (length q).
Proof. intros [H1 H2 -> H4 _]. rewrite Zminus_mod_idemp_l. replace (r + _ - r) with (Z.of_nat (length q)) by lia. apply Z.mod_small. lia. Qed.

Lemma ring_empty buf r w q : ring buf r w q -> w = r <-> q = [].
Proof.
  intros Hr. pose proof (ring_count _ _ _ _ Hr) as Hc. pose proof (rb_w _ _ _ _ Hr) as Hw. split.
  - intros ->. rewrite Z.sub_diag, Z.mod_0_l in Hc by lia. destruct q; [reflexivity | cbn in Hc; lia].
  - intros ->. cbn in Hw. rewrite Z.add_0_r, Z.mod_small in Hw by apply Hr. exact Hw.
Qed.

Lemma ring_full buf r w q : ring buf r w q -> w = (r + N) mod W <-> Z.of_nat (length q) = N.
Proof.
  intros Hr. pose proof (ring_count _ _ _ _ Hr) as Hc. pose proof (rb_w _ _ _ _ Hr) as Hw. pose proof (rb_room _ _ _ _ Hr). split.
  - intros ->. rewrite Zminus_mod_idemp_l in Hc. replace (r + N - r) with N in Hc by lia. rewrite Z.mod_small in Hc; lia.
  - intros E. now rewrite Hw, E.
Qed.

Lemma ring_push buf r w q c : ring buf r w q -> Z.of_nat (length q) < N ->
  ring (updZ buf (w mod N) c) r ((w + 1) mod W) (q ++ [c]).
Proof.
  intros [H1 H2 H3 H4 H5] Hl. split; auto.
  - now rewrite length_updZ.
  - rewrite H3, mod_add, length_app. cbn [length]. f_equal. lia.
  - rewrite length_app. cbn [length]. lia.
  - intros k x Hk. rewrite H3, mod_slot0. apply lookup_app_Some in Hk as [Hk | [Hge Hk]].
    + rewrite nthZ_updZ_ne; [auto | apply Z.mod_pos_bound; lia | apply Z.mod_pos_bound; lia |]. apply lookup_lt_Some in Hk. intros E. symmetry in E. revert E. apply slots_ne; lia.
    + destruct (k - length q)%nat as [|n] eqn:En; [| now destruct n]. injection Hk as <-. replace k with (length q) by lia.
      apply nthZ_updZ_eq. rewrite H1. apply Z.mod_pos_bound. lia.
Qed.

Lemma ring_pop buf r w c q : ring buf r w (c :: q) -> nthZ 0 buf (r mod N) = c /\ ring buf ((r + 1) mod W) w q.
Proof.
  intros [H1 H2 H3 H4 H5]. split; [rewrite <- (H5 0%nat c eq_refl); do 2 f_equal; lia |]. split; auto.
  - apply Z.mod_pos_bound. lia.
  - rewrite H3, mod_add. cbn [length]. f_equal. lia.
  - cbn [length] in H4. lia.
  - intros k x Hk. rewrite mod_slot, <- (H5 (S k) x Hk). do 2 f_equal. lia.
Qed.

(** The byte read last is put back. *)
Lemma ring_unpop buf r w c q : ring buf r w (c :: q) -> ((r + 1) mod W - 1) mod W = r.
Proof. intros Hr. rewrite Zminus_mod_idemp_l. replace (r + 1 - 1) with r by lia. apply Z.mod_small, Hr. Qed.

(** The byte written last is taken back. *)
Lemma ring_drop buf r w q c : ring buf r w (q ++ [c]) -> nthZ 0 buf (((w - 1) mod W) mod N) = c /\ ring buf r ((w - 1) mod W) q.
Proof.
  intros [H1 H2 H3 H4 H5]. rewrite length_app in *. cbn [length] in *.
  assert (E : (w - 1) mod W = (r + Z.of_nat (length q)) mod W) by (rewrite H3, Zminus_mod_idemp_l; f_equal; lia). rewrite E. split.
  - rewrite mod_slot0. apply H5. now rewrite lookup_app_r, Nat.sub_diag.
  - split; auto; [lia |]. intros k x Hk. apply H5. now apply lookup_app_l_Some.
Qed.

End ring.
