(* ===== verification/KMonad.v ===== *)
(** * The kernel monad

    C functions of the kernel are computations over an explicit state [S]
    and the list of spin locks the running thread holds.  A computation ends
    in a value, a [panic], an exhausted fuel bound, C's undefined behaviour
    (an array index out of range), or goes to sleep with the continuation
    that [sched()] resumes.  Effects that other parts of the
    system observe (wake-ups, characters sent to the console, disk writes)
    are emitted as a trace. *)

From Stdlib Require Import FunctionalExtensionality.
From S2P Require Import Prelude.

(** ** Names of the spin locks, by the C variable that holds them *)

Inductive lockname :=
| kmem_lock | supermem_lock
| pid_lock | wait_lock | proc_lock (i : Z)
| bcache_lock | log_lock | itable_lock | ftable_lock
| pipe_lock (pi : Z) | cons_lock | uart_tx_lock | vdisk_lock | tickslock | pr_lock
| sleeplk (a : Z).

#[global] Instance lockname_eq_dec : EqDecision lockname.
Proof. solve_decision. Defined.

(** ** Sleep channels, by the C address they stand for

    Two are no channels: [ch_cpu] marks a thread that [sched()] has switched
    away from, whose channel is in the process table, and [ch_dev] a memory
    barrier of a thread that goes on running, where devices can act. *)

Inductive channel :=
| ch_ticks | ch_log
| ch_pipe_nread (pi : Z) | ch_pipe_nwrite (pi : Z)
| ch_proc (i : Z) | ch_sleeplock (a : Z)
| ch_cons_r | ch_uart_tx_r | ch_disk_free | ch_buf (b : Z)
| ch_cpu | ch_dev.

#[global] Instance channel_eq_dec : EqDecision channel.
Proof. solve_decision. Defined.

Inductive event :=
| EvWakeup (c : channel)
| EvPutc (c : Z)
| EvDiskWrite (bno : Z) (data : list Z).

Abbreviation locks := (list lockname).

Inductive outcome (S A : Type) : Type :=
| Ret (a : A) (h : locks) (s : S)
| Panic (msg : string)
| OutOfFuel
| Undef
| Emit (e : event) (o : outcome S A)
| Sleep (c : channel) (s : S) (k : S -> outcome S A).
Arguments Ret {S A} a h s.
Arguments Panic {S A} msg.
Arguments OutOfFuel {S A}.
Arguments Undef {S A}.
Arguments Emit {S A} e o.
Arguments Sleep {S A} c s k.

Definition M (S A : Type) : Type := locks -> S -> outcome S A.

Fixpoint obind {S A B} (o : outcome S A) (f : A -> M S B) : outcome S B :=
  match o with
  | Ret a h s => f a h s
  | Panic msg => Panic msg
  | OutOfFuel => OutOfFuel
  | Undef => Undef
  | Emit e o => Emit e (obind o f)
  | Sleep c s k => Sleep c s (fun s' => obind (k s') f)
  end.

Definition ret {S A} (a : A) : M S A := fun h s => Ret a h s.
Definition bind {S A B} (m : M S A) (f : A -> M S B) : M S B :=
  fun h s => obind (m h s) f.

Declare Scope kmonad_scope.
Delimit Scope kmonad_scope with K.
Notation "x <- c ;; k" := (bind c (fun x => k))
  (at level 100, c at next level, right associativity) : kmonad_scope.
Notation "c1 ;; c2" := (bind c1 (fun _ => c2))
  (at level 100, right associativity) : kmonad_scope.
#[global] Open Scope kmonad_scope.

Definition get {S} : M S S := fun h s => Ret s h s.
Definition gets {S A} (f : S -> A) : M S A := fun h s => Ret (f s) h s.
Definition modify {S} (f : S -> S) : M S unit := fun h s => Ret tt h (f s).
Definition panic {S A} (msg : string) : M S A := fun _ _ => Panic msg.
Definition out_of_fuel {S A} : M S A := fun _ _ => OutOfFuel.
Definition undef {S A} : M S A := fun _ _ => Undef.
Definition emit {S} (e : event) : M S unit := fun h s => Emit e (Ret tt h s).
Definition wakeup {S} (c : channel) : M S unit := emit (EvWakeup c).

(** ** Spin locks, as the thread that runs sees them

    [acquire] panics on a lock this CPU already holds ([holding()] is true)
    and [release] panics on one it does not hold.  The machine-level
    implementation is in [Spinlock.v]. *)

Fixpoint remove_lock (l : lockname) (h : locks) : locks :=
  match h with
  | [] => []
  | x :: h' => if decide (x = l) then h' else x :: remove_lock l h'
  end.

(** [initlock] makes a lock free; no thread holds a lock before it is
    initialised. *)
Definition initlock {S} (l : lockname) : M S unit := ret tt.

Definition acquire {S} (l : lockname) : M S unit :=
  fun h s => if decide (l ∈ h) then Panic "acquire" else Ret tt (l :: h) s.

Definition release {S} (l : lockname) : M S unit :=
  fun h s => if decide (l ∈ h) then Ret tt (remove_lock l h) s else Panic "release".

(** [sleep(chan, lk)]: [release(lk)], [sched()], [acquire(lk)].  [sched]
    panics unless the only lock left is the process's own, that is, unless
    [lk] was the only lock of the caller. *)
Definition sleep {S} (c : channel) (l : lockname) : M S unit :=
  fun h s =>
    if decide (l ∈ h) then
      match remove_lock l h with
      | [] => Sleep c s (fun s' => Ret tt [l] s')
      | _ => Panic "sched locks"
      end
    else Panic "release".

(** ** Laws *)

Lemma bind_ret {S A B} (a : A) (f : A -> M S B) h s : bind (ret a) f h s = f a h s.
Proof. reflexivity. Qed.

Lemma bind_Ret {S A B} (m : M S A) (f : A -> M S B) h s a h' s' :
  m h s = Ret a h' s' -> bind m f h s = f a h' s'.
Proof. intros E. unfold bind. now rewrite E. Qed.

Lemma bind_Panic {S A B} (m : M S A) (f : A -> M S B) h s msg :
  m h s = Panic msg -> bind m f h s = Panic msg.
Proof. intros E. unfold bind. now rewrite E. Qed.

Lemma bind_gets {S A B} (g : S -> A) (f : A -> M S B) h s :
  bind (gets g) f h s = f (g s) h s.
Proof. reflexivity. Qed.

Lemma bind_modify {S B} (g : S -> S) (f : unit -> M S B) h s :
  bind (modify g) f h s = f tt h (g s).
Proof. reflexivity. Qed.

Lemma bind_bind {S A B C} (m : M S A) (f : A -> M S B) (g : B -> M S C) h s :
  bind (bind m f) g h s = bind m (fun a => bind (f a) g) h s.
Proof.
  unfold bind. induction (m h s) as [| | | |e o IH | c s' k IH]; cbn; auto.
  - now rewrite IH.
  - f_equal. extensionality s''. apply IH.
Qed.

Lemma acquire_free {S} l h (s : S) : l ∉ h -> acquire l h s = Ret tt (l :: h) s.
Proof. intros H. unfold acquire. now rewrite decide_False. Qed.

Lemma acquire_held {S} l h (s : S) : l ∈ h -> acquire l h s = Panic "acquire".
Proof. intros H. unfold acquire. now rewrite decide_True. Qed.

Lemma release_top {S} l h (s : S) : release l (l :: h) s = Ret tt h s.
Proof.
  unfold release. rewrite decide_True by apply list_elem_of_here. cbn.
  now rewrite decide_True.
Qed.

(** Total correctness: the computation returns, whatever it emits, and its
    result satisfies [Q].  It neither panics, sleeps nor runs out of fuel. *)
Fixpoint post {S A} (o : outcome S A) (Q : A -> locks -> S -> Prop) : Prop :=
  match o with
  | Ret a h s => Q a h s
  | Emit _ o => post o Q
  | _ => False
  end.

Lemma post_obind {S A B} (o : outcome S A) (f : A -> M S B) Q :
  post (obind o f) Q <-> post o (fun a h s => post (f a h s) Q).
Proof. induction o; cbn; auto; tauto. Qed.

Lemma post_bind {S A B} (m : M S A) (f : A -> M S B) h s Q :
  post (m h s) (fun a h' s' => post (f a h' s') Q) -> post (bind m f h s) Q.
Proof. apply post_obind. Qed.

Lemma post_mono {S A} (o : outcome S A) (P Q : A -> locks -> S -> Prop) :
  (forall a h s, P a h s -> Q a h s) -> post o P -> post o Q.
Proof. intros H. induction o; cbn; auto. Qed.

Create Rewrite HintDb kmonad.
#[export] Hint Rewrite @bind_ret @bind_gets @bind_modify @bind_bind @release_top : kmonad.
#[export] Hint Rewrite @acquire_free using (assumption || set_solver) : kmonad.

(** Run the straight-line part of a computation. *)
Ltac krun :=
  repeat first
    [ progress autorewrite with kmonad
    | erewrite bind_Ret by (first [eassumption | apply release_top
                                  | apply acquire_free; (assumption || set_solver)]) ].

(** ** Running one layer's computation inside a larger state *)

Fixpoint ozoom {S T A} (g : T -> S) (p : S -> T -> T) (o : outcome S A) (t : T)
  : outcome T A :=
  match o with
  | Ret a h s => Ret a h (p s t)
  | Panic msg => Panic msg
  | OutOfFuel => OutOfFuel
  | Undef => Undef
  | Emit e o => Emit e (ozoom g p o t)
  | Sleep c s k => Sleep c (p s t) (fun t' => ozoom g p (k (g t')) t')
  end.

Definition zoom {S T A} (g : T -> S) (p : S -> T -> T) (m : M S A) : M T A :=
  fun h t => ozoom g p (m h (g t)) t.

Lemma zoom_Ret {S T A} (g : T -> S) (p : S -> T -> T) (m : M S A) h t a h' s' :
  m h (g t) = Ret a h' s' -> zoom g p m h t = Ret a h' (p s' t).
Proof. intros E. unfold zoom. now rewrite E. Qed.
