(* ===== verification/Spinlock.v ===== *)
(** * Spin locks (kernel/spinlock.c)

    The machine below the kernel monad: CPUs that run [acquire] and [release]
    one memory access at a time, interleaved in any order.  CPU [c] has its
    [struct cpu] at address [c + 1]; 0 is the null pointer.  [push_off] and
    [pop_off] touch only the state of their own CPU and are single steps. *)

From Stdlib Require Import FunctionalExtensionality.
From S2P Require Import Prelude KMonad.

Record spinlock := Spin { locked : Z; lk_cpu : Z }.

(** The part of a CPU that locks use; [sie] is [intr_get()]. *)
Record cpu := Cpu { sie : bool; noff : Z; intena : bool }.

Definition initlock_word : spinlock := Spin 0 0.

Definition push_off (x : cpu) : cpu :=
  let old := sie x in
  Cpu false (i32 (noff x + 1)) (if noff x =? 0 then old else intena x).

(** [inl] is a panic. *)
Definition pop_off (x : cpu) : string + cpu :=
  if sie x then inl "pop_off - interruptible"%string
  else if noff x <? 1 then inl "pop_off"%string
  else
    let n := i32 (noff x - 1) in
    inr (Cpu ((n =? 0) && intena x) n (intena x)).

Definition holding (c : Z) (lk : spinlock) : bool :=
  negb (locked lk =? 0) && (lk_cpu lk =? c + 1).

(** ** The machine *)

(** Where a CPU is in [acquire] or [release], by the statement it runs next. *)
Inductive pc :=
| Client                        (* not in spinlock.c *)
| AcqPushOff (l : lockname)     (* push_off() *)
| AcqHolding (l : lockname)     (* if(holding(lk)) panic("acquire") *)
| AcqSwap (l : lockname)        (* while(__sync_lock_test_and_set(...) != 0) *)
| AcqCpu (l : lockname)         (* lk->cpu = mycpu() *)
| RelHolding (l : lockname)     (* if(!holding(lk)) panic("release") *)
| RelCpu (l : lockname)         (* lk->cpu = 0 *)
| RelSwap (l : lockname)        (* __sync_lock_release(&lk->locked) *)
| RelPopOff                     (* pop_off() *)
| Panicked (msg : string).

(** [held] and [extra] are not in memory: the locks a CPU has swapped in and
    not yet released, and its own calls of [push_off]. *)
Record machine := Machine {
  lks : lockname -> spinlock;
  cpus : Z -> cpu;
  pcs : Z -> pc;
  held : Z -> locks;
  extra : Z -> Z }.

Definition setl (l : lockname) (v : spinlock) (f : lockname -> spinlock) : lockname -> spinlock :=
  fun x => if decide (x = l) then v else f x.
Definition setc {A} (c : Z) (v : A) (f : Z -> A) : Z -> A := fun x => if x =? c then v else f x.

Definition at_pc (c : Z) (p : pc) (m : machine) : machine :=
  Machine (lks m) (cpus m) (setc c p (pcs m)) (held m) (extra m).
Definition set_lk (l : lockname) (v : spinlock) (m : machine) : machine :=
  Machine (setl l v (lks m)) (cpus m) (pcs m) (held m) (extra m).
Definition set_cpu (c : Z) (v : cpu) (m : machine) : machine :=
  Machine (lks m) (setc c v (cpus m)) (pcs m) (held m) (extra m).
Definition set_held (c : Z) (h : locks) (m : machine) : machine :=
  Machine (lks m) (cpus m) (pcs m) (setc c h (held m)) (extra m).
Definition set_extra (c : Z) (n : Z) (m : machine) : machine :=
  Machine (lks m) (cpus m) (pcs m) (held m) (setc c n (extra m)).

(** One access of CPU [c]. *)
Definition exec (c : Z) (m : machine) : machine :=
  match pcs m c with
  | Client | Panicked _ => m
  | AcqPushOff l => at_pc c (AcqHolding l) (set_cpu c (push_off (cpus m c)) m)
  | AcqHolding l =>
      if holding c (lks m l) then at_pc c (Panicked "acquire") m else at_pc c (AcqSwap l) m
  | AcqSwap l =>
      let old := locked (lks m l) in
      let m' := set_lk l (Spin 1 (lk_cpu (lks m l))) m in
      if negb (old =? 0) then m'
      else at_pc c (AcqCpu l) (set_held c (l :: held m c) m')
  | AcqCpu l => at_pc c Client (set_lk l (Spin (locked (lks m l)) (c + 1)) m)
  | RelHolding l =>
      if negb (holding c (lks m l)) then at_pc c (Panicked "release") m else at_pc c (RelCpu l) m
  | RelCpu l => at_pc c (RelSwap l) (set_lk l (Spin (locked (lks m l)) 0) m)
  | RelSwap l =>
      at_pc c RelPopOff (set_held c (remove_lock l (held m c)) (set_lk l (Spin 0 (lk_cpu (lks m l))) m))
  | RelPopOff =>
      match pop_off (cpus m c) with
      | inl msg => at_pc c (Panicked msg) m
      | inr x => at_pc c Client (set_cpu c x m)
      end
  end.

(** What the rest of the kernel does: it calls [acquire] and [release] on any
    lock, [push_off] and [pop_off] in pairs, and switches interrupts on and off
    only outside of them.  Nesting depth is bounded by the kernel stack. *)
Inductive step (m : machine) : machine -> Prop :=
| step_exec c : 0 <= c -> step m (exec c m)
| step_acquire c l : 0 <= c -> pcs m c = Client -> noff (cpus m c) < 2 ^ 31 - 1 -> step m (at_pc c (AcqPushOff l) m)
| step_release c l : 0 <= c -> pcs m c = Client -> step m (at_pc c (RelHolding l) m)
| step_push c : 0 <= c -> pcs m c = Client -> noff (cpus m c) < 2 ^ 31 - 1 ->
    step m (set_extra c (extra m c + 1) (set_cpu c (push_off (cpus m c)) m))
| step_pop c : 0 <= c -> pcs m c = Client -> 0 < extra m c ->
    step m (match pop_off (cpus m c) with
            | inl msg => at_pc c (Panicked msg) m
            | inr x => set_extra c (extra m c - 1) (set_cpu c x m)
            end)
| step_intr c b : 0 <= c -> pcs m c = Client -> noff (cpus m c) = 0 ->
    step m (set_cpu c (Cpu b 0 (intena (cpus m c))) m).

(** Every lock initialised, no CPU in a critical section. *)
Definition initial (m : machine) : Prop :=
  (forall l, lks m l = initlock_word) /\
  (forall c, pcs m c = Client /\ held m c = [] /\ extra m c = 0 /\ noff (cpus m c) = 0).

Inductive reachable : machine -> Prop :=
| reach_initial m : initial m -> reachable m
| reach_step m m' : reachable m -> step m m' -> reachable m'.

(** ** Invariant *)

(** The level of [push_off] a CPU in the middle of an operation has beyond its
    locks. *)
Definition pending (p : pc) : Z :=
  match p with AcqHolding _ | AcqSwap _ | RelPopOff => 1 | Panicked _ => 1 | _ => 0 end.

(** Depth that a CPU is about to use. *)
Definition reserve (p : pc) : Z := match p with AcqPushOff _ => 1 | _ => 0 end.

(** The owner has not recorded itself yet, or not any more. *)
Definition unrecorded (l : lockname) (p : pc) : Prop := p = AcqCpu l \/ p = RelSwap l.

Definition pc_ok (l : lockname) (h : locks) (p : pc) : Prop :=
  (p = AcqSwap l -> l ∉ h) /\ (p = AcqCpu l \/ p = RelCpu l \/ p = RelSwap l -> l ∈ h).

Record inv (m : machine) : Prop := {
  inv_word : forall l, locked (lks m l) = 0 \/ locked (lks m l) = 1;
  inv_free : forall l, locked (lks m l) = 0 <-> (forall c, 0 <= c -> l ∉ held m c);
  inv_mutex : forall l c c', 0 <= c -> 0 <= c' -> l ∈ held m c -> l ∈ held m c' -> c = c';
  inv_record : forall l c, 0 <= c -> lk_cpu (lks m l) = c + 1 <-> (l ∈ held m c /\ ~ unrecorded l (pcs m c));
  inv_nodup : forall c, 0 <= c -> NoDup (held m c);
  inv_pc : forall c l, 0 <= c -> pc_ok l (held m c) (pcs m c);
  inv_depth : forall c, 0 <= c -> (forall msg, pcs m c <> Panicked msg) ->
    noff (cpus m c) = Z.of_nat (length (held m c)) + extra m c + pending (pcs m c);
  inv_extra : forall c, 0 <= c -> 0 <= extra m c;
  inv_bound : forall c, 0 <= c -> 0 <= noff (cpus m c) /\ noff (cpus m c) + reserve (pcs m c) < 2 ^ 31;
  inv_intr : forall c, 0 <= c -> 0 < noff (cpus m c) -> sie (cpus m c) = false;
}.

Lemma setc_eq {A} c (v : A) f : setc c v f c = v.
Proof. unfold setc. now rewrite Z.eqb_refl. Qed.
Lemma setc_ne {A} c (v : A) f x : x <> c -> setc c v f x = f x.
Proof. intros H. unfold setc. now rewrite (proj2 (Z.eqb_neq x c) H). Qed.
Lemma setl_eq l v f : setl l v f l = v.
Proof. unfold setl. now rewrite decide_True. Qed.
Lemma setl_ne l v f x : x <> l -> setl l v f x = f x.
Proof. intros H. unfold setl. now rewrite decide_False. Qed.

Lemma elem_remove l x h : NoDup h -> x ∈ remove_lock l h <-> x ∈ h /\ x <> l.
Proof.
  induction h as [|y h IH]; cbn; intros Hn.
  - split; [intros H; now apply not_elem_of_nil in H | intros [H _]; now apply not_elem_of_nil in H].
  - apply NoDup_cons in Hn as [Hy Hn]. destruct (decide (y = l)) as [-> | Hyl]; rewrite !elem_of_cons.
    + split; [intros Hx; split; auto; intros ->; auto | intros [[-> | Hx] Hne]; [congruence | auto]].
    + rewrite IH by auto. split; [intros [-> | [Hx Hne]]; auto | intros [[-> | Hx] Hne]; auto].
Qed.

Lemma NoDup_remove l h : NoDup h -> NoDup (remove_lock l h).
Proof.
  induction h as [|y h IH]; cbn; intros Hn; auto. apply NoDup_cons in Hn as [Hy Hn].
  destruct (decide (y = l)); auto. apply NoDup_cons. split; auto. rewrite elem_remove by auto. tauto.
Qed.

Lemma length_remove l h : l ∈ h -> length h = S (length (remove_lock l h)).
Proof.
  induction h as [|y h IH]; cbn; intros Hl; [now apply not_elem_of_nil in Hl|].
  destruct (decide (y = l)) as [-> |]; auto. apply elem_of_cons in Hl as [-> | Hl]; [congruence|].
  cbn. f_equal. auto.
Qed.

(** What [holding] tells the CPU that asks. *)
Lemma holding_spec m c l : inv m -> 0 <= c -> ~ unrecorded l (pcs m c) ->
  holding c (lks m l) = true <-> l ∈ held m c.
Proof.
  intros I Hc Hu. unfold holding. rewrite andb_true_iff, negb_true_iff, Z.eqb_neq, Z.eqb_eq, (inv_record _ I) by auto.
  split; [tauto|]. intros Hl. split; auto. rewrite (inv_free _ I). intros Hf. now apply (Hf c).
Qed.

(** ** Preservation *)

(** A step of CPU [c] that changes only its control state and its own
    [struct cpu]. *)
Lemma inv_local m c p x e : inv m -> 0 <= c ->
  (forall l, unrecorded l p <-> unrecorded l (pcs m c)) -> (forall l, pc_ok l (held m c) p) ->
  ((forall msg, p <> Panicked msg) -> noff x = Z.of_nat (length (held m c)) + e + pending p) ->
  0 <= e -> 0 <= noff x /\ noff x + reserve p < 2 ^ 31 -> (0 < noff x -> sie x = false) ->
  inv (at_pc c p (set_cpu c x (set_extra c e m))).
Proof.
  intros [I1 I2 I3 I4 I5 I6 I7 I8 I9 I10] Hc Hu Hp Hd He Hb Hs.
  split; cbn; auto; intros.
  - destruct (Z.eq_dec c0 c) as [-> |]; [rewrite setc_eq, Hu | rewrite setc_ne by auto]; auto.
  - destruct (Z.eq_dec c0 c) as [-> |]; [rewrite setc_eq | rewrite setc_ne by auto]; auto.
  - destruct (Z.eq_dec c0 c) as [-> |]; [rewrite !setc_eq in * | rewrite !setc_ne in * by auto]; auto.
  - destruct (Z.eq_dec c0 c) as [-> |]; [rewrite !setc_eq in * | rewrite !setc_ne in * by auto]; auto.
  - destruct (Z.eq_dec c0 c) as [-> |]; [rewrite !setc_eq in * | rewrite !setc_ne in * by auto]; auto.
  - destruct (Z.eq_dec c0 c) as [-> |]; [rewrite !setc_eq in * | rewrite !setc_ne in * by auto]; auto.
Qed.

Lemma setc_id {A} c (f : Z -> A) : setc c (f c) f = f.
Proof. extensionality x. unfold setc. destruct (Z.eqb_spec x c); congruence. Qed.

Lemma set_cpu_id c m : set_cpu c (cpus m c) m = m.
Proof. destruct m. unfold set_cpu. cbn. now rewrite setc_id. Qed.

Lemma set_extra_id c m : set_extra c (extra m c) m = m.
Proof. destruct m. unfold set_extra. cbn. now rewrite setc_id. Qed.

Lemma at_pc_id c m : at_pc c (pcs m c) m = m.
Proof. destruct m. unfold at_pc. cbn. now rewrite setc_id. Qed.

Lemma inv_cpu m c p x : inv m -> 0 <= c ->
  (forall l, unrecorded l p <-> unrecorded l (pcs m c)) -> (forall l, pc_ok l (held m c) p) ->
  ((forall msg, p <> Panicked msg) -> noff x = Z.of_nat (length (held m c)) + extra m c + pending p) ->
  0 <= noff x /\ noff x + reserve p < 2 ^ 31 -> (0 < noff x -> sie x = false) ->
  inv (at_pc c p (set_cpu c x m)).
Proof.
  intros I Hc Hu Hp Hd Hb Hs. pose proof (inv_local m c p x (extra m c) I Hc Hu Hp Hd (inv_extra _ I c Hc) Hb Hs) as E.
  now rewrite set_extra_id in E.
Qed.

(** Only the control state changes. *)
Lemma inv_goto m c p : inv m -> 0 <= c ->
  (forall l, unrecorded l p <-> unrecorded l (pcs m c)) -> (forall l, pc_ok l (held m c) p) ->
  ((forall msg, p <> Panicked msg) -> (forall msg, pcs m c <> Panicked msg) /\ pending p = pending (pcs m c)) ->
  noff (cpus m c) + reserve p < 2 ^ 31 -> inv (at_pc c p m).
Proof.
  intros I Hc Hu Hp Hd Hb.
  rewrite <- (set_cpu_id c m) at 1.
  apply inv_cpu; auto; try apply (inv_intr _ I); auto; [|split; [now apply (inv_bound _ I) | auto]].
  intros Hn. destruct (Hd Hn) as [Hq ->]. now apply (inv_depth _ I).
Qed.

Ltac msplit c0 c := destruct (Z.eq_dec c0 c) as [-> |]; [rewrite ?setc_eq in * | rewrite ?setc_ne in * by auto].

(** The swap of [acquire] on a lock that is taken. *)
Lemma inv_spin m l : inv m -> locked (lks m l) <> 0 -> inv (set_lk l (Spin 1 (lk_cpu (lks m l))) m).
Proof.
  intros I Hl. assert (E : set_lk l (Spin 1 (lk_cpu (lks m l))) m = m); [|now rewrite E].
  destruct (inv_word _ I l) as [|E1]; [easy|]. destruct m as [f ? ? ? ?]. unfold set_lk. cbn in *. f_equal.
  extensionality y. unfold setl. destruct (decide (y = l)) as [-> |]; auto. destruct (f l). cbn in *. now subst.
Qed.

(** The swap of [acquire] that takes the lock. *)
Lemma inv_take m c l : inv m -> 0 <= c -> pcs m c = AcqSwap l -> locked (lks m l) = 0 ->
  inv (at_pc c (AcqCpu l) (set_held c (l :: held m c) (set_lk l (Spin 1 (lk_cpu (lks m l))) m))).
Proof.
  intros [I1 I2 I3 I4 I5 I6 I7 I8 I9 I10] Hc Hp Hl. pose proof (proj1 (I2 l) Hl) as Hfree.
  split; cbn; auto.
  - intros y. unfold setl. destruct (decide (y = l)); cbn; auto.
  - intros y. unfold setl. destruct (decide (y = l)) as [-> | Hy]; cbn.
    + split; [lia|]. intros Hn. specialize (Hn c Hc). rewrite setc_eq in Hn. destruct Hn. apply list_elem_of_here.
    + rewrite I2. split; intros Hn c0 Hc0; specialize (Hn c0 Hc0); msplit c0 c; auto;
        rewrite elem_of_cons in *; tauto.
  - intros y c0 c1 Hc0 Hc1. msplit c0 c; msplit c1 c; auto; rewrite ?elem_of_cons.
    + intros [-> | H0] H1; [now apply Hfree in H1 | now apply (I3 y)].
    + intros H0 [-> | H1]; [now apply Hfree in H0 | now apply (I3 y)].
    + now apply I3.
  - intros y c0 Hc0. assert (E : lk_cpu (setl l (Spin 1 (lk_cpu (lks m l))) (lks m) y) = lk_cpu (lks m y))
      by (unfold setl; now destruct (decide (y = l)) as [-> |]).
    rewrite E, I4 by auto. msplit c0 c; [|tauto]. rewrite Hp, elem_of_cons. unfold unrecorded.
    split; [intros [H0 H1]; split; auto; intros [[= ->] | [=]]; now apply Hfree in H0 | intros [[-> | H0] H1]].
    + destruct H1. auto. + split; auto. intros [[=] | [=]].
  - intros c0 Hc0. msplit c0 c; auto. apply NoDup_cons. auto.
  - intros c0 y Hc0. msplit c0 c; auto. split; [discriminate|]. rewrite elem_of_cons.
    intros [[= ->] | [[=] | [=]]]. auto.
  - intros c0 Hc0. msplit c0 c; auto. intros _. specialize (I7 c Hc). rewrite Hp in I7.
    cbn [length pending] in *. rewrite I7 by discriminate. lia.
  - intros c0 Hc0. specialize (I9 c0 Hc0). msplit c0 c; auto. rewrite Hp in I9. cbn in *. lia.
Qed.

(** [lk->cpu = mycpu()] *)
Lemma inv_record_cpu m c l : inv m -> 0 <= c -> pcs m c = AcqCpu l ->
  inv (at_pc c Client (set_lk l (Spin (locked (lks m l)) (c + 1)) m)).
Proof.
  intros [I1 I2 I3 I4 I5 I6 I7 I8 I9 I10] Hc Hp.
  assert (Hl : l ∈ held m c) by (apply (I6 c l Hc); auto).
  assert (E : forall y, locked (setl l (Spin (locked (lks m l)) (c + 1)) (lks m) y) = locked (lks m y))
    by (intros y; unfold setl; now destruct (decide (y = l)) as [-> |]).
  split; cbn; auto.
  - intros y. now rewrite E. - intros y. now rewrite E.
  - intros y c0 Hc0. destruct (decide (y = l)) as [-> | Hy].
    + rewrite setl_eq. cbn. msplit c0 c.
      * unfold unrecorded. split; [split; auto; intros [[=] | [=]] | auto].
      * split; [lia|]. intros [H0 _]. exfalso. match goal with N : c0 <> c |- _ => apply N end. now apply (I3 l).
    + rewrite setl_ne by auto. rewrite I4 by auto. msplit c0 c; [|tauto]. unfold unrecorded. rewrite Hp.
      split; intros [H0 H1]; split; auto; intros [[=] | [=]]; congruence.
  - intros c0 y Hc0. msplit c0 c; auto. split; [discriminate | intros [[=] | [[=] | [=]]]].
  - intros c0 Hc0. msplit c0 c; auto. intros _. rewrite I7, Hp by (auto; rewrite Hp; discriminate). reflexivity.
  - intros c0 Hc0. specialize (I9 c0 Hc0). msplit c0 c; auto. rewrite Hp in I9. cbn in *. lia.
Qed.

(** [lk->cpu = 0] *)
Lemma inv_unrecord m c l : inv m -> 0 <= c -> pcs m c = RelCpu l ->
  inv (at_pc c (RelSwap l) (set_lk l (Spin (locked (lks m l)) 0) m)).
Proof.
  intros [I1 I2 I3 I4 I5 I6 I7 I8 I9 I10] Hc Hp.
  assert (Hl : l ∈ held m c) by (apply (I6 c l Hc); auto).
  assert (E : forall y, locked (setl l (Spin (locked (lks m l)) 0) (lks m) y) = locked (lks m y))
    by (intros y; unfold setl; now destruct (decide (y = l)) as [-> |]).
  split; cbn; auto.
  - intros y. now rewrite E. - intros y. now rewrite E.
  - intros y c0 Hc0. destruct (decide (y = l)) as [-> | Hy].
    + rewrite setl_eq. cbn. split; [lia|]. msplit c0 c.
      * intros [_ H1]. destruct H1. now right.
      * intros [H0 _]. exfalso. match goal with N : c0 <> c |- _ => apply N end. now apply (I3 l).
    + rewrite setl_ne by auto. rewrite I4 by auto. msplit c0 c; [|tauto]. unfold unrecorded. rewrite Hp.
      split; intros [H0 H1]; split; auto; intros [[=] | [=]]; congruence.
  - intros c0 y Hc0. msplit c0 c; auto. split; [discriminate | intros [[=] | [[=] | [= ->]]]; auto].
  - intros c0 Hc0. msplit c0 c; auto. intros _. rewrite I7, Hp by (auto; rewrite Hp; discriminate). reflexivity.
  - intros c0 Hc0. specialize (I9 c0 Hc0). msplit c0 c; auto. rewrite Hp in I9. cbn in *. lia.
Qed.

(** [__sync_lock_release(&lk->locked)] *)
Lemma inv_drop m c l : inv m -> 0 <= c -> pcs m c = RelSwap l ->
  inv (at_pc c RelPopOff (set_held c (remove_lock l (held m c)) (set_lk l (Spin 0 (lk_cpu (lks m l))) m))).
Proof.
  intros [I1 I2 I3 I4 I5 I6 I7 I8 I9 I10] Hc Hp.
  assert (Hl : l ∈ held m c) by (apply (I6 c l Hc); auto). pose proof (I5 c Hc) as Hnd.
  split; cbn; auto.
  - intros y. unfold setl. destruct (decide (y = l)); cbn; auto.
  - intros y. unfold setl. destruct (decide (y = l)) as [-> | Hy]; cbn.
    + split; auto. intros _ c0 Hc0. msplit c0 c; [rewrite elem_remove by auto; tauto|].
      intros H0. match goal with N : c0 <> c |- _ => apply N end. now apply (I3 l).
    + rewrite I2. split; intros Hn c0 Hc0; specialize (Hn c0 Hc0); msplit c0 c; auto;
        rewrite elem_remove in * by auto; tauto.
  - intros y c0 c1 Hc0 Hc1 H0 H1. apply (I3 y); auto.
    + msplit c0 c; auto. now apply elem_remove in H0. + msplit c1 c; auto. now apply elem_remove in H1.
  - intros y c0 Hc0. assert (E : lk_cpu (setl l (Spin 0 (lk_cpu (lks m l))) (lks m) y) = lk_cpu (lks m y))
      by (unfold setl; now destruct (decide (y = l)) as [-> |]).
    rewrite E, I4 by auto. msplit c0 c; [|tauto]. rewrite Hp, elem_remove by auto. unfold unrecorded.
    split; [intros [H0 H1]; split; [split; auto; intros ->; auto | intros [[=] | [=]]]
           | intros [[H0 H1] _]; split; auto; intros [[=] | [=]]; congruence].
  - intros c0 Hc0. msplit c0 c; auto. now apply NoDup_remove.
  - intros c0 y Hc0. msplit c0 c; auto. split; [discriminate | intros [[=] | [[=] | [=]]]].
  - intros c0 Hc0. msplit c0 c; auto. intros _. rewrite I7, Hp by (auto; rewrite Hp; discriminate).
    rewrite (length_remove l (held m c)) by auto. cbn [pending]. lia.
  - intros c0 Hc0. specialize (I9 c0 Hc0). msplit c0 c; auto. rewrite Hp in I9. cbn in *. lia.
Qed.

Lemma push_off_spec x : 0 <= noff x < 2 ^ 31 - 1 -> noff (push_off x) = noff x + 1 /\ sie (push_off x) = false.
Proof. intros H. unfold push_off. cbn. rewrite i32_small by lia. auto. Qed.

Lemma pop_off_spec x : 0 < noff x < 2 ^ 31 -> sie x = false ->
  pop_off x = inr (Cpu ((noff x - 1 =? 0) && intena x) (noff x - 1) (intena x)).
Proof.
  intros H Hs. unfold pop_off. rewrite Hs. destruct (Z.ltb_spec (noff x) 1); [lia|].
  rewrite i32_small by lia. reflexivity.
Qed.

Lemma pc_ok_plain l h p :
  match p with AcqSwap _ | AcqCpu _ | RelCpu _ | RelSwap _ => False | _ => True end -> pc_ok l h p.
Proof. destruct p; intros []; split; try discriminate; intros [[=] | [[=] | [=]]]. Qed.

Lemma unrecorded_plain l p :
  match p with AcqCpu _ | RelSwap _ => False | _ => True end -> ~ unrecorded l p.
Proof. destruct p; intros []; intros [[=] | [=]]. Qed.

Lemma exec_inv m c : inv m -> 0 <= c -> inv (exec c m).
Proof.
  intros I Hc. unfold exec. pose proof (inv_bound _ I c Hc) as Hb. pose proof (inv_depth _ I c Hc) as Hd.
  pose proof (inv_intr _ I c Hc) as Hi. pose proof (inv_extra _ I c Hc) as He.
  destruct (pcs m c) as [| l | l | l | l | l | l | l | | msg] eqn:Hp; cbn [reserve] in Hb; auto.
  - destruct (push_off_spec (cpus m c)) as [E1 E2]; [cbn in Hb; lia|].
    apply inv_cpu; auto; try (rewrite E1; lia).
    + intros l'. rewrite Hp. split; intros Hu; now apply unrecorded_plain in Hu.
    + intros l'. now apply pc_ok_plain.
    + intros _. rewrite E1, Hd by discriminate. cbn [pending]. lia.
    + rewrite E1. cbn [reserve]. lia.
  - destruct (holding c (lks m l)) eqn:Hh.
    + apply inv_goto; auto; rewrite ?Hp; [| |intros H; now destruct (H "acquire"%string) | cbn [reserve]; lia].
      * intros l'. split; intros Hu; now apply unrecorded_plain in Hu.
      * intros l'. now apply pc_ok_plain.
    + apply inv_goto; auto; rewrite ?Hp; [| |intros _; split; [discriminate | reflexivity] | cbn [reserve]; lia].
      * intros l'. split; intros Hu; now apply unrecorded_plain in Hu.
      * intros l'. split; [intros [= <-] Hin | intros [[=] | [[=] | [=]]]].
        apply (holding_spec m c l I Hc) in Hin; [congruence|]. rewrite Hp. now apply unrecorded_plain.
  - destruct (Z.eqb_spec (locked (lks m l)) 0); cbn [negb]; [now apply inv_take | now apply inv_spin].
  - now apply inv_record_cpu.
  - destruct (holding c (lks m l)) eqn:Hh; cbn [negb].
    + apply inv_goto; auto; rewrite ?Hp; [| |intros _; split; [discriminate | reflexivity] | cbn [reserve]; lia].
      * intros l'. split; intros Hu; now apply unrecorded_plain in Hu.
      * intros l'. split; [discriminate|]. intros [[=] | [[= <-] | [=]]].
        apply (holding_spec m c l I Hc); [|auto]. rewrite Hp. now apply unrecorded_plain.
    + apply inv_goto; auto; rewrite ?Hp; [| |intros H; now destruct (H "release"%string) | cbn [reserve]; lia].
      * intros l'. split; intros Hu; now apply unrecorded_plain in Hu.
      * intros l'. now apply pc_ok_plain.
  - now apply inv_unrecord.
  - now apply inv_drop.
  - specialize (Hd ltac:(discriminate)). cbn [pending] in Hd.
    rewrite pop_off_spec by (try apply Hi; lia).
    apply inv_cpu; auto; cbn [noff sie reserve pending]; try lia.
    + intros l'. rewrite Hp. split; intros Hu; now apply unrecorded_plain in Hu.
    + intros l'. now apply pc_ok_plain.
Qed.

(** The client's own [push_off], [pop_off] and interrupt switches. *)
Lemma inv_client m c x e : inv m -> 0 <= c -> pcs m c = Client ->
  noff x = Z.of_nat (length (held m c)) + e -> 0 <= e -> 0 <= noff x < 2 ^ 31 -> (0 < noff x -> sie x = false) ->
  inv (set_extra c e (set_cpu c x m)).
Proof.
  intros I Hc Hp Hd He Hb Hs.
  assert (E : set_extra c e (set_cpu c x m) = at_pc c Client (set_cpu c x (set_extra c e m))).
  { destruct m as [? ? f ? ?]. unfold at_pc, set_cpu, set_extra. cbn in *. f_equal. rewrite <- Hp. now rewrite setc_id. }
  rewrite E. apply inv_local; auto; rewrite ?Hp; cbn [pending reserve]; try lia; try tauto.
  intros l. now apply pc_ok_plain.
Qed.

Lemma step_inv m m' : inv m -> step m m' -> inv m'.
Proof.
  intros I Hs.
  assert (Hplain : forall c p, 0 <= c -> pcs m c = Client ->
    match p with AcqPushOff _ | RelHolding _ => True | _ => False end ->
    noff (cpus m c) + reserve p < 2 ^ 31 -> inv (at_pc c p m)).
  { intros c p Hc Hp Hq Hb. apply inv_goto; auto; rewrite ?Hp.
    - intros l. split; intros Hu; [|now apply unrecorded_plain in Hu]. destruct p; try contradiction; now apply unrecorded_plain in Hu.
    - intros l. apply pc_ok_plain. destruct p; auto.
    - intros _. split; [discriminate | destruct p; try contradiction; reflexivity]. }
  destruct Hs as [c Hc | c l Hc Hp Hb | c l Hc Hp | c Hc Hp Hb | c Hc Hp He | c b Hc Hp Hn].
  - now apply exec_inv.
  - apply Hplain; auto. cbn. lia.
  - apply Hplain; auto. pose proof (inv_bound _ I c Hc). cbn [reserve]. rewrite Hp in *. cbn in *. lia.
  - pose proof (inv_bound _ I c Hc) as Hb'. pose proof (inv_depth _ I c Hc) as Hd. rewrite Hp in *. cbn [reserve pending] in *.
    specialize (Hd ltac:(discriminate)). pose proof (inv_extra _ I c Hc).
    destruct (push_off_spec (cpus m c)) as [E1 E2]; [lia|].
    apply (inv_client m c); auto; rewrite ?E1; auto; lia.
  - pose proof (inv_bound _ I c Hc) as Hb'. pose proof (inv_depth _ I c Hc) as Hd. rewrite Hp in *. cbn [reserve pending] in *.
    specialize (Hd ltac:(discriminate)).
    rewrite pop_off_spec; [|lia | apply (inv_intr _ I c Hc); lia].
    apply (inv_client m c); auto; cbn [noff sie]; try lia.
  - pose proof (inv_depth _ I c Hc) as Hd. rewrite Hp in *. cbn [pending] in Hd. specialize (Hd ltac:(discriminate)).
    rewrite <- (set_extra_id c (set_cpu c (Cpu b 0 (intena (cpus m c))) m)).
    apply (inv_client m c); auto; cbn; try lia. apply (inv_extra _ I c Hc).
Qed.

Lemma initial_inv m : initial m -> inv m.
Proof.
  intros [Hl Hc]. split.
  - intros l. rewrite Hl. auto.
  - intros l. rewrite Hl. split; auto. intros _ c _. destruct (Hc c) as (_ & -> & _). apply not_elem_of_nil.
  - intros l c c' _ _ Hin. destruct (Hc c) as (_ & E & _). rewrite E in Hin. now apply not_elem_of_nil in Hin.
  - intros l c H0. rewrite Hl. cbn. destruct (Hc c) as (_ & E & _). rewrite E. split; [lia|].
    intros [Hin _]. now apply not_elem_of_nil in Hin.
  - intros c _. destruct (Hc c) as (_ & -> & _). apply NoDup_nil_2.
  - intros c l _. destruct (Hc c) as (-> & _). now apply pc_ok_plain.
  - intros c _ _. destruct (Hc c) as (-> & -> & -> & ->). reflexivity.
  - intros c _. destruct (Hc c) as (_ & _ & -> & _). lia.
  - intros c _. destruct (Hc c) as (-> & _ & _ & ->). cbn. lia.
  - intros c _. destruct (Hc c) as (_ & _ & _ & ->). lia.
Qed.

Lemma reachable_inv m : reachable m -> inv m.
Proof. induction 1; [now apply initial_inv | now apply (step_inv m)]. Qed.

(** ** Correctness of spin locks

    Mutual exclusion under every interleaving of the memory accesses of any
    number of CPUs, and the agreement of the machine with the kernel monad's
    view of locks. *)

Lemma exec_msg m c msg : inv m -> 0 <= c -> pcs (exec c m) c = Panicked msg ->
  pcs m c = Panicked msg \/ msg = "acquire"%string \/ msg = "release"%string.
Proof.
  intros I Hc. unfold exec. pose proof (inv_bound _ I c Hc) as Hb. pose proof (inv_depth _ I c Hc) as Hd.
  pose proof (inv_intr _ I c Hc) as Hi. pose proof (inv_extra _ I c Hc) as He.
  destruct (pcs m c) as [| l | l | l | l | l | l | l | | msg'] eqn:Hp.
  - rewrite Hp. discriminate.
  - cbn. rewrite setc_eq. discriminate.
  - destruct (holding _ _); cbn; rewrite setc_eq; [intros [= <-]; auto | discriminate].
  - destruct (negb _); cbn; [rewrite Hp | rewrite setc_eq]; discriminate.
  - cbn. rewrite setc_eq. discriminate.
  - destruct (negb _); cbn; rewrite setc_eq; [intros [= <-]; auto | discriminate].
  - cbn. rewrite setc_eq. discriminate.
  - cbn. rewrite setc_eq. discriminate.
  - specialize (Hd ltac:(discriminate)). cbn [pending reserve] in *. rewrite pop_off_spec by (try apply Hi; lia).
    cbn. rewrite setc_eq. discriminate.
  - rewrite Hp. auto.
Qed.

Lemma exec_pcs_ne m c c' : c' <> c -> pcs (exec c m) c' = pcs m c'.
Proof.
  intros Hne. unfold exec. destruct (pcs m c); auto; try (destruct (_ : bool)); try (destruct (pop_off _));
    cbn; rewrite ?setc_ne; auto.
Qed.

Lemma reachable_msg m : reachable m -> forall c msg, 0 <= c -> pcs m c = Panicked msg ->
  msg = "acquire"%string \/ msg = "release"%string.
Proof.
  induction 1 as [m [_ Hc] | m m' Hr IH Hs]; intros c msg H0 Hp; [destruct (Hc c); congruence|].
  pose proof (reachable_inv m Hr) as I.
  assert (Hat : forall c' p, (forall msg', p <> Panicked msg') -> setc c' p (pcs m) c = Panicked msg -> pcs m c = Panicked msg).
  { intros c' p Hq. destruct (Z.eq_dec c c') as [-> |]; [rewrite setc_eq; intros ->; now destruct (Hq msg) | now rewrite setc_ne]. }
  destruct Hs as [c' Hc' | c' l Hc' Hq Hb | c' l Hc' Hq | c' Hc' Hq Hb | c' Hc' Hq He | c' b Hc' Hq Hn].
  - destruct (Z.eq_dec c c') as [-> |].
    + destruct (exec_msg m c' msg I Hc' Hp) as [E | E]; [now apply (IH c') | auto].
    + rewrite exec_pcs_ne in Hp by auto. now apply (IH c).
  - apply (IH c); auto. now apply Hat in Hp.
  - apply (IH c); auto. now apply Hat in Hp.
  - now apply (IH c).
  - pose proof (inv_bound _ I c' Hc') as Hb. pose proof (inv_depth _ I c' Hc') as Hd. rewrite Hq in *.
    specialize (Hd ltac:(discriminate)). cbn [pending reserve] in *.
    rewrite pop_off_spec in Hp; [now apply (IH c) | lia | apply (inv_intr _ I c' Hc'); lia].
  - now apply (IH c).
Qed.

(** C16: Mutual exclusion.  However the CPUs interleave their memory accesses,
    no two of them are past the swap of [acquire] and before that of [release]
    on the same lock; a CPU that holds a lock has its interrupts off; and the
    only panics are those of a CPU that acquires a lock it holds or releases
    one it does not hold, never those of [pop_off]. *)
Theorem spinlock_mutual_exclusion m : reachable m ->
  (forall l c c', 0 <= c -> 0 <= c' -> l ∈ held m c -> l ∈ held m c' -> c = c') /\
  (forall c, 0 <= c -> (forall msg, pcs m c <> Panicked msg) -> held m c <> [] -> sie (cpus m c) = false) /\
  (forall c msg, 0 <= c -> pcs m c = Panicked msg -> msg = "acquire"%string \/ msg = "release"%string).
Proof.
  intros Hr. pose proof (reachable_inv m Hr) as I. split_and!.
  - apply I.
  - intros c Hc Hp Hh. apply (inv_intr _ I c Hc). rewrite (inv_depth _ I c Hc Hp).
    pose proof (inv_extra _ I c Hc). destruct (held m c); [easy|]. cbn [length].
    assert (0 <= pending (pcs m c)) by (destruct (pcs m c); cbn; lia). lia.
  - now apply reachable_msg.
Qed.

(** C19: The machine implements the locks of the kernel monad.  On a CPU that
    holds the locks [h], the check of [acquire] panics exactly when the
    monad's [acquire] does, and the swap takes the lock at the first attempt
    after it is free, leaving the CPU with the locks the monad returns and no
    other CPU with this lock; likewise for [release]. *)
Theorem spinlock_refines_monad {S} m c (s : S) : reachable m -> 0 <= c ->
  let h := held m c in
  let m' := exec c m in
  (forall l, pcs m c = AcqHolding l ->
     (pcs m' c = Panicked "acquire" /\ acquire l h s = Panic "acquire") \/
     (pcs m' c = AcqSwap l /\ acquire l h s = Ret tt (l :: h) s)) /\
  (forall l, pcs m c = AcqSwap l ->
     (locked (lks m l) <> 0 /\ pcs m' c = AcqSwap l /\ held m' c = h) \/
     (locked (lks m l) = 0 /\ acquire l h s = Ret tt (held m' c) s /\
      forall c', 0 <= c' -> c' <> c -> l ∉ held m' c')) /\
  (forall l, pcs m c = RelHolding l ->
     (pcs m' c = Panicked "release" /\ release l h s = Panic "release") \/
     (pcs m' c = RelCpu l /\ exists h', release l h s = Ret tt h' s)) /\
  (forall l, pcs m c = RelSwap l ->
     release l h s = Ret tt (held m' c) s /\ forall c', 0 <= c' -> l ∉ held m' c').
Proof.
  intros Hr Hc h m'. pose proof (reachable_inv m Hr) as I. subst h m'. split_and!; intros l Hp.
  - assert (Hh : holding c (lks m l) = true <-> l ∈ held m c).
    { apply holding_spec; auto. rewrite Hp. now apply unrecorded_plain. }
    unfold exec. rewrite Hp. destruct (holding c (lks m l)).
    + left. cbn. rewrite setc_eq. split; auto. apply acquire_held. now apply Hh.
    + right. cbn. rewrite setc_eq. split; auto. apply acquire_free. intros Hin. now apply Hh in Hin.
  - unfold exec. rewrite Hp. destruct (Z.eqb_spec (locked (lks m l)) 0) as [E | E]; cbn; [right | left; auto].
    pose proof (proj1 (inv_free _ I l) E) as Hf. split_and!; auto.
    + rewrite setc_eq. apply acquire_free. now apply Hf.
    + intros c' Hc' Hne. rewrite setc_ne by auto. now apply Hf.
  - assert (Hh : holding c (lks m l) = true <-> l ∈ held m c).
    { apply holding_spec; auto. rewrite Hp. now apply unrecorded_plain. }
    unfold exec, release. rewrite Hp. destruct (holding c (lks m l)); cbn; rewrite setc_eq.
    + right. split; auto. rewrite decide_True by now apply Hh. eauto.
    + left. split; auto. rewrite decide_False; auto. intros Hin. now apply Hh in Hin.
  - assert (Hl : l ∈ held m c) by (apply (inv_pc _ I c l Hc); auto).
    unfold exec, release. rewrite Hp. cbn. rewrite setc_eq, decide_True by auto. split; auto.
    intros c' Hc'. destruct (Z.eq_dec c' c) as [-> |].
    + rewrite setc_eq, elem_remove by now apply (inv_nodup _ I). tauto.
    + rewrite setc_ne by auto. intros Hin. pose proof (inv_mutex _ I l c' c Hc' Hc Hin Hl). auto.
Qed.

(** ** Example: CPU 0 holds [kmem.lock] while CPU 1 spins on it *)

Definition demo_boot_machine : machine :=
  Machine (fun _ => initlock_word) (fun _ => Cpu true 0 true) (fun _ => Client) (fun _ => []) (fun _ => 0).

Definition demo_machine : machine :=
  exec 1 (exec 1 (exec 1 (at_pc 1 (AcqPushOff kmem_lock)
    (exec 0 (exec 0 (exec 0 (exec 0 (at_pc 0 (AcqPushOff kmem_lock) demo_boot_machine)))))))).

Lemma demo_reachable : reachable demo_machine.
Proof.
  unfold demo_machine.
  repeat (eapply reach_step; [|apply step_exec; lia]).
  eapply reach_step; [|apply step_acquire; [lia | reflexivity | reflexivity]].
  repeat (eapply reach_step; [|apply step_exec; lia]).
  eapply reach_step; [|apply step_acquire; [lia | reflexivity | reflexivity]].
  apply reach_initial. split; [reflexivity|]. intros c. repeat split.
Qed.

Lemma spinlock_mutual_exclusion_witness :
  (held demo_machine 0 = [kmem_lock] /\ pcs demo_machine 1 = AcqSwap kmem_lock) /\
  (forall c', 0 <= c' -> kmem_lock ∈ held demo_machine 0 -> kmem_lock ∈ held demo_machine c' -> 0 = c') /\
  sie (cpus demo_machine 0) = false.
Proof.
  pose proof (spinlock_mutual_exclusion demo_machine demo_reachable) as (A & B & _). split_and!.
  - reflexivity. - reflexivity.
  - intros c' Hc' H0 H1. apply (A kmem_lock); auto. lia.
  - apply B; [lia | discriminate | discriminate].
Defined.

Lemma spinlock_refines_monad_witness :
  pcs demo_machine 1 = AcqSwap kmem_lock /\ locked (lks demo_machine kmem_lock) = 1 /\
  pcs (exec 1 demo_machine) 1 = AcqSwap kmem_lock.
Proof.
  pose proof (spinlock_refines_monad demo_machine 1 tt demo_reachable ltac:(lia)) as (_ & B & _).
  split_and!; [reflexivity | reflexivity |]. destruct (B kmem_lock eq_refl) as [(_ & E & _) | (E & _)]; [exact E | discriminate E].
Defined.
