(* ===== verification/Riscv.v ===== *)
(** * Architectural constants and macros

    The definitions of [kernel/riscv.h], [kernel/memlayout.h] and
    [kernel/param.h] that the memory subsystem uses, with the bit-level facts
    about page-table entries and virtual addresses.  C's [uint64] arithmetic
    wraps at 64 bits ([u64]). *)

From S2P Require Import Prelude.

(** ** param.h *)

Definition NPROC : Z := 64.
Definition NCPU : Z := 8.
Definition NOFILE : Z := 16.
Definition NFILE : Z := 100.
Definition NINODE : Z := 50.
Definition NDEV : Z := 10.
Definition ROOTDEV : Z := 1.
Definition MAXARG : Z := 32.
Definition MAXOPBLOCKS : Z := 10.
Definition LOGSIZE : Z := MAXOPBLOCKS * 3.
Definition NBUF : Z := MAXOPBLOCKS * 3.
Definition FSSIZE : Z := 2000.
Definition MAXPATH : Z := 128.
Definition USERSTACK : Z := 1.

(** ** riscv.h: pages, page-table entries, virtual addresses *)

Definition PGSIZE : Z := 4096.
Definition PGSHIFT : Z := 12.
Definition SUPERPGSIZE : Z := 2 * Z.shiftl 1 20.
Definition SUPERPGROUNDUP (sz : Z) : Z :=
  Z.land (u64 (sz + SUPERPGSIZE - 1)) (Z.lnot (SUPERPGSIZE - 1)).
Definition PGROUNDUP (sz : Z) : Z := Z.land (u64 (sz + PGSIZE - 1)) (Z.lnot (PGSIZE - 1)).
Definition PGROUNDDOWN (a : Z) : Z := Z.land a (Z.lnot (PGSIZE - 1)).

Definition PTE_V : Z := Z.shiftl 1 0.
Definition PTE_R : Z := Z.shiftl 1 1.
Definition PTE_W : Z := Z.shiftl 1 2.
Definition PTE_X : Z := Z.shiftl 1 3.
Definition PTE_U : Z := Z.shiftl 1 4.

Definition PTE_LEAF (pte : Z) : Z :=
  Z.lor (Z.lor (Z.land pte PTE_R) (Z.land pte PTE_W)) (Z.land pte PTE_X).

Definition PA2PTE (pa : Z) : Z := u64 (Z.shiftl (Z.shiftr pa 12) 10).
Definition PTE2PA (pte : Z) : Z := u64 (Z.shiftl (Z.shiftr pte 10) 12).
Definition PTE_FLAGS (pte : Z) : Z := Z.land pte 0x3FF.

Definition PXMASK : Z := 0x1FF.
Definition PXSHIFT (level : Z) : Z := PGSHIFT + 9 * level.
Definition PX (level va : Z) : Z := Z.land (Z.shiftr va (PXSHIFT level)) PXMASK.

Definition MAXVA : Z := Z.shiftl 1 (9 + 9 + 9 + 12 - 1).

Definition SATP_SV39 : Z := Z.shiftl 8 60.
Definition MAKE_SATP (pagetable : Z) : Z := Z.lor SATP_SV39 (Z.shiftr pagetable 12).

(** ** memlayout.h *)

Definition UART0 : Z := 0x10000000.
Definition UART0_IRQ : Z := 10.
Definition VIRTIO0 : Z := 0x10001000.
Definition VIRTIO0_IRQ : Z := 1.
Definition PLIC : Z := 0x0c000000.
Definition KERNBASE : Z := 0x80000000.
Definition PHYSTOP : Z := KERNBASE + 128 * 1024 * 1024.
Definition TRAMPOLINE : Z := MAXVA - PGSIZE.
Definition KSTACK (p : Z) : Z := TRAMPOLINE - (p + 1) * 2 * PGSIZE.
Definition TRAPFRAME : Z := TRAMPOLINE - PGSIZE.

(** ** Linker symbols

    [kernel.ld] fixes these when the kernel is linked; the code only uses
    their addresses. *)

Class Layout := {
  kend : Z;        (** [end[]]: first address after the kernel *)
  etext : Z;       (** [etext[]]: end of kernel code *)
  trampoline : Z   (** [trampoline[]]: the page of [trampoline.S] *)
}.

(** What [kernel.ld] guarantees: the image starts at [KERNBASE], its text is
    padded to whole pages and the trampoline is one of them. *)
Class LayoutOk `{Layout} : Prop := {
  kend_range : KERNBASE < kend <= PHYSTOP;
  etext_range : KERNBASE < etext <= kend;
  etext_aligned : etext mod PGSIZE = 0;
  trampoline_range : KERNBASE <= trampoline < etext;
  trampoline_aligned : trampoline mod PGSIZE = 0
}.

(** The symbols of the checked-in build, [kernel/kernel.sym]. *)
#[export] Instance xv6_layout : Layout :=
  {| kend := 0x80020fd0; etext := 0x80007000; trampoline := 0x80006000 |}.

#[export] Instance xv6_layout_ok : LayoutOk (H := xv6_layout).
Proof. constructor; vm_compute; intuition congruence. Qed.

(** ** Facts *)

Lemma PGROUNDDOWN_eq a : PGROUNDDOWN a = a - a mod PGSIZE.
Proof. apply (land_lnot_ones a 12). lia. Qed.

Lemma PGROUNDUP_eq sz : 0 <= sz <= 2 ^ 64 - PGSIZE ->
  PGROUNDUP sz = (sz + PGSIZE - 1) - (sz + PGSIZE - 1) mod PGSIZE.
Proof.
  intros H. unfold PGROUNDUP. rewrite u64_small by (unfold PGSIZE in *; lia).
  apply (land_lnot_ones _ 12). lia.
Qed.

Lemma PGROUNDUP_spec sz : 0 <= sz <= 2 ^ 64 - PGSIZE ->
  PGROUNDUP sz mod PGSIZE = 0 /\ sz <= PGROUNDUP sz < sz + PGSIZE.
Proof.
  intros H. rewrite PGROUNDUP_eq by auto. unfold PGSIZE in *.
  pose proof (Z.mod_pos_bound (sz + 4096 - 1) 4096 ltac:(lia)).
  split; [| lia].
  rewrite Zminus_mod, Z.mod_mod by lia. now rewrite Z.sub_diag.
Qed.

Lemma PGROUNDUP_aligned sz : 0 <= sz <= 2 ^ 64 - PGSIZE -> sz mod PGSIZE = 0 ->
  PGROUNDUP sz = sz.
Proof.
  intros H Ha. destruct (PGROUNDUP_spec sz H) as [A B]. unfold PGSIZE in *.
  Z.div_mod_to_equations. lia.
Qed.

Lemma PX_eq level va : 0 <= level -> PX level va = (va / 2 ^ PXSHIFT level) mod 512.
Proof.
  intros H. unfold PX, PXMASK. rewrite Z.shiftr_div_pow2 by (unfold PXSHIFT, PGSHIFT; lia).
  apply (Z.land_ones _ 9). lia.
Qed.

Lemma PX_range level va : 0 <= level -> 0 <= PX level va < 512.
Proof. intros H. rewrite PX_eq by auto. apply Z.mod_pos_bound. lia. Qed.

Lemma land_low x f k : 0 <= k -> 0 <= f < 2 ^ k -> Z.land x f = Z.land (x mod 2 ^ k) f.
Proof.
  intros Hk Hf. apply Z.bits_inj'. intros i Hi. rewrite !Z.land_spec.
  destruct (Z.lt_ge_cases i k).
  - now rewrite Z.mod_pow2_bits_low by lia.
  - rewrite <- (Z.mod_small f (2 ^ k)) by lia.
    rewrite (Z.mod_pow2_bits_high f) by lia. now rewrite !andb_false_r.
Qed.

Lemma lor_add x y k : 0 <= k -> x mod 2 ^ k = 0 -> 0 <= y < 2 ^ k -> Z.lor x y = x + y.
Proof.
  intros Hk Hx Hy. symmetry. rewrite Z.add_nocarry_lxor; [apply Z.lxor_lor |].
  all: rewrite (land_low x y k) by auto; now rewrite Hx, Z.land_0_l.
Qed.

Lemma lor_flags_range p f : 0 <= p < 1024 -> 0 <= f < 1024 -> 0 <= Z.lor p f < 1024.
Proof.
  intros Hp Hf. assert (0 <= Z.lor p f) by (apply Z.lor_nonneg; lia).
  split; auto. change 1024 with (2 ^ 10).
  destruct (Z.eq_dec (Z.lor p f) 0) as [-> | Hne]; [lia |].
  apply Z.log2_lt_pow2; [lia |]. rewrite Z.log2_lor by lia.
  apply Z.max_lub_lt.
  - destruct (Z.eq_dec p 0) as [-> | ]; [cbn; lia | apply Z.log2_lt_pow2; lia].
  - destruct (Z.eq_dec f 0) as [-> | ]; [cbn; lia | apply Z.log2_lt_pow2; lia].
Qed.

(** The entry the kernel stores for a mapping: [PA2PTE(pa) | perm | PTE_V]. *)
Definition mkpte (pa perm : Z) : Z := Z.lor (Z.lor (PA2PTE pa) perm) PTE_V.

Section pte.
Context (pa perm : Z).
Context (Hpa : 0 <= pa < 2 ^ 56) (Hal : pa mod PGSIZE = 0) (Hperm : 0 <= perm < 1024).

Lemma PA2PTE_eq : PA2PTE pa = pa / 4096 * 1024.
Proof using Hpa.
  clear Hal Hperm perm. unfold PA2PTE. rewrite Z.shiftr_div_pow2, Z.shiftl_mul_pow2 by lia.
  apply u64_small. change (2 ^ 12) with 4096. Z.div_mod_to_equations. lia.
Qed.

Lemma mkpte_eq : mkpte pa perm = pa / 4096 * 1024 + Z.lor perm PTE_V.
Proof using Hpa Hperm.
  clear Hal.
  unfold mkpte. rewrite <- Z.lor_assoc, PA2PTE_eq.
  apply (lor_add _ _ 10); [lia | |].
  - change (2 ^ 10) with 1024. apply Z.mod_mul. lia.
  - apply lor_flags_range; [auto | vm_compute; intuition congruence].
Qed.

Lemma mkpte_range : 0 <= mkpte pa perm < 2 ^ 64.
Proof using Hpa Hperm.
  clear Hal.
  rewrite mkpte_eq.
  pose proof (lor_flags_range perm PTE_V Hperm ltac:(vm_compute; intuition congruence)).
  Z.div_mod_to_equations. lia.
Qed.

(** Encoding a physical address in an entry and decoding it gives it back. *)
Lemma PTE2PA_mkpte : PTE2PA (mkpte pa perm) = pa.
Proof using Hpa Hal Hperm.
  pose proof (lor_flags_range perm PTE_V Hperm ltac:(vm_compute; intuition congruence)).
  unfold PTE2PA. rewrite mkpte_eq, Z.shiftr_div_pow2, Z.shiftl_mul_pow2 by lia.
  change (2 ^ 10) with 1024. change (2 ^ 12) with 4096.
  rewrite Z.div_add_l, (Z.div_small (Z.lor _ _)), Z.add_0_r by lia.
  unfold PGSIZE in Hal. pose proof (Z.div_mod pa 4096 ltac:(lia)).
  rewrite u64_small; lia.
Qed.

Lemma mkpte_flags : PTE_FLAGS (mkpte pa perm) = Z.lor perm PTE_V.
Proof using Hpa Hperm.
  pose proof (lor_flags_range perm PTE_V Hperm ltac:(vm_compute; intuition congruence)).
  unfold PTE_FLAGS. rewrite mkpte_eq.
  change 0x3FF with (Z.ones 10). rewrite Z.land_ones by lia. change (2 ^ 10) with 1024.
  rewrite Z.add_comm, Z.mod_add by lia. now apply Z.mod_small.
Qed.

Lemma mkpte_land f : 0 <= f < 1024 -> Z.land (mkpte pa perm) f = Z.land (Z.lor perm PTE_V) f.
Proof using Hpa Hperm.
  intros Hf. rewrite (land_low _ f 10) by (auto; lia).
  rewrite <- Z.land_ones by lia. change (Z.ones 10) with 0x3FF.
  fold (PTE_FLAGS (mkpte pa perm)). now rewrite mkpte_flags.
Qed.

Lemma mkpte_valid : Z.land (mkpte pa perm) PTE_V = 1.
Proof using Hpa Hperm.
  rewrite mkpte_land by (vm_compute; intuition congruence).
  apply Z.bits_inj'. intros i Hi. rewrite Z.land_spec, Z.lor_spec.
  change PTE_V with 1. destruct (Z.testbit 1 i); [now rewrite orb_true_r | now rewrite andb_false_r].
Qed.
End pte.
