(* ===== verification/Mem.v ===== *)
(** * Byte-addressed memory and the routines of [kernel/string.c]

    Physical memory is a total map from addresses to bytes; the kernel's
    direct map makes a kernel pointer its physical address.  The loops of
    [string.c] are transcribed as they are written and each is proved equal
    to a closed form, which the other components then compute with. *)

From Stdlib Require Import FunctionalExtensionality.
From S2P Require Import Prelude.

Abbreviation memory := (Z -> Z).

Definition upd (m : memory) (a v : Z) : memory := fun x => if x =? a then v else m x.

(** ** memset, memcmp, memmove *)

(** [for(i = 0; i < n; i++) cdst[i] = c;]: [k] iterations are left. *)
Fixpoint memset_loop (m : memory) (cdst c i : Z) (k : nat) : memory :=
  match k with
  | O => m
  | S k' => memset_loop (upd m (cdst + i) (u8 c)) cdst c (i + 1) k'
  end.

Definition c_memset (m : memory) (dst c n : Z) : memory :=
  memset_loop m dst c 0 (Z.to_nat n).

(** Closed form of [memset]. *)
Definition memset (m : memory) (dst c n : Z) : memory :=
  fun x => if (dst <=? x) && (x <? dst + n) then u8 c else m x.

Fixpoint memcmp (m : memory) (s1 s2 : Z) (n : nat) : Z :=
  match n with
  | O => 0
  | S n' => if m s1 =? m s2 then memcmp m (s1 + 1) (s2 + 1) n' else m s1 - m s2
  end.

(** [while(n-- > 0) *--d = *--s;] *)
Fixpoint move_down (m : memory) (d s : Z) (n : nat) : memory :=
  match n with
  | O => m
  | S n' => move_down (upd m (d - 1) (m (s - 1))) (d - 1) (s - 1) n'
  end.

(** [while(n-- > 0) *d++ = *s++;] *)
Fixpoint move_up (m : memory) (d s : Z) (n : nat) : memory :=
  match n with
  | O => m
  | S n' => move_up (upd m d (m s)) (d + 1) (s + 1) n'
  end.

Definition c_memmove (m : memory) (dst src n : Z) : memory :=
  if n =? 0 then m
  else if (src <? dst) && (dst <? src + n)
       then move_down m (dst + n) (src + n) (Z.to_nat n)
       else move_up m dst src (Z.to_nat n).

(** Closed form of [memmove]: every byte of the destination is the byte the
    source held before the call. *)
Definition memmove (m : memory) (dst src n : Z) : memory :=
  fun x => if (dst <=? x) && (x <? dst + n) then m (src + (x - dst)) else m x.

(** ** C strings *)

Fixpoint strncmp (m : memory) (p q : Z) (n : nat) : Z :=
  match n with
  | O => 0
  | S n' => if negb (m p =? 0) && (m p =? m q) then strncmp m (p + 1) (q + 1) n'
            else m p - m q
  end.

(** [while(n-- > 0) *s++ = 0;] *)
Fixpoint zero_rest (m : memory) (s : Z) (n : nat) : memory :=
  match n with
  | O => m
  | S n' => zero_rest (upd m s 0) (s + 1) n'
  end.

Fixpoint strncpy (m : memory) (s t : Z) (n : nat) : memory :=
  match n with
  | O => m
  | S n' =>
      let c := m t in
      let m' := upd m s c in
      if c =? 0 then zero_rest m' (s + 1) n' else strncpy m' (s + 1) (t + 1) n'
  end.

(** [while(--n > 0 && ( *s++ = *t++ ) != 0); *s = 0;]: [k] is [n - 1]. *)
Fixpoint safestrcpy_loop (m : memory) (s t : Z) (k : nat) : memory :=
  match k with
  | O => upd m s 0
  | S k' =>
      let c := m t in
      let m' := upd m s c in
      if c =? 0 then upd m' (s + 1) 0 else safestrcpy_loop m' (s + 1) (t + 1) k'
  end.

Definition safestrcpy (m : memory) (s t n : Z) : memory :=
  if n <=? 0 then m else safestrcpy_loop m s t (Z.to_nat (n - 1)).

(** [for(n = 0; s[n]; n++);]: [None] when no NUL is met within [fuel]. *)
Fixpoint strlen_loop (fuel : nat) (m : memory) (s n : Z) : option Z :=
  match fuel with
  | O => None
  | S fuel' => if m (s + n) =? 0 then Some n else strlen_loop fuel' m s (n + 1)
  end.

Definition strlen (fuel : nat) (m : memory) (s : Z) : option Z := strlen_loop fuel m s 0.

(** The string [l] is stored at [s], NUL-terminated. *)
Fixpoint cstr (m : memory) (s : Z) (l : list Z) : Prop :=
  match l with
  | [] => m s = 0
  | c :: l' => m s = c /\ c <> 0 /\ cstr m (s + 1) l'
  end.

(** ** Words in memory, little-endian *)

Fixpoint load (n : nat) (m : memory) (a : Z) : Z :=
  match n with
  | O => 0
  | S n' => m a + 256 * load n' m (a + 1)
  end.

Fixpoint store (n : nat) (m : memory) (a v : Z) : memory :=
  match n with
  | O => m
  | S n' => store n' (upd m a (v mod 256)) (a + 1) (v / 256)
  end.

Definition load64 (m : memory) (a : Z) : Z := load 8 m a.
Definition store64 (m : memory) (a v : Z) : memory := store 8 m a v.

(** Every cell holds a byte. *)
Definition bytes_ok (m : memory) : Prop := forall a, 0 <= m a < 256.

(** * Proofs *)

Ltac mem_case := unfold upd, memset, memmove in *; change (u8 0) with 0 in *; zb.

Lemma upd_eq m a v : upd m a v a = v.
Proof. mem_case. Qed.

Lemma upd_ne m a v x : x <> a -> upd m a v x = m x.
Proof. intros. mem_case. Qed.

Lemma memset_loop_closed m d c i k :
  memset_loop m d c i k =
  fun x => if (d + i <=? x) && (x <? d + i + Z.of_nat k) then u8 c else m x.
Proof.
  revert m i. induction k as [|k IH]; intros m i; cbn [memset_loop].
  - extensionality x. zb.
  - rewrite IH. extensionality x. mem_case.
Qed.

(** The loop of [memset] computes its closed form. *)
Lemma c_memset_closed m dst c n : c_memset m dst c n = memset m dst c n.
Proof.
  unfold c_memset. rewrite memset_loop_closed. extensionality x.
  rewrite Z.add_0_r. mem_case.
Qed.

Lemma move_up_closed m d s n :
  d <= s \/ s + Z.of_nat n <= d -> move_up m d s n = memmove m d s (Z.of_nat n).
Proof.
  revert m d s. induction n as [|n IH]; intros m d s H; cbn [move_up].
  - extensionality x. mem_case.
  - rewrite IH by lia. extensionality x. mem_case; f_equal; lia.
Qed.

Lemma move_down_closed m d s n :
  s <= d -> move_down m d s n = memmove m (d - Z.of_nat n) (s - Z.of_nat n) (Z.of_nat n).
Proof.
  revert m d s. induction n as [|n IH]; intros m d s H; cbn [move_down].
  - extensionality x. mem_case.
  - rewrite IH by lia. extensionality x. mem_case; f_equal; lia.
Qed.

(** [memmove] picks the direction in which it copies so that overlapping
    ranges do not destroy source bytes before they are read. *)
Lemma c_memmove_closed m dst src n : 0 <= n -> c_memmove m dst src n = memmove m dst src n.
Proof.
  intros Hn. unfold c_memmove.
  destruct (Z.eqb_spec n 0) as [-> | Hn0]; [extensionality x; mem_case |].
  destruct ((src <? dst) && (dst <? src + n)) eqn:E; zb.
  - rewrite move_down_closed by lia. rewrite Z2Nat.id by lia. f_equal; lia.
  - rewrite move_up_closed by lia. now rewrite Z2Nat.id by lia.
  - rewrite move_up_closed by lia. now rewrite Z2Nat.id by lia.
Qed.

Lemma memcmp_zero m s1 s2 n :
  memcmp m s1 s2 n = 0 <-> forall i, 0 <= i < Z.of_nat n -> m (s1 + i) = m (s2 + i).
Proof.
  revert s1 s2. induction n as [|n IH]; intros s1 s2; cbn [memcmp]; [split; [lia | auto] |].
  destruct (Z.eqb_spec (m s1) (m s2)) as [E | E].
  - rewrite IH. split; intros H i Hi.
    + destruct (Z.eq_dec i 0) as [-> | ]; [now rewrite !Z.add_0_r |].
      replace (s1 + i) with (s1 + 1 + (i - 1)) by lia.
      replace (s2 + i) with (s2 + 1 + (i - 1)) by lia. apply H. lia.
    + rewrite <- !Z.add_assoc. apply H. lia.
  - split; [lia |]. intros H. specialize (H 0 ltac:(lia)). rewrite !Z.add_0_r in H. lia.
Qed.

(** ** Strings *)

(** The bytes at [p] up to the first NUL, at most [n] of them. *)
Fixpoint bstr (m : memory) (p : Z) (n : nat) : list Z :=
  match n with
  | O => []
  | S n' => if m p =? 0 then [] else m p :: bstr m (p + 1) n'
  end.

Lemma bstr_ext m m' p n :
  (forall x, p <= x < p + Z.of_nat n -> m x = m' x) -> bstr m p n = bstr m' p n.
Proof.
  revert p. induction n as [|n IH]; intros p H; cbn [bstr]; [reflexivity |].
  rewrite (H p) by lia. rewrite (IH (p + 1)); [reflexivity |]. intros. apply H. lia.
Qed.

Lemma length_bstr m p n : (length (bstr m p n) <= n)%nat.
Proof.
  revert p. induction n as [|n IH]; intros p; cbn [bstr]; [cbn; lia |].
  destruct (m p =? 0); cbn [length]; [lia |]. specialize (IH (p + 1)). lia.
Qed.

(** [strncmp] decides equality of the two strings cut at [n] bytes. *)
Lemma strncmp_zero m p q n : strncmp m p q n = 0 <-> bstr m p n = bstr m q n.
Proof.
  revert p q. induction n as [|n IH]; intros p q; cbn [strncmp bstr]; [tauto |].
  destruct (Z.eqb_spec (m p) 0) as [Ep | Ep], (Z.eqb_spec (m q) 0) as [Eq | Eq],
           (Z.eqb_spec (m p) (m q)) as [E | E]; cbn [negb andb];
    try (split; [lia | congruence]); try lia.
  - split; [auto | lia].
  - rewrite IH, E. split; [intros ->; auto | intros H; now injection H].
Qed.

Lemma zero_rest_closed m s n : zero_rest m s n = memset m s 0 (Z.of_nat n).
Proof.
  revert m s. induction n as [|n IH]; intros m s; cbn [zero_rest].
  - extensionality x. mem_case.
  - rewrite IH. extensionality x. mem_case.
Qed.

Lemma strncpy_out m s t n x : x < s \/ s + Z.of_nat n <= x -> strncpy m s t n x = m x.
Proof.
  revert m s t. induction n as [|n IH]; intros m s t H; cbn [strncpy]; [reflexivity |].
  destruct (m t =? 0).
  - rewrite zero_rest_closed. mem_case.
  - rewrite IH by lia. mem_case.
Qed.

(** [strncpy] copies the string and pads the destination with NULs: byte [i]
    of the destination is byte [i] of the source string, or 0 past its end. *)
Lemma strncpy_spec m s t n i :
  t + Z.of_nat n <= s \/ s + Z.of_nat n <= t ->
  (i < n)%nat ->
  strncpy m s t n (s + Z.of_nat i) = nth i (bstr m t n) 0.
Proof.
  revert m s t i. induction n as [|n IH]; intros m s t i Hd Hi; [lia |].
  cbn [strncpy bstr]. destruct (Z.eqb_spec (m t) 0) as [E | E].
  - rewrite zero_rest_closed. destruct i; cbn [nth]; mem_case.
  - destruct i as [|i]; cbn [nth].
    + rewrite strncpy_out by lia. mem_case.
    + replace (s + Z.of_nat (S i)) with (s + 1 + Z.of_nat i) by lia.
      rewrite IH by lia. f_equal. apply bstr_ext. intros. mem_case.
Qed.

Lemma safestrcpy_loop_out m s t k x :
  x < s \/ s + Z.of_nat k < x -> safestrcpy_loop m s t k x = m x.
Proof.
  revert m s t. induction k as [|k IH]; intros m s t H; cbn [safestrcpy_loop]; [mem_case |].
  destruct (m t =? 0); [mem_case |]. rewrite IH by lia. mem_case.
Qed.

Lemma safestrcpy_loop_spec m s t k :
  t + Z.of_nat k < s \/ s + Z.of_nat k < t ->
  cstr (safestrcpy_loop m s t k) s (bstr m t k).
Proof.
  revert m s t. induction k as [|k IH]; intros m s t H; cbn [safestrcpy_loop bstr].
  - cbn. apply upd_eq.
  - destruct (Z.eqb_spec (m t) 0) as [E | E]; cbn [cstr].
    + mem_case.
    + rewrite safestrcpy_loop_out by lia. split_and!; [mem_case | auto |].
      rewrite (bstr_ext m (upd m s (m t))) by (intros; mem_case). apply IH. lia.
Qed.

(** [safestrcpy] always NUL-terminates: the destination holds the source
    string cut at [n - 1] bytes. *)
Lemma safestrcpy_spec m s t n :
  0 < n -> t + n <= s \/ s + n <= t ->
  cstr (safestrcpy m s t n) s (bstr m t (Z.to_nat (n - 1))).
Proof.
  intros Hn Hd. unfold safestrcpy. zb. apply safestrcpy_loop_spec. lia.
Qed.

Lemma safestrcpy_out m s t n x : x < s \/ s + n <= x -> safestrcpy m s t n x = m x.
Proof.
  intros H. unfold safestrcpy. zb. apply safestrcpy_loop_out. lia.
Qed.

Lemma cstr_app m s l k :
  cstr m s l -> (k <= length l)%nat -> cstr m (s + Z.of_nat k) (drop k l).
Proof.
  revert s l. induction k as [|k IH]; intros s l H Hk; [now rewrite Z.add_0_r |].
  destruct l as [|c l]; cbn in Hk; [lia |]. cbn [drop].
  replace (s + Z.of_nat (S k)) with (s + 1 + Z.of_nat k) by lia.
  apply IH; [apply H | lia].
Qed.

Lemma strlen_loop_spec fuel m s n l :
  cstr m (s + n) l -> (length l < fuel)%nat ->
  strlen_loop fuel m s n = Some (n + Z.of_nat (length l)).
Proof.
  revert n l. induction fuel as [|fuel IH]; intros n l H Hf; [lia |]. cbn [strlen_loop].
  destruct l as [|c l]; cbn in H.
  - rewrite H. cbn. f_equal. lia.
  - destruct H as (E & Hc & H). rewrite (proj2 (Z.eqb_neq _ _)) by congruence.
    rewrite (IH (n + 1) l); [cbn [length]; f_equal; lia | now rewrite Z.add_assoc |].
    cbn in Hf. lia.
Qed.

(** [strlen] finds the end of a NUL-terminated string. *)
Lemma strlen_spec fuel m s l :
  cstr m s l -> (length l < fuel)%nat -> strlen fuel m s = Some (Z.of_nat (length l)).
Proof.
  intros H Hf. unfold strlen. rewrite (strlen_loop_spec fuel m s 0 l); auto.
  now rewrite Z.add_0_r.
Qed.

(** ** Loads and stores *)

Lemma load_ext n m m' a :
  (forall x, a <= x < a + Z.of_nat n -> m x = m' x) -> load n m a = load n m' a.
Proof.
  revert a. induction n as [|n IH]; intros a H; cbn [load]; [reflexivity |].
  rewrite (H a) by lia. rewrite (IH (a + 1)); [reflexivity |]. intros. apply H. lia.
Qed.

Lemma store_out n m a v x : x < a \/ a + Z.of_nat n <= x -> store n m a v x = m x.
Proof.
  revert m a v. induction n as [|n IH]; intros m a v H; cbn [store]; [reflexivity |].
  rewrite IH by lia. apply upd_ne. lia.
Qed.

Lemma load_store_eq n m a v : load n (store n m a v) a = v mod 256 ^ Z.of_nat n.
Proof.
  revert m a v. induction n as [|n IH]; intros m a v; cbn [load store].
  - now rewrite Z.mod_1_r.
  - rewrite store_out by lia. rewrite upd_eq, IH.
    rewrite Nat2Z.inj_succ, Z.pow_succ_r by lia.
    assert (0 < 256 ^ Z.of_nat n) by (apply Z.pow_pos_nonneg; lia).
    rewrite Z.rem_mul_r by lia. lia.
Qed.

Lemma load_store_ne n k m a b v :
  a + Z.of_nat n <= b \/ b + Z.of_nat k <= a -> load n (store k m b v) a = load n m a.
Proof. intros H. apply load_ext. intros x Hx. apply store_out. lia. Qed.

Lemma load_range n m a : bytes_ok m -> 0 <= load n m a < 256 ^ Z.of_nat n.
Proof.
  intros Hm. revert a. induction n as [|n IH]; intros a; cbn [load]; [lia |].
  specialize (IH (a + 1)). specialize (Hm a).
  rewrite Nat2Z.inj_succ, Z.pow_succ_r by lia. lia.
Qed.

Lemma load_zero n m a : (forall x, a <= x < a + Z.of_nat n -> m x = 0) -> load n m a = 0.
Proof.
  revert a. induction n as [|n IH]; intros a H; cbn [load]; [reflexivity |].
  rewrite (H a) by lia. rewrite IH; [reflexivity |]. intros. apply H. lia.
Qed.

Lemma load64_store64_eq m a v : 0 <= v < 2 ^ 64 -> load64 (store64 m a v) a = v.
Proof.
  intros H. unfold load64, store64. rewrite load_store_eq. apply Z.mod_small.
  change (256 ^ Z.of_nat 8) with (2 ^ 64). lia.
Qed.

Lemma load64_store64_ne m a b v : a + 8 <= b \/ b + 8 <= a -> load64 (store64 m b v) a = load64 m a.
Proof. apply (load_store_ne 8 8). Qed.

Lemma load64_range m a : bytes_ok m -> 0 <= load64 m a < 2 ^ 64.
Proof. apply (load_range 8). Qed.

Lemma load64_ext m m' a : (forall x, a <= x < a + 8 -> m x = m' x) -> load64 m a = load64 m' a.
Proof. apply (load_ext 8). Qed.

Lemma load_shift n m m' : forall a b, (forall i, 0 <= i < Z.of_nat n -> m' (a + i) = m (b + i)) -> load n m' a = load n m b.
Proof.
  induction n as [|n IH]; intros a b Hm; [reflexivity |]. cbn [load]. f_equal.
  - specialize (Hm 0 ltac:(lia)). now rewrite !Z.add_0_r in Hm.
  - f_equal. apply IH. intros i Hi. specialize (Hm (i + 1) ltac:(lia)).
    replace (a + 1 + i) with (a + (i + 1)) by lia. replace (b + 1 + i) with (b + (i + 1)) by lia. exact Hm.
Qed.

Lemma load64_shift m m' a b : (forall i, 0 <= i < 8 -> m' (a + i) = m (b + i)) -> load64 m' a = load64 m b.
Proof. apply (load_shift 8). Qed.

Lemma load64_memset0 m d n a : d <= a -> a + 8 <= d + n -> load64 (memset m d 0 n) a = 0.
Proof. intros. apply load_zero. intros x Hx. mem_case. Qed.

Lemma memset_out m d c n x : x < d \/ d + n <= x -> memset m d c n x = m x.
Proof. intros. mem_case. Qed.

Lemma memmove_out m d s n x : x < d \/ d + n <= x -> memmove m d s n x = m x.
Proof. intros. mem_case. Qed.

Lemma memset_in m d c n x : d <= x < d + n -> memset m d c n x = u8 c.
Proof. intros. mem_case. Qed.

Lemma memmove_in m d s n x : d <= x < d + n -> memmove m d s n x = m (s + (x - d)).
Proof. intros. mem_case. Qed.

Lemma store64_out m a v x : x < a \/ a + 8 <= x -> store64 m a v x = m x.
Proof. apply (store_out 8). Qed.

(** ** Cells stay bytes *)

Lemma bytes_ok_upd m a v : bytes_ok m -> 0 <= v < 256 -> bytes_ok (upd m a v).
Proof. intros Hm Hv x. unfold upd. destruct (x =? a); auto. Qed.

Lemma bytes_ok_memset m d c n : bytes_ok m -> bytes_ok (memset m d c n).
Proof.
  intros Hm x. unfold memset. destruct (_ && _); auto. apply Z.mod_pos_bound. lia.
Qed.

Lemma bytes_ok_memmove m d s n : bytes_ok m -> bytes_ok (memmove m d s n).
Proof. intros Hm x. unfold memmove. destruct (_ && _); auto. Qed.

Lemma bytes_ok_store n m a v : bytes_ok m -> bytes_ok (store n m a v).
Proof.
  revert m a v. induction n as [|n IH]; intros m a v Hm; cbn [store]; auto.
  apply IH, bytes_ok_upd; auto. apply Z.mod_pos_bound. lia.
Qed.

Lemma bytes_ok_store64 m a v : bytes_ok m -> bytes_ok (store64 m a v).
Proof. apply bytes_ok_store. Qed.

#[export] Hint Resolve bytes_ok_memset bytes_ok_memmove bytes_ok_store bytes_ok_store64 : core.

#[global] Opaque load64 store64 memset memmove.

(** ** Theorems about [kernel/string.c] *)

(** [memmove], including its choice of copying direction, gives every byte
    of the destination the value its source byte had before the call, also when
    the ranges overlap, and changes nothing else. *)
Theorem memmove_correct m dst src n x : 0 <= n ->
  c_memmove m dst src n x =
  if (dst <=? x) && (x <? dst + n) then m (src + (x - dst)) else m x.
Proof. intros Hn. now rewrite c_memmove_closed. Qed.

Lemma memmove_correct_witness :
  c_memmove (fun a => a) 3 1 4 6 = 4 /\ c_memmove (fun a => a) 1 3 4 1 = 3.
Proof. split; rewrite memmove_correct by lia; reflexivity. Defined.

(** [strncmp] returns 0 exactly when the two strings, cut at their NUL or
    at [n] bytes, are equal. *)
Theorem strncmp_correct m p q n :
  strncmp m p q n = 0 <-> bstr m p n = bstr m q n.
Proof. apply strncmp_zero. Qed.

(** [safestrcpy] into a disjoint buffer of [n] > 0 bytes leaves there the
    source string cut at [n - 1] bytes, always NUL-terminated, writes nothing
    outside the buffer, and [strlen] of the result is the length of that
    string. *)
Theorem safestrcpy_correct m s t n :
  0 < n -> t + n <= s \/ s + n <= t ->
  cstr (safestrcpy m s t n) s (bstr m t (Z.to_nat (n - 1))) /\
  (forall x, x < s \/ s + n <= x -> safestrcpy m s t n x = m x) /\
  strlen (Z.to_nat n) (safestrcpy m s t n) s
    = Some (Z.of_nat (length (bstr m t (Z.to_nat (n - 1))))).
Proof.
  intros Hn Hd. pose proof (safestrcpy_spec m s t n Hn Hd) as Hc. split_and!; auto.
  - intros x. apply safestrcpy_out.
  - apply strlen_spec; auto. pose proof (length_bstr m t (Z.to_nat (n - 1))). lia.
Qed.

Lemma safestrcpy_correct_witness :
  strlen 4 (safestrcpy (fun a => if a <? 105 then a else 0) 200 100 4) 200 = Some 3.
Proof.
  destruct (safestrcpy_correct (fun a => if a <? 105 then a else 0) 200 100 4
    ltac:(lia) ltac:(lia)) as (_ & _ & E). exact E.
Defined.
