(* ===== verification/Printf.v ===== *)
(** * Kernel formatted output, [kernel/printf.c]

    [printf] walks the format string by index, takes its arguments from the
    [va_list] and sends characters through [consputc].  The digit buffer of
    [printint] has 16 cells; a write past it is undefined behaviour, here
    [None]. *)

From S2P Require Import Prelude KMonad.

(** [va_arg] cells: a 64-bit register, or a string pointer ([None] is NULL). *)
Inductive va :=
| VInt (v : Z)
| VStr (s : option (list Z)).

Definition digits (base_upper : Z) (d : Z) : Z :=
  if d <? 10 then 48 + d else base_upper + (d - 10).

(** [char buf[16]]: the cells written so far, in order. *)
Definition PRINTBUF : Z := 16.
Definition buf_put (buf : list Z) (c : Z) : option (list Z) :=
  if Z.of_nat (length buf) <? PRINTBUF then Some (buf ++ [c]) else None.

(** [do { buf[i++] = digits[x % base]; } while((x /= base) != 0);] *)
Fixpoint digit_loop (fuel : nat) (up x base : Z) (buf : list Z) : option (list Z) :=
  match fuel with
  | O => None
  | S fuel' =>
      match buf_put buf (digits up (x mod base)) with
      | None => None
      | Some buf' =>
          let x := x / base in
          if x =? 0 then Some buf' else digit_loop fuel' up x base buf'
      end
  end.

(** 64 rounds are enough for a 64-bit value in any base. *)
Definition DIGIT_FUEL : nat := 64.

(** [printint(long long xx, int base, int sign)]: the characters sent. *)
Definition printint (xx base : Z) (sign : bool) : option (list Z) :=
  let neg := sign && (xx <? 0) in
  let x := if neg then u64 (- xx) else u64 xx in
  match digit_loop DIGIT_FUEL 97 x base [] with
  | None => None
  | Some buf =>
      match (if neg then buf_put buf 45 else Some buf) with
      | None => None
      | Some buf' => Some (rev buf')
      end
  end.

(** [for(i = 0; i < 16; i++, x <<= 4) consputc(digits[x >> 60]);] *)
Fixpoint printptr_loop (k : nat) (up x : Z) : list Z :=
  match k with
  | O => []
  | S k' => digits up (Z.shiftr x 60) :: printptr_loop k' up (u64 (Z.shiftl x 4))
  end.

Definition printptr (x : Z) : list Z := 48 :: 120 :: printptr_loop 16 97 x.

Definition null_str : list Z := [40; 110; 117; 108; 108; 41].

(** [va_arg(ap, int)]: the low 32 bits, sign-extended. *)
Definition va_int (ap : list va) : option (Z * list va) :=
  match ap with VInt v :: ap' => Some (i32 v, ap') | _ => None end.
Definition va_u64 (ap : list va) : option (Z * list va) :=
  match ap with VInt v :: ap' => Some (u64 v, ap') | _ => None end.
(** Reading a [uint64] argument as [long long]. *)
Definition i64 (x : Z) : Z := (x + 2 ^ 63) mod 2 ^ 64 - 2 ^ 63.

Definition chr (fmt : list Z) (i : Z) : Z := nthZ 0 fmt i.

Definition and_then {A B} (o : option A) (f : A -> option B) : option B :=
  match o with Some a => f a | None => None end.

(** One conversion: the characters printed, the arguments left and by how
    much [i] moves past [c0]. *)
Definition conversion (c0 c1 c2 : Z) (ap : list va) : option (list Z * list va * Z) :=
  let num (get : list va -> option (Z * list va)) (base : Z) (sign : bool) (skip : Z) :=
    and_then (get ap) (fun '(v, ap') =>
    and_then (printint v base sign) (fun out => Some (out, ap', skip))) in
  let va_ll ap := and_then (va_u64 ap) (fun '(v, ap') => Some (i64 v, ap')) in
  if c0 =? 100 then num va_int 10 true 0
  else if (c0 =? 108) && (c1 =? 100) then num va_ll 10 true 1
  else if (c0 =? 108) && (c1 =? 108) && (c2 =? 100) then num va_ll 10 true 2
  else if c0 =? 117 then num va_int 10 false 0
  else if (c0 =? 108) && (c1 =? 117) then num va_ll 10 false 1
  else if (c0 =? 108) && (c1 =? 108) && (c2 =? 117) then num va_ll 10 false 2
  else if c0 =? 120 then num va_int 16 false 0
  else if (c0 =? 108) && (c1 =? 120) then num va_ll 16 false 1
  else if (c0 =? 108) && (c1 =? 108) && (c2 =? 120) then num va_ll 16 false 2
  else if c0 =? 112 then
    and_then (va_u64 ap) (fun '(v, ap') => Some (printptr v, ap', 0))
  else if c0 =? 115 then
    match ap with
    | VStr None :: ap' => Some (null_str, ap', 0)
    | VStr (Some s) :: ap' => Some (s, ap', 0)
    | _ => None
    end
  else if c0 =? 37 then Some ([37], ap, 0)
  else Some ([37; c0], ap, 0).

(** The loop of [printf] from index [i]. *)
Fixpoint printf_loop (fuel : nat) (fmt : list Z) (i : Z) (ap : list va) : option (list Z) :=
  match fuel with
  | O => None
  | S fuel' =>
      let cx := chr fmt i in
      if cx =? 0 then Some []
      else if negb (cx =? 37) then
        option_map (cons cx) (printf_loop fuel' fmt (i + 1) ap)
      else
        let i := i + 1 in
        let c0 := chr fmt i in
        let c1 := if c0 =? 0 then 0 else chr fmt (i + 1) in
        let c2 := if c1 =? 0 then 0 else chr fmt (i + 2) in
        if c0 =? 0 then Some []
        else
          and_then (conversion c0 c1 c2 ap) (fun '(out, ap', skip) =>
          option_map (app out) (printf_loop fuel' fmt (i + skip + 1) ap'))
  end.

Definition format (fmt : list Z) (ap : list va) : option (list Z) :=
  printf_loop (S (length fmt)) fmt 0 ap.

(** Characters of a Rocq string, for the format literals of the kernel. *)
Definition bytes_of (s : string) : list Z :=
  map (fun c => Z.of_nat (Ascii.nat_of_ascii c)) (list_ascii_of_string s).

(** ** Output *)

Definition uartputc_sync {S} (c : Z) : M S unit := emit (EvPutc (u8 c)).

Definition BACKSPACE : Z := 0x100.

Definition consputc {S} (c : Z) : M S unit :=
  if c =? BACKSPACE then
    uartputc_sync 8;; uartputc_sync 32;; uartputc_sync 8
  else uartputc_sync c.

Fixpoint consputs {S} (l : list Z) : M S unit :=
  match l with
  | [] => ret tt
  | c :: l' => consputc c;; consputs l'
  end.

(** After [printfinit], [pr.locking] is 1: [printf] holds [pr.lock]. *)
Definition printf {S} (fmt : list Z) (ap : list va) : M S unit :=
  acquire pr_lock;;
  match format fmt ap with
  | Some out => consputs out
  | None => undef
  end;;
  release pr_lock.

(** ** Theorems about [printint] of [kernel/printf.c]

    What [printint] prints, read back as a number, is its argument; the
    16-byte buffer is enough for every hexadecimal value, and for decimal
    values up to 16 characters. *)

(** Reading a printed number. *)
Definition digit_val (c : Z) : Z := if c <? 58 then c - 48 else c - 87.
Definition parse (base : Z) (cs : list Z) : Z :=
  fold_left (fun v c => v * base + digit_val c) cs 0.

(** The same, least significant digit first. *)
Fixpoint value_le (base : Z) (cs : list Z) : Z :=
  match cs with
  | [] => 0
  | c :: cs' => digit_val c + base * value_le base cs'
  end.

Lemma parse_rev base cs : parse base (rev cs) = value_le base cs.
Proof.
  unfold parse. induction cs as [|c cs IH]; cbn [rev value_le]; [reflexivity |].
  rewrite fold_left_app, IH. cbn. lia.
Qed.

Lemma value_le_app base cs cs' :
  value_le base (cs ++ cs') = value_le base cs + base ^ Z.of_nat (length cs) * value_le base cs'.
Proof.
  induction cs as [|c cs IH]; cbn [app value_le length]; [lia |].
  rewrite IH, Nat2Z.inj_succ, Z.pow_succ_r by lia. lia.
Qed.

Lemma digit_val_digits d : 0 <= d < 16 -> digit_val (digits 97 d) = d.
Proof. intros Hd. unfold digit_val, digits. zb. Qed.

(** [k] digits are produced, if they fit. *)
Lemma digit_loop_spec k : forall fuel x base buf,
  1 < base <= 16 -> (0 < k <= fuel)%nat -> 0 <= x < base ^ Z.of_nat k ->
  (k = 1%nat \/ base ^ (Z.of_nat k - 1) <= x) ->
  if Z.of_nat (length buf + k) <=? PRINTBUF
  then exists ds, digit_loop fuel 97 x base buf = Some (buf ++ ds) /\ length ds = k /\
         value_le base ds = x
  else digit_loop fuel 97 x base buf = None.
Proof.
  induction k as [|k IH]; intros fuel x base buf Hb Hf Hx Hlo; [lia |].
  destruct fuel as [|fuel]; [lia |]. cbn [digit_loop]. unfold buf_put.
  destruct (Z.ltb_spec (Z.of_nat (length buf)) PRINTBUF) as [Hbuf | Hbuf].
  2: { rewrite (proj2 (Z.leb_gt _ _)) by lia. reflexivity. }
  pose proof (Z.mod_pos_bound x base ltac:(lia)) as Hm.
  destruct k as [|k].
  - replace (base ^ Z.of_nat 1) with base in Hx by (cbn; lia).
    rewrite (Z.div_small x base), Z.mod_small by lia. cbn [Z.eqb].
    rewrite (proj2 (Z.leb_le _ _)) by lia. eexists. split_and!; [reflexivity | reflexivity |].
    cbn [value_le]. rewrite digit_val_digits by lia. lia.
  - destruct Hlo as [|Hlo]; [lia |].
    rewrite Nat2Z.inj_succ, Z.pow_succ_r in Hx by lia.
    replace (Z.of_nat (S (S k)) - 1) with (Z.succ (Z.of_nat (S k) - 1)) in Hlo by lia.
    rewrite Z.pow_succ_r in Hlo by lia.
    assert (Hp : 0 < base ^ (Z.of_nat (S k) - 1)) by (apply Z.pow_pos_nonneg; lia).
    pose proof (Z.div_mod x base ltac:(lia)) as Hdm.
    assert (Hq : base ^ (Z.of_nat (S k) - 1) <= x / base < base ^ Z.of_nat (S k)) by nia.
    rewrite (proj2 (Z.eqb_neq (x / base) 0)) by lia.
    specialize (IH fuel (x / base) base (buf ++ [digits 97 (x mod base)])
                  Hb ltac:(lia) ltac:(lia) ltac:(lia)).
    rewrite length_app in IH. cbn [length] in IH.
    replace (length buf + 1 + S k)%nat with (length buf + S (S k))%nat in IH by lia.
    destruct (Z.of_nat (length buf + S (S k)) <=? PRINTBUF); [| exact IH].
    destruct IH as (ds & -> & Hl & Hv). exists (digits 97 (x mod base) :: ds).
    rewrite <- app_assoc. split_and!; [reflexivity | cbn; lia |].
    cbn [value_le]. rewrite digit_val_digits, Hv by lia. lia.
Qed.

(** Every number has a number of digits. *)
Lemma digits_exist base x K :
  1 < base -> 0 <= x < base ^ Z.of_nat K -> (0 < K)%nat ->
  exists k, (0 < k <= K)%nat /\ x < base ^ Z.of_nat k /\
    (k = 1%nat \/ base ^ (Z.of_nat k - 1) <= x).
Proof.
  intros Hb. induction K as [|K IH]; intros Hx HK; [lia |].
  destruct (decide (K = 0)%nat) as [-> | HK0]; [exists 1%nat; split_and!; [lia | lia | lia | auto] |].
  destruct (Z.lt_ge_cases x (base ^ Z.of_nat K)) as [Hlt | Hge].
  - destruct IH as (k & Hk & ?); [lia | lia | exists k; split; [lia | auto]].
  - exists (S K). split_and!; [lia | lia | lia |].
    right. replace (Z.of_nat (S K) - 1) with (Z.of_nat K) by lia. lia.
Qed.

(** The digits of a 64-bit value, within [room] characters. *)
Lemma digit_loop_fits x base : 1 < base <= 16 -> 0 <= x < 2 ^ 64 ->
  if x <? base ^ PRINTBUF
  then exists ds, digit_loop DIGIT_FUEL 97 x base [] = Some ds /\ value_le base ds = x /\
         (0 < length ds <= 16)%nat /\ x < base ^ Z.of_nat (length ds) /\
         (length ds = 1%nat \/ base ^ (Z.of_nat (length ds) - 1) <= x)
  else digit_loop DIGIT_FUEL 97 x base [] = None.
Proof.
  intros Hb Hx.
  assert (Hx64 : 0 <= x < base ^ Z.of_nat DIGIT_FUEL).
  { assert (2 ^ 64 <= base ^ 64) by (apply Z.pow_le_mono_l; lia).
    change (Z.of_nat DIGIT_FUEL) with 64. lia. }
  destruct (digits_exist base x DIGIT_FUEL ltac:(lia) Hx64 ltac:(unfold DIGIT_FUEL; lia))
    as (k & Hk & Hlt & Hlo).
  pose proof (digit_loop_spec k DIGIT_FUEL x base [] Hb ltac:(lia) ltac:(lia) Hlo) as Hs.
  cbn [length Nat.add] in Hs. unfold PRINTBUF in *.
  destruct (Z.ltb_spec x (base ^ 16)) as [Hc | Hc];
    destruct (Z.leb_spec (Z.of_nat k) 16) as [Hk16 | Hk16].
  - destruct Hs as (ds & E & <- & Hv). exists ds. split_and!; auto; lia.
  - exfalso. destruct Hlo as [-> | Hlo]; [lia |].
    assert (base ^ 16 <= base ^ (Z.of_nat k - 1)) by (apply Z.pow_le_mono_r; lia). lia.
  - exfalso. assert (base ^ Z.of_nat k <= base ^ 16) by (apply Z.pow_le_mono_r; lia). lia.
  - exact Hs.
Qed.

(** [printint] without a sign prints the digits of its argument taken as
    an unsigned 64-bit number (reading the text back gives the number) whenever
    it has at most 16 digits in the base, and overruns its buffer otherwise; in
    base 16 it never does. *)
Theorem printint_unsigned xx base :
  1 < base <= 16 ->
  if u64 xx <? base ^ 16
  then exists cs, printint xx base false = Some cs /\ parse base cs = u64 xx /\
         (0 < length cs <= 16)%nat
  else printint xx base false = None.
Proof.
  intros Hb. pose proof (digit_loop_fits (u64 xx) base Hb (u64_range xx)) as Hs.
  unfold printint. cbn [andb]. change PRINTBUF with 16 in Hs.
  destruct (u64 xx <? base ^ 16); [| now rewrite Hs].
  destruct Hs as (ds & -> & Hv & Hl & _). exists (rev ds).
  rewrite parse_rev, length_rev. auto.
Qed.

(** [printint] with a sign prints a minus sign and the digits of the
    magnitude for a negative argument.  A 64-bit value of more than 16
    characters, sign included, overruns the 16-byte buffer. *)
Theorem printint_signed xx :
  - 2 ^ 63 <= xx < 2 ^ 63 ->
  if (- 10 ^ 15 <? xx) && (xx <? 10 ^ 16)
  then exists cs, printint xx 10 true = Some (if xx <? 0 then 45 :: cs else cs) /\
         parse 10 cs = Z.abs xx
  else printint xx 10 true = None.
Proof.
  intros Hx. unfold printint. cbn [andb].
  pose proof (digit_loop_fits (Z.abs xx) 10 ltac:(lia) ltac:(lia)) as Hs.
  change PRINTBUF with 16 in Hs.
  destruct (Z.ltb_spec xx 0) as [Hneg | Hpos].
  - rewrite u64_small by lia. replace (- xx) with (Z.abs xx) by lia.
    destruct (Z.ltb_spec (Z.abs xx) (10 ^ 16)).
    + destruct Hs as (ds & -> & Hv & Hl & Hhi & Hlo). unfold buf_put, PRINTBUF.
      assert (Hlen : Z.of_nat (length ds) < 16 <-> Z.abs xx < 10 ^ 15).
      { split; intros Hc.
        - assert (10 ^ Z.of_nat (length ds) <= 10 ^ 15) by (apply Z.pow_le_mono_r; lia). lia.
        - apply Z.lt_nge. intros Hge. replace (length ds) with 16%nat in Hlo by lia.
          change (10 ^ (Z.of_nat 16 - 1)) with (10 ^ 15) in Hlo. lia. }
      destruct (Z.ltb_spec (Z.of_nat (length ds)) 16).
      * rewrite (proj2 (Z.ltb_lt (- 10 ^ 15) xx)), (proj2 (Z.ltb_lt xx (10 ^ 16))) by lia.
        exists (rev ds). rewrite parse_rev, rev_app_distr. auto.
      * rewrite (proj2 (Z.ltb_ge (- 10 ^ 15) xx)) by lia. reflexivity.
    + rewrite Hs, (proj2 (Z.ltb_ge (- 10 ^ 15) xx)) by lia. reflexivity.
  - rewrite u64_small by lia. rewrite Z.abs_eq in * by lia.
    rewrite (proj2 (Z.ltb_lt (- 10 ^ 15) xx)) by lia. cbn [andb].
    destruct (xx <? 10 ^ 16); [| now rewrite Hs].
    destruct Hs as (ds & -> & Hv & _). exists (rev ds). rewrite parse_rev. auto.
Qed.

Lemma printint_unsigned_witness :
  (exists cs, printint 255 16 false = Some cs /\ parse 16 cs = 255) /\
  printint (2 ^ 63 - 1) 10 false = None.
Proof.
  split.
  - destruct (printint_unsigned 255 16 ltac:(lia)) as (cs & E & Hp & _). eauto.
  - exact (printint_unsigned (2 ^ 63 - 1) 10 ltac:(lia)).
Defined.

Lemma printint_signed_witness :
  (exists cs, printint (-42) 10 true = Some (45 :: cs) /\ parse 10 cs = 42) /\
  printint (- 10 ^ 15) 10 true = None.
Proof.
  split.
  - exact (printint_signed (-42) ltac:(lia)).
  - exact (printint_signed (- 10 ^ 15) ltac:(lia)).
Defined.
