(* ===== verification/Kalloc.v ===== *)
(** * Physical page allocator, [kernel/kalloc.c]

    Two pools: 4096-byte pages on a free list threaded through the free
    pages themselves, and [NSUPERPAGES] superpages of 2 MiB kept on an array
    used as a stack. *)

From S2P Require Import Prelude KMonad Riscv Mem.

Definition NSUPERPAGES : Z := 60.

(** Physical memory with [kmem.freelist] and the fields of [supermem]. *)
Record phys := mkPhys {
  mem : memory;
  freelist : Z;
  superpages : list Z;
  nfree : Z
}.

Definition set_mem (f : memory -> memory) (s : phys) : phys :=
  mkPhys (f (mem s)) (freelist s) (superpages s) (nfree s).
Definition set_freelist (v : Z) (s : phys) : phys :=
  mkPhys (mem s) v (superpages s) (nfree s).
Definition set_superpages (v : list Z) (s : phys) : phys :=
  mkPhys (mem s) (freelist s) v (nfree s).
Definition set_nfree (v : Z) (s : phys) : phys :=
  mkPhys (mem s) (freelist s) (superpages s) v.

Section kalloc.
Context `{Layout}.

Definition kfree (pa : Z) : M phys unit :=
  if negb (pa mod PGSIZE =? 0) || (pa <? kend) || (PHYSTOP <=? pa) then panic "kfree"
  else
    modify (set_mem (fun m => memset m pa 1 PGSIZE));;
    acquire kmem_lock;;
    fl <- gets freelist;;
    modify (set_mem (fun m => store64 m pa fl));;
    modify (set_freelist pa);;
    release kmem_lock.

Definition kalloc : M phys Z :=
  acquire kmem_lock;;
  r <- gets freelist;;
  (if negb (r =? 0) then
     nx <- gets (fun s => load64 (mem s) r);;
     modify (set_freelist nx)
   else ret tt);;
  release kmem_lock;;
  (if negb (r =? 0) then modify (set_mem (fun m => memset m r 5 PGSIZE)) else ret tt);;
  ret r.

Definition superalloc : M phys Z :=
  acquire supermem_lock;;
  n <- gets nfree;;
  if n =? 0 then
    release supermem_lock;;
    ret 0
  else
    modify (set_nfree (n - 1));;
    pg <- gets (fun s => nthZ 0 (superpages s) (nfree s));;
    release supermem_lock;;
    modify (set_mem (fun m => memset m pg 5 SUPERPGSIZE));;
    ret pg.

Definition superfree (pa : Z) : M phys unit :=
  if negb (pa mod SUPERPGSIZE =? 0) then panic "superfree: pa not 2MiB aligned"
  else if (pa <? PHYSTOP - NSUPERPAGES * SUPERPGSIZE) || (PHYSTOP <=? pa) then
    panic "superfree: pa outside of superpage pool range"
  else
    modify (set_mem (fun m => memset m pa 1 SUPERPGSIZE));;
    acquire supermem_lock;;
    n <- gets nfree;;
    if NSUPERPAGES <=? n then panic "superfree: superpage pool overflow"
    else
      modify (fun s => set_superpages (updZ (superpages s) n pa) s);;
      modify (set_nfree (n + 1));;
      release supermem_lock.

(** [for(int i = 0; i < NSUPERPAGES; i++)] of [superinit]: [k] iterations left. *)
Fixpoint superinit_loop (k : nat) (top : Z) : M phys unit :=
  match k with
  | O => ret tt
  | S k' =>
      let top := u64 (top - SUPERPGSIZE) in
      let top := Z.land top (Z.lnot (SUPERPGSIZE - 1)) in
      modify (fun s => set_superpages (updZ (superpages s) (nfree s) top) s);;
      modify (fun s => set_nfree (nfree s + 1) s);;
      superinit_loop k' top
  end.

Definition superinit : M phys unit :=
  initlock supermem_lock;;
  modify (set_nfree 0);;
  superinit_loop (Z.to_nat NSUPERPAGES) PHYSTOP.

(** [for(; p + PGSIZE <= (char* )pa_end; p += PGSIZE) kfree(p);] *)
Fixpoint freerange_loop (fuel : nat) (p pa_end : Z) : M phys unit :=
  if p + PGSIZE <=? pa_end then
    match fuel with
    | O => out_of_fuel
    | S fuel' => kfree p;; freerange_loop fuel' (p + PGSIZE) pa_end
    end
  else ret tt.

Definition freerange (pa_start pa_end : Z) : M phys unit :=
  let p := PGROUNDUP pa_start in
  freerange_loop (Z.to_nat ((pa_end - p) / PGSIZE)) p pa_end.

Definition kinit : M phys unit :=
  initlock kmem_lock;;
  superinit;;
  freerange kend (PHYSTOP - NSUPERPAGES * SUPERPGSIZE).

(** ** Representation invariants *)

Definition page_ok (p : Z) : Prop := p mod PGSIZE = 0 /\ kend <= p < PHYSTOP.

Definition superpage_ok (p : Z) : Prop :=
  p mod SUPERPGSIZE = 0 /\ PHYSTOP - NSUPERPAGES * SUPERPGSIZE <= p < PHYSTOP.

(** [l] is the chain of pages that starts at [p]: each page's first word is
    the address of the next, 0 ends it. *)
Fixpoint chain (m : memory) (p : Z) (l : list Z) : Prop :=
  match l with
  | [] => p = 0
  | x :: l' => p = x /\ chain m (load64 m x) l'
  end.

(** The free list holds exactly the distinct pages [l]. *)
Definition kmem_inv (s : phys) (l : list Z) : Prop :=
  chain (mem s) (freelist s) l /\ NoDup l /\ Forall page_ok l.

(** The free superpages: the array's first [nfree] entries. *)
Definition super_free (s : phys) : list Z := take (Z.to_nat (nfree s)) (superpages s).

Definition super_inv (s : phys) : Prop :=
  Z.of_nat (length (superpages s)) = NSUPERPAGES /\ 0 <= nfree s <= NSUPERPAGES /\
  NoDup (super_free s) /\ Forall superpage_ok (super_free s).

End kalloc.

(** * Proofs *)

Lemma aligned_disjoint k p q :
  0 < k -> p mod k = 0 -> q mod k = 0 -> p <> q -> p + k <= q \/ q + k <= p.
Proof.
  intros Hk Hp Hq Hne.
  pose proof (Z.div_mod p k ltac:(lia)). pose proof (Z.div_mod q k ltac:(lia)).
  destruct (Z.lt_trichotomy (p / k) (q / k)) as [L | [E | L]]; [left; nia | nia | right; nia].
Qed.

Lemma chain_frame m m' p l :
  (forall x y, x ∈ l -> x <= y < x + 8 -> m y = m' y) -> chain m p l -> chain m' p l.
Proof.
  revert p. induction l as [|x l IH]; intros p Hf; cbn [chain]; [auto |].
  intros [-> Hc]. split; [reflexivity |].
  rewrite <- (load64_ext m m' x) by (intros y Hy; apply (Hf x); [set_solver | lia]).
  apply IH; [| exact Hc]. intros z y Hz. apply Hf. set_solver.
Qed.

Section kalloc_proofs.
Context `{LayoutOk}.

Lemma page_ok_pos p : page_ok p -> 0 < p < 2 ^ 32.
Proof.
  intros [_ Hp]. pose proof kend_range. unfold PHYSTOP, KERNBASE in *. lia.
Qed.

Lemma page_ok_disjoint p q :
  page_ok p -> page_ok q -> p <> q -> p + PGSIZE <= q \/ q + PGSIZE <= p.
Proof. intros [Hp _] [Hq _]. apply aligned_disjoint; [unfold PGSIZE; lia | auto | auto]. Qed.

Lemma kmem_inv_frame s s' l :
  freelist s' = freelist s ->
  (forall p x, p ∈ l -> p <= x < p + PGSIZE -> mem s' x = mem s x) ->
  kmem_inv s l -> kmem_inv s' l.
Proof.
  intros Hfl Hm (Hc & Hnd & Hok). split_and!; auto. rewrite Hfl.
  eapply chain_frame; [| exact Hc]. intros x y Hx Hy. symmetry. apply (Hm x); auto.
  unfold PGSIZE. lia.
Qed.

Lemma kfree_run pa h s :
  page_ok pa -> kmem_lock ∉ h ->
  kfree pa h s = Ret tt h (mkPhys (store64 (memset (mem s) pa 1 PGSIZE) pa (freelist s)) pa
                             (superpages s) (nfree s)).
Proof.
  intros [Hal Hr] Hh. unfold kfree. zb. krun. reflexivity.
Qed.

(** [kfree] refuses every address that is not a page of the allocator. *)
Lemma kfree_bad pa h s : ~ page_ok pa -> kfree pa h s = Panic "kfree".
Proof. intros Hn. unfold kfree, page_ok in *. zb; reflexivity. Qed.

Lemma kalloc_run h s :
  kmem_lock ∉ h ->
  kalloc h s =
  if freelist s =? 0 then Ret 0 h s
  else Ret (freelist s) h (mkPhys (memset (mem s) (freelist s) 5 PGSIZE)
                             (load64 (mem s) (freelist s)) (superpages s) (nfree s)).
Proof.
  intros Hh. unfold kalloc. krun. destruct (Z.eqb_spec (freelist s) 0) as [E | E]; cbn [negb];
    krun; [now rewrite E | reflexivity].
Qed.

Lemma kmem_inv_head s p l :
  kmem_inv s (p :: l) -> freelist s = p /\ page_ok p /\ (p ∉ l) /\ Forall page_ok l.
Proof.
  intros ([-> _] & Hnd & Hok). apply NoDup_cons in Hnd. apply Forall_cons in Hok. tauto.
Qed.

Lemma kmem_inv_freelist_range s l : kmem_inv s l -> 0 <= freelist s < 2 ^ 64.
Proof.
  intros Hi. destruct l as [|p l]; [destruct Hi as (Hc & _); cbn in Hc; lia |].
  apply kmem_inv_head in Hi as (-> & Hp & _). apply page_ok_pos in Hp. lia.
Qed.

(** Memory outside the pages of [ps] is the same. *)
Definition same_except (ps : list Z) (m m' : memory) : Prop :=
  forall x, (forall p, p ∈ ps -> x < p \/ p + PGSIZE <= x) -> m' x = m x.

Lemma kfree_spec pa h s l :
  kmem_inv s l -> page_ok pa -> pa ∉ l -> kmem_lock ∉ h ->
  exists s', kfree pa h s = Ret tt h s' /\ kmem_inv s' (pa :: l) /\
    same_except [pa] (mem s) (mem s') /\
    superpages s' = superpages s /\ nfree s' = nfree s.
Proof.
  intros Hi Hp Hnl Hh. eexists. split; [now apply kfree_run |].
  pose proof (kmem_inv_freelist_range _ _ Hi) as Hfl.
  split_and!; cbn; auto.
  - destruct Hi as (Hc & Hnd & Hok). split_and!; [| constructor; auto | constructor; auto].
    split; [reflexivity |]. cbn. rewrite load64_store64_eq by auto.
    eapply chain_frame; [| exact Hc]. intros x y Hx Hy.
    rewrite Forall_forall in Hok.
    destruct (page_ok_disjoint x pa) as [Hd | Hd]; auto; [congruence | |];
      unfold PGSIZE in *; rewrite store64_out, memset_out; auto; lia.
  - intros x Hx. specialize (Hx pa ltac:(set_solver)). unfold PGSIZE in *.
    rewrite store64_out, memset_out; auto; lia.
Qed.

Lemma kalloc_empty h s : kmem_inv s [] -> kmem_lock ∉ h -> kalloc h s = Ret 0 h s.
Proof. intros (Hc & _) Hh. rewrite kalloc_run by auto. cbn in Hc. now rewrite Hc. Qed.

Lemma kalloc_spec p h s l :
  kmem_inv s (p :: l) -> kmem_lock ∉ h ->
  exists s', kalloc h s = Ret p h s' /\ kmem_inv s' l /\
    same_except [p] (mem s) (mem s') /\
    (forall x, p <= x < p + PGSIZE -> mem s' x = 5) /\
    superpages s' = superpages s /\ nfree s' = nfree s.
Proof.
  intros Hi Hh. pose proof (kmem_inv_head _ _ _ Hi) as (Hfl & Hp & Hnl & Hok).
  eexists. split.
  { rewrite kalloc_run by auto. rewrite Hfl.
    pose proof (page_ok_pos p Hp). now rewrite (proj2 (Z.eqb_neq p 0)) by lia. }
  split_and!; cbn; auto.
  - destruct Hi as ((_ & Hc) & Hnd & _). apply NoDup_cons in Hnd as [_ Hnd].
    split_and!; auto. cbn. eapply chain_frame; [| exact Hc]. intros x y Hx Hy.
    rewrite Forall_forall in Hok.
    destruct (page_ok_disjoint x p) as [Hd | Hd]; auto; [congruence | |];
      unfold PGSIZE in *; rewrite memset_out; auto; lia.
  - intros x Hx. specialize (Hx p ltac:(set_solver)). now rewrite memset_out.
  - intros x Hx. Transparent memset. unfold memset. zb. reflexivity. Opaque memset.
Qed.

(** ** Superpages *)

Lemma superalloc_run h s :
  supermem_lock ∉ h ->
  superalloc h s =
  if nfree s =? 0 then Ret 0 h s
  else let pg := nthZ 0 (superpages s) (nfree s - 1) in
       Ret pg h (mkPhys (memset (mem s) pg 5 SUPERPGSIZE) (freelist s)
                   (superpages s) (nfree s - 1)).
Proof.
  intros Hh. unfold superalloc. krun.
  destruct (Z.eqb_spec (nfree s) 0) as [E | E]; krun; reflexivity.
Qed.

Lemma superfree_run pa h s :
  superpage_ok pa -> nfree s < NSUPERPAGES -> supermem_lock ∉ h ->
  superfree pa h s =
  Ret tt h (mkPhys (memset (mem s) pa 1 SUPERPGSIZE) (freelist s)
              (updZ (superpages s) (nfree s) pa) (nfree s + 1)).
Proof.
  intros [Hal Hr] Hn Hh. unfold superfree. zb. krun. cbn [nfree set_mem].
  rewrite (proj2 (Z.leb_gt _ _)) by lia. krun. reflexivity.
Qed.

(** [superfree] panics exactly on a misaligned address, one outside the pool,
    or a full pool. *)
Lemma superfree_bad pa h s :
  supermem_lock ∉ h -> ~ superpage_ok pa \/ NSUPERPAGES <= nfree s ->
  exists msg, superfree pa h s = Panic msg.
Proof.
  intros Hh Hb. unfold superfree, superpage_ok in *.
  destruct (Z.eqb_spec (pa mod SUPERPGSIZE) 0); cbn [negb]; [| eauto; now eexists].
  destruct ((pa <? _) || (PHYSTOP <=? pa)) eqn:E; [now eexists |].
  krun. cbn [nfree set_mem]. eexists. zb. reflexivity.
Qed.

Lemma super_free_length s : super_inv s -> Z.of_nat (length (super_free s)) = nfree s.
Proof. intros (Hl & Hn & _). unfold super_free. rewrite length_take. lia. Qed.

Lemma superalloc_empty h s :
  super_inv s -> super_free s = [] -> supermem_lock ∉ h -> superalloc h s = Ret 0 h s.
Proof.
  intros Hi E Hh. rewrite superalloc_run by auto.
  apply super_free_length in Hi. rewrite E in Hi. cbn in Hi. now rewrite <- Hi.
Qed.

Lemma superalloc_spec p h s l :
  super_inv s -> super_free s = l ++ [p] -> supermem_lock ∉ h ->
  exists s', superalloc h s = Ret p h s' /\ super_inv s' /\ super_free s' = l /\
    (forall x, x < p \/ p + SUPERPGSIZE <= x -> mem s' x = mem s x) /\
    freelist s' = freelist s.
Proof.
  intros Hi El Hh. pose proof (super_free_length s Hi) as Hlen.
  destruct Hi as (Hl & Hn & Hnd & Hok).
  rewrite El, length_app in Hlen. cbn in Hlen. rewrite superalloc_run by auto.
  rewrite (proj2 (Z.eqb_neq _ _)) by lia. cbn zeta.
  assert (Et : take (Z.to_nat (nfree s - 1)) (superpages s) = l /\
               nthZ 0 (superpages s) (nfree s - 1) = p).
  { unfold super_free in El. rewrite (take_pred_snoc 0) in El by lia.
    apply app_inj_tail in El. unfold nthZ.
    now replace (Z.to_nat (nfree s - 1)) with (Z.to_nat (nfree s) - 1)%nat by lia. }
  destruct Et as [Et ->]. eexists. split; [reflexivity |].
  rewrite El in Hnd, Hok. apply NoDup_app in Hnd. apply Forall_app in Hok.
  unfold super_inv, super_free. cbn. rewrite Et. split_and!; auto; try lia; try tauto.
  intros x Hx. now rewrite memset_out.
Qed.

Definition all_superpages : list Z :=
  map (fun i => PHYSTOP - SUPERPGSIZE * (Z.of_nat i + 1)) (seq 0 (Z.to_nat NSUPERPAGES)).

Lemma superpage_ok_all p : superpage_ok p <-> p ∈ all_superpages.
Proof.
  unfold superpage_ok, all_superpages. rewrite list_elem_of_In, in_map_iff.
  change SUPERPGSIZE with 2097152. change NSUPERPAGES with 60.
  change PHYSTOP with 2281701376. split.
  - intros [Ha Hr]. exists (Z.to_nat ((2281701376 - p) / 2097152 - 1)).
    rewrite in_seq. pose proof (Z.div_mod p 2097152 ltac:(lia)). rewrite Ha in *.
    replace (2281701376 - p) with ((1088 - p / 2097152) * 2097152) by lia.
    rewrite Z.div_mul by lia. lia.
  - intros (i & <- & Hi). apply in_seq in Hi. split; [| lia].
    replace (2281701376 - 2097152 * (Z.of_nat i + 1))
      with ((1088 - (Z.of_nat i + 1)) * 2097152) by lia.
    apply Z.mod_mul. lia.
Qed.

(** A superpage that is not free leaves room for it in the pool. *)
Lemma super_pool_room s pa :
  super_inv s -> superpage_ok pa -> pa ∉ super_free s -> nfree s < NSUPERPAGES.
Proof.
  intros Hi Hp Hn. pose proof (super_free_length s Hi) as Hlen.
  destruct Hi as (_ & _ & Hnd & Hok).
  assert (Hs : pa :: super_free s ⊆+ all_superpages).
  { apply NoDup_submseteq; [now constructor |]. intros x Hx.
    apply superpage_ok_all. rewrite Forall_forall in Hok.
    apply elem_of_cons in Hx as [-> | Hx]; auto. }
  apply submseteq_length in Hs. cbn [length] in Hs.
  change (length all_superpages) with 60%nat in Hs. unfold NSUPERPAGES. lia.
Qed.

Lemma superfree_spec pa h s :
  super_inv s -> superpage_ok pa -> pa ∉ super_free s -> supermem_lock ∉ h ->
  exists s', superfree pa h s = Ret tt h s' /\ super_inv s' /\
    super_free s' = super_free s ++ [pa] /\
    (forall x, x < pa \/ pa + SUPERPGSIZE <= x -> mem s' x = mem s x) /\
    freelist s' = freelist s.
Proof.
  intros Hi Hp Hn Hh. pose proof (super_pool_room _ _ Hi Hp Hn) as Hroom.
  eexists. split; [now apply superfree_run |].
  destruct Hi as (Hl & Hr & Hnd & Hok). unfold super_inv, super_free in *. cbn.
  rewrite take_updZ_snoc by lia. split_and!; auto.
  - now rewrite length_updZ.
  - lia.
  - lia.
  - apply NoDup_app. split_and!; auto; [set_solver | apply NoDup_singleton].
  - apply Forall_app. auto.
  - intros x Hx. now rewrite memset_out.
Qed.

End kalloc_proofs.
