(* ===== verification/KallocSafety.v ===== *)
(** * Allocator initialisation and safety

    [kinit] builds both pools, and from then on every sequence of
    allocations, frees of live pages and client writes keeps the pools and
    the live pages a partition of the managed memory. *)

From stdpp Require Import relations.
From S2P Require Import Prelude KMonad Riscv Mem Kalloc.

(** First address of the superpage pool. *)
Definition pool_base : Z := PHYSTOP - NSUPERPAGES * SUPERPGSIZE.

Definition range_pages (p : Z) (n : nat) : list Z :=
  map (fun i => p + PGSIZE * Z.of_nat i) (seq 0 n).

Lemma range_pages_S p n : range_pages p (S n) = p :: range_pages (p + PGSIZE) n.
Proof.
  unfold range_pages. cbn [seq map]. f_equal; [lia |].
  rewrite <- seq_shift, map_map. apply map_ext. intros. lia.
Qed.

Lemma elem_of_range_pages x p n :
  x ∈ range_pages p n <-> exists i, (i < n)%nat /\ x = p + PGSIZE * Z.of_nat i.
Proof.
  unfold range_pages. rewrite list_elem_of_In, in_map_iff. split.
  - intros (i & <- & Hi). apply in_seq in Hi. exists i. split; [lia | auto].
  - intros (i & Hi & ->). exists i. split; [auto | apply in_seq; lia].
Qed.

Lemma NoDup_range_pages p n : NoDup (range_pages p n).
Proof.
  revert p. induction n as [|n IH]; intros p; [constructor |].
  rewrite range_pages_S. constructor; [| apply IH].
  rewrite elem_of_range_pages. intros (i & _ & E). unfold PGSIZE in E. lia.
Qed.

Section kinit.
Context `{LayoutOk}.

Lemma freerange_loop_spec n : forall fuel p pa_end h s l,
  kmem_inv s l -> kmem_lock ∉ h ->
  p + PGSIZE * Z.of_nat n <= pa_end < p + PGSIZE * Z.of_nat n + PGSIZE ->
  (n <= fuel)%nat ->
  Forall page_ok (range_pages p n) ->
  (forall x, x ∈ range_pages p n -> x ∉ l) ->
  exists s', freerange_loop fuel p pa_end h s = Ret tt h s' /\
    kmem_inv s' (rev (range_pages p n) ++ l) /\
    superpages s' = superpages s /\ nfree s' = nfree s.
Proof.
  induction n as [|n IH]; intros fuel p pa_end h s l Hi Hh He Hf Hok Hnl.
  - exists s. split_and!; auto. destruct fuel; cbn [freerange_loop];
      rewrite (proj2 (Z.leb_gt _ _)) by lia; reflexivity.
  - destruct fuel as [|fuel]; [lia |]. cbn [freerange_loop].
    rewrite (proj2 (Z.leb_le _ _)) by (unfold PGSIZE in *; lia).
    rewrite range_pages_S in *. apply Forall_cons in Hok as [Hp Hok].
    destruct (kfree_spec p h s l Hi Hp (Hnl p ltac:(left)) Hh)
      as (s1 & E1 & Hi1 & _ & Esp & Enf).
    rewrite (bind_Ret _ _ _ _ _ _ _ E1).
    destruct (IH fuel (p + PGSIZE) pa_end h s1 (p :: l)) as (s2 & E2 & Hi2 & Esp2 & Enf2);
      auto; try lia.
    { intros x Hx Hin. apply elem_of_cons in Hin as [-> | Hin].
      - apply elem_of_range_pages in Hx as (i & _ & E). unfold PGSIZE in E. lia.
      - apply (Hnl x); [now right | auto]. }
    exists s2. split_and!; [exact E2 | | congruence | congruence].
    cbn [rev]. rewrite <- app_assoc. exact Hi2.
Qed.

Lemma superinit_loop_spec k : forall i h s,
  (i + k = Z.to_nat NSUPERPAGES)%nat ->
  nfree s = Z.of_nat i -> Z.of_nat (length (superpages s)) = NSUPERPAGES ->
  super_free s = take i all_superpages ->
  exists s', superinit_loop k (PHYSTOP - SUPERPGSIZE * Z.of_nat i) h s = Ret tt h s' /\
    nfree s' = NSUPERPAGES /\ Z.of_nat (length (superpages s')) = NSUPERPAGES /\
    super_free s' = all_superpages /\ mem s' = mem s /\ freelist s' = freelist s.
Proof.
  change (Z.to_nat NSUPERPAGES) with 60%nat. change NSUPERPAGES with 60.
  induction k as [|k IH]; intros i h s Hik Hn Hl Hf; cbn [superinit_loop].
  - exists s. split_and!; auto; [lia |]. rewrite Hf, take_ge; [reflexivity |].
    change (length all_superpages) with 60%nat. lia.
  - krun.
    assert (Et : Z.land (u64 (PHYSTOP - SUPERPGSIZE * Z.of_nat i - SUPERPGSIZE))
                   (Z.lnot (SUPERPGSIZE - 1)) = PHYSTOP - SUPERPGSIZE * Z.of_nat (S i)).
    { change SUPERPGSIZE with (2 ^ 21). change PHYSTOP with (1088 * 2 ^ 21).
      change (2 ^ 21 - 1) with (Z.ones 21). rewrite land_lnot_ones by lia.
      rewrite u64_small by lia.
      replace (1088 * 2 ^ 21 - 2 ^ 21 * Z.of_nat i - 2 ^ 21)
        with ((1088 - Z.of_nat i - 1) * 2 ^ 21) by lia.
      rewrite Z.mod_mul by lia. lia. }
    rewrite Et. edestruct (IH (S i)) as (s' & E & Hs'); [lia | | | | eexists; split; [exact E |]].
    + cbn. lia.
    + cbn. now rewrite length_updZ.
    + unfold super_free in *. cbn. rewrite Hn, take_updZ_snoc by lia. rewrite <- Hn, Hf.
      symmetry. apply take_S_r. unfold all_superpages. rewrite list_lookup_fmap.
      rewrite lookup_seq_lt by (change (Z.to_nat NSUPERPAGES) with 60%nat; lia).
      cbn [fmap option_fmap option_map]. f_equal. lia.
    + exact Hs'.
Qed.

(** Memory at boot: the globals of [kalloc.c] are zero (BSS). *)
Definition boot_phys (m : memory) : phys := mkPhys m 0 (replicate (Z.to_nat NSUPERPAGES) 0) 0.

Definition boot_pages : list Z :=
  range_pages (PGROUNDUP kend) (Z.to_nat ((pool_base - PGROUNDUP kend) / PGSIZE)).

Lemma kend_PGROUNDUP : kend <= PGROUNDUP kend < kend + PGSIZE /\ PGROUNDUP kend mod PGSIZE = 0.
Proof.
  pose proof kend_range. unfold PHYSTOP, KERNBASE in *.
  destruct (PGROUNDUP_spec kend); unfold PGSIZE in *; [lia |]. auto.
Qed.

Lemma boot_pages_ok : Forall (fun p => page_ok p /\ p + PGSIZE <= pool_base) boot_pages.
Proof.
  apply Forall_forall. intros x Hx. apply elem_of_range_pages in Hx as (i & Hi & ->).
  destruct kend_PGROUNDUP as [Hr Ha].
  assert (PGSIZE * Z.of_nat (S i) <= pool_base - PGROUNDUP kend).
  { unfold PGSIZE in *. pose proof (Z.mul_div_le (pool_base - PGROUNDUP kend) 4096 ltac:(lia)).
    lia. }
  assert (pool_base <= PHYSTOP) by (vm_compute; congruence).
  unfold page_ok, PGSIZE in *. split_and!; try lia.
  rewrite mod_add_aligned by lia. rewrite Z.mul_comm. now apply Z.mod_mul.
Qed.

Lemma NoDup_all_superpages : NoDup all_superpages.
Proof. apply (bool_decide_unpack _). vm_compute. exact I. Qed.

Lemma kinit_run m h :
  kmem_lock ∉ h -> kend <= pool_base ->
  exists s', kinit h (boot_phys m) = Ret tt h s' /\
    kmem_inv s' (rev boot_pages) /\ super_inv s' /\ super_free s' = all_superpages.
Proof.
  intros Hh Hk. unfold kinit, superinit, initlock. krun.
  destruct (superinit_loop_spec (Z.to_nat NSUPERPAGES) 0 h (set_nfree 0 (boot_phys m)))
    as (s1 & E1 & Hn & Hl & Hf & Hm & Hfl); try reflexivity.
  rewrite Z.mul_0_r, Z.sub_0_r in E1. rewrite (bind_Ret _ _ _ _ _ _ _ E1).
  assert (Eb : PHYSTOP - NSUPERPAGES * SUPERPGSIZE = pool_base) by reflexivity.
  rewrite Eb. unfold freerange.
  destruct kend_PGROUNDUP as [Hr Ha].
  assert (Hp0 : PGROUNDUP kend <= pool_base).
  { destruct (Z.eq_dec (PGROUNDUP kend) pool_base) as [-> | Hne]; [lia |].
    destruct (aligned_disjoint PGSIZE (PGROUNDUP kend) pool_base); auto;
      unfold PGSIZE in *; lia. }
  pose proof boot_pages_ok as Hok.
  destruct (freerange_loop_spec (Z.to_nat ((pool_base - PGROUNDUP kend) / PGSIZE))
    (Z.to_nat ((pool_base - PGROUNDUP kend) / PGSIZE)) (PGROUNDUP kend) pool_base h s1 [])
    as (s2 & E2 & Hi2 & Esp & Enf); auto.
  - split_and!; [rewrite Hfl; reflexivity | constructor | constructor].
  - unfold PGSIZE in *. rewrite Z2Nat.id by (apply Z.div_pos; lia).
    pose proof (Z.div_mod (pool_base - PGROUNDUP kend) 4096 ltac:(lia)).
    pose proof (Z.mod_pos_bound (pool_base - PGROUNDUP kend) 4096 ltac:(lia)). lia.
  - eapply Forall_impl; [exact Hok |]. tauto.
  - intros x _. apply not_elem_of_nil.
  - rewrite app_nil_r in Hi2. exists s2. split; [exact E2 |].
    assert (Hsf : super_free s2 = super_free s1) by (unfold super_free; congruence).
    unfold super_inv. rewrite Hsf, Esp, Enf, Hf, Hn, Hl.
    split_and!; auto; try (unfold NSUPERPAGES; lia); [apply NoDup_all_superpages |].
    apply Forall_forall. intros x. apply superpage_ok_all.
Qed.

(** ** Clients of the allocator

    A state is the allocator's memory with the pages and superpages its
    clients currently own.  A client may allocate, free what it owns, and
    write anywhere except into free pages. *)

Record astate := mkA { ph : phys; live : list Z; slive : list Z }.

Definition in_page (x p : Z) : Prop := p <= x < p + PGSIZE.
Definition in_superpage (x p : Z) : Prop := p <= x < p + SUPERPGSIZE.

Inductive astep : astate -> astate -> Prop :=
| st_kalloc s L SL p s' :
    kalloc [] s = Ret p [] s' -> p <> 0 -> astep (mkA s L SL) (mkA s' (p :: L) SL)
| st_kfree s L L' SL p s' :
    L ≡ₚ p :: L' -> kfree p [] s = Ret tt [] s' -> astep (mkA s L SL) (mkA s' L' SL)
| st_superalloc s L SL p s' :
    superalloc [] s = Ret p [] s' -> p <> 0 -> astep (mkA s L SL) (mkA s' L (p :: SL))
| st_superfree s L SL SL' p s' :
    SL ≡ₚ p :: SL' -> superfree p [] s = Ret tt [] s' -> astep (mkA s L SL) (mkA s' L SL')
| st_write s L SL x v :
    (exists p, p ∈ L /\ in_page x p) \/ (exists p, p ∈ SL /\ in_superpage x p) \/ x < kend ->
    astep (mkA s L SL) (mkA (set_mem (fun m => upd m x v) s) L SL).

Definition ainit (s : phys) : astate := mkA s [] [].

(** Free pages and live pages together are exactly the pages [kinit] found;
    likewise for superpages. *)
Definition alloc_inv (a : astate) : Prop :=
  exists l, kmem_inv (ph a) l /\ super_inv (ph a) /\
    l ++ live a ≡ₚ boot_pages /\ super_free (ph a) ++ slive a ≡ₚ all_superpages.

Lemma boot_pages_NoDup : NoDup boot_pages.
Proof. apply NoDup_range_pages. Qed.

Lemma boot_page p : p ∈ boot_pages -> page_ok p /\ p + PGSIZE <= pool_base.
Proof. pose proof boot_pages_ok as Hok. rewrite Forall_forall in Hok. apply Hok. Qed.

Lemma superpage_above p : superpage_ok p -> pool_base <= p.
Proof. intros [_ Hp]. apply Hp. Qed.

(** Writing to addresses that belong to no free page keeps the free list. *)
Lemma kmem_inv_write s s' l :
  freelist s' = freelist s ->
  (forall x p, p ∈ l -> in_page x p -> mem s' x = mem s x) ->
  kmem_inv s l -> kmem_inv s' l.
Proof. intros Hf Hm. apply kmem_inv_frame; auto. intros p x Hp. apply (Hm x p Hp). Qed.

Lemma alloc_inv_partition a l : l ++ live a ≡ₚ boot_pages ->
  NoDup (l ++ live a) /\ (forall p, p ∈ l \/ p ∈ live a -> p ∈ boot_pages).
Proof.
  intros Hp. split; [rewrite Hp; apply boot_pages_NoDup |].
  intros p Hin. rewrite <- Hp. apply elem_of_app. auto.
Qed.

Lemma super_inv_same s s' :
  superpages s' = superpages s -> nfree s' = nfree s ->
  super_inv s -> super_inv s' /\ super_free s' = super_free s.
Proof. unfold super_inv, super_free. intros -> ->. auto. Qed.

Lemma alloc_inv_kalloc s L SL p s' :
  alloc_inv (mkA s L SL) -> kalloc [] s = Ret p [] s' -> p <> 0 ->
  alloc_inv (mkA s' (p :: L) SL).
Proof.
  intros (l & Hk & Hs & Hp & Hsp) E Hp0. cbn in *.
  destruct l as [|q l].
  - rewrite (kalloc_empty [] s) in E by (auto; apply not_elem_of_nil). congruence.
  - destruct (kalloc_spec q [] s l Hk (not_elem_of_nil _)) as (s1 & E1 & Hk1 & _ & _ & Esp & Enf).
    assert (q = p /\ s1 = s') as [-> ->] by (split; congruence).
    destruct (super_inv_same s s' Esp Enf Hs) as [Hs' Hf]. exists l. cbn.
    split_and!; auto; [| now rewrite Hf]. rewrite <- Hp. cbn. now rewrite <- Permutation_middle.
Qed.

Lemma alloc_inv_kfree s L L' SL p s' :
  alloc_inv (mkA s L SL) -> L ≡ₚ p :: L' -> kfree p [] s = Ret tt [] s' ->
  alloc_inv (mkA s' L' SL).
Proof.
  intros (l & Hk & Hs & Hp & Hsp) HL E. cbn in *. rewrite HL in Hp.
  destruct (alloc_inv_partition (mkA s (p :: L') SL) l Hp) as [Hnd Hin]. cbn in *.
  apply NoDup_app in Hnd as (_ & Hnl & _).
  destruct (kfree_spec p [] s l) as (s1 & E1 & Hk1 & _ & Esp & Enf); auto.
  { apply boot_page, Hin. right. left. }
  { intros Hpl. apply (Hnl p Hpl). left. }
  { apply not_elem_of_nil. }
  assert (s1 = s') as -> by congruence.
  destruct (super_inv_same s s' Esp Enf Hs) as [Hs' Hf]. exists (p :: l). cbn.
  split_and!; auto; [| now rewrite Hf]. rewrite <- Hp. now rewrite <- Permutation_middle.
Qed.

(** A write inside the superpage pool does not touch the free pages below it. *)
Lemma kmem_inv_pool s s' l p :
  (forall q, q ∈ l -> q ∈ boot_pages) -> superpage_ok p ->
  freelist s' = freelist s ->
  (forall x, x < p \/ p + SUPERPGSIZE <= x -> mem s' x = mem s x) ->
  kmem_inv s l -> kmem_inv s' l.
Proof.
  intros Hl Hp Hf Hm. apply kmem_inv_write; auto. intros x q Hq Hx. apply Hm.
  apply Hl, boot_page in Hq. apply superpage_above in Hp. unfold in_page in Hx. lia.
Qed.

Lemma list_snoc_inv {A} (l : list A) : l = [] \/ exists l' x, l = l' ++ [x].
Proof. destruct l as [|x l] using rev_ind; eauto. Qed.

Lemma alloc_inv_superalloc s L SL p s' :
  alloc_inv (mkA s L SL) -> superalloc [] s = Ret p [] s' -> p <> 0 ->
  alloc_inv (mkA s' L (p :: SL)).
Proof.
  intros (l & Hk & Hs & Hp & Hsp) E Hp0. cbn in *.
  destruct (list_snoc_inv (super_free s)) as [Ef | (sl & q & Ef)].
  - rewrite (superalloc_empty [] s) in E by (auto; apply not_elem_of_nil). congruence.
  - destruct (superalloc_spec q [] s sl Hs Ef (not_elem_of_nil _)) as (s1 & E1 & Hs1 & Ef1 & Hm & Hfl).
    assert (q = p /\ s1 = s') as [-> ->] by (split; congruence).
    exists l. cbn. rewrite Ef1. split_and!; auto.
    + apply (kmem_inv_pool s s' l p); auto.
      * intros q Hq. apply (alloc_inv_partition (mkA s L SL) l Hp). auto.
      * destruct Hs as (_ & _ & _ & Hok). rewrite Ef, Forall_app, Forall_singleton in Hok. tauto.
    + rewrite <- Hsp, Ef. rewrite <- app_assoc. reflexivity.
Qed.

Lemma alloc_inv_superfree s L SL SL' p s' :
  alloc_inv (mkA s L SL) -> SL ≡ₚ p :: SL' -> superfree p [] s = Ret tt [] s' ->
  alloc_inv (mkA s' L SL').
Proof.
  intros (l & Hk & Hs & Hp & Hsp) HL E. cbn in *. rewrite HL in Hsp.
  assert (Hok : superpage_ok p).
  { apply superpage_ok_all. rewrite <- Hsp. apply elem_of_app. right. left. }
  assert (Hn : p ∉ super_free s).
  { pose proof NoDup_all_superpages as Hnd. rewrite <- Hsp in Hnd.
    apply NoDup_app in Hnd as (_ & Hn & _). intros Hin. apply (Hn p Hin). left. }
  destruct (superfree_spec p [] s Hs Hok Hn (not_elem_of_nil _)) as (s1 & E1 & Hs1 & Ef & Hm & Hfl).
  assert (s1 = s') as -> by congruence. exists l. cbn. rewrite Ef. split_and!; auto.
  - apply (kmem_inv_pool s s' l p); auto. intros q Hq.
    apply (alloc_inv_partition (mkA s L SL) l Hp). auto.
  - rewrite <- app_assoc. exact Hsp.
Qed.

Lemma alloc_inv_write s L SL x v :
  alloc_inv (mkA s L SL) ->
  (exists p, p ∈ L /\ in_page x p) \/ (exists p, p ∈ SL /\ in_superpage x p) \/ x < kend ->
  alloc_inv (mkA (set_mem (fun m => upd m x v) s) L SL).
Proof.
  intros (l & Hk & Hs & Hp & Hsp) Hx. cbn in *. exists l. cbn. split_and!; auto.
  destruct (alloc_inv_partition (mkA s L SL) l Hp) as [Hnd Hin]. cbn in *.
  apply NoDup_app in Hnd as (_ & Hnd & _).
  apply (kmem_inv_write s); auto. intros y q Hq Hy. cbn. apply upd_ne. intros ->.
  assert (Hqb := boot_page q (Hin q (or_introl Hq))). unfold in_page, in_superpage in *.
  destruct Hx as [(p & HpL & Hx) | [(p & HpS & Hx) | Hx]].
  - assert (p <> q) by (intros ->; apply (Hnd q); auto).
    destruct (page_ok_disjoint p q); try tauto; [| lia | lia].
    apply boot_page, Hin. auto.
  - assert (Hok : superpage_ok p)
      by (apply superpage_ok_all; rewrite <- Hsp; apply elem_of_app; auto).
    apply superpage_above in Hok. lia.
  - destruct Hqb as [[_ Hq2] _]. lia.
Qed.

Lemma alloc_inv_step a a' : alloc_inv a -> astep a a' -> alloc_inv a'.
Proof.
  intros Hi Hst. destruct Hst.
  - eapply alloc_inv_kalloc; eauto.
  - eapply alloc_inv_kfree; eauto.
  - eapply alloc_inv_superalloc; eauto.
  - eapply alloc_inv_superfree; eauto.
  - eapply alloc_inv_write; eauto.
Qed.

Lemma alloc_inv_reach a a' : alloc_inv a -> rtc astep a a' -> alloc_inv a'.
Proof. intros Hi Hr. induction Hr; eauto using alloc_inv_step. Qed.

Lemma alloc_inv_init m s :
  kend <= pool_base -> kinit [] (boot_phys m) = Ret tt [] s -> alloc_inv (ainit s).
Proof.
  intros Hk E. destruct (kinit_run m [] (not_elem_of_nil _) Hk) as (s' & E' & Hi & Hs & Hf).
  assert (s' = s) as -> by congruence. exists (rev boot_pages). cbn.
  rewrite Hf, !app_nil_r. split_and!; auto. apply reverse_Permutation || symmetry; apply Permutation_rev.
Qed.

End kinit.
