(* ===== verification/KallocSpec.v ===== *)
(** * Theorems about [kernel/kalloc.c] *)

From stdpp Require Import relations.
From S2P Require Import Prelude KMonad Riscv Mem Kalloc KallocSafety.

Section theorems.
Context `{LayoutOk}.

(** After [kinit], the free list holds every page between the end of the
    kernel and the superpage pool once, and the pool holds its 60 superpages. *)
Theorem kinit_spec m h :
  kmem_lock ∉ h -> kend <= pool_base ->
  exists s, kinit h (boot_phys m) = Ret tt h s /\
    kmem_inv s (rev boot_pages) /\ super_inv s /\ super_free s = all_superpages.
Proof. apply kinit_run. Qed.

(** C24: From [kinit] on, whatever sequence of allocations, frees of owned
    pages and writes to owned memory the clients perform, both free lists stay
    intact, no page is handed out twice, owned pages overlap neither free pages
    nor superpages, and none is lost: free and owned pages together are always
    exactly the pages [kinit] found. *)
Theorem allocator_safe m s a :
  kend <= pool_base -> kinit [] (boot_phys m) = Ret tt [] s -> rtc astep (ainit s) a ->
  exists l, kmem_inv (ph a) l /\ super_inv (ph a) /\
    l ++ live a ≡ₚ boot_pages /\ super_free (ph a) ++ slive a ≡ₚ all_superpages /\
    NoDup (l ++ live a) /\ NoDup (super_free (ph a) ++ slive a) /\
    (forall p q, p ∈ live a -> q ∈ slive a -> p + PGSIZE <= q).
Proof.
  intros Hk E Hr. pose proof (alloc_inv_reach _ _ (alloc_inv_init m s Hk E) Hr) as Hi.
  destruct Hi as (l & Hl & Hs & Hp & Hsp). exists l. split_and!; auto.
  - rewrite Hp. apply boot_pages_NoDup.
  - rewrite Hsp. apply NoDup_all_superpages.
  - intros p q Hpl Hq. destruct (boot_page p) as [_ Hpb].
    { rewrite <- Hp. apply elem_of_app. auto. }
    assert (Hqo : superpage_ok q)
      by (apply superpage_ok_all; rewrite <- Hsp; apply elem_of_app; auto).
    apply superpage_above in Hqo. lia.
Qed.

(** A client never gets stuck: in a reachable state [kalloc] returns a
    page or 0, and freeing any owned page or superpage returns normally. *)
Theorem allocator_progress m s a :
  kend <= pool_base -> kinit [] (boot_phys m) = Ret tt [] s -> rtc astep (ainit s) a ->
  (exists p s', kalloc [] (ph a) = Ret p [] s') /\
  (exists p s', superalloc [] (ph a) = Ret p [] s') /\
  (forall p, p ∈ live a -> exists s', kfree p [] (ph a) = Ret tt [] s') /\
  (forall p, p ∈ slive a -> exists s', superfree p [] (ph a) = Ret tt [] s').
Proof.
  intros Hk E Hr. pose proof (alloc_inv_reach _ _ (alloc_inv_init m s Hk E) Hr) as Hi.
  destruct Hi as (l & Hl & Hs & Hp & Hsp).
  pose proof (not_elem_of_nil kmem_lock) as Hh. pose proof (not_elem_of_nil supermem_lock) as Hh'.
  split_and!.
  - destruct l as [|p l]; [rewrite kalloc_empty by auto; eauto |].
    destruct (kalloc_spec p [] (ph a) l) as (s' & -> & _); eauto.
  - destruct (list_snoc_inv (super_free (ph a))) as [Ef | (sl & q & Ef)].
    + rewrite superalloc_empty by auto. eauto.
    + destruct (superalloc_spec q [] (ph a) sl) as (s' & -> & _); eauto.
  - intros p Hpl. destruct (kfree_spec p [] (ph a) l) as (s' & -> & _); eauto.
    + apply boot_page. rewrite <- Hp. apply elem_of_app. auto.
    + intros Hin. pose proof boot_pages_NoDup as Hnd. rewrite <- Hp in Hnd.
      apply NoDup_app in Hnd as (_ & Hd & _). eapply Hd; eauto.
  - intros p Hpl. destruct (superfree_spec p [] (ph a)) as (s' & -> & _); eauto.
    + apply superpage_ok_all. rewrite <- Hsp. apply elem_of_app. auto.
    + intros Hin. pose proof NoDup_all_superpages as Hnd. rewrite <- Hsp in Hnd.
      apply NoDup_app in Hnd as (_ & Hd & _). eapply Hd; eauto.
Qed.

(** [kfree] accepts exactly the page-aligned addresses between the end of
    the kernel and PHYSTOP; on any other argument it panics. *)
Theorem kfree_checks pa h s : kmem_lock ∉ h ->
  (page_ok pa /\ exists s', kfree pa h s = Ret tt h s') \/
  (~ page_ok pa /\ kfree pa h s = Panic "kfree").
Proof.
  intros Hh. destruct (decide (page_ok pa)) as [Hp | Hp].
  - left. split; auto. eexists. now apply kfree_run.
  - right. split; auto. now apply kfree_bad.
Qed.

(** Freeing a page and allocating again returns the same page, leaves the
    free list as it was and the other pages untouched; the page's content is
    the junk pattern 5 (dangling references to it do not see the old data). *)
Theorem kfree_kalloc pa h s l :
  kmem_inv s l -> page_ok pa -> pa ∉ l -> kmem_lock ∉ h ->
  exists s', (kfree pa;; kalloc) h s = Ret pa h s' /\ kmem_inv s' l /\
    same_except [pa] (mem s) (mem s') /\
    forall x, pa <= x < pa + PGSIZE -> mem s' x = 5.
Proof.
  intros Hi Hp Hnl Hh. destruct (kfree_spec pa h s l) as (s1 & E1 & Hi1 & Hm1 & _); auto.
  destruct (kalloc_spec pa h s1 l Hi1 Hh) as (s2 & E2 & Hi2 & Hm2 & H5 & _).
  exists s2. rewrite (bind_Ret _ _ _ _ _ _ _ E1). split_and!; auto.
  intros x Hx. now rewrite Hm2, Hm1.
Qed.

End theorems.

(** ** Witnesses, at the addresses of this kernel's link map *)

Definition zero_mem : memory := fun _ => 0.

Lemma pool_above_kernel : kend <= pool_base.
Proof. vm_compute. congruence. Qed.

Lemma kinit_spec_witness : exists s, kinit [] (boot_phys zero_mem) = Ret tt [] s /\
  super_free s = all_superpages.
Proof.
  destruct (kinit_spec zero_mem [] (not_elem_of_nil _) pool_above_kernel) as (s & E & _ & _ & Hs).
  exists s. auto.
Defined.

(** One page and one superpage allocated after boot. *)
Lemma boot_two_steps : exists s a,
  kinit [] (boot_phys zero_mem) = Ret tt [] s /\ rtc astep (ainit s) a /\
  length (live a) = 1%nat /\ length (slive a) = 1%nat.
Proof.
  destruct (kinit_run zero_mem [] (not_elem_of_nil _) pool_above_kernel)
    as (s & E & Hk & Hs & Hf).
  assert (exists p l, rev boot_pages = p :: l) as (p & l & El).
  { destruct (rev boot_pages) as [|p l] eqn:Er; [| eauto].
    apply (f_equal length) in Er. rewrite length_rev in Er. vm_compute in Er. discriminate. }
  rewrite El in Hk. destruct (kalloc_spec p [] s l Hk (not_elem_of_nil _)) as (s1 & E1 & _ & _ & _ & Esp & Enf).
  destruct (super_inv_same s s1 Esp Enf Hs) as [Hs1 Hf1]. rewrite Hf in Hf1.
  destruct (list_snoc_inv all_superpages) as [Ea | (sl & q & Ea)]; [discriminate Ea |].
  rewrite Ea in Hf1.
  destruct (superalloc_spec q [] s1 sl Hs1 Hf1 (not_elem_of_nil _)) as (s2 & E2 & _).
  exists s, (mkA s2 [p] [q]). split_and!; auto.
  destruct (kmem_inv_head _ _ _ Hk) as (_ & Hp & _). pose proof (page_ok_pos p Hp).
  eapply rtc_l; [apply (st_kalloc s [] [] p s1 E1); lia |].
  eapply rtc_l; [apply (st_superalloc s1 [p] [] q s2 E2) | constructor].
  destruct Hs1 as (_ & _ & _ & Hok). rewrite Hf1, Forall_app, Forall_singleton in Hok.
  destruct Hok as [_ [_ Hq]]. 
  assert (0 < PHYSTOP - NSUPERPAGES * SUPERPGSIZE) by (vm_compute; reflexivity). lia.
Qed.

Lemma allocator_safe_witness : exists a l,
  length (live a) = 1%nat /\ l ++ live a ≡ₚ boot_pages.
Proof.
  destruct boot_two_steps as (s & a & E & Hr & Hl & _).
  destruct (allocator_safe zero_mem s a pool_above_kernel E Hr) as (l & _ & _ & Hp & _).
  exists a, l. auto.
Defined.

Lemma allocator_progress_witness : exists a p s',
  length (slive a) = 1%nat /\ p ∈ slive a /\ superfree p [] (ph a) = Ret tt [] s'.
Proof.
  destruct boot_two_steps as (s & a & E & Hr & _ & Hl).
  destruct (allocator_progress zero_mem s a pool_above_kernel E Hr) as (_ & _ & _ & Hf).
  destruct (slive a) as [|p SL] eqn:Es; [discriminate |].
  destruct (Hf p ltac:(left)) as (s' & E'). exists a, p, s'. rewrite Es.
  split_and!; auto. left.
Defined.

Lemma kfree_checks_witness : kfree 0x80100001 [] (boot_phys zero_mem) = Panic "kfree".
Proof.
  destruct (kfree_checks 0x80100001 [] (boot_phys zero_mem) (not_elem_of_nil _)) as [[[E _] _] | [_ E]].
  - vm_compute in E. discriminate.
  - exact E.
Defined.

Lemma kfree_kalloc_witness : exists s',
  (kfree 0x80100000;; kalloc) [] (boot_phys zero_mem) = Ret 0x80100000 [] s' /\
  mem s' 0x80100123 = 5.
Proof.
  destruct (kfree_kalloc 0x80100000 [] (boot_phys zero_mem) []) as (s' & E & _ & _ & H5).
  - split_and!; [reflexivity | constructor | constructor].
  - split; [reflexivity | split; vm_compute; congruence].
  - apply not_elem_of_nil.
  - apply not_elem_of_nil.
  - exists s'. split; [exact E |]. apply H5. split; vm_compute; congruence.
Defined.
