(* ===== verification/Vm.v ===== *)
(** * Virtual memory, [kernel/vm.c]

    Sv39 page tables live in physical memory; a [pagetable_t] is the address
    of a page of 512 entries and a [pte_t *] the address of an entry.  The
    repository adds 2 MiB superpages: leaf entries one level up, reached with
    [superwalk] and backed by the superpage pool.  [LAB_PGTBL] is defined
    ([conf/lab.mk]).  Kernel-side buffers of [copyout]/[copyin] are byte
    lists. *)

From S2P Require Import Prelude KMonad Riscv Mem Printf Kalloc.

Definition read64 (a : Z) : M phys Z := gets (fun s => load64 (mem s) a).
Definition write64 (a v : Z) : M phys unit := modify (set_mem (fun m => store64 m a v)).
Definition mset (d c n : Z) : M phys unit := modify (set_mem (fun m => memset m d c n)).

(** [n] bytes at [a], and storing a byte list. *)
Definition read_bytes (m : memory) (a : Z) (n : Z) : list Z := map m (seqZ a n).
Definition write_bytes (m : memory) (a : Z) (bs : list Z) : memory :=
  fun x => if (a <=? x) && (x <? a + Z.of_nat (length bs)) then nthZ 0 bs (x - a) else m x.

(** A C condition [x & flag]. *)
Definition flag (x f : Z) : bool := negb (Z.land x f =? 0).

(** [&pagetable[i]]. *)
Definition entry (pagetable i : Z) : Z := pagetable + 8 * i.

Section vm.
Context `{Layout}.

(** The loop [for(level = 2; level > 0; level--)] of [walk]. *)
Fixpoint walk_loop (level : nat) (pagetable va : Z) (alloc : bool) : M phys Z :=
  match level with
  | O => ret (entry pagetable (PX 0 va))
  | S level' =>
      let pte := entry pagetable (PX (Z.of_nat level) va) in
      v <- read64 pte;;
      if flag v PTE_V then
        if negb (PTE_LEAF v =? 0) then ret pte
        else walk_loop level' (PTE2PA v) va alloc
      else if negb alloc then ret 0
      else
        pg <- kalloc;;
        if pg =? 0 then ret 0
        else
          mset pg 0 PGSIZE;;
          write64 pte (Z.lor (PA2PTE pg) PTE_V);;
          walk_loop level' pg va alloc
  end.

Definition walk (pagetable va : Z) (alloc : bool) : M phys Z :=
  if MAXVA <=? va then panic "walk" else walk_loop 2 pagetable va alloc.

Definition superwalk (pagetable va : Z) (alloc : bool) : M phys Z :=
  if MAXVA <=? va then panic "superwalk"
  else
    let pte := entry pagetable (PX 2 va) in
    v <- read64 pte;;
    if flag v PTE_V then ret (entry (PTE2PA v) (PX 1 va))
    else if negb alloc then ret 0
    else
      pg <- kalloc;;
      if pg =? 0 then ret 0
      else
        mset pg 0 PGSIZE;;
        write64 pte (Z.lor (PA2PTE pg) PTE_V);;
        ret (entry pg (PX 1 va)).

Definition walkaddr (pagetable va : Z) : M phys Z :=
  if MAXVA <=? va then ret 0
  else
    pte <- walk pagetable va false;;
    if pte =? 0 then ret 0
    else
      v <- read64 pte;;
      if negb (flag v PTE_V) then ret 0
      else if negb (flag v PTE_U) then ret 0
      else ret (PTE2PA v).

Fixpoint mappages_loop (fuel : nat) (pagetable a last pa perm : Z) : M phys Z :=
  match fuel with
  | O => out_of_fuel
  | S fuel' =>
      pte <- walk pagetable a true;;
      if pte =? 0 then ret (-1)
      else
        v <- read64 pte;;
        if flag v PTE_V then panic "mappages: remap"
        else
          write64 pte (mkpte pa perm);;
          if a =? last then ret 0
          else mappages_loop fuel' pagetable (u64 (a + PGSIZE)) last (u64 (pa + PGSIZE)) perm
  end.

Definition mappages (pagetable va size pa perm : Z) : M phys Z :=
  if negb (va mod PGSIZE =? 0) then panic "mappages: va not aligned"
  else if negb (size mod PGSIZE =? 0) then panic "mappages: size not aligned"
  else if size =? 0 then panic "mappages: size"
  else mappages_loop (Z.to_nat (size / PGSIZE)) pagetable va (u64 (va + size - PGSIZE)) pa perm.

Definition kvmmap (kpgtbl va pa sz perm : Z) : M phys unit :=
  r <- mappages kpgtbl va sz pa perm;;
  if negb (r =? 0) then panic "kvmmap" else ret tt.

Definition supermappages (pagetable va pa perm : Z) : M phys Z :=
  if negb (va mod SUPERPGSIZE =? 0) then panic "supermappages: va not aligned"
  else
    pte <- superwalk pagetable va true;;
    if pte =? 0 then ret (-1)
    else
      v <- read64 pte;;
      if flag v PTE_V then panic "supermappages: remap"
      else
        write64 pte (mkpte pa perm);;
        ret 0.

(** The superpage test shared by [uvmunmap] and [uvmcopy]:
    [a % SUPERPGSIZE == 0], [spte = superwalk(pagetable, a, 0)] and
    [spte != 0 && ( *spte & PTE_V ) && ( *spte & PTE_R )]; the entry's address
    when it holds, 0 otherwise. *)
Definition superpage_entry (pagetable a : Z) : M phys Z :=
  if a mod SUPERPGSIZE =? 0 then
    spte <- superwalk pagetable a false;;
    if spte =? 0 then ret 0
    else
      v <- read64 spte;;
      if flag v PTE_V && flag v PTE_R then ret spte else ret 0
  else ret 0.

Fixpoint uvmunmap_loop (fuel : nat) (pagetable a last : Z) (do_free : bool) : M phys unit :=
  if negb (a <? last) then ret tt
  else
    match fuel with
    | O => out_of_fuel
    | S fuel' =>
        spte <- superpage_entry pagetable a;;
        if negb (spte =? 0) then
          (if do_free then
             v <- read64 spte;;
             superfree (PTE2PA v)
           else ret tt);;
          write64 spte 0;;
          uvmunmap_loop fuel' pagetable (u64 (a + SUPERPGSIZE)) last do_free
        else
          pte <- walk pagetable a false;;
          if pte =? 0 then panic "uvmunmap: walk"
          else
            v <- read64 pte;;
            if negb (flag v PTE_V) then
              printf (bytes_of "va=%ld pte=%ld" ++ [10]) [VInt a; VInt v];;
              panic "uvmunmap: not mapped"
            else if PTE_FLAGS v =? PTE_V then panic "uvmunmap: not a leaf"
            else
              (if do_free then kfree (PTE2PA v) else ret tt);;
              write64 pte 0;;
              uvmunmap_loop fuel' pagetable (u64 (a + PGSIZE)) last do_free
    end.

Definition uvmunmap (pagetable va npages : Z) (do_free : bool) : M phys unit :=
  if negb (va mod PGSIZE =? 0) then panic "uvmunmap: not aligned"
  else uvmunmap_loop (Z.to_nat npages) pagetable va (u64 (va + u64 (npages * PGSIZE))) do_free.

Definition uvmcreate : M phys Z :=
  pagetable <- kalloc;;
  if pagetable =? 0 then ret 0
  else
    mset pagetable 0 PGSIZE;;
    ret pagetable.

(** [memmove(mem, src, sz)] copies the bytes [src] of [initcode]. *)
Definition uvmfirst (pagetable : Z) (src : list Z) : M phys unit :=
  let sz := Z.of_nat (length src) in
  if PGSIZE <=? sz then panic "uvmfirst: more than a page"
  else
    pg <- kalloc;;
    mset pg 0 PGSIZE;;
    _ <- mappages pagetable 0 PGSIZE pg (Z.lor (Z.lor (Z.lor PTE_W PTE_R) PTE_X) PTE_U);;
    modify (set_mem (fun m => write_bytes m pg src)).

Definition uvmdealloc (pagetable oldsz newsz : Z) : M phys Z :=
  if oldsz <=? newsz then ret oldsz
  else
    (if PGROUNDUP newsz <? PGROUNDUP oldsz then
       let npages := i32 ((PGROUNDUP oldsz - PGROUNDUP newsz) / PGSIZE) in
       uvmunmap pagetable (PGROUNDUP newsz) (u64 npages) true
     else ret tt);;
    ret newsz.

Fixpoint uvmalloc_loop (fuel : nat) (pagetable a oldsz newsz xperm : Z) : M phys Z :=
  if negb (a <? newsz) then ret newsz
  else
    match fuel with
    | O => out_of_fuel
    | S fuel' =>
        if (a mod SUPERPGSIZE =? 0) && (SUPERPGSIZE <=? u64 (newsz - a)) then
          pg <- superalloc;;
          if pg =? 0 then _ <- uvmdealloc pagetable a oldsz;; ret 0
          else
            mset pg 0 SUPERPGSIZE;;
            r <- supermappages pagetable a pg (Z.lor (Z.lor (Z.lor PTE_R PTE_W) PTE_U) xperm);;
            if negb (r =? 0) then
              superfree pg;;
              _ <- uvmdealloc pagetable a oldsz;;
              ret 0
            else uvmalloc_loop fuel' pagetable (u64 (a + SUPERPGSIZE)) oldsz newsz xperm
        else
          pg <- kalloc;;
          if pg =? 0 then _ <- uvmdealloc pagetable a oldsz;; ret 0
          else
            mset pg 0 PGSIZE;;
            r <- mappages pagetable a PGSIZE pg (Z.lor (Z.lor PTE_R PTE_U) xperm);;
            if negb (r =? 0) then
              kfree pg;;
              _ <- uvmdealloc pagetable a oldsz;;
              ret 0
            else uvmalloc_loop fuel' pagetable (u64 (a + PGSIZE)) oldsz newsz xperm
    end.

Definition uvmalloc (pagetable oldsz newsz xperm : Z) : M phys Z :=
  if newsz <? oldsz then ret oldsz
  else
    let oldsz := PGROUNDUP oldsz in
    uvmalloc_loop (Z.to_nat ((newsz - oldsz) / PGSIZE + 1)) pagetable oldsz oldsz newsz xperm.

(** The body of [freewalk]'s loop over the entries [i], [i+1], ..., [i+k-1];
    [rec] is the recursive call. *)
Fixpoint freewalk_entries (rec : Z -> M phys unit) (k : nat) (pagetable i : Z) : M phys unit :=
  match k with
  | O => ret tt
  | S k' =>
      pte <- read64 (entry pagetable i);;
      if flag pte PTE_V && (Z.land pte (Z.lor (Z.lor PTE_R PTE_W) PTE_X) =? 0) then
        rec (PTE2PA pte);;
        write64 (entry pagetable i) 0;;
        freewalk_entries rec k' pagetable (i + 1)
      else if flag pte PTE_V then panic "freewalk: leaf"
      else freewalk_entries rec k' pagetable (i + 1)
  end.

Fixpoint freewalk (fuel : nat) (pagetable : Z) : M phys unit :=
  match fuel with
  | O => out_of_fuel
  | S fuel' =>
      freewalk_entries (freewalk fuel') 512 pagetable 0;;
      kfree pagetable
  end.

(** A page table has three levels. *)
Definition PT_LEVELS : nat := 3.

Definition uvmfree (pagetable sz : Z) : M phys unit :=
  (if 0 <? sz then uvmunmap pagetable 0 (PGROUNDUP sz / PGSIZE) true else ret tt);;
  freewalk PT_LEVELS pagetable.

Definition uvmcopy_err (new i : Z) : M phys Z :=
  uvmunmap new 0 (i / PGSIZE) true;;
  ret (-1).

Fixpoint uvmcopy_loop (fuel : nat) (old new i sz : Z) : M phys Z :=
  if negb (i <? sz) then ret 0
  else
    match fuel with
    | O => out_of_fuel
    | S fuel' =>
        spte <- superpage_entry old i;;
        if negb (spte =? 0) then
          v <- read64 spte;;
          pg <- superalloc;;
          if pg =? 0 then uvmcopy_err new i
          else
            modify (set_mem (fun m => memmove m pg (PTE2PA v) SUPERPGSIZE));;
            r <- supermappages new i pg (PTE_FLAGS v);;
            if negb (r =? 0) then superfree pg;; uvmcopy_err new i
            else uvmcopy_loop fuel' old new (u64 (i + SUPERPGSIZE)) sz
        else
          pte <- walk old i false;;
          if pte =? 0 then panic "uvmcopy: pte should exist"
          else
            v <- read64 pte;;
            if negb (flag v PTE_V) then panic "uvmcopy: page not present"
            else
              pg <- kalloc;;
              if pg =? 0 then uvmcopy_err new i
              else
                modify (set_mem (fun m => memmove m pg (PTE2PA v) PGSIZE));;
                r <- mappages new i PGSIZE pg (PTE_FLAGS v);;
                if negb (r =? 0) then kfree pg;; uvmcopy_err new i
                else uvmcopy_loop fuel' old new (u64 (i + PGSIZE)) sz
    end.

Definition uvmcopy (old new sz : Z) : M phys Z :=
  uvmcopy_loop (Z.to_nat (sz / PGSIZE + 1)) old new 0 sz.

Definition uvmclear (pagetable va : Z) : M phys unit :=
  pte <- walk pagetable va false;;
  if pte =? 0 then panic "uvmclear"
  else
    v <- read64 pte;;
    write64 pte (Z.land v (Z.lnot PTE_U)).

(** [while(len > 0)] of [copyout]; [src] is what is left to copy. *)
Fixpoint copyout_loop (fuel : nat) (pagetable dstva : Z) (src : list Z) : M phys Z :=
  match src with
  | [] => ret 0
  | _ =>
      match fuel with
      | O => out_of_fuel
      | S fuel' =>
          let va0 := PGROUNDDOWN dstva in
          if MAXVA <=? va0 then ret (-1)
          else
            pte <- walk pagetable va0 false;;
            if pte =? 0 then ret (-1)
            else
              v <- read64 pte;;
              if negb (flag v PTE_W) then ret (-1)
              else
                pa0 <- walkaddr pagetable va0;;
                if pa0 =? 0 then ret (-1)
                else
                  let n := Z.min (PGSIZE - (dstva - va0)) (Z.of_nat (length src)) in
                  modify (set_mem (fun m =>
                    write_bytes m (pa0 + (dstva - va0)) (take (Z.to_nat n) src)));;
                  copyout_loop fuel' pagetable (u64 (va0 + PGSIZE)) (drop (Z.to_nat n) src)
      end
  end.

Definition copyout (pagetable dstva : Z) (src : list Z) : M phys Z :=
  copyout_loop (length src) pagetable dstva src.

(** [while(len > 0)] of [copyin]; the result is the return value with the
    bytes [acc] written to [dst] so far. *)
Fixpoint copyin_loop (fuel : nat) (pagetable srcva len : Z) (acc : list Z) : M phys (Z * list Z) :=
  if len <=? 0 then ret (0, acc)
  else
    match fuel with
    | O => out_of_fuel
    | S fuel' =>
        let va0 := PGROUNDDOWN srcva in
        pa0 <- walkaddr pagetable va0;;
        if pa0 =? 0 then ret (-1, acc)
        else
          let n := Z.min (PGSIZE - (srcva - va0)) len in
          bs <- gets (fun s => read_bytes (mem s) (pa0 + (srcva - va0)) n);;
          copyin_loop fuel' pagetable (u64 (va0 + PGSIZE)) (len - n) (acc ++ bs)
    end.

Definition copyin (pagetable srcva len : Z) : M phys (Z * list Z) :=
  copyin_loop (Z.to_nat len) pagetable srcva len [].

(** The inner [while(n > 0)] of [copyinstr]: the bytes appended to [dst] and
    whether the NUL was met. *)
Fixpoint copyinstr_page (m : memory) (p : Z) (n : nat) : list Z * bool :=
  match n with
  | O => ([], false)
  | S n' =>
      if m p =? 0 then ([0], true)
      else let '(bs, got_null) := copyinstr_page m (p + 1) n' in (m p :: bs, got_null)
  end.

Fixpoint copyinstr_loop (fuel : nat) (pagetable srcva max : Z) (acc : list Z)
  : M phys (Z * list Z) :=
  if max <=? 0 then ret (-1, acc)
  else
    match fuel with
    | O => out_of_fuel
    | S fuel' =>
        let va0 := PGROUNDDOWN srcva in
        pa0 <- walkaddr pagetable va0;;
        if pa0 =? 0 then ret (-1, acc)
        else
          let n := Z.min (PGSIZE - (srcva - va0)) max in
          r <- gets (fun s => copyinstr_page (mem s) (pa0 + (srcva - va0)) (Z.to_nat n));;
          let '(bs, got_null) := r in
          if (got_null : bool) then ret (0, acc ++ bs)
          else copyinstr_loop fuel' pagetable (u64 (va0 + PGSIZE)) (max - n) (acc ++ bs)
    end.

Definition copyinstr (pagetable srcva max : Z) : M phys (Z * list Z) :=
  copyinstr_loop (Z.to_nat max) pagetable srcva max [].

(** ** Printing a page table *)

Fixpoint printf_repeat (k : nat) (fmt : list Z) : M phys unit :=
  match k with
  | O => ret tt
  | S k' => printf fmt [];; printf_repeat k' fmt
  end.

Fixpoint vmprint_entries (rec : Z -> Z -> M phys unit) (k : nat) (pagetable i : Z)
    (depth : nat) (va_recursive : Z) : M phys unit :=
  match k with
  | O => ret tt
  | S k' =>
      pte <- read64 (entry pagetable i);;
      if negb (flag pte PTE_V) then vmprint_entries rec k' pagetable (i + 1) depth va_recursive
      else
        let va := Z.lor va_recursive (u64 (Z.shiftl i (PXSHIFT (2 - Z.of_nat depth)))) in
        printf (bytes_of " ") [];;
        printf_repeat depth (bytes_of ".. ");;
        printf (bytes_of "..%p: pte %p pa %p" ++ [10]) [VInt va; VInt pte; VInt (PTE2PA pte)];;
        (if flag pte PTE_V && (Z.land pte (Z.lor (Z.lor PTE_R PTE_W) PTE_X) =? 0)
         then rec (PTE2PA pte) va else ret tt);;
        vmprint_entries rec k' pagetable (i + 1) depth va_recursive
  end.

Fixpoint vmprint_recurse (fuel : nat) (pagetable : Z) (depth : nat) (va_recursive : Z)
  : M phys unit :=
  match fuel with
  | O => out_of_fuel
  | S fuel' =>
      vmprint_entries (fun child va => vmprint_recurse fuel' child (S depth) va)
        512 pagetable 0 depth va_recursive
  end.

Definition vmprint (pagetable : Z) : M phys unit :=
  printf (bytes_of "page table %p" ++ [10]) [VInt pagetable];;
  vmprint_recurse PT_LEVELS pagetable 0 0.

Definition pgpte (pagetable va : Z) : M phys Z := walk pagetable va false.

(** ** The kernel page table *)

(** [proc_mapstacks] of [proc.c]: [k] processes are left. *)
Fixpoint proc_mapstacks_loop (k : nat) (kpgtbl i : Z) : M phys unit :=
  match k with
  | O => ret tt
  | S k' =>
      pa <- kalloc;;
      if pa =? 0 then panic "kalloc"
      else
        kvmmap kpgtbl (KSTACK i) pa PGSIZE (Z.lor PTE_R PTE_W);;
        proc_mapstacks_loop k' kpgtbl (i + 1)
  end.

Definition proc_mapstacks (kpgtbl : Z) : M phys unit :=
  proc_mapstacks_loop (Z.to_nat NPROC) kpgtbl 0.

Definition kvmmake : M phys Z :=
  kpgtbl <- kalloc;;
  mset kpgtbl 0 PGSIZE;;
  kvmmap kpgtbl UART0 UART0 PGSIZE (Z.lor PTE_R PTE_W);;
  kvmmap kpgtbl VIRTIO0 VIRTIO0 PGSIZE (Z.lor PTE_R PTE_W);;
  kvmmap kpgtbl PLIC PLIC 0x4000000 (Z.lor PTE_R PTE_W);;
  kvmmap kpgtbl KERNBASE KERNBASE (etext - KERNBASE) (Z.lor PTE_R PTE_X);;
  kvmmap kpgtbl etext etext (PHYSTOP - etext) (Z.lor PTE_R PTE_W);;
  kvmmap kpgtbl TRAMPOLINE trampoline PGSIZE (Z.lor PTE_R PTE_X);;
  proc_mapstacks kpgtbl;;
  ret kpgtbl.

End vm.
