(* ===== verification/Proc.v ===== *)
(** * Processes (kernel/proc.c)

    The process table over physical memory, and the functions of proc.c that
    do not touch files: allocation and release of processes and their page
    tables, growing, waiting, scheduling, sleeping and killing.  [&proc[i]] is
    the pointer [i + 1] and 0 is the null pointer.  [myproc()] is the parameter
    [me]: the thread that runs a system call runs it for one process.
    [fork], [exit] and the functions that start the first process are in
    [ProcFile], over an interface to the file layer. *)

From S2P Require Import Prelude KMonad Riscv Mem Printf Kalloc Vm.

Inductive procstate := UNUSED | USED | SLEEPING | RUNNABLE | RUNNING | ZOMBIE.

#[global] Instance procstate_eq_dec : EqDecision procstate.
Proof. solve_decision. Defined.

(** [struct context]: [saved] has the registers [s0] to [s11]. *)
Record ctx := Ctx { ctx_ra : Z; ctx_sp : Z; saved : list Z }.

(** [struct proc]; the [lock] is a lock of the kernel monad, [chan] is [None]
    when it is 0, and the trap frame is a page of physical memory. *)
Record proc := Proc {
  state : procstate; chan : option channel; pkilled : Z; xstate : Z; pid : Z; parent : Z;
  kstack : Z; sz : Z; pagetable : Z; trapframe : Z;
  context : ctx; ofile : list Z; pcwd : Z; pname : list Z }.

Definition set_state (v : procstate) (p : proc) : proc :=
  Proc v (chan p) (pkilled p) (xstate p) (pid p) (parent p) (kstack p) (sz p) (pagetable p) (trapframe p) (context p) (ofile p) (pcwd p) (pname p).
Definition set_chan (v : option channel) (p : proc) : proc :=
  Proc (state p) v (pkilled p) (xstate p) (pid p) (parent p) (kstack p) (sz p) (pagetable p) (trapframe p) (context p) (ofile p) (pcwd p) (pname p).
Definition set_pkilled (v : Z) (p : proc) : proc :=
  Proc (state p) (chan p) v (xstate p) (pid p) (parent p) (kstack p) (sz p) (pagetable p) (trapframe p) (context p) (ofile p) (pcwd p) (pname p).
Definition set_xstate (v : Z) (p : proc) : proc :=
  Proc (state p) (chan p) (pkilled p) v (pid p) (parent p) (kstack p) (sz p) (pagetable p) (trapframe p) (context p) (ofile p) (pcwd p) (pname p).
Definition set_pid (v : Z) (p : proc) : proc :=
  Proc (state p) (chan p) (pkilled p) (xstate p) v (parent p) (kstack p) (sz p) (pagetable p) (trapframe p) (context p) (ofile p) (pcwd p) (pname p).
Definition set_parent (v : Z) (p : proc) : proc :=
  Proc (state p) (chan p) (pkilled p) (xstate p) (pid p) v (kstack p) (sz p) (pagetable p) (trapframe p) (context p) (ofile p) (pcwd p) (pname p).
Definition set_kstack (v : Z) (p : proc) : proc :=
  Proc (state p) (chan p) (pkilled p) (xstate p) (pid p) (parent p) v (sz p) (pagetable p) (trapframe p) (context p) (ofile p) (pcwd p) (pname p).
Definition set_sz (v : Z) (p : proc) : proc :=
  Proc (state p) (chan p) (pkilled p) (xstate p) (pid p) (parent p) (kstack p) v (pagetable p) (trapframe p) (context p) (ofile p) (pcwd p) (pname p).
Definition set_pagetable (v : Z) (p : proc) : proc :=
  Proc (state p) (chan p) (pkilled p) (xstate p) (pid p) (parent p) (kstack p) (sz p) v (trapframe p) (context p) (ofile p) (pcwd p) (pname p).
Definition set_trapframe (v : Z) (p : proc) : proc :=
  Proc (state p) (chan p) (pkilled p) (xstate p) (pid p) (parent p) (kstack p) (sz p) (pagetable p) v (context p) (ofile p) (pcwd p) (pname p).
Definition set_context (v : ctx) (p : proc) : proc :=
  Proc (state p) (chan p) (pkilled p) (xstate p) (pid p) (parent p) (kstack p) (sz p) (pagetable p) (trapframe p) v (ofile p) (pcwd p) (pname p).
Definition set_ofile (v : list Z) (p : proc) : proc :=
  Proc (state p) (chan p) (pkilled p) (xstate p) (pid p) (parent p) (kstack p) (sz p) (pagetable p) (trapframe p) (context p) v (pcwd p) (pname p).
Definition set_pcwd (v : Z) (p : proc) : proc :=
  Proc (state p) (chan p) (pkilled p) (xstate p) (pid p) (parent p) (kstack p) (sz p) (pagetable p) (trapframe p) (context p) (ofile p) v (pname p).
Definition set_pname (v : list Z) (p : proc) : proc :=
  Proc (state p) (chan p) (pkilled p) (xstate p) (pid p) (parent p) (kstack p) (sz p) (pagetable p) (trapframe p) (context p) (ofile p) (pcwd p) v.

(** Offsets of the fields of [struct trapframe] and its size. *)
Definition TF_kernel_satp : Z := 0.
Definition TF_kernel_sp : Z := 8.
Definition TF_kernel_trap : Z := 16.
Definition TF_epc : Z := 24.
Definition TF_kernel_hartid : Z := 32.
Definition TF_sp : Z := 48.
Definition TF_a0 : Z := 112.
Definition TF_a1 : Z := 120.
Definition TF_a7 : Z := 168.
Definition TF_SIZE : Z := 288.

(** The state: physical memory, [proc], [nextpid], [initproc] and the field
    [proc] of the CPUs. *)
Record psys := PSys {
  ph : phys; procs : Z -> proc; nextpid : Z; initproc : Z; cpu_proc : Z -> Z }.

Definition set_ph (v : phys) (s : psys) : psys := PSys v (procs s) (nextpid s) (initproc s) (cpu_proc s).
Definition set_procs (v : Z -> proc) (s : psys) : psys := PSys (ph s) v (nextpid s) (initproc s) (cpu_proc s).
Definition set_nextpid (v : Z) (s : psys) : psys := PSys (ph s) (procs s) v (initproc s) (cpu_proc s).
Definition set_initproc (v : Z) (s : psys) : psys := PSys (ph s) (procs s) (nextpid s) v (cpu_proc s).
Definition set_cpu_proc (c v : Z) (s : psys) : psys :=
  PSys (ph s) (procs s) (nextpid s) (initproc s) (fun x => if x =? c then v else cpu_proc s x).

Definition upd_proc (p : Z) (f : proc -> proc) (s : psys) : psys :=
  set_procs (fun q => if q =? p then f (procs s p) else procs s q) s.

Definition getproc (p : Z) : M psys proc := gets (fun s => procs s p).
Definition modproc (p : Z) (f : proc -> proc) : M psys unit := modify (upd_proc p f).

(** Physical memory, page tables and the allocator, inside the state. *)
Definition vm {A} (m : M phys A) : M psys A := zoom ph set_ph m.

(** [for(p = proc; p < &proc[NPROC]; p++)] *)
Definition all_procs : list Z := seqZ 1 NPROC.

(** Code addresses that the kernel stores in registers and frames. *)
Class Symbols := { forkret_addr : Z }.

(** The bytes of an [int] in memory. *)
Definition int_bytes (x : Z) : list Z := map (fun i => u8 (Z.shiftr (u32 x) (8 * i))) (seqZ 0 4).

Section proc.
Context `{Layout} `{Symbols}.

Fixpoint procinit_loop (l : list Z) : M psys unit :=
  match l with
  | [] => ret tt
  | p :: l' =>
      initlock (proc_lock p);;
      modproc p (set_state UNUSED);;
      modproc p (set_kstack (KSTACK (p - 1)));;
      procinit_loop l'
  end.

Definition procinit : M psys unit :=
  initlock pid_lock;;
  initlock wait_lock;;
  procinit_loop all_procs.

Definition allocpid : M psys Z :=
  acquire pid_lock;;
  pid <- gets nextpid;;
  modify (fun s => set_nextpid (i32 (nextpid s + 1)) s);;
  release pid_lock;;
  ret pid.

(** [proc_pagetable] with [p->trapframe] read first. *)
Definition user_pagetable (tf : Z) : M phys Z :=
  pt <- uvmcreate;;
  if pt =? 0 then ret 0
  else
    r <- mappages pt TRAMPOLINE PGSIZE trampoline (Z.lor PTE_R PTE_X);;
    if r <? 0 then
      uvmfree pt 0;;
      ret 0
    else
      r <- mappages pt TRAPFRAME PGSIZE tf (Z.lor PTE_R PTE_W);;
      if r <? 0 then
        uvmunmap pt TRAMPOLINE 1 false;;
        uvmfree pt 0;;
        ret 0
      else ret pt.

Definition proc_pagetable (p : Z) : M psys Z :=
  x <- getproc p;;
  vm (user_pagetable (trapframe x)).

Definition proc_freepagetable (pt size : Z) : M phys unit :=
  uvmunmap pt TRAMPOLINE 1 false;;
  uvmunmap pt TRAPFRAME 1 false;;
  uvmfree pt size.

Definition freeproc (p : Z) : M psys unit :=
  x <- getproc p;;
  (if negb (trapframe x =? 0) then vm (kfree (trapframe x)) else ret tt);;
  modproc p (set_trapframe 0);;
  (if negb (pagetable x =? 0) then vm (proc_freepagetable (pagetable x) (sz x)) else ret tt);;
  modproc p (set_pagetable 0);;
  modproc p (set_sz 0);;
  modproc p (set_pid 0);;
  modproc p (set_parent 0);;
  modproc p (fun x => set_pname (updZ (pname x) 0 0) x);;
  modproc p (set_chan None);;
  modproc p (set_pkilled 0);;
  modproc p (set_xstate 0);;
  modproc p (set_state UNUSED).

(** The search of [allocproc]: an UNUSED process with its lock held, or 0. *)
Fixpoint find_unused (l : list Z) : M psys Z :=
  match l with
  | [] => ret 0
  | p :: l' =>
      acquire (proc_lock p);;
      x <- getproc p;;
      if decide (state x = UNUSED) then ret p
      else
        release (proc_lock p);;
        find_unused l'
  end.

Definition allocproc : M psys Z :=
  p <- find_unused all_procs;;
  if p =? 0 then ret 0
  else
    n <- allocpid;;
    modproc p (set_pid n);;
    modproc p (set_state USED);;
    tf <- vm kalloc;;
    modproc p (set_trapframe tf);;
    if tf =? 0 then
      freeproc p;;
      release (proc_lock p);;
      ret 0
    else
      pt <- proc_pagetable p;;
      modproc p (set_pagetable pt);;
      if pt =? 0 then
        freeproc p;;
        release (proc_lock p);;
        ret 0
      else
        x <- getproc p;;
        modproc p (set_context (Ctx forkret_addr (u64 (kstack x + PGSIZE)) (repeat 0 12)));;
        ret p.

Definition setkilled (p : Z) : M psys unit :=
  acquire (proc_lock p);;
  modproc p (set_pkilled 1);;
  release (proc_lock p).

Definition killed (p : Z) : M psys Z :=
  acquire (proc_lock p);;
  x <- getproc p;;
  release (proc_lock p);;
  ret (pkilled x).

Fixpoint kill_loop (n : Z) (l : list Z) : M psys Z :=
  match l with
  | [] => ret (-1)
  | p :: l' =>
      acquire (proc_lock p);;
      x <- getproc p;;
      if pid x =? n then
        modproc p (set_pkilled 1);;
        (if decide (state x = SLEEPING) then modproc p (set_state RUNNABLE) else ret tt);;
        release (proc_lock p);;
        ret 0
      else
        release (proc_lock p);;
        kill_loop n l'
  end.

Definition kill (n : Z) : M psys Z := kill_loop n all_procs.

(** ** Functions of the running process *)

Section running.
Context (me : Z).

Definition growproc (n : Z) : M psys Z :=
  p <- getproc me;;
  if 0 <? n then
    r <- vm (uvmalloc (pagetable p) (sz p) (u64 (sz p + n)) PTE_W);;
    if r =? 0 then ret (-1)
    else modproc me (set_sz r);; ret 0
  else if n <? 0 then
    r <- vm (uvmdealloc (pagetable p) (sz p) (u64 (sz p + n)));;
    modproc me (set_sz r);;
    ret 0
  else
    modproc me (set_sz (sz p));;
    ret 0.

(** [swtch] to the scheduler; the locks held are the same afterwards. *)
Definition swtch : M psys unit := fun h s => Sleep ch_cpu s (fun s' => Ret tt h s').

(** [noff] is the number of locks held.  Holding a lock keeps interrupts off,
    so the last check does not fail. *)
Definition sched : M psys unit := fun h s =>
  (if negb (bool_decide (proc_lock me ∈ h)) then panic "sched p->lock"
   else if negb (Z.of_nat (length h) =? 1) then panic "sched locks"
   else if decide (state (procs s me) = RUNNING) then panic "sched running"
   else swtch) h s.

Definition yield : M psys unit :=
  acquire (proc_lock me);;
  modproc me (set_state RUNNABLE);;
  sched;;
  release (proc_lock me).

Definition sleep (c : channel) (lk : lockname) : M psys unit :=
  acquire (proc_lock me);;
  release lk;;
  modproc me (set_chan (Some c));;
  modproc me (set_state SLEEPING);;
  sched;;
  modproc me (set_chan None);;
  release (proc_lock me);;
  acquire lk.

Fixpoint wakeup_loop (c : channel) (l : list Z) : M psys unit :=
  match l with
  | [] => ret tt
  | p :: l' =>
      (if negb (p =? me) then
         acquire (proc_lock p);;
         x <- getproc p;;
         (if decide (state x = SLEEPING /\ chan x = Some c)
          then modproc p (set_state RUNNABLE) else ret tt);;
         release (proc_lock p)
       else ret tt);;
      wakeup_loop c l'
  end.

Definition wakeup (c : channel) : M psys unit := wakeup_loop c all_procs.

Fixpoint reparent_loop (p : Z) (l : list Z) : M psys unit :=
  match l with
  | [] => ret tt
  | pp :: l' =>
      x <- getproc pp;;
      (if parent x =? p then
         init <- gets initproc;;
         modproc pp (set_parent init);;
         wakeup (ch_proc init)
       else ret tt);;
      reparent_loop p l'
  end.

Definition reparent (p : Z) : M psys unit := reparent_loop p all_procs.

(** The scan of [wait]: [inl] is the value it returns, its locks released,
    [inr havekids] the end of the scan. *)
Fixpoint wait_scan (addr : Z) (havekids : bool) (l : list Z) : M psys (Z + bool) :=
  match l with
  | [] => ret (inr havekids)
  | pp :: l' =>
      x <- getproc pp;;
      if parent x =? me then
        acquire (proc_lock pp);;
        x <- getproc pp;;
        if decide (state x = ZOMBIE) then
          p <- getproc me;;
          r <- (if addr =? 0 then ret 0 else vm (copyout (pagetable p) addr (int_bytes (xstate x))));;
          if r <? 0 then
            release (proc_lock pp);;
            release wait_lock;;
            ret (inl (-1))
          else
            freeproc pp;;
            release (proc_lock pp);;
            release wait_lock;;
            ret (inl (pid x))
        else
          release (proc_lock pp);;
          wait_scan addr true l'
      else wait_scan addr havekids l'
  end.

Fixpoint wait_loop (fuel : nat) (addr : Z) : M psys Z :=
  r <- wait_scan addr false all_procs;;
  match r with
  | inl v => ret v
  | inr havekids =>
      k <- (if negb havekids then ret 1 else killed me);;
      if negb (k =? 0) then
        release wait_lock;;
        ret (-1)
      else
        match fuel with
        | O => out_of_fuel
        | S fuel' =>
            sleep (ch_proc me) wait_lock;;
            wait_loop fuel' addr
        end
  end.

Definition wait (fuel : nat) (addr : Z) : M psys Z :=
  acquire wait_lock;;
  wait_loop fuel addr.

End running.

(** ** The scheduler of CPU [c] *)

(** One pass over the table; the process runs while the thread is switched
    out, and [found] says whether one has run. *)
Fixpoint scheduler_loop (c : Z) (found : bool) (l : list Z) : M psys bool :=
  match l with
  | [] => ret found
  | p :: l' =>
      acquire (proc_lock p);;
      x <- getproc p;;
      if decide (state x = RUNNABLE) then
        modproc p (set_state RUNNING);;
        modify (set_cpu_proc c p);;
        swtch;;
        modify (set_cpu_proc c 0);;
        release (proc_lock p);;
        scheduler_loop c true l'
      else
        release (proc_lock p);;
        scheduler_loop c found l'
  end.

(** The body of the endless loop of [scheduler]. *)
Definition scheduler_pass (c : Z) : M psys bool := scheduler_loop c false all_procs.

(** ** Listing *)

Definition state_name (x : procstate) : list Z :=
  bytes_of (match x with
            | UNUSED => "unused" | USED => "used" | SLEEPING => "sleep "
            | RUNNABLE => "runble" | RUNNING => "run   " | ZOMBIE => "zombie"
            end).

(** The bytes of an array before the first NUL. *)
Fixpoint upto_nul (l : list Z) : list Z :=
  match l with
  | [] => []
  | c :: l' => if c =? 0 then [] else c :: upto_nul l'
  end.

Fixpoint procdump_loop (l : list Z) : M psys unit :=
  match l with
  | [] => ret tt
  | p :: l' =>
      x <- getproc p;;
      (if decide (state x = UNUSED) then ret tt
       else
         printf (bytes_of "%d %s %s") [VInt (pid x); VStr (Some (state_name (state x))); VStr (Some (upto_nul (pname x)))];;
         printf [10] []);;
      procdump_loop l'
  end.

Definition procdump : M psys unit :=
  printf [10] [];;
  procdump_loop all_procs.

End proc.
