(* ===== verification/ProcFile.v ===== *)
(** * Processes and files (kernel/proc.c)

    The functions of proc.c that use open files and inodes: [fork], [exit] and
    the start of the first process.  They run in any state that has a process
    table and the operations of the file layer ([FileOps]); [FileLaws] is what
    [fork] relies on. *)

From S2P Require Import Prelude KMonad Riscv Mem Printf Kalloc Vm Proc.

Class FileOps (K : Type) := {
  ps : K -> psys;
  set_ps : psys -> K -> K;
  op_filedup : Z -> M K Z;
  op_fileclose : Z -> M K unit;
  op_idup : Z -> M K Z;
  op_iput : Z -> M K unit;
  op_begin_op : M K unit;
  op_end_op : M K unit;
  op_namei : list Z -> M K Z;
}.

(** [can_dup k fs ns]: the files [fs] and then the in-memory inodes [ns] are in
    use and one more reference to each can be made.  [dupped k k' fs ns]: what
    making these references does outside of the process table. *)
Class FileLaws (K : Type) `{FileOps K} := {
  can_dup : K -> list Z -> list Z -> Prop;
  dupped : K -> K -> list Z -> list Z -> Prop;
  ps_set : forall x k, ps (set_ps x k) = x;
  set_ps_ps : forall k, set_ps (ps k) k = k;
  can_dup_set : forall x k fs ns, can_dup (set_ps x k) fs ns <-> can_dup k fs ns;
  dupped_nil : forall k, dupped k k [] [];
  dupped_set : forall x k k' fs ns, dupped k k' fs ns -> dupped k (set_ps x k') fs ns;
  dupped_app : forall k1 k2 k3 fs ns fs' ns', dupped k1 k2 fs ns -> dupped k2 k3 fs' ns' -> dupped k1 k3 (fs ++ fs') (ns ++ ns');
  filedup_law : forall h k f fs ns, ftable_lock ∉ h -> can_dup k (f :: fs) ns ->
    exists k', op_filedup f h k = Ret f h k' /\ ps k' = ps k /\ dupped k k' [f] [] /\ can_dup k' fs ns;
  idup_law : forall h k i ns, itable_lock ∉ h -> can_dup k [] (i :: ns) ->
    exists k', op_idup i h k = Ret i h k' /\ ps k' = ps k /\ dupped k k' [] [i] /\ can_dup k' [] ns;
}.

(** The open files among the descriptors [L]. *)
Definition open_files (o L : list Z) : list Z := filter (fun f => f <> 0) (map (nthZ 0 o) L).

(** [safestrcpy] on arrays: the bytes of [t] before its NUL, at most [n - 1]
    of them, then a NUL (two if [t] ends before the bound); the rest of the
    array [s] stays. *)
Fixpoint safestrcpy_list (n : nat) (s t : list Z) : list Z :=
  match n, s with
  | S (S n' as m), x :: s' =>
      match t with
      | c :: t' => if c =? 0 then 0 :: updZ s' 0 0 else c :: safestrcpy_list m s' t'
      | [] => 0 :: updZ s' 0 0
      end
  | S O, x :: s' => 0 :: s'
  | _, _ => s
  end.

Definition initcode : list Z :=
  [0x17; 0x05; 0x00; 0x00; 0x13; 0x05; 0x45; 0x02;
   0x97; 0x05; 0x00; 0x00; 0x93; 0x85; 0x35; 0x02;
   0x93; 0x08; 0x70; 0x00; 0x73; 0x00; 0x00; 0x00;
   0x93; 0x08; 0x20; 0x00; 0x73; 0x00; 0x00; 0x00;
   0xef; 0xf0; 0x9f; 0xff; 0x2f; 0x69; 0x6e; 0x69;
   0x74; 0x00; 0x00; 0x24; 0x00; 0x00; 0x00; 0x00;
   0x00; 0x00; 0x00; 0x00].

(** [*dst = *src] for trap frames. *)
Definition copy_trapframe (dst src : Z) : M phys unit :=
  modify (set_mem (fun m => memmove m dst src TF_SIZE)).

Section procfile.
Context `{Layout} `{Symbols} {K : Type} `{FileOps K}.

(** The process table inside the state. *)
Definition pr {A} (m : M psys A) : M K A := zoom ps set_ps m.

Definition userinit : M K unit :=
  p <- pr allocproc;;
  pr (modify (set_initproc p));;
  if p =? 0 then undef
  else
    x <- pr (getproc p);;
    pr (vm (uvmfirst (pagetable x) initcode));;
    pr (modproc p (set_sz PGSIZE));;
    pr (vm (write64 (trapframe x + TF_epc) 0));;
    pr (vm (write64 (trapframe x + TF_sp) PGSIZE));;
    pr (modproc p (fun x => set_pname (safestrcpy_list 16 (pname x) (bytes_of "initcode")) x));;
    ip <- op_namei (bytes_of "/");;
    pr (modproc p (set_pcwd ip));;
    pr (modproc p (set_state RUNNABLE));;
    pr (release (proc_lock p)).

(** The loop of [fork] over the open files. *)
Fixpoint dup_files (me np : Z) (l : list Z) : M K unit :=
  match l with
  | [] => ret tt
  | i :: l' =>
      p <- pr (getproc me);;
      let f := nthZ 0 (ofile p) i in
      (if negb (f =? 0) then
         g <- op_filedup f;;
         pr (modproc np (fun x => set_ofile (updZ (ofile x) i g) x))
       else ret tt);;
      dup_files me np l'
  end.

Definition fork (me : Z) : M K Z :=
  np <- pr allocproc;;
  if np =? 0 then ret (-1)
  else
    p <- pr (getproc me);;
    x <- pr (getproc np);;
    r <- pr (vm (uvmcopy (pagetable p) (pagetable x) (sz p)));;
    if r <? 0 then
      pr (freeproc np);;
      pr (release (proc_lock np));;
      ret (-1)
    else
      pr (modproc np (set_sz (sz p)));;
      pr (vm (copy_trapframe (trapframe x) (trapframe p)));;
      pr (vm (write64 (trapframe x + TF_a0) 0));;
      dup_files me np (seqZ 0 NOFILE);;
      ip <- op_idup (pcwd p);;
      pr (modproc np (set_pcwd ip));;
      pr (modproc np (fun x => set_pname (safestrcpy_list 16 (pname x) (pname p)) x));;
      let n := pid x in
      pr (release (proc_lock np));;
      pr (acquire wait_lock);;
      pr (modproc np (set_parent me));;
      pr (release wait_lock);;
      pr (acquire (proc_lock np));;
      pr (modproc np (set_state RUNNABLE));;
      pr (release (proc_lock np));;
      ret n.

(** The loop of [exit] over the open files. *)
Fixpoint close_files (me : Z) (l : list Z) : M K unit :=
  match l with
  | [] => ret tt
  | fd :: l' =>
      p <- pr (getproc me);;
      let f := nthZ 0 (ofile p) fd in
      (if negb (f =? 0) then
         op_fileclose f;;
         pr (modproc me (fun x => set_ofile (updZ (ofile x) fd 0) x))
       else ret tt);;
      close_files me l'
  end.

(** The rest of [exit], once the files are closed; it does not return. *)
Definition exit_tail (me status : Z) : M psys unit :=
  acquire wait_lock;;
  reparent me me;;
  p <- getproc me;;
  wakeup me (ch_proc (parent p));;
  acquire (proc_lock me);;
  modproc me (set_xstate status);;
  modproc me (set_state ZOMBIE);;
  release wait_lock;;
  sched me;;
  panic "zombie exit".

Definition exit (me status : Z) : M K unit :=
  init <- pr (gets initproc);;
  if me =? init then panic "init exiting"
  else
    close_files me (seqZ 0 NOFILE);;
    op_begin_op;;
    p <- pr (getproc me);;
    op_iput (pcwd p);;
    op_end_op;;
    pr (modproc me (set_pcwd 0));;
    pr (exit_tail me status).

End procfile.
