(* ===== verification/VmTable.v ===== *)
(** * Page tables as trees

    The invariant that makes the pages of a page table a three-level tree in
    memory, the architecture's address translation over it, and how the two
    kinds of entry writes of [vm.c] (a new table page, a leaf) change it. *)

From S2P Require Import Prelude KMonad Riscv Mem Printf Kalloc Vm.

(** Entry [i] of the table page [p]. *)
Definition pte_at (m : memory) (p i : Z) : Z := load64 m (entry p i).

Definition valid (v : Z) : bool := flag v PTE_V.
Definition leaf (v : Z) : bool := negb (PTE_LEAF v =? 0).

(** The indices that the walk of [va] uses, from the root down. *)
Definition path (va : Z) : list Z := [PX 2 va; PX 1 va; PX 0 va].

(** The leaf entry for [va], and its level: the walk of the architecture
    without permission checks. *)
Fixpoint pt_lookup (level : nat) (m : memory) (pt va : Z) : option (Z * nat) :=
  let v := pte_at m pt (PX (Z.of_nat level) va) in
  if negb (valid v) then None
  else if leaf v then Some (v, level)
  else match level with
       | O => None
       | S level' => pt_lookup level' m (PTE2PA v) va
       end.

(** ** Address translation of the RISC-V privileged architecture (Sv39)

    A page fault is [None].  An entry that is writable but not readable is
    reserved, a pointer entry at level 0 is a fault, and a leaf above level 0
    must be aligned to its size.  The result is the physical address with the
    flags of the leaf, which the access is checked against. *)
Definition sv39_translate (m : memory) (root va : Z) : option (Z * Z) :=
  match pt_lookup 2 m root va with
  | None => None
  | Some (v, level) =>
      let size := 2 ^ PXSHIFT (Z.of_nat level) in
      if flag v PTE_W && negb (flag v PTE_R) then None
      else if negb (PTE2PA v mod size =? 0) then None
      else Some (PTE2PA v + va mod size, PTE_FLAGS v)
  end.

(** ** The tree invariant

    [O] maps every table page to the path of indices that leads to it. *)

Abbreviation owner := (gmap Z (list Z)).

Record pt_wf `{Layout} (m : memory) (root : Z) (O : owner) : Prop := {
  pt_root : forall p, O !! p = Some [] <-> p = root;
  pt_page : forall p π, O !! p = Some π -> page_ok p;
  pt_depth : forall p π, O !! p = Some π -> (length π <= 2)%nat;
  (** pointer entries lead to the page of the longer path *)
  pt_child : forall p π i, O !! p = Some π -> 0 <= i < 512 ->
    valid (pte_at m p i) = true -> leaf (pte_at m p i) = false ->
    O !! PTE2PA (pte_at m p i) = Some (π ++ [i]);
  (** and every page is reached from its parent *)
  pt_parent : forall c π i, O !! c = Some (π ++ [i]) ->
    0 <= i < 512 /\
    exists p, O !! p = Some π /\ valid (pte_at m p i) = true /\
      leaf (pte_at m p i) = false /\ PTE2PA (pte_at m p i) = c;
  (** no gigabyte pages: the root has only pointers *)
  pt_nogiga : forall i, 0 <= i < 512 ->
    valid (pte_at m root i) = true -> leaf (pte_at m root i) = false
}.

(** ** Entries as cells *)

Lemma valid_0 : valid 0 = false.
Proof. reflexivity. Qed.

Section table.
Context `{LayoutOk}.

Lemma entry_disjoint p q i j :
  page_ok p -> page_ok q -> 0 <= i < 512 -> 0 <= j < 512 ->
  p <> q \/ i <> j -> entry p i + 8 <= entry q j \/ entry q j + 8 <= entry p i.
Proof.
  intros Hp Hq Hi Hj Hne. unfold entry.
  destruct (Z.eq_dec p q) as [-> | Hpq]; [lia |].
  destruct (page_ok_disjoint p q Hp Hq Hpq); unfold PGSIZE in *; lia.
Qed.

Lemma pte_at_store_eq m p i v : 0 <= v < 2 ^ 64 -> pte_at (store64 m (entry p i) v) p i = v.
Proof. apply load64_store64_eq. Qed.

Lemma pte_at_store_ne m p q i j v :
  page_ok p -> page_ok q -> 0 <= i < 512 -> 0 <= j < 512 -> p <> q \/ i <> j ->
  pte_at (store64 m (entry q j) v) p i = pte_at m p i.
Proof. intros. apply load64_store64_ne. now apply entry_disjoint. Qed.

Lemma pte_at_memset0 m p i : 0 <= i < 512 -> pte_at (memset m p 0 PGSIZE) p i = 0.
Proof. intros Hi. apply load64_memset0; unfold entry, PGSIZE; lia. Qed.

Lemma pte_at_memset_ne m p q c i :
  page_ok p -> page_ok q -> p <> q -> 0 <= i < 512 ->
  pte_at (memset m q c PGSIZE) p i = pte_at m p i.
Proof.
  intros Hp Hq Hne Hi. apply load64_ext. intros x Hx. apply memset_out.
  destruct (page_ok_disjoint p q Hp Hq Hne); unfold entry, PGSIZE in *; lia.
Qed.

(** Memory that differs outside the pages of a table does not change it. *)
Lemma pte_at_same_except m m' ps p i :
  same_except ps m m' -> page_ok p -> Forall page_ok ps -> p ∉ ps -> 0 <= i < 512 ->
  pte_at m' p i = pte_at m p i.
Proof.
  intros Hs Hp Hps Hn Hi. apply load64_ext. intros x Hx. apply Hs. intros q Hq.
  rewrite Forall_forall in Hps.
  assert (p <> q) by (intros ->; contradiction).
  destruct (page_ok_disjoint p q Hp (Hps q Hq)); auto; unfold entry, PGSIZE in *; lia.
Qed.

(** ** Paths *)

Lemma PX_level_range k va : 0 <= PX (Z.of_nat k) va < 512.
Proof. apply PX_range. lia. Qed.

Lemma path_take_S k va : (k < 3)%nat ->
  take (S k) (path va) = take k (path va) ++ [PX (2 - Z.of_nat k) va].
Proof. intros Hk. destruct k as [|[|[|k]]]; [reflexivity .. | lia]. Qed.

(** A page is determined by its path. *)
Lemma pt_path_inj m root O p q π :
  pt_wf m root O -> O !! p = Some π -> O !! q = Some π -> p = q.
Proof.
  intros Hwf. revert p q. induction π as [|i π IH] using rev_ind; intros p q Hp Hq.
  - apply (pt_root _ _ _ Hwf) in Hp, Hq. congruence.
  - destruct (pt_parent _ _ _ Hwf _ _ _ Hp) as (_ & p' & Hp' & _ & _ & <-).
    destruct (pt_parent _ _ _ Hwf _ _ _ Hq) as (_ & q' & Hq' & _ & _ & <-).
    now rewrite (IH p' q').
Qed.

(** ** Lookups only depend on the entries along the path *)

Lemma pt_lookup_frame_level m m' root O va level : forall pt,
  pt_wf m root O -> (level <= 2)%nat ->
  O !! pt = Some (take (2 - level) (path va)) ->
  (forall q k, (k <= 2)%nat -> O !! q = Some (take (2 - k) (path va)) ->
     pte_at m' q (PX (Z.of_nat k) va) = pte_at m q (PX (Z.of_nat k) va)) ->
  pt_lookup level m' pt va = pt_lookup level m pt va.
Proof.
  induction level as [|level IH]; intros pt Hwf Hl Hpt Hf; cbn [pt_lookup];
    rewrite (Hf pt _ Hl Hpt); [reflexivity |].
  destruct (valid _) eqn:Ev; cbn [negb]; [| reflexivity].
  destruct (leaf _) eqn:El; [reflexivity |].
  apply IH; auto; [lia |].
  rewrite (pt_child _ _ _ Hwf pt _ _ Hpt (PX_level_range _ _) Ev El).
  f_equal. replace (2 - level)%nat with (S (2 - S level)) by lia.
  rewrite path_take_S by lia. do 3 f_equal. lia.
Qed.

Lemma pt_lookup_frame m m' root O va :
  pt_wf m root O ->
  (forall q k, (k <= 2)%nat -> O !! q = Some (take (2 - k) (path va)) ->
     pte_at m' q (PX (Z.of_nat k) va) = pte_at m q (PX (Z.of_nat k) va)) ->
  pt_lookup 2 m' root va = pt_lookup 2 m root va.
Proof.
  intros Hwf. apply (pt_lookup_frame_level m m' root O); auto.
  now apply (pt_root _ _ _ Hwf).
Qed.

(** The walk of [va] passes through every page whose path is a prefix of its own. *)
Lemma pt_lookup_reach m root O p va k :
  pt_wf m root O -> (k <= 2)%nat -> O !! p = Some (take k (path va)) ->
  pt_lookup 2 m root va = pt_lookup (2 - k) m p va.
Proof.
  intros Hwf. revert p. induction k as [|k IH]; intros p Hk Hp.
  - apply (pt_root _ _ _ Hwf) in Hp. now subst p.
  - rewrite path_take_S in Hp by lia.
    destruct (pt_parent _ _ _ Hwf _ _ _ Hp) as (Hi & q & Hq & Hv & Hl & <-).
    rewrite (IH q ltac:(lia) Hq). replace (2 - k)%nat with (S (2 - S k)) by lia.
    cbn [pt_lookup]. replace (Z.of_nat (S (2 - S k))) with (2 - Z.of_nat k) by lia.
    now rewrite Hv, Hl.
Qed.

(** ** Writing a leaf, or clearing an entry *)

(** The entry [(p, i)] is rewritten to [v] and nothing else of the table changes. *)
Definition entry_updated (O : owner) (m m' : memory) (p i v : Z) : Prop :=
  pte_at m' p i = v /\ forall q j, is_Some (O !! q) -> 0 <= j < 512 -> q <> p \/ j <> i ->
    pte_at m' q j = pte_at m q j.

(** Neither a pointer before nor after. *)
Definition no_pointer (v : Z) : Prop := valid v = true -> leaf v = true.

Lemma pt_wf_update m m' root O p π i v :
  pt_wf m root O -> O !! p = Some π -> 0 <= i < 512 ->
  entry_updated O m m' p i v -> no_pointer (pte_at m p i) -> no_pointer v ->
  (π = [] -> valid v = false) ->
  pt_wf m' root O.
Proof.
  intros Hwf Hp Hi [Hv Hf] Hold Hnew Hg.
  assert (Hcase : forall q j, is_Some (O !! q) -> 0 <= j < 512 ->
            pte_at m' q j = pte_at m q j \/ (q = p /\ j = i)).
  { intros q j Hq Hj. destruct (decide (q = p)), (decide (j = i)); auto. }
  constructor; try apply Hwf.
  - intros q π' j Hq Hj Hval Hlf. destruct (Hcase q j (mk_is_Some _ _ Hq) Hj) as [E | [-> ->]].
    + rewrite E in *. now apply (pt_child _ _ _ Hwf).
    + rewrite Hv in *. rewrite (Hnew Hval) in Hlf. discriminate.
  - intros c π' j Hc. destruct (pt_parent _ _ _ Hwf _ _ _ Hc) as (Hj & q & Hq & Hval & Hlf & Hpa).
    split; auto. exists q. destruct (Hcase q j (mk_is_Some _ _ Hq) Hj) as [E | [-> ->]].
    + rewrite E. auto.
    + rewrite (Hold Hval) in Hlf. discriminate.
  - intros j Hj Hval. assert (Hr : O !! root = Some []) by now apply (pt_root _ _ _ Hwf).
    destruct (Hcase root j (mk_is_Some _ _ Hr) Hj) as [E | [-> ->]].
    + rewrite E in *. now apply (pt_nogiga _ _ _ Hwf).
    + rewrite Hv in *. rewrite Hg in Hval by congruence. discriminate.
Qed.

Lemma pt_lookup_update m m' root O p π i v va :
  pt_wf m root O -> O !! p = Some π -> 0 <= i < 512 ->
  entry_updated O m m' p i v -> no_pointer (pte_at m p i) -> no_pointer v ->
  (π = [] -> valid v = false) ->
  pt_lookup 2 m' root va =
  if decide (take (S (length π)) (path va) = π ++ [i])
  then (if valid v then Some (v, (2 - length π)%nat) else None)
  else pt_lookup 2 m root va.
Proof.
  intros Hwf Hp Hi Hu Hold Hnew Hg.
  pose proof (pt_wf_update _ _ _ _ _ _ _ _ Hwf Hp Hi Hu Hold Hnew Hg) as Hwf'.
  pose proof (pt_depth _ _ _ Hwf _ _ Hp) as Hd. destruct Hu as [Hv Hf].
  case_decide as Hpath.
  - rewrite path_take_S in Hpath by lia. apply app_inj_tail in Hpath as [Hpath Hpx].
    rewrite (pt_lookup_reach m' root O p va (length π)) by (auto; congruence).
    assert (E : pte_at m' p (PX (Z.of_nat (2 - length π)) va) = v).
    { replace (Z.of_nat (2 - length π)) with (2 - Z.of_nat (length π)) by lia. congruence. }
    destruct (2 - length π)%nat; cbn [pt_lookup]; rewrite E;
      (destruct (valid v) eqn:Ev; [cbn [negb]; now rewrite (Hnew Ev) | reflexivity]).
  - apply (pt_lookup_frame m m' root O); auto. intros q k Hk Hq.
    apply Hf; [eauto | apply PX_level_range |].
    destruct (decide (q = p)) as [-> |]; auto. right. intros <-. apply Hpath.
    assert (Eπ : π = take (2 - k) (path va)) by congruence.
    assert (El : length π = (2 - k)%nat) by (rewrite Eπ, length_take; cbn; lia).
    rewrite El, path_take_S by lia. rewrite <- Eπ. do 2 f_equal. f_equal. lia.
Qed.

(** ** Adding a table page *)

(** Page [c] was fresh, is now all zero, and entry [(p, i)] points to it. *)
Definition table_added (O : owner) (m m' : memory) (p i c : Z) : Prop :=
  entry_updated O m m' p i (mkpte c 0) /\ forall j, 0 <= j < 512 -> pte_at m' c j = 0.

Lemma mkpte_pointer c : page_ok c ->
  valid (mkpte c 0) = true /\ leaf (mkpte c 0) = false /\ PTE2PA (mkpte c 0) = c.
Proof.
  intros Hc. pose proof (page_ok_pos c Hc) as Hr. destruct Hc as [Ha _].
  unfold valid, leaf, flag, PTE_LEAF.
  rewrite !mkpte_land by (first [lia | vm_compute; split; [discriminate | reflexivity]]).
  split_and!; [reflexivity | reflexivity | apply PTE2PA_mkpte; auto; lia].
Qed.

Lemma pt_wf_add m m' root O p π i c :
  pt_wf m root O -> O !! p = Some π -> 0 <= i < 512 -> (length π < 2)%nat ->
  O !! c = None -> page_ok c -> valid (pte_at m p i) = false ->
  table_added O m m' p i c ->
  pt_wf m' root (<[c := π ++ [i]]> O).
Proof.
  intros Hwf Hp Hi Hd Hc Hok Hold [[Hv Hf] Hz].
  destruct (mkpte_pointer c Hok) as (Hmv & Hml & Hmp).
  assert (Hcp : c <> p) by congruence.
  assert (Hcase : forall q j, is_Some (O !! q) -> 0 <= j < 512 ->
            pte_at m' q j = pte_at m q j \/ (q = p /\ j = i)).
  { intros q j Hq Hj. destruct (decide (q = p)), (decide (j = i)); auto. }
  constructor.
  - intros q. destruct (decide (q = c)) as [-> | Hne].
    + rewrite lookup_insert_eq. split; [intros E; injection E; now destruct π |].
      intros ->. assert (O !! root = Some []) by now apply (pt_root _ _ _ Hwf). congruence.
    + rewrite lookup_insert_ne by auto. apply (pt_root _ _ _ Hwf).
  - intros q π'. rewrite lookup_insert. case_decide; [intros _; congruence |].
    apply (pt_page _ _ _ Hwf).
  - intros q π'. rewrite lookup_insert. case_decide.
    + intros E. injection E as <-. rewrite length_app. cbn. lia.
    + apply (pt_depth _ _ _ Hwf).
  - intros q π' j. rewrite (lookup_insert _ c q). case_decide as Hqc; intros Hq Hj Hval Hlf.
    + subst q. rewrite (Hz j Hj) in Hval. discriminate.
    + destruct (Hcase q j (mk_is_Some _ _ Hq) Hj) as [E | [-> ->]].
      * rewrite E in *. pose proof (pt_child _ _ _ Hwf _ _ _ Hq Hj Hval Hlf) as Hch.
        rewrite lookup_insert_ne; [auto | congruence].
      * rewrite Hv, Hmp. rewrite lookup_insert_eq. congruence.
  - intros c' π' j. rewrite (lookup_insert _ c c'). case_decide as Hcc; intros Hc'.
    + subst c'. injection Hc' as E. apply app_inj_tail in E as [<- <-]. split; auto.
      exists p. rewrite lookup_insert_ne, Hv by auto. auto.
    + destruct (pt_parent _ _ _ Hwf _ _ _ Hc') as (Hj & q & Hq & Hval & Hlf & Hpa).
      split; auto. exists q. rewrite lookup_insert_ne by congruence.
      destruct (Hcase q j (mk_is_Some _ _ Hq) Hj) as [E | [-> ->]];
        [rewrite E; auto | congruence].
  - intros j Hj. assert (Hr : O !! root = Some []) by now apply (pt_root _ _ _ Hwf).
    destruct (Hcase root j (mk_is_Some _ _ Hr) Hj) as [E | [-> ->]];
      [rewrite E; now apply (pt_nogiga _ _ _ Hwf) | rewrite Hv; auto].
Qed.

(** A fresh empty table page maps nothing new. *)
Lemma pt_lookup_add m m' root O p π i c va :
  pt_wf m root O -> O !! p = Some π -> 0 <= i < 512 -> (length π < 2)%nat ->
  O !! c = None -> page_ok c -> valid (pte_at m p i) = false ->
  table_added O m m' p i c ->
  pt_lookup 2 m' root va = pt_lookup 2 m root va.
Proof.
  intros Hwf Hp Hi Hd Hc Hok Hold Ha.
  pose proof (pt_wf_add _ _ _ _ _ _ _ _ Hwf Hp Hi Hd Hc Hok Hold Ha) as Hwf'.
  destruct Ha as [[Hv Hf] Hz].
  destruct (decide (take (S (length π)) (path va) = π ++ [i])) as [Hpath | Hpath].
  - rewrite (pt_lookup_reach m' root (<[c := π ++ [i]]> O) c va (S (length π)))
      by (auto; first [lia | rewrite lookup_insert_eq; congruence]).
    rewrite path_take_S in Hpath by lia. apply app_inj_tail in Hpath as [Hpath Hpx].
    rewrite (pt_lookup_reach m root O p va (length π)) by (auto; first [lia | congruence]).
    replace (2 - length π)%nat with (S (2 - S (length π))) by lia.
    set (k := (2 - S (length π))%nat). cbn [pt_lookup].
    replace (Z.of_nat (S k)) with (2 - Z.of_nat (length π)) by (unfold k; lia).
    rewrite Hpx, Hold. destruct k; cbn [pt_lookup]; now rewrite Hz by apply PX_level_range.
  - apply (pt_lookup_frame m m' root O); auto. intros q k Hk Hq.
    apply Hf; [eauto | apply PX_level_range |].
    destruct (decide (q = p)) as [-> |]; auto. right. intros <-. apply Hpath.
    assert (Eπ : π = take (2 - k) (path va)) by congruence.
    assert (El : length π = (2 - k)%nat) by (rewrite Eπ, length_take; cbn; lia).
    rewrite El, path_take_S by lia. rewrite <- Eπ. do 2 f_equal. f_equal. lia.
Qed.

End table.
