(* ===== verification/VmWalk.v ===== *)
(** * [walk] and [superwalk]

    Both find the entry for an address, adding table pages on the way when
    asked to.  Neither changes what is mapped. *)

From S2P Require Import Prelude KMonad Riscv Mem Printf Kalloc Vm VmTable.

(** A page table whose pages are owned, next to a free list. *)
Definition vm_inv `{Layout} (s : phys) (root : Z) (O : owner) (l : list Z) : Prop :=
  pt_wf (mem s) root O /\ kmem_inv s l /\ forall p, p ∈ l -> O !! p = None.

(** How growing a page table changes the machine: table pages are only added,
    they come off the free list, and memory outside the table and the free
    pages is untouched. *)
Record ext (s s' : phys) (O O' : owner) (l l' : list Z) : Prop := {
  ext_sub : forall p π, O !! p = Some π -> O' !! p = Some π;
  ext_pages : exists u, l = u ++ l' /\
    forall p, is_Some (O' !! p) <-> is_Some (O !! p) \/ p ∈ u;
  ext_mem : forall x,
    (forall p, is_Some (O !! p) \/ p ∈ l -> x < p \/ p + PGSIZE <= x) -> mem s' x = mem s x;
  ext_super : superpages s' = superpages s /\ nfree s' = nfree s
}.

Lemma ext_refl s O l : ext s s O O l l.
Proof.
  constructor; auto. exists []. split; [reflexivity |]. intros p.
  rewrite elem_of_nil. tauto.
Qed.

Lemma ext_trans s1 s2 s3 O1 O2 O3 l1 l2 l3 :
  ext s1 s2 O1 O2 l1 l2 -> ext s2 s3 O2 O3 l2 l3 -> ext s1 s3 O1 O3 l1 l3.
Proof.
  intros [Hs1 (u1 & -> & Hp1) Hm1 [Hn1 Hf1]] [Hs2 (u2 & -> & Hp2) Hm2 [Hn2 Hf2]].
  constructor.
  - auto.
  - exists (u1 ++ u2). rewrite app_assoc. split; [reflexivity |].
    intros p. rewrite Hp2, Hp1, elem_of_app. tauto.
  - intros x Hx. rewrite Hm2, Hm1; [reflexivity | auto |].
    intros p Hp. apply Hx. rewrite !elem_of_app. rewrite Hp1, elem_of_app in Hp. tauto.
  - split; congruence.
Qed.

(** A write to an entry of the table. *)
Lemma ext_write s O l p i v :
  is_Some (O !! p) -> 0 <= i < 512 ->
  ext s (set_mem (fun m => store64 m (entry p i) v) s) O O l l.
Proof.
  intros Hp Hi. constructor; auto.
  - exists []. split; [reflexivity |]. intros q. rewrite elem_of_nil. tauto.
  - intros x Hx. cbn. apply store64_out. specialize (Hx p (or_introl Hp)).
    unfold entry, PGSIZE in *. lia.
Qed.

(** The entry that links a table page has no permission bits. *)
Lemma mkpte_link pg : Z.lor (PA2PTE pg) PTE_V = mkpte pg 0.
Proof. unfold mkpte. now rewrite Z.lor_0_r. Qed.

(** New table pages are on the paths of addresses in [lo .. hi), at depth at
    most [d]. *)
Definition new_tables (O O' : owner) (d : nat) (lo hi : Z) : Prop :=
  forall p π, O' !! p = Some π ->
    O !! p = Some π \/ exists va k, lo <= va < hi /\ (k <= d)%nat /\ π = take k (path va).

Lemma new_tables_refl O d lo hi : new_tables O O d lo hi.
Proof. intros p π. auto. Qed.

Lemma new_tables_trans O1 O2 O3 d lo hi :
  new_tables O1 O2 d lo hi -> new_tables O2 O3 d lo hi -> new_tables O1 O3 d lo hi.
Proof. intros H1 H2 p π Hp. destruct (H2 p π Hp) as [Hp' | ?]; auto. Qed.

Lemma new_tables_mono O O' d d' lo hi lo' hi' :
  (d <= d')%nat -> lo' <= lo -> hi <= hi' -> new_tables O O' d lo hi -> new_tables O O' d' lo' hi'.
Proof.
  intros Hd Hlo Hhi H1 p π Hp. destruct (H1 p π Hp) as [| (va & k & Hva & Hk & ->)]; auto.
  right. exists va, k. split_and!; auto; lia.
Qed.

Section walk.
Context `{LayoutOk}.

Lemma vm_inv_fresh s root O p l : vm_inv s root O (p :: l) -> O !! p = None /\ page_ok p.
Proof.
  intros (_ & Hk & Hd). split; [apply Hd; left | now apply kmem_inv_head in Hk].
Qed.

(** [kalloc], [memset(.., 0, PGSIZE)] and linking the page in the invalid
    entry [(p, i)]: the table grows by one empty page. *)
Lemma alloc_table_spec {A} s h root O p π i c l (k : Z -> M phys A) (fail : M phys A) :
  vm_inv s root O (c :: l) -> kmem_lock ∉ h ->
  O !! p = Some π -> 0 <= i < 512 -> (length π < 2)%nat ->
  valid (pte_at (mem s) p i) = false ->
  exists s',
    (pg <- kalloc;;
     if pg =? 0 then fail
     else
       mset pg 0 PGSIZE;;
       write64 (entry p i) (Z.lor (PA2PTE pg) PTE_V);;
       k pg) h s = k c h s' /\
    vm_inv s' root (<[c := π ++ [i]]> O) l /\
    ext s s' O (<[c := π ++ [i]]> O) (c :: l) l /\
    (forall va, pt_lookup 2 (mem s') root va = pt_lookup 2 (mem s) root va).
Proof.
  intros Hi Hh Hp Hri Hlen Hinv. pose proof (vm_inv_fresh _ _ _ _ _ Hi) as [Hfresh Hc].
  destruct Hi as (Hwf & Hk & Hdisj).
  pose proof (page_ok_pos c Hc) as Hpos. pose proof (pt_page _ _ _ Hwf _ _ Hp) as Hpp.
  assert (Hcp : c <> p) by congruence.
  destruct (kalloc_spec c h s l Hk Hh) as (s1 & E1 & Hk1 & Hm1 & _ & Hsp1 & Hnf1).
  rewrite (bind_Ret _ _ _ _ _ _ _ E1). rewrite (proj2 (Z.eqb_neq c 0)) by lia.
  unfold mset, write64. krun.
  set (s2 := set_mem _ (set_mem _ s1)).
  assert (Em : forall q j, is_Some (O !! q) -> 0 <= j < 512 -> q <> p \/ j <> i ->
                 pte_at (mem s2) q j = pte_at (mem s) q j).
  { intros q j [πq Hq] Hj Hne. pose proof (pt_page _ _ _ Hwf _ _ Hq) as Hqp.
    assert (q <> c) by congruence. cbn.
    rewrite pte_at_store_ne, pte_at_memset_ne by auto.
    apply (pte_at_same_except _ _ [c]); auto.
    rewrite list_elem_of_singleton. auto. }
  assert (Ha : table_added O (mem s) (mem s2) p i c).
  { split; [split; [| exact Em] |].
    - cbn. rewrite mkpte_link. apply pte_at_store_eq, mkpte_range; lia.
    - intros j Hj. cbn. rewrite pte_at_store_ne by auto. now apply pte_at_memset0. }
  assert (Hkm : kmem_inv s2 l).
  { apply (kmem_inv_frame s1); auto. intros q x Hq Hx.
    assert (q <> c) by (destruct Hk as (_ & Hnd & _); apply NoDup_cons in Hnd as [? _]; congruence).
    assert (q <> p) by (intros ->; rewrite (Hdisj p) in Hp by (right; auto); discriminate).
    destruct Hk as (_ & _ & Hok). rewrite Forall_cons, Forall_forall in Hok.
    destruct (page_ok_disjoint q c), (page_ok_disjoint q p); try tauto; try (apply Hok; auto);
      cbn; unfold PGSIZE, entry in *; rewrite store64_out, memset_out; auto; lia. }
  exists s2. split_and!.
  - reflexivity.
  - split; [eapply pt_wf_add; eauto |]. split; [exact Hkm |].
    intros q Hq. rewrite lookup_insert_ne; [apply Hdisj; now right |].
    destruct Hk as (_ & Hnd & _). apply NoDup_cons in Hnd as [? _]. congruence.
  - constructor.
    + intros q πq Hq. rewrite lookup_insert_ne; [auto | congruence].
    + exists [c]. split; [reflexivity |]. intros q. rewrite list_elem_of_singleton.
      rewrite lookup_insert_is_Some'. split; intros [|]; auto.
    + intros x Hx. pose proof (Hx p (or_introl (mk_is_Some _ _ Hp))) as Hx1.
      pose proof (Hx c (or_intror (list_elem_of_here _ _))) as Hx2.
      cbn. rewrite store64_out by (unfold entry, PGSIZE in *; lia).
      rewrite memset_out by auto. apply Hm1. intros q Hq.
      apply list_elem_of_singleton in Hq as ->. auto.
    + cbn. auto.
  - intros va. eapply pt_lookup_add; eauto.
Qed.

(** Where [walk] stops: at an entry of a level-0 table, or at a leaf above it. *)
Inductive walk_result (m : memory) (O : owner) (va : Z) : Z -> Prop :=
| walk_slot p :
    O !! p = Some (take 2 (path va)) -> walk_result m O va (entry p (PX 0 va))
| walk_leaf p k :
    (k < 2)%nat -> O !! p = Some (take k (path va)) ->
    valid (pte_at m p (PX (2 - Z.of_nat k) va)) = true ->
    leaf (pte_at m p (PX (2 - Z.of_nat k) va)) = true ->
    walk_result m O va (entry p (PX (2 - Z.of_nat k) va)).

Lemma walk_loop_alloc level : forall s h root O l pt va,
  vm_inv s root O l -> kmem_lock ∉ h -> (level <= 2)%nat ->
  O !! pt = Some (take (2 - level) (path va)) ->
  exists r s' O' l',
    walk_loop level pt va true h s = Ret r h s' /\
    vm_inv s' root O' l' /\ ext s s' O O' l l' /\
    (forall va', pt_lookup 2 (mem s') root va' = pt_lookup 2 (mem s) root va') /\
    new_tables O O' 2 va (va + 1) /\
    ((r = 0 /\ l' = []) \/ walk_result (mem s') O' va r).
Proof.
  induction level as [|level IH]; intros s h root O l pt va Hi Hh Hl Hpt.
  - do 4 eexists. split; [reflexivity |]. split_and!; eauto using ext_refl, new_tables_refl.
    right. now constructor.
  - cbn [walk_loop]. unfold read64. krun.
    change (load64 (mem s) (entry pt (PX (Z.of_nat (S level)) va)))
      with (pte_at (mem s) pt (PX (Z.of_nat (S level)) va)).
    fold (valid (pte_at (mem s) pt (PX (Z.of_nat (S level)) va))).
    fold (leaf (pte_at (mem s) pt (PX (Z.of_nat (S level)) va))).
    assert (Elv : Z.of_nat (S level) = 2 - Z.of_nat (2 - S level)) by lia.
    assert (Epath : take (2 - S level) (path va) ++ [PX (Z.of_nat (S level)) va]
                    = take (2 - level) (path va)).
    { replace (2 - level)%nat with (S (2 - S level)) by lia.
      rewrite path_take_S by lia. now rewrite Elv. }
    destruct (valid _) eqn:Ev; [destruct (leaf _) eqn:El |].
    + do 4 eexists. split; [reflexivity |]. split_and!; eauto using ext_refl, new_tables_refl.
      right. rewrite Elv in *. apply (walk_leaf _ _ _ pt); auto. lia.
    + apply IH; auto; [lia |]. rewrite <- Epath.
      apply (pt_child _ _ _ (proj1 Hi)); auto. apply PX_level_range.
    + cbn [negb]. destruct l as [|c l].
      * destruct Hi as (Hwf & Hk & Hd).
        rewrite (bind_Ret _ _ _ _ _ _ _ (kalloc_empty h s Hk Hh)).
        do 4 eexists. split; [reflexivity |].
        split_and!; [split_and!; eauto | apply ext_refl | auto | apply new_tables_refl | auto].
      * destruct (alloc_table_spec s h root O pt _ (PX (Z.of_nat (S level)) va) c l
          (fun pg => walk_loop level pg va true) (ret 0) Hi Hh Hpt (PX_level_range _ _))
          as (s1 & -> & Hi1 & Hx1 & Hlk1); auto.
        { rewrite length_take. cbn. lia. }
        rewrite Epath in *.
        destruct (IH s1 h root _ l c va Hi1 Hh ltac:(lia)) as (r & s' & O' & l' & E & Hi' & Hx' & Hlk' & Hnt & Hr).
        { apply lookup_insert_eq. }
        exists r, s', O', l'. split_and!; eauto using ext_trans.
        -- intros va'. now rewrite Hlk', Hlk1.
        -- eapply new_tables_trans; [| exact Hnt]. intros q π Hq.
           apply lookup_insert_Some in Hq as [[_ <-] | [_ Hq]]; auto.
           right. exists va, (2 - level)%nat. split_and!; auto; lia.
Qed.

(** [walk(pagetable, va, 1)] returns an entry for [va] unless memory ran out;
    it adds table pages as needed and changes no mapping. *)
Lemma walk_alloc s h root O l va :
  vm_inv s root O l -> kmem_lock ∉ h -> va < MAXVA ->
  exists r s' O' l',
    walk root va true h s = Ret r h s' /\
    vm_inv s' root O' l' /\ ext s s' O O' l l' /\
    (forall va', pt_lookup 2 (mem s') root va' = pt_lookup 2 (mem s) root va') /\
    new_tables O O' 2 va (va + 1) /\
    ((r = 0 /\ l' = []) \/ walk_result (mem s') O' va r).
Proof.
  intros Hi Hh Hva. unfold walk. rewrite (proj2 (Z.leb_gt _ _)) by lia.
  apply walk_loop_alloc; auto. now apply (pt_root _ _ _ (proj1 Hi)).
Qed.

Lemma superwalk_alloc s h root O l va :
  vm_inv s root O l -> kmem_lock ∉ h -> va < MAXVA ->
  exists r s' O' l',
    superwalk root va true h s = Ret r h s' /\
    vm_inv s' root O' l' /\ ext s s' O O' l l' /\
    (forall va', pt_lookup 2 (mem s') root va' = pt_lookup 2 (mem s) root va') /\
    new_tables O O' 1 va (va + 1) /\
    ((r = 0 /\ l' = []) \/
     exists p, O' !! p = Some (take 1 (path va)) /\ r = entry p (PX 1 va)).
Proof.
  intros Hi Hh Hva. unfold superwalk, read64. rewrite (proj2 (Z.leb_gt _ _)) by lia. krun.
  assert (Hr : O !! root = Some []) by now apply (pt_root _ _ _ (proj1 Hi)).
  change (load64 (mem s) (entry root (PX 2 va))) with (pte_at (mem s) root (PX 2 va)).
  fold (valid (pte_at (mem s) root (PX 2 va))).
  destruct (valid _) eqn:Ev.
  - do 4 eexists. split; [reflexivity |]. split_and!; eauto using ext_refl, new_tables_refl.
    right. eexists. split; [| reflexivity].
    pose proof (pt_nogiga _ _ _ (proj1 Hi) (PX 2 va) (PX_range 2 va ltac:(lia)) Ev) as El.
    apply (pt_child _ _ _ (proj1 Hi) root [] (PX 2 va)); auto. apply PX_range. lia.
  - cbn [negb]. destruct l as [|c l].
    + destruct Hi as (Hwf & Hk & Hd).
      rewrite (bind_Ret _ _ _ _ _ _ _ (kalloc_empty h s Hk Hh)).
      do 4 eexists. split; [reflexivity |].
      split_and!; [split_and!; eauto | apply ext_refl | auto | apply new_tables_refl | auto].
    + destruct (alloc_table_spec s h root O root [] (PX 2 va) c l
        (fun pg => ret (entry pg (PX 1 va))) (ret 0) Hi Hh Hr (PX_range 2 va ltac:(lia)))
        as (s1 & -> & Hi1 & Hx1 & Hlk1); auto.
      do 4 eexists. split; [reflexivity |]. split_and!; eauto.
      * intros q π Hq. apply lookup_insert_Some in Hq as [[_ <-] | [_ Hq]]; auto.
        right. exists va, 1%nat. split_and!; auto; lia.
      * right. exists c. split; [apply lookup_insert_eq | reflexivity].
Qed.

(** ** Walking without allocating *)

(** What the kernel's walk returns for [va], in terms of what is mapped. *)
Definition walk_finds (m : memory) (O : owner) (root va r : Z) : Prop :=
  match pt_lookup 2 m root va with
  | Some (v, lv) =>
      (lv <= 2)%nat /\ valid v = true /\ leaf v = true /\
      exists p, O !! p = Some (take (2 - lv) (path va)) /\
        r = entry p (PX (Z.of_nat lv) va) /\ pte_at m p (PX (Z.of_nat lv) va) = v
  | None =>
      r = 0 \/
      exists p, O !! p = Some (take 2 (path va)) /\ r = entry p (PX 0 va) /\
        valid (pte_at m p (PX 0 va)) = false
  end.

(** Level-0 tables have no pointer entries. *)
Lemma pt_bottom m root O p π i :
  pt_wf m root O -> O !! p = Some π -> length π = 2%nat -> 0 <= i < 512 ->
  no_pointer (pte_at m p i).
Proof.
  intros Hwf Hp Hl Hi Hv. destruct (leaf _) eqn:El; [reflexivity |]. exfalso.
  pose proof (pt_depth _ _ _ Hwf _ _ (pt_child _ _ _ Hwf _ _ _ Hp Hi Hv El)) as Hd.
  rewrite length_app in Hd. cbn in Hd. lia.
Qed.

Lemma walk_loop_noalloc level : forall s h root O pt va,
  pt_wf (mem s) root O -> (level <= 2)%nat ->
  O !! pt = Some (take (2 - level) (path va)) ->
  exists r, walk_loop level pt va false h s = Ret r h s /\ walk_finds (mem s) O root va r.
Proof.
  induction level as [|level IH]; intros s h root O pt va Hwf Hl Hpt.
  - eexists. split; [reflexivity |]. unfold walk_finds.
    rewrite (pt_lookup_reach _ root O pt va 2 Hwf (le_n 2) Hpt). cbn [Nat.sub pt_lookup].
    destruct (valid _) eqn:Ev; cbn [negb]; [| eauto].
    rewrite (pt_bottom _ _ _ _ _ _ Hwf Hpt eq_refl (PX_level_range 0 va) Ev).
    split_and!; auto; [| eauto]. apply (pt_bottom _ _ _ _ _ _ Hwf Hpt eq_refl (PX_level_range 0 va) Ev).
  - cbn [walk_loop]. unfold read64. krun.
    change (load64 (mem s) (entry pt (PX (Z.of_nat (S level)) va)))
      with (pte_at (mem s) pt (PX (Z.of_nat (S level)) va)).
    set (v := pte_at (mem s) pt (PX (Z.of_nat (S level)) va)). fold (valid v). fold (leaf v).
    assert (Hreach : pt_lookup 2 (mem s) root va = pt_lookup (S level) (mem s) pt va).
    { rewrite (pt_lookup_reach _ root O pt va (2 - S level) Hwf ltac:(lia) Hpt). f_equal. lia. }
    destruct (valid v) eqn:Ev; [destruct (leaf v) eqn:El |].
    + eexists. split; [reflexivity |]. unfold walk_finds. rewrite Hreach. cbn [pt_lookup].
      fold v. rewrite Ev, El. cbn [negb]. split_and!; auto. eauto.
    + apply IH; auto; [lia |].
      pose proof (pt_child _ _ _ Hwf _ _ _ Hpt (PX_level_range _ _) Ev El) as Hc.
      fold v in Hc. rewrite Hc. f_equal.
      replace (2 - level)%nat with (S (2 - S level)) by lia. rewrite path_take_S by lia.
      do 3 f_equal. lia.
    + eexists. split; [reflexivity |]. unfold walk_finds. rewrite Hreach. cbn [pt_lookup].
      fold v. rewrite Ev. cbn [negb]. auto.
Qed.

Lemma walk_noalloc s h root O va :
  pt_wf (mem s) root O -> va < MAXVA ->
  exists r, walk root va false h s = Ret r h s /\ walk_finds (mem s) O root va r.
Proof.
  intros Hwf Hva. unfold walk. rewrite (proj2 (Z.leb_gt _ _)) by lia.
  apply walk_loop_noalloc; auto. now apply (pt_root _ _ _ Hwf).
Qed.

Lemma entry_nonzero p i : page_ok p -> 0 <= i -> entry p i <> 0.
Proof. intros Hp Hi. apply page_ok_pos in Hp. unfold entry. lia. Qed.

(** [walkaddr] returns the address in the leaf entry of a user mapping, 0
    otherwise. *)
Lemma walkaddr_run s h root O va :
  pt_wf (mem s) root O ->
  walkaddr root va h s =
  Ret (if MAXVA <=? va then 0
       else match pt_lookup 2 (mem s) root va with
            | Some (v, _) => if flag v PTE_U then PTE2PA v else 0
            | None => 0
            end) h s.
Proof.
  intros Hwf. unfold walkaddr. destruct (Z.leb_spec MAXVA va); [reflexivity |].
  destruct (walk_noalloc s h root O va Hwf ltac:(lia)) as (r & E & Hr).
  rewrite (bind_Ret _ _ _ _ _ _ _ E). unfold walk_finds in Hr.
  destruct (pt_lookup 2 (mem s) root va) as [[v lv] |].
  - destruct Hr as (Hlv & Hv & Hl & p & Hp & -> & Hpv).
    rewrite (proj2 (Z.eqb_neq _ _))
      by (apply entry_nonzero; [eapply pt_page; eauto | apply PX_level_range]).
    unfold read64. krun. fold (pte_at (mem s) p (PX (Z.of_nat lv) va)). rewrite Hpv.
    fold (valid v). rewrite Hv. cbn [negb]. now destruct (flag v PTE_U).
  - destruct Hr as [-> | (p & Hp & -> & Hv)]; [reflexivity |].
    rewrite (proj2 (Z.eqb_neq _ _))
      by (apply entry_nonzero; [eapply pt_page; eauto | apply (PX_level_range 0)]).
    unfold read64. krun. fold (pte_at (mem s) p (PX 0 va)).
    fold (valid (pte_at (mem s) p (PX 0 va))). now rewrite Hv.
Qed.

End walk.
