(* ===== verification/VmMap.v ===== *)
(** * [mappages], [supermappages] and [uvmunmap]

    What the mapping routines do to the translation of every address. *)

From S2P Require Import Prelude KMonad Riscv Mem Printf Kalloc KallocSafety Vm VmTable VmWalk.

(** Arithmetic on page addresses. *)
Ltac page_lia := unfold PGSIZE in *; Z.div_mod_to_equations; lia.

Ltac super_lia := change SUPERPGSIZE with 2097152 in *; page_lia.

(** ** Paths and pages *)

Lemma same_superpage va va' : va mod SUPERPGSIZE = 0 ->
  va' / 4096 / 512 = va / 4096 / 512 <-> va <= va' < va + SUPERPGSIZE.
Proof. intros Hal. split; super_lia. Qed.

Lemma PX0_eq va : PX 0 va = (va / 4096) mod 512.
Proof. now rewrite PX_eq by lia. Qed.

Lemma PX1_eq va : PX 1 va = (va / 4096 / 512) mod 512.
Proof. rewrite PX_eq by lia. now rewrite Z.div_div by lia. Qed.

Lemma PX2_eq va : PX 2 va = (va / 4096 / 512 / 512) mod 512.
Proof. rewrite PX_eq by lia. now rewrite !Z.div_div by lia. Qed.

Lemma path2_eq a b : 0 <= a < 2 ^ 39 -> 0 <= b < 2 ^ 39 ->
  take 2 (path a) = take 2 (path b) <-> a / 4096 / 512 = b / 4096 / 512.
Proof.
  intros Ha Hb. unfold path. cbn [take]. rewrite !PX2_eq, !PX1_eq. split.
  - intros E. injection E as E2 E1. Z.div_mod_to_equations. lia.
  - intros ->. reflexivity.
Qed.

Lemma path_eq a b : 0 <= a < 2 ^ 39 -> 0 <= b < 2 ^ 39 ->
  path a = path b <-> a / 4096 = b / 4096.
Proof.
  intros Ha Hb. split.
  - intros E. assert (E2 : take 2 (path a) = take 2 (path b)) by now rewrite E.
    apply path2_eq in E2; auto. unfold path in E. rewrite !PX0_eq in E.
    injection E as _ _ E0. Z.div_mod_to_equations. lia.
  - intros E. unfold path. now rewrite !PX2_eq, !PX1_eq, !PX0_eq, E.
Qed.

(** Bits that make an entry a leaf. *)
Definition leaf_perm (perm : Z) : Prop := 0 <= perm < 1024 /\ leaf perm = true.

Definition frame_ok (pa : Z) : Prop := 0 <= pa < 2 ^ 56 /\ pa mod PGSIZE = 0.

Lemma leaf_lor a b : leaf (Z.lor a b) = leaf a || leaf b.
Proof.
  unfold leaf, PTE_LEAF. rewrite <- !Z.land_lor_distr_r.
  set (k := Z.lor (Z.lor PTE_R PTE_W) PTE_X). rewrite (Z.land_lor_distr_l a b k).
  destruct (Z.eqb_spec (Z.land a k) 0) as [Ea | Ea], (Z.eqb_spec (Z.land b k) 0) as [Eb | Eb];
    destruct (Z.eqb_spec (Z.lor (Z.land a k) (Z.land b k)) 0) as [E | E]; cbn; auto;
    try (apply Z.lor_eq_0_iff in E; tauto); rewrite ?Ea, ?Eb in *; now cbn in E.
Qed.

Lemma mkpte_valid_leaf pa perm : frame_ok pa -> leaf_perm perm ->
  valid (mkpte pa perm) = true /\ leaf (mkpte pa perm) = true.
Proof.
  intros [Hpa _] [Hp Hl]. unfold valid, flag. rewrite mkpte_valid by auto.
  split; [reflexivity |]. unfold mkpte. now rewrite !leaf_lor, Hl, orb_true_r.
Qed.

Section map.
Context `{LayoutOk}.

(** Rewriting an entry that is no pointer, to a value that is none. *)
Lemma vm_write s root O l p π i v :
  vm_inv s root O l -> O !! p = Some π -> 0 <= i < 512 -> 0 <= v < 2 ^ 64 ->
  no_pointer (pte_at (mem s) p i) -> no_pointer v -> (π = [] -> valid v = false) ->
  let s' := set_mem (fun m => store64 m (entry p i) v) s in
  vm_inv s' root O l /\ ext s s' O O l l /\
  forall va, pt_lookup 2 (mem s') root va =
    if decide (take (S (length π)) (path va) = π ++ [i])
    then (if valid v then Some (v, (2 - length π)%nat) else None)
    else pt_lookup 2 (mem s) root va.
Proof.
  intros (Hwf & Hk & Hd) Hp Hi Hv Hold Hnew Hg s'.
  pose proof (pt_page _ _ _ Hwf _ _ Hp) as Hpp.
  assert (Hu : entry_updated O (mem s) (mem s') p i v).
  { split; [now apply pte_at_store_eq |]. intros q j [πq Hq] Hj Hne.
    apply pte_at_store_ne; auto.
    all: try (eapply pt_page; eauto). }
  split_and!.
  - split_and!; [eapply pt_wf_update; eauto | | auto].
    apply (kmem_inv_frame s); auto. intros q x Hq Hx. cbn. apply store64_out.
    assert (q <> p) by (intros ->; rewrite (Hd p Hq) in Hp; discriminate).
    destruct Hk as (_ & _ & Hok). rewrite Forall_forall in Hok.
    destruct (page_ok_disjoint q p); auto; unfold entry, PGSIZE in *; lia.
  - apply ext_write; eauto.
  - intros va. eapply pt_lookup_update; eauto.
Qed.

(** What a level-0 table says. *)
Lemma lookup_slot m root O p va :
  pt_wf m root O -> O !! p = Some (take 2 (path va)) ->
  pt_lookup 2 m root va =
  if valid (pte_at m p (PX 0 va)) then Some (pte_at m p (PX 0 va), 0%nat) else None.
Proof.
  intros Hwf Hp. rewrite (pt_lookup_reach _ _ _ _ _ 2 Hwf (le_n 2) Hp).
  cbn [Nat.sub pt_lookup]. change (Z.of_nat 0) with 0.
  destruct (valid _) eqn:Ev; cbn [negb]; [| reflexivity].
  pose proof (pt_bottom _ _ _ _ _ _ Hwf Hp eq_refl (PX_level_range 0 va)) as Hb.
  change (Z.of_nat 0) with 0 in Hb. now rewrite (Hb Ev).
Qed.

(** ** One round of [mappages] *)

(** Outcome of mapping the page of [va] when nothing is mapped there. *)
Lemma map_one {A} s h root O l va pa perm (k : M phys A) (fail : M phys A) :
  vm_inv s root O l -> kmem_lock ∉ h -> 0 <= va < MAXVA ->
  frame_ok pa -> leaf_perm perm -> pt_lookup 2 (mem s) root va = None ->
  let m := (pte <- walk root va true;;
            if pte =? 0 then fail
            else
              v <- read64 pte;;
              if flag v PTE_V then panic "mappages: remap"
              else write64 pte (mkpte pa perm);; k) in
  exists s' O' l',
    vm_inv s' root O' l' /\ ext s s' O O' l l' /\ new_tables O O' 2 va (va + 1) /\
    ((m h s = fail h s' /\ l' = [] /\
      forall va', pt_lookup 2 (mem s') root va' = pt_lookup 2 (mem s) root va') \/
     (m h s = k h s' /\
      forall va', 0 <= va' < 2 ^ 39 -> pt_lookup 2 (mem s') root va' =
        if va' / 4096 =? va / 4096 then Some (mkpte pa perm, 0%nat)
        else pt_lookup 2 (mem s) root va')).
Proof.
  intros Hi Hh Hva Hpa Hperm Hnone m. subst m.
  assert (MAXVA < 2 ^ 39) by (vm_compute; reflexivity).
  destruct (walk_alloc s h root O l va Hi Hh ltac:(lia))
    as (r & s1 & O1 & l1 & E & Hi1 & Hx1 & Hlk1 & Hnt1 & [[-> ->] | Hr]).
  { exists s1, O1, []. split_and!; auto. left.
    rewrite (bind_Ret _ _ _ _ _ _ _ E). auto. }
  pose proof (proj1 Hi1) as Hwf1.
  assert (Hnone1 : pt_lookup 2 (mem s1) root va = None) by now rewrite Hlk1.
  destruct Hr as [p Hp | p k' Hk' Hp Hv Hl].
  2: { exfalso. rewrite (pt_lookup_reach _ _ _ _ _ k' Hwf1 ltac:(lia) Hp) in Hnone1.
       destruct (2 - k')%nat eqn:Ek; cbn [pt_lookup] in Hnone1;
         replace (Z.of_nat _) with (2 - Z.of_nat k') in Hnone1 by lia;
         rewrite Hv, Hl in Hnone1; discriminate. }
  destruct (valid (pte_at (mem s1) p (PX 0 va))) eqn:Ev.
  { rewrite (lookup_slot _ _ _ _ _ Hwf1 Hp), Ev in Hnone1. discriminate. }
  destruct (mkpte_valid_leaf pa perm Hpa Hperm) as [Hmv Hml].
  destruct (vm_write s1 root O1 l1 p _ (PX 0 va) (mkpte pa perm) Hi1 Hp (PX_level_range 0 va))
    as (Hi2 & Hx2 & Hlk2).
  { apply mkpte_range; [apply Hpa | apply Hperm]. }
  { intros E0. congruence. }
  { now intros _. }
  { discriminate. }
  do 3 eexists. split; [exact Hi2 |]. split; [eapply ext_trans; eauto |].
  split; [exact Hnt1 |]. right. split.
  - rewrite (bind_Ret _ _ _ _ _ _ _ E).
    rewrite (proj2 (Z.eqb_neq _ _))
      by (apply entry_nonzero; [eapply pt_page; eauto | apply (PX_level_range 0)]).
    unfold read64, write64. krun. fold (pte_at (mem s1) p (PX 0 va)).
    fold (valid (pte_at (mem s1) p (PX 0 va))). rewrite Ev. krun. reflexivity.
  - intros va' Hva'. rewrite Hlk2, Hmv, Hlk1.
    change (take (S (length (take 2 (path va)))) (path va')) with (path va').
    change (take 2 (path va) ++ [PX 0 va]) with (path va).
    case_decide as Hd.
    + apply path_eq in Hd; try lia. rewrite (proj2 (Z.eqb_eq _ _)) by auto. reflexivity.
    + rewrite path_eq in Hd by lia. now rewrite (proj2 (Z.eqb_neq _ _)) by auto.
Qed.

(** An entry that is there is found whether or not the walk may allocate. *)
Lemma walk_loop_alloc_irrel level : forall h s pt va r,
  walk_loop level pt va false h s = Ret r h s -> r <> 0 ->
  walk_loop level pt va true h s = Ret r h s.
Proof.
  induction level as [|level IH]; intros h s pt va r; cbn [walk_loop]; [auto |].
  unfold read64. krun. destruct (flag _ PTE_V).
  - destruct (negb _); auto.
  - intros E Hr. cbn in E. unfold ret in E. congruence.
Qed.

(** Mapping over a page that is mapped. *)
Lemma map_remap {A} s h root O va pa perm (k : M phys A) (fail : M phys A) :
  pt_wf (mem s) root O -> va < MAXVA -> pt_lookup 2 (mem s) root va <> None ->
  (pte <- walk root va true;;
   if pte =? 0 then fail
   else
     v <- read64 pte;;
     if flag v PTE_V then panic "mappages: remap"
     else write64 pte (mkpte pa perm);; k) h s = Panic "mappages: remap".
Proof.
  intros Hwf Hva Hm. destruct (walk_noalloc s h root O va Hwf Hva) as (r & E & Hr).
  unfold walk_finds in Hr. destruct (pt_lookup 2 (mem s) root va) as [[v lv] |]; [| congruence].
  destruct Hr as (Hlv & Hv & Hl & p & Hp & -> & Hpv).
  assert (Hne : entry p (PX (Z.of_nat lv) va) <> 0)
    by (apply entry_nonzero; [eapply pt_page; eauto | apply PX_level_range]).
  assert (E' : walk root va true h s = Ret (entry p (PX (Z.of_nat lv) va)) h s).
  { unfold walk in *. destruct (MAXVA <=? va); [discriminate |]. now apply walk_loop_alloc_irrel. }
  rewrite (bind_Ret _ _ _ _ _ _ _ E'), (proj2 (Z.eqb_neq _ _)) by auto.
  unfold read64. krun. fold (pte_at (mem s) p (PX (Z.of_nat lv) va)). rewrite Hpv.
  fold (valid v). now rewrite Hv.
Qed.

(** What the table says after [n] pages from [va] are mapped to the pages
    from [pa]. *)
Definition mapped (m m' : memory) (root va n pa perm : Z) : Prop :=
  forall va', 0 <= va' < 2 ^ 39 ->
    pt_lookup 2 m' root va' =
    if (va <=? va') && (va' <? va + n * PGSIZE)
    then Some (mkpte (pa + (PGROUNDDOWN va' - va)) perm, 0%nat)
    else pt_lookup 2 m root va'.

(** The three ways [mappages] ends: every page mapped; out of memory, with
    some of them mapped; or a page in the range was mapped already. *)
Inductive mappages_outcome (h : locks) (s : phys) (root : Z) (O : owner) (l : list Z)
  (va n pa perm : Z) : outcome phys Z -> Prop :=
| mappages_done s' O' l' :
    vm_inv s' root O' l' -> ext s s' O O' l l' ->
    (forall va', va <= va' < va + n * PGSIZE -> pt_lookup 2 (mem s) root va' = None) ->
    mapped (mem s) (mem s') root va n pa perm ->
    new_tables O O' 2 va (va + n * PGSIZE) ->
    mappages_outcome h s root O l va n pa perm (Ret 0 h s')
| mappages_nomem s' O' j :
    vm_inv s' root O' [] -> ext s s' O O' l [] -> 0 <= j < n ->
    (forall va', va <= va' < va + j * PGSIZE -> pt_lookup 2 (mem s) root va' = None) ->
    mapped (mem s) (mem s') root va j pa perm ->
    new_tables O O' 2 va (va + n * PGSIZE) ->
    mappages_outcome h s root O l va n pa perm (Ret (-1) h s')
| mappages_remap va' :
    va <= va' < va + n * PGSIZE -> pt_lookup 2 (mem s) root va' <> None ->
    mappages_outcome h s root O l va n pa perm (Panic "mappages: remap").

(** All addresses of a page have the same entry. *)
Lemma lookup_page m va va' :
  va / 4096 = va' / 4096 -> forall lv pt, pt_lookup lv m pt va = pt_lookup lv m pt va'.
Proof.
  intros E.
  assert (Hpx : forall k : nat, PX (Z.of_nat k) va = PX (Z.of_nat k) va').
  { intros k. rewrite !PX_eq by lia. unfold PXSHIFT, PGSHIFT. rewrite Z.pow_add_r by lia.
    rewrite <- !Z.div_div by lia. change (2 ^ 12) with 4096. now rewrite E. }
  induction lv as [|lv IH]; intros pt; cbn [pt_lookup]; rewrite Hpx; repeat case_match; auto.
Qed.

Lemma mapped_0 m m' root va pa perm :
  (forall va', pt_lookup 2 m' root va' = pt_lookup 2 m root va') ->
  mapped m m' root va 0 pa perm.
Proof. intros E va' Hva'. rewrite E. bool_cases; try reflexivity. unfold PGSIZE in *. lia. Qed.

Lemma mapped_1 m m' root va pa perm : va mod PGSIZE = 0 ->
  (forall va', 0 <= va' < 2 ^ 39 -> pt_lookup 2 m' root va' =
     if va' / 4096 =? va / 4096 then Some (mkpte pa perm, 0%nat) else pt_lookup 2 m root va') ->
  mapped m m' root va 1 pa perm.
Proof.
  intros Hal E va' Hva'. rewrite E by auto. rewrite PGROUNDDOWN_eq. clear E.
  destruct (Z.eqb_spec (va' / 4096) (va / 4096)) as [Ed | Ed].
  - rewrite (proj2 (Z.leb_le _ _)), (proj2 (Z.ltb_lt _ _)) by page_lia. cbn [andb].
    do 3 f_equal. page_lia.
  - bool_cases; try reflexivity. exfalso. page_lia.
Qed.

Lemma mapped_app m1 m2 m3 root va n k pa perm : 0 <= n -> 0 <= k ->
  mapped m1 m2 root va n pa perm ->
  mapped m2 m3 root (va + n * PGSIZE) k (pa + n * PGSIZE) perm ->
  mapped m1 m3 root va (n + k) pa perm.
Proof.
  intros Hn Hk H1 H2 va' Hva'. rewrite H2, H1 by auto. unfold PGSIZE in *.
  bool_cases; cbn [andb]; try reflexivity; try lia. do 3 f_equal. lia.
Qed.

(** Mapping [n] pages after the first one. *)
Lemma mappages_outcome_step h s s1 root O O1 l l1 va n pa perm r :
  0 <= n -> 0 <= va -> va + PGSIZE <= MAXVA -> va mod PGSIZE = 0 ->
  ext s s1 O O1 l l1 -> new_tables O O1 2 va (va + 1) -> pt_lookup 2 (mem s) root va = None ->
  mapped (mem s) (mem s1) root va 1 pa perm ->
  va + (1 + n) * PGSIZE <= MAXVA ->
  mappages_outcome h s1 root O1 l1 (va + PGSIZE) n (pa + PGSIZE) perm r ->
  mappages_outcome h s root O l va (1 + n) pa perm r.
Proof.
  intros Hn Hva Hmax Hal Hx Hnt1 Hnone H1 Hmaxn Hr.
  assert (HM : MAXVA < 2 ^ 39) by (vm_compute; reflexivity).
  assert (Hfirst : forall va', va <= va' < va + PGSIZE -> pt_lookup 2 (mem s) root va' = None).
  { intros va' Hva'. rewrite <- Hnone. apply lookup_page. page_lia. }
  assert (Hold : forall va', va + PGSIZE <= va' < va + (1 + n) * PGSIZE ->
            pt_lookup 2 (mem s1) root va' = pt_lookup 2 (mem s) root va').
  { intros va' Hva'. rewrite H1 by (page_lia).
    bool_cases; try reflexivity. page_lia. }
  assert (Hfree : forall j va', j <= n ->
            (forall va', va + PGSIZE <= va' < va + PGSIZE + j * PGSIZE ->
               pt_lookup 2 (mem s1) root va' = None) ->
            va <= va' < va + (1 + j) * PGSIZE -> pt_lookup 2 (mem s) root va' = None).
  { intros j va' Hj Hf Hva'. destruct (Z.lt_ge_cases va' (va + PGSIZE)); [apply Hfirst; lia |].
    unfold PGSIZE in *. rewrite <- Hold by lia. apply Hf. lia. }
  replace (va + PGSIZE) with (va + 1 * PGSIZE) in Hr by lia.
  replace (pa + PGSIZE) with (pa + 1 * PGSIZE) in Hr by lia.
  assert (Hnt : forall O', new_tables O1 O' 2 (va + 1 * PGSIZE) (va + 1 * PGSIZE + n * PGSIZE) ->
            new_tables O O' 2 va (va + (1 + n) * PGSIZE)).
  { intros O' Hnt'. eapply new_tables_trans; eapply new_tables_mono; eauto; page_lia. }
  destruct Hr as [s' O' l' Hi Hx' Hf Hm Hnt' | s' O' j Hi Hx' Hj Hf Hm Hnt' | va' Hva' Hf].
  - apply (mappages_done _ _ _ _ _ _ _ _ _ s' O' l'); eauto using ext_trans.
    + intros va'. apply Hfree; [lia |]. intros ? ?. apply Hf. lia.
    + apply (mapped_app _ (mem s1)); auto; lia.
  - apply (mappages_nomem _ _ _ _ _ _ _ _ _ s' O' (1 + j)); eauto using ext_trans; [lia | |].
    + intros va'. apply Hfree; [lia |]. intros ? ?. apply Hf. lia.
    + apply (mapped_app _ (mem s1)); auto; lia.
  - apply (mappages_remap _ _ _ _ _ _ _ _ _ va'); [page_lia |].
    rewrite <- Hold by (page_lia). auto.
Qed.

Lemma mappages_loop_eq n root a last pa perm :
  mappages_loop (S n) root a last pa perm =
  (pte <- walk root a true;;
   if pte =? 0 then ret (-1)
   else
     v <- read64 pte;;
     if flag v PTE_V then panic "mappages: remap"
     else
       write64 pte (mkpte pa perm);;
       if a =? last then ret 0
       else mappages_loop n root (u64 (a + PGSIZE)) last (u64 (pa + PGSIZE)) perm).
Proof. reflexivity. Qed.

Lemma mappages_loop_spec n : forall s h root O l a pa perm,
  vm_inv s root O l -> kmem_lock ∉ h -> leaf_perm perm ->
  0 <= a -> a mod PGSIZE = 0 -> a + (1 + Z.of_nat n) * PGSIZE <= MAXVA ->
  0 <= pa -> pa mod PGSIZE = 0 -> pa + (1 + Z.of_nat n) * PGSIZE <= 2 ^ 56 ->
  mappages_outcome h s root O l a (1 + Z.of_nat n) pa perm
    (mappages_loop (S n) root a (a + Z.of_nat n * PGSIZE) pa perm h s).
Proof.
  assert (HM : MAXVA < 2 ^ 39) by (vm_compute; reflexivity).
  induction n as [|n IH]; intros s h root O l a pa perm Hi Hh Hperm Ha Hal Hmax Hpa Hpal Hpmax;
    rewrite mappages_loop_eq;
    (destruct (pt_lookup 2 (mem s) root a) as [v |] eqn:Elk;
     [ rewrite (map_remap s h root O) by (try apply Hi; unfold PGSIZE in *; try congruence; lia);
       apply (mappages_remap _ _ _ _ _ _ _ _ _ a); [page_lia | congruence] |]);
    match goal with
    | |- context [write64 _ _ ;; ?k] =>
        destruct (map_one s h root O l a pa perm k (ret (-1)))
          as (s1 & O1 & l1 & Hi1 & Hx1 & Hnt1 & [(E & -> & Hlk) | (E & Hlk)]);
        auto; [page_lia | split; page_lia | |]; rewrite E
    end;
    try (apply (mappages_nomem _ _ _ _ _ _ _ _ _ s1 O1 0); auto using mapped_0;
         try (eapply new_tables_mono; [| | | exact Hnt1]); page_lia).
  - rewrite (proj2 (Z.eqb_eq _ _)) by lia.
    apply (mappages_done _ _ _ _ _ _ _ _ _ s1 O1 l1); auto using mapped_1.
    + intros va' Hva'. rewrite <- Elk. apply lookup_page. page_lia.
    + eapply new_tables_mono; [| | | exact Hnt1]; page_lia.
  - rewrite (proj2 (Z.eqb_neq _ _)) by (page_lia).
    rewrite !u64_small by (page_lia).
    apply (mappages_outcome_step _ _ s1 _ _ O1 _ l1); auto using mapped_1; try page_lia.
    replace (a + Z.of_nat (S n) * PGSIZE) with (a + PGSIZE + Z.of_nat n * PGSIZE) by (page_lia).
    replace (Z.of_nat (S n)) with (1 + Z.of_nat n) by lia.
    apply IH; auto; page_lia.
Qed.

Lemma mappages_run s h root O l va n pa perm :
  vm_inv s root O l -> kmem_lock ∉ h -> leaf_perm perm ->
  0 < n -> 0 <= va -> va mod PGSIZE = 0 -> va + n * PGSIZE <= MAXVA ->
  0 <= pa -> pa mod PGSIZE = 0 -> pa + n * PGSIZE <= 2 ^ 56 ->
  mappages_outcome h s root O l va n pa perm (mappages root va (n * PGSIZE) pa perm h s).
Proof.
  intros Hi Hh Hperm Hn Hva Hal Hmax Hpa Hpal Hpmax.
  assert (HM : MAXVA < 2 ^ 39) by (vm_compute; reflexivity).
  unfold mappages. rewrite Hal, Z_mod_mult. change (negb (0 =? 0)) with false. cbv iota.
  rewrite (proj2 (Z.eqb_neq _ _)) by page_lia.
  rewrite Z_div_mult by (vm_compute; reflexivity).
  rewrite u64_small by page_lia.
  replace (va + n * PGSIZE - PGSIZE) with (va + Z.of_nat (Z.to_nat (n - 1)) * PGSIZE) by page_lia.
  replace (Z.to_nat n) with (S (Z.to_nat (n - 1))) by lia.
  replace n with (1 + Z.of_nat (Z.to_nat (n - 1))) at 1 by lia.
  apply mappages_loop_spec; auto; page_lia.
Qed.

(** ** Superpages *)

(** What a level-1 table says when its entry is no pointer. *)
Lemma lookup_super m root O p va :
  pt_wf m root O -> O !! p = Some (take 1 (path va)) ->
  no_pointer (pte_at m p (PX 1 va)) ->
  pt_lookup 2 m root va =
  if valid (pte_at m p (PX 1 va)) then Some (pte_at m p (PX 1 va), 1%nat) else None.
Proof.
  intros Hwf Hp Hn. rewrite (pt_lookup_reach _ _ _ _ _ 1 Hwf ltac:(lia) Hp).
  cbn [Nat.sub pt_lookup]. change (Z.of_nat 1) with 1.
  destruct (valid _) eqn:Ev; cbn [negb]; [| reflexivity]. now rewrite (Hn Ev).
Qed.

(** What the table says after the superpage of [va] is mapped to [pa]. *)
Definition supermapped (m m' : memory) (root va pa perm : Z) : Prop :=
  forall va', 0 <= va' < 2 ^ 39 ->
    pt_lookup 2 m' root va' =
    if (va <=? va') && (va' <? va + SUPERPGSIZE)
    then Some (mkpte pa perm, 1%nat)
    else pt_lookup 2 m root va'.

(** [supermappages] maps the superpage, fails for lack of memory, or panics
    because the level-1 entry is in use: by a superpage, or by a table of
    4 KiB pages, even one that maps nothing. *)
Inductive supermappages_outcome (h : locks) (s : phys) (root : Z) (O : owner) (l : list Z)
  (va pa perm : Z) : outcome phys Z -> Prop :=
| supermappages_done s' O' l' :
    vm_inv s' root O' l' -> ext s s' O O' l l' ->
    (forall va', va <= va' < va + SUPERPGSIZE -> pt_lookup 2 (mem s) root va' = None) ->
    supermapped (mem s) (mem s') root va pa perm ->
    new_tables O O' 1 va (va + 1) ->
    supermappages_outcome h s root O l va pa perm (Ret 0 h s')
| supermappages_nomem s' O' :
    vm_inv s' root O' [] -> ext s s' O O' l [] ->
    (forall va', pt_lookup 2 (mem s') root va' = pt_lookup 2 (mem s) root va') ->
    new_tables O O' 1 va (va + 1) ->
    supermappages_outcome h s root O l va pa perm (Ret (-1) h s')
| supermappages_remap s' O' l' p :
    vm_inv s' root O' l' -> ext s s' O O' l l' ->
    (forall va', pt_lookup 2 (mem s') root va' = pt_lookup 2 (mem s) root va') ->
    new_tables O O' 1 va (va + 1) ->
    O' !! p = Some (take 1 (path va)) -> valid (pte_at (mem s') p (PX 1 va)) = true ->
    supermappages_outcome h s root O l va pa perm (Panic "supermappages: remap").

Lemma supermappages_run s h root O l va pa perm :
  vm_inv s root O l -> kmem_lock ∉ h -> leaf_perm perm ->
  0 <= va -> va mod SUPERPGSIZE = 0 -> va < MAXVA -> frame_ok pa ->
  supermappages_outcome h s root O l va pa perm (supermappages root va pa perm h s).
Proof.
  intros Hi Hh Hperm Hva Hal Hmax Hpa.
  assert (HM : MAXVA < 2 ^ 39) by (vm_compute; reflexivity).
  assert (HM' : MAXVA mod SUPERPGSIZE = 0) by (vm_compute; reflexivity).
  unfold supermappages. rewrite Hal. change (negb (0 =? 0)) with false. cbv iota.
  destruct (superwalk_alloc s h root O l va Hi Hh Hmax)
    as (r & s1 & O1 & l1 & E & Hi1 & Hx1 & Hlk1 & Hnt1 & [[-> ->] | (p & Hp & ->)]);
    rewrite (bind_Ret _ _ _ _ _ _ _ E).
  { now apply (supermappages_nomem _ _ _ _ _ _ _ _ s1 O1). }
  pose proof (proj1 Hi1) as Hwf1.
  rewrite (proj2 (Z.eqb_neq _ _))
    by (apply entry_nonzero; [eapply pt_page; eauto | apply (PX_level_range 1)]).
  unfold read64, write64. krun. fold (pte_at (mem s1) p (PX 1 va)).
  fold (valid (pte_at (mem s1) p (PX 1 va))). destruct (valid _) eqn:Ev.
  { now apply (supermappages_remap _ _ _ _ _ _ _ _ s1 O1 l1 p). }
  krun. destruct (mkpte_valid_leaf pa perm Hpa Hperm) as [Hmv Hml].
  destruct (vm_write s1 root O1 l1 p _ (PX 1 va) (mkpte pa perm) Hi1 Hp (PX_level_range 1 va))
    as (Hi2 & Hx2 & Hlk2).
  { apply mkpte_range; [apply Hpa | apply Hperm]. }
  { intros E0. congruence. }
  { now intros _. }
  { discriminate. }
  pose proof (fun va' => same_superpage va va' Hal) as Hsame.
  eapply supermappages_done; [exact Hi2 | eapply ext_trans; eauto | | | exact Hnt1].
  - intros va' Hva'. assert (va' < MAXVA) by (clear - Hva' Hal HM' Hmax; super_lia).
    pose proof (proj2 (Hsame va') Hva') as Hq. apply path2_eq in Hq; try lia.
    rewrite <- Hlk1. assert (Hpx : PX 1 va' = PX 1 va) by (unfold path in Hq; cbn in Hq; congruence).
    rewrite (lookup_super _ _ O1 p va' Hwf1); rewrite ?Hpx, ?Ev; auto.
    + rewrite Hp. f_equal. unfold path in *. cbn in *. congruence.
    + intros E0. congruence.
  - intros va' Hva'. rewrite Hlk2, Hmv, Hlk1.
    change (take (S (length (take 1 (path va)))) (path va')) with (take 2 (path va')).
    change (take 1 (path va) ++ [PX 1 va]) with (take 2 (path va)).
    case_decide as Hd; rewrite path2_eq, Hsame in Hd by lia; bool_cases; try reflexivity; lia.
Qed.

End map.

(** ** Page tables and the address translation of the hardware

    What a program sees: the physical address the Sv39 walk gives for every
    virtual address after [uvmcreate], [mappages] and [supermappages], and how
    the kernel's own [walkaddr] compares with it. *)

(** Leaf permissions that the architecture does not reserve. *)
Definition perm_ok (perm : Z) : Prop :=
  leaf_perm perm /\ (flag perm PTE_W = true -> flag perm PTE_R = true).

Lemma flag_lor a b f : flag (Z.lor a b) f = flag a f || flag b f.
Proof.
  unfold flag. rewrite Z.land_lor_distr_l.
  destruct (Z.eqb_spec (Z.land a f) 0) as [Ea | Ea], (Z.eqb_spec (Z.land b f) 0) as [Eb | Eb];
    destruct (Z.eqb_spec (Z.lor (Z.land a f) (Z.land b f)) 0) as [E | E]; cbn; auto;
    try (apply Z.lor_eq_0_iff in E; tauto); rewrite ?Ea, ?Eb in *; now cbn in E.
Qed.

(** Flags of an entry that [mappages] writes. *)
Lemma flag_mkpte pa perm f : 0 <= pa < 2 ^ 56 -> 0 <= perm < 1024 -> 0 <= f < 1024 ->
  flag (mkpte pa perm) f = flag perm f || flag PTE_V f.
Proof. intros. rewrite <- flag_lor. unfold flag. now rewrite mkpte_land. Qed.

(** Translation through a leaf that the kernel wrote. *)
Lemma translate_mkpte m root va pa perm lv :
  frame_ok pa -> perm_ok perm -> pa mod 2 ^ PXSHIFT (Z.of_nat lv) = 0 ->
  pt_lookup 2 m root va = Some (mkpte pa perm, lv) ->
  sv39_translate m root va = Some (pa + va mod 2 ^ PXSHIFT (Z.of_nat lv), Z.lor perm PTE_V).
Proof.
  intros [Hpa Hal] [[Hp Hl] Hrw] Hsz E. unfold sv39_translate. rewrite E.
  rewrite PTE2PA_mkpte, mkpte_flags, Hsz by auto. cbn [Z.eqb negb].
  rewrite !flag_mkpte by first [assumption | split; vm_compute; congruence].
  change (flag PTE_V PTE_W) with false. change (flag PTE_V PTE_R) with false.
  rewrite !orb_false_r. destruct (flag perm PTE_W); [now rewrite Hrw | reflexivity].
Qed.

Lemma mapped_translate m m' root va n pa perm va' :
  mapped m m' root va n pa perm -> perm_ok perm ->
  va mod PGSIZE = 0 -> 0 <= pa -> pa mod PGSIZE = 0 -> pa + n * PGSIZE <= 2 ^ 56 ->
  0 <= va' < 2 ^ 39 ->
  sv39_translate m' root va' =
  if (va <=? va') && (va' <? va + n * PGSIZE)
  then Some (pa + (va' - va), Z.lor perm PTE_V)
  else sv39_translate m root va'.
Proof.
  intros Hm Hp Hal Hpa Hpal Hmax Hva'. specialize (Hm va' Hva').
  destruct ((va <=? va') && (va' <? va + n * PGSIZE)) eqn:Er.
  2: { unfold sv39_translate. now rewrite Hm. }
  apply andb_prop in Er as [Er1 Er2]. apply Z.leb_le in Er1. apply Z.ltb_lt in Er2.
  rewrite PGROUNDDOWN_eq in Hm.
  assert (Hf : frame_ok (pa + (va' - va' mod PGSIZE - va))) by (clear Hm; split; page_lia).
  rewrite (translate_mkpte _ _ _ _ _ 0 Hf Hp (proj2 Hf) Hm).
  change (2 ^ PXSHIFT (Z.of_nat 0)) with 4096. do 2 f_equal. clear Hf Hm. page_lia.
Qed.

Lemma supermapped_translate m m' root va pa perm va' :
  supermapped m m' root va pa perm -> perm_ok perm ->
  va mod SUPERPGSIZE = 0 -> frame_ok pa -> pa mod SUPERPGSIZE = 0 ->
  0 <= va' < 2 ^ 39 ->
  sv39_translate m' root va' =
  if (va <=? va') && (va' <? va + SUPERPGSIZE)
  then Some (pa + (va' - va), Z.lor perm PTE_V)
  else sv39_translate m root va'.
Proof.
  intros Hm Hp Hal Hpa Hpal Hva'. specialize (Hm va' Hva').
  destruct ((va <=? va') && (va' <? va + SUPERPGSIZE)) eqn:Er.
  2: { unfold sv39_translate. now rewrite Hm. }
  apply andb_prop in Er as [Er1 Er2]. apply Z.leb_le in Er1. apply Z.ltb_lt in Er2.
  rewrite (translate_mkpte _ _ _ _ _ 1 Hpa Hp Hpal Hm).
  change (2 ^ PXSHIFT (Z.of_nat 1)) with 2097152. do 2 f_equal. clear Hpa Hm. super_lia.
Qed.

Section translate.
Context `{LayoutOk}.

(** ** [uvmcreate] *)

Lemma uvmcreate_run s h p l :
  kmem_inv s (p :: l) -> kmem_lock ∉ h ->
  exists s', uvmcreate h s = Ret p h s' /\ vm_inv s' p {[p := []]} l /\
    (forall va, pt_lookup 2 (mem s') p va = None) /\
    same_except [p] (mem s) (mem s') /\
    superpages s' = superpages s /\ nfree s' = nfree s.
Proof.
  intros Hk Hh. destruct (kalloc_spec p h s l Hk Hh) as (s1 & E1 & Hk1 & Hm1 & _ & Hsp1 & Hnf1).
  destruct (kmem_inv_head _ _ _ Hk) as (_ & Hp & Hnp & Hokl). pose proof (page_ok_pos p Hp) as Hpos.
  unfold uvmcreate. rewrite (bind_Ret _ _ _ _ _ _ _ E1).
  rewrite (proj2 (Z.eqb_neq p 0)) by lia. unfold mset. krun.
  eexists. split; [reflexivity |].
  assert (Hz : forall i, 0 <= i < 512 -> pte_at (memset (mem s1) p 0 PGSIZE) p i = 0)
    by (intros; now apply pte_at_memset0).
  split_and!; cbn; auto.
  - split_and!; cbn.
    + constructor.
      * intros q. rewrite lookup_singleton_Some. intuition congruence.
      * intros q π. rewrite lookup_singleton_Some. intros [<- _]. auto.
      * intros q π. rewrite lookup_singleton_Some. intros [_ <-]. cbn. lia.
      * intros q π i. rewrite lookup_singleton_Some. intros [<- _] Hi. cbn.
        rewrite Hz by auto. discriminate.
      * intros c π i. rewrite lookup_singleton_Some. intros [_ E]. destruct π; discriminate.
      * intros i Hi. cbn. rewrite Hz by auto. discriminate.
    + apply (kmem_inv_frame s1); auto. intros q x Hq Hx. cbn. apply memset_out.
      rewrite Forall_forall in Hokl. assert (q <> p) by congruence.
      destruct (page_ok_disjoint q p); auto; unfold PGSIZE in *; lia.
    + intros q Hq. apply lookup_singleton_None. congruence.
  - intros va. cbn [pt_lookup]. rewrite Hz by apply (PX_level_range 2). reflexivity.
  - intros x Hx. pose proof (Hx p ltac:(left)). rewrite memset_out by auto. now apply Hm1.
Qed.

End translate.
