(* ===== verification/VmUnmap.v ===== *)
(** * Releasing user memory: [uvmunmap] and [uvmdealloc]

    A user address space is a run of 4 KiB pages and superpages.  Unmapping a
    run clears exactly its mappings and, when asked to, returns every frame to
    the pool it came from. *)

From S2P Require Import Prelude KMonad Riscv Mem Printf Kalloc KallocSafety Vm VmTable VmWalk VmMap.

(** A page table next to both pools; table pages and free pages lie below the
    superpage pool. *)
Record uvm `{Layout} (s : phys) (root : Z) (O : owner) (l : list Z) : Prop := {
  uvm_vm : vm_inv s root O l;
  uvm_super : super_inv s;
  uvm_below : forall p, is_Some (O !! p) \/ p ∈ l -> p + PGSIZE <= pool_base
}.

(** The size of a leaf's range: 4 KiB or 2 MiB. *)
Definition tsize (lv : nat) : Z := match lv with O => PGSIZE | _ => SUPERPGSIZE end.

(** [a .. b) is mapped by a run of pages and superpages, whose levels and
    frames are [fs]. *)
Inductive region (m : memory) (root : Z) : Z -> Z -> list (nat * Z) -> Prop :=
| region_nil a : region m root a a []
| region_cons a b v lv fs :
    (lv <= 1)%nat -> a mod tsize lv = 0 -> a < MAXVA ->
    pt_lookup 2 m root a = Some (v, lv) -> (lv = 1%nat -> flag v PTE_R = true) ->
    region m root (a + tsize lv) b fs ->
    region m root a b ((lv, PTE2PA v) :: fs).

Definition smalls (fs : list (nat * Z)) : list Z :=
  flat_map (fun '(lv, pa) => match lv with O => [pa] | _ => [] end) fs.
Definition supers (fs : list (nat * Z)) : list Z :=
  flat_map (fun '(lv, pa) => match lv with O => [] | _ => [pa] end) fs.

(** The frames of a run can be returned to the pools. *)
Definition frames_ok `{Layout} (s : phys) (O : owner) (l : list Z) (fs : list (nat * Z)) : Prop :=
  NoDup (smalls fs) /\ NoDup (supers fs) /\
  (forall p, p ∈ smalls fs ->
     page_ok p /\ p + PGSIZE <= pool_base /\ (p ∉ l) /\ O !! p = None) /\
  (forall p, p ∈ supers fs -> superpage_ok p /\ p ∉ super_free s).

Lemma tsize_shift lv : (lv <= 1)%nat -> tsize lv = 2 ^ PXSHIFT (Z.of_nat lv).
Proof. intros Hl. destruct lv as [|[|]]; [reflexivity .. | lia]. Qed.

Lemma tsize_pos lv : PGSIZE <= tsize lv.
Proof. destruct lv; vm_compute; congruence. Qed.

Section unmap.
Context `{LayoutOk}.

(** ** Frame properties *)

Lemma pt_wf_ext m m' root O :
  (forall p i, is_Some (O !! p) -> 0 <= i < 512 -> pte_at m' p i = pte_at m p i) ->
  pt_wf m root O -> pt_wf m' root O.
Proof.
  intros Hm Hwf. constructor; try apply Hwf.
  - intros p π i Hp Hi. rewrite Hm by eauto. now apply (pt_child _ _ _ Hwf).
  - intros c π i Hc. destruct (pt_parent _ _ _ Hwf _ _ _ Hc) as (Hi & p & Hp & Hr).
    split; auto. exists p. rewrite Hm by eauto. auto.
  - intros i Hi. rewrite Hm; auto; [now apply (pt_nogiga _ _ _ Hwf) |].
    exists []. now apply (pt_root _ _ _ Hwf).
Qed.

Lemma vm_inv_frame s s' root O l :
  vm_inv s root O l -> freelist s' = freelist s ->
  (forall p x, is_Some (O !! p) \/ p ∈ l -> p <= x < p + PGSIZE -> mem s' x = mem s x) ->
  vm_inv s' root O l /\
  forall va, pt_lookup 2 (mem s') root va = pt_lookup 2 (mem s) root va.
Proof.
  intros (Hwf & Hk & Hd) Hfl Hm.
  assert (Hp : forall p i, is_Some (O !! p) -> 0 <= i < 512 ->
            pte_at (mem s') p i = pte_at (mem s) p i).
  { intros p i Hp Hi. apply load64_ext. intros x Hx. apply (Hm p); auto.
    unfold entry, PGSIZE in *. lia. }
  split; [split_and!; auto |].
  - now apply (pt_wf_ext (mem s)).
  - apply (kmem_inv_frame s); auto. intros p x Hp' Hx. apply (Hm p); auto.
  - intros va. apply (pt_lookup_frame _ _ _ O); auto. intros q k Hk' Hq.
    apply Hp; [eauto | apply PX_level_range].
Qed.

Lemma uvm_kfree s h root O l pa :
  uvm s root O l -> kmem_lock ∉ h ->
  page_ok pa -> pa + PGSIZE <= pool_base -> pa ∉ l -> O !! pa = None ->
  exists s', kfree pa h s = Ret tt h s' /\ uvm s' root O (pa :: l) /\
    super_free s' = super_free s /\ same_except [pa] (mem s) (mem s') /\
    forall va, pt_lookup 2 (mem s') root va = pt_lookup 2 (mem s) root va.
Proof.
  intros [(Hwf & Hk & Hd) Hs Hb] Hh Hp Hpb Hnl HO.
  destruct (kfree_spec pa h s l Hk Hp Hnl Hh) as (s' & E & Hk' & Hm & Esp & Enf).
  destruct (super_inv_same s s' Esp Enf Hs) as [Hs' Hf'].
  assert (Hpte : forall p i, is_Some (O !! p) -> 0 <= i < 512 ->
            pte_at (mem s') p i = pte_at (mem s) p i).
  { intros p i [π Hpi] Hi. apply (pte_at_same_except _ _ [pa]); auto.
    - eapply pt_page; eauto.
    - rewrite list_elem_of_singleton. congruence. }
  exists s'. split_and!; auto.
  - constructor; auto.
    + split_and!; auto; [now apply (pt_wf_ext (mem s)) |].
      intros p [-> | Hin]%elem_of_cons; auto.
    + intros p [Hin | [-> | Hin]%elem_of_cons]; auto.
  - intros va. apply (pt_lookup_frame _ _ _ O); auto. intros q k _ Hq.
    apply Hpte; [eauto | apply PX_level_range].
Qed.

Lemma uvm_superfree s h root O l pa :
  uvm s root O l -> supermem_lock ∉ h -> superpage_ok pa -> pa ∉ super_free s ->
  exists s', superfree pa h s = Ret tt h s' /\ uvm s' root O l /\
    super_free s' = super_free s ++ [pa] /\
    (forall x, x < pa \/ pa + SUPERPGSIZE <= x -> mem s' x = mem s x) /\
    forall va, pt_lookup 2 (mem s') root va = pt_lookup 2 (mem s) root va.
Proof.
  intros [Hv Hs Hb] Hh Hp Hn.
  destruct (superfree_spec pa h s Hs Hp Hn Hh) as (s' & E & Hs' & Ef & Hm & Hfl).
  destruct (vm_inv_frame s s' root O l Hv Hfl) as [Hv' Hlk].
  { intros p x Hin Hx. apply Hm. specialize (Hb p Hin). pose proof (superpage_above pa Hp). lia. }
  exists s'. split_and!; auto. constructor; auto.
Qed.

(** Clearing the entry of a page or superpage. *)
Lemma unmap_entry s root O l va lv p :
  uvm s root O l -> 0 <= va < MAXVA -> (lv <= 1)%nat -> va mod tsize lv = 0 ->
  O !! p = Some (take (2 - lv) (path va)) ->
  no_pointer (pte_at (mem s) p (PX (Z.of_nat lv) va)) ->
  let s' := set_mem (fun m => store64 m (entry p (PX (Z.of_nat lv) va)) 0) s in
  uvm s' root O l /\
  forall va', 0 <= va' < 2 ^ 39 ->
    pt_lookup 2 (mem s') root va' =
    if (va <=? va') && (va' <? va + tsize lv) then None else pt_lookup 2 (mem s) root va'.
Proof.
  intros [Hv Hs Hb] Hva Hlv Hal Hp Hnp s'.
  assert (HM : MAXVA < 2 ^ 39) by (vm_compute; reflexivity).
  destruct (vm_write s root O l p _ (PX (Z.of_nat lv) va) 0 Hv Hp (PX_level_range lv va))
    as (Hi2 & Hx2 & Hlk2); auto; [lia | discriminate |].
  split; [constructor; auto |]. intros va' Hva'. unfold s'. rewrite Hlk2. cbn [valid].
  change (valid 0) with false. cbv iota.
  assert (Ht : take (S (length (take (2 - lv) (path va)))) (path va')
               = take (2 - lv) (path va) ++ [PX (Z.of_nat lv) va]
               <-> va <= va' < va + tsize lv).
  { destruct lv as [|[|]]; [| | lia].
    - change (path va' = path va <-> va <= va' < va + PGSIZE).
      rewrite path_eq by lia. cbn [tsize] in Hal. split; page_lia.
    - change (take 2 (path va') = take 2 (path va) <-> va <= va' < va + SUPERPGSIZE).
      rewrite path2_eq by lia. now apply same_superpage. }
  case_decide as Hd; rewrite Ht in Hd; bool_cases; try reflexivity; lia.
Qed.

(** ** The superpage test *)

Lemma flag_leaf v : flag v PTE_R = true -> leaf v = true.
Proof.
  unfold flag, leaf, PTE_LEAF. rewrite <- !Z.land_lor_distr_r. intros Hf.
  apply negb_true_iff, Z.eqb_neq in Hf. apply negb_true_iff, Z.eqb_neq. intros E. apply Hf.
  apply Z.bits_inj'. intros n Hn. rewrite Z.bits_0, Z.land_spec.
  assert (Eb : Z.testbit (Z.land v (Z.lor (Z.lor PTE_R PTE_W) PTE_X)) n = false)
    by (rewrite E; apply Z.bits_0).
  rewrite Z.land_spec, !Z.lor_spec in Eb.
  destruct (Z.testbit v n), (Z.testbit PTE_R n); cbn in *; congruence.
Qed.

Lemma leaf_flags v : leaf v = true -> PTE_FLAGS v <> PTE_V.
Proof.
  unfold leaf, PTE_LEAF, PTE_FLAGS. rewrite <- !Z.land_lor_distr_r.
  set (k := Z.lor (Z.lor PTE_R PTE_W) PTE_X). intros Hl E.
  apply negb_true_iff, Z.eqb_neq in Hl. apply Hl.
  replace (Z.land v k) with (Z.land (Z.land v 0x3FF) k).
  - rewrite E. reflexivity.
  - rewrite <- Z.land_assoc. reflexivity.
Qed.

(** [superpage_entry] finds the entry of a readable superpage that starts at
    [a], and nothing else. *)
Lemma superpage_entry_run s h root O a :
  pt_wf (mem s) root O -> 0 <= a < MAXVA ->
  exists r, superpage_entry root a h s = Ret r h s /\
  match pt_lookup 2 (mem s) root a with
  | Some (v, 1%nat) =>
      if (a mod SUPERPGSIZE =? 0) && flag v PTE_R
      then r <> 0 /\ exists p, O !! p = Some (take 1 (path a)) /\ r = entry p (PX 1 a) /\
             pte_at (mem s) p (PX 1 a) = v
      else r = 0
  | _ => r = 0
  end.
Proof.
  intros Hwf Ha. unfold superpage_entry.
  destruct (a mod SUPERPGSIZE =? 0); [| eexists; split; [reflexivity |]; now repeat case_match].
  unfold superwalk, read64. rewrite (proj2 (Z.leb_gt _ _)) by lia. krun. cbn [andb].
  assert (Hr : O !! root = Some []) by now apply (pt_root _ _ _ Hwf).
  change (load64 (mem s) (entry root (PX 2 a))) with (pte_at (mem s) root (PX 2 a)).
  fold (valid (pte_at (mem s) root (PX 2 a))).
  pose proof (PX_range 2 a ltac:(lia)) as Hr2.
  destruct (valid _) eqn:Ev.
  2: { eexists. split; [reflexivity |]. cbn [pt_lookup]. change (Z.of_nat 2) with 2.
       now rewrite Ev. }
  pose proof (pt_nogiga _ _ _ Hwf (PX 2 a) Hr2 Ev) as El.
  pose proof (pt_child _ _ _ Hwf root [] (PX 2 a) Hr Hr2 Ev El) as Hp.
  set (p := PTE2PA (pte_at (mem s) root (PX 2 a))) in *. krun.
  assert (Hne : entry p (PX 1 a) <> 0)
    by (apply entry_nonzero; [eapply pt_page; eauto | apply (PX_level_range 1)]).
  rewrite (proj2 (Z.eqb_neq _ _)) by auto. krun.
  change (load64 (mem s) (entry p (PX 1 a))) with (pte_at (mem s) p (PX 1 a)).
  set (v := pte_at (mem s) p (PX 1 a)). fold (valid v).
  assert (Hlk : pt_lookup 2 (mem s) root a = pt_lookup 1 (mem s) p a)
    by now rewrite (pt_lookup_reach _ _ _ _ _ 1 Hwf ltac:(lia) Hp).
  rewrite Hlk. cbn [pt_lookup]. change (Z.of_nat 1) with 1. fold v.
  destruct (valid v) eqn:Evv; cbn [negb andb].
  2: { eexists. split; [reflexivity |]. reflexivity. }
  destruct (flag v PTE_R) eqn:ER.
  - rewrite (flag_leaf v ER), ER. eexists. split; [reflexivity |]. eauto 10.
  - eexists. split; [reflexivity |]. destruct (leaf v); [now rewrite ER |].
    destruct (valid (pte_at (mem s) (PTE2PA v) _)), (leaf (pte_at (mem s) (PTE2PA v) _)); reflexivity.
Qed.

(** ** Runs of pages *)

Lemma region_le m root a b fs : region m root a b fs -> a <= b.
Proof. induction 1; [lia |]. pose proof (tsize_pos lv). unfold PGSIZE in *. lia. Qed.

Lemma region_ext m m' root a b fs :
  (forall va, a <= va < b -> pt_lookup 2 m' root va = pt_lookup 2 m root va) ->
  region m root a b fs -> region m' root a b fs.
Proof.
  intros Hm Hr. induction Hr as [|a b v lv fs Hlv Hal Ha Hlk Hf Hr IH]; [constructor |].
  pose proof (tsize_pos lv). pose proof (region_le _ _ _ _ _ Hr). unfold PGSIZE in *.
  econstructor; eauto.
  - rewrite Hm by lia. exact Hlk.
  - apply IH. intros va Hva. apply Hm. lia.
Qed.

Lemma region_aligned m root a b fs :
  region m root a b fs -> a mod PGSIZE = 0 -> b mod PGSIZE = 0.
Proof.
  induction 1 as [|a b v lv fs Hlv Hal Ha Hlk Hf Hr IH]; intros Hm; [auto |]. apply IH.
  destruct lv as [|[|]]; cbn [tsize] in *; [| | lia]; clear - Hm; super_lia.
Qed.

Lemma region_app m root a b c fs gs :
  region m root a b fs -> region m root b c gs -> region m root a c (fs ++ gs).
Proof. induction 1; cbn; auto. intros. econstructor; eauto. Qed.

(** After a run is unmapped. *)
Definition unmapped (m m' : memory) (root a b : Z) : Prop :=
  forall va, 0 <= va < 2 ^ 39 ->
    pt_lookup 2 m' root va =
    if (a <=? va) && (va <? b) then None else pt_lookup 2 m root va.

Lemma unmapped_app m1 m2 m3 root a b c : a <= b -> b <= c ->
  unmapped m1 m2 root a b -> unmapped m2 m3 root b c -> unmapped m1 m3 root a c.
Proof.
  intros Hab Hbc H1 H2 va Hva. rewrite H2, H1 by auto.
  bool_cases; cbn [andb]; try reflexivity; lia.
Qed.

Lemma frames_ok_cons s O l lv pa fs :
  frames_ok s O l ((lv, pa) :: fs) ->
  match lv with
  | O => page_ok pa /\ pa + PGSIZE <= pool_base /\ (pa ∉ l) /\ O !! pa = None /\
         forall s', super_free s' = super_free s -> frames_ok s' O (pa :: l) fs
  | _ => superpage_ok pa /\ (pa ∉ super_free s) /\
         forall s', super_free s' = super_free s ++ [pa] -> frames_ok s' O l fs
  end /\ forall s', super_free s' = super_free s -> frames_ok s' O l fs.
Proof.
  unfold frames_ok. destruct lv as [|lv]; cbn [smalls supers flat_map app];
    fold (smalls fs); fold (supers fs); intros (H1 & H2 & H3 & H4).
  - apply NoDup_cons in H1 as [Hn H1].
    assert (Hpa := H3 pa ltac:(left)). split_and!; try tauto.
    + intros s' ->. split_and!; auto. intros p Hp.
      assert (Hpp := H3 p ltac:(now right)). split_and!; try tauto.
      rewrite elem_of_cons. intros [-> | ]; tauto.
    + intros s' ->. split_and!; auto. intros p Hp. apply H3. now right.
  - apply NoDup_cons in H2 as [Hn H2].
    assert (Hpa := H4 pa ltac:(left)). split_and!; try tauto.
    + intros s' ->. split_and!; auto. intros p Hp. assert (Hpp := H4 p ltac:(now right)).
      split; [tauto |]. rewrite elem_of_app, list_elem_of_singleton. intros [Hx | ->]; tauto.
    + intros s' ->. split_and!; auto. intros p Hp. apply H4. now right.
Qed.

(** ** The loop of [uvmunmap] *)

Lemma lookup_entry m root O p va v lv :
  pt_wf m root O -> (lv <= 1)%nat -> O !! p = Some (take (2 - lv) (path va)) ->
  pt_lookup 2 m root va = Some (v, lv) ->
  pte_at m p (PX (Z.of_nat lv) va) = v /\ no_pointer v.
Proof.
  intros Hwf Hlv Hp E. rewrite (pt_lookup_reach _ _ _ p va (2 - lv) Hwf ltac:(lia) Hp) in E.
  replace (2 - (2 - lv))%nat with lv in E by lia.
  destruct lv as [|[|]]; [| | lia]; cbn [pt_lookup] in E;
    repeat match type of E with
      | context [if negb (valid ?x) then _ else _] => destruct (valid x) eqn:?; cbn [negb] in E
      | context [if leaf ?x then _ else _] => destruct (leaf x) eqn:?
      end; try discriminate; injection E as E; subst v; split; auto; now intros _.
Qed.

(** An address in no table page and no frame of [fs]. *)
Definition untouched (O : owner) (fs : list (nat * Z)) (x : Z) : Prop :=
  (forall p, is_Some (O !! p) -> x < p \/ p + PGSIZE <= x) /\
  (forall lv pa, (lv, pa) ∈ fs -> x < pa \/ pa + tsize lv <= x).

(** Freeing the frame of a tile, or not. *)
Lemma free_tile s h root O l lv pa (df : bool) :
  uvm s root O l -> kmem_lock ∉ h -> supermem_lock ∉ h -> (lv <= 1)%nat ->
  (df = true -> frames_ok s O l [(lv, pa)]) ->
  exists s', (if df then match lv with O => kfree pa | _ => superfree pa end else ret tt) h s
             = Ret tt h s' /\
    uvm s' root O (if df then smalls [(lv, pa)] ++ l else l) /\
    super_free s' = super_free s ++ (if df then supers [(lv, pa)] else []) /\
    (forall x, (df = true -> x < pa \/ pa + tsize lv <= x) -> mem s' x = mem s x) /\
    forall va, pt_lookup 2 (mem s') root va = pt_lookup 2 (mem s) root va.
Proof.
  intros Hu Hh Hh' Hlv Hf. destruct df.
  2: { exists s. rewrite app_nil_r. auto. }
  specialize (Hf eq_refl). apply frames_ok_cons in Hf as [Hf _].
  destruct lv as [|[|]]; [| | lia].
  - destruct Hf as (Hp & Hb & Hn & HO & _).
    destruct (uvm_kfree s h root O l pa) as (s' & E & Hu' & Es & Hm & Hlk); auto.
    exists s'. cbn. rewrite app_nil_r. split_and!; auto. intros x Hx. apply Hm.
    intros q Hq. apply list_elem_of_singleton in Hq as ->. auto.
  - destruct Hf as (Hp & Hn & _).
    destruct (uvm_superfree s h root O l pa) as (s' & E & Hu' & Es & Hm & Hlk); auto.
    exists s'. cbn. split_and!; auto.
Qed.

Lemma uvmunmap_tile s h root O l a last lv v fuel df :
  uvm s root O l -> kmem_lock ∉ h -> supermem_lock ∉ h ->
  0 <= a < MAXVA -> a < last -> (lv <= 1)%nat -> a mod tsize lv = 0 ->
  pt_lookup 2 (mem s) root a = Some (v, lv) -> (lv = 1%nat -> flag v PTE_R = true) ->
  (df = true -> frames_ok s O l [(lv, PTE2PA v)]) ->
  exists s',
    uvmunmap_loop (S fuel) root a last df h s
      = uvmunmap_loop fuel root (u64 (a + tsize lv)) last df h s' /\
    uvm s' root O (if df then smalls [(lv, PTE2PA v)] ++ l else l) /\
    super_free s' = super_free s ++ (if df then supers [(lv, PTE2PA v)] else []) /\
    unmapped (mem s) (mem s') root a (a + tsize lv) /\
    (forall x, untouched O (if df then [(lv, PTE2PA v)] else []) x -> mem s' x = mem s x).
Proof.
  intros Hu Hh Hh' Ha Hl Hlv Hal Hlk HR Hf. pose proof (proj1 (uvm_vm _ _ _ _ Hu)) as Hwf.
  cbn [uvmunmap_loop]. rewrite (proj2 (Z.ltb_lt a last)) by lia. cbn [negb].
  destruct (superpage_entry_run s h root O a Hwf Ha) as (r & Er & Hr).
  rewrite (bind_Ret _ _ _ _ _ _ _ Er). rewrite Hlk in Hr.
  destruct (walk_noalloc s h root O a Hwf ltac:(lia)) as (w & Ew & Hw).
  unfold walk_finds in Hw. rewrite Hlk in Hw.
  destruct Hw as (_ & Hv & Hlf & p & Hp & -> & Hpv).
  destruct (free_tile s h root O l lv (PTE2PA v) df Hu Hh Hh' Hlv Hf)
    as (s1 & E1 & Hu1 & Es1 & Hm1 & Hlk1).
  pose proof (proj1 (uvm_vm _ _ _ _ Hu1)) as Hwf1.
  assert (Hn1 : no_pointer (pte_at (mem s1) p (PX (Z.of_nat lv) a))).
  { destruct (lookup_entry (mem s1) root O p a v lv Hwf1 Hlv Hp) as [-> Hn]; [congruence | auto]. }
  destruct (unmap_entry s1 root O _ a lv p Hu1 Ha Hlv Hal Hp Hn1) as [Hu2 Hlk2].
  eexists. split; [| split; [exact Hu2 | split; [exact Es1 |]]].
  2: { split.
       - intros va Hva. rewrite Hlk2, Hlk1 by auto. reflexivity.
       - intros x [HxO Hxf]. cbn. rewrite store64_out; [apply Hm1; intros -> |].
         + apply (Hxf lv). left.
         + pose proof (PX_level_range lv a). destruct (HxO p ltac:(eauto)); unfold entry, PGSIZE in *; lia. }
  destruct lv as [|[|]]; [| | lia].
  - rewrite (proj2 (Z.eqb_eq r 0)) by auto. cbn [negb].
    rewrite (bind_Ret _ _ _ _ _ _ _ Ew). change (Z.of_nat 0) with 0 in *.
    rewrite (proj2 (Z.eqb_neq _ _))
      by (apply entry_nonzero; [eapply pt_page; eauto | apply (PX_level_range 0)]).
    unfold read64. krun. change (load64 (mem s) (entry p (PX 0 a))) with (pte_at (mem s) p (PX 0 a)).
    rewrite Hpv. fold (valid v). rewrite Hv. cbn [negb].
    rewrite (proj2 (Z.eqb_neq _ _)) by now apply leaf_flags.
    rewrite (bind_Ret _ _ _ _ _ _ _ E1). unfold write64. krun. reflexivity.
  - change (Z.of_nat 1) with 1 in *. cbn [tsize] in Hal.
    rewrite Hal, (HR eq_refl) in Hr. cbn [Z.eqb andb] in Hr.
    destruct Hr as (Hne & p' & Hp' & -> & Hpv').
    assert (p' = p) as -> by (eapply pt_path_inj; eauto).
    rewrite (proj2 (Z.eqb_neq _ _)) by auto. cbn [negb].
    destruct df.
    + unfold read64. krun. change (load64 (mem s) (entry p (PX 1 a))) with (pte_at (mem s) p (PX 1 a)).
      rewrite Hpv. rewrite (bind_Ret _ _ _ _ _ _ _ E1). unfold write64. krun. reflexivity.
    + rewrite (bind_Ret _ _ _ _ _ _ _ E1). unfold write64. krun. reflexivity.
Qed.

Lemma frames_ok_head s O l t fs : frames_ok s O l (t :: fs) -> frames_ok s O l [t].
Proof.
  destruct t as [lv pa]. intros Hf. apply frames_ok_cons in Hf as [Hf _].
  unfold frames_ok. destruct lv as [|lv]; cbn; split_and!;
    try apply NoDup_nil_2; try apply NoDup_singleton; intros p Hp;
    first [now apply elem_of_nil in Hp | apply list_elem_of_singleton in Hp as ->; tauto].
Qed.

Lemma uvmunmap_loop_spec fs : forall fuel s h root O l a b df,
  uvm s root O l -> kmem_lock ∉ h -> supermem_lock ∉ h ->
  0 <= a -> b <= MAXVA -> region (mem s) root a b fs ->
  (df = true -> frames_ok s O l fs) -> (length fs <= fuel)%nat ->
  exists s',
    uvmunmap_loop fuel root a b df h s = Ret tt h s' /\
    uvm s' root O (if df then rev (smalls fs) ++ l else l) /\
    super_free s' = super_free s ++ (if df then supers fs else []) /\
    unmapped (mem s) (mem s') root a b /\
    (forall x, untouched O (if df then fs else []) x -> mem s' x = mem s x).
Proof.
  assert (HM : MAXVA < 2 ^ 39) by (vm_compute; reflexivity).
  induction fs as [|[lv pa] fs IH]; intros fuel s h root O l a b df Hu Hh Hh' Ha Hb Hr Hf Hfuel;
    inversion Hr as [|? ? v ? ? Hlv Hal HaM Hlk HR Hr']; subst.
  - exists s. assert (E : uvmunmap_loop fuel root b b df h s = Ret tt h s)
      by (destruct fuel; cbn; now rewrite Z.ltb_irrefl).
    split_and!; auto; [now destruct df | destruct df; symmetry; apply app_nil_r |].
    intros va Hva. bool_cases; try reflexivity. lia.
  - destruct fuel as [|fuel]; cbn in Hfuel; [lia |].
    pose proof (tsize_pos lv) as Ht. pose proof (region_le _ _ _ _ _ Hr') as Hle.
    unfold PGSIZE in Ht.
    destruct (uvmunmap_tile s h root O l a b lv v fuel df) as (s1 & E1 & Hu1 & Es1 & Hm1 & Hx1);
      auto; try lia.
    { intros Hdf. eapply frames_ok_head, Hf, Hdf. }
    rewrite E1, u64_small by (unfold PGSIZE in *; lia).
    destruct (IH fuel s1 h root O (if df then smalls [(lv, PTE2PA v)] ++ l else l)
                (a + tsize lv) b df) as (s2 & E2 & Hu2 & Es2 & Hm2 & Hx2); auto; try lia.
    { eapply region_ext; [| exact Hr']. intros va Hva. rewrite Hm1 by lia.
      bool_cases; try reflexivity. lia. }
    { intros ->. specialize (Hf eq_refl). apply frames_ok_cons in Hf as [Hf _].
      destruct lv as [|[|]]; [| | lia]; cbn in *; apply Hf; rewrite Es1; now rewrite ?app_nil_r. }
    exists s2. split_and!; auto.
    + destruct df; auto. destruct lv; cbn in *; auto. now rewrite <- app_assoc.
    + rewrite Es2, Es1. destruct df; [| now rewrite !app_nil_r].
      destruct lv; cbn; now rewrite ?app_nil_r, <- ?app_assoc.
    + eapply unmapped_app; [| | exact Hm1 | exact Hm2]; lia.
    + intros x [Hx1' Hx2']. rewrite Hx2, Hx1; auto; split; auto; destruct df; auto;
        intros lv' pa' Hin; apply Hx2'.
      * apply list_elem_of_singleton in Hin. injection Hin as -> ->. left.
      * now right.
Qed.

(** [uvmunmap] of a run of pages and superpages. *)
Lemma uvmunmap_run s h root O l a n df fs :
  uvm s root O l -> kmem_lock ∉ h -> supermem_lock ∉ h ->
  0 <= a -> a mod PGSIZE = 0 -> 0 <= n -> a + n * PGSIZE <= MAXVA ->
  region (mem s) root a (a + n * PGSIZE) fs ->
  (df = true -> frames_ok s O l fs) ->
  exists s',
    uvmunmap root a n df h s = Ret tt h s' /\
    uvm s' root O (if df then rev (smalls fs) ++ l else l) /\
    super_free s' = super_free s ++ (if df then supers fs else []) /\
    unmapped (mem s) (mem s') root a (a + n * PGSIZE) /\
    (forall x, untouched O (if df then fs else []) x -> mem s' x = mem s x).
Proof.
  intros Hu Hh Hh' Ha Hal Hn Hmax Hr Hf.
  assert (HM : MAXVA < 2 ^ 39) by (vm_compute; reflexivity).
  unfold uvmunmap. rewrite Hal. cbn [Z.eqb negb]. rewrite (u64_small (n * PGSIZE)), u64_small by page_lia.
  apply uvmunmap_loop_spec; auto.
  assert (Hlen : Z.of_nat (length fs) * PGSIZE <= n * PGSIZE).
  { clear - Hr. remember (a + n * PGSIZE) as b eqn:Eb.
    assert (Z.of_nat (length fs) * PGSIZE <= b - a); [| lia]. clear Eb.
    induction Hr as [|a b v lv fs ? ? ? ? ? ? IH]; cbn [length]; [lia |].
    pose proof (tsize_pos lv). lia. }
  unfold PGSIZE in Hlen. lia.
Qed.

End unmap.
