(* ===== verification/VmAlloc.v ===== *)
(** * Growing and shrinking a process: [uvmdealloc] and [uvmalloc] *)

From S2P Require Import Prelude KMonad Riscv Mem Printf Kalloc KallocSafety Vm VmTable VmWalk VmMap VmUnmap.

Section alloc.
Context `{LayoutOk}.

Lemma PGROUNDUP_le a b : 0 <= a <= b -> b <= MAXVA -> PGROUNDUP a <= PGROUNDUP b <= MAXVA.
Proof.
  intros Ha Hb. assert (HM : MAXVA = 2 ^ 38) by reflexivity.
  rewrite !PGROUNDUP_eq by (unfold PGSIZE; lia). rewrite HM in *. page_lia.
Qed.

(** [uvmdealloc] releases the pages between the two sizes. *)
Lemma uvmdealloc_run s h root O l oldsz newsz fs :
  uvm s root O l -> kmem_lock ∉ h -> supermem_lock ∉ h ->
  0 <= newsz <= oldsz -> oldsz <= MAXVA ->
  region (mem s) root (PGROUNDUP newsz) (PGROUNDUP oldsz) fs ->
  frames_ok s O l fs ->
  exists s',
    uvmdealloc root oldsz newsz h s = Ret newsz h s' /\
    uvm s' root O (rev (smalls fs) ++ l) /\
    super_free s' = super_free s ++ supers fs /\
    unmapped (mem s) (mem s') root (PGROUNDUP newsz) (PGROUNDUP oldsz) /\
    (forall x, untouched O fs x -> mem s' x = mem s x).
Proof.
  intros Hu Hh Hh' Hn Ho Hr Hf. assert (HM : MAXVA = 2 ^ 38) by reflexivity.
  pose proof (PGROUNDUP_le newsz oldsz Hn Ho) as Hle.
  destruct (PGROUNDUP_spec newsz) as [Ha1 Hb1]; [unfold PGSIZE in *; lia |].
  destruct (PGROUNDUP_spec oldsz) as [Ha2 Hb2]; [unfold PGSIZE in *; lia |].
  assert (Hskip : PGROUNDUP oldsz <= PGROUNDUP newsz ->
     uvm s root O (rev (smalls fs) ++ l) /\ super_free s = super_free s ++ supers fs /\
     unmapped (mem s) (mem s) root (PGROUNDUP newsz) (PGROUNDUP oldsz) /\
     (forall x, untouched O fs x -> mem s x = mem s x)).
  { intros Hge. assert (E : PGROUNDUP oldsz = PGROUNDUP newsz) by lia. rewrite E in *.
    inversion Hr as [|? ? ? lv ? ? ? ? ? ? Hr']; subst.
    - cbn. rewrite app_nil_r. split_and!; auto. intros va Hva. bool_cases; try reflexivity. lia.
    - apply region_le in Hr'. pose proof (tsize_pos lv). unfold PGSIZE in *. lia. }
  unfold uvmdealloc. destruct (Z.leb_spec oldsz newsz) as [Hc | Hc].
  { exists s. replace newsz with oldsz in * by lia. split; [reflexivity |]. apply Hskip. lia. }
  destruct (Z.ltb_spec (PGROUNDUP newsz) (PGROUNDUP oldsz)) as [Hlt | Hge].
  2: { exists s. split; [reflexivity |]. now apply Hskip. }
  set (n := (PGROUNDUP oldsz - PGROUNDUP newsz) / PGSIZE).
  assert (Hn' : PGROUNDUP newsz + n * PGSIZE = PGROUNDUP oldsz) by (subst n; clear - Ha1 Ha2; page_lia).
  assert (Hn0 : 0 <= n < 2 ^ 31) by (unfold PGSIZE in *; lia).
  rewrite i32_small, u64_small by lia.
  destruct (uvmunmap_run s h root O l (PGROUNDUP newsz) n true fs)
    as (s' & E & Hu' & Es & Hm & Hx); auto; try lia.
  { now rewrite Hn'. }
  exists s'. rewrite (bind_Ret _ _ _ _ _ _ _ E). rewrite Hn' in Hm. auto.
Qed.

(** ** Taking frames from the pools *)

Lemma uvm_ext s s' root O O' l l' :
  uvm s root O l -> vm_inv s' root O' l' -> ext s s' O O' l l' ->
  uvm s' root O' l' /\ super_free s' = super_free s.
Proof.
  intros [Hv Hs Hb] Hv' [Hsub (u & -> & Hp) Hm [Esp Enf]].
  destruct (super_inv_same s s' Esp Enf Hs) as [Hs' Hf']. split; auto. constructor; auto.
  intros p [Hin | Hin]; apply Hb.
  - apply Hp in Hin as [|]; [auto |]. right. apply elem_of_app. auto.
  - right. apply elem_of_app. auto.
Qed.

(** A page from [kalloc]. *)
Lemma uvm_kalloc s h root O c l :
  uvm s root O (c :: l) -> kmem_lock ∉ h ->
  exists s', kalloc h s = Ret c h s' /\
    uvm s' root O l /\ super_free s' = super_free s /\ same_except [c] (mem s) (mem s') /\
    (forall va, pt_lookup 2 (mem s') root va = pt_lookup 2 (mem s) root va) /\
    c <> 0 /\ page_ok c /\ (c ∉ l) /\ O !! c = None.
Proof.
  intros [Hv Hs Hb] Hh. destruct (vm_inv_fresh _ _ _ _ _ Hv) as [Hc Hok].
  destruct Hv as (Hwf & Hk & Hd).
  destruct (kmem_inv_head _ _ _ Hk) as (_ & _ & Hnl & _).
  destruct (kalloc_spec c h s l Hk Hh) as (s1 & E & Hk1 & Hm & _ & Esp & Enf).
  assert (Hpte : forall p i, is_Some (O !! p) -> 0 <= i < 512 ->
            pte_at (mem s1) p i = pte_at (mem s) p i).
  { intros p i [π Hp] Hi. apply (pte_at_same_except _ _ [c]); auto.
    - eapply pt_page; eauto.
    - rewrite list_elem_of_singleton. congruence. }
  destruct (super_inv_same s s1 Esp Enf Hs) as [Hs' Hf'].
  exists s1. split_and!; auto.
  - constructor; auto.
    + split_and!; [now apply (pt_wf_ext (mem s)) | auto |].
      intros p Hp. apply Hd. now right.
    + intros p [Hp | Hp]; apply Hb; [auto | right; now right].
  - intros va. apply (pt_lookup_frame _ _ _ O); auto. intros q k _ Hq.
    apply Hpte; [eauto | apply PX_level_range].
  - pose proof (page_ok_pos c Hok). lia.
Qed.

(** A superpage from [superalloc]. *)
Lemma uvm_superalloc s h root O l q sl :
  uvm s root O l -> supermem_lock ∉ h -> super_free s = sl ++ [q] ->
  exists s', superalloc h s = Ret q h s' /\
    uvm s' root O l /\ super_free s' = sl /\
    (forall x, x < q \/ q + SUPERPGSIZE <= x -> mem s' x = mem s x) /\
    (forall va, pt_lookup 2 (mem s') root va = pt_lookup 2 (mem s) root va) /\
    q <> 0 /\ superpage_ok q /\ (q ∉ sl).
Proof.
  intros [Hv Hs Hb] Hh Ef.
  assert (Hq : superpage_ok q /\ q ∉ sl).
  { destruct Hs as (_ & _ & Hnd & Hok). rewrite Ef in *.
    rewrite Forall_app, Forall_singleton in Hok. split; [tauto |].
    apply NoDup_app in Hnd as (_ & Hd & _). intros Hin. apply (Hd q Hin). left. }
  destruct Hq as [Hq Hnq].
  destruct (superalloc_spec q h s sl Hs Ef Hh) as (s1 & E & Hs1 & Ef1 & Hm & Hfl).
  pose proof (superpage_above q Hq) as Hab.
  destruct (vm_inv_frame s s1 root O l Hv Hfl) as [Hv2 Hlk].
  { intros p x Hin Hx. apply Hm. specialize (Hb p Hin). lia. }
  exists s1. split_and!; auto.
  - constructor; auto.
  - assert (0 < pool_base) by (vm_compute; reflexivity). lia.
Qed.

(** Writing to a frame. *)
Lemma uvm_fill s root O l lv pa f :
  uvm s root O l ->
  (forall x p, pa <= x < pa + tsize lv -> is_Some (O !! p) \/ p ∈ l -> x < p \/ p + PGSIZE <= x) ->
  (forall x, x < pa \/ pa + tsize lv <= x -> f (mem s) x = mem s x) ->
  uvm (set_mem f s) root O l /\
  forall va, pt_lookup 2 (f (mem s)) root va = pt_lookup 2 (mem s) root va.
Proof.
  intros [Hv Hs Hb] Hd Hf.
  destruct (vm_inv_frame s (set_mem f s) root O l Hv eq_refl) as [Hv' Hlk].
  - intros p x Hp Hx. cbn. apply Hf.
    destruct (Z.lt_ge_cases x pa), (Z.lt_ge_cases x (pa + tsize lv)); try lia.
    destruct (Hd x p); auto; lia.
  - split; [constructor; auto | exact Hlk].
Qed.

(** ** Growing *)

(** Permissions of the pages that [uvmalloc] maps. *)
Definition uperm (lv : nat) (xperm : Z) : Z :=
  match lv with
  | O => Z.lor (Z.lor PTE_R PTE_U) xperm
  | _ => Z.lor (Z.lor (Z.lor PTE_R PTE_W) PTE_U) xperm
  end.

(** What [uvmalloc] or [uvmcopy] has done to [s0] when it reached [a]: the
    frames [fs] are mapped at [a0 .. a) with the permissions [perm] and hold the
    bytes [data]; pages of the free list became table pages or frames;
    superpages came off the pool; nothing else changed. *)
Record grown (root : Z) (s0 : phys) (O0 : owner) (l0 : list Z) (a0 : Z)
    (perm : Z -> nat -> Z) (data : Z -> Z) (s : phys) (O : owner) (l : list Z) (a : Z) (fs : list (nat * Z)) : Prop := {
  gr_uvm : uvm s root O l;
  gr_sub : forall p π, O0 !! p = Some π -> O !! p = Some π;
  gr_pages : exists u, l0 ≡ₚ u ++ smalls fs ++ l /\
    forall p, is_Some (O !! p) <-> is_Some (O0 !! p) \/ p ∈ u;
  gr_super : super_free s0 = super_free s ++ rev (supers fs);
  gr_region : region (mem s) root a0 a fs;
  gr_lookup : forall va, 0 <= va < 2 ^ 39 -> ~ (a0 <= va < a) ->
    pt_lookup 2 (mem s) root va = pt_lookup 2 (mem s0) root va;
  gr_perm : forall va, a0 <= va < a -> exists pa lv, (lv <= 1)%nat /\ frame_ok pa /\
    pa mod tsize lv = 0 /\ pt_lookup 2 (mem s) root va = Some (mkpte pa (perm va lv), lv);
  gr_data : forall va v lv, a0 <= va < a -> pt_lookup 2 (mem s) root va = Some (v, lv) ->
    mem s (PTE2PA v + va mod tsize lv) = data va;
  gr_mem : forall x, (forall p, is_Some (O0 !! p) \/ p ∈ l0 -> x < p \/ p + PGSIZE <= x) ->
    (forall p, p ∈ super_free s0 -> x < p \/ p + SUPERPGSIZE <= x) -> mem s x = mem s0 x
}.

Lemma elem_of_smalls p fs : p ∈ smalls fs <-> (0%nat, p) ∈ fs.
Proof.
  induction fs as [|[lv pa] fs IH]; cbn.
  - now rewrite !elem_of_nil.
  - rewrite elem_of_app, elem_of_cons. fold (smalls fs). rewrite IH.
    destruct lv; rewrite ?list_elem_of_singleton, ?elem_of_nil; intuition congruence.
Qed.

Lemma smalls_app fs gs : smalls (fs ++ gs) = smalls fs ++ smalls gs.
Proof. apply flat_map_app. Qed.
Lemma supers_app fs gs : supers (fs ++ gs) = supers fs ++ supers gs.
Proof. apply flat_map_app. Qed.

Lemma elem_of_supers lv p fs : (S lv, p) ∈ fs -> p ∈ supers fs.
Proof.
  induction fs as [|[lv' pa] fs IH]; [intros Hin; now apply elem_of_nil in Hin |].
  intros [E | Hin]%elem_of_cons; cbn; apply elem_of_app; [left | right; auto].
  injection E as <- <-. left.
Qed.

Lemma grown_refl root s0 O0 l0 a0 perm data :
  uvm s0 root O0 l0 -> grown root s0 O0 l0 a0 perm data s0 O0 l0 a0 [].
Proof.
  intros Hu. constructor; auto.
  - exists []. split; [reflexivity |]. intros p. rewrite elem_of_nil. tauto.
  - cbn. now rewrite app_nil_r.
  - constructor.
  - intros va Hva. lia.
  - intros va v lv Hva. lia.
Qed.

(** Every address of a superpage has its entry. *)
Lemma lookup_superpage m root a va v :
  va / 4096 / 512 = a / 4096 / 512 -> pt_lookup 2 m root a = Some (v, 1%nat) ->
  pt_lookup 2 m root va = Some (v, 1%nat).
Proof.
  intros E Hlk.
  assert (E2 : PX 2 va = PX 2 a) by (rewrite !PX2_eq; congruence).
  assert (E1 : PX 1 va = PX 1 a) by (rewrite !PX1_eq; congruence).
  cbn [pt_lookup] in *. change (Z.of_nat 2) with 2 in *. change (Z.of_nat 1) with 1 in *.
  rewrite E2. destruct (negb (valid (pte_at m root (PX 2 a)))); [discriminate |].
  destruct (leaf (pte_at m root (PX 2 a))); [discriminate |]. rewrite E1.
  destruct (negb (valid (pte_at m (PTE2PA (pte_at m root (PX 2 a))) (PX 1 a)))); [discriminate |].
  destruct (leaf (pte_at m (PTE2PA (pte_at m root (PX 2 a))) (PX 1 a))); [auto |].
  repeat match type of Hlk with context [if ?b then _ else _] => destruct b end; discriminate.
Qed.

Lemma region_lookup m root a b fs va :
  region m root a b fs -> a <= va < b ->
  exists v lv, pt_lookup 2 m root va = Some (v, lv) /\ (lv <= 1)%nat /\ (lv, PTE2PA v) ∈ fs.
Proof.
  induction 1 as [|a b v lv fs Hlv Hal Ha Hlk Hf Hr IH]; intros Hva; [lia |].
  destruct (Z.lt_ge_cases va (a + tsize lv)) as [Hlt | Hge].
  - exists v, lv. split; [| split; [auto | left]].
    destruct lv as [|[|]]; [| | lia]; cbn [tsize] in *.
    + rewrite <- Hlk. apply lookup_page. clear - Hva Hlt Hal. page_lia.
    + apply (lookup_superpage _ _ a); auto. apply same_superpage; auto. lia.
  - destruct IH as (w & lw & Hw & Hlw & Hin); [lia |]. exists w, lw. split_and!; auto. now right.
Qed.


(** The frames in use can be given back. *)
Lemma grown_frames root s0 O0 l0 a0 perm data s O l a fs :
  uvm s0 root O0 l0 -> grown root s0 O0 l0 a0 perm data s O l a fs -> frames_ok s O l fs.
Proof.
  intros [(Hwf0 & Hk0 & Hd0) Hs0 Hb0] [Hu Hsub (u & Hl0 & HO) Hsf _ _ _ _ _].
  destruct Hk0 as (_ & Hnd & Hok). rewrite Hl0 in Hnd. rewrite Forall_forall in Hok.
  apply NoDup_app in Hnd as (_ & Hu' & Hnd). apply NoDup_app in Hnd as (Hns & Hd' & _).
  destruct Hs0 as (_ & _ & Hnd0 & Hok0). rewrite Hsf in *.
  apply NoDup_app in Hnd0 as (_ & Hds & Hnr).
  rewrite Forall_app, !Forall_forall in Hok0. destruct Hok0 as [_ Hok0].
  split_and!; auto.
  - now rewrite (Permutation_rev (supers fs)).
  - intros p Hp. assert (Hin : p ∈ l0) by (rewrite Hl0, !elem_of_app; auto).
    split_and!; auto.
    destruct (O !! p) eqn:E; [| reflexivity]. exfalso.
    assert (Hs : is_Some (O !! p)) by eauto. apply HO in Hs as [Hs | Hs].
    + rewrite (Hd0 p Hin) in Hs. now destruct Hs.
    + apply (Hu' p Hs). apply elem_of_app. auto.
  - intros p Hp.
    assert (Hr : p ∈ rev (supers fs)) by now rewrite <- Permutation_rev.
    split; [auto |]. intros Hin. apply (Hds p Hin Hr).
Qed.

(** Frames in use overlap neither table pages nor free pages. *)
Lemma frames_disjoint s root O l fs lv pa x p :
  uvm s root O l -> frames_ok s O l fs -> (lv, pa) ∈ fs -> pa <= x < pa + tsize lv ->
  is_Some (O !! p) \/ p ∈ l -> x < p \/ p + PGSIZE <= x.
Proof.
  intros [(Hwf & (_ & _ & Hokl) & _) _ Hb] (_ & _ & Hsm & Hsu) Hin Hx Hp.
  destruct lv as [|lv]; cbn [tsize] in Hx.
  - apply elem_of_smalls in Hin. destruct (Hsm pa Hin) as (Hok & _ & Hnl & HO).
    rewrite Forall_forall in Hokl.
    assert (page_ok p) by (destruct Hp as [[π Hp] | Hp]; [eapply pt_page; eauto | auto]).
    assert (p <> pa) by (destruct Hp as [[π Hp] | Hp]; congruence).
    destruct (page_ok_disjoint p pa); auto; lia.
  - apply elem_of_supers in Hin. destruct (Hsu pa Hin) as [Hok _].
    pose proof (superpage_above pa Hok). specialize (Hb p Hp). lia.
Qed.

(** Changes that map and unmap nothing: free pages may become table pages. *)
Record evolve (root : Z) (s s' : phys) (O O' : owner) (l l' : list Z) : Prop := {
  ev_sub : forall p π, O !! p = Some π -> O' !! p = Some π;
  ev_pages : exists u, l ≡ₚ u ++ l' /\ forall p, is_Some (O' !! p) <-> is_Some (O !! p) \/ p ∈ u;
  ev_mem : forall x, (forall p, is_Some (O !! p) \/ p ∈ l -> x < p \/ p + PGSIZE <= x) ->
    (forall p, p ∈ super_free s -> x < p \/ p + SUPERPGSIZE <= x) -> mem s' x = mem s x;
  ev_super : super_free s' = super_free s;
  ev_lookup : forall va, 0 <= va < 2 ^ 39 ->
    pt_lookup 2 (mem s') root va = pt_lookup 2 (mem s) root va
}.

Lemma superpage_disjoint p q : superpage_ok p -> superpage_ok q -> p <> q ->
  p + SUPERPGSIZE <= q \/ q + SUPERPGSIZE <= p.
Proof. intros [Hp _] [Hq _] Hne. apply aligned_disjoint; auto. vm_compute. reflexivity. Qed.

(** Nor free superpages. *)
Lemma frames_disjoint_super s root O l fs lv pa x p :
  uvm s root O l -> frames_ok s O l fs -> (lv, pa) ∈ fs -> pa <= x < pa + tsize lv ->
  p ∈ super_free s -> x < p \/ p + SUPERPGSIZE <= x.
Proof.
  intros [_ (_ & _ & _ & Hok) _] (_ & _ & Hsm & Hsu) Hin Hx Hp.
  rewrite Forall_forall in Hok. specialize (Hok p Hp).
  destruct lv as [|lv]; cbn [tsize] in Hx.
  - apply elem_of_smalls in Hin. destruct (Hsm pa Hin) as (_ & Hb & _).
    pose proof (superpage_above p Hok). lia.
  - apply elem_of_supers in Hin. destruct (Hsu pa Hin) as [Hok' Hn].
    destruct (superpage_disjoint pa p); auto; [congruence | lia | lia].
Qed.

Lemma grown_evolve root s0 O0 l0 a0 perm data s s' O O' l l' a fs :
  0 <= a0 -> a <= MAXVA -> uvm s0 root O0 l0 ->
  grown root s0 O0 l0 a0 perm data s O l a fs -> uvm s' root O' l' ->
  evolve root s s' O O' l l' -> grown root s0 O0 l0 a0 perm data s' O' l' a fs.
Proof.
  intros Ha0 Ha Hu0 Hg Hu' [Esub (v & Hl & HO') Em Esf Elk].
  assert (HM : MAXVA = 2 ^ 38) by reflexivity.
  pose proof (grown_frames _ _ _ _ _ _ _ _ _ _ _ _ Hu0 Hg) as Hfr.
  destruct Hg as [Hu Hsub (u & Hl0 & HO) Hsf Hr Hlk Hpm Hz Hm].
  constructor; auto.
  - exists (u ++ v). split.
    + rewrite Hl0, Hl. rewrite !app_assoc. f_equiv. rewrite <- !app_assoc. f_equiv.
      apply Permutation_app_comm.
    + intros p. rewrite HO', HO, elem_of_app. tauto.
  - congruence.
  - eapply region_ext; [| exact Hr]. intros va Hva. apply Elk. lia.
  - intros va Hva Hn. rewrite Elk by auto. auto.
  - intros va Hva. rewrite Elk by lia. auto.
  - intros va w lw Hva Hw. rewrite Elk in Hw by lia.
    destruct (region_lookup _ _ _ _ _ va Hr ltac:(lia)) as (w' & lw' & Hw' & Hlw & Hin).
    rewrite Hw in Hw'. injection Hw' as <- <-.
    assert (Hx : PTE2PA w <= PTE2PA w + va mod tsize lw < PTE2PA w + tsize lw)
      by (pose proof (tsize_pos lw); pose proof (Z.mod_pos_bound va (tsize lw)); unfold PGSIZE in *; lia).
    rewrite Em; [eauto | |]; intros p Hp.
    + eapply (frames_disjoint s root O l fs lw (PTE2PA w)); eauto.
    + eapply (frames_disjoint_super s root O l fs lw (PTE2PA w)); eauto.
  - intros x Hx Hxs. rewrite Em; [auto | |].
    + intros p [Hp | Hp]; apply Hx.
      * apply HO in Hp as [|]; [auto |]. right. rewrite Hl0, elem_of_app. auto.
      * right. rewrite Hl0, !elem_of_app. auto.
    + intros p Hp. apply Hxs. rewrite Hsf, elem_of_app. auto.
Qed.

(** What a failed [uvmalloc] leaves: only table pages may have been added. *)
Record restored (root : Z) (s0 : phys) (O0 : owner) (l0 : list Z)
    (s : phys) (O : owner) (l : list Z) : Prop := {
  re_uvm : uvm s root O l;
  re_sub : forall p π, O0 !! p = Some π -> O !! p = Some π;
  re_pages : exists u, l0 ≡ₚ u ++ l /\ forall p, is_Some (O !! p) <-> is_Some (O0 !! p) \/ p ∈ u;
  re_super : super_free s ≡ₚ super_free s0;
  re_lookup : forall va, 0 <= va < 2 ^ 39 ->
    pt_lookup 2 (mem s) root va = pt_lookup 2 (mem s0) root va;
  re_mem : forall x, (forall p, is_Some (O0 !! p) \/ p ∈ l0 -> x < p \/ p + PGSIZE <= x) ->
    (forall p, p ∈ super_free s0 -> x < p \/ p + SUPERPGSIZE <= x) -> mem s x = mem s0 x
}.

(** Taking the mappings back. *)
Lemma grown_restored root s0 O0 l0 a0 perm data s O l a fs s' :
  uvm s0 root O0 l0 -> grown root s0 O0 l0 a0 perm data s O l a fs ->
  (forall va, a0 <= va < a -> pt_lookup 2 (mem s0) root va = None) ->
  uvm s' root O (rev (smalls fs) ++ l) -> super_free s' = super_free s ++ supers fs ->
  unmapped (mem s) (mem s') root a0 a ->
  (forall x, untouched O fs x -> mem s' x = mem s x) ->
  restored root s0 O0 l0 s' O (rev (smalls fs) ++ l).
Proof.
  intros Hu0 [Hu Hsub (u & Hl0 & HO) Hsf Hr Hlk Hpm Hz Hm] Hnone Hu' Es Hm' Hx'.
  constructor; auto.
  - exists u. split; [| auto]. rewrite Hl0. now rewrite <- Permutation_rev.
  - rewrite Es, Hsf. now rewrite <- Permutation_rev.
  - intros va Hva. rewrite Hm' by auto.
    destruct (Z.leb_spec a0 va), (Z.ltb_spec va a); cbn [andb];
      [symmetry; apply Hnone; lia | apply Hlk; lia ..].
  - intros x Hx Hxs. rewrite Hx'; [apply Hm; auto |]. split.
    + intros p Hp. apply Hx. apply HO in Hp as [|]; [auto |]. right. rewrite Hl0, elem_of_app. auto.
    + intros lv pa Hin. destruct lv as [|lv]; cbn [tsize].
      * apply Hx. right. apply elem_of_smalls in Hin. rewrite Hl0, !elem_of_app. auto.
      * apply Hxs. apply elem_of_supers in Hin. rewrite Hsf, elem_of_app, <- Permutation_rev. auto.
Qed.

Lemma grown_undo root s0 O0 l0 a0 perm data s O l a fs h :
  uvm s0 root O0 l0 -> grown root s0 O0 l0 a0 perm data s O l a fs ->
  kmem_lock ∉ h -> supermem_lock ∉ h ->
  0 <= a0 -> a0 mod PGSIZE = 0 -> a mod PGSIZE = 0 -> a <= MAXVA ->
  (forall va, a0 <= va < a -> pt_lookup 2 (mem s0) root va = None) ->
  (exists s' l', uvmdealloc root a a0 h s = Ret a0 h s' /\ restored root s0 O0 l0 s' O l') /\
  (exists s' l', uvmunmap root a0 ((a - a0) / PGSIZE) true h s = Ret tt h s' /\
     restored root s0 O0 l0 s' O l').
Proof.
  intros Hu0 Hg Hh Hh' Ha0 Hal0 Hal HaM Hnone. assert (HM : MAXVA = 2 ^ 38) by reflexivity.
  pose proof (grown_frames _ _ _ _ _ _ _ _ _ _ _ _ Hu0 Hg) as Hfr.
  pose proof (gr_uvm _ _ _ _ _ _ _ _ _ _ _ _ Hg) as Hu.
  pose proof (gr_region _ _ _ _ _ _ _ _ _ _ _ _ Hg) as Hr.
  pose proof (region_le _ _ _ _ _ Hr) as Hle. split.
  - destruct (uvmdealloc_run s h root O l a a0 fs) as (s' & E & Hu' & Es & Hm' & Hx'); auto.
    { rewrite !PGROUNDUP_aligned by (auto; unfold PGSIZE; lia). auto. }
    rewrite !PGROUNDUP_aligned in Hm' by (auto; unfold PGSIZE; lia).
    exists s', (rev (smalls fs) ++ l). split; [exact E |]. eapply grown_restored; eauto.
  - assert (En : a0 + (a - a0) / PGSIZE * PGSIZE = a) by (clear - Hal0 Hal; page_lia).
    destruct (uvmunmap_run s h root O l a0 ((a - a0) / PGSIZE) true fs)
      as (s' & E & Hu' & Es & Hm' & Hx'); auto.
    { apply Z.div_pos; [lia | reflexivity]. }
    { lia. }
    { now rewrite En. }
    rewrite En in Hm'. exists s', (rev (smalls fs) ++ l). split; [exact E |].
    eapply grown_restored; eauto.
Qed.

(** An address that [uvmalloc] and [uvmcopy] leave alone: outside the table,
    the free pages and the free superpages of [s0]. *)
Definition outside (s0 : phys) (O0 : owner) (l0 : list Z) (x : Z) : Prop :=
  (forall p, is_Some (O0 !! p) \/ p ∈ l0 -> x < p \/ p + PGSIZE <= x) /\
  (forall p, p ∈ super_free s0 -> x < p \/ p + SUPERPGSIZE <= x).

(** One more tile: the frame [(lv, pa)] was taken from a pool and filled
    (state [s2]), then mapped at [a] (state [s3]). *)
Lemma grown_add root s0 O0 l0 a0 perm data s O lc a fs s2 l s3 O3 l3 lv pa :
  uvm s0 root O0 l0 -> grown root s0 O0 l0 a0 perm data s O lc a fs ->
  0 <= a0 -> (lv <= 1)%nat -> a mod tsize lv = 0 -> a < MAXVA ->
  frame_ok pa -> pa mod tsize lv = 0 -> leaf_perm (perm a lv) -> (lv = 1%nat -> flag (mkpte pa (perm a lv)) PTE_R = true) ->
  lc ≡ₚ smalls [(lv, pa)] ++ l -> super_free s = super_free s2 ++ rev (supers [(lv, pa)]) ->
  (forall x, x < pa \/ pa + tsize lv <= x -> mem s2 x = mem s x) ->
  (forall off, 0 <= off < tsize lv -> mem s2 (pa + off) = data (a + off)) ->
  (forall x p, pa <= x < pa + tsize lv -> is_Some (O !! p) \/ p ∈ l -> x < p \/ p + PGSIZE <= x) ->
  uvm s3 root O3 l3 -> ext s2 s3 O O3 l l3 -> super_free s3 = super_free s2 ->
  (forall va, 0 <= va < 2 ^ 39 -> pt_lookup 2 (mem s3) root va =
     if (a <=? va) && (va <? a + tsize lv) then Some (mkpte pa (perm a lv), lv)
     else pt_lookup 2 (mem s) root va) ->
  (forall va, a <= va < a + tsize lv -> perm va lv = perm a lv) ->
  grown root s0 O0 l0 a0 perm data s3 O3 l3 (a + tsize lv) (fs ++ [(lv, pa)]).
Proof.
  assert (HM : MAXVA = 2 ^ 38) by reflexivity.
  intros Hu0 Hg Ha0 Hlv Hal HaM Hpa Hpal Hlp HR Hlc Hsf2 Hm2 Hdt Hd Hu3 Hx3 Hsf3 Hlk3 Hpc.
  pose proof (grown_frames _ _ _ _ _ _ _ _ _ _ _ _ Hu0 Hg) as Hfr.
  destruct Hg as [Hu Hsub (u & Hl0 & HO) Hsf Hr Hlk Hpm Hz Hm].
  destruct Hx3 as [Hsub3 (v & -> & HO3) Hmem3 _].
  pose proof (region_le _ _ _ _ _ Hr) as Hle. pose proof (tsize_pos lv) as Ht. unfold PGSIZE in Ht.
  assert (Hlk' : forall va, a0 <= va < a -> pt_lookup 2 (mem s3) root va = pt_lookup 2 (mem s) root va).
  { intros va Hva. rewrite Hlk3 by lia. bool_cases; try reflexivity. lia. }
  assert (Htop : a + tsize lv <= MAXVA).
  { assert (MAXVA mod tsize lv = 0) by (destruct lv; reflexivity).
    destruct (aligned_disjoint (tsize lv) a MAXVA); auto; lia. }
  assert (Hat : forall va, a <= va < a + tsize lv ->
            pt_lookup 2 (mem s3) root va = Some (mkpte pa (perm a lv), lv)).
  { intros va Hva. rewrite Hlk3 by lia. bool_cases; try reflexivity; lia. }
  assert (Hold : forall lv' pa' x, (lv', pa') ∈ fs -> pa' <= x < pa' + tsize lv' -> mem s3 x = mem s x).
  { intros lv' pa' x Hin Hx. rewrite Hmem3, Hm2; [reflexivity | |].
    - destruct lv as [|lv]; cbn [smalls supers flat_map app rev] in *.
      + eapply (frames_disjoint s root O lc fs lv' pa' x pa); eauto. right. rewrite Hlc. left.
      + eapply (frames_disjoint_super s root O lc fs lv' pa' x pa); eauto.
        rewrite Hsf2. apply elem_of_app. right. left.
    - intros p Hp. eapply (frames_disjoint s root O lc fs lv' pa' x p); eauto.
      destruct Hp as [Hp | Hp]; [auto |]. right. rewrite Hlc. apply elem_of_app. auto. }
  assert (Hpte : PTE2PA (mkpte pa (perm a lv)) = pa)
    by (apply PTE2PA_mkpte; [apply Hpa | apply Hpa | apply Hlp]).
  constructor; auto.
  - exists (u ++ v). split.
    + rewrite Hl0, Hlc, smalls_app. solve_Permutation.
    + intros p. rewrite HO3, HO, elem_of_app. tauto.
  - rewrite Hsf, Hsf2, Hsf3, supers_app, rev_app_distr. now rewrite app_assoc.
  - apply (region_app _ _ _ a).
    + eapply region_ext; [| exact Hr]. exact Hlk'.
    + rewrite <- Hpte at 1. econstructor; eauto; [apply Hat; lia | constructor].
  - intros va Hva Hn. rewrite Hlk3 by auto.
    destruct (Z.leb_spec a va), (Z.ltb_spec va (a + tsize lv)); cbn [andb]; try lia; apply Hlk; lia.
  - intros va Hva. destruct (Z.lt_ge_cases va a) as [Hlt | Hge].
    + rewrite Hlk' by lia. apply Hpm. lia.
    + exists pa, lv. rewrite Hpc by lia. split_and!; auto; apply Hpa || (apply Hat; lia).
  - intros va w lw Hva Hw. destruct (Z.lt_ge_cases va a) as [Hlt | Hge].
    + rewrite Hlk' in Hw by lia. rewrite <- (Hz va w lw) by (auto; lia).
      destruct (region_lookup _ _ _ _ _ va Hr ltac:(lia)) as (w' & lw' & Hw' & Hlw & Hin).
      rewrite Hw in Hw'. injection Hw' as <- <-. eapply Hold; eauto.
      pose proof (Z.mod_pos_bound va (tsize lw)). pose proof (tsize_pos lw). unfold PGSIZE in *. lia.
    + rewrite Hat in Hw by lia. injection Hw as <- <-. rewrite Hpte.
      assert (Eoff : va mod tsize lv = va - a).
      { replace va with (a + (va - a)) at 1 by lia. rewrite mod_add_aligned by (auto; lia).
        apply Z.mod_small. lia. }
      rewrite Eoff, Hmem3; [rewrite Hdt by lia; f_equal; lia |].
      intros p Hp. apply (Hd _ p); auto. lia.
  - intros x Hx Hxs. rewrite Hmem3, Hm2; [auto | |].
    + destruct lv as [|lv]; cbn [smalls supers flat_map app rev tsize] in *.
      * apply Hx. right. rewrite Hl0, Hlc, !elem_of_app. right. right. left.
      * apply Hxs. rewrite Hsf, Hsf2, !elem_of_app. left. right. left.
    + intros p [Hp | Hp]; apply Hx.
      * apply HO in Hp as [|]; [auto |]. right. rewrite Hl0, elem_of_app. auto.
      * right. rewrite Hl0, Hlc, !elem_of_app. rewrite elem_of_app in Hp. tauto.
Qed.


(** ** The two steps of growing an address space *)

Section steps.
Context (h : locks) (root : Z) (s0 : phys) (O0 : owner) (l0 : list Z) (a0 : Z).
Context (perm : Z -> nat -> Z) (data : Z -> Z).
Context (Hh : kmem_lock ∉ h) (Hh' : supermem_lock ∉ h).
Context (Hu0 : uvm s0 root O0 l0) (Ha0 : 0 <= a0).

(** [fill] writes the frame only, and leaves [data] there. *)
Definition fills (lv : nat) (a : Z) (fill : Z -> memory -> memory) : Prop :=
  (forall c m x, x < c \/ c + tsize lv <= x -> fill c m x = m x) /\
  (forall c m off, (forall x, outside s0 O0 l0 x -> m x = mem s0 x) -> 0 <= off < tsize lv ->
     fill c m (c + off) = data (a + off)).

(** Take a page, fill it and map it at [a]; [fail] follows a failure, after
    which nothing more is mapped than before and no page is free but the one that
    was to be mapped. *)
Lemma add_small {A} s O l a fs fill (fail K : M phys A) :
  grown root s0 O0 l0 a0 perm data s O l a fs -> new_tables O0 O 2 a0 a ->
  a mod PGSIZE = 0 -> a < MAXVA -> leaf_perm (perm a 0) ->
  (forall va, a <= va < a + PGSIZE -> perm va 0%nat = perm a 0%nat) ->
  pt_lookup 2 (mem s) root a = None -> fills 0 a fill ->
  let body :=
    (pg <- kalloc;;
     if pg =? 0 then fail
     else
       modify (set_mem (fill pg));;
       r <- mappages root a PGSIZE pg (perm a 0%nat);;
       if negb (r =? 0) then kfree pg;; fail else K) in
  (exists s' O' l', body h s = fail h s' /\ grown root s0 O0 l0 a0 perm data s' O' l' a fs /\ (length l' <= 1)%nat) \/
  (exists s' O' l' fs', body h s = K h s' /\ new_tables O0 O' 2 a0 (a + PGSIZE) /\
     grown root s0 O0 l0 a0 perm data s' O' l' (a + PGSIZE) (fs ++ fs') /\ length fs' = 1%nat).
Proof using All.
  intros Hg Hnt Hal Ha Hlp Hpc Hnone [Hfill Hdata] body. subst body.
  assert (HM : MAXVA = 2 ^ 38) by reflexivity.
  pose proof (region_le _ _ _ _ _ (gr_region _ _ _ _ _ _ _ _ _ _ _ _ Hg)) as Hle.
  pose proof (gr_uvm _ _ _ _ _ _ _ _ _ _ _ _ Hg) as Hu.
  assert (HaP : a + PGSIZE <= MAXVA) by (rewrite HM in *; clear - Hal Ha; page_lia).
  destruct l as [|c l].
  { left. exists s, O, [].
    rewrite (bind_Ret _ _ _ _ _ _ _ (kalloc_empty h s (proj1 (proj2 (uvm_vm _ _ _ _ Hu))) Hh)). split_and!; auto. }
  destruct (uvm_kalloc s h root O c l Hu Hh)
    as (s1 & E1 & Hu1 & Hsf1 & Hm1 & Hlk1 & Hc0 & Hok & Hcl & HcO).
  rewrite (bind_Ret _ _ _ _ _ _ _ E1), (proj2 (Z.eqb_neq c 0)) by auto. krun.
  assert (Hfr : frame_ok c).
  { destruct Hok as [Hc1 Hc2]. pose proof (page_ok_pos c (conj Hc1 Hc2)). split; [| auto].
    assert (PHYSTOP < 2 ^ 56) by (vm_compute; reflexivity). lia. }
  assert (Hcb : c + PGSIZE <= pool_base) by (apply (uvm_below _ _ _ _ Hu); right; left).
  assert (Hpb : pool_base < 2 ^ 56) by (vm_compute; reflexivity).
  assert (Hdis : forall x p, c <= x < c + PGSIZE -> is_Some (O !! p) \/ p ∈ l -> x < p \/ p + PGSIZE <= x).
  { intros x p Hx Hp. destruct (uvm_vm _ _ _ _ Hu1) as (Hwf2 & (_ & _ & Hokl) & _).
    rewrite Forall_forall in Hokl.
    assert (page_ok p) by (destruct Hp as [[π Hp] | Hp]; [eapply pt_page; eauto | auto]).
    assert (p <> c) by (destruct Hp as [[π Hp] | Hp]; congruence).
    destruct (page_ok_disjoint p c); auto; lia. }
  destruct (uvm_fill s1 root O l 0 c (fill c) Hu1 Hdis) as [Hu2 Hlk2]; [apply Hfill |].
  set (s2 := set_mem (fill c) s1) in *.
  assert (Hlk : forall va, pt_lookup 2 (mem s2) root va = pt_lookup 2 (mem s) root va)
    by (intros va; etransitivity; [apply Hlk2 | apply Hlk1]).
  assert (Hm2 : forall x, x < c \/ c + PGSIZE <= x -> mem s2 x = mem s x).
  { intros x Hx. cbn. rewrite Hfill by auto. apply Hm1. intros p Hp.
    apply list_elem_of_singleton in Hp as ->. auto. }
  assert (Hc0' : c ∈ l0).
  { destruct (gr_pages _ _ _ _ _ _ _ _ _ _ _ _ Hg) as (u & -> & _). rewrite !elem_of_app.
    right. right. left. }
  pose proof (mappages_run s2 h root O l a 1 c (perm a 0%nat) (uvm_vm _ _ _ _ Hu2) Hh Hlp
    ltac:(lia) ltac:(lia) Hal ltac:(lia) ltac:(apply Hfr) (proj2 Hfr)
    ltac:(unfold PGSIZE in *; lia)) as Ho. rewrite Z.mul_1_l in Ho.
  remember (mappages root a PGSIZE c (perm a 0%nat) h s2) as res eqn:Eres. symmetry in Eres.
  destruct Ho as [s3 O3 l3 Hv3 Hx3 _ Hm3 Hnt3 | s3 O3 j Hv3 Hx3 Hj _ Hm3 Hnt3 | va' Hva' Hf].
  - right. rewrite (bind_Ret _ _ _ _ _ _ _ Eres). cbn [Z.eqb negb].
    destruct (uvm_ext _ _ _ _ _ _ _ Hu2 Hv3 Hx3) as [Hu3 Hsf3].
    exists s3, O3, l3, [(0%nat, c)]. split_and!; [reflexivity | | | reflexivity].
    + apply (new_tables_trans _ O); [eapply new_tables_mono; [| | | exact Hnt] |
        eapply new_tables_mono; [| | | exact Hnt3]]; unfold PGSIZE in *; lia.
    + eapply (grown_add root s0 O0 l0 a0 perm data s O (c :: l) a fs s2 l s3 O3 l3 0 c);
        eauto; try lia; cbn [tsize smalls supers flat_map app rev].
      * apply Hfr.
      * now rewrite app_nil_r.
      * intros off Hoff. apply Hdata; [| auto]. intros x [Hx Hxs].
        rewrite Hm1; [now apply (gr_mem _ _ _ _ _ _ _ _ _ _ _ _ Hg) |].
        intros p Hp. apply list_elem_of_singleton in Hp as ->. auto.
      * intros va Hva. rewrite Hm3, Hlk, Z.mul_1_l by auto.
        destruct ((a <=? va) && (va <? a + PGSIZE)) eqn:Er; [| reflexivity].
        apply andb_prop in Er as [Er1 Er2]. apply Z.leb_le in Er1. apply Z.ltb_lt in Er2.
        rewrite PGROUNDDOWN_eq. do 3 f_equal. clear - Er1 Er2 Hal. page_lia.
  - left. rewrite (bind_Ret _ _ _ _ _ _ _ Eres). change (negb (-1 =? 0)) with true. cbv iota.
    destruct (uvm_ext _ _ _ _ _ _ _ Hu2 Hv3 Hx3) as [Hu3 Hsf3].
    assert (HcO3 : O3 !! c = None).
    { destruct (O3 !! c) eqn:Ec; [| reflexivity]. exfalso.
      destruct (ext_pages _ _ _ _ _ _ Hx3) as (u & -> & Hp3).
      assert (Hin : is_Some (O3 !! c)) by eauto. apply Hp3 in Hin as [[? Hin] | Hin]; [congruence |].
      apply Hcl, elem_of_app. auto. }
    destruct (uvm_kfree s3 h root O3 [] c Hu3 Hh Hok Hcb (not_elem_of_nil _) HcO3)
      as (s4 & E4 & Hu4 & Hsf4 & Hm4 & Hlk4).
    rewrite (bind_Ret _ _ _ _ _ _ _ E4). exists s4, O3, [c]. split; [reflexivity |]. split; [| auto].
    eapply (grown_evolve root s0 O0 l0 a0 perm data s s4 O O3 (c :: l) [c]); eauto; [lia |].
    destruct Hx3 as [Hsub3 (u & Hl3 & Hp3) Hmem3 _]. rewrite app_nil_r in Hl3. subst u.
    constructor; auto.
    + exists l. split; [apply (Permutation_app_comm [c] l) | auto].
    + intros x Hx _. pose proof (Hx c ltac:(right; left)) as Hxc.
      rewrite Hm4, Hmem3, Hm2; auto.
      * intros p [Hp | Hp]; apply Hx; [auto | right; now right].
      * intros p Hp. apply list_elem_of_singleton in Hp as ->. auto.
    + rewrite Hsf4, Hsf3. exact Hsf1.
    + intros va Hva. rewrite Hlk4, Hm3 by auto. replace j with 0 by lia.
      rewrite Hlk. bool_cases; try reflexivity. lia.
  - exfalso. apply Hf. rewrite Hlk, <- Hnone. apply lookup_page.
    clear - Hva' Hal. page_lia.
Qed.

(** A level-1 entry in use under an unmapped superpage is a left-over table. *)
Lemma leftover_table s s' O O' l' p a :
  vm_inv s' root O' l' -> a0 <= a -> a < MAXVA -> a mod SUPERPGSIZE = 0 ->
  new_tables O0 O 2 a0 a -> new_tables O O' 1 a (a + 1) ->
  pt_lookup 2 (mem s) root a = None ->
  (forall va, pt_lookup 2 (mem s') root va = pt_lookup 2 (mem s) root va) ->
  O' !! p = Some (take 1 (path a)) -> valid (pte_at (mem s') p (PX 1 a)) = true ->
  exists c, O0 !! c = Some (take 2 (path a)).
Proof using Ha0.
  clear Hh Hh' Hu0.
  intros (Hwf & _) Ha HaM Hal Hnt Hnt' Hnone Hlk Hp Hv.
  assert (HM : MAXVA < 2 ^ 39) by (vm_compute; reflexivity).
  destruct (leaf (pte_at (mem s') p (PX 1 a))) eqn:El.
  { exfalso. rewrite <- Hlk, (lookup_super _ _ _ _ _ Hwf Hp), Hv in Hnone; [discriminate |].
    now intros _. }
  pose proof (pt_child _ _ _ Hwf _ _ _ Hp (PX_range 1 a ltac:(lia)) Hv El) as Hc.
  change (take 1 (path a) ++ [PX 1 a]) with (take 2 (path a)) in Hc.
  set (c := PTE2PA (pte_at (mem s') p (PX 1 a))) in *. exists c.
  assert (Hlen : forall va k, take 2 (path a) = take k (path va) -> (k <= 2)%nat -> k = 2%nat).
  { intros va k E Hk. apply (f_equal length) in E. rewrite !length_take in E. cbn in E. lia. }
  destruct (Hnt' c _ Hc) as [Hc' | (va & k & _ & Hk & E)].
  2: { apply Hlen in E; lia. }
  destruct (Hnt c _ Hc') as [| (va & k & Hva & Hk & E)]; [auto |]. exfalso.
  assert (k = 2%nat) as -> by (eapply Hlen; eauto).
  apply path2_eq in E; try lia. symmetry in E. apply same_superpage in E; auto. lia.
Qed.

(** Take a superpage, fill it and map it at [a]. *)
Lemma add_super {A} s O l a fs fill (fail K : M phys A) :
  grown root s0 O0 l0 a0 perm data s O l a fs -> new_tables O0 O 2 a0 a ->
  a mod SUPERPGSIZE = 0 -> a < MAXVA -> leaf_perm (perm a 1) -> flag (perm a 1) PTE_R = true ->
  (forall va, a <= va < a + SUPERPGSIZE -> perm va 1%nat = perm a 1%nat) ->
  pt_lookup 2 (mem s) root a = None -> fills 1 a fill ->
  let body :=
    (pg <- superalloc;;
     if pg =? 0 then fail
     else
       modify (set_mem (fill pg));;
       r <- supermappages root a pg (perm a 1%nat);;
       if negb (r =? 0) then superfree pg;; fail else K) in
  (exists s' O' l', body h s = fail h s' /\ grown root s0 O0 l0 a0 perm data s' O' l' a fs /\ (l' = [] \/ super_free s' = [])) \/
  (exists s' O' l' fs', body h s = K h s' /\ new_tables O0 O' 2 a0 (a + SUPERPGSIZE) /\
     grown root s0 O0 l0 a0 perm data s' O' l' (a + SUPERPGSIZE) (fs ++ fs') /\ length fs' = 1%nat) \/
  (body h s = Panic "supermappages: remap" /\ exists c, O0 !! c = Some (take 2 (path a))).
Proof using All.
  intros Hg Hnt Hal Ha Hlp HR Hpc Hnone [Hfill Hdata] body. subst body.
  assert (HM : MAXVA = 2 ^ 38) by reflexivity.
  assert (HS : SUPERPGSIZE = 2097152) by reflexivity.
  pose proof (region_le _ _ _ _ _ (gr_region _ _ _ _ _ _ _ _ _ _ _ _ Hg)) as Hle.
  pose proof (gr_uvm _ _ _ _ _ _ _ _ _ _ _ _ Hg) as Hu.
  destruct (list_snoc_inv (super_free s)) as [Ef | (sl & q & Ef)].
  { left. exists s, O, l.
    rewrite (bind_Ret _ _ _ _ _ _ _ (superalloc_empty h s (uvm_super _ _ _ _ Hu) Ef Hh')). split_and!; auto. }
  destruct (uvm_superalloc s h root O l q sl Hu Hh' Ef)
    as (s1 & E1 & Hu1 & Hsf1 & Hm1 & Hlk1 & Hq0 & Hok & Hqn).
  rewrite (bind_Ret _ _ _ _ _ _ _ E1), (proj2 (Z.eqb_neq q 0)) by auto. krun.
  pose proof (superpage_above q Hok) as Hqb.
  assert (Hfr : frame_ok q).
  { destruct Hok as [Hq1 Hq2]. assert (PHYSTOP < 2 ^ 56) by (vm_compute; reflexivity).
    assert (0 < pool_base) by (vm_compute; reflexivity). split; [lia |]. clear - Hq1. super_lia. }
  assert (Hdis : forall x p, q <= x < q + SUPERPGSIZE -> is_Some (O !! p) \/ p ∈ l -> x < p \/ p + PGSIZE <= x).
  { intros x p Hx Hp. specialize (uvm_below _ _ _ _ Hu p Hp). lia. }
  destruct (uvm_fill s1 root O l 1 q (fill q) Hu1 Hdis) as [Hu2 Hlk2]; [apply Hfill |].
  set (s2 := set_mem (fill q) s1) in *.
  assert (Hlk : forall va, pt_lookup 2 (mem s2) root va = pt_lookup 2 (mem s) root va)
    by (intros va; etransitivity; [apply Hlk2 | apply Hlk1]).
  assert (Hm2 : forall x, x < q \/ q + SUPERPGSIZE <= x -> mem s2 x = mem s x).
  { intros x Hx. cbn. rewrite Hfill by auto. auto. }
  pose proof (supermappages_run s2 h root O l a q (perm a 1%nat) (uvm_vm _ _ _ _ Hu2) Hh Hlp
    ltac:(lia) Hal Ha Hfr) as Ho.
  remember (supermappages root a q (perm a 1%nat) h s2) as res eqn:Eres. symmetry in Eres.
  destruct Ho as [s3 O3 l3 Hv3 Hx3 _ Hm3 Hnt3 | s3 O3 Hv3 Hx3 Hlk3 Hnt3
                 | s3 O3 l3 p Hv3 Hx3 Hlk3 Hnt3 Hp Hv].
  - right. left. rewrite (bind_Ret _ _ _ _ _ _ _ Eres). cbn [Z.eqb negb].
    destruct (uvm_ext _ _ _ _ _ _ _ Hu2 Hv3 Hx3) as [Hu3 Hsf3].
    exists s3, O3, l3, [(1%nat, q)]. split_and!; [reflexivity | | | reflexivity].
    + apply (new_tables_trans _ O); [eapply new_tables_mono; [| | | exact Hnt] |
        eapply new_tables_mono; [| | | exact Hnt3]]; lia.
    + eapply (grown_add root s0 O0 l0 a0 perm data s O l a fs s2 l s3 O3 l3 1 q);
        eauto; try lia; cbn [tsize smalls supers flat_map app rev].
      * apply Hok.
      * intros _. unfold flag in *. rewrite mkpte_land
          by first [apply Hfr | apply Hlp | split; vm_compute; congruence].
        rewrite Z.land_lor_distr_l. change (Z.land PTE_V PTE_R) with 0. now rewrite Z.lor_0_r.
      * rewrite Ef. unfold super_free in *. cbn. congruence.
      * intros off Hoff. apply Hdata; [| auto]. intros x [Hx Hxs].
        rewrite Hm1; [now apply (gr_mem _ _ _ _ _ _ _ _ _ _ _ _ Hg) |].
        apply Hxs. rewrite (gr_super _ _ _ _ _ _ _ _ _ _ _ _ Hg), Ef, !elem_of_app. left. right. left.
      * intros va Hva. now rewrite Hm3, Hlk by auto.
  - left. rewrite (bind_Ret _ _ _ _ _ _ _ Eres). change (negb (-1 =? 0)) with true. cbv iota.
    destruct (uvm_ext _ _ _ _ _ _ _ Hu2 Hv3 Hx3) as [Hu3 Hsf3].
    assert (Hsf3' : super_free s3 = sl) by (rewrite Hsf3; exact Hsf1).
    destruct (uvm_superfree s3 h root O3 [] q Hu3 Hh' Hok ltac:(congruence))
      as (s4 & E4 & Hu4 & Hsf4 & Hm4 & Hlk4).
    rewrite (bind_Ret _ _ _ _ _ _ _ E4). exists s4, O3, []. split; [reflexivity |]. split; [| auto].
    eapply (grown_evolve root s0 O0 l0 a0 perm data s s4 O O3 l []); eauto; [lia |].
    destruct Hx3 as [Hsub3 (u & Hl3 & Hp3) Hmem3 _].
    constructor; auto.
    + exists u. split; [now rewrite <- Hl3 | auto].
    + intros x Hx Hxs.
      assert (Hxq : x < q \/ q + SUPERPGSIZE <= x)
        by (apply Hxs; rewrite Ef; apply elem_of_app; right; left).
      now rewrite Hm4, Hmem3, Hm2.
    + congruence.
    + intros va Hva. now rewrite Hlk4, Hlk3, Hlk.
  - right. right. unfold bind at 1. rewrite Eres. cbn [obind]. split; [reflexivity |].
    eapply (leftover_table s2 s3 O O3 l3 p a); eauto. now rewrite Hlk.
Qed.

End steps.

End alloc.

(** ** Growing an address space: [uvmalloc], and copying one: [uvmcopy] *)

Lemma uperm_range lv xperm : 0 <= xperm < 1024 -> leaf_perm (uperm lv xperm).
Proof.
  intros Hx. destruct lv; (split; [apply lor_flags_range; [split; vm_compute; congruence | auto] |]);
    unfold uperm; rewrite !leaf_lor; reflexivity.
Qed.

Lemma flag_lor_l a b f : flag a f = true -> flag (Z.lor a b) f = true.
Proof.
  unfold flag. rewrite Z.land_lor_distr_l. intros Hf.
  apply negb_true_iff, Z.eqb_neq in Hf. apply negb_true_iff, Z.eqb_neq.
  intros E. apply Z.lor_eq_0_iff in E. tauto.
Qed.

Lemma uperm_R lv xperm : flag (uperm lv xperm) PTE_R = true.
Proof. destruct lv; now apply flag_lor_l. Qed.

Lemma uperm_ok lv xperm : 0 <= xperm < 1024 -> perm_ok (uperm lv xperm).
Proof. intros Hx. split; [now apply uperm_range | intros _; apply uperm_R]. Qed.

Section uvmalloc.
Context `{LayoutOk}.

(** [memset(mem, 0, sz)] as a way to fill a frame. *)
Lemma fills_zero s0 O0 l0 lv a :
  fills s0 O0 l0 (fun _ => 0) lv a (fun c m => memset m c 0 (tsize lv)).
Proof.
  split.
  - intros c m x Hx. now apply memset_out.
  - intros c m off _ Hoff. rewrite memset_in by lia. reflexivity.
Qed.

(** Memory runs out at an address below [newsz]: at most one page is left, or no
    superpage although one is needed. *)
Definition ran_out (root : Z) (s0 : phys) (O0 : owner) (l0 : list Z) (a0 newsz xperm : Z) : Prop :=
  exists s O l a fs, grown root s0 O0 l0 a0 (fun _ lv => uperm lv xperm) (fun _ => 0) s O l a fs /\ a < newsz /\
    ((length l <= 1)%nat \/ super_free s = [] /\ a mod SUPERPGSIZE = 0 /\ a + SUPERPGSIZE <= newsz).

(** How [uvmalloc] ends when the range to grow into is unmapped: all of it
    mapped to zeroed frames; out of memory with everything given back; or a
    panic, because a superpage's range still has a level-0 table. *)
Inductive uvmalloc_outcome (h : locks) (root : Z) (s0 : phys) (O0 : owner) (l0 : list Z)
    (a0 newsz xperm : Z) : outcome phys Z -> Prop :=
| uvmalloc_done s O l b fs :
    grown root s0 O0 l0 a0 (fun _ lv => uperm lv xperm) (fun _ => 0) s O l b fs ->
    newsz <= b < newsz + PGSIZE ->
    uvmalloc_outcome h root s0 O0 l0 a0 newsz xperm (Ret newsz h s)
| uvmalloc_nomem s O l :
    restored root s0 O0 l0 s O l -> ran_out root s0 O0 l0 a0 newsz xperm ->
    uvmalloc_outcome h root s0 O0 l0 a0 newsz xperm (Ret 0 h s)
| uvmalloc_panic a p :
    a0 <= a -> a mod SUPERPGSIZE = 0 -> a + SUPERPGSIZE <= newsz ->
    O0 !! p = Some (take 2 (path a)) ->
    uvmalloc_outcome h root s0 O0 l0 a0 newsz xperm (Panic "supermappages: remap").

Section loop.
Context (h : locks) (root : Z) (s0 : phys) (O0 : owner) (l0 : list Z) (a0 newsz xperm : Z).
Context (Hh : kmem_lock ∉ h) (Hh' : supermem_lock ∉ h).
Context (Hu0 : uvm s0 root O0 l0) (Ha0 : 0 <= a0) (Hal0 : a0 mod PGSIZE = 0).
Context (Hnew : 0 <= newsz <= MAXVA) (Hxp : 0 <= xperm < 1024).
Context (Hnone : forall va, a0 <= va < PGROUNDUP newsz -> pt_lookup 2 (mem s0) root va = None).

Abbreviation reached := (grown root s0 O0 l0 a0 (fun _ lv => uperm lv xperm) (fun _ => 0)).

(** Continue with what a computation was shown to equal. *)
#[local] Ltac via E := refine (eq_ind_r (uvmalloc_outcome h root s0 O0 l0 a0 newsz xperm) _ E).

(** The failure path: [uvmdealloc(pagetable, a, oldsz); return 0;] *)
Lemma uvmalloc_fail s O l a fs :
  reached s O l a fs -> a mod PGSIZE = 0 -> a < newsz ->
  (length l <= 1)%nat \/ super_free s = [] /\ a mod SUPERPGSIZE = 0 /\ a + SUPERPGSIZE <= newsz ->
  uvmalloc_outcome h root s0 O0 l0 a0 newsz xperm
    ((_ <- uvmdealloc root a a0;; ret 0) h s).
Proof using All.
  intros Hg Hal Ha Hout. assert (HM : MAXVA = 2 ^ 38) by reflexivity.
  pose proof (region_le _ _ _ _ _ (gr_region _ _ _ _ _ _ _ _ _ _ _ _ Hg)).
  destruct (PGROUNDUP_spec newsz) as [_ Hr]; [unfold PGSIZE; lia |].
  destruct (grown_undo _ _ _ _ _ _ _ _ _ _ _ _ h Hu0 Hg Hh Hh' Ha0 Hal0 Hal ltac:(lia))
    as [(s' & l' & E & Hre) _].
  { intros va Hva. apply Hnone. lia. }
  rewrite (bind_Ret _ _ _ _ _ _ _ E). apply (uvmalloc_nomem _ _ _ _ _ _ _ _ s' O l'); [exact Hre |]. now exists s, O, l, a, fs.
Qed.

(** What is above [a] is not mapped. *)
Lemma reached_none s O l a fs :
  reached s O l a fs -> a < newsz -> pt_lookup 2 (mem s) root a = None.
Proof using Ha0 Hnew Hnone.
  intros Hg Ha. assert (HM : MAXVA = 2 ^ 38) by reflexivity.
  pose proof (region_le _ _ _ _ _ (gr_region _ _ _ _ _ _ _ _ _ _ _ _ Hg)).
  destruct (PGROUNDUP_spec newsz) as [_ Hr]; [unfold PGSIZE; lia |].
  rewrite (gr_lookup _ _ _ _ _ _ _ _ _ _ _ _ Hg) by lia. apply Hnone. lia.
Qed.

Lemma uvmalloc_loop_spec fuel : forall s O l a fs,
  reached s O l a fs -> new_tables O0 O 2 a0 a ->
  a mod PGSIZE = 0 -> a < newsz + PGSIZE -> newsz - a <= Z.of_nat fuel * PGSIZE ->
  uvmalloc_outcome h root s0 O0 l0 a0 newsz xperm
    (uvmalloc_loop fuel root a a0 newsz xperm h s).
Proof using All.
  assert (HM : MAXVA = 2 ^ 38) by reflexivity.
  assert (HS : SUPERPGSIZE = 2097152) by reflexivity.
  induction fuel as [|fuel IH]; intros s O l a fs Hg Hnt Hal Hhi Hfuel; cbn [uvmalloc_loop].
  - rewrite (proj2 (Z.ltb_ge a newsz)) by lia. apply (uvmalloc_done _ _ _ _ _ _ _ _ s O l a fs); auto. lia.
  - destruct (Z.ltb_spec a newsz) as [Ha | Ha]; cbn [negb].
    2: { apply (uvmalloc_done _ _ _ _ _ _ _ _ s O l a fs); auto. }
    pose proof (region_le _ _ _ _ _ (gr_region _ _ _ _ _ _ _ _ _ _ _ _ Hg)) as Hle.
    pose proof (reached_none s O l a fs Hg Ha) as Hna.
    rewrite (u64_small (newsz - a)) by lia.
    destruct ((a mod SUPERPGSIZE =? 0) && (SUPERPGSIZE <=? newsz - a)) eqn:Eb.
    + apply andb_prop in Eb as [Eb1 Eb2]. apply Z.eqb_eq in Eb1. apply Z.leb_le in Eb2.
      rewrite (u64_small (a + SUPERPGSIZE)) by lia.
      destruct (add_super h root s0 O0 l0 a0 _ _ Hh Hh' Hu0 Ha0 s O l a fs
        (fun c m => memset m c 0 (tsize 1)) (_ <- uvmdealloc root a a0;; ret 0)
        (uvmalloc_loop fuel root (a + SUPERPGSIZE) a0 newsz xperm) Hg Hnt Eb1 ltac:(lia)
        (uperm_range 1 xperm Hxp) (uperm_R 1 xperm) ltac:(auto) Hna (fills_zero _ _ _ 1 a))
        as [(s' & O' & l' & E & Hg' & Hout) | [(s' & O' & l' & fs' & E & Hnt' & Hg' & _) | [E (c & Hc)]]].
      * via E. eapply uvmalloc_fail; eauto. destruct Hout as [-> | Hout]; [left; cbn; lia | right; split_and!; auto; lia].
      * via E. eapply IH; eauto; [clear - Hal; super_lia | unfold PGSIZE in *; lia ..].
      * via E. apply (uvmalloc_panic _ _ _ _ _ _ _ _ a c); auto. lia.
    + rewrite (u64_small (a + PGSIZE)) by (unfold PGSIZE in *; lia).
      destruct (add_small h root s0 O0 l0 a0 _ _ Hh Hh' Hu0 Ha0 s O l a fs
        (fun c m => memset m c 0 (tsize 0)) (_ <- uvmdealloc root a a0;; ret 0)
        (uvmalloc_loop fuel root (a + PGSIZE) a0 newsz xperm) Hg Hnt Hal ltac:(lia)
        (uperm_range 0 xperm Hxp) ltac:(auto) Hna (fills_zero _ _ _ 0 a))
        as [(s' & O' & l' & E & Hg' & Hout) | (s' & O' & l' & fs' & E & Hnt' & Hg' & _)].
      * via E. eapply uvmalloc_fail; eauto.
      * via E. eapply IH; eauto; [clear - Hal; page_lia | unfold PGSIZE in *; lia ..].
Qed.

End loop.

(** [uvmalloc] from [oldsz] to [newsz]. *)
Lemma uvmalloc_run h root s0 O0 l0 oldsz newsz xperm :
  kmem_lock ∉ h -> supermem_lock ∉ h -> uvm s0 root O0 l0 ->
  0 <= oldsz <= newsz -> newsz <= MAXVA -> 0 <= xperm < 1024 ->
  (forall va, PGROUNDUP oldsz <= va < PGROUNDUP newsz -> pt_lookup 2 (mem s0) root va = None) ->
  uvmalloc_outcome h root s0 O0 l0 (PGROUNDUP oldsz) newsz xperm
    (uvmalloc root oldsz newsz xperm h s0).
Proof.
  intros Hh Hh' Hu Ho Hn Hx Hnone. assert (HM : MAXVA = 2 ^ 38) by reflexivity.
  destruct (PGROUNDUP_spec oldsz) as [Hal Hr]; [unfold PGSIZE; lia |].
  unfold uvmalloc. rewrite (proj2 (Z.ltb_ge newsz oldsz)) by lia.
  eapply uvmalloc_loop_spec; eauto using grown_refl, new_tables_refl; try lia.
  clear - Hr. unfold PGSIZE in *. Z.div_mod_to_equations. lia.
Qed.

End uvmalloc.
