(* ===== verification/VmCopy.v ===== *)
(** * Copying an address space: [uvmcopy]

    The child gets frames of its own with the parent's bytes and the parent's
    permissions at every address; the parent is unchanged. *)

From S2P Require Import Prelude KMonad Riscv Mem Printf Kalloc KallocSafety Vm VmTable VmWalk VmMap VmUnmap VmAlloc.

Lemma leaf_PTE_FLAGS v : leaf v = true -> leaf_perm (PTE_FLAGS v).
Proof.
  intros Hl. unfold PTE_FLAGS. split.
  - change 0x3FF with (Z.ones 10). rewrite Z.land_ones by lia. apply Z.mod_pos_bound. lia.
  - unfold leaf, PTE_LEAF in *. rewrite <- !Z.land_lor_distr_r in *. rewrite <- Z.land_assoc. exact Hl.
Qed.

Lemma flag_PTE_FLAGS v f : 0 <= f < 1024 -> flag (PTE_FLAGS v) f = flag v f.
Proof.
  intros Hf. unfold flag, PTE_FLAGS. rewrite <- Z.land_assoc, (Z.land_comm 0x3FF).
  change 0x3FF with (Z.ones 10). rewrite Z.land_ones, Z.mod_small by lia. reflexivity.
Qed.

Section copy.
Context `{LayoutOk}.
Context (h : locks) (old new : Z) (s0 : phys) (Op O0 : owner) (l0 : list Z) (sz : Z).
Context (fsp : list (nat * Z)).
Context (Hh : kmem_lock ∉ h) (Hh' : supermem_lock ∉ h).

(** The parent's tables and frames are none of the child's tables, the free
    pages and the free superpages. *)
Record parent_ok : Prop := {
  pa_wf : pt_wf (mem s0) old Op;
  pa_tables : forall p x, is_Some (Op !! p) -> p <= x < p + PGSIZE -> outside s0 O0 l0 x;
  pa_region : region (mem s0) old 0 (PGROUNDUP sz) fsp;
  pa_frames : forall lv pa x, (lv, pa) ∈ fsp -> pa <= x < pa + tsize lv -> outside s0 O0 l0 x
}.

Context (Hu0 : uvm s0 new O0 l0) (Hpar : parent_ok) (Hsz : 0 <= sz <= MAXVA).
Context (Hnone : forall va, 0 <= va < PGROUNDUP sz -> pt_lookup 2 (mem s0) new va = None).

(** The parent's permissions and bytes, by virtual address. *)
Definition parent_perm (va : Z) (_ : nat) : Z :=
  match pt_lookup 2 (mem s0) old va with Some (v, _) => PTE_FLAGS v | None => 0 end.
Definition parent_byte (va : Z) : Z :=
  match pt_lookup 2 (mem s0) old va with
  | Some (v, lv) => mem s0 (PTE2PA v + va mod tsize lv)
  | None => 0
  end.

Abbreviation reached := (grown new s0 O0 l0 0 parent_perm parent_byte).

(** Copying changes nothing the parent uses. *)
Lemma parent_same s O l a fs :
  reached s O l a fs ->
  pt_wf (mem s) old Op /\
  (forall va, pt_lookup 2 (mem s) old va = pt_lookup 2 (mem s0) old va) /\
  (forall p i, is_Some (Op !! p) -> 0 <= i < 512 -> pte_at (mem s) p i = pte_at (mem s0) p i).
Proof using Hpar.
  intros Hg. destruct Hpar as [Hwf Ht _ _].
  assert (Hpte : forall p i, is_Some (Op !! p) -> 0 <= i < 512 ->
            pte_at (mem s) p i = pte_at (mem s0) p i).
  { intros p i Hp Hi. apply load64_ext. intros x Hx.
    destruct (Ht p x Hp) as [Hx1 Hx2]; [unfold entry, PGSIZE in *; lia |].
    now apply (gr_mem _ _ _ _ _ _ _ _ _ _ _ _ Hg). }
  split_and!; auto.
  - now apply (pt_wf_ext (mem s0)).
  - intros va. apply (pt_lookup_frame _ _ _ Op); auto. intros q k _ Hq.
    apply Hpte; [eauto | apply PX_level_range].
Qed.

(** [memmove(mem, pa, sz)] as a way to fill a frame. *)
Lemma fills_copy lv a v :
  (lv <= 1)%nat -> a mod tsize lv = 0 -> 0 <= a ->
  pt_lookup 2 (mem s0) old a = Some (v, lv) -> (lv, PTE2PA v) ∈ fsp ->
  (forall va, a <= va < a + tsize lv -> pt_lookup 2 (mem s0) old va = Some (v, lv)) ->
  fills s0 O0 l0 parent_byte lv a (fun c m => memmove m c (PTE2PA v) (tsize lv)).
Proof using Hpar.
  intros Hlv Hal Ha Hlk Hin Htile. destruct Hpar as [_ _ _ Hf]. split.
  - intros c m x Hx. now apply memmove_out.
  - intros c m off Hm Hoff. rewrite memmove_in by lia.
    replace (PTE2PA v + (c + off - c)) with (PTE2PA v + off) by lia.
    rewrite Hm by (apply (Hf lv (PTE2PA v)); [auto | lia]).
    unfold parent_byte. rewrite Htile by lia. f_equal. f_equal.
    rewrite mod_add_aligned by (auto; pose proof (tsize_pos lv); unfold PGSIZE in *; lia).
    symmetry. apply Z.mod_small. lia.
Qed.

(** How [uvmcopy] ends. *)
Inductive uvmcopy_outcome : outcome phys Z -> Prop :=
| uvmcopy_done s O l fs :
    reached s O l (PGROUNDUP sz) fs -> uvmcopy_outcome (Ret 0 h s)
| uvmcopy_nomem s O l :
    restored new s0 O0 l0 s O l -> uvmcopy_outcome (Ret (-1) h s)
| uvmcopy_panic a p :
    0 <= a < sz -> O0 !! p = Some (take 2 (path a)) ->
    uvmcopy_outcome (Panic "supermappages: remap").

#[local] Ltac via E := refine (eq_ind_r uvmcopy_outcome _ E).

Lemma uvmcopy_fail s O l a fs :
  reached s O l a fs -> 0 <= a <= PGROUNDUP sz -> a mod PGSIZE = 0 ->
  uvmcopy_outcome (uvmcopy_err new a h s).
Proof using All.
  intros Hg Ha Hal. pose proof (PGROUNDUP_le sz sz ltac:(lia) ltac:(lia)).
  destruct (grown_undo _ _ _ _ _ _ _ _ _ _ _ _ h Hu0 Hg Hh Hh' (Z.le_refl 0) eq_refl Hal ltac:(lia))
    as [_ (s' & l' & E & Hre)].
  { intros va Hva. apply Hnone. lia. }
  rewrite Z.sub_0_r in E. unfold uvmcopy_err. rewrite (bind_Ret _ _ _ _ _ _ _ E).
  now apply (uvmcopy_nomem s' O l').
Qed.

(** All addresses of a tile have its entry. *)
Lemma tile_lookup m root a v lv va : (lv <= 1)%nat -> a mod tsize lv = 0 ->
  pt_lookup 2 m root a = Some (v, lv) -> a <= va < a + tsize lv ->
  pt_lookup 2 m root va = Some (v, lv).
Proof using.
  intros Hlv Hal Hlk Hva. destruct lv as [|[|]]; [| | lia]; cbn [tsize] in *.
  - rewrite <- Hlk. apply lookup_page. clear - Hva Hal. page_lia.
  - apply (lookup_superpage _ _ a); auto. now apply same_superpage.
Qed.

Lemma uvmcopy_loop_spec fs : forall fuel s O l i gs,
  reached s O l i gs -> new_tables O0 O 2 0 i -> 0 <= i -> i mod PGSIZE = 0 ->
  region (mem s0) old i (PGROUNDUP sz) fs -> (forall t, t ∈ fs -> t ∈ fsp) ->
  (length fs <= fuel)%nat ->
  uvmcopy_outcome (uvmcopy_loop fuel old new i sz h s).
Proof using All.
  assert (HM : MAXVA = 2 ^ 38) by reflexivity.
  destruct (PGROUNDUP_spec sz) as [HalS HrS]; [unfold PGSIZE; lia |].
  pose proof (PGROUNDUP_le sz sz ltac:(lia) ltac:(lia)) as HtM.
  induction fs as [|[lv pa] fs IH]; intros fuel s O l i gs Hg Hnt Hi Hal Hr Hin Hfuel;
    inversion Hr as [|? ? v ? ? Hlv Halv HiM Hlk HR Hr']; subst.
  - assert (E : uvmcopy_loop fuel old new (PGROUNDUP sz) sz h s = Ret 0 h s)
      by (destruct fuel; cbn; now rewrite (proj2 (Z.ltb_ge _ _)) by lia).
    rewrite E. now apply (uvmcopy_done s O l gs).
  - destruct fuel as [|fuel]; cbn in Hfuel; [lia |].
    pose proof (tsize_pos lv) as Ht. pose proof (region_le _ _ _ _ _ Hr') as Hle.
    assert (Hisz : i < sz) by (clear - HrS HalS Hal Hle Ht; page_lia).
    destruct (parent_same s O l i gs Hg) as (Hwf & Hlks & Hptes).
    assert (Hlk' : pt_lookup 2 (mem s) old i = Some (v, lv)) by now rewrite Hlks.
    assert (Hnone' : pt_lookup 2 (mem s) new i = None).
    { rewrite (gr_lookup _ _ _ _ _ _ _ _ _ _ _ _ Hg) by (unfold PGSIZE in *; lia).
      apply Hnone. unfold PGSIZE in *. lia. }
    assert (Htile : forall va, i <= va < i + tsize lv -> pt_lookup 2 (mem s0) old va = Some (v, lv))
      by (intros va Hva; eapply tile_lookup; eauto).
    assert (Eperm : forall va lv', i <= va < i + tsize lv -> parent_perm va lv' = PTE_FLAGS v)
      by (intros va lv' Hva; unfold parent_perm; now rewrite Htile).
    destruct (walk_noalloc s h old Op i Hwf ltac:(lia)) as (w & Ew & Hw).
    unfold walk_finds in Hw. rewrite Hlk' in Hw. destruct Hw as (_ & Hv & Hlf & p & Hp & -> & Hpv).
    destruct (superpage_entry_run s h old Op i Hwf ltac:(lia)) as (r & Er & Hrr). rewrite Hlk' in Hrr.
    assert (Ei : i <= i < i + tsize lv) by (unfold PGSIZE in *; lia).
    assert (Hlp : leaf_perm (parent_perm i lv)) by (rewrite Eperm by auto; now apply leaf_PTE_FLAGS).
    assert (Hpc : forall va, i <= va < i + tsize lv -> parent_perm va lv = parent_perm i lv)
      by (intros va Hva; now rewrite !Eperm).
    pose proof (fills_copy lv i v Hlv Halv Hi Hlk (Hin _ ltac:(left)) Htile) as Hfill.
    pose proof (Eperm i lv Ei) as Epi.
    cbn [uvmcopy_loop]. rewrite (proj2 (Z.ltb_lt i sz)) by lia. cbn [negb].
    rewrite (bind_Ret _ _ _ _ _ _ _ Er).
    destruct lv as [|[|]]; [| | lia]; cbn [tsize] in *.
    + rewrite (proj2 (Z.eqb_eq r 0)) by auto. cbn [negb].
      rewrite (bind_Ret _ _ _ _ _ _ _ Ew). change (Z.of_nat 0) with 0 in *.
      rewrite (proj2 (Z.eqb_neq _ _))
        by (apply entry_nonzero; [eapply pt_page; eauto | apply (PX_level_range 0)]).
      unfold read64. krun. change (load64 (mem s) (entry p (PX 0 i))) with (pte_at (mem s) p (PX 0 i)).
      rewrite Hpv. fold (valid v). rewrite Hv. cbn [negb].
      rewrite u64_small by (unfold PGSIZE in *; lia).
      destruct (add_small h new s0 O0 l0 0 parent_perm parent_byte Hh Hh' Hu0 (Z.le_refl 0) s O l i gs
        (fun c m => memmove m c (PTE2PA v) PGSIZE) (uvmcopy_err new i)
        (uvmcopy_loop fuel old new (i + PGSIZE) sz) Hg Hnt Hal ltac:(lia) Hlp Hpc Hnone' Hfill)
        as [(s' & O' & l' & E & Hg' & _) | (s' & O' & l' & fs' & E & Hnt' & Hg' & _)]; rewrite Epi in E.
      * via E. eapply uvmcopy_fail; eauto. lia.
      * via E. eapply IH; eauto; [unfold PGSIZE in *; lia | clear - Hal; page_lia | | lia].
        intros t Htt. apply Hin. now right.
    + change (Z.of_nat 1) with 1 in *.
      rewrite Halv, (HR eq_refl) in Hrr. cbn [Z.eqb andb] in Hrr.
      destruct Hrr as (Hne & p' & Hp' & -> & Hpv'). rewrite (proj2 (Z.eqb_neq _ _)) by auto. cbn [negb].
      unfold read64. krun. change (load64 (mem s) (entry p' (PX 1 i))) with (pte_at (mem s) p' (PX 1 i)).
      rewrite Hpv'. assert (HS : SUPERPGSIZE = 2097152) by reflexivity.
      rewrite u64_small by lia.
      destruct (add_super h new s0 O0 l0 0 parent_perm parent_byte Hh Hh' Hu0 (Z.le_refl 0) s O l i gs
        (fun c m => memmove m c (PTE2PA v) SUPERPGSIZE) (uvmcopy_err new i)
        (uvmcopy_loop fuel old new (i + SUPERPGSIZE) sz) Hg Hnt Halv ltac:(lia) Hlp
        ltac:(rewrite Epi, flag_PTE_FLAGS by (split; vm_compute; congruence); auto) Hpc Hnone' Hfill)
        as [(s' & O' & l' & E & Hg' & _) | [(s' & O' & l' & fs' & E & Hnt' & Hg' & _) | [E (c & Hc)]]];
        rewrite Epi in E.
      * via E. eapply uvmcopy_fail; eauto. lia.
      * via E. eapply IH; eauto; [lia | clear - Hal; super_lia | | lia].
        intros t Htt. apply Hin. now right.
      * via E. apply (uvmcopy_panic i c); auto.
Qed.

Lemma uvmcopy_run : uvmcopy_outcome (uvmcopy old new sz h s0).
Proof using All.
  assert (HM : MAXVA = 2 ^ 38) by reflexivity.
  destruct (PGROUNDUP_spec sz) as [HalS HrS]; [unfold PGSIZE; lia |].
  pose proof (pa_region Hpar) as Hr. unfold uvmcopy.
  eapply (uvmcopy_loop_spec fsp); eauto using grown_refl, new_tables_refl; try lia.
  assert (Hlen : Z.of_nat (length fsp) * PGSIZE <= PGROUNDUP sz - 0).
  { clear - Hr. induction Hr as [|a b v lv fs ? ? ? ? ? ? IH]; cbn [length]; [lia |].
    pose proof (tsize_pos lv). lia. }
  clear - Hlen HrS Hsz. unfold PGSIZE in *. Z.div_mod_to_equations. lia.
Qed.

End copy.

(** ** A new, empty child *)

Lemma create_child `{LayoutOk} s h old O c l fs sz :
  uvm s old O (c :: l) -> kmem_lock ∉ h ->
  region (mem s) old 0 (PGROUNDUP sz) fs -> frames_ok s O (c :: l) fs ->
  exists s', uvmcreate h s = Ret c h s' /\ uvm s' c {[c := []]} l /\
    parent_ok old s' O {[c := []]} l sz fs /\
    (forall va, pt_lookup 2 (mem s') c va = None) /\
    (forall va, pt_lookup 2 (mem s') old va = pt_lookup 2 (mem s) old va) /\
    same_except [c] (mem s) (mem s').
Proof.
  intros Hu Hh Hr Hf. pose proof Hu as [(Hwf & Hk & Hd) Hs Hb].
  destruct (uvmcreate_run s h c l Hk Hh) as (s' & E & Hv & Hn & Hm & Esp & Enf).
  destruct (super_inv_same s s' Esp Enf Hs) as [Hs' Hf'].
  destruct (kmem_inv_head _ _ _ Hk) as (_ & Hc & Hcl & Hokl).
  assert (HcO : O !! c = None) by (apply Hd; left).
  assert (Hpte : forall p i, is_Some (O !! p) -> 0 <= i < 512 ->
            pte_at (mem s') p i = pte_at (mem s) p i).
  { intros p i [π Hp] Hi. apply (pte_at_same_except _ _ [c]); auto.
    - eapply pt_page; eauto.
    - rewrite list_elem_of_singleton. congruence. }
  assert (Hlk : forall va, pt_lookup 2 (mem s') old va = pt_lookup 2 (mem s) old va).
  { intros va. apply (pt_lookup_frame _ _ _ O); auto. intros q k _ Hq.
    apply Hpte; [eauto | apply PX_level_range]. }
  assert (Hout : forall x, (forall p, is_Some (O !! p) \/ p ∈ c :: l -> x < p \/ p + PGSIZE <= x) \/
     (exists p, is_Some (O !! p) /\ p <= x < p + PGSIZE) ->
     (forall p, p ∈ super_free s -> x < p \/ p + SUPERPGSIZE <= x) ->
     outside s' {[c := []]} l x).
  { intros x Hx Hxs. split; [| now rewrite Hf'].
    intros p Hp. assert (Hp' : p ∈ c :: l).
    { destruct Hp as [Hp | Hp]; [apply lookup_singleton_is_Some in Hp as <-; left | now right]. }
    destruct Hx as [Hx | (q & [π Hq] & Hxq)]; [apply Hx; auto |].
    pose proof (pt_page _ _ _ Hwf _ _ Hq) as Hqok. destruct Hk as (_ & _ & Hok).
    rewrite Forall_forall in Hok. assert (p <> q) by (intros ->; rewrite (Hd q Hp') in Hq; discriminate).
    destruct (page_ok_disjoint p q); auto; lia. }
  exists s'. split_and!; auto.
  - constructor; auto. intros p [Hp | Hp]; apply Hb; right.
    + apply lookup_singleton_is_Some in Hp as <-. left.
    + now right.
  - constructor.
    + now apply (pt_wf_ext (mem s)).
    + intros p x Hp Hx. apply Hout; [eauto |]. intros q Hq.
      destruct Hs as (_ & _ & _ & Hok). rewrite Forall_forall in Hok.
      pose proof (superpage_above q (Hok q Hq)). specialize (Hb p (or_introl Hp)). lia.
    + eapply region_ext; [| exact Hr]. intros va _. apply Hlk.
    + intros lv pa x Hin Hx. apply Hout.
      * left. intros p Hp. eapply frames_disjoint; eauto.
      * intros p Hp. eapply frames_disjoint_super; eauto.
Qed.

(** ** What programs read *)

(** What a program reads at a virtual address, with the flags of its page. *)
Definition user_read (m : memory) (root va : Z) : option (Z * Z) :=
  match sv39_translate m root va with
  | Some (pa, f) => Some (m pa, f)
  | None => None
  end.

Lemma pt_lookup_none_read m root va : pt_lookup 2 m root va = None -> user_read m root va = None.
Proof. intros E. unfold user_read, sv39_translate. now rewrite E. Qed.

(** What a program reads where the kernel mapped a frame. *)
Lemma read_mkpte m root va pa perm lv :
  (lv <= 1)%nat -> frame_ok pa -> pa mod tsize lv = 0 -> perm_ok perm ->
  pt_lookup 2 m root va = Some (mkpte pa perm, lv) ->
  user_read m root va = Some (m (pa + va mod tsize lv), Z.lor perm PTE_V).
Proof.
  intros Hlv Hpa Hal Hp E. unfold user_read. rewrite tsize_shift in * by auto.
  now rewrite (translate_mkpte _ _ _ _ _ lv Hpa Hp Hal E).
Qed.

(** The entries below [hi] are ones the kernel makes. *)
Definition encoded (m : memory) (root hi : Z) : Prop :=
  forall va v lv, 0 <= va < hi -> pt_lookup 2 m root va = Some (v, lv) ->
    exists pa perm, v = mkpte pa perm /\ frame_ok pa /\ pa mod tsize lv = 0 /\ perm_ok perm.

Lemma perm_ok_lor perm : perm_ok perm -> perm_ok (Z.lor perm PTE_V).
Proof.
  intros [[Hr Hl] Hrw]. split; [split |].
  - apply lor_flags_range; [auto | split; vm_compute; congruence].
  - now rewrite leaf_lor, Hl.
  - rewrite !flag_lor. intros Hw. apply orb_prop in Hw as [Hw | Hw]; [now rewrite Hrw | discriminate].
Qed.

(** The child reads what the parent does. *)
Lemma copied_reads `{LayoutOk} old new s Op O l sz fsp s' O' l' fs :
  parent_ok old s Op O l sz fsp -> encoded (mem s) old (PGROUNDUP sz) ->
  grown new s O l 0 (parent_perm old s) (parent_byte old s) s' O' l' (PGROUNDUP sz) fs ->
  encoded (mem s') new (PGROUNDUP sz) /\
  forall va, 0 <= va < PGROUNDUP sz -> user_read (mem s') new va = user_read (mem s) old va.
Proof.
  intros Hpar Henc Hg.
  assert (Hall : forall va, 0 <= va < PGROUNDUP sz -> exists pa perm lv,
    pt_lookup 2 (mem s') new va = Some (mkpte pa perm, lv) /\ frame_ok pa /\ pa mod tsize lv = 0 /\
    perm_ok perm /\ user_read (mem s') new va = user_read (mem s) old va).
  { intros va Hva.
    destruct (region_lookup _ _ _ _ _ va (pa_region _ _ _ _ _ _ _ Hpar) Hva) as (v & lv & Hlk & Hlv & _).
    destruct (Henc va v lv Hva Hlk) as (ppa & perm & -> & Hppa & Hpal & Hperm).
    rewrite (read_mkpte _ _ _ _ _ _ Hlv Hppa Hpal Hperm Hlk).
    destruct (gr_perm _ _ _ _ _ _ _ _ _ _ _ _ Hg va Hva) as (pa & lv' & Hlv' & Hpa & Hal & E).
    pose proof (gr_data _ _ _ _ _ _ _ _ _ _ _ _ Hg va _ lv' Hva E) as Hbyte.
    unfold parent_perm, parent_byte in *. rewrite Hlk in *.
    assert (Hpr : 0 <= perm < 1024) by apply Hperm.
    pose proof (perm_ok_lor perm Hperm) as Hperm'.
    rewrite mkpte_flags in E, Hbyte by (auto; apply Hppa).
    destruct Hpa as [Hpa1 Hpa2], Hppa as [Hppa1 Hppa2].
    rewrite (PTE2PA_mkpte pa (Z.lor perm PTE_V)), (PTE2PA_mkpte ppa perm) in Hbyte by (auto; apply Hperm').
    exists pa, (Z.lor perm PTE_V), lv'. split_and!; auto.
    - now split.
    - rewrite (read_mkpte _ _ _ _ _ _ Hlv' (conj Hpa1 Hpa2) Hal Hperm' E).
      rewrite Hbyte, <- Z.lor_assoc. now rewrite Z.lor_diag. }
  split.
  - intros va v lv Hva E. destruct (Hall va Hva) as (pa & perm & lv' & E' & ?). rewrite E in E'.
    injection E' as -> ->. exists pa, perm. tauto.
  - intros va Hva. destruct (Hall va Hva) as (pa & perm & lv' & E' & ?). tauto.
Qed.
