(* ===== verification/VmFree.v ===== *)
(** * Destroying an address space: [freewalk] and [uvmfree]

    Once every leaf is gone, [freewalk] returns exactly the pages of the
    table to the free list; [uvmfree] gives back everything a process had. *)

From S2P Require Import Prelude KMonad Riscv Mem Printf Kalloc KallocSafety Vm VmTable VmWalk VmMap VmUnmap.

(** A table at level [lv] without leaves; [ps] are its pages, [p] first. *)
Fixpoint tree (m : memory) (lv : nat) (p : Z) (ps : list Z) : Prop :=
  exists cs : list (list Z), length cs = 512%nat /\ ps = p :: concat cs /\
    forall i c, cs !! i = Some c ->
      let v := pte_at m p (Z.of_nat i) in
      if valid v
      then leaf v = false /\
           match lv with O => False | S lv' => tree m lv' (PTE2PA v) c end
      else c = [].

Lemma elem_of_concat {A} (x : A) cs : x ∈ concat cs <-> exists i c, cs !! i = Some c /\ x ∈ c.
Proof.
  induction cs as [|c cs IH]; cbn.
  - rewrite elem_of_nil. split; [tauto | intros (i & c & Hc & _); discriminate].
  - rewrite elem_of_app, IH. split.
    + intros [Hx | (i & c' & Hc & Hx)]; [exists 0%nat, c | exists (S i), c']; auto.
    + intros ([|i] & c' & Hc & Hx); cbn in Hc; [injection Hc as ->; auto |]. right. eauto.
Qed.

Lemma NoDup_concat {A} (cs : list (list A)) :
  (forall i c, cs !! i = Some c -> NoDup c) ->
  (forall i j c d x, cs !! i = Some c -> cs !! j = Some d -> x ∈ c -> x ∈ d -> i = j) ->
  NoDup (concat cs).
Proof.
  induction cs as [|c cs IH]; intros H1 H2; cbn; [constructor |]. apply NoDup_app. split_and!.
  - apply (H1 0%nat). reflexivity.
  - intros x Hx Hin. apply elem_of_concat in Hin as (j & d & Hd & Hxd).
    discriminate (H2 0%nat (S j) c d x eq_refl Hd Hx Hxd).
  - apply IH; [intros i; apply (H1 (S i)) |]. intros i j d e x Hi Hj Hd He.
    injection (H2 (S i) (S j) d e x Hi Hj Hd He). auto.
Qed.

Lemma list_choice {A} (P : nat -> A -> Prop) n :
  (forall i, (i < n)%nat -> exists c, P i c) ->
  exists cs, length cs = n /\ forall i c, cs !! i = Some c -> P i c.
Proof.
  induction n as [|n IH]; intros Hex; [exists []; split; [reflexivity | discriminate] |].
  destruct IH as (cs & Hl & Hc); [intros i Hi; apply Hex; lia |].
  destruct (Hex n ltac:(lia)) as (c & Hcn). exists (cs ++ [c]). split; [rewrite length_app; cbn; lia |].
  intros i d Hi. apply lookup_app_Some in Hi as [Hi | [Hi Hd]]; [eauto |].
  rewrite Hl in *. destruct (i - n)%nat eqn:E; [| discriminate]. injection Hd as <-.
  replace i with n by lia. auto.
Qed.

Lemma tree_frame m m' lv : forall p ps,
  (forall q x, q ∈ ps -> q <= x < q + PGSIZE -> m' x = m x) ->
  tree m lv p ps -> tree m' lv p ps.
Proof.
  induction lv as [|lv IH]; intros p ps Hm (cs & Hl & -> & Hc); exists cs; split_and!; auto;
    intros i c Hi;
    (assert (Hil : (i < 512)%nat) by (rewrite <- Hl; eapply lookup_lt_Some; eauto));
    specialize (Hc i c Hi);
    (assert (E : pte_at m' p (Z.of_nat i) = pte_at m p (Z.of_nat i))
      by (apply load64_ext; intros x Hx; apply (Hm p); [left | unfold entry, PGSIZE in *; lia]));
    cbn zeta in *; rewrite E; destruct (valid _); auto.
  destruct Hc as [Hlf Ht]. split; [auto |]. apply IH; [| exact Ht].
  intros q x Hq. apply Hm. right. apply elem_of_concat. eauto.
Qed.

Section free.
Context `{LayoutOk}.

(** The statement about the recursive call. *)
Definition frees_tree (rec : Z -> M phys unit) (lv : nat) : Prop :=
  forall s h l p ps,
    tree (mem s) lv p ps -> kmem_inv s l -> NoDup (ps ++ l) -> Forall page_ok ps ->
    kmem_lock ∉ h ->
    exists s' l', rec p h s = Ret tt h s' /\ kmem_inv s' l' /\ l' ≡ₚ ps ++ l /\
      same_except ps (mem s) (mem s') /\ superpages s' = superpages s /\ nfree s' = nfree s.

Definition entry_tree (m : memory) (lv : option nat) (v : Z) (c : list Z) : Prop :=
  if valid v
  then leaf v = false /\ match lv with None => False | Some lv' => tree m lv' (PTE2PA v) c end
  else c = [].

Lemma page_frame ps p x : Forall page_ok ps -> page_ok p -> p ∉ ps -> p <= x < p + PGSIZE ->
  forall q, q ∈ ps -> x < q \/ q + PGSIZE <= x.
Proof.
  intros Hps Hp Hn Hx q Hq. rewrite Forall_forall in Hps.
  assert (p <> q) by congruence. destruct (page_ok_disjoint p q); auto; lia.
Qed.

Lemma freewalk_entries_spec rec lv k : forall cs s h l p i,
  (forall lv', lv = Some lv' -> frees_tree rec lv') ->
  length cs = k -> (i + k = 512)%nat ->
  (forall j c, cs !! j = Some c -> entry_tree (mem s) lv (pte_at (mem s) p (Z.of_nat (i + j))) c) ->
  kmem_inv s l -> NoDup (p :: concat cs ++ l) -> page_ok p -> Forall page_ok (concat cs) ->
  kmem_lock ∉ h ->
  exists s' l', freewalk_entries rec k p (Z.of_nat i) h s = Ret tt h s' /\
    kmem_inv s' l' /\ l' ≡ₚ concat cs ++ l /\
    same_except (p :: concat cs) (mem s) (mem s') /\
    superpages s' = superpages s /\ nfree s' = nfree s.
Proof.
  induction k as [|k IH]; intros cs s h l p i Hrec Hl Hik Hc Hk Hnd Hp Hok Hh; cbn [freewalk_entries].
  - destruct cs; [| discriminate]. exists s, l. split_and!; auto. intros x _. reflexivity.
  - destruct cs as [|c cs]; [discriminate |]. cbn in Hl.
    pose proof (Hc 0%nat c eq_refl) as H0'. rewrite Nat.add_0_r in H0'.
    unfold read64. krun. fold (pte_at (mem s) p (Z.of_nat i)).
    set (v := pte_at (mem s) p (Z.of_nat i)) in *.
    assert (El : (Z.land v (Z.lor (Z.lor PTE_R PTE_W) PTE_X) =? 0) = negb (leaf v))
      by (unfold leaf, PTE_LEAF; now rewrite <- !Z.land_lor_distr_r, negb_involutive).
    rewrite El. fold (valid v). unfold entry_tree in H0'.
    replace (Z.of_nat i + 1) with (Z.of_nat (S i)) by lia.
    cbn [concat] in *. rewrite Forall_app in Hok. destruct Hok as [Hokc Hok].
    destruct (valid v) eqn:Ev; cbn [andb].
    + destruct H0' as [Hlf Ht]. rewrite Hlf. cbn [negb].
      destruct lv as [lv' |]; [| contradiction].
      apply NoDup_cons in Hnd as [Hpn Hnd]. rewrite <- app_assoc in Hnd.
      pose proof Hnd as Hnd'. apply NoDup_app in Hnd' as (Hndc & Hdc & Hndr).
      apply NoDup_app in Hndr as (Hnds & Hds & Hndl).
      destruct (Hrec lv' eq_refl s h l (PTE2PA v) c Ht Hk) as (s1 & l1 & E1 & Hk1 & Hl1 & Hm1 & Es1 & En1);
        auto.
      { apply NoDup_app. split_and!; auto. intros x Hx Hxl. apply (Hdc x Hx), elem_of_app. auto. }
      rewrite (bind_Ret _ _ _ _ _ _ _ E1). unfold write64. krun.
      set (s2 := set_mem (fun m => store64 m (entry p (Z.of_nat i)) 0) s1).
      assert (Hpc : p ∉ c) by (intros Hin; apply Hpn; rewrite !elem_of_app; auto).
      assert (Hm2 : same_except (p :: c) (mem s) (mem s2)).
      { intros x Hx. cbn. rewrite store64_out.
        - apply Hm1. intros q Hq. apply Hx. now right.
        - pose proof (Hx p ltac:(left)). unfold entry, PGSIZE in *. lia. }
      assert (Hk2 : kmem_inv s2 l1).
      { apply (kmem_inv_frame s1); auto. intros q x Hq Hx. cbn. apply store64_out.
        assert (page_ok q) by (destruct Hk1 as (_ & _ & Hf); rewrite Forall_forall in Hf; auto).
        assert (q <> p).
        { intros ->. apply Hpn. rewrite Hl1 in Hq. rewrite !elem_of_app in *. tauto. }
        destruct (page_ok_disjoint q p); auto; unfold entry, PGSIZE in *; lia. }
      destruct (IH cs s2 h l1 p (S i)) as (s3 & l3 & E3 & Hk3 & Hl3 & Hm3 & Es3 & En3); auto; try lia.
      * intros j c' Hj. specialize (Hc (S j) c' Hj).
        replace (i + S j)%nat with (S i + j)%nat in Hc by lia.
        assert (Hjl : (j < k)%nat) by (replace k with (length cs) by lia; eapply lookup_lt_Some; eauto).
        assert (Ep : pte_at (mem s2) p (Z.of_nat (S i + j)) = pte_at (mem s) p (Z.of_nat (S i + j))).
        { cbn. rewrite pte_at_store_ne; auto; try lia.
          apply (pte_at_same_except _ _ c); auto. lia. }
        rewrite Ep. unfold entry_tree in *. destruct (valid _); auto. destruct Hc as [? Hc].
        split; auto. eapply tree_frame; [| exact Hc]. intros q x Hq Hx. apply Hm2.
        assert (Hqs : q ∈ concat cs) by (apply elem_of_concat; eauto).
        apply (page_frame _ q); auto.
        -- rewrite Forall_forall in Hok. auto.
        -- intros [-> | Hin]%elem_of_cons.
           ++ apply Hpn. rewrite !elem_of_app. auto.
           ++ apply (Hdc q Hin). rewrite elem_of_app. auto.
      * rewrite Hl1. constructor.
        -- intros Hin. apply Hpn. rewrite !elem_of_app in *. tauto.
        -- rewrite (Permutation_app_swap_app (concat cs) c l). auto.
      * exists s3, l3. cbn in Es3, En3. split_and!; auto; try congruence.
        -- rewrite Hl3, Hl1. rewrite Permutation_app_swap_app. now rewrite app_assoc.
        -- intros x Hx. rewrite Hm3, Hm2; auto; intros q [-> | Hq]%elem_of_cons; apply Hx;
             [left | right; apply elem_of_app; auto | left | right; apply elem_of_app; auto].
    + subst c. cbn [app] in *.
      destruct (IH cs s h l p (S i)) as (s3 & l3 & E3 & Hr); auto; try lia.
      * intros j c' Hj. replace (S i + j)%nat with (i + S j)%nat by lia. now apply Hc.
      * exists s3, l3. auto.
Qed.

Definition child_level (lv : nat) : option nat := match lv with O => None | S lv' => Some lv' end.

Lemma freewalk_level lv :
  (forall lv', child_level lv = Some lv' -> frees_tree (freewalk lv) lv') ->
  frees_tree (freewalk (S lv)) lv.
Proof.
  intros Hrec s h l p ps Ht Hk Hnd Hok Hh. cbn [freewalk].
  assert (exists cs, length cs = 512%nat /\ ps = p :: concat cs /\
            forall j c, cs !! j = Some c ->
              entry_tree (mem s) (child_level lv) (pte_at (mem s) p (Z.of_nat j)) c)
    as (cs & Hl & -> & Hc) by (destruct lv; exact Ht).
  apply Forall_cons in Hok as [Hp Hok].
  destruct (freewalk_entries_spec (freewalk lv) (child_level lv) 512 cs s h l p 0)
    as (s1 & l1 & E1 & Hk1 & Hl1 & Hm1 & Es1 & En1); auto.
  change (Z.of_nat 0) with 0 in E1. rewrite (bind_Ret _ _ _ _ _ _ _ E1).
  apply NoDup_cons in Hnd as [Hpn _].
  destruct (kfree_spec p h s1 l1 Hk1 Hp) as (s2 & E2 & Hk2 & Hm2 & Es2 & En2); auto.
  { rewrite Hl1. auto. }
  exists s2, (p :: l1). split_and!; auto; try congruence.
  - rewrite Hl1. reflexivity.
  - intros x Hx. rewrite Hm2, Hm1; auto. intros q Hq.
    apply list_elem_of_singleton in Hq as ->. apply Hx. left.
Qed.

Lemma freewalk_spec lv : frees_tree (freewalk (S lv)) lv.
Proof.
  induction lv as [|lv IH]; apply freewalk_level; intros lv' E; [discriminate E |].
  injection E as <-. exact IH.
Qed.

(** ** From the page-table invariant to the tree *)

(** Some address goes through any entry. *)
Lemma path_exists π : (length π <= 3)%nat -> Forall (fun i => 0 <= i < 512) π ->
  exists va, 0 <= va < 2 ^ 39 /\ take (length π) (path va) = π.
Proof.
  intros Hl Hf.
  assert (Hpath : forall a b c, 0 <= a < 512 -> 0 <= b < 512 -> 0 <= c < 512 ->
    0 <= a * 2 ^ 30 + b * 2 ^ 21 + c * 2 ^ 12 < 2 ^ 39 /\
    path (a * 2 ^ 30 + b * 2 ^ 21 + c * 2 ^ 12) = [a; b; c]).
  { intros a b c Ha Hb Hc. split; [lia |]. unfold path.
    rewrite PX2_eq, PX1_eq, PX0_eq.
    replace ((a * 2 ^ 30 + b * 2 ^ 21 + c * 2 ^ 12) / 4096) with (a * 262144 + b * 512 + c)
      by (Z.div_mod_to_equations; lia).
    replace ((a * 262144 + b * 512 + c) / 512) with (a * 512 + b) by (Z.div_mod_to_equations; lia).
    repeat f_equal; Z.div_mod_to_equations; lia. }
  destruct π as [|a [|b [|c [|]]]]; cbn in Hl; [| | | | lia].
  - exists 0. split; [lia | reflexivity].
  - rewrite !Forall_cons in Hf. destruct (Hpath a 0 0) as [Hr E]; [lia.. |].
    eexists. split; [exact Hr |]. now rewrite E.
  - rewrite !Forall_cons in Hf. destruct (Hpath a b 0) as [Hr E]; [lia.. |].
    eexists. split; [exact Hr |]. now rewrite E.
  - rewrite !Forall_cons in Hf. destruct (Hpath a b c) as [Hr E]; [lia.. |].
    eexists. split; [exact Hr |]. now rewrite E.
Qed.

Lemma pt_path_range m root O p π : pt_wf m root O -> O !! p = Some π ->
  Forall (fun i => 0 <= i < 512) π.
Proof.
  intros Hwf. revert p. induction π as [|i π IH] using rev_ind; intros p Hp; [constructor |].
  destruct (pt_parent _ _ _ Hwf _ _ _ Hp) as (Hi & q & Hq & _).
  apply Forall_app. split; [eauto | now constructor].
Qed.

(** When nothing is mapped every valid entry is a pointer. *)
Lemma no_leaves m root O p π i :
  pt_wf m root O -> (forall va, 0 <= va < 2 ^ 39 -> pt_lookup 2 m root va = None) ->
  O !! p = Some π -> 0 <= i < 512 -> valid (pte_at m p i) = true ->
  leaf (pte_at m p i) = false.
Proof.
  intros Hwf Hn Hp Hi Hv. destruct (leaf _) eqn:El; [exfalso | reflexivity].
  pose proof (pt_depth _ _ _ Hwf _ _ Hp) as Hd.
  destruct (path_exists (π ++ [i])) as (va & Hva & Epath).
  { rewrite length_app. cbn. lia. }
  { apply Forall_app. split; [eapply pt_path_range; eauto | now constructor]. }
  rewrite length_app in Epath. cbn [length] in Epath. rewrite Nat.add_1_r, path_take_S in Epath by lia.
  apply app_inj_tail in Epath as [E1 E2].
  specialize (Hn va Hva). rewrite (pt_lookup_reach m root O p va (length π)) in Hn by (auto; congruence).
  assert (Ei : PX (Z.of_nat (2 - length π)) va = i)
    by (rewrite <- E2; f_equal; lia).
  destruct (2 - length π)%nat; cbn [pt_lookup] in Hn; rewrite Ei, Hv, El in Hn; discriminate.
Qed.

Lemma pt_prefix m root O q π1 π2 : pt_wf m root O -> O !! q = Some (π1 ++ π2) ->
  exists q', O !! q' = Some π1.
Proof.
  intros Hwf. revert q. induction π2 as [|i π2 IH] using rev_ind; intros q Hq.
  - rewrite app_nil_r in Hq. eauto.
  - rewrite app_assoc in Hq. destruct (pt_parent _ _ _ Hwf _ _ _ Hq) as (_ & q' & Hq' & _). eauto.
Qed.

Section tree.
Context (m : memory) (root : Z) (O : owner) (Hwf : pt_wf m root O).
Context (Hn : forall va, 0 <= va < 2 ^ 39 -> pt_lookup 2 m root va = None).

(** The pages below [p] form a tree. *)
Definition has_tree (lv : nat) (p : Z) (π : list Z) : Prop :=
  exists ps, tree m lv p ps /\ NoDup ps /\
    forall q, q ∈ ps <-> exists π', O !! q = Some (π ++ π').

(** The pages below entry [i] of [p]. *)
Definition entry_pages (lv : nat) (p : Z) (π : list Z) (i : nat) (c : list Z) : Prop :=
  entry_tree m (child_level lv) (pte_at m p (Z.of_nat i)) c /\ NoDup c /\
  forall q, q ∈ c <-> exists π', O !! q = Some (π ++ Z.of_nat i :: π').

Lemma entry_pages_exist lv p π i :
  (forall lv' c, child_level lv = Some lv' -> O !! c = Some (π ++ [Z.of_nat i]) ->
     has_tree lv' c (π ++ [Z.of_nat i])) ->
  O !! p = Some π -> (length π + lv = 2)%nat -> (i < 512)%nat ->
  exists c, entry_pages lv p π i c.
Proof using Hwf Hn.
  intros Hrec Hp Hlen Hi. unfold entry_pages, entry_tree.
  destruct (valid (pte_at m p (Z.of_nat i))) eqn:Ev.
  - pose proof (no_leaves _ _ _ _ _ (Z.of_nat i) Hwf Hn Hp ltac:(lia) Ev) as El.
    pose proof (pt_child _ _ _ Hwf _ _ (Z.of_nat i) Hp ltac:(lia) Ev El) as Hc.
    pose proof (pt_depth _ _ _ Hwf _ _ Hc) as Hd. rewrite length_app in Hd. cbn in Hd.
    destruct lv as [|lv]; [lia |].
    destruct (Hrec lv _ eq_refl Hc) as (ps & Ht & Hnd & Hps). exists ps. split_and!; auto.
    intros q. rewrite Hps. setoid_rewrite <- app_assoc. reflexivity.
  - exists []. split_and!; [reflexivity | constructor |]. intros q. split.
    + intros Hin. now apply elem_of_nil in Hin.
    + intros (π' & Hq). exfalso. rewrite cons_middle, app_assoc in Hq.
      destruct (pt_prefix _ _ _ _ _ _ Hwf Hq) as (q' & Hq').
      destruct (pt_parent _ _ _ Hwf _ _ _ Hq') as (_ & p' & Hp' & Hv & _).
      rewrite (pt_path_inj _ _ _ p' p π Hwf Hp' Hp) in Hv. congruence.
Qed.

Lemma has_tree_level lv p π :
  (forall lv' c i, child_level lv = Some lv' -> O !! c = Some (π ++ [i]) -> has_tree lv' c (π ++ [i])) ->
  O !! p = Some π -> (length π + lv = 2)%nat -> has_tree lv p π.
Proof using Hwf Hn.
  intros Hrec Hp Hlen.
  destruct (list_choice (entry_pages lv p π) 512) as (cs & Hl & Hcs).
  { intros i Hi. apply entry_pages_exist; auto. }
  exists (p :: concat cs). split_and!.
  - assert (Hc : forall i c, cs !! i = Some c ->
        entry_tree m (child_level lv) (pte_at m p (Z.of_nat i)) c)
      by (intros i c Hi; apply (Hcs i c Hi)).
    destruct lv; exists cs; auto.
  - constructor.
    + intros Hin. apply elem_of_concat in Hin as (i & c & Hi & Hin).
      apply (Hcs i c Hi) in Hin as (π' & Hq). rewrite Hp in Hq. injection Hq as Hq.
      apply (f_equal length) in Hq. rewrite length_app in Hq. cbn in Hq. lia.
    + apply NoDup_concat.
      * intros i c Hi. apply (Hcs i c Hi).
      * intros i j c d x Hi Hj Hc Hd. apply (Hcs i c Hi) in Hc as (π1 & E1).
        apply (Hcs j d Hj) in Hd as (π2 & E2). rewrite E1 in E2. injection E2 as E2.
        apply app_inv_head in E2. injection E2 as E2 _. lia.
  - intros q. rewrite elem_of_cons, elem_of_concat. split.
    + intros [-> | (i & c & Hi & Hin)]; [exists []; now rewrite app_nil_r |].
      apply (Hcs i c Hi) in Hin as (π' & Hq). eauto.
    + intros ([|i π'] & Hq).
      * left. rewrite app_nil_r in Hq. eapply pt_path_inj; eauto.
      * right. pose proof (pt_path_range _ _ _ _ _ Hwf Hq) as Hr. rewrite Forall_app, Forall_cons in Hr.
        destruct (lookup_lt_is_Some_2 cs (Z.to_nat i)) as [c Hc]; [lia |].
        exists (Z.to_nat i), c. split; [auto |]. apply (Hcs _ _ Hc). exists π'.
        now rewrite Z2Nat.id by lia.
Qed.

Lemma tree_exists lv : forall p π,
  O !! p = Some π -> (length π + lv = 2)%nat -> has_tree lv p π.
Proof using Hwf Hn.
  induction lv as [|lv IH]; intros p π Hp Hlen; apply has_tree_level; auto;
    intros lv' c i E Hc; [discriminate E |].
  injection E as <-. apply IH; auto. rewrite length_app. cbn. lia.
Qed.

End tree.

(** [freewalk] of a table that maps nothing returns its pages, and only them. *)
Lemma freewalk_run s h root O l :
  vm_inv s root O l -> kmem_lock ∉ h ->
  (forall va, 0 <= va < 2 ^ 39 -> pt_lookup 2 (mem s) root va = None) ->
  exists s' ps, freewalk PT_LEVELS root h s = Ret tt h s' /\
    (exists l', kmem_inv s' l' /\ l' ≡ₚ ps ++ l) /\ NoDup ps /\
    (forall q, q ∈ ps <-> is_Some (O !! q)) /\
    same_except ps (mem s) (mem s') /\
    superpages s' = superpages s /\ nfree s' = nfree s.
Proof.
  intros (Hwf & Hk & Hd) Hh Hn.
  assert (Hr : O !! root = Some []) by now apply (pt_root _ _ _ Hwf).
  destruct (tree_exists (mem s) root O Hwf Hn 2 root [] Hr eq_refl) as (ps & Ht & Hnd & Hps).
  assert (Hps' : forall q, q ∈ ps <-> is_Some (O !! q)).
  { intros q. rewrite Hps. split; [intros (π' & E); eauto | intros [π' E]; eauto]. }
  destruct (freewalk_spec 2 s h l root ps Ht Hk) as (s' & l' & E & Hk' & Hl' & Hm & Es & En); auto.
  - destruct Hk as (_ & Hndl & _). apply NoDup_app. split_and!; auto. intros q Hq Hl.
    apply Hps' in Hq. rewrite (Hd q Hl) in Hq. now destruct Hq.
  - apply Forall_forall. intros q Hq. apply Hps' in Hq as [π Hq]. eapply pt_page; eauto.
  - exists s', ps. split_and!; eauto.
Qed.

(** [uvmfree]: user memory, then the table. *)
Lemma uvmfree_run s h root O l sz fs :
  uvm s root O l -> kmem_lock ∉ h -> supermem_lock ∉ h ->
  0 <= sz <= MAXVA -> region (mem s) root 0 (PGROUNDUP sz) fs -> frames_ok s O l fs ->
  (forall va, PGROUNDUP sz <= va < 2 ^ 39 -> pt_lookup 2 (mem s) root va = None) ->
  exists s' ps l', uvmfree root sz h s = Ret tt h s' /\
    kmem_inv s' l' /\ l' ≡ₚ ps ++ smalls fs ++ l /\ (forall q, q ∈ ps <-> is_Some (O !! q)) /\
    super_free s' = super_free s ++ supers fs /\ super_inv s' /\
    (forall x, untouched O fs x -> mem s' x = mem s x).
Proof.
  intros Hu Hh Hh' Hsz Hr Hf Hn. assert (HM : MAXVA = 2 ^ 38) by reflexivity.
  destruct (PGROUNDUP_spec sz) as [Hal Hb]; [unfold PGSIZE; lia |].
  assert (Hun : exists s1,
    (if 0 <? sz then uvmunmap root 0 (PGROUNDUP sz / PGSIZE) true else ret tt) h s = Ret tt h s1 /\
    uvm s1 root O (rev (smalls fs) ++ l) /\ super_free s1 = super_free s ++ supers fs /\
    unmapped (mem s) (mem s1) root 0 (PGROUNDUP sz) /\
    (forall x, untouched O fs x -> mem s1 x = mem s x)).
  { destruct (Z.ltb_spec 0 sz) as [Hpos | Hz].
    - assert (En : 0 + PGROUNDUP sz / PGSIZE * PGSIZE = PGROUNDUP sz) by (clear - Hal; page_lia).
      destruct (uvmunmap_run s h root O l 0 (PGROUNDUP sz / PGSIZE) true fs)
        as (s1 & E & H1); auto; try lia.
      + apply Z.div_pos; [lia | reflexivity].
      + rewrite En. assert (HMm : MAXVA mod PGSIZE = 0) by reflexivity.
        rewrite HM in *. clear - Hb Hal Hsz HMm. page_lia.
      + now rewrite En.
      + exists s1. rewrite En in H1. auto.
    - replace sz with 0 in * by lia. change (PGROUNDUP 0) with 0 in *.
      inversion Hr as [|? ? ? lv ? ? ? ? ? ? Hr']; subst.
      + exists s. cbn. rewrite app_nil_r. split_and!; auto.
        intros va Hva. bool_cases; try reflexivity. lia.
      + apply region_le in Hr'. pose proof (tsize_pos lv). unfold PGSIZE in *. lia. }
  destruct Hun as (s1 & E1 & Hu1 & Es1 & Hm1 & Hx1). unfold uvmfree.
  rewrite (bind_Ret _ _ _ _ _ _ _ E1).
  destruct (freewalk_run s1 h root O (rev (smalls fs) ++ l) (uvm_vm _ _ _ _ Hu1) Hh)
    as (s2 & ps & E2 & (l' & Hk' & Hl') & _ & Hps & Hm2 & Esp & Enf).
  { intros va Hva. rewrite Hm1 by auto.
    destruct (Z.leb_spec 0 va); [| lia].
    destruct (Z.ltb_spec va (PGROUNDUP sz)); cbn [andb]; [reflexivity | apply Hn; lia]. }
  exists s2, ps, l'. split_and!; auto.
  - rewrite Hl'. now rewrite <- Permutation_rev.
  - unfold super_free in *. now rewrite Esp, Enf.
  - apply (super_inv_same s1 s2); auto. apply Hu1.
  - intros x [Hx Hxf]. rewrite Hm2, Hx1; [reflexivity | split; auto |].
    intros q Hq. apply Hx. now apply Hps.
Qed.

End free.
