(* ===== verification/VmUser.v ===== *)
(** * Copying between kernel and user memory: [copyin], [copyout], [copyinstr]

    On 4 KiB user pages these routines see memory as the hardware does. *)

From S2P Require Import Prelude KMonad Riscv Mem Printf Kalloc KallocSafety Vm VmTable VmWalk VmMap VmUnmap.

(** The physical address behind a user address, and the byte there. *)
Definition uaddr (m : memory) (root va : Z) : Z :=
  match pt_lookup 2 m root va with
  | Some (v, _) => PTE2PA v + va mod PGSIZE
  | None => 0
  end.

(** [va] is in a 4 KiB page the user may access. *)
Definition user_page (m : memory) (root va : Z) : Prop :=
  exists v, pt_lookup 2 m root va = Some (v, 0%nat) /\ flag v PTE_U = true /\ PTE2PA v <> 0.

Definition user_bytes (m : memory) (root va n : Z) : list Z :=
  map (fun x => m (uaddr m root x)) (seqZ va n).

Lemma seqZ_shift {A} (f : Z -> A) a b n :
  map f (seqZ a n) = map (fun x => f (x + (a - b))) (seqZ b n).
Proof.
  replace a with ((a - b) + b) at 1 by lia. rewrite <- fmap_add_seqZ.
  change (Z.add (a - b) <$> seqZ b n) with (map (Z.add (a - b)) (seqZ b n)).
  rewrite map_map. apply map_ext. intros x. f_equal. lia.
Qed.

Section user.
Context `{LayoutOk}.

(** Within a page, consecutive addresses are consecutive in memory. *)
Lemma uaddr_page m root va va' :
  va / 4096 = va' / 4096 -> user_page m root va ->
  uaddr m root va' = uaddr m root va + (va' - va).
Proof.
  intros E (v & Hlk & _). unfold uaddr. rewrite <- (lookup_page m va va' E 2 root), Hlk.
  clear - E. page_lia.
Qed.

Lemma walkaddr_user_page s h root O va :
  pt_wf (mem s) root O -> 0 <= va < MAXVA -> user_page (mem s) root va ->
  exists pa, walkaddr root (PGROUNDDOWN va) h s = Ret pa h s /\ pa <> 0 /\
    uaddr (mem s) root va = pa + (va - PGROUNDDOWN va).
Proof.
  intros Hwf Hva (v & Hlk & HU & Hnz). rewrite PGROUNDDOWN_eq. exists (PTE2PA v). split_and!; auto.
  - rewrite (walkaddr_run _ _ _ O) by auto. rewrite (proj2 (Z.leb_gt _ _)) by (clear - Hva; page_lia).
    rewrite (lookup_page (mem s) _ va) by (clear; page_lia). now rewrite Hlk, HU.
  - unfold uaddr. rewrite Hlk. lia.
Qed.

Lemma read_chunk m root va n :
  0 <= n -> va mod 4096 + n <= 4096 -> user_page m root va ->
  read_bytes m (uaddr m root va) n = user_bytes m root va n.
Proof.
  intros Hn Hfit Hu. unfold read_bytes, user_bytes. rewrite (seqZ_shift m _ va).
  apply map_ext_in. intros x Hx. apply list_elem_of_In, elem_of_seqZ in Hx.
  rewrite (uaddr_page m root va x); [f_equal; lia | | auto]. clear - Hx Hfit. page_lia.
Qed.

Lemma copyin_loop_spec fuel : forall s h root O srcva len acc,
  pt_wf (mem s) root O -> 0 <= srcva -> 0 <= len <= Z.of_nat fuel -> srcva + len <= MAXVA ->
  (forall va, srcva <= va < srcva + len -> user_page (mem s) root va) ->
  copyin_loop fuel root srcva len acc h s = Ret (0, acc ++ user_bytes (mem s) root srcva len) h s.
Proof.
  assert (HM : MAXVA = 2 ^ 38) by reflexivity.
  induction fuel as [|fuel IH]; intros s h root O srcva len acc Hwf Hs Hlen Hmax Hu; cbn [copyin_loop].
  - replace len with 0 by lia. cbn. now rewrite app_nil_r.
  - destruct (Z.leb_spec len 0) as [Hz | Hpos].
    { replace len with 0 by lia. cbn. now rewrite app_nil_r. }
    destruct (walkaddr_user_page s h root O srcva Hwf ltac:(lia) (Hu srcva ltac:(lia)))
      as (pa & E & Hnz & Epa).
    rewrite (bind_Ret _ _ _ _ _ _ _ E), (proj2 (Z.eqb_neq pa 0)) by auto. krun.
    rewrite <- Epa. rewrite PGROUNDDOWN_eq.
    set (n := Z.min (PGSIZE - (srcva - (srcva - srcva mod PGSIZE))) len).
    assert (Hn : 0 < n <= len /\ srcva mod 4096 + n <= 4096) by (clear - Hpos; subst n; page_lia).
    rewrite (read_chunk (mem s) root srcva n) by (try apply Hu; lia).
    assert (Enext : n < len -> u64 (srcva - srcva mod PGSIZE + PGSIZE) = srcva + n).
    { intros Hnl. rewrite u64_small; clear - Hs Hmax HM Hnl; subst n; page_lia. }
    assert (Esplit : user_bytes (mem s) root srcva len
              = user_bytes (mem s) root srcva n ++ user_bytes (mem s) root (srcva + n) (len - n)).
    { unfold user_bytes. replace len with (n + (len - n)) at 1 by lia.
      rewrite seqZ_app by lia. apply map_app. }
    destruct (Z.eq_dec n len) as [El | Hne].
    + rewrite El, Z.sub_diag. destruct fuel; cbn; reflexivity.
    + rewrite Enext by lia. rewrite (IH s h root O (srcva + n) (len - n)); auto; try lia.
      * now rewrite Esplit, app_assoc.
      * intros va Hva. apply Hu. lia.
Qed.

Lemma copyin_run s h root O srcva len :
  pt_wf (mem s) root O -> 0 <= srcva -> 0 <= len -> srcva + len <= MAXVA ->
  (forall va, srcva <= va < srcva + len -> user_page (mem s) root va) ->
  copyin root srcva len h s = Ret (0, user_bytes (mem s) root srcva len) h s.
Proof.
  intros Hwf Hs Hl Hmax Hu. unfold copyin.
  rewrite (copyin_loop_spec _ s h root O); auto. lia.
Qed.

(** ** [copyout] *)

Definition user_writable (m : memory) (root va : Z) : Prop :=
  exists v, pt_lookup 2 m root va = Some (v, 0%nat) /\ flag v PTE_U = true /\
    flag v PTE_W = true /\ PTE2PA v <> 0.

Lemma user_writable_page m root va : user_writable m root va -> user_page m root va.
Proof. intros (v & ? & ? & _ & ?). exists v. auto. Qed.

Lemma write_bytes_at m a bs k b : bs !! k = Some b -> write_bytes m a bs (a + Z.of_nat k) = b.
Proof.
  intros Hk. pose proof (lookup_lt_Some _ _ _ Hk). unfold write_bytes.
  rewrite (proj2 (Z.leb_le _ _)), (proj2 (Z.ltb_lt _ _)) by lia. cbn [andb].
  unfold nthZ. replace (Z.to_nat (a + Z.of_nat k - a)) with k by lia.
  now apply nth_lookup_Some.
Qed.

Lemma write_bytes_out m a bs x :
  x < a \/ a + Z.of_nat (length bs) <= x -> write_bytes m a bs x = m x.
Proof. intros Hx. unfold write_bytes. bool_cases; cbn [andb]; try reflexivity. lia. Qed.

(** One round of the loop of [copyout] on a writable user page. *)
Lemma copyout_round s h root O dstva src fuel :
  pt_wf (mem s) root O -> 0 <= dstva < MAXVA -> src <> [] -> user_writable (mem s) root dstva ->
  let n := Z.to_nat (Z.min (PGSIZE - dstva mod PGSIZE) (Z.of_nat (length src))) in
  copyout_loop (S fuel) root dstva src h s =
  copyout_loop fuel root (u64 (dstva - dstva mod PGSIZE + PGSIZE)) (drop n src) h
    (set_mem (fun m => write_bytes m (uaddr (mem s) root dstva) (take n src)) s).
Proof.
  intros Hwf Hva Hne Hu n. pose proof (user_writable_page _ _ _ Hu) as Hup.
  destruct (walkaddr_user_page s h root O dstva Hwf Hva Hup) as (pa & E & Hnz & Epa).
  destruct Hu as (v & Hlk & HU & HW & Hpz).
  cbn [copyout_loop]. destruct src as [|b src]; [congruence |].
  assert (HvM : PGROUNDDOWN dstva < MAXVA) by (rewrite PGROUNDDOWN_eq; clear - Hva; page_lia).
  rewrite (proj2 (Z.leb_gt _ _)) by lia.
  destruct (walk_noalloc s h root O (PGROUNDDOWN dstva) Hwf HvM) as (w & Ew & Hw).
  unfold walk_finds in Hw.
  rewrite (lookup_page (mem s) _ dstva) in Hw by (rewrite PGROUNDDOWN_eq; clear; page_lia).
  rewrite Hlk in Hw. destruct Hw as (_ & Hv & Hlf & p & Hp & -> & Hpv).
  rewrite (bind_Ret _ _ _ _ _ _ _ Ew).
  rewrite (proj2 (Z.eqb_neq _ _))
    by (apply entry_nonzero; [eapply pt_page; eauto | apply PX_level_range]).
  unfold read64. krun. fold (pte_at (mem s) p (PX (Z.of_nat 0) (PGROUNDDOWN dstva))).
  rewrite Hpv, HW. cbn [negb]. rewrite (bind_Ret _ _ _ _ _ _ _ E), (proj2 (Z.eqb_neq pa 0)) by auto.
  krun. rewrite <- Epa. rewrite PGROUNDDOWN_eq.
  replace (dstva - (dstva - dstva mod PGSIZE)) with (dstva mod PGSIZE) by lia. reflexivity.
Qed.

Lemma copyout_loop_spec fuel : forall s h root O dstva src,
  pt_wf (mem s) root O -> 0 <= dstva -> (length src <= fuel)%nat ->
  dstva + Z.of_nat (length src) <= MAXVA ->
  (forall va, dstva <= va < dstva + Z.of_nat (length src) ->
     user_writable (mem s) root va /\
     forall p, is_Some (O !! p) -> uaddr (mem s) root va < p \/ p + PGSIZE <= uaddr (mem s) root va) ->
  (forall va va', dstva <= va < dstva + Z.of_nat (length src) ->
     dstva <= va' < dstva + Z.of_nat (length src) ->
     uaddr (mem s) root va = uaddr (mem s) root va' -> va = va') ->
  exists m', copyout_loop fuel root dstva src h s = Ret 0 h (set_mem (fun _ => m') s) /\
    (forall k b, src !! k = Some b -> m' (uaddr (mem s) root (dstva + Z.of_nat k)) = b) /\
    (forall x, (forall k, (k < length src)%nat -> x <> uaddr (mem s) root (dstva + Z.of_nat k)) ->
       m' x = mem s x).
Proof.
  assert (HM : MAXVA = 2 ^ 38) by reflexivity.
  induction fuel as [|fuel IH]; intros s h root O dstva src Hwf Hd Hlen Hmax Hu Hinj.
  { destruct src; [| cbn in Hlen; lia]. exists (mem s). destruct s. split_and!; [reflexivity | discriminate | auto]. }
  destruct (decide (src = [])) as [-> | Hne].
  { exists (mem s). destruct s. split_and!; [reflexivity | discriminate | auto]. }
  assert (Hl0 : (0 < length src)%nat) by (destruct src; [congruence | cbn; lia]).
  rewrite (copyout_round s h root O dstva src fuel) by (auto; try apply Hu; lia).
  set (n := Z.to_nat (Z.min (PGSIZE - dstva mod PGSIZE) (Z.of_nat (length src)))).
  assert (Hn : (0 < n <= length src)%nat /\ dstva mod 4096 + Z.of_nat n <= 4096)
    by (clear - Hl0; subst n; page_lia).
  set (a := uaddr (mem s) root dstva). set (m1 := write_bytes (mem s) a (take n src)).
  assert (Hltk : length (take n src) = n) by (rewrite length_take; lia).
  assert (Hua : forall k, (k < n)%nat -> uaddr (mem s) root (dstva + Z.of_nat k) = a + Z.of_nat k).
  { intros k Hk. rewrite (uaddr_page (mem s) root dstva); [fold a; lia | clear - Hk Hn; page_lia |].
    apply user_writable_page, Hu. lia. }
  assert (Hpte : forall p i, is_Some (O !! p) -> 0 <= i < 512 -> pte_at m1 p i = pte_at (mem s) p i).
  { intros p i Hp Hi. apply load64_ext. intros x Hx. unfold m1.
    destruct (Z.lt_ge_cases x a), (Z.lt_ge_cases x (a + Z.of_nat n));
      try (apply write_bytes_out; lia). exfalso.
    destruct (Hu (dstva + (x - a))) as [_ Hd']; [lia |].
    specialize (Hd' p Hp). replace (x - a) with (Z.of_nat (Z.to_nat (x - a))) in Hd' by lia.
    rewrite Hua in Hd' by lia. unfold entry, PGSIZE in *. lia. }
  assert (Hlk : forall va, pt_lookup 2 m1 root va = pt_lookup 2 (mem s) root va).
  { intros va. apply (pt_lookup_frame _ _ _ O); auto. intros q k _ Hq.
    apply Hpte; [eauto | apply PX_level_range]. }
  assert (Hua1 : forall va, uaddr m1 root va = uaddr (mem s) root va)
    by (intros va; unfold uaddr; now rewrite Hlk).
  assert (Hdrop : length (drop n src) = (length src - n)%nat) by apply length_drop.
  set (s1 := set_mem (fun m => write_bytes m a (take n src)) s).
  change (mem s1) with m1 in *.
  assert (Enext : (n < length src)%nat ->
            u64 (dstva - dstva mod PGSIZE + PGSIZE) = dstva + Z.of_nat n).
  { intros Hnl. rewrite u64_small; clear - Hd Hmax HM Hnl; subst n; page_lia. }
  destruct (decide (n = length src)) as [El | Hnl].
  - exists m1. rewrite drop_ge by lia. split_and!.
    + destruct fuel; reflexivity.
    + intros k b Hk. pose proof (lookup_lt_Some _ _ _ Hk). rewrite Hua by lia.
      apply write_bytes_at. now rewrite take_ge by lia.
    + intros x Hx. unfold m1. apply write_bytes_out. rewrite Hltk.
      destruct (Z.lt_ge_cases x a), (Z.lt_ge_cases x (a + Z.of_nat n)); try lia. exfalso.
      apply (Hx (Z.to_nat (x - a))); [lia |]. rewrite Hua by lia. lia.
  - rewrite Enext by lia.
    destruct (IH s1 h root O (dstva + Z.of_nat n) (drop n src)) as (m' & E & Hin & Hout).
    + now apply (pt_wf_ext (mem s)).
    + lia.
    + lia.
    + lia.
    + intros va Hva. change (mem s1) with m1. rewrite Hua1.
      destruct (Hu va ltac:(lia)) as [(v & Hw) Hd']. split; [| exact Hd'].
      exists v. now rewrite Hlk.
    + intros va va' Hva Hva'. change (mem s1) with m1. rewrite !Hua1. intros Eq.
      apply Hinj; auto; lia.
    + change (mem s1) with m1 in *. exists m'. split_and!.
      * rewrite E. reflexivity.
      * intros k b Hk. pose proof (lookup_lt_Some _ _ _ Hk).
        destruct (decide (k < n)%nat) as [Hkn | Hkn].
        -- rewrite Hout.
           ++ rewrite Hua by lia. apply write_bytes_at. rewrite lookup_take. now rewrite decide_True.
           ++ intros j Hj Eq. rewrite Hua1 in Eq. apply Hinj in Eq; lia.
        -- rewrite <- (Hin (k - n)%nat b).
           ++ rewrite Hua1. do 2 f_equal. lia.
           ++ rewrite lookup_drop. rewrite <- Hk. f_equal. lia.
      * intros x Hx. rewrite Hout.
        -- unfold m1. apply write_bytes_out. rewrite Hltk.
           destruct (Z.lt_ge_cases x a), (Z.lt_ge_cases x (a + Z.of_nat n)); try lia. exfalso.
           apply (Hx (Z.to_nat (x - a))); [lia |]. rewrite Hua by lia. lia.
        -- intros k Hk Eq. apply (Hx (n + k)%nat); [lia |]. rewrite Eq, Hua1. f_equal. lia.
Qed.

(** ** What [copyout] can touch, whatever its arguments *)

(** The frames of user mappings are no table pages. *)
Definition frames_off_tables (m : memory) (root : Z) (O : owner) : Prop :=
  forall va v lv p, 0 <= va < MAXVA -> pt_lookup 2 m root va = Some (v, lv) -> flag v PTE_U = true ->
    is_Some (O !! p) ->
    PTE2PA v + PGSIZE <= p \/ p + PGSIZE <= PTE2PA v.

(** [x] lies in the frame of a page the user may write. *)
Definition user_may_write (m : memory) (root x : Z) : Prop :=
  exists va v lv, 0 <= va < MAXVA /\ pt_lookup 2 m root va = Some (v, lv) /\
    flag v PTE_U = true /\ flag v PTE_W = true /\ PTE2PA v <= x < PTE2PA v + PGSIZE.

Lemma copyout_loop_safe fuel : forall s h root O dstva src,
  pt_wf (mem s) root O -> frames_off_tables (mem s) root O -> 0 <= dstva -> (length src <= fuel)%nat ->
  exists r m', copyout_loop fuel root dstva src h s = Ret r h (set_mem (fun _ => m') s) /\
    (r = 0 \/ r = -1) /\
    (forall x, ~ user_may_write (mem s) root x -> m' x = mem s x).
Proof.
  assert (HM : MAXVA = 2 ^ 38) by reflexivity.
  induction fuel as [|fuel IH]; intros s h root O dstva src Hwf Hfr Hd Hlen.
  all: assert (Hret : forall r, r = 0 \/ r = -1 -> exists r' m', @Ret phys Z r h s = Ret r' h (set_mem (fun _ => m') s) /\
    (r' = 0 \/ r' = -1) /\ (forall x, ~ user_may_write (mem s) root x -> m' x = mem s x))
    by (intros r Hr; exists r, (mem s); destruct s; auto).
  { destruct src; [apply Hret; auto | cbn in Hlen; lia]. }
  destruct src as [|b src]; [apply Hret; auto |]. cbn [copyout_loop].
  set (va0 := PGROUNDDOWN dstva).
  assert (Hva0 : va0 = dstva - dstva mod PGSIZE) by apply PGROUNDDOWN_eq.
  destruct (Z.leb_spec MAXVA va0) as [Hge | Hlt]; [apply Hret; auto |].
  assert (Hva0' : 0 <= va0 < MAXVA) by (split; [rewrite Hva0; clear - Hd; page_lia | auto]).
  destruct (walk_noalloc s h root O va0 Hwf Hlt) as (w & Ew & Hw). rewrite (bind_Ret _ _ _ _ _ _ _ Ew).
  destruct (Z.eqb_spec w 0) as [-> | Hw0]; [apply Hret; auto |]. unfold read64. krun.
  destruct (negb (flag (load64 (mem s) w) PTE_W)) eqn:EW; [apply Hret; auto |].
  rewrite (bind_Ret _ _ _ _ _ _ _ (walkaddr_run s h root O va0 Hwf)).
  rewrite (proj2 (Z.leb_gt _ _)) by auto. unfold walk_finds in Hw.
  destruct (pt_lookup 2 (mem s) root va0) as [[v lv] |] eqn:Elk; [| apply Hret; auto].
  destruct (flag v PTE_U) eqn:EU; [| apply Hret; auto].
  destruct (Z.eqb_spec (PTE2PA v) 0) as [Ez | Enz]; [apply Hret; auto |]. krun.
  destruct Hw as (_ & _ & _ & p & Hp & -> & Hpv).
  change (load64 (mem s) (entry p (PX (Z.of_nat lv) va0))) with (pte_at (mem s) p (PX (Z.of_nat lv) va0)) in EW.
  rewrite Hpv in EW. apply negb_false_iff in EW.
  set (n := Z.min (PGSIZE - (dstva - va0)) (Z.of_nat (length (b :: src)))).
  set (a := PTE2PA v + (dstva - va0)). set (bs := take (Z.to_nat n) (b :: src)).
  assert (Hn : 0 < n <= Z.of_nat (length (b :: src)) /\ dstva - va0 + n <= PGSIZE /\ 0 <= dstva - va0).
  { assert (0 < Z.of_nat (length (b :: src))) by (cbn; lia). clear - Hva0 H1. subst n va0.
    rewrite PGROUNDDOWN_eq in *. page_lia. }
  assert (Hbs : Z.of_nat (length bs) = n) by (subst bs; rewrite length_take; lia).
  set (m1 := write_bytes (mem s) a bs).
  assert (Hm1 : forall x, x < PTE2PA v \/ PTE2PA v + PGSIZE <= x -> m1 x = mem s x)
    by (intros x Hx; apply write_bytes_out; lia).
  assert (Hpte : forall q i, is_Some (O !! q) -> 0 <= i < 512 -> pte_at m1 q i = pte_at (mem s) q i).
  { intros q i Hq Hi. apply load64_ext. intros x Hx. apply Hm1.
    destruct (Hfr va0 v lv q Hva0' Elk EU Hq); unfold entry, PGSIZE in *; lia. }
  assert (Hlk : forall va, pt_lookup 2 m1 root va = pt_lookup 2 (mem s) root va).
  { intros va. apply (pt_lookup_frame _ _ _ O); auto. intros q k _ Hq.
    apply Hpte; [eauto | apply PX_level_range]. }
  destruct (IH (set_mem (fun m => write_bytes m a bs) s) h root O (u64 (va0 + PGSIZE)) (drop (Z.to_nat n) (b :: src)))
    as (r & m' & E & Hr & Hx).
  - now apply (pt_wf_ext (mem s)).
  - intros va w lw q Hva Hw HU. change (mem (set_mem _ s)) with m1 in Hw. rewrite Hlk in Hw. eauto.
  - apply u64_range.
  - rewrite length_drop. cbn [length] in *. lia.
  - exists r, m'. split_and!; auto. intros x Hnw. rewrite Hx.
    + apply Hm1. destruct (Z.lt_ge_cases x (PTE2PA v)), (Z.lt_ge_cases x (PTE2PA v + PGSIZE)); auto.
      exfalso. apply Hnw. exists va0, v, lv. split_and!; auto; lia.
    + change (mem (set_mem _ s)) with m1. intros (va & w & lw & Hva & Hw & Hr'). apply Hnw.
      rewrite Hlk in Hw. exists va, w, lw. auto.
Qed.

End user.
