(* ===== verification/VmDemo.v ===== *)
(** * A small machine

    Sixteen free pages, one of which became an empty page table; concrete
    states on which the theorems about page tables are exercised. *)

From S2P Require Import Prelude KMonad Riscv Mem Printf Kalloc KallocSafety Vm VmTable VmWalk VmMap VmUnmap.

Definition demo_base : Z := 0x80100000.

Definition demo_boot : M phys Z :=
  freerange_loop 16 demo_base (demo_base + 16 * PGSIZE);; uvmcreate.

Definition demo : phys :=
  match demo_boot [] (boot_phys (fun _ => 0)) with
  | Ret _ _ s => s
  | _ => boot_phys (fun _ => 0)
  end.

Definition demo_root : Z := demo_base + 15 * PGSIZE.
Definition demo_free : list Z := rev (range_pages demo_base 15).

Lemma demo_all :
  (vm_inv demo demo_root {[demo_root := []]} demo_free /\
   forall va, pt_lookup 2 (mem demo) demo_root va = None) /\
  superpages demo = replicate (Z.to_nat NSUPERPAGES) 0 /\ nfree demo = 0.
Proof.
  destruct (freerange_loop_spec 16 16 demo_base (demo_base + 16 * PGSIZE) [] (boot_phys (fun _ => 0)) [])
    as (s1 & E1 & Hk1 & Esp1 & Enf1).
  - split_and!; [reflexivity | constructor | constructor].
  - apply not_elem_of_nil.
  - split; vm_compute; congruence.
  - lia.
  - repeat constructor; vm_compute; congruence.
  - intros x _. apply not_elem_of_nil.
  - destruct (uvmcreate_run s1 [] demo_root demo_free Hk1 (not_elem_of_nil _))
      as (s2 & E2 & Hi & Hn & _ & Esp2 & Enf2).
    assert (E : demo_boot [] (boot_phys (fun _ => 0)) = Ret demo_root [] s2).
    { unfold demo_boot. now rewrite (bind_Ret _ _ _ _ _ _ _ E1). }
    unfold demo. rewrite E, Esp2, Esp1, Enf2, Enf1. auto.
Qed.

Lemma demo_inv :
  vm_inv demo demo_root {[demo_root := []]} demo_free /\
  forall va, pt_lookup 2 (mem demo) demo_root va = None.
Proof. apply demo_all. Qed.

Lemma demo_pool : superpages demo = replicate (Z.to_nat NSUPERPAGES) 0 /\ nfree demo = 0.
Proof. apply demo_all. Qed.

#[global] Opaque demo.

Definition demo_perm : Z := Z.lor (Z.lor PTE_R PTE_W) PTE_U.

Lemma demo_perm_ok : perm_ok demo_perm.
Proof. split; [split; [split; vm_compute; congruence | reflexivity] | reflexivity]. Qed.

Lemma demo_nolock : kmem_lock ∉ ([] : locks).
Proof. apply not_elem_of_nil. Qed.


Definition ret0 {S} (o : outcome S Z) : bool :=
  match o with Ret 0 _ _ => true | _ => false end.

Definition state_or {S A} (d : S) (o : outcome S A) : S :=
  match o with Ret _ _ s => s | _ => d end.

Definition panic_of {S A} (o : outcome S A) : option string :=
  match o with Panic msg => Some msg | _ => None end.

Definition value_of {S A} (o : outcome S A) : option A :=
  match o with Ret a _ _ => Some a | _ => None end.

Definition boot0 : phys := boot_phys (fun _ => 0).

Lemma demo_uvm : uvm demo demo_root {[demo_root := []]} demo_free.
Proof.
  constructor.
  - apply demo_inv.
  - destruct demo_pool as [Es En]. unfold super_inv, super_free. rewrite Es, En. split_and!; auto;
      first [constructor | vm_compute; congruence].
  - intros p [Hp | Hp].
    + apply lookup_singleton_is_Some in Hp as <-. vm_compute. congruence.
    + unfold demo_free in Hp. rewrite <- Permutation_rev in Hp.
      apply elem_of_range_pages in Hp as (i & Hi & ->).
      assert (demo_base + PGSIZE * 16 <= pool_base) by (vm_compute; congruence).
      unfold PGSIZE in *. lia.
Qed.
