(* ===== verification/VmSpec.v ===== *)
(** * Theorems about page tables

    The contract of the mapping routines of [kernel/vm.c], stated against the
    hardware's translation, with a small machine on which each is
    exercised. *)

From S2P Require Import Prelude KMonad Riscv Mem Printf Kalloc KallocSafety Vm VmTable VmWalk VmMap VmDemo.

Section theorems.
Context `{LayoutOk}.

(** [uvmcreate] with a free page returns a page table in which nothing
    is mapped, takes exactly that page off the free list and touches no other
    memory. *)
Theorem uvmcreate_spec s h p l :
  kmem_inv s (p :: l) -> kmem_lock ∉ h ->
  exists s', uvmcreate h s = Ret p h s' /\ vm_inv s' p {[p := []]} l /\
    (forall va, sv39_translate (mem s') p va = None) /\
    same_except [p] (mem s) (mem s').
Proof.
  intros Hk Hh. destruct (uvmcreate_run s h p l Hk Hh) as (s' & E & Hi & Hn & Hm & _).
  exists s'. split_and!; auto. intros va. unfold sv39_translate. now rewrite Hn.
Qed.

(** C23: [mappages] on page-aligned arguments ends in one of three ways.  It
    returns 0 and the hardware translates every address of the range to the
    matching physical address with the given permissions, no other address
    being affected; or it returns -1, and then the free list is exhausted and a
    prefix of the range is mapped; or it panics, and then a page of the range
    was mapped already.  It never runs out of fuel, and memory outside the page
    table and the free pages is unchanged. *)
Theorem mappages_translates s h root O l va n pa perm :
  vm_inv s root O l -> kmem_lock ∉ h -> perm_ok perm ->
  0 < n -> 0 <= va -> va mod PGSIZE = 0 -> va + n * PGSIZE <= MAXVA ->
  0 <= pa -> pa mod PGSIZE = 0 -> pa + n * PGSIZE <= 2 ^ 56 ->
  let translates s' k := forall va', 0 <= va' < 2 ^ 39 ->
    sv39_translate (mem s') root va' =
    if (va <=? va') && (va' <? va + k * PGSIZE)
    then Some (pa + (va' - va), Z.lor perm PTE_V)
    else sv39_translate (mem s) root va' in
  (exists s' O' l', mappages root va (n * PGSIZE) pa perm h s = Ret 0 h s' /\
     vm_inv s' root O' l' /\ ext s s' O O' l l' /\ translates s' n) \/
  (exists s' O' k, mappages root va (n * PGSIZE) pa perm h s = Ret (-1) h s' /\
     vm_inv s' root O' [] /\ ext s s' O O' l [] /\ 0 <= k < n /\ translates s' k) \/
  (mappages root va (n * PGSIZE) pa perm h s = Panic "mappages: remap" /\
   exists va', va <= va' < va + n * PGSIZE /\ pt_lookup 2 (mem s) root va' <> None).
Proof.
  intros Hi Hh Hperm Hn Hva Hal Hmax Hpa Hpal Hpmax translates.
  destruct (mappages_run s h root O l va n pa perm)
    as [s' O' l' Hi' Hx Hf Hm _ | s' O' j Hi' Hx Hj Hf Hm _ | va' Hva' Hf]; auto; [apply Hperm | | |].
  - left. exists s', O', l'. split_and!; auto. intros va' Hva'.
    now apply mapped_translate.
  - right; left. exists s', O', j. split_and!; auto; try lia. intros va' Hva'.
    apply mapped_translate; auto. unfold PGSIZE in *. lia.
  - right; right. eauto.
Qed.

(** [supermappages] returns 0 only if the hardware then translates all 2
    MiB at [va] to the superpage at [pa] and everything else as before; it
    returns -1 only when the free list is exhausted, with the translation
    unchanged; otherwise it panics, and then the level-1 entry of [va] was in
    use. *)
Theorem supermappages_translates s h root O l va pa perm :
  vm_inv s root O l -> kmem_lock ∉ h -> perm_ok perm ->
  0 <= va -> va mod SUPERPGSIZE = 0 -> va < MAXVA ->
  frame_ok pa -> pa mod SUPERPGSIZE = 0 ->
  (exists s' O' l', supermappages root va pa perm h s = Ret 0 h s' /\
     vm_inv s' root O' l' /\ ext s s' O O' l l' /\
     forall va', 0 <= va' < 2 ^ 39 ->
       sv39_translate (mem s') root va' =
       if (va <=? va') && (va' <? va + SUPERPGSIZE)
       then Some (pa + (va' - va), Z.lor perm PTE_V)
       else sv39_translate (mem s) root va') \/
  (exists s' O', supermappages root va pa perm h s = Ret (-1) h s' /\
     vm_inv s' root O' [] /\ ext s s' O O' l [] /\
     forall va', sv39_translate (mem s') root va' = sv39_translate (mem s) root va') \/
  (supermappages root va pa perm h s = Panic "supermappages: remap" /\
   exists s' O' l' p, vm_inv s' root O' l' /\ ext s s' O O' l l' /\
     O' !! p = Some (take 1 (path va)) /\ valid (pte_at (mem s') p (PX 1 va)) = true).
Proof.
  intros Hi Hh Hperm Hva Hal Hmax Hpa Hpal.
  destruct (supermappages_run s h root O l va pa perm)
    as [s' O' l' Hi' Hx Hf Hm _ | s' O' Hi' Hx Hm _ | s' O' l' p Hi' Hx _ _ Hp Hv]; auto; [apply Hperm | | |].
  - left. exists s', O', l'. split_and!; auto. intros va' Hva'. now apply supermapped_translate.
  - right; left. exists s', O'. split_and!; auto. intros va'. unfold sv39_translate. now rewrite Hm.
  - right; right. eauto 10.
Qed.

(** On 4 KiB mappings [walkaddr] agrees with the hardware: it returns the
    page's physical address for a user page and 0 for an unmapped or
    kernel-only one. *)
Theorem walkaddr_page s h root O va :
  pt_wf (mem s) root O -> va < MAXVA ->
  (forall v lv, pt_lookup 2 (mem s) root va = Some (v, lv) ->
     lv = 0%nat /\ exists pa perm, v = mkpte pa perm /\ frame_ok pa /\ perm_ok perm) ->
  match sv39_translate (mem s) root va with
  | Some (pa, f) =>
      walkaddr root va h s = Ret (if flag f PTE_U then pa - va mod PGSIZE else 0) h s
  | None => walkaddr root va h s = Ret 0 h s
  end.
Proof.
  intros Hwf Hva Hv. rewrite (walkaddr_run _ _ _ O) by auto.
  rewrite (proj2 (Z.leb_gt _ _)) by auto.
  destruct (pt_lookup 2 (mem s) root va) as [[v lv] |] eqn:E.
  - destruct (Hv v lv eq_refl) as (-> & pa & perm & -> & Hpa & Hp).
    rewrite (translate_mkpte _ _ _ _ _ 0 Hpa Hp (proj2 Hpa) E).
    destruct Hpa as [Hpa Hpal], Hp as [[Hp ?] ?].
    rewrite flag_mkpte, PTE2PA_mkpte by (first [assumption | split; vm_compute; congruence]).
    rewrite flag_lor. change (2 ^ PXSHIFT (Z.of_nat 0)) with PGSIZE.
    destruct (flag perm PTE_U || flag PTE_V PTE_U); f_equal; lia.
  - unfold sv39_translate. now rewrite E.
Qed.

(** On a superpage [walkaddr] returns the base of the superpage whatever
    the address, while the hardware adds the offset within the 2 MiB: for every
    page but the first of a superpage [walkaddr] names the wrong page. *)
Theorem walkaddr_superpage s h root O va pa perm :
  pt_wf (mem s) root O -> 0 <= va < MAXVA -> frame_ok pa -> pa mod SUPERPGSIZE = 0 ->
  perm_ok perm -> flag perm PTE_U = true ->
  pt_lookup 2 (mem s) root va = Some (mkpte pa perm, 1%nat) ->
  walkaddr root va h s = Ret pa h s /\
  sv39_translate (mem s) root va = Some (pa + va mod SUPERPGSIZE, Z.lor perm PTE_V).
Proof.
  intros Hwf Hva Hpa Hpal Hp Hu E. split.
  - rewrite (walkaddr_run _ _ _ O), (proj2 (Z.leb_gt _ _)), E by lia || auto.
    destruct Hpa as [Hpa Hpa'], Hp as [[Hp ?] ?].
    rewrite flag_mkpte, PTE2PA_mkpte by (first [assumption | split; vm_compute; congruence]).
    now rewrite Hu.
  - apply (translate_mkpte _ _ _ _ _ 1 Hpa Hp Hpal E).
Qed.

End theorems.

(** ** Witnesses on the small machine *)

Definition demo_frame : Z := 0x80200000.

(** [demo] with two pages mapped at 0x5000. *)
Definition demo_map : outcome phys Z :=
  mappages demo_root 0x5000 (2 * PGSIZE) demo_frame demo_perm [] demo.
Definition demo1 : phys := state_or demo demo_map.

(** [demo] with a superpage mapped at 0x200000. *)
Definition demo_smap : outcome phys Z :=
  supermappages demo_root 0x200000 pool_base demo_perm [] demo.
Definition demo2 : phys := state_or demo demo_smap.

Lemma demo1_inv : exists O l, vm_inv demo1 demo_root O l /\
  mapped (mem demo) (mem demo1) demo_root 0x5000 2 demo_frame demo_perm.
Proof.
  destruct demo_inv as [Hi Hn].
  pose proof (mappages_run demo [] demo_root _ _ 0x5000 2 demo_frame demo_perm
    Hi demo_nolock (proj1 demo_perm_ok) ltac:(lia) ltac:(lia) eq_refl ltac:(vm_compute; congruence)
    ltac:(vm_compute; congruence) eq_refl ltac:(vm_compute; congruence)) as Ho.
  assert (E : ret0 demo_map = true) by (vm_compute; reflexivity).
  unfold demo1. fold demo_map in Ho. destruct Ho; try discriminate. cbn. eauto.
Qed.

Lemma demo2_inv : exists O l, vm_inv demo2 demo_root O l /\
  supermapped (mem demo) (mem demo2) demo_root 0x200000 pool_base demo_perm.
Proof.
  destruct demo_inv as [Hi Hn].
  pose proof (supermappages_run demo [] demo_root _ _ 0x200000 pool_base demo_perm
    Hi demo_nolock (proj1 demo_perm_ok) ltac:(lia) eq_refl ltac:(vm_compute; congruence)
    ltac:(split; [split; vm_compute; congruence | reflexivity])) as Ho.
  assert (E : ret0 demo_smap = true) by (vm_compute; reflexivity).
  unfold demo2. fold demo_smap in Ho. destruct Ho; try discriminate. cbn. eauto.
Qed.

Lemma uvmcreate_spec_witness : exists s',
  uvmcreate [] (state_or demo (freerange_loop 16 demo_base (demo_base + 16 * PGSIZE) [] (boot_phys (fun _ => 0))))
    = Ret demo_root [] s' /\
  forall va, sv39_translate (mem s') demo_root va = None.
Proof.
  destruct (freerange_loop_spec 16 16 demo_base (demo_base + 16 * PGSIZE) [] (boot_phys (fun _ => 0)) [])
    as (s1 & E1 & Hk1 & _).
  - split_and!; [reflexivity | constructor | constructor].
  - apply not_elem_of_nil.
  - split; vm_compute; congruence.
  - lia.
  - repeat constructor; vm_compute; congruence.
  - intros x _. apply not_elem_of_nil.
  - rewrite E1. cbn [state_or].
    destruct (uvmcreate_spec s1 [] demo_root demo_free Hk1 (not_elem_of_nil _))
      as (s2 & E2 & _ & Hn & _).
    exists s2. auto.
Defined.

Lemma mappages_translates_witness :
  exists s', mappages demo_root 0x5000 (2 * PGSIZE) demo_frame demo_perm [] demo = Ret 0 [] s' /\
    sv39_translate (mem s') demo_root 0x6123 = Some (demo_frame + 0x1123, Z.lor demo_perm PTE_V).
Proof.
  destruct demo_inv as [Hi Hn].
  assert (E : ret0 demo_map = true) by (vm_compute; reflexivity). unfold demo_map in E.
  destruct (mappages_translates demo [] demo_root _ _ 0x5000 2 demo_frame demo_perm
    Hi demo_nolock demo_perm_ok ltac:(lia) ltac:(lia) eq_refl ltac:(vm_compute; congruence)
    ltac:(vm_compute; congruence) eq_refl ltac:(vm_compute; congruence))
    as [(s' & O' & l' & Er & _ & _ & Ht) | [(s' & O' & k & Er & _) | (Er & _)]];
    rewrite Er in E; try discriminate E.
  exists s'. split; [exact Er |]. now rewrite Ht by (vm_compute; split; congruence).
Defined.

Lemma supermappages_translates_witness :
  exists s', supermappages demo_root 0x200000 pool_base demo_perm [] demo = Ret 0 [] s' /\
    sv39_translate (mem s') demo_root 0x301234
      = Some (pool_base + 0x101234, Z.lor demo_perm PTE_V).
Proof.
  destruct demo_inv as [Hi Hn].
  assert (E : ret0 demo_smap = true) by (vm_compute; reflexivity). unfold demo_smap in E.
  destruct (supermappages_translates demo [] demo_root _ _ 0x200000 pool_base demo_perm
    Hi demo_nolock demo_perm_ok ltac:(lia) eq_refl ltac:(vm_compute; congruence)
    ltac:(split; [split; vm_compute; congruence | reflexivity]) eq_refl)
    as [(s' & O' & l' & Er & _ & _ & Ht) | [(s' & O' & Er & _) | (Er & _)]];
    rewrite Er in E; try discriminate E.
  exists s'. split; [exact Er |]. now rewrite Ht by (vm_compute; split; congruence).
Defined.

Lemma walkaddr_page_witness :
  walkaddr demo_root 0x6000 [] demo1 = Ret (demo_frame + PGSIZE) [] demo1.
Proof.
  destruct demo1_inv as (O & l & [Hwf _] & Hm).
  assert (Hl : pt_lookup 2 (mem demo1) demo_root 0x6000
               = Some (mkpte (demo_frame + PGSIZE) demo_perm, 0%nat))
    by (rewrite Hm by (vm_compute; split; congruence); reflexivity).
  assert (Hf : frame_ok (demo_frame + PGSIZE))
    by (split; [split; vm_compute; congruence | reflexivity]).
  pose proof (walkaddr_page demo1 [] demo_root O 0x6000 Hwf ltac:(vm_compute; congruence)) as Ht.
  rewrite (translate_mkpte _ _ _ _ _ 0 Hf demo_perm_ok eq_refl Hl) in Ht. rewrite Ht; [reflexivity |].
  intros v lv E. rewrite Hl in E. injection E as <- <-. split; [reflexivity |].
  exists (demo_frame + PGSIZE), demo_perm. auto using demo_perm_ok.
Defined.

Lemma walkaddr_superpage_witness :
  walkaddr demo_root 0x201000 [] demo2 = Ret pool_base [] demo2 /\
  sv39_translate (mem demo2) demo_root 0x201000
    = Some (pool_base + PGSIZE, Z.lor demo_perm PTE_V).
Proof.
  destruct demo2_inv as (O & l & [Hwf _] & Hm).
  assert (Hl : pt_lookup 2 (mem demo2) demo_root 0x201000 = Some (mkpte pool_base demo_perm, 1%nat))
    by (rewrite Hm by (vm_compute; split; congruence); reflexivity).
  exact (walkaddr_superpage demo2 [] demo_root O 0x201000 pool_base demo_perm Hwf
    ltac:(split; vm_compute; congruence) ltac:(split; [split; vm_compute; congruence | reflexivity])
    eq_refl demo_perm_ok eq_refl Hl).
Defined.

(** ** Growing and shrinking a process across superpages

    Executions of [kinit], [uvmcreate] and the routines behind [sbrk], from
    the machine's initial state. *)

(** Shrinking a process that has a superpage to a size inside that
    superpage panics the kernel: [uvmdealloc] from 2 MiB to 1 MiB finds no
    level-0 entry for the second page. *)
Theorem shrink_into_superpage_panics :
  panic_of ((kinit;;
             pt <- uvmcreate;;
             _ <- uvmalloc pt 0 SUPERPGSIZE PTE_W;;
             uvmdealloc pt SUPERPGSIZE (SUPERPGSIZE / 2)) [] boot0)
  = Some "uvmunmap: walk"%string.
Proof. vm_compute. reflexivity. Qed.

(** Growing a process by one 4 KiB page, shrinking it back and growing it
    by 2 MiB panics the kernel: the level-0 table left behind makes
    [supermappages] take the free range for mapped. *)
Theorem regrow_with_superpage_panics :
  panic_of ((kinit;;
             pt <- uvmcreate;;
             _ <- uvmalloc pt 0 PGSIZE PTE_W;;
             _ <- uvmdealloc pt PGSIZE 0;;
             uvmalloc pt 0 SUPERPGSIZE PTE_W) [] boot0)
  = Some "supermappages: remap"%string.
Proof. vm_compute. reflexivity. Qed.

(** [copyin] from the second page of a superpage reads the first page:
    with the byte 7 stored at the physical address that the hardware gives for
    virtual address 4096, [copyin] at 4096 succeeds with the byte 0, which is
    the one at virtual address 0. *)
Theorem copyin_superpage_reads_wrong_page :
  value_of ((kinit;;
             pt <- uvmcreate;;
             _ <- uvmalloc pt 0 SUPERPGSIZE PTE_W;;
             tr <- gets (fun s => sv39_translate (mem s) pt PGSIZE);;
             let pa := match tr with Some (pa, _) => pa | None => 0 end in
             modify (set_mem (fun m => upd m pa 7));;
             r <- copyin pt PGSIZE 1;;
             ret (pa, r)) [] boot0)
  = Some (pool_base + PGSIZE, (0, [0])).
Proof. vm_compute. reflexivity. Qed.
