(* ===== verification/VmSpaceSpec.v ===== *)
(** * Theorems about user address spaces

    Growing, shrinking, copying and destroying the memory of a process, and
    moving data across the user/kernel boundary. *)

From S2P Require Import Prelude KMonad Riscv Mem Printf Kalloc KallocSafety Vm VmTable VmWalk VmMap VmUnmap VmAlloc VmCopy VmFree VmUser VmDemo.

Section theorems.
Context `{LayoutOk}.

(** C21: Growing a process from [oldsz] to [newsz] over unmapped addresses ends
    in one of three ways.  If [uvmalloc] returns [newsz], then a program reads zero
    at every new address, with user and read permission and those of [xperm], and
    what it reads elsewhere is unchanged; the frames are distinct, come from the
    free lists and from nowhere else.  It returns 0 only if, at some address of the
    range, at most one page was left or a superpage was needed and none was left;
    then every frame is back in its pool and no translation has changed.  It panics
    with "supermappages: remap" only if the page table already has a level-0 table
    under a superpage of the range, which shrinking a process leaves there. *)
Theorem uvmalloc_spec h root s O l oldsz newsz xperm :
  kmem_lock ∉ h -> supermem_lock ∉ h -> uvm s root O l ->
  0 <= oldsz <= newsz -> newsz <= MAXVA -> 0 <= xperm < 1024 ->
  (forall va, PGROUNDUP oldsz <= va < PGROUNDUP newsz -> pt_lookup 2 (mem s) root va = None) ->
  (exists s' O' l' b fs, uvmalloc root oldsz newsz xperm h s = Ret newsz h s' /\
     newsz <= b < newsz + PGSIZE /\
     grown root s O l (PGROUNDUP oldsz) (fun _ lv => uperm lv xperm) (fun _ => 0) s' O' l' b fs /\
     frames_ok s' O' l' fs /\
     (forall va, PGROUNDUP oldsz <= va < b ->
        exists lv, user_read (mem s') root va = Some (0, Z.lor (uperm lv xperm) PTE_V)) /\
     (forall va, 0 <= va < 2 ^ 39 -> ~ (PGROUNDUP oldsz <= va < b) ->
        sv39_translate (mem s') root va = sv39_translate (mem s) root va)) \/
  (exists s' O' l', uvmalloc root oldsz newsz xperm h s = Ret 0 h s' /\
     restored root s O l s' O' l' /\ ran_out root s O l (PGROUNDUP oldsz) newsz xperm) \/
  (uvmalloc root oldsz newsz xperm h s = Panic "supermappages: remap" /\
   exists a p, PGROUNDUP oldsz <= a /\ a mod SUPERPGSIZE = 0 /\ a + SUPERPGSIZE <= newsz /\
     O !! p = Some (take 2 (path a))).
Proof.
  intros Hh Hh' Hu Ho Hn Hx Hnone.
  destruct (uvmalloc_run h root s O l oldsz newsz xperm Hh Hh' Hu Ho Hn Hx Hnone)
    as [s' O' l' b fs Hg Hb | s' O' l' Hre Hout | a p Ha Hal Hfit Hp]; [left | right; left | right; right].
  - exists s', O', l', b, fs. split_and!; auto; try apply Hb; [eapply grown_frames; eauto | |].
    + intros va Hva. destruct (gr_perm _ _ _ _ _ _ _ _ _ _ _ _ Hg va Hva) as (pa & lv & Hlv & Hpa & Hal & E).
      exists lv. rewrite (read_mkpte _ _ _ _ _ _ Hlv Hpa Hal (uperm_ok lv xperm Hx) E).
      do 2 f_equal. rewrite <- (gr_data _ _ _ _ _ _ _ _ _ _ _ _ Hg va _ lv Hva E).
      rewrite PTE2PA_mkpte; try apply Hpa; [reflexivity |]. now apply uperm_range.
    + intros va Hva Hout. unfold sv39_translate.
      now rewrite (gr_lookup _ _ _ _ _ _ _ _ _ _ _ _ Hg va Hva Hout).
  - exists s', O', l'. now split_and!.
  - eauto 10.
Qed.

(** [uvmunmap] of a run of pages and superpages that tiles the range
    removes exactly those translations.  With [do_free], every 4 KiB frame goes
    to the free list and every superpage to the superpage pool; otherwise both
    pools are unchanged.  Memory outside the page table and the freed frames is
    untouched. *)
Theorem uvmunmap_spec s h root O l a n (do_free : bool) fs :
  uvm s root O l -> kmem_lock ∉ h -> supermem_lock ∉ h ->
  0 <= a -> a mod PGSIZE = 0 -> 0 <= n -> a + n * PGSIZE <= MAXVA ->
  region (mem s) root a (a + n * PGSIZE) fs -> (do_free = true -> frames_ok s O l fs) ->
  exists s',
    uvmunmap root a n do_free h s = Ret tt h s' /\
    uvm s' root O (if do_free then rev (smalls fs) ++ l else l) /\
    super_free s' = super_free s ++ (if do_free then supers fs else []) /\
    (forall va, 0 <= va < 2 ^ 39 ->
       sv39_translate (mem s') root va =
       if (a <=? va) && (va <? a + n * PGSIZE) then None else sv39_translate (mem s) root va) /\
    (forall x, untouched O (if do_free then fs else []) x -> mem s' x = mem s x).
Proof.
  intros Hu Hh Hh' Ha Hal Hn Hmax Hr Hf.
  destruct (uvmunmap_run s h root O l a n do_free fs) as (s' & E & Hu' & Es & Hm & Hx); auto.
  exists s'. split_and!; auto. intros va Hva. unfold sv39_translate. rewrite Hm by auto.
  now destruct ((a <=? va) && (va <? a + n * PGSIZE)).
Qed.

(** C20: [uvmcopy] (the memory part of [fork]).  If it returns 0, the child
    reads the same byte with the same permissions as the parent at every address
    of the process, from frames of its own; if it returns -1, every frame is
    back in its pool and the child maps what it did before.  The parent's tables
    and memory are unchanged in both cases. *)
Theorem uvmcopy_spec h old new s Op O l sz fsp :
  kmem_lock ∉ h -> supermem_lock ∉ h -> uvm s new O l -> parent_ok old s Op O l sz fsp ->
  0 <= sz <= MAXVA ->
  (forall va, 0 <= va < PGROUNDUP sz -> pt_lookup 2 (mem s) new va = None) ->
  (forall va v lv, 0 <= va < PGROUNDUP sz -> pt_lookup 2 (mem s) old va = Some (v, lv) ->
     exists pa perm, v = mkpte pa perm /\ frame_ok pa /\ pa mod tsize lv = 0 /\ perm_ok perm) ->
  (exists s' O' l' fs, uvmcopy old new sz h s = Ret 0 h s' /\
     grown new s O l 0 (parent_perm old s) (parent_byte old s) s' O' l' (PGROUNDUP sz) fs /\
     frames_ok s' O' l' fs /\
     (forall va, 0 <= va < PGROUNDUP sz ->
        user_read (mem s') new va = user_read (mem s) old va) /\
     (forall x, outside s O l x -> mem s' x = mem s x)) \/
  (exists s' O' l', uvmcopy old new sz h s = Ret (-1) h s' /\
     restored new s O l s' O' l' /\ (forall x, outside s O l x -> mem s' x = mem s x)) \/
  (uvmcopy old new sz h s = Panic "supermappages: remap" /\
   exists a p, 0 <= a < sz /\ O !! p = Some (take 2 (path a))).
Proof.
  intros Hh Hh' Hu Hpar Hsz Hnone Henc.
  destruct (uvmcopy_run h old new s Op O l sz fsp Hh Hh' Hu Hpar Hsz Hnone)
    as [s' O' l' fs Hg | s' O' l' Hre | a p Ha Hp]; [left | right; left | right; right].
  - exists s', O', l', fs. split_and!; auto; [eapply grown_frames; eauto | |].
    + apply (copied_reads _ _ _ _ _ _ _ _ _ _ _ _ Hpar Henc Hg).
    + intros x [Hx1 Hx2]. now apply (gr_mem _ _ _ _ _ _ _ _ _ _ _ _ Hg).
  - exists s', O', l'. split_and!; auto. intros x [Hx1 Hx2]. now apply (re_mem _ _ _ _ _ _ _ Hre).
  - eauto.
Qed.

(** [uvmfree] of a process whose mappings are exactly its pages below
    [sz] gives everything back: afterwards the free list holds the page-table
    pages, the 4 KiB frames and what was free before, and the superpage pool
    holds its superpages again.  No page leaks and no other memory is touched. *)
Theorem uvmfree_spec s h root O l sz fs :
  uvm s root O l -> kmem_lock ∉ h -> supermem_lock ∉ h ->
  0 <= sz <= MAXVA -> region (mem s) root 0 (PGROUNDUP sz) fs -> frames_ok s O l fs ->
  (forall va, PGROUNDUP sz <= va < 2 ^ 39 -> pt_lookup 2 (mem s) root va = None) ->
  exists s' ps l', uvmfree root sz h s = Ret tt h s' /\
    kmem_inv s' l' /\ l' ≡ₚ ps ++ smalls fs ++ l /\ (forall q, q ∈ ps <-> is_Some (O !! q)) /\
    super_free s' = super_free s ++ supers fs /\ super_inv s' /\
    (forall x, untouched O fs x -> mem s' x = mem s x).
Proof. apply uvmfree_run. Qed.

(** A 4 KiB page that the user may access, as the kernel maps them. *)
Definition user_mapped (m : memory) (root va : Z) (write : bool) : Prop :=
  exists pa perm, pt_lookup 2 m root va = Some (mkpte pa perm, 0%nat) /\ frame_ok pa /\ pa <> 0 /\
    perm_ok perm /\ flag perm PTE_U = true /\ (write = true -> flag perm PTE_W = true).

Lemma user_mapped_page m root va write : user_mapped m root va write ->
  user_page m root va /\ (write = true -> user_writable m root va) /\
  exists f, user_read m root va = Some (m (uaddr m root va), f).
Proof.
  intros (pa & perm & E & Hpa & Hnz & Hp & HU & HW).
  assert (Hr : 0 <= perm < 1024) by apply Hp. destruct Hpa as [Hpa1 Hpa2].
  assert (Ef : forall f, 0 <= f < 1024 -> flag perm f = true -> flag (mkpte pa perm) f = true)
    by (intros f Hf Hfl; rewrite flag_mkpte, Hfl by auto; reflexivity).
  assert (Epa : PTE2PA (mkpte pa perm) = pa) by now apply PTE2PA_mkpte.
  split_and!.
  - exists (mkpte pa perm). rewrite Epa. split_and!; auto. apply Ef; [split; vm_compute; congruence | auto].
  - intros Hw. exists (mkpte pa perm). rewrite Epa.
    split_and!; auto; apply Ef; auto; split; vm_compute; congruence.
  - eexists. rewrite (read_mkpte m root va pa perm 0 ltac:(lia) (conj Hpa1 Hpa2) Hpa2 Hp E).
    unfold uaddr. rewrite E, Epa. reflexivity.
Qed.

(** [copyin] from 4 KiB user pages succeeds and returns the bytes that the
    program reads at those addresses; it changes nothing. *)
Theorem copyin_spec s h root O srcva len :
  pt_wf (mem s) root O -> 0 <= srcva -> 0 <= len -> srcva + len <= MAXVA ->
  (forall va, srcva <= va < srcva + len -> user_mapped (mem s) root va false) ->
  exists bs, copyin root srcva len h s = Ret (0, bs) h s /\ Z.of_nat (length bs) = len /\
    forall k b, bs !! k = Some b ->
      exists f, user_read (mem s) root (srcva + Z.of_nat k) = Some (b, f).
Proof.
  intros Hwf Hs Hl Hmax Hu. exists (user_bytes (mem s) root srcva len). split_and!.
  - apply (copyin_run s h root O); auto. intros va Hva. eapply user_mapped_page, Hu. auto.
  - unfold user_bytes. rewrite length_map, length_seqZ. lia.
  - intros k b Hk. unfold user_bytes in Hk. apply list_lookup_fmap_Some in Hk as (va & -> & Hva).
    apply lookup_seqZ in Hva as [-> Hk].
    eapply user_mapped_page, Hu. lia.
Qed.

(** [copyout] to distinct writable 4 KiB user pages that hold no page
    table succeeds; the program then reads the copied bytes there, [copyin]
    reads them back, and no other byte of memory changes. *)
Theorem copyout_spec s h root O dstva src :
  pt_wf (mem s) root O -> 0 <= dstva -> dstva + Z.of_nat (length src) <= MAXVA ->
  let range va := dstva <= va < dstva + Z.of_nat (length src) in
  (forall va, range va -> user_mapped (mem s) root va true) ->
  (forall va p, range va -> is_Some (O !! p) ->
     uaddr (mem s) root va < p \/ p + PGSIZE <= uaddr (mem s) root va) ->
  (forall va va', range va -> range va' ->
     uaddr (mem s) root va = uaddr (mem s) root va' -> va = va') ->
  exists s', copyout root dstva src h s = Ret 0 h s' /\
    (forall k b, src !! k = Some b ->
       exists f, user_read (mem s') root (dstva + Z.of_nat k) = Some (b, f)) /\
    copyin root dstva (Z.of_nat (length src)) h s' = Ret (0, src) h s' /\
    (forall x, (forall va, range va -> x <> uaddr (mem s) root va) -> mem s' x = mem s x).
Proof.
  intros Hwf Hd Hmax range Hu Hoff Hinj.
  destruct (copyout_loop_spec (length src) s h root O dstva src) as (m' & E & Hin & Hout); auto.
  { intros va Hva. split; [| auto]. apply (user_mapped_page _ _ _ true (Hu va Hva)). reflexivity. }
  set (s' := set_mem (fun _ => m') s) in *.
  assert (Hpte : forall p i, is_Some (O !! p) -> 0 <= i < 512 -> pte_at m' p i = pte_at (mem s) p i).
  { intros p i Hp Hi. apply load64_ext. intros x Hx. apply Hout. intros k Hk ->.
    destruct (Hoff (dstva + Z.of_nat k) p); auto; unfold range, entry, PGSIZE in *; lia. }
  assert (Hlk : forall va, pt_lookup 2 m' root va = pt_lookup 2 (mem s) root va).
  { intros va. apply (pt_lookup_frame _ _ _ O); auto. intros q k _ Hq.
    apply Hpte; [eauto | apply PX_level_range]. }
  assert (Hua : forall va, uaddr m' root va = uaddr (mem s) root va)
    by (intros va; unfold uaddr; now rewrite Hlk).
  assert (Hum : forall va, range va -> user_mapped m' root va true).
  { intros va Hva. destruct (Hu va Hva) as (pa & perm & Hr). exists pa, perm. now rewrite Hlk. }
  exists s'. split_and!; [exact E | | |].
  - intros k b Hk. pose proof (lookup_lt_Some _ _ _ Hk).
    destruct (user_mapped_page m' root (dstva + Z.of_nat k) true) as (_ & _ & f & Ef);
      [apply Hum; unfold range; lia |].
    exists f. cbn. now rewrite Ef, Hua, (Hin k b Hk).
  - rewrite (copyin_run s' h root O); auto; [| now apply (pt_wf_ext (mem s)) | lia |].
    + do 2 f_equal. apply list_eq. intros k. unfold user_bytes. rewrite list_lookup_fmap.
      destruct (src !! k) as [b |] eqn:Ek.
      * pose proof (lookup_lt_Some _ _ _ Ek). rewrite lookup_seqZ_lt by lia. cbn.
        now rewrite Hua, (Hin k b Ek).
      * apply lookup_ge_None in Ek. now rewrite lookup_seqZ_ge by lia.
    + intros va Hva. apply (user_mapped_page m' root va true (Hum va Hva)).
  - intros x Hx. apply Hout. intros k Hk. apply Hx. unfold range. lia.
Qed.

(** C22: Whatever address and length it is given, [copyout] returns 0 or -1
    and modifies only bytes in frames of pages that are mapped writable for the
    user: not kernel memory, not page tables, not read-only text. *)
Theorem copyout_safe s h root O dstva src :
  pt_wf (mem s) root O -> frames_off_tables (mem s) root O -> 0 <= dstva ->
  exists r m', copyout root dstva src h s = Ret r h (set_mem (fun _ => m') s) /\
    (r = 0 \/ r = -1) /\
    (forall x, ~ user_may_write (mem s) root x -> m' x = mem s x).
Proof. intros Hwf Hf Hd. now apply (copyout_loop_safe (length src) s h root O). Qed.

End theorems.

(** ** Witnesses: a process of two pages on the small machine *)

Definition demo_proc : outcome phys Z := uvmalloc demo_root 0 0x2000 PTE_W [] demo.
Definition demo3 : phys := state_or demo demo_proc.

Lemma demo_superlock : supermem_lock ∉ ([] : locks).
Proof. apply not_elem_of_nil. Qed.

Lemma demo3_grown : exists O l fs,
  grown demo_root demo {[demo_root := []]} demo_free 0 (fun _ lv => uperm lv PTE_W) (fun _ => 0)
    demo3 O l 0x2000 fs.
Proof.
  pose proof (uvmalloc_run [] demo_root demo _ _ 0 0x2000 PTE_W demo_nolock demo_superlock demo_uvm
    ltac:(lia) ltac:(vm_compute; congruence) ltac:(split; vm_compute; congruence)
    ltac:(intros; apply demo_inv)) as Ho.
  assert (E : value_of demo_proc = Some 0x2000) by (vm_compute; reflexivity).
  unfold demo3. fold demo_proc in Ho. change (PGROUNDUP 0) with 0 in Ho.
  destruct Ho as [s O l b fs Hg Hb | |]; try discriminate. cbn [state_or].
  assert (Hm : b mod PGSIZE = 0) by (eapply region_aligned; [apply Hg | reflexivity]).
  replace b with 0x2000 in Hg by (unfold PGSIZE in *; Z.div_mod_to_equations; lia). eauto.
Qed.

#[local] Opaque demo3.

Lemma demo3_mapped O l fs va :
  grown demo_root demo {[demo_root := []]} demo_free 0 (fun _ lv => uperm lv PTE_W) (fun _ => 0)
    demo3 O l 0x2000 fs ->
  0 <= va < 0x2000 ->
  exists pa, pt_lookup 2 (mem demo3) demo_root va = Some (mkpte pa (uperm 0 PTE_W), 0%nat) /\
    frame_ok pa /\ (0%nat, pa) ∈ fs.
Proof.
  intros Hg Hva. destruct (gr_perm _ _ _ _ _ _ _ _ _ _ _ _ Hg va Hva) as (pa & lv & Hlv & Hpa & Hal & E).
  destruct (region_lookup _ _ _ _ _ va (gr_region _ _ _ _ _ _ _ _ _ _ _ _ Hg) Hva)
    as (v & lv' & E' & _ & Hin).
  rewrite E in E'. injection E' as <- <-.
  rewrite PTE2PA_mkpte in Hin
    by first [apply Hpa | apply uperm_range; split; vm_compute; congruence].
  destruct lv as [|lv].
  - exists pa. auto.
  - exfalso. apply elem_of_supers in Hin.
    pose proof (gr_super _ _ _ _ _ _ _ _ _ _ _ _ Hg) as Hs.
    unfold super_free at 1 in Hs. destruct demo_pool as [_ En]. rewrite En in Hs.
    cbn in Hs. symmetry in Hs. apply app_eq_nil in Hs as [_ Hs].
    assert (Hr : pa ∈ rev (supers fs)) by now rewrite <- Permutation_rev.
    rewrite Hs in Hr. now apply elem_of_nil in Hr.
Qed.

Lemma uvmalloc_spec_witness : exists s', uvmalloc demo_root 0 0x2000 PTE_W [] demo = Ret 0x2000 [] s' /\
  exists f, user_read (mem s') demo_root 0x1234 = Some (0, f).
Proof.
  assert (E : value_of demo_proc = Some 0x2000) by (vm_compute; reflexivity). unfold demo_proc in E.
  destruct (uvmalloc_spec [] demo_root demo _ _ 0 0x2000 PTE_W demo_nolock demo_superlock demo_uvm
    ltac:(lia) ltac:(vm_compute; congruence) ltac:(split; vm_compute; congruence)
    ltac:(intros; apply demo_inv))
    as [(s' & O' & l' & b & fs & Er & Hb & _ & _ & Hz & _) | [(s' & O' & l' & Er & _) | [Er _]]];
    rewrite Er in E; try discriminate E.
  exists s'. split; [exact Er |]. destruct (Hz 0x1234) as (lv & Hr); [change (PGROUNDUP 0) with 0; lia |].
  eauto.
Defined.

Lemma uvmunmap_spec_witness : exists s', uvmunmap demo_root 0x1000 1 true [] demo3 = Ret tt [] s' /\
  sv39_translate (mem s') demo_root 0x1234 = None.
Proof.
  destruct demo3_grown as (O & l & fs & Hg).
  destruct (demo3_mapped O l fs 0x1000 Hg ltac:(lia)) as (pa & E & Hpa & Hin).
  assert (Hr : 0 <= uperm 0 PTE_W < 1024) by (split; vm_compute; congruence).
  assert (Hreg : region (mem demo3) demo_root 0x1000 (0x1000 + 1 * PGSIZE) [(0%nat, pa)]).
  { rewrite <- (PTE2PA_mkpte pa (uperm 0 PTE_W)) by (auto; apply Hpa).
    eapply (region_cons _ _ _ _ _ 0); [lia | reflexivity | reflexivity | exact E | discriminate |].
    constructor. }
  pose proof (grown_frames _ _ _ _ _ _ _ _ _ _ _ _ demo_uvm Hg) as (_ & _ & Hfr & _).
  destruct (uvmunmap_spec demo3 [] demo_root O l 0x1000 1 true [(0%nat, pa)]
    (gr_uvm _ _ _ _ _ _ _ _ _ _ _ _ Hg) demo_nolock demo_superlock ltac:(lia) eq_refl ltac:(lia)
    ltac:(vm_compute; congruence) Hreg)
    as (s' & Er & _ & _ & Ht & _).
  - intros _. unfold frames_ok. cbn. split_and!.
    + apply NoDup_singleton.
    + constructor.
    + intros p Hp. apply list_elem_of_singleton in Hp as ->. apply Hfr. now apply elem_of_smalls.
    + intros p Hp. now apply elem_of_nil in Hp.
  - exists s'. split; [exact Er |]. now rewrite Ht by (vm_compute; split; congruence).
Defined.

Lemma uvmfree_spec_witness : exists s' l', uvmfree demo_root 0x2000 [] demo3 = Ret tt [] s' /\
  kmem_inv s' l'.
Proof.
  destruct demo3_grown as (O & l & fs & Hg).
  destruct (uvmfree_spec demo3 [] demo_root O l 0x2000 fs (gr_uvm _ _ _ _ _ _ _ _ _ _ _ _ Hg)
    demo_nolock demo_superlock ltac:(vm_compute; split; congruence)
    (gr_region _ _ _ _ _ _ _ _ _ _ _ _ Hg) (grown_frames _ _ _ _ _ _ _ _ _ _ _ _ demo_uvm Hg))
    as (s' & ps & l' & Er & Hk & _).
  - change (PGROUNDUP 0x2000) with 0x2000. intros va Hva.
    rewrite (gr_lookup _ _ _ _ _ _ _ _ _ _ _ _ Hg) by lia. apply demo_inv.
  - exists s', l'. auto.
Defined.

Lemma uvmcopy_spec_witness : exists s c s', uvmcreate [] demo3 = Ret c [] s /\
  uvmcopy demo_root c 0x2000 [] s = Ret 0 [] s' /\
  user_read (mem s') c 0x1234 = user_read (mem s) demo_root 0x1234.
Proof.
  destruct demo3_grown as (O & l & fs & Hg). pose proof (gr_uvm _ _ _ _ _ _ _ _ _ _ _ _ Hg) as Hu.
  pose proof (grown_frames _ _ _ _ _ _ _ _ _ _ _ _ demo_uvm Hg) as Hfr.
  assert (Ek : value_of ((c <- uvmcreate;; uvmcopy demo_root c 0x2000) [] demo3) = Some 0)
    by (vm_compute; reflexivity).
  destruct l as [|c l].
  { exfalso. assert (En : value_of (kalloc [] demo3) <> Some 0) by (vm_compute; congruence).
    apply En. now rewrite (kalloc_empty [] demo3 (proj1 (proj2 (uvm_vm _ _ _ _ Hu))) demo_nolock). }
  destruct (create_child demo3 [] demo_root O c l fs 0x2000 Hu demo_nolock
    (gr_region _ _ _ _ _ _ _ _ _ _ _ _ Hg) Hfr) as (s & E & Huc & Hpar & Hn & Hlk & _).
  rewrite (bind_Ret _ _ _ _ _ _ _ E) in Ek.
  destruct (uvmcopy_spec [] demo_root c s O {[c := []]} l 0x2000 fs demo_nolock demo_superlock Huc Hpar
    ltac:(vm_compute; split; congruence) ltac:(intros; apply Hn))
    as [(s' & O' & l' & fs' & Er & _ & _ & Hread & _) | [(s' & O' & l' & Er & _) | [Er _]]].
  - change (PGROUNDUP 0x2000) with 0x2000. intros va v lv Hva Hv. rewrite Hlk in Hv.
    destruct (demo3_mapped O (c :: l) fs va Hg Hva) as (pa & E' & Hpa & _).
    rewrite E' in Hv. injection Hv as <- <-. exists pa, (uperm 0 PTE_W). split_and!; auto; try apply Hpa.
    apply uperm_ok. split; vm_compute; congruence.
  - exists s, c, s'. split_and!; auto. apply Hread. vm_compute. split; congruence.
  - rewrite Er in Ek. discriminate Ek.
  - rewrite Er in Ek. discriminate Ek.
Defined.

Lemma demo3_user O l fs va write :
  grown demo_root demo {[demo_root := []]} demo_free 0 (fun _ lv => uperm lv PTE_W) (fun _ => 0)
    demo3 O l 0x2000 fs ->
  0 <= va < 0x2000 -> user_mapped (mem demo3) demo_root va write.
Proof.
  intros Hg Hva. destruct (demo3_mapped O l fs va Hg Hva) as (pa & E & Hpa & Hin).
  pose proof (grown_frames _ _ _ _ _ _ _ _ _ _ _ _ demo_uvm Hg) as (_ & _ & Hfr & _).
  destruct (Hfr pa) as (Hok & _); [now apply elem_of_smalls |]. pose proof (page_ok_pos pa Hok).
  exists pa, (uperm 0 PTE_W).
  refine (conj E (conj Hpa (conj _ (conj _ (conj eq_refl (fun _ => eq_refl)))))); [lia |].
  apply uperm_ok. split; vm_compute; congruence.
Qed.

Lemma copyin_spec_witness : exists bs, copyin demo_root 0xff0 0x20 [] demo3 = Ret (0, bs) [] demo3 /\
  Z.of_nat (length bs) = 0x20.
Proof.
  destruct demo3_grown as (O & l & fs & Hg).
  destruct (copyin_spec demo3 [] demo_root O 0xff0 0x20
    (proj1 (uvm_vm _ _ _ _ (gr_uvm _ _ _ _ _ _ _ _ _ _ _ _ Hg))) ltac:(lia) ltac:(lia)
    ltac:(vm_compute; congruence)) as (bs & E & Hl & _).
  - intros va Hva. apply (demo3_user O l fs); auto. lia.
  - exists bs. auto.
Defined.

(** Addresses of one page of the process have distinct bytes outside the table. *)
Lemma demo3_page O l fs va va' :
  grown demo_root demo {[demo_root := []]} demo_free 0 (fun _ lv => uperm lv PTE_W) (fun _ => 0)
    demo3 O l 0x2000 fs ->
  0 <= va < 0x1000 -> 0 <= va' < 0x1000 ->
  (uaddr (mem demo3) demo_root va = uaddr (mem demo3) demo_root va' -> va = va') /\
  forall p, is_Some (O !! p) ->
    uaddr (mem demo3) demo_root va < p \/ p + PGSIZE <= uaddr (mem demo3) demo_root va.
Proof.
  intros Hg Hva Hva'.
  destruct (user_mapped_page _ _ _ _ (demo3_user O l fs va false Hg ltac:(lia))) as [Hup _]. split.
  - rewrite (uaddr_page _ _ va va') by (auto; Z.div_mod_to_equations; lia). lia.
  - intros p Hp. pose proof (grown_frames _ _ _ _ _ _ _ _ _ _ _ _ demo_uvm Hg) as Hfr.
    destruct (demo3_mapped O l fs va Hg ltac:(lia)) as (pa & E & Hpa & Hin).
    eapply (frames_disjoint demo3 demo_root O l fs 0 pa); eauto; [apply Hg |].
    unfold uaddr. rewrite E.
    rewrite PTE2PA_mkpte by first [apply Hpa | split; vm_compute; congruence].
    cbn [tsize]. pose proof (Z.mod_pos_bound va PGSIZE ltac:(reflexivity)). lia.
Qed.

Lemma copyout_spec_witness : exists s', copyout demo_root 0x10 [1; 2; 3] [] demo3 = Ret 0 [] s' /\
  copyin demo_root 0x10 3 [] s' = Ret (0, [1; 2; 3]) [] s'.
Proof.
  destruct demo3_grown as (O & l & fs & Hg).
  destruct (copyout_spec demo3 [] demo_root O 0x10 [1; 2; 3]
    (proj1 (uvm_vm _ _ _ _ (gr_uvm _ _ _ _ _ _ _ _ _ _ _ _ Hg))) ltac:(lia)
    ltac:(vm_compute; congruence)) as (s' & E & _ & Hin & _).
  - cbn. intros va Hva. apply (demo3_user O l fs); auto. lia.
  - cbn. intros va p Hva. apply (demo3_page O l fs va va); auto; lia.
  - cbn. intros va va' Hva Hva'. apply (demo3_page O l fs va va'); auto; lia.
  - exists s'. auto.
Defined.

Lemma copyout_safe_witness : exists r m',
  copyout demo_root 0xfffffff [1; 2; 3] [] demo3 = Ret r [] (set_mem (fun _ => m') demo3) /\
  (r = 0 \/ r = -1).
Proof.
  destruct demo3_grown as (O & l & fs & Hg).
  pose proof (grown_frames _ _ _ _ _ _ _ _ _ _ _ _ demo_uvm Hg) as Hfr.
  destruct (copyout_safe demo3 [] demo_root O 0xfffffff [1; 2; 3]
    (proj1 (uvm_vm _ _ _ _ (gr_uvm _ _ _ _ _ _ _ _ _ _ _ _ Hg)))) as (r & m' & E & Hr & _).
  - intros va v lv p Hva Hlk HU Hp.
    destruct (Z.lt_ge_cases va 0x2000) as [Hlt | Hge].
    + destruct (demo3_mapped O l fs va Hg ltac:(lia)) as (pa & E & Hpa & Hin).
      rewrite E in Hlk. injection Hlk as <- <-.
      rewrite PTE2PA_mkpte by first [apply Hpa | split; vm_compute; congruence].
      destruct Hfr as (_ & _ & Hfr & _). destruct (Hfr pa) as (Hok & _ & _ & HO); [now apply elem_of_smalls |].
      destruct Hp as [π Hp]. assert (pa <> p) by congruence.
      apply page_ok_disjoint; auto.
      eapply pt_page; [apply (uvm_vm _ _ _ _ (gr_uvm _ _ _ _ _ _ _ _ _ _ _ _ Hg)) | eauto].
    + exfalso. assert (HM : MAXVA = 2 ^ 38) by reflexivity.
      rewrite (gr_lookup _ _ _ _ _ _ _ _ _ _ _ _ Hg) in Hlk by lia.
      destruct demo_inv as [_ Hn]. rewrite Hn in Hlk. discriminate.
  - lia.
  - exists r, m'. auto.
Defined.
