(* ===== verification/ProcMem.v ===== *)
(** * The memory of processes

    Each process has an address space: a page table with the trampoline and
    the trap frame at the top and a run of pages and superpages from address
    0.  The spaces of the processes and the free pages are disjoint; an
    operation for one process moves pages between its space and the free
    pools and touches no memory of any other ([moves]). *)

From S2P Require Import Prelude KMonad Riscv Mem Printf Kalloc KallocSafety Vm VmTable VmWalk VmMap VmUnmap VmAlloc VmCopy VmFree Proc.

Record aspace := AS {
  as_tf : Z; as_root : Z; as_sz : Z; as_tables : owner; as_frames : list (nat * Z) }.

(** Sizes that stay clear of the last superpage, where the trampoline is. *)
Definition MAXSZ : Z := MAXVA - SUPERPGSIZE.

(** The kernel ends below the superpages. *)
Class PoolAbove `{Layout} : Prop := { kend_pool : kend <= pool_base }.

#[export] Instance xv6_pool_above : PoolAbove (H := xv6_layout).
Proof. constructor. vm_compute. congruence. Qed.

Section spaces.
Context `{LayoutOk} `{!PoolAbove}.

(** What the page table of a process maps. *)
Record space (m : memory) (a : aspace) : Prop := {
  sp_wf : pt_wf m (as_root a) (as_tables a);
  sp_size : 0 <= as_sz a <= MAXSZ;
  sp_region : region m (as_root a) 0 (PGROUNDUP (as_sz a)) (as_frames a);
  sp_enc : encoded m (as_root a) (PGROUNDUP (as_sz a));
  sp_tramp : pt_lookup 2 m (as_root a) TRAMPOLINE = Some (mkpte trampoline (Z.lor PTE_R PTE_X), 0%nat);
  sp_trap : pt_lookup 2 m (as_root a) TRAPFRAME = Some (mkpte (as_tf a) (Z.lor PTE_R PTE_W), 0%nat);
  sp_none : forall va, PGROUNDUP (as_sz a) <= va < 2 ^ 39 -> ~ (TRAPFRAME <= va < MAXVA) ->
    pt_lookup 2 m (as_root a) va = None
}.

(** The pages and superpages of a space. *)
Definition uses (a : aspace) (q : Z) : Prop :=
  q = as_tf a \/ is_Some (as_tables a !! q) \/ q ∈ smalls (as_frames a).
Definition uses_super (a : aspace) (q : Z) : Prop := q ∈ supers (as_frames a).

Record owns (a : aspace) : Prop := {
  ow_ok : forall q, uses a q -> page_ok q /\ q + PGSIZE <= pool_base;
  ow_super : forall q, uses_super a q -> superpage_ok q;
  ow_nodup : NoDup (smalls (as_frames a));
  ow_nodup_super : NoDup (supers (as_frames a));
  ow_tf : as_tables a !! as_tf a = None /\ as_tf a ∉ smalls (as_frames a);
  ow_sep : forall q, q ∈ smalls (as_frames a) -> as_tables a !! q = None
}.

(** The pages a process can get or has. *)
Definition avail (l : list Z) (oa : option aspace) (q : Z) : Prop :=
  q ∈ l \/ exists a, oa = Some a /\ uses a q.
Definition avail_super (s : phys) (oa : option aspace) (q : Z) : Prop :=
  q ∈ super_free s \/ exists a, oa = Some a /\ uses_super a q.

(** Memory that belongs to none of them. *)
Definition elsewhere (s : phys) (l : list Z) (oa : option aspace) (x : Z) : Prop :=
  (forall q, avail l oa q -> x < q \/ q + PGSIZE <= x) /\
  (forall q, avail_super s oa q -> x < q \/ q + SUPERPGSIZE <= x).

Record pool (s : phys) (l : list Z) : Prop := {
  po_free : kmem_inv s l;
  po_super : super_inv s;
  po_below : forall q, q ∈ l -> q + PGSIZE <= pool_base
}.

Definition unfree (s : phys) (l : list Z) (a : aspace) : Prop :=
  (forall q, uses a q -> q ∉ l) /\ (forall q, uses_super a q -> q ∉ super_free s).

(** The space of a process, next to the free pages. *)
Record mine (s : phys) (l : list Z) (oa : option aspace) : Prop := {
  mi_pool : pool s l;
  mi_space : forall a, oa = Some a -> space (mem s) a /\ owns a /\ unfree s l a
}.

(** All spaces, by the pointer of their process. *)
Record pmem (s : phys) (l : list Z) (A : gmap Z aspace) : Prop := {
  pm_pool : pool s l;
  pm_space : forall p a, A !! p = Some a -> space (mem s) a /\ owns a /\ unfree s l a;
  pm_disj : forall p p' a a', A !! p = Some a -> A !! p' = Some a' -> p <> p' ->
    (forall q, uses a q -> ~ uses a' q) /\ (forall q, uses_super a q -> ~ uses_super a' q)
}.

(** An operation for one process: no page appears or gets lost, and nothing
    elsewhere is written. *)
Record moves (s : phys) (l : list Z) (oa : option aspace)
    (s' : phys) (l' : list Z) (oa' : option aspace) : Prop := {
  mv_mine : mine s' l' oa';
  mv_pages : forall q, avail l' oa' q <-> avail l oa q;
  mv_supers : forall q, avail_super s' oa' q <-> avail_super s oa q;
  mv_mem : forall x, elsewhere s l oa x -> mem s' x = mem s x
}.

Lemma elsewhere_moves s l oa s' l' oa' x :
  moves s l oa s' l' oa' -> elsewhere s l oa x <-> elsewhere s' l' oa' x.
Proof.
  intros Hm. unfold elsewhere. setoid_rewrite (mv_pages _ _ _ _ _ _ Hm).
  setoid_rewrite (mv_supers _ _ _ _ _ _ Hm). reflexivity.
Qed.

Lemma moves_refl s l oa : mine s l oa -> moves s l oa s l oa.
Proof. split; auto; reflexivity. Qed.

Lemma moves_trans s1 l1 o1 s2 l2 o2 s3 l3 o3 :
  moves s1 l1 o1 s2 l2 o2 -> moves s2 l2 o2 s3 l3 o3 -> moves s1 l1 o1 s3 l3 o3.
Proof.
  intros Ha Hb. split; [apply Hb | | |].
  - intros q. now rewrite (mv_pages _ _ _ _ _ _ Hb), (mv_pages _ _ _ _ _ _ Ha).
  - intros q. now rewrite (mv_supers _ _ _ _ _ _ Hb), (mv_supers _ _ _ _ _ _ Ha).
  - intros x Hx. rewrite (mv_mem _ _ _ _ _ _ Hb), (mv_mem _ _ _ _ _ _ Ha); auto.
    now apply (elsewhere_moves _ _ _ _ _ _ _ Ha).
Qed.

(** ** Framing *)

Lemma space_lookups m m' a : space m a ->
  (forall q x, is_Some (as_tables a !! q) -> q <= x < q + PGSIZE -> m' x = m x) ->
  pt_wf m' (as_root a) (as_tables a) /\
  forall va, pt_lookup 2 m' (as_root a) va = pt_lookup 2 m (as_root a) va.
Proof.
  intros Hs Hm.
  assert (Hp : forall p i, is_Some (as_tables a !! p) -> 0 <= i < 512 -> pte_at m' p i = pte_at m p i).
  { intros p i Hp Hi. apply load64_ext. intros x Hx. apply (Hm p); auto. unfold entry, PGSIZE in *. lia. }
  split; [now apply (pt_wf_ext m); [| apply Hs] |].
  intros va. apply (pt_lookup_frame _ _ _ (as_tables a)); [apply Hs |].
  intros q k _ Hq. apply Hp; [eauto | apply PX_level_range].
Qed.

Lemma space_frame m m' a : space m a ->
  (forall q x, is_Some (as_tables a !! q) -> q <= x < q + PGSIZE -> m' x = m x) -> space m' a.
Proof.
  intros Hs Hm. destruct (space_lookups m m' a Hs Hm) as [Hwf Hlk].
  destruct Hs. split; auto; try now rewrite Hlk.
  - eapply region_ext; [| eauto]. intros va _. apply Hlk.
  - intros va v lv Hva. rewrite Hlk. eauto.
  - intros va Hva Hn. rewrite Hlk. auto.
Qed.

Lemma avail_ok s l oa q : mine s l oa -> avail l oa q -> page_ok q /\ q + PGSIZE <= pool_base.
Proof.
  intros [[(_ & _ & Hok) _ Hb] Hs] [Hq | (a & -> & Hq)].
  - rewrite Forall_forall in Hok. auto.
  - destruct (Hs a eq_refl) as (_ & Ho & _). now apply (ow_ok _ Ho).
Qed.

Lemma avail_super_ok s l oa q : mine s l oa -> avail_super s oa q -> superpage_ok q.
Proof.
  intros [[_ (_ & _ & _ & Hok) _] Hs] [Hq | (a & -> & Hq)].
  - rewrite Forall_forall in Hok. auto.
  - destruct (Hs a eq_refl) as (_ & Ho & _). now apply (ow_super _ Ho).
Qed.

Lemma page_elsewhere s l oa q x : mine s l oa -> page_ok q -> q + PGSIZE <= pool_base ->
  ~ avail l oa q -> q <= x < q + PGSIZE -> elsewhere s l oa x.
Proof.
  intros Hm Hq Hb Hn Hx. split; intros r Hr.
  - destruct (avail_ok _ _ _ _ Hm Hr) as [Hok _]. assert (r <> q) by (intros ->; auto).
    destruct (page_ok_disjoint r q); auto; lia.
  - pose proof (superpage_above r (avail_super_ok _ _ _ _ Hm Hr)). lia.
Qed.

Lemma super_elsewhere s l oa q x : mine s l oa -> superpage_ok q ->
  ~ avail_super s oa q -> q <= x < q + SUPERPGSIZE -> elsewhere s l oa x.
Proof.
  intros Hm Hq Hn Hx. pose proof (superpage_above q Hq). split; intros r Hr.
  - destruct (avail_ok _ _ _ _ Hm Hr) as [_ Hb]. lia.
  - pose proof (avail_super_ok _ _ _ _ Hm Hr) as Hok. assert (r <> q) by (intros ->; auto).
    destruct (superpage_disjoint r q); auto; lia.
Qed.

Lemma text_elsewhere s l oa x : mine s l oa -> x < kend -> elsewhere s l oa x.
Proof.
  intros Hm Hx. pose proof kend_pool. split; intros r Hr.
  - destruct (avail_ok _ _ _ _ Hm Hr) as [[_ Hr'] _]. lia.
  - pose proof (superpage_above r (avail_super_ok _ _ _ _ Hm Hr)). lia.
Qed.

(** What a program reads depends on its own pages and the trampoline only. *)
Lemma read_frame m m' a va : space m a -> owns a -> 0 <= va < 2 ^ 39 ->
  (forall q x, uses a q -> q <= x < q + PGSIZE -> m' x = m x) ->
  (forall q x, uses_super a q -> q <= x < q + SUPERPGSIZE -> m' x = m x) ->
  (forall x, x < kend -> m' x = m x) ->
  user_read m' (as_root a) va = user_read m (as_root a) va.
Proof.
  intros Hs Ho Hva Hm Hms Hmk.
  destruct (space_lookups m m' a Hs) as [_ Hlk]; [intros q x Hq; apply Hm; right; now left |].
  assert (Hrd : forall pa perm lv, (lv <= 1)%nat -> frame_ok pa -> pa mod tsize lv = 0 -> perm_ok perm ->
    pt_lookup 2 m (as_root a) va = Some (mkpte pa perm, lv) ->
    (forall x, pa <= x < pa + tsize lv -> m' x = m x) ->
    user_read m' (as_root a) va = user_read m (as_root a) va).
  { intros pa perm lv Hlv Hpa Hal Hp E Hx. pose proof (tsize_pos lv) as Ht.
    assert (0 <= va mod tsize lv < tsize lv) by (apply Z.mod_pos_bound; unfold PGSIZE in *; lia).
    rewrite (read_mkpte m _ _ pa perm lv), (read_mkpte m' _ _ pa perm lv); auto; [| now rewrite Hlk].
    now rewrite Hx by lia. }
  destruct (Z.lt_ge_cases va (PGROUNDUP (as_sz a))) as [Hlt | Hge].
  - destruct (region_lookup _ _ _ _ _ va (sp_region _ _ Hs) ltac:(lia)) as (v & lv & E & Hlv & Hin).
    destruct (sp_enc _ _ Hs va v lv ltac:(lia) E) as (pa & perm & -> & Hpa & Hal & Hp).
    destruct Hpa as [Hpa1 Hpa2]. rewrite PTE2PA_mkpte in Hin by (auto; apply Hp).
    apply (Hrd pa perm lv); auto; [now split |]. intros x Hx. destruct lv as [|lv]; cbn [tsize] in Hx.
    + apply (Hm pa); auto. right; right. now apply elem_of_smalls.
    + apply (Hms pa); auto. now apply elem_of_supers in Hin.
  - destruct (decide (TRAPFRAME <= va < MAXVA)) as [Ht | Ht].
    + destruct (Z.lt_ge_cases va TRAMPOLINE) as [Hl | Hl].
      * destruct (ow_ok a Ho (as_tf a)) as [[Hal Hr] _]; [now left |]. pose proof kend_range.
        assert (HP : PHYSTOP < 2 ^ 56) by (vm_compute; reflexivity).
        apply (Hrd (as_tf a) (Z.lor PTE_R PTE_W) 0%nat); auto; try (split; auto; unfold KERNBASE in *; lia).
        -- split; [split; vm_compute; intuition congruence | intros _; reflexivity].
        -- rewrite <- (sp_trap _ _ Hs). apply lookup_page. clear - Ht Hl. unfold TRAPFRAME, TRAMPOLINE in *.
           change MAXVA with 274877906944 in *. page_lia.
        -- intros x Hx. apply (Hm (as_tf a)); [now left | exact Hx].
      * pose proof trampoline_range. pose proof trampoline_aligned. pose proof etext_range. pose proof etext_aligned.
        assert (HP : PHYSTOP < 2 ^ 56) by (vm_compute; reflexivity). pose proof kend_range.
        apply (Hrd trampoline (Z.lor PTE_R PTE_X) 0%nat); auto; try (split; auto; unfold KERNBASE in *; lia).
        -- split; [split; vm_compute; intuition congruence | intros Hw; discriminate].
        -- rewrite <- (sp_tramp _ _ Hs). apply lookup_page. clear - Ht Hl. unfold TRAPFRAME, TRAMPOLINE in *.
           change MAXVA with 274877906944 in *. page_lia.
        -- intros x Hx. apply Hmk. cbn [tsize] in Hx. page_lia.
    + rewrite !pt_lookup_none_read; auto; [| rewrite Hlk]; apply (sp_none _ _ Hs); auto; lia.
Qed.

Lemma pmem_mine s l A p : pmem s l A -> mine s l (A !! p).
Proof. intros Hp. split; [apply Hp |]. intros a. apply (pm_space _ _ _ Hp). Qed.

(** The pages of another process are elsewhere. *)
Lemma other_elsewhere s l A p p' a : pmem s l A -> A !! p' = Some a -> p' <> p ->
  (forall q, uses a q -> ~ avail l (A !! p) q) /\ (forall q, uses_super a q -> ~ avail_super s (A !! p) q) /\
  (forall q x, uses a q -> q <= x < q + PGSIZE -> elsewhere s l (A !! p) x) /\
  (forall q x, uses_super a q -> q <= x < q + SUPERPGSIZE -> elsewhere s l (A !! p) x).
Proof.
  intros Hp Ha Hne. pose proof (pmem_mine _ _ _ p Hp) as Hm.
  destruct (pm_space _ _ _ Hp p' a Ha) as (_ & Ho & Hf & Hfs).
  assert (Hn : forall q, uses a q -> ~ avail l (A !! p) q).
  { intros q Hq [Hl | (b & Hb & Hq')]; [now apply (Hf q) |].
    now apply (proj1 (pm_disj _ _ _ Hp p' p a b Ha Hb Hne) q). }
  assert (Hns : forall q, uses_super a q -> ~ avail_super s (A !! p) q).
  { intros q Hq [Hl | (b & Hb & Hq')]; [now apply (Hfs q) |].
    now apply (proj2 (pm_disj _ _ _ Hp p' p a b Ha Hb Hne) q). }
  split_and!; auto.
  - intros q x Hq. destruct (ow_ok _ Ho q Hq). apply page_elsewhere; auto.
  - intros q x Hq. apply super_elsewhere; auto. now apply (ow_super _ Ho).
Qed.

Definition set_space (p : Z) (oa : option aspace) (A : gmap Z aspace) : gmap Z aspace :=
  match oa with Some a => <[p := a]> A | None => delete p A end.

Lemma set_space_eq p oa A : set_space p oa A !! p = oa.
Proof. destruct oa; cbn; [apply lookup_insert_eq | apply lookup_delete_eq]. Qed.

Lemma set_space_ne p p' oa A : p' <> p -> set_space p oa A !! p' = A !! p'.
Proof. intros Hne. destruct oa; cbn; [apply lookup_insert_ne | apply lookup_delete_ne]; auto. Qed.

(** An operation for process [p] keeps all spaces apart, and the other
    programs read what they did. *)
Lemma moves_pmem s l A p s' l' oa' : pmem s l A -> moves s l (A !! p) s' l' oa' ->
  pmem s' l' (set_space p oa' A) /\
  forall p' a va, A !! p' = Some a -> p' <> p -> 0 <= va < 2 ^ 39 ->
    user_read (mem s') (as_root a) va = user_read (mem s) (as_root a) va.
Proof.
  intros Hp Hm. pose proof (mv_mine _ _ _ _ _ _ Hm) as [Hpool Hmine].
  assert (Hsp : forall p' a, set_space p oa' A !! p' = Some a -> space (mem s') a /\ owns a /\ unfree s' l' a).
  { intros p' a Ha. destruct (decide (p' = p)) as [-> | Hne]; [rewrite set_space_eq in Ha; auto |].
    rewrite set_space_ne in Ha by auto. destruct (pm_space _ _ _ Hp p' a Ha) as (Hs & Ho & _).
    destruct (other_elsewhere _ _ _ p p' a Hp Ha Hne) as (Hn & Hns & Hx & _). split_and!; auto.
    - apply (space_frame (mem s)); auto. intros q x Hq Hqx. apply (mv_mem _ _ _ _ _ _ Hm), (Hx q); auto.
      right; now left.
    - split; intros q Hq Hin; [apply (Hn q Hq), (mv_pages _ _ _ _ _ _ Hm) | apply (Hns q Hq), (mv_supers _ _ _ _ _ _ Hm)]; now left. }
  assert (Hd : forall p' a b, A !! p' = Some a -> p' <> p -> oa' = Some b ->
    (forall q, uses a q -> ~ uses b q) /\ (forall q, uses_super a q -> ~ uses_super b q)).
  { intros p' a b Ha Hne Hb. destruct (other_elsewhere _ _ _ p p' a Hp Ha Hne) as (Hn & Hns & _).
    split; intros q Hq Hqb; [apply (Hn q Hq), (mv_pages _ _ _ _ _ _ Hm) | apply (Hns q Hq), (mv_supers _ _ _ _ _ _ Hm)];
      right; eauto. }
  split; [split; auto |].
  - intros p1 p2 a1 a2 H1' H2' Hne.
    destruct (decide (p1 = p)) as [-> | Hne1], (decide (p2 = p)) as [-> | Hne2]; [contradiction | | |];
      rewrite ?set_space_eq in *; rewrite ?set_space_ne in * by auto.
    + destruct (Hd p2 a2 a1) as [Hd1 Hd2]; auto. split; intros q Hq Hq'; [apply (Hd1 q) | apply (Hd2 q)]; auto.
    + apply (Hd p1); auto.
    + apply (pm_disj _ _ _ Hp p1 p2); auto.
  - intros p' a va Ha Hne Hva. destruct (pm_space _ _ _ Hp p' a Ha) as (Hs & Ho & _).
    destruct (other_elsewhere _ _ _ p p' a Hp Ha Hne) as (_ & _ & Hx & Hxs).
    apply read_frame; auto.
    + intros q x Hq Hqx. apply (mv_mem _ _ _ _ _ _ Hm), (Hx q); auto.
    + intros q x Hq Hqx. apply (mv_mem _ _ _ _ _ _ Hm), (Hxs q); auto.
    + intros x Hx0. apply (mv_mem _ _ _ _ _ _ Hm), text_elsewhere; auto. now apply pmem_mine.
Qed.

End spaces.
