(* ===== verification/ProcSpace.v ===== *)
(** * Making, copying, growing and freeing the space of a process

    [proc_pagetable], [proc_freepagetable], and the uses of [uvmcopy],
    [uvmalloc] and [uvmdealloc] by [fork] and [growproc], as moves of pages
    between a process and the free pools. *)

From S2P Require Import Prelude KMonad Riscv Mem Printf Kalloc KallocSafety Vm VmTable VmWalk VmMap VmUnmap VmAlloc VmCopy VmFree VmUser Proc ProcMem.

Lemma rx_perm : perm_ok (Z.lor PTE_R PTE_X).
Proof. split; [split; vm_compute; intuition congruence | intros Hw; discriminate]. Qed.

Lemma rw_perm : perm_ok (Z.lor PTE_R PTE_W).
Proof. split; [split; vm_compute; intuition congruence | intros _; reflexivity]. Qed.

Section spaces.
Context `{LayoutOk} `{!PoolAbove}.

Lemma trampoline_frame : frame_ok trampoline.
Proof.
  pose proof trampoline_range. pose proof trampoline_aligned. pose proof etext_range. pose proof kend_range.
  assert (PHYSTOP < 2 ^ 56) by (vm_compute; reflexivity). split; auto. unfold KERNBASE in *. lia.
Qed.

Lemma page_frame_ok q : page_ok q -> frame_ok q.
Proof.
  intros [Hal Hr]. pose proof kend_range. assert (PHYSTOP < 2 ^ 56) by (vm_compute; reflexivity).
  split; auto. unfold KERNBASE in *. lia.
Qed.

Lemma mine_uvm s l a : mine s l (Some a) ->
  uvm s (as_root a) (as_tables a) l /\ frames_ok s (as_tables a) l (as_frames a).
Proof.
  intros [[Hk Hs Hb] Hm]. destruct (Hm a eq_refl) as (Hsp & Ho & Hf & Hfs). split.
  - split; auto.
    + split_and!; [apply Hsp | auto |]. intros q Hq. apply eq_None_not_Some. intros Hi.
      apply (Hf q); auto. right; now left.
    + intros q [Hq | Hq]; [| auto]. apply (ow_ok _ Ho). right; now left.
  - split_and!; try apply Ho.
    + intros q Hq. destruct (ow_ok _ Ho q) as [H1' H2']; [right; now right |]. split_and!; auto.
      * apply Hf. right; now right.
      * now apply (ow_sep _ Ho).
    + intros q Hq. split; [now apply (ow_super _ Ho) | now apply Hfs].
Qed.

(** The tables of a page table with the two top pages only. *)
Definition top_tables (O : owner) : Prop :=
  forall q π, O !! q = Some π -> exists va k, TRAPFRAME <= va < MAXVA /\ π = take k (path va).

(** A computation on an empty page table [r] gave everything back. *)
Lemma uvmfree_empty s h r O l : uvm s r O l -> kmem_lock ∉ h -> supermem_lock ∉ h ->
  (forall va, 0 <= va < 2 ^ 39 -> pt_lookup 2 (mem s) r va = None) ->
  exists s' l', uvmfree r 0 h s = Ret tt h s' /\ kmem_inv s' l' /\
    (forall q, q ∈ l' <-> is_Some (O !! q) \/ q ∈ l) /\ super_free s' = super_free s /\ super_inv s' /\
    (forall x, untouched O [] x -> mem s' x = mem s x).
Proof.
  intros Hu Hh Hh' Hn.
  destruct (uvmfree_run s h r O l 0 [] Hu Hh Hh') as (s' & qs & l' & E & Hk & Hl & Hq & Es & Hsi & Hm).
  - vm_compute; intuition congruence.
  - change (PGROUNDUP 0) with 0. constructor.
  - split_and!; [apply NoDup_nil_2 .. | |]; intros p Hp; now apply elem_of_nil in Hp.
  - change (PGROUNDUP 0) with 0. auto.
  - exists s', l'. split_and!; auto; [| now rewrite Es, app_nil_r].
    intros q. rewrite Hl. cbn. now rewrite elem_of_app, Hq.
Qed.

(** Pages went from the free list to the tables. *)
Record taken (s : phys) (O : owner) (l : list Z) (s' : phys) (O' : owner) (l' : list Z) : Prop := {
  tk_pages : forall q, is_Some (O' !! q) \/ q ∈ l' <-> is_Some (O !! q) \/ q ∈ l;
  tk_super : super_free s' = super_free s;
  tk_mem : forall x, (forall q, is_Some (O !! q) \/ q ∈ l -> x < q \/ q + PGSIZE <= x) -> mem s' x = mem s x
}.

Lemma taken_trans s1 O1 l1 s2 O2 l2 s3 O3 l3 :
  taken s1 O1 l1 s2 O2 l2 -> taken s2 O2 l2 s3 O3 l3 -> taken s1 O1 l1 s3 O3 l3.
Proof.
  intros [Hp1 Hs1 Hm1] [Hp2 Hs2 Hm2]. split.
  - intros q. now rewrite Hp2.
  - congruence.
  - intros x Hx. rewrite Hm2; auto. intros q Hq. apply Hx. now apply Hp1.
Qed.

(** The path of a table determines it, so few paths mean few tables. *)
Lemma few_tables m r O (P : list (list Z)) l : pt_wf m r O -> (forall q π, O !! q = Some π -> π ∈ P) -> NoDup l ->
  (forall q, q ∈ l -> is_Some (O !! q)) -> (length l <= length P)%nat.
Proof.
  intros Hwf HP Hnd Hl. pose (f := fun q => default [] (O !! q)).
  assert (Hf : forall q, q ∈ l -> O !! q = Some (f q)) by (intros q [π E]%Hl; unfold f; now rewrite E).
  rewrite <- (length_map f l). apply submseteq_length, NoDup_submseteq.
  - apply NoDup_fmap_2_strong; [| exact Hnd]. intros p q Hp Hq E. apply (pt_path_inj m r O p q (f p)); auto. rewrite E. auto.
  - intros π (q & -> & Hq)%list_elem_of_fmap. exact (HP q _ (Hf q Hq)).
Qed.

Definition top_paths : list (list Z) := [[]; [255]; [255; 511]].

Lemma top_tables_paths O q π : top_tables O -> O !! q = Some π -> (length π <= 2)%nat -> π ∈ top_paths.
Proof.
  intros Ht Hq Hd. destruct (Ht q π Hq) as (va & k & Hva & ->).
  assert (Hv : 274877898752 <= va < 274877906944) by exact Hva.
  assert (Hd1 : va / 4096 / 512 = 131071) by (rewrite Z.div_div by lia; symmetry; apply (Z.div_unique va _ _ (va - 131071 * 2097152)); lia).
  assert (E2 : PX 2 va = 255) by now rewrite PX2_eq, Hd1. assert (E1 : PX 1 va = 511) by now rewrite PX1_eq, Hd1.
  unfold path in *. rewrite E1, E2 in *. unfold top_paths. destruct k as [|[|[|k]]]; cbn in *; rewrite !elem_of_cons; auto. lia.
Qed.

(** Mapping one page at an unmapped address. *)
Lemma mappages_page s h r O l va pa perm : uvm s r O l -> kmem_lock ∉ h ->
  leaf_perm perm -> frame_ok pa -> 0 <= va -> va mod PGSIZE = 0 -> va + PGSIZE <= MAXVA ->
  pt_lookup 2 (mem s) r va = None ->
  exists res s' O' l', mappages r va PGSIZE pa perm h s = Ret res h s' /\ uvm s' r O' l' /\
    taken s O l s' O' l' /\ new_tables O O' 2 va (va + PGSIZE) /\
    ext s s' O O' l l' /\
    ((res = 0 /\ forall va', 0 <= va' < 2 ^ 39 -> pt_lookup 2 (mem s') r va' =
        if (va <=? va') && (va' <? va + PGSIZE) then Some (mkpte pa perm, 0%nat) else pt_lookup 2 (mem s) r va') \/
     (res = -1 /\ l' = [] /\ forall va', 0 <= va' < 2 ^ 39 -> pt_lookup 2 (mem s') r va' = pt_lookup 2 (mem s) r va')).
Proof.
  intros Hu Hh Hp Hpa Hva Hal Hmax Hn. assert (HM : MAXVA < 2 ^ 39) by (vm_compute; reflexivity).
  assert (Htk : forall s' O' l', vm_inv s' r O' l' -> ext s s' O O' l l' -> uvm s' r O' l' /\ taken s O l s' O' l').
  { intros s' O' l' Hv Hx. destruct (uvm_ext _ _ _ _ _ _ _ Hu Hv Hx) as [Hu' Hsf].
    split; [exact Hu' |]. destruct Hx as [_ (u & -> & Hq) Hm _]. split; auto.
    intros q. rewrite Hq, elem_of_app. tauto. }
  destruct Hpa as [Hpa1 Hpa2].
  assert (Hpe : pa + PGSIZE <= 2 ^ 56) by (clear - Hpa1 Hpa2; change (2 ^ 56) with 72057594037927936 in *; page_lia).
  assert (Ho : mappages_outcome h s r O l va 1 pa perm (mappages r va (1 * PGSIZE) pa perm h s))
    by (apply mappages_run; auto; try apply Hu; lia).
  change (1 * PGSIZE) with PGSIZE in Ho.
  destruct Ho as [s' O' l' Hv Hx Hno Hm Hnt | s' O' j Hv Hx Hj Hno Hm Hnt | va' Hva' Hne].
  - exists 0, s', O', l'. destruct (Htk s' O' l' Hv Hx). split_and!; auto. left. split; [reflexivity |].
    intros va' Hva'. rewrite Hm by auto. change (1 * PGSIZE) with PGSIZE.
    destruct (Z.leb_spec va va') as [Hlo | Hlo], (Z.ltb_spec va' (va + PGSIZE)) as [Hhi | Hhi]; cbn [andb]; auto.
    do 3 f_equal. rewrite PGROUNDDOWN_eq. clear - Hlo Hhi Hal. page_lia.
  - exists (-1), s', O', []. destruct (Htk s' O' [] Hv Hx). split_and!; auto. right. split_and!; [reflexivity .. |].
    intros va' Hva'. rewrite Hm by auto. replace j with 0 by lia.
    destruct (Z.leb_spec va va'), (Z.ltb_spec va' (va + 0 * PGSIZE)); cbn [andb]; auto. lia.
  - exfalso. apply Hne. rewrite <- Hn. apply lookup_page. clear - Hva' Hal. page_lia.
Qed.

Lemma taken_create s r l s1 : pool s (r :: l) -> vm_inv s1 r {[r := []]} l ->
  same_except [r] (mem s) (mem s1) -> superpages s1 = superpages s -> nfree s1 = nfree s ->
  uvm s1 r {[r := []]} l /\ taken s ∅ (r :: l) s1 {[r := []]} l.
Proof.
  intros [Hk Hs Hb] Hv Hm Esp Enf. destruct (super_inv_same s s1 Esp Enf Hs) as [Hs1 Hf1].
  assert (Hq : forall q, is_Some (({[r := []]} : owner) !! q) \/ q ∈ l <-> q ∈ r :: l).
  { intros q. rewrite elem_of_cons, lookup_singleton_is_Some. intuition congruence. }
  split; split; auto.
  - intros q Hq'. apply Hb. now apply Hq.
  - intros q. rewrite Hq, lookup_empty, is_Some_alt. tauto.
  - intros x Hx. apply Hm. intros q Hq'. apply list_elem_of_singleton in Hq' as ->. apply Hx. right. left.
Qed.

(** [uvmfree] of a table that maps nothing any more gives the pages back. *)
Lemma taken_back s l s1 r O l1 h : pool s l -> taken s ∅ l s1 O l1 -> uvm s1 r O l1 ->
  kmem_lock ∉ h -> supermem_lock ∉ h ->
  (forall va, 0 <= va < 2 ^ 39 -> pt_lookup 2 (mem s1) r va = None) ->
  exists s' l', uvmfree r 0 h s1 = Ret tt h s' /\ pool s' l' /\ taken s ∅ l s' ∅ l'.
Proof.
  intros Hp Ht Hu Hh Hh' Hn.
  destruct (uvmfree_empty s1 h r O l1 Hu Hh Hh' Hn) as (s' & l' & E & Hk & Hl & Es & Hsi & Hm).
  assert (Hq : forall q, q ∈ l' <-> q ∈ l).
  { intros q. rewrite Hl, (tk_pages _ _ _ _ _ _ Ht), lookup_empty, is_Some_alt. tauto. }
  exists s', l'. split_and!; auto; split; auto.
  - intros q Hq'. apply (po_below _ _ Hp). now apply Hq.
  - intros q. now rewrite Hq, lookup_empty.
  - now rewrite Es, (tk_super _ _ _ _ _ _ Ht).
  - intros x Hx. rewrite Hm, (tk_mem _ _ _ _ _ _ Ht); auto. split.
    + intros q Hq'. apply Hx, (tk_pages _ _ _ _ _ _ Ht). now left.
    + intros lv pa Hin. now apply elem_of_nil in Hin.
Qed.

(** What a new page table maps. *)
Definition top_lookup (tf va : Z) : option (Z * nat) :=
  if (TRAPFRAME <=? va) && (va <? TRAPFRAME + PGSIZE) then Some (mkpte tf (Z.lor PTE_R PTE_W), 0%nat)
  else if (TRAMPOLINE <=? va) && (va <? TRAMPOLINE + PGSIZE)
  then Some (mkpte trampoline (Z.lor PTE_R PTE_X), 0%nat) else None.

Lemma top_range : 0 <= TRAPFRAME /\ TRAPFRAME mod PGSIZE = 0 /\ TRAPFRAME + PGSIZE <= MAXVA /\ 0 <= TRAPFRAME < 2 ^ 39 /\
  0 <= TRAMPOLINE /\ TRAMPOLINE mod PGSIZE = 0 /\ TRAMPOLINE + PGSIZE <= MAXVA /\ 0 <= TRAMPOLINE < 2 ^ 39.
Proof. vm_compute. intuition congruence. Qed.

(** All free pages became tables of the top pages. *)
Lemma taken_all s l s' r O : kmem_inv s l -> uvm s' r O [] -> taken s ∅ l s' O [] -> top_tables O -> (length l <= 3)%nat.
Proof.
  intros (_ & Hnd & _) [(Hwf & _) _ _] Ht Htop. apply (few_tables (mem s') r O top_paths); auto.
  - intros q π Hq. apply (top_tables_paths O q); auto. now apply (pt_depth _ _ _ Hwf q).
  - intros q Hq. destruct (proj2 (tk_pages _ _ _ _ _ _ Ht q)) as [Hi | Hn]; auto. now apply elem_of_nil in Hn.
Qed.

Lemma user_pagetable_run s h l tf : pool s l -> kmem_lock ∉ h -> supermem_lock ∉ h -> frame_ok tf ->
  (exists s' l' r O, user_pagetable tf h s = Ret r h s' /\ uvm s' r O l' /\ taken s ∅ l s' O l' /\ top_tables O /\
     forall va, 0 <= va < 2 ^ 39 -> pt_lookup 2 (mem s') r va = top_lookup tf va) \/
  (exists s' l', user_pagetable tf h s = Ret 0 h s' /\ pool s' l' /\ taken s ∅ l s' ∅ l' /\ (length l <= 3)%nat).
Proof.
  intros Hpool Hh Hh' Htf. pose proof Hpool as [Hk Hs Hb]. unfold user_pagetable.
  pose proof top_range as (Hf1 & Hf2 & Hf3 & Hf4 & Hr1 & Hr2 & Hr3 & Hr4).
  destruct l as [|r l].
  { right. exists s, []. unfold uvmcreate. rewrite bind_bind, (bind_Ret _ _ _ _ _ _ _ (kalloc_empty h s Hk Hh)).
    split_and!; [auto .. | now split | cbn; lia]. }
  destruct (uvmcreate_run s h r l Hk Hh) as (s1 & E1 & Hv1 & Hn1 & Hm1 & Esp & Enf).
  destruct (taken_create s r l s1 Hpool Hv1 Hm1 Esp Enf) as [Hu1 Ht1].
  destruct (kmem_inv_head _ _ _ Hk) as (_ & Hr & _). pose proof (page_ok_pos r Hr).
  rewrite (bind_Ret _ _ _ _ _ _ _ E1), (proj2 (Z.eqb_neq r 0)) by lia.
  destruct (mappages_page s1 h r _ l TRAMPOLINE trampoline (Z.lor PTE_R PTE_X) Hu1 Hh (proj1 rx_perm) trampoline_frame)
    as (r2 & s2 & O2 & l2 & E2 & Hu2 & Ht2 & Hnt2 & _ & Hres2); auto.
  rewrite (bind_Ret _ _ _ _ _ _ _ E2). pose proof (taken_trans _ _ _ _ _ _ _ _ _ Ht1 Ht2) as Ht12.
  assert (Htop2 : top_tables O2).
  { intros q π Hq. apply Hnt2 in Hq as [Hq | (va & k & Hva & _ & ->)].
    2: { exists va, k. split; [| reflexivity]. unfold TRAPFRAME, TRAMPOLINE, PGSIZE in *. lia. }
    apply lookup_singleton_Some in Hq as [_ <-]. exists TRAPFRAME, 0%nat. split; [split; vm_compute; congruence | reflexivity]. }
  destruct Hres2 as [[-> Hlk2] | (-> & -> & Hlk2)]; [change (0 <? 0) with false | change (-1 <? 0) with true]; cbv iota.
  2: { right. destruct (taken_back _ _ _ _ _ _ h Hpool Ht12 Hu2 Hh Hh') as (s3 & l3 & E3 & Hp3 & Ht3).
       { intros va Hva. now rewrite Hlk2. }
       exists s3, l3. rewrite (bind_Ret _ _ _ _ _ _ _ E3). split_and!; auto. exact (taken_all _ _ _ _ _ Hk Hu2 Ht12 Htop2). }
  destruct (mappages_page s2 h r _ l2 TRAPFRAME tf (Z.lor PTE_R PTE_W) Hu2 Hh (proj1 rw_perm) Htf)
    as (r3 & s3 & O3 & l3 & E3 & Hu3 & Ht3 & Hnt3 & _ & Hres3); auto.
  { rewrite Hlk2 by auto. apply Hn1. }
  rewrite (bind_Ret _ _ _ _ _ _ _ E3). pose proof (taken_trans _ _ _ _ _ _ _ _ _ Ht12 Ht3) as Ht13.
  assert (Htop3 : top_tables O3).
  { intros q π Hq. apply Hnt3 in Hq as [Hq | (va & k & Hva & _ & ->)]; [now apply (Htop2 q) |].
    exists va, k. split; [| reflexivity]. unfold TRAPFRAME, TRAMPOLINE, PGSIZE in *. lia. }
  destruct Hres3 as [[-> Hlk3] | (-> & -> & Hlk3)]; [change (0 <? 0) with false | change (-1 <? 0) with true]; cbv iota.
  - left. exists s3, l3, r, O3. split_and!; auto.
    + intros va Hva. unfold top_lookup. rewrite Hlk3, Hlk2, Hn1 by auto. reflexivity.
  - right. assert (Htr : pt_lookup 2 (mem s3) r TRAMPOLINE = Some (mkpte trampoline (Z.lor PTE_R PTE_X), 0%nat))
      by (rewrite Hlk3, Hlk2 by auto; reflexivity).
    destruct (uvmunmap_run s3 h r O3 [] TRAMPOLINE 1 false [(0%nat, PTE2PA (mkpte trampoline (Z.lor PTE_R PTE_X)))])
      as (s4 & E4 & Hu4 & Es4 & Hm4 & Hx4); auto; try lia.
    { apply (region_cons _ _ _ _ _ 0%nat); auto; [vm_compute; reflexivity | discriminate | constructor]. }
    rewrite (bind_Ret _ _ _ _ _ _ _ E4). cbn [app] in Es4. rewrite app_nil_r in Es4.
    assert (Ht4 : taken s ∅ (r :: l) s4 O3 []).
    { apply (taken_trans _ _ _ _ _ _ _ _ _ Ht13). split; [reflexivity | exact Es4 |]. intros x Hx. apply Hx4. split.
      - intros q Hq. apply Hx. now left.
      - intros lv pa Hin. now apply elem_of_nil in Hin. }
    destruct (taken_back _ _ _ _ _ _ h Hpool Ht4 Hu4 Hh Hh') as (s5 & l5 & E5 & Hp5 & Ht5).
    { intros va Hva. rewrite Hm4, Hlk3, Hlk2, Hn1 by auto. change (1 * PGSIZE) with PGSIZE. now destruct (_ && _). }
    exists s5, l5. rewrite (bind_Ret _ _ _ _ _ _ _ E5). split_and!; auto. exact (taken_all _ _ _ _ _ Hk Hu3 Ht13 Htop3).
Qed.

(** ** One page from or to the free list *)

Lemma pool_kalloc s h q l : pool s (q :: l) -> kmem_lock ∉ h ->
  exists s', kalloc h s = Ret q h s' /\ pool s' l /\ super_free s' = super_free s /\
    same_except [q] (mem s) (mem s') /\ page_ok q /\ q + PGSIZE <= pool_base /\ q ∉ l.
Proof.
  intros [Hk Hs Hb] Hh. destruct (kalloc_spec q h s l Hk Hh) as (s' & E & Hk' & Hm & _ & Esp & Enf).
  destruct (super_inv_same s s' Esp Enf Hs) as [Hs' Hf]. destruct (kmem_inv_head _ _ _ Hk) as (_ & Hq & Hn & _).
  exists s'. split_and!; auto; [| apply Hb; left]. split; auto. intros p Hp. apply Hb. now right.
Qed.

Lemma pool_kfree s h q l : pool s l -> kmem_lock ∉ h -> page_ok q -> q + PGSIZE <= pool_base -> q ∉ l ->
  exists s', kfree q h s = Ret tt h s' /\ pool s' (q :: l) /\ super_free s' = super_free s /\
    same_except [q] (mem s) (mem s').
Proof.
  intros [Hk Hs Hb] Hh Hq Hqb Hn. destruct (kfree_spec q h s l Hk Hq Hn Hh) as (s' & E & Hk' & Hm & Esp & Enf).
  destruct (super_inv_same s s' Esp Enf Hs) as [Hs' Hf]. exists s'. split_and!; auto. split; auto.
  intros p [-> | Hp]%elem_of_cons; auto.
Qed.

Lemma avail_none l q : avail l None q <-> q ∈ l.
Proof. split; [intros [? | (a & ? & _)]; [auto | discriminate] | now left]. Qed.

Lemma avail_super_none s q : avail_super s None q <-> q ∈ super_free s.
Proof. split; [intros [? | (a & ? & _)]; [auto | discriminate] | now left]. Qed.

Lemma avail_some l a q : avail l (Some a) q <-> q ∈ l \/ uses a q.
Proof. unfold avail. split; intros [? | Hx]; auto; [destruct Hx as (b & [= ->] & ?); auto | eauto]. Qed.

Lemma avail_super_some s a q : avail_super s (Some a) q <-> q ∈ super_free s \/ uses_super a q.
Proof. unfold avail_super. split; intros [? | Hx]; auto; [destruct Hx as (b & [= ->] & ?); auto | eauto]. Qed.

Lemma page_ptr q : page_ok q -> q <> 0.
Proof. intros Hq. pose proof (page_ok_pos q Hq). lia. Qed.

(** The space of a process with no memory. *)
Lemma top_space m r O tf : pt_wf m r O -> 
  (forall va, 0 <= va < 2 ^ 39 -> pt_lookup 2 m r va = top_lookup tf va) -> space m (AS tf r 0 O []).
Proof.
  intros Hwf Hlk. pose proof top_range as (Hf1 & Hf2 & Hf3 & Hf4 & Hr1 & Hr2 & Hr3 & Hr4).
  split; cbn [as_tf as_root as_sz as_tables as_frames]; auto.
  - change (PGROUNDUP 0) with 0. constructor.
  - intros va v lv Hva. change (PGROUNDUP 0) with 0 in Hva. lia.
  - intros va Hva Hn. change (PGROUNDUP 0) with 0 in Hva. rewrite Hlk by lia. unfold top_lookup.
    assert (E1 : TRAMPOLINE + PGSIZE = MAXVA) by reflexivity. assert (E2 : TRAPFRAME + PGSIZE = TRAMPOLINE) by reflexivity.
    unfold PGSIZE in *. bool_cases; try reflexivity; lia.
Qed.

(** [kalloc] of a trap frame and [proc_pagetable]. *)
Lemma new_space s h tf l s1 : pool s (tf :: l) -> kmem_lock ∉ h -> supermem_lock ∉ h -> kalloc h s = Ret tf h s1 ->
  (exists s' l' r O, user_pagetable tf h s1 = Ret r h s' /\ page_ok r /\ top_tables O /\
     moves s (tf :: l) None s' l' (Some (AS tf r 0 O []))) \/
  (exists s' s'' l', user_pagetable tf h s1 = Ret 0 h s' /\ kfree tf h s' = Ret tt h s'' /\
     moves s (tf :: l) None s'' l' None /\ (length l <= 3)%nat).
Proof.
  intros Hp Hh Hh' E. destruct (pool_kalloc s h tf l Hp Hh) as (s1' & E' & Hp1 & Hf1 & Hm1 & Htf & Hbl & Hn).
  rewrite E in E'. injection E' as <-.
  destruct (user_pagetable_run s1 h l tf Hp1 Hh Hh' (page_frame_ok tf Htf))
    as [(s2 & l2 & r & O & E2 & Hu & Ht & Htop & Hlk) | (s2 & l2 & E2 & Hp2 & Ht & Hshort)]; [left | right].
  - pose proof Hu as [(Hwf & Hk2 & Hd) Hs2 Hb2]. exists s2, l2, r, O.
    assert (Hr : O !! r = Some []) by now apply (pt_root _ _ _ Hwf).
    assert (Hpg : forall q, is_Some (O !! q) \/ q ∈ l2 <-> q ∈ l).
    { intros q. rewrite (tk_pages _ _ _ _ _ _ Ht), lookup_empty, is_Some_alt. tauto. }
    split_and!; auto; [eapply pt_page; eauto |]. split.
    + split; [split; auto |]. intros a [= <-]. split; [now apply top_space |]. split.
      * split; unfold uses, uses_super; cbn [as_tf as_tables as_frames smalls supers flat_map].
        -- intros q [-> | [[π Hq] | Hq]]; [auto | | now apply elem_of_nil in Hq].
           split; [eapply pt_page; eauto | apply Hb2; left; eauto].
        -- intros q Hq. now apply elem_of_nil in Hq.
        -- apply NoDup_nil_2.
        -- apply NoDup_nil_2.
        -- split; [| apply not_elem_of_nil]. apply eq_None_not_Some. intros Hq. apply Hn, Hpg. now left.
        -- intros q Hq. now apply elem_of_nil in Hq.
      * split; unfold uses, uses_super; cbn [as_tf as_tables as_frames smalls supers flat_map].
        -- intros q [-> | [[π Hq] | Hq]]; [intros Hq; apply Hn, Hpg; now right | | now apply elem_of_nil in Hq].
           intros Hq'. rewrite (Hd q Hq') in Hq. discriminate.
        -- intros q Hq. now apply elem_of_nil in Hq.
    + intros q. rewrite avail_none, avail_some, elem_of_cons. unfold uses. cbn [as_tf as_tables as_frames smalls flat_map].
      rewrite elem_of_nil, <- Hpg. tauto.
    + intros q. rewrite avail_super_none, avail_super_some, (tk_super _ _ _ _ _ _ Ht), Hf1.
      unfold uses_super. cbn [as_frames supers flat_map]. rewrite elem_of_nil. tauto.
    + intros x [Hx _]. rewrite (tk_mem _ _ _ _ _ _ Ht), Hm1; auto.
      * intros q Hq. apply list_elem_of_singleton in Hq as ->. apply Hx, avail_none. left.
      * intros q [[v Hq] | Hq]; [now rewrite lookup_empty in Hq |]. apply Hx, avail_none. now right.
  - assert (Hpg : forall q, q ∈ l2 <-> q ∈ l).
    { intros q. pose proof (tk_pages _ _ _ _ _ _ Ht q) as Hq. rewrite lookup_empty, is_Some_alt in Hq. tauto. }
    destruct (pool_kfree s2 h tf l2 Hp2 Hh Htf Hbl) as (s3 & E3 & Hp3 & Hf3 & Hm3); [now rewrite Hpg |].
    exists s2, s3, (tf :: l2). split_and!; auto. split.
    + split; [auto | discriminate].
    + intros q. now rewrite !avail_none, !elem_of_cons, Hpg.
    + intros q. now rewrite !avail_super_none, Hf3, (tk_super _ _ _ _ _ _ Ht), Hf1.
    + intros x [Hx _]. rewrite Hm3, (tk_mem _ _ _ _ _ _ Ht), Hm1; auto.
      * intros q Hq. apply list_elem_of_singleton in Hq as ->. apply Hx, avail_none. left.
      * intros q [[v Hq] | Hq]; [now rewrite lookup_empty in Hq |]. apply Hx, avail_none. now right.
      * intros q Hq. apply list_elem_of_singleton in Hq as ->. apply Hx, avail_none. left.
Qed.

(** ** Freeing *)

Lemma unmap_page s h r O l va v : uvm s r O l -> kmem_lock ∉ h -> supermem_lock ∉ h ->
  0 <= va -> va mod PGSIZE = 0 -> va + PGSIZE <= MAXVA -> pt_lookup 2 (mem s) r va = Some (v, 0%nat) ->
  exists s', uvmunmap r va 1 false h s = Ret tt h s' /\ uvm s' r O l /\ super_free s' = super_free s /\
    (forall va', 0 <= va' < 2 ^ 39 -> pt_lookup 2 (mem s') r va' =
       if (va <=? va') && (va' <? va + PGSIZE) then None else pt_lookup 2 (mem s) r va') /\
    (forall x, untouched O [] x -> mem s' x = mem s x).
Proof.
  intros Hu Hh Hh' Hva Hal Hmax Hlk.
  destruct (uvmunmap_run s h r O l va 1 false [(0%nat, PTE2PA v)]) as (s' & E & Hu' & Es & Hm & Hx); auto; try lia.
  { apply (region_cons _ _ _ _ _ 0%nat); auto; [unfold PGSIZE in *; lia | discriminate |].
    change (va + tsize 0) with (va + 1 * PGSIZE). constructor. }
  exists s'. split_and!; auto. now rewrite Es, app_nil_r.
Qed.

Lemma MAXSZ_top sz : 0 <= sz <= MAXSZ -> PGROUNDUP sz <= TRAPFRAME /\ sz <= MAXVA /\ PGROUNDUP sz mod PGSIZE = 0 /\ sz <= PGROUNDUP sz.
Proof.
  intros Hsz. unfold TRAPFRAME, TRAMPOLINE, MAXSZ in *. change MAXVA with 274877906944 in *.
  change SUPERPGSIZE with 2097152 in *. destruct (PGROUNDUP_spec sz) as [Hal Hb]; unfold PGSIZE in *; [lia |].
  Z.div_mod_to_equations. lia.
Qed.

Lemma free_space s h l a : mine s l (Some a) -> kmem_lock ∉ h -> supermem_lock ∉ h ->
  exists s1 s2 l', kfree (as_tf a) h s = Ret tt h s1 /\
    proc_freepagetable (as_root a) (as_sz a) h s1 = Ret tt h s2 /\ moves s l (Some a) s2 l' None.
Proof.
  intros Hm Hh Hh'. destruct (mine_uvm s l a Hm) as [Hu (Hnd & Hnds & Hsm & Hsu)]. destruct Hm as [Hpool Hmine].
  destruct (Hmine a eq_refl) as (Hsp & Ho & Hf & Hfs). destruct a as [tf r sz O fs]. cbn in Hu, Hnd, Hnds, Hsm, Hsu. cbn [as_tf as_root as_sz].
  destruct (ow_ok _ Ho tf) as [Htf Hbl]; [now left |]. destruct (ow_tf _ Ho) as [HtO Htn]. cbn in HtO, Htn.
  assert (Htl : tf ∉ l) by (apply Hf; now left).
  destruct (uvm_kfree s h r O l tf Hu Hh Htf Hbl Htl HtO) as (s1 & E1 & Hu1 & Es1 & Hm1 & Hlk1).
  pose proof top_range as (Hf1 & Hf2 & Hf3 & Hf4 & Hr1 & Hr2 & Hr3 & Hr4).
  destruct (MAXSZ_top sz (sp_size _ _ Hsp)) as (Hst & Hsm' & Hsal & Hsle). cbn in Hst, Hsm', Hsal, Hsle.
  assert (Hs0 : 0 <= sz) by apply (sp_size _ _ Hsp).
  destruct (unmap_page s1 h r O (tf :: l) TRAMPOLINE (mkpte trampoline (Z.lor PTE_R PTE_X)) Hu1 Hh Hh' Hr1 Hr2 Hr3)
    as (s2 & E2 & Hu2 & Es2 & Hlk2 & Hx2); [rewrite Hlk1; apply (sp_tramp _ _ Hsp) |].
  destruct (unmap_page s2 h r O (tf :: l) TRAPFRAME (mkpte tf (Z.lor PTE_R PTE_W)) Hu2 Hh Hh' Hf1 Hf2 Hf3)
    as (s3 & E3 & Hu3 & Es3 & Hlk3 & Hx3); [rewrite Hlk2, Hlk1 by auto; apply (sp_trap _ _ Hsp) |].
  assert (E4 : TRAMPOLINE + PGSIZE = MAXVA) by reflexivity. assert (E5 : TRAPFRAME + PGSIZE = TRAMPOLINE) by reflexivity.
  assert (Hlk : forall va, 0 <= va < 2 ^ 39 -> pt_lookup 2 (mem s3) r va =
    if (TRAPFRAME <=? va) && (va <? MAXVA) then None else pt_lookup 2 (mem s) r va).
  { intros va Hva. rewrite Hlk3, Hlk2, Hlk1 by auto. unfold PGSIZE in *. bool_cases; try reflexivity; lia. }
  assert (Hlow : forall va, 0 <= va < PGROUNDUP sz -> pt_lookup 2 (mem s3) r va = pt_lookup 2 (mem s) r va).
  { intros va Hva. rewrite Hlk by lia. bool_cases; try reflexivity; lia. }
  destruct (uvmfree_run s3 h r O (tf :: l) sz fs Hu3 Hh Hh') as (s4 & qs & l4 & E6 & Hk4 & Hl4 & Hq4 & Es4 & Hsi4 & Hx4).
  - split; [apply (sp_size _ _ Hsp) | auto].
  - eapply region_ext; [exact Hlow | apply (sp_region _ _ Hsp)].
  - split_and!; auto.
    + intros p Hp. destruct (Hsm p Hp) as (Hp1 & Hp2 & Hp3 & Hp4). split_and!; auto.
      rewrite elem_of_cons. intros [-> | ?]; auto.
    + intros p Hp. destruct (Hsu p Hp). split; auto. now rewrite Es3, Es2, Es1.
  - intros va Hva. rewrite Hlk by lia. destruct (Z.leb_spec TRAPFRAME va), (Z.ltb_spec va MAXVA); cbn [andb]; auto;
      apply (sp_none _ _ Hsp); cbn; lia.
  - exists s1, s4, l4. unfold proc_freepagetable.
    rewrite (bind_Ret _ _ _ _ _ _ _ E2), (bind_Ret _ _ _ _ _ _ _ E3). split_and!; auto.
    assert (Hpg : forall q, q ∈ l4 <-> q ∈ l \/ uses (AS tf r sz O fs) q).
    { intros q. rewrite Hl4, !elem_of_app, elem_of_cons, Hq4. unfold uses. cbn. tauto. }
    split.
    + split; [split; auto | discriminate]. intros q Hq. apply Hpg in Hq as [Hq | Hq]; [now apply (po_below _ _ Hpool) | now apply (ow_ok _ Ho)].
    + intros q. now rewrite avail_none, avail_some, Hpg.
    + intros q. rewrite avail_super_none, avail_super_some, Es4, Es3, Es2, Es1, elem_of_app. reflexivity.
    + intros x [Hx Hxs]. setoid_rewrite avail_some in Hx. setoid_rewrite avail_super_some in Hxs.
      assert (Hun : untouched O fs x).
      { split; [intros q Hq; apply Hx; right; right; now left |]. intros lv pa Hin. destruct lv as [|lv]; cbn [tsize].
        - apply Hx. right; right; right. now apply elem_of_smalls.
        - apply Hxs. right. now apply elem_of_supers in Hin. }
      assert (Hun' : untouched O [] x) by (split; [apply Hun |]; intros lv pa Hin; now apply elem_of_nil in Hin).
      rewrite Hx4, Hx3, Hx2, Hm1; auto. intros q Hq. apply list_elem_of_singleton in Hq as ->. apply Hx. right; now left.
Qed.

(** ** Growing *)

(** Tables and frames [fs] were added at the end of a space, which now reaches
    up to [b]. *)
Record gained (s : phys) (l : list Z) (a : aspace) (s' : phys) (O' : owner) (l' : list Z) (b : Z) (fs : list (nat * Z)) : Prop := {
  ga_uvm : uvm s' (as_root a) O' l';
  ga_frames : frames_ok s' O' l' fs;
  ga_pages : exists u, l ≡ₚ u ++ smalls fs ++ l' /\ forall q, is_Some (O' !! q) <-> is_Some (as_tables a !! q) \/ q ∈ u;
  ga_super : super_free s ≡ₚ super_free s' ++ supers fs;
  ga_region : region (mem s') (as_root a) (PGROUNDUP (as_sz a)) b fs;
  ga_lookup : forall va, 0 <= va < 2 ^ 39 -> ~ (PGROUNDUP (as_sz a) <= va < b) ->
    pt_lookup 2 (mem s') (as_root a) va = pt_lookup 2 (mem s) (as_root a) va;
  ga_mem : forall x, outside s (as_tables a) l x -> mem s' x = mem s x
}.

Lemma grown_gained s l a perm data s' O' l' b fs : mine s l (Some a) ->
  grown (as_root a) s (as_tables a) l (PGROUNDUP (as_sz a)) perm data s' O' l' b fs -> gained s l a s' O' l' b fs.
Proof.
  intros Hm Hg. destruct (mine_uvm s l a Hm) as [Hu _]. split; try apply Hg.
  - eapply grown_frames; eauto.
  - rewrite (gr_super _ _ _ _ _ _ _ _ _ _ _ _ Hg). now rewrite <- Permutation_rev.
  - intros x [Hx Hxs]. now apply (gr_mem _ _ _ _ _ _ _ _ _ _ _ _ Hg).
Qed.

Lemma restored_gained s l a s' O' l' : restored (as_root a) s (as_tables a) l s' O' l' ->
  gained s l a s' O' l' (PGROUNDUP (as_sz a)) [].
Proof.
  intros Hr. split; try apply Hr.
  - split_and!; [apply NoDup_nil_2 .. | |]; intros p Hp; now apply elem_of_nil in Hp.
  - cbn. rewrite app_nil_r. symmetry. apply Hr.
  - constructor.
  - intros va Hva _. now apply (re_lookup _ _ _ _ _ _ _ Hr).
  - intros x [Hx Hxs]. now apply (re_mem _ _ _ _ _ _ _ Hr).
Qed.

Section gained.
Context (s : phys) (l : list Z) (a : aspace).
Context (s' : phys) (O' : owner) (l' : list Z) (b : Z) (fs : list (nat * Z)).
Context (Hm : mine s l (Some a)) (Hg : gained s l a s' O' l' b fs).

Let a' (sz' : Z) : aspace := AS (as_tf a) (as_root a) sz' O' (as_frames a ++ fs).

Lemma gained_fresh : (forall q, is_Some (O' !! q) <-> is_Some (as_tables a !! q) \/ (is_Some (O' !! q) /\ q ∈ l)) /\
  (forall q, q ∈ smalls fs -> q ∈ l) /\ (forall q, q ∈ l' -> q ∈ l) /\
  (forall q, q ∈ supers fs -> q ∈ super_free s) /\ (forall q, q ∈ super_free s' -> q ∈ super_free s).
Proof using Hg.
  destruct (ga_pages _ _ _ _ _ _ _ _ Hg) as (u & Hl & HO). pose proof (ga_super _ _ _ _ _ _ _ _ Hg) as Hsf.
  split_and!; intros q.
  - rewrite HO, Hl, !elem_of_app. tauto.
  - rewrite Hl, !elem_of_app. tauto.
  - rewrite Hl, !elem_of_app. tauto.
  - rewrite Hsf, elem_of_app. tauto.
  - rewrite Hsf, elem_of_app. tauto.
Qed.

Lemma gained_owns sz' : owns (a' sz') /\ unfree s' l' (a' sz').
Proof using Hg Hm.
  destruct (mine_uvm s l a Hm) as [Hu Hfr]. destruct Hm as [Hpool Hmine].
  destruct (Hmine a eq_refl) as (Hsp & Ho & Hf & Hfs).
  destruct gained_fresh as (HO & Hsm & Hll & Hsu & Hsf).
  destruct (ga_frames _ _ _ _ _ _ _ _ Hg) as (Hnd & Hnds & Hok & Hoks).
  pose proof (ga_uvm _ _ _ _ _ _ _ _ Hg) as [(Hwf' & Hk' & Hd') Hs' Hb'].
  assert (Hus : forall q, uses (a' sz') q -> uses a q \/ (q ∈ l /\ (is_Some (O' !! q) \/ q ∈ smalls fs))).
  { intros q [-> | [Hq | Hq]].
    - left. now left.
    - cbn in Hq. apply HO in Hq as [Hq | Hq]; [left; right; now left | tauto].
    - cbn in Hq. rewrite smalls_app, elem_of_app in Hq. destruct Hq; [left; right; now right | auto]. }
  assert (Huf : forall q, uses a q -> q ∉ l) by apply Hf.
  split.
  - split; cbn [as_frames as_tables as_tf a'].
    + intros q Hq. apply Hus in Hq as [Hq | [Hq _]]; [now apply (ow_ok _ Ho) |].
      destruct (po_free _ _ Hpool) as (_ & _ & Hokl). rewrite Forall_forall in Hokl. split; [auto | now apply (po_below _ _ Hpool)].
    + intros q Hq. unfold uses_super in Hq. cbn in Hq. rewrite supers_app, elem_of_app in Hq.
      destruct Hq; [now apply (ow_super _ Ho) | now apply Hoks].
    + rewrite smalls_app. apply NoDup_app. split_and!; [apply Ho | | auto].
      intros q Hq Hq'. apply (Huf q); [right; now right | auto].
    + rewrite supers_app. apply NoDup_app. split_and!; [apply Ho | | auto].
      intros q Hq Hq'. apply (Hfs q Hq). auto.
    + assert (Ht : as_tf a ∉ l) by (apply Huf; now left). destruct (ow_tf _ Ho) as [Ht1 Ht2]. split.
      * apply eq_None_not_Some. rewrite HO, Ht1, is_Some_alt. tauto.
      * rewrite smalls_app, elem_of_app. intros [? | ?]; auto.
    + intros q. rewrite smalls_app, elem_of_app. intros [Hq | Hq]; [| now apply Hok].
      apply eq_None_not_Some. rewrite HO, (ow_sep _ Ho q Hq), is_Some_alt. intros [? | [_ Hl]]; [auto |].
      apply (Huf q); [right; now right | auto].
  - split.
    + intros q Hq Hql. destruct (Hus q Hq) as [Hq' | [_ [Hq' | Hq']]].
      * apply (Huf q); auto.
      * rewrite (Hd' q Hql) in Hq'. destruct Hq'; discriminate.
      * destruct (Hok q Hq') as (_ & _ & Hn & _). auto.
    + intros q Hq Hqf. unfold uses_super in Hq. cbn in Hq. rewrite supers_app, elem_of_app in Hq.
      destruct Hq as [Hq | Hq]; [apply (Hfs q); auto | now apply (Hoks q)].
Qed.

Lemma gained_moves sz' : b = PGROUNDUP sz' -> as_sz a <= sz' <= MAXSZ ->
  (forall va v lv, PGROUNDUP (as_sz a) <= va < b -> pt_lookup 2 (mem s') (as_root a) va = Some (v, lv) ->
     exists pa prm, v = mkpte pa prm /\ frame_ok pa /\ pa mod tsize lv = 0 /\ perm_ok prm) ->
  moves s l (Some a) s' l' (Some (a' sz')).
Proof using Hg Hm.
  intros Hb Hsz Henc. destruct (mine_uvm s l a Hm) as [Hu Hfr]. pose proof Hm as [Hpool Hmine].
  destruct (Hmine a eq_refl) as (Hsp & Ho & Hf & Hfs). pose proof (sp_size _ _ Hsp) as Hs0.
  destruct (MAXSZ_top (as_sz a)) as (Ht & _ & _ & Hle); [auto |]. destruct (MAXSZ_top sz') as (Ht' & _); [lia |].
  pose proof (ga_uvm _ _ _ _ _ _ _ _ Hg) as [(Hwf' & Hk' & Hd') Hs' Hb'].
  pose proof (ga_lookup _ _ _ _ _ _ _ _ Hg) as Hlk. pose proof (region_le _ _ _ _ _ (ga_region _ _ _ _ _ _ _ _ Hg)) as Hrl.
  pose proof top_range as (Hf1 & Hf2 & Hf3 & Hf4 & Hr1 & Hr2 & Hr3 & Hr4).
  assert (E5 : TRAPFRAME + PGSIZE = TRAMPOLINE) by reflexivity. assert (HM : MAXVA < 2 ^ 39) by (vm_compute; reflexivity).
  assert (Hlow : forall va, 0 <= va < PGROUNDUP (as_sz a) -> pt_lookup 2 (mem s') (as_root a) va = pt_lookup 2 (mem s) (as_root a) va)
    by (intros va Hva; apply Hlk; unfold PGSIZE in *; lia).
  split.
  - split; [split; auto |]. intros x [= <-]. split; [| apply gained_owns].
    split; cbn [a' as_sz as_root as_tables as_frames as_tf]; auto; rewrite <- ?Hb.
    + lia.
    + apply (region_app _ _ _ (PGROUNDUP (as_sz a))); [| apply Hg]. eapply region_ext; [exact Hlow | apply Hsp].
    + intros va v lv Hva E. destruct (Z.lt_ge_cases va (PGROUNDUP (as_sz a))); [| apply (Henc va v lv); auto; lia].
      rewrite Hlow in E by lia. eapply (sp_enc _ _ Hsp); eauto. lia.
    + rewrite Hlk by (unfold PGSIZE in *; lia). apply Hsp.
    + rewrite Hlk by (unfold PGSIZE in *; lia). apply Hsp.
    + intros va Hva Hn. rewrite Hlk by lia. apply (sp_none _ _ Hsp); auto. lia.
  - destruct (ga_pages _ _ _ _ _ _ _ _ Hg) as (u & Hl & HO). intros q. rewrite !avail_some. unfold uses.
    cbn [a' as_tf as_tables as_frames]. rewrite HO, smalls_app, Hl, !elem_of_app. tauto.
  - intros q. rewrite !avail_super_some, (ga_super _ _ _ _ _ _ _ _ Hg). unfold uses_super.
    cbn [a' as_frames]. rewrite supers_app, !elem_of_app. tauto.
  - intros x [Hx Hxs]. apply (ga_mem _ _ _ _ _ _ _ _ Hg). split.
    + intros q Hq. apply Hx, avail_some. destruct Hq; [right; right; now left | now left].
    + intros q Hq. apply Hxs, avail_super_some. now left.
Qed.

End gained.

(** ** What the process itself sees *)

(** Its reads below [hi] and its trap frame are the same. *)
Record keeps (a : aspace) (hi : Z) (s s' : phys) : Prop := {
  ke_read : forall va, 0 <= va < hi -> user_read (mem s') (as_root a) va = user_read (mem s) (as_root a) va;
  ke_tf : forall x, as_tf a <= x < as_tf a + PGSIZE -> mem s' x = mem s x
}.

Lemma keeps_seq a hi s1 s2 s3 : keeps a hi s1 s2 -> keeps a hi s2 s3 -> keeps a hi s1 s3.
Proof.
  intros [Hr1 Ht1] [Hr2 Ht2]. split.
  - intros va Hva. now rewrite Hr2, Hr1.
  - intros x Hx. now rewrite Ht2, Ht1.
Qed.

Lemma keeps_frames a s s' hi gs : space (mem s) a -> 0 <= hi <= PGROUNDUP (as_sz a) ->
  region (mem s) (as_root a) 0 hi gs ->
  (forall va, 0 <= va < hi -> pt_lookup 2 (mem s') (as_root a) va = pt_lookup 2 (mem s) (as_root a) va) ->
  (forall q x, q = as_tf a \/ q ∈ smalls gs -> q <= x < q + PGSIZE -> mem s' x = mem s x) ->
  (forall q x, q ∈ supers gs -> q <= x < q + SUPERPGSIZE -> mem s' x = mem s x) -> keeps a hi s s'.
Proof.
  intros Hsp Hhi Hr Hlk Hm Hms. split; [| intros x Hx; apply (Hm (as_tf a)); auto].
  intros va Hva. destruct (region_lookup _ _ _ _ _ va Hr Hva) as (v & lv & E & Hlv & Hin).
  destruct (sp_enc _ _ Hsp va v lv ltac:(lia) E) as (pa & perm & -> & Hpa & Hal & Hp).
  pose proof Hpa as [Hpa1 Hpa2]. rewrite PTE2PA_mkpte in Hin by (auto; apply Hp).
  rewrite (read_mkpte (mem s) _ _ pa perm lv), (read_mkpte (mem s') _ _ pa perm lv); auto; [| now rewrite Hlk].
  pose proof (tsize_pos lv). assert (0 <= va mod tsize lv < tsize lv) by (apply Z.mod_pos_bound; unfold PGSIZE in *; lia).
  do 2 f_equal. destruct lv as [|lv]; cbn [tsize] in *.
  - apply (Hm pa); [right; now apply elem_of_smalls | lia].
  - apply (Hms pa); [now apply elem_of_supers in Hin | lia].
Qed.

(** The frames and the trap frame of a process are outside its tables and the
    free pages. *)
Lemma frames_outside s l a : mine s l (Some a) ->
  (forall q x, q = as_tf a \/ q ∈ smalls (as_frames a) -> q <= x < q + PGSIZE -> outside s (as_tables a) l x) /\
  (forall q x, q ∈ supers (as_frames a) -> q <= x < q + SUPERPGSIZE -> outside s (as_tables a) l x).
Proof.
  intros Hm. pose proof Hm as [Hpool Hs]. destruct (Hs a eq_refl) as (Hsp & Ho & Hf & Hfs).
  assert (Hav : forall q, is_Some (as_tables a !! q) \/ q ∈ l -> avail l (Some a) q).
  { intros q Hq. apply avail_some. destruct Hq; [right; right; now left | now left]. }
  split; intros q x Hq Hx; split; intros p Hp.
  - assert (Hu : uses a q) by (destruct Hq; [now left | right; now right]). destruct (ow_ok _ Ho q Hu) as [Hqo _].
    destruct (avail_ok _ _ _ p Hm (Hav p Hp)) as [Hpo _].
    assert (p <> q).
    { intros ->. destruct Hp as [Hp | Hp]; [| now apply (Hf q)].
      assert (Hn : as_tables a !! q = None) by (destruct Hq as [-> | Hq]; [apply (ow_tf _ Ho) | now apply (ow_sep _ Ho)]).
      rewrite Hn in Hp. destruct Hp; discriminate. }
    destruct (page_ok_disjoint p q); auto; lia.
  - assert (Hu : uses a q) by (destruct Hq; [now left | right; now right]). destruct (ow_ok _ Ho q Hu) as [_ Hqb].
    pose proof (superpage_above p (avail_super_ok s l (Some a) p Hm (or_introl Hp))). lia.
  - destruct (avail_ok _ _ _ p Hm (Hav p Hp)) as [_ Hpb]. pose proof (superpage_above q (ow_super _ Ho q Hq)). lia.
  - assert (p <> q) by (intros ->; now apply (Hfs q)).
    destruct (superpage_disjoint p q); auto; [exact (avail_super_ok s l (Some a) p Hm (or_introl Hp)) | now apply (ow_super _ Ho) | lia | lia].
Qed.

Lemma gained_keeps s l a s' O' l' b fs : mine s l (Some a) -> gained s l a s' O' l' b fs -> keeps a (PGROUNDUP (as_sz a)) s s'.
Proof.
  intros Hm Hg. destruct (frames_outside s l a Hm) as [Ho Hos]. destruct Hm as [_ Hs]. destruct (Hs a eq_refl) as (Hsp & _).
  destruct (MAXSZ_top _ (sp_size _ _ Hsp)) as (Ht & _ & _ & Hle). pose proof (sp_size _ _ Hsp). pose proof top_range.
  apply (keeps_frames a s s' _ (as_frames a)); auto; [lia | apply Hsp | | |].
  - intros va Hva. apply (ga_lookup _ _ _ _ _ _ _ _ Hg); lia.
  - intros q x Hq Hx. apply (ga_mem _ _ _ _ _ _ _ _ Hg). now apply (Ho q).
  - intros q x Hq Hx. apply (ga_mem _ _ _ _ _ _ _ _ Hg). now apply (Hos q).
Qed.

(** ** Sizes *)

Definition extent (fs : list (nat * Z)) : Z := foldr (fun t n => tsize (fst t) + n) 0 fs.

Lemma region_extent m r x y fs : region m r x y fs -> y = x + extent fs.
Proof. induction 1; unfold extent in *; cbn [foldr fst] in *; lia. Qed.

Lemma region_split m r fs : forall gs x y, region m r x y (fs ++ gs) ->
  region m r x (x + extent fs) fs /\ region m r (x + extent fs) y gs.
Proof.
  induction fs as [|[lv pa] fs IH]; intros gs x y Hr; cbn in *.
  - rewrite Z.add_0_r. split; [constructor | auto].
  - inversion Hr as [|? ? v lv' fs' Hlv Hal Hx Hlk Hf Hr']; subst. apply IH in Hr' as [Ha Hb].
    rewrite Z.add_assoc. split; [econstructor; eauto | auto].
Qed.

Lemma extent_count fs : extent fs = 4096 * Z.of_nat (length (smalls fs)) + 2097152 * Z.of_nat (length (supers fs)).
Proof.
  induction fs as [|[lv pa] fs IH]; cbn [extent foldr fst smalls supers flat_map]; [reflexivity |].
  fold (extent fs) (smalls fs) (supers fs). rewrite IH. destruct lv; cbn [app length]; rewrite Nat2Z.inj_succ;
    [change (tsize 0) with 4096 | change (tsize (S lv)) with 2097152]; lia.
Qed.

Lemma pages_bound qs : NoDup qs -> Forall page_ok qs -> Z.of_nat (length qs) <= 32768.
Proof.
  intros Hnd Hok. set (L := map (fun i => KERNBASE + 4096 * i) (seqZ 0 32768)).
  assert (Hlen : Z.of_nat (length L) = 32768) by (unfold L; rewrite length_map, length_seqZ; reflexivity).
  rewrite <- Hlen. apply Nat2Z.inj_le, NoDup_incl_length; [now apply NoDup_ListNoDup |]. intros q Hq. unfold L. apply in_map_iff.
  rewrite Forall_forall in Hok. destruct (Hok q) as [Hal Hr]; [now apply list_elem_of_In |].
  pose proof kend_range. exists ((q - KERNBASE) / 4096). rewrite <- list_elem_of_In, elem_of_seqZ.
  unfold PHYSTOP in *. unfold KERNBASE, PGSIZE in *. Z.div_mod_to_equations. lia.
Qed.

(** A process cannot be larger than the memory of the machine. *)
Lemma space_bound s l a : mine s l (Some a) -> 0 <= as_sz a <= 0x10000000.
Proof.
  intros [_ Hm]. destruct (Hm a eq_refl) as (Hsp & Ho & _). pose proof (sp_size _ _ Hsp) as Hs0.
  destruct (MAXSZ_top (as_sz a) Hs0) as (_ & _ & _ & Hle). split; [lia |].
  rewrite (region_extent _ _ _ _ _ (sp_region _ _ Hsp)), extent_count in Hle.
  assert (Hsm : Z.of_nat (length (smalls (as_frames a))) <= 32768).
  { apply pages_bound; [apply Ho |]. apply Forall_forall. intros q Hq. apply (ow_ok _ Ho). right; now right. }
  assert (Hsu : (length (supers (as_frames a)) <= 60)%nat).
  { apply (NoDup_incl_length (l' := all_superpages)); [apply NoDup_ListNoDup, Ho |].
    intros q Hq. apply list_elem_of_In, superpage_ok_all, (ow_super _ Ho). now apply list_elem_of_In. }
  lia.
Qed.

(** ** [fork], [sbrk] *)

(** The tables at the top of the address space are in nobody's way. *)
Lemma top_tables_free O va q : top_tables O -> 0 <= va < MAXSZ -> O !! q = Some (take 2 (path va)) -> False.
Proof.
  intros Ht Hva Hq. destruct (Ht _ _ Hq) as (vb & k & Hvb & Ek).
  assert (Hk : take 2 (path va) = take 2 (path vb)).
  { rewrite Ek. destruct k as [|[|[|k]]]; try (apply (f_equal length) in Ek; cbn in Ek; discriminate); auto. }
  unfold MAXSZ, TRAPFRAME, TRAMPOLINE in *. change MAXVA with 274877906944 in *.
  change SUPERPGSIZE with 2097152 in *. unfold PGSIZE in *.
  apply path2_eq in Hk; [| lia | lia]. clear - Hk Hva Hvb. Z.div_mod_to_equations. lia.
Qed.

Lemma other_outside s l A p p' a c : pmem s l A -> A !! p' = Some a -> A !! p = Some c -> p' <> p ->
  (forall q x, uses a q -> q <= x < q + PGSIZE -> outside s (as_tables c) l x) /\
  (forall q x, uses_super a q -> q <= x < q + SUPERPGSIZE -> outside s (as_tables c) l x).
Proof.
  intros Hp Ha Hc Hne. destruct (other_elsewhere _ _ _ p p' a Hp Ha Hne) as (_ & _ & Hx & Hxs).
  assert (He : forall x, elsewhere s l (A !! p) x -> outside s (as_tables c) l x).
  { intros x [He Hes]. rewrite Hc in *. split; intros q Hq.
    - apply He, avail_some. destruct Hq; [right; right; now left | now left].
    - apply Hes, avail_super_some. now left. }
  split; eauto.
Qed.

Lemma space_parent_ok s l A p p' a c : pmem s l A -> A !! p' = Some a -> A !! p = Some c -> p' <> p ->
  parent_ok (as_root a) s (as_tables a) (as_tables c) l (as_sz a) (as_frames a).
Proof.
  intros Hp Ha Hc Hne. destruct (other_outside _ _ _ _ _ _ _ Hp Ha Hc Hne) as [Hx Hxs].
  destruct (pm_space _ _ _ Hp p' a Ha) as (Hsp & Ho & _). split; try apply Hsp.
  - intros q x Hq. apply Hx. right; now left.
  - intros lv pa x Hin Hin'. destruct lv as [|lv]; cbn [tsize] in Hin'.
    + apply (Hx pa); auto. right; right. now apply elem_of_smalls.
    + apply (Hxs pa); auto. now apply elem_of_supers in Hin.
Qed.

(** [uvmcopy] into the new process [p] of [fork]. *)
Lemma copy_space s l A p p' a tf r O h : pmem s l A -> A !! p' = Some a -> A !! p = Some (AS tf r 0 O []) -> p' <> p ->
  top_tables O -> kmem_lock ∉ h -> supermem_lock ∉ h ->
  (exists s' l' O' fs, uvmcopy (as_root a) r (as_sz a) h s = Ret 0 h s' /\
     moves s l (A !! p) s' l' (Some (AS tf r (as_sz a) O' fs)) /\
     forall va, 0 <= va < PGROUNDUP (as_sz a) -> user_read (mem s') r va = user_read (mem s) (as_root a) va) \/
  (exists s' l' O', uvmcopy (as_root a) r (as_sz a) h s = Ret (-1) h s' /\
     moves s l (A !! p) s' l' (Some (AS tf r 0 O' []))).
Proof.
  intros Hp Ha Hc Hne Htop Hh Hh'. pose proof (pmem_mine _ _ _ p Hp) as Hm. rewrite Hc in Hm.
  destruct (mine_uvm _ _ _ Hm) as [Hu _]. cbn in Hu.
  destruct (pm_space _ _ _ Hp p' a Ha) as (Hsp & _). pose proof (sp_size _ _ Hsp) as Hsz.
  pose proof (space_parent_ok _ _ _ _ _ _ _ Hp Ha Hc Hne) as Hpar. cbn in Hpar.
  destruct (MAXSZ_top _ Hsz) as (Ht & HsM & _). assert (HM : MAXVA < 2 ^ 39) by (vm_compute; reflexivity).
  assert (Hn : forall va, 0 <= va < PGROUNDUP (as_sz a) -> pt_lookup 2 (mem s) r va = None).
  { intros va Hva. destruct (pm_space _ _ _ Hp p _ Hc) as (Hsc & _). pose proof top_range.
    apply (sp_none _ _ Hsc); cbn; change (PGROUNDUP 0) with 0; lia. }
  rewrite Hc.
  destruct (uvmcopy_run h (as_root a) r s (as_tables a) O l (as_sz a) (as_frames a) Hh Hh' Hu Hpar ltac:(lia) Hn)
    as [s' O' l' fs Hg | s' O' l' Hre | x q Hx Hq]; [left | right |].
  - destruct (copied_reads _ _ _ _ _ _ _ _ _ _ _ _ Hpar (sp_enc _ _ Hsp) Hg) as [Henc Hrd].
    exists s', l', O', fs. split_and!; auto.
    apply (gained_moves s l (AS tf r 0 O []) s' O' l' (PGROUNDUP (as_sz a)) fs Hm); auto.
    eapply grown_gained; [exact Hm | exact Hg].
  - exists s', l', O'. split; auto.
    apply (gained_moves s l (AS tf r 0 O []) s' O' l' (PGROUNDUP 0) [] Hm); auto.
    + apply (restored_gained _ _ (AS tf r 0 O [])). exact Hre.
    + cbn. unfold MAXSZ. vm_compute. intuition congruence.
    + intros va v lv Hva. cbn in Hva. lia.
  - exfalso. apply (top_tables_free O x q Htop); auto. lia.
Qed.

(** [uvmalloc] by [growproc]. *)
Lemma grow_space s l a n h : mine s l (Some a) -> kmem_lock ∉ h -> supermem_lock ∉ h -> 0 < n -> as_sz a + n <= MAXSZ ->
  let new := as_sz a + n in
  (exists s' l' O' fs, uvmalloc (as_root a) (as_sz a) new PTE_W h s = Ret new h s' /\
     moves s l (Some a) s' l' (Some (AS (as_tf a) (as_root a) new O' (as_frames a ++ fs))) /\
     (forall va, PGROUNDUP (as_sz a) <= va < PGROUNDUP new ->
        exists f, user_read (mem s') (as_root a) va = Some (0, f)) /\
     keeps a (PGROUNDUP (as_sz a)) s s') \/
  (exists s' l' O', uvmalloc (as_root a) (as_sz a) new PTE_W h s = Ret 0 h s' /\
     moves s l (Some a) s' l' (Some (AS (as_tf a) (as_root a) (as_sz a) O' (as_frames a))) /\
     keeps a (PGROUNDUP (as_sz a)) s s') \/
  uvmalloc (as_root a) (as_sz a) new PTE_W h s = Panic "supermappages: remap".
Proof.
  intros Hm Hh Hh' Hn Hmax new. destruct (mine_uvm _ _ _ Hm) as [Hu _]. pose proof Hm as [_ Hs].
  destruct (Hs a eq_refl) as (Hsp & _). pose proof (sp_size _ _ Hsp) as Hsz.
  destruct (MAXSZ_top (as_sz a) Hsz) as (Ht & _ & Hal & Hle). destruct (MAXSZ_top new) as (Ht' & HnM & Hal' & Hle'); [lia |].
  assert (HM : MAXVA < 2 ^ 39) by (vm_compute; reflexivity). pose proof top_range.
  assert (Hx : 0 <= PTE_W < 1024) by (vm_compute; intuition congruence).
  assert (Hno : forall va, PGROUNDUP (as_sz a) <= va < PGROUNDUP new -> pt_lookup 2 (mem s) (as_root a) va = None)
    by (intros va Hva; apply (sp_none _ _ Hsp); lia).
  destruct (uvmalloc_run h (as_root a) s (as_tables a) l (as_sz a) new PTE_W Hh Hh' Hu ltac:(lia) HnM Hx Hno)
    as [s' O' l' b fs Hg Hb | s' O' l' Hre | x q Hx1 Hx2 Hx3 Hq]; [left | right; left | right; right; reflexivity].
  - pose proof (region_aligned _ _ _ _ _ (gr_region _ _ _ _ _ _ _ _ _ _ _ _ Hg) Hal) as Hba.
    assert (Eb : b = PGROUNDUP new) by (destruct (PGROUNDUP_spec new) as [_ Hr]; [unfold PGSIZE in *; lia |]; clear - Hba Hb Hal' Hr; page_lia).
    subst b. exists s', l', O', fs. split_and!; auto.
    + apply (gained_moves s l a s' O' l' (PGROUNDUP new) fs Hm); auto; [eapply grown_gained; [exact Hm | exact Hg] | lia |].
      intros va v lv Hva E. destruct (gr_perm _ _ _ _ _ _ _ _ _ _ _ _ Hg va Hva) as (pa & lv' & _ & Hpa & Hpal & E').
      rewrite E in E'. injection E' as -> ->. exists pa, (uperm lv' PTE_W). split_and!; auto. now apply uperm_ok.
    + intros va Hva. destruct (gr_perm _ _ _ _ _ _ _ _ _ _ _ _ Hg va Hva) as (pa & lv & Hlv & Hpa & Hpal & E).
      exists (Z.lor (uperm lv PTE_W) PTE_V). rewrite (read_mkpte _ _ _ _ _ _ Hlv Hpa Hpal (uperm_ok lv PTE_W Hx) E).
      do 2 f_equal. rewrite <- (gr_data _ _ _ _ _ _ _ _ _ _ _ _ Hg va _ lv Hva E).
      rewrite PTE2PA_mkpte; try apply Hpa; [reflexivity |]. now apply uperm_range.
    + eapply gained_keeps; [exact Hm |]. eapply grown_gained; [exact Hm | exact Hg].
  - exists s', l', O'. split_and!; auto; [| eapply gained_keeps; [exact Hm | exact (restored_gained _ _ _ _ _ _ Hre)]].
    rewrite <- (app_nil_r (as_frames a)).
    apply (gained_moves s l a s' O' l' (PGROUNDUP (as_sz a)) [] Hm); auto; [now apply restored_gained | lia |].
    intros va v lv Hva. lia.
Qed.

(** Freeing the last frames of a process leaves the first ones alone. *)
Lemma kept_untouched tf r sz O f1 f2 : owns (AS tf r sz O (f1 ++ f2)) ->
  (forall q x, q = tf \/ q ∈ smalls f1 -> q <= x < q + PGSIZE -> untouched O f2 x) /\
  (forall q x, q ∈ supers f1 -> q <= x < q + SUPERPGSIZE -> untouched O f2 x).
Proof.
  intros Ho. assert (Hok := ow_ok _ Ho). assert (Hsu := ow_super _ Ho). assert (Hsep := ow_sep _ Ho).
  assert (Hnd := ow_nodup _ Ho). assert (Hnds := ow_nodup_super _ Ho). unfold uses, uses_super in *. cbn in *.
  rewrite smalls_app in *. rewrite supers_app in *. setoid_rewrite elem_of_app in Hok. setoid_rewrite elem_of_app in Hsu.
  setoid_rewrite elem_of_app in Hsep. apply NoDup_app in Hnd as (_ & Hd & _). apply NoDup_app in Hnds as (_ & Hds & _).
  assert (Htf := ow_tf _ Ho). cbn in Htf. rewrite smalls_app, elem_of_app in Htf. destruct Htf as [Htf1 Htf2].
  split; intros q x Hq Hx; split.
  - intros p Hp. assert (p <> q) by (intros ->; destruct Hq as [-> | Hq]; [rewrite Htf1 in Hp | rewrite Hsep in Hp by auto]; destruct Hp; discriminate).
    destruct (Hok q), (Hok p); auto; [tauto | destruct (page_ok_disjoint p q); auto; lia].
  - intros lv pa Hin. destruct (Hok q); [tauto |]. destruct lv as [|lv]; cbn [tsize].
    + apply elem_of_smalls in Hin. assert (pa <> q) by (intros ->; destruct Hq as [-> | Hq]; [tauto | now apply (Hd q)]).
      destruct (Hok pa); [auto |]. destruct (page_ok_disjoint pa q); auto; lia.
    + apply elem_of_supers in Hin. pose proof (superpage_above pa (Hsu pa ltac:(auto))). lia.
  - intros p Hp. destruct (Hok p); [auto |]. pose proof (superpage_above q (Hsu q ltac:(auto))). lia.
  - intros lv pa Hin. pose proof (superpage_above q (Hsu q ltac:(auto))). destruct lv as [|lv]; cbn [tsize].
    + apply elem_of_smalls in Hin. destruct (Hok pa); [auto |]. lia.
    + apply elem_of_supers in Hin. assert (pa <> q) by (intros ->; now apply (Hds q)).
      destruct (superpage_disjoint pa q); auto; lia.
Qed.

(** [uvmdealloc] by [growproc], to a size at which a page or superpage of the
    process ends. *)
Lemma shrink_space s l a new f1 f2 h : mine s l (Some a) -> kmem_lock ∉ h -> supermem_lock ∉ h ->
  0 <= new <= as_sz a -> as_frames a = f1 ++ f2 -> extent f1 = PGROUNDUP new ->
  exists s' l', uvmdealloc (as_root a) (as_sz a) new h s = Ret new h s' /\
    moves s l (Some a) s' l' (Some (AS (as_tf a) (as_root a) new (as_tables a) f1)) /\
    keeps a (PGROUNDUP new) s s'.
Proof.
  intros Hm Hh Hh' Hn Hfr Hex. destruct (mine_uvm _ _ _ Hm) as [Hu Hok]. pose proof Hm as [Hpool Hs].
  destruct (Hs a eq_refl) as (Hsp & Ho & Hf & Hfs). pose proof (sp_size _ _ Hsp) as Hsz. pose proof (sp_region _ _ Hsp) as Hr.
  destruct a as [tf r sz O fs]. cbn [as_tf as_root as_sz as_tables as_frames] in *. subst fs. apply region_split in Hr as [Hra Hrb]. rewrite Z.add_0_l, Hex in *.
  destruct (MAXSZ_top sz Hsz) as (Ht & HsM & _). destruct (MAXSZ_top new) as (Ht' & _ & _ & Hnle); [lia |].
  pose proof top_range as (Hf1 & Hf2 & Hf3 & Hf4 & Hr1 & Hr2 & Hr3 & Hr4).
  assert (E5 : TRAPFRAME + PGSIZE = TRAMPOLINE) by reflexivity. pose proof (region_le _ _ _ _ _ Hrb) as Hle.
  destruct Hok as (Hnd & Hnds & Hsm & Hsu). rewrite smalls_app in *. rewrite supers_app in *.
  apply NoDup_app in Hnd as (Hnd1 & Hd & Hnd2). apply NoDup_app in Hnds as (Hnds1 & Hds & Hnds2).
  destruct (uvmdealloc_run s h r O l sz new f2 Hu Hh Hh' Hn HsM Hrb) as (s' & E & Hu' & Es & Hlk & Hx).
  { split_and!; auto; intros p Hp; [apply Hsm | apply Hsu]; apply elem_of_app; auto. }
  assert (Hlow : forall va, 0 <= va < 2 ^ 39 -> ~ (PGROUNDUP new <= va < PGROUNDUP sz) -> pt_lookup 2 (mem s') r va = pt_lookup 2 (mem s) r va).
  { intros va Hva Hno. rewrite Hlk by auto. bool_cases; try reflexivity; lia. }
  assert (HM : MAXVA < 2 ^ 39) by (vm_compute; reflexivity). unfold PGSIZE in E5.
  assert (Hus : forall q, uses (AS tf r new O f1) q -> uses (AS tf r sz O (f1 ++ f2)) q /\ q ∉ smalls f2).
  { intros q Hq. unfold uses in *. cbn in *. rewrite smalls_app, elem_of_app. split; [tauto |]. intros Hq2.
    destruct Hq as [-> | [Hq | Hq]]; [| | now apply (Hd q)].
    - destruct (ow_tf _ Ho) as [_ Hn']. cbn in Hn'. rewrite smalls_app, elem_of_app in Hn'. tauto.
    - pose proof (ow_sep _ Ho q) as Hsq. cbn in Hsq. rewrite smalls_app, elem_of_app in Hsq.
      rewrite Hsq in Hq by auto. destruct Hq; discriminate. }
  exists s', (rev (smalls f2) ++ l). pose proof Hu' as [(Hwf' & Hk' & _) Hs' Hb'].
  assert (Hl' : forall q, q ∈ rev (smalls f2) ++ l <-> q ∈ smalls f2 \/ q ∈ l).
  { intros q. rewrite elem_of_app, <- Permutation_rev. reflexivity. }
  split; [exact E |]. split; [split |].
  - split; [split; auto |]. intros x [= <-]. split; [| split].
    + split; cbn [as_tf as_root as_sz as_tables as_frames]; auto; [lia | | | | |].
      * eapply region_ext; [| exact Hra]. intros va Hva. apply Hlow; lia.
      * intros va v lv Hva. rewrite Hlow by lia. apply (sp_enc _ _ Hsp). cbn. lia.
      * rewrite Hlow by lia. apply (sp_tramp _ _ Hsp).
      * rewrite Hlow by lia. apply (sp_trap _ _ Hsp).
      * intros va Hva Hno. rewrite Hlk by lia. bool_cases; auto; apply (sp_none _ _ Hsp); cbn; lia.
    + split; cbn; auto.
      * intros q Hq. apply (ow_ok _ Ho). now apply Hus.
      * intros q Hq. apply (ow_super _ Ho). unfold uses_super in *. cbn in *. rewrite supers_app, elem_of_app. auto.
      * destruct (ow_tf _ Ho) as [Hn1 Hn2]. cbn in *. rewrite smalls_app, elem_of_app in Hn2. tauto.
      * intros q Hq. apply (ow_sep _ Ho). cbn. rewrite smalls_app, elem_of_app. auto.
    + split; intros q Hq.
      * rewrite Hl'. intros [Hq' | Hq']; [now apply Hus in Hq | now apply Hus in Hq as [Hq%Hf _]].
      * rewrite Es, elem_of_app. unfold uses_super in Hq. cbn in Hq. intros [Hq' | Hq']; [| now apply (Hds q)].
        apply (Hfs q); auto. unfold uses_super. cbn. rewrite supers_app, elem_of_app. auto.
  - intros q. rewrite !avail_some, Hl'. unfold uses. cbn. rewrite smalls_app, elem_of_app. tauto.
  - intros q. rewrite !avail_super_some, Es, elem_of_app. unfold uses_super. cbn. rewrite supers_app, elem_of_app. tauto.
  - intros x [Hxa Hxs]. apply Hx. split.
    + intros q Hq. apply Hxa, avail_some. right; right; now left.
    + intros lv pa Hin. destruct lv as [|lv]; cbn [tsize].
      * apply Hxa, avail_some. right; right; right. cbn. rewrite smalls_app, elem_of_app. right. now apply elem_of_smalls.
      * apply Hxs, avail_super_some. right. unfold uses_super. cbn. rewrite supers_app, elem_of_app. right. now apply elem_of_supers in Hin.
  - destruct (kept_untouched tf r sz O f1 f2 Ho) as [Hk1 Hk2].
    apply (keeps_frames _ s s' _ f1); auto; [cbn [as_sz]; lia | intros va Hva; apply Hlow; lia | |]; intros q x Hq Hqx; apply Hx.
    + now apply (Hk1 q).
    + now apply (Hk2 q).
Qed.

(** ** Writes to the data of a process *)

Lemma data_moves s l a f : mine s l (Some a) ->
  (forall q x, is_Some (as_tables a !! q) \/ q ∈ l -> q <= x < q + PGSIZE -> f (mem s) x = mem s x) ->
  (forall x, elsewhere s l (Some a) x -> f (mem s) x = mem s x) ->
  moves s l (Some a) (set_mem f s) l (Some a).
Proof.
  intros Hm Hf He. pose proof Hm as [[Hk Hsu Hb] Hs]. destruct (Hs a eq_refl) as (Hsp & Ho & Hun).
  split; try reflexivity; auto. split; [split; auto |].
  - apply (kmem_inv_frame s); auto. intros p x Hp. apply Hf. auto.
  - intros b [= <-]. split_and!; auto. apply (space_frame (mem s)); auto. intros q x Hq. apply Hf. auto.
Qed.

Lemma tf_write s l a f : mine s l (Some a) ->
  (forall x, x < as_tf a \/ as_tf a + PGSIZE <= x -> f (mem s) x = mem s x) ->
  moves s l (Some a) (set_mem f s) l (Some a) /\
  (forall va, 0 <= va < PGROUNDUP (as_sz a) -> user_read (mem (set_mem f s)) (as_root a) va = user_read (mem s) (as_root a) va).
Proof.
  intros Hm Hf. pose proof Hm as [Hpool Hs]. destruct (Hs a eq_refl) as (Hsp & Ho & Hun).
  assert (Hd : forall q x, uses a q \/ q ∈ l -> q <> as_tf a -> q <= x < q + PGSIZE -> f (mem s) x = mem s x).
  { intros q x Hq Hne Hx. apply Hf. destruct (ow_ok _ Ho (as_tf a)) as [Ht _]; [now left |].
    assert (Hqo : page_ok q) by (eapply (avail_ok _ _ _ q Hm), avail_some; tauto).
    destruct (page_ok_disjoint q (as_tf a)); auto; lia. }
  assert (Hnt : forall q, is_Some (as_tables a !! q) \/ q ∈ l -> q <> as_tf a).
  { intros q [Hq | Hq] ->; [rewrite (proj1 (ow_tf _ Ho)) in Hq; destruct Hq; discriminate |].
    apply (proj1 Hun (as_tf a)); [now left | auto]. }
  split.
  - apply data_moves; auto.
    + intros q x Hq. apply Hd; auto. destruct Hq; [left; right; now left | auto].
    + intros x [Hx _]. apply Hf, Hx, avail_some. right; now left.
  - intros va Hva. destruct (space_lookups (mem s) (f (mem s)) a Hsp) as [_ Hlk].
    { intros q x Hq. apply Hd; auto. left; right; now left. }
    destruct (region_lookup _ _ _ _ _ va (sp_region _ _ Hsp) Hva) as (v & lv & E & Hlv & Hin).
    destruct (sp_enc _ _ Hsp va v lv Hva E) as (pa & perm & -> & Hpa & Hal & Hp).
    pose proof Hpa as [Hpa1 Hpa2]. rewrite PTE2PA_mkpte in Hin by (auto; apply Hp).
    rewrite (read_mkpte (mem s) _ _ pa perm lv), (read_mkpte (mem (set_mem f s)) _ _ pa perm lv); auto; [| cbn [mem set_mem]; now rewrite Hlk].
    pose proof (tsize_pos lv). assert (0 <= va mod tsize lv < tsize lv) by (apply Z.mod_pos_bound; unfold PGSIZE in *; lia).
    do 2 f_equal. cbn [mem set_mem]. destruct lv as [|lv]; cbn [tsize] in *.
    + apply elem_of_smalls in Hin. apply (Hd pa); [left; right; now right | | lia].
      intros ->. now apply (ow_tf _ Ho).
    + apply elem_of_supers in Hin. apply Hf. destruct (ow_ok _ Ho (as_tf a)) as [_ Ht]; [now left |].
      pose proof (superpage_above pa (ow_super _ Ho pa Hin)). lia.
Qed.

(** The pages of user mode are below the size of the process. *)
Lemma space_user_mapped m a va v lv : space m a -> owns a -> 0 <= va < MAXVA -> pt_lookup 2 m (as_root a) va = Some (v, lv) ->
  flag v PTE_U = true -> va < PGROUNDUP (as_sz a).
Proof.
  intros Hsp Ho Hva E Hu. assert (HM : MAXVA < 2 ^ 39) by (vm_compute; reflexivity).
  destruct (Z.lt_ge_cases va (PGROUNDUP (as_sz a))) as [Hlt | Hge]; [exact Hlt |].
  exfalso. destruct (decide (TRAPFRAME <= va < MAXVA)) as [Ht | Ht]; [| rewrite (sp_none _ _ Hsp) in E by lia; discriminate].
  assert (Hno : forall pa perm, frame_ok pa -> 0 <= perm < 1024 -> Z.land (Z.lor perm PTE_V) PTE_U = 0 -> v = mkpte pa perm -> False).
  { intros pa perm [Hpa _] Hp Hz ->. unfold flag in Hu. rewrite mkpte_land, Hz in Hu by (auto; vm_compute; intuition congruence). discriminate. }
  destruct (Z.lt_ge_cases va TRAMPOLINE) as [Hl | Hl].
  - rewrite (lookup_page _ _ TRAPFRAME) in E by (clear - Ht Hl; unfold TRAPFRAME, TRAMPOLINE in *; change MAXVA with 274877906944 in *; page_lia).
    rewrite (sp_trap _ _ Hsp) in E. injection E as <- <-.
    apply (Hno (as_tf a) (Z.lor PTE_R PTE_W)); [apply page_frame_ok, (ow_ok _ Ho); now left | vm_compute; intuition congruence | reflexivity | reflexivity].
  - rewrite (lookup_page _ _ TRAMPOLINE) in E by (clear - Ht Hl; unfold TRAPFRAME, TRAMPOLINE in *; change MAXVA with 274877906944 in *; page_lia).
    rewrite (sp_tramp _ _ Hsp) in E. injection E as <- <-.
    apply (Hno trampoline (Z.lor PTE_R PTE_X)); [apply trampoline_frame | vm_compute; intuition congruence | reflexivity | reflexivity].
Qed.

(** [copyout] writes to the frames of the process only. *)
Lemma space_user_page m a va v lv : space m a -> owns a -> 0 <= va < MAXVA -> pt_lookup 2 m (as_root a) va = Some (v, lv) ->
  flag v PTE_U = true -> (lv <= 1)%nat /\ (lv, PTE2PA v) ∈ as_frames a.
Proof.
  intros Hsp Ho Hva E Hu. pose proof (space_user_mapped _ _ _ _ _ Hsp Ho Hva E Hu) as Hlt.
  destruct (region_lookup _ _ _ _ _ va (sp_region _ _ Hsp) ltac:(lia)) as (v' & lv' & E' & Hlv & Hin).
  rewrite E in E'. injection E' as <- <-. auto.
Qed.

Lemma copyout_moves s l a h addr bs : mine s l (Some a) -> 0 <= addr ->
  exists r s', copyout (as_root a) addr bs h s = Ret r h s' /\ (r = 0 \/ r = -1) /\ moves s l (Some a) s' l (Some a).
Proof.
  intros Hm Haddr. pose proof Hm as [Hpool Hs]. destruct (Hs a eq_refl) as (Hsp & Ho & Hun).
  destruct (frames_outside s l a Hm) as [Hos Hosu].
  assert (Hpg : forall va v lv x, 0 <= va < MAXVA -> pt_lookup 2 (mem s) (as_root a) va = Some (v, lv) -> flag v PTE_U = true ->
    PTE2PA v <= x < PTE2PA v + PGSIZE -> outside s (as_tables a) l x /\ ~ elsewhere s l (Some a) x).
  { intros va v lv x Hva E Hu Hx. destruct (space_user_page _ _ _ _ _ Hsp Ho Hva E Hu) as [Hlv Hin]. destruct lv as [|lv].
    - apply elem_of_smalls in Hin. split; [apply (Hos (PTE2PA v)); auto |]. intros [He _].
      destruct (He (PTE2PA v)) as [? | ?]; [apply avail_some; right; right; now right | lia | lia].
    - apply elem_of_supers in Hin. assert (Hx' : PTE2PA v <= x < PTE2PA v + SUPERPGSIZE) by (change SUPERPGSIZE with 2097152; unfold PGSIZE in *; lia).
      split; [apply (Hosu (PTE2PA v)); auto |]. intros [_ He].
      destruct (He (PTE2PA v)) as [? | ?]; [apply avail_super_some; now right | lia | lia]. }
  destruct (copyout_loop_safe (length bs) s h (as_root a) (as_tables a) addr bs) as (r & m' & E & Hr & Hm'); auto; [apply Hsp | |].
  - intros va v lv p Hva E Hu Hp. destruct (Hpg va v lv (PTE2PA v) Hva E Hu) as [[Hx _] _]; [unfold PGSIZE; lia |].
    destruct (Hpg va v lv (PTE2PA v + PGSIZE - 1) Hva E Hu) as [[Hx' _] _]; [unfold PGSIZE; lia |].
    specialize (Hx p (or_introl Hp)). specialize (Hx' p (or_introl Hp)).
    destruct Hx, Hx'; lia.
  - exists r, (set_mem (fun _ => m') s). split_and!; auto. apply data_moves; auto.
    + intros q x Hq Hx. apply Hm'. intros (va & v & lv & Hva & E' & Hu & _ & Hxv).
      destruct (Hpg va v lv x Hva E' Hu Hxv) as [[Ho1 _] _]. specialize (Ho1 q Hq). lia.
    + intros x Hx. apply Hm'. intros (va & v & lv & Hva & E' & Hu & _ & Hxv).
      now destruct (Hpg va v lv x Hva E' Hu Hxv).
Qed.

End spaces.
