(* ===== verification/ProcRun.v ===== *)
(** * Running the functions of proc.c

    What [allocproc], [freeproc], [growproc] and [fork] do to the process
    table, with the memory of each process in its own space ([sys_ok]). *)

From Stdlib Require Import FunctionalExtensionality.
From S2P Require Import Prelude KMonad Riscv Mem Printf Kalloc KallocSafety Vm VmTable VmUnmap VmCopy Proc ProcMem ProcSpace.

(** ** The process table *)

Lemma upd_proc_upd p f g s : upd_proc p f (upd_proc p g s) = upd_proc p (fun x => f (g x)) s.
Proof.
  unfold upd_proc, set_procs. cbn. f_equal. extensionality q. rewrite Z.eqb_refl. now destruct (q =? p).
Qed.

Lemma set_ph_upd p f v s : set_ph v (upd_proc p f s) = upd_proc p f (set_ph v s).
Proof. reflexivity. Qed.

Lemma procs_upd_eq p f s : procs (upd_proc p f s) p = f (procs s p).
Proof. cbn. now rewrite Z.eqb_refl. Qed.

Lemma procs_upd_ne p q f s : q <> p -> procs (upd_proc p f s) q = procs s q.
Proof. cbn. now destruct (Z.eqb_spec q p). Qed.

Lemma vm_Ret {A} (m : M phys A) h s a h' x : m h (ph s) = Ret a h' x -> vm m h s = Ret a h' (set_ph x s).
Proof. intros E. unfold vm. now rewrite (zoom_Ret _ _ _ _ _ _ _ _ E). Qed.

Lemma bind_vm {A B} (m : M phys A) (f : A -> M psys B) h s a h' x :
  m h (ph s) = Ret a h' x -> bind (vm m) f h s = f a h' (set_ph x s).
Proof. intros E. apply bind_Ret, vm_Ret, E. Qed.

Lemma bind_getproc {B} p (f : proc -> M psys B) h s : bind (getproc p) f h s = f (procs s p) h s.
Proof. reflexivity. Qed.

Lemma bind_modproc {B} p g (f : unit -> M psys B) h s : bind (modproc p g) f h s = f tt h (upd_proc p g s).
Proof. reflexivity. Qed.

(** A process as [freeproc] leaves it. *)
Definition cleared (x : proc) : proc :=
  Proc UNUSED None 0 0 0 0 (kstack x) 0 0 0 (context x) (ofile x) (pcwd x) (updZ (pname x) 0 0).

(** The locks of the process table and of the allocator are free. *)
Record locks_free (h : locks) : Prop := {
  lf_kmem : kmem_lock ∉ h; lf_super : supermem_lock ∉ h; lf_pid : pid_lock ∉ h;
  lf_wait : wait_lock ∉ h; lf_proc : forall p, proc_lock p ∉ h }.

Section run.
Context `{LayoutOk} `{!PoolAbove} `{Symbols}.

(** Each process in use has a space, and its record says where it is. *)
Record sys_ok (s : psys) (l : list Z) (A : gmap Z aspace) : Prop := {
  so_mem : pmem (ph s) l A;
  so_space : forall p a, A !! p = Some a ->
    as_tf a = trapframe (procs s p) /\ as_root a = pagetable (procs s p) /\ as_sz a = sz (procs s p);
  so_none : forall p, A !! p = None -> trapframe (procs s p) = 0 /\ pagetable (procs s p) = 0 /\ sz (procs s p) = 0;
  so_used : forall p, p ∈ all_procs -> state (procs s p) <> UNUSED <-> is_Some (A !! p)
}.

Lemma freeproc_run s h p s1 s2 :
  (if trapframe (procs s p) =? 0 then s1 = ph s else kfree (trapframe (procs s p)) h (ph s) = Ret tt h s1) ->
  (if pagetable (procs s p) =? 0 then s2 = s1
   else proc_freepagetable (pagetable (procs s p)) (sz (procs s p)) h s1 = Ret tt h s2) ->
  freeproc p h s = Ret tt h (upd_proc p cleared (set_ph s2 s)).
Proof.
  intros E1 E2. unfold freeproc. rewrite bind_getproc.
  assert (Hph : forall s, set_ph (ph s) s = s) by (intros []; reflexivity).
  assert (F1 : (if negb (trapframe (procs s p) =? 0) then vm (kfree (trapframe (procs s p))) else ret tt) h s = Ret tt h (set_ph s1 s)).
  { destruct (trapframe (procs s p) =? 0); cbn [negb]; [subst s1; now rewrite Hph | now apply vm_Ret]. }
  rewrite (bind_Ret _ _ _ _ _ _ _ F1), bind_modproc.
  assert (F2 : (if negb (pagetable (procs s p) =? 0) then vm (proc_freepagetable (pagetable (procs s p)) (sz (procs s p))) else ret tt)
    h (upd_proc p (set_trapframe 0) (set_ph s1 s)) = Ret tt h (upd_proc p (set_trapframe 0) (set_ph s2 s))).
  { destruct (pagetable (procs s p) =? 0); cbn [negb]; [now subst s2 |]. erewrite vm_Ret by exact E2. reflexivity. }
  rewrite (bind_Ret _ _ _ _ _ _ _ F2), !bind_modproc. unfold modproc, modify. rewrite !upd_proc_upd. do 2 f_equal.
Qed.

(** A change to one process and its space. *)
Lemma sys_ok_update s l A p f n s' l' oa' : sys_ok s l A -> moves (ph s) l (A !! p) s' l' oa' ->
  (forall a, oa' = Some a -> as_tf a = trapframe (f (procs s p)) /\ as_root a = pagetable (f (procs s p)) /\
     as_sz a = sz (f (procs s p))) ->
  (oa' = None -> trapframe (f (procs s p)) = 0 /\ pagetable (f (procs s p)) = 0 /\ sz (f (procs s p)) = 0) ->
  (state (f (procs s p)) <> UNUSED <-> is_Some oa') ->
  sys_ok (upd_proc p f (set_nextpid n (set_ph s' s))) l' (set_space p oa' A).
Proof.
  intros [Hm Hsp Hno Hus] Hmv Ha Hn Hu. destruct (moves_pmem _ _ _ _ _ _ _ Hm Hmv) as [Hm' _].
  split; [exact Hm' | | |]; intros q; destruct (decide (q = p)) as [-> | Hne];
    rewrite ?set_space_eq, ?procs_upd_eq; rewrite ?set_space_ne, ?procs_upd_ne by auto; cbn [procs set_nextpid set_ph]; auto.
Qed.

Lemma set_nextpid_same s : set_nextpid (nextpid s) s = s.
Proof. now destruct s. Qed.

Lemma freeproc_sys s h l A p a : sys_ok s l A -> A !! p = Some a -> kmem_lock ∉ h -> supermem_lock ∉ h ->
  exists x l', freeproc p h s = Ret tt h (upd_proc p cleared (set_ph x s)) /\
    moves (ph s) l (A !! p) x l' None /\ sys_ok (upd_proc p cleared (set_ph x s)) l' (delete p A).
Proof.
  intros Hs Ha Hh Hh'. pose proof (pmem_mine _ _ _ p (so_mem _ _ _ Hs)) as Hm. rewrite Ha in Hm.
  destruct (free_space (ph s) h l a Hm Hh Hh') as (s1 & s2 & l' & E1 & E2 & Hmv).
  destruct (so_space _ _ _ Hs p a Ha) as (Et & Er & Ez). rewrite Et in E1. rewrite Er, Ez in E2.
  destruct Hm as [_ Hm]. destruct (Hm a eq_refl) as (Hsp & Ho & _).
  assert (Htf : trapframe (procs s p) <> 0) by (rewrite <- Et; apply page_ptr, (ow_ok _ Ho); now left).
  assert (Hrt : pagetable (procs s p) <> 0).
  { rewrite <- Er. apply page_ptr. eapply pt_page; [apply Hsp |]. now apply (pt_root _ _ _ (sp_wf _ _ Hsp)). }
  exists s2, l'. rewrite Ha. split_and!; auto.
  - apply (freeproc_run s h p s1); [rewrite (proj2 (Z.eqb_neq _ _)) by auto; exact E1 |].
    rewrite (proj2 (Z.eqb_neq _ _)) by auto. exact E2.
  - assert (E : s = set_nextpid (nextpid s) s) by now rewrite set_nextpid_same. rewrite E at 1.
    apply (sys_ok_update s l A p cleared (nextpid s) s2 l' None); auto; [now rewrite Ha | discriminate |].
    cbn. rewrite is_Some_alt. tauto.
Qed.

(** ** [allocproc] *)

(** The first element of a list with a property. *)
Definition first {A} (P : A -> Prop) (L : list A) (x : A) : Prop :=
  P x /\ exists L1 L2, L = L1 ++ x :: L2 /\ Forall (fun y => ~ P y) L1.

Lemma first_elem {A} (P : A -> Prop) L x : first P L x -> x ∈ L.
Proof. intros (_ & L1 & L2 & -> & _). apply elem_of_app. right. left. Qed.

Lemma first_here {A} (P : A -> Prop) x L : P x -> first P (x :: L) x.
Proof. intros Hx. split; [exact Hx |]. exists [], L. auto. Qed.

Lemma first_later {A} (P : A -> Prop) x y L : ~ P x -> first P L y -> first P (x :: L) y.
Proof. intros Hx (Hy & L1 & L2 & -> & Hl). split; [exact Hy |]. exists (x :: L1), L2. auto. Qed.

Lemma first_unique {A} (P Q : A -> Prop) L x y : (forall z, z ∈ L -> P z <-> Q z) -> first P L x -> first Q L y -> x = y.
Proof.
  intros Hpq (Hx & L1 & L2 & -> & Hl1) (Hy & M1 & M2 & E & Hm1). revert M1 E Hm1.
  induction L1 as [|z L1 IH]; intros [|w M1] E Hm1; cbn in E; injection E as E1 E; try congruence.
  - subst w. apply Forall_inv in Hm1. destruct Hm1. apply Hpq; [left | auto].
  - subst z. apply Forall_inv in Hl1. destruct Hl1. apply Hpq; [left | auto].
  - apply (IH) with (M1 := M1); auto; [| now apply Forall_inv_tail in Hl1 | now apply Forall_inv_tail in Hm1].
    intros v Hv. apply Hpq. now right.
Qed.

Lemma find_unused_run h s : locks_free h -> forall L,
  (exists p, first (fun q => state (procs s q) = UNUSED) L p /\ find_unused L h s = Ret p (proc_lock p :: h) s) \/
  (Forall (fun p => state (procs s p) <> UNUSED) L /\ find_unused L h s = Ret 0 h s).
Proof.
  intros Hh. induction L as [|p L IH]; cbn [find_unused]; [right; split; [constructor | reflexivity] |].
  rewrite (bind_Ret _ _ _ _ _ _ _ (acquire_free (proc_lock p) h s (lf_proc _ Hh p))), bind_getproc.
  destruct (decide (state (procs s p) = UNUSED)) as [Hu | Hu]; [left; exists p; split; [now apply first_here | reflexivity] |].
  rewrite (bind_Ret _ _ _ _ _ _ _ (release_top (proc_lock p) h s)).
  destruct IH as [(q & Hq & E) | [Hall E]]; [left; exists q; split; [now apply first_later | exact E] | right; auto].
Qed.

Lemma allocpid_run h s : pid_lock ∉ h -> allocpid h s = Ret (nextpid s) h (set_nextpid (i32 (nextpid s + 1)) s).
Proof. intros Hh. unfold allocpid. krun. reflexivity. Qed.

(** A process as [allocproc] returns it. *)
Definition allocated (n tf pt : Z) (x : proc) : proc :=
  set_context (Ctx forkret_addr (u64 (kstack x + PGSIZE)) (repeat 0 12))
    (set_pagetable pt (set_trapframe tf (set_state USED (set_pid n x)))).

(** [allocproc] failed: an unused process may have been reset, and pages may
    have changed places in the free list. *)
Record alloc_failed (s : psys) (l : list Z) (A : gmap Z aspace) (s' : psys) (l' : list Z) : Prop := {
  af_sys : sys_ok s' l' A;
  af_moves : moves (ph s) l None (ph s') l' None;
  af_procs : forall q, state (procs s q) <> UNUSED -> procs s' q = procs s q;
  af_unused : forall q, state (procs s q) = UNUSED -> procs s' q = procs s q \/ exists x, procs s' q = set_context x (cleared (procs s q));
  af_pid : nextpid s' = nextpid s \/ nextpid s' = i32 (nextpid s + 1);
  af_init : initproc s' = initproc s
}.

Lemma cleared_failed s l A p x l' : sys_ok s l A -> A !! p = None -> state (procs s p) = UNUSED ->
  moves (ph s) l None x l' None ->
  alloc_failed s l A (upd_proc p cleared (set_nextpid (i32 (nextpid s + 1)) (set_ph x s))) l'.
Proof.
  intros Hs Hp Hst Hmv. split; auto; [| |].
  - rewrite <- (delete_id A p) by auto. apply (sys_ok_update s l A p cleared _ x l' None); auto.
    + now rewrite Hp.
    + discriminate.
    + cbn. rewrite is_Some_alt. tauto.
  - intros q Hq. rewrite procs_upd_ne; [reflexivity | congruence].
  - intros q Hq. destruct (decide (q = p)) as [-> | Hne]; [right; rewrite procs_upd_eq; eexists; reflexivity | left; now rewrite procs_upd_ne].
Qed.

Lemma allocproc_run s h l A : sys_ok s l A -> locks_free h ->
  (exists p tf r O x l', let s' := upd_proc p (allocated (nextpid s) tf r) (set_nextpid (i32 (nextpid s + 1)) (set_ph x s)) in
     allocproc h s = Ret p (proc_lock p :: h) s' /\ p ∈ all_procs /\ A !! p = None /\ top_tables O /\
     first (fun q => state (procs s q) = UNUSED) all_procs p /\
     moves (ph s) l None x l' (Some (AS tf r 0 O [])) /\ sys_ok s' l' (<[p := AS tf r 0 O []]> A)) \/
  (exists s' l', allocproc h s = Ret 0 h s' /\ alloc_failed s l A s' l' /\
     ((length l <= 4)%nat \/ forall p, p ∈ all_procs -> state (procs s p) <> UNUSED)).
Proof.
  intros Hs Hh. unfold allocproc.
  pose proof (pmem_mine _ _ _ 0 (so_mem _ _ _ Hs)) as [Hpool _].
  destruct (find_unused_run h s Hh all_procs) as [(p & Hfst & E) | [Hall E]]; rewrite (bind_Ret _ _ _ _ _ _ _ E).
  2: { right. exists s, l. split_and!; [reflexivity | | right; now apply Forall_forall].
       split; auto. apply moves_refl. split; [auto | discriminate]. }
  pose proof (first_elem _ _ _ Hfst) as Hp. pose proof (proj1 Hfst) as Hst.
  assert (Hp0 : p <> 0) by (unfold all_procs in Hp; apply elem_of_seqZ in Hp; lia).
  rewrite (proj2 (Z.eqb_neq p 0)) by auto.
  assert (HA : A !! p = None).
  { apply eq_None_not_Some. rewrite <- (so_used _ _ _ Hs p Hp). tauto. }
  destruct (so_none _ _ _ Hs p HA) as (Et & Er & Ez).
  assert (Hk : kmem_lock ∉ proc_lock p :: h) by (rewrite elem_of_cons; intros [? | ?]; [discriminate | now apply (lf_kmem _ Hh)]).
  assert (Hk' : supermem_lock ∉ proc_lock p :: h) by (rewrite elem_of_cons; intros [? | ?]; [discriminate | now apply (lf_super _ Hh)]).
  assert (Hpd : pid_lock ∉ proc_lock p :: h) by (rewrite elem_of_cons; intros [? | ?]; [discriminate | now apply (lf_pid _ Hh)]).
  rewrite (bind_Ret _ _ _ _ _ _ _ (allocpid_run _ _ Hpd)), !bind_modproc, upd_proc_upd.
  set (n := i32 (nextpid s + 1)).
  destruct l as [|tf l].
  { erewrite bind_vm by exact (kalloc_empty _ (ph s) (po_free _ _ Hpool) Hk). rewrite bind_modproc. change (0 =? 0) with true. cbv iota.
    rewrite !set_ph_upd, !upd_proc_upd. right. erewrite bind_Ret by (eapply freeproc_run; rewrite procs_upd_eq; cbn; [reflexivity | now rewrite Er]).
    rewrite (bind_Ret _ _ _ _ _ _ _ (release_top _ _ _)). rewrite !set_ph_upd, !upd_proc_upd.
    eexists _, []. split_and!; [reflexivity | | left; cbn; lia]. apply (cleared_failed s [] A p (ph s) []); auto.
    apply moves_refl. split; [auto | discriminate]. }
  destruct (pool_kalloc (ph s) _ tf l Hpool Hk) as (s1 & E1 & _ & _ & _ & Htf & _).
  erewrite bind_vm by exact E1. rewrite bind_modproc, (proj2 (Z.eqb_neq tf 0)) by now apply page_ptr.
  unfold proc_pagetable. rewrite bind_bind, bind_getproc, procs_upd_eq.
  destruct (new_space (ph s) (proc_lock p :: h) tf l s1 Hpool Hk Hk' E1)
    as [(s2 & l2 & r & O & E2 & Hr & Htop & Hmv) | (s2 & s3 & l2 & E2 & E3 & Hmv & Hshort)].
  - erewrite bind_vm by exact E2. rewrite bind_modproc, (proj2 (Z.eqb_neq r 0)) by now apply page_ptr.
    rewrite bind_getproc, procs_upd_eq, bind_modproc, !set_ph_upd, !upd_proc_upd.
    left. exists p, tf, r, O, s2, l2. cbv zeta. split_and!; auto; [cbn [set_ph procs]; rewrite procs_upd_eq; reflexivity |].
    apply (sys_ok_update s (tf :: l) A p (allocated (nextpid s) tf r) n s2 l2 (Some (AS tf r 0 O []))); auto.
    + now rewrite HA.
    + intros a [= <-]. cbn. now rewrite Ez.
    + discriminate.
    + cbn. split; [eauto | discriminate].
  - erewrite bind_vm by exact E2. rewrite bind_modproc. change (0 =? 0) with true. cbv iota.
    rewrite !set_ph_upd, !upd_proc_upd. right. erewrite bind_Ret by (eapply freeproc_run; rewrite procs_upd_eq; cbn;
      [rewrite (proj2 (Z.eqb_neq tf 0)) by (now apply page_ptr); exact E3 | reflexivity]).
    rewrite (bind_Ret _ _ _ _ _ _ _ (release_top _ _ _)). rewrite !set_ph_upd, !upd_proc_upd.
    eexists _, l2. split_and!; [reflexivity | exact (cleared_failed s (tf :: l) A p s3 l2 Hs HA Hst Hmv) | left; cbn; lia].
Qed.

(** ** [growproc] *)

(** The process shrinks to the end of one of its pages or superpages. *)
Definition clean_cut (a : aspace) (new : Z) : Prop :=
  exists f1 f2, as_frames a = f1 ++ f2 /\ extent f1 = PGROUNDUP new.

(** The size after [growproc n]: a negative size does not change it. *)
Definition new_size (sz n : Z) : Z := if sz + n <? 0 then sz else sz + n.

Lemma sys_ok_grow s l A me a a' x l' : sys_ok s l A -> A !! me = Some a -> me ∈ all_procs ->
  moves (ph s) l (Some a) x l' (Some a') -> as_tf a' = as_tf a -> as_root a' = as_root a ->
  sys_ok (upd_proc me (set_sz (as_sz a')) (set_ph x s)) l' (<[me := a']> A).
Proof.
  intros Hs Ha Hme Hmv Et Er. assert (E : s = set_nextpid (nextpid s) s) by now rewrite set_nextpid_same. rewrite E at 1.
  destruct (so_space _ _ _ Hs me a Ha) as (Et' & Er' & _).
  apply (sys_ok_update s l A me (set_sz (as_sz a')) (nextpid s) x l' (Some a')); auto.
  - now rewrite Ha.
  - intros b [= <-]. cbn. split_and!; congruence.
  - discriminate.
  - cbn. rewrite (so_used _ _ _ Hs me Hme), Ha. split; eauto.
Qed.

Lemma upd_sz_same s me : upd_proc me (set_sz (sz (procs s me))) s = s.
Proof.
  destruct s as [x f n i c]. unfold upd_proc, set_procs. cbn. f_equal. extensionality q.
  destruct (Z.eqb_spec q me) as [-> |]; [| reflexivity]. now destruct (f me).
Qed.

Lemma growproc_run s h l A me a n : sys_ok s l A -> A !! me = Some a -> me ∈ all_procs ->
  kmem_lock ∉ h -> supermem_lock ∉ h -> - 2 ^ 31 <= n < 2 ^ 31 -> (n < 0 -> 0 <= as_sz a + n -> clean_cut a (as_sz a + n)) ->
  let new := new_size (as_sz a) n in
  (exists x l' a', let s' := upd_proc me (set_sz new) (set_ph x s) in
     growproc me n h s = Ret 0 h s' /\ as_sz a' = new /\ as_root a' = as_root a /\
     moves (ph s) l (Some a) x l' (Some a') /\ sys_ok s' l' (<[me := a']> A) /\
     keeps a (PGROUNDUP (Z.min (as_sz a) new)) (ph s) x /\
     (forall va, PGROUNDUP (as_sz a) <= va < PGROUNDUP new -> exists f, user_read (mem x) (as_root a) va = Some (0, f))) \/
  (0 < n /\ exists x l' a', growproc me n h s = Ret (-1) h (set_ph x s) /\ as_sz a' = as_sz a /\ as_root a' = as_root a /\
     moves (ph s) l (Some a) x l' (Some a') /\ sys_ok (set_ph x s) l' (<[me := a']> A) /\
     keeps a (PGROUNDUP (as_sz a)) (ph s) x) \/
  (0 < n /\ growproc me n h s = Panic "supermappages: remap").
Proof.
  intros Hs Ha Hme Hh Hh' Hn Hcut new. pose proof (pmem_mine _ _ _ me (so_mem _ _ _ Hs)) as Hm. rewrite Ha in Hm.
  pose proof (space_bound _ _ _ Hm) as Hsz. destruct (so_space _ _ _ Hs me a Ha) as (_ & Er & Ez).
  assert (Hmax : 0x10000000 + 2 ^ 31 <= MAXSZ) by (vm_compute; congruence). unfold growproc. rewrite bind_getproc, <- Er, <- Ez.
  unfold new, new_size. clear new.
  destruct (Z.ltb_spec 0 n) as [Hpos | Hneg].
  - rewrite u64_small by lia. rewrite (proj2 (Z.ltb_ge _ _)), Z.min_l by lia.
    destruct (grow_space (ph s) l a n h Hm Hh Hh' Hpos ltac:(lia))
      as [(x & l' & O' & fs & E & Hmv & Hz & Hk) | [(x & l' & O' & E & Hmv & Hk) | E]]; [left | right; left | right; right].
    + rewrite (bind_vm _ _ _ _ _ _ _ E), (proj2 (Z.eqb_neq _ _)) by lia.
      eexists x, l', _. split_and!; [reflexivity | | | exact Hmv | | exact Hk | exact Hz]; [reflexivity .. |].
      exact (sys_ok_grow s l A me a _ x l' Hs Ha Hme Hmv eq_refl eq_refl).
    + split; [auto |]. rewrite (bind_vm _ _ _ _ _ _ _ E). eexists x, l', _.
      split_and!; [reflexivity | | | exact Hmv | | exact Hk]; [reflexivity .. |].
      rewrite <- (upd_sz_same (set_ph x s) me). cbn [procs set_ph]. rewrite <- Ez.
      exact (sys_ok_grow s l A me a _ x l' Hs Ha Hme Hmv eq_refl eq_refl).
    + split; [auto |]. unfold bind, vm, zoom. now rewrite E.
  - assert (Hsame : forall x l', moves (ph s) l (Some a) x l' (Some a) -> keeps a (PGROUNDUP (as_sz a)) (ph s) x ->
      sys_ok (upd_proc me (set_sz (as_sz a)) (set_ph x s)) l' (<[me := a]> A)).
    { intros x l' Hmv _. exact (sys_ok_grow s l A me a a x l' Hs Ha Hme Hmv eq_refl eq_refl). }
    assert (Hrefl : moves (ph s) l (Some a) (ph s) l (Some a)) by now apply moves_refl.
    assert (Hkr : forall hi, keeps a hi (ph s) (ph s)) by (split; auto).
    assert (Hph : set_ph (ph s) s = s) by now destruct s.
    left. destruct (Z.ltb_spec n 0) as [Hn0 | Hn0].
    + destruct (Z.ltb_spec (as_sz a + n) 0) as [Hw | Hw].
      * assert (E : uvmdealloc (as_root a) (as_sz a) (u64 (as_sz a + n)) h (ph s) = Ret (as_sz a) h (ph s)).
        { unfold uvmdealloc. unfold u64. rewrite <- (Z_mod_plus_full _ 1), Z.mod_small by lia.
          now rewrite (proj2 (Z.leb_le _ _)) by lia. }
        rewrite (bind_vm _ _ _ _ _ _ _ E), Z.min_id. eexists (ph s), l, a. split_and!; auto. intros va Hva. lia.
      * destruct (Hcut Hn0 Hw) as (f1 & f2 & Hf & Hx). rewrite u64_small by lia. rewrite Z.min_r by lia.
        destruct (shrink_space (ph s) l a (as_sz a + n) f1 f2 h Hm Hh Hh' ltac:(lia) Hf Hx) as (x & l' & E & Hmv & Hk).
        rewrite (bind_vm _ _ _ _ _ _ _ E). eexists x, l', _.
        split_and!; [reflexivity | | | exact Hmv | | exact Hk |]; [reflexivity .. | |].
        -- exact (sys_ok_grow s l A me a _ x l' Hs Ha Hme Hmv eq_refl eq_refl).
        -- destruct Hm as [_ Hsp]. destruct (Hsp a eq_refl) as (Hspa & _). pose proof (sp_region _ _ Hspa) as Hr.
           rewrite Hf in Hr. apply region_split in Hr as [_ Hr]. apply region_le in Hr. rewrite Hx in Hr. intros va Hva. lia.
    + replace n with 0 by lia. rewrite Z.add_0_r, (proj2 (Z.ltb_ge _ _)), Z.min_id by lia.
      eexists (ph s), l, a. rewrite Hph. split_and!; auto; [rewrite <- Hph; auto |]. intros va Hva. lia.
Qed.

End run.
