(* ===== verification/ProcFork.v ===== *)
(** * [fork]

    The child of [fork] is a copy of the calling process, over any file
    layer that satisfies the laws of [FileLaws]. *)

From Stdlib Require Import FunctionalExtensionality.
From S2P Require Import Prelude KMonad Riscv Mem Printf Kalloc KallocSafety Vm VmTable VmUnmap VmCopy Proc ProcFile ProcMem ProcSpace ProcRun.

(** ** Open files *)

Definition dup_ofile (pf : list Z) (L : list Z) (o : list Z) : list Z :=
  fold_left (fun o i => if nthZ 0 pf i =? 0 then o else updZ o i (nthZ 0 pf i)) L o.

(** Duplicating all files into an empty table. *)
Lemma dup_ofile_from pf n : forall k, (k + n)%nat = length pf ->
  dup_ofile pf (seqZ (Z.of_nat k) (Z.of_nat n)) (take k pf ++ repeat 0 n) = pf.
Proof.
  induction n as [|n IH]; intros k Hk.
  - cbn. rewrite app_nil_r. apply firstn_all2. lia.
  - rewrite seqZ_cons by lia. replace (Z.pred (Z.of_nat (S n))) with (Z.of_nat n) by lia.
    replace (Z.succ (Z.of_nat k)) with (Z.of_nat (S k)) by lia. unfold dup_ofile in *. cbn [fold_left].
    destruct (lookup_lt_is_Some_2 pf k) as [f Hf]; [lia |].
    assert (En : nthZ 0 pf (Z.of_nat k) = f) by (unfold nthZ; rewrite Nat2Z.id; now apply nth_lookup_Some).
    assert (Et : take (S k) pf = take k pf ++ [f]) by now apply take_S_r.
    etransitivity; [| exact (IH (S k) ltac:(lia))]. rewrite En, Et, <- app_assoc. f_equal. cbn [app repeat].
    assert (El : length (take k pf) = k) by (rewrite length_take; lia).
    destruct (Z.eqb_spec f 0) as [-> | _]; [reflexivity |].
    unfold updZ. rewrite Nat2Z.id, insert_app_r_alt by lia. rewrite El, Nat.sub_diag. reflexivity.
Qed.

Lemma dup_ofile_all pf : length pf = Z.to_nat NOFILE ->
  dup_ofile pf (seqZ 0 NOFILE) (repeat 0 (Z.to_nat NOFILE)) = pf.
Proof. intros Hl. exact (dup_ofile_from pf 16 0 (eq_sym Hl)). Qed.

Section fork.
Context `{LayoutOk} `{!PoolAbove} `{Symbols} {K : Type} `{FileLaws K}.

Lemma pr_Ret {A} (m : M psys A) h k a h' x : m h (ps k) = Ret a h' x -> pr m h k = Ret a h' (set_ps x k).
Proof. intros E. unfold pr. now rewrite (zoom_Ret _ _ _ _ _ _ _ _ E). Qed.

Lemma bind_pr {A B} (m : M psys A) (f : A -> M K B) h k a h' x :
  m h (ps k) = Ret a h' x -> bind (pr m) f h k = f a h' (set_ps x k).
Proof. intros E. apply bind_Ret, pr_Ret, E. Qed.

Lemma bind_pr_get {B} p (f : proc -> M K B) h k : bind (pr (getproc p)) f h k = f (procs (ps k) p) h k.
Proof. erewrite bind_pr by reflexivity. now rewrite set_ps_ps. Qed.

Lemma dupped_set_nil x k : dupped k (set_ps x k) [] [].
Proof. apply dupped_set, dupped_nil. Qed.

Lemma open_files_cons o i L : open_files o (i :: L) = if nthZ 0 o i =? 0 then open_files o L else nthZ 0 o i :: open_files o L.
Proof.
  unfold open_files. cbn [map]. destruct (Z.eqb_spec (nthZ 0 o i) 0) as [E | E]; [apply filter_cons_False | apply filter_cons_True]; [tauto | exact E].
Qed.

Lemma dup_files_run me np h ns : me <> np -> ftable_lock ∉ h -> forall L k,
  let fs := open_files (ofile (procs (ps k) me)) L in can_dup k fs ns ->
  exists k', dup_files me np L h k = Ret tt h k' /\ dupped k k' fs [] /\ can_dup k' [] ns /\
    ps k' = upd_proc np (fun x => set_ofile (dup_ofile (ofile (procs (ps k) me)) L (ofile x)) x) (ps k).
Proof.
  intros Hne Hh. induction L as [|i L IH]; intros k; cbv zeta; intros Hr; cbn [dup_files].
  - exists k. split_and!; [reflexivity | apply dupped_nil | exact Hr |]. destruct (ps k) as [m f n it c]. unfold upd_proc, set_procs. cbn.
    f_equal. extensionality q. destruct (Z.eqb_spec q np) as [-> |]; [| reflexivity]. now destruct (f np).
  - rewrite open_files_cons in *. rewrite bind_pr_get. set (f := nthZ 0 (ofile (procs (ps k) me)) i).
    fold f in Hr. destruct (Z.eqb_spec f 0) as [Ef | Ef]; cbn [negb].
    + rewrite bind_ret. destruct (IH k) as (k' & E & Hk & Hc & Hp); [exact Hr |].
      exists k'. split_and!; auto. rewrite Hp. cbn [dup_ofile fold_left]. fold f. now rewrite (proj2 (Z.eqb_eq f 0)).
    + destruct (filedup_law h k f _ ns Hh Hr) as (k1 & E1 & Hp1 & Hd1 & Hc1).
      rewrite bind_bind, (bind_Ret _ _ _ _ _ _ _ E1). erewrite bind_pr by reflexivity. rewrite Hp1.
      set (k2 := set_ps _ k1).
      assert (Hp2 : ps k2 = upd_proc np (fun x => set_ofile (updZ (ofile x) i f) x) (ps k)) by (unfold k2; now rewrite ps_set).
      assert (Hme : procs (ps k2) me = procs (ps k) me) by (rewrite Hp2; now apply procs_upd_ne).
      destruct (IH k2) as (k' & E & Hk & Hc & Hp); [rewrite Hme; now apply can_dup_set |]. rewrite Hme in Hk.
      exists k'. split_and!; [exact E | exact (dupped_app k k2 k' [f] [] _ [] (dupped_set _ _ _ _ _ Hd1) Hk) | exact Hc |]. rewrite Hp, Hme, Hp2, upd_proc_upd.
      cbn [dup_ofile fold_left]. fold f. now rewrite (proj2 (Z.eqb_neq f 0)).
Qed.

Lemma bind_pr_release {B} lk h k (f : unit -> M K B) : bind (pr (release lk)) f (lk :: h) k = f tt h k.
Proof. erewrite bind_pr by apply release_top. now rewrite set_ps_ps. Qed.

Lemma bind_pr_acquire {B} lk h k (f : unit -> M K B) : lk ∉ h -> bind (pr (acquire lk)) f h k = f tt (lk :: h) k.
Proof. intros Hh. erewrite bind_pr by now apply acquire_free. now rewrite set_ps_ps. Qed.

Lemma bind_pr_mod {B} p g h k (f : unit -> M K B) : bind (pr (modproc p g)) f h k = f tt h (set_ps (upd_proc p g (ps k)) k).
Proof. now erewrite bind_pr by reflexivity. Qed.

(** The child's record, from the unused record [x]. *)
Definition child (p : proc) (me n tf r : Z) (x : proc) : proc :=
  set_state RUNNABLE (set_parent me (set_pname (safestrcpy_list 16 (pname x) (pname p)) (set_pcwd (pcwd p)
    (set_ofile (dup_ofile (ofile p) (seqZ 0 NOFILE) (ofile x)) (set_sz (sz p) (allocated n tf r x)))))).

(** The trap frame of the child. *)
Definition child_frame (dst src : Z) (m : memory) : memory := store64 (memmove m dst src TF_SIZE) (dst + TF_a0) 0.

Lemma child_frame_out m dst src x : x < dst \/ dst + PGSIZE <= x -> child_frame dst src m x = m x.
Proof.
  intros Hx. unfold child_frame, TF_a0, TF_SIZE, PGSIZE in *. rewrite store64_out by lia. apply memmove_out. lia.
Qed.

Lemma child_frame_a0 m dst src : load64 (child_frame dst src m) (dst + TF_a0) = 0.
Proof. unfold child_frame. now rewrite load64_store64_eq by lia. Qed.

Lemma child_frame_reg m dst src off : 0 <= off -> off + 8 <= TF_SIZE -> off + 8 <= TF_a0 \/ TF_a0 + 8 <= off ->
  load64 (child_frame dst src m) (dst + off) = load64 m (src + off).
Proof.
  intros Ho Ho' Hne. unfold child_frame, TF_a0, TF_SIZE in *. rewrite load64_store64_ne by lia.
  apply load64_shift. intros i Hi. rewrite memmove_in by lia. f_equal. lia.
Qed.

(** The end of [fork], once the memory is copied. *)
Definition fork_rest (me np n : Z) (p : proc) : M K Z :=
  dup_files me np (seqZ 0 NOFILE);;
  ip <- op_idup (pcwd p);;
  pr (modproc np (set_pcwd ip));;
  pr (modproc np (fun x => set_pname (safestrcpy_list 16 (pname x) (pname p)) x));;
  pr (release (proc_lock np));;
  pr (acquire wait_lock);;
  pr (modproc np (set_parent me));;
  pr (release wait_lock);;
  pr (acquire (proc_lock np));;
  pr (modproc np (set_state RUNNABLE));;
  pr (release (proc_lock np));;
  ret n.

Lemma nthZ_nonzero (pf : list Z) i : nthZ 0 pf i <> 0 -> nthZ 0 pf i ∈ pf.
Proof.
  unfold nthZ. intros Hn. destruct (nth_in_or_default (Z.to_nat i) pf 0) as [Hin | E]; [now apply list_elem_of_In | congruence].
Qed.

Lemma fork_rest_run me np n k h p : me <> np -> procs (ps k) me = p -> locks_free h ->
  ftable_lock ∉ h -> itable_lock ∉ h ->
  can_dup k (open_files (ofile p) (seqZ 0 NOFILE)) [pcwd p] ->
  exists k', fork_rest me np n p (proc_lock np :: h) k = Ret n h k' /\ dupped k k' (open_files (ofile p) (seqZ 0 NOFILE)) [pcwd p] /\
    ps k' = upd_proc np (fun x => set_state RUNNABLE (set_parent me (set_pname (safestrcpy_list 16 (pname x) (pname p)) (set_pcwd (pcwd p)
      (set_ofile (dup_ofile (ofile p) (seqZ 0 NOFILE) (ofile x)) x))))) (ps k).
Proof.
  intros Hne Hp Hh Hf Hi Hdup. unfold fork_rest.
  destruct (dup_files_run me np (proc_lock np :: h) [pcwd p] Hne) with (L := seqZ 0 NOFILE) (k := k) as (k1 & E1 & Hk1 & Hc1 & Hp1).
  { rewrite elem_of_cons. intros [? | ?]; [discriminate | contradiction]. }
  { now rewrite Hp. }
  rewrite (bind_Ret _ _ _ _ _ _ _ E1).
  destruct (idup_law (proc_lock np :: h) k1 (pcwd p) []) as (k2 & E2 & Hp2 & Hd2 & _); [| exact Hc1 |].
  { rewrite elem_of_cons. intros [? | ?]; [discriminate | contradiction]. }
  rewrite (bind_Ret _ _ _ _ _ _ _ E2), !bind_pr_mod, bind_pr_release.
  rewrite bind_pr_acquire by apply (lf_wait _ Hh). rewrite bind_pr_mod, bind_pr_release.
  rewrite bind_pr_acquire by apply (lf_proc _ Hh). rewrite bind_pr_mod, bind_pr_release.
  eexists. split; [reflexivity |].
  split; [repeat apply dupped_set; rewrite <- (app_nil_r (open_files _ _)); apply (dupped_app k k1 k2 _ [] [] [pcwd p]); [now rewrite Hp in Hk1 | exact Hd2] |].
  rewrite !ps_set, Hp2, Hp1, Hp, !upd_proc_upd. reflexivity.
Qed.

Section call.
Context (k : K) (h : locks) (l : list Z) (A : gmap Z aspace) (me : Z) (a : aspace).
Let s := ps k.
Context (Hs : sys_ok s l A) (Ha : A !! me = Some a) (Hh : locks_free h).
Context (Hft : ftable_lock ∉ h) (Hit : itable_lock ∉ h).
Context (Hdup : can_dup k (open_files (ofile (procs s me)) (seqZ 0 NOFILE)) [pcwd (procs s me)]).

(** What a successful [fork] leaves. *)
Record forked (np tf r : Z) (O' : owner) (fs : list (nat * Z)) (x : phys) (l' : list Z) (k' : K) : Prop := {
  fk_slot : np ∈ all_procs /\ A !! np = None /\ state (procs s np) = UNUSED;
  fk_first : first (fun q => state (procs s q) = UNUSED) all_procs np;
  fk_ps : ps k' = upd_proc np (child (procs s me) me (nextpid s) tf r) (set_nextpid (i32 (nextpid s + 1)) (set_ph x s));
  fk_moves : moves (ph s) l (A !! np) x l' (Some (AS tf r (as_sz a) O' fs));
  fk_read : forall va, 0 <= va < PGROUNDUP (as_sz a) -> user_read (mem x) r va = user_read (mem (ph s)) (as_root a) va;
  fk_a0 : load64 (mem x) (tf + TF_a0) = 0;
  fk_regs : forall off, 0 <= off -> off + 8 <= TF_SIZE -> off + 8 <= TF_a0 \/ TF_a0 + 8 <= off ->
    load64 (mem x) (tf + off) = load64 (mem (ph s)) (as_tf a + off);
  fk_refs : dupped k k' (open_files (ofile (procs s me)) (seqZ 0 NOFILE)) [pcwd (procs s me)]
}.

(** The memory part. *)
Lemma fork_memory np tf r O x l1 h1 : A !! np = None -> kmem_lock ∉ h1 -> supermem_lock ∉ h1 -> top_tables O ->
  moves (ph s) l None x l1 (Some (AS tf r 0 O [])) ->
  (exists y l2 O' fs, uvmcopy (as_root a) r (as_sz a) h1 x = Ret 0 h1 y /\
     let z := set_mem (child_frame tf (as_tf a)) y in
     moves (ph s) l (A !! np) z l2 (Some (AS tf r (as_sz a) O' fs)) /\
     (forall va, 0 <= va < PGROUNDUP (as_sz a) -> user_read (mem z) r va = user_read (mem (ph s)) (as_root a) va) /\
     (forall off, 0 <= off -> off + 8 <= TF_SIZE -> off + 8 <= TF_a0 \/ TF_a0 + 8 <= off ->
       load64 (mem z) (tf + off) = load64 (mem (ph s)) (as_tf a + off))) \/
  (exists y l2 O', uvmcopy (as_root a) r (as_sz a) h1 x = Ret (-1) h1 y /\
     moves (ph s) l (A !! np) y l2 (Some (AS tf r 0 O' []))).
Proof using H0 H1 Hs Ha.
  intros Hnp Hk Hk' Htop Hmv. rewrite Hnp.
  assert (Hmv' : moves (ph s) l (A !! np) x l1 (Some (AS tf r 0 O []))) by now rewrite Hnp.
  destruct (moves_pmem _ _ _ _ _ _ _ (so_mem _ _ _ Hs) Hmv') as [Hpm Hrd]. cbn [set_space] in Hpm.
  assert (Hne : me <> np) by congruence.
  assert (Ha1 : <[np := AS tf r 0 O []]> A !! me = Some a) by now rewrite lookup_insert_ne.
  assert (Hc1 : <[np := AS tf r 0 O []]> A !! np = Some (AS tf r 0 O [])) by apply lookup_insert_eq.
  destruct (copy_space x l1 _ np me a tf r O h1 Hpm Ha1 Hc1 Hne Htop Hk Hk')
    as [(y & l2 & O' & fs & E & Hmv2 & Hrd2) | (y & l2 & O' & E & Hmv2)]; rewrite Hc1 in Hmv2; [left | right].
  - exists y, l2, O', fs. split; [exact E |]. cbv zeta.
    pose proof (moves_trans _ _ _ _ _ _ _ _ _ Hmv Hmv2) as Hmv3.
    destruct (tf_write y l2 (AS tf r (as_sz a) O' fs) (child_frame tf (as_tf a)) (mv_mine _ _ _ _ _ _ Hmv2)) as [Hmv4 Hrd4].
    { intros z. apply child_frame_out. }
    split_and!; [exact (moves_trans _ _ _ _ _ _ _ _ _ Hmv3 Hmv4) | |].
    + intros va Hva. rewrite Hrd4, Hrd2 by auto. apply (Hrd me); auto.
      destruct (pm_space _ _ _ (so_mem _ _ _ Hs) me a Ha) as (Hsp & _). destruct (MAXSZ_top _ (sp_size _ _ Hsp)) as (Ht & _). pose proof top_range. lia.
    + intros off Ho Ho' Hn. cbn [mem set_mem]. rewrite child_frame_reg by auto. apply load64_ext. intros z Hz.
      apply (mv_mem _ _ _ _ _ _ Hmv3). rewrite <- Hnp.
      destruct (other_elsewhere _ _ _ np me a (so_mem _ _ _ Hs) Ha Hne) as (_ & _ & Hx & _).
      apply (Hx (as_tf a)); [now left |]. unfold TF_SIZE, PGSIZE in *. lia.
  - exists y, l2, O'. split; [exact E |]. exact (moves_trans _ _ _ _ _ _ _ _ _ Hmv Hmv2).
Qed.

Lemma fork_run :
  (exists np tf r O' fs x l' k', fork me h k = Ret (nextpid s) h k' /\ forked np tf r O' fs x l' k') \/
  (exists k' l', fork me h k = Ret (-1) h k' /\ alloc_failed s l A (ps k') l' /\ dupped k k' [] []).
Proof using All.
  unfold fork. destruct (allocproc_run s h l A Hs Hh)
    as [(np & tf & r & O & x & l1 & E1 & Hnp & HA & Htop & Hfst & Hmv & Hs1) | (s' & l' & E1 & Haf & _)].
  2: { right. rewrite (bind_pr _ _ _ _ _ _ _ E1). change (0 =? 0) with true. cbv iota.
       exists (set_ps s' k), l'. split; [reflexivity |]. rewrite ps_set. split; [exact Haf |]. apply dupped_set_nil. }
  rewrite (bind_pr _ _ _ _ _ _ _ E1). set (s1 := upd_proc np _ _) in *. pose proof (proj1 Hfst) as Hst.
  assert (Hne : me <> np) by congruence. assert (Hnp0 : np <> 0) by (apply elem_of_seqZ in Hnp; lia).
  rewrite (proj2 (Z.eqb_neq np 0)) by auto. rewrite !bind_pr_get, ps_set.
  assert (Hme : procs s1 me = procs s me) by (unfold s1; rewrite procs_upd_ne by auto; reflexivity).
  assert (Hc : procs s1 np = allocated (nextpid s) tf r (procs s np)) by (unfold s1; rewrite procs_upd_eq; reflexivity).
  rewrite Hme, Hc. cbn [pagetable trapframe pid allocated set_context set_pagetable set_trapframe set_state set_pid].
  destruct (so_space _ _ _ Hs me a Ha) as (Et & Er & Ez). rewrite <- Er, <- Ez, <- Et.
  assert (Hk : kmem_lock ∉ proc_lock np :: h) by (rewrite elem_of_cons; intros [? | ?]; [discriminate | now apply (lf_kmem _ Hh)]).
  assert (Hk' : supermem_lock ∉ proc_lock np :: h) by (rewrite elem_of_cons; intros [? | ?]; [discriminate | now apply (lf_super _ Hh)]).
  destruct (fork_memory np tf r O x l1 (proc_lock np :: h) HA Hk Hk' Htop Hmv)
    as [(y & l2 & O' & fs & E2 & Hmv2 & Hrd & Hrg) | (y & l2 & O' & E2 & Hmv2)].
  - left. erewrite bind_pr by (rewrite ps_set; apply vm_Ret; exact E2). change (0 <? 0) with false. cbv iota.
    rewrite bind_pr_mod. erewrite bind_pr by reflexivity. erewrite bind_pr by reflexivity.
    rewrite !ps_set. cbv zeta in *. set (s2 := set_ph _ (set_ph _ _)).
    assert (Hs2 : s2 = upd_proc np (fun z => set_sz (as_sz a) (allocated (nextpid s) tf r z)) (set_nextpid (i32 (nextpid s + 1)) (set_ph (set_mem (child_frame tf (as_tf a)) y) s))).
    { unfold s2, s1. rewrite !set_ph_upd, upd_proc_upd. reflexivity. }
    clearbody s2. set (k2 := set_ps s2 _).
    assert (Hp2 : ps k2 = s2) by apply ps_set. assert (Hk2 : dupped k k2 [] []) by (repeat apply dupped_set; apply dupped_nil).
    destruct (fork_rest_run me np (nextpid s) k2 h (procs s me) Hne) as (k3 & E3 & Hk3 & Hp3); auto.
    { rewrite Hp2, Hs2. now rewrite procs_upd_ne. }
    { unfold k2. rewrite !can_dup_set. exact Hdup. }
    exists np, tf, r, O', fs, (set_mem (child_frame tf (as_tf a)) y), l2, k3. split; [exact E3 |].
    split; auto.
    + rewrite Hp3, Hp2, Hs2, upd_proc_upd. unfold child. now rewrite <- Ez.
    + apply child_frame_a0.
    + exact (dupped_app k k2 k3 [] [] _ _ Hk2 Hk3).
  - right. erewrite bind_pr by (rewrite ps_set; apply vm_Ret; exact E2). change (-1 <? 0) with true. cbv iota.
    assert (Hs2 : sys_ok (set_ph y s1) l2 (<[np := AS tf r 0 O' []]> A)).
    { unfold s1. rewrite set_ph_upd.
      apply (sys_ok_update s l A np (allocated (nextpid s) tf r) _ y l2 (Some (AS tf r 0 O' []))); auto.
      - intros b [= <-]. cbn. destruct (so_none _ _ _ Hs np HA) as (_ & _ & ->). auto.
      - discriminate.
      - cbn. split; [eauto | discriminate]. }
    destruct (freeproc_sys _ (proc_lock np :: h) l2 _ np _ Hs2 (lookup_insert_eq _ _ _) Hk Hk') as (z & l3 & E3 & Hmv3 & Hs3).
    erewrite bind_pr by (rewrite ps_set; exact E3). rewrite bind_pr_release. eexists _, l3. split; [reflexivity |].
    rewrite ps_set. split; [| repeat apply dupped_set; apply dupped_nil].
    rewrite delete_insert_id in Hs3 by auto. split; auto.
    + rewrite lookup_insert_eq in Hmv3. rewrite HA in Hmv2. exact (moves_trans _ _ _ _ _ _ _ _ _ Hmv2 Hmv3).
    + intros q Hq. assert (q <> np) by congruence. unfold s1. rewrite !procs_upd_ne by auto. cbn [procs set_ph]. rewrite procs_upd_ne by auto. reflexivity.
    + intros q Hq. unfold s1. destruct (decide (q = np)) as [-> | Hq']; [right; rewrite procs_upd_eq; cbn [procs set_ph]; rewrite procs_upd_eq; eexists; reflexivity |].
      left. rewrite !procs_upd_ne by auto. cbn [procs set_ph]. now rewrite procs_upd_ne.
Qed.

End call.

End fork.
