(* ===== verification/ProcTable.v ===== *)
(** * Waking, killing, exiting and waiting

    What the functions of proc.c that go over the whole process table do to
    it, and where [exit] and [wait] give up the CPU. *)

From Stdlib Require Import FunctionalExtensionality.
From S2P Require Import Prelude KMonad Riscv Mem Printf Kalloc KallocSafety Vm VmTable VmUnmap VmCopy Proc ProcFile ProcMem ProcSpace ProcRun.

(** ** [wakeup] *)

Definition sleeps_on (c : channel) (x : proc) : Prop := state x = SLEEPING /\ chan x = Some c.

#[global] Instance sleeps_on_dec c x : Decision (sleeps_on c x).
Proof. unfold sleeps_on. apply _. Defined.

(** The table after [wakeup(c)] by [me] over the processes [L]. *)
Definition wake (me : Z) (c : channel) (L : list Z) (f : Z -> proc) : Z -> proc :=
  fun q => if decide (q ∈ L /\ q <> me /\ sleeps_on c (f q)) then set_state RUNNABLE (f q) else f q.

Lemma wake_nil me c f : wake me c [] f = f.
Proof. extensionality q. unfold wake. rewrite decide_False; [reflexivity |]. intros [Hq _]. now apply elem_of_nil in Hq. Qed.

Lemma wake_cons me c p L f :
  wake me c (p :: L) f = wake me c L (wake me c [p] f).
Proof.
  extensionality q. unfold wake. destruct (decide (q = p)) as [-> | Hne].
  - destruct (decide (p ∈ p :: L /\ p <> me /\ sleeps_on c (f p))) as [(_ & Hm & Hs) | Hn].
    + rewrite (decide_True (P := p ∈ [p] /\ p <> me /\ sleeps_on c (f p))) by (split_and!; auto; left).
      rewrite decide_False; [reflexivity |]. intros (_ & _ & [Hs' _]). discriminate.
    + rewrite (decide_False (P := p ∈ [p] /\ p <> me /\ sleeps_on c (f p))).
      * rewrite decide_False; [reflexivity |]. intros (Hp & Hr). apply Hn. split; [now right | auto].
      * intros (Hp & Hr). apply Hn. split; [left | auto].
  - rewrite (decide_False (P := q ∈ [p] /\ q <> me /\ sleeps_on c (f q))) by (rewrite list_elem_of_singleton; tauto).
    destruct (decide (q ∈ p :: L /\ q <> me /\ sleeps_on c (f q))) as [Hd | Hd]; [rewrite decide_True | rewrite decide_False]; auto;
      rewrite elem_of_cons in *; tauto.
Qed.

Lemma set_procs_set f g s : set_procs f (set_procs g s) = set_procs f s.
Proof. reflexivity. Qed.

Lemma set_procs_same s : set_procs (procs s) s = s.
Proof. now destruct s. Qed.

Lemma wakeup_loop_run me c h L : (forall p, proc_lock p ∉ h) -> forall s,
  wakeup_loop me c L h s = Ret tt h (set_procs (wake me c L (procs s)) s).
Proof.
  intros Hh. induction L as [|p L IH]; intros s; cbn [wakeup_loop]; [now rewrite wake_nil, set_procs_same |].
  assert (E : (if negb (p =? me) then acquire (proc_lock p);; x <- getproc p;;
      (if decide (state x = SLEEPING /\ chan x = Some c) then modproc p (set_state RUNNABLE) else ret tt);; release (proc_lock p) else ret tt) h s
    = Ret tt h (set_procs (wake me c [p] (procs s)) s)).
  { destruct (Z.eqb_spec p me) as [-> | Hne]; cbn [negb].
    - replace (wake me c [me] (procs s)) with (procs s); [now rewrite set_procs_same |].
      extensionality q. unfold wake. rewrite decide_False; [reflexivity |]. rewrite list_elem_of_singleton. tauto.
    - rewrite (bind_Ret _ _ _ _ _ _ _ (acquire_free (proc_lock p) h s (Hh p))), bind_getproc.
      destruct (decide (state (procs s p) = SLEEPING /\ chan (procs s p) = Some c)) as [Hs | Hs].
      + rewrite bind_modproc, release_top. unfold upd_proc. do 2 f_equal. extensionality q. unfold wake. destruct (Z.eqb_spec q p) as [-> | Hq].
        * rewrite decide_True; [reflexivity |]. split_and!; auto. left.
        * rewrite decide_False; [reflexivity |]. rewrite list_elem_of_singleton. tauto.
      + rewrite bind_ret, release_top. replace (wake me c [p] (procs s)) with (procs s); [now rewrite set_procs_same |].
        extensionality q. unfold wake. rewrite decide_False; [reflexivity |]. rewrite list_elem_of_singleton. intros (-> & _ & Hs'). auto. }
  rewrite (bind_Ret _ _ _ _ _ _ _ E), IH, set_procs_set. do 2 f_equal. cbn [procs set_procs]. now rewrite <- wake_cons.
Qed.

Lemma wakeup_run me c h s : (forall p, proc_lock p ∉ h) ->
  wakeup me c h s = Ret tt h (set_procs (wake me c all_procs (procs s)) s).
Proof. intros Hh. now apply wakeup_loop_run. Qed.

Lemma wake_parent me c L f q : parent (wake me c L f q) = parent (f q).
Proof. unfold wake. now destruct (decide _). Qed.

Lemma wake_idem me c L f : wake me c L (wake me c L f) = wake me c L f.
Proof.
  extensionality q. unfold wake. destruct (decide (q ∈ L /\ q <> me /\ sleeps_on c (f q))) as [Hd | Hd].
  - rewrite decide_False; [reflexivity |]. intros (_ & _ & [Hs _]). discriminate.
  - now rewrite decide_False.
Qed.

(** ** [kill] *)

Definition kill_proc (x : proc) : proc :=
  if decide (state x = SLEEPING) then set_state RUNNABLE (set_pkilled 1 x) else set_pkilled 1 x.

Lemma kill_loop_run n h s : (forall p, proc_lock p ∉ h) -> forall L,
  (exists p, first (fun q => pid (procs s q) = n) L p /\ kill_loop n L h s = Ret 0 h (upd_proc p kill_proc s)) \/
  (Forall (fun p => pid (procs s p) <> n) L /\ kill_loop n L h s = Ret (-1) h s).
Proof.
  intros Hh. induction L as [|p L IH]; cbn [kill_loop]; [right; split; [constructor | reflexivity] |].
  rewrite (bind_Ret _ _ _ _ _ _ _ (acquire_free (proc_lock p) h s (Hh p))), bind_getproc.
  destruct (Z.eqb_spec (pid (procs s p)) n) as [En | En].
  - left. exists p. split; [now apply first_here |]. rewrite bind_modproc. unfold kill_proc.
    destruct (decide (state (procs s p) = SLEEPING)) as [Hs | Hs]; rewrite ?bind_modproc, ?bind_ret;
      rewrite (bind_Ret _ _ _ _ _ _ _ (release_top _ _ _)); unfold ret; f_equal; rewrite ?upd_proc_upd;
      unfold upd_proc, set_procs; f_equal; extensionality q; destruct (q =? p); auto;
      [now rewrite decide_True | now rewrite decide_False].
  - rewrite (bind_Ret _ _ _ _ _ _ _ (release_top _ _ _)).
    destruct IH as [(q & Hq & E) | [Hall E]]; [left; exists q; split; [now apply first_later | exact E] | right; auto].
Qed.

(** ** [reparent] *)

Definition orphan (p init : Z) (L : list Z) (f : Z -> proc) : Z -> proc :=
  fun q => if decide (q ∈ L /\ parent (f q) = p) then set_parent init (f q) else f q.

Lemma orphan_nil p init f : orphan p init [] f = f.
Proof. extensionality q. unfold orphan. rewrite decide_False; [reflexivity |]. intros [Hq _]. now apply elem_of_nil in Hq. Qed.

Lemma orphan_none p init L f : Forall (fun q => parent (f q) <> p) L -> orphan p init L f = f.
Proof.
  intros Hn. rewrite Forall_forall in Hn. extensionality q. unfold orphan. rewrite decide_False; [reflexivity |].
  intros [Hq Hp]. now apply (Hn q).
Qed.

Lemma orphan_cons p init pp L f : p <> init -> orphan p init (pp :: L) f = orphan p init L (orphan p init [pp] f).
Proof.
  intros Hi. extensionality q. unfold orphan. destruct (decide (q = pp)) as [-> | Hne].
  - destruct (decide (parent (f pp) = p)) as [E | E].
    + rewrite decide_True by (split; [left | auto]). rewrite (decide_True (P := pp ∈ [pp] /\ _)) by (split; [left | auto]).
      rewrite decide_False; [reflexivity |]. cbn. intros [_ ?]. congruence.
    + rewrite decide_False by tauto. rewrite (decide_False (P := pp ∈ [pp] /\ _)) by tauto. now rewrite decide_False by tauto.
  - rewrite (decide_False (P := q ∈ [pp] /\ _)) by (rewrite list_elem_of_singleton; tauto).
    destruct (decide (q ∈ L /\ parent (f q) = p)) as [Hd | Hd]; [rewrite decide_True | rewrite decide_False]; auto;
      rewrite elem_of_cons; tauto.
Qed.

Lemma orphan_wake p init L me c L' f : orphan p init L (wake me c L' f) = wake me c L' (orphan p init L f).
Proof.
  extensionality q. unfold wake, orphan. destruct (decide (q ∈ L /\ parent (f q) = p)) as [Hp | Hp].
  - destruct (decide (q ∈ L' /\ q <> me /\ sleeps_on c (f q))) as [Hd | Hd].
    + rewrite decide_True by auto. now rewrite decide_True.
    + rewrite decide_True by auto. now rewrite decide_False.
  - destruct (decide (q ∈ L' /\ q <> me /\ sleeps_on c (f q))) as [Hd | Hd].
    + now rewrite decide_False.
    + now rewrite decide_False.
Qed.

(** The table after [reparent(p)]. *)
Definition adopt (me p init : Z) (L : list Z) (f : Z -> proc) : Z -> proc :=
  if decide (Exists (fun q => parent (f q) = p) L)
  then wake me (ch_proc init) all_procs (orphan p init L f) else orphan p init L f.

Lemma orphan_parent p init L f q : parent (orphan p init L f q) = if decide (q ∈ L /\ parent (f q) = p) then init else parent (f q).
Proof. unfold orphan. now destruct (decide _). Qed.

Lemma adopt_cons me p init pp L f : p <> init ->
  adopt me p init (pp :: L) f =
  adopt me p init L (if decide (parent (f pp) = p) then wake me (ch_proc init) all_procs (orphan p init [pp] f) else f).
Proof.
  intros Hi. unfold adopt. rewrite orphan_cons by auto. destruct (decide (parent (f pp) = p)) as [E | E].
  - rewrite (decide_True (P := Exists _ (pp :: L))) by now left. rewrite orphan_wake.
    destruct (decide (Exists (fun q => parent (wake me (ch_proc init) all_procs (orphan p init [pp] f) q) = p) L)); [now rewrite wake_idem | reflexivity].
  - rewrite (orphan_none p init [pp]) by (constructor; [auto | constructor]).
    destruct (decide (Exists (fun q => parent (f q) = p) L)) as [Hx | Hx]; [rewrite decide_True | rewrite decide_False]; auto.
    rewrite Exists_cons. tauto.
Qed.

Lemma reparent_loop_run me p h L : (forall q, proc_lock q ∉ h) -> forall s, p <> initproc s ->
  reparent_loop me p L h s = Ret tt h (set_procs (adopt me p (initproc s) L (procs s)) s).
Proof.
  intros Hh. induction L as [|pp L IH]; intros s Hi; cbn [reparent_loop].
  - unfold adopt. rewrite decide_False by (rewrite Exists_nil; tauto). now rewrite orphan_nil, set_procs_same.
  - rewrite bind_getproc, adopt_cons by auto. destruct (Z.eqb_spec (parent (procs s pp)) p) as [E | E].
    + rewrite (decide_True (P := parent (procs s pp) = p)) by auto. rewrite !bind_bind, bind_gets, bind_bind, bind_modproc.
      rewrite (bind_Ret _ _ _ _ _ _ _ (wakeup_run me _ h _ Hh)), IH by auto. cbn [initproc set_procs upd_proc procs].
      assert (Ho : (fun q => if q =? pp then set_parent (initproc s) (procs s pp) else procs s q) = orphan p (initproc s) [pp] (procs s)).
      { extensionality q. unfold orphan. destruct (Z.eqb_spec q pp) as [-> | Hq].
        - rewrite decide_True; [reflexivity |]. split; [left | auto].
        - rewrite decide_False; [reflexivity |]. rewrite list_elem_of_singleton. tauto. }
      now rewrite Ho.
    + rewrite (decide_False (P := parent (procs s pp) = p)) by auto. rewrite bind_ret. now apply IH.
Qed.

Lemma reparent_run me p h s : (forall q, proc_lock q ∉ h) -> p <> initproc s ->
  reparent me p h s = Ret tt h (set_procs (adopt me p (initproc s) all_procs (procs s)) s).
Proof. intros Hh Hp. now apply reparent_loop_run. Qed.

(** ** Giving up the CPU *)

Lemma sched_run me s : state (procs s me) <> RUNNING ->
  sched me [proc_lock me] s = Sleep ch_cpu s (fun s' => Ret tt [proc_lock me] s').
Proof.
  intros Hn. unfold sched. rewrite bool_decide_eq_true_2 by left. cbn [negb].
  change (Z.of_nat (length [proc_lock me]) =? 1) with true. cbn [negb]. now rewrite decide_False.
Qed.

Lemma obind_Sleep {S A B} (m : M S A) (f : A -> M S B) h s c s' k :
  m h s = Sleep c s' k -> bind m f h s = Sleep c s' (fun t => obind (k t) f).
Proof. intros E. unfold bind. now rewrite E. Qed.

(** Where [sleep] switches away, and what it does when it is resumed. *)
Definition asleep (me : Z) (c : channel) (s : psys) : psys :=
  upd_proc me (fun x => set_state SLEEPING (set_chan (Some c) x)) s.

Definition resume_sleep (me : Z) (lk : lockname) : M psys unit :=
  modproc me (set_chan None);; release (proc_lock me);; acquire lk.

Lemma sleep_run me c lk s : (forall p, lk <> proc_lock p) ->
  sleep me c lk [lk] s = Sleep ch_cpu (asleep me c s) (fun s' => resume_sleep me lk [proc_lock me] s').
Proof.
  intros Hlk. unfold sleep. rewrite (bind_Ret _ _ _ _ _ _ _ (acquire_free (proc_lock me) [lk] s ltac:(rewrite list_elem_of_singleton; congruence))).
  assert (E : release lk [proc_lock me; lk] s = Ret tt [proc_lock me] s).
  { unfold release. rewrite decide_True by (right; left). cbn [remove_lock]. rewrite decide_False by congruence. now rewrite decide_True. }
  rewrite (bind_Ret _ _ _ _ _ _ _ E), !bind_modproc, upd_proc_upd. fold (asleep me c s).
  erewrite obind_Sleep by (apply sched_run; unfold asleep; rewrite procs_upd_eq; discriminate). reflexivity.
Qed.

(** [exit], once the files are closed, ends as a zombie. *)
Definition exited (me status : Z) (s : psys) : psys :=
  let f := adopt me me (initproc s) all_procs (procs s) in
  upd_proc me (fun x => set_state ZOMBIE (set_xstate status x))
    (set_procs (wake me (ch_proc (parent (f me))) all_procs f) s).

Lemma exit_tail_run me status s : me <> initproc s ->
  exists k, exit_tail me status [] s = Sleep ch_cpu (exited me status s) k.
Proof.
  intros Hi. unfold exit_tail.
  rewrite (bind_Ret _ _ _ _ _ _ _ (acquire_free wait_lock [] s ltac:(apply not_elem_of_nil))).
  assert (Hl : forall q, proc_lock q ∉ [wait_lock]) by (intros q; rewrite list_elem_of_singleton; discriminate).
  rewrite (bind_Ret _ _ _ _ _ _ _ (reparent_run me me [wait_lock] s Hl Hi)), bind_getproc.
  rewrite (bind_Ret _ _ _ _ _ _ _ (wakeup_run me _ [wait_lock] _ Hl)).
  rewrite (bind_Ret _ _ _ _ _ _ _ (acquire_free (proc_lock me) [wait_lock] _ (Hl me))), !bind_modproc, upd_proc_upd.
  assert (E : forall t : psys, release wait_lock [proc_lock me; wait_lock] t = Ret tt [proc_lock me] t).
  { intros t. unfold release. rewrite decide_True by (right; left). cbn [remove_lock]. rewrite decide_False by congruence. now rewrite decide_True. }
  rewrite (bind_Ret _ _ _ _ _ _ _ (E _)). eexists.
  erewrite obind_Sleep by (apply sched_run; rewrite procs_upd_eq; discriminate). reflexivity.
Qed.

(** ** [wait] *)

Section wait.
Context `{LayoutOk} `{!PoolAbove} `{Symbols}.

Lemma sys_ok_ph s l A me a x l' : sys_ok s l A -> A !! me = Some a ->
  moves (ph s) l (Some a) x l' (Some a) -> sys_ok (set_ph x s) l' A.
Proof.
  intros Hs Ha Hmv. assert (Hmv' : moves (ph s) l (A !! me) x l' (Some a)) by now rewrite Ha.
  destruct (moves_pmem _ _ _ _ _ _ _ (so_mem _ _ _ Hs) Hmv') as [Hpm _]. cbn [set_space] in Hpm.
  rewrite insert_id in Hpm by auto. destruct Hs. now split.
Qed.

(** What [wait] finds when it scans [L]. *)
Inductive scanned (me addr : Z) (s : psys) (A : gmap Z aspace) (L : list Z) (hk : bool) : outcome psys (Z + bool) -> Prop :=
| scan_none : Forall (fun q => parent (procs s q) = me -> state (procs s q) <> ZOMBIE) L ->
    scanned me addr s A L hk (Ret (inr (hk || bool_decide (Exists (fun q => parent (procs s q) = me) L))) [wait_lock] s)
| scan_fault pp x l' : pp ∈ L -> parent (procs s pp) = me -> state (procs s pp) = ZOMBIE -> addr <> 0 ->
    sys_ok (set_ph x s) l' A ->
    scanned me addr s A L hk (Ret (inl (-1)) [] (set_ph x s))
| scan_reaped pp x l' : pp ∈ L -> parent (procs s pp) = me -> state (procs s pp) = ZOMBIE ->
    sys_ok (upd_proc pp cleared (set_ph x s)) l' (delete pp A) ->
    scanned me addr s A L hk (Ret (inl (pid (procs s pp))) [] (upd_proc pp cleared (set_ph x s))).

Lemma wait_scan_run me addr s l A a : sys_ok s l A -> A !! me = Some a -> 0 <= addr -> state (procs s me) <> ZOMBIE ->
  forall L hk, (forall q, q ∈ L -> q ∈ all_procs) -> scanned me addr s A L hk (wait_scan me addr hk L [wait_lock] s).
Proof.
  intros Hs Ha Haddr Hme. induction L as [|pp L IH]; intros hk HL; cbn [wait_scan].
  { pose proof (scan_none me addr s A [] hk ltac:(constructor)) as Hx.
    rewrite bool_decide_eq_false_2, orb_false_r in Hx by (rewrite Exists_nil; tauto). exact Hx. }
  assert (Hmono : forall hk' o, scanned me addr s A L hk' o ->
    (parent (procs s pp) = me -> state (procs s pp) <> ZOMBIE) ->
    hk' = hk || bool_decide (parent (procs s pp) = me) -> scanned me addr s A (pp :: L) hk o).
  { intros hk' o [Hn | q x l' Hq Hp Hz Had Hs' | q x l' Hq Hp Hz Hs'] Hpp ->.
    - replace (hk || bool_decide (parent (procs s pp) = me) || bool_decide (Exists (fun q => parent (procs s q) = me) L))
        with (hk || bool_decide (Exists (fun q => parent (procs s q) = me) (pp :: L))).
      + apply scan_none. now constructor.
      + rewrite <- orb_assoc. f_equal. rewrite (bool_decide_ext _ _ (Exists_cons _ pp L)), bool_decide_or. reflexivity.
    - eapply scan_fault; eauto. now right.
    - eapply scan_reaped; eauto. now right. }
  rewrite bind_getproc. destruct (Z.eqb_spec (parent (procs s pp)) me) as [Ep | Ep].
  2: { eapply Hmono; [apply IH; intros q Hq; apply HL; now right | tauto |]. rewrite bool_decide_eq_false_2 by auto. now rewrite orb_false_r. }
  rewrite (bind_Ret _ _ _ _ _ _ _ (acquire_free (proc_lock pp) [wait_lock] s ltac:(rewrite list_elem_of_singleton; congruence))), bind_getproc.
  destruct (decide (state (procs s pp) = ZOMBIE)) as [Hz | Hz].
  2: { rewrite (bind_Ret _ _ _ _ _ _ _ (release_top _ _ _)). eapply Hmono; [apply IH; intros q Hq; apply HL; now right | tauto |].
       rewrite bool_decide_eq_true_2 by auto. now rewrite orb_true_r. }
  rewrite bind_getproc. set (h := [proc_lock pp; wait_lock]).
  assert (Hh : (kmem_lock ∉ h) /\ (supermem_lock ∉ h)) by (unfold h; split; intros Hx; repeat (apply elem_of_cons in Hx as [Hx | Hx]; [discriminate |]); now apply elem_of_nil in Hx).
  assert (Hc : exists r x, (if addr =? 0 then ret 0 else vm (copyout (pagetable (procs s me)) addr (int_bytes (xstate (procs s pp))))) h s =
    Ret r h (set_ph x s) /\ (r = 0 \/ (r = -1 /\ addr <> 0)) /\ sys_ok (set_ph x s) l A).
  { assert (Hph : set_ph (ph s) s = s) by now destruct s.
    destruct (Z.eqb_spec addr 0) as [E0 | E0]; [exists 0, (ph s); rewrite Hph; auto |].
    pose proof (pmem_mine _ _ _ me (so_mem _ _ _ Hs)) as Hm. rewrite Ha in Hm.
    destruct (so_space _ _ _ Hs me a Ha) as (_ & Er & _). rewrite <- Er.
    destruct (copyout_moves (ph s) l a h addr (int_bytes (xstate (procs s pp))) Hm Haddr) as (r & x & E & Hr & Hmv).
    exists r, x. split; [now apply vm_Ret |]. split; [tauto | eapply sys_ok_ph; eauto]. }
  destruct Hc as (r & x & E & Hr & Hs'). rewrite (bind_Ret _ _ _ _ _ _ _ E). unfold h.
  destruct Hr as [-> | [-> Had]]; [change (0 <? 0) with false | change (-1 <? 0) with true]; cbv iota.
  - assert (Hpp : is_Some (A !! pp)) by (apply (so_used _ _ _ Hs pp); [apply HL; left | now rewrite Hz]).
    destruct Hpp as [b Hb]. destruct (freeproc_sys (set_ph x s) h l A pp b Hs' Hb (proj1 Hh) (proj2 Hh)) as (y & l' & E2 & _ & Hs2).
    unfold h in E2. rewrite (bind_Ret _ _ _ _ _ _ _ E2), !(bind_Ret _ _ _ _ _ _ _ (release_top _ _ _)).
    apply (scan_reaped me addr s A (pp :: L) hk pp y l'); auto. left.
  - rewrite !(bind_Ret _ _ _ _ _ _ _ (release_top _ _ _)). eapply scan_fault; eauto. left.
Qed.

(** How a round of [wait], with [wait_lock] held, ends: a child was reaped,
    the status could not be stored, there is nothing to wait for, or the
    process sleeps. *)
Inductive wait_turn (me addr : Z) (s : psys) (A : gmap Z aspace) (fuel : nat) : outcome psys Z -> Prop :=
| wait_reaped pp x l' : pp ∈ all_procs -> parent (procs s pp) = me -> state (procs s pp) = ZOMBIE ->
    sys_ok (upd_proc pp cleared (set_ph x s)) l' (delete pp A) ->
    wait_turn me addr s A fuel (Ret (pid (procs s pp)) [] (upd_proc pp cleared (set_ph x s)))
| wait_fault pp x l' : pp ∈ all_procs -> parent (procs s pp) = me -> state (procs s pp) = ZOMBIE -> addr <> 0 ->
    sys_ok (set_ph x s) l' A -> wait_turn me addr s A fuel (Ret (-1) [] (set_ph x s))
| wait_nothing : (forall q, q ∈ all_procs -> parent (procs s q) = me -> state (procs s q) <> ZOMBIE) ->
    pkilled (procs s me) <> 0 \/ (forall q, q ∈ all_procs -> parent (procs s q) <> me) ->
    wait_turn me addr s A fuel (Ret (-1) [] s)
| wait_sleeps : (forall q, q ∈ all_procs -> parent (procs s q) = me -> state (procs s q) <> ZOMBIE) ->
    pkilled (procs s me) = 0 -> (exists q, q ∈ all_procs /\ parent (procs s q) = me) ->
    wait_turn me addr s A fuel
      (match fuel with
       | O => OutOfFuel
       | S fuel' => Sleep ch_cpu (asleep me (ch_proc me) s)
           (fun t => obind (resume_sleep me wait_lock [proc_lock me] t) (fun _ => wait_loop me fuel' addr))
       end).

Lemma killed_run p h s : proc_lock p ∉ h -> killed p h s = Ret (pkilled (procs s p)) h s.
Proof. intros Hh. unfold killed, getproc. krun. reflexivity. Qed.

Lemma wait_stop_run me s (hk : bool) :
  (if negb hk then ret 1 else killed me) [wait_lock] s = Ret (if hk then pkilled (procs s me) else 1) [wait_lock] s.
Proof. destruct hk; [apply killed_run; rewrite list_elem_of_singleton; discriminate | reflexivity]. Qed.

Lemma wait_loop_run me addr s l A a fuel : sys_ok s l A -> A !! me = Some a -> 0 <= addr -> state (procs s me) <> ZOMBIE ->
  wait_turn me addr s A fuel (wait_loop me fuel addr [wait_lock] s).
Proof.
  intros Hs Ha Haddr Hme.
  set (after := fun hk : bool => k <- (if negb hk then ret 1 else killed me);;
      if negb (k =? 0) then release wait_lock;; ret (-1)
      else match fuel with O => out_of_fuel | S fuel' => sleep me (ch_proc me) wait_lock;; wait_loop me fuel' addr end).
  assert (Hafter : Forall (fun q => parent (procs s q) = me -> state (procs s q) <> ZOMBIE) all_procs ->
    wait_turn me addr s A fuel (after (false || bool_decide (Exists (fun q => parent (procs s q) = me) all_procs)) [wait_lock] s)).
  { intros Hn. rewrite Forall_forall in Hn. rewrite orb_false_l. unfold after. rewrite (bind_Ret _ _ _ _ _ _ _ (wait_stop_run me s _)).
    set (hk := bool_decide _). destruct (Z.eqb_spec (if hk then pkilled (procs s me) else 1) 0) as [E | E]; cbn [negb].
    - assert (Hhk : hk = true) by (destruct hk; [auto | discriminate]). rewrite Hhk in E.
      apply bool_decide_eq_true, Exists_exists in Hhk. pose proof (wait_sleeps me addr s A fuel Hn E Hhk) as Ht.
      destruct fuel as [|fuel]; [exact Ht |]. unfold bind. rewrite sleep_run by discriminate. exact Ht.
    - rewrite (bind_Ret _ _ _ _ _ _ _ (release_top _ _ _)). apply wait_nothing; auto. subst hk.
      destruct (bool_decide_reflect (Exists (fun q => parent (procs s q) = me) all_procs)) as [_ | Hx]; [now left | right].
      intros q Hq Hp. apply Hx, Exists_exists. eauto. }
  assert (El : wait_loop me fuel addr [wait_lock] s = obind (wait_scan me addr false all_procs [wait_lock] s)
    (fun r => match r with inl v => ret v | inr hk => after hk end)) by (destruct fuel; reflexivity).
  rewrite El. clearbody after. clear El.
  destruct (wait_scan_run me addr s l A a Hs Ha Haddr Hme all_procs false (fun _ Hq => Hq)) as [Hn | pp x l' Hq Hp Hz Had Hs' | pp x l' Hq Hp Hz Hs']; cbn [obind].
  - now apply Hafter.
  - now apply (wait_fault me addr s A fuel pp x l').
  - now apply (wait_reaped me addr s A fuel pp x l').
Qed.

End wait.
