(* ===== verification/ProcLife.v ===== *)
(** * The life of processes

    The process table as a transition system: processes call [fork], [exit],
    [wait], [sleep], [yield] and [growproc] and store to their memory, anyone
    calls [kill] and [wakeup], and the scheduler runs what is RUNNABLE.  A call
    runs until it returns or switches away; a thread that is switched to continues
    where it left.  Open files are tokens that are always there ([table_files]).
    There is no [exec], a process shrinks only where no superpage is cut
    ([clean_cut]), and pids stay below 2^31 - 1. *)

From Stdlib Require Import FunctionalExtensionality.
From S2P Require Import Prelude KMonad Riscv Mem Printf Kalloc KallocSafety Vm VmTable VmUnmap VmAlloc VmCopy Proc ProcFile ProcMem ProcSpace ProcRun ProcFork ProcTable.

#[export] Instance table_files : FileOps psys := {|
  ps s := s;
  set_ps x _ := x;
  op_filedup f := ret f;
  op_fileclose _ := ret tt;
  op_idup i := ret i;
  op_iput _ := ret tt;
  op_begin_op := ret tt;
  op_end_op := ret tt;
  op_namei _ := ret 1;
|}.

#[export] Program Instance table_file_laws : FileLaws psys := {|
  can_dup _ _ _ := True;
  dupped _ _ _ _ := True;
|}.
Next Obligation. reflexivity. Qed.
Next Obligation. reflexivity. Qed.
Next Obligation. tauto. Qed.
Next Obligation. intros. exact I. Qed.
Next Obligation. intros. exact I. Qed.
Next Obligation. intros. exact I. Qed.
Next Obligation. intros h k f fs ns _ _. exists k. auto. Qed.
Next Obligation. intros h k i ns _ _. exists k. auto. Qed.

(** ** Closing the files of an exiting process *)

Definition close_ofile (L : list Z) (o : list Z) : list Z :=
  fold_left (fun o i => if nthZ 0 o i =? 0 then o else updZ o i 0) L o.

Lemma close_ofile_from n : forall k pf, length pf = n ->
  close_ofile (seqZ (Z.of_nat k) (Z.of_nat n)) (repeat 0 k ++ pf) = repeat 0 (k + n).
Proof.
  induction n as [|n IH]; intros k pf Hl.
  - destruct pf; [| discriminate]. cbn. now rewrite app_nil_r, Nat.add_0_r.
  - destruct pf as [|f pf]; [discriminate |]. injection Hl as Hl. rewrite seqZ_cons by lia.
    replace (Z.pred (Z.of_nat (S n))) with (Z.of_nat n) by lia. replace (Z.succ (Z.of_nat k)) with (Z.of_nat (S k)) by lia.
    unfold close_ofile in *. cbn [fold_left].
    assert (En : nthZ 0 (repeat 0 k ++ f :: pf) (Z.of_nat k) = f).
    { unfold nthZ. rewrite Nat2Z.id, app_nth2; rewrite repeat_length; [| lia]. now rewrite Nat.sub_diag. }
    rewrite En. replace (k + S n)%nat with (S k + n)%nat by lia. rewrite <- (IH (S k) pf Hl). f_equal.
    replace (repeat 0 (S k) ++ pf) with (repeat 0 k ++ 0 :: pf) by (clear; induction k; cbn in *; congruence).
    destruct (Z.eqb_spec f 0) as [-> | _]; [reflexivity |].
    unfold updZ. rewrite Nat2Z.id, insert_app_r_alt; rewrite repeat_length; [| lia]. now rewrite Nat.sub_diag.
Qed.

Definition no_files : list Z := repeat 0 (Z.to_nat NOFILE).

Definition closed (me : Z) (s : psys) : psys := upd_proc me (fun x => set_pcwd 0 (set_ofile no_files x)) s.

(** ** The transition system *)

(** Where a process is in the kernel: at the end of a system call or in user
    space, in the [sleep] of [wait] or in another [sleep], or past [exit]. *)
Inductive thread := Runs | InWait (addr : Z) | InSleep (lk : lockname) | Gone.

Record life := Life { tab : psys; thr : Z -> thread }.

Definition set_thr (p : Z) (v : thread) (t : Z -> thread) : Z -> thread := fun q => if q =? p then v else t q.

(** The slot of a process that has been reaped can be used again. *)
Definition reap (s : psys) (t : Z -> thread) : Z -> thread :=
  fun q => if decide (state (procs s q) = UNUSED) then Runs else t q.

Section life.
Context `{LayoutOk} `{!PoolAbove} `{Symbols}.

(** What [wait] runs when its process is switched to. *)
Definition resume_wait (p : Z) (fuel : nat) (addr : Z) : M psys Z :=
  resume_sleep p wait_lock;;
  wait_loop p fuel addr.

(** How a round of [wait] leaves the system. *)
Inductive wait_end (p addr : Z) (t : Z -> thread) : outcome psys Z -> life -> Prop :=
| wait_ret v s' : wait_end p addr t (Ret v [] s') (Life s' (reap s' (set_thr p Runs t)))
| wait_switch s' k : wait_end p addr t (Sleep ch_cpu s' k) (Life s' (set_thr p (InWait addr) t)).

Definition runs_on_cpu (x : life) (p : Z) (v : thread) : Prop :=
  p ∈ all_procs /\ state (procs (tab x) p) = RUNNING /\ thr x p = v.

(** A store of a program: the page has to be a user page that can be written. *)
Definition user_store (root va v : Z) (m : memory) : option memory :=
  match sv39_translate m root va with
  | Some (pa, f) => if flag f PTE_U && flag f PTE_W then Some (upd m pa v) else None
  | None => None
  end.

Inductive life_step (x : life) : life -> Prop :=
| step_fork p r s' : runs_on_cpu x p Runs -> nextpid (tab x) < 2 ^ 31 - 1 ->
    fork p [] (tab x) = Ret r [] s' -> life_step x (Life s' (thr x))
| step_exit p status s' k : runs_on_cpu x p Runs ->
    exit p status [] (tab x) = Sleep ch_cpu s' k -> life_step x (Life s' (set_thr p Gone (thr x)))
| step_wait p addr y : runs_on_cpu x p Runs -> 0 <= addr ->
    wait_end p addr (thr x) (wait p 1 addr [] (tab x)) y -> life_step x y
| step_wait_again p addr y : runs_on_cpu x p (InWait addr) -> 0 <= addr ->
    wait_end p addr (thr x) (resume_wait p 1 addr [proc_lock p] (tab x)) y -> life_step x y
| step_sleep p c lk s' k : runs_on_cpu x p Runs -> (forall q, c <> ch_proc q) -> (forall q, lk <> proc_lock q) ->
    sleep p c lk [lk] (tab x) = Sleep ch_cpu s' k -> life_step x (Life s' (set_thr p (InSleep lk) (thr x)))
| step_awake p lk s' : runs_on_cpu x p (InSleep lk) ->
    resume_sleep p lk [proc_lock p] (tab x) = Ret tt [lk] s' -> life_step x (Life s' (set_thr p Runs (thr x)))
| step_yield p s' k : runs_on_cpu x p Runs ->
    yield p [] (tab x) = Sleep ch_cpu s' k -> life_step x (Life s' (thr x))
| step_wakeup me c s' : wakeup me c [] (tab x) = Ret tt [] s' -> life_step x (Life s' (thr x))
| step_kill n r s' : kill n [] (tab x) = Ret r [] s' -> life_step x (Life s' (thr x))
| step_schedule c p s' k : p ∈ all_procs ->
    scheduler_loop c false [p] [] (tab x) = Sleep ch_cpu s' k -> life_step x (Life s' (thr x))
| step_grow p n r s' : runs_on_cpu x p Runs -> - 2 ^ 31 <= n < 2 ^ 31 ->
    (forall l A a, sys_ok (tab x) l A -> A !! p = Some a -> n < 0 -> 0 <= as_sz a + n -> clean_cut a (as_sz a + n)) ->
    growproc p n [] (tab x) = Ret r [] s' -> life_step x (Life s' (thr x))
| step_store p va v m : runs_on_cpu x p Runs -> 0 <= va < MAXVA -> 0 <= v < 256 ->
    user_store (pagetable (procs (tab x) p)) va v (mem (ph (tab x))) = Some m ->
    life_step x (Life (set_ph (set_mem (fun _ => m) (ph (tab x))) (tab x)) (thr x)).

Inductive life_run (x : life) : life -> Prop :=
| run_refl : life_run x x
| run_step y z : life_run x y -> life_step y z -> life_run x z.

(** A process that can run again by itself. *)
Definition alive (x : proc) : Prop := state x = SLEEPING \/ state x = RUNNABLE \/ state x = RUNNING.

Definition has_child (f : Z -> proc) (p : Z) : Prop := exists q, q ∈ all_procs /\ parent (f q) = p.
Definition no_zombie_child (f : Z -> proc) (p : Z) : Prop :=
  forall q, q ∈ all_procs -> parent (f q) = p -> state (f q) <> ZOMBIE.

(** From a process to its parent. *)
Definition up (f : Z -> proc) (p q : Z) : Prop := p ∈ all_procs /\ parent (f p) = q.

(** The invariant, on the table [f] with [init] and the next pid [n]. *)
Record table_inv (f : Z -> proc) (t : Z -> thread) (init n : Z) : Prop := {
  ti_init : init ∈ all_procs /\ alive (f init);
  ti_unused : forall p, p ∈ all_procs -> state (f p) = UNUSED ->
    pid (f p) = 0 /\ parent (f p) = 0 /\ ofile (f p) = no_files /\ t p = Runs;
  ti_states : forall p, p ∈ all_procs -> state (f p) <> USED;
  ti_zombie : forall p, p ∈ all_procs -> state (f p) = ZOMBIE <-> t p = Gone;
  ti_files : forall p, p ∈ all_procs -> length (ofile (f p)) = Z.to_nat NOFILE /\ (state (f p) = ZOMBIE -> ofile (f p) = no_files);
  ti_parent : forall p, p ∈ all_procs -> state (f p) <> UNUSED -> p <> init ->
    parent (f p) ∈ all_procs /\ alive (f (parent (f p)));
  ti_tree : forall p, p ∈ all_procs -> state (f p) <> UNUSED -> rtc (up f) p init;
  ti_chan : forall p q, p ∈ all_procs -> sleeps_on (ch_proc q) (f p) -> q = p /\ exists addr, t p = InWait addr;
  ti_wait : forall p, p ∈ all_procs -> sleeps_on (ch_proc p) (f p) -> no_zombie_child f p /\ has_child f p;
  ti_pid : forall p, p ∈ all_procs -> state (f p) <> UNUSED -> 0 < pid (f p) < n;
  ti_pids : forall p q, p ∈ all_procs -> q ∈ all_procs -> state (f p) <> UNUSED -> state (f q) <> UNUSED ->
    pid (f p) = pid (f q) -> p = q;
  ti_next : 0 < n < 2 ^ 31
}.

Definition life_inv (x : life) : Prop :=
  (exists l A, sys_ok (tab x) l A) /\ table_inv (procs (tab x)) (thr x) (initproc (tab x)) (nextpid (tab x)).

Lemma close_files_run me h L : forall s,
  close_files me L h s = Ret tt h (upd_proc me (fun x => set_ofile (close_ofile L (ofile x)) x) s).
Proof.
  induction L as [|fd L IH]; intros s; cbn [close_files].
  - unfold ret. f_equal. destruct s as [m f n i c]. unfold upd_proc, set_procs. cbn. f_equal. extensionality q.
    destruct (Z.eqb_spec q me) as [-> |]; [| reflexivity]. now destruct (f me).
  - rewrite bind_pr_get. cbn [ps table_files]. set (o := ofile (procs s me)).
    destruct (Z.eqb_spec (nthZ 0 o fd) 0) as [E | E]; cbn [negb].
    + rewrite bind_ret, IH. unfold upd_proc, set_procs. do 2 f_equal. extensionality q. destruct (q =? me); [| reflexivity].
      cbn [close_ofile fold_left]. fold o. now rewrite (proj2 (Z.eqb_eq _ _) E).
    + rewrite bind_bind. cbn [op_fileclose table_files]. rewrite bind_ret, bind_pr_mod. cbn [ps set_ps table_files].
      rewrite IH, upd_proc_upd. unfold upd_proc, set_procs. do 2 f_equal. extensionality q. destruct (q =? me); [| reflexivity].
      cbn [close_ofile fold_left ofile set_ofile]. fold o. now rewrite (proj2 (Z.eqb_neq _ _) E).
Qed.

Lemma exit_run me status s : me <> initproc s -> length (ofile (procs s me)) = Z.to_nat NOFILE ->
  exists k, exit me status [] s = Sleep ch_cpu (exited me status (closed me s)) k.
Proof.
  intros Hi Hl. unfold exit. erewrite bind_pr by reflexivity. cbn [set_ps ps table_files].
  rewrite (proj2 (Z.eqb_neq _ _)) by auto. rewrite (bind_Ret _ _ _ _ _ _ _ (close_files_run me [] _ s)).
  cbn [op_begin_op op_end_op op_iput table_files]. rewrite bind_ret, bind_pr_get, !bind_ret, bind_pr_mod.
  cbn [set_ps ps table_files]. rewrite upd_proc_upd.
  assert (Ec : upd_proc me (fun x => set_pcwd 0 (set_ofile (close_ofile (seqZ 0 NOFILE) (ofile x)) x)) s = closed me s).
  { unfold closed, upd_proc, set_procs. do 2 f_equal. extensionality q. destruct (q =? me); [| reflexivity].
    change (seqZ 0 NOFILE) with (seqZ (Z.of_nat 0) (Z.of_nat 16)). change (ofile (procs s me)) with (repeat 0 0 ++ ofile (procs s me)).
    now rewrite close_ofile_from. }
  rewrite Ec. destruct (exit_tail_run me status (closed me s) Hi) as [k E].
  unfold pr, zoom. cbn [ps set_ps table_files]. rewrite E. eexists. reflexivity.
Qed.

(** ** The tree of processes *)

Lemma up_same f f' p q : (forall x, x ∈ all_procs -> parent (f' x) = parent (f x)) -> rtc (up f) p q -> rtc (up f') p q.
Proof. intros Hp. apply rtc_subrel. intros x y [Hx <-]. split; [exact Hx | now apply Hp]. Qed.

(** Ways to [init] do not lead through a slot that is not alive. *)
Lemma up_avoids f t init n f' z p : table_inv f t init n -> ~ alive (f z) -> (forall q, q <> z -> f' q = f q) ->
  rtc (up f) p init -> p ∈ all_procs -> state (f p) <> UNUSED -> p <> z -> rtc (up f') p init.
Proof.
  intros Hi Hz Hf Hr. induction Hr as [| x y w [_ <-] _ IH]; [intros; apply rtc_refl |]. intros Hx Hu Hne.
  destruct (decide (x = w)) as [-> | Hw]; [apply rtc_refl |]. destruct (ti_parent _ _ _ _ Hi x Hx Hu Hw) as [Hpa Hal].
  eapply rtc_l; [split; [exact Hx | now rewrite Hf] |]. apply IH; auto; [| intros E; now rewrite E in Hal]. unfold alive in Hal. intuition congruence.
Qed.

(** The children of [p] go to [init]. *)
Lemma up_adopted f f' p init : (forall q, q ∈ all_procs -> parent (f' q) = if decide (parent (f q) = p) then init else parent (f q)) ->
  forall x, rtc (up f) x init -> rtc (up f') x init.
Proof.
  intros Hp x Hr. induction Hr as [| x y w [Hx <-] _ IH]; [apply rtc_refl |]. pose proof (Hp x Hx) as Ep.
  destruct (decide (parent (f x) = p)); [apply rtc_once; now split | eapply rtc_l; [split; [exact Hx | exact Ep] | exact (IH Hp)]].
Qed.

(** ** Steps that only move processes between the states of the living *)

Record stir (x : proc) (v : thread) (x' : proc) (v' : thread) : Prop := {
  sr_pid : pid x' = pid x;
  sr_parent : parent x' = parent x;
  sr_ofile : ofile x' = ofile x;
  sr_alive : alive x -> alive x';
  sr_dead : ~ alive x -> state x' = state x /\ v' = v;
  sr_gone : v' = v \/ v' <> Gone;
  sr_sleep : forall q, sleeps_on (ch_proc q) x' -> sleeps_on (ch_proc q) x /\ v' = v
}.

Lemma alive_dec x : alive x \/ ~ alive x.
Proof. unfold alive. destruct (state x); intuition discriminate. Qed.

Lemma stir_state x v x' v' w : stir x v x' v' -> w = UNUSED \/ w = USED \/ w = ZOMBIE -> state x' = w <-> state x = w.
Proof.
  intros Hst Hw. destruct (alive_dec x) as [Ha | Ha].
  - pose proof (sr_alive _ _ _ _ Hst Ha) as Ha'. unfold alive in *. destruct Hw as [-> | [-> | ->]]; intuition congruence.
  - destruct (sr_dead _ _ _ _ Hst Ha) as [-> _]. tauto.
Qed.

Lemma stir_refl x v : stir x v x v.
Proof. split; auto. Qed.

(** Between living states, without going to sleep in [wait]. *)
Lemma stir_alive x v x' v' : alive x -> alive x' -> pid x' = pid x -> parent x' = parent x -> ofile x' = ofile x ->
  v' = v \/ v' <> Gone -> (forall q, ~ sleeps_on (ch_proc q) x') -> stir x v x' v'.
Proof. intros Ha Ha' Hp Hpp Ho Hg Hs. split; auto; [tauto |]. intros q Hq. exfalso. now apply (Hs q). Qed.

Lemma table_inv_stir f t f' t' init n : table_inv f t init n ->
  (forall p, p ∈ all_procs -> stir (f p) (t p) (f' p) (t' p)) -> table_inv f' t' init n.
Proof.
  intros Hi Hst.
  assert (Hs : forall p v, p ∈ all_procs -> v = UNUSED \/ v = USED \/ v = ZOMBIE -> state (f' p) = v <-> state (f p) = v)
    by (intros p v Hp Hv; now apply (stir_state _ _ _ _ _ (Hst p Hp))).
  split.
  - destruct (ti_init _ _ _ _ Hi) as [Hp Ha]. split; [auto | now apply (sr_alive _ _ _ _ (Hst init Hp))].
  - intros p Hp Hu. apply Hs in Hu; auto. destruct (ti_unused _ _ _ _ Hi p Hp Hu) as (H1' & H2' & H3' & H4').
    rewrite (sr_pid _ _ _ _ (Hst p Hp)), (sr_parent _ _ _ _ (Hst p Hp)), (sr_ofile _ _ _ _ (Hst p Hp)). split_and!; auto.
    destruct (sr_dead _ _ _ _ (Hst p Hp)) as [_ ->]; auto. unfold alive. intuition congruence.
  - intros p Hp. rewrite Hs by auto. now apply (ti_states _ _ _ _ Hi).
  - intros p Hp. rewrite Hs by auto. rewrite (ti_zombie _ _ _ _ Hi p Hp). split.
    + intros Hg. destruct (alive_dec (f p)) as [Ha | Ha]; [| now destruct (sr_dead _ _ _ _ (Hst p Hp) Ha) as [_ ->]].
      apply (ti_zombie _ _ _ _ Hi p Hp) in Hg. unfold alive in Ha. intuition congruence.
    + intros Hg. destruct (sr_gone _ _ _ _ (Hst p Hp)); congruence.
  - intros p Hp. rewrite (sr_ofile _ _ _ _ (Hst p Hp)). rewrite Hs by auto. now apply (ti_files _ _ _ _ Hi).
  - intros p Hp Hu Hne. rewrite (sr_parent _ _ _ _ (Hst p Hp)).
    destruct (ti_parent _ _ _ _ Hi p Hp) as [Hq Ha]; auto; [now rewrite <- Hs by auto |].
    split; [auto | now apply (sr_alive _ _ _ _ (Hst _ Hq))].
  - intros p Hp Hu. apply (up_same f); [intros x Hx; exact (sr_parent _ _ _ _ (Hst x Hx)) |]. apply (ti_tree _ _ _ _ Hi); auto. now rewrite <- Hs by auto.
  - intros p q Hp Hsl. destruct (sr_sleep _ _ _ _ (Hst p Hp) q Hsl) as [Hsl' ->]. now apply (ti_chan _ _ _ _ Hi).
  - intros p Hp Hsl. destruct (sr_sleep _ _ _ _ (Hst p Hp) p Hsl) as [Hsl' _].
    destruct (ti_wait _ _ _ _ Hi p Hp Hsl') as [Hz (q & Hq & Hc)]. split.
    + intros r Hr Hpr. rewrite Hs by auto. apply Hz; auto. now rewrite <- (sr_parent _ _ _ _ (Hst r Hr)).
    + exists q. split; [auto |]. now rewrite (sr_parent _ _ _ _ (Hst q Hq)).
  - intros p Hp Hu. rewrite (sr_pid _ _ _ _ (Hst p Hp)). apply (ti_pid _ _ _ _ Hi); auto. now rewrite <- Hs by auto.
  - intros p q Hp Hq Hu Hu'. rewrite (sr_pid _ _ _ _ (Hst p Hp)), (sr_pid _ _ _ _ (Hst q Hq)).
    apply (ti_pids _ _ _ _ Hi); auto; now rewrite <- Hs by auto.
  - apply (ti_next _ _ _ _ Hi).
Qed.

(** The memory side of such a step. *)
Lemma sys_ok_procs s s' l A : sys_ok s l A -> ph s' = ph s ->
  (forall p, trapframe (procs s' p) = trapframe (procs s p) /\ pagetable (procs s' p) = pagetable (procs s p) /\
     sz (procs s' p) = sz (procs s p)) ->
  (forall p, p ∈ all_procs -> state (procs s' p) = UNUSED <-> state (procs s p) = UNUSED) -> sys_ok s' l A.
Proof.
  intros [Hm Hsp Hno Hu] Hph Hf Hs. split.
  - now rewrite Hph.
  - intros p a Ha. destruct (Hf p) as (-> & -> & ->). auto.
  - intros p Hp. destruct (Hf p) as (-> & -> & ->). auto.
  - intros p Hp. rewrite <- (Hu p Hp). rewrite Hs by auto. reflexivity.
Qed.

Definition same_space (x y : proc) : Prop := trapframe x = trapframe y /\ pagetable x = pagetable y /\ sz x = sz y.

Lemma life_stir s t s' t' : life_inv (Life s t) -> ph s' = ph s -> initproc s' = initproc s -> nextpid s' = nextpid s ->
  (forall p, same_space (procs s' p) (procs s p)) ->
  (forall p, p ∈ all_procs -> stir (procs s p) (t p) (procs s' p) (t' p)) -> life_inv (Life s' t').
Proof.
  intros [(l & A & Hs) Hi] Hph Hin Hnp Hsp Hst. split; cbn [tab thr] in *.
  - exists l, A. apply (sys_ok_procs s); auto. intros p Hp. apply (stir_state _ _ _ _ _ (Hst p Hp)). auto.
  - rewrite Hin, Hnp. eapply table_inv_stir; eauto.
Qed.

(** ... for a change to one process. *)
Lemma life_stir_one s t p g v : life_inv (Life s t) -> same_space (g (procs s p)) (procs s p) ->
  (p ∈ all_procs -> stir (procs s p) (t p) (g (procs s p)) v) -> life_inv (Life (upd_proc p g s) (set_thr p v t)).
Proof.
  intros Hi Hsp Hst. apply (life_stir s t); auto; intros q; cbn; unfold set_thr; destruct (Z.eqb_spec q p) as [-> |]; auto.
  - now split.
  - intros _. apply stir_refl.
Qed.

Lemma set_thr_same p t : set_thr p (t p) t = t.
Proof. extensionality q. unfold set_thr. now destruct (Z.eqb_spec q p) as [-> |]. Qed.

Lemma inv_wake s t me c : life_inv (Life s t) -> life_inv (Life (set_procs (wake me c all_procs (procs s)) s) t).
Proof.
  intros Hi. apply (life_stir s t); auto; cbn [procs set_procs]; intros p; unfold wake, same_space.
  - now destruct (decide _).
  - intros _. destruct (decide _) as [(_ & _ & [Hs _]) | Hn]; [| apply stir_refl].
    apply stir_alive; auto; unfold alive, sleeps_on; cbn; [auto .. |]. intuition discriminate.
Qed.

Lemma inv_wakeup s t me c s' : life_inv (Life s t) -> wakeup me c [] s = Ret tt [] s' -> life_inv (Life s' t).
Proof. intros Hi E. rewrite wakeup_run in E by (intros q; apply not_elem_of_nil). injection E as <-. now apply inv_wake. Qed.

Lemma inv_kill s t n r s' : life_inv (Life s t) -> kill n [] s = Ret r [] s' -> life_inv (Life s' t).
Proof.
  intros Hi E. unfold kill in E.
  destruct (kill_loop_run n [] s ltac:(intros q; apply not_elem_of_nil) all_procs) as [(p & _ & E') | [_ E']];
    rewrite E' in E; injection E as _ <-; [| auto].
  rewrite <- (set_thr_same p t). apply life_stir_one; auto; unfold kill_proc, same_space.
  - now destruct (decide _).
  - intros _. destruct (decide _) as [Hs | Hs].
    + apply stir_alive; auto; unfold alive, sleeps_on; cbn; [auto .. |]. intuition discriminate.
    + split; auto.
Qed.

Lemma inv_yield s t p s' k : life_inv (Life s t) -> state (procs s p) = RUNNING ->
  yield p [] s = Sleep ch_cpu s' k -> life_inv (Life s' t).
Proof.
  intros Hi Hr E. unfold yield in E.
  rewrite (bind_Ret _ _ _ _ _ _ _ (acquire_free (proc_lock p) [] s ltac:(apply not_elem_of_nil))), bind_modproc in E.
  erewrite obind_Sleep in E by (apply sched_run; rewrite procs_upd_eq; discriminate). injection E as <- _.
  rewrite <- (set_thr_same p t). apply life_stir_one; auto; [now split |]. intros _.
  apply stir_alive; auto; unfold alive, sleeps_on; cbn; auto. intuition discriminate.
Qed.

Lemma inv_schedule s t c p s' k : life_inv (Life s t) ->
  scheduler_loop c false [p] [] s = Sleep ch_cpu s' k -> life_inv (Life s' t).
Proof.
  intros Hi E. cbn [scheduler_loop] in E.
  rewrite (bind_Ret _ _ _ _ _ _ _ (acquire_free (proc_lock p) [] s ltac:(apply not_elem_of_nil))), bind_getproc in E.
  destruct (decide (state (procs s p) = RUNNABLE)) as [Hr | Hr].
  2: { rewrite (bind_Ret _ _ _ _ _ _ _ (release_top _ _ _)) in E. discriminate. }
  rewrite bind_modproc, bind_modify in E. unfold bind, swtch in E. cbn [obind] in E. injection E as <- _.
  assert (Hi' : life_inv (Life (upd_proc p (set_state RUNNING) s) (set_thr p (t p) t))).
  { apply life_stir_one; auto; [now split |]. intros _.
    apply stir_alive; auto; unfold alive, sleeps_on; cbn; auto. intuition discriminate. }
  rewrite set_thr_same in Hi'. apply (life_stir _ _ _ _ Hi'); auto; intros q; [now split |]. intros _. apply stir_refl.
Qed.

Lemma inv_sleep s t p c lk s' k : life_inv (Life s t) -> state (procs s p) = RUNNING -> (forall q, c <> ch_proc q) ->
  (forall q, lk <> proc_lock q) -> sleep p c lk [lk] s = Sleep ch_cpu s' k -> life_inv (Life s' (set_thr p (InSleep lk) t)).
Proof.
  intros Hi Hr Hc Hlk E. rewrite sleep_run in E by auto. injection E as <- _.
  apply life_stir_one; auto; [now split |]. intros _.
  apply stir_alive; auto; unfold alive, sleeps_on; cbn; auto. intros q [_ Hq]. injection Hq as Hq. now apply (Hc q).
Qed.

Lemma resume_sleep_run p lk s :
  resume_sleep p lk [proc_lock p] s = Ret tt [lk] (upd_proc p (set_chan None) s).
Proof.
  unfold resume_sleep. rewrite bind_modproc, (bind_Ret _ _ _ _ _ _ _ (release_top _ _ _)).
  apply acquire_free, not_elem_of_nil.
Qed.

(** Coming back from [sched]. *)
Lemma inv_resume s t p v : life_inv (Life s t) -> state (procs s p) = RUNNING -> v <> Gone ->
  life_inv (Life (upd_proc p (set_chan None) s) (set_thr p v t)).
Proof.
  intros Hi Hr Hv. apply life_stir_one; auto; [now split |]. intros _.
  apply stir_alive; auto; unfold alive, sleeps_on; cbn; auto. intuition discriminate.
Qed.

(** ** [wait] *)

Lemma thr_runs_stir f t init n p : table_inv f t init n -> p ∈ all_procs -> state (f p) = RUNNING ->
  table_inv f (fun q => if decide (state (f q) = UNUSED) then Runs else set_thr p Runs t q) init n.
Proof.
  intros Hi Hp Hr. apply (table_inv_stir f t); auto. intros q Hq. destruct (decide (state (f q) = UNUSED)) as [Hu | Hu].
  - destruct (ti_unused _ _ _ _ Hi q Hq Hu) as (_ & _ & _ & ->). apply stir_refl.
  - unfold set_thr. destruct (Z.eqb_spec q p) as [-> |]; [| apply stir_refl].
    apply stir_alive; unfold alive, sleeps_on; auto. intuition congruence.
Qed.

Lemma table_inv_reap f t init n pp : table_inv f t init n -> pp ∈ all_procs -> state (f pp) = ZOMBIE ->
  table_inv (fun q => if q =? pp then cleared (f pp) else f q) (fun q => if q =? pp then Runs else t q) init n.
Proof.
  intros Hi Hpp Hz.
  assert (Hal : forall q, alive (f q) -> alive (if q =? pp then cleared (f pp) else f q)).
  { intros q Ha. destruct (Z.eqb_spec q pp) as [-> |]; [| auto]. unfold alive in Ha. intuition congruence. }
  assert (Hno : forall q, q ∈ all_procs -> q <> init -> state (f q) <> UNUSED -> parent (f q) <> pp).
  { intros q Hq Hne Hu E. destruct (ti_parent _ _ _ _ Hi q Hq Hu Hne) as [_ Ha]. rewrite E in Ha. unfold alive in Ha. intuition congruence. }
  split.
  - destruct (ti_init _ _ _ _ Hi). auto.
  - intros p Hp. destruct (Z.eqb_spec p pp) as [-> | Hne]; [| now apply (ti_unused _ _ _ _ Hi)].
    intros _. cbn. split_and!; auto. now apply (ti_files _ _ _ _ Hi).
  - intros p Hp. destruct (Z.eqb_spec p pp) as [-> | Hne]; [discriminate | now apply (ti_states _ _ _ _ Hi)].
  - intros p Hp. destruct (Z.eqb_spec p pp) as [-> | Hne]; [split; discriminate | now apply (ti_zombie _ _ _ _ Hi)].
  - intros p Hp. destruct (Z.eqb_spec p pp) as [-> | Hne]; [| now apply (ti_files _ _ _ _ Hi)].
    cbn. split; [now apply (ti_files _ _ _ _ Hi) | discriminate].
  - intros p Hp. destruct (Z.eqb_spec p pp) as [-> | Hne]; [cbn; tauto |].
    intros Hu Hni. destruct (ti_parent _ _ _ _ Hi p Hp Hu Hni). auto.
  - intros p Hp. destruct (Z.eqb_spec p pp) as [-> | Hne]; [cbn; tauto |]. intros Hu. eapply (up_avoids f t init n _ pp p Hi); auto; [| | now apply (ti_tree _ _ _ _ Hi)].
    + unfold alive. intuition congruence.
    + intros q Hq. now rewrite (proj2 (Z.eqb_neq q pp)).
  - intros p q Hp. destruct (Z.eqb_spec p pp) as [-> | Hne]; [intros [Hs _]; discriminate |]. now apply (ti_chan _ _ _ _ Hi).
  - intros p Hp. destruct (Z.eqb_spec p pp) as [-> | Hne]; [intros [Hs _]; discriminate |]. intros Hs.
    destruct (ti_wait _ _ _ _ Hi p Hp Hs) as [Hzc (r & Hr & Hc)].
    assert (Hrp : r <> pp) by (intros ->; now apply (Hzc pp Hpp Hc)). split.
    + intros q Hq. destruct (Z.eqb_spec q pp) as [-> |]; [discriminate | now apply Hzc].
    + exists r. split; [auto |]. now rewrite (proj2 (Z.eqb_neq r pp)).
  - intros p Hp. destruct (Z.eqb_spec p pp) as [-> | Hne]; [cbn; tauto | now apply (ti_pid _ _ _ _ Hi)].
  - intros p q Hp Hq. destruct (Z.eqb_spec p pp) as [-> | Hne]; [cbn; tauto |].
    destruct (Z.eqb_spec q pp) as [-> | Hne']; [cbn; tauto | now apply (ti_pids _ _ _ _ Hi)].
  - apply (ti_next _ _ _ _ Hi).
Qed.

(** Falling asleep in [wait]. *)
Lemma table_inv_asleep f t init n p addr : table_inv f t init n -> p ∈ all_procs -> state (f p) = RUNNING ->
  no_zombie_child f p -> has_child f p ->
  table_inv (fun q => if q =? p then set_state SLEEPING (set_chan (Some (ch_proc p)) (f p)) else f q) (set_thr p (InWait addr) t) init n.
Proof.
  intros Hi Hp Hr Hz Hc. set (g := fun q => if q =? p then _ else f q).
  assert (Hal : forall q, alive (f q) -> alive (g q)).
  { intros q Ha. unfold g. destruct (Z.eqb_spec q p); [now left | auto]. }
  assert (Hpar : forall q, parent (g q) = parent (f q)) by (intros q; unfold g; now destruct (Z.eqb_spec q p) as [-> |]).
  assert (Hzo : forall q w, w = UNUSED \/ w = USED \/ w = ZOMBIE -> state (g q) = w <-> state (f q) = w).
  { intros q w Hw. unfold g. destruct (Z.eqb_spec q p) as [-> |]; [| tauto]. cbn. destruct Hw as [-> | [-> | ->]]; split; congruence. }
  assert (Hpf : forall q, pid (g q) = pid (f q) /\ ofile (g q) = ofile (f q)) by (intros q; unfold g; now destruct (Z.eqb_spec q p) as [-> |]).
  assert (Hpair : forall q, no_zombie_child f q /\ has_child f q -> no_zombie_child g q /\ has_child g q).
  { intros q [Hzq (r & Hr' & Hcr)]. split; [intros r' Hr'' E; rewrite Hzo by auto; apply Hzq; auto; now rewrite <- Hpar |].
    exists r. now rewrite Hpar. }
  split.
  - destruct (ti_init _ _ _ _ Hi). auto.
  - intros q Hq. rewrite Hzo by auto. intros Hu. rewrite Hpar. destruct (Hpf q) as [-> ->].
    destruct (ti_unused _ _ _ _ Hi q Hq Hu) as (? & ? & ? & ?). split_and!; auto. unfold set_thr. destruct (Z.eqb_spec q p) as [-> |]; [congruence | auto].
  - intros q Hq. rewrite Hzo by auto. now apply (ti_states _ _ _ _ Hi).
  - intros q Hq. rewrite Hzo by auto. unfold set_thr. destruct (Z.eqb_spec q p) as [-> |]; [split; congruence | now apply (ti_zombie _ _ _ _ Hi)].
  - intros q Hq. rewrite Hzo by auto. destruct (Hpf q) as [_ ->]. now apply (ti_files _ _ _ _ Hi).
  - intros q Hq. rewrite Hzo, Hpar by auto. intros Hu Hne. destruct (ti_parent _ _ _ _ Hi q Hq Hu Hne). auto.
  - intros q Hq. rewrite Hzo by auto. intros Hu. apply (up_same f); [intros x _; apply Hpar |]. now apply (ti_tree _ _ _ _ Hi).
  - intros q r Hq. unfold g, set_thr. destruct (Z.eqb_spec q p) as [-> |]; [| now apply (ti_chan _ _ _ _ Hi)].
    intros [_ E]. injection E as <-. eauto.
  - intros q Hq Hs. apply Hpair. destruct (Z.eqb_spec q p) as [-> | Hne]; [auto |]. apply (ti_wait _ _ _ _ Hi); auto.
    unfold g in Hs. now rewrite (proj2 (Z.eqb_neq q p)) in Hs.
  - intros q Hq. rewrite Hzo by auto. destruct (Hpf q) as [-> _]. now apply (ti_pid _ _ _ _ Hi).
  - intros q r Hq Hr'. rewrite !Hzo by auto. destruct (Hpf q) as [-> _], (Hpf r) as [-> _]. now apply (ti_pids _ _ _ _ Hi).
  - apply (ti_next _ _ _ _ Hi).
Qed.

Lemma inv_space s t p : life_inv (Life s t) -> p ∈ all_procs -> state (procs s p) = RUNNING ->
  exists l A a, sys_ok s l A /\ A !! p = Some a.
Proof.
  intros [(l & A & Hs) _] Hp Hr. cbn in Hs. assert (Ha : is_Some (A !! p)) by (apply (so_used _ _ _ Hs p Hp); congruence).
  destruct Ha as [a Ha]. eauto.
Qed.

Lemma wait_end_ret p addr t v s y : wait_end p addr t (Ret v [] s) y -> y = Life s (reap s (set_thr p Runs t)).
Proof. intros He. now inversion He. Qed.

Lemma wait_end_sleep p addr t s k y : wait_end p addr t (Sleep ch_cpu s k) y -> y = Life s (set_thr p (InWait addr) t).
Proof. intros He. now inversion He. Qed.

Lemma inv_wait_loop s t p addr y : life_inv (Life s t) -> p ∈ all_procs -> state (procs s p) = RUNNING -> 0 <= addr ->
  wait_end p addr t (wait_loop p 1 addr [wait_lock] s) y -> life_inv y.
Proof.
  intros Hi Hp Hr Ha Hend. destruct (inv_space s t p Hi Hp Hr) as (l & A & a & Hs & HA). destruct Hi as [_ Ht]. cbn in Ht.
  assert (Hnz : state (procs s p) <> ZOMBIE) by congruence.
  pose proof (wait_loop_run p addr s l A a 1 Hs HA Ha Hnz) as Htn. remember (wait_loop p 1 addr [wait_lock] s) as o eqn:Eo. clear Eo.
  destruct Htn as [pp x l' Hpp Hpar Hz Hs' | pp x l' Hpp Hpar Hz Had Hs' | Hnz' Hk | Hnz' Hk Hc];
    [apply wait_end_ret in Hend as -> .. | apply wait_end_sleep in Hend as ->].
  - split; [exists l', (delete pp A); exact Hs' |]. cbn [tab thr].
    pose proof (table_inv_reap _ _ _ _ pp (thr_runs_stir _ _ _ _ p Ht Hp Hr) Hpp Hz) as Hti.
    eapply table_inv_stir; [exact Hti |]. intros q Hq. cbn. unfold reap. cbn. destruct (Z.eqb_spec q pp) as [-> | Hne].
    + cbn. rewrite decide_True by auto. apply stir_refl.
    + apply stir_refl.
  - split; [exists l', A; exact Hs' |]. exact (thr_runs_stir _ _ _ _ p Ht Hp Hr).
  - split; [exists l, A; exact Hs |]. exact (thr_runs_stir _ _ _ _ p Ht Hp Hr).
  - split; cbn [tab thr].
    + exists l, A. apply (sys_ok_procs s); auto; intros q; cbn; destruct (Z.eqb_spec q p) as [-> |]; auto. cbn. intros _. split; congruence.
    + exact (table_inv_asleep (procs s) t (initproc s) (nextpid s) p addr Ht Hp Hr Hnz' Hc).
Qed.

Lemma wait_start p fuel addr s : wait p fuel addr [] s = wait_loop p fuel addr [wait_lock] s.
Proof. unfold wait. exact (bind_Ret _ (fun _ => wait_loop p fuel addr) _ _ _ _ _ (acquire_free wait_lock [] s (not_elem_of_nil _))). Qed.

Lemma resume_wait_run p fuel addr s :
  resume_wait p fuel addr [proc_lock p] s = wait_loop p fuel addr [wait_lock] (upd_proc p (set_chan None) s).
Proof.
  unfold resume_wait. refine (bind_Ret _ (fun _ => wait_loop p fuel addr) _ _ _ _ _ (resume_sleep_run p wait_lock s)).
Qed.

Lemma inv_wait s t p addr y : life_inv (Life s t) -> p ∈ all_procs -> state (procs s p) = RUNNING -> 0 <= addr ->
  wait_end p addr t (wait p 1 addr [] s) y -> life_inv y.
Proof. rewrite wait_start. apply inv_wait_loop. Qed.

Lemma set_thr_set p v w t : set_thr p v (set_thr p w t) = set_thr p v t.
Proof. extensionality q. unfold set_thr. now destruct (q =? p). Qed.

Lemma inv_wait_again s t p addr y : life_inv (Life s t) -> p ∈ all_procs -> state (procs s p) = RUNNING -> 0 <= addr ->
  wait_end p addr t (resume_wait p 1 addr [proc_lock p] s) y -> life_inv y.
Proof.
  rewrite resume_wait_run. intros Hi Hp Hr Ha Hend.
  apply (inv_wait_loop (upd_proc p (set_chan None) s) (set_thr p Runs t) p addr y); [| exact Hp | | exact Ha |].
  - apply inv_resume; [exact Hi | exact Hr | intros Hg; discriminate Hg].
  - rewrite procs_upd_eq. exact Hr.
  - revert Hend. generalize (wait_loop p 1 addr [wait_lock] (upd_proc p (set_chan None) s)). intros o Hend.
    destruct Hend as [v s' | s' k].
    + replace (reap s' (set_thr p Runs t)) with (reap s' (set_thr p Runs (set_thr p Runs t))) by (now rewrite set_thr_set). constructor.
    + replace (set_thr p (InWait addr) t) with (set_thr p (InWait addr) (set_thr p Runs t)) by apply set_thr_set. constructor.
Qed.

(** ** [exit] *)

(** Waking changes the state of sleepers only. *)
Definition woken (x y : proc) : Prop := y = x \/ (state x = SLEEPING /\ y = set_state RUNNABLE x).

Lemma wake_woken me c L f q : woken (f q) (wake me c L f q).
Proof. unfold wake, woken. destruct (decide _) as [(_ & _ & [Hs _]) |]; auto. Qed.

Lemma wake_sleeper me c L f q : q ∈ L -> q <> me -> ~ sleeps_on c (wake me c L f q).
Proof.
  intros Hq Hne. unfold wake. destruct (decide _) as [(_ & _ & Hs) | Hn]; [intros [Hr _]; discriminate |]. tauto.
Qed.

Lemma woken_sleeps c x y : woken x y -> sleeps_on c y -> sleeps_on c x.
Proof. intros [-> | [Hs ->]] [Hs' Hc]; [now split | discriminate]. Qed.

(** The table after [exit] of [p]. *)
Record exit_view (f f' : Z -> proc) (p init : Z) : Prop := {
  ev_me : state (f' p) = ZOMBIE /\ pid (f' p) = pid (f p) /\ ofile (f' p) = no_files;
  ev_other : forall q, q <> p -> exists x, f' q = set_parent x (f q) \/
    (state (f q) = SLEEPING /\ f' q = set_state RUNNABLE (set_parent x (f q)));
  ev_parent : forall q, q ∈ all_procs -> parent (f' q) = if decide (parent (f q) = p) then init else parent (f q);
  ev_woken : forall q, q ∈ all_procs -> q <> p -> sleeps_on (ch_proc q) (f' q) ->
    parent (f' p) <> q /\ (q = init -> forall r, r ∈ all_procs -> parent (f r) <> p)
}.

Lemma set_parent_same x : set_parent (parent x) x = x.
Proof. now destruct x. Qed.

Lemma exit_table p status s : p ∈ all_procs -> p <> initproc s ->
  exit_view (procs s) (procs (exited p status (closed p s))) p (initproc s).
Proof.
  intros Hp Hi. set (f := procs s). set (f0 := procs (closed p s)). set (init := initproc s) in *.
  assert (Hf0 : forall q, q <> p -> f0 q = f q) by (intros q Hq; now apply procs_upd_ne).
  assert (Hf0p : f0 p = set_pcwd 0 (set_ofile no_files (f p))) by apply procs_upd_eq.
  assert (Hpar0 : forall q, parent (f0 q) = parent (f q)).
  { intros q. destruct (decide (q = p)) as [-> | Hq]; [now rewrite Hf0p | now rewrite Hf0]. }
  set (f1 := adopt p p init all_procs f0). set (c := ch_proc (parent (f1 p))). set (f2 := wake p c all_procs f1).
  assert (Hf' : forall q, q <> p -> procs (exited p status (closed p s)) q = f2 q) by (intros q Hq; now apply procs_upd_ne).
  assert (Hf'p : procs (exited p status (closed p s)) p = set_state ZOMBIE (set_xstate status (f2 p))) by apply procs_upd_eq.
  assert (Hw1 : forall q, woken (orphan p init all_procs f0 q) (f1 q)).
  { intros q. unfold f1, adopt. destruct (decide _); [apply wake_woken | now left]. }
  assert (Hw2 : forall q, woken (f1 q) (f2 q)) by (intros q; apply wake_woken).
  assert (Hpar : forall q, parent (f2 q) = parent (orphan p init all_procs f0 q)).
  { intros q. unfold f2. rewrite wake_parent. unfold f1, adopt. destruct (decide _); [apply wake_parent | reflexivity]. }
  split.
  - rewrite Hf'p. cbn. destruct (Hw1 p) as [E1 | [_ E1]], (Hw2 p) as [E2 | [_ E2]]; rewrite E2, E1; unfold orphan;
      destruct (decide _); rewrite ?Hf0p; cbn; auto.
  - intros q Hq. rewrite Hf' by auto. rewrite <- (Hf0 q Hq).
    assert (Ho : exists x, orphan p init all_procs f0 q = set_parent x (f0 q)).
    { unfold orphan. destruct (decide _); [eauto | exists (parent (f0 q)); now rewrite set_parent_same]. }
    destruct Ho as [x Ho]. exists x. rewrite <- Ho.
    destruct (Hw1 q) as [E1 | [Hs1 E1]], (Hw2 q) as [E2 | [Hs2 E2]]; rewrite E2, ?E1; auto; right; rewrite ?Ho in *.
    + rewrite E1 in Hs2. now split.
    + now split.
    + now split.
  - intros q Hq. assert (E : parent (procs (exited p status (closed p s)) q) = parent (f2 q)).
    { destruct (decide (q = p)) as [-> | Hne]; [now rewrite Hf'p | now rewrite Hf']. }
    rewrite E, Hpar, orphan_parent, Hpar0. destruct (decide (parent (f q) = p)) as [Ep | Ep]; [now rewrite decide_True | rewrite decide_False; tauto].
  - intros q Hq Hne. rewrite Hf' by auto. intros Hsl. split.
    + intros E. assert (Ec : c = ch_proc q).
      { unfold c. f_equal. rewrite Hf'p in E. cbn in E. unfold f2 in E. now rewrite wake_parent in E. }
      unfold f2 in Hsl. rewrite Ec in Hsl. now apply wake_sleeper in Hsl.
    + intros -> r Hr Er. assert (Hs1 : sleeps_on (ch_proc init) (f1 init)) by (eapply woken_sleeps; [apply Hw2 | exact Hsl]).
      unfold f1, adopt in Hs1. rewrite decide_True in Hs1 by (apply Exists_exists; exists r; rewrite Hpar0; auto).
      now apply wake_sleeper in Hs1.
Qed.

Lemma exit_others f f' p init q : exit_view f f' p init -> q <> p ->
  (alive (f q) -> alive (f' q)) /\ pid (f' q) = pid (f q) /\ ofile (f' q) = ofile (f q) /\
  (forall w, w = UNUSED \/ w = USED \/ w = ZOMBIE -> state (f' q) = w <-> state (f q) = w) /\
  (forall c, sleeps_on c (f' q) -> sleeps_on c (f q)).
Proof.
  intros Hv Hq. destruct (ev_other _ _ _ _ Hv q Hq) as [x [E | [Hs E]]]; rewrite E; unfold alive, sleeps_on; cbn.
  - split_and!; auto; tauto.
  - rewrite Hs. split_and!; auto.
    + intros w [-> | [-> | ->]]; split; discriminate.
    + intros c [Hr _]. discriminate.
Qed.

Lemma table_inv_exit f t init n f' p : table_inv f t init n -> p ∈ all_procs -> p <> init -> state (f p) = RUNNING ->
  exit_view f f' p init -> table_inv f' (set_thr p Gone t) init n.
Proof.
  intros Hi Hp Hni Hr Hv. destruct (ev_me _ _ _ _ Hv) as (Hz & Hpid & Hof).
  assert (Hin : init <> p) by auto. destruct (ti_init _ _ _ _ Hi) as [Hina Hial].
  assert (Hall : forall q, alive (f q) -> q <> p -> alive (f' q)) by (intros q Ha Hq; now apply (exit_others _ _ _ _ _ Hv Hq)).
  assert (Hpids : forall q, pid (f' q) = pid (f q)) by (intros q; destruct (decide (q = p)) as [-> | Hq]; [auto | now apply (exit_others _ _ _ _ _ Hv Hq)]).
  assert (Hun : forall q, state (f' q) = UNUSED <-> state (f q) = UNUSED).
  { intros q. destruct (decide (q = p)) as [-> | Hq]; [split; congruence |]. destruct (exit_others _ _ _ _ _ Hv Hq) as (_ & _ & _ & Hs & _). now apply Hs; auto. }
  assert (Hpar : forall q, q ∈ all_procs -> state (f q) <> UNUSED -> q <> init -> parent (f' q) ∈ all_procs /\ alive (f' (parent (f' q)))).
  { intros q Hq Hu Hne. rewrite (ev_parent _ _ _ _ Hv q Hq). destruct (decide (parent (f q) = p)) as [E | E]; [auto |].
    destruct (ti_parent _ _ _ _ Hi q Hq Hu Hne). auto. }
  split.
  - auto.
  - intros q Hq Hu. assert (Hqp : q <> p) by congruence. apply Hun in Hu. destruct (ti_unused _ _ _ _ Hi q Hq Hu) as (Hq1 & Hq2 & Hq3 & Hq4).
    destruct (exit_others _ _ _ _ _ Hv Hqp) as (_ & -> & -> & _). rewrite (ev_parent _ _ _ _ Hv q Hq). unfold set_thr.
    rewrite (proj2 (Z.eqb_neq q p)) by auto. split_and!; auto. rewrite Hq2. rewrite decide_False; [auto |].
    intros <-. apply elem_of_seqZ in Hp. lia.
  - intros q Hq. destruct (decide (q = p)) as [-> | Hne]; [congruence |]. destruct (exit_others _ _ _ _ _ Hv Hne) as (_ & _ & _ & Hs & _).
    rewrite Hs by auto. now apply (ti_states _ _ _ _ Hi).
  - intros q Hq. unfold set_thr. destruct (Z.eqb_spec q p) as [-> | Hne]; [tauto |].
    destruct (exit_others _ _ _ _ _ Hv Hne) as (_ & _ & _ & Hs & _). rewrite Hs by auto. now apply (ti_zombie _ _ _ _ Hi).
  - intros q Hq. destruct (decide (q = p)) as [-> | Hne]; [rewrite Hof; auto |].
    destruct (exit_others _ _ _ _ _ Hv Hne) as (_ & _ & -> & Hs & _). rewrite Hs by auto. now apply (ti_files _ _ _ _ Hi).
  - intros q Hq Hu Hne. rewrite Hun in Hu. auto.
  - intros q Hq Hu. rewrite Hun in Hu. apply (up_adopted f f' p init (ev_parent _ _ _ _ Hv)). now apply (ti_tree _ _ _ _ Hi).
  - intros q r Hq Hsl. assert (Hne : q <> p) by (intros ->; destruct Hsl; congruence).
    destruct (exit_others _ _ _ _ _ Hv Hne) as (_ & _ & _ & _ & Hs). unfold set_thr. rewrite (proj2 (Z.eqb_neq q p)) by auto.
    apply (ti_chan _ _ _ _ Hi); auto.
  - intros q Hq Hsl. assert (Hne : q <> p) by (intros ->; destruct Hsl; congruence).
    destruct (ev_woken _ _ _ _ Hv q Hq Hne Hsl) as [Hw1 Hw2].
    destruct (exit_others _ _ _ _ _ Hv Hne) as (_ & _ & _ & _ & Hs). destruct (ti_wait _ _ _ _ Hi q Hq (Hs _ Hsl)) as [Hnz (r & Hra & Hrc)]. split.
    + intros r' Hr' E. destruct (decide (r' = p)) as [-> | Hrp]; [congruence |].
      destruct (exit_others _ _ _ _ _ Hv Hrp) as (_ & _ & _ & Hst & _). rewrite Hst by auto. apply Hnz; auto.
      rewrite (ev_parent _ _ _ _ Hv r' Hr') in E. destruct (decide (parent (f r') = p)) as [Ep |]; [| auto].
      exfalso. symmetry in E. now apply (Hw2 E r').
    + exists r. split; [auto |]. rewrite (ev_parent _ _ _ _ Hv r Hra), decide_False by congruence. exact Hrc.
  - intros q Hq Hu. rewrite Hpids. apply (ti_pid _ _ _ _ Hi); auto. now rewrite <- Hun.
  - intros q r Hq Hr' Hu Hu'. rewrite !Hpids. apply (ti_pids _ _ _ _ Hi); auto; now rewrite <- Hun.
  - apply (ti_next _ _ _ _ Hi).
Qed.

Lemma inv_exit s t p status s' k : life_inv (Life s t) -> p ∈ all_procs -> state (procs s p) = RUNNING ->
  exit p status [] s = Sleep ch_cpu s' k -> life_inv (Life s' (set_thr p Gone t)).
Proof.
  intros Hi Hp Hr E. destruct Hi as [(l & A & Hs) Ht]. cbn [tab thr] in *.
  destruct (decide (p = initproc s)) as [Ei | Hni].
  { unfold exit in E. erewrite bind_pr in E by reflexivity. cbn [set_ps ps table_files] in E. rewrite (proj2 (Z.eqb_eq _ _) Ei) in E. discriminate. }
  destruct (exit_run p status s Hni (proj1 (ti_files _ _ _ _ Ht p Hp))) as [k' E']. rewrite E' in E. injection E as <- _.
  pose proof (exit_table p status s Hp Hni) as Hv. split; cbn [tab thr].
  - exists l, A. apply (sys_ok_procs s); auto.
    + intros q. destruct (decide (q = p)) as [-> | Hq].
      2: { destruct (ev_other _ _ _ _ Hv q Hq) as [x [-> | [_ ->]]]; auto. }
      unfold exited. cbn zeta. rewrite procs_upd_eq. cbn [procs set_procs]. unfold wake, adopt. unfold wake, orphan.
      repeat case_decide; cbn; now rewrite ?Z.eqb_refl.
    + intros q Hq. destruct (decide (q = p)) as [-> | Hne]; [destruct (ev_me _ _ _ _ Hv) as (-> & _); split; congruence |].
      destruct (exit_others _ _ _ _ _ Hv Hne) as (_ & _ & _ & Hst & _). apply Hst. auto.
  - exact (table_inv_exit (procs s) t (initproc s) (nextpid s) _ p Ht Hp Hni Hr Hv).
Qed.

(** ** [fork] *)

Lemma table_inv_child f t init n np x : table_inv f t init n -> np ∈ all_procs -> state (f np) = UNUSED -> n < 2 ^ 31 - 1 ->
  state x = RUNNABLE -> pid x = n -> parent x ∈ all_procs -> alive (f (parent x)) -> length (ofile x) = Z.to_nat NOFILE ->
  table_inv (fun q => if q =? np then x else f q) t init (n + 1).
Proof.
  intros Hi Hnp Hu Hn Hst Hpid Hpar Hal Hof. pose proof (ti_next _ _ _ _ Hi) as Hnx.
  destruct (ti_unused _ _ _ _ Hi np Hnp Hu) as (_ & Hup & _ & Hth).
  assert (Hna : forall q, alive (f q) -> q <> np) by (intros q Ha ->; unfold alive in Ha; intuition congruence).
  assert (Hall : forall q, alive (f q) -> alive (if q =? np then x else f q)).
  { intros q Ha. now rewrite (proj2 (Z.eqb_neq q np)) by now apply Hna. }
  split.
  - destruct (ti_init _ _ _ _ Hi). auto.
  - intros p Hp. destruct (Z.eqb_spec p np) as [-> | Hne]; [congruence | now apply (ti_unused _ _ _ _ Hi)].
  - intros p Hp. destruct (Z.eqb_spec p np) as [-> | Hne]; [congruence | now apply (ti_states _ _ _ _ Hi)].
  - intros p Hp. destruct (Z.eqb_spec p np) as [-> | Hne]; [split; congruence | now apply (ti_zombie _ _ _ _ Hi)].
  - intros p Hp. destruct (Z.eqb_spec p np) as [-> | Hne]; [split; congruence | now apply (ti_files _ _ _ _ Hi)].
  - intros p Hp. destruct (Z.eqb_spec p np) as [-> | Hne]; [auto |]. intros Hpu Hni. destruct (ti_parent _ _ _ _ Hi p Hp Hpu Hni). auto.
  - assert (Hway : forall p, p ∈ all_procs -> state (f p) <> UNUSED -> p <> np -> rtc (up (fun q => if q =? np then x else f q)) p init).
    { intros p Hp Hpu Hne. eapply (up_avoids f t init n _ np p Hi); auto; [| | now apply (ti_tree _ _ _ _ Hi)].
      - unfold alive. intuition congruence.
      - intros q Hq. now rewrite (proj2 (Z.eqb_neq q np)). }
    intros p Hp. destruct (Z.eqb_spec p np) as [-> | Hne]; [intros _ | auto].
    eapply rtc_l; [split; [exact Hnp | cbn; now rewrite Z.eqb_refl] |]. apply Hway; auto. unfold alive in Hal. intuition congruence.
  - intros p q Hp. destruct (Z.eqb_spec p np) as [-> | Hne]; [intros [Hs _]; congruence | now apply (ti_chan _ _ _ _ Hi)].
  - intros p Hp. destruct (Z.eqb_spec p np) as [-> | Hne]; [intros [Hs _]; congruence |]. intros Hs.
    destruct (ti_wait _ _ _ _ Hi p Hp Hs) as [Hz (r & Hr & Hc)]. split.
    + intros q Hq. destruct (Z.eqb_spec q np) as [-> |]; [congruence | now apply Hz].
    + exists r. split; [auto |]. rewrite (proj2 (Z.eqb_neq r np)); [auto |]. intros ->. rewrite Hup in Hc. subst p. apply elem_of_seqZ in Hp. lia.
  - intros p Hp. destruct (Z.eqb_spec p np) as [-> | Hne]; [lia |]. intros Hpu. pose proof (ti_pid _ _ _ _ Hi p Hp Hpu). lia.
  - intros p q Hp Hq. destruct (Z.eqb_spec p np) as [-> | Hne], (Z.eqb_spec q np) as [-> | Hne']; auto.
    + intros _ Hqu E. pose proof (ti_pid _ _ _ _ Hi q Hq Hqu). lia.
    + intros Hpu _ E. pose proof (ti_pid _ _ _ _ Hi p Hp Hpu). lia.
    + now apply (ti_pids _ _ _ _ Hi).
  - lia.
Qed.

Lemma table_inv_next f t init n n' : table_inv f t init n -> n <= n' < 2 ^ 31 -> table_inv f t init n'.
Proof. intros Hi Hn. destruct Hi. split; auto; [| lia]. intros p Hp Hu. pose proof (ti_pid0 p Hp Hu). lia. Qed.

Lemma locks_free_nil : locks_free [].
Proof. split; try apply not_elem_of_nil. intros p. apply not_elem_of_nil. Qed.

Lemma length_dup_ofile pf L : forall o, length (dup_ofile pf L o) = length o.
Proof.
  induction L as [|i L IH]; intros o; [reflexivity |]. unfold dup_ofile in *. cbn [fold_left]. rewrite IH.
  destruct (_ =? _); [reflexivity | apply length_insert].
Qed.

Lemma inv_fork s t p r s' : life_inv (Life s t) -> p ∈ all_procs -> state (procs s p) = RUNNING -> nextpid s < 2 ^ 31 - 1 ->
  fork p [] s = Ret r [] s' -> life_inv (Life s' t).
Proof.
  intros Hi Hp Hr Hn E. destruct (inv_space s t p Hi Hp Hr) as (l & A & a & Hs & HA). destruct Hi as [_ Ht]. cbn [tab thr] in Ht.
  pose proof (ti_next _ _ _ _ Ht) as Hnx. assert (Ei : i32 (nextpid s + 1) = nextpid s + 1) by (apply i32_small; lia).
  destruct (fork_run (K := psys) (H3 := table_files) (H4 := table_file_laws) s [] l A p a Hs HA locks_free_nil (not_elem_of_nil _) (not_elem_of_nil _) I)
    as [(np & tf & rt & O' & fs & x & l' & k' & E' & Hf) | (k' & l' & E' & Haf & _)];
    rewrite E' in E; injection E as _ <-.
  - destruct (fk_slot _ _ _ _ _ _ _ _ _ _ _ _ _ Hf) as (Hnp & HAn & Hu). pose proof (fk_ps _ _ _ _ _ _ _ _ _ _ _ _ _ Hf) as Hps. cbn [ps table_files] in *.
    subst k'. split; cbn [tab thr].
    + exists l', (<[np := AS tf rt (as_sz a) O' fs]> A).
      apply (sys_ok_update s l A np _ _ x l' (Some (AS tf rt (as_sz a) O' fs))); auto; [apply Hf | | discriminate | cbn; split; [eauto | discriminate]].
      intros b [= <-]. cbn. destruct (so_space _ _ _ Hs p a HA) as (_ & _ & ->). auto.
    + rewrite Ei. cbn [initproc nextpid upd_proc set_procs set_nextpid set_ph procs].
      apply (table_inv_child (procs s) t (initproc s) (nextpid s) np); auto; [right; right; exact Hr |].
      cbn. rewrite length_dup_ofile. now apply (ti_files _ _ _ _ Ht).
  - split; [exists l', A; apply Haf |]. cbn [tab thr ps table_files] in *. rewrite (af_init _ _ _ _ _ Haf).
    apply (table_inv_next _ _ _ (nextpid s)); [| destruct (af_pid _ _ _ _ _ Haf) as [-> | ->]; rewrite ?Ei; lia].
    eapply table_inv_stir; [exact Ht |]. intros q Hq. destruct (decide (state (procs s q) = UNUSED)) as [Hu | Hu].
    + destruct (af_unused _ _ _ _ _ Haf q Hu) as [-> | [y ->]]; [apply stir_refl |].
      destruct (ti_unused _ _ _ _ Ht q Hq Hu) as (H1' & H2' & H3' & H4'). split; cbn; auto.
      * intros Ha. unfold alive in Ha. intuition congruence.
      * intros w [Hw _]. discriminate.
    + rewrite (af_procs _ _ _ _ _ Haf q Hu). apply stir_refl.
Qed.

Lemma inv_grow s t p n r s' : life_inv (Life s t) -> p ∈ all_procs -> state (procs s p) = RUNNING -> - 2 ^ 31 <= n < 2 ^ 31 ->
  (forall l A a, sys_ok s l A -> A !! p = Some a -> n < 0 -> 0 <= as_sz a + n -> clean_cut a (as_sz a + n)) ->
  growproc p n [] s = Ret r [] s' -> life_inv (Life s' t).
Proof.
  intros Hi Hp Hr Hn Hcut E. destruct (inv_space s t p Hi Hp Hr) as (l & A & a & Hs & HA). destruct Hi as [_ Ht]. cbn [tab thr] in Ht.
  assert (Hst : forall v, table_inv (procs (upd_proc p (set_sz v) s)) t (initproc s) (nextpid s)).
  { intros v. eapply table_inv_stir; [exact Ht |]. intros q Hq. cbn. destruct (Z.eqb_spec q p) as [-> |]; [split; auto | apply stir_refl]. }
  destruct (growproc_run s [] l A p a n Hs HA Hp (not_elem_of_nil _) (not_elem_of_nil _) Hn (Hcut l A a Hs HA))
    as [(x & l' & a' & E' & _ & _ & _ & Hs' & _) | [[_ (x & l' & a' & E' & _ & _ & _ & Hs' & _)] | [_ E']]];
    rewrite E' in E; [injection E as _ <- | injection E as _ <- | discriminate]; (split; [eexists _, _; exact Hs' |]); [apply Hst | exact Ht].
Qed.

(** [user_store] writes to a frame of the process. *)
Lemma store_moves s l a va v m : mine s l (Some a) -> 0 <= va < MAXVA -> user_store (as_root a) va v (mem s) = Some m ->
  moves s l (Some a) (set_mem (fun _ => m) s) l (Some a).
Proof.
  intros Hm Hva E. pose proof Hm as [_ Hs]. destruct (Hs a eq_refl) as (Hsp & Ho & Hun). destruct (frames_outside s l a Hm) as [Hos Hosu].
  unfold user_store, sv39_translate in E. destruct (pt_lookup 2 (mem s) (as_root a) va) as [[w lv]|] eqn:El; [| discriminate].
  destruct (flag w PTE_W && negb (flag w PTE_R)); [discriminate |]. destruct (negb (PTE2PA w mod _ =? 0)); [discriminate |].
  rewrite !flag_PTE_FLAGS in E by (split; vm_compute; congruence). destruct (flag w PTE_U) eqn:Eu; [| discriminate]. destruct (flag w PTE_W); [| discriminate].
  destruct (space_user_page _ _ _ _ _ Hsp Ho Hva El Eu) as [Hlv Hin]. rewrite <- tsize_shift in E by exact Hlv. pose proof (tsize_pos lv) as Hpos.
  assert (Hr : 0 <= va mod tsize lv < tsize lv) by (apply Z.mod_pos_bound; unfold PGSIZE in *; lia). set (pa := PTE2PA w + va mod tsize lv) in *.
  assert (Hx : outside s (as_tables a) l pa /\ ~ elsewhere s l (Some a) pa).
  { destruct lv as [|lv]; cbn [tsize] in *.
    - apply elem_of_smalls in Hin. split; [apply (Hos (PTE2PA w)); auto; lia |]. intros [He _]. destruct (He (PTE2PA w)); [apply avail_some; right; right; now right | lia | lia].
    - apply elem_of_supers in Hin. split; [apply (Hosu (PTE2PA w)); auto; lia |]. intros [_ He]. destruct (He (PTE2PA w)); [apply avail_super_some; now right | lia | lia]. }
  cbn [andb] in E. injection E as <-. apply data_moves; auto.
  - intros q x Hq Hqx. apply upd_ne. intros ->. destruct Hx as [[Hx _] _]. destruct (Hx q Hq); lia.
  - intros x Hex. apply upd_ne. intros ->. tauto.
Qed.

Lemma inv_user_store s t p va v m : life_inv (Life s t) -> p ∈ all_procs -> state (procs s p) = RUNNING -> 0 <= va < MAXVA ->
  user_store (pagetable (procs s p)) va v (mem (ph s)) = Some m -> life_inv (Life (set_ph (set_mem (fun _ => m) (ph s)) s) t).
Proof.
  intros Hi Hp Hr Hva E. destruct (inv_space s t p Hi Hp Hr) as (l & A & a & Hs & HA). destruct Hi as [_ Ht]. split; [exists l, A; cbn [tab] | exact Ht].
  destruct (so_space _ _ _ Hs p a HA) as (_ & Er & _). rewrite <- Er in E. pose proof (pmem_mine _ _ _ p (so_mem _ _ _ Hs)) as Hm. rewrite HA in Hm.
  apply (sys_ok_ph s l A p a); auto. now apply (store_moves _ _ _ va v).
Qed.

(** Every step keeps the invariant. *)
Lemma life_step_inv x y : life_inv x -> life_step x y -> life_inv y.
Proof.
  destruct x as [s t]. intros Hi Hst.
  destruct Hst as [p r s' (Hp & Hr & Hv) Hn E | p st s' k (Hp & Hr & Hv) E | p addr y (Hp & Hr & Hv) Ha E | p addr y (Hp & Hr & Hv) Ha E
    | p c lk s' k (Hp & Hr & Hv) Hc Hlk E | p lk s' (Hp & Hr & Hv) E | p s' k (Hp & Hr & Hv) E | me c s' E | n r s' E | c p s' k Hp E
    | p n r s' (Hp & Hr & Hv) Hn Hcut E | p va v m (Hp & Hr & Hv) Hva Hb E]; cbn [tab thr] in *.
  - exact (inv_fork s t p r s' Hi Hp Hr Hn E).
  - exact (inv_exit s t p st s' k Hi Hp Hr E).
  - exact (inv_wait s t p addr y Hi Hp Hr Ha E).
  - exact (inv_wait_again s t p addr y Hi Hp Hr Ha E).
  - exact (inv_sleep s t p c lk s' k Hi Hr Hc Hlk E).
  - rewrite resume_sleep_run in E. injection E as <-. apply inv_resume; auto.
  - exact (inv_yield s t p s' k Hi Hr E).
  - exact (inv_wakeup s t me c s' Hi E).
  - exact (inv_kill s t n r s' Hi E).
  - exact (inv_schedule s t c p s' k Hi E).
  - exact (inv_grow s t p n r s' Hi Hp Hr Hn Hcut E).
  - exact (inv_user_store s t p va v m Hi Hp Hr Hva E).
Qed.

Lemma life_run_inv x y : life_inv x -> life_run x y -> life_inv y.
Proof. intros Hi Hr. induction Hr as [| y z Hr IH Hst]; [exact Hi |]. exact (life_step_inv y z IH Hst). Qed.

End life.
