(* ===== verification/ProcBoot.v ===== *)
(** * The first process

    [userinit] on a machine with some free pages: the first process is
    RUNNABLE, its memory starts with [initcode], and the process table
    satisfies the invariant of [ProcLife]. *)

From Stdlib Require Import FunctionalExtensionality.
From S2P Require Import Prelude KMonad Riscv Mem Printf Kalloc KallocSafety Vm Proc ProcFile VmTable VmWalk VmMap VmUnmap VmAlloc VmCopy VmUser.
From S2P Require Import VmDemo ProcMem ProcSpace ProcRun ProcFork ProcTable ProcLife.

Definition rwxu : Z := Z.lor (Z.lor (Z.lor PTE_W PTE_R) PTE_X) PTE_U.

Lemma rwxu_perm : perm_ok rwxu.
Proof. split; [split; vm_compute; intuition congruence | intros _; reflexivity]. Qed.

Section boot.
Context `{LayoutOk} `{!PoolAbove} `{Symbols}.

Lemma path0 va : 0 <= va < PGSIZE -> path va = [0; 0; 0].
Proof.
  intros Hva. assert (Hv : va / 4096 = 0) by (apply Z.div_small; exact Hva).
  unfold path. now rewrite PX0_eq, PX1_eq, PX2_eq, Hv.
Qed.

(** Few pages are enough for the tables of address 0. *)
Lemma first_tables m r O O' l : pt_wf m r O' -> top_tables O -> new_tables O O' 2 0 (0 + PGSIZE) ->
  NoDup l -> (forall q, q ∈ l -> is_Some (O' !! q)) -> (length l <= 5)%nat.
Proof.
  intros Hwf Ht Hnt Hnd Hl. apply (few_tables m r O' (top_paths ++ [[0]; [0; 0]])); auto. intros q π Hq.
  apply elem_of_app. pose proof (pt_depth _ _ _ Hwf q π Hq) as Hd. destruct (Hnt q π Hq) as [Ho | (va & k & Hva & Hk & ->)].
  - left. now apply (top_tables_paths O q).
  - rewrite path0 by lia. destruct k as [|[|[|k]]]; cbn; [left; left | right; left | right; right; left | lia].
Qed.

(** [uvmfirst] on a process with no memory. *)
Lemma uvmfirst_run s h l tf r O src : mine s l (Some (AS tf r 0 O [])) -> top_tables O -> kmem_lock ∉ h ->
  (7 <= length l)%nat -> Z.of_nat (length src) < PGSIZE ->
  exists s' l' O' pg, uvmfirst r src h s = Ret tt h s' /\
    moves s l (Some (AS tf r 0 O [])) s' l' (Some (AS tf r PGSIZE O' [(0%nat, pg)])) /\
    forall va, 0 <= va < PGSIZE -> user_read (mem s') r va = Some (nthZ 0 src va, Z.lor rwxu PTE_V).
Proof.
  intros Hm Htop Hh Hlen Hsrc. destruct l as [|pg l]; [cbn in Hlen; lia |].
  set (a := AS tf r 0 O []) in *. destruct (mine_uvm _ _ _ Hm) as [Hu _]. pose proof Hm as [Hpool Hs].
  destruct (Hs a eq_refl) as (Hsp & Ho & Hun). cbn [a as_root as_tables] in Hu.
  destruct (uvm_kalloc s h r O pg l Hu Hh) as (s1 & E1 & Hu1 & Hf1 & Hm1 & Hlk1 & Hp0 & Hpg & Hpn & HpO).
  unfold uvmfirst. rewrite (proj2 (Z.leb_gt _ _)) by exact Hsrc. rewrite (bind_Ret _ _ _ _ _ _ _ E1).
  set (s2 := set_mem (fun m => memset m pg 0 PGSIZE) s1). rewrite (bind_Ret _ _ _ _ _ _ _ (eq_refl : mset pg 0 PGSIZE h s1 = Ret tt h s2)).
  assert (Hdis : forall x p, pg <= x < pg + tsize 0 -> is_Some (O !! p) \/ p ∈ l -> x < p \/ p + PGSIZE <= x).
  { intros x p Hx Hp. cbn [tsize] in Hx. assert (Hne : p <> pg) by (intros ->; destruct Hp as [[π Hp] | Hp]; [congruence | auto]).
    assert (Hok : page_ok p) by (destruct Hp as [[π Hp] | Hp]; [exact (pt_page _ _ _ (proj1 (uvm_vm _ _ _ _ Hu)) p π Hp) |];
      destruct (avail_ok _ _ _ p Hm) as [Hok _]; [left; now right | exact Hok]).
    destruct (page_ok_disjoint p pg); auto; lia. }
  destruct (uvm_fill s1 r O l 0 pg (fun m => memset m pg 0 PGSIZE) Hu1 Hdis) as [Hu2 Hlk2].
  { intros x Hx. now apply memset_out. }
  pose proof top_range as (Htf & _ & _ & Htf2 & _). assert (HTP : PGSIZE <= TRAPFRAME /\ TRAPFRAME < 2 ^ 39 /\ PGSIZE <= MAXVA) by (vm_compute; intuition congruence).
  assert (Hn : forall va, 0 <= va < PGSIZE -> pt_lookup 2 (mem s) r va = None).
  { intros va Hva. apply (sp_none _ _ Hsp); cbn [a as_sz]; [change (PGROUNDUP 0) with 0 |]; lia. }
  destruct (mappages_page s2 h r O l 0 pg rwxu Hu2 Hh (proj1 rwxu_perm) (page_frame_ok pg Hpg))
    as (r3 & s3 & O3 & l3 & E3 & Hu3 & Ht3 & Hnt3 & Hx3 & Hres3); [lia | reflexivity | lia | cbn [s2 set_mem mem]; rewrite Hlk2, Hlk1; apply Hn; vm_compute; intuition congruence |].
  rewrite (bind_Ret _ _ _ _ _ _ _ E3). destruct Hres3 as [[-> Hlk3] | (-> & -> & _)].
  2: { exfalso. destruct (uvm_vm _ _ _ _ Hu3) as (Hwf3 & _). destruct (uvm_vm _ _ _ _ Hu2) as (_ & (_ & Hnd & _) & _).
       pose proof (first_tables (mem s3) r O O3 l Hwf3 Htop Hnt3 Hnd) as Hle. cbn in Hlen.
       enough (length l <= 5)%nat by lia. apply Hle. intros q Hq.
       destruct (proj2 (tk_pages _ _ _ _ _ _ Ht3 q)) as [Hi | Hi]; auto. now apply elem_of_nil in Hi. }
  assert (Hg : grown r s O (pg :: l) 0 (fun _ _ => rwxu) (fun _ => 0) s3 O3 l3 PGSIZE [(0%nat, pg)]).
  { apply (grown_add r s O (pg :: l) 0 _ _ s O (pg :: l) 0 [] s2 l s3 O3 l3 0 pg); auto; try lia; try reflexivity.
    - now apply grown_refl.
    - now apply page_frame_ok.
    - apply Hpg.
    - apply rwxu_perm.
    - cbn [supers flat_map rev app]. now rewrite app_nil_r.
    - intros x Hx. cbn. rewrite memset_out by exact Hx. apply Hm1. intros p Hp. apply list_elem_of_singleton in Hp as ->. exact Hx.
    - intros off Hoff. cbn. rewrite memset_in by (cbn in Hoff; lia). reflexivity.
    - now rewrite (tk_super _ _ _ _ _ _ Ht3).
    - intros va Hva. rewrite Hlk3 by auto. cbn [tsize]. destruct (_ && _); [reflexivity |]. cbn [s2 set_mem mem]. now rewrite Hlk2, Hlk1. }
  pose proof (grown_gained s (pg :: l) a _ _ s3 O3 l3 PGSIZE [(0%nat, pg)] Hm Hg) as Hga.
  assert (Hlk : forall va, 0 <= va < PGSIZE -> pt_lookup 2 (mem s3) r va = Some (mkpte pg rwxu, 0%nat)).
  { intros va Hva. rewrite Hlk3 by lia. rewrite (proj2 (Z.leb_le _ _)), (proj2 (Z.ltb_lt _ _)) by lia. reflexivity. }
  assert (Hmv : moves s (pg :: l) (Some a) s3 l3 (Some (AS tf r PGSIZE O3 [(0%nat, pg)]))).
  { apply (gained_moves s (pg :: l) a s3 O3 l3 PGSIZE [(0%nat, pg)] Hm Hga PGSIZE); [reflexivity | vm_compute; intuition congruence |].
    intros va v lv Hva E. cbn [a as_sz as_root] in Hva, E. change (PGROUNDUP 0) with 0 in Hva. rewrite Hlk in E by exact Hva. injection E as <- <-.
    exists pg, rwxu. split_and!; auto; [now apply page_frame_ok | apply Hpg | exact rwxu_perm]. }
  set (f := fun m => write_bytes m pg src). set (b := AS tf r PGSIZE O3 [(0%nat, pg)]) in *.
  destruct (mi_space _ _ _ (mv_mine _ _ _ _ _ _ Hmv) b eq_refl) as (Hsp3 & Ho3 & Hun3).
  assert (Huse : uses b pg) by (right; right; left).
  assert (Hout : forall x, x < pg \/ pg + PGSIZE <= x -> f (mem s3) x = mem s3 x) by (intros x Hx; apply write_bytes_out; lia).
  assert (Hmv4 : moves s3 l3 (Some b) (set_mem f s3) l3 (Some b)).
  { apply data_moves; [apply Hmv | |].
    - intros q x Hq Hx. apply Hout. assert (Hne : q <> pg).
      { intros ->. destruct Hq as [[π Hq] | Hq]; [| now apply (proj1 Hun3 pg)]. rewrite (ow_sep _ Ho3 pg) in Hq; [discriminate | left]. }
      destruct (avail_ok _ _ _ q (mv_mine _ _ _ _ _ _ Hmv)) as [Hok _]; [apply avail_some; destruct Hq; [right; right; now left | now left] |].
      destruct (page_ok_disjoint q pg); auto; lia.
    - intros x [Hx _]. apply Hout. apply Hx, avail_some. now right. }
  exists (set_mem f s3), l3, O3, pg. split_and!; [reflexivity | exact (moves_trans _ _ _ _ _ _ _ _ _ Hmv Hmv4) |].
  intros va Hva.
  destruct (space_lookups (mem s3) (f (mem s3)) b Hsp3) as [_ Hlk4].
  { intros q x Hq Hx. apply Hout. destruct (page_ok_disjoint q pg); [now apply (ow_ok _ Ho3); right; left | exact Hpg | | lia ..].
    intros ->. rewrite (ow_sep _ Ho3 pg) in Hq; [destruct Hq; discriminate | left]. }
  rewrite (read_mkpte _ _ _ pg rwxu 0%nat); [| lia | now apply page_frame_ok | apply Hpg | exact rwxu_perm | cbn [set_mem mem]; now rewrite Hlk4, Hlk].
  cbn [tsize set_mem mem]. rewrite Z.mod_small by exact Hva. do 2 f_equal. unfold f, write_bytes.
  replace (pg + va - pg) with va by lia. destruct (Z.ltb_spec (pg + va) (pg + Z.of_nat (length src))) as [Hlt | Hge];
    rewrite (proj2 (Z.leb_le _ _)) by lia; cbn [andb]; [reflexivity |].
  unfold nthZ. rewrite nth_overflow by lia.
  rewrite <- (gr_data _ _ _ _ _ _ _ _ _ _ _ _ Hg va _ 0%nat Hva (Hlk va Hva)). cbn [tsize]. rewrite Z.mod_small by exact Hva.
  rewrite PTE2PA_mkpte; [reflexivity | apply page_frame_ok; exact Hpg .. | apply rwxu_perm].
Qed.

(** The process table as [procinit] leaves it: the array is zero. *)
Record fresh_table (s : psys) : Prop := {
  fr_state : forall p, state (procs s p) = UNUSED;
  fr_ids : forall p, pid (procs s p) = 0 /\ parent (procs s p) = 0;
  fr_mem : forall p, trapframe (procs s p) = 0 /\ pagetable (procs s p) = 0 /\ sz (procs s p) = 0;
  fr_files : forall p, ofile (procs s p) = no_files;
  fr_next : nextpid s = 1
}.

Lemma fresh_sys s l : fresh_table s -> pool (ph s) l -> sys_ok s l ∅.
Proof.
  intros Hf Hp. split.
  - split; [exact Hp | |]; intros p a; [intros E | intros a' a'' E]; now rewrite lookup_empty in E.
  - intros p a E. now rewrite lookup_empty in E.
  - intros p _. apply (fr_mem _ Hf).
  - intros p _. rewrite lookup_empty, is_Some_alt. pose proof (fr_state _ Hf p). tauto.
Qed.

Lemma fresh_first s p x : fresh_table s -> p ∈ all_procs -> alive x -> length (ofile x) = Z.to_nat NOFILE -> pid x = 1 ->
  (forall q, ~ sleeps_on (ch_proc q) x) -> table_inv (fun q => if q =? p then x else procs s q) (fun _ => Runs) p 2.
Proof.
  intros Hf Hp Hx Hl Hpid Hsl. assert (Hax : state x <> UNUSED /\ state x <> USED /\ state x <> ZOMBIE) by (unfold alive in Hx; intuition congruence).
  assert (Hu : forall q, state (procs s q) = UNUSED) by apply Hf.
  split.
  - rewrite Z.eqb_refl. auto.
  - intros q Hq. destruct (q =? p); [tauto |]. intros _. destruct (fr_ids _ Hf q). split_and!; auto. apply (fr_files _ Hf).
  - intros q Hq. destruct (q =? p); [tauto |]. now rewrite Hu.
  - intros q Hq. destruct (q =? p); [| rewrite Hu]; split; intros E; try discriminate; tauto.
  - intros q Hq. destruct (q =? p); [tauto |]. rewrite Hu, (fr_files _ Hf). split; [reflexivity | discriminate].
  - intros q Hq. destruct (Z.eqb_spec q p) as [-> |]; [tauto |]. rewrite Hu. tauto.
  - intros q Hq. destruct (Z.eqb_spec q p) as [-> |]; [intros _; apply rtc_refl |]. now rewrite Hu.
  - intros q r Hq. destruct (q =? p); [intros Hs; now apply Hsl in Hs |]. intros [E _]. now rewrite Hu in E.
  - intros q Hq. destruct (q =? p); [intros Hs; now apply Hsl in Hs |]. intros [E _]. now rewrite Hu in E.
  - intros q Hq. destruct (q =? p); [lia |]. now rewrite Hu.
  - intros q r Hq Hr. destruct (Z.eqb_spec q p) as [-> |], (Z.eqb_spec r p) as [-> |]; rewrite ?Hu; auto; tauto.
  - lia.
Qed.

(** A new process takes four pages at most. *)
Lemma moves_left s l s' l' tf r O : pool s l -> top_tables O -> moves s l None s' l' (Some (AS tf r 0 O [])) ->
  (length l <= length l' + 4)%nat.
Proof.
  intros [(_ & Hnd & _) _ _] Htop Hmv. destruct (mi_space _ _ _ (mv_mine _ _ _ _ _ _ Hmv) _ eq_refl) as (Hsp & _).
  pose proof (sp_wf _ _ Hsp) as Hwf. cbn [as_root as_tables] in Hwf.
  pose (T := filter (fun q => is_Some (O !! q)) l).
  assert (HT : (length T <= 3)%nat).
  { apply (few_tables (mem s') r O top_paths); auto.
    - intros q π Hq. apply (top_tables_paths O q); auto. now apply (pt_depth _ _ _ Hwf q).
    - now apply NoDup_filter.
    - intros q Hq. now apply list_elem_of_filter in Hq. }
  enough (length l <= length (l' ++ tf :: T))%nat by (rewrite length_app in *; cbn in *; lia).
  apply submseteq_length, NoDup_submseteq; [exact Hnd |]. intros q Hq. rewrite elem_of_app, elem_of_cons.
  destruct (proj2 (mv_pages _ _ _ _ _ _ Hmv q)) as [Hq' | (a & [= <-] & [E | [Hq' | Hq']])]; [now left | auto | auto | | now apply elem_of_nil in Hq'].
  right; right. now apply list_elem_of_filter.
Qed.

Lemma sys_ok_initproc p s l A : sys_ok s l A -> sys_ok (set_initproc p s) l A.
Proof. intros [? ? ? ?]. now split. Qed.

Lemma set_ph_initproc x p s : set_ph x (set_initproc p s) = set_initproc p (set_ph x s).
Proof. reflexivity. Qed.
Lemma upd_initproc q f p s : upd_proc q f (set_initproc p s) = set_initproc p (upd_proc q f s).
Proof. reflexivity. Qed.

Lemma first_ph n x y s a b :
  set_ph (set_mem (fun m => store64 m b PGSIZE) (set_mem (fun m => store64 m a 0) y)) (set_ph (set_mem (fun m => store64 m a 0) y) (set_ph y (set_nextpid n (set_ph x s)))) =
  set_nextpid n (set_ph (set_mem (fun m => store64 (store64 m a 0) b PGSIZE) y) s).
Proof. reflexivity. Qed.

#[local] Opaque safestrcpy_list bytes_of store64 initcode.

Definition first_frame (tf : Z) (m : memory) : memory := store64 (store64 m (tf + TF_epc) 0) (tf + TF_sp) PGSIZE.

(** The first process, in the slot that [allocproc] found. *)
Definition first_proc (tf r : Z) (x : proc) : proc :=
  let y := set_sz PGSIZE (allocated 1 tf r x) in
  set_state RUNNABLE (set_pcwd 1 (set_pname (safestrcpy_list 16 (pname y) (bytes_of "initcode")) y)).

Lemma userinit_state s p tf r x y : nextpid s = 1 -> p <> 0 ->
  allocproc [] s = Ret p [proc_lock p] (upd_proc p (allocated (nextpid s) tf r) (set_nextpid (i32 (nextpid s + 1)) (set_ph x s))) ->
  uvmfirst r initcode [proc_lock p] x = Ret tt [proc_lock p] y ->
  userinit [] s = Ret tt [] (set_initproc p (upd_proc p (first_proc tf r) (set_nextpid 2 (set_ph (set_mem (first_frame tf) y) s)))).
Proof.
  intros Hn Hp0 E E2. unfold userinit. erewrite bind_pr by exact E. cbn [set_ps table_files]. erewrite bind_pr by reflexivity.
  rewrite (proj2 (Z.eqb_neq p 0)) by exact Hp0. rewrite bind_pr_get. cbn [ps set_ps table_files].
  set (s1 := upd_proc p _ _) in *.
  assert (Hpr : procs (set_initproc p s1) p = allocated (nextpid s) tf r (procs s p)) by (unfold s1; cbn; now rewrite Z.eqb_refl).
  rewrite Hpr. cbn [pagetable trapframe allocated set_context set_pagetable set_trapframe set_state set_pid].
  erewrite bind_pr by (apply vm_Ret; exact E2). do 3 erewrite bind_pr by reflexivity.
  cbn [ps set_ps table_files]. erewrite bind_pr by reflexivity.
  cbn [op_namei table_files ps set_ps]. rewrite bind_ret. do 2 erewrite bind_pr by reflexivity. cbn [ps set_ps table_files].
  unfold s1. repeat (rewrite set_ph_upd || rewrite set_ph_initproc || rewrite upd_initproc). rewrite !upd_proc_upd, Hn.
  change (i32 (1 + 1)) with 2. unfold pr, zoom. cbn [ps set_ps table_files]. rewrite release_top.
  apply (f_equal (fun z => Ret tt [] (set_initproc p (upd_proc p (first_proc tf r) z)))).
  exact (first_ph 2 x y s (tf + TF_epc) (tf + TF_sp)).
Qed.

(** [userinit] builds the first process. *)
Lemma userinit_run s l : fresh_table s -> pool (ph s) l -> (12 <= length l)%nat ->
  exists s', userinit [] s = Ret tt [] s' /\ life_inv (Life s' (fun _ => Runs)) /\
    let p := procs s' (initproc s') in
    state p = RUNNABLE /\ pid p = 1 /\ sz p = PGSIZE /\
    (forall va, 0 <= va < PGSIZE -> user_read (mem (ph s')) (pagetable p) va = Some (nthZ 0 initcode va, Z.lor rwxu PTE_V)) /\
    load64 (mem (ph s')) (trapframe p + TF_epc) = 0 /\ load64 (mem (ph s')) (trapframe p + TF_sp) = PGSIZE.
Proof.
  intros Hf Hp Hlen. pose proof (fresh_sys s l Hf Hp) as Hs.
  destruct (allocproc_run s [] l ∅ Hs locks_free_nil) as [(p & tf & r & O & x & l' & E & Hpp & HA & Htop & _ & Hmv & Hs') | (s' & l' & _ & _ & [Hle | Hno])].
  2: lia.
  2: { exfalso. apply (Hno 1); [apply elem_of_seqZ; unfold NPROC; lia | apply Hf]. }
  assert (Hp0 : p <> 0) by (apply elem_of_seqZ in Hpp; lia).
  assert (Hk : kmem_lock ∉ [proc_lock p]) by (rewrite list_elem_of_singleton; discriminate).
  destruct (uvmfirst_run x [proc_lock p] l' tf r O initcode (mv_mine _ _ _ _ _ _ Hmv) Htop Hk) as (y & l2 & O2 & pg & E2 & Hmv2 & Hrd).
  { pose proof (moves_left (ph s) l x l' tf r O Hp Htop Hmv). lia. }
  { vm_compute. reflexivity. }
  set (b := AS tf r PGSIZE O2 [(0%nat, pg)]) in *.
  eexists. split; [exact (userinit_state s p tf r x y (fr_next _ Hf) Hp0 E E2) |].
  destruct (tf_write y l2 b (first_frame tf) (mv_mine _ _ _ _ _ _ Hmv2)) as [Hmv3 Hrd3].
  { cbn [b as_tf]. intros w Hw. unfold first_frame, TF_sp, TF_epc in *. unfold PGSIZE in Hw. rewrite !store64_out by lia. reflexivity. }
  split.
  - split; cbn [tab thr].
    + exists l2, (<[p := b]> ∅). apply sys_ok_initproc, (sys_ok_update s l ∅ p (first_proc tf r) 2 _ l2 (Some b)); auto.
      * rewrite HA. exact (moves_trans _ _ _ _ _ _ _ _ _ (moves_trans _ _ _ _ _ _ _ _ _ Hmv Hmv2) Hmv3).
      * intros c [= <-]. auto.
      * discriminate.
      * cbn. split; [eauto | discriminate].
    + apply (fresh_first s p (first_proc tf r (procs s p)) Hf Hpp); cbn.
      * right; left; reflexivity.
      * now rewrite (fr_files _ Hf).
      * reflexivity.
      * intros q [Hq _]. discriminate.
  - cbn zeta. set (z := set_initproc _ _).
    assert (Ep : procs z (initproc z) = first_proc tf r (procs s p)) by (unfold z; cbn [initproc set_initproc procs]; rewrite procs_upd_eq; reflexivity).
    rewrite Ep. change (mem (ph z)) with (first_frame tf (mem y)). unfold first_proc.
    cbn [state pid sz pagetable trapframe set_state set_pcwd set_pname set_sz allocated set_context set_pagetable set_trapframe set_pid].
    split_and!; auto.
    + intros va Hva. rewrite <- Hrd by exact Hva. apply Hrd3. exact Hva.
    + unfold first_frame, TF_sp, TF_epc in *. rewrite load64_store64_ne by lia. apply load64_store64_eq. lia.
    + unfold first_frame. apply load64_store64_eq. unfold PGSIZE. lia.
Qed.

(** The static variables of proc.c before [procinit]. *)
Definition zero_proc : proc :=
  Proc UNUSED None 0 0 0 0 0 0 0 0 (Ctx 0 0 (repeat 0 12)) no_files 0 (repeat 0 16).
Definition boot_table (x : phys) : psys := PSys x (fun _ => zero_proc) 1 0 (fun _ => 0).

Lemma procinit_loop_run h x L : forall s, ph s = x -> fresh_table s -> exists s', procinit_loop L h s = Ret tt h s' /\ ph s' = x /\ fresh_table s'.
Proof.
  induction L as [|p L IH]; intros s Hx Hf; cbn [procinit_loop]; [eauto |].
  unfold initlock. rewrite bind_ret, !bind_modproc, upd_proc_upd. apply IH; [exact Hx |].
  split; intros; cbn; try destruct (_ =? p); cbn; try apply Hf. reflexivity.
Qed.

Lemma procinit_run h x : exists s, procinit h (boot_table x) = Ret tt h s /\ ph s = x /\ fresh_table s.
Proof. apply procinit_loop_run; [reflexivity |]. split; intros; try split_and!; reflexivity. Qed.

(** Start-up of the process system on a machine with the free pages [l]. *)
Definition start : M psys unit := procinit;; userinit.

Lemma start_run x l : pool x l -> (12 <= length l)%nat ->
  exists s, start [] (boot_table x) = Ret tt [] s /\ life_inv (Life s (fun _ => Runs)) /\
    let p := procs s (initproc s) in
    state p = RUNNABLE /\ pid p = 1 /\ sz p = PGSIZE /\
    (forall va, 0 <= va < PGSIZE -> user_read (mem (ph s)) (pagetable p) va = Some (nthZ 0 initcode va, Z.lor rwxu PTE_V)) /\
    load64 (mem (ph s)) (trapframe p + TF_epc) = 0 /\ load64 (mem (ph s)) (trapframe p + TF_sp) = PGSIZE.
Proof.
  intros Hp Hl. destruct (procinit_run [] x) as (s1 & E1 & Hx & Hf). subst x.
  destruct (userinit_run s1 l Hf Hp Hl) as (s & E & Hi). exists s. split; [| exact Hi].
  unfold start. now rewrite (bind_Ret _ _ _ _ _ _ _ E1).
Qed.

(** The states of the process system. *)
Definition reachable (y : life) : Prop :=
  exists x l s, pool x l /\ (12 <= length l)%nat /\ start [] (boot_table x) = Ret tt [] s /\ life_run (Life s (fun _ => Runs)) y.

Lemma reachable_life y : reachable y -> life_inv y.
Proof.
  intros (x & l & s & Hp & Hl & E & Hr). destruct (start_run x l Hp Hl) as (s' & E' & Hi & _).
  rewrite E in E'. injection E' as <-. exact (life_run_inv _ _ Hi Hr).
Qed.

End boot.

(** ** A small system

    Start-up on a machine with forty free pages, where the first process is
    scheduled, forks, and waits for its child; concrete states on which the
    theorems about processes are exercised. *)

(** The symbol of the checked-in build, [kernel/kernel.sym]. *)
#[export] Instance xv6_symbols : Symbols := {| forkret_addr := 0x800011cc |}.

Definition pd_boot : phys := state_or boot0 (freerange_loop 40 demo_base (demo_base + 40 * PGSIZE) [] boot0).
Definition pd_free : list Z := rev (range_pages demo_base 40).

Definition slept {S A} (d : S) (o : outcome S A) : S := match o with Sleep _ s _ => s | _ => d end.

(** A computation switched away. *)
Definition switches {S A} (o : outcome S A) : bool :=
  match o with Sleep c _ _ => bool_decide (c = ch_cpu) | _ => false end.

(** After start-up, with process 1 running, after its [fork], asleep in [wait]. *)
Definition pd0 : psys := state_or (boot_table pd_boot) (start [] (boot_table pd_boot)).
Definition pd1 : psys := slept pd0 (scheduler_loop 0 false [1] [] pd0).
Definition pd2 : psys := state_or pd1 (fork 1 [] pd1).
Definition pd3 : psys := slept pd2 (wait 1 1 0 [] pd2).

Lemma switches_eq {S A} (d : S) (o : outcome S A) : switches o = true -> exists k, o = Sleep ch_cpu (slept d o) k.
Proof. destruct o; cbn; try discriminate. intros E. apply bool_decide_eq_true in E. subst. eauto. Qed.

Lemma pd_pool : pool pd_boot pd_free /\ (12 <= length pd_free)%nat.
Proof.
  destruct (freerange_loop_spec 40 40 demo_base (demo_base + 40 * PGSIZE) [] boot0 []) as (s & E & Hk & Esp & Enf).
  - split_and!; [reflexivity | constructor | constructor].
  - apply not_elem_of_nil.
  - split; vm_compute; congruence.
  - lia.
  - repeat constructor; vm_compute; congruence.
  - intros x _. apply not_elem_of_nil.
  - unfold pd_boot. rewrite E. cbn [state_or]. rewrite app_nil_r in Hk. split; [| vm_compute; lia]. split; auto.
    + unfold super_inv, super_free. rewrite Esp, Enf. split_and!; auto; first [constructor | vm_compute; congruence].
    + intros q Hq. unfold pd_free in Hq. rewrite <- Permutation_rev in Hq. apply elem_of_range_pages in Hq as (i & Hi & ->).
      assert (demo_base + PGSIZE * 41 <= pool_base) by (vm_compute; congruence). unfold PGSIZE in *. lia.
Qed.

Lemma pd_start : start [] (boot_table pd_boot) = Ret tt [] pd0 /\ life_inv (Life pd0 (fun _ => Runs)).
Proof.
  destruct pd_pool as [Hp Hl]. destruct (start_run pd_boot pd_free Hp Hl) as (s & E & Hi & _).
  unfold pd0. rewrite E. auto.
Qed.

Lemma pd_schedule : life_step (Life pd0 (fun _ => Runs)) (Life pd1 (fun _ => Runs)).
Proof.
  destruct (switches_eq pd0 (scheduler_loop 0 false [1] [] pd0)) as [k E]; [vm_compute; reflexivity |].
  refine (step_schedule (Life pd0 (fun _ => Runs)) 0 1 pd1 k _ E). apply elem_of_seqZ. unfold NPROC. lia.
Qed.


(** The first process runs, and forks process 2. *)
Lemma pd_inv1 : life_inv (Life pd1 (fun _ => Runs)).
Proof. exact (life_step_inv _ _ (proj2 pd_start) pd_schedule). Qed.

Lemma pd_running : 1 ∈ all_procs /\ 2 ∈ all_procs /\ state (procs pd1 1) = RUNNING.
Proof. split_and!; [apply elem_of_seqZ; unfold NPROC; lia .. | vm_compute; reflexivity]. Qed.

Lemma value_of_eq {S A} (d : S) (o : outcome S A) a : value_of o = Some a -> exists h, o = Ret a h (state_or d o).
Proof. destruct o; cbn; try discriminate. intros [= ->]. eauto. Qed.

Lemma pd_fork : fork 1 [] pd1 = Ret 2 [] pd2.
Proof.
  destruct (value_of_eq pd1 (fork 1 [] pd1) 2) as [h E]; [vm_compute; reflexivity |].
  enough (h = []) as -> by exact E.
  enough (Hh : match fork 1 [] pd1 with Ret _ h _ => h | _ => [] end = []) by now rewrite E in Hh.
  vm_compute. reflexivity.
Qed.

Lemma pd_reach2 : reachable (Life pd2 (fun _ => Runs)).
Proof.
  destruct pd_pool as [Hp Hl]. exists pd_boot, pd_free, pd0. split; [exact Hp |]. split; [exact Hl |]. split; [exact (proj1 pd_start) |].
  refine (run_step _ (Life pd1 (fun _ => Runs)) _ (run_step _ _ _ (run_refl _) pd_schedule) _).
  destruct pd_running as (H1 & _ & Hr).
  refine (step_fork (Life pd1 (fun _ => Runs)) 1 2 pd2 _ _ pd_fork); [exact (conj H1 (conj Hr eq_refl)) | vm_compute; reflexivity].
Qed.

(** Process 1 waits for process 2. *)
Lemma wait_switches s t p : runs_on_cpu (Life s t) p Runs -> switches (wait p 1 0 [] s) = true ->
  life_step (Life s t) (Life (slept s (wait p 1 0 [] s)) (set_thr p (InWait 0) t)).
Proof.
  intros Hr Hw. destruct (switches_eq s _ Hw) as [k Ek]. apply (step_wait (Life s t) p 0); [exact Hr | lia |].
  cbn [tab thr]. rewrite Ek at 1. constructor.
Qed.

Lemma pd_reach3 : reachable (Life pd3 (set_thr 1 (InWait 0) (fun _ => Runs))).
Proof.
  destruct pd_reach2 as (x & l & s & Hp & Hl & E & Hr). exists x, l, s. split; [exact Hp |]. split; [exact Hl |]. split; [exact E |].
  refine (run_step _ _ _ Hr _). apply wait_switches; [| vm_compute; reflexivity].
  split; [apply pd_running | split; [vm_compute; reflexivity | exact eq_refl]].
Qed.

#[global] Opaque pd0 pd1 pd2 pd3.
