(* ===== verification/ProcSpec.v ===== *)
(** * What the process code promises

    The theorems about kernel/proc.c, in terms of what programs see: the
    system after [procinit] and [userinit] and every system it reaches, the
    memory that processes read, and what [fork] and [growproc] do to it. *)

From S2P Require Import Prelude KMonad Riscv Mem Printf Kalloc KallocSafety Vm VmTable VmMap VmUnmap VmAlloc VmCopy VmFree Proc ProcFile ProcMem ProcSpace ProcRun ProcFork ProcTable ProcLife ProcBoot VmDemo.

Section spec.
Context `{LayoutOk} `{!PoolAbove} `{Symbols}.

(** [userinit] succeeds when there are a dozen free pages, and builds a
    first process that is RUNNABLE with pid 1, starts at address 0 with the
    stack at the end of its page, and reads [initcode] there. *)
Theorem userinit_spec x l : pool x l -> (12 <= length l)%nat ->
  exists s, start [] (boot_table x) = Ret tt [] s /\
    let p := procs s (initproc s) in
    state p = RUNNABLE /\ pid p = 1 /\ sz p = PGSIZE /\
    (forall va, 0 <= va < PGSIZE -> user_read (mem (ph s)) (pagetable p) va = Some (nthZ 0 initcode va, Z.lor rwxu PTE_V)) /\
    load64 (mem (ph s)) (trapframe p + TF_epc) = 0 /\ load64 (mem (ph s)) (trapframe p + TF_sp) = PGSIZE.
Proof. intros Hp Hl. destruct (start_run x l Hp Hl) as (s & E & _ & Hi). eauto. Qed.

(** C14: While processes fork, exit, wait, sleep, yield, grow and are killed, in
    whatever order the scheduler runs them, and as long as pids stay below
    2^31 - 1, the process table is a tree of living processes: the first process
    never dies, from every process in use the parents lead to the first one, every
    parent can still run to reap its children, pids of processes in use are positive
    and distinct, and exactly the processes past [exit] are zombies. *)
Theorem process_table_invariant y : reachable y ->
  let f := procs (tab y) in let init := initproc (tab y) in
  alive (f init) /\
  (forall p, p ∈ all_procs -> state (f p) <> UNUSED -> p <> init -> parent (f p) ∈ all_procs /\ alive (f (parent (f p)))) /\
  (forall p, p ∈ all_procs -> state (f p) <> UNUSED -> rtc (fun x z => x ∈ all_procs /\ parent (f x) = z) p init) /\
  (forall p, p ∈ all_procs -> state (f p) <> UNUSED -> 0 < pid (f p) < nextpid (tab y)) /\
  (forall p q, p ∈ all_procs -> q ∈ all_procs -> state (f p) <> UNUSED -> state (f q) <> UNUSED -> pid (f p) = pid (f q) -> p = q) /\
  (forall p, p ∈ all_procs -> state (f p) = ZOMBIE <-> thr y p = Gone).
Proof.
  intros Hr. destruct (reachable_life y Hr) as [_ Ht]. cbv zeta. split_and!.
  - apply (ti_init _ _ _ _ Ht).
  - apply (ti_parent _ _ _ _ Ht).
  - apply (ti_tree _ _ _ _ Ht).
  - apply (ti_pid _ _ _ _ Ht).
  - apply (ti_pids _ _ _ _ Ht).
  - apply (ti_zombie _ _ _ _ Ht).
Qed.

(** C13: No wakeup of [wait] is lost: a process that sleeps in [wait] has a
    child, and none of its children is a zombie, whatever the order of [exit],
    [wait], [wakeup] and [kill] was. *)
Theorem wait_no_lost_wakeup y p : reachable y -> p ∈ all_procs -> sleeps_on (ch_proc p) (procs (tab y) p) ->
  (exists q, q ∈ all_procs /\ parent (procs (tab y) q) = p) /\
  (forall q, q ∈ all_procs -> parent (procs (tab y) q) = p -> state (procs (tab y) q) <> ZOMBIE).
Proof.
  intros Hr Hp Hs. destruct (reachable_life y Hr) as [_ Ht]. destruct (ti_wait _ _ _ _ Ht p Hp Hs). split; auto.
Qed.

(** Where a process's addresses lead. *)
Lemma space_target m a va pa f : space m a -> 0 <= va < PGROUNDUP (as_sz a) -> sv39_translate m (as_root a) va = Some (pa, f) ->
  exists q lv, (lv <= 1)%nat /\ q <= pa < q + tsize lv /\ (if lv is O then uses a q else uses_super a q).
Proof.
  intros Hsp Hva E. destruct (region_lookup _ _ _ _ _ va (sp_region _ _ Hsp) Hva) as (v & lv & Ev & Hlv & Hin).
  destruct (sp_enc _ _ Hsp va v lv Hva Ev) as (q & perm & -> & Hq & Hal & Hp). pose proof Hq as [Hq1 Hq2].
  rewrite PTE2PA_mkpte in Hin by (auto; apply Hp).
  rewrite (translate_mkpte _ _ _ q perm lv Hq Hp) in E; [| now rewrite <- tsize_shift | exact Ev]. injection E as <- <-.
  rewrite <- tsize_shift by exact Hlv. pose proof (tsize_pos lv).
  assert (0 <= va mod tsize lv < tsize lv) by (apply Z.mod_pos_bound; unfold PGSIZE in *; lia).
  exists q, lv. split_and!; auto; [lia.. |]. destruct lv as [|lv]; [right; right; now apply elem_of_smalls | now apply elem_of_supers in Hin].
Qed.

(** User mode reaches addresses of the memory of its process only. *)
Lemma space_user_below m a va pa f : space m a -> owns a -> 0 <= va < 2 ^ 39 -> sv39_translate m (as_root a) va = Some (pa, f) ->
  va < PGROUNDUP (as_sz a) \/ flag f PTE_U = true -> 0 <= va < PGROUNDUP (as_sz a).
Proof.
  intros Hsp Ho Hva E [? | Hu]; [lia |]. destruct (Z.lt_ge_cases va (PGROUNDUP (as_sz a))) as [| Hge]; [lia | exfalso]. unfold sv39_translate in E.
  destruct (pt_lookup 2 m (as_root a) va) as [[v lv]|] eqn:El; [| discriminate].
  assert (Hv : flag v PTE_U = true).
  { destruct (flag v PTE_W && negb (flag v PTE_R)); [discriminate |]. destruct (negb (PTE2PA v mod _ =? 0)); [discriminate |].
    injection E as _ <-. now rewrite flag_PTE_FLAGS in Hu by (split; vm_compute; congruence). }
  destruct (Z.lt_ge_cases va MAXVA) as [Hlt | Hge']; [| rewrite (sp_none _ _ Hsp) in El by lia; discriminate].
  pose proof (space_user_mapped m a va v lv Hsp Ho (conj (proj1 Hva) Hlt) El Hv). lia.
Qed.

(** C11: While processes fork, exit, wait, sleep, yield, are killed, store to
    their memory, and grow or shrink (where a superpage is not cut; there is no
    [exec]), no two of them share memory: of the addresses below the sizes of two
    different processes, and of all addresses at which they have user pages, none
    of the one translates to the same physical byte as one of the other. *)
Theorem process_isolation y p q va va' pa pa' f f' : reachable y ->
  p ∈ all_procs -> q ∈ all_procs -> p <> q ->
  state (procs (tab y) p) <> UNUSED -> state (procs (tab y) q) <> UNUSED ->
  let m := mem (ph (tab y)) in
  0 <= va < 2 ^ 39 -> 0 <= va' < 2 ^ 39 ->
  sv39_translate m (pagetable (procs (tab y) p)) va = Some (pa, f) ->
  sv39_translate m (pagetable (procs (tab y) q)) va' = Some (pa', f') ->
  va < PGROUNDUP (sz (procs (tab y) p)) \/ flag f PTE_U = true ->
  va' < PGROUNDUP (sz (procs (tab y) q)) \/ flag f' PTE_U = true -> pa <> pa'.
Proof.
  intros Hr Hp Hq Hne Hup Huq m Hva Hva' E E' Hu Hu' ->. destruct (reachable_life y Hr) as [(l & A & Hs) _].
  destruct (proj1 (so_used _ _ _ Hs p Hp) Hup) as [a Ha]. destruct (proj1 (so_used _ _ _ Hs q Hq) Huq) as [b Hb].
  destruct (so_space _ _ _ Hs p a Ha) as (_ & Er & Ez). destruct (so_space _ _ _ Hs q b Hb) as (_ & Er' & Ez').
  destruct (pm_space _ _ _ (so_mem _ _ _ Hs) p a Ha) as (Hsa & Hoa & _). destruct (pm_space _ _ _ (so_mem _ _ _ Hs) q b Hb) as (Hsb & Hob & _).
  destruct (pm_disj _ _ _ (so_mem _ _ _ Hs) p q a b Ha Hb Hne) as [Hd Hds].
  rewrite <- Er in E. rewrite <- Er' in E'. rewrite <- Ez in Hu. rewrite <- Ez' in Hu'.
  destruct (space_target m a va pa' f Hsa (space_user_below _ _ _ _ _ Hsa Hoa Hva E Hu) E) as (c & lv & Hlv & Hc & Huc).
  destruct (space_target m b va' pa' f' Hsb (space_user_below _ _ _ _ _ Hsb Hob Hva' E' Hu') E') as (d & lw & Hlw & Hdc & Hud).
  destruct lv as [|lv], lw as [|lw]; cbn [tsize] in Hc, Hdc.
  - assert (c <> d) by (intros ->; now apply (Hd d)). destruct (ow_ok _ Hoa c Huc) as [Hc1 _]. destruct (ow_ok _ Hob d Hud) as [Hd1 _].
    destruct (page_ok_disjoint c d); auto; lia.
  - destruct (ow_ok _ Hoa c Huc) as [_ Hc1]. pose proof (superpage_above d (ow_super _ Hob d Hud)). lia.
  - destruct (ow_ok _ Hob d Hud) as [_ Hd1]. pose proof (superpage_above c (ow_super _ Hoa c Huc)). lia.
  - assert (c <> d) by (intros ->; now apply (Hds d)). destruct (superpage_disjoint c d); auto; [now apply (ow_super _ Hoa) | now apply (ow_super _ Hob) | lia ..].
Qed.

Section fork.
Context {K : Type} `{FileLaws K}.

(** C12: [fork] makes a copy of the calling process: the child is RUNNABLE with
    a new pid, the caller as parent, the caller's open files, and memory of its
    own that reads exactly as the caller's; its registers are the caller's but
    for [a0], which is 0.  No other process changes and what they read stays,
    and one reference is made to each open file and to the directory.
    Or [fork] returns -1, and every process, its memory and the set of free
    pages are as before. *)
Theorem fork_spec (k : K) h l A me a : let s := ps k in let p := procs s me in
  sys_ok s l A -> A !! me = Some a -> locks_free h -> ftable_lock ∉ h -> itable_lock ∉ h ->
  can_dup k (open_files (ofile p) (seqZ 0 NOFILE)) [pcwd p] ->
  (exists np k' l' b, fork me h k = Ret (nextpid s) h k' /\ np ∈ all_procs /\ state (procs s np) = UNUSED /\
     sys_ok (ps k') l' (<[np := b]> A) /\
     let c := procs (ps k') np in let m := mem (ph s) in let m' := mem (ph (ps k')) in
     state c = RUNNABLE /\ pid c = nextpid s /\ parent c = me /\ sz c = sz p /\ pcwd c = pcwd p /\
     (ofile (procs s np) = no_files -> length (ofile p) = Z.to_nat NOFILE -> ofile c = ofile p) /\
     (forall va, 0 <= va < PGROUNDUP (sz p) -> user_read m' (pagetable c) va = user_read m (pagetable p) va) /\
     load64 m' (trapframe c + TF_a0) = 0 /\
     (forall off, 0 <= off -> off + 8 <= TF_SIZE -> off + 8 <= TF_a0 \/ TF_a0 + 8 <= off ->
        load64 m' (trapframe c + off) = load64 m (trapframe p + off)) /\
     (forall q, q <> np -> procs (ps k') q = procs s q) /\
     (forall q x va, A !! q = Some x -> 0 <= va < 2 ^ 39 ->
        user_read m' (pagetable (procs s q)) va = user_read m (pagetable (procs s q)) va) /\
     dupped k k' (open_files (ofile p) (seqZ 0 NOFILE)) [pcwd p]) \/
  (exists k' l', fork me h k = Ret (-1) h k' /\ sys_ok (ps k') l' A /\ (forall q, q ∈ l' <-> q ∈ l) /\
     (forall q, state (procs s q) <> UNUSED -> procs (ps k') q = procs s q) /\
     (forall q x va, A !! q = Some x -> 0 <= va < 2 ^ 39 ->
        user_read (mem (ph (ps k'))) (pagetable (procs s q)) va = user_read (mem (ph s)) (pagetable (procs s q)) va) /\
     dupped k k' [] []).
Proof.
  intros s p Hs Ha Hh Hft Hit Hdup. destruct (so_space _ _ _ Hs me a Ha) as (Et & Er & Ez). fold p in Et, Er, Ez.
  destruct (fork_run k h l A me a Hs Ha Hh Hft Hit Hdup)
    as [(np & tf & r & O & fs & x & l' & k' & E & Hf) | (k' & l' & E & Hf & Hd)]; [left | right].
  - destruct (fk_slot _ _ _ _ _ _ _ _ _ _ _ _ _ Hf) as (Hnp & HA & Hu). pose proof (fk_ps _ _ _ _ _ _ _ _ _ _ _ _ _ Hf) as Hps.
    pose proof (fk_moves _ _ _ _ _ _ _ _ _ _ _ _ _ Hf) as Hmv. set (b := AS tf r (as_sz a) O fs) in *.
    destruct (moves_pmem _ _ _ np _ _ _ (so_mem _ _ _ Hs) Hmv) as [_ Hrd].
    exists np, k', l', b. rewrite Hps. cbn zeta. rewrite !procs_upd_eq. change (ph (upd_proc np _ _)) with x.
    cbn [set_nextpid set_ph procs]. split_and!; auto.
    + apply (sys_ok_update s l A np _ _ x l' (Some b)); auto; [| discriminate | cbn; split; [eauto | discriminate]].
      intros c [= <-]. cbn. auto.
    + intros Hn Hl. cbn. unfold s in Hn. rewrite Hn. now apply dup_ofile_all.
    + intros va Hva. rewrite <- Ez in Hva. rewrite <- Er. exact (fk_read _ _ _ _ _ _ _ _ _ _ _ _ _ Hf va Hva).
    + apply Hf.
    + rewrite <- Et. apply Hf.
    + intros q Hq. rewrite procs_upd_ne by auto. reflexivity.
    + intros q y va Hy Hva. destruct (so_space _ _ _ Hs q y Hy) as (_ & <- & _). apply (Hrd q y va Hy); [congruence | auto].
    + exact (fk_refs _ _ _ _ _ _ _ _ _ _ _ _ _ Hf).
  - exists k', l'. pose proof (af_moves _ _ _ _ _ Hf) as Hmv. split_and!; auto; try apply Hf.
    + intros q. rewrite <- !avail_none. apply Hmv.
    + intros q y va Hy Hva. destruct (so_space _ _ _ Hs q y Hy) as (_ & <- & _).
      pose (n := fresh (dom (D := gset Z) A)). assert (Hn : A !! n = None) by (apply not_elem_of_dom; apply is_fresh).
      rewrite <- Hn in Hmv at 1. destruct (moves_pmem _ _ _ n _ _ _ (so_mem _ _ _ Hs) Hmv) as [_ Hrd]. apply (Hrd q y va Hy); [congruence | auto].
Qed.

End fork.

(** [growproc] changes the size of a process and nothing else: below the
    smaller of the two sizes the process reads what it read, new memory reads
    zero, nothing is mapped between the new size and the trap frame, and no
    other process sees a difference; when memory runs out it returns -1 and
    everything reads as before.  A reduction has to end at a page or superpage
    of the process, and growing can still hit the panic of [supermappages] on a
    table left by an earlier reduction. *)
Theorem growproc_spec s h l A me a n : sys_ok s l A -> A !! me = Some a -> me ∈ all_procs ->
  kmem_lock ∉ h -> supermem_lock ∉ h -> - 2 ^ 31 <= n < 2 ^ 31 -> (n < 0 -> 0 <= as_sz a + n -> clean_cut a (as_sz a + n)) ->
  let p := procs s me in let new := new_size (sz p) n in
  let same_others x := forall q b va, A !! q = Some b -> q <> me -> 0 <= va < 2 ^ 39 ->
    user_read (mem x) (pagetable (procs s q)) va = user_read (mem (ph s)) (pagetable (procs s q)) va in
  (exists x l' b, let s' := upd_proc me (set_sz new) (set_ph x s) in
     growproc me n h s = Ret 0 h s' /\ sys_ok s' l' (<[me := b]> A) /\
     (forall va, 0 <= va < PGROUNDUP (Z.min (sz p) new) -> user_read (mem x) (pagetable p) va = user_read (mem (ph s)) (pagetable p) va) /\
     (forall va, PGROUNDUP (sz p) <= va < PGROUNDUP new -> exists f, user_read (mem x) (pagetable p) va = Some (0, f)) /\
     (forall va, PGROUNDUP new <= va < TRAPFRAME -> user_read (mem x) (pagetable p) va = None) /\ same_others x) \/
  (0 < n /\ exists x l' b, growproc me n h s = Ret (-1) h (set_ph x s) /\ sys_ok (set_ph x s) l' (<[me := b]> A) /\
     (forall va, 0 <= va < PGROUNDUP (sz p) -> user_read (mem x) (pagetable p) va = user_read (mem (ph s)) (pagetable p) va) /\
     same_others x) \/
  (0 < n /\ growproc me n h s = Panic "supermappages: remap").
Proof.
  intros Hs Ha Hme Hk Hsk Hn Hcut p new same_others. destruct (so_space _ _ _ Hs me a Ha) as (_ & Er & Ez). fold p in Er, Ez.
  assert (Ho : forall x l' b, moves (ph s) l (Some a) x l' (Some b) -> same_others x).
  { intros x l' b Hmv q c va Hc Hq Hva. destruct (so_space _ _ _ Hs q c Hc) as (_ & <- & _). rewrite <- Ha in Hmv.
    destruct (moves_pmem _ _ _ me _ _ _ (so_mem _ _ _ Hs) Hmv) as [_ Hrd]. now apply (Hrd q c va Hc). }
  pose proof (growproc_run s h l A me a n Hs Ha Hme Hk Hsk Hn Hcut) as Hg. cbn zeta in Hg. rewrite Ez, Er in Hg. fold p new in Hg.
  destruct Hg as [(x & l' & b & E & Eb & Erb & Hmv & Hs' & [Hke _] & Hz) | [(Hp & x & l' & b & E & _ & _ & Hmv & Hs' & [Hke _]) | Hp]];
    [left | right; left | right; right; exact Hp].
  - exists x, l', b. cbn zeta. split_and!; eauto.
    + rewrite <- Er, <- Ez in *. exact Hke.
    + intros va Hva. apply pt_lookup_none_read. destruct (mi_space _ _ _ (mv_mine _ _ _ _ _ _ Hmv) b eq_refl) as (Hsp & _).
      rewrite <- Erb. pose proof top_range. destruct (MAXSZ_top (as_sz b) (sp_size _ _ Hsp)) as (_ & _ & _ & Hle). pose proof (sp_size _ _ Hsp).
      apply (sp_none _ _ Hsp); rewrite ?Eb in *; lia.
  - split; [exact Hp |]. exists x, l', b. split_and!; eauto. rewrite <- Er, <- Ez in *. exact Hke.
Qed.

(** C15: [kill(0)] succeeds and marks the first UNUSED slot as killed, and the
    mark stays: the next [fork] returns a child that is killed already. *)
Theorem kill_zero_poisons_fork s t p r s1 n s2 : life_inv (Life s t) -> p ∈ all_procs -> state (procs s p) = RUNNING ->
  nextpid s < 2 ^ 31 - 1 -> kill 0 [] s = Ret r [] s1 -> fork p [] s1 = Ret n [] s2 -> 0 < n ->
  r = 0 /\ exists np, np ∈ all_procs /\ state (procs s2 np) = RUNNABLE /\ pid (procs s2 np) = n /\ pkilled (procs s2 np) = 1.
Proof.
  intros Hi Hp Hr Hnx Ek Ef Hn. pose proof (inv_kill s t 0 r s1 Hi Ek) as Hi1. destruct Hi as [_ Ht]. cbn [tab thr] in Ht.
  assert (Hpu : forall q, q ∈ all_procs -> pid (procs s q) = 0 <-> state (procs s q) = UNUSED).
  { intros q Hq. destruct (decide (state (procs s q) = UNUSED)) as [Hu | Hu]; [destruct (ti_unused _ _ _ _ Ht q Hq Hu); tauto |].
    pose proof (ti_pid _ _ _ _ Ht q Hq Hu). split; [lia | tauto]. }
  assert (Hr1 : state (procs s1 p) = RUNNING /\ ((r = 0 /\ exists q, first (fun q => pid (procs s q) = 0) all_procs q /\ s1 = upd_proc q kill_proc s) \/
    (s1 = s /\ Forall (fun q => pid (procs s q) <> 0) all_procs))).
  { unfold kill in Ek. destruct (kill_loop_run 0 [] s ltac:(intros q; apply not_elem_of_nil) all_procs) as [(q & Hq & E) | [Hq E]];
      rewrite E in Ek; injection Ek as <- <-; [| auto]. split; [| left; eauto]. cbn. destruct (Z.eqb_spec p q) as [-> |]; [| exact Hr].
    unfold kill_proc. now rewrite decide_False by congruence. }
  destruct Hr1 as [Hr1 Hcase]. destruct (inv_space s1 t p Hi1 Hp Hr1) as (l & A & a & Hs & HA).
  destruct (fork_run (K := psys) (H3 := table_files) (H4 := table_file_laws) s1 [] l A p a Hs HA locks_free_nil (not_elem_of_nil _) (not_elem_of_nil _) I)
    as [(np & tf & rt & O' & fs & x & l' & k' & E' & Hf) | (k' & l' & E' & _)]; rewrite E' in Ef; [| injection Ef as <- _; lia].
  injection Ef as En <-. pose proof (fk_ps _ _ _ _ _ _ _ _ _ _ _ _ _ Hf) as Hps. pose proof (fk_first _ _ _ _ _ _ _ _ _ _ _ _ _ Hf) as Hfst.
  destruct (fk_slot _ _ _ _ _ _ _ _ _ _ _ _ _ Hf) as (Hnp & _ & Hu). cbn [ps table_files] in *.
  destruct Hcase as [[-> (q & Hq & ->)] | [-> Hno]].
  2: { exfalso. rewrite Forall_forall in Hno. apply (Hno np Hnp), Hpu; auto. }
  pose proof (first_elem _ _ _ Hq) as Hqa. assert (Huq : state (procs s q) = UNUSED) by (apply Hpu; [auto | apply Hq]).
  assert (np = q).
  { symmetry. refine (first_unique _ _ all_procs q np _ Hq Hfst). intros z Hz. rewrite Hpu by auto. cbn.
    destruct (Z.eqb_spec z q) as [-> |]; [| reflexivity]. unfold kill_proc. now rewrite decide_False by congruence. }
  subst np. split; [reflexivity |]. exists q. rewrite Hps, procs_upd_eq. cbn [procs set_nextpid set_ph]. rewrite procs_upd_eq.
  split_and!; auto. cbn. unfold kill_proc. now rewrite decide_False by congruence.
Qed.

End spec.

(** ** The theorems on the small system *)

Lemma userinit_spec_witness : exists s, start [] (boot_table pd_boot) = Ret tt [] s /\ pid (procs s (initproc s)) = 1.
Proof.
  destruct pd_pool as [Hp Hl]. destruct (userinit_spec pd_boot pd_free Hp Hl) as (s & E & _ & Hpid & _).
  exists s. split; [exact E | exact Hpid].
Defined.

Lemma process_table_invariant_witness : alive (procs pd3 (initproc pd3)).
Proof. destruct (process_table_invariant _ pd_reach3) as [Hi _]. exact Hi. Defined.

Lemma pd3_waits : sleeps_on (ch_proc 1) (procs pd3 1).
Proof. split; vm_compute; reflexivity. Qed.

Lemma wait_no_lost_wakeup_witness : exists q, q ∈ all_procs /\ parent (procs pd3 q) = 1.
Proof. destruct (wait_no_lost_wakeup _ 1 pd_reach3 (proj1 pd_running) pd3_waits) as [Hc _]. exact Hc. Defined.

Lemma process_isolation_witness : 2148675584 <> 2148646912.
Proof.
  refine (process_isolation _ 1 2 0 0 2148675584 2148646912 31 31 pd_reach2 (proj1 pd_running) (proj1 (proj2 pd_running)) _ _ _ _ _ _ _ _ _).
  - intros E. discriminate E.
  - vm_compute. intros E. discriminate E.
  - vm_compute. intros E. discriminate E.
  - split; [lia | reflexivity].
  - split; [lia | reflexivity].
  - vm_compute. reflexivity.
  - vm_compute. reflexivity.
  - left. vm_compute. reflexivity.
  - right. reflexivity.
Defined.

Lemma pd_space : exists l A a, sys_ok pd1 l A /\ A !! 1 = Some a.
Proof. exact (inv_space pd1 _ 1 pd_inv1 (proj1 pd_running) (proj2 (proj2 pd_running))). Qed.

Lemma fork_spec_witness : exists r s', fork 1 [] pd1 = Ret r [] s'.
Proof.
  destruct pd_space as (l & A & a & Hs & Ha).
  destruct (fork_spec (K := psys) (H3 := table_files) (H4 := table_file_laws) pd1 [] l A 1 a Hs Ha locks_free_nil
    (not_elem_of_nil _) (not_elem_of_nil _) I) as [(np & s' & _ & _ & E & _) | (s' & _ & E & _)].
  - exact (ex_intro _ _ (ex_intro _ _ E)).
  - exact (ex_intro _ _ (ex_intro _ _ E)).
Defined.

Lemma growproc_spec_witness : growproc 1 4096 [] pd1 = Panic "supermappages: remap" \/ exists r s', growproc 1 4096 [] pd1 = Ret r [] s'.
Proof.
  destruct pd_space as (l & A & a & Hs & Ha).
  destruct (growproc_spec pd1 [] l A 1 a 4096 Hs Ha (proj1 pd_running) (not_elem_of_nil _) (not_elem_of_nil _) ltac:(lia) ltac:(intros; lia))
    as [(x & _ & _ & E & _) | [(_ & x & _ & _ & E & _) | (_ & E)]].
  - right. exact (ex_intro _ _ (ex_intro _ _ E)).
  - right. exact (ex_intro _ _ (ex_intro _ _ E)).
  - left. exact E.
Defined.

(** [kill(0)] and then [fork]. *)
Definition pd4 : psys := state_or pd1 (kill 0 [] pd1).
Definition pd5 : psys := state_or pd4 (fork 1 [] pd4).

Lemma value_locks {S A} (d : S) (o : outcome S A) a h :
  match o with Ret b g _ => b = a /\ g = h | _ => False end -> o = Ret a h (state_or d o).
Proof. destruct o; cbn; try tauto. intros [-> ->]. reflexivity. Qed.

Lemma pd_kill : kill 0 [] pd1 = Ret 0 [] pd4 /\ fork 1 [] pd4 = Ret 2 [] pd5.
Proof. split; apply value_locks; vm_compute; split; reflexivity. Qed.

Lemma kill_zero_poisons_fork_witness : exists np, state (procs pd5 np) = RUNNABLE /\ pid (procs pd5 np) = 2 /\ pkilled (procs pd5 np) = 1.
Proof.
  destruct (kill_zero_poisons_fork pd1 (fun _ => Runs) 1 0 pd4 2 pd5 pd_inv1 (proj1 pd_running) (proj2 (proj2 pd_running)) ltac:(vm_compute; reflexivity)
    (proj1 pd_kill) (proj2 pd_kill) ltac:(lia)) as (_ & np & _ & Hst & Hpid & Hk).
  exists np. split; [exact Hst | split; [exact Hpid | exact Hk]].
Defined.
