(* ===== verification/Trace.v ===== *)
(** * Traces and crashes

    What a computation emits before it returns, and the contents of the disk
    at the points where a crash can happen.  Disk writes are the events
    [EvDiskWrite]; a crash loses memory and keeps the writes made so far.
    Blocks are written atomically. *)

From Stdlib Require Import FunctionalExtensionality.
From S2P Require Import Prelude KMonad.

Definition block := list Z.
Definition disk_t := Z -> block.

Definition dwrite (d : disk_t) (b : Z) (v : block) : disk_t :=
  fun x => if x =? b then v else d x.

Lemma dwrite_eq d b v : dwrite d b v b = v.
Proof. unfold dwrite. now rewrite Z.eqb_refl. Qed.

Lemma dwrite_ne d b v x : x <> b -> dwrite d b v x = d x.
Proof. unfold dwrite. now destruct (Z.eqb_spec x b). Qed.

Lemma bind_ret_r {S A} (m : M S A) : bind m ret = m.
Proof.
  extensionality h. extensionality s. unfold bind.
  induction (m h s) as [| | | |e o IH | c s' k IH]; cbn; auto.
  - now rewrite IH.
  - f_equal. extensionality s''. apply IH.
Qed.

(** ** Emitting a trace *)

Fixpoint emits {S A} (tr : list event) (o : outcome S A) : outcome S A :=
  match tr with
  | [] => o
  | e :: tr' => Emit e (emits tr' o)
  end.

Lemma emits_app {S A} tr tr' (o : outcome S A) :
  emits (tr ++ tr') o = emits tr (emits tr' o).
Proof. induction tr; cbn; congruence. Qed.

Lemma bind_get {S A} (f : S -> M S A) h s : bind get f h s = f s h s.
Proof. reflexivity. Qed.

Lemma sleep_only {T} c l (x : T) : sleep c l [l] x = Sleep c x (fun x' => Ret tt [l] x').
Proof. unfold sleep. rewrite decide_True by left. cbn. now rewrite decide_True. Qed.

Lemma obind_emits {T A B} tr (o : outcome T A) (f : A -> M T B) : obind (emits tr o) f = emits tr (obind o f).
Proof. induction tr; cbn; congruence. Qed.

Lemma bind_emits {S A B} (m : M S A) (f : A -> M S B) h s tr a h' s' :
  m h s = emits tr (Ret a h' s') -> bind m f h s = emits tr (f a h' s').
Proof. intros E. unfold bind. rewrite E. clear. induction tr; cbn; congruence. Qed.

Definition is_end {T A} (o : outcome T A) : Prop := match o with Emit _ _ => False | _ => True end.

Lemma emits_inj {T A} tr : forall tr' (o o' : outcome T A), is_end o -> is_end o' -> emits tr o = emits tr' o' -> tr = tr' /\ o = o'.
Proof.
  induction tr as [|e tr IH]; intros [|e' tr'] o o' Ho Ho' E; cbn in E.
  - auto.
  - subst o. destruct Ho.
  - subst o'. destruct Ho'.
  - injection E as <- E. destruct (IH tr' o o' Ho Ho' E) as [-> ->]. auto.
Qed.

Lemma zoom_emits {S T A} (g : T -> S) (p : S -> T -> T) (m : M S A) h t tr a h' s' :
  m h (g t) = emits tr (Ret a h' s') -> zoom g p m h t = emits tr (Ret a h' (p s' t)).
Proof. intros E. unfold zoom. rewrite E. clear. induction tr; cbn; congruence. Qed.

(** The computation returns [a] in state [s'], with the same locks, having
    emitted [tr]. *)
Definition runs {S A} (m : M S A) (h : locks) (s : S) (tr : list event) (a : A) (s' : S) : Prop :=
  m h s = emits tr (Ret a h s').

Lemma runs_ret {S A} (a : A) h (s : S) : runs (ret a) h s [] a s.
Proof. reflexivity. Qed.

Lemma runs_bind {S A B} (m : M S A) (f : A -> M S B) h s tr a s1 tr' b s2 :
  runs m h s tr a s1 -> runs (f a) h s1 tr' b s2 -> runs (bind m f) h s (tr ++ tr') b s2.
Proof.
  unfold runs. intros H1 H2. now rewrite (bind_emits _ _ _ _ _ _ _ _ H1), H2, emits_app.
Qed.

Lemma runs_zoom {S T A} (g : T -> S) (p : S -> T -> T) (m : M S A) h t tr a s' :
  runs m h (g t) tr a s' -> runs (zoom g p m) h t tr a (p s' t).
Proof. apply zoom_emits. Qed.

Lemma runs_gets {S A B} (g : S -> A) (f : A -> M S B) h s tr b s' :
  runs (f (g s)) h s tr b s' -> runs (bind (gets g) f) h s tr b s'.
Proof. exact id. Qed.

Lemma runs_modify {S B} (g : S -> S) (f : unit -> M S B) h s tr b s' :
  runs (f tt) h (g s) tr b s' -> runs (bind (modify g) f) h s tr b s'.
Proof. exact id. Qed.

Lemma runs_Ret {S A} (m : M S A) h s a s' : m h s = Ret a h s' -> runs m h s [] a s'.
Proof. exact id. Qed.

(** ** The disk writes of a trace *)

Fixpoint writes (tr : list event) : list (Z * block) :=
  match tr with
  | [] => []
  | EvDiskWrite b v :: tr' => (b, v) :: writes tr'
  | _ :: tr' => writes tr'
  end.

Lemma writes_app tr tr' : writes (tr ++ tr') = writes tr ++ writes tr'.
Proof. induction tr as [|[] tr IH]; cbn; rewrite ?IH; reflexivity. Qed.

Fixpoint apply_writes (w : list (Z * block)) (d : disk_t) : disk_t :=
  match w with
  | [] => d
  | (b, v) :: w' => apply_writes w' (dwrite d b v)
  end.

Lemma apply_writes_app w w' d : apply_writes (w ++ w') d = apply_writes w' (apply_writes w d).
Proof. revert d. induction w as [|[b v] w IH]; cbn; auto. Qed.

(** ** Crashes

    [crash o d d']: execution of [o] on a machine whose disk holds [d] can be
    cut off when the disk holds [d'].  A thread that sleeps can be cut off
    there; what other threads write meanwhile is not this thread's. *)
Inductive crash {S A} : outcome S A -> disk_t -> disk_t -> Prop :=
| crash_now o d : crash o d d
| crash_write b v o d d' : crash o (dwrite d b v) d' -> crash (Emit (EvDiskWrite b v) o) d d'
| crash_wakeup c o d d' : crash o d d' -> crash (Emit (EvWakeup c) o) d d'
| crash_putc c o d d' : crash o d d' -> crash (Emit (EvPutc c) o) d d'.

(** The crash points of a computation that returns are the prefixes of its
    writes. *)
Definition crash_points (w : list (Z * block)) (d d' : disk_t) : Prop :=
  exists k, d' = apply_writes (take k w) d.

Lemma crash_emits {S A} tr a h (s : S) (d d' : disk_t) :
  crash (emits tr (Ret (A := A) a h s)) d d' -> crash_points (writes tr) d d'.
Proof.
  revert d. induction tr as [|e tr IH]; cbn; intros d Hc.
  - exists 0%nat. now inversion Hc.
  - inversion Hc; subst.
    + now exists 0%nat.
    + destruct (IH _ H3) as [k ->]. now exists (Datatypes.S k).
    + now apply IH.
    + now apply IH.
Qed.

Lemma crash_points_app w w' d d' :
  crash_points (w ++ w') d d' ->
  crash_points w d d' \/ crash_points w' (apply_writes w d) d'.
Proof.
  intros [k ->]. destruct (decide (k <= length w)%nat).
  - left. exists k. now rewrite take_app_le by lia.
  - right. exists (k - length w)%nat.
    now rewrite take_app_ge, apply_writes_app by lia.
Qed.

Lemma crash_points_one b v d d' :
  crash_points [(b, v)] d d' -> d' = d \/ d' = dwrite d b v.
Proof. intros [[|k] ->]; cbn; [|rewrite take_nil]; auto. Qed.

Lemma crash_points_nil d d' : crash_points [] d d' -> d' = d.
Proof. intros [k ->]. now rewrite take_nil. Qed.

(** ** The contents of a disk block

    A block is a list of [BSIZE] bytes; on-disk structures are read and
    written through little-endian fields at byte offsets. *)

Definition BSIZE : Z := 1024.

(** [n] bytes at offset [off]. *)
Fixpoint get_le (n : nat) (v : block) (off : Z) : Z :=
  match n with
  | O => 0
  | S n' => nthZ 0 v off + 256 * get_le n' v (off + 1)
  end.

Fixpoint put_le (n : nat) (v : block) (off x : Z) : block :=
  match n with
  | O => v
  | S n' => put_le n' (updZ v off (x mod 256)) (off + 1) (x / 256)
  end.

Definition get16 := get_le 2.
Definition get32 := get_le 4.
Definition put16 := put_le 2.
Definition put32 := put_le 4.

Lemma length_put n v off x : length (put_le n v off x) = length v.
Proof. revert v off x. induction n; cbn; intros; auto. now rewrite IHn, length_updZ. Qed.

Lemma nth_put_ne n v off x i :
  0 <= off -> 0 <= i -> i < off \/ off + Z.of_nat n <= i ->
  nthZ 0 (put_le n v off x) i = nthZ 0 v i.
Proof.
  revert v off x. induction n; cbn [put_le]; intros v off x Ho Hi H; auto.
  rewrite IHn by lia. apply nthZ_updZ_ne; lia.
Qed.

Lemma get_ext n v v' off :
  (forall i, off <= i < off + Z.of_nat n -> nthZ 0 v i = nthZ 0 v' i) ->
  get_le n v off = get_le n v' off.
Proof.
  revert off. induction n; cbn [get_le]; intros off H; auto. rewrite (H off) by lia.
  rewrite (IHn (off + 1)); [lia|]. intros i Hi. apply H. lia.
Qed.

Lemma get_put_ne n k v off off' x :
  0 <= off -> 0 <= off' -> off + Z.of_nat n <= off' \/ off' + Z.of_nat k <= off ->
  get_le n (put_le k v off' x) off = get_le n v off.
Proof. intros H1 H2 H3. apply get_ext. intros i Hi. apply nth_put_ne; lia. Qed.

Lemma get_put n v off x :
  0 <= off -> off + Z.of_nat n <= Z.of_nat (length v) ->
  get_le n (put_le n v off x) off = x mod 2 ^ (8 * Z.of_nat n).
Proof.
  revert v off x. induction n; intros v off x Ho Hl.
  { cbn. now rewrite Z.mod_1_r. }
  cbn [get_le put_le]. rewrite IHn by (rewrite ?length_updZ; lia).
  rewrite nth_put_ne, nthZ_updZ_eq by lia.
  replace (8 * Z.of_nat (S n)) with (8 + 8 * Z.of_nat n) by lia.
  rewrite Z.pow_add_r by lia. change (2 ^ 8) with 256.
  rewrite Z.rem_mul_r by (try lia; apply Z.pow_pos_nonneg; lia). reflexivity.
Qed.

Lemma get_range n v off : (forall i, 0 <= nthZ 0 v i < 256) ->
  0 <= get_le n v off < 2 ^ (8 * Z.of_nat n).
Proof.
  intros H. revert off. induction n; intros off; [cbn; lia|]. cbn [get_le].
  specialize (IHn (off + 1)). specialize (H off).
  replace (8 * Z.of_nat (S n)) with (8 + 8 * Z.of_nat n) by lia.
  rewrite Z.pow_add_r by lia. change (2 ^ 8) with 256. lia.
Qed.

(** Signed 16-bit reading. *)
Definition i16 (x : Z) : Z := (x + 2 ^ 15) mod 2 ^ 16 - 2 ^ 15.
