(* ===== verification/Console.v ===== *)
(** * Console and UART (kernel/console.c, kernel/uart.c)

    The input ring of the console, the output ring of the UART, and the
    registers of the UART.  The device is a parameter: reading a register can
    change its state, so that it can act between any two accesses.  Characters
    given to it are also events. *)

From S2P Require Import Prelude KMonad Printf.

(** ** Registers *)

Definition RHR : Z := 0.
Definition THR : Z := 0.
Definition IER : Z := 1.
Definition IER_RX_ENABLE : Z := Z.shiftl 1 0.
Definition IER_TX_ENABLE : Z := Z.shiftl 1 1.
Definition FCR : Z := 2.
Definition FCR_FIFO_ENABLE : Z := Z.shiftl 1 0.
Definition FCR_FIFO_CLEAR : Z := Z.shiftl 3 1.
Definition ISR : Z := 2.
Definition LCR : Z := 3.
Definition LCR_EIGHT_BITS : Z := Z.shiftl 3 0.
Definition LCR_BAUD_LATCH : Z := Z.shiftl 1 7.
Definition LSR : Z := 5.
Definition LSR_RX_READY : Z := Z.shiftl 1 0.
Definition LSR_TX_IDLE : Z := Z.shiftl 1 5.

Definition UART_TX_BUF_SIZE : Z := 32.
Definition INPUT_BUF_SIZE : Z := 128.

(** [C(x)], a control character. *)
Definition Ctrl (x : Z) : Z := x - 64.

Class UartRegs (R : Type) := { ur_read : Z -> R -> Z * R; ur_write : Z -> Z -> R -> R }.

(** What the console uses of the process layer: [either_copyin] and
    [either_copyout] of one byte, whether the running process is killed, and
    [procdump]. *)
Class ConsUser (U : Type) := {
  cu_in : Z -> Z -> U -> option Z;
  cu_out : Z -> Z -> Z -> U -> option U;
  cu_killed : U -> bool;
  cu_dump : M U unit }.

Record con {R U : Type} := Con {
  c_buf : list Z; c_r : Z; c_w : Z; c_e : Z;
  tx_buf : list Z; tx_w : Z; tx_r : Z;
  uregs : R; user : U }.
Arguments con : clear implicits.
Arguments Con {R U}.

Section console.
Context {R U : Type} `{UartRegs R} `{ConsUser U}.
Abbreviation S := (con R U).

Definition set_input (b : list Z) (e : Z) (s : S) : S := Con b (c_r s) (c_w s) e (tx_buf s) (tx_w s) (tx_r s) (uregs s) (user s).
Definition set_c_r (r : Z) (s : S) : S := Con (c_buf s) r (c_w s) (c_e s) (tx_buf s) (tx_w s) (tx_r s) (uregs s) (user s).
Definition set_c_w (w : Z) (s : S) : S := Con (c_buf s) (c_r s) w (c_e s) (tx_buf s) (tx_w s) (tx_r s) (uregs s) (user s).
Definition set_tx (b : list Z) (w r : Z) (s : S) : S := Con (c_buf s) (c_r s) (c_w s) (c_e s) b w r (uregs s) (user s).
Definition set_uregs (r : R) (s : S) : S := Con (c_buf s) (c_r s) (c_w s) (c_e s) (tx_buf s) (tx_w s) (tx_r s) r (user s).
Definition set_user (u : U) (s : S) : S := Con (c_buf s) (c_r s) (c_w s) (c_e s) (tx_buf s) (tx_w s) (tx_r s) (uregs s) u.

Definition ReadReg (reg : Z) : M S Z :=
  fun h s => let x := ur_read reg (uregs s) in Ret (u8 (fst x)) h (set_uregs (snd x) s).
Definition WriteReg (reg v : Z) : M S unit := modify (fun s => set_uregs (ur_write reg (u8 v) (uregs s)) s).

(** ** uart.c *)

Definition uartinit : M S unit :=
  WriteReg IER 0x00;;
  WriteReg LCR LCR_BAUD_LATCH;;
  WriteReg 0 0x03;;
  WriteReg 1 0x00;;
  WriteReg LCR LCR_EIGHT_BITS;;
  WriteReg FCR (Z.lor FCR_FIFO_ENABLE FCR_FIFO_CLEAR);;
  WriteReg IER (Z.lor IER_TX_ENABLE IER_RX_ENABLE);;
  initlock uart_tx_lock.

Fixpoint uartstart_loop (fuel : nat) : M S unit :=
  match fuel with
  | O => out_of_fuel
  | Datatypes.S fuel' =>
      s <- get;;
      if tx_w s =? tx_r s then
        ReadReg ISR;;
        ret tt
      else
        lsr <- ReadReg LSR;;
        if Z.land lsr LSR_TX_IDLE =? 0 then ret tt
        else
          s <- get;;
          let c := nthZ 0 (tx_buf s) (tx_r s mod UART_TX_BUF_SIZE) in
          modify (fun s => set_tx (tx_buf s) (tx_w s) (u64 (tx_r s + 1)) s);;
          wakeup ch_uart_tx_r;;
          WriteReg THR c;;
          emit (EvPutc (u8 c));;
          uartstart_loop fuel'
  end.

(** A ring of 32 bytes is empty after 32 rounds. *)
Definition uartstart : M S unit := uartstart_loop 33.

(** The loop that waits for room; [fuel] bounds the wake-ups. *)
Fixpoint uartputc_wait (fuel : nat) : M S unit :=
  s <- get;;
  if tx_w s =? u64 (tx_r s + UART_TX_BUF_SIZE) then
    match fuel with
    | O => out_of_fuel
    | Datatypes.S fuel' => sleep ch_uart_tx_r uart_tx_lock;; uartputc_wait fuel'
    end
  else ret tt.

(** With [uart_tx_lock] held. *)
Definition uartputc_from (fuel : nat) (c : Z) : M S unit :=
  uartputc_wait fuel;;
  modify (fun s => set_tx (updZ (tx_buf s) (tx_w s mod UART_TX_BUF_SIZE) (u8 c)) (u64 (tx_w s + 1)) (tx_r s) s);;
  uartstart;;
  release uart_tx_lock.

Definition uartputc (fuel : nat) (c : Z) : M S unit :=
  acquire uart_tx_lock;;
  uartputc_from fuel c.

Definition uartgetc : M S Z :=
  lsr <- ReadReg LSR;;
  if negb (Z.land lsr 0x01 =? 0) then ReadReg RHR else ret (-1).

(** ** console.c *)

Definition consolewrite_loop (fuel : nat) (user_src src : Z) : nat -> Z -> M S Z :=
  fix go k i :=
    match k with
    | O => ret i
    | Datatypes.S k' =>
        s <- get;;
        match cu_in user_src (u64 (src + i)) (user s) with
        | None => ret i
        | Some c => uartputc fuel c;; go k' (i + 1)
        end
    end.

Definition consolewrite (fuel : nat) (user_src src n : Z) : M S Z :=
  consolewrite_loop fuel user_src src (Z.to_nat n) 0.

(** The waiting loop of [consoleread]; [true] when the function has returned
    -1. *)
Fixpoint consoleread_wait (fuel : nat) : M S bool :=
  s <- get;;
  if c_r s =? c_w s then
    if cu_killed (user s) then
      release cons_lock;;
      ret true
    else
      match fuel with
      | O => out_of_fuel
      | Datatypes.S fuel' => sleep ch_cons_r cons_lock;; consoleread_wait fuel'
      end
  else ret false.

(** [n] is the number of bytes that are left; the result is its last value, or
    [None] when the function has returned -1.  The first wait has its own
    fuel. *)
Fixpoint consoleread_loop (wfuel fuel : nat) (user_dst dst target : Z) (n : nat) : M S (option nat) :=
  match n with
  | O => ret (Some O)
  | Datatypes.S n' =>
      k <- consoleread_wait wfuel;;
      if (k : bool) then ret None
      else
        s <- get;;
        let c := nthZ 0 (c_buf s) (c_r s mod INPUT_BUF_SIZE) in
        modify (fun s => set_c_r (u32 (c_r s + 1)) s);;
        if c =? Ctrl 68 then
          (if u32 (Z.of_nat n) <? target then modify (fun s => set_c_r (u32 (c_r s - 1)) s) else ret tt);;
          ret (Some n)
        else
          s <- get;;
          match cu_out user_dst dst c (user s) with
          | None => ret (Some n)
          | Some u =>
              modify (set_user u);;
              if c =? 10 then ret (Some n') else consoleread_loop fuel fuel user_dst (u64 (dst + 1)) target n'
          end
  end.

(** With [cons.lock] held. *)
Definition consoleread_from (wfuel fuel : nat) (user_dst dst target : Z) (n : nat) : M S Z :=
  r <- consoleread_loop wfuel fuel user_dst dst target n;;
  match r with
  | None => ret (-1)
  | Some n =>
      release cons_lock;;
      ret (i32 (target - Z.of_nat n))
  end.

Definition consoleread (fuel : nat) (user_dst dst n : Z) : M S Z :=
  acquire cons_lock;;
  if n <=? 0 then
    release cons_lock;;
    ret (i32 (u32 n - n))
  else consoleread_from fuel fuel user_dst dst (u32 n) (Z.to_nat n).

(** [while(cons.e != cons.w && cons.buf[(cons.e-1) % INPUT_BUF_SIZE] != '\n')] *)
Fixpoint kill_line (fuel : nat) : M S unit :=
  s <- get;;
  if negb (c_e s =? c_w s) && negb (nthZ 0 (c_buf s) (u32 (c_e s - 1) mod INPUT_BUF_SIZE) =? 10) then
    match fuel with
    | O => out_of_fuel
    | Datatypes.S fuel' =>
        modify (fun s => set_input (c_buf s) (u32 (c_e s - 1)) s);;
        consputc BACKSPACE;;
        kill_line fuel'
    end
  else ret tt.

(** A character that is no control character of the console. *)
Definition insert_char (c : Z) : M S unit :=
  s <- get;;
  if negb (c =? 0) && (u32 (c_e s - c_r s) <? INPUT_BUF_SIZE) then
    let c := if c =? 13 then 10 else c in
    consputc c;;
    modify (fun s => set_input (updZ (c_buf s) (c_e s mod INPUT_BUF_SIZE) (u8 c)) (u32 (c_e s + 1)) s);;
    s <- get;;
    if (c =? 10) || (c =? Ctrl 68) || (u32 (c_e s - c_r s) =? INPUT_BUF_SIZE) then
      modify (fun s => set_c_w (c_e s) s);;
      wakeup ch_cons_r
    else ret tt
  else ret tt.

Definition consoleintr (c : Z) : M S unit :=
  acquire cons_lock;;
  (if c =? Ctrl 80 then zoom user set_user cu_dump
   else if c =? Ctrl 85 then kill_line (Z.to_nat INPUT_BUF_SIZE)
   else if (c =? Ctrl 72) || (c =? 0x7f) then
     s <- get;;
     if negb (c_e s =? c_w s) then
       modify (fun s => set_input (c_buf s) (u32 (c_e s - 1)) s);;
       consputc BACKSPACE
     else ret tt
   else insert_char c);;
  release cons_lock.

(** [devsw] is with the open files. *)
Definition consoleinit : M S unit :=
  initlock cons_lock;;
  uartinit.

(** ** The interrupt handler of the UART *)

Fixpoint uartintr_input (fuel : nat) : M S unit :=
  match fuel with
  | O => out_of_fuel
  | Datatypes.S fuel' =>
      c <- uartgetc;;
      if c =? -1 then ret tt
      else consoleintr c;; uartintr_input fuel'
  end.

Definition uartintr (fuel : nat) : M S unit :=
  uartintr_input fuel;;
  acquire uart_tx_lock;;
  uartstart;;
  release uart_tx_lock.

End console.
