(* ===== verification/ConsoleRun.v ===== *)
(** * Turns of the console and of the UART *)

From S2P Require Import Prelude KMonad Trace Printf Console.

Section run.
Context {R U : Type} `{UartRegs R} `{ConsUser U}.
Abbreviation S := (con R U).
Implicit Types s : S.

Definition W32 : Z := 2 ^ 32.
Definition W64 : Z := 2 ^ 64.

Lemma W32_ok : 0 < INPUT_BUF_SIZE /\ (INPUT_BUF_SIZE | W32) /\ INPUT_BUF_SIZE < W32.
Proof. unfold INPUT_BUF_SIZE, W32. split_and!; [lia | now exists (2 ^ 25) | lia]. Qed.

Lemma W64_ok : 0 < UART_TX_BUF_SIZE /\ (UART_TX_BUF_SIZE | W64) /\ UART_TX_BUF_SIZE < W64.
Proof. unfold UART_TX_BUF_SIZE, W64. split_and!; [lia | now exists (2 ^ 59) | lia]. Qed.

(** ** Output *)

(** The bytes that wait in the output ring. *)
Definition tx_ring s (q : list Z) : Prop :=
  ring UART_TX_BUF_SIZE W64 (tx_buf s) (tx_r s) (tx_w s) q /\ Forall (fun c => 0 <= c < 256) q.

(** All but the output ring and the registers. *)
Definition same_input s s' : Prop :=
  c_buf s' = c_buf s /\ c_r s' = c_r s /\ c_w s' = c_w s /\ c_e s' = c_e s /\ user s' = user s.

Lemma same_input_refl s : same_input s s.
Proof. repeat split. Qed.

Lemma same_input_trans s1 s2 s3 : same_input s1 s2 -> same_input s2 s3 -> same_input s1 s3.
Proof. unfold same_input. intros (-> & -> & -> & -> & ->). auto. Qed.

Definition sends (l : list Z) : list event := flat_map (fun c => [EvWakeup ch_uart_tx_r; EvPutc c]) l.

(** The last value read from the line status register says that the UART
    cannot take a byte. *)
Definition uart_busy (r : R) : Prop := exists r0, r = snd (ur_read LSR r0) /\ Z.land (u8 (fst (ur_read LSR r0))) LSR_TX_IDLE = 0.

Lemma u8_small x : 0 <= x < 256 -> u8 x = x.
Proof. apply Z.mod_small. Qed.

Lemma bind_ReadReg {A} reg (f : Z -> M S A) h s :
  bind (ReadReg reg) f h s = f (u8 (fst (ur_read reg (uregs s)))) h (set_uregs (snd (ur_read reg (uregs s))) s).
Proof. reflexivity. Qed.

Lemma uartstart_loop_run h fuel : forall s q, tx_ring s q -> (length q < fuel)%nat -> exists n s',
  uartstart_loop fuel h s = emits (sends (take n q)) (Ret tt h s') /\ (n <= length q)%nat /\
  tx_ring s' (drop n q) /\ same_input s s' /\ (drop n q <> [] -> uart_busy (uregs s')).
Proof.
  destruct W64_ok as (HN & HW & HWN).
  induction fuel as [|fuel IH]; intros s q [Hr Hb] Hf; [lia |]. cbn [uartstart_loop]. rewrite bind_get.
  pose proof (ring_empty _ _ HN HWN _ _ _ _ Hr) as He. destruct (Z.eqb_spec (tx_w s) (tx_r s)) as [E | E].
  - apply He in E as ->. rewrite bind_ReadReg. exists O, (set_uregs (snd (ur_read ISR (uregs s))) s).
    split_and!; [reflexivity | lia | split; [exact Hr | exact Hb] | repeat split | now intros []].
  - rewrite bind_ReadReg. set (s1 := set_uregs _ s). destruct (Z.eqb_spec (Z.land (u8 (fst (ur_read LSR (uregs s)))) LSR_TX_IDLE) 0) as [Ei | Ei].
    + exists O, s1. split_and!; [reflexivity | lia | split; [exact Hr | exact Hb] | repeat split |]. intros _. now exists (uregs s).
    + destruct q as [|c q]; [now destruct E; apply He |]. destruct (ring_pop _ _ HN HW HWN _ _ _ _ _ Hr) as [Ec Hr'].
      apply Forall_cons in Hb as [Hc Hb]. rewrite bind_get, bind_modify. unfold wakeup, emit, WriteReg.
      change (nthZ 0 (tx_buf s1) (tx_r s1 mod UART_TX_BUF_SIZE)) with (nthZ 0 (tx_buf s) (tx_r s mod UART_TX_BUF_SIZE)). rewrite Ec.
      set (s2 := set_uregs (ur_write THR c (uregs s1)) (set_tx (tx_buf s1) (tx_w s1) (u64 (tx_r s1 + 1)) s1)).
      destruct (IH s2 q) as (n & s' & Er & Hn & Hr2 & Hs & Hby); [split; [exact Hr' | exact Hb] | cbn in Hf; lia |].
      exists (Datatypes.S n), s'. split_and!; auto; [| cbn; lia].
      cbn [bind obind modify sends take flat_map app emits]. f_equal. rewrite u8_small by exact Hc. f_equal. exact Er.
Qed.

Lemma uartstart_run h s q : tx_ring s q -> exists n s',
  uartstart h s = emits (sends (take n q)) (Ret tt h s') /\ (n <= length q)%nat /\
  tx_ring s' (drop n q) /\ same_input s s' /\ (drop n q <> [] -> uart_busy (uregs s')).
Proof.
  intros Hr. apply uartstart_loop_run; [exact Hr |]. pose proof (rb_room _ _ _ _ _ _ (proj1 Hr)) as Hl. unfold UART_TX_BUF_SIZE in Hl. lia.
Qed.

(** A turn of [uartputc] with its lock held. *)
Inductive put_turn (fuel : nat) (c : Z) s (q : list Z) : outcome S unit -> Prop :=
| put_wait fuel' : fuel = Datatypes.S fuel' -> Z.of_nat (length q) = UART_TX_BUF_SIZE ->
    put_turn fuel c s q (Sleep ch_uart_tx_r s (fun s' => uartputc_from fuel' c [uart_tx_lock] s'))
| put_done n s' : Z.of_nat (length q) < UART_TX_BUF_SIZE -> (n <= length (q ++ [c]))%nat ->
    tx_ring s' (drop n (q ++ [c])) -> same_input s s' -> (drop n (q ++ [c]) <> [] -> uart_busy (uregs s')) ->
    put_turn fuel c s q (emits (sends (take n (q ++ [c]))) (Ret tt [] s')).

Lemma uartputc_turn fuel c s q : tx_ring s q -> 0 <= c < 256 -> (0 < fuel)%nat ->
  put_turn fuel c s q (uartputc_from fuel c [uart_tx_lock] s).
Proof.
  intros Hr Hc Hf. destruct fuel as [|fuel]; [lia |]. destruct W64_ok as (HN & HW & HWN).
  pose proof (ring_full _ _ HN HWN _ _ _ _ (proj1 Hr)) as Hfl. pose proof (rb_room _ _ _ _ _ _ (proj1 Hr)) as Hl.
  unfold uartputc_from. cbn [uartputc_wait]. rewrite bind_bind, bind_get. change (u64 (tx_r s + UART_TX_BUF_SIZE)) with ((tx_r s + UART_TX_BUF_SIZE) mod W64).
  destruct (Z.eqb_spec (tx_w s) ((tx_r s + UART_TX_BUF_SIZE) mod W64)) as [E | E].
  - pose proof (put_wait (Datatypes.S fuel) c s q fuel eq_refl (proj1 Hfl E)) as Ht. unfold bind at 1 2. rewrite sleep_only. exact Ht.
  - assert (Hlt : Z.of_nat (length q) < UART_TX_BUF_SIZE) by (assert (Z.of_nat (length q) <> UART_TX_BUF_SIZE) by (rewrite <- Hfl; exact E); lia).
    rewrite bind_ret, bind_modify, u8_small by exact Hc. set (s1 := set_tx _ _ _ s).
    destruct (uartstart_run [uart_tx_lock] s1 (q ++ [c])) as (n & s' & Er & Hn & Hr' & Hs & Hb).
    { split; [exact (ring_push _ _ HN HW HWN _ _ _ _ c (proj1 Hr) Hlt) |]. apply Forall_app. split; [apply Hr | now constructor]. }
    rewrite (bind_emits _ _ _ _ _ _ _ _ Er), release_top. apply put_done; auto.
Qed.

(** ** Input *)

(** The bytes that readers can take, and the line that is being edited. *)
Record console_rel s (ready line : list Z) : Prop := {
  cr_ring : ring INPUT_BUF_SIZE W32 (c_buf s) (c_r s) (c_e s) (ready ++ line);
  cr_w : c_w s = (c_r s + Z.of_nat (length ready)) mod W32;
  cr_line : 10 ∉ line }.

(** What a typed character does to them. *)
Definition edit (c : Z) (ready line : list Z) : list Z * list Z :=
  if c =? Ctrl 80 then (ready, line)
  else if c =? Ctrl 85 then (ready, [])
  else if (c =? Ctrl 72) || (c =? 0x7f) then (ready, removelast line)
  else if (c =? 0) || (INPUT_BUF_SIZE <=? Z.of_nat (length (ready ++ line))) then (ready, line)
  else
    let line := line ++ [if c =? 13 then 10 else c] in
    if (c =? 13) || (c =? 10) || (c =? Ctrl 68) || (Z.of_nat (length (ready ++ line)) =? INPUT_BUF_SIZE)
    then (ready ++ line, []) else (ready, line).

(** What the terminal shows of it, and the wake-up of readers. *)
Definition rubout : list event := [EvPutc 8; EvPutc 32; EvPutc 8].

Definition echo (c : Z) (ready line : list Z) : list event :=
  if c =? Ctrl 85 then concat (repeat rubout (length line))
  else if (c =? Ctrl 72) || (c =? 0x7f) then match line with [] => [] | _ => rubout end
  else if (c =? 0) || (INPUT_BUF_SIZE <=? Z.of_nat (length (ready ++ line))) then []
  else EvPutc (if c =? 13 then 10 else c) ::
    (if (c =? 13) || (c =? 10) || (c =? Ctrl 68) || (Z.of_nat (length (ready ++ line)) + 1 =? INPUT_BUF_SIZE) then [EvWakeup ch_cons_r] else []).

Definition same_output s s' : Prop :=
  tx_buf s' = tx_buf s /\ tx_w s' = tx_w s /\ tx_r s' = tx_r s /\ uregs s' = uregs s /\ user s' = user s.

Lemma line_empty s ready line : console_rel s ready line -> c_e s = c_w s <-> line = [].
Proof.
  destruct W32_ok as (HN & HW & HWN). intros [Hr Hw _]. pose proof (rb_room _ _ _ _ _ _ Hr) as Hl. pose proof (rb_w _ _ _ _ _ _ Hr) as He.
  rewrite length_app in *. rewrite He, Hw. split; [| intros ->; f_equal; cbn; lia]. intros E.
  assert (Hd : (Z.of_nat (length line)) mod W32 = 0).
  { replace (Z.of_nat (length line)) with (c_r s + Z.of_nat (length ready + length line) - (c_r s + Z.of_nat (length ready))) by lia.
    rewrite Zminus_mod, E, Z.sub_diag. reflexivity. }
  rewrite Z.mod_small in Hd by lia. destruct line; [reflexivity | cbn in Hd; lia].
Qed.

Lemma ready_empty s ready line : console_rel s ready line -> c_r s = c_w s <-> ready = [].
Proof.
  destruct W32_ok as (HN & HW & HWN). intros [Hr Hw _]. pose proof (rb_room _ _ _ _ _ _ Hr) as Hl. pose proof (rb_r _ _ _ _ _ _ Hr) as Hb.
  rewrite length_app in *. rewrite Hw. split.
  - intros E. assert (Hd : (Z.of_nat (length ready)) mod W32 = 0).
    { replace (Z.of_nat (length ready)) with (c_r s + Z.of_nat (length ready) - c_r s) by lia. rewrite Zminus_mod, <- E.
      rewrite (Z.mod_small (c_r s)) by exact Hb. rewrite Z.sub_diag. reflexivity. }
    rewrite Z.mod_small in Hd by lia. destruct ready; [reflexivity | cbn in Hd; lia].
  - intros ->. cbn. rewrite Z.add_0_r. symmetry. apply Z.mod_small, Hb.
Qed.

(** The last character of the line is rubbed out. *)
Lemma line_drop s ready line c : console_rel s ready (line ++ [c]) ->
  nthZ 0 (c_buf s) (u32 (c_e s - 1) mod INPUT_BUF_SIZE) = c /\ c <> 10 /\ c_e s <> c_w s /\
  console_rel (set_input (c_buf s) (u32 (c_e s - 1)) s) ready line.
Proof.
  destruct W32_ok as (HN & HW & HWN). intros Hc. pose proof (line_empty _ _ _ Hc) as He. destruct Hc as [Hr Hw Hn].
  rewrite app_assoc in Hr. destruct (ring_drop _ _ HN HW _ _ _ _ _ Hr) as [Ec Hr']. split_and!; auto.
  - intros ->. apply Hn. apply elem_of_app. right. left.
  - intros E. apply He in E. now destruct line.
  - split; auto. intros Hin. apply Hn, elem_of_app. now left.
Qed.

Lemma consputc_rubout h s : consputc BACKSPACE h s = emits rubout (Ret tt h s).
Proof. reflexivity. Qed.

Lemma kill_line_run h line : forall fuel s ready, console_rel s ready line -> (length line <= fuel)%nat ->
  exists s', kill_line fuel h s = emits (concat (repeat rubout (length line))) (Ret tt h s') /\ console_rel s' ready [] /\ same_output s s'.
Proof.
  induction line as [|c line IH] using rev_ind; intros fuel s ready Hc Hf.
  - exists s. split_and!; auto; [| repeat split]. destruct fuel; cbn [kill_line]; rewrite bind_get, (proj2 (Z.eqb_eq _ _)); auto; now apply (line_empty _ _ _ Hc).
  - destruct (line_drop _ _ _ _ Hc) as (Ec & Hn & He & Hc'). rewrite length_app in *. cbn [length] in *. destruct fuel as [|fuel]; [lia |].
    cbn [kill_line]. rewrite bind_get, Ec, (proj2 (Z.eqb_neq (c_e s) _)), (proj2 (Z.eqb_neq c 10)) by auto. cbn [negb andb].
    rewrite bind_modify, (bind_emits _ _ _ _ _ _ _ _ (consputc_rubout h _)).
    destruct (IH fuel _ ready Hc') as (s' & -> & Hr & Hs); [lia |]. exists s'. split_and!; auto.
    replace (length line + 1)%nat with (Datatypes.S (length line)) by lia. cbn [repeat concat]. now rewrite emits_app.
Qed.

Lemma removelast_snoc {A} (l : list A) x : removelast (l ++ [x]) = l.
Proof. apply removelast_last. Qed.

Lemma backspace_run h s ready line : console_rel s ready line ->
  exists s', (x <- get;; if negb (c_e x =? c_w x) then modify (fun s => set_input (c_buf s) (u32 (c_e s - 1)) s);; consputc BACKSPACE else ret tt) h s
    = emits (match line with [] => [] | _ => rubout end) (Ret tt h s') /\ console_rel s' ready (removelast line) /\ same_output s s'.
Proof.
  intros Hc. rewrite bind_get. destruct (Z.eqb_spec (c_e s) (c_w s)) as [E | E]; cbn [negb].
  - pose proof (proj1 (line_empty _ _ _ Hc) E) as ->. exists s. split_and!; auto. repeat split.
  - destruct line as [|c0 line0] eqn:El; [now destruct E; apply (line_empty _ _ _ Hc) |]. rewrite <- El in *.
    destruct (exists_last (l := line)) as (line' & c & ->); [congruence |]. destruct (line_drop _ _ _ _ Hc) as (_ & _ & _ & Hc').
    eexists. rewrite bind_modify, consputc_rubout, removelast_snoc. split_and!; [reflexivity | exact Hc' | repeat split].
Qed.

(** A character is added to the line. *)
Lemma line_push s ready line c : console_rel s ready line -> Z.of_nat (length (ready ++ line)) < INPUT_BUF_SIZE ->
  ring INPUT_BUF_SIZE W32 (updZ (c_buf s) (c_e s mod INPUT_BUF_SIZE) c) (c_r s) (u32 (c_e s + 1)) (ready ++ line ++ [c]).
Proof.
  destruct W32_ok as (HN & HW & HWN). intros [Hr _ _] Hl. rewrite app_assoc. exact (ring_push _ _ HN HW HWN _ _ _ _ c Hr Hl).
Qed.

Lemma insert_char_run h s ready line c : console_rel s ready line -> 0 <= c < 256 ->
  c <> Ctrl 80 -> c <> Ctrl 85 -> c <> Ctrl 72 -> c <> 0x7f ->
  exists s', insert_char c h s = emits (echo c ready line) (Ret tt h s') /\
    console_rel s' (fst (edit c ready line)) (snd (edit c ready line)) /\ same_output s s'.
Proof.
  destruct W32_ok as (HN & HW & HWN). intros Hc Hb H1 H2 H3 H4. unfold insert_char, echo, edit.
  rewrite !(proj2 (Z.eqb_neq c (Ctrl 80))), !(proj2 (Z.eqb_neq c (Ctrl 85))), !(proj2 (Z.eqb_neq c (Ctrl 72))), !(proj2 (Z.eqb_neq c 0x7f)) by auto. cbn [orb].
  rewrite bind_get. change (u32 (c_e s - c_r s)) with ((c_e s - c_r s) mod W32). rewrite (ring_count _ _ HWN _ _ _ _ (cr_ring _ _ _ Hc)).
  destruct (Z.eqb_spec c 0) as [E0 | E0]; cbn [negb andb orb]; [exists s; split_and!; [reflexivity | exact Hc | repeat split] |].
  destruct (Z.ltb_spec (Z.of_nat (length (ready ++ line))) INPUT_BUF_SIZE) as [Hl | Hl];
    [rewrite (proj2 (Z.leb_gt _ _)) by lia | rewrite (proj2 (Z.leb_le _ _)) by lia; exists s; split_and!; [reflexivity | exact Hc | repeat split]].
  set (c' := if c =? 13 then 10 else c). assert (Hc' : 0 <= c' < 256) by (unfold c'; destruct (c =? 13); lia).
  assert (Ec : (c =? 13) || (c =? 10) = (c' =? 10)) by (unfold c'; destruct (Z.eqb_spec c 13) as [-> |]; reflexivity).
  assert (E4 : (c =? Ctrl 68) = (c' =? Ctrl 68)) by (unfold c'; destruct (Z.eqb_spec c 13) as [-> |]; reflexivity).
  assert (Ep : forall x : S, consputc c' h x = emits [EvPutc c'] (Ret tt h x)).
  { intros x. unfold consputc. rewrite (proj2 (Z.eqb_neq c' BACKSPACE)) by (unfold BACKSPACE; lia). unfold uartputc_sync. now rewrite u8_small. }
  pose proof (line_push s ready line c' Hc Hl) as Hr. rewrite (bind_emits _ _ _ _ _ _ _ _ (Ep s)), bind_modify, bind_get, u8_small by exact Hc'.
  set (s1 := set_input _ _ s). change (u32 (c_e s1 - c_r s1)) with ((u32 (c_e s + 1) - c_r s) mod W32).
  rewrite (ring_count _ _ HWN _ _ _ _ Hr), Ec, E4. replace (Z.of_nat (length (ready ++ line)) + 1) with (Z.of_nat (length (ready ++ line ++ [c'])))
    by (rewrite !length_app; cbn; lia).
  destruct ((c' =? 10) || (c' =? Ctrl 68) || (Z.of_nat (length (ready ++ line ++ [c'])) =? INPUT_BUF_SIZE)) eqn:Ee; cbn [fst snd].
  - exists (set_c_w (c_e s1) s1). split_and!; [reflexivity | | repeat split]. split; [now rewrite app_nil_r | | apply not_elem_of_nil].
    exact (rb_w _ _ _ _ _ _ Hr).
  - exists s1. split_and!; [reflexivity | | repeat split]. split; [exact Hr | exact (cr_w _ _ _ Hc) |].
    apply orb_false_elim in Ee as [Ee _]. apply orb_false_elim in Ee as [Ee _]. apply Z.eqb_neq in Ee.
    rewrite not_elem_of_app, list_elem_of_singleton. split; [exact (cr_line _ _ _ Hc) | congruence].
Qed.

Class ConsUserLaws `{ConsUser U} := cu_dump_runs : forall h u, pr_lock ∉ h -> exists tr, cu_dump h u = emits tr (Ret tt h u).

Lemma consoleintr_run `{!ConsUserLaws} h s ready line c : console_rel s ready line -> 0 <= c < 256 -> cons_lock ∉ h -> pr_lock ∉ h ->
  exists tr s', consoleintr c h s = emits tr (Ret tt h s') /\
    console_rel s' (fst (edit c ready line)) (snd (edit c ready line)) /\ same_output s s' /\ (c <> Ctrl 80 -> tr = echo c ready line).
Proof.
  intros Hc Hb Hh Hp. unfold consoleintr. rewrite (bind_Ret _ _ _ _ _ _ _ (acquire_free cons_lock h s Hh)).
  assert (Hx : exists tr s', (if c =? Ctrl 80 then zoom user set_user cu_dump
     else if c =? Ctrl 85 then kill_line (Z.to_nat INPUT_BUF_SIZE)
     else if (c =? Ctrl 72) || (c =? 0x7f) then
       s <- get;; if negb (c_e s =? c_w s) then modify (fun s => set_input (c_buf s) (u32 (c_e s - 1)) s);; consputc BACKSPACE else ret tt
     else insert_char c) (cons_lock :: h) s = emits tr (Ret tt (cons_lock :: h) s') /\
     console_rel s' (fst (edit c ready line)) (snd (edit c ready line)) /\ same_output s s' /\ (c <> Ctrl 80 -> tr = echo c ready line)).
  { destruct (Z.eqb_spec c (Ctrl 80)) as [-> | N1].
    { destruct (cu_dump_runs (cons_lock :: h) (user s)) as [tr Ed]; [rewrite not_elem_of_cons; now split |].
      exists tr, s. split_and!; [rewrite (zoom_emits _ _ _ _ _ _ _ _ _ Ed); now destruct s | exact Hc | repeat split | congruence]. }
    destruct (Z.eqb_spec c (Ctrl 85)) as [-> | N2].
    { destruct (kill_line_run (cons_lock :: h) line (Z.to_nat INPUT_BUF_SIZE) s ready Hc) as (s' & E & Hr & Hs).
      { pose proof (rb_room _ _ _ _ _ _ (cr_ring _ _ _ Hc)) as Hl. rewrite length_app in Hl. unfold INPUT_BUF_SIZE in *. lia. }
      exists (echo (Ctrl 85) ready line), s'. auto. }
    destruct ((c =? Ctrl 72) || (c =? 0x7f)) eqn:E3.
    { destruct (backspace_run (cons_lock :: h) s ready line Hc) as (s' & E & Hr & Hs). exists (echo c ready line), s'.
      unfold echo, edit. rewrite (proj2 (Z.eqb_neq c (Ctrl 80))), (proj2 (Z.eqb_neq c (Ctrl 85))), E3 by auto. auto. }
    apply orb_false_elim in E3 as [N3 N4]. apply Z.eqb_neq in N3. apply Z.eqb_neq in N4.
    destruct (insert_char_run (cons_lock :: h) s ready line c Hc Hb N1 N2 N3 N4) as (s' & E & Hr & Hs). exists (echo c ready line), s'. auto. }
  destruct Hx as (tr & s' & E & Hr & Hs & Ht). exists tr, s'. rewrite (bind_emits _ _ _ _ _ _ _ _ E), release_top. auto.
Qed.

(** ** Reading *)

(** What a reader does in a turn: it is done with [n] bytes missing, it is
    killed, or it waits to put [n] bytes at [dst]. *)
Inductive rres := RDone (n : nat) | RKilled | RWait (dst : Z) (n : nat).

Fixpoint take_input (user_dst dst target : Z) (n : nat) (ready : list Z) (u : U) : list Z * U * rres :=
  match n with
  | O => (ready, u, RDone O)
  | Datatypes.S n' =>
      match ready with
      | [] => (ready, u, if cu_killed u then RKilled else RWait dst n)
      | c :: ready' =>
          if c =? Ctrl 68 then (if u32 (Z.of_nat n) <? target then ready else ready', u, RDone n)
          else
            match cu_out user_dst dst c u with
            | None => (ready', u, RDone n)
            | Some u' => if c =? 10 then (ready', u', RDone n') else take_input user_dst (u64 (dst + 1)) target n' ready' u'
            end
      end
  end.

(** A reader that waits has taken all there is. *)
Lemma take_input_wait user_dst target n : forall dst d u d' u' dst' m, 0 <= dst < 2 ^ 64 ->
  take_input user_dst dst target n d u = (d', u', RWait dst' m) ->
  d' = [] /\ dst' = u64 (dst + Z.of_nat (length d)) /\ m = (n - length d)%nat.
Proof.
  induction n as [|n IH]; intros dst d u d' u' dst' m Hd; cbn [take_input]; [discriminate |]. destruct d as [|c d].
  - destruct (cu_killed u); [discriminate |]. intros [= <- <- <- <-]. cbn. rewrite Z.add_0_r, u64_small by exact Hd. auto.
  - destruct (c =? Ctrl 68); [discriminate |]. destruct (cu_out user_dst dst c u) as [u1 |]; [| discriminate]. destruct (c =? 10); [discriminate |].
    intros E. apply IH in E as (-> & -> & ->); [| apply u64_range]. split_and!; auto. unfold u64. rewrite Zplus_mod_idemp_l. cbn [length]. f_equal. lia.
Qed.

Definition same_rings s s' : Prop := tx_buf s' = tx_buf s /\ tx_w s' = tx_w s /\ tx_r s' = tx_r s /\ uregs s' = uregs s /\ c_w s' = c_w s.

Lemma ready_pop s c ready line : console_rel s (c :: ready) line ->
  nthZ 0 (c_buf s) (c_r s mod INPUT_BUF_SIZE) = c /\ console_rel (set_c_r (u32 (c_r s + 1)) s) ready line /\ u32 (u32 (c_r s + 1) - 1) = c_r s.
Proof.
  destruct W32_ok as (HN & HW & HWN). intros [Hr Hw Hl]. destruct (ring_pop _ _ HN HW HWN _ _ _ _ _ Hr) as [Ec Hr'].
  split_and!; auto; [| exact (ring_unpop _ _ _ _ _ _ _ Hr)]. split; auto. cbn [set_c_r c_w c_r]. rewrite Hw. change (u32 ?x) with (x mod W32).
  rewrite (mod_add INPUT_BUF_SIZE W32 HN HWN). cbn [length]. f_equal. lia.
Qed.

Lemma consoleread_wait_ready fuel s : c_r s <> c_w s -> consoleread_wait fuel [cons_lock] s = Ret false [cons_lock] s.
Proof. intros E. destruct fuel; cbn [consoleread_wait]; rewrite bind_get, (proj2 (Z.eqb_neq _ _)) by exact E; reflexivity. Qed.

Lemma consoleread_loop_turn user_dst target fuel line n : forall wfuel dst s ready, console_rel s ready line -> (0 < wfuel)%nat -> (0 < fuel)%nat ->
  let x := take_input user_dst dst target n ready (user s) in
  exists s', console_rel s' (fst (fst x)) line /\ user s' = snd (fst x) /\ same_rings s s' /\
    match snd x with
    | RDone m => consoleread_loop wfuel fuel user_dst dst target n [cons_lock] s = Ret (Some m) [cons_lock] s'
    | RKilled => consoleread_loop wfuel fuel user_dst dst target n [cons_lock] s = Ret None [] s'
    | RWait dst' m => exists wf, consoleread_loop wfuel fuel user_dst dst target n [cons_lock] s =
        Sleep ch_cons_r s' (fun s'' => consoleread_loop wf fuel user_dst dst' target m [cons_lock] s'')
    end.
Proof.
  induction n as [|n IH]; intros wfuel dst s ready Hc Hw Hf x; unfold x; clear x.
  { exists s. cbn. split_and!; auto. repeat split. }
  destruct ready as [|c ready]; cbn [take_input].
  - exists s. cbn [fst snd]. split_and!; auto; [repeat split |]. pose proof (proj2 (ready_empty _ _ _ Hc) eq_refl) as E.
    destruct wfuel as [|wf]; [lia |]. cbn [consoleread_loop consoleread_wait]. rewrite bind_bind, bind_get, (proj2 (Z.eqb_eq _ _)) by exact E.
    destruct (cu_killed (user s)).
    + rewrite bind_bind, (bind_Ret _ _ _ _ _ _ _ (release_top cons_lock [] s)). reflexivity.
    + exists wf. unfold bind at 1 2. rewrite sleep_only. reflexivity.
  - destruct (ready_pop _ _ _ _ Hc) as (Ec & Hc' & Eu). cbn [consoleread_loop].
    rewrite (bind_Ret _ _ _ _ _ _ _ (consoleread_wait_ready wfuel s (fun E => ltac:(discriminate (proj1 (ready_empty _ _ _ Hc) E))))).
    rewrite bind_get, bind_modify, Ec. set (s1 := set_c_r _ s) in *. destruct (c =? Ctrl 68) eqn:E4.
    + destruct (u32 (Z.of_nat (Datatypes.S n)) <? target); cbn [fst snd].
      * exists s. split_and!; auto; [repeat split |]. rewrite bind_modify. unfold s1. cbn [set_c_r c_r]. rewrite Eu. now destruct s.
      * exists s1. split_and!; auto. repeat split.
    + rewrite bind_get. change (user s1) with (user s). destruct (cu_out user_dst dst c (user s)) as [u' |]; cbn [fst snd].
      * rewrite bind_modify. set (s2 := set_user u' s1). assert (Hc2 : console_rel s2 ready line) by (destruct Hc'; now split).
        destruct (c =? 10); [exists s2; split_and!; auto; repeat split |].
        destruct (IH fuel (u64 (dst + 1)) s2 ready Hc2 Hf Hf) as (s' & H1' & H2' & H3' & H4'). exists s'. auto.
      * exists s1. split_and!; auto. repeat split.
Qed.

Lemma consoleread_turn user_dst target fuel line n wfuel dst s ready : console_rel s ready line -> (0 < wfuel)%nat -> (0 < fuel)%nat ->
  let x := take_input user_dst dst target n ready (user s) in
  exists s', console_rel s' (fst (fst x)) line /\ user s' = snd (fst x) /\ same_rings s s' /\
    match snd x with
    | RDone m => consoleread_from wfuel fuel user_dst dst target n [cons_lock] s = Ret (i32 (target - Z.of_nat m)) [] s'
    | RKilled => consoleread_from wfuel fuel user_dst dst target n [cons_lock] s = Ret (-1) [] s'
    | RWait dst' m => exists wf, consoleread_from wfuel fuel user_dst dst target n [cons_lock] s =
        Sleep ch_cons_r s' (fun s'' => consoleread_from wf fuel user_dst dst' target m [cons_lock] s'')
    end.
Proof.
  intros Hc Hw Hf x. destruct (consoleread_loop_turn user_dst target fuel line n wfuel dst s ready Hc Hw Hf) as (s' & N1 & N2 & N3 & N4).
  fold x in N1, N2, N4. exists s'. split_and!; auto. unfold consoleread_from. destruct (snd x) as [m | | dst' m].
  - rewrite (bind_Ret _ _ _ _ _ _ _ N4), (bind_Ret _ _ _ _ _ _ _ (release_top cons_lock [] s')). reflexivity.
  - now rewrite (bind_Ret _ _ _ _ _ _ _ N4).
  - destruct N4 as [wf E]. exists wf. unfold bind at 1. rewrite E. reflexivity.
Qed.

End run.
