(* ===== verification/ConsoleSpec.v ===== *)
(** * Correctness of the console and the UART

    Any number of readers of the console and of writers to the UART, typed
    characters and interrupts of the transmitter, in any order, with the rest
    of the kernel and the device free to act between their turns. *)

From S2P Require Import Prelude KMonad Trace Printf Console ConsoleRun.

(** A call in its critical section: a reader that has [n] of [target] bytes to
    read to [dst], or a writer of one character. *)
Inductive ccall := CRead (user_dst dst target : Z) (n : nat) | CPut (c : Z).
Inductive cstatus := CReady | CAsleep (ch : channel) | CFinished.

Definition cwake (tr : list event) (th : ccall * cstatus) : ccall * cstatus :=
  match snd th with
  | CAsleep ch => if existsb (fun e => match e with EvWakeup c => bool_decide (c = ch) | _ => false end) tr
                  then (fst th, CReady) else th
  | _ => th
  end.

(** The characters of a trace. *)
Definition putcs (tr : list event) : list Z := omap (fun e => match e with EvPutc c => Some c | _ => None end) tr.

Section system.
Context {R U : Type} `{UartRegs R} `{ConsUser U} `{!ConsUserLaws}.
Implicit Types s : con R U.

(** [puts] are the characters that writers have put, [sent] those that the
    UART has got from the ring. *)
Record csys := CSys { cstate : con R U; puts : list Z; sent : list Z; cthreads : list (ccall * cstatus) }.

Definition ccode (wfuel fuel : nat) (c : ccall) : M (con R U) Z :=
  match c with
  | CRead user_dst dst target n => consoleread_from wfuel fuel user_dst dst target n
  | CPut c => uartputc_from wfuel c;; ret 0
  end.

Definition clock (c : ccall) : lockname := match c with CRead _ _ _ _ => cons_lock | CPut _ => uart_tx_lock end.
Definition valid_ccall (c : ccall) : Prop := match c with CRead _ dst target n => 0 <= dst < 2 ^ 64 /\ Z.of_nat n <= target < 2 ^ 31 | CPut c => 0 <= c < 256 end.

(** The characters that a turn of [c] puts in the ring when it returns, and
    those that it sends. *)
Definition call_puts (c : ccall) : list Z := match c with CRead _ _ _ _ => [] | CPut c => [c] end.
Definition call_sent (c : ccall) (tr : list event) : list Z := match c with CRead _ _ _ _ => [] | CPut _ => putcs tr end.

(** Where a reader is after a turn that took it from [s] to [s'], by the
    counter of the ring. *)
Definition advance (c : ccall) s s' : ccall :=
  match c with
  | CRead user_dst dst target n =>
      let moved := u32 (c_r s' - c_r s) in CRead user_dst (u64 (dst + moved)) target (n - Z.to_nat moved)
  | CPut _ => c
  end.

(** The second half of [uartintr]. *)
Definition tx_interrupt : M (con R U) unit :=
  acquire uart_tx_lock;;
  uartstart;;
  release uart_tx_lock.

Inductive cstep : csys -> csys -> Prop :=
| cs_call s p o ths c : valid_ccall c -> cstep (CSys s p o ths) (CSys s p o (ths ++ [(c, CReady)]))
| cs_world s p o ths r u : cstep (CSys s p o ths) (CSys (set_user u (set_uregs r s)) p o ths)
| cs_type s p o ths c tr s' : 0 <= c < 256 -> consoleintr c [] s = emits tr (Ret tt [] s') ->
    cstep (CSys s p o ths) (CSys s' p o (map (cwake tr) ths))
| cs_tx s p o ths tr s' : tx_interrupt [] s = emits tr (Ret tt [] s') ->
    cstep (CSys s p o ths) (CSys s' p (o ++ putcs tr) (map (cwake tr) ths))
| cs_return s p o ths t c wfuel fuel tr r s' : ths !! t = Some (c, CReady) -> (0 < wfuel)%nat -> (0 < fuel)%nat ->
    ccode wfuel fuel c [clock c] s = emits tr (Ret r [] s') ->
    cstep (CSys s p o ths) (CSys s' (p ++ call_puts c) (o ++ call_sent c tr) (<[t := (c, CFinished)]> (map (cwake tr) ths)))
| cs_sleep s p o ths t c wfuel fuel tr ch s' k wf' f' : ths !! t = Some (c, CReady) -> (0 < wfuel)%nat -> (0 < fuel)%nat ->
    ccode wfuel fuel c [clock c] s = emits tr (Sleep ch s' k) ->
    k = (fun s'' => ccode wf' f' (advance c s s') [clock c] s'') ->
    cstep (CSys s p o ths) (CSys s' p o (<[t := (advance c s s', CAsleep ch)]> (map (cwake tr) ths))).

(** ** The specification

    The input that can be read, the line that is being edited, and the output
    that waits, as lists. *)
Record acon := ACon { a_ready : list Z; a_line : list Z; a_tx : list Z; a_user : U; a_puts : list Z; a_sent : list Z; a_threads : list (ccall * cstatus) }.

Inductive cspec : acon -> acon -> Prop :=
| sp_call d l q u p o ths c : valid_ccall c -> cspec (ACon d l q u p o ths) (ACon d l q u p o (ths ++ [(c, CReady)]))
| sp_world d l q u p o ths u' : cspec (ACon d l q u p o ths) (ACon d l q u' p o ths)
| sp_type d l q u p o ths c tr : (fst (edit c d l) <> d -> EvWakeup ch_cons_r ∈ tr) ->
    cspec (ACon d l q u p o ths) (ACon (fst (edit c d l)) (snd (edit c d l)) q u p o (map (cwake tr) ths))
| sp_tx d l q u p o ths n : cspec (ACon d l q u p o ths) (ACon d l (drop n q) u p (o ++ take n q) (map (cwake (sends (take n q))) ths))
| sp_read d l q u p o ths t user_dst dst target n d' u' : ths !! t = Some (CRead user_dst dst target n, CReady) ->
    take_input user_dst dst target n d u = (d', u', RKilled) \/ (exists m, take_input user_dst dst target n d u = (d', u', RDone m)) ->
    cspec (ACon d l q u p o ths) (ACon d' l q u' p o (<[t := (CRead user_dst dst target n, CFinished)]> ths))
| sp_read_wait d l q u p o ths t user_dst dst target n u' dst' m : ths !! t = Some (CRead user_dst dst target n, CReady) ->
    take_input user_dst dst target n d u = ([], u', RWait dst' m) ->
    cspec (ACon d l q u p o ths) (ACon [] l q u' p o (<[t := (CRead user_dst dst' target m, CAsleep ch_cons_r)]> ths))
| sp_put d l q u p o ths t c n : ths !! t = Some (CPut c, CReady) -> Z.of_nat (length q) < UART_TX_BUF_SIZE ->
    cspec (ACon d l q u p o ths) (ACon d l (drop n (q ++ [c])) u (p ++ [c]) (o ++ take n (q ++ [c]))
      (<[t := (CPut c, CFinished)]> (map (cwake (sends (take n (q ++ [c])))) ths)))
| sp_put_wait d l q u p o ths t c : ths !! t = Some (CPut c, CReady) -> Z.of_nat (length q) = UART_TX_BUF_SIZE ->
    cspec (ACon d l q u p o ths) (ACon d l q u p o (<[t := (CPut c, CAsleep ch_uart_tx_r)]> ths)).

Record crel (x : csys) (a : acon) : Prop := {
  rl_input : console_rel (cstate x) (a_ready a) (a_line a);
  rl_output : tx_ring (cstate x) (a_tx a);
  rl_user : user (cstate x) = a_user a;
  rl_puts : puts x = a_puts a; rl_sent : sent x = a_sent a;
  rl_threads : cthreads x = a_threads a;
  rl_valid : Forall (fun th => valid_ccall (fst th)) (cthreads x) }.

Lemma cwake_nil th : cwake [] th = th.
Proof. now destruct th as [c []]. Qed.

Lemma map_cwake_nil ths : map (cwake []) ths = ths.
Proof. rewrite (map_ext _ (fun x => x)) by apply cwake_nil. apply map_id. Qed.

Lemma putcs_sends l : putcs (sends l) = l.
Proof. induction l as [|c l IH]; [reflexivity |]. cbn. f_equal. exact IH. Qed.

Lemma valid_wake tr ths : Forall (fun th => valid_ccall (fst th)) ths -> Forall (fun th => valid_ccall (fst th)) (map (cwake tr) ths).
Proof.
  intros Hv. apply Forall_forall. intros th (th0 & -> & Hin)%list_elem_of_fmap. rewrite Forall_forall in Hv. specialize (Hv th0 Hin).
  destruct th0 as [c [| ch |]]; auto. unfold cwake. cbn [snd]. now destruct existsb.
Qed.

(** The two rings do not share state. *)
Lemma rel_output s s' d l : console_rel s d l -> same_input s s' -> console_rel s' d l.
Proof. intros [H1' H2' H3'] (E1 & E2 & E3 & E4 & _). split; [now rewrite E1, E2, E4 | now rewrite E2, E3 | exact H3']. Qed.

Lemma ring_input s s' q : tx_ring s q -> same_rings s s' -> tx_ring s' q.
Proof. intros [H1' H2'] (E1 & E2 & E3 & _). split; [now rewrite E1, E2, E3 | exact H2']. Qed.

Lemma edit_wakes c d l : fst (edit c d l) <> d -> c <> Ctrl 80 /\ EvWakeup ch_cons_r ∈ echo c d l.
Proof.
  unfold edit, echo. destruct (Z.eqb_spec c (Ctrl 80)) as [| N1]; [now intros [] |]. destruct (c =? Ctrl 85); [now intros [] |].
  destruct ((c =? Ctrl 72) || (c =? 127)); [now intros [] |]. destruct ((c =? 0) || _); [now intros [] |].
  replace (Z.of_nat (length (d ++ l)) + 1) with (Z.of_nat (length (d ++ l ++ [if c =? 13 then 10 else c]))) by (rewrite !length_app; cbn; lia).
  destruct (_ || _); [| now intros []]. intros _. split; [exact N1 | right; left].
Qed.

Lemma tx_interrupt_run s q : tx_ring s q -> exists n s', tx_interrupt [] s = emits (sends (take n q)) (Ret tt [] s') /\
  tx_ring s' (drop n q) /\ same_input s s'.
Proof.
  intros Hr. destruct (uartstart_run [uart_tx_lock] s q Hr) as (n & s' & E & _ & Hr' & Hs & _). exists n, s'. split_and!; auto.
  unfold tx_interrupt. rewrite (bind_Ret _ _ _ _ _ _ _ (acquire_free uart_tx_lock [] s (not_elem_of_nil _))).
  now rewrite (bind_emits _ _ _ _ _ _ _ _ E), release_top.
Qed.

(** A turn of a writer, with its result. *)
Lemma put_code wfuel fuel c s q : tx_ring s q -> 0 <= c < 256 -> (0 < wfuel)%nat ->
  (Z.of_nat (length q) = UART_TX_BUF_SIZE /\ exists wf, ccode wfuel fuel (CPut c) [uart_tx_lock] s = Sleep ch_uart_tx_r s (fun s' => ccode wf fuel (CPut c) [uart_tx_lock] s')) \/
  (Z.of_nat (length q) < UART_TX_BUF_SIZE /\ exists n s', ccode wfuel fuel (CPut c) [uart_tx_lock] s = emits (sends (take n (q ++ [c]))) (Ret 0 [] s') /\
    tx_ring s' (drop n (q ++ [c])) /\ same_input s s').
Proof.
  intros Hr Hc Hf. cbn [ccode]. unfold bind. destruct (uartputc_turn wfuel c s q Hr Hc Hf) as [wf E Hl | n s' Hl Hn Hr' Hs _].
  - left. split; [exact Hl |]. exists wf. reflexivity.
  - right. split; [exact Hl |]. exists n, s'. split_and!; auto. now rewrite obind_emits.
Qed.

(** A turn of a reader, with its result. *)
Lemma read_step s p o ths t user_dst dst target n wfuel fuel d l q u :
  crel (CSys s p o ths) (ACon d l q u p o ths) -> ths !! t = Some (CRead user_dst dst target n, CReady) -> (0 < wfuel)%nat -> (0 < fuel)%nat ->
  let c := CRead user_dst dst target n in
  (exists r s' a', ccode wfuel fuel c [cons_lock] s = Ret r [] s' /\ cspec (ACon d l q u p o ths) a' /\ crel (CSys s' p o (<[t := (c, CFinished)]> ths)) a') \/
  (exists wf s' a', ccode wfuel fuel c [cons_lock] s = Sleep ch_cons_r s' (fun s'' => ccode wf fuel (advance c s s') [cons_lock] s'') /\
    cspec (ACon d l q u p o ths) a' /\ crel (CSys s' p o (<[t := (advance c s s', CAsleep ch_cons_r)]> ths)) a').
Proof.
  intros [Hi Ho Hu _ _ _ Hv] Ht Hw Hf c. cbn in Hi, Ho, Hu, Hv. subst u.
  assert (Hc : valid_ccall c) by (rewrite Forall_lookup in Hv; exact (Hv t _ Ht)).
  destruct (consoleread_turn user_dst target fuel l n wfuel dst s d Hi Hw Hf) as (s' & N1 & N2 & N3 & N4). cbn [ccode].
  destruct (take_input user_dst dst target n d (user s)) as [[d' u'] r] eqn:Et. cbn [fst snd] in *.
  assert (Hdone : take_input user_dst dst target n d (user s) = (d', u', RKilled) \/ (exists m, take_input user_dst dst target n d (user s) = (d', u', RDone m)) ->
    let a' := ACon d' l q u' p o (<[t := (c, CFinished)]> ths) in
    cspec (ACon d l q (user s) p o ths) a' /\ crel (CSys s' p o (<[t := (c, CFinished)]> ths)) a').
  { intros Hd a'. split; [now eapply sp_read |].
    split; cbn; auto; [eapply ring_input; eauto | apply Forall_insert; auto]. }
  destruct r as [m | | dst' m].
  - left. eexists _, s', _. split; [exact N4 | apply Hdone; eauto].
  - left. eexists _, s', _. split; [exact N4 | apply Hdone; eauto].
  - right. destruct N4 as [wf N4]. destruct (take_input_wait _ _ _ _ _ _ _ _ _ _ (proj1 Hc) Et) as (-> & -> & ->).
    assert (Em : u32 (c_r s' - c_r s) = Z.of_nat (length d)).
    { rewrite (proj2 (ready_empty _ _ _ N1) eq_refl). destruct N3 as (_ & _ & _ & _ & ->). rewrite (cr_w _ _ _ Hi).
      pose proof (rb_room _ _ _ _ _ _ (cr_ring _ _ _ Hi)) as Hl. rewrite length_app in Hl. unfold u32, W32, INPUT_BUF_SIZE in *.
      rewrite Zminus_mod_idemp_l. rewrite Z.mod_small; lia. }
    exists wf, s', (ACon [] l q u' p o (<[t := (CRead user_dst (u64 (dst + Z.of_nat (length d))) target (n - length d), CAsleep ch_cons_r)]> ths)).
    unfold c, advance. rewrite Em, Nat2Z.id. split_and!; [exact N4 | eapply sp_read_wait; eauto |]. split; cbn; auto; [eapply ring_input; eauto |].
    apply Forall_insert; [exact Hv |]. destruct Hc as [_ Hc]. split; [apply u64_range | lia].
Qed.

Lemma cstep_spec x y a : crel x a -> cstep x y -> exists a', cspec a a' /\ crel y a'.
Proof.
  intros Hr Hs. destruct a as [d l q u p' o' ths']. pose proof Hr as [Hi Ho Hu Hp Hsn Ht Hv]. cbn in *. subst p' o' ths'.
  destruct Hs as [s p o ths c Hc | s p o ths r u' | s p o ths c tr s' Hc E | s p o ths tr s' E | s p o ths t c wf f tr r s' Ht Hwf Hf E
    | s p o ths t c wf f tr ch s' k wf' f' Ht Hwf Hf E Ek]; cbn in *.
  - eexists. split; [apply (sp_call d l q u p o ths c Hc) |]. split; cbn; auto. apply Forall_app. auto.
  - eexists. split; [apply (sp_world d l q u p o ths u') |]. split; cbn; auto. destruct Hi; now split.
  - destruct (consoleintr_run [] s d l c Hi Hc (not_elem_of_nil _) (not_elem_of_nil _)) as (tr0 & s0 & E0 & Hi' & Hso & He).
    rewrite E0 in E. apply emits_inj in E as [-> [= ->]]; [| exact I | exact I]. destruct Hso as (E1 & E2 & E3 & E4 & E5).
    eexists. split; [apply (sp_type d l q u p o ths c tr); intros Hd; destruct (edit_wakes c d l Hd) as [N1 N2]; now rewrite (He N1) |].
    split; cbn; auto; [split; [rewrite E1, E2, E3; apply Ho | apply Ho] | congruence | now apply valid_wake].
  - destruct (tx_interrupt_run s q Ho) as (n & s0 & E0 & Ho' & Hsi). rewrite E0 in E. apply emits_inj in E as [<- [= ->]]; [| exact I | exact I].
    eexists. split; [apply (sp_tx d l q u p o ths n) |]. rewrite putcs_sends. split; cbn; auto; [eapply rel_output; eauto | destruct Hsi as (_ & _ & _ & _ & ->); auto | now apply valid_wake].
  - destruct c as [user_dst dst target n | c]; cbn [clock call_puts call_sent] in *.
    + destruct (read_step s p o ths t user_dst dst target n wf f d l q u Hr Ht Hwf Hf) as [(r0 & s0 & a' & E0 & Hc & Hr') | (wf0 & s0 & a' & E0 & _)]; rewrite E0 in E.
      * apply (emits_inj []) in E as [<- [= -> ->]]; [| exact I | exact I]. exists a'. rewrite !app_nil_r, map_cwake_nil. auto.
      * apply (emits_inj []) in E as [_ E]; [discriminate | exact I | exact I].
    + rewrite Forall_lookup in Hv. pose proof (Hv t _ Ht) as Hc. cbn in Hc. rewrite <- Forall_lookup in Hv.
      destruct (put_code wf f c s q Ho Hc Hwf) as [(Hl & wf0 & E0) | (Hl & n & s0 & E0 & Ho' & Hsi)]; rewrite E0 in E.
      * apply (emits_inj []) in E as [_ E]; [discriminate | exact I | exact I].
      * apply emits_inj in E as [<- [= _ ->]]; [| exact I | exact I]. eexists. split; [apply (sp_put d l q u p o ths t c n Ht Hl) |]. rewrite putcs_sends.
        split; cbn; auto; [eapply rel_output; eauto | destruct Hsi as (_ & _ & _ & _ & ->); auto | apply Forall_insert; [now apply valid_wake | exact Hc]].
  - destruct c as [user_dst dst target n | c]; cbn [clock] in *.
    + destruct (read_step s p o ths t user_dst dst target n wf f d l q u Hr Ht Hwf Hf) as [(r0 & s0 & a' & E0 & _) | (wf0 & s0 & a' & E0 & Hc & Hr')]; rewrite E0 in E.
      * apply (emits_inj []) in E as [_ E]; [discriminate | exact I | exact I].
      * apply (emits_inj []) in E as [<- E]; [| exact I | exact I]. injection E as <- <- _. exists a'. rewrite map_cwake_nil. auto.
    + rewrite Forall_lookup in Hv. pose proof (Hv t _ Ht) as Hc. cbn in Hc. rewrite <- Forall_lookup in Hv.
      destruct (put_code wf f c s q Ho Hc Hwf) as [(Hl & wf0 & E0) | (Hl & n & s0 & E0 & _)]; rewrite E0 in E.
      * apply (emits_inj []) in E as [<- E]; [| exact I | exact I]. injection E as <- <- _. rewrite map_cwake_nil.
        eexists. split; [apply (sp_put_wait d l q u p o ths t c Ht Hl) |]. split; cbn; auto. now apply Forall_insert.
      * apply emits_inj in E as [_ E]; [discriminate | exact I | exact I].
Qed.


(** ** Theorems *)

(** The state after boot. *)
Definition cinit (x : csys) : Prop :=
  let s := cstate x in
  Z.of_nat (length (c_buf s)) = INPUT_BUF_SIZE /\ c_r s = 0 /\ c_w s = 0 /\ c_e s = 0 /\
  Z.of_nat (length (tx_buf s)) = UART_TX_BUF_SIZE /\ tx_r s = 0 /\ tx_w s = 0 /\ puts x = [] /\ sent x = [] /\ cthreads x = [].

Definition ainit (u : U) : acon := ACon [] [] [] u [] [] [].

Lemma cinit_rel x : cinit x -> crel x (ainit (user (cstate x))).
Proof.
  intros (H1' & H2' & H3' & H4' & H5' & H6' & H7' & H8' & H9' & H10'). split; cbn; auto; [| | now rewrite H10'].
  - split; [| now rewrite H2', H3' | apply not_elem_of_nil]. split; auto; rewrite ?H2', ?H4'; unfold W32, INPUT_BUF_SIZE; cbn; [lia | reflexivity | lia | discriminate].
  - split; [| constructor]. split; auto; rewrite ?H6', ?H7'; unfold W64, UART_TX_BUF_SIZE; cbn; [lia | reflexivity | lia | discriminate].
Qed.

Lemma crun_spec x y a : crel x a -> rtc cstep x y -> exists b, rtc cspec a b /\ crel y b.
Proof.
  intros Hr Hs. revert a Hr. induction Hs as [x | x z y Hs _ IH]; intros a Hr; [eauto using rtc_refl |].
  destruct (cstep_spec x z a Hr Hs) as (a1 & Hc & Hr1). destruct (IH a1 Hr1) as (b & Hb & Hrb). exists b. split; [eapply rtc_l; eauto | exact Hrb].
Qed.

(** What holds in every state of the specification. *)
Definition asleep_right (a : acon) (th : ccall * cstatus) : Prop :=
  match snd th with
  | CAsleep ch => match fst th with
                  | CRead _ _ _ _ => ch = ch_cons_r /\ a_ready a = []
                  | CPut _ => ch = ch_uart_tx_r /\ Z.of_nat (length (a_tx a)) = UART_TX_BUF_SIZE
                  end
  | _ => True
  end.

Definition ainv (a : acon) : Prop := a_puts a = a_sent a ++ a_tx a /\ Forall (asleep_right a) (a_threads a).

Lemma cwake_cases tr c ch : cwake tr (c, CAsleep ch) = (c, CReady) \/ (cwake tr (c, CAsleep ch) = (c, CAsleep ch) /\ EvWakeup ch ∉ tr).
Proof.
  unfold cwake. cbn [snd fst]. destruct existsb eqn:E; [now left | right]. split; [reflexivity |]. intros Hin.
  assert (Ht : existsb (fun e => match e with EvWakeup c => bool_decide (c = ch) | _ => false end) tr = true); [| congruence].
  apply existsb_exists. exists (EvWakeup ch). split; [now apply list_elem_of_In | now apply bool_decide_eq_true].
Qed.

Lemma wake_right a a' tr ths : Forall (asleep_right a) ths -> (a_ready a' = a_ready a \/ EvWakeup ch_cons_r ∈ tr) ->
  (a_tx a' = a_tx a \/ EvWakeup ch_uart_tx_r ∈ tr) -> Forall (asleep_right a') (map (cwake tr) ths).
Proof.
  intros Hf Hr Ht. apply Forall_forall. intros th (th0 & -> & Hin)%list_elem_of_fmap. rewrite Forall_forall in Hf. specialize (Hf th0 Hin).
  destruct th0 as [c [| ch |]]; try exact I. destruct (cwake_cases tr c ch) as [-> | [-> Hn]]; [exact I |].
  destruct c; cbn in *; destruct Hf as [-> Hf]; (split; [reflexivity |]).
  - destruct Hr as [-> | ?]; [exact Hf | contradiction].
  - destruct Ht as [-> | ?]; [exact Hf | contradiction].
Qed.

Lemma sends_wake l : l <> [] -> EvWakeup ch_uart_tx_r ∈ sends l.
Proof. destruct l; [easy | left]. Qed.

Lemma drop_or_send {n} {q : list Z} : drop n q = q \/ EvWakeup ch_uart_tx_r ∈ sends (take n q).
Proof.
  destruct (decide (take n q = [])) as [E | E]; [left | right; now apply sends_wake].
  rewrite <- (take_drop n q) at 2. now rewrite E.
Qed.

Lemma take_input_nil user_dst dst target n u d' u' r : take_input user_dst dst target n [] u = (d', u', r) -> d' = [].
Proof. destruct n; cbn; congruence. Qed.

Lemma right_mono a a' ths : Forall (asleep_right a) ths -> (a_ready a = [] -> a_ready a' = []) ->
  (Z.of_nat (length (a_tx a)) = UART_TX_BUF_SIZE -> Z.of_nat (length (a_tx a')) = UART_TX_BUF_SIZE) -> Forall (asleep_right a') ths.
Proof.
  intros Hf Hr Ht. apply (Forall_impl _ _ _ Hf). intros [c [| ch |]]; try easy. unfold asleep_right. cbn [fst snd]. destruct c; intros [-> E]; auto.
Qed.

Lemma ainv_step a a' : ainv a -> cspec a a' -> ainv a'.
Proof.
  intros [Hf Hs] Hc. destruct Hc as [d l q u p o ths c Hv | d l q u p o ths u' | d l q u p o ths c tr Hw | d l q u p o ths n
    | d l q u p o ths t user_dst dst target n d' u' Ht Ei | d l q u p o ths t user_dst dst target n u' dst' m Ht Ei
    | d l q u p o ths t c n Ht Hl | d l q u p o ths t c Ht Hl]; cbn in *; split; cbn.
  - exact Hf.
  - apply Forall_app. split; [exact Hs |]. now repeat constructor.
  - exact Hf.
  - exact Hs.
  - exact Hf.
  - eapply wake_right; [exact Hs | | now left]. cbn. destruct (decide (fst (edit c d l) = d)); auto.
  - now rewrite <- app_assoc, take_drop.
  - eapply wake_right; [exact Hs | now left | apply drop_or_send].
  - exact Hf.
  - apply Forall_insert; [| exact I]. apply (right_mono _ _ _ Hs); [| auto]. cbn. intros ->. destruct Ei as [Ei | [m Ei]]; eapply take_input_nil, Ei.
  - exact Hf.
  - apply Forall_insert; [| now split]. now apply (right_mono _ _ _ Hs).
  - rewrite Hf, <- !app_assoc. now rewrite take_drop.
  - apply Forall_insert; [| exact I]. eapply wake_right; [| now left | now left]. apply (right_mono _ _ _ Hs); [auto | cbn; lia].
  - exact Hf.
  - apply Forall_insert; [| now split]. exact Hs.
Qed.

Lemma creach_inv x y : cinit x -> rtc cstep x y -> exists a, rtc cspec (ainit (user (cstate x))) a /\ crel y a /\ ainv a.
Proof.
  intros Hi Hs. destruct (crun_spec x y _ (cinit_rel x Hi) Hs) as (a & Ha & Hr). exists a. split_and!; auto.
  assert (H0' : ainv (ainit (user (cstate x)))) by (split; [reflexivity | constructor]). revert H0'. clear -Ha. induction Ha; eauto using ainv_step.
Qed.

(** C8: The console and the output of the UART are what their specification
    says: every run of readers, writers, typed characters and interrupts is a
    run of a machine with a list of readable input, a line that is edited with
    control-U, control-H and delete, and a list of output, in which each turn
    is one step.  The two rings and their counters, which wrap, never lose or
    invent a byte. *)
Theorem console_refines x y : cinit x -> rtc cstep x y ->
  exists a, rtc cspec (ainit (user (cstate x))) a /\ crel y a.
Proof. intros Hi Hs. destruct (creach_inv x y Hi Hs) as (a & Ha & Hr & _). eauto. Qed.

(** Output is first in, first out: the characters that writers have put
    are those that the UART has got, in order, followed by those that wait in
    the ring. *)
Theorem uart_fifo x y : cinit x -> rtc cstep x y -> exists q, puts y = sent y ++ q /\ tx_ring (cstate y) q.
Proof.
  intros Hi Hs. destruct (creach_inv x y Hi Hs) as (a & _ & [_ Ho _ Hp Hsn _ _] & Hf & _). exists (a_tx a). split; [congruence | exact Ho].
Qed.

(** C9: No wake-up is lost: a reader asleep in [consoleread] has no input to
    read, and a writer asleep in [uartputc] has no room in the ring. *)
Theorem console_no_lost_wakeup x y t c ch : cinit x -> rtc cstep x y -> cthreads y !! t = Some (c, CAsleep ch) ->
  match c with
  | CRead _ _ _ _ => ch = ch_cons_r /\ c_r (cstate y) = c_w (cstate y)
  | CPut _ => ch = ch_uart_tx_r /\ tx_w (cstate y) = u64 (tx_r (cstate y) + UART_TX_BUF_SIZE)
  end.
Proof.
  intros Hi Hs Ht. destruct (creach_inv x y Hi Hs) as (a & _ & [Hin Ho _ _ _ Eth _] & _ & Hf). rewrite Eth in Ht.
  rewrite Forall_lookup in Hf. specialize (Hf t _ Ht). destruct W64_ok as (HN & HW & HWN). destruct c; cbn in Hf; destruct Hf as [-> Hf]; (split; [reflexivity |]).
  - now apply (ready_empty _ _ _ Hin).
  - now apply (ring_full _ _ HN HWN _ _ _ _ (proj1 Ho)).
Qed.

(** In every reachable state a typed character is handled, the interrupt
    of the transmitter is handled, and a thread that is ready makes a turn, at
    whose end it has returned with its lock released or sleeps; nothing panics
    or goes out of bounds. *)
Theorem console_progress x y : cinit x -> rtc cstep x y ->
  (forall c, 0 <= c < 256 -> exists tr s', consoleintr c [] (cstate y) = emits tr (Ret tt [] s')) /\
  (exists tr s', tx_interrupt [] (cstate y) = emits tr (Ret tt [] s')) /\
  (forall t c wfuel fuel, cthreads y !! t = Some (c, CReady) -> (0 < wfuel)%nat -> (0 < fuel)%nat ->
    (exists tr r s', ccode wfuel fuel c [clock c] (cstate y) = emits tr (Ret r [] s')) \/
    (exists ch s' wf f, ccode wfuel fuel c [clock c] (cstate y) =
      Sleep ch s' (fun s'' => ccode wf f (advance c (cstate y) s') [clock c] s''))).
Proof.
  intros Hi Hs. destruct (creach_inv x y Hi Hs) as (a & _ & Hr & _). pose proof Hr as [Hin Ho Hu Hp Hsn Eth Hv]. split_and!.
  - intros c Hc. destruct (consoleintr_run [] _ _ _ c Hin Hc (not_elem_of_nil _) (not_elem_of_nil _)) as (tr & s' & E & _). eauto.
  - destruct (tx_interrupt_run _ _ Ho) as (n & s' & E & _). eauto.
  - intros t c wfuel fuel Ht Hw Hf. destruct y as [s p o ths], a as [d l q u p' o' ths']. cbn in *. subst p' o' ths'.
    destruct c as [user_dst dst target n | c]; cbn [clock].
    + destruct (read_step s p o ths t user_dst dst target n wfuel fuel d l q u Hr Ht Hw Hf) as [(r & s' & a' & E & _) | (wf & s' & a' & E & _)].
      * left. exists [], r, s'. exact E.
      * right. exists ch_cons_r, s', wf, fuel. exact E.
    + rewrite Forall_lookup in Hv. destruct (put_code wfuel fuel c s q Ho (Hv t _ Ht) Hw) as [(_ & wf & E) | (_ & n & s' & E & _)].
      * right. exists ch_uart_tx_r, s, wf, fuel. exact E.
      * left. exists (sends (take n (q ++ [c]))), 0, s'. exact E.
Qed.


End system.

(** ** The whole interrupt handler *)

(** A UART with the characters that still arrive: the line status says when the
    next one can be read. *)
Class UartInput (R : Type) `{UartRegs R} := {
  ud_input : R -> list Z;
  ud_lsr : forall r, ud_input (snd (ur_read LSR r)) = ud_input r;
  ud_rhr : forall r, Z.land (u8 (fst (ur_read LSR r))) 1 <> 0 ->
    let r' := snd (ur_read LSR r) in
    exists c, 0 <= c < 256 /\ fst (ur_read RHR r') = c /\ ud_input r' = c :: ud_input (snd (ur_read RHR r')) }.

Section interrupt.
Context {R U : Type} `{UartInput R} `{ConsUser U} `{!ConsUserLaws}.
Implicit Types s : con R U.

Definition typed (l : list Z) (x : list Z * list Z) : list Z * list Z := fold_left (fun x c => edit c (fst x) (snd x)) l x.

(** The receiver has nothing at an access of the line status. *)
Definition rx_empty (r : R) : Prop := Z.land (u8 (fst (ur_read LSR r))) 1 = 0.

Lemma uartgetc_run h s :
  (exists s', uartgetc h s = Ret (-1) h s' /\ same_input s s' /\ rx_empty (uregs s) /\ tx_buf s' = tx_buf s /\ tx_r s' = tx_r s /\ tx_w s' = tx_w s) \/
  (exists c s', uartgetc h s = Ret c h s' /\ 0 <= c < 256 /\ same_input s s' /\ ud_input (uregs s) = c :: ud_input (uregs s') /\ tx_buf s' = tx_buf s /\ tx_r s' = tx_r s /\ tx_w s' = tx_w s).
Proof.
  unfold uartgetc. rewrite bind_ReadReg. set (r' := snd (ur_read LSR (uregs s))).
  change 0x01 with 1. destruct (Z.eqb_spec (Z.land (u8 (fst (ur_read LSR (uregs s)))) 1) 0) as [E | E]; cbn [negb].
  - left. exists (set_uregs r' s). split; [reflexivity |]. split; [repeat split |]. split; auto.
  - right. destruct (ud_rhr (uregs s) E) as (c & Hc & Ec & Ei). rewrite ud_lsr in Ei. exists c, (set_uregs (snd (ur_read RHR r')) s).
    split; [unfold ReadReg; cbn [uregs set_uregs]; fold r' in Ec; now rewrite Ec, u8_small |]. split; [exact Hc |]. split; [repeat split | auto].
Qed.

(** What is printed while characters are typed: the echo of each in the state
    of the line at that time; the list of processes that ctrl-P prints is left
    open. *)
Fixpoint echoed (cs : list Z) (x : list Z * list Z) (tr : list event) : Prop :=
  match cs with
  | [] => tr = []
  | c :: cs' => exists t1 t2, tr = t1 ++ t2 /\ (c <> Ctrl 80 -> t1 = echo c (fst x) (snd x)) /\ echoed cs' (edit c (fst x) (snd x)) t2
  end.

Lemma uartintr_input_run fuel : forall s d l, console_rel s d l -> (length (ud_input (uregs s)) < fuel)%nat -> exists k tr r s',
  uartintr_input fuel [] s = emits tr (Ret tt [] s') /\ (k <= length (ud_input (uregs s)))%nat /\
  console_rel s' (fst (typed (take k (ud_input (uregs s))) (d, l))) (snd (typed (take k (ud_input (uregs s))) (d, l))) /\
  (tx_buf s' = tx_buf s /\ tx_r s' = tx_r s /\ tx_w s' = tx_w s) /\
  echoed (take k (ud_input (uregs s))) (d, l) tr /\ rx_empty r /\ ud_input r = drop k (ud_input (uregs s)) /\ uregs s' = snd (ur_read LSR r).
Proof.
  induction fuel as [|fuel IH]; intros s d l Hc Hf; [lia |]. cbn [uartintr_input].
  destruct (uartgetc_run [] s) as [(s1 & E & Hs & He & T1 & T2 & T3) | (c & s1 & E & Hb & Hs & Ei & T1 & T2 & T3)]; rewrite (bind_Ret _ _ _ _ _ _ _ E).
  - exists O, [], (uregs s), s1. cbn [take drop typed fold_left fst snd echoed]. split_and!; auto; try lia; [cbn; eapply rel_output; eauto | reflexivity |]. unfold uartgetc in E. rewrite bind_ReadReg in E.
    unfold rx_empty in He. change 0x01 with 1 in E. rewrite He in E. now injection E as <-.
  - rewrite (proj2 (Z.eqb_neq c (-1))) by lia. pose proof (rel_output s s1 d l Hc Hs) as Hc1.
    destruct (consoleintr_run [] s1 d l c Hc1 Hb (not_elem_of_nil _) (not_elem_of_nil _)) as (tr & s2 & E2 & Hc2 & (T4 & T5 & T6 & T7 & _) & Htr).
    rewrite (bind_emits _ _ _ _ _ _ _ _ E2). rewrite Ei in Hf. cbn in Hf.
    destruct (IH s2 _ _ Hc2) as (k & tr' & r & s' & E3 & Hk & Hc3 & (T8 & T9 & T10) & He & Hr & Hi & Hu); [rewrite T7; lia |]. rewrite T7 in Hk, Hc3, He, Hi.
    exists (S k), (tr ++ tr'), r, s'. rewrite Ei. cbn [take drop length typed fold_left fst snd echoed]. split_and!; try congruence; [now rewrite E3, emits_app | lia | |].
    + revert Hc3. unfold typed. cbn [fst snd]. now destruct (edit c d l).
    + exists tr, tr'. split_and!; auto. revert He. now destruct (edit c d l).
Qed.

(** The accesses of a device between two of its states: registers are read, and
    the transmitter holding register is written with the bytes [l], in order. *)
Inductive transmits : R -> list Z -> R -> Prop :=
| tm_done r : transmits r [] r
| tm_read a r l r' : transmits (snd (ur_read a r)) l r' -> transmits r l r'
| tm_write c r l r' : transmits (ur_write THR c r) l r' -> transmits r (c :: l) r'.

Definition put_bytes (tr : list event) : list Z := flat_map (fun e => match e with EvPutc c => [c] | _ => [] end) tr.

Lemma put_bytes_sends l : put_bytes (sends l) = l.
Proof. induction l as [|c l IH]; [reflexivity |]. cbn. now f_equal. Qed.

Lemma uartstart_transmits h fuel : forall s tr s', uartstart_loop fuel h s = emits tr (Ret tt h s') -> transmits (uregs s) (put_bytes tr) (uregs s').
Proof.
  induction fuel as [|fuel IH]; intros s tr s' E; cbn [uartstart_loop] in E; [destruct tr; discriminate |]. rewrite bind_get in E.
  destruct (tx_w s =? tx_r s); rewrite bind_ReadReg in E.
  - destruct tr as [|e tr]; [| discriminate]. injection E as <-. eapply tm_read, tm_done.
  - destruct (_ =? 0); [destruct tr as [|e tr]; [| discriminate]; injection E as <-; eapply tm_read, tm_done |].
    rewrite bind_get in E. unfold modify, wakeup, emit, WriteReg, bind in E. cbn [obind] in E.
    destruct tr as [|e1 [|e2 tr]]; try discriminate. injection E as <- <- E. apply IH in E. cbn [put_bytes flat_map app].
    eapply tm_read, tm_write. exact E.
Qed.

(** C10: The interrupt handler of the UART terminates on a device that has a
    finite number of characters to give.  It reads characters until the line
    status says that there is none: [r] is the state of the device at that
    access, at which the [k] first characters have been read and the others are
    still to come.  Each character goes through the line editor, in order, and is
    echoed as it should be.  Then the handler sends output: the [n] first bytes
    that waited are written to the transmitter holding register, in order and
    nothing else is written; the others stay in the ring, and there are such only
    if the device has said that it is busy.  No lock is held at the end. *)
Theorem uartintr_terminates s d l q fuel : console_rel s d l -> tx_ring s q -> (length (ud_input (uregs s)) < fuel)%nat ->
  exists k n tr r s', let chars := take k (ud_input (uregs s)) in
    uartintr fuel [] s = emits (tr ++ sends (take n q)) (Ret tt [] s') /\
    rx_empty r /\ ud_input r = drop k (ud_input (uregs s)) /\ console_rel s' (fst (typed chars (d, l))) (snd (typed chars (d, l))) /\ echoed chars (d, l) tr /\
    transmits r (take n q) (uregs s') /\ tx_ring s' (drop n q) /\ (drop n q <> [] -> uart_busy (uregs s')).
Proof.
  intros Hc Ho Hf. destruct (uartintr_input_run fuel s d l Hc Hf) as (k & tr & r & s1 & E1 & _ & Hc1 & (T1 & T2 & T3) & He & Hr & Hi & Hu).
  assert (Ho1 : tx_ring s1 q) by (destruct Ho as [Ho Hb]; split; [now rewrite T1, T2, T3 | exact Hb]).
  destruct (uartstart_run [uart_tx_lock] s1 q Ho1) as (n & s' & E2 & _ & Ho2 & Hs & Hb).
  exists k, n, tr, r, s'. split_and!; auto; [| eapply rel_output; eauto |].
  - unfold uartintr. rewrite (bind_emits _ _ _ _ _ _ _ _ E1), (bind_Ret _ _ _ _ _ _ _ (acquire_free uart_tx_lock [] s1 (not_elem_of_nil _))).
    now rewrite (bind_emits _ _ _ _ _ _ _ _ E2), release_top, emits_app.
  - apply uartstart_transmits in E2. rewrite put_bytes_sends, Hu in E2. eapply tm_read, E2.
Qed.

End interrupt.

(** ** A terminal

    A UART with typed characters that is always ready to send; a process whose
    memory is a list of what was written to it. *)

#[global] Instance tty_regs : UartRegs (list Z) := {|
  ur_read a l := if a =? LSR then (match l with [] => 32 | _ => 33 end, l) else match l with [] => (0, []) | c :: l' => (c mod 256, l') end;
  ur_write a v l := l |}.

#[global] Instance tty_input : UartInput (list Z).
Proof.
  refine {| ud_input := map (fun c => c mod 256) |}; [intros []; reflexivity |]. intros [|c l]; cbn; [intros E; now destruct E |]. intros _.
  exists (c mod 256). split_and!; auto; apply Z.mod_pos_bound; lia.
Defined.

#[global] Instance tty_user : ConsUser (list Z) := {|
  cu_in _ _ _ := None; cu_out _ _ c u := Some (u ++ [c]); cu_killed _ := false; cu_dump := ret tt |}.

#[global] Instance tty_laws : ConsUserLaws (U := list Z).
Proof. intros h u _. now exists []. Defined.

Definition tty (l : list Z) : con (list Z) (list Z) := Con (repeat 0 128) 0 0 0 (repeat 0 32) 0 0 l [].

Definition tty_sys : csys := CSys (tty []) [] [] [].

Lemma tty_init : cinit tty_sys.
Proof. repeat split; reflexivity. Qed.

(** The characters a, b, delete, c, newline are typed, and a reader of ten bytes
    gets "ac" and the newline; a writer puts x. *)
Lemma tty_run : exists y, rtc cstep tty_sys y /\ user (cstate y) = [97; 99; 10] /\ puts y = [120] /\ sent y = [120] /\
  cthreads y = [(CRead 1 0 10 10, CFinished); (CPut 120, CFinished)].
Proof.
  eexists. split.
  - eapply rtc_l; [apply (cs_type (tty []) [] [] [] 97 [EvPutc 97]); [lia | vm_compute; reflexivity] |].
    eapply rtc_l; [eapply (cs_type _ [] [] [] 98 [EvPutc 98]); [lia | vm_compute; reflexivity] |].
    eapply rtc_l; [eapply (cs_type _ [] [] [] 0x7f rubout); [lia | vm_compute; reflexivity] |].
    eapply rtc_l; [eapply (cs_type _ [] [] [] 99 [EvPutc 99]); [lia | vm_compute; reflexivity] |].
    eapply rtc_l; [eapply (cs_type _ [] [] [] 13 [EvPutc 10; EvWakeup ch_cons_r]); [lia | vm_compute; reflexivity] |].
    eapply rtc_l; [eapply (cs_call _ _ _ _ (CRead 1 0 10 10)); cbn; lia |].
    eapply rtc_l; [eapply (cs_return _ _ _ _ 0%nat (CRead 1 0 10 10) 1 1 [] 3); [reflexivity | lia | lia | vm_compute; reflexivity] |].
    eapply rtc_l; [eapply (cs_call _ _ _ _ (CPut 120)); cbn; lia |].
    eapply rtc_l; [eapply (cs_return _ _ _ _ 1%nat (CPut 120) 1 1 [EvWakeup ch_uart_tx_r; EvPutc 120] 0); [reflexivity | lia | lia | vm_compute; reflexivity] |].
    apply rtc_refl.
  - repeat split; reflexivity.
Qed.

(** A reader that sleeps, with nothing typed. *)
Lemma tty_wait : exists y, rtc cstep tty_sys y /\ cthreads y = [(CRead 1 0 10 10, CAsleep ch_cons_r)].
Proof.
  eexists. split.
  - eapply rtc_l; [apply (cs_call (tty []) [] [] [] (CRead 1 0 10 10)); cbn; lia |].
    eapply rtc_l; [| apply rtc_refl].
    eapply (cs_sleep _ _ _ _ 0%nat (CRead 1 0 10 10) 1 1 [] ch_cons_r _ _ 0 1); [reflexivity | lia | lia | reflexivity | reflexivity].
  - reflexivity.
Qed.

Lemma console_refines_witness : exists (y : csys (R := list Z)) a, rtc cspec (ainit []) a /\ crel y a /\ a_user a = [97; 99; 10] /\
  a_threads a = [(CRead 1 0 10 10, CFinished); (CPut 120, CFinished)].
Proof.
  destruct tty_run as (y & Hr & Hu & _ & _ & Ht). destruct (console_refines tty_sys y tty_init Hr) as (a & Ha & Hrel).
  exists y, a. split; [exact Ha |]. split; [exact Hrel |]. destruct Hrel as [_ _ E1 _ _ E2 _]. split; congruence.
Defined.

Lemma uart_fifo_witness : exists (y : csys (R := list Z) (U := list Z)) q, puts y = [120] /\ puts y = sent y ++ q /\ tx_ring (cstate y) q.
Proof.
  destruct tty_run as (y & Hr & _ & Hp & _). destruct (uart_fifo tty_sys y tty_init Hr) as (q & E & Hq). exists y, q. auto.
Defined.

Lemma console_no_lost_wakeup_witness : exists y : csys (R := list Z) (U := list Z),
  cthreads y = [(CRead 1 0 10 10, CAsleep ch_cons_r)] /\ c_r (cstate y) = c_w (cstate y).
Proof.
  destruct tty_wait as (y & Hr & Ht). exists y. split; [exact Ht |].
  assert (E : cthreads y !! 0%nat = Some (CRead 1 0 10 10, CAsleep ch_cons_r)) by (rewrite Ht; reflexivity).
  exact (proj2 (console_no_lost_wakeup tty_sys y 0%nat _ _ tty_init Hr E)).
Defined.

Lemma console_progress_witness : exists tr s', consoleintr 97 [] (tty []) = emits tr (Ret tt [] s').
Proof. destruct (console_progress tty_sys tty_sys tty_init (rtc_refl _ _)) as [Hp _]. apply Hp. lia. Defined.

Lemma uartintr_terminates_witness : exists n tr s', uartintr 4 [] (tty [104; 105; 13]) = emits tr (Ret tt [] s') /\
  console_rel s' [104; 105; 10] [] /\ tx_ring s' (drop n []).
Proof.
  pose proof (cinit_rel (CSys (tty [104; 105; 13]) [] [] []) ltac:(repeat split; reflexivity)) as [Hi Ho _ _ _ _ _].
  assert (Hf : (length (ud_input (uregs (tty [104; 105; 13]%Z))) < 4)%nat) by (vm_compute; lia).
  destruct (uartintr_terminates (tty [104; 105; 13]) [] [] [] 4 Hi Ho Hf) as (k & n & tr & r & s' & E & Hr & Hk & Hc & _ & _ & Hq & _).
  exists n, (tr ++ sends (take n [])), s'. split; [exact E |]. split; [| exact Hq].
  assert (Ek : drop k [104; 105; 13] = []) by (destruct r as [|c r]; [symmetry; exact Hk | discriminate Hr]).
  cbn [ud_input tty_input uregs tty map] in Hc. change (104 mod 256) with 104 in Hc. change (105 mod 256) with 105 in Hc. change (13 mod 256) with 13 in Hc.
  pose proof (take_drop k [104; 105; 13]) as Et. rewrite Ek, app_nil_r in Et. rewrite Et in Hc. exact Hc.
Defined.
