(* ===== verification/Pipe.v ===== *)
(** * Pipes (kernel/pipe.c)

    The state that contains pipes says how to read and write the one at an
    address, and what the running process sees of its user memory and of a
    pending kill ([PipeEnv]).  A call that has to wait sleeps with its
    continuation.  [pipealloc] is with the file table. *)

From S2P Require Import Prelude KMonad Trace.

Definition PIPESIZE : Z := 512.

Record pipe := MkPipe {
  pdata : list Z; nread : Z; nwrite : Z; readopen : Z; writeopen : Z }.

(** User memory: [peek] is [copyin] of one byte and [poke] is [copyout] of one
    byte, [None] their failure. *)
Class PipeEnv (S : Type) := {
  pipe_of : Z -> S -> pipe;
  set_pipe : Z -> pipe -> S -> S;
  killed : S -> bool;
  peek : Z -> S -> option Z;
  poke : Z -> Z -> S -> option S;
}.

Class PipeEnvLaws (S : Type) `{PipeEnv S} := {
  pipe_set : forall pi p s, pipe_of pi (set_pipe pi p s) = p;
  set_get : forall pi s, set_pipe pi (pipe_of pi s) s = s;
  set_set : forall pi p p' s, set_pipe pi p (set_pipe pi p' s) = set_pipe pi p s;
  killed_set : forall pi p s, killed (set_pipe pi p s) = killed s;
  peek_set : forall pi p a s, peek a (set_pipe pi p s) = peek a s;
  poke_set : forall pi p a b s, poke a b (set_pipe pi p s) = option_map (set_pipe pi p) (poke a b s);
  pipe_poke : forall pi a b s s', poke a b s = Some s' -> pipe_of pi s' = pipe_of pi s;
}.

Definition set_nwrite_data (p : pipe) (ch : Z) : pipe :=
  MkPipe (updZ (pdata p) (nwrite p mod PIPESIZE) ch) (nread p) (u32 (nwrite p + 1)) (readopen p) (writeopen p).
Definition set_nread (p : pipe) : pipe :=
  MkPipe (pdata p) (u32 (nread p + 1)) (nwrite p) (readopen p) (writeopen p).
Definition set_readopen (v : Z) (p : pipe) : pipe := MkPipe (pdata p) (nread p) (nwrite p) v (writeopen p).
Definition set_writeopen (v : Z) (p : pipe) : pipe := MkPipe (pdata p) (nread p) (nwrite p) (readopen p) v.

Section pipes.
Context {S : Type} `{PipeEnv S}.

Definition getp (pi : Z) : M S pipe := gets (pipe_of pi).
Definition modp (pi : Z) (f : pipe -> pipe) : M S unit := modify (fun s => set_pipe pi (f (pipe_of pi s)) s).

(** The initialisation of [pipealloc]. *)
Definition pipe_init (pi : Z) : M S unit :=
  modp pi (fun p => MkPipe (pdata p) 0 0 1 1);;
  initlock (pipe_lock pi).

(** [kfree] of the page of the pipe, when both ends are closed. *)
Definition pipeclose (kfree : Z -> M S unit) (pi : Z) (writable : bool) : M S unit :=
  acquire (pipe_lock pi);;
  (if writable then
     modp pi (set_writeopen 0);;
     wakeup (ch_pipe_nread pi)
   else
     modp pi (set_readopen 0);;
     wakeup (ch_pipe_nwrite pi));;
  p <- getp pi;;
  if (readopen p =? 0) && (writeopen p =? 0) then
    release (pipe_lock pi);;
    kfree pi
  else release (pipe_lock pi).

(** The loop of [pipewrite]: how many bytes have been written, or [None] when
    the function has returned -1. *)
Fixpoint pipewrite_loop (fuel : nat) (pi addr n i : Z) : M S (option Z) :=
  if negb (i <? n) then ret (Some i)
  else
    match fuel with
    | O => out_of_fuel
    | Datatypes.S fuel' =>
        p <- getp pi;;
        k <- gets killed;;
        if (readopen p =? 0) || k then
          release (pipe_lock pi);;
          ret None
        else if nwrite p =? u32 (nread p + PIPESIZE) then
          wakeup (ch_pipe_nread pi);;
          sleep (ch_pipe_nwrite pi) (pipe_lock pi);;
          pipewrite_loop fuel' pi addr n i
        else
          c <- gets (peek (u64 (addr + i)));;
          match c with
          | None => ret (Some i)
          | Some ch =>
              modp pi (fun p => set_nwrite_data p ch);;
              pipewrite_loop fuel' pi addr n (i + 1)
          end
    end.

(** From inside the critical section, with [i] bytes written. *)
Definition pipewrite_from (fuel : nat) (pi addr n i : Z) : M S Z :=
  r <- pipewrite_loop fuel pi addr n i;;
  match r with
  | None => ret (-1)
  | Some i =>
      wakeup (ch_pipe_nread pi);;
      release (pipe_lock pi);;
      ret i
  end.

Definition pipewrite (fuel : nat) (pi addr n : Z) : M S Z :=
  acquire (pipe_lock pi);;
  pipewrite_from fuel pi addr n 0.

(** The waiting loop of [piperead]; [true] when the function has returned -1. *)
Fixpoint piperead_wait (fuel : nat) (pi : Z) : M S bool :=
  p <- getp pi;;
  if (nread p =? nwrite p) && negb (writeopen p =? 0) then
    match fuel with
    | O => out_of_fuel
    | Datatypes.S fuel' =>
        k <- gets killed;;
        if (k : bool) then
          release (pipe_lock pi);;
          ret true
        else
          sleep (ch_pipe_nread pi) (pipe_lock pi);;
          piperead_wait fuel' pi
    end
  else ret false.

Fixpoint piperead_copy (k : nat) (pi addr i : Z) : M S Z :=
  match k with
  | O => ret i
  | Datatypes.S k' =>
      p <- getp pi;;
      if nread p =? nwrite p then ret i
      else
        let ch := nthZ 0 (pdata p) (nread p mod PIPESIZE) in
        modp pi set_nread;;
        s <- get;;
        match poke (u64 (addr + i)) ch s with
        | None => ret i
        | Some s' => modify (fun _ => s');; piperead_copy k' pi addr (i + 1)
        end
  end.

Definition piperead_from (fuel : nat) (pi addr n : Z) : M S Z :=
  stop <- piperead_wait fuel pi;;
  if (stop : bool) then ret (-1)
  else
    i <- piperead_copy (Z.to_nat n) pi addr 0;;
    wakeup (ch_pipe_nwrite pi);;
    release (pipe_lock pi);;
    ret i.

Definition piperead (fuel : nat) (pi addr n : Z) : M S Z :=
  acquire (pipe_lock pi);;
  piperead_from fuel pi addr n.

End pipes.

(** ** What a pipe holds *)

(** The bytes in a pipe, in the order they were written. *)
Record holds (p : pipe) (q : list Z) : Prop := {
  ho_len : length (pdata p) = Z.to_nat PIPESIZE;
  ho_read : 0 <= nread p < 2 ^ 32;
  ho_write : nwrite p = u32 (nread p + Z.of_nat (length q));
  ho_room : Z.of_nat (length q) <= PIPESIZE;
  ho_byte : forall j, 0 <= j < Z.of_nat (length q) ->
    nthZ 0 (pdata p) ((nread p + j) mod PIPESIZE) = nthZ 0 q j;
}.

Lemma mod_wrap a : (a mod 2 ^ 32) mod PIPESIZE = a mod PIPESIZE.
Proof.
  change (2 ^ 32) with (PIPESIZE * 8388608). unfold PIPESIZE.
  rewrite Z.rem_mul_r by lia. rewrite Z.mul_comm, Z.mod_add by lia. apply Z.mod_mod. lia.
Qed.

Lemma holds_empty p q : holds p q -> (nread p =? nwrite p) = bool_decide (q = []).
Proof.
  intros [_ Hr Hw Hroom _]. rewrite Hw. unfold u32, PIPESIZE in *.
  destruct q as [|c q]; [rewrite Z.add_0_r, Z.mod_small, Z.eqb_refl by lia; reflexivity|].
  rewrite bool_decide_eq_false_2 by discriminate. apply Z.eqb_neq. cbn [length] in *.
  destruct (Z_lt_le_dec (nread p + Z.of_nat (Datatypes.S (length q))) (2 ^ 32)).
  - rewrite Z.mod_small; lia.
  - rewrite <- (Z.mod_unique (nread p + Z.of_nat (Datatypes.S (length q))) (2 ^ 32) 1
      (nread p + Z.of_nat (Datatypes.S (length q)) - 2 ^ 32)); [lia | left; lia | lia].
Qed.

Lemma holds_full p q : holds p q ->
  (nwrite p =? u32 (nread p + PIPESIZE)) = (Z.of_nat (length q) =? PIPESIZE).
Proof.
  intros [_ Hr Hw Hroom _]. rewrite Hw. unfold u32, PIPESIZE in *.
  destruct (Z.eqb_spec (Z.of_nat (length q)) 512) as [-> | N]; [apply Z.eqb_refl|]. apply Z.eqb_neq. intros E.
  apply N. assert (Hd : (nread p + 512 - (nread p + Z.of_nat (length q))) mod 2 ^ 32 = 0).
  { rewrite Zminus_mod, <- E, Z.sub_diag. reflexivity. }
  rewrite Z.mod_small in Hd; lia.
Qed.

Lemma holds_push p q ch : holds p q -> Z.of_nat (length q) < PIPESIZE -> holds (set_nwrite_data p ch) (q ++ [ch]).
Proof.
  intros [Hl Hr Hw Hroom Hb] Hlt. assert (El : Z.of_nat (length (q ++ [ch])) = Z.of_nat (length q) + 1)
    by (rewrite length_app; cbn; lia).
  assert (Hidx : nwrite p mod PIPESIZE = (nread p + Z.of_nat (length q)) mod PIPESIZE) by (rewrite Hw; apply mod_wrap).
  assert (Hpos : forall a, 0 <= a mod PIPESIZE < PIPESIZE) by (intros a; apply Z.mod_pos_bound; reflexivity).
  split; cbn [set_nwrite_data pdata nread nwrite]; auto.
  - now rewrite length_updZ.
  - rewrite Hw, El. unfold u32. rewrite Zplus_mod_idemp_l. f_equal. lia.
  - lia.
  - intros j Hj. rewrite El in Hj. rewrite Hidx. destruct (Z.eq_dec j (Z.of_nat (length q))) as [-> | N].
    + rewrite nthZ_updZ_eq by (rewrite Hl; specialize (Hpos (nread p + Z.of_nat (length q))); unfold PIPESIZE in *; lia).
      unfold nthZ. rewrite Nat2Z.id. now rewrite nth_middle.
    + rewrite nthZ_updZ_ne.
      * rewrite Hb by lia. unfold nthZ. rewrite app_nth1 by lia. reflexivity.
      * apply Hpos. * apply Hpos.
      * intros E. apply N. assert (Hd : (nread p + Z.of_nat (length q) - (nread p + j)) mod PIPESIZE = 0).
        { rewrite Zminus_mod, E, Z.sub_diag. reflexivity. }
        rewrite Z.mod_small in Hd; lia.
Qed.

Lemma holds_pop p q ch : holds p (ch :: q) ->
  nthZ 0 (pdata p) (nread p mod PIPESIZE) = ch /\ holds (set_nread p) q.
Proof.
  intros [Hl Hr Hw Hroom Hb]. cbn [length] in *. split.
  - specialize (Hb 0 ltac:(lia)). now rewrite Z.add_0_r in Hb.
  - split; cbn [set_nread pdata nread nwrite]; auto; [apply u32_range | | lia |].
    + rewrite Hw. unfold u32. rewrite Zplus_mod_idemp_l. f_equal. lia.
    + intros j Hj. unfold u32. rewrite <- Zplus_mod_idemp_l, mod_wrap, Zplus_mod_idemp_l.
      replace (nread p + 1 + j) with (nread p + (j + 1)) by lia. rewrite Hb by lia.
      unfold nthZ. replace (Z.to_nat (j + 1)) with (Datatypes.S (Z.to_nat j)) by lia. reflexivity.
Qed.

(** ** One turn of a call: from the critical section to its end or to sleep *)

(** Bytes [i, i + k) of the source, when they can all be read. *)
Fixpoint source {S} `{PipeEnv S} (s : S) (addr i : Z) (k : nat) : option (list Z) :=
  match k with
  | O => Some []
  | Datatypes.S k' =>
      match peek (u64 (addr + i)) s, source s addr (i + 1) k' with
      | Some c, Some bs => Some (c :: bs)
      | _, _ => None
      end
  end.

(** The pipe after bytes have been appended. *)
Definition pushed (p : pipe) (bs : list Z) : pipe := fold_left set_nwrite_data bs p.

(** User memory after bytes have been stored from [addr + i] on. *)
Fixpoint pokes {S} `{PipeEnv S} (addr i : Z) (bs : list Z) (s : S) : option S :=
  match bs with
  | [] => Some s
  | c :: bs' =>
      match poke (u64 (addr + i)) c s with
      | Some s' => pokes addr (i + 1) bs' s'
      | None => None
      end
  end.

Lemma pushed_holds bs : forall p q, holds p q -> Z.of_nat (length q + length bs) <= PIPESIZE ->
  holds (pushed p bs) (q ++ bs).
Proof.
  induction bs as [|c bs IH]; intros p q Hp Hl; [now rewrite app_nil_r|].
  cbn [length] in Hl. cbn [pushed fold_left]. replace (q ++ c :: bs) with ((q ++ [c]) ++ bs) by now rewrite <- app_assoc.
  apply IH; [apply holds_push; auto; lia | rewrite length_app; cbn; lia].
Qed.

Lemma pushed_open bs : forall p, readopen (pushed p bs) = readopen p /\ writeopen (pushed p bs) = writeopen p.
Proof. induction bs as [|c bs IH]; intros p; auto. cbn [pushed fold_left]. destruct (IH (set_nwrite_data p c)) as [E1 E2]. auto. Qed.

Section turns.
Context {S : Type} `{PipeEnvLaws S}.
Variables (pi addr n : Z).

Lemma sleep_top (c : channel) (l : lockname) (s : S) : sleep c l [l] s = Sleep c s (fun s' => Ret tt [l] s').
Proof. unfold sleep. rewrite decide_True by apply list_elem_of_here. cbn. now rewrite decide_True. Qed.

(** How a turn of [pipewrite] ends after appending [bs]. *)
Inductive write_turn (i : Z) (s : S) (q bs : list Z) : outcome S Z -> Prop :=
| write_closed : bs = [] -> readopen (pipe_of pi s) = 0 \/ killed s = true ->
    write_turn i s q bs (Ret (-1) [] s)
| write_done : i + Z.of_nat (length bs) = n \/ peek (u64 (addr + i + Z.of_nat (length bs))) s = None ->
    write_turn i s q bs
      (emits [EvWakeup (ch_pipe_nread pi)] (Ret (i + Z.of_nat (length bs)) [] (set_pipe pi (pushed (pipe_of pi s) bs) s)))
| write_sleep fuel : i + Z.of_nat (length bs) < n -> Z.of_nat (length (q ++ bs)) = PIPESIZE ->
    readopen (pipe_of pi s) <> 0 -> killed s = false ->
    write_turn i s q bs
      (emits [EvWakeup (ch_pipe_nread pi)] (Sleep (ch_pipe_nwrite pi) (set_pipe pi (pushed (pipe_of pi s) bs) s)
        (fun s' => pipewrite_from fuel pi addr n (i + Z.of_nat (length bs)) [pipe_lock pi] s'))).

Lemma write_turn_cons i s q c bs o p' : p' = set_nwrite_data (pipe_of pi s) c ->
  killed s = false -> readopen (pipe_of pi s) <> 0 ->
  write_turn (i + 1) (set_pipe pi p' s) (q ++ [c]) bs o -> write_turn i s q (c :: bs) o.
Proof.
  intros -> Hk Hr Hw. inversion Hw as [Hbs Hcl E | Hd E | fuel Hlt Hfull Hop Hkk E].
  - exfalso. rewrite killed_set, pipe_set in Hcl. cbn in Hcl. destruct Hcl; congruence.
  - rewrite set_set, pipe_set in *. replace (i + 1 + Z.of_nat (length bs)) with (i + Z.of_nat (length (c :: bs))) in * by (cbn; lia).
    apply write_done. rewrite peek_set in Hd. replace (addr + (i + 1) + Z.of_nat (length bs)) with
      (addr + i + Z.of_nat (length (c :: bs))) in Hd by (cbn; lia). exact Hd.
  - rewrite set_set, pipe_set in *. replace (i + 1 + Z.of_nat (length bs)) with (i + Z.of_nat (length (c :: bs))) in * by (cbn; lia).
    apply write_sleep; auto. now rewrite <- app_assoc in Hfull.
Qed.

Lemma source_set (p : pipe) (s : S) k : forall i, source (set_pipe pi p s) addr i k = source s addr i k.
Proof. induction k as [|k IH]; intros i; cbn; auto. now rewrite peek_set, IH. Qed.

Lemma pipewrite_turn : forall (fuel : nat) i s q, holds (pipe_of pi s) q -> 0 <= i <= n ->
  n - i < Z.of_nat fuel ->
  exists bs, source s addr i (length bs) = Some bs /\ Z.of_nat (length (q ++ bs)) <= PIPESIZE /\
    write_turn i s q bs (pipewrite_from fuel pi addr n i [pipe_lock pi] s).
Proof.
  induction fuel as [|fuel IH]; intros i s q Hp Hi Hf; [lia|].
  unfold pipewrite_from. cbn [pipewrite_loop]. destruct (Z.ltb_spec i n) as [Hlt | Hge]; cbn [negb].
  2: { exists []. cbn [length source]. split_and!; auto; [rewrite app_nil_r; apply Hp|]. krun.
       pose proof (write_done i s q [] ltac:(left; cbn; lia)) as W. cbn [pushed fold_left length] in W.
       rewrite set_get, Z.add_0_r in W.
       unfold bind, wakeup, emit. cbn [obind]. rewrite release_top. exact W. }
  unfold getp. krun. destruct (Z.eqb_spec (readopen (pipe_of pi s)) 0) as [Er | Er]; cbn [orb].
  { exists []. cbn [length source]. split_and!; auto; [rewrite app_nil_r; apply Hp|]. krun. apply write_closed; auto. }
  destruct (killed s) eqn:Ek.
  { exists []. cbn [length source]. split_and!; auto; [rewrite app_nil_r; apply Hp|]. krun. apply write_closed; auto. }
  rewrite (holds_full _ _ Hp). destruct (Z.eqb_spec (Z.of_nat (length q)) PIPESIZE) as [Ef | Ef].
  { exists []. cbn [length source]. split_and!; auto; [rewrite app_nil_r; lia|].
    pose proof (write_sleep i s q [] fuel ltac:(cbn; lia) ltac:(rewrite app_nil_r; auto) Er Ek) as W.
    cbn [pushed fold_left length] in W. rewrite set_get, Z.add_0_r in W.
    unfold bind at 1, bind at 1, wakeup, emit. cbn [obind]. unfold bind at 1. rewrite sleep_top. cbn [obind]. exact W. }
  krun. destruct (peek (u64 (addr + i)) s) as [c|] eqn:Ec.
  - unfold modp. krun. set (p' := set_nwrite_data (pipe_of pi s) c).
    destruct (IH (i + 1) (set_pipe pi p' s) (q ++ [c])) as (bs & Hs & Hl & Hw).
    + rewrite pipe_set. apply holds_push; auto. pose proof (ho_room _ _ Hp). lia.
    + lia. + lia.
    + exists (c :: bs). split_and!.
      * cbn [length source]. rewrite source_set in Hs. now rewrite Ec, Hs.
      * now rewrite <- app_assoc in Hl.
      * now apply (write_turn_cons i s q c bs _ p').
  - exists []. cbn [length source]. split_and!; auto; [rewrite app_nil_r; apply Hp|].
    pose proof (write_done i s q [] ltac:(right; cbn [length]; now rewrite Z.add_0_r)) as W. cbn [pushed fold_left length] in W.
    rewrite set_get, Z.add_0_r in W. krun. unfold bind, wakeup, emit. cbn [obind]. rewrite release_top. exact W.
Qed.

Definition popped (m : nat) (p : pipe) : pipe := Nat.iter m set_nread p.

Lemma popped_holds m : forall p q, holds p q -> (m <= length q)%nat -> holds (popped m p) (drop m q).
Proof.
  induction m as [|m IH]; intros p q Hp Hm; [now rewrite drop_0|].
  assert (Hm' : (m < length q)%nat) by lia. specialize (IH p q Hp ltac:(lia)).
  destruct (lookup_lt_is_Some_2 q m Hm') as [c Hc]. rewrite (drop_S q c m Hc) in IH.
  now apply holds_pop in IH as [_ IH].
Qed.

Lemma popped_open m p : readopen (popped m p) = readopen p /\ writeopen (popped m p) = writeopen p.
Proof. induction m as [|m [IH1 IH2]]; auto. Qed.

Lemma popped_S m p : popped m (set_nread p) = popped (Datatypes.S m) p.
Proof. unfold popped. rewrite Nat.iter_succ_r. reflexivity. Qed.

Lemma pokes_set (p : pipe) bs : forall i (s : S),
  pokes addr i bs (set_pipe pi p s) = option_map (set_pipe pi p) (pokes addr i bs s).
Proof.
  induction bs as [|c bs IH]; intros i s; cbn; auto. rewrite poke_set.
  destruct (poke (u64 (addr + i)) c s); cbn; auto.
Qed.

Lemma pokes_pipe bs : forall i (s s' : S), pokes addr i bs s = Some s' -> pipe_of pi s' = pipe_of pi s.
Proof.
  induction bs as [|c bs IH]; cbn; intros i s s' E; [congruence|].
  destruct (poke (u64 (addr + i)) c s) as [s1|] eqn:E1; [|discriminate].
  rewrite (IH _ _ _ E). now apply (pipe_poke pi (u64 (addr + i)) c).
Qed.

(** What [piperead] takes out of the pipe: the bytes [bs] it stores in user
    memory, and one more, [lost], if user memory does not accept it. *)
Record taken (i : Z) (k : nat) (s : S) (q bs lost : list Z) (s' : S) : Prop := {
  tk_prefix : exists rest, q = bs ++ lost ++ rest;
  tk_stored : pokes addr i bs s = Some s';
  tk_lost : (lost = [] /\ length bs = Nat.min k (length q)) \/
    (exists c, lost = [c] /\ poke (u64 (addr + i + Z.of_nat (length bs))) c s' = None /\ (length bs < k)%nat);
}.

Lemma piperead_copy_turn : forall k i (s : S) q, holds (pipe_of pi s) q ->
  exists bs lost s', taken i k s q bs lost s' /\
    piperead_copy k pi addr i [pipe_lock pi] s =
      Ret (i + Z.of_nat (length bs)) [pipe_lock pi]
          (set_pipe pi (popped (length bs + length lost) (pipe_of pi s)) s').
Proof.
  induction k as [|k IH]; intros i s q Hp; cbn [piperead_copy].
  { exists [], [], s. split; [|cbn; now rewrite Z.add_0_r, set_get]. split; [now exists q | reflexivity | left; auto]. }
  unfold getp. krun. rewrite (holds_empty _ _ Hp). destruct q as [|c q].
  { rewrite bool_decide_eq_true_2 by auto. exists [], [], s. split; [|cbn; now rewrite Z.add_0_r, set_get].
    split; [now exists [] | reflexivity | left; auto]. }
  rewrite bool_decide_eq_false_2 by discriminate. destruct (holds_pop _ _ _ Hp) as [Ec Hp']. rewrite Ec.
  unfold modp. krun. set (s1 := set_pipe pi (set_nread (pipe_of pi s)) s).
  change (bind get ?f [pipe_lock pi] s1) with (f s1 [pipe_lock pi] s1). cbn beta.
  unfold s1 at 1. rewrite poke_set. destruct (poke (u64 (addr + i)) c s) as [s2|] eqn:Ek; cbn [option_map].
  - krun. pose proof (pipe_poke pi _ _ _ _ Ek) as Epipe.
    destruct (IH (i + 1) (set_pipe pi (set_nread (pipe_of pi s)) s2) q) as (bs & lost & s' & Ht & E).
    { now rewrite pipe_set. }
    rewrite E, pipe_set. destruct Ht as [[rest Hq] Hst Hlost]. rewrite pokes_set in Hst.
    destruct (pokes addr (i + 1) bs s2) as [s3|] eqn:E3; [|discriminate]. cbn in Hst. injection Hst as <-.
    exists (c :: bs), lost, s3. split.
    + split; [exists rest; cbn; congruence | cbn; now rewrite Ek, E3 |].
      destruct Hlost as [[-> Hl] | (b & -> & Hb & Hl)]; [left; cbn; auto | right; exists b; split_and!; auto; [|cbn; lia]].
      rewrite poke_set in Hb. replace (addr + i + Z.of_nat (length (c :: bs))) with (addr + (i + 1) + Z.of_nat (length bs)) by (cbn; lia).
      destruct (poke _ b s3); [discriminate | auto].
    + rewrite set_set, popped_S. cbn [length]. f_equal. lia.
  - exists [], [c], s. split; [|cbn; now rewrite Z.add_0_r]. split; [now exists q | reflexivity |].
    right. exists c. cbn. rewrite Z.add_0_r. split_and!; auto. lia.
Qed.

Inductive read_turn (s : S) (q : list Z) : outcome S Z -> Prop :=
| read_killed : q = [] -> writeopen (pipe_of pi s) <> 0 -> killed s = true -> read_turn s q (Ret (-1) [] s)
| read_sleep fuel : q = [] -> writeopen (pipe_of pi s) <> 0 -> killed s = false ->
    read_turn s q (Sleep (ch_pipe_nread pi) s (fun s' => piperead_from fuel pi addr n [pipe_lock pi] s'))
| read_done bs lost s' : q <> [] \/ writeopen (pipe_of pi s) = 0 -> taken 0 (Z.to_nat n) s q bs lost s' ->
    read_turn s q (emits [EvWakeup (ch_pipe_nwrite pi)] (Ret (Z.of_nat (length bs)) []
      (set_pipe pi (popped (length bs + length lost) (pipe_of pi s)) s'))).

Lemma piperead_turn (fuel : nat) s q : holds (pipe_of pi s) q ->
  read_turn s q (piperead_from (Datatypes.S fuel) pi addr n [pipe_lock pi] s).
Proof.
  intros Hp. unfold piperead_from. cbn [piperead_wait]. unfold getp. krun. rewrite (holds_empty _ _ Hp).
  assert (Hcopy : q <> [] \/ writeopen (pipe_of pi s) = 0 ->
    read_turn s q ((i <- piperead_copy (Z.to_nat n) pi addr 0;; wakeup (ch_pipe_nwrite pi);; release (pipe_lock pi);; ret i)
      [pipe_lock pi] s)).
  { intros Hgo. destruct (piperead_copy_turn (Z.to_nat n) 0 s q Hp) as (bs & lost & s' & Ht & E).
    erewrite bind_Ret by exact E. rewrite Z.add_0_l. unfold bind, wakeup, emit. cbn [obind]. rewrite release_top.
    now apply (read_done s q bs lost s'). }
  destruct q as [|c q]; [rewrite bool_decide_eq_true_2 by auto | rewrite bool_decide_eq_false_2 by discriminate]; cbn [andb].
  - destruct (Z.eqb_spec (writeopen (pipe_of pi s)) 0) as [Ew | Ew]; cbn [negb]; krun; [apply Hcopy; auto|].
    destruct (killed s) eqn:Ek; krun; [now apply read_killed|].
    unfold bind at 1, bind at 1. rewrite sleep_top. cbn [obind]. now apply (read_sleep s [] fuel).
  - krun. apply Hcopy. left. discriminate.
Qed.

End turns.
