(* ===== verification/PipeSpec.v ===== *)
(** * Correctness of pipes

    Any number of readers and writers of one pipe, scheduled in any order,
    with the rest of the kernel free to act between their turns: the bytes
    come out in the order they went in, and no thread sleeps while what it
    waits for is there. *)

From S2P Require Import Prelude KMonad Trace Pipe.

(** A call in its critical section; a writer has written [i] bytes so far. *)
Inductive call := WriteCall (addr n i : Z) | ReadCall (addr n : Z).

Inductive status := Ready | Waiting (c : channel) | Finished (r : Z).

Section system.
Context {S : Type} `{PipeEnvLaws S}.
Variable pi : Z.

Record conf := Conf { world : S; threads : list (call * status) }.

Definition code (fuel : nat) (c : call) : M S Z :=
  match c with
  | WriteCall addr n i => pipewrite_from fuel pi addr n i
  | ReadCall addr n => piperead_from fuel pi addr n
  end.

(** More rounds than a turn can take. *)
Definition enough (fuel : nat) (c : call) : Prop :=
  match c with WriteCall _ n i => n - i < Z.of_nat fuel | ReadCall _ _ => (0 < fuel)%nat end.

Definition valid_call (c : call) : Prop :=
  match c with WriteCall _ n i => 0 <= i <= n | ReadCall _ _ => True end.

(** [wakeup]: every thread that waits on a channel of the trace is ready. *)
Definition wake (tr : list event) (th : call * status) : call * status :=
  match snd th with
  | Waiting ch => if existsb (fun e => match e with EvWakeup c => bool_decide (c = ch) | _ => false end) tr
                  then (fst th, Ready) else th
  | _ => th
  end.

(** Bytes that entered and left the pipe between two states, by its counters. *)
Definition entered (s s' : S) : Z := u32 (nwrite (pipe_of pi s') - nwrite (pipe_of pi s)).
Definition outs (s s' : S) : list Z :=
  let p := pipe_of pi s in
  map (fun j => nthZ 0 (pdata p) ((nread p + j) mod PIPESIZE)) (seqZ 0 (u32 (nread (pipe_of pi s') - nread p))).

(** The bytes of user memory that a writer has passed on in its turn. *)
Definition ins (s s' : S) (c : call) : option (list Z) :=
  match c with
  | WriteCall addr n i => source s addr i (Z.to_nat (entered s s'))
  | ReadCall _ _ => Some []
  end.

Definition advance (s s' : S) (c : call) : call :=
  match c with
  | WriteCall addr n i => WriteCall addr n (i + entered s s')
  | ReadCall addr n => ReadCall addr n
  end.

(** A step, with the bytes written and the bytes read by it. *)
Inductive pipe_step : conf -> list Z -> list Z -> conf -> Prop :=
| ps_call s ths c : match c with WriteCall _ n i => i = 0 /\ 0 <= n | ReadCall _ _ => True end ->
    pipe_step (Conf s ths) [] [] (Conf s (ths ++ [(c, Ready)]))
| ps_world s s' ths : pipe_of pi s' = pipe_of pi s -> pipe_step (Conf s ths) [] [] (Conf s' ths)
| ps_close s s' ths writable tr :
    pipeclose (fun _ => ret tt) pi writable [] s = emits tr (Ret tt [] s') ->
    readopen (pipe_of pi s') <> 0 \/ writeopen (pipe_of pi s') <> 0 ->
    pipe_step (Conf s ths) [] [] (Conf s' (map (wake tr) ths))
| ps_return s ths t c fuel tr r s' bs :
    ths !! t = Some (c, Ready) -> enough fuel c ->
    code fuel c [pipe_lock pi] s = emits tr (Ret r [] s') -> ins s s' c = Some bs ->
    pipe_step (Conf s ths) bs (outs s s') (Conf s' (map (wake tr) (<[t := (c, Finished r)]> ths)))
| ps_sleep s ths t c fuel tr ch s' k fuel' bs :
    ths !! t = Some (c, Ready) -> enough fuel c ->
    code fuel c [pipe_lock pi] s = emits tr (Sleep ch s' k) -> ins s s' c = Some bs ->
    k = (fun s'' => code fuel' (advance s s' c) [pipe_lock pi] s'') ->
    pipe_step (Conf s ths) bs (outs s s')
      (Conf s' (map (wake tr) (<[t := (advance s s' c, Waiting ch)]> ths))).

Inductive pipe_run (x : conf) : list Z -> list Z -> conf -> Prop :=
| run_none : pipe_run x [] [] x
| run_step y z a b a' b' : pipe_run x a b y -> pipe_step y a' b' z -> pipe_run x (a ++ a') (b ++ b') z.

(** ** Invariant *)

Definition waits_ok (p : pipe) (q : list Z) (th : call * status) : Prop :=
  valid_call (fst th) /\
  match th with
  | (WriteCall _ _ _, Waiting ch) =>
      ch = ch_pipe_nwrite pi /\ Z.of_nat (length q) = PIPESIZE /\ readopen p <> 0
  | (ReadCall _ _, Waiting ch) => ch = ch_pipe_nread pi /\ q = [] /\ writeopen p <> 0
  | _ => True
  end.

Definition pipe_inv (x : conf) (q : list Z) : Prop :=
  holds (pipe_of pi (world x)) q /\ Forall (waits_ok (pipe_of pi (world x)) q) (threads x).

Lemma wake_nothing th : wake [] th = th.
Proof. destruct th as [c []]; reflexivity. Qed.

(** A turn wakes up the threads whose condition it may have changed. *)
Lemma wake_readers p q p' q' th : waits_ok p q th -> readopen p' = readopen p ->
  (Z.of_nat (length q) = PIPESIZE -> q' = q) ->
  waits_ok p' q' (wake [EvWakeup (ch_pipe_nread pi)] th).
Proof.
  intros [Hv Hw] Er Hq. destruct th as [[addr n i | addr n] [| ch | r]]; cbn; try (split; auto; fail).
  - destruct Hw as (-> & Hl & Hr). rewrite bool_decide_eq_false_2 by discriminate. cbn. split; auto.
    rewrite Hq, Er by auto. auto.
  - destruct Hw as (-> & _). rewrite bool_decide_eq_true_2 by auto. cbn. split; auto.
Qed.

Lemma wake_writers p q p' q' th : waits_ok p q th -> writeopen p' = writeopen p -> (q = [] -> q' = []) ->
  waits_ok p' q' (wake [EvWakeup (ch_pipe_nwrite pi)] th).
Proof.
  intros [Hv Hw] Er Hq. destruct th as [[addr n i | addr n] [| ch | r]]; cbn; try (split; auto; fail).
  - destruct Hw as (-> & _). rewrite bool_decide_eq_true_2 by auto. cbn. split; auto.
  - destruct Hw as (-> & Hl & Hr). rewrite bool_decide_eq_false_2 by discriminate. cbn. split; auto.
    rewrite Er. auto.
Qed.

Lemma Forall_wake {P Q : call * status -> Prop} f ths t th : Forall P ths ->
  (forall y, P y -> Q (f y)) -> Q (f th) -> Forall Q (map f (<[t := th]> ths)).
Proof.
  intros Hp Hf Ht. apply Forall_forall. intros y Hy.
  apply list_elem_of_fmap in Hy as (z & -> & Hz). apply list_elem_of_lookup in Hz as (j & Hj).
  rewrite Forall_lookup in Hp. destruct (decide (j = t)) as [-> | Hne].
  - apply list_lookup_insert_Some in Hj as [(_ & <- & _) | (Hne & _)]; [auto | easy].
  - rewrite list_lookup_insert_ne in Hj by auto. eauto.
Qed.

(** The counters tell how many bytes a turn moved. *)
Lemma pushed_nwrite bs : forall p q, holds p q -> Z.of_nat (length q + length bs) <= PIPESIZE ->
  u32 (nwrite (pushed p bs) - nwrite p) = Z.of_nat (length bs).
Proof.
  intros p q Hp Hl. pose proof (pushed_holds bs p q Hp Hl) as Hp'.
  assert (Er : nread (pushed p bs) = nread p).
  { clear. revert p. induction bs as [|c bs IH]; intros p; auto. cbn [pushed fold_left]. apply (IH (set_nwrite_data p c)). }
  rewrite (ho_write _ _ Hp), (ho_write _ _ Hp'), Er, length_app. unfold u32, PIPESIZE in *.
  rewrite <- Zminus_mod. rewrite Z.mod_small; lia.
Qed.

Lemma popped_nread m : forall p q, holds p q -> (m <= length q)%nat ->
  u32 (nread (popped m p) - nread p) = Z.of_nat m /\ nwrite (popped m p) = nwrite p.
Proof.
  intros p q Hp Hm. pose proof (ho_room _ _ Hp) as Hl. unfold PIPESIZE in Hl. split.
  - assert (E : nread (popped m p) = u32 (nread p + Z.of_nat m)).
    { clear -Hp. induction m as [|m IH]; cbn [popped Nat.iter nat_rect].
      - rewrite Z.add_0_r, u32_small; [auto | apply Hp].
      - change (nread (set_nread (popped m p)) = u32 (nread p + Z.of_nat (Datatypes.S m))).
        unfold set_nread. cbn [nread]. rewrite IH. unfold u32. rewrite Zplus_mod_idemp_l. f_equal. lia. }
    rewrite E. unfold u32. rewrite Zminus_mod_idemp_l. rewrite Z.mod_small; lia.
  - clear. induction m as [|m IH]; auto.
Qed.

Lemma emits_Ret_inj {A} tr tr' (a a' : A) (h h' : locks) (s s' : S) :
  emits tr (Ret a h s) = emits tr' (Ret a' h' s') -> tr = tr' /\ a = a' /\ s = s'.
Proof.
  revert tr'. induction tr as [|e tr IH]; intros [|e' tr'] E; cbn in E; try discriminate.
  - injection E as -> _ ->. auto.
  - injection E as -> E. destruct (IH _ E) as (-> & -> & ->). auto.
Qed.

Lemma emits_Sleep_inj {A} tr tr' (c c' : channel) (k k' : S -> outcome S A) (s s' : S) :
  emits tr (Sleep c s k) = emits tr' (Sleep c' s' k') -> tr = tr' /\ c = c' /\ s = s'.
Proof.
  revert tr'. induction tr as [|e tr IH]; intros [|e' tr'] E; cbn in E; try discriminate.
  - injection E as -> -> _. auto.
  - injection E as -> E. destruct (IH _ E) as (-> & -> & ->). auto.
Qed.

Lemma emits_Ret_Sleep {A} tr tr' (a : A) (h : locks) (c : channel) (k : S -> outcome S A) (s s' : S) :
  emits tr (Ret a h s) <> emits tr' (Sleep c s' k).
Proof. revert tr'. induction tr as [|e tr IH]; intros [|e' tr'] E; cbn in E; try discriminate. injection E as _ E. now apply IH in E. Qed.

Lemma outs_none s s' : nread (pipe_of pi s') = nread (pipe_of pi s) -> outs s s' = [].
Proof. intros E. unfold outs. rewrite E, Z.sub_diag. reflexivity. Qed.

Lemma outs_popped s s' m q : holds (pipe_of pi s) q -> (m <= length q)%nat ->
  pipe_of pi s' = popped m (pipe_of pi s) -> outs s s' = take m q.
Proof.
  intros Hp Hm E. unfold outs. rewrite E, (proj1 (popped_nread m _ q Hp Hm)).
  apply (nth_ext _ _ (nthZ 0 (pdata (pipe_of pi s)) ((nread (pipe_of pi s) + 0) mod PIPESIZE)) 0).
  { rewrite length_map, length_seqZ, length_take. lia. }
  intros k Hk. rewrite length_map, length_seqZ in Hk.
  rewrite (map_nth (fun j => nthZ 0 (pdata (pipe_of pi s)) ((nread (pipe_of pi s) + j) mod PIPESIZE))).
  assert (Es : nth k (seqZ 0 (Z.of_nat m)) 0 = Z.of_nat k).
  { apply nth_lookup_Some. rewrite lookup_seqZ. lia. }
  rewrite Es, (ho_byte _ _ Hp) by lia. unfold nthZ. rewrite Nat2Z.id, !nth_lookup, lookup_take_lt by lia. reflexivity.
Qed.

Lemma pushed_nread bs : forall p, nread (pushed p bs) = nread p.
Proof. induction bs as [|c bs IH]; intros p; auto. cbn [pushed fold_left]. apply (IH (set_nwrite_data p c)). Qed.

Lemma pushed_state s q bs : holds (pipe_of pi s) q -> Z.of_nat (length (q ++ bs)) <= PIPESIZE ->
  let s' := set_pipe pi (pushed (pipe_of pi s) bs) s in
  entered s s' = Z.of_nat (length bs) /\ outs s s' = [] /\ holds (pipe_of pi s') (q ++ bs) /\
  readopen (pipe_of pi s') = readopen (pipe_of pi s).
Proof.
  intros Hp Hl s'. assert (E : pipe_of pi s' = pushed (pipe_of pi s) bs) by apply pipe_set.
  rewrite length_app in Hl. split_and!.
  - unfold entered. rewrite E. apply (pushed_nwrite bs _ q); [auto | lia].
  - apply outs_none. rewrite E. apply pushed_nread.
  - rewrite E. apply pushed_holds; auto.
  - rewrite E. apply pushed_open.
Qed.

Lemma writer_threads p q p' bs ths t th : Forall (waits_ok p q) ths -> readopen p' = readopen p ->
  Z.of_nat (length (q ++ bs)) <= PIPESIZE -> waits_ok p' (q ++ bs) (wake [EvWakeup (ch_pipe_nread pi)] th) ->
  Forall (waits_ok p' (q ++ bs)) (map (wake [EvWakeup (ch_pipe_nread pi)]) (<[t := th]> ths)).
Proof.
  intros Hths Er Hl Hth. eapply Forall_wake; [exact Hths | | exact Hth].
  intros y Hy. eapply wake_readers; [exact Hy | exact Er |]. intros E. rewrite length_app in Hl.
  destruct bs; [apply app_nil_r | cbn in Hl; lia].
Qed.

Lemma reader_threads p q p' q' ths t th : Forall (waits_ok p q) ths -> writeopen p' = writeopen p ->
  (q = [] -> q' = []) -> waits_ok p' q' (wake [EvWakeup (ch_pipe_nwrite pi)] th) ->
  Forall (waits_ok p' q') (map (wake [EvWakeup (ch_pipe_nwrite pi)]) (<[t := th]> ths)).
Proof.
  intros Hths Er Hl Hth. eapply Forall_wake; [exact Hths | | exact Hth].
  intros y Hy. eapply wake_writers; eauto.
Qed.

Lemma same_threads p q ths t th : Forall (waits_ok p q) ths -> waits_ok p q th ->
  Forall (waits_ok p q) (map (wake []) (<[t := th]> ths)).
Proof.
  intros Hths Hth. eapply Forall_wake; [exact Hths | |]; intros; now rewrite wake_nothing.
Qed.

Lemma thread_valid x q t c st : pipe_inv x q -> threads x !! t = Some (c, st) -> valid_call c.
Proof. intros [_ Hf] Ht. rewrite Forall_lookup in Hf. now destruct (Hf _ _ Ht). Qed.

(** A turn that ends. *)
Lemma return_inv s ths q t c fuel tr r s' bs : pipe_inv (Conf s ths) q -> ths !! t = Some (c, Ready) ->
  enough fuel c -> code fuel c [pipe_lock pi] s = emits tr (Ret r [] s') -> ins s s' c = Some bs ->
  exists q', pipe_inv (Conf s' (map (wake tr) (<[t := (c, Finished r)]> ths))) q' /\ q ++ bs = outs s s' ++ q'.
Proof.
  intros Hinv Ht Hf E Hins. pose proof (thread_valid _ _ _ _ _ Hinv Ht) as Hv. destruct Hinv as [Hp Hths].
  cbn [world threads] in *. destruct c as [addr n i | addr n]; cbn [code enough valid_call ins] in *.
  - destruct (pipewrite_turn pi addr n fuel i s q Hp Hv Hf) as (bs0 & Hs & Hl & Hw).
    remember (pipewrite_from fuel pi addr n i [pipe_lock pi] s) as o eqn:Eo. clear Eo.
    destruct Hw as [Hb Hcl | Hd | fuel' Hlt Hfull Ho Hk].
    + change (emits [] (Ret (-1) [] s) = emits tr (Ret r [] s')) in E. apply emits_Ret_inj in E as (<- & <- & <-).
      unfold entered in Hins. rewrite Z.sub_diag in Hins. injection Hins as <-.
      exists q. rewrite outs_none, app_nil_r by auto. split; [split|]; auto. apply same_threads; auto. now split.
    + apply emits_Ret_inj in E as (<- & <- & <-).
      destruct (pushed_state s q bs0 Hp Hl) as (E1 & E2 & E3 & E4). rewrite E1, Nat2Z.id, Hs in Hins. injection Hins as <-.
      exists (q ++ bs0). rewrite E2. split; [split|]; auto. eapply writer_threads; eauto. now split.
    + symmetry in E. now apply emits_Ret_Sleep in E.
  - destruct fuel as [|fuel]; [lia|]. pose proof (piperead_turn pi addr n fuel s q Hp) as Hr. injection Hins as <-.
    remember (piperead_from (Datatypes.S fuel) pi addr n [pipe_lock pi] s) as o eqn:Eo. clear Eo. rewrite app_nil_r.
    destruct Hr as [Hq Hw Hk | fuel' Hq Hw Hk | bs lost s1 Hgo Htk].
    + change (emits [] (Ret (-1) [] s) = emits tr (Ret r [] s')) in E. apply emits_Ret_inj in E as (<- & <- & <-).
      exists q. rewrite outs_none by auto. split; [split|]; auto. apply same_threads; auto. now split.
    + change (Sleep ?c ?w ?k) with (emits [] (Sleep c w k)) in E. symmetry in E. now apply emits_Ret_Sleep in E.
    + apply emits_Ret_inj in E as (<- & <- & <-). destruct Htk as [[rest Hq] Hst Hlost].
      set (m := (length bs + length lost)%nat) in *.
      assert (Hm : (m <= length q)%nat) by (rewrite Hq, !length_app; subst m; lia).
      assert (Ep : pipe_of pi (set_pipe pi (popped m (pipe_of pi s)) s1) = popped m (pipe_of pi s)) by apply pipe_set.
      exists (drop m q). rewrite (outs_popped s _ m q Hp Hm Ep), take_drop. split; [|auto]. split; cbn [world threads]; rewrite Ep.
      * now apply popped_holds.
      * eapply reader_threads; [exact Hths | apply popped_open | intros ->; now rewrite drop_nil | now split].
Qed.

(** A turn that ends in sleep. *)
Lemma sleep_inv s ths q t c fuel tr ch s' k bs : pipe_inv (Conf s ths) q -> ths !! t = Some (c, Ready) ->
  enough fuel c -> code fuel c [pipe_lock pi] s = emits tr (Sleep ch s' k) -> ins s s' c = Some bs ->
  exists q', pipe_inv (Conf s' (map (wake tr) (<[t := (advance s s' c, Waiting ch)]> ths))) q' /\ q ++ bs = outs s s' ++ q'.
Proof.
  intros Hinv Ht Hf E Hins. pose proof (thread_valid _ _ _ _ _ Hinv Ht) as Hv. destruct Hinv as [Hp Hths].
  cbn [world threads] in *. destruct c as [addr n i | addr n]; cbn [code enough valid_call ins advance] in *.
  - destruct (pipewrite_turn pi addr n fuel i s q Hp Hv Hf) as (bs0 & Hs & Hl & Hw).
    remember (pipewrite_from fuel pi addr n i [pipe_lock pi] s) as o eqn:Eo. clear Eo.
    destruct Hw as [Hb Hcl | Hd | fuel' Hlt Hfull Ho Hk].
    + change (emits [] (Ret (-1) [] s) = emits tr (Sleep ch s' k)) in E. now apply emits_Ret_Sleep in E.
    + now apply emits_Ret_Sleep in E.
    + apply emits_Sleep_inj in E as (<- & <- & <-).
      destruct (pushed_state s q bs0 Hp Hl) as (E1 & E2 & E3 & E4). rewrite E1, Nat2Z.id, Hs in *. injection Hins as <-.
      exists (q ++ bs0). rewrite E2. split; [split|]; auto. cbn [world threads]. eapply writer_threads; eauto.
      cbn. rewrite bool_decide_eq_false_2 by discriminate. cbn. split; [cbn; lia|]. split_and!; auto. now rewrite E4.
  - destruct fuel as [|fuel]; [lia|]. pose proof (piperead_turn pi addr n fuel s q Hp) as Hr. injection Hins as <-.
    remember (piperead_from (Datatypes.S fuel) pi addr n [pipe_lock pi] s) as o eqn:Eo. clear Eo. rewrite app_nil_r.
    destruct Hr as [Hq Hw Hk | fuel' Hq Hw Hk | bs lost s1 Hgo Htk].
    + change (emits [] (Ret (-1) [] s) = emits tr (Sleep ch s' k)) in E. now apply emits_Ret_Sleep in E.
    + change (emits [] (Sleep (ch_pipe_nread pi) s (fun s' => piperead_from fuel' pi addr n [pipe_lock pi] s')) =
        emits tr (Sleep ch s' k)) in E.
      apply emits_Sleep_inj in E as (<- & <- & <-). exists q. rewrite outs_none by auto. split; [split|]; auto.
      apply same_threads; auto. split; cbn; auto.
    + now apply emits_Ret_Sleep in E.
Qed.

Lemma close_inv s ths q writable tr s' : pipe_inv (Conf s ths) q ->
  pipeclose (fun _ => ret tt) pi writable [] s = emits tr (Ret tt [] s') ->
  pipe_inv (Conf s' (map (wake tr) ths)) q /\ pipe_of pi s' =
    (if writable then set_writeopen 0 else set_readopen 0) (pipe_of pi s).
Proof.
  intros [Hp Hths] E. cbn [world threads] in *.
  set (p' := (if writable then set_writeopen 0 else set_readopen 0) (pipe_of pi s)).
  assert (Hc : pipeclose (fun _ => ret tt) pi writable [] s =
    emits [EvWakeup (if writable then ch_pipe_nread pi else ch_pipe_nwrite pi)] (Ret tt [] (set_pipe pi p' s))).
  { unfold pipeclose, modp, getp. krun. destruct writable; krun; unfold bind, wakeup, emit; cbn [obind gets];
      destruct (_ && _); cbn [obind]; rewrite release_top; reflexivity. }
  rewrite Hc in E. apply emits_Ret_inj in E as (<- & _ & <-).
  assert (Ep : pipe_of pi (set_pipe pi p' s) = p') by apply pipe_set. rewrite Ep. split; [|auto].
  assert (Hp' : holds p' q) by (subst p'; destruct Hp; destruct writable; now split).
  split; cbn [world threads]; rewrite Ep; [auto|]. apply Forall_fmap. eapply Forall_impl; [exact Hths|].
  intros th Hth. subst p'. destruct writable.
  - eapply wake_readers; [exact Hth | reflexivity | auto].
  - eapply wake_writers; [exact Hth | reflexivity | auto].
Qed.

Lemma pipe_step_inv x a b y q : pipe_inv x q -> pipe_step x a b y ->
  exists q', pipe_inv y q' /\ q ++ a = b ++ q'.
Proof.
  intros Hinv Hs. destruct Hs as [s ths c Hc | s s' ths E | s s' ths w tr E _ | s ths t c fuel tr r s' bs Ht Hf E Hi
    | s ths t c fuel tr ch s' k fuel' bs Ht Hf E Hi _].
  - exists q. rewrite app_nil_r. split; auto. destruct Hinv as [Hp Hths]. split; auto. cbn in *.
    apply Forall_app. split; auto. apply Forall_singleton. destruct c; split; cbn; auto. lia.
  - exists q. rewrite app_nil_r. split; auto. destruct Hinv as [Hp Hths]. cbn in *. split; cbn; rewrite E; auto.
  - exists q. rewrite app_nil_r. split; auto. now apply (close_inv s ths q w tr s').
  - now apply (return_inv s ths q t c fuel tr r s' bs).
  - now apply (sleep_inv s ths q t c fuel tr ch s' k bs).
Qed.

Lemma pipe_run_inv x a b y q : pipe_inv x q -> pipe_run x a b y -> exists q', pipe_inv y q' /\ q ++ a = b ++ q'.
Proof.
  intros Hx Hr. induction Hr as [|y z a b a' b' Hr (q1 & H1 & E1) Hs].
  - exists q. now rewrite app_nil_r.
  - destruct (pipe_step_inv y a' b' z q1 H1 Hs) as (q2 & H2 & E2). exists q2. split; auto.
    now rewrite app_assoc, E1, <- !app_assoc, E2.
Qed.

Lemma init_inv s s0 : length (pdata (pipe_of pi s)) = Z.to_nat PIPESIZE ->
  pipe_init pi [] s = Ret tt [] s0 -> pipe_inv (Conf s0 []) [].
Proof.
  intros Hl E. unfold pipe_init, modp, initlock in E. autorewrite with kmonad in E. injection E as <-.
  split; [|apply Forall_nil_2]. cbn. rewrite pipe_set. split; cbn [pdata nread nwrite length]; auto; try lia; try reflexivity; unfold PIPESIZE; lia.
Qed.

(** What a turn of a call that returns [r] has done for its process.  A reader
    has stored the bytes [bs] that left the pipe in user memory, from [addr] on,
    has changed nothing else, and returns how many there are; only when user
    memory does not accept a byte, that byte is lost.  A writer returns how many
    bytes it has passed on in all its turns. *)
Definition served (c : call) (s s' : S) (bs : list Z) (r : Z) : Prop :=
  match c with
  | ReadCall addr n =>
      (r = -1 /\ bs = [] /\ s' = s) \/
      exists stored lost s1, bs = stored ++ lost /\ r = Z.of_nat (length stored) /\ r <= Z.max 0 n /\
        pokes addr 0 stored s = Some s1 /\ s' = set_pipe pi (pipe_of pi s') s1 /\
        (lost = [] \/ exists ch, lost = [ch] /\ poke (u64 (addr + r)) ch s1 = None)
  | WriteCall addr n i =>
      s' = set_pipe pi (pipe_of pi s') s /\
      (r = -1 /\ entered s s' = 0 \/ r = i + entered s s' /\ (r = n \/ peek (u64 (addr + r)) s = None))
  end.

Lemma turn_served x q t c fuel tr r s' : pipe_inv x q -> threads x !! t = Some (c, Ready) -> enough fuel c ->
  code fuel c [pipe_lock pi] (world x) = emits tr (Ret r [] s') -> served c (world x) s' (outs (world x) s') r.
Proof.
  intros Hinv Ht Hf E. pose proof (thread_valid _ _ _ _ _ Hinv Ht) as Hv. destruct x as [s ths], Hinv as [Hp _]. cbn [world threads] in *.
  destruct c as [addr n i | addr n]; cbn [code enough valid_call served] in *.
  - destruct (pipewrite_turn pi addr n fuel i s q Hp Hv Hf) as (bs & Hs & Hl & Hw).
    remember (pipewrite_from fuel pi addr n i [pipe_lock pi] s) as o eqn:Eo. clear Eo.
    destruct Hw as [Hb Hcl | Hd | fuel' Hlt Hfull Ho Hk]; [| | symmetry in E; now apply emits_Ret_Sleep in E].
    + change (emits [] (Ret (-1) [] s) = emits tr (Ret r [] s')) in E. apply emits_Ret_inj in E as (<- & <- & <-).
      rewrite set_get. split; auto. left. unfold entered. now rewrite Z.sub_diag.
    + apply emits_Ret_inj in E as (<- & <- & <-). destruct (pushed_state s q bs Hp Hl) as (-> & _). rewrite pipe_set. split; auto.
      right. split; auto. now rewrite Z.add_assoc.
  - destruct fuel as [|fuel]; [lia|]. pose proof (piperead_turn pi addr n fuel s q Hp) as Hr.
    remember (piperead_from (Datatypes.S fuel) pi addr n [pipe_lock pi] s) as o eqn:Eo. clear Eo.
    destruct Hr as [Hq Hw Hk | fuel' Hq Hw Hk | bs lost s1 Hgo [[rest Hq] Hst Hlost]].
    + change (emits [] (Ret (-1) [] s) = emits tr (Ret r [] s')) in E. apply emits_Ret_inj in E as (<- & <- & <-).
      left. split_and!; auto. now apply outs_none.
    + change (Sleep ?c ?w ?k) with (emits [] (Sleep c w k)) in E. symmetry in E. now apply emits_Ret_Sleep in E.
    + apply emits_Ret_inj in E as (<- & <- & <-). right. exists bs, lost, s1. rewrite pipe_set.
      assert (Hm : (length bs + length lost <= length q)%nat) by (rewrite Hq, !length_app; lia).
      rewrite (outs_popped s _ _ q Hp Hm (pipe_set _ _ _)), Hq, app_assoc, <- length_app, take_app_length. split_and!; auto.
      * destruct Hlost as [[_ Hl] | (ch & _ & _ & Hl)]; lia.
      * destruct Hlost as [[-> _] | (ch & -> & Hpk & _)]; [auto | right]. exists ch. split; auto. now rewrite Z.add_0_r in Hpk.
Qed.

(** C17: Pipes are first in, first out.  After any schedule of calls of
    [pipewrite], [piperead] and [pipeclose] on a pipe that [pipealloc] has
    initialised, with the rest of the system changing anything but the pipe in
    between, the bytes that writers have passed on from their user memory are
    the bytes that have left the pipe, in this order, followed by at most 512
    bytes that are still in the pipe; counters that wrap around do not matter.
    In every such state, when a reader takes its turn and returns, the bytes that
    leave the pipe are what [piperead] has stored in the memory of the reader
    from its buffer on, and their number is its result; a byte that the memory of
    the reader does not accept is lost.  A writer returns how many of its bytes
    have entered the pipe. *)
Theorem pipe_fifo s s0 a b y : length (pdata (pipe_of pi s)) = Z.to_nat PIPESIZE ->
  pipe_init pi [] s = Ret tt [] s0 -> pipe_run (Conf s0 []) a b y ->
  (exists q, holds (pipe_of pi (world y)) q /\ a = b ++ q /\ Z.of_nat (length q) <= PIPESIZE) /\
  (forall t c fuel tr r s', threads y !! t = Some (c, Ready) -> enough fuel c ->
    code fuel c [pipe_lock pi] (world y) = emits tr (Ret r [] s') -> served c (world y) s' (outs (world y) s') r).
Proof.
  intros Hl E Hr. destruct (pipe_run_inv _ a b y [] (init_inv s s0 Hl E) Hr) as (q & Hinv & Eq). split.
  - exists q. pose proof Hinv as [Hp _]. split_and!; auto. apply Hp.
  - intros t c fuel tr r s' Ht Hf Ec. exact (turn_served y q t c fuel tr r s' Hinv Ht Hf Ec).
Qed.

Lemma turn_exists x q t c : pipe_inv x q -> threads x !! t = Some (c, Ready) ->
  exists a b y c' st, pipe_step x a b y /\ threads y !! t = Some (c', st) /\ st <> Ready.
Proof.
  intros Hinv Ht. pose proof (thread_valid _ _ _ _ _ Hinv Ht) as Hv. destruct x as [s ths], Hinv as [Hp Hths].
  assert (Hlen : (t < length ths)%nat) by (apply lookup_lt_Some in Ht; exact Ht).
  assert (Hlook : forall tr c' st, (forall ch, st = Waiting ch -> ~ In (EvWakeup ch) tr) ->
    map (wake tr) (<[t := (c', st)]> ths) !! t = Some (c', st)).
  { intros tr c' st Hst. rewrite list_lookup_fmap, list_lookup_insert_eq by auto. cbn.
    destruct st as [| ch | r]; auto. unfold wake. cbn. destruct (existsb _ tr) eqn:Ex; auto. exfalso.
    apply existsb_exists in Ex as (e & He & Hb). destruct e; try discriminate. apply bool_decide_eq_true in Hb as ->.
    now apply (Hst ch eq_refl). }
  cbn [world threads] in *. destruct c as [addr n i | addr n]; cbn [valid_call] in Hv.
  - assert (Hf : n - i < Z.of_nat (Z.to_nat (n - i + 1))) by lia.
    destruct (pipewrite_turn pi addr n _ i s q Hp Hv Hf) as (bs & Hs & Hl & Hw).
    destruct (pushed_state s q bs Hp Hl) as (E1 & E2 & E3 & E4).
    remember (pipewrite_from (Z.to_nat (n - i + 1)) pi addr n i [pipe_lock pi] s) as o eqn:Eo.
    destruct Hw as [Hb Hcl | Hd | fuel' Hlt Hfull Ho Hk].
    + exists [], (outs s s), (Conf s (map (wake []) (<[t := (WriteCall addr n i, Finished (-1))]> ths))), (WriteCall addr n i), (Finished (-1)).
      split_and!; [|now apply Hlook | discriminate].
      apply (ps_return s ths t (WriteCall addr n i) (Z.to_nat (n - i + 1)) [] (-1) s []); auto.
      cbn. unfold entered. rewrite Z.sub_diag. reflexivity.
    + do 5 eexists. split_and!.
      * eapply (ps_return s ths t (WriteCall addr n i)); [exact Ht | exact Hf | symmetry; exact Eo |].
        cbn [ins]. rewrite E1, Nat2Z.id. exact Hs.
      * apply Hlook. discriminate. * discriminate.
    + do 5 eexists. split_and!.
      * eapply (ps_sleep s ths t (WriteCall addr n i)); [exact Ht | exact Hf | symmetry; exact Eo | |].
        -- cbn [ins]. rewrite E1, Nat2Z.id. exact Hs.
        -- cbn [advance code]. rewrite E1. reflexivity.
      * apply Hlook. intros ch [= <-] [[=] | []]. * discriminate.
  - pose proof (piperead_turn pi addr n 0 s q Hp) as Hr.
    remember (piperead_from 1 pi addr n [pipe_lock pi] s) as o eqn:Eo.
    destruct Hr as [Hq Hw Hk | fuel' Hq Hw Hk | bs lost s1 Hgo Htk].
    + do 5 eexists. split_and!.
      * eapply (ps_return s ths t (ReadCall addr n) 1 []); [exact Ht | cbn; lia | symmetry; exact Eo | reflexivity].
      * apply Hlook. discriminate. * discriminate.
    + do 5 eexists. split_and!.
      * eapply (ps_sleep s ths t (ReadCall addr n) 1 []); [exact Ht | cbn; lia | symmetry; exact Eo | reflexivity | reflexivity].
      * apply Hlook. intros ch _ []. * discriminate.
    + do 5 eexists. split_and!.
      * eapply (ps_return s ths t (ReadCall addr n) 1); [exact Ht | cbn; lia | symmetry; exact Eo | reflexivity].
      * apply Hlook. discriminate. * discriminate.
Qed.

(** C18: No lost wake-ups and no deadlock.  In every state that a schedule can
    reach, a thread sleeps in [pipewrite] only while the pipe is full and its
    read end open, and in [piperead] only while the pipe is empty and its write
    end open; and every other call that has not returned can take its turn, in
    which it returns or goes to sleep without a panic. *)
Theorem pipe_no_lost_wakeup s s0 a b y t c st : length (pdata (pipe_of pi s)) = Z.to_nat PIPESIZE ->
  pipe_init pi [] s = Ret tt [] s0 -> pipe_run (Conf s0 []) a b y -> threads y !! t = Some (c, st) ->
  match st with
  | Waiting ch =>
      let p := pipe_of pi (world y) in
      match c with
      | WriteCall _ _ _ => nwrite p = u32 (nread p + PIPESIZE) /\ readopen p <> 0
      | ReadCall _ _ => nwrite p = nread p /\ writeopen p <> 0
      end
  | Ready => exists a' b' z c' st', pipe_step y a' b' z /\ threads z !! t = Some (c', st') /\ st' <> Ready
  | Finished _ => True
  end.
Proof.
  intros Hl E Hr Ht. destruct (pipe_run_inv _ a b y [] (init_inv s s0 Hl E) Hr) as (q & Hinv & _).
  destruct st as [| ch | r]; [now apply (turn_exists y q t c) | | auto].
  pose proof Hinv as [Hp Hths]. rewrite Forall_lookup in Hths. destruct (Hths _ _ Ht) as [_ Hw]. destruct c as [addr n i | addr n].
  - destruct Hw as (_ & Hq & Ho). split; auto. apply Z.eqb_eq. rewrite (holds_full _ _ Hp). now apply Z.eqb_eq.
  - destruct Hw as (_ & Hq & Ho). split; auto. symmetry. apply Z.eqb_eq. rewrite (holds_empty _ _ Hp).
    now apply bool_decide_eq_true_2.
Qed.

End system.

(** ** Example: a reader that waits for a writer *)

Record demo_world := DW { dw_pipe : pipe; dw_mem : Z -> Z }.

#[export] Instance demo_env : PipeEnv demo_world := {|
  pipe_of _ s := dw_pipe s;
  set_pipe _ p s := DW p (dw_mem s);
  killed _ := false;
  peek a s := Some (dw_mem s a);
  poke a b s := Some (DW (dw_pipe s) (fun x => if x =? a then b else dw_mem s x));
|}.

#[export] Instance demo_env_laws : PipeEnvLaws demo_world.
Proof. split; cbn; try (intros; destruct s; reflexivity); try reflexivity. intros pi a b s s' [= <-]. reflexivity. Qed.

Definition demo_pipe0 : demo_world := DW (MkPipe (repeat 0 512) 7 9 0 0) (fun a => a mod 256).
Definition demo_pipe1 : demo_world := DW (MkPipe (repeat 0 512) 0 0 1 1) (fun a => a mod 256).

(** A reader goes to sleep, a writer writes the two bytes at address 65, and
    the reader, woken up, takes them. *)
Definition demo_conf1 : conf := Conf demo_pipe1 [(ReadCall 1000 5, Waiting (ch_pipe_nread 3))].
Definition demo_pipe2 : demo_world :=
  DW (set_nwrite_data (set_nwrite_data (dw_pipe demo_pipe1) 65) 66) (fun a => a mod 256).
Definition demo_conf2 : conf := Conf demo_pipe2 [(ReadCall 1000 5, Ready); (WriteCall 65 2 0, Finished 2)].

Lemma run_step_eq {S} `{PipeEnv S} pi (x y z : conf) a b a' b' c d :
  pipe_run pi x a b y -> pipe_step pi y a' b' z -> c = a ++ a' -> d = b ++ b' -> pipe_run pi x c d z.
Proof. intros Hr Hs -> ->. now apply (run_step pi x y). Qed.

Lemma demo_run1 : pipe_run 3 (Conf demo_pipe1 []) [] [] demo_conf1.
Proof.
  eapply (run_step_eq 3 _ (Conf demo_pipe1 [(ReadCall 1000 5, Ready)]) _ [] []).
  - eapply (run_step_eq 3 _ _ _ [] []); [apply run_none | apply (ps_call 3 demo_pipe1 [] (ReadCall 1000 5)); exact I
      | reflexivity | reflexivity].
  - eapply (ps_sleep 3 demo_pipe1 [(ReadCall 1000 5, Ready)] 0 (ReadCall 1000 5) 1 [] (ch_pipe_nread 3) demo_pipe1 _ 0 []);
      [reflexivity | cbn; lia | reflexivity | reflexivity | reflexivity].
  - reflexivity.
  - reflexivity.
Qed.

Lemma demo_run2 : pipe_run 3 (Conf demo_pipe1 []) [65; 66] [] demo_conf2.
Proof.
  eapply (run_step_eq 3 _ (Conf demo_pipe1 [(ReadCall 1000 5, Waiting (ch_pipe_nread 3)); (WriteCall 65 2 0, Ready)]) _ [] []).
  - eapply (run_step_eq 3 _ _ _ [] []); [apply demo_run1 | apply (ps_call 3 demo_pipe1 (threads demo_conf1) (WriteCall 65 2 0)); split; [reflexivity | lia]
      | reflexivity | reflexivity].
  - eapply (ps_return 3 demo_pipe1 [(ReadCall 1000 5, Waiting (ch_pipe_nread 3)); (WriteCall 65 2 0, Ready)] 1
      (WriteCall 65 2 0) 3 [EvWakeup (ch_pipe_nread 3)] 2 demo_pipe2 [65; 66]);
      [reflexivity | cbn; lia | reflexivity | reflexivity].
  - reflexivity.
  - reflexivity.
Qed.

(** The reader of [demo_conf2] takes its turn and finds the two bytes at
    address 1000. *)
Definition demo_pipe3 : demo_world :=
  DW (set_nread (set_nread (dw_pipe demo_pipe2))) (fun x => if x =? 1001 then 66 else if x =? 1000 then 65 else x mod 256).

Lemma pipe_fifo_witness :
  (exists q, holds (pipe_of 3 (world demo_conf2)) q /\ [65; 66] = [] ++ q /\ Z.of_nat (length q) <= PIPESIZE) /\
  served 3 (ReadCall 1000 5) demo_pipe2 demo_pipe3 [65; 66] 2.
Proof.
  destruct (pipe_fifo 3 demo_pipe0 demo_pipe1 [65; 66] [] demo_conf2) as [Hq Hs]; [reflexivity | reflexivity | exact demo_run2 |].
  split; [exact Hq |]. apply (Hs 0%nat (ReadCall 1000 5) 1%nat [EvWakeup (ch_pipe_nwrite 3)] 2 demo_pipe3); [reflexivity | cbn; lia | reflexivity].
Defined.

Lemma pipe_no_lost_wakeup_witness :
  nwrite (dw_pipe demo_pipe1) = nread (dw_pipe demo_pipe1) /\ writeopen (dw_pipe demo_pipe1) <> 0.
Proof.
  exact (pipe_no_lost_wakeup 3 demo_pipe0 demo_pipe1 [] [] demo_conf1 0 (ReadCall 1000 5) (Waiting (ch_pipe_nread 3))
    eq_refl eq_refl demo_run1 eq_refl).
Defined.
