(* ===== verification/Sleeplock.v ===== *)
(** * Sleep locks (kernel/sleeplock.c)

    A long-term lock: a word protected by a spin lock, and the pid of its
    holder.  The state that contains sleep locks says how to read and write
    one ([HasSleeplocks]); an address names a lock and its sleep channel. *)

From S2P Require Import Prelude KMonad Riscv Trace.

Record sleeplock := SLock { locked : Z; lk_pid : Z }.

Class HasSleeplocks (S : Type) := {
  sl_get : Z -> S -> sleeplock;
  sl_put : Z -> sleeplock -> S -> S;
  mypid : S -> Z;
}.

(** A call that sleeps is followed through this many wake-ups after which the
    lock is taken again by someone else. *)
Definition WAKEUPS : nat := 64.

Section sleeplocks.
Context {S : Type} `{HasSleeplocks S}.

Definition initsleeplock (lk : Z) : M S unit :=
  initlock (sleeplk lk);;
  modify (sl_put lk (SLock 0 0)).

Fixpoint acquiresleep_loop (fuel : nat) (lk : Z) : M S unit :=
  l <- gets (sl_get lk);;
  if locked l =? 0 then ret tt
  else
    match fuel with
    | O => out_of_fuel
    | Datatypes.S fuel' =>
        sleep (ch_sleeplock lk) (sleeplk lk);;
        acquiresleep_loop fuel' lk
    end.

Definition acquiresleep (lk : Z) : M S unit :=
  acquire (sleeplk lk);;
  acquiresleep_loop WAKEUPS lk;;
  pid <- gets mypid;;
  modify (sl_put lk (SLock 1 pid));;
  release (sleeplk lk).

Definition releasesleep (lk : Z) : M S unit :=
  acquire (sleeplk lk);;
  modify (sl_put lk (SLock 0 0));;
  wakeup (ch_sleeplock lk);;
  release (sleeplk lk).

Definition holdingsleep (lk : Z) : M S bool :=
  acquire (sleeplk lk);;
  l <- gets (sl_get lk);;
  pid <- gets mypid;;
  release (sleeplk lk);;
  ret (negb (locked l =? 0) && (lk_pid l =? pid)).

(** ** Uncontended use *)

Lemma acquiresleep_loop_free fuel lk h s :
  locked (sl_get lk s) = 0 -> acquiresleep_loop fuel lk h s = Ret tt h s.
Proof. intros E. destruct fuel; cbn; unfold bind, gets; cbn; now rewrite E. Qed.

Lemma acquiresleep_free lk h s :
  sleeplk lk ∉ h -> locked (sl_get lk s) = 0 ->
  acquiresleep lk h s = Ret tt h (sl_put lk (SLock 1 (mypid s)) s).
Proof.
  intros Hl E. unfold acquiresleep. krun.
  rewrite (bind_Ret _ _ _ _ _ _ _ (acquiresleep_loop_free WAKEUPS lk _ s E)). krun.
  reflexivity.
Qed.

Lemma releasesleep_run lk h s :
  sleeplk lk ∉ h ->
  runs (releasesleep lk) h s [EvWakeup (ch_sleeplock lk)] tt (sl_put lk (SLock 0 0) s).
Proof.
  intros Hl. unfold runs, releasesleep. krun. cbn.
  unfold bind, wakeup, emit. cbn. now rewrite release_top.
Qed.

Lemma holdingsleep_run lk h s :
  sleeplk lk ∉ h ->
  holdingsleep lk h s =
  Ret (negb (locked (sl_get lk s) =? 0) && (lk_pid (sl_get lk s) =? mypid s)) h s.
Proof. intros Hl. unfold holdingsleep. krun. reflexivity. Qed.

(** A contended lock: the caller goes to sleep on the lock with nothing
    changed, and takes it when it is woken up with the lock free. *)
Lemma acquiresleep_contended lk s :
  locked (sl_get lk s) <> 0 ->
  exists k, acquiresleep lk [] s = Sleep (ch_sleeplock lk) s k /\
    forall s', locked (sl_get lk s') = 0 ->
      k s' = Ret tt [] (sl_put lk (SLock 1 (mypid s')) s').
Proof.
  intros E. apply Z.eqb_neq in E. unfold acquiresleep. krun.
  change WAKEUPS with (Datatypes.S 63). set (n := 63%nat). clearbody n.
  cbn [acquiresleep_loop]. krun. rewrite E. krun.
  assert (Hs : sleep (ch_sleeplock lk) (sleeplk lk) [sleeplk lk] s =
    Sleep (ch_sleeplock lk) s (fun s' => Ret tt [sleeplk lk] s')).
  { unfold sleep. rewrite decide_True by apply list_elem_of_here. cbn.
    now rewrite decide_True. }
  unfold bind at 1. rewrite Hs. cbn [obind]. eexists. split; [reflexivity|].
  intros s' E'. cbn beta.
  rewrite (bind_Ret _ _ _ _ _ _ _ (acquiresleep_loop_free n lk _ s' E')). krun.
  reflexivity.
Qed.

End sleeplocks.

(** ** What the buffer cache promises to its clients

    The interface between the buffer cache and the layers above it (the log
    and the file system).  [BlockCache] has the operations of kernel/bio.c and
    access to the fields of a buffer; [BlockCacheLaws] says what they do to
    the abstract state of the cache: the disk and the finite map of the blocks
    that are in use (referenced), each with its buffer, contents, reference
    count and the process that has it locked.  A block that is not in use
    reads as it is on the disk, whether or not it is still cached. *)

Record entry := Ent { e_ptr : Z; e_data : block; e_ref : Z; e_holder : option Z }.

Abbreviation blocks_in_use := (gmap Z entry).

Class BlockCache (C : Type) := {
  cb_read : Z -> Z -> M C Z;
  cb_write : Z -> M C unit;
  cb_relse : Z -> M C unit;
  cb_pin : Z -> M C unit;
  cb_unpin : Z -> M C unit;
  cb_data : Z -> C -> block;
  cb_set_data : Z -> block -> C -> C;
  cb_blockno : Z -> C -> Z;
  cb_pid : C -> Z;
}.

(** What [bread] returns for block [b]. *)
Definition contents (d : disk_t) (U : blocks_in_use) (b : Z) : block :=
  match U !! b with Some e => e_data e | None => d b end.

(** The entry for [b] after another [bread] by [pid] into buffer [p]. *)
Definition entry_read (d : disk_t) (U : blocks_in_use) (b p pid : Z) : entry :=
  Ent p (contents d U b) (match U !! b with Some e => e_ref e + 1 | None => 1 end) (Some pid).

Definition entry_data (v : block) (e : entry) : entry := Ent (e_ptr e) v (e_ref e) (e_holder e).
Definition entry_ref (r : Z) (e : entry) : entry := Ent (e_ptr e) (e_data e) r (e_holder e).

(** The map after [brelse] of [b]: the block is unlocked and no longer in use
    when the last reference goes. *)
Definition released (U : blocks_in_use) (b : Z) (e : entry) : blocks_in_use :=
  if e_ref e =? 1 then delete b U
  else <[b := Ent (e_ptr e) (e_data e) (e_ref e - 1) None]> U.

(** The locks the cache takes: a caller holds none of them. *)
Definition cache_locks_free (h : locks) : Prop := (bcache_lock ∉ h) /\ (forall a, sleeplk a ∉ h).

Class BlockCacheLaws (C : Type) (BSZ CAP DEV : Z) `{BlockCache C} := {
  cb_rel : C -> disk_t -> blocks_in_use -> Prop;
  cb_blocks : forall c d U b, cb_rel c d U -> Z.of_nat (length (contents d U b)) = BSZ;
  cb_entry : forall c d U b e, cb_rel c d U -> U !! b = Some e ->
    cb_data (e_ptr e) c = e_data e /\ cb_blockno (e_ptr e) c = b /\ 1 <= e_ref e;
  cb_read_law : forall c d U b h, cb_rel c d U -> cache_locks_free h ->
    0 <= b < 2 ^ 32 ->
    match U !! b with
    | Some e => e_holder e = None /\ e_ref e + 1 < 2 ^ 32
    | None => Z.of_nat (size U) < CAP
    end ->
    exists p c', cb_read DEV b h c = Ret p h c' /\ cb_pid c' = cb_pid c /\
      (forall e, U !! b = Some e -> p = e_ptr e) /\
      cb_rel c' d (<[b := entry_read d U b p (cb_pid c)]> U);
  cb_write_law : forall c d U b e h, cb_rel c d U -> cache_locks_free h ->
    U !! b = Some e -> e_holder e = Some (cb_pid c) ->
    exists c', runs (cb_write (e_ptr e)) h c [EvDiskWrite b (e_data e)] tt c' /\
      cb_pid c' = cb_pid c /\ cb_rel c' (dwrite d b (e_data e)) U;
  cb_relse_law : forall c d U b e h, cb_rel c d U -> cache_locks_free h ->
    U !! b = Some e -> e_holder e = Some (cb_pid c) ->
    (e_ref e = 1 -> e_data e = d b) ->
    exists tr c', runs (cb_relse (e_ptr e)) h c tr tt c' /\ writes tr = [] /\
      cb_pid c' = cb_pid c /\ cb_rel c' d (released U b e);
  cb_pin_law : forall c d U b e h, cb_rel c d U -> cache_locks_free h ->
    U !! b = Some e -> e_ref e + 1 < 2 ^ 32 ->
    exists c', cb_pin (e_ptr e) h c = Ret tt h c' /\ cb_pid c' = cb_pid c /\
      cb_rel c' d (<[b := entry_ref (e_ref e + 1) e]> U);
  cb_unpin_law : forall c d U b e h, cb_rel c d U -> cache_locks_free h ->
    U !! b = Some e -> 1 < e_ref e ->
    exists c', cb_unpin (e_ptr e) h c = Ret tt h c' /\ cb_pid c' = cb_pid c /\
      cb_rel c' d (<[b := entry_ref (e_ref e - 1) e]> U);
  cb_set_data_law : forall c d U b e v, cb_rel c d U ->
    U !! b = Some e -> e_holder e = Some (cb_pid c) -> Z.of_nat (length v) = BSZ ->
    cb_pid (cb_set_data (e_ptr e) v c) = cb_pid c /\
    cb_rel (cb_set_data (e_ptr e) v c) d (<[b := entry_data v e]> U);
}.
