(* ===== verification/Virtio.v ===== *)
(** * The virtio disk driver (kernel/virtio_disk.c, kernel/virtio.h)

    The queue of descriptors and the two rings that the driver shares with the
    device, and the driver's own book-keeping.  Arrays are functions of their
    index.  An address that the driver hands to the device is one of the three
    objects it can point to ([dma]).  Registers are read and written through
    the class [Mmio].  At a [__sync_synchronize()] the writes before it have
    reached memory and the device can act ([barrier]). *)

From S2P Require Import Prelude KMonad Riscv Trace Printf Mem Kalloc Vm.

Definition VIRTIO_MMIO_MAGIC_VALUE : Z := 0x000.
Definition VIRTIO_MMIO_VERSION : Z := 0x004.
Definition VIRTIO_MMIO_DEVICE_ID : Z := 0x008.
Definition VIRTIO_MMIO_VENDOR_ID : Z := 0x00c.
Definition VIRTIO_MMIO_DEVICE_FEATURES : Z := 0x010.
Definition VIRTIO_MMIO_DRIVER_FEATURES : Z := 0x020.
Definition VIRTIO_MMIO_QUEUE_SEL : Z := 0x030.
Definition VIRTIO_MMIO_QUEUE_NUM_MAX : Z := 0x034.
Definition VIRTIO_MMIO_QUEUE_NUM : Z := 0x038.
Definition VIRTIO_MMIO_QUEUE_READY : Z := 0x044.
Definition VIRTIO_MMIO_QUEUE_NOTIFY : Z := 0x050.
Definition VIRTIO_MMIO_INTERRUPT_STATUS : Z := 0x060.
Definition VIRTIO_MMIO_INTERRUPT_ACK : Z := 0x064.
Definition VIRTIO_MMIO_STATUS : Z := 0x070.
Definition VIRTIO_MMIO_QUEUE_DESC_LOW : Z := 0x080.
Definition VIRTIO_MMIO_QUEUE_DESC_HIGH : Z := 0x084.
Definition VIRTIO_MMIO_DRIVER_DESC_LOW : Z := 0x090.
Definition VIRTIO_MMIO_DRIVER_DESC_HIGH : Z := 0x094.
Definition VIRTIO_MMIO_DEVICE_DESC_LOW : Z := 0x0a0.
Definition VIRTIO_MMIO_DEVICE_DESC_HIGH : Z := 0x0a4.

Definition VIRTIO_CONFIG_S_ACKNOWLEDGE : Z := 1.
Definition VIRTIO_CONFIG_S_DRIVER : Z := 2.
Definition VIRTIO_CONFIG_S_DRIVER_OK : Z := 4.
Definition VIRTIO_CONFIG_S_FEATURES_OK : Z := 8.

Definition VIRTIO_BLK_F_RO : Z := 5.
Definition VIRTIO_BLK_F_SCSI : Z := 7.
Definition VIRTIO_BLK_F_CONFIG_WCE : Z := 11.
Definition VIRTIO_BLK_F_MQ : Z := 12.
Definition VIRTIO_F_ANY_LAYOUT : Z := 27.
Definition VIRTIO_RING_F_INDIRECT_DESC : Z := 28.
Definition VIRTIO_RING_F_EVENT_IDX : Z := 29.

Definition NUM : Z := 8.
Definition VRING_DESC_F_NEXT : Z := 1.
Definition VRING_DESC_F_WRITE : Z := 2.
Definition VIRTIO_BLK_T_IN : Z := 0.
Definition VIRTIO_BLK_T_OUT : Z := 1.

(** [&disk.ops[i]], [b->data] and [&disk.info[i].status]. *)
Inductive dma := Null | Ops (i : Z) | Data (b : Z) | Status (i : Z).

#[global] Instance dma_eq_dec : EqDecision dma.
Proof. solve_decision. Defined.

Record virtq_desc := VDesc { d_addr : dma; d_len : Z; d_flags : Z; d_next : Z }.
Record virtio_blk_req := BlkReq { r_type : Z; r_reserved : Z; r_sector : Z }.

(** The fields of a [struct buf] that the driver uses; [b_disk] is [b->disk]. *)
Record vbuf := VBuf { b_blockno : Z; b_disk : Z; b_data : block }.

(** [struct disk], with the pages of the queue and the buffers it points to
    and the state of the registers. *)
Record vdisk {R : Type} := VDisk {
  desc : Z -> virtq_desc;
  avail_idx : Z; avail_ring : Z -> Z;
  used_next : Z; used_ring : Z -> Z;   (** [used->idx], [used->ring[i].id] *)
  free : Z -> Z; used_idx : Z;
  info_b : Z -> Z; info_status : Z -> Z;
  ops : Z -> virtio_blk_req;
  bufs : Z -> vbuf;
  regs : R }.
Arguments vdisk : clear implicits.

Class Mmio (R : Type) := { reg_read : R -> Z -> Z; reg_write : Z -> Z -> R -> R }.

Definition upd {A} (i : Z) (v : A) (f : Z -> A) : Z -> A := fun j => if j =? i then v else f j.

Section fields.
Context {R : Type}.
Implicit Types s : vdisk R.
Definition set_desc v s := VDisk _ v (avail_idx s) (avail_ring s) (used_next s) (used_ring s) (free s) (used_idx s) (info_b s) (info_status s) (ops s) (bufs s) (regs s).
Definition set_avail i r s := VDisk _ (desc s) i r (used_next s) (used_ring s) (free s) (used_idx s) (info_b s) (info_status s) (ops s) (bufs s) (regs s).
Definition set_used i r s := VDisk _ (desc s) (avail_idx s) (avail_ring s) i r (free s) (used_idx s) (info_b s) (info_status s) (ops s) (bufs s) (regs s).
Definition set_free v s := VDisk _ (desc s) (avail_idx s) (avail_ring s) (used_next s) (used_ring s) v (used_idx s) (info_b s) (info_status s) (ops s) (bufs s) (regs s).
Definition set_used_idx v s := VDisk _ (desc s) (avail_idx s) (avail_ring s) (used_next s) (used_ring s) (free s) v (info_b s) (info_status s) (ops s) (bufs s) (regs s).
Definition set_info_b v s := VDisk _ (desc s) (avail_idx s) (avail_ring s) (used_next s) (used_ring s) (free s) (used_idx s) v (info_status s) (ops s) (bufs s) (regs s).
Definition set_info_status v s := VDisk _ (desc s) (avail_idx s) (avail_ring s) (used_next s) (used_ring s) (free s) (used_idx s) (info_b s) v (ops s) (bufs s) (regs s).
Definition set_ops v s := VDisk _ (desc s) (avail_idx s) (avail_ring s) (used_next s) (used_ring s) (free s) (used_idx s) (info_b s) (info_status s) v (bufs s) (regs s).
Definition set_bufs v s := VDisk _ (desc s) (avail_idx s) (avail_ring s) (used_next s) (used_ring s) (free s) (used_idx s) (info_b s) (info_status s) (ops s) v (regs s).
Definition set_regs (v : R) s := VDisk _ (desc s) (avail_idx s) (avail_ring s) (used_next s) (used_ring s) (free s) (used_idx s) (info_b s) (info_status s) (ops s) (bufs s) v.
End fields.

Definition set_b_disk v b := VBuf (b_blockno b) v (b_data b).
Definition set_b_data v b := VBuf (b_blockno b) (b_disk b) v.

Definition barrier {S} : M S unit := fun h s => Sleep ch_dev s (fun s' => Ret tt h s').

Section driver.
Context {R : Type} `{Mmio R}.

Definition mmio_read (r : Z) : M (vdisk R) Z := gets (fun s => u32 (reg_read (regs s) r)).
Definition mmio_write (r v : Z) : M (vdisk R) unit := modify (fun s => set_regs (reg_write r (u32 v) (regs s)) s).

Definition mod_desc (i : Z) (f : virtq_desc -> virtq_desc) : M (vdisk R) unit :=
  modify (fun s => set_desc (upd i (f (desc s i)) (desc s)) s).
Definition mod_buf (b : Z) (f : vbuf -> vbuf) : M (vdisk R) unit :=
  modify (fun s => set_bufs (upd b (f (bufs s b)) (bufs s)) s).

Fixpoint alloc_desc_loop (l : list Z) : M (vdisk R) Z :=
  match l with
  | [] => ret (-1)
  | i :: l' =>
      x <- gets (fun s => free s i);;
      if negb (x =? 0) then
        modify (fun s => set_free (upd i 0 (free s)) s);;
        ret i
      else alloc_desc_loop l'
  end.

Definition alloc_desc : M (vdisk R) Z := alloc_desc_loop (seqZ 0 NUM).

Definition free_desc (i : Z) : M (vdisk R) unit :=
  if NUM <=? i then panic "free_desc 1"
  else if i <? 0 then undef
  else
    x <- gets (fun s => free s i);;
    if negb (x =? 0) then panic "free_desc 2"
    else
      mod_desc i (fun _ => VDesc Null 0 0 0);;
      modify (fun s => set_free (upd i 1 (free s)) s);;
      wakeup ch_disk_free.

Fixpoint free_chain (fuel : nat) (i : Z) : M (vdisk R) unit :=
  match fuel with
  | O => out_of_fuel
  | S fuel' =>
      d <- gets (fun s => desc s i);;
      free_desc i;;
      if flag (d_flags d) VRING_DESC_F_NEXT then free_chain fuel' (d_next d) else ret tt
  end.

Fixpoint free_descs (l : list Z) : M (vdisk R) unit :=
  match l with
  | [] => ret tt
  | i :: l' => free_desc i;; free_descs l'
  end.

(** [n] more descriptors after [idx]; [None] is the result -1. *)
Fixpoint alloc3_loop (n : nat) (idx : list Z) : M (vdisk R) (option (list Z)) :=
  match n with
  | O => ret (Some idx)
  | S n' =>
      i <- alloc_desc;;
      if i <? 0 then
        free_descs idx;;
        ret None
      else alloc3_loop n' (idx ++ [i])
  end.

Definition alloc3_desc : M (vdisk R) (option (list Z)) := alloc3_loop 3 [].

(** The loop that waits for descriptors; [fuel] bounds the wake-ups. *)
Fixpoint rw_alloc (fuel : nat) : M (vdisk R) (list Z) :=
  r <- alloc3_desc;;
  match r with
  | Some idx => ret idx
  | None =>
      match fuel with
      | O => out_of_fuel
      | S fuel' => sleep ch_disk_free vdisk_lock;; rw_alloc fuel'
      end
  end.

(** The chain of three descriptors. *)
Definition rw_format (b : Z) (write : bool) (sector : Z) (i0 i1 i2 : Z) : M (vdisk R) unit :=
  modify (fun s => set_ops (upd i0 (BlkReq (if write then VIRTIO_BLK_T_OUT else VIRTIO_BLK_T_IN) 0 sector) (ops s)) s);;
  mod_desc i0 (fun _ => VDesc (Ops i0) 16 VRING_DESC_F_NEXT i1);;
  mod_desc i1 (fun _ => VDesc (Data b) BSIZE (Z.lor (if write then 0 else VRING_DESC_F_WRITE) VRING_DESC_F_NEXT) i2);;
  modify (fun s => set_info_status (upd i0 0xff (info_status s)) s);;
  mod_desc i2 (fun _ => VDesc (Status i0) 1 VRING_DESC_F_WRITE 0);;
  mod_buf b (set_b_disk 1);;
  modify (fun s => set_info_b (upd i0 b (info_b s)) s).

Fixpoint rw_done (fuel : nat) (b : Z) : M (vdisk R) unit :=
  x <- gets (fun s => bufs s b);;
  if b_disk x =? 1 then
    match fuel with
    | O => out_of_fuel
    | S fuel' => sleep (ch_buf b) vdisk_lock;; rw_done fuel' b
    end
  else ret tt.

(** From the wait for the interrupt on. *)
Definition rw_finish (fuel : nat) (b i0 : Z) : M (vdisk R) unit :=
  rw_done fuel b;;
  modify (fun s => set_info_b (upd i0 0 (info_b s)) s);;
  free_chain (Z.to_nat NUM + 1) i0;;
  release vdisk_lock.

(** From the second barrier on. *)
Definition rw_notify (fuel : nat) (b i0 : Z) : M (vdisk R) unit :=
  mmio_write VIRTIO_MMIO_QUEUE_NOTIFY 0;;
  rw_finish fuel b i0.

(** From the first barrier on. *)
Definition rw_publish (fuel : nat) (b i0 : Z) : M (vdisk R) unit :=
  modify (fun s => set_avail (u16 (avail_idx s + 1)) (avail_ring s) s);;
  barrier;;
  rw_notify fuel b i0.

(** With [vdisk_lock] held. *)
Definition rw_start (fuel wfuel : nat) (b : Z) (write : bool) (sector : Z) : M (vdisk R) unit :=
  idx <- rw_alloc fuel;;
  match idx with
  | [i0; i1; i2] =>
      rw_format b write sector i0 i1 i2;;
      modify (fun s => set_avail (avail_idx s) (upd (avail_idx s mod NUM) i0 (avail_ring s)) s);;
      barrier;;
      rw_publish wfuel b i0
  | _ => undef
  end.

Definition virtio_disk_rw (fuel : nat) (b : Z) (write : bool) : M (vdisk R) unit :=
  x <- gets (fun s => bufs s b);;
  let sector := u32 (b_blockno x * (BSIZE / 512)) in
  acquire vdisk_lock;;
  rw_start fuel fuel b write sector.

(** The body of the loop of [virtio_disk_intr], after its barrier. *)
Definition intr_body : M (vdisk R) unit :=
  id <- gets (fun s => i32 (used_ring s (used_idx s mod NUM)));;
  if (id <? 0) || (NUM <=? id) then undef
  else
    st <- gets (fun s => info_status s id);;
    if negb (st =? 0) then panic "virtio_disk_intr status"
    else
      b <- gets (fun s => info_b s id);;
      mod_buf b (set_b_disk 0);;
      wakeup (ch_buf b);;
      modify (fun s => set_used_idx (u16 (used_idx s + 1)) s).

Fixpoint intr_loop (fuel : nat) : M (vdisk R) unit :=
  e <- gets (fun s => used_idx s =? used_next s);;
  if negb e then
    match fuel with
    | O => out_of_fuel
    | S fuel' => barrier;; intr_body;; intr_loop fuel'
    end
  else ret tt.

Definition intr_rest (fuel : nat) : M (vdisk R) unit :=
  intr_loop fuel;;
  release vdisk_lock.

Definition intr_start (fuel : nat) : M (vdisk R) unit :=
  st <- mmio_read VIRTIO_MMIO_INTERRUPT_STATUS;;
  mmio_write VIRTIO_MMIO_INTERRUPT_ACK (Z.land st 0x3);;
  barrier;;
  intr_rest fuel.

Definition virtio_disk_intr (fuel : nat) : M (vdisk R) unit :=
  acquire vdisk_lock;;
  intr_start fuel.

(** ** Initialisation

    [virtio_disk_init] also allocates the three pages of the queue, so it runs
    over the physical memory and the driver; the new [desc], [avail] and [used]
    are the zeroed pages. *)

Definition vmem {A} (m : M phys A) : M (phys * vdisk R) A := zoom fst (fun p s => (p, snd s)) m.
Definition vdrv {A} (m : M (vdisk R) A) : M (phys * vdisk R) A := zoom snd (fun v s => (fst s, v)) m.

(** [features &= ~(1 << bit)] on a [uint64]: the mask is a sign-extended
    [int]. *)
Definition clear_bit (features bit : Z) : Z := Z.land features (u64 (i32 (Z.lnot (Z.shiftl 1 bit)))).

Definition negotiated (features : Z) : Z :=
  fold_left clear_bit
    [VIRTIO_BLK_F_RO; VIRTIO_BLK_F_SCSI; VIRTIO_BLK_F_CONFIG_WCE; VIRTIO_BLK_F_MQ; VIRTIO_F_ANY_LAYOUT;
     VIRTIO_RING_F_EVENT_IDX; VIRTIO_RING_F_INDIRECT_DESC] features.

Fixpoint free_all (l : list Z) : M (vdisk R) unit :=
  match l with
  | [] => ret tt
  | i :: l' => modify (fun s => set_free (upd i 1 (free s)) s);; free_all l'
  end.

(** The pages of the queue, by the structure they become. *)
Definition queue_setup (desc avail used : Z) : M (vdisk R) unit :=
  modify (set_desc (fun _ => VDesc Null 0 0 0));;
  modify (set_avail 0 (fun _ => 0));;
  modify (set_used 0 (fun _ => 0));;
  mmio_write VIRTIO_MMIO_QUEUE_NUM NUM;;
  mmio_write VIRTIO_MMIO_QUEUE_DESC_LOW desc;;
  mmio_write VIRTIO_MMIO_QUEUE_DESC_HIGH (Z.shiftr desc 32);;
  mmio_write VIRTIO_MMIO_DRIVER_DESC_LOW avail;;
  mmio_write VIRTIO_MMIO_DRIVER_DESC_HIGH (Z.shiftr avail 32);;
  mmio_write VIRTIO_MMIO_DEVICE_DESC_LOW used;;
  mmio_write VIRTIO_MMIO_DEVICE_DESC_HIGH (Z.shiftr used 32);;
  mmio_write VIRTIO_MMIO_QUEUE_READY 0x1;;
  free_all (seqZ 0 NUM).

Definition virtio_disk_init : M (phys * vdisk R) unit :=
  initlock vdisk_lock;;
  magic <- vdrv (mmio_read VIRTIO_MMIO_MAGIC_VALUE);;
  version <- vdrv (mmio_read VIRTIO_MMIO_VERSION);;
  device <- vdrv (mmio_read VIRTIO_MMIO_DEVICE_ID);;
  vendor <- vdrv (mmio_read VIRTIO_MMIO_VENDOR_ID);;
  if negb (magic =? 0x74726976) || negb (version =? 2) || negb (device =? 2) || negb (vendor =? 0x554d4551)
  then panic "could not find virtio disk"
  else
    let status := 0 in
    vdrv (mmio_write VIRTIO_MMIO_STATUS status);;
    let status := Z.lor status VIRTIO_CONFIG_S_ACKNOWLEDGE in
    vdrv (mmio_write VIRTIO_MMIO_STATUS status);;
    let status := Z.lor status VIRTIO_CONFIG_S_DRIVER in
    vdrv (mmio_write VIRTIO_MMIO_STATUS status);;
    features <- vdrv (mmio_read VIRTIO_MMIO_DEVICE_FEATURES);;
    vdrv (mmio_write VIRTIO_MMIO_DRIVER_FEATURES (negotiated features));;
    let status := Z.lor status VIRTIO_CONFIG_S_FEATURES_OK in
    vdrv (mmio_write VIRTIO_MMIO_STATUS status);;
    status <- vdrv (mmio_read VIRTIO_MMIO_STATUS);;
    if negb (flag status VIRTIO_CONFIG_S_FEATURES_OK) then panic "virtio disk FEATURES_OK unset"
    else
      vdrv (mmio_write VIRTIO_MMIO_QUEUE_SEL 0);;
      ready <- vdrv (mmio_read VIRTIO_MMIO_QUEUE_READY);;
      if negb (ready =? 0) then panic "virtio disk should not be ready"
      else
        max <- vdrv (mmio_read VIRTIO_MMIO_QUEUE_NUM_MAX);;
        if max =? 0 then panic "virtio disk has no queue 0"
        else if max <? NUM then panic "virtio disk max queue too short"
        else
          d <- vmem kalloc;;
          a <- vmem kalloc;;
          u <- vmem kalloc;;
          if (d =? 0) || (a =? 0) || (u =? 0) then panic "virtio disk kalloc"
          else
            vmem (mset d 0 PGSIZE);;
            vmem (mset a 0 PGSIZE);;
            vmem (mset u 0 PGSIZE);;
            vdrv (queue_setup d a u);;
            let status := Z.lor status VIRTIO_CONFIG_S_DRIVER_OK in
            vdrv (mmio_write VIRTIO_MMIO_STATUS status).

End driver.
