(* ===== verification/VirtioRun.v ===== *)
(** * Turns of the virtio driver

    What each piece of the driver does between two points where the lock is
    released or the device can act. *)

From Stdlib Require Import FunctionalExtensionality.
From S2P Require Import Prelude KMonad Riscv Trace Vm Virtio.

Section run.
Context {R : Type} `{Mmio R}.
Implicit Types s : vdisk R.

Lemma fset_eq {A} i (v : A) f : upd i v f i = v.
Proof. unfold upd. now rewrite Z.eqb_refl. Qed.

Lemma fset_ne {A} i j (v : A) f : j <> i -> upd i v f j = f j.
Proof. intros Hj. unfold upd. now rewrite (proj2 (Z.eqb_neq j i)). Qed.

Lemma fset_fset {A} i (v w : A) f : upd i v (upd i w f) = upd i v f.
Proof. extensionality j. unfold upd. now destruct (j =? i). Qed.

(** ** Descriptors *)

Definition in_range (i : Z) : Prop := 0 <= i < NUM.
Definition flags_ok s : Prop := forall i, in_range i -> free s i = 0 \/ free s i = 1.

(** The descriptors that are free, in order. *)
Definition free_list s : list Z := filter (fun i => free s i <> 0) (seqZ 0 NUM).

Lemma elem_of_free_list s i : i ∈ free_list s <-> in_range i /\ free s i <> 0.
Proof. unfold free_list, in_range. rewrite list_elem_of_filter, elem_of_seqZ. lia. Qed.

Lemma NoDup_free_list s : NoDup (free_list s).
Proof. apply NoDup_filter, NoDup_seqZ. Qed.

Lemma alloc_desc_loop_run h s L :
  alloc_desc_loop L h s = match filter (fun i => free s i <> 0) L with
    | [] => Ret (-1) h s
    | i :: _ => Ret i h (set_free (upd i 0 (free s)) s)
    end.
Proof.
  induction L as [|i L IH]; cbn [alloc_desc_loop]; [reflexivity |]. rewrite bind_gets, filter_cons.
  destruct (Z.eqb_spec (free s i) 0) as [E | E]; cbn [negb].
  - now rewrite decide_False by auto.
  - rewrite decide_True by auto. reflexivity.
Qed.

Lemma alloc_desc_run h s : alloc_desc h s = match free_list s with
  | [] => Ret (-1) h s
  | i :: _ => Ret i h (set_free (upd i 0 (free s)) s)
  end.
Proof. apply alloc_desc_loop_run. Qed.

Lemma filter_ext_in {A} (P Q : A -> Prop) `{!forall x, Decision (P x)} `{!forall x, Decision (Q x)} (L : list A) :
  (forall x, x ∈ L -> P x <-> Q x) -> filter P L = filter Q L.
Proof.
  induction L as [|x L IH]; intros HPQ; [reflexivity |]. rewrite !filter_cons, IH by (intros y Hy; apply HPQ; now right).
  destruct (HPQ x (list_elem_of_here _ _)). destruct (decide (P x)), (decide (Q x)); tauto.
Qed.

Lemma filter_alloc f i l (L : list Z) : NoDup L -> filter (fun j => f j <> 0) L = i :: l -> filter (fun j => upd i 0 f j <> 0) L = l.
Proof.
  induction L as [|j L IH]; intros Hnd E; [discriminate |]. apply NoDup_cons in Hnd as [Hj Hnd]. rewrite filter_cons in *.
  destruct (decide (f j <> 0)) as [Hf | Hf].
  - injection E as -> <-. rewrite decide_False by (rewrite fset_eq; lia). apply filter_ext_in. intros x Hx.
    rewrite fset_ne; [reflexivity | congruence].
  - rewrite decide_False; [auto |]. destruct (decide (j = i)) as [-> | Hne]; [rewrite fset_eq; lia | now rewrite fset_ne].
Qed.

Lemma free_list_alloc s i l : free_list s = i :: l -> free_list (set_free (upd i 0 (free s)) s) = l.
Proof. apply filter_alloc, NoDup_seqZ. Qed.

(** ** Giving descriptors back *)

Definition freed (i : Z) s : vdisk R := set_free (upd i 1 (free s)) (set_desc (upd i (VDesc Null 0 0 0) (desc s)) s).

Lemma free_desc_run h s i : in_range i -> free s i = 0 ->
  free_desc i h s = emits [EvWakeup ch_disk_free] (Ret tt h (freed i s)).
Proof.
  intros [H1 H2] Hf. unfold free_desc. rewrite (proj2 (Z.leb_gt _ _)), (proj2 (Z.ltb_ge _ _)) by lia.
  unfold mod_desc. rewrite bind_gets, Hf. cbn [Z.eqb negb]. krun. reflexivity.
Qed.

Definition freeds (L : list Z) s : vdisk R := fold_left (fun s i => freed i s) L s.

Lemma free_descs_run h L : forall s, NoDup L -> (forall i, i ∈ L -> in_range i /\ free s i = 0) ->
  free_descs L h s = emits (repeat (EvWakeup ch_disk_free) (length L)) (Ret tt h (freeds L s)).
Proof.
  induction L as [|i L IH]; intros s Hnd HL; cbn [free_descs]; [reflexivity |]. apply NoDup_cons in Hnd as [Hi Hnd].
  destruct (HL i (list_elem_of_here _ _)) as [Hr Hf]. rewrite (bind_emits _ _ _ _ _ _ _ _ (free_desc_run h s i Hr Hf)).
  rewrite IH; [reflexivity | exact Hnd |]. intros j Hj. destruct (HL j) as [Hr' Hf']; [now right |]. split; [exact Hr' |].
  cbn. rewrite fset_ne by congruence. exact Hf'.
Qed.

Lemma freeds_free L : forall s i, free (freeds L s) i = if decide (i ∈ L) then 1 else free s i.
Proof.
  induction L as [|j L IH]; intros s i; cbn [freeds fold_left]; [reflexivity |]. change (fold_left _ L ?x) with (freeds L x). rewrite IH.
  destruct (decide (i ∈ L)) as [Hi | Hi]; [rewrite decide_True by (now right); reflexivity |]. cbn.
  destruct (decide (i = j)) as [-> | Hne].
  - rewrite fset_eq, decide_True by left. reflexivity.
  - rewrite fset_ne, decide_False by (auto; rewrite elem_of_cons; tauto). reflexivity.
Qed.

Lemma freeds_desc L : forall s i, i ∉ L -> desc (freeds L s) i = desc s i.
Proof.
  induction L as [|j L IH]; intros s i Hi; cbn [freeds fold_left]; [reflexivity |]. change (fold_left _ L ?x) with (freeds L x).
  rewrite not_elem_of_cons in Hi. rewrite IH by tauto. cbn. now rewrite fset_ne by tauto.
Qed.

(** Nothing but [desc] and [free] differs. *)
Record same_rest s s' : Prop := {
  sr_avail : avail_idx s' = avail_idx s; sr_ring : avail_ring s' = avail_ring s;
  sr_used : used_next s' = used_next s; sr_uring : used_ring s' = used_ring s; sr_uidx : used_idx s' = used_idx s;
  sr_b : info_b s' = info_b s; sr_status : info_status s' = info_status s; sr_ops : ops s' = ops s;
  sr_bufs : bufs s' = bufs s; sr_regs : regs s' = regs s }.

Lemma freeds_rest L : forall s, same_rest s (freeds L s).
Proof.
  induction L as [|j L IH]; intros s; cbn [freeds fold_left]; [now split |]. change (fold_left _ L ?x) with (freeds L x).
  destruct (IH (freed j s)). now split.
Qed.

(** ** Submitting a request *)

Lemma alloc3_three h s i0 i1 i2 l : free_list s = i0 :: i1 :: i2 :: l ->
  alloc3_desc h s = Ret (Some [i0; i1; i2]) h (set_free (upd i2 0 (upd i1 0 (upd i0 0 (free s)))) s).
Proof.
  intros E. assert (Hr : forall i, i ∈ free_list s -> 0 <= i) by (intros i Hi; apply elem_of_free_list in Hi as [[? _] _]; auto).
  rewrite E in Hr. assert (0 <= i0 /\ 0 <= i1 /\ 0 <= i2) as (H0 & H1 & H2).
  { split_and!; apply Hr; rewrite !elem_of_cons; tauto. }
  unfold alloc3_desc. cbn [alloc3_loop].
  pose proof (free_list_alloc s i0 _ E) as E1. pose proof (free_list_alloc _ i1 _ E1) as E2.
  erewrite bind_Ret by (rewrite alloc_desc_run, E; reflexivity). rewrite (proj2 (Z.ltb_ge _ _)) by lia.
  erewrite bind_Ret by (rewrite alloc_desc_run, E1; reflexivity). rewrite (proj2 (Z.ltb_ge _ _)) by lia.
  erewrite bind_Ret by (rewrite alloc_desc_run, E2; reflexivity). rewrite (proj2 (Z.ltb_ge _ _)) by lia.
  reflexivity.
Qed.

(** The loop fails after taking the descriptors that are left. *)
Lemma alloc3_loop_fail h n : forall s idx, (length (free_list s) < n)%nat -> NoDup (idx ++ free_list s) ->
  (forall i, i ∈ idx -> in_range i /\ free s i = 0) ->
  exists s', alloc3_loop n idx h s = emits (repeat (EvWakeup ch_disk_free) (length (idx ++ free_list s))) (Ret None h (freeds (idx ++ free_list s) s')) /\
    same_rest s s' /\ desc s' = desc s /\ forall i, free s' i = if decide (i ∈ free_list s) then 0 else free s i.
Proof.
  induction n as [|n IH]; intros s idx Hn Hnd Hidx; [lia |]. cbn [alloc3_loop].
  destruct (free_list s) as [|i l] eqn:E.
  - rewrite app_nil_r in *. exists s. split_and!; [| now split | reflexivity | intros i; now rewrite decide_False by apply not_elem_of_nil].
    erewrite bind_Ret by (rewrite alloc_desc_run, E; reflexivity). change (-1 <? 0) with true. cbv iota.
    rewrite (bind_emits _ _ _ _ _ _ _ _ (free_descs_run h idx s Hnd Hidx)). reflexivity.
  - assert (Hi : in_range i) by (apply (elem_of_free_list s); rewrite E; left).
    erewrite bind_Ret by (rewrite alloc_desc_run, E; reflexivity). rewrite (proj2 (Z.ltb_ge _ _)) by apply Hi.
    pose proof (free_list_alloc s i l E) as E1. set (s1 := set_free (upd i 0 (free s)) s) in *.
    assert (Hia : (idx ++ [i]) ++ free_list s1 = idx ++ i :: l) by (rewrite E1, <- app_assoc; reflexivity).
    destruct (IH s1 (idx ++ [i])) as (s' & Er & Hs & Hd & Hf).
    + rewrite E1. cbn in Hn. lia.
    + now rewrite Hia.
    + intros j [Hj | Hj]%elem_of_app.
      * destruct (Hidx j Hj) as [Hr Hz]. split; [exact Hr |]. unfold s1. cbn. destruct (decide (j = i)) as [-> | Hne]; [apply fset_eq | now rewrite fset_ne].
      * apply list_elem_of_singleton in Hj as ->. split; [exact Hi | apply fset_eq].
    + rewrite Hia in Er. exists s'. split_and!; auto; [destruct Hs; now split |].
      intros j. rewrite Hf, E1. unfold s1. cbn [free set_free]. destruct (decide (j ∈ l)) as [Hj | Hj]; [now rewrite decide_True by (now right) |].
      destruct (decide (j = i)) as [-> | Hne]; [rewrite fset_eq, decide_True by left; reflexivity |].
      rewrite fset_ne, decide_False by (auto; rewrite elem_of_cons; tauto). reflexivity.
Qed.

Lemma alloc3_fail h s : (length (free_list s) < 3)%nat -> flags_ok s ->
  exists s', alloc3_desc h s = emits (repeat (EvWakeup ch_disk_free) (length (free_list s))) (Ret None h s') /\
    same_rest s s' /\ free s' = free s /\ forall i, ~ (in_range i /\ free s i <> 0) -> desc s' i = desc s i.
Proof.
  intros Hn Hok. destruct (alloc3_loop_fail h 3 s [] Hn (NoDup_free_list s)) as (s' & E & Hs & Hd & Hf).
  { intros i Hi. now apply elem_of_nil in Hi. }
  cbn [app] in E. exists (freeds (free_list s) s'). split; [exact E |]. pose proof (freeds_rest (free_list s) s') as Hr. split_and!.
  - destruct Hs, Hr. split; congruence.
  - extensionality i. rewrite freeds_free, Hf. destruct (decide (i ∈ free_list s)) as [Hi | Hi]; [| reflexivity].
    apply elem_of_free_list in Hi as [Hr' Hi]. destruct (Hok i Hr'); congruence.
  - intros i Hi. rewrite freeds_desc, Hd; [reflexivity |]. now rewrite elem_of_free_list.
Qed.

(** The chain that [rw_format] builds, with the head in the next slot of the
    ring of available requests. *)
Definition blk_type (w : bool) : Z := if w then VIRTIO_BLK_T_OUT else VIRTIO_BLK_T_IN.
Definition data_flags (w : bool) : Z := Z.lor (if w then 0 else VRING_DESC_F_WRITE) VRING_DESC_F_NEXT.

Definition submitted (b : Z) (w : bool) (sector i0 i1 i2 : Z) s : vdisk R :=
  VDisk _ (upd i2 (VDesc (Status i0) 1 VRING_DESC_F_WRITE 0) (upd i1 (VDesc (Data b) BSIZE (data_flags w) i2)
             (upd i0 (VDesc (Ops i0) 16 VRING_DESC_F_NEXT i1) (desc s))))
    (avail_idx s) (upd (avail_idx s mod NUM) i0 (avail_ring s)) (used_next s) (used_ring s)
    (upd i2 0 (upd i1 0 (upd i0 0 (free s)))) (used_idx s) (upd i0 b (info_b s)) (upd i0 0xff (info_status s))
    (upd i0 (BlkReq (blk_type w) 0 sector) (ops s)) (upd b (set_b_disk 1 (bufs s b)) (bufs s)) (regs s).

Inductive start_turn (fuel wfuel : nat) (b : Z) (w : bool) (sector : Z) s : outcome (vdisk R) unit -> Prop :=
| start_go i0 i1 i2 l : free_list s = i0 :: i1 :: i2 :: l ->
    start_turn fuel wfuel b w sector s
      (Sleep ch_dev (submitted b w sector i0 i1 i2 s) (fun s' => rw_publish wfuel b i0 [vdisk_lock] s'))
| start_wait fuel' s' : fuel = S fuel' -> (length (free_list s) < 3)%nat -> same_rest s s' -> free s' = free s ->
    (forall i, ~ (in_range i /\ free s i <> 0) -> desc s' i = desc s i) ->
    start_turn fuel wfuel b w sector s
      (emits (repeat (EvWakeup ch_disk_free) (length (free_list s)))
        (Sleep ch_disk_free s' (fun s'' => rw_start fuel' wfuel b w sector [vdisk_lock] s''))).

Lemma rw_start_turn fuel wfuel b w sector s : (0 < fuel)%nat -> flags_ok s ->
  start_turn fuel wfuel b w sector s (rw_start fuel wfuel b w sector [vdisk_lock] s).
Proof.
  intros Hfuel Hok. destruct fuel as [|fuel]; [lia |]. unfold rw_start. destruct (decide (length (free_list s) < 3)%nat) as [Hn | Hn].
  - destruct (alloc3_fail [vdisk_lock] s Hn Hok) as (s' & E & Hs & Hf & Hd).
    pose proof (start_wait (S fuel) wfuel b w sector s fuel s' eq_refl Hn Hs Hf Hd) as Ht.
    cbn [rw_alloc]. unfold bind at 1 2. rewrite E, !obind_emits. cbn [obind]. unfold bind at 1. rewrite sleep_only. exact Ht.
  - destruct (free_list s) as [|i0 [|i1 [|i2 l]]] eqn:E; try (cbn in Hn; lia).
    pose proof (start_go (S fuel) wfuel b w sector s i0 i1 i2 l E) as Ht.
    cbn [rw_alloc]. rewrite bind_bind, (bind_Ret _ _ _ _ _ _ _ (alloc3_three [vdisk_lock] s i0 i1 i2 l E)), bind_ret.
    unfold rw_format, mod_desc, mod_buf. krun. exact Ht.
Qed.

(** ** The rest of a request *)

(** A chain of three descriptors for buffer [b]. *)
Record formatted s (b : Z) (w : bool) (i0 i1 i2 : Z) : Prop := {
  fm_nodup : NoDup [i0; i1; i2];
  fm_taken : forall i, i ∈ [i0; i1; i2] -> in_range i /\ free s i = 0;
  fm_0 : desc s i0 = VDesc (Ops i0) 16 VRING_DESC_F_NEXT i1;
  fm_1 : desc s i1 = VDesc (Data b) BSIZE (data_flags w) i2;
  fm_2 : desc s i2 = VDesc (Status i0) 1 VRING_DESC_F_WRITE 0
}.

Lemma submitted_formatted b w sector i0 i1 i2 l s : free_list s = i0 :: i1 :: i2 :: l ->
  formatted (submitted b w sector i0 i1 i2 s) b w i0 i1 i2.
Proof.
  intros E. pose proof (NoDup_free_list s) as Hnd. rewrite E in Hnd.
  assert (Hr : forall i, i ∈ [i0; i1; i2] -> in_range i).
  { intros i Hi. apply (elem_of_free_list s). rewrite E, !elem_of_cons in *. rewrite elem_of_nil in Hi. tauto. }
  apply NoDup_cons in Hnd as [H0 Hnd]. apply NoDup_cons in Hnd as [H1 Hnd]. apply NoDup_cons in Hnd as [H2 _].
  rewrite !not_elem_of_cons in *. destruct H0 as (H01 & H02 & _), H1 as (H12 & _).
  split; cbn [submitted desc free].
  - repeat constructor; rewrite ?elem_of_cons, ?elem_of_nil; intuition congruence.
  - intros i Hi. split; [auto |]. rewrite !elem_of_cons, elem_of_nil in Hi. destruct Hi as [-> | [-> | [-> | []]]]; unfold upd; bool_cases; congruence.
  - now rewrite !fset_ne, fset_eq by auto.
  - now rewrite fset_ne, fset_eq by auto.
  - apply fset_eq.
Qed.

Lemma rw_publish_turn fuel b i0 s :
  rw_publish fuel b i0 [vdisk_lock] s =
  Sleep ch_dev (set_avail (u16 (avail_idx s + 1)) (avail_ring s) s) (fun s' => rw_notify fuel b i0 [vdisk_lock] s').
Proof. reflexivity. Qed.

Lemma rw_finish_wait fuel b i0 s : b_disk (bufs s b) = 1 ->
  rw_finish (S fuel) b i0 [vdisk_lock] s = Sleep (ch_buf b) s (fun s' => rw_finish fuel b i0 [vdisk_lock] s').
Proof. intros E. unfold rw_finish. cbn [rw_done]. rewrite bind_bind, bind_gets, E. change (1 =? 1) with true. cbv iota. unfold bind at 1 2. rewrite sleep_only. reflexivity. Qed.

Lemma rw_notify_turn fuel b i0 s : b_disk (bufs s b) = 1 ->
  rw_notify (S fuel) b i0 [vdisk_lock] s =
  Sleep (ch_buf b) (set_regs (reg_write VIRTIO_MMIO_QUEUE_NOTIFY (u32 0) (regs s)) s) (fun s' => rw_finish fuel b i0 [vdisk_lock] s').
Proof. intros E. unfold rw_notify, mmio_write. krun. now rewrite rw_finish_wait. Qed.

Lemma free_chain_run h s b w i0 i1 i2 : formatted s b w i0 i1 i2 ->
  free_chain (Z.to_nat NUM + 1) i0 h s = emits (repeat (EvWakeup ch_disk_free) 3) (Ret tt h (freeds [i0; i1; i2] s)).
Proof.
  intros [Hnd Ht E0 E1 E2]. destruct (Ht i0) as [R0 F0]; [left |]. destruct (Ht i1) as [R1 F1]; [right; left |].
  destruct (Ht i2) as [R2 F2]; [right; right; left |]. apply NoDup_cons in Hnd as [H0 Hnd]. apply NoDup_cons in Hnd as [H1 _].
  rewrite !not_elem_of_cons in *. destruct H0 as (H01 & H02 & _), H1 as (H12 & _).
  change (Z.to_nat NUM + 1)%nat with 9%nat. cbn [free_chain].
  rewrite bind_gets, E0, (bind_emits _ _ _ _ _ _ _ _ (free_desc_run h s i0 R0 F0)). cbn [d_flags d_next].
  change (flag VRING_DESC_F_NEXT VRING_DESC_F_NEXT) with true. cbv iota. rewrite bind_gets. cbn [freed desc set_free set_desc].
  rewrite fset_ne, E1 by auto.
  assert (F1' : free (freed i0 s) i1 = 0) by (cbn; now rewrite fset_ne by auto).
  rewrite (bind_emits _ _ _ _ _ _ _ _ (free_desc_run h (freed i0 s) i1 R1 F1')). cbn [d_flags d_next].
  replace (flag (data_flags w) VRING_DESC_F_NEXT) with true by (now destruct w). rewrite bind_gets. cbn [freed desc set_free set_desc].
  rewrite !fset_ne, E2 by auto.
  assert (F2' : free (freed i1 (freed i0 s)) i2 = 0) by (cbn; now rewrite !fset_ne by auto).
  rewrite (bind_emits _ _ _ _ _ _ _ _ (free_desc_run h (freed i1 (freed i0 s)) i2 R2 F2')). cbn [d_flags].
  change (flag VRING_DESC_F_WRITE VRING_DESC_F_NEXT) with false. reflexivity.
Qed.

(** The descriptors of a request go back when it is done. *)
Definition completed (i0 i1 i2 : Z) s : vdisk R := freeds [i0; i1; i2] (set_info_b (upd i0 0 (info_b s)) s).

Lemma rw_finish_return fuel b w i0 i1 i2 s : b_disk (bufs s b) <> 1 -> formatted s b w i0 i1 i2 ->
  rw_finish fuel b i0 [vdisk_lock] s = emits (repeat (EvWakeup ch_disk_free) 3) (Ret tt [] (completed i0 i1 i2 s)).
Proof.
  intros Hd Hf. unfold rw_finish.
  assert (E : rw_done fuel b [vdisk_lock] s = Ret tt [vdisk_lock] s).
  { destruct fuel; cbn [rw_done]; rewrite bind_gets, (proj2 (Z.eqb_neq _ _)) by exact Hd; reflexivity. }
  rewrite (bind_Ret _ _ _ _ _ _ _ E), bind_modify. set (s1 := set_info_b _ s).
  assert (Hf1 : formatted s1 b w i0 i1 i2) by (destruct Hf; now split).
  rewrite (bind_emits _ _ _ _ _ _ _ _ (free_chain_run [vdisk_lock] s1 b w i0 i1 i2 Hf1)), release_top. reflexivity.
Qed.

(** ** The interrupt handler *)

Lemma intr_start_turn fuel s : exists r,
  intr_start fuel [vdisk_lock] s = Sleep ch_dev (set_regs r s) (fun s' => intr_rest fuel [vdisk_lock] s').
Proof. eexists. unfold intr_start, mmio_read, mmio_write. krun. reflexivity. Qed.

Lemma intr_rest_none fuel s : used_idx s = used_next s -> intr_rest fuel [vdisk_lock] s = Ret tt [] s.
Proof.
  intros E. unfold intr_rest.
  assert (El : intr_loop fuel [vdisk_lock] s = Ret tt [vdisk_lock] s)
    by (destruct fuel; cbn [intr_loop]; rewrite bind_gets, (proj2 (Z.eqb_eq _ _)) by exact E; reflexivity).
  rewrite (bind_Ret _ _ _ _ _ _ _ El). apply release_top.
Qed.

Lemma intr_rest_some fuel s : used_idx s <> used_next s ->
  intr_rest (S fuel) [vdisk_lock] s = Sleep ch_dev s (fun s' => (intr_body;; intr_rest fuel) [vdisk_lock] s').
Proof.
  intros E. unfold intr_rest. cbn [intr_loop]. rewrite bind_bind, bind_gets, (proj2 (Z.eqb_neq _ _)) by exact E. cbn [negb].
  unfold bind at 1 2. cbn [barrier obind]. f_equal. extensionality s'. exact (bind_bind intr_body (fun _ => intr_loop fuel) (fun _ => release vdisk_lock) [vdisk_lock] s').
Qed.

(** A request of buffer [b] is done. *)
Definition answered (b : Z) s : vdisk R :=
  set_used_idx (u16 (used_idx s + 1)) (set_bufs (upd b (set_b_disk 0 (bufs s b)) (bufs s)) s).

Lemma intr_body_run h s id : used_ring s (used_idx s mod NUM) = id -> in_range id -> info_status s id = 0 ->
  intr_body h s = emits [EvWakeup (ch_buf (info_b s id))] (Ret tt h (answered (info_b s id) s)).
Proof.
  intros Hid Hr Hst. unfold intr_body, mod_buf. rewrite bind_gets, Hid, i32_small by (unfold in_range, NUM in Hr; lia).
  destruct Hr as [H1 H2]. rewrite (proj2 (Z.ltb_ge _ _)), (proj2 (Z.leb_gt _ _)) by lia. cbn [orb].
  rewrite bind_gets, Hst. cbn [Z.eqb negb]. krun. reflexivity.
Qed.

Lemma intr_body_error h s id : used_ring s (used_idx s mod NUM) = id -> in_range id -> info_status s id <> 0 ->
  intr_body h s = Panic "virtio_disk_intr status".
Proof.
  intros Hid Hr Hst. unfold intr_body. rewrite bind_gets, Hid, i32_small by (unfold in_range, NUM in Hr; lia).
  destruct Hr as [H1 H2]. rewrite (proj2 (Z.ltb_ge _ _)), (proj2 (Z.leb_gt _ _)) by lia. cbn [orb].
  now rewrite bind_gets, (proj2 (Z.eqb_neq _ _) Hst).
Qed.

End run.
