(* ===== verification/VirtioSys.v ===== *)
(** * The virtio driver and its device

    Any number of threads that call [virtio_disk_rw], interrupts, and the
    device, interleaved at the points where the driver releases its lock and at
    its memory barriers.  The device is a parameter: it takes requests from the
    ring of available ones, serves them in any order and puts them on the used
    ring, as section 2.6 and 5.2 of the virtio specification say, as long as the
    chains it finds are well formed: all of them with success ([dev_spec]), or some
    with an error ([dev_spec_err]). *)

From Stdlib Require Import FunctionalExtensionality.
From S2P Require Import Prelude KMonad Riscv Trace Sleeplock Vm Virtio VirtioRun.

(** A thread at the start of [virtio_disk_rw], at its two barriers, in its wait
    for the interrupt; an interrupt handler at its start, after its first
    barrier, and in the body of its loop. *)
Inductive vcall :=
| RwStart (b : Z) (w : bool) (sector : Z)
| RwPublish (b : Z) (w : bool) (i0 : Z)
| RwNotify (b : Z) (w : bool) (i0 : Z)
| RwWait (b : Z) (w : bool) (i0 : Z)
| IntrStart | IntrRest | IntrBody.

Inductive vstatus := VReady | VAsleep (c : channel) | VDone.

(** The contents of the disk in sectors of 512 bytes, and where the device is
    in the rings: [inflight] are the requests it has taken, [finished] those
    it has served and not yet put on the used ring. *)
Record device := Dev { sect : Z -> list Z; last_avail : Z; inflight : list Z; finished : list Z }.

Section system.
Context {R : Type} `{Mmio R}.
Implicit Types s : vdisk R.

Record vsys := VSys { drv : vdisk R; dev : device; owner : option nat; vthreads : list (vcall * vstatus) }.

Definition vcode (fuel wfuel : nat) (c : vcall) : M (vdisk R) unit :=
  match c with
  | RwStart b w sector => rw_start fuel wfuel b w sector
  | RwPublish b w i0 => rw_publish fuel b i0
  | RwNotify b w i0 => rw_notify fuel b i0
  | RwWait b w i0 => rw_finish fuel b i0
  | IntrStart => intr_start fuel
  | IntrRest => intr_rest fuel
  | IntrBody => intr_body;; intr_rest fuel
  end.

(** Where a thread is after a turn that ended in state [s] on channel [ch]. *)
Definition next_call (c : vcall) s (ch : channel) : vcall :=
  match c with
  | RwStart b w sector => if decide (ch = ch_dev) then RwPublish b w (avail_ring s (avail_idx s mod NUM)) else c
  | RwPublish b w i0 => RwNotify b w i0
  | RwNotify b w i0 => RwWait b w i0
  | IntrStart => IntrRest
  | IntrRest => IntrBody
  | _ => c
  end.

(** At a barrier a thread holds the lock. *)
Definition holds_lock (c : vcall) : bool :=
  match c with RwPublish _ _ _ | RwNotify _ _ _ | IntrRest | IntrBody => true | _ => false end.

Definition call_buf (c : vcall) : option (Z * bool) :=
  match c with
  | RwStart b w _ | RwPublish b w _ | RwNotify b w _ | RwWait b w _ => Some (b, w)
  | _ => None
  end.

(** The buffer of a call that has not returned. *)
Definition live_buf (th : vcall * vstatus) : option Z :=
  match snd th with VDone => None | _ => fst <$> call_buf (fst th) end.

Definition vwake (tr : list event) (th : vcall * vstatus) : vcall * vstatus :=
  match snd th with
  | VAsleep ch => if existsb (fun e => match e with EvWakeup c => bool_decide (c = ch) | _ => false end) tr
                  then (fst th, VReady) else th
  | _ => th
  end.

(** ** The device *)

(** The request that starts at descriptor [h]: whether it writes, the first
    sector, the buffer, and the index of its status byte. *)
Definition request s (h : Z) : option (bool * Z * Z * Z) :=
  let d0 := desc s h in
  let d1 := desc s (d_next d0) in
  let d2 := desc s (d_next d1) in
  match d_addr d0, d_addr d1, d_addr d2 with
  | Ops i, Data b, Status j =>
      if (d_len d0 =? 16) && flag (d_flags d0) VRING_DESC_F_NEXT && negb (flag (d_flags d0) VRING_DESC_F_WRITE) &&
         (d_len d1 =? BSIZE) && flag (d_flags d1) VRING_DESC_F_NEXT &&
         (d_len d2 =? 1) && negb (flag (d_flags d2) VRING_DESC_F_NEXT) && flag (d_flags d2) VRING_DESC_F_WRITE
      then
        let r := ops s i in
        if (r_type r =? VIRTIO_BLK_T_OUT) && negb (flag (d_flags d1) VRING_DESC_F_WRITE) then Some (true, r_sector r, b, j)
        else if (r_type r =? VIRTIO_BLK_T_IN) && flag (d_flags d1) VRING_DESC_F_WRITE then Some (false, r_sector r, b, j)
        else None
      else None
  | _, _, _ => None
  end.

(** Two sectors are transferred and the status is set to 0. *)
Definition transfer (r : bool * Z * Z * Z) s (f : Z -> list Z) : vdisk R * (Z -> list Z) :=
  let '(w, sector, b, j) := r in
  let s1 := set_info_status (upd j 0 (info_status s)) s in
  let x := bufs s b in
  if w then (s1, upd sector (take 512 (b_data x)) (upd (sector + 1) (drop 512 (b_data x)) f))
  else (set_bufs (upd b (set_b_data (f sector ++ f (sector + 1)) x) (bufs s)) s1, f).

Inductive dev_spec s (d : device) : vdisk R -> device -> Prop :=
| dv_take : last_avail d <> avail_idx s ->
    dev_spec s d s (Dev (sect d) (u16 (last_avail d + 1)) (inflight d ++ [avail_ring s (last_avail d mod NUM)]) (finished d))
| dv_transfer l1 h l2 r : inflight d = l1 ++ h :: l2 -> request s h = Some r ->
    dev_spec s d (fst (transfer r s (sect d))) (Dev (snd (transfer r s (sect d))) (last_avail d) (l1 ++ l2) (finished d ++ [h]))
| dv_publish l1 h l2 : finished d = l1 ++ h :: l2 ->
    dev_spec s d (set_used (u16 (used_next s + 1)) (upd (used_next s mod NUM) h (used_ring s)) s)
      (Dev (sect d) (last_avail d) (inflight d) (l1 ++ l2))
| dv_regs r : dev_spec s d (set_regs r s) d.

(** A request ends with an error: the buffer of a read, or the sectors of a
    write, may hold anything. *)
Definition fault (r : bool * Z * Z * Z) (v : Z) (x y : list Z) s (f : Z -> list Z) : vdisk R * (Z -> list Z) :=
  let '(w, sector, b, j) := r in
  let s1 := set_info_status (upd j v (info_status s)) s in
  if w then (s1, upd sector x (upd (sector + 1) y f))
  else (set_bufs (upd b (set_b_data x (bufs s b)) (bufs s)) s1, f).

(** A device that may also fail, with VIRTIO_BLK_S_IOERR or VIRTIO_BLK_S_UNSUPP
    as status. *)
Inductive dev_spec_err s (d : device) : vdisk R -> device -> Prop :=
| de_ok s' d' : dev_spec s d s' d' -> dev_spec_err s d s' d'
| de_fail l1 h l2 r v x y : inflight d = l1 ++ h :: l2 -> request s h = Some r -> v = 1 \/ v = 2 ->
    dev_spec_err s d (fst (fault r v x y s (sect d))) (Dev (snd (fault r v x y s (sect d))) (last_avail d) (l1 ++ l2) (finished d ++ [h])).

Definition well_formed s (d : device) : Prop := forall h, h ∈ inflight d -> is_Some (request s h).

(** ** Steps *)

Variable device_step : vdisk R -> device -> vdisk R -> device -> Prop.

Definition may_run (o : option nat) (t : nat) (c : vcall) : Prop := o = Some t \/ (o = None /\ holds_lock c = false).

Inductive vstep : vsys -> vsys -> Prop :=
| vs_call s d o ths b w : (forall th, th ∈ ths -> live_buf th <> Some b) -> 0 <= b_blockno (bufs s b) < 2 ^ 31 ->
    vstep (VSys s d o ths) (VSys s d o (ths ++ [(RwStart b w (u32 (b_blockno (bufs s b) * (BSIZE / 512))), VReady)]))
| vs_intr s d o ths : vstep (VSys s d o ths) (VSys s d o (ths ++ [(IntrStart, VReady)]))
| vs_world s d o ths f : (forall th b, th ∈ ths -> live_buf th = Some b -> f b = bufs s b) ->
    vstep (VSys s d o ths) (VSys (set_bufs f s) d o ths)
| vs_device s d o ths s' d' : device_step s d s' d' -> vstep (VSys s d o ths) (VSys s' d' o ths)
| vs_return s d o ths t c fuel wfuel tr s' : ths !! t = Some (c, VReady) -> may_run o t c -> (0 < fuel)%nat ->
    vcode fuel wfuel c [vdisk_lock] s = emits tr (Ret tt [] s') ->
    vstep (VSys s d o ths) (VSys s' d None (<[t := (c, VDone)]> (map (vwake tr) ths)))
| vs_sleep s d o ths t c fuel wfuel tr ch s' k fuel' wfuel' : ths !! t = Some (c, VReady) -> may_run o t c -> (0 < fuel)%nat ->
    vcode fuel wfuel c [vdisk_lock] s = emits tr (Sleep ch s' k) ->
    k = (fun s'' => vcode fuel' wfuel' (next_call c s' ch) [vdisk_lock] s'') ->
    vstep (VSys s d o ths)
      (VSys s' d (if decide (ch = ch_dev) then Some t else None)
        (<[t := (next_call c s' ch, if decide (ch = ch_dev) then VReady else VAsleep ch)]> (map (vwake tr) ths))).

(** The state that [virtio_disk_init] leaves, with no call in progress. *)
Definition vinit (x : vsys) : Prop :=
  (forall i, in_range i -> free (drv x) i = 1) /\
  avail_idx (drv x) = 0 /\ used_next (drv x) = 0 /\ used_idx (drv x) = 0 /\
  last_avail (dev x) = 0 /\ inflight (dev x) = [] /\ finished (dev x) = [] /\ owner x = None /\ vthreads x = [].

(** ** What a disk promises

    Calls take effect one at a time: between its start and its return, a call
    stores the buffer in its block or fills the buffer from it. *)

Inductive astat := APending | ADone | AReturned.

Record astate := AState { a_disk : disk_t; a_blockno : Z -> Z; a_data : Z -> block; a_calls : list (option (Z * bool * astat)) }.

Inductive atomic_step : astate -> astate -> Prop :=
| at_call d n v (l : list (option (Z * bool * astat))) (b : Z) w : (forall (w' : bool) st, Some (b, w', st) ∈ l -> st = AReturned) ->
    atomic_step (AState d n v l) (AState d n v (l ++ [Some (b, w, APending)]))
| at_other d n v l : atomic_step (AState d n v l) (AState d n v (l ++ [None]))
| at_world d n v (l : list (option (Z * bool * astat))) (n' : Z -> Z) (v' : Z -> block) : (forall (b : Z) (w : bool) st, Some (b, w, st) ∈ l -> st <> AReturned -> n' b = n b /\ v' b = v b) ->
    atomic_step (AState d n v l) (AState d n' v' l)
| at_complete d n v l t (b : Z) (w : bool) : l !! t = Some (Some (b, w, APending)) ->
    atomic_step (AState d n v l)
      (AState (if w then dwrite d (n b) (v b) else d) n (if w then v else upd b (d (n b)) v) (<[t := Some (b, w, ADone)]> l))
| at_return d n v l t b w : l !! t = Some (Some (b, w, ADone)) ->
    atomic_step (AState d n v l) (AState d n v (<[t := Some (b, w, AReturned)]> l)).

(** The head of the chain of a call. *)
Definition head_of (c : vcall) : option Z :=
  match c with RwPublish _ _ i | RwNotify _ _ i | RwWait _ _ i => Some i | _ => None end.

Definition abs_call s (th : vcall * vstatus) : option (Z * bool * astat) :=
  match call_buf (fst th) with
  | None => None
  | Some (b, w) => Some (b, w,
      match snd th, head_of (fst th) with
      | VDone, _ => AReturned
      | _, Some i => if info_status s i =? 0 then ADone else APending
      | _, None => APending
      end)
  end.

Definition abs (x : vsys) : astate :=
  AState (fun n => sect (dev x) (n * 2) ++ sect (dev x) (n * 2 + 1))
    (fun b => b_blockno (bufs (drv x) b)) (fun b => b_data (bufs (drv x) b)) (map (abs_call (drv x)) (vthreads x)).

End system.
