(* ===== verification/VirtioInv.v ===== *)
(** * The invariant of the virtio driver

    Which descriptors belong to which call ([chains]), where every published
    request is on its way through the two rings ([rings]), and what the threads
    hold and wait for ([threads]).  Each turn of a thread and each step of the
    device preserves the three. *)

From Stdlib Require Import FunctionalExtensionality.
From stdpp Require Import functions.
From S2P Require Import Prelude KMonad Riscv Vm Trace Virtio VirtioRun VirtioSys.

Section inv.
Context {R : Type} `{Mmio R}.
Implicit Types s : vdisk R.

(** ** Turns *)

(** What a turn does to the state, what it emits, and the channel it ends on;
    [None] is a return. *)
Inductive turn s : vcall -> list event -> vdisk R -> option channel -> Prop :=
| tn_go b w sector i0 i1 i2 l : free_list s = i0 :: i1 :: i2 :: l ->
    turn s (RwStart b w sector) [] (submitted b w sector i0 i1 i2 s) (Some ch_dev)
| tn_full b w sector s' : (length (free_list s) < 3)%nat -> same_rest s s' -> free s' = free s ->
    (forall i, ~ (in_range i /\ free s i <> 0) -> desc s' i = desc s i) ->
    turn s (RwStart b w sector) (repeat (EvWakeup ch_disk_free) (length (free_list s))) s' (Some ch_disk_free)
| tn_publish b w i : turn s (RwPublish b w i) [] (set_avail (u16 (avail_idx s + 1)) (avail_ring s) s) (Some ch_dev)
| tn_notify b w i r : b_disk (bufs s b) = 1 -> turn s (RwNotify b w i) [] (set_regs r s) (Some (ch_buf b))
| tn_wait b w i : b_disk (bufs s b) = 1 -> turn s (RwWait b w i) [] s (Some (ch_buf b))
| tn_return b w i i1 i2 : b_disk (bufs s b) <> 1 -> formatted s b w i i1 i2 ->
    turn s (RwWait b w i) (repeat (EvWakeup ch_disk_free) 3) (completed i i1 i2 s) None
| tn_intr r : turn s IntrStart [] (set_regs r s) (Some ch_dev)
| tn_idle : used_idx s = used_next s -> turn s IntrRest [] s None
| tn_busy : used_idx s <> used_next s -> turn s IntrRest [] s (Some ch_dev)
| tn_body id b : used_ring s (used_idx s mod NUM) = id -> b = info_b s id -> info_status s id = 0 ->
    turn s IntrBody [EvWakeup (ch_buf b)] (answered b s)
      (if u16 (used_idx s + 1) =? used_next s then None else Some ch_dev).

Definition turn_end (wf f : nat) (c : vcall) s' (r : option channel) : outcome (vdisk R) unit :=
  match r with
  | None => Ret tt [] s'
  | Some ch => Sleep ch s' (fun s'' => vcode f wf (next_call c s' ch) [vdisk_lock] s'')
  end.

(** What a call needs to make a turn. *)
Definition turn_pre s (c : vcall) : Prop :=
  match c with
  | RwStart _ _ _ => flags_ok s
  | RwNotify b _ _ => b_disk (bufs s b) = 1
  | RwWait b w i => exists i1 i2, formatted s b w i i1 i2
  | IntrBody => in_range (used_ring s (used_idx s mod NUM)) /\ info_status s (used_ring s (used_idx s mod NUM)) = 0
  | _ => True
  end.

Lemma turn_run fuel wfuel c s : (0 < fuel)%nat -> turn_pre s c ->
  exists tr s' r f wf, vcode fuel wfuel c [vdisk_lock] s = emits tr (turn_end wf f c s' r) /\ turn s c tr s' r.
Proof.
  intros Hf Hp. destruct fuel as [|fuel]; [lia |]. destruct c as [b w sec|b w i|b w i|b w i| | |]; cbn [vcode turn_pre] in *.
  - destruct (rw_start_turn (S fuel) wfuel b w sec s Hf Hp) as [i0 i1 i2 l E | f' s' _ Hn Hr Hfr Hd].
    + exists [], (submitted b w sec i0 i1 i2 s), (Some ch_dev), wfuel, 0%nat. split; [| econstructor; exact E].
      cbn [emits turn_end next_call]. rewrite decide_True by reflexivity. cbn [submitted avail_ring avail_idx]. now rewrite fset_eq.
    + exists (repeat (EvWakeup ch_disk_free) (length (free_list s))), s', (Some ch_disk_free), f', wfuel. split; [reflexivity | now constructor].
  - eexists [], _, _, _, 0%nat. split; [| constructor]. rewrite rw_publish_turn. reflexivity.
  - eexists [], _, _, _, 0%nat. split; [| constructor; exact Hp]. rewrite rw_notify_turn by exact Hp. reflexivity.
  - destruct Hp as (i1 & i2 & Hfm). destruct (decide (b_disk (bufs s b) = 1)) as [E | E].
    + eexists [], _, _, _, 0%nat. split; [| constructor; exact E]. rewrite rw_finish_wait by exact E. reflexivity.
    + eexists _, _, None, 0%nat, 0%nat. split; [| econstructor; [exact E | exact Hfm]].
      now rewrite (rw_finish_return _ b w i i1 i2 s E Hfm).
  - destruct (intr_start_turn (S fuel) s) as [r E]. eexists [], _, _, _, 0%nat. split; [| constructor]. rewrite E. reflexivity.
  - destruct (decide (used_idx s = used_next s)) as [E | E].
    + eexists [], _, None, 0%nat, 0%nat. split; [| now constructor]. now rewrite intr_rest_none.
    + eexists [], _, _, _, 0%nat. split; [| now constructor]. rewrite intr_rest_some by exact E. reflexivity.
  - destruct Hp as [Hr Hst]. pose proof (intr_body_run [vdisk_lock] s _ eq_refl Hr Hst) as Eb.
    set (id := used_ring s (used_idx s mod NUM)) in *. pose proof (tn_body s id (info_b s id) eq_refl eq_refl Hst) as Ht.
    rewrite (bind_emits _ _ _ _ _ _ _ _ Eb).
    destruct (Z.eqb_spec (u16 (used_idx s + 1)) (used_next s)) as [E | E].
    + exists [EvWakeup (ch_buf (info_b s id))], (answered (info_b s id) s), None, 0%nat, 0%nat. split; [| exact Ht]. now rewrite intr_rest_none.
    + exists [EvWakeup (ch_buf (info_b s id))], (answered (info_b s id) s), (Some ch_dev), fuel, 0%nat. split; [| exact Ht].
      now rewrite intr_rest_some.
Qed.

(** ** Chains *)

Definition n1 s (i : Z) : Z := d_next (desc s i).
Definition n2 s (i : Z) : Z := d_next (desc s (n1 s i)).
Definition chain s (i : Z) : list Z := [i; n1 s i; n2 s i].

(** A call that holds a chain: its buffer, its direction, its head. *)
Abbreviation holder := (Z * bool * Z)%type.
Implicit Types K : nat -> option holder.

Record request_ok s (b : Z) (w : bool) (i : Z) : Prop := {
  ro_fmt : formatted s b w i (n1 s i) (n2 s i);
  ro_ops : ops s i = BlkReq (blk_type w) 0 (b_blockno (bufs s b) * 2);
  ro_b : info_b s i = b }.

Record chains s K : Prop := {
  ch_flags : flags_ok s;
  ch_ok : forall t b w i, K t = Some (b, w, i) -> request_ok s b w i;
  ch_disj : forall t t' b b' w w' i i' j, K t = Some (b, w, i) -> K t' = Some (b', w', i') ->
    j ∈ chain s i -> j ∈ chain s i' -> t = t';
  ch_taken : forall j, in_range j -> free s j = 0 -> exists t b w i, K t = Some (b, w, i) /\ j ∈ chain s i }.

Lemma formatted_next s b w i i1 i2 : formatted s b w i i1 i2 -> n1 s i = i1 /\ n2 s i = i2.
Proof. intros [_ _ E0 E1 _]. unfold n2, n1. rewrite E0. cbn [d_next]. now rewrite E1. Qed.

Lemma chain_taken s b w i j : request_ok s b w i -> j ∈ chain s i -> in_range j /\ free s j = 0.
Proof. intros Ho Hj. exact (fm_taken _ _ _ _ _ _ (ro_fmt _ _ _ _ Ho) j Hj). Qed.

(** A request depends on its own descriptors only. *)
Lemma request_ok_ext s s' b w i : request_ok s b w i ->
  (forall j, j ∈ chain s i -> desc s' j = desc s j /\ free s' j = free s j) ->
  ops s' i = ops s i -> info_b s' i = info_b s i -> b_blockno (bufs s' b) = b_blockno (bufs s b) ->
  request_ok s' b w i /\ chain s' i = chain s i.
Proof.
  intros [Hf Ho Hb] Hd E1 E2 E3.
  assert (D0 : desc s' i = desc s i) by (apply Hd; left).
  assert (N1 : n1 s' i = n1 s i) by (unfold n1; now rewrite D0).
  assert (D1 : desc s' (n1 s i) = desc s (n1 s i)) by (apply Hd; right; left).
  assert (N2 : n2 s' i = n2 s i) by (unfold n2; now rewrite N1, D1).
  assert (D2 : desc s' (n2 s i) = desc s (n2 s i)) by (apply Hd; do 2 right; left).
  split; [| unfold chain; now rewrite N1, N2]. split; [| now rewrite E1, E3 | now rewrite E2].
  rewrite N1, N2. destruct Hf. split; try congruence. intros j Hj. rewrite (proj2 (Hd j Hj)). auto.
Qed.

Lemma chains_same s s' K K' : chains s K -> (forall t, K' t = K t) ->
  (forall j, in_range j -> free s j = 0 -> desc s' j = desc s j) -> free s' = free s -> ops s' = ops s -> info_b s' = info_b s ->
  (forall t b w i, K t = Some (b, w, i) -> b_blockno (bufs s' b) = b_blockno (bufs s b)) ->
  chains s' K' /\ (forall t b w i, K t = Some (b, w, i) -> chain s' i = chain s i).
Proof.
  intros [Hfl Hok Hdj Htk] HK Hd Hf Ho Hi Hb.
  assert (Hext : forall t b w i, K t = Some (b, w, i) -> request_ok s' b w i /\ chain s' i = chain s i).
  { intros t b w i Ht. apply request_ok_ext; [eauto | | congruence | congruence | eauto].
    intros j Hj. destruct (chain_taken s b w i j) as [Hr Hz]; eauto. split; [auto | congruence]. }
  split; [| intros t b w i E; exact (proj2 (Hext t b w i E))]. split.
  - intros j Hj. rewrite Hf. now apply Hfl.
  - intros t b w i. rewrite HK. intros Ht. exact (proj1 (Hext t b w i Ht)).
  - intros t t' b b' w w' i i' j. rewrite !HK. intros E E'. rewrite (proj2 (Hext _ _ _ _ E)), (proj2 (Hext _ _ _ _ E')). eauto.
  - intros j Hj. rewrite Hf. intros Hz. destruct (Htk j Hj Hz) as (t & b & w & i & E & Hin). exists t, b, w, i. rewrite HK.
    split; [exact E |]. now rewrite (proj2 (Hext _ _ _ _ E)).
Qed.

(** A free descriptor is in no chain. *)
Lemma free_not_held s K t b w i j : chains s K -> K t = Some (b, w, i) -> j ∈ chain s i -> j ∈ free_list s -> False.
Proof. intros Hc Ht Hj [_ Hz]%elem_of_free_list. apply Hz. eapply chain_taken; [| exact Hj]. eapply ch_ok; eauto. Qed.

Lemma submitted_desc b w sector i0 i1 i2 s j : j ∉ [i0; i1; i2] ->
  desc (submitted b w sector i0 i1 i2 s) j = desc s j /\ free (submitted b w sector i0 i1 i2 s) j = free s j.
Proof. rewrite !not_elem_of_cons. intros (? & ? & ? & _). cbn [submitted desc free]. now rewrite !fset_ne by auto. Qed.

Lemma chains_go s K t b w sector i0 i1 i2 l : chains s K -> K t = None -> free_list s = i0 :: i1 :: i2 :: l ->
  sector = b_blockno (bufs s b) * 2 ->
  let s' := submitted b w sector i0 i1 i2 s in
  chains s' (<[t := Some (b, w, i0)]> K) /\
  (forall t' b' w' i', K t' = Some (b', w', i') -> chain s' i' = chain s i' /\ i' <> i0).
Proof.
  intros Hc Ht E Hsec s'. pose proof Hc as [Hfl Hok Hdj Htk]. pose proof (submitted_formatted b w sector i0 i1 i2 l s E) as Hf.
  fold s' in Hf. destruct (formatted_next _ _ _ _ _ _ Hf) as [N1 N2].
  assert (Ech : chain s' i0 = [i0; i1; i2]) by (unfold chain; now rewrite N1, N2).
  assert (Hnew : forall j, j ∈ [i0; i1; i2] -> j ∈ free_list s).
  { intros j. rewrite E, !elem_of_cons, elem_of_nil. tauto. }
  assert (Hext : forall t' b' w' i', K t' = Some (b', w', i') -> request_ok s' b' w' i' /\ chain s' i' = chain s i' /\ i' <> i0).
  { intros t' b' w' i' E'. assert (Hne : forall j, j ∈ chain s i' -> j ∉ [i0; i1; i2]) by (intros j Hj Hj'; eapply free_not_held; eauto).
    assert (Hi : i' <> i0) by (intros ->; apply (Hne i0); left).
    destruct (request_ok_ext s s' b' w' i') as [H1 H2]; eauto using submitted_desc.
    - cbn. now rewrite fset_ne.
    - cbn. now rewrite fset_ne.
    - cbn. destruct (Z.eqb_spec b' b) as [-> |]; [now rewrite fset_eq | now rewrite fset_ne]. }
  split; [| intros t' b' w' i' E'; exact (proj2 (Hext _ _ _ _ E'))]. split.
  - intros j Hj. cbn. unfold upd. bool_cases; auto.
  - intros t' b' w' i'. destruct (decide (t' = t)) as [-> | Hne]; [rewrite fn_lookup_insert | rewrite fn_lookup_insert_ne by auto].
    + intros [= <- <- <-]. split; [now rewrite N1, N2 | | apply fset_eq]. cbn. now rewrite !fset_eq, Hsec.
    + intros E'. exact (proj1 (Hext _ _ _ _ E')).
  - assert (Hx : forall t' b' w' i' j, K t' = Some (b', w', i') -> j ∈ chain s' i' -> j ∈ chain s' i0 -> False).
    { intros t' b' w' i' j E' Hj Hj'. rewrite (proj1 (proj2 (Hext _ _ _ _ E'))) in Hj. rewrite Ech in Hj'. eapply free_not_held; eauto. }
    intros t1 t2 b1 b2 w1 w2 j1 j2 j. destruct (decide (t1 = t)) as [-> | H1], (decide (t2 = t)) as [-> | H2];
      rewrite ?fn_lookup_insert, ?fn_lookup_insert_ne by auto; auto.
    + intros [= <- <- <-] E2 Hj Hj'. destruct (Hx _ _ _ _ _ E2 Hj' Hj).
    + intros E1 [= <- <- <-] Hj Hj'. destruct (Hx _ _ _ _ _ E1 Hj Hj').
    + intros E1 E2. rewrite (proj1 (proj2 (Hext _ _ _ _ E1))), (proj1 (proj2 (Hext _ _ _ _ E2))). eauto.
  - intros j Hj Hz. destruct (decide (j ∈ [i0; i1; i2])) as [Hin | Hin].
    + exists t, b, w, i0. rewrite fn_lookup_insert, Ech. auto.
    + unfold s' in Hz. rewrite (proj2 (submitted_desc b w sector i0 i1 i2 s j Hin)) in Hz. destruct (Htk j Hj Hz) as (t' & b' & w' & i' & E' & Hin').
      exists t', b', w', i'. rewrite fn_lookup_insert_ne by congruence. now rewrite (proj1 (proj2 (Hext _ _ _ _ E'))).
Qed.

Lemma completed_free i0 i1 i2 s j : free (completed i0 i1 i2 s) j = if decide (j ∈ [i0; i1; i2]) then 1 else free s j.
Proof. exact (freeds_free [i0; i1; i2] (set_info_b (upd i0 0 (info_b s)) s) j). Qed.

Lemma completed_desc i0 i1 i2 s j : j ∉ [i0; i1; i2] -> desc (completed i0 i1 i2 s) j = desc s j.
Proof. intros Hj. unfold completed. now rewrite freeds_desc. Qed.

Lemma chains_return s K t b w i : chains s K -> K t = Some (b, w, i) ->
  let s' := completed i (n1 s i) (n2 s i) s in
  chains s' (<[t := None]> K) /\
  (forall t' b' w' i', t' <> t -> K t' = Some (b', w', i') -> chain s' i' = chain s i' /\ i' <> i).
Proof.
  intros Hc Ht s'. pose proof Hc as [Hfl Hok Hdj Htk].
  pose proof (freeds_rest [i; n1 s i; n2 s i] (set_info_b (upd i 0 (info_b s)) s)) as Hr.
  assert (Hext : forall t' b' w' i', t' <> t -> K t' = Some (b', w', i') -> request_ok s' b' w' i' /\ chain s' i' = chain s i' /\ i' <> i).
  { intros t' b' w' i' Hne E'. assert (Hn : forall j, j ∈ chain s i' -> j ∉ chain s i) by (intros j Hj Hj'; apply Hne; eauto).
    assert (Hi : i' <> i) by (intros ->; apply (Hn i); left).
    destruct (request_ok_ext s s' b' w' i') as [H1 H2]; eauto.
    - intros j Hj. unfold s'. rewrite completed_desc, completed_free, decide_False by (apply Hn, Hj). auto.
    - unfold s', completed. rewrite (sr_b _ _ Hr). cbn. now rewrite fset_ne. }
  split; [| intros t' b' w' i' Hne E'; exact (proj2 (Hext _ _ _ _ Hne E'))]. split.
  - intros j Hj. unfold s'. rewrite completed_free. case_decide; auto.
  - intros t' b' w' i'. destruct (decide (t' = t)) as [-> | Hne]; [rewrite fn_lookup_insert | rewrite fn_lookup_insert_ne by auto]; [discriminate |].
    intros E'. exact (proj1 (Hext _ _ _ _ Hne E')).
  - intros t1 t2 b1 b2 w1 w2 j1 j2 j. destruct (decide (t1 = t)) as [-> | H1], (decide (t2 = t)) as [-> | H2];
      rewrite ?fn_lookup_insert, ?fn_lookup_insert_ne by auto; auto; try discriminate.
    intros E1 E2. rewrite (proj1 (proj2 (Hext _ _ _ _ H1 E1))), (proj1 (proj2 (Hext _ _ _ _ H2 E2))). eauto.
  - intros j Hj. unfold s'. rewrite completed_free. case_decide as Hin; [discriminate |]. intros Hz.
    destruct (Htk j Hj Hz) as (t' & b' & w' & i' & E' & Hin'). exists t', b', w', i'.
    assert (Hne : t' <> t) by (intros ->; rewrite Ht in E'; injection E' as <- <- <-; contradiction).
    rewrite fn_lookup_insert_ne by auto. split; [exact E' |]. change (j ∈ chain s' i'). now rewrite (proj1 (proj2 (Hext _ _ _ _ Hne E'))).
Qed.

End inv.

(** ** The two rings of the virtio driver

    A published request is in one of four places: still in the ring of
    available ones ([Q]), taken by the device, served, or in the used ring and
    not yet seen by the interrupt handler ([U]). *)

(** What the device may report as the status of a request. *)
Class Verdict := verdict : Z -> Prop.

(** How far a call that holds a chain is. *)
Inductive phase := PPub | PNot | PWait.

Lemma u16_add a b : u16 (u16 a + b) = u16 (a + b).
Proof. apply Z.add_mod_idemp_l. lia. Qed.

Lemma u16_u16 a : u16 (u16 a) = u16 a.
Proof. apply Z.mod_mod. lia. Qed.

Lemma u16_slot a b : (u16 a + b) mod NUM = (a + b) mod NUM.
Proof.
  unfold u16, NUM. rewrite <- (Z.add_mod_idemp_l (a mod _) b), <- (Z.add_mod_idemp_l a b) by lia. f_equal. f_equal.
  apply Z.mod_mod_divide. now exists (2 ^ 13).
Qed.

Lemma u16_slot0 a : u16 a mod NUM = a mod NUM.
Proof. rewrite <- (Z.add_0_r (u16 a)), u16_slot. f_equal. lia. Qed.

Lemma slot_ne x k n : 0 <= k < n -> n < NUM -> (x + k) mod NUM <> (x + n) mod NUM.
Proof. unfold NUM. intros Hk Hn E. Z.div_mod_to_equations. lia. Qed.

Lemma in_range_length (L : list Z) : NoDup L -> (forall i, i ∈ L -> in_range i) -> Z.of_nat (length L) <= NUM.
Proof.
  intros Hnd HL. assert (Hs : L ⊆+ seqZ 0 NUM) by (apply NoDup_submseteq; [exact Hnd |]; intros i Hi; apply elem_of_seqZ; destruct (HL i Hi); lia).
  apply submseteq_length in Hs. rewrite length_seqZ in Hs. unfold NUM in *. lia.
Qed.

Section rings.
Context {R : Type} {V : Verdict}.
Implicit Types s : vdisk R.
Implicit Types d : device.
Implicit Types H : nat -> option (phase * (Z * bool * Z)).
Implicit Types Q U : list Z.

Definition keys H (t : nat) : option (Z * bool * Z) := snd <$> H t.

Record rings s d H Q U : Prop := {
  rg_width : u16 (last_avail d) = last_avail d /\ u16 (used_idx s) = used_idx s;
  rg_avail : avail_idx s = u16 (last_avail d + Z.of_nat (length Q));
  rg_ring : forall k h, Q !! k = Some h -> avail_ring s ((last_avail d + Z.of_nat k) mod NUM) = h;
  rg_used : used_next s = u16 (used_idx s + Z.of_nat (length U));
  rg_uring : forall k h, U !! k = Some h -> used_ring s ((used_idx s + Z.of_nat k) mod NUM) = h;
  rg_nodup : NoDup (Q ++ inflight d ++ finished d ++ U);
  rg_heads : forall h, h ∈ Q ++ inflight d ++ finished d ++ U <->
    exists t p b w, H t = Some (p, (b, w, h)) /\ p <> PPub /\ b_disk (bufs s b) = 1;
  rg_early : forall t p b w i, H t = Some (p, (b, w, i)) -> p <> PWait -> b_disk (bufs s b) = 1;
  rg_pub : forall t b w i, H t = Some (PPub, (b, w, i)) -> avail_ring s (avail_idx s mod NUM) = i /\ info_status s i = 0xff;
  rg_pending : forall h, h ∈ Q ++ inflight d -> info_status s h = 0xff;
  rg_done : forall h, h ∈ finished d ++ U -> verdict (info_status s h);
  rg_disk : forall t p b w i, H t = Some (p, (b, w, i)) -> b_disk (bufs s b) = 1 \/ (b_disk (bufs s b) = 0 /\ info_status s i = 0)
}.

(** Two calls share neither a head nor a buffer. *)
Definition apart H : Prop := forall t t' p p' b b' w w' i i',
  H t = Some (p, (b, w, i)) -> H t' = Some (p', (b', w', i')) -> i = i' \/ b = b' -> t = t'.

(** ** Turns *)

Lemma rings_ext s s' d H Q U : rings s d H Q U ->
  avail_idx s' = avail_idx s -> avail_ring s' = avail_ring s -> used_next s' = used_next s -> used_ring s' = used_ring s ->
  used_idx s' = used_idx s -> info_status s' = info_status s ->
  (forall t p b w i, H t = Some (p, (b, w, i)) -> b_disk (bufs s' b) = b_disk (bufs s b)) -> rings s' d H Q U.
Proof.
  intros [] E1 E2 E3 E4 E5 E6 Eb. split; rewrite ?E1, ?E2, ?E3, ?E4, ?E5, ?E6; eauto.
  - intros h. rewrite rg_heads0. split; intros (t & p & b & w & Ht & Hp & Hb); exists t, p, b, w; (split; [exact Ht | split; [exact Hp |]]).
    + now rewrite (Eb _ _ _ _ _ Ht).
    + now rewrite <- (Eb _ _ _ _ _ Ht).
  - intros t p b w i Ht. rewrite (Eb _ _ _ _ _ Ht). eauto.
  - intros t p b w i Ht. rewrite (Eb _ _ _ _ _ Ht). eauto.
Qed.

Lemma rings_go s d H Q U t b w sector i0 i1 i2 : rings s d H Q U -> H t = None ->
  (forall t' p b' w' i', H t' = Some (p, (b', w', i')) -> p <> PPub /\ b' <> b /\ i' <> i0) -> Z.of_nat (length Q) < NUM ->
  rings (submitted b w sector i0 i1 i2 s) d (<[t := Some (PPub, (b, w, i0))]> H) Q U.
Proof.
  intros [] Ht Hsep HQ.
  assert (Hb : forall t' p b' w' i', H t' = Some (p, (b', w', i')) -> bufs (submitted b w sector i0 i1 i2 s) b' = bufs s b')
    by (intros t' p b' w' i' E; cbn; rewrite fset_ne; [reflexivity | eapply Hsep, E]).
  assert (Hs : forall t' p b' w' i', H t' = Some (p, (b', w', i')) -> info_status (submitted b w sector i0 i1 i2 s) i' = info_status s i')
    by (intros t' p b' w' i' E; cbn; rewrite fset_ne; [reflexivity | eapply Hsep, E]).
  assert (Hh : forall h, h ∈ Q ++ inflight d ++ finished d ++ U -> info_status (submitted b w sector i0 i1 i2 s) h = info_status s h)
    by (intros h (t' & p & b' & w' & E & _)%rg_heads0; eauto).
  split; auto.
  - intros k h Hk. cbn. rewrite fset_ne; [eauto |]. rewrite rg_avail0, u16_slot0. apply slot_ne; [| lia]. apply lookup_lt_Some in Hk. lia.
  - intros h. rewrite rg_heads0. split; intros (t' & p & b' & w' & E & Hp & Hd); exists t', p, b', w'.
    + rewrite fn_lookup_insert_ne by congruence. now rewrite (Hb _ _ _ _ _ E).
    + destruct (decide (t' = t)) as [-> | Hne]; [rewrite fn_lookup_insert in E; congruence |]. rewrite fn_lookup_insert_ne in E by auto.
      now rewrite <- (Hb _ _ _ _ _ E).
  - intros t' p b' w' i'. destruct (decide (t' = t)) as [-> | Hne]; [rewrite fn_lookup_insert | rewrite fn_lookup_insert_ne by auto].
    + intros [= <- <- <- <-] _. cbn. now rewrite fset_eq.
    + intros E. rewrite (Hb _ _ _ _ _ E). eauto.
  - intros t' b' w' i'. destruct (decide (t' = t)) as [-> | Hne]; [rewrite fn_lookup_insert | rewrite fn_lookup_insert_ne by auto].
    + intros [= <- <- <-]. cbn. now rewrite !fset_eq.
    + intros E. now destruct (Hsep _ _ _ _ _ E).
  - intros h Hin. rewrite Hh by (rewrite !elem_of_app in *; tauto). auto.
  - intros h Hin. rewrite Hh by (rewrite !elem_of_app in *; tauto). auto.
  - intros t' p b' w' i'. destruct (decide (t' = t)) as [-> | Hne]; [rewrite fn_lookup_insert | rewrite fn_lookup_insert_ne by auto].
    + intros [= <- <- <- <-]. left. cbn. now rewrite fset_eq.
    + intros E. rewrite (Hb _ _ _ _ _ E), (Hs _ _ _ _ _ E). eauto.
Qed.

Lemma rings_publish s d H Q U t b w i : rings s d H Q U -> apart H -> H t = Some (PPub, (b, w, i)) ->
  (forall t' k, H t' = Some (PPub, k) -> t' = t) ->
  rings (set_avail (u16 (avail_idx s + 1)) (avail_ring s) s) d (<[t := Some (PNot, (b, w, i))]> H) (Q ++ [i]) U.
Proof.
  intros [] Hap Ht Hone. destruct (rg_pub0 _ _ _ _ Ht) as [Hslot Hst].
  assert (Hnew : i ∉ Q ++ inflight d ++ finished d ++ U).
  { intros (t' & p & b' & w' & E & Hp & _)%rg_heads0. assert (t' = t) as -> by (eapply Hap; eauto). congruence. }
  split; cbn [set_avail avail_idx avail_ring used_next used_ring used_idx info_status bufs]; auto.
  - rewrite rg_avail0, u16_add, length_app. cbn. f_equal. lia.
  - intros k h. rewrite lookup_app_Some. intros [Hk | [Hl Hk]]; [auto |].
    destruct (k - length Q)%nat as [|n] eqn:En; [| now destruct n]. injection Hk as <-. rewrite <- Hslot, rg_avail0, u16_slot0. do 2 f_equal. lia.
  - rewrite <- app_assoc. apply NoDup_app in rg_nodup0 as (N1 & N2 & N3). apply NoDup_app. rewrite not_elem_of_app in Hnew. split_and!; [exact N1 | | now apply NoDup_cons].
    intros x Hx [-> | Hx']%elem_of_cons; [tauto | now apply (N2 x)].
  - intros h. transitivity (h = i \/ h ∈ Q ++ inflight d ++ finished d ++ U); [rewrite !elem_of_app, list_elem_of_singleton; tauto |]. rewrite rg_heads0. split.
    + intros [-> | (t' & p & b' & w' & E & Hp & Hd)].
      * exists t, PNot, b, w. rewrite fn_lookup_insert. split_and!; [reflexivity | discriminate | eapply rg_early0; [exact Ht | discriminate]].
      * exists t', p, b', w'. rewrite fn_lookup_insert_ne by congruence. auto.
    + intros (t' & p & b' & w' & E & Hp & Hd). destruct (decide (t' = t)) as [-> | Hne].
      * rewrite fn_lookup_insert in E. injection E as <- <- <- <-. now left.
      * rewrite fn_lookup_insert_ne in E by auto. right. exists t', p, b', w'. auto.
  - intros t' p b' w' i'. destruct (decide (t' = t)) as [-> | Hne]; [rewrite fn_lookup_insert | rewrite fn_lookup_insert_ne by auto; eauto].
    intros [= <- <- <- <-] _. eapply rg_early0; [exact Ht | discriminate].
  - intros t' b' w' i'. destruct (decide (t' = t)) as [-> | Hne]; [rewrite fn_lookup_insert | rewrite fn_lookup_insert_ne by auto]; [discriminate |].
    intros E. destruct (Hne (Hone _ _ E)).
  - intros h. rewrite !elem_of_app, list_elem_of_singleton. intros [[Hh | ->] | Hh]; [| exact Hst |]; apply rg_pending0; rewrite elem_of_app; tauto.
  - intros t' p b' w' i'. destruct (decide (t' = t)) as [-> | Hne]; [rewrite fn_lookup_insert | rewrite fn_lookup_insert_ne by auto; eauto].
    intros [= <- <- <- <-]. eauto.
Qed.

Lemma rings_notify s d H Q U t b w i : rings s d H Q U -> H t = Some (PNot, (b, w, i)) ->
  rings s d (<[t := Some (PWait, (b, w, i))]> H) Q U.
Proof.
  intros [] Ht. split; auto.
  - intros h. rewrite rg_heads0. split; intros (t' & p & b' & w' & E & Hp & Hd).
    + destruct (decide (t' = t)) as [-> | Hne].
      * rewrite Ht in E. injection E as <- <- <- <-. exists t, PWait, b, w. now rewrite fn_lookup_insert.
      * exists t', p, b', w'. now rewrite fn_lookup_insert_ne.
    + destruct (decide (t' = t)) as [-> | Hne].
      * rewrite fn_lookup_insert in E. injection E as <- <- <- <-. exists t, PNot, b, w. now rewrite Ht.
      * rewrite fn_lookup_insert_ne in E by auto. now exists t', p, b', w'.
  - intros t' p b' w' i'. destruct (decide (t' = t)) as [-> | Hne]; [rewrite fn_lookup_insert; congruence | rewrite fn_lookup_insert_ne by auto; eauto].
  - intros t' b' w' i'. destruct (decide (t' = t)) as [-> | Hne]; [rewrite fn_lookup_insert; congruence | rewrite fn_lookup_insert_ne by auto; eauto].
  - intros t' p b' w' i'. destruct (decide (t' = t)) as [-> | Hne]; [rewrite fn_lookup_insert | rewrite fn_lookup_insert_ne by auto; eauto].
    intros [= <- <- <- <-]. eauto.
Qed.

Lemma rings_return s d H Q U t b w i i1 i2 : rings s d H Q U -> H t = Some (PWait, (b, w, i)) -> b_disk (bufs s b) <> 1 ->
  rings (completed i i1 i2 s) d (<[t := None]> H) Q U.
Proof.
  intros Hr Ht Hd. destruct (freeds_rest [i; i1; i2] (set_info_b (upd i 0 (info_b s)) s)) as [E1 E2 E3 E4 E5 _ E6 _ E7 _].
  apply (rings_ext s); [| exact E1 | exact E2 | exact E3 | exact E4 | exact E5 | exact E6 | intros; unfold completed; now rewrite E7].
  destruct Hr. split; auto.
  - intros h. rewrite rg_heads0. split; intros (t' & p & b' & w' & E & Hp & Hd'); exists t', p, b', w'.
    + rewrite fn_lookup_insert_ne by congruence. auto.
    + destruct (decide (t' = t)) as [-> | Hne]; [now rewrite fn_lookup_insert in E | now rewrite fn_lookup_insert_ne in E by auto].
  - intros t' p b' w' i'. destruct (decide (t' = t)) as [-> | Hne]; [now rewrite fn_lookup_insert | rewrite fn_lookup_insert_ne by auto; eauto].
  - intros t' b' w' i'. destruct (decide (t' = t)) as [-> | Hne]; [now rewrite fn_lookup_insert | rewrite fn_lookup_insert_ne by auto; eauto].
  - intros t' p b' w' i'. destruct (decide (t' = t)) as [-> | Hne]; [now rewrite fn_lookup_insert | rewrite fn_lookup_insert_ne by auto; eauto].
Qed.

(** The handler takes the oldest request of the used ring. *)
Lemma rings_answer s d H Q U id b w t : rings s d H Q (id :: U) -> apart H -> (forall t' p k, H t' = Some (p, k) -> p = PWait) ->
  H t = Some (PWait, (b, w, id)) -> info_status s id = 0 -> rings (answered b s) d H Q U.
Proof.
  intros [] Hap Hw Ht Hst.
  assert (Hb : forall t' p b' w' i', H t' = Some (p, (b', w', i')) -> i' <> id -> bufs (answered b s) b' = bufs s b').
  { intros t' p b' w' i' E Hne. cbn. apply fset_ne. intros ->. assert (t' = t) as -> by (eapply Hap; eauto). congruence. }
  assert (Hmid : forall h, h ∈ Q ++ inflight d ++ finished d ++ id :: U <-> h = id \/ h ∈ Q ++ inflight d ++ finished d ++ U)
    by (intros h; rewrite !elem_of_app, elem_of_cons; tauto).
  assert (Hnd : NoDup (id :: Q ++ inflight d ++ finished d ++ U)).
  { assert (P : Q ++ inflight d ++ finished d ++ id :: U ≡ₚ id :: Q ++ inflight d ++ finished d ++ U)
      by (rewrite !app_assoc; symmetry; apply Permutation_middle).
    now rewrite <- P. }
  apply NoDup_cons in Hnd as [Hid Hnd].
  split; cbn [answered set_used_idx set_bufs avail_idx avail_ring used_next used_ring used_idx info_status]; auto.
  - split; [apply rg_width0 |]. apply u16_u16.
  - rewrite rg_used0, u16_add. cbn [length]. f_equal. lia.
  - intros k h Hk. rewrite u16_slot, <- (rg_uring0 (S k) h Hk). do 2 f_equal. lia.
  - intros h. split.
    + intros Hh. destruct (proj1 (rg_heads0 h) (proj2 (Hmid h) (or_intror Hh))) as (t' & p & b' & w' & E & Hp & Hd).
      exists t', p, b', w'. split_and!; auto. rewrite (Hb _ _ _ _ _ E); [exact Hd |]. intros ->. contradiction.
    + intros (t' & p & b' & w' & E & Hp & Hd). destruct (decide (h = id)) as [-> | Hne].
      * assert (t' = t) as -> by (eapply Hap; eauto). rewrite Ht in E. injection E as <- <- <-. cbn in Hd. rewrite fset_eq in Hd. discriminate.
      * rewrite (Hb _ _ _ _ _ E Hne) in Hd. destruct (proj1 (Hmid h) (proj2 (rg_heads0 h) (ex_intro _ t' (ex_intro _ p (ex_intro _ b' (ex_intro _ w' (conj E (conj Hp Hd)))))))); [contradiction | assumption].
  - intros t' p b' w' i' E Hp. now rewrite (Hw _ _ _ E) in Hp.
  - intros h Hh. apply rg_done0. rewrite elem_of_app, elem_of_cons in *. tauto.
  - intros t' p b' w' i' E. destruct (decide (i' = id)) as [-> | Hne].
    + assert (t' = t) as -> by (eapply Hap; eauto). rewrite Ht in E. injection E as <- <- <-. right. cbn. rewrite fset_eq. split; [reflexivity | exact Hst].
    + rewrite (Hb _ _ _ _ _ E Hne). eauto.
Qed.

(** ** The device *)

Lemma request_decodes s b w i : request_ok s b w i -> request s i = Some (w, b_blockno (bufs s b) * 2, b, i).
Proof.
  intros [[_ _ E0 E1 E2] Eo _]. unfold request. rewrite E0. cbn [d_next d_addr d_len d_flags]. rewrite E1. cbn [d_next d_addr d_len d_flags].
  rewrite E2. cbn [d_addr d_len d_flags]. rewrite Eo. now destruct w.
Qed.

Lemma rings_take s d H Q U : rings s d H Q U -> last_avail d <> avail_idx s ->
  exists h Q', Q = h :: Q' /\ avail_ring s (last_avail d mod NUM) = h /\
    rings s (Dev (sect d) (u16 (last_avail d + 1)) (inflight d ++ [h]) (finished d)) H Q' U.
Proof.
  intros [] Hne. destruct Q as [|h Q].
  { destruct Hne. rewrite rg_avail0. cbn. rewrite Z.add_0_r. symmetry. apply rg_width0. }
  exists h, Q. split_and!; [reflexivity | rewrite <- (rg_ring0 0%nat h eq_refl); f_equal; f_equal; lia |].
  assert (P : Q ++ (inflight d ++ [h]) ++ finished d ++ U ≡ₚ (h :: Q) ++ inflight d ++ finished d ++ U).
  { rewrite <- (app_assoc (inflight d)). cbn [app]. rewrite <- Permutation_middle. now rewrite <- Permutation_middle. }
  split; cbn [inflight finished last_avail]; auto.
  - split; [apply u16_u16 | apply rg_width0].
  - rewrite rg_avail0, u16_add. cbn [length]. f_equal. lia.
  - intros k h' Hk. rewrite u16_slot, <- (rg_ring0 (S k) h' Hk). do 2 f_equal. lia.
  - now rewrite P.
  - intros h'. now rewrite P.
  - intros h' Hh. apply rg_pending0. rewrite !elem_of_app, list_elem_of_singleton in *. rewrite elem_of_cons. tauto.
Qed.

(** Request [h] of buffer [b] is served, with status [v]. *)
Lemma rings_transfer s s' d H Q U l1 h l2 f v : rings s d H Q U -> inflight d = l1 ++ h :: l2 ->
  avail_idx s' = avail_idx s -> avail_ring s' = avail_ring s -> used_next s' = used_next s -> used_ring s' = used_ring s ->
  used_idx s' = used_idx s -> info_status s' = upd h v (info_status s) -> (forall b, b_disk (bufs s' b) = b_disk (bufs s b)) ->
  apart H -> verdict v -> rings s' (Dev f (last_avail d) (l1 ++ l2) (finished d ++ [h])) H Q U.
Proof.
  intros [] Hin E1 E2 E3 E4 E5 E6 E7 Hap Hv.
  assert (P : Q ++ (l1 ++ l2) ++ (finished d ++ [h]) ++ U ≡ₚ Q ++ inflight d ++ finished d ++ U).
  { rewrite Hin, <- !(app_assoc l1), <- (app_assoc (finished d)). cbn [app]. do 2 apply Permutation_app_head.
    rewrite <- (Permutation_middle (finished d)). symmetry. apply (Permutation_middle l2). }
  assert (Hnd : h ∉ Q ++ (l1 ++ l2)).
  { rewrite Hin, <- !(app_assoc l1), app_assoc in rg_nodup0. cbn [app] in rg_nodup0. rewrite <- Permutation_middle in rg_nodup0.
    apply NoDup_cons in rg_nodup0 as [Hn _]. rewrite !not_elem_of_app in *. tauto. }
  assert (Hh : h ∈ Q ++ inflight d ++ finished d ++ U) by (rewrite Hin, !elem_of_app, elem_of_cons; tauto).
  split; cbn [inflight finished last_avail]; rewrite ?E1, ?E2, ?E3, ?E4, ?E5, ?E6; auto.
  - now rewrite P.
  - intros h'. rewrite P, rg_heads0. now setoid_rewrite E7.
  - intros t p b w i. rewrite E7. apply rg_early0.
  - intros t b w i Ht. destruct (rg_pub0 _ _ _ _ Ht) as [H1 H2]. split; [exact H1 |]. rewrite fset_ne; [exact H2 |]. intros ->.
    apply rg_heads0 in Hh as (t' & p & b' & w' & E & Hp & _). assert (t' = t) as -> by (eapply Hap; eauto). congruence.
  - intros h' Hh'. rewrite fset_ne by congruence. apply rg_pending0. rewrite Hin, !elem_of_app, elem_of_cons in *. tauto.
  - intros h'. destruct (decide (h' = h)) as [-> | Hne]; [now rewrite fset_eq |]. rewrite fset_ne by exact Hne. intros Hh'. apply rg_done0.
    rewrite !elem_of_app, list_elem_of_singleton in Hh'. rewrite elem_of_app. tauto.
  - intros t p b w i Ht. rewrite E7. destruct (decide (i = h)) as [-> | Hne]; [rewrite fset_eq | rewrite fset_ne by exact Hne; eauto].
    apply rg_heads0 in Hh as (t' & p' & b' & w' & E & _ & Hd). assert (t' = t) as -> by (eapply Hap; eauto). rewrite Ht in E. injection E as _ <- _. now left.
Qed.

Lemma rings_dev_publish s d H Q U l1 h l2 : rings s d H Q U -> finished d = l1 ++ h :: l2 -> Z.of_nat (length U) < NUM ->
  rings (set_used (u16 (used_next s + 1)) (upd (used_next s mod NUM) h (used_ring s)) s) (Dev (sect d) (last_avail d) (inflight d) (l1 ++ l2)) H Q (U ++ [h]).
Proof.
  intros [] Hf HU.
  assert (P : Q ++ inflight d ++ (l1 ++ l2) ++ U ++ [h] ≡ₚ Q ++ inflight d ++ finished d ++ U).
  { rewrite Hf, <- !(app_assoc l1). cbn [app]. do 3 apply Permutation_app_head. rewrite app_assoc, <- Permutation_cons_append. reflexivity. }
  split; cbn [inflight finished last_avail set_used avail_idx avail_ring used_next used_ring used_idx info_status bufs]; auto.
  - rewrite rg_used0, u16_add, length_app. cbn [length]. f_equal. lia.
  - intros k h'. rewrite rg_used0, u16_slot0, lookup_app_Some. intros [Hk | [Hl Hk]].
    + rewrite fset_ne; [auto |]. apply slot_ne; [| exact HU]. apply lookup_lt_Some in Hk. lia.
    + destruct (k - length U)%nat as [|n] eqn:En; [| now destruct n]. injection Hk as <-. replace k with (length U) by lia. apply fset_eq.
  - now rewrite P.
  - intros h'. rewrite P. apply rg_heads0.
  - intros h' Hh. apply rg_done0. rewrite Hf, !elem_of_app, list_elem_of_singleton, elem_of_cons in *. tauto.
Qed.

End rings.
