(* ===== verification/VirtioSafe.v ===== *)
(** * The virtio driver is safe and serves requests one at a time

    The invariant of the whole system, preserved by every step, and the
    atomic disk that the system implements. *)

From Stdlib Require Import FunctionalExtensionality.
From stdpp Require Import functions.
From S2P Require Import Prelude KMonad Riscv Vm Trace Virtio VirtioRun VirtioSys VirtioInv.

Section safe.
Context {R : Type} `{Mmio R} {V : Verdict}.
Implicit Types s : vdisk R.
Implicit Types ths : list (vcall * vstatus).

(** ** Threads *)

Definition call_hold (c : vcall) : option (phase * (Z * bool * Z)) :=
  match c with
  | RwPublish b w i => Some (PPub, (b, w, i))
  | RwNotify b w i => Some (PNot, (b, w, i))
  | RwWait b w i => Some (PWait, (b, w, i))
  | _ => None
  end.

Definition hold_of (th : vcall * vstatus) : option (phase * (Z * bool * Z)) :=
  match snd th with VDone => None | _ => call_hold (fst th) end.

Definition holds ths (t : nat) : option (phase * (Z * bool * Z)) := ths !! t ≫= hold_of.

Definition asleep_ok s (th : vcall * vstatus) : Prop :=
  match snd th with
  | VAsleep ch =>
      (ch = ch_disk_free /\ (length (free_list s) < 3)%nat /\ exists b w sector, fst th = RwStart b w sector) \/
      (exists b w i, fst th = RwWait b w i /\ ch = ch_buf b /\ b_disk (bufs s b) = 1)
  | _ => True
  end.

Record threads s (o : option nat) ths (U : list Z) : Prop := {
  th_owner : forall t c st, ths !! t = Some (c, st) -> st <> VDone -> holds_lock c = true -> o = Some t /\ st = VReady;
  th_owned : forall t, o = Some t -> exists c, ths !! t = Some (c, VReady) /\ holds_lock c = true;
  th_bufs : forall t t' th th' b, ths !! t = Some th -> ths !! t' = Some th' -> live_buf th = Some b -> live_buf th' = Some b -> t = t';
  th_start : forall t b w sector st, ths !! t = Some (RwStart b w sector, st) -> st <> VDone -> sector = b_blockno (bufs s b) * 2;
  th_asleep : forall t th, ths !! t = Some th -> asleep_ok s th;
  th_body : forall t, ths !! t = Some (IntrBody, VReady) -> U <> [] }.

Lemma vwake_hold tr th : hold_of (vwake tr th) = hold_of th.
Proof. destruct th as [c [| |]]; try reflexivity. unfold vwake, hold_of. cbn. now destruct existsb. Qed.

Lemma vwake_live tr th : live_buf (vwake tr th) = live_buf th.
Proof. destruct th as [c [| |]]; try reflexivity. unfold vwake, live_buf. cbn. now destruct existsb. Qed.

Lemma vwake_call tr th : fst (vwake tr th) = fst th.
Proof. destruct th as [c [| |]]; try reflexivity. unfold vwake. cbn. now destruct existsb. Qed.

Lemma vwake_done tr th : snd (vwake tr th) = VDone -> snd th = VDone.
Proof. destruct th as [c [| |]]; cbn; try easy. unfold vwake. cbn. now destruct existsb. Qed.

Lemma vwake_woken tr c ch : EvWakeup ch ∈ tr -> vwake tr (c, VAsleep ch) = (c, VReady).
Proof.
  intros Hin. unfold vwake. cbn. rewrite (proj2 (existsb_exists _ _)); [reflexivity |]. exists (EvWakeup ch).
  split; [now apply list_elem_of_In | now apply bool_decide_eq_true].
Qed.

Lemma vwake_cases tr c ch : vwake tr (c, VAsleep ch) = (c, VReady) \/
  (vwake tr (c, VAsleep ch) = (c, VAsleep ch) /\ EvWakeup ch ∉ tr).
Proof.
  pose proof (vwake_woken tr c ch) as Hw. unfold vwake in *. cbn [snd fst] in *. destruct existsb; [now left | right].
  split; [reflexivity |]. intros Hin. discriminate (Hw Hin).
Qed.

(** A list of threads after a turn of [t]. *)
Lemma lookup_turn ths t th tr t' th' : <[t := th]> (map (vwake tr) ths) !! t' = Some th' ->
  (t' = t /\ th' = th) \/ (t' <> t /\ exists th0, ths !! t' = Some th0 /\ th' = vwake tr th0).
Proof.
  destruct (decide (t' = t)) as [-> | Hne]; intros E.
  - left. split; [reflexivity |]. apply list_lookup_insert_Some in E. destruct E as [(_ & <- & _) | [? _]]; congruence.
  - right. split; [exact Hne |]. rewrite list_lookup_insert_ne, list_lookup_fmap in E by auto.
    destruct (ths !! t') as [th0 |]; [| discriminate]. injection E as <-. eauto.
Qed.

Lemma holds_turn ths t th tr : (t < length ths)%nat -> holds (<[t := th]> (map (vwake tr) ths)) = <[t := hold_of th]> (holds ths).
Proof.
  intros Hlt. extensionality t'. unfold holds at 1. destruct (decide (t' = t)) as [-> | Hne].
  - rewrite list_lookup_insert_eq, fn_lookup_insert by (now rewrite length_map). reflexivity.
  - rewrite list_lookup_insert_ne, fn_lookup_insert_ne, list_lookup_fmap by auto. unfold holds.
    destruct (ths !! t'); cbn; [apply vwake_hold | reflexivity].
Qed.

Lemma keys_insert (f : nat -> option (phase * (Z * bool * Z))) t v : keys (<[t := v]> f) = <[t := snd <$> v]> (keys f).
Proof.
  extensionality t'. unfold keys. destruct (decide (t' = t)) as [-> | Hne]; [now rewrite !fn_lookup_insert | now rewrite !fn_lookup_insert_ne].
Qed.

Lemma hold_live th p b w i : hold_of th = Some (p, (b, w, i)) -> live_buf th = Some b.
Proof. destruct th as [[] []]; cbn; intros [=]; subst; reflexivity. Qed.

(** ** What is the same after every turn *)

Lemma turn_bufs s c tr s' r b : turn s c tr s' r ->
  b_blockno (bufs s' b) = b_blockno (bufs s b) /\ b_data (bufs s' b) = b_data (bufs s b).
Proof.
  intros []; cbn; auto.
  - unfold upd. bool_cases; auto. now subst.
  - now rewrite (sr_bufs _ _ H1).
  - unfold upd. bool_cases; auto. now subst.
Qed.

Definition after (c : vcall) s' (r : option channel) : vcall * vstatus :=
  match r with
  | None => (c, VDone)
  | Some ch => (next_call c s' ch, if decide (ch = ch_dev) then VReady else VAsleep ch)
  end.

Definition owner_after (t : nat) (r : option channel) : option nat :=
  match r with Some ch => if decide (ch = ch_dev) then Some t else None | None => None end.

Lemma after_live c s' r b : live_buf (after c s' r) = Some b -> live_buf (c, VReady) = Some b.
Proof. destruct r as [ch |]; [| discriminate]. destruct c; cbn; repeat case_decide; cbn; congruence. Qed.

(** After a turn a thread holds the lock when the turn ended at a barrier. *)
Lemma after_lock s c tr s' ch : turn s c tr s' (Some ch) -> holds_lock (next_call c s' ch) = true <-> ch = ch_dev.
Proof.
  intros Ht. remember (Some ch) as r eqn:Er. destruct Ht; try discriminate; try (injection Er as <-; cbn; try case_decide; cbn; easy).
  destruct (_ =? _); [discriminate |]. injection Er as <-. easy.
Qed.

Lemma turn_asleep s c tr s' r : turn s c tr s' r -> forall th, asleep_ok s th -> asleep_ok s' (vwake tr th).
Proof.
  intros Ht [c' [| ch |]]; [easy | | easy]. cbn [asleep_ok snd fst]. intros Hs.
  destruct (vwake_cases tr c' ch) as [-> | [-> Hw]]; [exact I |]. cbn [asleep_ok snd fst]. destruct Ht; auto.
  - destruct Hs as [(_ & Hn & _) | (b' & w' & i' & E1 & E2 & E3)]; [rewrite H0 in Hn; cbn in Hn; lia |].
    right. exists b', w', i'. split_and!; auto. cbn. unfold upd. bool_cases; auto.
  - destruct Hs as [(E & Hn & Hc) | Hs]; [left | right; now rewrite (sr_bufs _ _ H1)]. split_and!; auto.
    unfold free_list in *. now rewrite H2.
  - destruct Hs as [(-> & _) | (b' & w' & i' & E1 & E2 & E3)]; [destruct Hw; left |]. right. exists b', w', i'. split_and!; auto.
  - destruct Hs as [Hs | (b' & w' & i' & E1 & E2 & E3)]; [now left |]. right. exists b', w', i'. split_and!; auto. cbn.
    rewrite fset_ne; [exact E3 |]. intros ->. destruct Hw. subst ch. left.
Qed.

Lemma after_asleep s c tr s' r : turn s c tr s' r -> asleep_ok s' (after c s' r).
Proof.
  intros []; cbn [after next_call]; try (rewrite decide_True by reflexivity); try exact I.
  - rewrite !decide_False by discriminate. left. split_and!; [reflexivity | unfold free_list in *; now rewrite H2 | eauto].
  - rewrite decide_False by discriminate. right. exists b, w, i. auto.
  - rewrite decide_False by discriminate. right. exists b, w, i. auto.
  - now destruct (_ =? _).
Qed.

Lemma after_start s c tr s' r b w sector st : turn s c tr s' r -> after c s' r = (RwStart b w sector, st) -> st <> VDone -> c = RwStart b w sector.
Proof.
  intros Ht E Hst. destruct r as [ch |]; injection E as E1 E2; [| congruence].
  destruct c; cbn in E1; try case_decide; congruence.
Qed.

Lemma threads_turn s o ths U U' t c tr s' r : threads s o ths U -> ths !! t = Some (c, VReady) -> may_run o t c -> turn s c tr s' r ->
  (after c s' r = (IntrBody, VReady) -> U' <> []) ->
  threads s' (owner_after t r) (<[t := after c s' r]> (map (vwake tr) ths)) U'.
Proof.
  intros [] Ht Hrun Htn HU. assert (Hlt : (t < length (map (vwake tr) ths))%nat) by (rewrite length_map; eapply lookup_lt_Some, Ht).
  assert (Hoth : forall t' th, t' <> t -> ths !! t' = Some th -> snd th <> VDone -> holds_lock (fst th) = false).
  { intros t' [c' st'] Hne E Hd. destruct (holds_lock c') eqn:Hl; [| exact Hl]. destruct (th_owner0 _ _ _ E Hd Hl) as [-> _].
    destruct Hrun as [[= ->] | [[=] _]]; congruence. }
  split.
  - intros t' c' st' E Hd Hl. apply lookup_turn in E as [[-> E] | (Hne & th & E & Eq)].
    + destruct r as [ch |]; injection E as -> ->; [| congruence]. apply (after_lock s c tr s' ch Htn) in Hl as ->.
      cbn. now rewrite !decide_True by reflexivity.
    + assert (Hl' := Hoth t' th Hne E). rewrite <- (vwake_call tr th), <- Eq in Hl'. cbn in Hl'. rewrite Hl' in Hl; [discriminate |].
      intros Hd'. apply Hd. destruct th as [c0 st0]. cbn in Hd'. subst st0. injection Eq. auto.
  - intros t'. destruct r as [ch |]; cbn; [case_decide as Hch; [| discriminate] | discriminate]. intros [= <-].
    exists (next_call c s' ch). rewrite list_lookup_insert_eq by exact Hlt. split; [reflexivity |]. now apply (after_lock s c tr s' ch Htn).
  - assert (Hx : forall t' th' b, <[t := after c s' r]> (map (vwake tr) ths) !! t' = Some th' -> live_buf th' = Some b ->
      exists th, ths !! t' = Some th /\ live_buf th = Some b).
    { intros t' th' b E Hb. apply lookup_turn in E as [[-> ->] | (Hne & th & E & ->)]; [| exists th; now rewrite vwake_live in Hb].
      exists (c, VReady). eauto using after_live. }
    intros t1 t2 th1 th2 b E1 E2 B1 B2. destruct (Hx _ _ _ E1 B1) as (? & ? & ?), (Hx _ _ _ E2 B2) as (? & ? & ?). eauto.
  - intros t' b w sector st E Hd. rewrite (proj1 (turn_bufs s c tr s' r b Htn)).
    apply lookup_turn in E as [[-> E] | (Hne & th & E & Eq)].
    + pose proof (after_start s c tr s' r b w sector st Htn (eq_sym E) Hd) as ->. now apply (th_start0 t b w sector VReady).
    + destruct th as [c0 st0]. assert (c0 = RwStart b w sector) as -> by (change c0 with (fst (c0, st0)); rewrite <- (vwake_call tr (c0, st0)), <- Eq; reflexivity).
      apply (th_start0 t' b w sector st0 E). intros ->. injection Eq. auto.
  - intros t' th' E. apply lookup_turn in E as [[-> ->] | (Hne & th & E & ->)]; [now apply (after_asleep s c tr) | eapply turn_asleep; eauto].
  - intros t' E. apply lookup_turn in E as [[-> E] | (Hne & th & E & Eq)]; [now apply HU |].
    assert (Hl := Hoth t' th Hne E). rewrite <- (vwake_call tr th), <- Eq in Hl. cbn in Hl. discriminate Hl.
    intros Hd. destruct th as [c0 st0]. cbn in Hd. subst st0. discriminate.
Qed.

(** ** The invariant *)

Definition sinv s (d : device) (o : option nat) ths (Q U : list Z) : Prop :=
  chains s (keys (holds ths)) /\ rings s d (holds ths) Q U /\ threads s o ths U.

Definition vinv (x : vsys) : Prop := exists Q U, sinv (drv x) (dev x) (owner x) (vthreads x) Q U.

Section facts.
Variables (s : vdisk R) (d : device) (o : option nat) (ths : list (vcall * vstatus)) (Q U : list Z).
Hypothesis Hinv : sinv s d o ths Q U.

Lemma holds_thread t k : holds ths t = Some k -> exists th, ths !! t = Some th /\ hold_of th = Some k.
Proof. unfold holds. destruct (ths !! t); cbn; [eauto | discriminate]. Qed.

Lemma sinv_apart : apart (holds ths).
Proof.
  destruct Hinv as (Hc & _ & Ht). intros t t' p p' b b' w w' i i' E E' [-> | ->].
  - apply (ch_disj _ _ Hc t t' b b' w w' i' i' i'); unfold keys; [now rewrite E | now rewrite E' | left | left].
  - destruct (holds_thread _ _ E) as (th & L & Hh), (holds_thread _ _ E') as (th' & L' & Hh').
    eapply (th_bufs _ _ _ _ Ht); eauto using hold_live.
Qed.

Lemma sinv_request t p b w i : holds ths t = Some (p, (b, w, i)) -> request_ok s b w i.
Proof. destruct Hinv as (Hc & _ & _). intros E. apply (ch_ok _ _ Hc t). unfold keys. now rewrite E. Qed.

Lemma sinv_range h : h ∈ Q ++ inflight d ++ finished d ++ U -> in_range h /\ free s h = 0.
Proof.
  destruct Hinv as (_ & Hr & _). intros (t & p & b & w & E & _)%(rg_heads _ _ _ _ _ Hr).
  eapply chain_taken; [exact (sinv_request _ _ _ _ _ E) | left].
Qed.

(** A thread that can run shares the lock with no other. *)
Lemma sinv_alone t c : may_run o t c -> forall t' p k, t' <> t -> holds ths t' = Some (p, k) -> p = PWait.
Proof.
  destruct Hinv as (_ & _ & Ht). intros Hrun t' p k Hne (th & L & Hh)%holds_thread. destruct th as [c' st'].
  assert (Hd : st' <> VDone) by (now intros ->). destruct (holds_lock c') eqn:Hl.
  - destruct (th_owner _ _ _ _ Ht _ _ _ L Hd Hl) as [Ho _]. destruct Hrun as [E | [E _]]; congruence.
  - destruct c', st'; cbn in *; congruence.
Qed.

(** What the handler finds at the head of the used ring. *)
Lemma sinv_body t : ths !! t = Some (IntrBody, VReady) -> let id := used_ring s (used_idx s mod NUM) in in_range id /\ verdict (info_status s id).
Proof.
  intros L. pose proof Hinv as (Hc & Hr & Ht). cbv zeta.
  assert (HU : exists id, U !! 0%nat = Some id).
  { pose proof (th_body _ _ _ _ Ht t L) as Hn. clear Hinv Hr Ht. destruct U; [now destruct Hn | eexists; reflexivity]. }
  destruct HU as [id EU]. assert (Hin : id ∈ U) by (eapply list_elem_of_lookup_2, EU).
  assert (E : used_ring s (used_idx s mod NUM) = id) by (rewrite <- (rg_uring _ _ _ _ _ Hr 0%nat id EU); do 2 f_equal; lia).
  rewrite E. split.
  - apply sinv_range. rewrite !elem_of_app. tauto.
  - apply (rg_done _ _ _ _ _ Hr). rewrite elem_of_app. tauto.
Qed.

Lemma sinv_turn_pre t c : ths !! t = Some (c, VReady) -> (c = IntrBody -> info_status s (used_ring s (used_idx s mod NUM)) = 0) -> turn_pre s c.
Proof.
  intros L Hst. assert (Hh : holds ths t = call_hold c) by (unfold holds; now rewrite L).
  pose proof Hinv as (Hc & Hr & Ht). destruct c as [b w sec|b w i|b w i|b w i| | |]; cbn [turn_pre]; try exact I.
  - apply (ch_flags _ _ Hc).
  - now apply (rg_early _ _ _ _ _ Hr t PNot b w i).
  - exists (n1 s i), (n2 s i). apply (ro_fmt _ _ _ _ (sinv_request t _ _ _ _ Hh)).
  - split; [now apply (sinv_body t) | now apply Hst].
Qed.

(** A thread that may run makes a turn, or it is the handler and finds a request
    that failed. *)
Lemma sinv_runs t c fuel wfuel : ths !! t = Some (c, VReady) -> (0 < fuel)%nat ->
  (exists tr s' r f wf, vcode fuel wfuel c [vdisk_lock] s = emits tr (turn_end wf f c s' r) /\ turn s c tr s' r) \/
  (c = IntrBody /\ let id := used_ring s (used_idx s mod NUM) in in_range id /\ info_status s id <> 0 /\ verdict (info_status s id) /\
    vcode fuel wfuel c [vdisk_lock] s = Panic "virtio_disk_intr status").
Proof.
  intros L Hf. assert (Hd : c = IntrBody \/ c <> IntrBody) by (destruct c; auto; right; discriminate).
  destruct (decide (info_status s (used_ring s (used_idx s mod NUM)) = 0)) as [Hst | Hst]; [left; apply turn_run; [exact Hf |]; now apply (sinv_turn_pre t) |].
  destruct Hd as [-> | Hc].
  - right. destruct (sinv_body t L) as [Hr Hv]. split_and!; auto. cbn [vcode]. unfold bind. now rewrite (intr_body_error _ s _ eq_refl Hr Hst).
  - left. apply turn_run; [exact Hf |]. apply (sinv_turn_pre t); [exact L |]. tauto.
Qed.

End facts.

End safe.

(** ** Every step of the virtio system preserves its invariant *)

Section step.
Context {R : Type} `{Mmio R} {V : Verdict}.
Implicit Types s : vdisk R.
Implicit Types ths : list (vcall * vstatus).

Lemma fn_insert_same {A} (f : nat -> A) t v : f t = v -> <[t := v]> f = f.
Proof. intros <-. extensionality t'. destruct (decide (t' = t)) as [-> | Hne]; [apply fn_lookup_insert | now apply fn_lookup_insert_ne]. Qed.

(** ** Turns *)

Section turns.
Variables (s : vdisk R) (d : device) (o : option nat) (ths : list (vcall * vstatus)) (Q U : list Z) (t : nat) (c : vcall).
Hypothesis Hinv : sinv s d o ths Q U.
Hypothesis Hrun : may_run o t c.
Hypothesis Ht : ths !! t = Some (c, VReady).

Lemma held : holds ths t = call_hold c.
Proof. unfold holds. now rewrite Ht. Qed.

(** What a turn leaves, with the new holder [v] for [t]. *)
Definition turned s' (v : option (phase * (Z * bool * Z))) (Q' U' : list Z) : Prop :=
  chains s' (keys (<[t := v]> (holds ths))) /\ rings s' d (<[t := v]> (holds ths)) Q' U'.

(** A turn that touches no descriptor in use and no ring. *)
Lemma turned_same s' : same_rest s s' \/ (exists r, s' = set_regs r s) -> free s' = free s ->
  (forall i, ~ (in_range i /\ free s i <> 0) -> desc s' i = desc s i) -> turned s' (call_hold c) Q U.
Proof.
  intros Hs Hf Hd. destruct Hinv as (Hc & Hr & _). unfold turned. rewrite fn_insert_same by apply held.
  assert (Hd' : forall j, in_range j -> free s j = 0 -> desc s' j = desc s j) by (intros j _ Hz; apply Hd; tauto).
  destruct Hs as [[] | [r ->]]; (split;
    [eapply (chains_same s _ (keys (holds ths))); auto; congruence | eapply (rings_ext s); auto; congruence]).
Qed.

Lemma turned_go b w sector i0 i1 i2 l : c = RwStart b w sector -> free_list s = i0 :: i1 :: i2 :: l ->
  turned (submitted b w sector i0 i1 i2 s) (Some (PPub, (b, w, i0))) Q U.
Proof.
  intros Ec E. pose proof Hinv as (Hc & Hr & Hth). pose proof held as Hh. rewrite Ec in Hh. cbn in Hh.
  assert (Hsec : sector = b_blockno (bufs s b) * 2) by (eapply (th_start _ _ _ _ Hth t b w sector VReady); [now rewrite <- Ec | discriminate]).
  destruct (chains_go s (keys (holds ths)) t b w sector i0 i1 i2 l Hc) as [Hc' Hsep]; auto; [unfold keys; now rewrite Hh |].
  assert (Hi0 : i0 ∈ free_list s) by (rewrite E; left). apply elem_of_free_list in Hi0 as [Hri0 Hfi0].
  unfold turned. rewrite keys_insert. split; [exact Hc' |]. apply rings_go; auto.
  - intros t' p b' w' i' E'. assert (Hne : t' <> t) by congruence. split_and!.
    + rewrite (sinv_alone s d o ths Q U Hinv t c Hrun t' p _ Hne E'). discriminate.
    + intros ->. destruct (holds_thread ths _ _ E') as (th' & L' & Hh'). apply Hne.
      apply (th_bufs _ _ _ _ Hth t' t th' (c, VReady) b L' Ht); [eapply hold_live, Hh' | now rewrite Ec].
    + apply (Hsep t' b' w' i'). unfold keys. now rewrite E'.
  - assert (Hb : Z.of_nat (length (i0 :: Q)) <= NUM); [| cbn in Hb; lia]. apply in_range_length.
    + apply NoDup_cons. split; [| exact (proj1 (proj1 (NoDup_app _ _) (rg_nodup _ _ _ _ _ Hr)))].
      intros Hin. apply Hfi0. apply (sinv_range s d o ths Q U Hinv). rewrite elem_of_app. tauto.
    + intros i [-> | Hin]%elem_of_cons; [exact Hri0 |]. apply (sinv_range s d o ths Q U Hinv). rewrite elem_of_app. tauto.
Qed.

Lemma turned_publish b w i : c = RwPublish b w i ->
  turned (set_avail (u16 (avail_idx s + 1)) (avail_ring s) s) (Some (PNot, (b, w, i))) (Q ++ [i]) U.
Proof.
  intros Ec. pose proof Hinv as (Hc & Hr & Hth). pose proof held as Hh. rewrite Ec in Hh. cbn in Hh. split.
  - rewrite keys_insert, fn_insert_same by (unfold keys; now rewrite Hh). now eapply (chains_same s _ (keys (holds ths))).
  - apply rings_publish; auto; [eapply sinv_apart, Hinv |]. intros t' k E'. destruct (decide (t' = t)) as [| Hne]; [assumption |].
    discriminate (sinv_alone s d o ths Q U Hinv t c Hrun t' PPub k Hne E').
Qed.

Lemma turned_notify b w i r : c = RwNotify b w i -> turned (set_regs r s) (Some (PWait, (b, w, i))) Q U.
Proof.
  intros Ec. pose proof Hinv as (Hc & Hr & Hth). pose proof held as Hh. rewrite Ec in Hh. cbn in Hh. split.
  - rewrite keys_insert, fn_insert_same by (unfold keys; now rewrite Hh). now eapply (chains_same s _ (keys (holds ths))).
  - apply (rings_ext s); auto. now apply rings_notify.
Qed.

Lemma turned_return b w i i1 i2 : c = RwWait b w i -> b_disk (bufs s b) <> 1 -> formatted s b w i i1 i2 ->
  turned (completed i i1 i2 s) None Q U.
Proof.
  intros Ec Hd Hf. pose proof Hinv as (Hc & Hr & Hth). pose proof held as Hh. rewrite Ec in Hh. cbn in Hh.
  destruct (formatted_next _ _ _ _ _ _ Hf) as [<- <-]. split.
  - rewrite keys_insert. apply (chains_return s (keys (holds ths)) t b w i Hc). unfold keys. now rewrite Hh.
  - now apply (rings_return s d _ Q U t b w).
Qed.

Lemma turned_body : c = IntrBody -> info_status s (used_ring s (used_idx s mod NUM)) = 0 -> exists b U',
  b = info_b s (used_ring s (used_idx s mod NUM)) /\ turned (answered b s) None Q U' /\ (u16 (used_idx s + 1) <> used_next s -> U' <> []).
Proof.
  intros Ec Hst. pose proof Hinv as (Hc & Hr & Hth). pose proof held as Hh. rewrite Ec in Hh. cbn in Hh.
  assert (HU : exists id U', U = id :: U').
  { pose proof (th_body _ _ _ _ Hth t) as Hn. rewrite Ec in Ht. specialize (Hn Ht). destruct U as [|id U']; [now destruct Hn | eauto]. }
  destruct HU as (id & U' & EU). pose proof Hr as Hr'. rewrite EU in Hr'.
  assert (E : used_ring s (used_idx s mod NUM) = id) by (rewrite <- (rg_uring _ _ _ _ _ Hr' 0%nat id eq_refl); do 2 f_equal; lia).
  assert (Hall : forall t' p k, holds ths t' = Some (p, k) -> p = PWait).
  { intros t' p k E'. apply (sinv_alone s d o ths Q U Hinv t c Hrun t' p k); [congruence | exact E']. }
  destruct (proj1 (rg_heads _ _ _ _ _ Hr' id)) as (t' & p & b & w & E' & Hp & _); [rewrite !elem_of_app, elem_of_cons; tauto |].
  exists b, U'. rewrite E. pose proof (sinv_request s d o ths Q U Hinv _ _ _ _ _ E') as Ho. split_and!.
  - now rewrite (ro_b _ _ _ _ Ho).
  - unfold turned. rewrite fn_insert_same by exact Hh. split.
    + eapply (chains_same s _ (keys (holds ths))); auto. intros. cbn. unfold upd. bool_cases; auto. now subst.
    + rewrite (Hall _ _ _ E') in E'. eapply rings_answer; eauto; [eapply sinv_apart, Hinv | now rewrite <- E].
  - intros Hne ->. apply Hne. rewrite (rg_used _ _ _ _ _ Hr'). reflexivity.
Qed.

Lemma turn_turned c0 tr s' r : turn s c0 tr s' r -> c = c0 ->
  exists Q' U', turned s' (hold_of (after c0 s' r)) Q' U' /\ (after c0 s' r = (IntrBody, VReady) -> U' <> []).
Proof.
  intros [b w sec i0 i1 i2 l E | b w sec s2 Hn Hs Hf Hd | b w i | b w i r0 Hb | b w i Hb | b w i i1 i2 Hb Hfm | r0 | E | E | id b Hid Eb Hst] Ec;
    cbn [after next_call]; rewrite ?(decide_False (P := ch_disk_free = ch_dev)), ?(decide_True (P := ch_dev = ch_dev)) by easy.
  - exists Q, U. split; [| discriminate]. cbn [hold_of call_hold snd fst submitted avail_ring avail_idx]. rewrite fset_eq. now apply (turned_go b w sec i0 i1 i2 l).
  - exists Q, U. split; [| discriminate]. rewrite <- Ec. change (hold_of _) with (call_hold c). apply turned_same; auto.
  - exists (Q ++ [i]), U. split; [| discriminate]. now apply turned_publish.
  - exists Q, U. split; [| discriminate]. rewrite decide_False by discriminate. now apply turned_notify.
  - exists Q, U. split; [| now rewrite decide_False by discriminate]. rewrite decide_False by discriminate. change (hold_of _) with (call_hold (RwWait b w i)). rewrite <- Ec. apply turned_same; auto. left. now split.
  - exists Q, U. split; [| discriminate]. now apply (turned_return b w).
  - exists Q, U. split; [| discriminate]. change (hold_of _) with (call_hold IntrStart). rewrite <- Ec. apply turned_same; eauto.
  - exists Q, U. split; [| discriminate]. change (hold_of _) with (call_hold IntrRest). rewrite <- Ec. apply turned_same; auto. left. now split.
  - exists Q, U. split.
    + change (hold_of _) with (call_hold IntrRest). rewrite <- Ec. apply turned_same; auto. left. now split.
    + intros _ EU. apply E. destruct Hinv as (_ & Hr & _). rewrite (rg_used _ _ _ _ _ Hr), EU. cbn. rewrite Z.add_0_r. symmetry. apply (rg_width _ _ _ _ _ Hr).
  - rewrite <- Hid in Hst. destruct (turned_body Ec Hst) as (b' & U' & Eb' & Htd & HU). rewrite Hid, <- Eb in Eb'. subst b'. exists Q, U'.
    destruct (Z.eqb_spec (u16 (used_idx s + 1)) (used_next s)) as [Ex | Ex]; cbn; (split; [exact Htd |]); [discriminate | auto].
Qed.

Lemma turn_sinv tr s' r : turn s c tr s' r ->
  exists Q' U', sinv s' d (owner_after t r) (<[t := after c s' r]> (map (vwake tr) ths)) Q' U'.
Proof.
  intros Htn. destruct (turn_turned c tr s' r Htn eq_refl) as (Q' & U' & [Hc' Hr'] & HU). exists Q', U'. unfold sinv.
  rewrite holds_turn by (eapply lookup_lt_Some, Ht). split_and!; auto. eapply threads_turn; eauto. apply Hinv.
Qed.

(** What callers see of a turn: nothing, or a return. *)
Lemma turn_call c0 tr s' r : turn s c0 tr s' r -> c = c0 ->
  abs_call s' (after c0 s' r) = abs_call s (c0, VReady) \/
  exists b w, abs_call s (c0, VReady) = Some (b, w, ADone) /\ abs_call s' (after c0 s' r) = Some (b, w, AReturned).
Proof.
  intros [b w sec i0 i1 i2 l E | b w sec s2 Hn Hs Hf Hd | b w i | b w i r0 Hb | b w i Hb | b w i i1 i2 Hb Hfm | r0 | E | E | id b Hid Eb Hst] Ec;
    cbn [after next_call]; rewrite ?(decide_False (P := ch_disk_free = ch_dev)), ?(decide_True (P := ch_dev = ch_dev)) by easy; try (now left).
  - left. cbn. now rewrite !fset_eq.
  - right. exists b, w. split; [| reflexivity]. cbn. destruct Hinv as (_ & Hr & _). pose proof held as Hh. rewrite Ec in Hh.
    destruct (rg_disk _ _ _ _ _ Hr _ _ _ _ _ Hh) as [? | [_ ->]]; [contradiction | reflexivity].
  - left. now destruct (_ =? _).
Qed.

Lemma turn_status c0 tr s' r i : turn s c0 tr s' r -> i ∉ free_list s -> info_status s' i = info_status s i.
Proof.
  intros [b w sec i0 i1 i2 l E | b w sec s2 Hn Hs Hf Hd | b w j | b w j r0 Hb | b w j Hb | b w j i1 i2 Hb Hfm | r0 | E | E | id b Hid Eb Hst] Hi; try reflexivity.
  - cbn. apply fset_ne. intros ->. apply Hi. rewrite E. left.
  - now rewrite (sr_status _ _ Hs).
Qed.

Lemma abs_call_same s1 s2 th : (forall p b w i, hold_of th = Some (p, (b, w, i)) -> info_status s2 i = info_status s1 i) -> abs_call s2 th = abs_call s1 th.
Proof. destruct th as [[] []]; cbn; intros Hs; try reflexivity; now rewrite (Hs _ _ _ _ eq_refl). Qed.

Lemma abs_call_wake s1 tr th : abs_call s1 (vwake tr th) = abs_call s1 th.
Proof. destruct th as [c' [| ch |]]; try reflexivity. unfold vwake. cbn [snd fst]. destruct existsb; [| reflexivity]. now destruct c'. Qed.

Lemma turn_calls tr s' r : turn s c tr s' r ->
  map (abs_call s') (<[t := after c s' r]> (map (vwake tr) ths)) = <[t := abs_call s' (after c s' r)]> (map (abs_call s) ths).
Proof.
  intros Htn. apply list_eq. intros t'. assert (Hlt : (t < length ths)%nat) by eapply lookup_lt_Some, Ht.
  rewrite list_lookup_fmap. destruct (decide (t' = t)) as [-> | Hne].
  - rewrite !list_lookup_insert_eq by (now rewrite length_map). reflexivity.
  - rewrite !list_lookup_insert_ne, !list_lookup_fmap by auto. destruct (ths !! t') as [th |] eqn:E; [| reflexivity]. cbn. f_equal.
    rewrite abs_call_wake. apply abs_call_same. intros p b w i Hh. eapply turn_status; [exact Htn |].
    intros [_ Hz]%elem_of_free_list. apply Hz. assert (Hd : holds ths t' = Some (p, (b, w, i))) by (unfold holds; now rewrite E).
    eapply chain_taken; [exact (sinv_request s d o ths Q U Hinv _ _ _ _ _ Hd) | left].
Qed.

Lemma turn_abs tr s' r : turn s c tr s' r ->
  let x := VSys s d o ths in let y := VSys s' d (owner_after t r) (<[t := after c s' r]> (map (vwake tr) ths)) in
  abs x = abs y \/ atomic_step (abs x) (abs y).
Proof.
  intros Htn x y. unfold abs, x, y. cbn [drv dev vthreads]. rewrite (turn_calls tr s' r Htn).
  replace (fun b => b_blockno (bufs s' b)) with (fun b => b_blockno (bufs s b))
    by (extensionality b; now rewrite (proj1 (turn_bufs s c tr s' r b Htn))).
  replace (fun b => b_data (bufs s' b)) with (fun b => b_data (bufs s b))
    by (extensionality b; now rewrite (proj2 (turn_bufs s c tr s' r b Htn))).
  assert (El : map (abs_call s) ths !! t = Some (abs_call s (c, VReady))) by (now rewrite list_lookup_fmap, Ht).
  destruct (turn_call c tr s' r Htn eq_refl) as [-> | (b & w & E1 & E2)].
  - left. now rewrite list_insert_id.
  - right. rewrite E2. apply at_return. now rewrite El, E1.
Qed.

End turns.

(** ** The device and the callers *)

Lemma threads_ext s s' o ths U U' : threads s o ths U -> free s' = free s -> (U <> [] -> U' <> []) ->
  (forall t th b, ths !! t = Some th -> live_buf th = Some b ->
    b_blockno (bufs s' b) = b_blockno (bufs s b) /\ b_disk (bufs s' b) = b_disk (bufs s b)) ->
  threads s' o ths U'.
Proof.
  intros [Ho Hod Hbf Hst Has Hbo] Hf HU Hb. split; auto.
  - intros t b w sec st E Hd. assert (Hl : live_buf (RwStart b w sec, st) = Some b) by (now destruct st).
    rewrite (proj1 (Hb _ _ _ E Hl)). eauto.
  - intros t th E. specialize (Has t th E). unfold asleep_ok in *. destruct th as [c' [| ch |]]; cbn [snd fst] in *; auto.
    unfold free_list in *. rewrite Hf. destruct Has as [Ha | (b & w & i & -> & -> & Ed)]; [now left | right].
    exists b, w, i. split_and!; auto. now rewrite (proj2 (Hb t _ b E eq_refl)).
  - intros t E. apply HU. eauto.
Qed.

Section moves.
Variables (s : vdisk R) (d : device) (o : option nat) (ths : list (vcall * vstatus)) (Q U : list Z).
Hypothesis Hinv : sinv s d o ths Q U.

Lemma sinv_well_formed : well_formed s d.
Proof.
  intros h Hh. destruct Hinv as (_ & Hr & _). destruct (proj1 (rg_heads _ _ _ _ _ Hr h)) as (t & p & b & w & E & _).
  { rewrite !elem_of_app. tauto. }
  rewrite (request_decodes s b w h (sinv_request s d o ths Q U Hinv _ _ _ _ _ E)). eauto.
Qed.

(** A request is served with the status [v]. *)
Lemma served_sinv l1 h l2 t p b w v s' f : inflight d = l1 ++ h :: l2 -> holds ths t = Some (p, (b, w, h)) -> verdict v ->
  (forall b', b_blockno (bufs s' b') = b_blockno (bufs s b') /\ b_disk (bufs s' b') = b_disk (bufs s b')) ->
  desc s' = desc s /\ free s' = free s /\ ops s' = ops s /\ info_b s' = info_b s /\ info_status s' = upd h v (info_status s) /\
    avail_idx s' = avail_idx s /\ avail_ring s' = avail_ring s /\ used_next s' = used_next s /\ used_ring s' = used_ring s /\ used_idx s' = used_idx s ->
  sinv s' (Dev f (last_avail d) (l1 ++ l2) (finished d ++ [h])) o ths Q U.
Proof.
  intros Hl Ht Hv Hb (E1 & E2 & E3 & E4 & E5 & E6 & E7 & E8 & E9 & E10). destruct Hinv as (Hc & Hr & Hth). split_and!.
  - apply (chains_same s s' (keys (holds ths))); auto; [now rewrite E1 | intros; apply Hb].
  - apply (rings_transfer s s' d _ Q U l1 h l2 f v); auto; [intros; apply Hb | eapply sinv_apart, Hinv].
  - apply (threads_ext s s' o ths U U Hth); auto.
Qed.

Lemma transfer_sinv l1 h l2 t p b w : verdict 0 -> inflight d = l1 ++ h :: l2 -> holds ths t = Some (p, (b, w, h)) ->
  let r := (w, b_blockno (bufs s b) * 2, b, h) in
  sinv (fst (transfer r s (sect d))) (Dev (snd (transfer r s (sect d))) (last_avail d) (l1 ++ l2) (finished d ++ [h])) o ths Q U.
Proof.
  intros Hv Hl Ht r. apply (served_sinv l1 h l2 t p b w 0); auto; [| unfold r; now destruct w].
  intros b'. unfold r. destruct w; cbn; [auto |]. unfold upd. bool_cases; auto. now subst.
Qed.

Lemma fault_sinv l1 h l2 t p b w v x y : verdict v -> inflight d = l1 ++ h :: l2 -> holds ths t = Some (p, (b, w, h)) ->
  let r := (w, b_blockno (bufs s b) * 2, b, h) in
  sinv (fst (fault r v x y s (sect d))) (Dev (snd (fault r v x y s (sect d))) (last_avail d) (l1 ++ l2) (finished d ++ [h])) o ths Q U.
Proof.
  intros Hv Hl Ht r. apply (served_sinv l1 h l2 t p b w v); auto; [| unfold r; now destruct w].
  intros b'. unfold r. destruct w; cbn; [auto |]. unfold upd. bool_cases; auto. now subst.
Qed.

(** Whose a request with the device is. *)
Lemma inflight_request l1 h l2 r : inflight d = l1 ++ h :: l2 -> request s h = Some r ->
  exists t p b w, holds ths t = Some (p, (b, w, h)) /\ r = (w, b_blockno (bufs s b) * 2, b, h).
Proof.
  intros Hl Er. pose proof Hinv as (_ & Hr & _). destruct (proj1 (rg_heads _ _ _ _ _ Hr h)) as (t & p & b & w & E & _); [rewrite Hl, !elem_of_app, elem_of_cons; tauto |].
  rewrite (request_decodes s b w h (sinv_request s d o ths Q U Hinv _ _ _ _ _ E)) in Er. injection Er as <-. eauto 7.
Qed.

Lemma dev_sinv s' d' : verdict 0 -> dev_spec s d s' d' -> exists Q' U', sinv s' d' o ths Q' U'.
Proof.
  pose proof Hinv as (Hc & Hr & Hth). intros Hv [Hne | l1 h l2 r Hl Er | l1 h l2 Hl | r].
  - destruct (rings_take s d _ Q U Hr Hne) as (h & Q' & EQ & -> & Hr'). exists Q', U. split_and!; auto.
  - destruct (inflight_request l1 h l2 r Hl Er) as (t & p & b & w & E & ->). exists Q, U. now apply (transfer_sinv l1 h l2 t p).
  - exists Q, (U ++ [h]). split_and!.
    + now apply (chains_same s _ (keys (holds ths))).
    + apply rings_dev_publish; auto. assert (Hb : Z.of_nat (length (h :: U)) <= NUM); [| cbn in Hb; lia]. apply in_range_length.
      * pose proof (rg_nodup _ _ _ _ _ Hr) as Hnd. rewrite Hl, <- (app_assoc l1) in Hnd.
        do 3 apply NoDup_app in Hnd as (_ & _ & Hnd). cbn [app] in Hnd. apply NoDup_cons in Hnd as [Hn Hnd].
        apply NoDup_app in Hnd as (_ & _ & Hnd). apply NoDup_cons. split; [| exact Hnd]. rewrite elem_of_app in Hn. tauto.
      * intros i [-> | Hi]%elem_of_cons; eapply (sinv_range s d o ths Q U Hinv); rewrite ?Hl, !elem_of_app, ?elem_of_cons; tauto.
    + apply (threads_ext s _ o ths U (U ++ [h]) Hth); auto. intros _. destruct U; discriminate.
  - exists Q, U. split_and!; [now apply (chains_same s _ (keys (holds ths))) | now apply (rings_ext s) | now apply (threads_ext s _ o ths U U Hth)].
Qed.

Lemma dev_err_sinv s' d' : (forall v, v = 0 \/ v = 1 \/ v = 2 -> verdict v) -> dev_spec_err s d s' d' -> exists Q' U', sinv s' d' o ths Q' U'.
Proof.
  intros Hv [s1 d1 Hd | l1 h l2 r v x y Hl Er Hvv]; [apply dev_sinv; auto |].
  destruct (inflight_request l1 h l2 r Hl Er) as (t & p & b & w & E & ->). exists Q, U. apply (fault_sinv l1 h l2 t p); auto.
Qed.

Lemma transfer_calls l1 h l2 t p b w s' : inflight d = l1 ++ h :: l2 -> holds ths t = Some (p, (b, w, h)) ->
  info_status s' = upd h 0 (info_status s) ->
  map (abs_call s) ths !! t = Some (Some (b, w, APending)) /\
  map (abs_call s') ths = <[t := Some (b, w, ADone)]> (map (abs_call s) ths).
Proof.
  intros Hl Ht Es. destruct Hinv as (_ & Hr & _). destruct (holds_thread ths t _ Ht) as (th & L & Hh).
  assert (Hp : info_status s h = 0xff) by (apply (rg_pending _ _ _ _ _ Hr); rewrite Hl, !elem_of_app, elem_of_cons; tauto).
  split.
  { rewrite list_lookup_fmap, L. cbn. f_equal. destruct th as [[] []]; cbn in *; try discriminate; injection Hh as <- <- <- <-; now rewrite Hp. }
  apply list_eq. intros t'. destruct (decide (t' = t)) as [-> | Hne].
  - rewrite list_lookup_insert_eq, list_lookup_fmap, L by (rewrite length_map; eapply lookup_lt_Some, L). cbn. f_equal.
    destruct th as [[] []]; cbn in *; try discriminate; injection Hh as <- <- <- <-; now rewrite Es, fset_eq.
  - rewrite list_lookup_insert_ne, !list_lookup_fmap by auto. destruct (ths !! t') as [th' |] eqn:L'; [| reflexivity]. cbn. f_equal.
    apply abs_call_same. intros p' b' w' i' Hh'. rewrite Es. apply fset_ne. intros ->. apply Hne.
    assert (E' : holds ths t' = Some (p', (b', w', h))) by (unfold holds; now rewrite L').
    eapply (sinv_apart s d o ths Q U Hinv); [exact E' | exact Ht | now left].
Qed.

Lemma transfer_abs l1 h l2 t p b w : inflight d = l1 ++ h :: l2 -> holds ths t = Some (p, (b, w, h)) ->
  let r := (w, b_blockno (bufs s b) * 2, b, h) in
  atomic_step (abs (VSys s d o ths))
    (abs (VSys (fst (transfer r s (sect d))) (Dev (snd (transfer r s (sect d))) (last_avail d) (l1 ++ l2) (finished d ++ [h])) o ths)).
Proof.
  intros Hl Ht r. assert (Es : info_status (fst (transfer r s (sect d))) = upd h 0 (info_status s)) by (unfold r; now destruct w).
  destruct (transfer_calls l1 h l2 t p b w _ Hl Ht Es) as [Ec Ec']. unfold abs. cbn [drv dev vthreads sect]. rewrite Ec'.
  set (D := fun m => sect d (m * 2) ++ sect d (m * 2 + 1)). set (n := fun b0 => b_blockno (bufs s b0)). set (v := fun b0 => b_data (bufs s b0)).
  assert (En : (fun b0 => b_blockno (bufs (fst (transfer r s (sect d))) b0)) = n)
    by (extensionality b'; unfold r; destruct w; cbn; [reflexivity |]; unfold upd; destruct (Z.eqb_spec b' b); [now subst | reflexivity]).
  assert (Ev : (fun b0 => b_data (bufs (fst (transfer r s (sect d))) b0)) = if w then v else upd b (D (n b)) v)
    by (extensionality b'; unfold r, v; destruct w; cbn; [reflexivity |]; unfold upd; destruct (b' =? b); reflexivity).
  assert (ED : (fun m => snd (transfer r s (sect d)) (m * 2) ++ snd (transfer r s (sect d)) (m * 2 + 1)) = if w then dwrite D (n b) (v b) else D).
  { extensionality m. unfold r, dwrite. destruct w; cbn; [| reflexivity]. unfold upd, n, v, D.
    destruct (Z.eqb_spec m (b_blockno (bufs s b))) as [-> | Hne].
    - rewrite !Z.eqb_refl, (proj2 (Z.eqb_neq _ _)) by lia. apply take_drop.
    - now rewrite !(proj2 (Z.eqb_neq _ _)) by lia. }
  rewrite En, Ev, ED. now apply (at_complete D n v _ t b w).
Qed.

Lemma dev_abs s' d' : dev_spec s d s' d' ->
  abs (VSys s d o ths) = abs (VSys s' d' o ths) \/ atomic_step (abs (VSys s d o ths)) (abs (VSys s' d' o ths)).
Proof.
  pose proof Hinv as (Hc & Hr & Hth). intros [Hne | l1 h l2 r Hl Er | l1 h l2 Hl | r]; try (now left).
  destruct (inflight_request l1 h l2 r Hl Er) as (t & p & b & w & E & ->). right. now apply (transfer_abs l1 h l2 t p).
Qed.

(** A new thread that holds nothing. *)
Lemma append_sinv c : holds_lock c = false -> call_hold c = None ->
  (forall b, live_buf (c, VReady) = Some b -> forall th, th ∈ ths -> live_buf th <> Some b) ->
  (forall b w sector, c = RwStart b w sector -> sector = b_blockno (bufs s b) * 2) -> sinv s d o (ths ++ [(c, VReady)]) Q U.
Proof.
  destruct Hinv as (Hc & Hr & [Ho Hod Hbf Hst Has Hbo]). intros Hl Hh Hb Hs.
  assert (Eh : holds (ths ++ [(c, VReady)]) = holds ths).
  { extensionality t. unfold holds. destruct (ths !! t) as [th |] eqn:L; [now rewrite (lookup_app_l_Some _ _ _ _ L) |].
    rewrite lookup_app_r by (now apply lookup_ge_None). destruct (t - length ths)%nat as [|n]; [exact Hh | now destruct n]. }
  assert (Hin : forall t th, (ths ++ [(c, VReady)]) !! t = Some th -> ths !! t = Some th \/ (t = length ths /\ th = (c, VReady))).
  { intros t th [L | [Hge L]]%lookup_app_Some; [now left |]. right. destruct (t - length ths)%nat as [|n] eqn:En; [| now destruct n].
    injection L as <-. split; [lia | reflexivity]. }
  unfold sinv. rewrite Eh. split_and!; auto. split.
  - intros t c' st [L | [-> [= -> ->]]]%Hin; [eauto | congruence].
  - intros t E. destruct (Hod t E) as (c' & L & Hl'). exists c'. now rewrite (lookup_app_l_Some _ _ _ _ L).
  - intros t t' th th' b [L | [-> ->]]%Hin [L' | [-> ->]]%Hin B B'; eauto.
    + destruct (Hb b B' th); eauto using list_elem_of_lookup_2.
    + destruct (Hb b B th'); eauto using list_elem_of_lookup_2.
  - intros t b w sec st [L | [-> [= <- ->]]]%Hin; eauto.
  - intros t th [L | [-> ->]]%Hin; [eauto | exact I].
  - intros t [L | [-> [= <-]]]%Hin; [eauto | discriminate].
Qed.

Lemma world_sinv f : (forall th b, th ∈ ths -> live_buf th = Some b -> f b = bufs s b) -> sinv (set_bufs f s) d o ths Q U.
Proof.
  destruct Hinv as (Hc & Hr & Hth). intros Hf.
  assert (Hk : forall t p b w i, holds ths t = Some (p, (b, w, i)) -> f b = bufs s b).
  { intros t p b w i (th & L & Hh)%holds_thread. eapply Hf; [eapply list_elem_of_lookup_2, L | eapply hold_live, Hh]. }
  split_and!.
  - apply (chains_same s _ (keys (holds ths))); auto. intros t b w i E. unfold keys in E. destruct (holds ths t) as [[p k] |] eqn:Eh; [| discriminate].
    injection E as ->. cbn. now rewrite (Hk _ _ _ _ _ Eh).
  - apply (rings_ext s); auto. intros t p b w i E. cbn. now rewrite (Hk _ _ _ _ _ E).
  - apply (threads_ext s _ o ths U U Hth); auto. intros t th b L Hb. cbn. now rewrite (Hf th b) by eauto using list_elem_of_lookup_2.
Qed.

Lemma abs_live th b w st : abs_call s th = Some (b, w, st) -> st <> AReturned -> live_buf th = Some b.
Proof. destruct th as [[] []]; cbn; intros [=] Hst; subst; congruence. Qed.

End moves.
End step.
