(* ===== verification/VirtioSpec.v ===== *)
(** * What the virtio driver guarantees *)

From Stdlib Require Import FunctionalExtensionality.
From stdpp Require Import functions.
From S2P Require Import Prelude KMonad Riscv Trace Mem Kalloc KallocSafety Vm Virtio VirtioRun VirtioSys VirtioInv VirtioSafe.

(** ** The invariant holds in every state *)

Section reach.
Context {R : Type} `{Mmio R} {V : Verdict}.
Implicit Types s : vdisk R.
Implicit Types x y : vsys (R := R).

Lemma vstep_turn s d o ths Q U t c fuel wfuel tr e : sinv s d o ths Q U -> ths !! t = Some (c, VReady) -> (0 < fuel)%nat ->
  vcode fuel wfuel c [vdisk_lock] s = emits tr e -> is_end e -> (forall msg, e <> Panic msg) ->
  exists s' r f wf, e = turn_end wf f c s' r /\ turn s c tr s' r.
Proof.
  intros Hi Ht Hf E He Hp. destruct (sinv_runs s d o ths Q U Hi t c fuel wfuel Ht Hf) as [(tr0 & s0 & r & f & wf & E0 & Htn) | (_ & _ & _ & _ & E0)]; rewrite E0 in E.
  - apply emits_inj in E as [-> <-]; [| now destruct r | exact He]. exists s0, r, f, wf. auto.
  - apply (emits_inj []) in E as [_ <-]; [now destruct (Hp "virtio_disk_intr status"%string) | exact I | exact He].
Qed.

Variable device_step : vdisk R -> device -> vdisk R -> device -> Prop.
Hypothesis device_sinv : forall s d o ths Q U s' d', sinv s d o ths Q U -> device_step s d s' d' -> exists Q' U', sinv s' d' o ths Q' U'.

Lemma vstep_vinv x y : vinv x -> vstep device_step x y -> vinv y.
Proof.
  intros (Q & U & Hi) Hs. destruct Hs as [s d o ths b w Hb Hn | s d o ths | s d o ths f Hf | s d o ths s' d' Hd
    | s d o ths t c fuel wfuel tr s' Ht Hrun Hfu E | s d o ths t c fuel wfuel tr ch s' k f wf Ht Hrun Hfu E Ek]; cbn [drv dev owner vthreads] in Hi.
  - exists Q, U; cbn; apply append_sinv; auto.
    + intros b' [= <-]. exact Hb.
    + intros b' w' sec [= <- <- <-]. change (BSIZE / 512) with 2. apply u32_small. lia.
  - exists Q, U; cbn; apply append_sinv; auto; discriminate.
  - exists Q, U; cbn; now apply world_sinv.
  - exact (device_sinv s d o ths Q U s' d' Hi Hd).
  - destruct (vstep_turn s d o ths Q U t c fuel wfuel tr _ Hi Ht Hfu E I ltac:(discriminate)) as (s0 & [ch |] & f & wf & Ee & Htn); [discriminate |]. injection Ee as <-.
    exact (turn_sinv s d o ths Q U t c Hi Hrun Ht _ _ _ Htn).
  - destruct (vstep_turn s d o ths Q U t c fuel wfuel tr _ Hi Ht Hfu E I ltac:(discriminate)) as (s0 & [ch0 |] & f0 & wf0 & Ee & Htn); [| discriminate]. injection Ee as <- <- _.
    exact (turn_sinv s d o ths Q U t c Hi Hrun Ht _ _ _ Htn).
Qed.

Lemma vinit_vinv x : vinit x -> vinv x.
Proof.
  destruct x as [s d o ths]. intros (Hf & Ha & Hu & Hui & Hl & Hin & Hfi & Ho & Hth). cbn in *. subst ths o. exists [], []. cbn. split_and!.
  - split; try discriminate; [intros i Hr; rewrite Hf; auto |]. intros j Hj. now rewrite Hf.
  - split; cbn; rewrite ?Hl, ?Hin, ?Hfi, ?Ha, ?Hu, ?Hui; try discriminate; try (intros ? ?%elem_of_nil; contradiction); try easy; [constructor |].
    intros h. rewrite elem_of_nil. split; [easy |]. now intros (t & p & b & w & E & _).
  - split; discriminate.
Qed.

Lemma vinv_reach x y : vinit x -> rtc (vstep device_step) x y -> vinv y.
Proof. intros Hi%vinit_vinv Hr. induction Hr as [|x z y Hs Hr IH]; [exact Hi |]. apply IH, (vstep_vinv x z Hi Hs). Qed.

End reach.

(** ** A device that serves every request *)

Definition served : Verdict := fun v => v = 0.

Section spec.
Context {R : Type} `{Mmio R}.
#[local] Existing Instance served.
Implicit Types s : vdisk R.
Implicit Types x y : vsys (R := R).

(** The device does what the specification says while the requests it has
    taken are well formed, and serves them; what it does otherwise is not known. *)
Variable device_step : vdisk R -> device -> vdisk R -> device -> Prop.
Hypothesis device_ok : forall s d s' d', well_formed s d -> device_step s d s' d' -> dev_spec s d s' d'.

Lemma device_served s d o ths Q U s' d' : sinv s d o ths Q U -> device_step s d s' d' -> exists Q' U', sinv s' d' o ths Q' U'.
Proof. intros Hi Hd. exact (dev_sinv s d o ths Q U Hi s' d' eq_refl (device_ok s d s' d' (sinv_well_formed s d o ths Q U Hi) Hd)). Qed.

Lemma vstep_abs x y : vinv x -> vstep device_step x y -> abs x = abs y \/ atomic_step (abs x) (abs y).
Proof.
  intros (Q & U & Hi) Hs. destruct Hs as [s d o ths b w Hb Hn | s d o ths | s d o ths f Hf | s d o ths s' d' Hd
    | s d o ths t c fuel wfuel tr s' Ht Hrun Hfu E | s d o ths t c fuel wfuel tr ch s' k f wf Ht Hrun Hfu E Ek]; cbn [drv dev owner vthreads] in Hi.
  - right. unfold abs. cbn. rewrite map_app. apply at_call. intros w' st ([c' st'] & Ec & Hin)%list_elem_of_fmap.
    specialize (Hb _ Hin). destruct c', st'; cbn in *; congruence.
  - right. unfold abs. cbn. rewrite map_app. apply at_other.
  - right. unfold abs. cbn.
    replace (map (abs_call (set_bufs f s)) ths) with (map (abs_call s) ths) by (apply map_ext; now intros [[] []]).
    apply at_world. intros b w st (th & Ec & Hin)%list_elem_of_fmap Hst. symmetry in Ec. now rewrite (Hf th b Hin (abs_live s th b w st Ec Hst)).
  - exact (dev_abs s d o ths Q U Hi s' d' (device_ok s d s' d' (sinv_well_formed s d o ths Q U Hi) Hd)).
  - destruct (vstep_turn s d o ths Q U t c fuel wfuel tr _ Hi Ht Hfu E I ltac:(discriminate)) as (s0 & [ch |] & f & wf & Ee & Htn); [discriminate |]. injection Ee as <-.
    exact (turn_abs s d o ths Q U t c Hi Ht _ _ _ Htn).
  - destruct (vstep_turn s d o ths Q U t c fuel wfuel tr _ Hi Ht Hfu E I ltac:(discriminate)) as (s0 & [ch0 |] & f0 & wf0 & Ee & Htn); [| discriminate]. injection Ee as <- <- _.
    exact (turn_abs s d o ths Q U t c Hi Ht _ _ _ Htn).
Qed.

(** C5: Reads and writes of the disk take effect one at a time.  Whatever the
    threads, the interrupts and the device do from a fresh driver on, what
    callers see (the blocks on the disk, the buffers, and which calls are
    pending, done and returned) is a run of the disk that serves one whole
    request per step, and only of buffers whose call is pending. *)
Theorem virtio_disk_atomic x y : vinit x -> rtc (vstep device_step) x y -> rtc atomic_step (abs x) (abs y).
Proof.
  intros Hi%vinit_vinv Hr. induction Hr as [|x z y Hs Hr IH]; [constructor |]. pose proof (vstep_vinv _ device_served x z Hi Hs) as Hz.
  destruct (vstep_abs x z Hi Hs) as [-> | Ha]; [auto |]. eapply rtc_l; [exact Ha | auto].
Qed.

(** The request with head [i] is on its way. *)
Definition outstanding s (d : device) (i : Z) : Prop :=
  (exists k, 0 <= k < u16 (avail_idx s - last_avail d) /\ avail_ring s ((last_avail d + k) mod NUM) = i) \/
  i ∈ inflight d \/ i ∈ finished d \/
  (exists k, 0 <= k < u16 (used_next s - used_idx s) /\ used_ring s ((used_idx s + k) mod NUM) = i).

Lemma ring_distance a n : n <= NUM -> 0 <= n -> u16 (u16 (a + n) - u16 a) = n.
Proof. intros Hn Hz. unfold u16, NUM in *. rewrite <- Zminus_mod. replace (a + n - a) with n by lia. apply Z.mod_small. lia. Qed.

Lemma sinv_outstanding s d o ths Q U t p b w i : sinv s d o ths Q U -> holds ths t = Some (p, (b, w, i)) -> p <> PPub -> b_disk (bufs s b) = 1 -> outstanding s d i.
Proof.
  intros Hi Hh Hp Hb. pose proof Hi as (_ & Hr & _). pose proof (sinv_range s d o ths Q U Hi) as Hrg. destruct Hr.
  assert (Hlen : Z.of_nat (length Q) <= NUM /\ Z.of_nat (length U) <= NUM).
  { apply NoDup_app in rg_nodup as (NQ & _ & N1). do 2 apply NoDup_app in N1 as (_ & _ & N1).
    split; apply in_range_length; auto; intros j Hj; apply Hrg; rewrite !elem_of_app; tauto. }
  assert (Hin : i ∈ Q ++ inflight d ++ finished d ++ U) by (apply rg_heads; eauto 7). rewrite !elem_of_app in Hin.
  unfold outstanding. destruct Hin as [HQ | [? | [? | HU]]]; auto.
  - left. apply list_elem_of_lookup in HQ as [k Hk]. exists (Z.of_nat k). split; [| auto]. apply lookup_lt_Some in Hk.
    rewrite rg_avail. rewrite <- (proj1 rg_width) at 2. rewrite ring_distance; lia.
  - do 3 right. apply list_elem_of_lookup in HU as [k Hk]. exists (Z.of_nat k). split; [| auto]. apply lookup_lt_Some in Hk.
    rewrite rg_used. rewrite <- (proj2 rg_width) at 2. rewrite ring_distance; lia.
Qed.

(** C7: No interrupt and no wake-up is lost.  A thread that sleeps in
    [virtio_disk_rw] either waits for a request of its buffer that is still on
    its way: in the ring of available requests, with the device, or in the
    used ring where the handler finds it; or it waits for descriptors, fewer
    than three are free, and another call holds a chain. *)
Theorem virtio_no_lost_wakeup x y t c ch : vinit x -> rtc (vstep device_step) x y -> vthreads y !! t = Some (c, VAsleep ch) ->
  (exists b w i, c = RwWait b w i /\ ch = ch_buf b /\ outstanding (drv y) (dev y) i) \/
  (exists b w sector t' th p b' w' i', c = RwStart b w sector /\ ch = ch_disk_free /\ (length (free_list (drv y)) < 3)%nat /\
    vthreads y !! t' = Some th /\ hold_of th = Some (p, (b', w', i'))).
Proof.
  intros Hi Hr Ht. destruct (vinv_reach _ device_served x y Hi Hr) as (Q & U & Hv). pose proof Hv as (Hc & Hrg & Hth).
  destruct (th_asleep _ _ _ _ Hth t _ Ht) as [(-> & Hn & b & w & sec & Ec) | (b & w & i & Ec & -> & Hb)]; cbn in Ec; subst c.
  - right. assert (Hz : exists j, in_range j /\ free (drv y) j = 0).
    { destruct (decide (free (drv y) 0 = 0)); [exists 0; split; [unfold in_range, NUM; lia | assumption] |].
      destruct (decide (free (drv y) 1 = 0)); [exists 1; split; [unfold in_range, NUM; lia | assumption] |].
      destruct (decide (free (drv y) 2 = 0)); [exists 2; split; [unfold in_range, NUM; lia | assumption] |].
      assert (Hs : [0; 1; 2] ⊆+ free_list (drv y)); [| apply submseteq_length in Hs; cbn in Hs; lia].
      apply NoDup_submseteq; [repeat constructor; rewrite ?elem_of_cons, ?elem_of_nil; lia |].
      intros j. rewrite !elem_of_cons, elem_of_nil, elem_of_free_list. unfold in_range, NUM. intros [-> | [-> | [-> | []]]]; split; auto; lia. }
    destruct Hz as (j & Hj & Hz). destruct (ch_taken _ _ Hc j Hj Hz) as (t' & b' & w' & i' & E & _).
    unfold keys in E. destruct (holds (vthreads y) t') as [[p k] |] eqn:Eh; [| discriminate]. injection E as ->.
    destruct (holds_thread _ _ _ Eh) as (th & L & Hh). exists b, w, sec, t', th, p, b', w', i'. auto.
  - left. exists b, w, i. split_and!; auto. apply (sinv_outstanding _ _ _ _ Q U t PWait b w i Hv); [unfold holds; now rewrite Ht | discriminate | exact Hb].
Qed.

End spec.

(** ** A device that may fail *)

Definition reported : Verdict := fun v => v = 0 \/ v = 1 \/ v = 2.

Section errors.
Context {R : Type} `{Mmio R}.
#[local] Existing Instance reported.
Implicit Types x y : vsys (R := R).

Variable device_step : vdisk R -> device -> vdisk R -> device -> Prop.
Hypothesis device_ok : forall s d s' d', well_formed s d -> device_step s d s' d' -> dev_spec_err s d s' d'.

Lemma device_reported (s : vdisk R) d o ths Q U s' d' : sinv s d o ths Q U -> device_step s d s' d' -> exists Q' U', sinv s' d' o ths Q' U'.
Proof. intros Hi Hd. exact (dev_err_sinv s d o ths Q U Hi s' d' (fun _ Hv => Hv) (device_ok s d s' d' (sinv_well_formed s d o ths Q U Hi) Hd)). Qed.

(** C6: In every state the driver can reach, with a device that may end requests
    with an error, a thread that may run makes a turn, without going out of bounds
    and without a descriptor freed twice: it stops at a barrier, at a sleep, or by
    returning with the lock released.  The one panic is that of the interrupt
    handler, when the request at the head of the used ring has a status with which
    the device reports an error, 1 or 2.  A thread that holds the lock at a barrier
    can always go on. *)
Theorem virtio_no_panic x y t c : vinit x -> rtc (vstep device_step) x y -> vthreads y !! t = Some (c, VReady) ->
  (forall fuel wfuel, (0 < fuel)%nat -> exists tr s',
    vcode fuel wfuel c [vdisk_lock] (drv y) = emits tr (Ret tt [] s') \/
    (exists ch f wf, vcode fuel wfuel c [vdisk_lock] (drv y) = emits tr (Sleep ch s' (fun s'' => vcode f wf (next_call c s' ch) [vdisk_lock] s''))) \/
    (vcode fuel wfuel c [vdisk_lock] (drv y) = Panic "virtio_disk_intr status" /\ c = IntrBody /\
     let id := used_ring (drv y) (used_idx (drv y) mod NUM) in in_range id /\ (info_status (drv y) id = 1 \/ info_status (drv y) id = 2))) /\
  (holds_lock c = true -> owner y = Some t).
Proof.
  intros Hi Hr Ht. destruct (vinv_reach _ device_reported x y Hi Hr) as (Q & U & Hv). split.
  - intros fuel wfuel Hf. destruct (sinv_runs _ _ _ _ _ _ Hv t c fuel wfuel Ht Hf) as [(tr & s' & r & f & wf & E & _) | (-> & Hg & Hne & Hvd & E)].
    + exists tr, s'. rewrite E. destruct r as [ch |]; [right; left; eauto | now left].
    + exists [], (drv y). right; right. destruct Hvd as [? | Hvd]; [contradiction |]. exact (conj E (conj eq_refl (conj Hg Hvd))).
  - intros Hl. destruct Hv as (_ & _ & Hth). now destruct (th_owner _ _ _ _ Hth t c VReady Ht).
Qed.

End errors.

(** ** Initialisation *)

(** The registers of a block device with a queue (virtio specification, 4.2.2
    and 5.2): it identifies itself, a write of 0 to the status register resets
    it, and it keeps the status it is given. *)
Class BlkRegs (R : Type) `{Mmio R} := {
  queue_idle : R -> Prop;
  br_magic : forall r, reg_read r VIRTIO_MMIO_MAGIC_VALUE = 0x74726976;
  br_version : forall r, reg_read r VIRTIO_MMIO_VERSION = 2;
  br_device : forall r, reg_read r VIRTIO_MMIO_DEVICE_ID = 2;
  br_vendor : forall r, reg_read r VIRTIO_MMIO_VENDOR_ID = 0x554d4551;
  br_reset : forall r, queue_idle (reg_write VIRTIO_MMIO_STATUS 0 r);
  br_write : forall r a v, queue_idle r -> a <> VIRTIO_MMIO_QUEUE_READY -> queue_idle (reg_write a v r);
  br_ready : forall r, queue_idle r -> reg_read r VIRTIO_MMIO_QUEUE_READY = 0;
  br_status : forall r v, 0 <= v < 2 ^ 8 -> reg_read (reg_write VIRTIO_MMIO_STATUS v r) VIRTIO_MMIO_STATUS = v;
  br_max : forall r, NUM <= reg_read r VIRTIO_MMIO_QUEUE_NUM_MAX < 2 ^ 16 }.

Section init.
Context {R : Type} `{BlkRegs R}.
Implicit Types s : vdisk R.

Lemma bind_vread {A} a (f : Z -> M (phys * vdisk R) A) h p s :
  bind (vdrv (mmio_read a)) f h (p, s) = f (u32 (reg_read (regs s) a)) h (p, s).
Proof. reflexivity. Qed.

Lemma bind_vwrite {A} a v (f : unit -> M (phys * vdisk R) A) h p s :
  bind (vdrv (mmio_write a v)) f h (p, s) = f tt h (p, set_regs (reg_write a (u32 v) (regs s)) s).
Proof. reflexivity. Qed.

Lemma bind_vmem {A B} (m : M phys A) (f : A -> M (phys * vdisk R) B) h p s a p' :
  m h p = Ret a h p' -> bind (vmem m) f h (p, s) = f a h (p', s).
Proof. intros E. exact (bind_Ret _ _ _ _ _ _ _ (zoom_Ret fst (fun q (x : phys * vdisk R) => (q, snd x)) m h (p, s) a h p' E)). Qed.

Lemma bind_vdrv {A B} (m : M (vdisk R) A) (f : A -> M (phys * vdisk R) B) h p s a s' :
  m h s = Ret a h s' -> bind (vdrv m) f h (p, s) = f a h (p, s').
Proof. intros E. exact (bind_Ret _ _ _ _ _ _ _ (zoom_Ret snd (fun v (x : phys * vdisk R) => (fst x, v)) m h (p, s) a h s' E)). Qed.

Lemma zero_pages m a b c x : let m' := memset (memset (memset m a 0 PGSIZE) b 0 PGSIZE) c 0 PGSIZE in
  ((a <= x < a + PGSIZE \/ b <= x < b + PGSIZE \/ c <= x < c + PGSIZE) -> m' x = 0) /\
  ((forall p, p ∈ [a; b; c] -> x < p \/ p + PGSIZE <= x) -> m' x = m x).
Proof.
  intros m'. assert (Hs : forall q m0, q <= x < q + PGSIZE -> memset m0 q 0 PGSIZE x = 0) by (intros q m0; apply memset_in).
  unfold m'. split.
  - intros Hx. destruct (decide (c <= x < c + PGSIZE)); [auto |]. rewrite memset_out by lia.
    destruct (decide (b <= x < b + PGSIZE)); [auto |]. rewrite memset_out by lia. apply Hs. lia.
  - intros Hx. now rewrite !memset_out by (apply Hx; rewrite !elem_of_cons; tauto).
Qed.

Lemma free_all_run h L : forall s, exists s', free_all L h s = Ret tt h s' /\ (forall i, i ∈ L -> free s' i = 1) /\
  (forall i, i ∉ L -> free s' i = free s i) /\
  (avail_idx s', used_next s', used_idx s', regs s') = (avail_idx s, used_next s, used_idx s, regs s).
Proof.
  induction L as [|i L IH]; intros s; cbn [free_all].
  - exists s. split_and!; auto. now intros i Hi%elem_of_nil.
  - rewrite bind_modify. destruct (IH (set_free (upd i 1 (free s)) s)) as (s' & E & H1 & H2 & H3). exists s'. split_and!; auto.
    + intros j [-> | Hj]%elem_of_cons; [| auto]. destruct (decide (i ∈ L)) as [Hi | Hi]; [auto |]. rewrite H2 by exact Hi. apply fset_eq.
    + intros j [Hne Hj]%not_elem_of_cons. rewrite H2 by exact Hj. now apply fset_ne.
Qed.

(** The three pages of the queue. *)
Lemma queue_pages h p a b c l : kmem_inv p (a :: b :: c :: l) -> kmem_lock ∉ h -> exists p1 p2 p3,
  kalloc h p = Ret a h p1 /\ kalloc h p1 = Ret b h p2 /\ kalloc h p2 = Ret c h p3 /\
  kmem_inv p3 l /\ same_except [a; b; c] (mem p) (mem p3) /\ superpages p3 = superpages p /\ nfree p3 = nfree p.
Proof.
  intros Hi Hh. destruct (kalloc_spec a h p _ Hi Hh) as (p1 & E1 & I1 & S1 & _ & A1 & B1).
  destruct (kalloc_spec b h p1 _ I1 Hh) as (p2 & E2 & I2 & S2 & _ & A2 & B2).
  destruct (kalloc_spec c h p2 _ I2 Hh) as (p3 & E3 & I3 & S3 & _ & A3 & B3).
  exists p1, p2, p3. split_and!; auto; try congruence. intros x Hx. rewrite S3, S2, S1; auto; intros q ->%list_elem_of_singleton; apply Hx; rewrite !elem_of_cons; tauto.
Qed.

Lemma queue_setup_run h s d a u : exists s' r, queue_setup d a u h s = Ret tt h s' /\
  (forall i, in_range i -> free s' i = 1) /\ avail_idx s' = 0 /\ used_next s' = 0 /\ used_idx s' = used_idx s /\
  regs s' = reg_write VIRTIO_MMIO_QUEUE_READY 1 r.
Proof.
  unfold queue_setup, mmio_write. rewrite !bind_modify. set (s1 := set_regs _ _).
  destruct (free_all_run h (seqZ 0 NUM) s1) as (s' & E & Hin & _ & Hs). injection Hs as H1 H2 H3 H4. exists s'. eexists. split_and!; [exact E | | | | |].
  - intros i Hi. apply Hin, elem_of_seqZ. unfold in_range in Hi. lia.
  - now rewrite H1.
  - now rewrite H2.
  - now rewrite H3.
  - rewrite H4. reflexivity.
Qed.

(** [virtio_disk_init] on a device that follows the specification and with
    three free pages leaves the driver ready: every descriptor is free, the
    rings are empty and their pages are zeroed, the queue is switched on before
    the driver reports that it is ready, and no other memory changes. *)
Theorem virtio_disk_init_spec h p s a b c l : kmem_inv p (a :: b :: c :: l) -> kmem_lock ∉ h -> used_idx s = 0 ->
  exists p' s' r, virtio_disk_init h (p, s) = Ret tt h (p', s') /\ kmem_inv p' l /\
    (forall x, (a <= x < a + PGSIZE \/ b <= x < b + PGSIZE \/ c <= x < c + PGSIZE) -> mem p' x = 0) /\
    same_except [a; b; c] (mem p) (mem p') /\ (forall f, vinit (VSys s' (Dev f 0 [] []) None [])) /\
    regs s' = reg_write VIRTIO_MMIO_STATUS 0xf (reg_write VIRTIO_MMIO_QUEUE_READY 1 r).
Proof.
  intros Hi Hh Hu. destruct (queue_pages h p a b c l Hi Hh) as (p1 & p2 & p3 & E1 & E2 & E3 & I3 & S3 & _).
  destruct Hi as (_ & Hnd & Hok). rewrite !Forall_cons in Hok. destruct Hok as (Oa & Ob & Oc & Hok).
  pose proof (page_ok_pos a Oa). pose proof (page_ok_pos b Ob). pose proof (page_ok_pos c Oc).
  unfold virtio_disk_init, initlock. rewrite bind_ret, !bind_vread, br_magic, br_version, br_device, br_vendor.
  change (negb (u32 0x74726976 =? 0x74726976) || negb (u32 2 =? 2) || negb (u32 2 =? 2) || negb (u32 0x554d4551 =? 0x554d4551)) with false.
  cbv iota zeta. rewrite !bind_vwrite, bind_vread, !bind_vwrite. cbn [regs set_regs].
  rewrite bind_vread. cbn [regs set_regs]. rewrite br_status by (vm_compute; intuition congruence).
  change (flag _ _) with true. cbn [negb]. rewrite bind_vwrite, bind_vread. cbn [regs set_regs].
  rewrite br_ready by (apply br_write; [| discriminate]; apply br_write; [| discriminate]; apply br_write; [| discriminate];
    apply br_write; [| discriminate]; apply br_write; [| discriminate]; apply br_reset).
  change (negb (u32 0 =? 0)) with false. cbv iota. rewrite bind_vread.
  set (s1 := set_regs _ _). assert (Hu1 : used_idx s1 = 0) by exact Hu. clearbody s1.
  pose proof (br_max (regs s1)) as Hmax. rewrite u32_small, (proj2 (Z.eqb_neq _ 0)), (proj2 (Z.ltb_ge _ NUM)) by (unfold NUM in *; lia).
  rewrite (bind_vmem _ _ _ _ _ _ _ E1), (bind_vmem _ _ _ _ _ _ _ E2), (bind_vmem _ _ _ _ _ _ _ E3).
  rewrite !(proj2 (Z.eqb_neq _ 0)) by lia. cbn [orb].
  assert (Hm : forall q d, mset d 0 PGSIZE h q = Ret tt h (set_mem (fun m => memset m d 0 PGSIZE) q)) by reflexivity.
  rewrite (bind_vmem _ _ _ _ _ _ _ (Hm p3 a)), (bind_vmem _ _ _ _ _ _ _ (Hm _ b)), (bind_vmem _ _ _ _ _ _ _ (Hm _ c)).
  set (p' := set_mem _ _). destruct (queue_setup_run h s1 a b c) as (s2 & r & Eq & Hf & Ha & Hun & Hui & Hr).
  rewrite (bind_vdrv _ _ _ _ _ _ _ Eq). exists p'. eexists. exists r. split_and!; [reflexivity | | | | |].
  - apply (kmem_inv_frame p3); auto. intros q x Hq Hx. apply zero_pages. intros q' Hq'.
    destruct (page_ok_disjoint q q') as [Hd | Hd]; [now apply (proj1 (Forall_forall _ _) Hok) | | | lia | lia].
    + apply (proj1 (Forall_forall page_ok [a; b; c])); [rewrite !Forall_cons; auto using Forall_nil_2 | exact Hq'].
    + intros ->. apply (NoDup_app [a; b; c] l) in Hnd as (_ & Hd & _). now apply (Hd q').
  - intros x Hx. now apply zero_pages.
  - intros x Hx. rewrite <- S3 by exact Hx. now apply zero_pages.
  - intros f. split_and!; auto. cbn. congruence.
  - cbn. now rewrite Hr.
Qed.

End init.

(** ** A device and a run of it

    The registers are the status; the device does exactly what the
    specification allows. *)

#[global] Instance status_mmio : Mmio Z := {|
  reg_read st a :=
    if a =? VIRTIO_MMIO_MAGIC_VALUE then 0x74726976 else if a =? VIRTIO_MMIO_VERSION then 2
    else if a =? VIRTIO_MMIO_DEVICE_ID then 2 else if a =? VIRTIO_MMIO_VENDOR_ID then 0x554d4551
    else if a =? VIRTIO_MMIO_QUEUE_NUM_MAX then 1024 else if a =? VIRTIO_MMIO_STATUS then st else 0;
  reg_write a v st := if a =? VIRTIO_MMIO_STATUS then v else st |}.

#[global] Instance status_regs : BlkRegs Z.
Proof. refine {| queue_idle := fun _ => True |}; try reflexivity; auto. intros r. cbn. unfold NUM. lia. Defined.

Definition demo_drv : vdisk Z :=
  VDisk _ (fun _ => VDesc Null 0 0 0) 0 (fun _ => 0) 0 (fun _ => 0) (fun _ => 1) 0 (fun _ => 0) (fun _ => 0)
    (fun _ => BlkReq 0 0 0) (fun _ => VBuf 3 0 [7]) 0.

Definition demo_sys : vsys := VSys demo_drv (Dev (fun _ => []) 0 [] []) None [].

Lemma demo_vinit : vinit demo_sys.
Proof. split_and!; reflexivity. Qed.

Ltac norm_state :=
  match goal with |- rtc ?T ?x ?y => let x' := eval vm_compute in x in change (rtc T x' y) end.

(** One write of block 3, from the call to its return. *)
Lemma demo_run : exists y, rtc (vstep dev_spec) demo_sys y /\
  vthreads y = [(RwWait 0 true 0, VDone); (IntrBody, VDone)] /\ sect (dev y) 6 ++ sect (dev y) 7 = [7].
Proof.
  eexists. split.
  - eapply rtc_l; [apply (vs_call dev_spec _ _ _ _ 0 true); [intros th Hth; now apply elem_of_nil in Hth | cbn; lia] |]; norm_state.
    eapply rtc_l; [eapply (vs_sleep dev_spec _ _ _ _ 0%nat _ 1 1 [] ch_dev _ _ 1 1); [reflexivity | now right | lia | reflexivity | reflexivity] |]; norm_state.
    eapply rtc_l; [eapply (vs_sleep dev_spec _ _ _ _ 0%nat _ 1 1 [] ch_dev _ _ 1 1); [reflexivity | now left | lia | reflexivity | reflexivity] |]; norm_state.
    eapply rtc_l; [eapply vs_device, dv_take; discriminate |]; norm_state.
    eapply rtc_l; [eapply vs_device, (dv_transfer _ _ [] 0 [] (true, 6, 0, 0)); [reflexivity | vm_compute; reflexivity] |]; norm_state.
    eapply rtc_l; [eapply vs_device, (dv_publish _ _ [] 0 []); vm_compute; reflexivity |]; norm_state.
    eapply rtc_l; [eapply (vs_sleep dev_spec _ _ _ _ 0%nat _ 1 1 [] (ch_buf 0) _ _ 0 0); [reflexivity | now left | lia | reflexivity | reflexivity] |]; norm_state.
    eapply rtc_l; [eapply vs_intr |]; norm_state.
    eapply rtc_l; [eapply (vs_sleep dev_spec _ _ _ _ 1%nat _ 1 1 [] ch_dev _ _ 1 1); [reflexivity | now right | lia | reflexivity | reflexivity] |]; norm_state.
    eapply rtc_l; [eapply (vs_sleep dev_spec _ _ _ _ 1%nat _ 1 1 [] ch_dev _ _ 0 0); [reflexivity | now left | lia | apply (intr_rest_some 0); discriminate | reflexivity] |]; norm_state.
    eapply rtc_l; [eapply (vs_return dev_spec _ _ _ _ 1%nat _ 1 1 [EvWakeup (ch_buf 0)]); [reflexivity | now left | lia | reflexivity] |]; norm_state.
    eapply rtc_l; [eapply (vs_return dev_spec _ _ _ _ 0%nat _ 1 1 (repeat (EvWakeup ch_disk_free) 3)); [reflexivity | now right | lia | reflexivity] |]; norm_state.
    apply rtc_refl.
  - split; reflexivity.
Qed.

(** A write that waits for the device. *)
Lemma demo_wait : exists y, rtc (vstep dev_spec) demo_sys y /\ vthreads y = [(RwWait 0 true 0, VAsleep (ch_buf 0))].
Proof.
  eexists. split.
  - eapply rtc_l; [apply (vs_call dev_spec _ _ _ _ 0 true); [intros th Hth; now apply elem_of_nil in Hth | cbn; lia] |]; norm_state.
    eapply rtc_l; [eapply (vs_sleep dev_spec _ _ _ _ 0%nat _ 1 1 [] ch_dev _ _ 1 1); [reflexivity | now right | lia | reflexivity | reflexivity] |]; norm_state.
    eapply rtc_l; [eapply (vs_sleep dev_spec _ _ _ _ 0%nat _ 1 1 [] ch_dev _ _ 1 1); [reflexivity | now left | lia | reflexivity | reflexivity] |]; norm_state.
    eapply rtc_l; [eapply (vs_sleep dev_spec _ _ _ _ 0%nat _ 1 1 [] (ch_buf 0) _ _ 0 0); [reflexivity | now left | lia | reflexivity | reflexivity] |]; norm_state.
    apply rtc_refl.
  - reflexivity.
Qed.

Lemma virtio_disk_atomic_witness : exists y : vsys (R := Z), rtc atomic_step (abs demo_sys) (abs y) /\
  a_calls (abs y) = [Some (0, true, AReturned); None] /\ a_disk (abs y) 3 = [7].
Proof.
  destruct demo_run as (y & Hr & Hth & Hd). exists y. split_and!.
  - exact (virtio_disk_atomic dev_spec (fun s d s' d' _ Hs => Hs) demo_sys y demo_vinit Hr).
  - unfold abs. cbn [a_calls]. rewrite Hth. reflexivity.
  - exact Hd.
Defined.

(** A read that fails: the handler is at the request with status 1. *)
Lemma demo_error : exists y, rtc (vstep dev_spec_err) demo_sys y /\ vthreads y = [(RwWait 0 false 0, VAsleep (ch_buf 0)); (IntrBody, VReady)].
Proof.
  eexists. split.
  - eapply rtc_l; [apply (vs_call dev_spec_err _ _ _ _ 0 false); [intros th Hth; now apply elem_of_nil in Hth | cbn; lia] |]; norm_state.
    eapply rtc_l; [eapply (vs_sleep dev_spec_err _ _ _ _ 0%nat _ 1 1 [] ch_dev _ _ 1 1); [reflexivity | now right | lia | reflexivity | reflexivity] |]; norm_state.
    eapply rtc_l; [eapply (vs_sleep dev_spec_err _ _ _ _ 0%nat _ 1 1 [] ch_dev _ _ 1 1); [reflexivity | now left | lia | reflexivity | reflexivity] |]; norm_state.
    eapply rtc_l; [eapply vs_device, de_ok, dv_take; discriminate |]; norm_state.
    eapply rtc_l; [eapply vs_device, (de_fail _ _ [] 0 [] (false, 6, 0, 0) 1 [] []); [reflexivity | vm_compute; reflexivity | now left] |]; norm_state.
    eapply rtc_l; [eapply vs_device, de_ok, (dv_publish _ _ [] 0 []); vm_compute; reflexivity |]; norm_state.
    eapply rtc_l; [eapply (vs_sleep dev_spec_err _ _ _ _ 0%nat _ 1 1 [] (ch_buf 0) _ _ 0 0); [reflexivity | now left | lia | reflexivity | reflexivity] |]; norm_state.
    eapply rtc_l; [eapply vs_intr |]; norm_state.
    eapply rtc_l; [eapply (vs_sleep dev_spec_err _ _ _ _ 1%nat _ 1 1 [] ch_dev _ _ 1 1); [reflexivity | now right | lia | reflexivity | reflexivity] |]; norm_state.
    eapply rtc_l; [eapply (vs_sleep dev_spec_err _ _ _ _ 1%nat _ 1 1 [] ch_dev _ _ 0 0); [reflexivity | now left | lia | apply (intr_rest_some 0); discriminate | reflexivity] |]; norm_state.
    apply rtc_refl.
  - reflexivity.
Qed.

Lemma virtio_no_panic_witness : exists y : vsys (R := Z), owner y = Some 1%nat /\ exists tr s',
  vcode 5 5 IntrBody [vdisk_lock] (drv y) = emits tr (Ret tt [] s') \/
  (exists ch f wf, vcode 5 5 IntrBody [vdisk_lock] (drv y) = emits tr (Sleep ch s' (fun s'' => vcode f wf (next_call IntrBody s' ch) [vdisk_lock] s''))) \/
  (vcode 5 5 IntrBody [vdisk_lock] (drv y) = Panic "virtio_disk_intr status" /\ IntrBody = IntrBody /\
   let id := used_ring (drv y) (used_idx (drv y) mod NUM) in in_range id /\ (info_status (drv y) id = 1 \/ info_status (drv y) id = 2)).
Proof.
  destruct demo_error as (y & Hr & Hth). exists y.
  assert (Ht : vthreads y !! 1%nat = Some (IntrBody, VReady)) by (rewrite Hth; reflexivity).
  destruct (virtio_no_panic dev_spec_err (fun s d s' d' _ Hs => Hs) demo_sys y 1%nat IntrBody demo_vinit Hr Ht) as [Hp Ho].
  split; [exact (Ho eq_refl) |]. apply (Hp 5%nat 5%nat). lia.
Defined.

Lemma virtio_no_lost_wakeup_witness : exists y : vsys (R := Z), vthreads y = [(RwWait 0 true 0, VAsleep (ch_buf 0))] /\ outstanding (drv y) (dev y) 0.
Proof.
  destruct demo_wait as (y & Hr & Hth). exists y. split; [exact Hth |].
  assert (Ht : vthreads y !! 0%nat = Some (RwWait 0 true 0, VAsleep (ch_buf 0))) by (rewrite Hth; reflexivity).
  destruct (virtio_no_lost_wakeup dev_spec (fun s d s' d' _ Hs => Hs) demo_sys y 0%nat _ _ demo_vinit Hr Ht)
    as [(b & w & i & E & _ & Ho) | (b & w & sec & t' & th & p & b' & w' & i' & E & _)]; [| discriminate E].
  injection E as <- <- <-. exact Ho.
Defined.

Lemma virtio_disk_init_spec_witness : exists p p' (s' : vdisk Z), virtio_disk_init [] (p, demo_drv) = Ret tt [] (p', s') /\
  (forall f, vinit (VSys s' (Dev f 0 [] []) None [])) /\ regs s' = 0xf.
Proof.
  assert (Hk : kend <= pool_base) by (vm_compute; congruence).
  destruct (kinit_run (fun _ => 0) [] (not_elem_of_nil _) Hk) as (p & _ & Hp & _).
  destruct (rev boot_pages) as [|a [|b [|c l]]] eqn:Er; try (apply (f_equal length) in Er; rewrite length_rev in Er; vm_compute in Er; discriminate).
  destruct (virtio_disk_init_spec [] p demo_drv a b c l Hp (not_elem_of_nil _) eq_refl) as (p' & s' & r & E & _ & _ & _ & Hv & Hr).
  exists p, p', s'. split_and!; [exact E | exact Hv | exact Hr].
Defined.
