(* ===== verification/Bio.v ===== *)
(** * The buffer cache (kernel/bio.c)

    A pointer to a [struct buf] is its index in [bcache.buf]; [HEAD] is the
    address of [bcache.head].  The doubly linked list of buffers, most
    recently used first, is kept by the [prev] and [next] fields as in the
    source.  The disk is an array of blocks: [disk_rw] stands for
    [virtio_disk_rw] of the driver, which returns when the device has
    completed the transfer of the whole block. *)

From S2P Require Import Prelude KMonad Riscv Trace Sleeplock.

Record buf := Buf {
  valid : Z; b_dev : Z; blockno : Z; b_lock : sleeplock; refcnt : Z;
  prev : Z; next : Z; data : block }.

Definition set_valid v b := Buf v (b_dev b) (blockno b) (b_lock b) (refcnt b) (prev b) (next b) (data b).
Definition set_dev v b := Buf (valid b) v (blockno b) (b_lock b) (refcnt b) (prev b) (next b) (data b).
Definition set_blockno v b := Buf (valid b) (b_dev b) v (b_lock b) (refcnt b) (prev b) (next b) (data b).
Definition set_lock v b := Buf (valid b) (b_dev b) (blockno b) v (refcnt b) (prev b) (next b) (data b).
Definition set_refcnt v b := Buf (valid b) (b_dev b) (blockno b) (b_lock b) v (prev b) (next b) (data b).
Definition set_prev v b := Buf (valid b) (b_dev b) (blockno b) (b_lock b) (refcnt b) v (next b) (data b).
Definition set_next v b := Buf (valid b) (b_dev b) (blockno b) (b_lock b) (refcnt b) (prev b) v (data b).
Definition set_data v b := Buf (valid b) (b_dev b) (blockno b) (b_lock b) (refcnt b) (prev b) (next b) v.

Record bcache := BCache { node : Z -> buf; disk : disk_t; bc_pid : Z }.

Definition HEAD : Z := NBUF.

Definition modnode (b : Z) (f : buf -> buf) (c : bcache) : bcache :=
  BCache (fun x => if x =? b then f (node c b) else node c x) (disk c) (bc_pid c).

Definition getb (b : Z) : M bcache buf := gets (fun c => node c b).
Definition modb (b : Z) (f : buf -> buf) : M bcache unit := modify (modnode b f).

(** The sleep lock of a buffer has the buffer's index as its address. *)
#[export] Instance bcache_sleeplocks : HasSleeplocks bcache := {|
  sl_get b c := b_lock (node c b);
  sl_put b l c := modnode b (set_lock l) c;
  mypid := bc_pid;
|}.

(** [virtio_disk_rw(b, write)] *)
Definition disk_rw (b : Z) (write : bool) : M bcache unit :=
  x <- getb b;;
  if write then
    modify (fun c => BCache (node c) (dwrite (disk c) (blockno x) (data x)) (bc_pid c));;
    emit (EvDiskWrite (blockno x) (data x))
  else
    v <- gets (fun c => disk c (blockno x));;
    modb b (set_data v).

(** [b->next = head.next; b->prev = &head; head.next->prev = b;
    head.next = b] *)
Definition push_front (b : Z) : M bcache unit :=
  hd <- getb HEAD;;
  modb b (set_next (next hd));;
  modb b (set_prev HEAD);;
  hd <- getb HEAD;;
  modb (next hd) (set_prev b);;
  modb HEAD (set_next b).

Fixpoint binit_loop (n : nat) (b : Z) : M bcache unit :=
  match n with
  | O => ret tt
  | S n' =>
      hd <- getb HEAD;;
      modb b (set_next (next hd));;
      modb b (set_prev HEAD);;
      initsleeplock b;;
      hd <- getb HEAD;;
      modb (next hd) (set_prev b);;
      modb HEAD (set_next b);;
      binit_loop n' (b + 1)
  end.

Definition binit : M bcache unit :=
  initlock bcache_lock;;
  modb HEAD (set_prev HEAD);;
  modb HEAD (set_next HEAD);;
  binit_loop (Z.to_nat NBUF) 0.

(** The two scans of [bget].  The list has [NBUF] buffers. *)
Fixpoint bget_cached (fuel : nat) (dev bno b : Z) : M bcache (option Z) :=
  if b =? HEAD then ret None
  else
    match fuel with
    | O => out_of_fuel
    | S fuel' =>
        x <- getb b;;
        if (b_dev x =? dev) && (blockno x =? bno) then ret (Some b)
        else bget_cached fuel' dev bno (next x)
    end.

Fixpoint bget_unused (fuel : nat) (b : Z) : M bcache (option Z) :=
  if b =? HEAD then ret None
  else
    match fuel with
    | O => out_of_fuel
    | S fuel' =>
        x <- getb b;;
        if refcnt x =? 0 then ret (Some b)
        else bget_unused fuel' (prev x)
    end.

Definition bget (dev bno : Z) : M bcache Z :=
  acquire bcache_lock;;
  hd <- getb HEAD;;
  r <- bget_cached (Z.to_nat NBUF) dev bno (next hd);;
  match r with
  | Some b =>
      modb b (fun x => set_refcnt (u32 (refcnt x + 1)) x);;
      release bcache_lock;;
      acquiresleep b;;
      ret b
  | None =>
      hd <- getb HEAD;;
      r <- bget_unused (Z.to_nat NBUF) (prev hd);;
      match r with
      | Some b =>
          modb b (set_dev dev);;
          modb b (set_blockno bno);;
          modb b (set_valid 0);;
          modb b (set_refcnt 1);;
          release bcache_lock;;
          acquiresleep b;;
          ret b
      | None => panic "bget: no buffers"
      end
  end.

Definition bread (dev bno : Z) : M bcache Z :=
  b <- bget dev bno;;
  x <- getb b;;
  (if valid x =? 0 then
     disk_rw b false;;
     modb b (set_valid 1)
   else ret tt);;
  ret b.

Definition bwrite (b : Z) : M bcache unit :=
  r <- holdingsleep b;;
  if negb r then panic "bwrite"
  else disk_rw b true.

Definition brelse (b : Z) : M bcache unit :=
  r <- holdingsleep b;;
  if negb r then panic "brelse"
  else
    releasesleep b;;
    acquire bcache_lock;;
    modb b (fun x => set_refcnt (u32 (refcnt x - 1)) x);;
    x <- getb b;;
    (if refcnt x =? 0 then
       modb (next x) (set_prev (prev x));;
       x <- getb b;;
       modb (prev x) (set_next (next x));;
       push_front b
     else ret tt);;
    release bcache_lock.

Definition bpin (b : Z) : M bcache unit :=
  acquire bcache_lock;;
  modb b (fun x => set_refcnt (u32 (refcnt x + 1)) x);;
  release bcache_lock.

Definition bunpin (b : Z) : M bcache unit :=
  acquire bcache_lock;;
  modb b (fun x => set_refcnt (u32 (refcnt x - 1)) x);;
  release bcache_lock.

(** ** The linked list of buffers

    [chain nx pv x l y]: following [nx] from [x] visits [l] and arrives at
    [y], and [pv] leads back.  The cache's list is a chain from the head to
    itself through every buffer. *)

Fixpoint chain (nx pv : Z -> Z) (x : Z) (l : list Z) (y : Z) : Prop :=
  match l with
  | [] => nx x = y /\ pv y = x
  | a :: l' => nx x = a /\ pv a = x /\ chain nx pv a l' y
  end.

Definition fupd (f : Z -> Z) (a v : Z) : Z -> Z := fun x => if x =? a then v else f x.

Lemma fupd_eq f a v : fupd f a v a = v.
Proof. unfold fupd. now rewrite Z.eqb_refl. Qed.

Lemma fupd_ne f a v x : x <> a -> fupd f a v x = f x.
Proof. unfold fupd. now destruct (Z.eqb_spec x a). Qed.

Section chains.
Implicit Types nx pv : Z -> Z.

Lemma chain_ext nx pv nx' pv' x l y :
  chain nx pv x l y ->
  (forall z, z ∈ x :: l -> nx' z = nx z) -> (forall z, z ∈ l ++ [y] -> pv' z = pv z) ->
  chain nx' pv' x l y.
Proof.
  revert x. induction l as [|a l IH]; cbn; intros x Hc Hn Hp.
  - rewrite Hn, Hp by constructor. auto.
  - destruct Hc as (H1 & H2 & H3). rewrite Hn, Hp by constructor. split_and!; auto.
    apply IH; auto; intros z Hz; [apply Hn|apply Hp]; now right.
Qed.

Lemma chain_app nx pv x l1 a l2 y :
  chain nx pv x (l1 ++ a :: l2) y <-> chain nx pv x l1 a /\ chain nx pv a l2 y.
Proof.
  revert x. induction l1 as [|b l1 IH]; cbn; intros x; [tauto|]. rewrite IH. tauto.
Qed.

Lemma chain_prev nx pv x l1 b l2 y :
  chain nx pv x (l1 ++ b :: l2) y -> pv b ∈ x :: l1.
Proof.
  revert x. induction l1 as [|a l1 IH]; cbn; intros x Hc.
  - destruct Hc as (_ & -> & _). constructor.
  - right. now apply IH.
Qed.

Lemma chain_next nx pv x l1 b l2 y :
  chain nx pv x (l1 ++ b :: l2) y -> nx b ∈ l2 ++ [y].
Proof.
  rewrite chain_app. intros [_ Hc]. destruct l2; cbn in *; destruct Hc as [-> _]; constructor.
Qed.

(** [b->next->prev = b->prev; b->prev->next = b->next] *)
Lemma chain_unlink nx pv x l1 b l2 y :
  chain nx pv x (l1 ++ b :: l2) y -> NoDup (l1 ++ b :: l2) ->
  x ∉ l1 ++ b :: l2 -> y ∉ l1 ++ b :: l2 ->
  chain (fupd nx (pv b) (nx b)) (fupd pv (nx b) (pv b)) x (l1 ++ l2) y.
Proof.
  revert x. induction l1 as [|a l1 IH]; intros x Hc Hnd Hx Hy.
  - cbn in Hc. destruct Hc as (H1 & H2 & H3). rewrite H2. cbn [app] in *.
    apply NoDup_cons in Hnd as [Hb Hnd].
    destruct l2 as [|n l2]; cbn in H3 |- *; destruct H3 as (E & H3); rewrite E.
    { now rewrite !fupd_eq. }
    destruct H3 as [H3 H4]. rewrite !fupd_eq. split_and!; auto.
    apply NoDup_cons in Hnd as [Hn Hnd]. rewrite !not_elem_of_cons in *.
    apply (chain_ext nx pv); auto; intros z Hz; apply fupd_ne.
    + rewrite elem_of_cons in Hz. intros ->. destruct Hz; tauto.
    + rewrite elem_of_app, elem_of_cons, elem_of_nil in Hz. intros ->. destruct Hz as [?|[?|[]]]; subst; tauto.
  - pose proof (chain_prev nx pv a l1 b l2 y) as Hp.
    pose proof (chain_next nx pv a l1 b l2 y) as Hn.
    cbn in Hc |- *. destruct Hc as (H1 & H2 & H3). specialize (Hp H3). specialize (Hn H3).
    cbn in Hnd. apply NoDup_cons in Hnd as [Ha Hnd]. cbn in Hx, Hy. rewrite !not_elem_of_cons in *.
    assert (Hl : forall z, z ∈ l1 \/ z ∈ l2 -> z ∈ l1 ++ b :: l2).
    { intros z Hz. rewrite elem_of_app, elem_of_cons. tauto. }
    rewrite elem_of_cons in Hp. rewrite elem_of_app, elem_of_cons, elem_of_nil in Hn.
    rewrite !fupd_ne; [split_and!; auto|..].
    + apply IH; tauto.
    + intros E. apply Ha, Hl. rewrite E. destruct Hn as [?|[Hn|[]]]; [tauto|].
      exfalso. destruct Hy as [Hy _]. congruence.
    + intros E. destruct Hp as [Hp|Hp]; [rewrite Hp in E; tauto|].
      apply Hx, Hl. rewrite E. tauto.
Qed.

(** [b->next = x->next; b->prev = x; x->next->prev = b; x->next = b] *)
Lemma chain_push nx pv x b l y :
  chain nx pv x l y -> NoDup (b :: l) -> x ∉ b :: l -> y ∉ b :: l ->
  chain (fupd (fupd nx b (nx x)) x b) (fupd (fupd pv b x) (nx x) b) x (b :: l) y.
Proof.
  intros Hc Hnd Hx Hy. apply NoDup_cons in Hnd as [Hb Hnd].
  rewrite !not_elem_of_cons in *. cbn.
  assert (Hxn : nx x = b -> False).
  { intros E. destruct l; cbn in Hc; destruct Hc as [E' _]; rewrite E in E'; subst.
    - tauto. - apply Hb. constructor. }
  rewrite fupd_eq, (fupd_ne _ (nx x)), fupd_eq by (intros E; apply Hxn; congruence).
  split_and!; auto.
  destruct l as [|a l]; cbn in Hc |- *.
  - destruct Hc as [-> Hc]. rewrite fupd_ne, !fupd_eq by (destruct Hx; congruence). auto.
  - destruct Hc as (-> & H2 & H3). rewrite not_elem_of_cons in *.
    rewrite fupd_ne, !fupd_eq by (destruct Hx; congruence). split_and!; auto.
    apply NoDup_cons in Hnd as [Ha Hnd].
    apply (chain_ext nx pv); auto; intros z Hz.
    + rewrite !fupd_ne; auto; rewrite elem_of_cons in Hz; intros ->; destruct Hz; tauto.
    + rewrite elem_of_app, elem_of_cons, elem_of_nil in Hz.
      rewrite !fupd_ne; auto; intros ->; destruct Hz as [?|[?|[]]]; try tauto; subst; tauto.
Qed.

End chains.
