(* ===== verification/BioSpec.v ===== *)
(** * The buffer cache implements the block-cache interface

    [cache_rel] relates the state of the cache to the disk and the map of the
    blocks in use.  Every operation of kernel/bio.c, run by a thread that does
    not have to wait for a buffer, is shown to implement its law; the instance
    [bio_laws] at the end packages them for the layers above. *)

From Stdlib Require Import FunctionalExtensionality.
From S2P Require Import Prelude KMonad Riscv Trace Sleeplock Bio.

Abbreviation D := ROOTDEV.

Definition nexts (c : bcache) (x : Z) : Z := next (node c x).
Definition prevs (c : bcache) (x : Z) : Z := prev (node c x).

Definition ent_of (i : Z) (x : buf) : entry :=
  Ent i (data x) (refcnt x) (if locked (b_lock x) =? 0 then None else Some (lk_pid (b_lock x))).

(** A buffer: unused ones are unlocked, and hold what is on the disk. *)
Record buf_ok (d : disk_t) (x : buf) : Prop := {
  bo_len : Z.of_nat (length (data x)) = BSIZE;
  bo_ref : 0 <= refcnt x < 2 ^ 32;
  bo_used : refcnt x <> 0 -> b_dev x = D;
  bo_free : refcnt x = 0 -> locked (b_lock x) = 0;
  bo_valid : b_dev x = D -> valid x <> 0;
  bo_clean : b_dev x = D -> refcnt x = 0 -> data x = d (blockno x);
}.

Definition is_buf (i : Z) : Prop := 0 <= i < NBUF.

Record cache_rel (c : bcache) (d : disk_t) (U : blocks_in_use) : Prop := {
  cr_disk : disk c = d;
  cr_blocks : forall b, Z.of_nat (length (d b)) = BSIZE;
  cr_ring : exists l, chain (nexts c) (prevs c) HEAD l HEAD /\ l ≡ₚ seqZ 0 NBUF;
  cr_buf : forall i, is_buf i -> buf_ok d (node c i);
  cr_unique : forall i j, is_buf i -> is_buf j -> b_dev (node c i) = D -> b_dev (node c j) = D ->
    blockno (node c i) = blockno (node c j) -> i = j;
  cr_used : forall b e, U !! b = Some e <->
    exists i, is_buf i /\ refcnt (node c i) <> 0 /\ blockno (node c i) = b /\ e = ent_of i (node c i);
}.

(** ** Reading and updating nodes *)

Lemma node_eq b f c : node (modnode b f c) b = f (node c b).
Proof. cbn. now rewrite Z.eqb_refl. Qed.

Lemma node_ne b f c x : x <> b -> node (modnode b f c) x = node c x.
Proof. intros Hx. cbn. now destruct (Z.eqb_spec x b). Qed.

Lemma modnode_modnode b f g c : modnode b f (modnode b g c) = modnode b (fun x => f (g x)) c.
Proof.
  unfold modnode. cbn. f_equal. extensionality x. rewrite Z.eqb_refl. now destruct (x =? b).
Qed.

Lemma ring_facts l : l ≡ₚ seqZ 0 NBUF ->
  NoDup l /\ (HEAD ∉ l) /\ length l = Z.to_nat NBUF /\ forall i, i ∈ l <-> is_buf i.
Proof.
  intros Hl. assert (Hi : forall i, i ∈ l <-> is_buf i).
  { intros i. rewrite Hl, elem_of_seqZ. unfold is_buf. lia. }
  split_and!; auto.
  - rewrite Hl. apply NoDup_seqZ.
  - rewrite Hi. unfold is_buf, HEAD. lia.
  - now rewrite Hl, length_seqZ.
Qed.

Lemma chain_links c c' l :
  chain (nexts c) (prevs c) HEAD l HEAD ->
  (forall x, next (node c' x) = next (node c x) /\ prev (node c' x) = prev (node c x)) ->
  chain (nexts c') (prevs c') HEAD l HEAD.
Proof. intros Hc E. apply (chain_ext _ _ _ _ _ _ _ Hc); intros z _; apply E. Qed.

Lemma rel_dev c d U i : cache_rel c d U -> is_buf i -> refcnt (node c i) <> 0 -> b_dev (node c i) = D.
Proof. intros Hrel Hi. apply (bo_used d), (cr_buf _ _ _ Hrel i Hi). Qed.

(** ** Updating one buffer *)

Section update.
Variables (c : bcache) (d : disk_t) (U : blocks_in_use) (p : Z) (f : buf -> buf).
Hypothesis Hrel : cache_rel c d U.
Hypothesis Hp : is_buf p.
Hypothesis Hlinks : next (f (node c p)) = next (node c p) /\ prev (f (node c p)) = prev (node c p).
Hypothesis Hok : buf_ok d (f (node c p)).
Hypothesis Huniq : forall i, is_buf i -> i <> p -> b_dev (node c i) = D ->
  b_dev (f (node c p)) = D -> blockno (node c i) <> blockno (f (node c p)).

Let Huse (U' : blocks_in_use) : Prop := forall b e, U' !! b = Some e <->
    exists i, is_buf i /\ refcnt (node (modnode p f c) i) <> 0 /\
      blockno (node (modnode p f c) i) = b /\ e = ent_of i (node (modnode p f c) i).

Lemma rel_modnode U' : Huse U' -> cache_rel (modnode p f c) d U'.
Proof.
  intros HU'. destruct Hrel as [Hd Hb (l & Hc & Hl) Hbuf Hun Hus]. split; auto.
  - exists l. split; auto. apply (chain_links c); auto. intros x.
    destruct (Z.eq_dec x p) as [-> | Hx]; [now rewrite node_eq | now rewrite node_ne].
  - intros i Hi. destruct (Z.eq_dec i p) as [-> | Hx]; [now rewrite node_eq|].
    rewrite node_ne by auto. auto.
  - intros i j Hi Hj.
    destruct (Z.eq_dec i p) as [-> | Hx], (Z.eq_dec j p) as [-> | Hy];
      rewrite ?node_eq, ?node_ne by auto; auto; intros H1 H2 H3; exfalso.
    + now apply (Huniq j). + now apply (Huniq i).
Qed.

Lemma used_other b e : b <> blockno (node c p) \/ refcnt (node c p) = 0 ->
  b <> blockno (f (node c p)) \/ refcnt (f (node c p)) = 0 ->
  U !! b = Some e <->
    exists i, is_buf i /\ refcnt (node (modnode p f c) i) <> 0 /\
      blockno (node (modnode p f c) i) = b /\ e = ent_of i (node (modnode p f c) i).
Proof.
  intros H1 H2. rewrite (cr_used _ _ _ Hrel). split; intros (i & Hi & Hr & Hn & He);
    exists i; (destruct (Z.eq_dec i p) as [-> | Hx];
      [exfalso; rewrite ?node_eq in *; subst b; tauto | rewrite ?node_ne in * by auto; auto]).
Qed.

Lemma rel_use : refcnt (f (node c p)) <> 0 ->
  (refcnt (node c p) <> 0 -> blockno (f (node c p)) = blockno (node c p)) ->
  cache_rel (modnode p f c) d (<[blockno (f (node c p)) := ent_of p (f (node c p))]> U).
Proof.
  intros Hr Hn. apply rel_modnode. intros b e.
  destruct (Z.eq_dec b (blockno (f (node c p)))) as [-> | Hb].
  - rewrite lookup_insert_eq. split.
    + intros [= <-]. exists p. rewrite node_eq. auto.
    + intros (i & Hi & Hri & Hni & ->). destruct (Z.eq_dec i p) as [-> | Hx].
      * now rewrite node_eq.
      * rewrite node_ne in * by auto. exfalso. apply (Huniq i); auto.
        { eapply rel_dev; eauto. } { now apply (bo_used _ _ Hok). }
  - rewrite lookup_insert_ne by auto. apply used_other; [|tauto].
    destruct (Z.eq_dec (refcnt (node c p)) 0); [tauto|]. left. rewrite <- Hn; auto.
Qed.

Lemma rel_drop : refcnt (node c p) <> 0 -> refcnt (f (node c p)) = 0 ->
  cache_rel (modnode p f c) d (delete (blockno (node c p)) U).
Proof.
  intros Hr Hf. apply rel_modnode. intros b e.
  destruct (Z.eq_dec b (blockno (node c p))) as [-> | Hb].
  - rewrite lookup_delete_eq. split; [discriminate|].
    intros (i & Hi & Hri & Hni & ->). exfalso. destruct (Z.eq_dec i p) as [-> | Hx].
    + rewrite node_eq in Hri. auto.
    + rewrite node_ne in * by auto. apply Hx.
      apply (cr_unique _ _ _ Hrel); auto; eapply rel_dev; eauto.
  - rewrite lookup_delete_ne by auto. apply used_other; tauto.
Qed.

End update.

(** ** The scans of [bget] *)

Lemma bget_cached_run c dev bno h l : forall x fuel,
  chain (nexts c) (prevs c) x l HEAD -> HEAD ∉ l -> (length l <= fuel)%nat ->
  bget_cached fuel dev bno (nexts c x) h c =
  Ret (find (fun i => (b_dev (node c i) =? dev) && (blockno (node c i) =? bno)) l) h c.
Proof.
  induction l as [|a l IH]; cbn [chain find length]; intros x fuel Hc Hh Hf.
  - destruct Hc as [-> _]. destruct fuel; cbn; now rewrite Z.eqb_refl.
  - destruct Hc as (-> & _ & Hc). apply not_elem_of_cons in Hh as [Ha Hh].
    destruct fuel as [|fuel]; [lia|]. cbn [bget_cached].
    destruct (Z.eqb_spec a HEAD); [congruence|]. unfold getb. krun.
    destruct (_ && _); [reflexivity|]. apply IH; auto; lia.
Qed.

Lemma bget_unused_run c h : forall l y fuel,
  chain (nexts c) (prevs c) HEAD l y -> HEAD ∉ l -> (length l <= fuel)%nat ->
  bget_unused fuel (prevs c y) h c =
  Ret (find (fun i => refcnt (node c i) =? 0) (rev l)) h c.
Proof.
  induction l as [|a l IH] using rev_ind; intros y fuel Hc Hh Hf.
  - destruct Hc as [_ ->]. destruct fuel; cbn; now rewrite Z.eqb_refl.
  - apply chain_app in Hc as [Hc (_ & Hp)]. rewrite rev_app_distr. cbn [rev app find].
    rewrite Hp. rewrite length_app in Hf. cbn in Hf.
    rewrite elem_of_app, elem_of_cons in Hh.
    destruct fuel as [|fuel]; [lia|]. cbn [bget_unused].
    destruct (Z.eqb_spec a HEAD); [exfalso; apply Hh; auto|]. unfold getb. krun.
    destruct (_ =? _); [reflexivity|]. apply IH; [auto|tauto|lia].
Qed.

Section ops.
Variables (c : bcache) (d : disk_t) (U : blocks_in_use) (h : locks).
Hypothesis Hrel : cache_rel c d U.
Hypothesis Hh : cache_locks_free h.

Lemma cached_scan b :
  exists r, bget_cached (Z.to_nat NBUF) D b (next (node c HEAD)) (bcache_lock :: h) c
            = Ret r (bcache_lock :: h) c /\
  match r with
  | Some p => is_buf p /\ b_dev (node c p) = D /\ blockno (node c p) = b
  | None => forall i, is_buf i -> b_dev (node c i) = D -> blockno (node c i) <> b
  end.
Proof.
  destruct (cr_ring _ _ _ Hrel) as (l & Hc & Hl). destruct (ring_facts l Hl) as (Hnd & Hhd & Hlen & Hi).
  eexists. split.
  - apply (bget_cached_run c D b _ l HEAD); auto. rewrite Hlen. lia.
  - destruct (find _ l) as [p|] eqn:E.
    + apply find_some in E as [E1 E2]. apply list_elem_of_In, Hi in E1. zb. auto.
    + intros i Hib Hd Hb. apply Hi, list_elem_of_In in Hib.
      apply (find_none _ _ E i) in Hib. rewrite Hd, Hb, !Z.eqb_refl in Hib. discriminate.
Qed.

(** When fewer than [NBUF] blocks are in use there is a buffer to recycle. *)
Lemma unused_exists : Z.of_nat (size U) < NBUF -> exists i, is_buf i /\ refcnt (node c i) = 0.
Proof.
  intros Hs.
  destruct (decide (Forall (fun i => refcnt (node c i) <> 0) (seqZ 0 NBUF))) as [Hall|Hex].
  - exfalso. rewrite Forall_forall in Hall.
    assert (Hn : NoDup (map (fun i => blockno (node c i)) (seqZ 0 NBUF))).
    { apply NoDup_fmap_2_strong; [|apply NoDup_seqZ]. intros i j Hi Hj E.
      assert (is_buf i /\ is_buf j) as [? ?] by (rewrite elem_of_seqZ in Hi, Hj; unfold is_buf; lia).
      apply (cr_unique _ _ _ Hrel); auto; eapply rel_dev; eauto. }
    assert (Hsub : list_to_set (map (fun i => blockno (node c i)) (seqZ 0 NBUF)) ⊆ (dom U : gset Z)).
    { intros b. rewrite elem_of_list_to_set, list_elem_of_fmap. intros (i & -> & Hi).
      apply elem_of_dom. eexists. apply (cr_used _ _ _ Hrel). exists i.
      specialize (Hall i Hi). rewrite elem_of_seqZ in Hi. split_and!; auto. }
    apply subseteq_size in Hsub. rewrite size_dom, size_list_to_set in Hsub by auto.
    rewrite length_map, length_seqZ in Hsub. lia.
  - apply not_Forall_Exists in Hex; [|apply _]. apply Exists_exists in Hex as (i & Hi & Hr).
    rewrite elem_of_seqZ in Hi. exists i. unfold is_buf. split; [lia|].
    destruct (Z.eq_dec (refcnt (node c i)) 0); [auto|]. now destruct Hr.
Qed.

Lemma unused_scan : Z.of_nat (size U) < NBUF ->
  exists p, bget_unused (Z.to_nat NBUF) (prev (node c HEAD)) (bcache_lock :: h) c
            = Ret (Some p) (bcache_lock :: h) c /\ is_buf p /\ refcnt (node c p) = 0.
Proof.
  intros Hs. destruct (cr_ring _ _ _ Hrel) as (l & Hc & Hl).
  destruct (ring_facts l Hl) as (Hnd & Hhd & Hlen & Hi).
  pose proof (bget_unused_run c (bcache_lock :: h) l HEAD (Z.to_nat NBUF) Hc Hhd ltac:(lia)) as E.
  destruct (find _ (rev l)) as [p|] eqn:F.
  - exists p. split; auto. apply find_some in F as [F1 F2].
    apply in_rev, list_elem_of_In, Hi in F1. zb. auto.
  - exfalso. destruct (unused_exists Hs) as (i & Hib & Hr).
    apply Hi, list_elem_of_In, in_rev in Hib.
    apply (find_none _ _ F i) in Hib. rewrite Hr in Hib. discriminate.
Qed.

(** A hit: one more reference and the lock. *)
Lemma bread_hit b p :
  is_buf p -> b_dev (node c p) = D -> blockno (node c p) = b ->
  locked (b_lock (node c p)) = 0 ->
  bget_cached (Z.to_nat NBUF) D b (next (node c HEAD)) (bcache_lock :: h) c
    = Ret (Some p) (bcache_lock :: h) c ->
  bread D b h c = Ret p h (modnode p (fun x =>
    set_lock (SLock 1 (bc_pid c)) (set_refcnt (u32 (refcnt x + 1)) x)) c).
Proof.
  intros Hp Hd Hb Hl Hscan. destruct Hh as [Hb0 Hs0].
  unfold bread, bget, getb, modb. krun. cbv iota. krun.
  erewrite bind_Ret by (apply acquiresleep_free; [apply Hs0 | cbn; rewrite !Z.eqb_refl; exact Hl]).
  cbn [sl_put bcache_sleeplocks mypid]. krun.
  rewrite modnode_modnode, node_eq. cbn [set_lock set_refcnt valid].
  pose proof (bo_valid _ _ (cr_buf _ _ _ Hrel p Hp) Hd) as Hv. apply Z.eqb_neq in Hv.
  rewrite Hv. reflexivity.
Qed.

(** A miss: an unused buffer is recycled and filled from the disk. *)
Lemma bread_miss b p :
  is_buf p -> refcnt (node c p) = 0 ->
  bget_cached (Z.to_nat NBUF) D b (next (node c HEAD)) (bcache_lock :: h) c
    = Ret None (bcache_lock :: h) c ->
  bget_unused (Z.to_nat NBUF) (prev (node c HEAD)) (bcache_lock :: h) c
    = Ret (Some p) (bcache_lock :: h) c ->
  bread D b h c = Ret p h (modnode p (fun x =>
    Buf 1 D b (SLock 1 (bc_pid c)) 1 (prev x) (next x) (d b)) c).
Proof.
  intros Hp Hr Hscan Hscan'. destruct Hh as [Hb0 Hs0].
  pose proof (bo_free _ _ (cr_buf _ _ _ Hrel p Hp) Hr) as Hl.
  unfold bread, bget, getb, modb, disk_rw. krun. cbv iota. krun. cbv iota. krun.
  erewrite bind_Ret by (apply acquiresleep_free; [apply Hs0 | cbn; rewrite !Z.eqb_refl; exact Hl]).
  cbn [sl_put bcache_sleeplocks mypid]. unfold getb, modb. krun.
  rewrite !modnode_modnode, !node_eq. cbn [set_lock set_refcnt set_valid set_dev set_blockno valid].
  rewrite Z.eqb_refl. krun. rewrite !modnode_modnode, !node_eq. cbn. rewrite (cr_disk _ _ _ Hrel).
  reflexivity.
Qed.

End ops.

(** ** The laws *)

Section laws.
Variables (c : bcache) (d : disk_t) (U : blocks_in_use).
Hypothesis Hrel : cache_rel c d U.

Lemma used_entry b e : U !! b = Some e ->
  exists i, is_buf i /\ refcnt (node c i) <> 0 /\ blockno (node c i) = b /\
    e = ent_of i (node c i) /\ b_dev (node c i) = D.
Proof.
  intros E. apply (cr_used _ _ _ Hrel) in E as (i & Hi & Hr & Hb & ->). exists i.
  split_and!; auto. eapply rel_dev; eauto.
Qed.

Lemma unused_entry b i : U !! b = None -> is_buf i -> blockno (node c i) = b -> refcnt (node c i) = 0.
Proof.
  intros E Hi Hb. destruct (Z.eq_dec (refcnt (node c i)) 0) as [|Hr]; auto.
  exfalso. assert (H : U !! b = Some (ent_of i (node c i))) by (apply (cr_used _ _ _ Hrel); eauto 10).
  congruence.
Qed.

Lemma same_buf i j : is_buf i -> is_buf j -> j <> i -> b_dev (node c i) = D ->
  b_dev (node c j) = D -> blockno (node c j) <> blockno (node c i).
Proof. intros Hi Hj Hne Hd Hd' E. apply Hne. now apply (cr_unique _ _ _ Hrel). Qed.

Lemma bio_blocks b : Z.of_nat (length (contents d U b)) = BSIZE.
Proof.
  unfold contents. destruct (U !! b) as [e|] eqn:E; [|apply (cr_blocks _ _ _ Hrel)].
  apply used_entry in E as (i & Hi & _ & _ & -> & _). apply (bo_len _ _ (cr_buf _ _ _ Hrel i Hi)).
Qed.

Lemma hit_rel b p h : is_buf p -> b_dev (node c p) = D -> blockno (node c p) = b ->
  match U !! b with
  | Some e => e_holder e = None /\ e_ref e + 1 < 2 ^ 32
  | None => Z.of_nat (size U) < NBUF
  end ->
  bget_cached (Z.to_nat NBUF) D b (next (node c HEAD)) (bcache_lock :: h) c
    = Ret (Some p) (bcache_lock :: h) c ->
  cache_locks_free h ->
  exists c', bread D b h c = Ret p h c' /\ bc_pid c' = bc_pid c /\
    (forall e, U !! b = Some e -> p = e_ptr e) /\
    cache_rel c' d (<[b := entry_read d U b p (bc_pid c)]> U).
Proof.
  intros Hp Hd Hb Hfree Hscan Hh. pose proof (cr_buf _ _ _ Hrel p Hp) as Hok.
  assert (Hent : forall e, U !! b = Some e -> e = ent_of p (node c p) /\ refcnt (node c p) <> 0).
  { intros e E. apply used_entry in E as (i & Hi & Hr & Hib & -> & Hid).
    assert (i = p) as -> by (apply (cr_unique _ _ _ Hrel); congruence). auto. }
  assert (locked (b_lock (node c p)) = 0 /\ refcnt (node c p) + 1 < 2 ^ 32 /\
     entry_read d U b p (bc_pid c) = Ent p (data (node c p)) (refcnt (node c p) + 1) (Some (bc_pid c)))
    as (Hl & Href & Hent').
  { unfold entry_read, contents. destruct (U !! b) as [e|] eqn:E.
    - destruct (Hent e eq_refl) as [-> Hr]. cbn in Hfree. destruct Hfree as [Hf ?].
      destruct (Z.eqb_spec (locked (b_lock (node c p))) 0); [auto | discriminate].
    - pose proof (unused_entry b p E Hp Hb) as Hr. rewrite Hr. split_and!; [|lia|].
      + now apply (bo_free _ _ Hok). + rewrite (bo_clean _ _ Hok), Hb by auto. auto. }
  eexists. split; [apply (bread_hit c d U); eauto|]. split_and!; [reflexivity| |].
  - intros e E. destruct (Hent e E) as [-> _]. reflexivity.
  - rewrite Hent', <- Hb. set (f := fun x => _).
    replace (Ent _ _ _ _) with (ent_of p (f (node c p)))
      by (subst f; unfold ent_of; cbn; rewrite u32_small by (destruct Hok; lia); reflexivity).
    change (blockno (node c p)) with (blockno (f (node c p))).
    pose proof (bo_ref _ _ Hok) as Hbr.
    assert (Hrf : refcnt (f (node c p)) = refcnt (node c p) + 1) by (subst f; cbn; apply u32_small; lia).
    apply rel_use; auto; try (rewrite Hrf; lia).
    + destruct Hok. split; rewrite ?Hrf; cbn; auto; try lia.
    + intros i Hi Hne Hid _. subst f. cbn. now apply same_buf.
Qed.

Lemma bio_read b h : cache_locks_free h -> 0 <= b < 2 ^ 32 ->
  match U !! b with
  | Some e => e_holder e = None /\ e_ref e + 1 < 2 ^ 32
  | None => Z.of_nat (size U) < NBUF
  end ->
  exists p c', bread D b h c = Ret p h c' /\ bc_pid c' = bc_pid c /\
    (forall e, U !! b = Some e -> p = e_ptr e) /\
    cache_rel c' d (<[b := entry_read d U b p (bc_pid c)]> U).
Proof.
  intros Hh Hb Hfree. destruct (cached_scan c d U h Hrel b) as ([p|] & Hscan & Hr).
  { destruct Hr as (Hp & Hd & Hbn). exists p. now apply hit_rel. }
  destruct (U !! b) as [e|] eqn:E.
  { exfalso. apply used_entry in E as (i & Hi & _ & Hbi & _ & Hid). now apply (Hr i). }
  destruct (unused_scan c d U h Hrel Hfree) as (p & Hscan' & Hp & Hrp).
  exists p. eexists. split; [apply (bread_miss c d U); eauto|]. split_and!; [reflexivity|discriminate|].
  unfold entry_read, contents. rewrite E. set (f := fun x => _).
  apply (rel_use c d U p f); auto; cbn; try tauto; try lia.
  split; cbn; auto; try lia. apply (cr_blocks _ _ _ Hrel).
Qed.

(** An update of a buffer in use that keeps it in use. *)
Lemma rel_keep i f : is_buf i -> refcnt (node c i) <> 0 ->
  0 < refcnt (f (node c i)) < 2 ^ 32 -> Z.of_nat (length (data (f (node c i)))) = BSIZE ->
  let x := node c i in
  (valid (f x), b_dev (f x), blockno (f x), next (f x), prev (f x)) =
  (valid x, b_dev x, blockno x, next x, prev x) ->
  cache_rel (modnode i f c) d (<[blockno x := ent_of i (f x)]> U).
Proof.
  intros Hi Hr Hr' Hl x [= E1 E2 E3 E4 E5]. rewrite <- E3.
  pose proof (rel_dev _ _ _ _ Hrel Hi Hr) as Hd. pose proof (cr_buf _ _ _ Hrel i Hi) as Hok.
  subst x. apply rel_use; auto; try lia.
  - destruct Hok. split; auto; try lia; congruence.
  - intros j Hj Hne Hjd _. rewrite E3. now apply same_buf.
Qed.

Section pinning.
Variables (b : Z) (e : entry) (h : locks).
Hypothesis Hh : cache_locks_free h.
Hypothesis He : U !! b = Some e.

Lemma bio_pin : e_ref e + 1 < 2 ^ 32 ->
  exists c', bpin (e_ptr e) h c = Ret tt h c' /\ bc_pid c' = bc_pid c /\
    cache_rel c' d (<[b := entry_ref (e_ref e + 1) e]> U).
Proof.
  intros Hr. destruct (used_entry b e He) as (i & Hi & Hri & <- & -> & _). cbn in Hr |- *.
  destruct Hh as [Hb _]. unfold bpin, modb. krun. eexists. split_and!; [reflexivity..|].
  pose proof (bo_ref _ _ (cr_buf _ _ _ Hrel i Hi)).
  rewrite <- (u32_small (refcnt (node c i) + 1)) by lia.
  apply (rel_keep i (fun x => set_refcnt (u32 (refcnt x + 1)) x)); auto; cbn.
  - rewrite u32_small; lia. - apply (bo_len _ _ (cr_buf _ _ _ Hrel i Hi)).
Qed.

Lemma bio_unpin : 1 < e_ref e ->
  exists c', bunpin (e_ptr e) h c = Ret tt h c' /\ bc_pid c' = bc_pid c /\
    cache_rel c' d (<[b := entry_ref (e_ref e - 1) e]> U).
Proof.
  intros Hr. destruct (used_entry b e He) as (i & Hi & Hri & <- & -> & _). cbn in Hr |- *.
  destruct Hh as [Hb _]. unfold bunpin, modb. krun. eexists. split_and!; [reflexivity..|].
  pose proof (bo_ref _ _ (cr_buf _ _ _ Hrel i Hi)).
  rewrite <- (u32_small (refcnt (node c i) - 1)) by lia.
  apply (rel_keep i (fun x => set_refcnt (u32 (refcnt x - 1)) x)); auto; cbn.
  - rewrite u32_small; lia. - apply (bo_len _ _ (cr_buf _ _ _ Hrel i Hi)).
Qed.

End pinning.

Section holding.
Variables (b : Z) (e : entry) (h : locks).
Hypothesis Hh : cache_locks_free h.
Hypothesis He : U !! b = Some e.
Hypothesis Hold : e_holder e = Some (bc_pid c).

Lemma held_run : holdingsleep (e_ptr e) h c = Ret true h c.
Proof.
  destruct (used_entry b e He) as (i & Hi & Hri & <- & -> & _).
  rewrite holdingsleep_run by apply Hh. cbn in Hold |- *.
  destruct (locked _ =? 0); [discriminate|]. injection Hold as ->. now rewrite Z.eqb_refl.
Qed.

Lemma bio_set_data v : Z.of_nat (length v) = BSIZE ->
  cache_rel (modnode (e_ptr e) (set_data v) c) d (<[b := entry_data v e]> U).
Proof.
  intros Hl. destruct (used_entry b e He) as (i & Hi & Hri & <- & -> & _).
  apply (rel_keep i (set_data v)); auto. cbn.
  pose proof (bo_ref _ _ (cr_buf _ _ _ Hrel i Hi)). lia.
Qed.

Lemma bio_write :
  exists c', runs (bwrite (e_ptr e)) h c [EvDiskWrite b (e_data e)] tt c' /\
    bc_pid c' = bc_pid c /\ cache_rel c' (dwrite d b (e_data e)) U.
Proof.
  unfold runs, bwrite. rewrite (bind_Ret _ _ _ _ _ _ _ held_run). cbn [negb].
  destruct (used_entry b e He) as (i & Hi & Hri & <- & -> & Hd).
  unfold disk_rw, getb. krun. cbn. eexists. split_and!; [reflexivity..|].
  destruct Hrel as [Hdisk Hbl Hring Hbuf Hun Hus]. split; cbn; auto.
  - now rewrite Hdisk.
  - intros x. unfold dwrite. destruct (_ =? _); auto. apply (bo_len _ _ (Hbuf i Hi)).
  - intros j Hj. destruct (Hbuf j Hj) as [H1 H2 H3 H4 H5 H6]. split; auto.
    intros Hjd Hjr. destruct (Z.eq_dec j i) as [-> | Hne]; [congruence|].
    rewrite dwrite_ne; auto.
Qed.

End holding.

End laws.

(** ** Moving a buffer to the front of the list *)

Definition same_but_links (x y : buf) : Prop := y = set_prev (prev y) (set_next (next y) x).

Lemma rel_links c c' d U :
  cache_rel c d U -> disk c' = disk c -> (forall x, same_but_links (node c x) (node c' x)) ->
  (exists l, chain (nexts c') (prevs c') HEAD l HEAD /\ l ≡ₚ seqZ 0 NBUF) ->
  cache_rel c' d U.
Proof.
  intros [H1 H2 _ H4 H5 H6] Hd Hs Hr. split; auto; try congruence.
  - intros i Hi. rewrite Hs. destruct (H4 i Hi). now split.
  - intros i j Hi Hj. rewrite (Hs i), (Hs j). cbn. now apply H5.
  - intros b e. rewrite H6. split; intros (i & Hi & Hx); exists i; split; auto;
      rewrite (Hs i) in *; exact Hx.
Qed.

Lemma nexts_set_next a v c : nexts (modnode a (set_next v) c) = fupd (nexts c) a v.
Proof. extensionality x. unfold nexts, fupd. cbn. now destruct (x =? a). Qed.
Lemma prevs_set_prev a v c : prevs (modnode a (set_prev v) c) = fupd (prevs c) a v.
Proof. extensionality x. unfold prevs, fupd. cbn. now destruct (x =? a). Qed.
Lemma nexts_set_prev a v c : nexts (modnode a (set_prev v) c) = nexts c.
Proof. extensionality x. unfold nexts. cbn. now destruct (Z.eqb_spec x a) as [-> |]. Qed.
Lemma prevs_set_next a v c : prevs (modnode a (set_next v) c) = prevs c.
Proof. extensionality x. unfold prevs. cbn. now destruct (Z.eqb_spec x a) as [-> |]. Qed.

Create Rewrite HintDb links.
#[export] Hint Rewrite nexts_set_next prevs_set_prev nexts_set_prev prevs_set_next : links.

Lemma links_set_next a v c c0 :
  (forall x, same_but_links (node c0 x) (node c x)) ->
  forall x, same_but_links (node c0 x) (node (modnode a (set_next v) c) x).
Proof.
  intros H x. cbn. destruct (Z.eqb_spec x a) as [-> |]; auto. unfold same_but_links.
  rewrite (H a). reflexivity.
Qed.

Lemma links_set_prev a v c c0 :
  (forall x, same_but_links (node c0 x) (node c x)) ->
  forall x, same_but_links (node c0 x) (node (modnode a (set_prev v) c) x).
Proof.
  intros H x. cbn. destruct (Z.eqb_spec x a) as [-> |]; auto. unfold same_but_links.
  rewrite (H a). reflexivity.
Qed.

Definition relink (i : Z) : M bcache unit :=
  x <- getb i;;
  modb (next x) (set_prev (prev x));;
  x <- getb i;;
  modb (prev x) (set_next (next x));;
  push_front i.

Lemma relink_run c d U i h : cache_rel c d U -> is_buf i ->
  exists c', relink i h c = Ret tt h c' /\ bc_pid c' = bc_pid c /\ cache_rel c' d U.
Proof.
  intros Hrel Hi. destruct (cr_ring _ _ _ Hrel) as (l & Hc & Hl).
  destruct (ring_facts l Hl) as (Hnd & Hhd & _ & Hin).
  apply Hin in Hi. apply list_elem_of_split in Hi as (l1 & l2 & ->).
  assert (Hni : nexts c i <> i).
  { pose proof (chain_next _ _ _ _ _ _ _ Hc) as Hn. intros E. rewrite E in Hn.
    apply NoDup_app in Hnd as (_ & _ & Hnd). apply NoDup_cons in Hnd as [Hnd _].
    rewrite elem_of_app, elem_of_cons, elem_of_nil in Hn.
    destruct Hn as [?|[->|[]]]; [tauto|]. apply Hhd, elem_of_app. right. constructor. }
  pose proof (chain_unlink _ _ _ _ _ _ _ Hc Hnd Hhd Hhd) as Hc1.
  assert (Hnd' : NoDup (i :: l1 ++ l2)) by (rewrite Permutation_middle; exact Hnd).
  assert (Hhd' : HEAD ∉ i :: l1 ++ l2) by (rewrite Permutation_middle; exact Hhd).
  pose proof (chain_push _ _ _ i _ _ Hc1 Hnd' Hhd' Hhd') as Hc2.
  unfold relink, push_front, getb, modb. krun. eexists. split_and!; [reflexivity..|].
  apply (rel_links c); auto.
  - apply links_set_next, links_set_prev, links_set_prev, links_set_next, links_set_next, links_set_prev.
    intros x. unfold same_but_links. now destruct (node c x).
  - exists (i :: l1 ++ l2). split; [|rewrite Permutation_middle; exact Hl].
    set (c2 := modnode (next (node c i)) _ c).
    assert (E : node c2 i = node c i) by (apply node_ne; intros E; now apply Hni).
    rewrite E. clear E. subst c2.
    repeat (change (next (node ?c ?x)) with (nexts c x); change (prev (node ?c ?x)) with (prevs c x)).
    autorewrite with links. rewrite not_elem_of_cons in Hhd'.
    rewrite (fupd_ne (fupd (nexts c) (prevs c i) (nexts c i)) i _ HEAD) by tauto. exact Hc2.
Qed.

Section release.
Variables (c : bcache) (d : disk_t) (U : blocks_in_use).
Hypothesis Hrel : cache_rel c d U.
Variables (b : Z) (e : entry) (h : locks).
Hypothesis Hh : cache_locks_free h.
Hypothesis He : U !! b = Some e.
Hypothesis Hold : e_holder e = Some (bc_pid c).
Hypothesis Hclean : e_ref e = 1 -> e_data e = d b.

Let unref (x : buf) : buf := set_refcnt (u32 (refcnt x - 1)) (set_lock (SLock 0 0) x).

Lemma unref_rel : cache_rel (modnode (e_ptr e) unref c) d (released U b e) /\
  refcnt (node (modnode (e_ptr e) unref c) (e_ptr e)) = e_ref e - 1 /\ is_buf (e_ptr e).
Proof.
  destruct (used_entry c d U Hrel b e He) as (i & Hi & Hri & <- & -> & Hd).
  pose proof (cr_buf _ _ _ Hrel i Hi) as Hok. pose proof (bo_ref _ _ Hok).
  assert (Hu : refcnt (unref (node c i)) = refcnt (node c i) - 1) by (subst unref; cbn; apply u32_small; lia).
  rewrite node_eq. cbn [e_ptr ent_of e_ref]. split_and!; auto. unfold released. cbn [e_ref ent_of] in *.
  destruct (Z.eqb_spec (refcnt (node c i)) 1) as [E | E].
  - apply rel_drop; auto; [|intros; subst unref; cbn; now apply (same_buf c d U)|lia].
    destruct Hok as [H1 H2 H3 H4 H5 H6]. split; rewrite ?Hu; cbn; auto; lia.
  - replace (Ent _ _ _ _) with (ent_of i (unref (node c i)))
      by (unfold ent_of; rewrite Hu; reflexivity).
    apply rel_keep; auto; [lia | apply (bo_len _ _ Hok)].
Qed.

Lemma bio_relse :
  exists tr c', runs (brelse (e_ptr e)) h c tr tt c' /\ writes tr = [] /\
    bc_pid c' = bc_pid c /\ cache_rel c' d (released U b e).
Proof.
  destruct unref_rel as (Hr & Href & Hi). destruct Hh as [Hb Hs].
  pose proof (held_run c d U Hrel b e h Hh He Hold) as Hhold.
  pose proof (releasesleep_run (e_ptr e) h c (Hs (e_ptr e))) as Hrs.
  destruct (relink_run _ _ _ _ (bcache_lock :: h) Hr Hi) as (c' & Hrun & Hpid & Hrel').
  exists [EvWakeup (ch_sleeplock (e_ptr e))].
  exists (if e_ref e =? 1 then c' else modnode (e_ptr e) unref c). split_and!; auto.
  - unfold brelse, runs. rewrite (bind_Ret _ _ _ _ _ _ _ Hhold). cbn [negb].
    rewrite (bind_emits _ _ _ _ _ _ _ _ Hrs). f_equal.
    cbn [sl_put bcache_sleeplocks]. unfold modb, getb. krun. rewrite modnode_modnode.
    match goal with |- context [modnode (e_ptr e) ?f c] =>
      change (modnode (e_ptr e) f c) with (modnode (e_ptr e) unref c) end.
    rewrite Href. unfold relink, getb, modb in Hrun. rewrite bind_gets in Hrun.
    replace (e_ref e - 1 =? 0) with (e_ref e =? 1) by zb.
    destruct (e_ref e =? 1).
    + rewrite (bind_Ret _ _ _ _ _ _ _ Hrun). krun. reflexivity.
    + krun. reflexivity.
  - now destruct (_ =? _).
  - now destruct (_ =? _).
Qed.

End release.

(** ** The instance *)

#[export] Instance bio_cache : BlockCache bcache := {|
  cb_read := bread; cb_write := bwrite; cb_relse := brelse; cb_pin := bpin; cb_unpin := bunpin;
  cb_data p c := data (node c p);
  cb_set_data p v c := modnode p (set_data v) c;
  cb_blockno p c := blockno (node c p);
  cb_pid := bc_pid;
|}.

#[export] Program Instance bio_laws : BlockCacheLaws bcache BSIZE NBUF ROOTDEV := {|
  cb_rel := cache_rel |}.
Next Obligation. intros. now apply (bio_blocks c). Qed.
Next Obligation.
  intros c d U b e Hrel E. destruct (used_entry c d U Hrel b e E) as (i & Hi & Hr & <- & -> & _).
  pose proof (bo_ref _ _ (cr_buf _ _ _ Hrel i Hi)). cbn. split_and!; auto; lia.
Qed.
Next Obligation. intros. now apply bio_read. Qed.
Next Obligation. intros. now apply bio_write. Qed.
Next Obligation. intros. now apply bio_relse. Qed.
Next Obligation. intros. now apply bio_pin. Qed.
Next Obligation. intros. now apply bio_unpin. Qed.
Next Obligation. intros. split; [reflexivity|]. now apply bio_set_data. Qed.

(** ** [binit] *)

(** A buffer as the zeroed memory of the kernel image has it. *)
Definition blank (x : buf) : Prop :=
  refcnt x = 0 /\ b_dev x = 0 /\ locked (b_lock x) = 0 /\ Z.of_nat (length (data x)) = BSIZE.

Lemma blank_modnode b f c :
  (forall x, blank x -> blank (f x)) -> (forall x, blank (node c x)) ->
  forall x, blank (node (modnode b f c) x).
Proof. intros Hf Hc x. cbn. destruct (_ =? _); auto. Qed.

Lemma nexts_set_lock a v c : nexts (modnode a (set_lock v) c) = nexts c.
Proof. extensionality x. unfold nexts. cbn. now destruct (Z.eqb_spec x a) as [-> |]. Qed.
Lemma prevs_set_lock a v c : prevs (modnode a (set_lock v) c) = prevs c.
Proof. extensionality x. unfold prevs. cbn. now destruct (Z.eqb_spec x a) as [-> |]. Qed.
#[local] Hint Rewrite nexts_set_lock prevs_set_lock : links.

Lemma binit_loop_run h : forall n b c l,
  0 <= b -> b + Z.of_nat n = NBUF ->
  (forall x, blank (node c x)) -> l ≡ₚ seqZ 0 b ->
  chain (nexts c) (prevs c) HEAD l HEAD ->
  exists c' l', binit_loop n b h c = Ret tt h c' /\ disk c' = disk c /\ bc_pid c' = bc_pid c /\
    (forall x, blank (node c' x)) /\ chain (nexts c') (prevs c') HEAD l' HEAD /\ l' ≡ₚ seqZ 0 NBUF.
Proof.
  induction n as [|n IH]; intros b c l Hb Hn Hc Hl Hch.
  { exists c, l. split_and!; auto. now replace NBUF with b by lia. }
  cbn [binit_loop]. unfold getb, modb, initsleeplock, initlock. krun. cbn [sl_put bcache_sleeplocks].
  assert (Hbl : b ∉ l) by (rewrite Hl, elem_of_seqZ; lia).
  assert (Hhl : HEAD ∉ b :: l) by (rewrite not_elem_of_cons, Hl, elem_of_seqZ; unfold HEAD; lia).
  assert (Hnd : NoDup (b :: l)) by (apply NoDup_cons; split; [auto | rewrite Hl; apply NoDup_seqZ]).
  match goal with |- context [binit_loop n (b + 1) h ?c1] => set (c' := c1) end.
  destruct (IH (b + 1) c' (b :: l) ltac:(lia) ltac:(lia)) as (c2 & l' & Hrun & Hd & Hp & Hr); subst c'; cycle 3.
  { exists c2, l'. split_and!; try apply Hr; [exact Hrun | exact Hd | exact Hp]. }
  - repeat (apply blank_modnode; [intros ? (? & ? & ? & ?); unfold blank; cbn; auto|]). exact Hc.
  - rewrite Hl. rewrite seqZ_app with (n1 := b) (n2 := 1) by lia.
    change (seqZ (0 + b) 1) with [0 + b]. rewrite Z.add_0_l. apply Permutation_cons_append.
  - repeat (change (next (node ?c ?x)) with (nexts c x)).
    autorewrite with links. pose proof (chain_push _ _ _ b _ _ Hch Hnd Hhl Hhl) as H.
    rewrite not_elem_of_cons in Hhl. rewrite (fupd_ne (nexts c) b _ HEAD) by tauto. exact H.
Qed.

Lemma binit_run c h :
  (forall x, blank (node c x)) -> (forall b, Z.of_nat (length (disk c b)) = BSIZE) ->
  exists c', binit h c = Ret tt h c' /\ bc_pid c' = bc_pid c /\ cache_rel c' (disk c) ∅.
Proof.
  intros Hc Hd. unfold binit, initlock, modb. krun.
  set (c1 := modnode HEAD (set_next HEAD) (modnode HEAD (set_prev HEAD) c)).
  destruct (binit_loop_run h (Z.to_nat NBUF) 0 c1 []) as (c' & l & Hrun & Hdisk & Hpid & Hb & Hch & Hl).
  - lia. - reflexivity.
  - repeat (apply blank_modnode; [intros ? (? & ? & ? & ?); unfold blank; cbn; auto|]). exact Hc.
  - reflexivity.
  - subst c1. cbn [chain]. autorewrite with links. now rewrite !fupd_eq.
  - exists c'. split_and!; auto. split; auto; [eauto|..].
    + intros i Hi. destruct (Hb i) as (H1 & H2 & H3 & H4).
      assert (H5 : b_dev (node c' i) <> D) by (rewrite H2; discriminate).
      split; [auto | rewrite H1; lia | intros E; now destruct E | auto | intros E; now destruct H5 | intros E; now destruct H5].
    + intros i j _ _ E. destruct (Hb i) as (_ & E' & _). rewrite E' in E. discriminate.
    + intros b e. rewrite lookup_empty. split; [discriminate|].
      intros (i & _ & Hi & _). now destruct (Hb i) as (? & _).
Qed.

(** ** A small buffer cache for examples

    The cache of process 7 over a disk of zeroed blocks, with either no block
    in use or block 40 modified and pinned in buffer 0. *)

Definition zero_block : block := repeat 0 1024.
Definition new_block : block := repeat 7 1024.
Definition zero_disk : disk_t := fun _ => zero_block.

Definition demo_buf (used : bool) (i : Z) : buf :=
  let p := if i =? 0 then HEAD else i - 1 in
  let n := if i =? HEAD then 0 else i + 1 in
  if used && (i =? 0) then Buf 1 ROOTDEV 40 (SLock 0 0) 1 p n new_block
  else Buf 0 0 0 (SLock 0 0) 0 p n zero_block.

Definition demo_cache (used : bool) : bcache := BCache (demo_buf used) zero_disk 7.

Definition demo_use (used : bool) : blocks_in_use :=
  if used then {[40 := Ent 0 new_block 1 None]} else ∅.

Lemma demo_rel used : cache_rel (demo_cache used) zero_disk (demo_use used).
Proof.
  assert (Hu : forall i, i <> 0 -> refcnt (demo_buf used i) = 0 /\ b_dev (demo_buf used i) = 0).
  { intros i Hi. unfold demo_buf. destruct (Z.eqb_spec i 0); [lia|]. now rewrite andb_false_r. }
  split; auto.
  - exists (seqZ 0 NBUF). split; [|reflexivity]. destruct used; vm_compute; tauto.
  - intros i Hi. cbn. unfold demo_buf. destruct (_ && _); split; cbn; try discriminate; try lia; auto.
  - intros i j Hi Hj. cbn. destruct (Z.eq_dec i 0) as [-> | Ei], (Z.eq_dec j 0) as [-> | Ej]; auto.
    + intros _ E. rewrite (proj2 (Hu j Ej)) in E. discriminate.
    + intros E. rewrite (proj2 (Hu i Ei)) in E. discriminate.
    + intros E. rewrite (proj2 (Hu i Ei)) in E. discriminate.
  - intros b e. cbn. split.
    + unfold demo_use. destruct used; [|now rewrite lookup_empty].
      rewrite lookup_singleton_Some. intros [<- <-]. exists 0. split_and!; try reflexivity; try discriminate. split; [lia | reflexivity].
    + intros (i & Hi & Hr & <- & ->). destruct (Z.eq_dec i 0) as [-> | Ei].
      * destruct used; [reflexivity | now destruct Hr].
      * now rewrite (proj1 (Hu i Ei)) in Hr.
Qed.

Lemma no_cache_locks : cache_locks_free [].
Proof. split; [|intros a]; apply not_elem_of_nil. Qed.

(** ** Correctness of the buffer cache

    Against the abstract cache of [Sleeplock.v]: a disk and a map of the blocks in
    use.  The abstract operations are the relation [cache_step]; every call of
    the code that a client may make is simulated by one abstract step. *)

(** ** The abstract cache *)

Inductive call :=
| CRead (b : Z) | CWrite (b : Z) | CRelse (b : Z) | CPin (b : Z) | CUnpin (b : Z)
| CModify (b : Z) (v : block).

(** What a client may do: it reads blocks it does not hold, and modifies,
    writes and releases blocks it holds; a block that it releases for good has
    been written.  At most [NBUF] blocks are in use at a time. *)
Definition allowed (pid : Z) (d : disk_t) (U : blocks_in_use) (k : call) : Prop :=
  let holds b e := U !! b = Some e /\ e_holder e = Some pid in
  match k with
  | CRead b =>
      0 <= b < 2 ^ 32 /\
      match U !! b with
      | Some e => e_holder e = None /\ e_ref e + 1 < 2 ^ 32
      | None => Z.of_nat (size U) < NBUF
      end
  | CWrite b => exists e, holds b e
  | CRelse b => exists e, holds b e /\ (e_ref e = 1 -> e_data e = d b)
  | CPin b => exists e, U !! b = Some e /\ e_ref e + 1 < 2 ^ 32
  | CUnpin b => exists e, U !! b = Some e /\ 1 < e_ref e
  | CModify b v => exists e, holds b e /\ Z.of_nat (length v) = BSIZE
  end.

(** The effect: on the disk, on the map, and what is written to the disk. *)
Inductive cache_step (pid : Z) (d : disk_t) (U : blocks_in_use) :
    call -> disk_t -> blocks_in_use -> list (Z * block) -> Prop :=
| step_read b p :
    cache_step pid d U (CRead b) d (<[b := entry_read d U b p pid]> U) []
| step_write b e : U !! b = Some e ->
    cache_step pid d U (CWrite b) (dwrite d b (e_data e)) U [(b, e_data e)]
| step_relse b e : U !! b = Some e -> cache_step pid d U (CRelse b) d (released U b e) []
| step_pin b e : U !! b = Some e ->
    cache_step pid d U (CPin b) d (<[b := entry_ref (e_ref e + 1) e]> U) []
| step_unpin b e : U !! b = Some e ->
    cache_step pid d U (CUnpin b) d (<[b := entry_ref (e_ref e - 1) e]> U) []
| step_modify b e v : U !! b = Some e ->
    cache_step pid d U (CModify b v) d (<[b := entry_data v e]> U) [].

(** The code of a call; the pointer to the buffer is the one [bread] gave. *)
Definition ptr (U : blocks_in_use) (b : Z) : Z :=
  match U !! b with Some e => e_ptr e | None => 0 end.

Definition perform (U : blocks_in_use) (k : call) : M bcache unit :=
  match k with
  | CRead b => _ <- bread ROOTDEV b;; ret tt
  | CWrite b => bwrite (ptr U b)
  | CRelse b => brelse (ptr U b)
  | CPin b => bpin (ptr U b)
  | CUnpin b => bunpin (ptr U b)
  | CModify b v => modb (ptr U b) (set_data v)
  end.

(** C4: The buffer cache refines the abstract cache: in related states, every
    call a client may make returns, writes to the disk what the abstract step
    writes, and leads to related states.  In particular a block read is the
    current one, whether it was cached, recycled or never read, no two buffers
    hold the same block, and the list of buffers stays a ring through all of
    them. *)
Theorem bio_simulation c d U h k :
  cache_rel c d U -> cache_locks_free h -> allowed (bc_pid c) d U k ->
  exists tr c' d' U', runs (perform U k) h c tr tt c' /\ bc_pid c' = bc_pid c /\
    cache_step (bc_pid c) d U k d' U' (writes tr) /\ cache_rel c' d' U'.
Proof.
  intros Hrel Hh Hok. destruct k as [b|b|b|b|b|b v]; cbn [allowed perform] in *.
  - destruct Hok as [Hb Hok].
    destruct (bio_read c d U Hrel b h Hh Hb Hok) as (p & c' & E & Hp & _ & Hr).
    exists [], c'. do 2 eexists. split_and!; [|exact Hp|constructor|exact Hr].
    unfold runs. now rewrite (bind_Ret _ _ _ _ _ _ _ E).
  - destruct Hok as (e & He & Hold). unfold ptr. rewrite He.
    destruct (bio_write c d U Hrel b e h Hh He Hold) as (c' & Hrun & Hp & Hr).
    do 4 eexists. split_and!; [exact Hrun | exact Hp | apply (step_write _ _ _ _ e He) | exact Hr].
  - destruct Hok as (e & (He & Hold) & Hcl). unfold ptr. rewrite He.
    destruct (bio_relse c d U Hrel b e h Hh He Hold Hcl) as (tr & c' & Hrun & Hw & Hp & Hr).
    do 4 eexists. split_and!; [exact Hrun | exact Hp | rewrite Hw; apply (step_relse _ _ _ _ e He) | exact Hr].
  - destruct Hok as (e & He & Href). unfold ptr. rewrite He.
    destruct (bio_pin c d U Hrel b e h Hh He Href) as (c' & E & Hp & Hr).
    exists []. do 3 eexists. split_and!; [exact E | exact Hp | apply (step_pin _ _ _ _ e He) | exact Hr].
  - destruct Hok as (e & He & Href). unfold ptr. rewrite He.
    destruct (bio_unpin c d U Hrel b e h Hh He Href) as (c' & E & Hp & Hr).
    exists []. do 3 eexists. split_and!; [exact E | exact Hp | apply (step_unpin _ _ _ _ e He) | exact Hr].
  - destruct Hok as (e & (He & Hold) & Hl). unfold ptr. rewrite He.
    exists []. do 3 eexists. split_and!; [reflexivity.. | apply (step_modify _ _ _ _ e v He) |].
    now apply (bio_set_data c d U Hrel).
Qed.

Lemma bio_simulation_witness :
  exists tr c' d' U', runs (perform (demo_use true) (CRead 40)) [] (demo_cache true) tr tt c' /\
    bc_pid c' = 7 /\ cache_step 7 zero_disk (demo_use true) (CRead 40) d' U' (writes tr) /\
    cache_rel c' d' U'.
Proof.
  apply (bio_simulation (demo_cache true) zero_disk (demo_use true) [] (CRead 40)).
  - exact (demo_rel true).
  - exact no_cache_locks.
  - split; [lia|]. split; [reflexivity|]. cbn. lia.
Defined.

(** [binit] turns the zeroed cache of the kernel image into one that
    holds no block: every buffer is on the list and free, so every block reads
    as it is on the disk. *)
Theorem binit_spec c h :
  (forall x, blank (node c x)) -> (forall b, Z.of_nat (length (disk c b)) = BSIZE) ->
  exists c', binit h c = Ret tt h c' /\ bc_pid c' = bc_pid c /\ cache_rel c' (disk c) ∅.
Proof. apply binit_run. Qed.

Definition image_cache : bcache :=
  BCache (fun _ => Buf 0 0 0 (SLock 0 0) 0 0 0 zero_block) zero_disk 7.

Lemma binit_spec_witness :
  exists c', binit [] image_cache = Ret tt [] c' /\ bc_pid c' = 7 /\ cache_rel c' zero_disk ∅.
Proof. apply (binit_spec image_cache []); intros x; [split_and!|]; reflexivity. Defined.
