(* ===== verification/FsState.v ===== *)
(** * The state of the file system

    The kernel variables of kernel/log.c and kernel/fs.c over a block cache:
    the log, the super block and the table of in-memory inodes (the pointer
    [&itable.inode[i]] is [i + 1] and 0 is the null pointer).  The operations of the
    cache act on its part of the state. *)

From S2P Require Import Prelude KMonad Riscv Trace Sleeplock.

(** [struct log] with its [struct logheader]. *)
Record log := Log {
  start : Z; lsize : Z; outstanding : Z; committing : Z; ldev : Z;
  lh_n : Z; lh_block : list Z }.

Definition set_outstanding v l := Log (start l) (lsize l) v (committing l) (ldev l) (lh_n l) (lh_block l).
Definition set_committing v l := Log (start l) (lsize l) (outstanding l) v (ldev l) (lh_n l) (lh_block l).
Definition set_lh_n v l := Log (start l) (lsize l) (outstanding l) (committing l) (ldev l) v (lh_block l).
Definition set_lh_block v l := Log (start l) (lsize l) (outstanding l) (committing l) (ldev l) (lh_n l) v.

Record superblock := Superblock {
  sb_magic : Z; sb_size : Z; sb_nblocks : Z; sb_ninodes : Z; sb_nlog : Z;
  sb_logstart : Z; sb_inodestart : Z; sb_bmapstart : Z }.

(** [struct inode] *)
Record inode := Inode {
  i_dev : Z; i_inum : Z; i_ref : Z; i_lock : sleeplock; i_valid : Z;
  i_type : Z; i_major : Z; i_minor : Z; i_nlink : Z; i_size : Z; i_addrs : list Z }.

Record fsys (C : Type) := FSys {
  bc : C; lg : log; sb : superblock; itable : Z -> inode }.
Arguments FSys {C} bc lg sb itable.
Arguments bc {C} f.
Arguments lg {C} f.
Arguments sb {C} f.
Arguments itable {C} f.

Section state.
Context {C : Type} `{BlockCache C}.

Definition set_bc (c : C) (s : fsys C) : fsys C := FSys c (lg s) (sb s) (itable s).
Definition set_lg (l : log) (s : fsys C) : fsys C := FSys (bc s) l (sb s) (itable s).
Definition set_sb (x : superblock) (s : fsys C) : fsys C := FSys (bc s) (lg s) x (itable s).
Definition set_itable (t : Z -> inode) (s : fsys C) : fsys C := FSys (bc s) (lg s) (sb s) t.

Definition getlog {A} (f : log -> A) : M (fsys C) A := gets (fun s => f (lg s)).
Definition modlog (f : log -> log) : M (fsys C) unit := modify (fun s => set_lg (f (lg s)) s).

Definition bread (dev b : Z) : M (fsys C) Z := zoom bc set_bc (cb_read (u32 dev) (u32 b)).
Definition bwrite (b : Z) : M (fsys C) unit := zoom bc set_bc (cb_write b).
Definition brelse (b : Z) : M (fsys C) unit := zoom bc set_bc (cb_relse b).
Definition bpin (b : Z) : M (fsys C) unit := zoom bc set_bc (cb_pin b).
Definition bunpin (b : Z) : M (fsys C) unit := zoom bc set_bc (cb_unpin b).
(** [b->data], [b->data = v] and [b->blockno]. *)
Definition bdata (b : Z) : M (fsys C) block := gets (fun s => cb_data b (bc s)).
Definition bset (b : Z) (v : block) : M (fsys C) unit :=
  modify (fun s => set_bc (cb_set_data b v (bc s)) s).
Definition bno (b : Z) : M (fsys C) Z := gets (fun s => cb_blockno b (bc s)).

End state.

(** ** Running file-system code against the block-cache interface

    [wp m h s w Q]: [m] returns, with the same locks, having written exactly
    the blocks [w] in this order, in a state and with a value satisfying [Q].
    One rule per cache operation follows from its law; they are used by the
    proofs of the layers above. *)

Section wp.
Context {S A : Type}.

Definition wp (m : M S A) (h : locks) (s : S) (w : list (Z * block)) (Q : A -> S -> Prop) : Prop :=
  exists tr a s', runs m h s tr a s' /\ writes tr = w /\ Q a s'.

Lemma wp_ret (a : A) h s (Q : A -> S -> Prop) : Q a s -> wp (ret a) h s [] Q.
Proof. intros HQ. exists [], a, s. split_and!; [reflexivity..|exact HQ]. Qed.

Lemma wp_mono m h s w (P Q : A -> S -> Prop) :
  wp m h s w P -> (forall a s', P a s' -> Q a s') -> wp m h s w Q.
Proof. intros (tr & a & s' & H & Hw & HP) HQ. exists tr, a, s'. auto. Qed.

Lemma wp_crash m h s w Q d d' : wp m h s w Q -> crash (m h s) d d' -> crash_points w d d'.
Proof. intros (tr & a & s' & -> & <- & _). apply crash_emits. Qed.

End wp.

Lemma wp_bind {S A B} (m : M S A) (f : A -> M S B) h s w1 w2 Q :
  wp m h s w1 (fun a s1 => wp (f a) h s1 w2 Q) -> wp (bind m f) h s (w1 ++ w2) Q.
Proof.
  intros (tr & a & s1 & H1 & <- & tr' & b & s2 & H2 & <- & HQ).
  exists (tr ++ tr'), b, s2. split_and!; auto; [eapply runs_bind; eauto | apply writes_app].
Qed.

(** A step that writes nothing, followed by the rest. *)
Lemma wp_seq {S A B} (m : M S A) (f : A -> M S B) h s w Q :
  wp m h s [] (fun a s1 => wp (f a) h s1 w Q) -> wp (bind m f) h s w Q.
Proof. apply (wp_bind m f h s [] w). Qed.

Lemma wp_gets {S A B} (g : S -> A) (f : A -> M S B) h s w Q :
  wp (f (g s)) h s w Q -> wp (bind (gets g) f) h s w Q.
Proof. exact id. Qed.

Lemma wp_modify {S B} (g : S -> S) (f : unit -> M S B) h s w Q :
  wp (f tt) h (g s) w Q -> wp (bind (modify g) f) h s w Q.
Proof. exact id. Qed.

Lemma wp_Ret {S A} (m : M S A) h s a s' (Q : A -> S -> Prop) :
  m h s = Ret a h s' -> Q a s' -> wp m h s [] Q.
Proof. intros E HQ. exists [], a, s'. split_and!; [exact E | reflexivity | exact HQ]. Qed.

Section cache.
Context {C : Type} `{BlockCacheLaws C BSIZE NBUF ROOTDEV}.
Variables (pid : Z) (h : locks).
Hypothesis Hh : cache_locks_free h.
Implicit Types (c : C) (s : fsys C) (d : disk_t) (U : blocks_in_use).

(** The cache of the process [pid], over disk [d] with the blocks [U] in use. *)
Definition cst c d U : Prop := cb_rel c d U /\ cb_pid c = pid.

Definition can_read U (b : Z) : Prop :=
  0 <= b < 2 ^ 32 /\
  match U !! b with
  | Some e => e_holder e = None /\ e_ref e + 1 < 2 ^ 32
  | None => Z.of_nat (size U) < NBUF
  end.

Lemma wp_bread c s d U b (Q : Z -> fsys C -> Prop) :
  cst c d U -> can_read U b ->
  (forall p c', (forall e, U !! b = Some e -> p = e_ptr e) ->
     cst c' d (<[b := entry_read d U b p pid]> U) -> Q p (set_bc c' s)) ->
  wp (bread ROOTDEV b) h (set_bc c s) [] Q.
Proof.
  intros [Hr Hpid] [Hb Hc] HQ.
  destruct (cb_read_law _ _ _ b h Hr Hh Hb Hc) as (p & c' & E & Hp & He & Hr').
  rewrite Hpid in Hp, Hr'.
  apply (wp_Ret _ h _ p (set_bc c' s)); [|apply HQ; [auto | split; auto]].
  unfold bread. apply (zoom_Ret bc set_bc _ h (set_bc c s)).
  rewrite (u32_small b), (u32_small ROOTDEV) by (auto; unfold ROOTDEV; lia). exact E.
Qed.

Section held.
Variables (c : C) (s : fsys C) (d : disk_t) (U : blocks_in_use) (b : Z) (e : entry) (p : Z).
Hypothesis Hc : cst c d U.
Hypothesis He : U !! b = Some e.
Hypothesis Hptr : e_ptr e = p.

Lemma ref_pos : 1 <= e_ref e.
Proof. apply (cb_entry _ _ _ _ _ (proj1 Hc) He). Qed.

Lemma wp_bdata {A} (f : block -> M (fsys C) A) w Q :
  wp (f (e_data e)) h (set_bc c s) w Q -> wp (bind (bdata p) f) h (set_bc c s) w Q.
Proof.
  intros Hw. apply wp_gets. rewrite <- Hptr.
  destruct (cb_entry _ _ _ _ _ (proj1 Hc) He) as (E & _). cbn. rewrite E. exact Hw.
Qed.

Lemma wp_bno {A} (f : Z -> M (fsys C) A) w Q :
  wp (f b) h (set_bc c s) w Q -> wp (bind (bno p) f) h (set_bc c s) w Q.
Proof.
  intros Hw. apply wp_gets. rewrite <- Hptr.
  destruct (cb_entry _ _ _ _ _ (proj1 Hc) He) as (_ & E & _). cbn. rewrite E. exact Hw.
Qed.

Lemma wp_bset v (Q : unit -> fsys C -> Prop) :
  e_holder e = Some pid -> Z.of_nat (length v) = BSIZE ->
  (forall c', cst c' d (<[b := entry_data v e]> U) -> Q tt (set_bc c' s)) ->
  wp (bset p v) h (set_bc c s) [] Q.
Proof.
  intros Hold Hl HQ. destruct Hc as [Hr Hpid]. rewrite <- Hpid in Hold.
  destruct (cb_set_data_law _ _ _ _ _ v Hr He Hold Hl) as [Hp Hr']. rewrite <- Hptr.
  apply (wp_Ret _ h _ tt (set_bc (cb_set_data (e_ptr e) v c) s)); auto.
  apply HQ. split; [auto | congruence].
Qed.

Lemma wp_bwrite (Q : unit -> fsys C -> Prop) :
  e_holder e = Some pid ->
  (forall c', cst c' (dwrite d b (e_data e)) U -> Q tt (set_bc c' s)) ->
  wp (bwrite p) h (set_bc c s) [(b, e_data e)] Q.
Proof.
  intros Hold HQ. destruct Hc as [Hr Hpid]. rewrite <- Hpid in Hold.
  destruct (cb_write_law _ _ _ _ _ h Hr Hh He Hold) as (c' & Hrun & Hp & Hr').
  exists [EvDiskWrite b (e_data e)], tt, (set_bc c' s). rewrite <- Hptr. split_and!; auto.
  - now apply (runs_zoom bc set_bc _ h (set_bc c s)).
  - apply HQ. split; [auto | congruence].
Qed.

Lemma wp_brelse (Q : unit -> fsys C -> Prop) :
  e_holder e = Some pid -> (e_ref e = 1 -> e_data e = d b) ->
  (forall c', cst c' d (released U b e) -> Q tt (set_bc c' s)) ->
  wp (brelse p) h (set_bc c s) [] Q.
Proof.
  intros Hold Hcl HQ. destruct Hc as [Hr Hpid]. rewrite <- Hpid in Hold.
  destruct (cb_relse_law _ _ _ _ _ h Hr Hh He Hold Hcl) as (tr & c' & Hrun & Hw & Hp & Hr').
  exists tr, tt, (set_bc c' s). rewrite <- Hptr. split_and!; auto.
  - now apply (runs_zoom bc set_bc _ h (set_bc c s)).
  - apply HQ. split; [auto | congruence].
Qed.

Lemma wp_bpin (Q : unit -> fsys C -> Prop) : e_ref e + 1 < 2 ^ 32 ->
  (forall c', cst c' d (<[b := entry_ref (e_ref e + 1) e]> U) -> Q tt (set_bc c' s)) ->
  wp (bpin p) h (set_bc c s) [] Q.
Proof.
  intros Href HQ. destruct Hc as [Hr Hpid].
  destruct (cb_pin_law _ _ _ _ _ h Hr Hh He Href) as (c' & E & Hp & Hr'). rewrite <- Hptr.
  apply (wp_Ret _ h _ tt (set_bc c' s)); [now apply (zoom_Ret bc set_bc _ h (set_bc c s))|].
  apply HQ. split; [auto | congruence].
Qed.

Lemma wp_bunpin (Q : unit -> fsys C -> Prop) : 1 < e_ref e ->
  (forall c', cst c' d (<[b := entry_ref (e_ref e - 1) e]> U) -> Q tt (set_bc c' s)) ->
  wp (bunpin p) h (set_bc c s) [] Q.
Proof.
  intros Href HQ. destruct Hc as [Hr Hpid].
  destruct (cb_unpin_law _ _ _ _ _ h Hr Hh He Href) as (c' & E & Hp & Hr'). rewrite <- Hptr.
  apply (wp_Ret _ h _ tt (set_bc c' s)); [now apply (zoom_Ret bc set_bc _ h (set_bc c s))|].
  apply HQ. split; [auto | congruence].
Qed.

End held.
End cache.
