(* ===== verification/Log.v ===== *)
(** * The write-ahead log (kernel/log.c)

    Every function of the file, over any implementation of the block cache.
    Values of type [int] that are used as block numbers are converted by
    [bread]; an index outside [log.lh.block] is undefined behaviour. *)

From S2P Require Import Prelude KMonad Riscv Trace Sleeplock FsState.

(** The header block: [int n] and [int block[LOGSIZE]]. *)
Definition hdr_n (v : block) : Z := i32 (get32 v 0).
Definition hdr_block (v : block) (i : Z) : Z := i32 (get32 v (4 + 4 * i)).
Definition set_hdr_n (v : block) (n : Z) : block := put32 v 0 n.
Definition set_hdr_block (v : block) (i b : Z) : block := put32 v (4 + 4 * i) b.

Section log.
Context {C : Type} `{BlockCache C}.
Abbreviation fs := (fsys C).

Definition lh_get (i : Z) : M fs Z :=
  if i <? LOGSIZE then getlog (fun l => nthZ 0 (lh_block l) i) else undef.

Definition lh_set (i b : Z) : M fs unit :=
  if i <? LOGSIZE then modlog (fun l => set_lh_block (updZ (lh_block l) i b) l) else undef.

(** [for (tail = 0; tail < log.lh.n; tail++)]: [k] iterations are left. *)
Fixpoint install_trans_loop (k : nat) (tail : Z) (recovering : bool) : M fs unit :=
  match k with
  | O => ret tt
  | S k' =>
      dev <- getlog ldev;;
      st <- getlog start;;
      lbuf <- bread dev (st + tail + 1);;
      b <- lh_get tail;;
      dbuf <- bread dev b;;
      v <- bdata lbuf;;
      bset dbuf v;;
      bwrite dbuf;;
      (if recovering then ret tt else bunpin dbuf);;
      brelse lbuf;;
      brelse dbuf;;
      install_trans_loop k' (tail + 1) recovering
  end.

Definition install_trans (recovering : bool) : M fs unit :=
  n <- getlog lh_n;;
  install_trans_loop (Z.to_nat n) 0 recovering.

Fixpoint read_head_loop (k : nat) (i : Z) (v : block) : M fs unit :=
  match k with
  | O => ret tt
  | S k' =>
      lh_set i (hdr_block v i);;
      read_head_loop k' (i + 1) v
  end.

Definition read_head : M fs unit :=
  dev <- getlog ldev;;
  st <- getlog start;;
  b <- bread dev st;;
  v <- bdata b;;
  modlog (set_lh_n (hdr_n v));;
  read_head_loop (Z.to_nat (hdr_n v)) 0 v;;
  brelse b.

Fixpoint write_head_loop (k : nat) (i b : Z) : M fs unit :=
  match k with
  | O => ret tt
  | S k' =>
      x <- lh_get i;;
      v <- bdata b;;
      bset b (set_hdr_block v i x);;
      write_head_loop k' (i + 1) b
  end.

Definition write_head : M fs unit :=
  dev <- getlog ldev;;
  st <- getlog start;;
  b <- bread dev st;;
  n <- getlog lh_n;;
  v <- bdata b;;
  bset b (set_hdr_n v n);;
  write_head_loop (Z.to_nat n) 0 b;;
  bwrite b;;
  brelse b.

Definition recover_from_log : M fs unit :=
  read_head;;
  install_trans true;;
  modlog (set_lh_n 0);;
  write_head.

Definition initlog (dev : Z) (s : superblock) : M fs unit :=
  if BSIZE <=? 4 + 4 * LOGSIZE then panic "initlog: too big logheader"
  else
    initlock log_lock;;
    modlog (fun l => Log (i32 (sb_logstart s)) (i32 (sb_nlog s)) (outstanding l) (committing l) dev
                         (lh_n l) (lh_block l));;
    recover_from_log.

Fixpoint begin_op_loop (fuel : nat) : M fs unit :=
  match fuel with
  | O => out_of_fuel
  | S fuel' =>
      l <- getlog id;;
      if negb (committing l =? 0) then
        sleep ch_log log_lock;; begin_op_loop fuel'
      else if LOGSIZE <? i32 (lh_n l + (outstanding l + 1) * MAXOPBLOCKS) then
        sleep ch_log log_lock;; begin_op_loop fuel'
      else
        modlog (fun l => set_outstanding (i32 (outstanding l + 1)) l);;
        release log_lock
  end.

Definition begin_op : M fs unit :=
  acquire log_lock;;
  begin_op_loop WAKEUPS.

Fixpoint write_log_loop (k : nat) (tail : Z) : M fs unit :=
  match k with
  | O => ret tt
  | S k' =>
      dev <- getlog ldev;;
      st <- getlog start;;
      to <- bread dev (st + tail + 1);;
      b <- lh_get tail;;
      from <- bread dev b;;
      v <- bdata from;;
      bset to v;;
      bwrite to;;
      brelse from;;
      brelse to;;
      write_log_loop k' (tail + 1)
  end.

Definition write_log : M fs unit :=
  n <- getlog lh_n;;
  write_log_loop (Z.to_nat n) 0.

Definition commit : M fs unit :=
  n <- getlog lh_n;;
  if 0 <? n then
    write_log;;
    write_head;;
    install_trans false;;
    modlog (set_lh_n 0);;
    write_head
  else ret tt.

Definition end_op : M fs unit :=
  acquire log_lock;;
  modlog (fun l => set_outstanding (i32 (outstanding l - 1)) l);;
  l <- getlog id;;
  if negb (committing l =? 0) then panic "log.committing"
  else
    do_commit <-
      (if outstanding l =? 0 then
         modlog (set_committing 1);;
         ret true
       else
         wakeup ch_log;;
         ret false);;
    release log_lock;;
    if (do_commit : bool) then
      commit;;
      acquire log_lock;;
      modlog (set_committing 0);;
      wakeup ch_log;;
      release log_lock
    else ret tt.

(** The search of [log_write] for the block: the index where it stops. *)
Fixpoint absorb (k : nat) (i : Z) (blocks : list Z) (b : Z) : Z :=
  match k with
  | O => i
  | S k' => if u32 (nthZ 0 blocks i) =? b then i else absorb k' (i + 1) blocks b
  end.

Definition log_write (b : Z) : M fs unit :=
  acquire log_lock;;
  l <- getlog id;;
  if (LOGSIZE <=? lh_n l) || (lsize l - 1 <=? lh_n l) then panic "too big a transaction"
  else if outstanding l <? 1 then panic "log_write outside of trans"
  else
    x <- bno b;;
    let i := absorb (Z.to_nat (lh_n l)) 0 (lh_block l) x in
    lh_set i (i32 x);;
    (if i =? lh_n l then
       bpin b;;
       modlog (fun l => set_lh_n (i32 (lh_n l + 1)) l)
     else ret tt);;
    release log_lock.

End log.
