(* ===== verification/LogCrash.v ===== *)
(** * What a disk with a log means

    [logical st d] is the file system a disk stands for: the contents after
    the transaction recorded in the header block [st], if there is one, has
    been copied to its home locations.  The first lemmas are about
    sequences of disk writes only; the executions of the log code, after them,
    produce these sequences. *)

From S2P Require Import Prelude KMonad Riscv Trace Sleeplock FsState Log.

(** ** Sequences of writes *)

Lemma apply_writes_notin w d x : x ∉ map fst w -> apply_writes w d x = d x.
Proof.
  revert d. induction w as [|[b v] w IH]; cbn; intros d Hx; auto.
  apply not_elem_of_cons in Hx as [Hb Hx]. rewrite IH by auto. now apply dwrite_ne.
Qed.

Lemma apply_writes_agree w d d' x : d x = d' x -> apply_writes w d x = apply_writes w d' x.
Proof.
  revert d d'. induction w as [|[b v] w IH]; cbn; intros d d' E; auto.
  apply IH. unfold dwrite. now destruct (_ =? _).
Qed.

Lemma apply_writes_in w d d' x : x ∈ map fst w -> apply_writes w d x = apply_writes w d' x.
Proof.
  revert d d'. induction w as [|[b v] w IH]; cbn; intros d d' Hx; [now apply elem_of_nil in Hx|].
  destruct (Z.eq_dec x b) as [-> | Hb].
  - apply apply_writes_agree. now rewrite !dwrite_eq.
  - apply IH. apply elem_of_cons in Hx as [? | Hx]; [congruence | auto].
Qed.

(** Repeating a sequence of writes after a prefix of it changes nothing. *)
Lemma apply_writes_redo w k d x :
  apply_writes w (apply_writes (take k w) d) x = apply_writes w d x.
Proof.
  destruct (decide (x ∈ map fst w)) as [Hx | Hx]; [now apply apply_writes_in|].
  rewrite !apply_writes_notin; auto.
  rewrite <- firstn_map. intros Hi. apply Hx.
  apply elem_of_take in Hi as (i & Hi & _). eapply list_elem_of_lookup_2; eauto.
Qed.

Lemma apply_writes_idem w d x : apply_writes w (apply_writes w d) x = apply_writes w d x.
Proof. rewrite <- (apply_writes_redo w (length w) d x), firstn_all. reflexivity. Qed.

(** The writes of a loop to distinct blocks. *)
Lemma apply_writes_loop (f : Z -> Z) (g : Z -> block) d : forall (k : nat) a i,
  (forall x y, a <= x < a + Z.of_nat k -> a <= y < a + Z.of_nat k -> f x = f y -> x = y) ->
  a <= i < a + Z.of_nat k ->
  apply_writes (map (fun x => (f x, g x)) (seqZ a (Z.of_nat k))) d (f i) = g i.
Proof.
  intros k. revert d. induction k as [|k IH]; intros d a i Hinj Hi; [lia|].
  rewrite Nat2Z.inj_succ, seqZ_cons by lia. cbn [map apply_writes]. rewrite Z.pred_succ, <- Z.add_1_r.
  destruct (Z.eq_dec i a) as [-> | Hne].
  - rewrite apply_writes_notin; [apply dwrite_eq|]. rewrite map_map. cbn.
    rewrite list_elem_of_fmap. intros (x & E & Hx). rewrite elem_of_seqZ in Hx.
    apply Hinj in E; lia.
  - apply IH; [|lia]. intros x y Hx Hy. apply Hinj; lia.
Qed.

Lemma apply_writes_loop_other (f : Z -> Z) (g : Z -> block) d a n x :
  (forall i, a <= i < a + n -> f i <> x) ->
  apply_writes (map (fun x => (f x, g x)) (seqZ a n)) d x = d x.
Proof.
  intros Hx. apply apply_writes_notin. rewrite map_map. cbn.
  rewrite list_elem_of_fmap. intros (i & E & Hi). rewrite elem_of_seqZ in Hi.
  apply (Hx i); [lia | auto].
Qed.

(** ** The meaning of a disk *)

Section geometry.
Variables (st sz : Z).

(** A block outside the log. *)
Definition home (x : Z) : Prop := 0 <= x < 2 ^ 31 /\ (x < st \/ st + sz <= x).

(** The header is one the log writes: it fits, and lists home blocks. *)
Definition header_ok (v : block) : Prop :=
  0 <= hdr_n v <= LOGSIZE /\ hdr_n v < sz /\
  forall i, 0 <= i < hdr_n v -> home (hdr_block v i).

Definition install_writes (d : disk_t) : list (Z * block) :=
  map (fun i => (hdr_block (d st) i, d (st + 1 + i))) (seqZ 0 (hdr_n (d st))).

Definition logical (d : disk_t) : disk_t := apply_writes (install_writes d) d.

(** Two disks hold the same file system. *)
Definition same_fs (f g : disk_t) : Prop := forall x, home x -> f x = g x.

#[export] Instance same_fs_equiv : Equivalence same_fs.
Proof.
  split; red.
  - intros f x _. reflexivity.
  - intros f g E x Hx. now rewrite E.
  - intros f g k E E' x Hx. now rewrite E, E'.
Qed.

Lemma install_writes_home d x : header_ok (d st) -> x ∈ map fst (install_writes d) -> home x.
Proof.
  intros (_ & _ & H). unfold install_writes. rewrite map_map. cbn.
  rewrite list_elem_of_fmap. intros (i & -> & Hi). apply H. rewrite elem_of_seqZ in Hi. lia.
Qed.

Lemma logical_empty d : hdr_n (d st) = 0 -> logical d = d.
Proof. intros E. unfold logical, install_writes. now rewrite E. Qed.

(** Writing log blocks does not change what a disk with an empty header means. *)
Lemma logical_log_writes d w :
  hdr_n (d st) = 0 -> Forall (fun p => st < fst p < st + sz) w ->
  same_fs (logical (apply_writes w d)) d /\ apply_writes w d st = d st.
Proof.
  intros E Hw. rewrite Forall_forall in Hw.
  assert (Hn : forall x, ~ st < x < st + sz -> x ∉ map fst w).
  { intros x Hx. rewrite list_elem_of_fmap. intros (p & -> & Hp). now apply Hx, Hw. }
  assert (Hst : apply_writes w d st = d st) by (apply apply_writes_notin, Hn; lia).
  split; auto. intros x [Hx1 Hx2]. rewrite logical_empty by now rewrite Hst.
  apply apply_writes_notin, Hn. lia.
Qed.

(** The same log area gives the same writes. *)
Lemma install_writes_ext d d' : header_ok (d st) ->
  (forall x, st <= x < st + sz -> d' x = d x) -> install_writes d' = install_writes d.
Proof.
  intros (Hn & Hs & _) E. unfold install_writes. rewrite (E st) by lia.
  apply map_ext_in. intros i Hi. apply list_elem_of_In, elem_of_seqZ in Hi.
  now rewrite E by lia.
Qed.

(** Any part of the installation leaves the meaning of the disk, and the
    header, as they were. *)
Lemma logical_installing d k : header_ok (d st) ->
  let d' := apply_writes (take k (install_writes d)) d in
  same_fs (logical d') (logical d) /\ d' st = d st.
Proof.
  intros Hok d'.
  assert (E : forall x, st <= x < st + sz -> d' x = d x).
  { intros x Hx. apply apply_writes_notin. rewrite <- firstn_map. intros Hi.
    apply elem_of_take in Hi as (i & Hi & _). apply list_elem_of_lookup_2 in Hi.
    apply install_writes_home in Hi; auto. destruct Hi. lia. }
  pose proof Hok as (Hn & Hs & Hh).
  split; [|apply E; lia]. intros x _. unfold logical.
  rewrite (install_writes_ext d d') by auto. apply apply_writes_redo.
Qed.

(** Clearing the header after the installation keeps the meaning. *)
Lemma logical_cleared d v : header_ok (d st) -> hdr_n v = 0 ->
  same_fs (logical (dwrite (apply_writes (install_writes d) d) st v)) (logical d).
Proof.
  intros (Hn & Hs & _) Hv x [Hx1 Hx2]. rewrite logical_empty by now rewrite dwrite_eq.
  apply dwrite_ne. lia.
Qed.

End geometry.

(** ** Executions of the log code

    What [write_log], [write_head], [install_trans], [read_head] and their
    callers write to the disk, and in which order, when the blocks of the
    transaction are in the cache; and a commit as a whole, with the crash points
    in the middle of it. *)

Section log.
Context {C : Type} `{BlockCacheLaws C BSIZE NBUF ROOTDEV}.
Variables (st sz pid : Z) (h : locks).
Hypothesis Hh : cache_locks_free h.

(** The log structure after [initlog]. *)
Record log_wf (l : log) : Prop := {
  lw_dev : ldev l = ROOTDEV;
  lw_start : start l = st;
  lw_size : lsize l = sz;
  lw_geom : 0 <= st /\ 1 <= sz /\ st + sz < 2 ^ 31;
  lw_len : length (lh_block l) = Z.to_nat LOGSIZE;
}.

Definition lblock (l : log) (i : Z) : Z := nthZ 0 (lh_block l) i.

Definition cached (U : blocks_in_use) (b : Z) : block :=
  match U !! b with Some e => e_data e | None => [] end.

(** No block of the log area is in use. *)
Definition log_unused (U : blocks_in_use) : Prop := forall x, st <= x < st + sz -> U !! x = None.

(** A block of the transaction: in the cache, pinned, not locked. *)
Definition pinned (U : blocks_in_use) (b : Z) : Prop :=
  home st sz b /\ exists e, U !! b = Some e /\ e_holder e = None /\ e_ref e + 1 < 2 ^ 32.

Lemma lh_get_run l i s w (f : Z -> M (fsys C) unit) Q : lg s = l -> i < LOGSIZE ->
  wp (f (lblock l i)) h s w Q -> wp (bind (lh_get i) f) h s w Q.
Proof.
  intros <- Hi Hw. unfold lh_get. rewrite (proj2 (Z.ltb_lt _ _) Hi). exact Hw.
Qed.

Lemma entry_eta e : e_holder e = None -> Ent (e_ptr e) (e_data e) (e_ref e) None = e.
Proof. destruct e. cbn. now intros ->. Qed.

(** Two blocks are read, the first is overwritten, both are released. *)
Lemma released_both (U : blocks_in_use) x y p v q e :
  x <> y -> U !! x = None -> U !! y = Some e -> e_holder e = None -> 1 <= e_ref e ->
  released (released (<[x := Ent p v 1 (Some pid)]> (<[y := Ent (e_ptr e) (e_data e) (e_ref e + 1) (Some pid)]>
       (<[x := q]> U))) y
    (Ent (e_ptr e) (e_data e) (e_ref e + 1) (Some pid))) x (Ent p v 1 (Some pid)) = U.
Proof.
  intros Hxy Hx Hy Hold Href. unfold released at 2. cbn [e_ref e_ptr e_data].
  destruct (Z.eqb_spec (e_ref e + 1) 1); [lia|].
  replace (e_ref e + 1 - 1) with (e_ref e) by lia. rewrite entry_eta by auto.
  unfold released. cbn. apply map_eq. intros z.
  destruct (decide (z = x)) as [-> |]; [now rewrite lookup_delete_eq|].
  rewrite lookup_delete_ne by auto.
  destruct (decide (z = y)) as [-> |]; [now rewrite lookup_insert_eq|].
  now rewrite !lookup_insert_ne by auto.
Qed.

Definition log_entries (l : log) (U : blocks_in_use) (tail : Z) (k : nat) : list (Z * block) :=
  map (fun i => (st + 1 + i, cached U (lblock l i))) (seqZ tail (Z.of_nat k)).

(** One round of [write_log]: what is cached goes to the log, and the cache
    is as before. *)
Lemma write_log_round s c d U l tail (k : nat) Q w :
  lg s = l -> log_wf l -> cst pid c d U -> log_unused U -> Z.of_nat (size U) < NBUF ->
  0 <= tail < LOGSIZE -> tail + 1 < sz -> pinned U (lblock l tail) ->
  (forall c', cst pid c' (dwrite d (st + 1 + tail) (cached U (lblock l tail))) U ->
     wp (write_log_loop k (tail + 1)) h (set_bc c' s) w Q) ->
  wp (write_log_loop (S k) tail) h (set_bc c s) ((st + 1 + tail, cached U (lblock l tail)) :: w) Q.
Proof.
  intros Hl Hwf Hc Hu Hs Ht Ht' (Hhome & e & He & Hold & Href) HQ.
  destruct Hwf as [Hdev Hst Hsz (Hg1 & Hg2 & Hg3) _]. destruct Hhome as [Hb Hb'].
  pose proof (ref_pos _ _ _ _ _ _ Hc He) as Hpos.
  set (b := lblock l tail) in *. set (lb := st + 1 + tail) in *.
  assert (Hlb : U !! lb = None) by (apply Hu; lia). assert (Hne : lb <> b) by lia.
  cbn [write_log_loop]. apply wp_gets, wp_gets. cbn [lg set_bc]. rewrite Hl, Hdev, Hst.
  replace (st + tail + 1) with lb by lia.
  apply wp_seq, (wp_bread pid h Hh c s d U); auto; [split; [lia | now rewrite Hlb]|].
  intros p c1 _ Hc1. apply (lh_get_run l); [exact Hl | lia|]. fold b.
  unfold entry_read, contents in Hc1. rewrite Hlb in Hc1.
  apply wp_seq, (wp_bread pid h Hh c1 s d _ b _ Hc1).
  { split; [lia|]. rewrite lookup_insert_ne, He by auto. auto. }
  intros p' c2 Hptr Hc2. specialize (Hptr e ltac:(rewrite lookup_insert_ne; auto)). subst p'.
  unfold entry_read, contents in Hc2. rewrite lookup_insert_ne, He in Hc2 by auto.
  apply (wp_bdata pid h c2 s d _ b _ _ Hc2 (lookup_insert_eq _ _ _) eq_refl). cbn [e_data].
  apply wp_seq. eapply (wp_bset pid h c2 s d _ lb _ p Hc2);
    [rewrite lookup_insert_ne, lookup_insert_eq by auto; reflexivity | reflexivity..| |].
  { replace (e_data e) with (contents d U b) by (unfold contents; now rewrite He).
    apply (cb_blocks _ _ _ _ (proj1 Hc)). }
  intros c3 Hc3. cbn [entry_data e_ptr e_ref e_holder] in Hc3.
  unfold cached at 1. rewrite He. apply (wp_bind _ _ _ _ [_]).
  eapply (wp_bwrite pid h Hh c3 s d _ lb _ p Hc3 (lookup_insert_eq _ _ _)); [reflexivity..|].
  intros c4 Hc4. cbn [e_data] in Hc4.
  apply wp_seq. eapply (wp_brelse pid h Hh c4 s _ _ b _ (e_ptr e) Hc4);
    [rewrite lookup_insert_ne, lookup_insert_eq by auto; reflexivity | reflexivity..| cbn; lia|].
  intros c5 Hc5. apply wp_seq.
  eapply (wp_brelse pid h Hh c5 s _ _ lb (Ent p (e_data e) 1 (Some pid)) p Hc5); [|reflexivity..| |].
  { unfold released. cbn. destruct (Z.eqb_spec (e_ref e + 1) 1); [lia|].
    now rewrite lookup_insert_ne, lookup_insert_eq by auto. }
  { intros _. cbn. now rewrite dwrite_eq. }
  intros c6 Hc6. apply HQ. unfold cached. rewrite He. rewrite (released_both U lb b p (e_data e) _ e) in Hc6 by auto. exact Hc6.
Qed.

Lemma write_log_loop_run s U l : forall (k : nat) tail c d',
  lg s = l -> log_wf l -> log_unused U -> Z.of_nat (size U) < NBUF ->
  0 <= tail -> tail + Z.of_nat k <= LOGSIZE -> tail + Z.of_nat k < sz ->
  (forall i, tail <= i < tail + Z.of_nat k -> pinned U (lblock l i)) ->
  cst pid c d' U ->
  wp (write_log_loop k tail) h (set_bc c s) (log_entries l U tail k) (fun _ s' =>
    exists c', s' = set_bc c' s /\ cst pid c' (apply_writes (log_entries l U tail k) d') U).
Proof.
  induction k as [|k IH]; intros tail c d' Hl Hwf Hu Hs Ht Hk Hk' Hp Hc.
  { apply wp_ret. eauto. }
  unfold log_entries. rewrite Nat2Z.inj_succ, seqZ_cons by lia. cbn [map].
  rewrite Z.pred_succ, <- Z.add_1_r. change (map _ (seqZ (tail + 1) _)) with (log_entries l U (tail + 1) k).
  apply (write_log_round s c d' U l); auto; try lia. { apply Hp. lia. }
  intros c' Hc'. cbn [apply_writes]. apply IH; auto; try lia. intros i Hi. apply Hp. lia.
Qed.

(** ** The header *)

Fixpoint fill_header (k : nat) (i : Z) (l : log) (v : block) : block :=
  match k with
  | O => v
  | S k' => fill_header k' (i + 1) l (set_hdr_block v i (lblock l i))
  end.

Definition header_of (l : log) (v : block) : block :=
  fill_header (Z.to_nat (lh_n l)) 0 l (set_hdr_n v (lh_n l)).

Lemma i32_wrap x : i32 (x mod 2 ^ 32) = i32 x.
Proof. unfold i32. now rewrite Z.add_mod_idemp_l by lia. Qed.

Lemma length_set_hdr v i x : length (set_hdr_block v i x) = length v.
Proof. apply length_put. Qed.

Lemma fill_header_length k : forall i l v, length (fill_header k i l v) = length v.
Proof. induction k; intros; cbn [fill_header]; auto. now rewrite IHk, length_set_hdr. Qed.

Lemma fill_header_n k : forall i l v, 0 <= i -> hdr_n (fill_header k i l v) = hdr_n v.
Proof.
  induction k as [|k IH]; intros i l v Hi; cbn [fill_header]; auto. rewrite IH by lia.
  unfold hdr_n, set_hdr_block, get32, put32. now rewrite get_put_ne by lia.
Qed.

Lemma fill_header_before k : forall i l v j, 0 <= j < i ->
  hdr_block (fill_header k i l v) j = hdr_block v j.
Proof.
  induction k as [|k IH]; intros i l v j Hj; cbn [fill_header]; auto. rewrite IH by lia.
  unfold hdr_block, set_hdr_block, get32, put32. now rewrite get_put_ne by lia.
Qed.

Lemma fill_header_block k : forall i l v j,
  Z.of_nat (length v) = BSIZE -> 0 <= i -> i + Z.of_nat k <= LOGSIZE -> i <= j < i + Z.of_nat k ->
  hdr_block (fill_header k i l v) j = i32 (lblock l j).
Proof.
  induction k as [|k IH]; intros i l v j Hv Hi Hk Hj; [lia|]. cbn [fill_header].
  destruct (Z.eq_dec j i) as [-> | Hne].
  - rewrite fill_header_before by lia. unfold hdr_block, set_hdr_block, get32, put32.
    rewrite get_put by (unfold BSIZE, LOGSIZE, MAXOPBLOCKS in *; lia). apply i32_wrap.
  - apply IH; try lia. now rewrite length_set_hdr.
Qed.

Lemma header_of_spec l v : Z.of_nat (length v) = BSIZE -> 0 <= lh_n l <= LOGSIZE ->
  (forall i, 0 <= i < lh_n l -> home st sz (lblock l i)) ->
  Z.of_nat (length (header_of l v)) = BSIZE /\ hdr_n (header_of l v) = lh_n l /\
  forall i, 0 <= i < lh_n l -> hdr_block (header_of l v) i = lblock l i.
Proof.
  intros Hv Hn Hb. unfold header_of, set_hdr_n.
  assert (Hl : Z.of_nat (length (put32 v 0 (lh_n l))) = BSIZE) by (unfold put32; now rewrite length_put).
  rewrite fill_header_length, fill_header_n by lia. split_and!; auto.
  - unfold hdr_n, get32, put32. rewrite get_put by (unfold BSIZE in *; lia).
    change (2 ^ (8 * Z.of_nat 4)) with (2 ^ 32). rewrite i32_wrap.
    unfold LOGSIZE, MAXOPBLOCKS in Hn. apply i32_small. lia.
  - intros i Hi. rewrite fill_header_block by (auto; lia). apply i32_small.
    destruct (Hb i Hi) as [? _]. lia.
Qed.

Lemma write_head_loop_run s l d U0 p : forall (k : nat) i c v,
  lg s = l -> 0 <= i -> i + Z.of_nat k <= LOGSIZE -> Z.of_nat (length v) = BSIZE ->
  cst pid c d (<[st := Ent p v 1 (Some pid)]> U0) ->
  wp (write_head_loop k i p) h (set_bc c s) [] (fun _ s' =>
    exists c', s' = set_bc c' s /\
      cst pid c' d (<[st := Ent p (fill_header k i l v) 1 (Some pid)]> U0)).
Proof.
  induction k as [|k IH]; intros i c v Hl Hi Hk Hv Hc; [apply wp_ret; eauto|].
  cbn [write_head_loop]. apply (lh_get_run l); [exact Hl | lia|].
  apply (wp_bdata pid h c s d _ st _ _ Hc (lookup_insert_eq _ _ _) eq_refl). cbn [e_data].
  apply wp_seq. eapply (wp_bset pid h c s d _ st _ p Hc (lookup_insert_eq _ _ _)); [reflexivity..| |].
  { now rewrite length_set_hdr. }
  intros c' Hc'. rewrite insert_insert_eq in Hc'. cbn [fill_header].
  apply IH; auto; try lia. now rewrite length_set_hdr.
Qed.

Lemma write_head_run s l c d U : lg s = l -> log_wf l -> 0 <= lh_n l <= LOGSIZE ->
  log_unused U -> Z.of_nat (size U) < NBUF -> cst pid c d U ->
  wp write_head h (set_bc c s) [(st, header_of l (d st))] (fun _ s' =>
    exists c', s' = set_bc c' s /\ cst pid c' (dwrite d st (header_of l (d st))) U).
Proof.
  intros Hl [Hdev Hst Hsz (Hg1 & Hg2 & Hg3) _] Hn Hu Hs Hc.
  assert (Hlb : U !! st = None) by (apply Hu; lia).
  assert (Hv : Z.of_nat (length (d st)) = BSIZE).
  { pose proof (cb_blocks _ _ _ st (proj1 Hc)) as E. unfold contents in E. now rewrite Hlb in E. }
  unfold write_head. apply wp_gets, wp_gets. cbn [lg set_bc]. rewrite Hl, Hdev, Hst.
  apply wp_seq, (wp_bread pid h Hh c s d U); auto; [split; [lia | now rewrite Hlb]|].
  intros p c1 _ Hc1. unfold entry_read, contents in Hc1. rewrite Hlb in Hc1.
  apply wp_gets. cbn [lg set_bc]. rewrite Hl.
  apply (wp_bdata pid h c1 s d _ st _ _ Hc1 (lookup_insert_eq _ _ _) eq_refl). cbn [e_data].
  apply wp_seq. eapply (wp_bset pid h c1 s d _ st _ p Hc1 (lookup_insert_eq _ _ _)); [reflexivity..| |].
  { unfold set_hdr_n, put32. now rewrite length_put. }
  intros c2 Hc2. rewrite insert_insert_eq in Hc2. cbn [entry_data e_ptr e_ref e_holder] in Hc2.
  apply wp_seq. eapply wp_mono.
  { apply (write_head_loop_run s l d U p); [auto|lia|lia| |exact Hc2].
    unfold set_hdr_n, put32. now rewrite length_put. }
  intros _ s' (c3 & -> & Hc3). fold (header_of l (d st)) in Hc3.
  apply (wp_bind _ _ _ _ [_] []).
  eapply (wp_bwrite pid h Hh c3 s d _ st _ p Hc3 (lookup_insert_eq _ _ _)); [reflexivity..|].
  intros c4 Hc4. cbn [e_data] in Hc4.
  eapply (wp_brelse pid h Hh c4 s _ _ st _ p Hc4 (lookup_insert_eq _ _ _)); [reflexivity..| |].
  { intros _. cbn. now rewrite dwrite_eq. }
  intros c5 Hc5. exists c5. split; auto. unfold released in Hc5. cbn in Hc5.
  now rewrite delete_insert_id in Hc5.
Qed.

(** ** Installing *)

(** The map after block [b] has been installed with contents [v]: the pin of
    the transaction is gone. *)
Definition unpinned (U : blocks_in_use) (b : Z) (v : block) : blocks_in_use :=
  match U !! b with
  | Some e => if e_ref e =? 1 then delete b U else <[b := Ent (e_ptr e) v (e_ref e - 1) None]> U
  | None => U
  end.

(** What [install_trans] needs of block [b]. *)
Definition installable (recovering : bool) (U : blocks_in_use) (b : Z) : Prop :=
  home st sz b /\
  if recovering then U !! b = None /\ Z.of_nat (size U) + 1 < NBUF
  else pinned U b /\ Z.of_nat (size U) < NBUF.

(** The two [brelse] at the end of a round. *)
Lemma release_both s c d U lb b p q v r (f : unit -> M (fsys C) unit) w Q :
  lb <> b -> U !! lb = None ->
  cst pid c d (<[b := Ent q v r (Some pid)]> (<[lb := Ent p v 1 (Some pid)]> U)) ->
  d lb = v -> d b = v ->
  (forall c', cst pid c' d (if r =? 1 then delete b U else <[b := Ent q v (r - 1) None]> U) ->
     wp (f tt) h (set_bc c' s) w Q) ->
  wp (brelse p;; bind (brelse q) f) h (set_bc c s) w Q.
Proof.
  intros Hne Hlb Hc Hd1 Hd2 HQ. apply wp_seq.
  eapply (wp_brelse pid h Hh c s d _ lb (Ent p v 1 (Some pid)) p Hc);
    [rewrite lookup_insert_ne, lookup_insert_eq by auto; reflexivity | reflexivity.. | auto |].
  intros c1 Hc1. unfold released in Hc1. cbn in Hc1.
  rewrite delete_insert_ne, delete_insert_id in Hc1 by auto.
  apply wp_seq. eapply (wp_brelse pid h Hh c1 s d _ b _ q Hc1 (lookup_insert_eq _ _ _)); [reflexivity.. | auto |].
  intros c2 Hc2. apply HQ. unfold released in Hc2. cbn in Hc2.
  now rewrite delete_insert_eq, insert_insert_eq in Hc2.
Qed.

Lemma install_round (recovering : bool) s c d U l tail (k : nat) Q w :
  let b := lblock l tail in let v := d (st + 1 + tail) in
  lg s = l -> log_wf l -> cst pid c d U -> log_unused U ->
  0 <= tail < LOGSIZE -> tail + 1 < sz -> installable recovering U b ->
  (forall c', cst pid c' (dwrite d b v) (unpinned U b v) ->
     wp (install_trans_loop k (tail + 1) recovering) h (set_bc c' s) w Q) ->
  wp (install_trans_loop (S k) tail recovering) h (set_bc c s) ((b, v) :: w) Q.
Proof.
  intros b v Hl [Hdev Hst Hsz (Hg1 & Hg2 & Hg3) _] Hc Hu Ht Ht' [[Hb Hb'] Hins] HQ.
  set (lb := st + 1 + tail) in *.
  assert (Hlb : U !! lb = None) by (apply Hu; lia). assert (Hne : lb <> b) by (clear - Hb' Ht Ht'; lia).
  assert (Hcap : Z.of_nat (size U) < NBUF) by (destruct recovering; lia).
  cbn [install_trans_loop]. apply wp_gets, wp_gets. cbn [lg set_bc]. rewrite Hl, Hdev, Hst.
  replace (st + tail + 1) with lb by (clear; lia).
  apply wp_seq, (wp_bread pid h Hh c s d U); auto; [split; [lia | now rewrite Hlb]|].
  intros p c1 _ Hc1. apply (lh_get_run l); [exact Hl | lia|]. fold b.
  unfold entry_read, contents in Hc1. rewrite Hlb in Hc1. fold v in Hc1.
  apply wp_seq, (wp_bread pid h Hh c1 s d _ b _ Hc1).
  { split; [lia|]. rewrite lookup_insert_ne by auto. destruct recovering.
    - destruct Hins as [-> Hs]. rewrite map_size_insert_None by auto. lia.
    - destruct Hins as [(_ & e & -> & ? & ?) _]. auto. }
  intros q c2 Hptr Hc2. unfold entry_read in Hc2. rewrite lookup_insert_ne in Hc2, Hptr by auto.
  apply (wp_bdata pid h c2 s d _ lb (Ent p v 1 (Some pid)) p Hc2);
    [now rewrite lookup_insert_ne, lookup_insert_eq by auto | reflexivity|]. cbn [e_data].
  apply wp_seq. eapply (wp_bset pid h c2 s d _ b _ q Hc2 (lookup_insert_eq _ _ _)); [reflexivity..| |].
  { pose proof (cb_blocks _ _ _ lb (proj1 Hc)) as E. unfold contents in E. now rewrite Hlb in E. }
  intros c3 Hc3. rewrite insert_insert_eq in Hc3. unfold entry_data in Hc3.
  cbn [e_ptr e_ref e_holder] in Hc3.
  apply (wp_bind _ _ _ _ [_]).
  eapply (wp_bwrite pid h Hh c3 s d _ b _ q Hc3 (lookup_insert_eq _ _ _)); [reflexivity..|].
  intros c4 Hc4. cbn [e_data] in Hc4. apply wp_seq. destruct recovering.
  - destruct Hins as [Hnone _]. rewrite Hnone in Hc4. apply wp_ret.
    apply (release_both s c4 (dwrite d b v) U lb b p q v 1); auto; [now apply dwrite_ne | now apply dwrite_eq |].
    intros c5 Hc5. apply HQ. unfold unpinned. rewrite Hnone. cbn in Hc5. now rewrite delete_id in Hc5.
  - destruct Hins as [(_ & e & He & Hold & Href) _]. rewrite He in Hc4.
    specialize (Hptr e He). subst q. pose proof (ref_pos _ _ _ _ _ _ Hc He).
    eapply (wp_bunpin pid h Hh c4 s _ _ b _ (e_ptr e) Hc4 (lookup_insert_eq _ _ _) eq_refl); [cbn; lia|].
    intros c5 Hc5. rewrite insert_insert_eq in Hc5. unfold entry_ref in Hc5.
    cbn [e_ptr e_ref e_holder e_data] in Hc5.
    replace (e_ref e + 1 - 1) with (e_ref e) in Hc5 by lia.
    apply (release_both s c5 (dwrite d b v) U lb b p (e_ptr e) v (e_ref e)); auto; [now apply dwrite_ne | now apply dwrite_eq |].
    intros c6 Hc6. apply HQ. unfold unpinned. now rewrite He.
Qed.

(** The map after the rounds [tail], ..., [tail + k - 1]. *)
Fixpoint unpin_all (k : nat) (tail : Z) (l : log) (d : disk_t) (U : blocks_in_use) : blocks_in_use :=
  match k with
  | O => U
  | S k' => unpin_all k' (tail + 1) l d (unpinned U (lblock l tail) (d (st + 1 + tail)))
  end.

Definition distinct (l : log) (n : Z) : Prop :=
  forall i j, 0 <= i < n -> 0 <= j < n -> lblock l i = lblock l j -> i = j.

Lemma unpinned_ne U b v x : x <> b -> unpinned U b v !! x = U !! x.
Proof.
  intros Hx. unfold unpinned. destruct (U !! b) as [e|]; auto.
  destruct (_ =? _); [now rewrite lookup_delete_ne | now rewrite lookup_insert_ne].
Qed.

Lemma unpinned_eq U b v : unpinned U b v !! b =
  match U !! b with
  | Some e => if e_ref e =? 1 then None else Some (Ent (e_ptr e) v (e_ref e - 1) None)
  | None => None
  end.
Proof.
  unfold unpinned. destruct (U !! b) as [e|] eqn:E; auto.
  destruct (_ =? _); [now rewrite lookup_delete_eq | now rewrite lookup_insert_eq].
Qed.

Lemma unpinned_size U b v : (size (unpinned U b v) <= size U)%nat.
Proof.
  unfold unpinned. destruct (U !! b) as [e|] eqn:E; auto. destruct (_ =? _).
  - rewrite map_size_delete, E. cbn. lia. - rewrite map_size_insert, E. cbn. lia.
Qed.

Lemma unpinned_None U b v : U !! b = None -> unpinned U b v = U.
Proof. intros E. unfold unpinned. now rewrite E. Qed.

Lemma installable_next r U b v b' :
  (r = false -> b' <> b) -> (r = true -> U !! b = None) ->
  installable r U b' -> installable r (unpinned U b v) b'.
Proof.
  intros Hne Hnone [Hb Hi]. split; auto. pose proof (unpinned_size U b v). destruct r.
  - rewrite unpinned_None by auto. auto.
  - destruct Hi as [(_ & e & He) ?]. split; [|lia]. split; auto. exists e.
    rewrite unpinned_ne by auto. auto.
Qed.

Definition home_writes (l : log) (d : disk_t) (tail : Z) (k : nat) : list (Z * block) :=
  map (fun i => (lblock l i, d (st + 1 + i))) (seqZ tail (Z.of_nat k)).

Lemma install_loop_run (recovering : bool) s l d0 : forall (k : nat) tail c d U,
  lg s = l -> log_wf l -> cst pid c d U -> log_unused U ->
  0 <= tail -> tail + Z.of_nat k <= LOGSIZE -> tail + Z.of_nat k < sz ->
  (forall i, tail <= i < tail + Z.of_nat k -> installable recovering U (lblock l i)) ->
  (recovering = false -> distinct l (tail + Z.of_nat k)) ->
  (forall x, st <= x < st + sz -> d x = d0 x) ->
  wp (install_trans_loop k tail recovering) h (set_bc c s) (home_writes l d0 tail k) (fun _ s' =>
    exists c', s' = set_bc c' s /\
      cst pid c' (apply_writes (home_writes l d0 tail k) d) (unpin_all k tail l d0 U)).
Proof.
  induction k as [|k IH]; intros tail c d U Hl Hwf Hc Hu Ht Hk Hk' Hins Hdist Hd.
  { apply wp_ret. eauto. }
  unfold home_writes. rewrite Nat2Z.inj_succ, seqZ_cons by lia. cbn [map].
  rewrite Z.pred_succ, <- Z.add_1_r. change (map _ (seqZ (tail + 1) _)) with (home_writes l d0 (tail + 1) k).
  pose proof (Hins tail ltac:(lia)) as Hin. destruct Hin as [[Hb1 Hb2] Hin].
  rewrite <- (Hd (st + 1 + tail)) by lia.
  apply (install_round recovering s c d U l); auto; try lia. { apply Hins. lia. }
  intros c' Hc'. cbn [apply_writes unpin_all]. rewrite <- (Hd (st + 1 + tail)) by lia.
  apply IH; auto; try lia.
  - intros x Hx. rewrite unpinned_ne by lia. auto.
  - intros i Hi. apply installable_next; [| |apply Hins; lia].
    + intros Hr E. specialize (Hdist Hr i tail ltac:(lia) ltac:(lia) E). lia.
    + intros ->. apply Hin.
  - intros Hr i j Hi Hj. apply (Hdist Hr); lia.
  - intros x Hx. rewrite dwrite_ne by lia. auto.
Qed.

Lemma unpin_all_recovering l d U : forall (k : nat) tail,
  (forall i, tail <= i < tail + Z.of_nat k -> U !! lblock l i = None) -> unpin_all k tail l d U = U.
Proof.
  induction k as [|k IH]; intros tail Hn; cbn; auto. rewrite unpinned_None by (apply Hn; lia).
  apply IH. intros i Hi. apply Hn. lia.
Qed.

Lemma unpin_all_other l d x : forall (k : nat) tail U,
  (forall i, tail <= i < tail + Z.of_nat k -> lblock l i <> x) -> unpin_all k tail l d U !! x = U !! x.
Proof.
  induction k as [|k IH]; intros tail U Hn; cbn; auto.
  rewrite IH by (intros i Hi; apply Hn; lia). apply unpinned_ne. intros ->. now apply (Hn tail); [lia|].
Qed.

Lemma unpin_all_block l d : forall (k : nat) tail U i,
  0 <= tail -> distinct l (tail + Z.of_nat k) -> tail <= i < tail + Z.of_nat k ->
  unpin_all k tail l d U !! lblock l i = unpinned U (lblock l i) (d (st + 1 + i)) !! lblock l i.
Proof.
  induction k as [|k IH]; intros tail U i Ht Hdist Hi; [lia|]. cbn [unpin_all].
  destruct (Z.eq_dec i tail) as [-> | Hne].
  - apply unpin_all_other. intros j Hj E. specialize (Hdist j tail ltac:(lia) ltac:(lia) E). lia.
  - rewrite IH by (try lia; intros a b Ha Hb; apply Hdist; lia).
    assert (E : unpinned U (lblock l tail) (d (st + 1 + tail)) !! lblock l i = U !! lblock l i).
    { apply unpinned_ne. intros E. specialize (Hdist i tail ltac:(lia) ltac:(lia) E). lia. }
    now rewrite !unpinned_eq, E.
Qed.

End log.

(** ** Commit and recovery

    The exact sequences of disk writes of [commit] and [recover_from_log]. *)

Section log.
Context {C : Type} `{BlockCacheLaws C BSIZE NBUF ROOTDEV}.
Variables (st sz pid : Z) (h : locks).
Hypothesis Hh : cache_locks_free h.

(** ** Commit *)

(** A transaction ready to be committed. *)
Record transaction (l : log) (U : blocks_in_use) : Prop := {
  tr_wf : log_wf st sz l;
  tr_n : 0 < lh_n l <= LOGSIZE;
  tr_size : lh_n l < sz;
  tr_distinct : distinct l (lh_n l);
  tr_pinned : forall i, 0 <= i < lh_n l -> pinned st sz U (lblock l i);
  tr_unused : log_unused st sz U;
  tr_cap : Z.of_nat (size U) < NBUF;
}.

Section commit.
Variables (s : fsys C) (c : C) (d : disk_t) (U : blocks_in_use).
Abbreviation l := (lg s).
Hypothesis Ht : transaction l U.
Hypothesis Hc : cst pid c d U.

Definition ntx : nat := Z.to_nat (lh_n l).
Definition W_log := log_entries st l U 0 ntx.
Definition d_logged := apply_writes W_log d.
Definition d_committed := dwrite d_logged st (header_of l (d_logged st)).
Definition W_home := home_writes st l d_committed 0 ntx.
Definition d_installed := apply_writes W_home d_committed.
Definition H_clear := header_of (set_lh_n 0 l) (d_installed st).

Definition commit_writes : list (Z * block) :=
  W_log ++ [(st, header_of l (d_logged st))] ++ W_home ++ [(st, H_clear)].

Lemma block_home i : 0 <= i < lh_n l -> home st sz (lblock l i).
Proof. apply Ht. Qed.

Lemma unpin_all_size k : forall tail l d U, (size (unpin_all st k tail l d U) <= size U)%nat.
Proof.
  induction k as [|k IH]; intros; cbn; auto. etransitivity; [apply IH | apply unpinned_size].
Qed.

Lemma unpin_all_unused d' : log_unused st sz (unpin_all st ntx 0 l d' U).
Proof.
  intros x Hx. destruct Ht as [Hwf Hn Hs Hd Hp Hu Hcap].
  rewrite unpin_all_other; [now apply Hu|]. intros i Hi E. unfold ntx in Hi.
  destruct (block_home i) as [_ Hb]; lia.
Qed.

Lemma commit_run :
  wp commit h (set_bc c s) commit_writes (fun _ s' =>
    exists c', s' = set_bc c' (set_lg (set_lh_n 0 l) s) /\
      cst pid c' (dwrite d_installed st H_clear) (unpin_all st ntx 0 l d_committed U)).
Proof.
  pose proof Ht as [Hwf Hn Hs Hd Hp Hu Hcap].
  unfold commit. apply wp_gets. cbn [lg set_bc].
  destruct (Z.ltb_spec 0 (lh_n l)); [|lia].
  unfold commit_writes. apply wp_bind. unfold write_log. apply wp_gets. cbn [lg set_bc].
  eapply wp_mono; [apply (write_log_loop_run st sz pid h Hh s U l _ 0 c d); auto; try lia; intros; apply Hp; lia|].
  intros _ s' (c1 & -> & Hc1). fold ntx W_log in Hc1. apply wp_bind.
  eapply wp_mono; [apply (write_head_run st sz pid h Hh s l c1 d_logged U); auto; lia|].
  intros _ s' (c2 & -> & Hc2). fold d_committed in Hc2. apply wp_bind.
  unfold install_trans. apply wp_gets. cbn [lg set_bc].
  eapply wp_mono.
  { apply (install_loop_run st sz pid h Hh false s l d_committed _ 0 c2 d_committed U); auto; try lia.
    - intros i Hi. split; [apply block_home; lia|]. split; auto. apply Hp. lia.
    - intros _ i j Hi Hj. apply Hd; lia. }
  intros _ s' (c3 & -> & Hc3). fold ntx W_home d_installed in Hc3. apply wp_modify. cbn [lg set_bc].
  apply (write_head_run st sz pid h Hh (set_lg (set_lh_n 0 l) s) (set_lh_n 0 l) c3); auto.
  - destruct Hwf. now split.
  - unfold LOGSIZE, MAXOPBLOCKS. cbn. lia.
  - apply unpin_all_unused.
  - pose proof (unpin_all_size ntx 0 l d_committed U). lia.
Qed.

(** The file system after the transaction. *)
Definition after_commit : disk_t := fun x =>
  if bool_decide (x ∈ map (lblock l) (seqZ 0 (lh_n l))) then cached U x else d x.

Lemma d_logged_st : d_logged st = d st.
Proof.
  unfold d_logged, W_log, log_entries. apply apply_writes_loop_other. intros i Hi. lia.
Qed.

Lemma disk_block b : U !! b = None -> Z.of_nat (length (d b)) = BSIZE.
Proof.
  intros E. pose proof (cb_blocks _ _ _ b (proj1 Hc)) as Hb. unfold contents in Hb. now rewrite E in Hb.
Qed.

Lemma st_unused : U !! st = None.
Proof. apply (tr_unused _ _ Ht). destruct (lw_geom _ _ _ (tr_wf _ _ Ht)). lia. Qed.

Lemma committed_header :
  hdr_n (d_committed st) = lh_n l /\
  (forall i, 0 <= i < lh_n l -> hdr_block (d_committed st) i = lblock l i) /\
  header_ok st sz (d_committed st).
Proof.
  pose proof Ht as [Hwf Hn Hs Hd Hp Hu Hcap].
  destruct (header_of_spec st sz l (d_logged st)) as (_ & H1 & H2).
  { rewrite d_logged_st. apply disk_block, st_unused. } { lia. } { apply block_home. }
  unfold d_committed. rewrite dwrite_eq. split_and!; auto. unfold header_ok. rewrite H1.
  split_and!; try lia. intros i Hi. rewrite H2 by auto. now apply block_home.
Qed.

Lemma W_home_install : install_writes st d_committed = W_home.
Proof.
  destruct committed_header as (H1 & H2 & _). unfold install_writes, W_home, home_writes. rewrite H1.
  unfold ntx. pose proof (tr_n _ _ Ht). rewrite Z2Nat.id by lia.
  apply map_ext_in. intros i Hi. apply list_elem_of_In, elem_of_seqZ in Hi. rewrite H2 by lia. auto.
Qed.

Lemma committed_entry i : 0 <= i < lh_n l -> d_committed (st + 1 + i) = cached U (lblock l i).
Proof.
  intros Hi. pose proof (tr_n _ _ Ht). unfold d_committed. rewrite dwrite_ne by lia.
  unfold d_logged, W_log, log_entries.
  apply (apply_writes_loop (fun i => st + 1 + i) (fun i => cached U (lblock l i))); [|unfold ntx]; lia.
Qed.

Lemma committed_other x : home st sz x -> d_committed x = d x.
Proof.
  intros [Hx Hx']. pose proof (tr_n _ _ Ht). pose proof (tr_size _ _ Ht). unfold d_committed.
  rewrite dwrite_ne by lia. unfold d_logged, W_log, log_entries.
  apply apply_writes_loop_other. unfold ntx. intros i Hi. lia.
Qed.

(** The header write is the commit point. *)
Lemma logical_committed : same_fs st sz (logical st d_committed) after_commit.
Proof.
  intros x Hx. unfold logical. rewrite W_home_install. unfold after_commit.
  pose proof (tr_n _ _ Ht). unfold W_home, home_writes. unfold ntx.
  case_bool_decide as E.
  - apply list_elem_of_fmap in E as (i & -> & Hi). rewrite elem_of_seqZ in Hi.
    rewrite <- committed_entry by lia.
    apply (apply_writes_loop (lblock l) (fun i => d_committed (st + 1 + i))); [|lia].
    intros a b Ha Hb. apply (tr_distinct _ _ Ht); lia.
  - rewrite apply_writes_loop_other; [now apply committed_other|].
    intros i Hi Ei. apply E. apply list_elem_of_fmap. exists i. rewrite elem_of_seqZ. split; [auto | lia].
Qed.

Lemma W_log_range : Forall (fun p => st < fst p < st + sz) W_log.
Proof.
  pose proof (tr_n _ _ Ht). pose proof (tr_size _ _ Ht).
  apply Forall_forall. intros p. unfold W_log, log_entries. rewrite list_elem_of_fmap. unfold ntx.
  intros (i & -> & Hi). rewrite elem_of_seqZ in Hi. cbn. lia.
Qed.

Lemma H_clear_n : hdr_n H_clear = 0 /\ d_installed st = d_committed st.
Proof.
  destruct committed_header as (_ & _ & Hok).
  assert (E : d_installed st = d_committed st).
  { unfold d_installed. rewrite <- W_home_install.
    rewrite <- (firstn_all (install_writes st d_committed)). now apply (logical_installing st sz). }
  split; auto. unfold H_clear.
  apply (header_of_spec st sz); cbn; [|unfold LOGSIZE, MAXOPBLOCKS; lia|intros; lia].
  rewrite E. unfold d_committed. rewrite dwrite_eq. apply (header_of_spec st sz).
  - rewrite d_logged_st. apply disk_block, st_unused.
  - pose proof (tr_n _ _ Ht). lia. - apply block_home.
Qed.

(** Wherever the power fails, the disk means the file system before the
    transaction or the one after it. *)
Lemma commit_crash d' :
  hdr_n (d st) = 0 -> crash_points commit_writes d d' ->
  header_ok st sz (d' st) /\
  (same_fs st sz (logical st d') d \/ same_fs st sz (logical st d') after_commit).
Proof.
  intros Hz Hcr. destruct committed_header as (_ & _ & Hok). destruct H_clear_n as [Hcl Hst].
  pose proof logical_committed as Hnew. pose proof (tr_n _ _ Ht). pose proof (tr_size _ _ Ht).
  assert (Hempty : forall v, hdr_n v = 0 -> header_ok st sz v).
  { intros v Hv. unfold header_ok. rewrite Hv. unfold LOGSIZE, MAXOPBLOCKS. split_and!; lia. }
  unfold commit_writes in Hcr.
  apply crash_points_app in Hcr as [[k ->] | Hcr].
  { destruct (logical_log_writes st sz d (take k W_log) Hz) as [Hs Hd].
    { apply Forall_take, W_log_range. }
    rewrite Hd. auto. }
  fold d_logged in Hcr. apply crash_points_app in Hcr as [Hcr | Hcr].
  { apply crash_points_one in Hcr as [-> | ->]; [|fold d_committed; auto].
    destruct (logical_log_writes st sz d W_log Hz W_log_range) as [Hs Hd]. fold d_logged in Hs.
    rewrite d_logged_st. auto. }
  cbn [apply_writes] in Hcr. fold d_committed in Hcr. rewrite <- W_home_install in Hcr.
  apply crash_points_app in Hcr as [[k ->] | Hcr].
  { destruct (logical_installing st sz d_committed k Hok) as [Hs Hd]. rewrite Hd.
    split; auto. right. now rewrite Hs. }
  apply crash_points_one in Hcr as [-> | ->].
  - rewrite <- (firstn_all (install_writes st d_committed)) at 1 2 3.
    destruct (logical_installing st sz d_committed (length (install_writes st d_committed)) Hok) as [Hs Hd].
    rewrite Hd. split; auto. right. now rewrite Hs.
  - rewrite dwrite_eq. split; [auto|]. right.
    rewrite (logical_cleared st sz d_committed H_clear Hok Hcl). exact Hnew.
Qed.

(** ** The state after a commit *)

Abbreviation U_after := (unpin_all st ntx 0 l d_committed U).

Lemma installed_home x : home st sz x -> dwrite d_installed st H_clear x = after_commit x.
Proof.
  intros Hx. pose proof (tr_size _ _ Ht). pose proof (tr_n _ _ Ht). destruct Hx as [Hx Hx'].
  rewrite dwrite_ne by lia. unfold d_installed. rewrite <- W_home_install.
  now apply logical_committed.
Qed.

Lemma after_tx i : 0 <= i < lh_n l -> after_commit (lblock l i) = cached U (lblock l i).
Proof.
  intros Hi. unfold after_commit. rewrite bool_decide_eq_true_2; auto.
  apply list_elem_of_fmap. exists i. rewrite elem_of_seqZ. split; [auto | lia].
Qed.

Lemma U_after_tx i : 0 <= i < lh_n l -> exists e, U !! lblock l i = Some e /\
  U_after !! lblock l i = if e_ref e =? 1 then None else Some (Ent (e_ptr e) (e_data e) (e_ref e - 1) None).
Proof.
  intros Hi. destruct (tr_pinned _ _ Ht i Hi) as (_ & e & He & _). exists e. split; auto.
  rewrite unpin_all_block, unpinned_eq, He; try (unfold ntx; lia).
  - rewrite committed_entry by auto. unfold cached. now rewrite He.
  - intros a b Ha Hb. unfold ntx in *. apply (tr_distinct _ _ Ht); lia.
Qed.

Lemma U_after_other x : x ∉ map (lblock l) (seqZ 0 (lh_n l)) -> U_after !! x = U !! x.
Proof.
  intros Hx. apply unpin_all_other. intros i Hi E. apply Hx. apply list_elem_of_fmap.
  exists i. rewrite elem_of_seqZ. unfold ntx in Hi. split; [auto | lia].
Qed.

Lemma contents_after x : home st sz x ->
  contents (dwrite d_installed st H_clear) U_after x = contents d U x.
Proof.
  intros Hx. unfold contents at 1. rewrite installed_home by auto.
  destruct (decide (x ∈ map (lblock l) (seqZ 0 (lh_n l)))) as [Hin | Hin].
  - apply list_elem_of_fmap in Hin as (i & -> & Hi). rewrite elem_of_seqZ in Hi.
    destruct (U_after_tx i ltac:(lia)) as (e & He & ->).
    rewrite after_tx by lia. unfold cached, contents. rewrite He. now destruct (_ =? _).
  - rewrite U_after_other by auto. unfold contents, after_commit.
    now rewrite bool_decide_eq_false_2 by auto.
Qed.

End commit.
(** ** Recovery *)

Fixpoint fill_lh (k : nat) (i : Z) (v : block) (l : log) : log :=
  match k with
  | O => l
  | S k' => fill_lh k' (i + 1) v (set_lh_block (updZ (lh_block l) i (hdr_block v i)) l)
  end.

Lemma fill_lh_wf k : forall i v l, log_wf st sz l -> log_wf st sz (fill_lh k i v l).
Proof.
  induction k as [|k IH]; intros i v l Hl; auto. cbn [fill_lh]. apply IH.
  destruct Hl. split; auto. cbn. now rewrite length_updZ.
Qed.

Lemma fill_lh_n k : forall i v l, lh_n (fill_lh k i v l) = lh_n l.
Proof. induction k; intros; cbn [fill_lh]; auto. now rewrite IHk. Qed.

Lemma fill_lh_before k : forall i v l j, 0 <= j < i -> lblock (fill_lh k i v l) j = lblock l j.
Proof.
  induction k as [|k IH]; intros i v l j Hj; auto. cbn [fill_lh]. rewrite IH by lia.
  apply nthZ_updZ_ne; lia.
Qed.

Lemma fill_lh_block k : forall i v l j, log_wf st sz l -> 0 <= i -> i + Z.of_nat k <= LOGSIZE ->
  i <= j < i + Z.of_nat k -> lblock (fill_lh k i v l) j = hdr_block v j.
Proof.
  induction k as [|k IH]; intros i v l j Hl Hi Hk Hj; [lia|]. cbn [fill_lh].
  destruct (Z.eq_dec j i) as [-> | Hne].
  - rewrite fill_lh_before by lia. unfold lblock. cbn. apply nthZ_updZ_eq.
    rewrite (lw_len _ _ _ Hl). lia.
  - apply IH; try lia. apply (fill_lh_wf 1 i v l Hl).
Qed.

Lemma read_head_loop_run v k : forall i (s : fsys C), 0 <= i -> i + Z.of_nat k <= LOGSIZE ->
  read_head_loop k i v h s = Ret tt h (set_lg (fill_lh k i v (lg s)) s).
Proof.
  induction k as [|k IH]; intros i s Hi Hk; [now destruct s|]. cbn [read_head_loop fill_lh].
  unfold lh_set. destruct (Z.ltb_spec i LOGSIZE); [|lia].
  unfold modlog. rewrite bind_modify, IH by lia. reflexivity.
Qed.

Section recover.
Variables (s : fsys C) (c : C) (d : disk_t) (U : blocks_in_use).
Hypothesis Hwf : log_wf st sz (lg s).
Hypothesis Hc : cst pid c d U.
Hypothesis Hu : log_unused st sz U.
Hypothesis Hcap : Z.of_nat (size U) + 1 < NBUF.
Hypothesis Hhome : forall x, home st sz x -> U !! x = None.
Hypothesis Hok : header_ok st sz (d st).

Definition lg_read : log :=
  fill_lh (Z.to_nat (hdr_n (d st))) 0 (d st) (set_lh_n (hdr_n (d st)) (lg s)).

Lemma read_head_run :
  wp read_head h (set_bc c s) [] (fun _ s' =>
    exists c', s' = set_bc c' (set_lg lg_read s) /\ cst pid c' d U).
Proof.
  destruct Hwf as [Hdev Hst Hsz (Hg1 & Hg2 & Hg3) _]. destruct Hok as (Hn & Hn' & _).
  assert (Hlb : U !! st = None) by (apply Hu; lia).
  unfold read_head. apply wp_gets, wp_gets. cbn [lg set_bc]. rewrite Hdev, Hst.
  apply wp_seq, (wp_bread pid h Hh c s d U); auto; [split; [lia | rewrite Hlb; lia]|].
  intros p c1 _ Hc1. unfold entry_read, contents in Hc1. rewrite Hlb in Hc1.
  apply (wp_bdata pid h c1 s d _ st _ _ Hc1 (lookup_insert_eq _ _ _) eq_refl). cbn [e_data].
  apply wp_modify. apply wp_seq.
  eapply wp_Ret; [apply read_head_loop_run; lia|]. cbn [lg set_lg set_bc].
  eapply (wp_brelse pid h Hh c1 (set_lg lg_read s) d _ st _ p Hc1 (lookup_insert_eq _ _ _));
    [reflexivity.. | reflexivity |].
  intros c2 Hc2. exists c2. split; [reflexivity|].
  unfold released in Hc2. cbn in Hc2. now rewrite delete_insert_id in Hc2.
Qed.

Definition d_recovered : disk_t := apply_writes (install_writes st d) d.
Definition recover_writes : list (Z * block) :=
  install_writes st d ++ [(st, header_of (set_lh_n 0 lg_read) (d_recovered st))].

Lemma recover_run :
  wp recover_from_log h (set_bc c s) recover_writes (fun _ s' =>
    exists c', s' = set_bc c' (set_lg (set_lh_n 0 lg_read) s) /\
      cst pid c' (dwrite d_recovered st (header_of (set_lh_n 0 lg_read) (d_recovered st))) U).
Proof.
  pose proof Hok as (Hn & Hn' & Hb). unfold recover_from_log. apply wp_seq.
  eapply wp_mono; [apply read_head_run|]. intros _ s' (c1 & -> & Hc1).
  assert (Hl : log_wf st sz lg_read) by (apply fill_lh_wf; destruct Hwf; now split).
  assert (Hln : lh_n lg_read = hdr_n (d st)) by apply fill_lh_n.
  assert (Hlb : forall i, 0 <= i < hdr_n (d st) -> lblock lg_read i = hdr_block (d st) i).
  { intros i Hi. apply fill_lh_block; try lia. destruct Hwf; now split. }
  assert (Hw : home_writes st lg_read d 0 (Z.to_nat (hdr_n (d st))) = install_writes st d).
  { unfold home_writes, install_writes. rewrite Z2Nat.id by lia. apply map_ext_in.
    intros i Hi. apply list_elem_of_In, elem_of_seqZ in Hi. rewrite Hlb by lia. auto. }
  unfold recover_writes. apply wp_bind. unfold install_trans. apply wp_gets.
  cbn [lg set_bc set_lg]. rewrite Hln, <- Hw. eapply wp_mono.
  { apply (install_loop_run st sz pid h Hh true (set_lg lg_read s) lg_read d _ 0 c1 d U); auto; try lia; try discriminate.
    intros i Hi. rewrite Hlb by lia. split; [|split; auto]; auto; try apply Hhome; apply Hb; lia. }
  intros _ s' (c2 & -> & Hc2).
  rewrite unpin_all_recovering in Hc2 by (intros i Hi; rewrite Hlb by lia; apply Hhome, Hb; lia).
  rewrite Hw in Hc2. apply wp_modify. cbn [lg set_bc set_lg].
  apply (write_head_run st sz pid h Hh (set_lg (set_lh_n 0 lg_read) s) (set_lh_n 0 lg_read) c2); auto.
  - destruct Hl. now split.
  - unfold LOGSIZE, MAXOPBLOCKS. cbn. lia.
  - lia.
Qed.

Lemma recovered_header : hdr_n (header_of (set_lh_n 0 lg_read) (d_recovered st)) = 0.
Proof.
  apply (header_of_spec st sz); cbn; [|unfold LOGSIZE, MAXOPBLOCKS; lia|intros; lia].
  unfold d_recovered. rewrite <- (firstn_all (install_writes st d)).
  rewrite (proj2 (logical_installing st sz d _ Hok)).
  pose proof (cb_blocks _ _ _ st (proj1 Hc)) as E. unfold contents in E.
  rewrite Hu in E; auto. destruct (lw_geom _ _ _ Hwf). lia.
Qed.

(** A crash during recovery leaves a disk with the same meaning. *)
Lemma recover_crash d' : crash_points recover_writes d d' ->
  header_ok st sz (d' st) /\ same_fs st sz (logical st d') (logical st d).
Proof.
  intros Hcr. pose proof recovered_header as H0'. unfold recover_writes in Hcr.
  apply crash_points_app in Hcr as [[k ->] | Hcr].
  { destruct (logical_installing st sz d k Hok) as [Hs Hd]. now rewrite Hd. }
  fold d_recovered in Hcr. apply crash_points_one in Hcr as [-> | ->].
  - unfold d_recovered. rewrite <- (firstn_all (install_writes st d)).
    destruct (logical_installing st sz d (length (install_writes st d)) Hok) as [Hs Hd]. now rewrite Hd.
  - rewrite dwrite_eq. split.
    + unfold header_ok. rewrite H0'. pose proof Hok as (? & ? & _).
      unfold LOGSIZE, MAXOPBLOCKS. split_and!; lia.
    + now apply logical_cleared.
Qed.

End recover.
End log.
