(* ===== verification/LogOps.v ===== *)
(** * Transactions: begin_op, log_write and end_op *)

From S2P Require Import Prelude KMonad Riscv Trace Sleeplock Bio BioSpec FsState Log LogCrash.

Lemma wp_step {S A B} (m : M S A) (m' : M S B) (f : B -> A) h s tr s1 w (Q : A -> S -> Prop) :
  m h s = emits tr (bind m' (fun b => ret (f b)) h s1) -> writes tr = [] ->
  wp m' h s1 w (fun b => Q (f b)) -> wp m h s w Q.
Proof.
  intros E Htr (tr' & b & s2 & Hr & Hw & HQ). exists (tr ++ tr'), (f b), s2. split_and!; auto.
  - unfold runs. rewrite E, emits_app. f_equal. now rewrite (bind_emits _ _ _ _ _ _ _ _ Hr).
  - now rewrite writes_app, Htr.
Qed.

(** A successful round of [begin_op]. *)
Lemma begin_op_go {C} `{BlockCache C} n h (s : fsys C) :
  committing (lg s) = 0 -> 0 <= lh_n (lg s) -> 0 <= outstanding (lg s) ->
  lh_n (lg s) + (outstanding (lg s) + 1) * MAXOPBLOCKS <= LOGSIZE ->
  begin_op_loop (S n) (log_lock :: h) s =
    Ret tt h (set_lg (set_outstanding (outstanding (lg s) + 1) (lg s)) s).
Proof.
  intros H1 H2 H3 H4. unfold LOGSIZE, MAXOPBLOCKS in H4. cbn [begin_op_loop].
  unfold getlog, modlog, id. krun. rewrite H1. cbn [Z.eqb negb].
  rewrite i32_small by (unfold MAXOPBLOCKS; lia).
  destruct (Z.ltb_spec LOGSIZE (lh_n (lg s) + (outstanding (lg s) + 1) * MAXOPBLOCKS)).
  - unfold LOGSIZE, MAXOPBLOCKS in *. lia.
  - krun. rewrite (i32_small (outstanding (lg s) + 1)) by lia. reflexivity.
Qed.

Section ops.
Context {C : Type} `{BlockCacheLaws C BSIZE NBUF ROOTDEV}.
Variables (st sz pid : Z) (h : locks).
Hypothesis Hh : cache_locks_free h.
Hypothesis Hlog : log_lock ∉ h.

Lemma set_bc_id (s : fsys C) : set_bc (bc s) s = s.
Proof. now destruct s. Qed.

(** ** end_op *)

Lemma end_op_last (s : fsys C) :
  committing (lg s) = 0 -> outstanding (lg s) = 1 ->
  end_op h s = (commit;; acquire log_lock;; modlog (set_committing 0);; wakeup ch_log;; release log_lock)
    h (set_lg (set_committing 1 (set_outstanding 0 (lg s))) s).
Proof.
  intros Hcm Ho. unfold end_op, getlog, modlog, id. krun. cbn [lg set_lg outstanding set_outstanding committing].
  rewrite Hcm, Ho. change (i32 (1 - 1)) with 0. cbn [Z.eqb negb]. krun. reflexivity.
Qed.

Lemma end_op_tail (s : fsys C) :
  (acquire log_lock;; modlog (set_committing 0);; wakeup ch_log;; release log_lock) h s =
  emits [EvWakeup ch_log] (Ret tt h (set_lg (set_committing 0 (lg s)) s)).
Proof.
  unfold modlog. krun. unfold bind, wakeup, emit. cbn. now rewrite release_top.
Qed.

(** The state in which [end_op] calls [commit]. *)
Definition ending (s : fsys C) : fsys C := set_lg (set_committing 1 (set_outstanding 0 (lg s))) s.

Lemma ending_transaction s U : transaction st sz (lg s) U -> transaction st sz (lg (ending s)) U.
Proof. intros [[] ? ? ? ? ? ?]. split; auto. split; auto. Qed.

Lemma end_op_run (s : fsys C) c d U : let s1 := ending s in
  committing (lg s) = 0 -> outstanding (lg s) = 1 -> transaction st sz (lg s) U -> cst pid c d U ->
  wp end_op h (set_bc c s) (commit_writes st s1 d U) (fun _ s' =>
    exists c', s' = set_bc c' (set_lg (set_lh_n 0 (set_outstanding 0 (lg s))) s) /\
      cst pid c' (dwrite (d_installed st s1 d U) st (H_clear st s1 d U))
        (unpin_all st (ntx s1) 0 (lg s1) (d_committed st s1 d U) U)).
Proof.
  intros s1 Hcm Ho Ht Hc. apply ending_transaction in Ht as Ht1.
  destruct (commit_run st sz pid h Hh s1 c d U Ht1 Hc) as (tr & [] & s2 & Hr & Hw & c' & -> & Hc').
  exists (tr ++ [EvWakeup ch_log]), tt. eexists. split_and!; cycle 2.
  - exists c'. split; [reflexivity | exact Hc'].
  - unfold runs. rewrite end_op_last by auto. rewrite (bind_emits _ _ _ _ _ _ _ _ Hr), emits_app.
    f_equal. rewrite end_op_tail. unfold set_lh_n at 2, set_outstanding, set_lg, set_bc. cbn.
    now rewrite <- Hcm.
  - rewrite writes_app, Hw. apply app_nil_r.
Qed.

(** ** log_write *)

(** The blocks of the transaction. *)
Definition tx_blocks (l : log) : list Z := map (lblock l) (seqZ 0 (lh_n l)).

Definition log_add (l : log) (b : Z) : log :=
  if bool_decide (b ∈ tx_blocks l) then l
  else set_lh_n (lh_n l + 1) (set_lh_block (updZ (lh_block l) (lh_n l) b) l).

(** A log in which [log_write] has room. *)
Record log_room (l : log) : Prop := {
  lr_wf : log_wf st sz l;
  lr_n : 0 <= lh_n l < LOGSIZE;
  lr_size : lh_n l < sz - 1;
  lr_out : 1 <= outstanding l;
  lr_home : forall i, 0 <= i < lh_n l -> home st sz (lblock l i);
}.

Lemma absorb_spec b bs : forall (k : nat) i,
  0 <= i -> (forall j, i <= j < i + Z.of_nat k -> 0 <= nthZ 0 bs j < 2 ^ 31) ->
  let r := absorb k i bs b in
  i <= r <= i + Z.of_nat k /\ (r < i + Z.of_nat k -> nthZ 0 bs r = b) /\
  (forall j, i <= j < r -> nthZ 0 bs j <> b).
Proof.
  induction k as [|k IH]; intros i Hi Hb; cbn [absorb].
  - split_and!; intros; lia.
  - rewrite u32_small by (specialize (Hb i); lia).
    destruct (Z.eqb_spec (nthZ 0 bs i) b) as [E | E].
    + split_and!; intros; try lia; auto.
    + destruct (IH (i + 1)) as (H1 & H2 & H3); [lia|intros; apply Hb; lia|].
      split; [lia|]. split; [intros; apply H2; lia|].
      intros j Hj. destruct (Z.eq_dec j i) as [-> |]; [auto | apply H3; lia].
Qed.

Lemma updZ_id (bs : list Z) i : 0 <= i < Z.of_nat (length bs) -> updZ bs i (nthZ 0 bs i) = bs.
Proof.
  intros Hi. unfold updZ, nthZ. rewrite nth_lookup.
  destruct (lookup_lt_is_Some_2 bs (Z.to_nat i)) as [x Hx]; [lia|].
  rewrite Hx. cbn. now apply list_insert_id.
Qed.

(** The block ends up in the header once: where it was, or at the end. *)
Lemma absorb_add l b : log_room l -> 0 <= b < 2 ^ 31 ->
  let i := absorb (Z.to_nat (lh_n l)) 0 (lh_block l) b in
  0 <= i <= lh_n l /\
  (b ∈ tx_blocks l -> i <> lh_n l /\ updZ (lh_block l) i b = lh_block l) /\
  (b ∉ tx_blocks l -> i = lh_n l).
Proof.
  intros [Hwf Hn Hs Ho Hh'] Hb i.
  destruct (absorb_spec b (lh_block l) (Z.to_nat (lh_n l)) 0) as (H1 & H2 & H3); [lia| |].
  { intros j Hj. apply (Hh' j). lia. }
  fold i in H1, H2, H3. rewrite Z2Nat.id in H1, H2 by lia. split; [lia|].
  assert (Hin : b ∈ tx_blocks l <-> i < lh_n l).
  { unfold tx_blocks. rewrite list_elem_of_fmap. split.
    - intros (j & -> & Hj). rewrite elem_of_seqZ in Hj.
      destruct (Z_lt_le_dec j i); [|lia]. exfalso. apply (H3 j); [lia | reflexivity].
    - intros Hi. exists i. rewrite elem_of_seqZ. split; [|lia]. symmetry. apply H2. lia. }
  rewrite Hin. split; [|lia]. intros Hi. split; [lia|]. rewrite <- H2 by lia.
  apply updZ_id. rewrite (lw_len _ _ _ Hwf). lia.
Qed.

Lemma cache_locks_log : cache_locks_free (log_lock :: h).
Proof. destruct Hh as [H1 H2]. split; [|intros a]; rewrite not_elem_of_cons; split; auto; discriminate. Qed.

Lemma log_write_run (s : fsys C) c d U b e p :
  log_room (lg s) -> home st sz b -> cst pid c d U -> U !! b = Some e -> e_ptr e = p ->
  e_ref e + 1 < 2 ^ 32 ->
  wp (log_write p) h (set_bc c s) [] (fun _ s' => exists c',
    s' = set_bc c' (set_lg (log_add (lg s) b) s) /\
    cst pid c' d (if bool_decide (b ∈ tx_blocks (lg s)) then U else <[b := entry_ref (e_ref e + 1) e]> U)).
Proof.
  intros Hroom [Hb _] Hc He Hp Href.
  destruct (absorb_add (lg s) b Hroom Hb) as (Hi & Hin & Hnin).
  destruct Hroom as [Hwf Hn Hs Ho _].
  set (i := absorb _ 0 _ b) in *.
  assert (E : exists c', log_write p h (set_bc c s) =
     Ret tt h (set_bc c' (set_lg (log_add (lg s) b) s)) /\
     cst pid c' d (if bool_decide (b ∈ tx_blocks (lg s)) then U else <[b := entry_ref (e_ref e + 1) e]> U)).
  { unfold log_write, getlog, bno, id. krun. cbn [lg bc set_bc].
    rewrite (lw_size _ _ _ Hwf).
    destruct (Z.leb_spec LOGSIZE (lh_n (lg s))); [lia|].
    destruct (Z.leb_spec (sz - 1) (lh_n (lg s))); [lia|]. cbn [orb].
    destruct (Z.ltb_spec (outstanding (lg s)) 1); [lia|]. krun. cbn [lg bc set_bc].
    destruct (cb_entry _ _ _ _ _ (proj1 Hc) He) as (_ & Eb & _). rewrite Hp in Eb. rewrite Eb. fold i.
    rewrite (i32_small b) by lia. unfold lh_set. destruct (Z.ltb_spec i LOGSIZE); [|lia].
    unfold log_add, modlog. krun. cbn [lg bc set_bc set_lg].
    case_bool_decide as Hd.
    - destruct (Hin Hd) as [Hne Hupd]. destruct (Z.eqb_spec i (lh_n (lg s))); [lia|]. krun.
      exists c. split; auto. rewrite Hupd. now destruct s as [? [] ? ?].
    - rewrite (Hnin Hd), Z.eqb_refl. destruct Hc as [Hr Hpid].
      destruct (cb_pin_law _ _ _ _ _ (log_lock :: h) Hr cache_locks_log He Href) as (c' & Ep & Hpid' & Hr').
      rewrite Hp in Ep.
      pose proof (zoom_Ret bc set_bc (cb_pin p) (log_lock :: h) (set_lg
        (set_lh_block (updZ (lh_block (lg s)) (lh_n (lg s)) b) (lg s)) (set_bc c s)) tt _ c' Ep) as Ez.
      unfold bpin. rewrite bind_bind, (bind_Ret _ _ _ _ _ _ _ Ez). krun. cbn [lg set_lg set_bc lh_n set_lh_block].
      rewrite i32_small by (unfold LOGSIZE, MAXOPBLOCKS in *; lia).
      exists c'. split; [reflexivity | split; congruence]. }
  destruct E as (c' & E & Hc'). eapply wp_Ret; [exact E|]. eauto.
Qed.

(** ** Updating a block inside a transaction *)

(** The state of the log and the cache between operations of a transaction. *)
Record tx_open (l : log) (U : blocks_in_use) : Prop := {
  to_wf : log_wf st sz l;
  to_n : 0 <= lh_n l <= LOGSIZE;
  to_size : lh_n l < sz;
  to_distinct : distinct l (lh_n l);
  to_pinned : forall i, 0 <= i < lh_n l -> pinned st sz U (lblock l i);
  to_unused : log_unused st sz U;
  to_cap : Z.of_nat (size U) < NBUF;
}.

Lemma tx_open_transaction l U : tx_open l U -> 0 < lh_n l -> transaction st sz l U.
Proof. intros [] Hn. split; auto. lia. Qed.

Lemma lblock_add l b i : log_wf st sz l -> 0 <= lh_n l < LOGSIZE -> b ∉ tx_blocks l ->
  0 <= i < lh_n (log_add l b) -> lblock (log_add l b) i = if i =? lh_n l then b else lblock l i.
Proof.
  intros Hwf Hn Hb. unfold log_add. rewrite bool_decide_eq_false_2 by auto. cbn.
  intros Hi. unfold lblock. cbn. destruct (Z.eqb_spec i (lh_n l)) as [-> | Hne].
  - apply nthZ_updZ_eq. rewrite (lw_len _ _ _ Hwf). lia.
  - apply nthZ_updZ_ne; lia.
Qed.

Lemma elem_tx l i : 0 <= i < lh_n l -> lblock l i ∈ tx_blocks l.
Proof. intros Hi. apply list_elem_of_fmap. exists i. rewrite elem_of_seqZ. split; [auto | lia]. Qed.

Lemma log_add_wf l b : log_wf st sz l -> log_wf st sz (log_add l b).
Proof. intros []. unfold log_add. case_bool_decide; split; auto. cbn. now rewrite length_updZ. Qed.

Lemma elem_log_add l b x : log_wf st sz l -> 0 <= lh_n l < LOGSIZE ->
  x ∈ tx_blocks (log_add l b) <-> x ∈ tx_blocks l \/ x = b.
Proof.
  intros Hwf Hn. destruct (decide (b ∈ tx_blocks l)) as [Hin | Hin].
  { unfold log_add. rewrite bool_decide_eq_true_2 by auto. split; [auto | now intros [? | ->]]. }
  assert (Hn' : lh_n (log_add l b) = lh_n l + 1).
  { unfold log_add. now rewrite bool_decide_eq_false_2. }
  unfold tx_blocks at 1. rewrite list_elem_of_fmap, Hn'. split.
  - intros (i & -> & Hi). rewrite elem_of_seqZ in Hi. rewrite lblock_add by (auto; lia).
    destruct (Z.eqb_spec i (lh_n l)); [auto|]. left. apply elem_tx. lia.
  - intros [Hx | ->].
    + apply list_elem_of_fmap in Hx as (i & -> & Hi). rewrite elem_of_seqZ in Hi.
      exists i. rewrite elem_of_seqZ, lblock_add by (auto; lia).
      destruct (Z.eqb_spec i (lh_n l)); [lia|]. split; [auto | lia].
    + exists (lh_n l). rewrite elem_of_seqZ, lblock_add, Z.eqb_refl by (auto; lia). split; [auto | lia].
Qed.

Lemma distinct_log_add l b : log_wf st sz l -> 0 <= lh_n l < LOGSIZE ->
  distinct l (lh_n l) -> distinct (log_add l b) (lh_n (log_add l b)).
Proof.
  intros Hwf Hn Hd. destruct (decide (b ∈ tx_blocks l)) as [Hin | Hin].
  { unfold log_add. now rewrite bool_decide_eq_true_2. }
  pose proof (lblock_add l b) as Hl. intros i j Hi Hj. rewrite !Hl by auto. unfold log_add in Hi, Hj.
  rewrite bool_decide_eq_false_2 in Hi, Hj by auto. cbn in Hi, Hj.
  destruct (Z.eqb_spec i (lh_n l)), (Z.eqb_spec j (lh_n l)); try lia.
  - intros E. exfalso. apply Hin. rewrite E. apply elem_tx. lia.
  - intros E. exfalso. apply Hin. rewrite <- E. apply elem_tx. lia.
  - apply Hd; lia.
Qed.

Lemma tx_open_add l U b e : tx_open l U -> log_room l -> home st sz b ->
  e_holder e = None -> e_ref e + 1 < 2 ^ 32 -> Z.of_nat (size (<[b := e]> U)) < NBUF ->
  tx_open (log_add l b) (<[b := e]> U).
Proof.
  intros [Hwf Hn Hs Hd Hp Hu Hcap] [_ Hn' Hs' _ _] Hb Hold Href Hsz.
  assert (Hpin : forall x, pinned st sz U x -> pinned st sz (<[b := e]> U) x).
  { intros x [Hx Hx']. split; auto. destruct (decide (x = b)) as [-> |].
    - exists e. now rewrite lookup_insert_eq. - now rewrite lookup_insert_ne. }
  assert (Hbpin : pinned st sz (<[b := e]> U) b).
  { split; auto. exists e. now rewrite lookup_insert_eq. }
  assert (Hu' : log_unused st sz (<[b := e]> U)).
  { intros x Hx. rewrite lookup_insert_ne; [now apply Hu|]. destruct Hb. lia. }
  destruct (decide (b ∈ tx_blocks l)) as [Hin | Hin].
  { unfold log_add. rewrite bool_decide_eq_true_2 by auto. split; auto. }
  pose proof (lblock_add l b) as Hl. pose proof (distinct_log_add l b) as Hd'. split; auto.
  - now apply log_add_wf.
  - unfold log_add. rewrite bool_decide_eq_false_2 by auto. cbn. lia.
  - unfold log_add. rewrite bool_decide_eq_false_2 by auto. cbn. lia.
  - intros i Hi. rewrite Hl by auto. unfold log_add in Hi.
    rewrite bool_decide_eq_false_2 in Hi by auto. cbn in Hi.
    destruct (Z.eqb_spec i (lh_n l)); auto. apply Hpin, Hp. lia.
Qed.

(** The use of [log_write] that its comment describes. *)
Definition update_block (b : Z) (f : block -> block) : M (fsys C) unit :=
  p <- bread ROOTDEV b;;
  v <- bdata p;;
  bset p (f v);;
  log_write p;;
  brelse p.

Definition refs (U : blocks_in_use) (b : Z) : Z :=
  match U !! b with Some e => e_ref e | None => 0 end.

Lemma update_block_run (s : fsys C) c d U b f :
  tx_open (lg s) U -> log_room (lg s) -> cst pid c d U -> home st sz b ->
  can_read U b -> refs U b + 2 < 2 ^ 32 -> Z.of_nat (length (f (contents d U b))) = BSIZE ->
  wp (update_block b f) h (set_bc c s) [] (fun _ s' => exists c' p,
    s' = set_bc c' (set_lg (log_add (lg s) b) s) /\
    cst pid c' d (<[b := Ent p (f (contents d U b))
      (if bool_decide (b ∈ tx_blocks (lg s)) then refs U b else refs U b + 1) None]> U)).
Proof.
  intros Hopen Hroom Hc Hb Hread Href Hlen. unfold update_block.
  apply wp_seq, (wp_bread pid h Hh c s d U b _ Hc Hread). intros p c1 _ Hc1.
  replace (entry_read d U b p pid) with (Ent p (contents d U b) (refs U b + 1) (Some pid)) in Hc1
    by (unfold entry_read, refs; now destruct (U !! b)).
  apply (wp_bdata pid h c1 s d _ b _ _ Hc1 (lookup_insert_eq _ _ _) eq_refl). cbn [e_data].
  apply wp_seq. eapply (wp_bset pid h c1 s d _ b _ p Hc1 (lookup_insert_eq _ _ _)); [reflexivity.. | auto |].
  intros c2 Hc2. rewrite insert_insert_eq in Hc2. unfold entry_data in Hc2. cbn [e_ptr e_ref e_holder] in Hc2.
  apply wp_seq. eapply wp_mono.
  { eapply (log_write_run s c2 d _ b _ p Hroom Hb Hc2 (lookup_insert_eq _ _ _)); [reflexivity | cbn; lia]. }
  intros _ s' (c3 & -> & Hc3).
  assert (Hin : b ∈ tx_blocks (lg s) -> 1 <= refs U b).
  { intros Hin. apply list_elem_of_fmap in Hin as (i & -> & Hi). rewrite elem_of_seqZ in Hi.
    destruct (to_pinned _ _ Hopen i ltac:(lia)) as (_ & e & He & _). unfold refs. rewrite He.
    apply (ref_pos _ _ _ _ _ _ Hc He). }
  assert (Hpos : 0 <= refs U b).
  { unfold refs. destruct (U !! b) eqn:E; [|lia]. pose proof (ref_pos _ _ _ _ _ _ Hc E). lia. }
  case_bool_decide as Hd.
  - eapply (wp_brelse pid h Hh c3 _ d _ b _ p Hc3 (lookup_insert_eq _ _ _)); [reflexivity.. | cbn; specialize (Hin Hd); lia|].
    intros c4 Hc4. exists c4, p. split; auto. unfold released in Hc4. cbn in Hc4. specialize (Hin Hd).
    destruct (Z.eqb_spec (refs U b + 1) 1); [lia|]. rewrite insert_insert_eq in Hc4.
    replace (refs U b + 1 - 1) with (refs U b) in Hc4 by lia. exact Hc4.
  - rewrite insert_insert_eq in Hc3.
    eapply (wp_brelse pid h Hh c3 _ d _ b _ p Hc3 (lookup_insert_eq _ _ _)); [reflexivity.. | cbn; lia|].
    intros c4 Hc4. exists c4, p. split; auto. unfold released in Hc4. cbn in Hc4.
    destruct (Z.eqb_spec (refs U b + 1 + 1) 1); [lia|]. rewrite insert_insert_eq in Hc4.
    replace (refs U b + 1 + 1 - 1) with (refs U b + 1) in Hc4 by lia. exact Hc4.
Qed.

End ops.

(** ** A small file system for examples

    The cache of [BioSpec.v] with a log of 30 blocks at block 2, as mkfs makes
    it. *)

Definition demo_sb : superblock := Superblock 0x10203040 2000 1954 200 30 2 32 45.

Definition demo_fs (used : bool) (out : Z) : fsys bcache :=
  FSys (demo_cache used)
    (Log 2 30 out 0 ROOTDEV (if used then 1 else 0) ((if used then 40 else 0) :: repeat 0 29))
    demo_sb (fun _ => Inode 0 0 0 (SLock 0 0) 0 0 0 0 0 0 []).

Lemma demo_wf used out : log_wf 2 30 (lg (demo_fs used out)).
Proof. split; try reflexivity. lia. Qed.

Lemma demo_home : home 2 30 40.
Proof. split; lia. Qed.

Lemma demo_unused used : log_unused 2 30 (demo_use used).
Proof.
  intros x Hx. unfold demo_use. destruct used; [|apply lookup_empty].
  apply lookup_singleton_ne. lia.
Qed.

Lemma demo_open used out : tx_open 2 30 (lg (demo_fs used out)) (demo_use used).
Proof.
  split; try apply demo_wf; try apply demo_unused.
  - destruct used; cbn; unfold LOGSIZE, MAXOPBLOCKS; lia.
  - destruct used; cbn; lia.
  - intros i j Hi Hj _. destruct used; cbn in *; lia.
  - intros i Hi. destruct used; cbn in Hi; [|lia]. assert (i = 0) as -> by lia.
    split; [apply demo_home|]. eexists. split; [reflexivity|]. split; [reflexivity|]. cbn. lia.
  - destruct used; reflexivity.
Qed.

Lemma demo_transaction out : transaction 2 30 (lg (demo_fs true out)) (demo_use true).
Proof. apply tx_open_transaction; [apply demo_open | cbn; lia]. Qed.

Lemma demo_room out : 1 <= out -> log_room 2 30 (lg (demo_fs true out)).
Proof.
  intros Ho. split; [apply demo_wf | | | exact Ho |]; cbn; unfold LOGSIZE, MAXOPBLOCKS; try lia.
  intros i Hi. assert (i = 0) as -> by lia. apply demo_home.
Qed.
