(* ===== verification/LogSpec.v ===== *)
(** * Correctness of the write-ahead log

    [end_op] makes the updates of a transaction durable atomically: whatever
    the moment of a power failure, and however many further failures happen
    during recovery, the next complete boot finds either all of them or none. *)

From S2P Require Import Prelude KMonad Riscv Trace Sleeplock FsState.
From S2P Require Import Log LogCrash LogOps.
From S2P Require Import Bio BioSpec.

Section log.
Context {C : Type} `{BlockCacheLaws C BSIZE NBUF ROOTDEV}.

(** ** Booting *)

(** The kernel just before [initlog]: a cache with nothing in use over the
    disk [d]. *)
Definition boot_state (s : fsys C) (d : disk_t) : Prop :=
  cb_rel (bc s) d ∅ /\ length (lh_block (lg s)) = Z.to_nat LOGSIZE.

(** Where the super block puts the log. *)
Record geometry (x : superblock) (st sz : Z) : Prop := {
  ge_start : sb_logstart x = st;
  ge_size : sb_nlog x = sz;
  ge_range : 0 <= st /\ 1 <= sz /\ st + sz < 2 ^ 31;
}.

Section boot.
Variables (x : superblock) (st sz : Z) (h : locks).
Hypothesis Hx : geometry x st sz.
Hypothesis Hh : cache_locks_free h.

Definition booted (s : fsys C) : fsys C :=
  set_lg (Log st sz (outstanding (lg s)) (committing (lg s)) ROOTDEV (lh_n (lg s)) (lh_block (lg s))) s.

Lemma initlog_eq (s : fsys C) : initlog ROOTDEV x h s = recover_from_log h (booted s).
Proof.
  destruct Hx as [E1 E2 (Hg1 & Hg2 & Hg3)]. unfold initlog, initlock, modlog. cbn [Z.leb].
  change (BSIZE <=? 4 + 4 * LOGSIZE) with false. cbv iota. krun.
  rewrite E1, E2, !i32_small by lia. reflexivity.
Qed.

Lemma booted_wf s d : boot_state s d -> log_wf st sz (lg (booted s)).
Proof. intros [_ Hl]. split; auto. apply (ge_range _ _ _ Hx). Qed.

Lemma initlog_wp s d : boot_state s d -> header_ok st sz (d st) ->
  wp (initlog ROOTDEV x) h s (recover_writes st (booted s) d) (fun _ s' =>
    exists d', cb_rel (bc s') d' ∅ /\ same_fs st sz d' (logical st d) /\ hdr_n (d' st) = 0 /\
      log_wf st sz (lg s') /\ lh_n (lg s') = 0).
Proof.
  intros Hb Hok. pose proof (booted_wf s d Hb) as Hwf. destruct Hb as [Hr Hl].
  assert (Hc : cst (cb_pid (bc s)) (bc s) d ∅) by (split; auto).
  assert (Hu : log_unused st sz ∅) by (intros z _; apply lookup_empty).
  destruct (recover_run st sz (cb_pid (bc s)) h Hh (booted s) (bc s) d ∅ Hwf Hc Hu) as (tr & a & s' & E & Hw & Q);
    auto; try apply lookup_empty; [rewrite map_size_empty; unfold NBUF, MAXOPBLOCKS; lia|].
  exists tr, a, s'. split_and!; auto.
  { unfold runs in *. rewrite initlog_eq, <- E. reflexivity. }
  destruct Q as (c' & -> & Hc' & _). eexists. split; [exact Hc'|].
  pose proof (recovered_header st sz _ (booted s) (bc s) d ∅ Hwf Hc Hu Hok) as Hz.
  split_and!.
  - intros z Hz0. rewrite <- (logical_cleared st sz d _ Hok Hz z Hz0).
    symmetry. apply (f_equal (fun f => f z)), logical_empty. rewrite dwrite_eq. exact Hz.
  - now rewrite dwrite_eq.
  - cbn. destruct (fill_lh_wf st sz (Z.to_nat (hdr_n (d st))) 0 (d st)
      (set_lh_n (hdr_n (d st)) (lg (booted s)))); [destruct Hwf; now split|]. now split.
  - reflexivity.
Qed.

Lemma initlog_crash s d d' : boot_state s d -> header_ok st sz (d st) ->
  crash (initlog ROOTDEV x h s) d d' ->
  header_ok st sz (d' st) /\ same_fs st sz (logical st d') (logical st d).
Proof.
  intros Hb Hok Hcr. pose proof (booted_wf s d Hb) as Hwf.
  pose proof (wp_crash _ _ _ _ _ _ _ (initlog_wp s d Hb Hok) Hcr) as Hp.
  destruct Hb as [Hr Hl].
  apply (recover_crash st sz (cb_pid (bc s)) (booted s) (bc s) d ∅); auto.
  - split; auto. - intros z _. apply lookup_empty.
Qed.

End boot.

(** Boots that are cut off by a power failure during [initlog]. *)
Inductive failed_boots (x : superblock) (h : locks) : disk_t -> disk_t -> Prop :=
| no_boot d : failed_boots x h d d
| failed_boot d s d1 d2 :
    boot_state s d -> crash (initlog ROOTDEV x h s) d d1 ->
    failed_boots x h d1 d2 -> failed_boots x h d d2.

Lemma failed_boots_logical x h st sz d d' : geometry x st sz -> cache_locks_free h ->
  failed_boots x h d d' -> header_ok st sz (d st) ->
  header_ok st sz (d' st) /\ same_fs st sz (logical st d') (logical st d).
Proof.
  intros Hx Hh Hf. induction Hf as [d | d s d1 d2 Hs Hcr Hf IH]; intros Hok.
  { split; [auto | reflexivity]. }
  destruct (initlog_crash x st sz h Hx Hh s d d1 Hs Hok Hcr) as [Hok1 Hl1].
  destruct (IH Hok1) as [Hok2 Hl2]. split; auto. now rewrite Hl2.
Qed.
(** C3: Crash safety.  Let a transaction be ready when the last operation
    calls [end_op].  If the power fails at any point of [end_op], and then any
    number of times during the recovery of the following boots, the first boot
    that completes [initlog] finds the file system as it was before the
    transaction, or with every one of its blocks updated; nothing in between. *)
Theorem end_op_crash_safe x st sz h (s : fsys C) d U d1 d2 (s2 : fsys C) :
  geometry x st sz -> cache_locks_free h -> log_lock ∉ h ->
  committing (lg s) = 0 -> outstanding (lg s) = 1 ->
  transaction st sz (lg s) U -> cb_rel (bc s) d U -> hdr_n (d st) = 0 ->
  crash (end_op h s) d d1 -> failed_boots x h d1 d2 -> boot_state s2 d2 ->
  exists w, wp (initlog ROOTDEV x) h s2 w (fun _ s3 =>
    exists d3, cb_rel (bc s3) d3 ∅ /\ hdr_n (d3 st) = 0 /\
      (same_fs st sz d3 d \/ same_fs st sz d3 (after_commit s d U))).
Proof.
  intros Hx Hh Hl Hcm Ho Ht Hr Hz Hcr Hf Hb.
  assert (Hc : cst (cb_pid (bc s)) (bc s) d U) by (split; auto).
  pose proof (end_op_run st sz _ h Hh Hl s (bc s) d U Hcm Ho Ht Hc) as Hrun.
  rewrite set_bc_id in Hrun.
  destruct (commit_crash st sz _ (ending s) (bc s) d U (ending_transaction st sz s U Ht) Hc d1 Hz
    (wp_crash _ _ _ _ _ _ _ Hrun Hcr)) as [Hok1 Hold].
  destruct (failed_boots_logical x h st sz d1 d2 Hx Hh Hf Hok1) as [Hok2 Hl2].
  eexists. eapply wp_mono; [apply (initlog_wp x st sz h Hx Hh s2 d2 Hb Hok2)|].
  intros _ s3 (d3 & Hr3 & Hs3 & Hz3 & _). exists d3. split_and!; auto.
  rewrite Hs3, Hl2. exact Hold.
Qed.

(** Without a failure, [end_op] of the last operation returns with the
    transaction on the disk, the log empty and its header cleared, the pins of
    its blocks gone, and what every block reads as unchanged. *)
Theorem end_op_commits st sz h (s : fsys C) d U :
  cache_locks_free h -> log_lock ∉ h -> committing (lg s) = 0 -> outstanding (lg s) = 1 ->
  transaction st sz (lg s) U -> cb_rel (bc s) d U ->
  exists w, wp end_op h s w (fun _ s' => exists d' U',
    cb_rel (bc s') d' U' /\ same_fs st sz d' (after_commit s d U) /\ hdr_n (d' st) = 0 /\
    lh_n (lg s') = 0 /\ outstanding (lg s') = 0 /\ committing (lg s') = 0 /\
    (forall x, home st sz x -> contents d' U' x = contents d U x) /\
    (forall x e, home st sz x -> U !! x = Some e ->
       refs U' x = if bool_decide (x ∈ tx_blocks (lg s)) then e_ref e - 1 else e_ref e)).
Proof.
  intros Hh Hl Hcm Ho Ht Hr. assert (Hc : cst (cb_pid (bc s)) (bc s) d U) by (split; auto).
  pose proof (ending_transaction st sz s U Ht) as Ht'.
  pose proof (end_op_run st sz _ h Hh Hl s (bc s) d U Hcm Ho Ht Hc) as Hrun.
  rewrite set_bc_id in Hrun. eexists. eapply wp_mono; [exact Hrun|].
  intros _ s' (c' & -> & Hc' & _). do 2 eexists. split_and!; [exact Hc' | | | reflexivity.. | | |].
  - intros z Hz. now rewrite (installed_home st sz _ (ending s) (bc s) d U Ht' Hc z Hz).
  - rewrite dwrite_eq. apply (H_clear_n st sz _ (ending s) (bc s) d U Ht' Hc).
  - exact Hcm.
  - intros z Hz. apply (contents_after st sz _ (ending s) (bc s) d U Ht' Hc z Hz).
  - intros z e Hz He. unfold refs. case_bool_decide as Hin.
    + apply list_elem_of_fmap in Hin as (i & -> & Hi). rewrite elem_of_seqZ in Hi.
      destruct (U_after_tx st sz (ending s) d U Ht' i ltac:(cbn; lia)) as (e' & He' & E).
      change (lblock (lg (ending s)) i) with (lblock (lg s) i) in *. rewrite E.
      rewrite He in He'. injection He' as <-. destruct (Z.eqb_spec (e_ref e) 1); cbn; lia.
    + rewrite (U_after_other st (ending s) d U z Hin). now rewrite He.
Qed.

(** [initlog] on a disk with a valid log header returns with the logged
    transaction installed and the header cleared; it is what the disk meant
    before. *)
Theorem initlog_recovers x st sz h (s : fsys C) d :
  geometry x st sz -> cache_locks_free h -> boot_state s d -> header_ok st sz (d st) ->
  exists w, wp (initlog ROOTDEV x) h s w (fun _ s' => exists d',
    cb_rel (bc s') d' ∅ /\ same_fs st sz d' (logical st d) /\ hdr_n (d' st) = 0 /\
    log_wf st sz (lg s') /\ lh_n (lg s') = 0).
Proof. intros Hx Hh Hb Hok. eexists. now apply initlog_wp. Qed.

(** Reading a block, modifying it, [log_write] and [brelse], inside a
    transaction with room in the log: every process reads the new contents of
    that block and the old contents of all others, nothing is written to the
    disk, and the block is recorded in the transaction exactly once. *)
Theorem log_write_spec st sz h (s : fsys C) d U b f :
  cache_locks_free h -> log_lock ∉ h -> cb_rel (bc s) d U ->
  tx_open st sz (lg s) U -> log_room st sz (lg s) -> home st sz b ->
  can_read U b -> refs U b + 2 < 2 ^ 32 -> (U !! b = None -> Z.of_nat (size U) + 1 < NBUF) ->
  Z.of_nat (length (f (contents d U b))) = BSIZE ->
  wp (update_block b f) h s [] (fun _ s' => exists U',
    cb_rel (bc s') d U' /\ tx_open st sz (lg s') U' /\
    contents d U' b = f (contents d U b) /\
    (forall x, x <> b -> contents d U' x = contents d U x) /\
    b ∈ tx_blocks (lg s') /\ outstanding (lg s') = outstanding (lg s)).
Proof.
  intros Hh Hl Hr Hopen Hroom Hb Hread Href Hcap Hlen.
  assert (Hc : cst (cb_pid (bc s)) (bc s) d U) by (split; auto).
  pose proof (update_block_run st sz _ h Hh Hl s (bc s) d U b f Hopen Hroom Hc Hb Hread Href Hlen) as Hrun.
  rewrite set_bc_id in Hrun. eapply wp_mono; [exact Hrun|].
  intros _ s' (c' & p & -> & Hc' & _). eexists. split_and!; [exact Hc' | | | | |].
  - apply tx_open_add; auto; [cbn; case_bool_decide; lia|].
    rewrite map_size_insert. destruct (U !! b) eqn:E; cbn; [apply (to_cap _ _ _ _ Hopen)|].
    specialize (Hcap eq_refl). lia.
  - unfold contents at 1. now rewrite lookup_insert_eq.
  - intros z Hz. unfold contents. now rewrite lookup_insert_ne.
  - cbn. unfold log_add. case_bool_decide as Hin; auto.
    replace b with (lblock (log_add (lg s) b) (lh_n (lg s))) at 1.
    + unfold log_add. rewrite bool_decide_eq_false_2 by auto. apply elem_tx. cbn. destruct (lr_n _ _ _ Hroom). lia.
    + destruct Hroom as [Hwf Hn _ _ _]. rewrite (lblock_add st sz), Z.eqb_refl; auto.
      unfold log_add. rewrite bool_decide_eq_false_2 by auto. cbn. lia.
  - cbn. unfold log_add. now case_bool_decide.
Qed.

(** [begin_op] reserves room for [MAXOPBLOCKS] blocks: it returns at once
    when no commit is in progress and the log has room for this operation and
    all that are outstanding, and otherwise goes to sleep with nothing changed;
    a sleeper that is woken up with room in the log starts its operation. *)
Theorem begin_op_reserves h (s : fsys C) :
  log_lock ∉ h ->
  let room (s : fsys C) := committing (lg s) = 0 /\ 0 <= lh_n (lg s) /\ 0 <= outstanding (lg s) /\
    lh_n (lg s) + (outstanding (lg s) + 1) * MAXOPBLOCKS <= LOGSIZE in
  let started (s : fsys C) := set_lg (set_outstanding (outstanding (lg s) + 1) (lg s)) s in
  (room s -> begin_op h s = Ret tt h (started s)) /\
  (~ room s -> 0 <= lh_n (lg s) <= LOGSIZE -> 0 <= outstanding (lg s) <= LOGSIZE ->
   exists k, begin_op [] s = Sleep ch_log s k /\ forall s', room s' -> k s' = Ret tt [] (started s')).
Proof.
  intros Hl room started.
  assert (Hgo : forall n h' s', room s' -> begin_op_loop (S n) (log_lock :: h') s' = Ret tt h' (started s')).
  { intros n h' s' (H1 & H2 & H3 & H4). now apply begin_op_go. }
  split.
  - intros Hr. unfold begin_op. krun. now apply (Hgo 63%nat).
  - intros Hr Hn Ho. unfold begin_op. krun. change WAKEUPS with (S (S 62)). set (n := 62%nat). clearbody n.
    remember (S n) as m eqn:Hm. cbn [begin_op_loop]. unfold getlog, id. krun.
    assert (Hs : forall f : unit -> M (fsys C) unit, (sleep ch_log log_lock;; f tt) [log_lock] s =
      Sleep ch_log s (fun s' => f tt [log_lock] s')).
    { intros f. unfold bind, sleep. rewrite decide_True by apply list_elem_of_here. cbn.
      now rewrite decide_True. }
    exists (fun s' => begin_op_loop m [log_lock] s'). split; [|subst m; intros; now apply Hgo].
    destruct (Z.eqb_spec (committing (lg s)) 0) as [E | E]; cbn [negb]; [|apply (Hs (fun _ => begin_op_loop m))].
    rewrite i32_small by (unfold LOGSIZE, MAXOPBLOCKS in *; lia).
    destruct (Z.ltb_spec LOGSIZE (lh_n (lg s) + (outstanding (lg s) + 1) * MAXOPBLOCKS));
      [apply (Hs (fun _ => begin_op_loop m))|].
    exfalso. apply Hr. repeat split; auto; lia.
Qed.

End log.

(** ** Examples: the buffer cache of kernel/bio.c *)

Lemma demo_geometry : geometry demo_sb 2 30.
Proof. split; [reflexivity.. | lia]. Qed.

Lemma demo_boot out : boot_state (demo_fs false out) zero_disk.
Proof. split; [apply (demo_rel false) | reflexivity]. Qed.

Lemma zero_header : hdr_n (zero_disk 2) = 0.
Proof. reflexivity. Qed.

Lemma zero_header_ok : header_ok 2 30 (zero_disk 2).
Proof. unfold header_ok. rewrite zero_header. unfold LOGSIZE, MAXOPBLOCKS. split_and!; lia. Qed.

Lemma not_held (k : lockname) : k ∉ ([] : locks).
Proof. apply not_elem_of_nil. Qed.

Lemma end_op_crash_safe_witness :
  exists w, wp (initlog ROOTDEV demo_sb) [] (demo_fs false 0) w (fun _ s3 =>
    exists d3, cb_rel (bc s3) d3 ∅ /\ hdr_n (d3 2) = 0 /\
      (same_fs 2 30 d3 zero_disk \/
       same_fs 2 30 d3 (after_commit (demo_fs true 1) zero_disk (demo_use true)))).
Proof.
  apply (end_op_crash_safe demo_sb 2 30 [] (demo_fs true 1) zero_disk (demo_use true) zero_disk zero_disk).
  - exact demo_geometry.
  - exact no_cache_locks.
  - apply not_held.
  - reflexivity.
  - reflexivity.
  - exact (demo_transaction 1).
  - exact (demo_rel true).
  - exact zero_header.
  - constructor.
  - constructor.
  - exact (demo_boot 0).
Defined.

Lemma end_op_commits_witness :
  exists w, wp end_op [] (demo_fs true 1) w (fun _ s' => exists d' U',
    cb_rel (bc s') d' U' /\ same_fs 2 30 d' (after_commit (demo_fs true 1) zero_disk (demo_use true)) /\
    hdr_n (d' 2) = 0 /\ lh_n (lg s') = 0 /\ outstanding (lg s') = 0 /\ committing (lg s') = 0 /\
    (forall x, home 2 30 x -> contents d' U' x = contents zero_disk (demo_use true) x) /\
    (forall x e, home 2 30 x -> demo_use true !! x = Some e ->
       refs U' x = if bool_decide (x ∈ tx_blocks (lg (demo_fs true 1))) then e_ref e - 1 else e_ref e)).
Proof.
  apply (end_op_commits 2 30 [] (demo_fs true 1) zero_disk (demo_use true)).
  - exact no_cache_locks.
  - apply not_held.
  - reflexivity.
  - reflexivity.
  - exact (demo_transaction 1).
  - exact (demo_rel true).
Defined.

Lemma initlog_recovers_witness :
  exists w, wp (initlog ROOTDEV demo_sb) [] (demo_fs false 0) w (fun _ s' => exists d',
    cb_rel (bc s') d' ∅ /\ same_fs 2 30 d' (logical 2 zero_disk) /\ hdr_n (d' 2) = 0 /\
    log_wf 2 30 (lg s') /\ lh_n (lg s') = 0).
Proof.
  apply initlog_recovers.
  - exact demo_geometry.
  - exact no_cache_locks.
  - exact (demo_boot 0).
  - exact zero_header_ok.
Defined.

Lemma log_write_spec_witness :
  wp (update_block 41 (fun _ => new_block)) [] (demo_fs true 1) [] (fun _ s' => exists U',
    cb_rel (bc s') zero_disk U' /\ tx_open 2 30 (lg s') U' /\
    contents zero_disk U' 41 = new_block /\
    (forall x, x <> 41 -> contents zero_disk U' x = contents zero_disk (demo_use true) x) /\
    41 ∈ tx_blocks (lg s') /\ outstanding (lg s') = 1).
Proof.
  apply (log_write_spec 2 30 [] (demo_fs true 1) zero_disk (demo_use true) 41 (fun _ => new_block)).
  - exact no_cache_locks.
  - apply not_held.
  - exact (demo_rel true).
  - exact (demo_open true 1).
  - apply demo_room. lia.
  - split; lia.
  - split; [lia | reflexivity].
  - reflexivity.
  - reflexivity.
  - reflexivity.
Defined.

Lemma begin_op_reserves_witness :
  begin_op [] (demo_fs true 1) = Ret tt [] (demo_fs true 2) /\
  exists k, begin_op [] (demo_fs true 2) = Sleep ch_log (demo_fs true 2) k.
Proof.
  split.
  - apply (begin_op_reserves [] (demo_fs true 1)); [apply not_held|]. cbn. unfold LOGSIZE, MAXOPBLOCKS. lia.
  - destruct (proj2 (begin_op_reserves [] (demo_fs true 2) (not_held log_lock))) as (k & E & _).
    + cbn. unfold LOGSIZE, MAXOPBLOCKS. lia.
    + cbn. unfold LOGSIZE, MAXOPBLOCKS. lia.
    + cbn. unfold LOGSIZE, MAXOPBLOCKS. lia.
    + exists k. exact E.
Defined.

(** ** The log is one block smaller than what [begin_op] hands out *)

(** Log [n] blocks, [b], [b + 1], ... *)
Fixpoint log_blocks (n : nat) (b : Z) : M (fsys bcache) unit :=
  match n with
  | O => ret tt
  | S n' => update_block b (fun _ => new_block);; log_blocks n' (b + 1)
  end.

(** Three operations start and log [n1], [n2] and [n3] distinct blocks. *)
Definition three_ops (n1 n2 n3 : nat) : M (fsys bcache) unit :=
  begin_op;; begin_op;; begin_op;;
  log_blocks n1 100;; log_blocks n2 200;; log_blocks n3 300.

Fixpoint ends_in {S A} (o : outcome S A) : option string :=
  match o with
  | Ret _ _ _ => Some "return"%string
  | Panic msg => Some msg
  | Emit _ o => ends_in o
  | _ => None
  end.

(** [begin_op] admits three operations of [MAXOPBLOCKS] blocks each, but
    mkfs makes a log of [LOGSIZE] blocks including the header: the thirtieth
    block of three operations that stay within their limit makes [log_write]
    panic, where twenty-nine blocks are fine. *)
Theorem log_reservation_overflows :
  ends_in (three_ops 10 10 9 [] (demo_fs false 0)) = Some "return"%string /\
  ends_in (three_ops 10 10 10 [] (demo_fs false 0)) = Some "too big a transaction"%string.
Proof. split; vm_compute; reflexivity. Qed.
