(* ===== verification/Fs.v ===== *)
(** * The file system (kernel/fs.c)

    Every function of the file, over any implementation of the block cache.
    The process layer provides the copies between kernel and user memory and
    the current directory ([Process]).  Kernel buffers (a [struct dirent], a
    path, a path element) are lists of bytes; a string is the list of its
    bytes before the terminating NUL. *)

From S2P Require Import Prelude KMonad Riscv Printf Trace Sleeplock FsState Log.

Definition ROOTINO : Z := 1.
Definition FSMAGIC : Z := 0x10203040.
Definition NDIRECT : Z := 12.
Definition NINDIRECT : Z := BSIZE / 4.
Definition MAXFILE : Z := NDIRECT + NINDIRECT.
(** [sizeof(struct dinode)] *)
Definition DINODE : Z := 64.
Definition IPB : Z := BSIZE / DINODE.
Definition BPB : Z := BSIZE * 8.
Definition DIRSIZ : Z := 14.
(** [sizeof(struct dirent)] *)
Definition DIRENT : Z := 16.

Definition IBLOCK (i : Z) (sb : superblock) : Z := u32 (i / IPB + sb_inodestart sb).
Definition BBLOCK (b : Z) (sb : superblock) : Z := u32 (b / BPB + sb_bmapstart sb).

Definition T_DIR : Z := 1.
Definition T_FILE : Z := 2.
Definition T_DEVICE : Z := 3.

(** [struct dinode] at byte offset [off] of a block. *)
Record dinode := Dinode {
  d_type : Z; d_major : Z; d_minor : Z; d_nlink : Z; d_size : Z; d_addrs : list Z }.

Definition get_addrs (v : block) (off : Z) : list Z :=
  map (fun i => get32 v (off + 4 * i)) (seqZ 0 (NDIRECT + 1)).

Fixpoint put_addrs (v : block) (off : Z) (a : list Z) : block :=
  match a with
  | [] => v
  | x :: a' => put_addrs (put32 v off x) (off + 4) a'
  end.

Definition get_dinode (v : block) (off : Z) : dinode :=
  Dinode (i16 (get16 v off)) (i16 (get16 v (off + 2))) (i16 (get16 v (off + 4)))
         (i16 (get16 v (off + 6))) (get32 v (off + 8)) (get_addrs v (off + 12)).

Definition put_dinode (v : block) (off : Z) (x : dinode) : block :=
  put_addrs (put32 (put16 (put16 (put16 (put16 v off (d_type x)) (off + 2) (d_major x))
    (off + 4) (d_minor x)) (off + 6) (d_nlink x)) (off + 8) (d_size x)) (off + 12) (d_addrs x).

Definition zero_dinode : dinode := Dinode 0 0 0 0 0 (repeat 0 13).

(** What the process layer provides: [copyout] to and [copyin] from the user
    memory of the running process, with the bytes copied before a failure,
    and [myproc()->cwd]. *)
Class Process (C : Type) := {
  copyout_user : Z -> list Z -> M (fsys C) Z;
  copyin_user : Z -> Z -> M (fsys C) (Z * list Z);
  cwd : fsys C -> Z;
}.

(** Sleep locks of inodes: the lock of the inode at [p] has address [1000 + p]. *)
Definition ILOCK (p : Z) : Z := 1000 + p.

Definition set_ilock (l : sleeplock) (x : inode) : inode :=
  Inode (i_dev x) (i_inum x) (i_ref x) l (i_valid x) (i_type x) (i_major x) (i_minor x)
        (i_nlink x) (i_size x) (i_addrs x).
Definition set_iref (r : Z) (x : inode) : inode :=
  Inode (i_dev x) (i_inum x) r (i_lock x) (i_valid x) (i_type x) (i_major x) (i_minor x)
        (i_nlink x) (i_size x) (i_addrs x).
Definition set_ivalid (v : Z) (x : inode) : inode :=
  Inode (i_dev x) (i_inum x) (i_ref x) (i_lock x) v (i_type x) (i_major x) (i_minor x)
        (i_nlink x) (i_size x) (i_addrs x).
Definition set_itype (t : Z) (x : inode) : inode :=
  Inode (i_dev x) (i_inum x) (i_ref x) (i_lock x) (i_valid x) t (i_major x) (i_minor x)
        (i_nlink x) (i_size x) (i_addrs x).
Definition set_isize (n : Z) (x : inode) : inode :=
  Inode (i_dev x) (i_inum x) (i_ref x) (i_lock x) (i_valid x) (i_type x) (i_major x) (i_minor x)
        (i_nlink x) n (i_addrs x).
Definition set_iaddrs (a : list Z) (x : inode) : inode :=
  Inode (i_dev x) (i_inum x) (i_ref x) (i_lock x) (i_valid x) (i_type x) (i_major x) (i_minor x)
        (i_nlink x) (i_size x) a.
Definition set_inlink (n : Z) (x : inode) : inode :=
  Inode (i_dev x) (i_inum x) (i_ref x) (i_lock x) (i_valid x) (i_type x) (i_major x) (i_minor x)
        n (i_size x) (i_addrs x).

Section fs.
Context {C : Type} `{BlockCache C}.
Abbreviation fs := (fsys C).

Definition mod_inode (p : Z) (f : inode -> inode) (s : fs) : fs :=
  set_itable (fun q => if q =? p then f (itable s p) else itable s q) s.

#[export] Instance fs_sleeplocks : HasSleeplocks fs := {|
  sl_get a s := i_lock (itable s (a - 1000));
  sl_put a l s := mod_inode (a - 1000) (set_ilock l) s;
  mypid s := cb_pid (bc s);
|}.

Definition geti (p : Z) : M fs inode := gets (fun s => itable s p).
Definition modi (p : Z) (f : inode -> inode) : M fs unit := modify (mod_inode p f).
Definition getsb : M fs superblock := gets sb.

(** ** Blocks *)

Definition readsb (dev : Z) : M fs unit :=
  bp <- bread dev 1;;
  v <- bdata bp;;
  modify (set_sb (Superblock (get32 v 0) (get32 v 4) (get32 v 8) (get32 v 12) (get32 v 16)
                             (get32 v 20) (get32 v 24) (get32 v 28)));;
  brelse bp.

Definition fsinit (dev : Z) : M fs unit :=
  readsb dev;;
  x <- getsb;;
  if negb (sb_magic x =? FSMAGIC) then panic "invalid file system"
  else initlog dev x.

Definition bzero (dev bno : Z) : M fs unit :=
  bp <- bread dev bno;;
  v <- bdata bp;;
  bset bp (map (fun _ => 0) v);;
  log_write bp;;
  brelse bp.

(** The mask and the test of a bit of the free map. *)
Definition bit_mask (bi : Z) : Z := Z.shiftl 1 (bi mod 8).
Definition bit_free (v : block) (bi : Z) : bool := Z.land (nthZ 0 v (bi / 8)) (bit_mask bi) =? 0.

(** The inner loop of [balloc]: the first free bit of a bitmap block. *)
Fixpoint free_bit (k : nat) (bi b size : Z) (v : block) : option Z :=
  match k with
  | O => None
  | S k' =>
      if negb (b + bi <? size) then None
      else if bit_free v bi then Some bi
      else free_bit k' (bi + 1) b size v
  end.

Fixpoint balloc_loop (fuel : nat) (dev b : Z) : M fs Z :=
  x <- getsb;;
  if negb (b <? sb_size x) then
    printf (bytes_of "balloc: out of blocks" ++ [10]) [];;
    ret 0
  else
    match fuel with
    | O => out_of_fuel
    | S fuel' =>
        bp <- bread dev (BBLOCK b x);;
        v <- bdata bp;;
        match free_bit (Z.to_nat BPB) 0 b (sb_size x) v with
        | Some bi =>
            bset bp (updZ v (bi / 8) (Z.lor (nthZ 0 v (bi / 8)) (bit_mask bi)));;
            log_write bp;;
            brelse bp;;
            bzero dev (b + bi);;
            ret (b + bi)
        | None =>
            brelse bp;;
            balloc_loop fuel' dev (b + BPB)
        end
    end.

(** The bitmap has [sb.size / BPB + 1] blocks at most. *)
Definition balloc (dev : Z) : M fs Z :=
  x <- getsb;;
  balloc_loop (Z.to_nat (sb_size x / BPB + 1)) dev 0.

Definition bfree (dev b : Z) : M fs unit :=
  x <- getsb;;
  bp <- bread dev (BBLOCK b x);;
  let bi := b mod BPB in
  v <- bdata bp;;
  if bit_free v bi then panic "freeing free block"
  else
    bset bp (updZ v (bi / 8) (Z.land (nthZ 0 v (bi / 8)) (u8 (Z.lnot (bit_mask bi)))));;
    log_write bp;;
    brelse bp.

(** ** Inodes *)

Fixpoint iinit_loop (k : nat) (p : Z) : M fs unit :=
  match k with
  | O => ret tt
  | S k' => initsleeplock (ILOCK p);; iinit_loop k' (p + 1)
  end.

Definition iinit : M fs unit :=
  initlock itable_lock;;
  iinit_loop (Z.to_nat NINODE) 1.

(** The scan of [iget]: the entry for the inode, or the first free one. *)
Fixpoint iget_loop (k : nat) (p empty dev inum : Z) : M fs (Z * Z) :=
  match k with
  | O => ret (0, empty)
  | S k' =>
      x <- geti p;;
      if (0 <? i_ref x) && (i_dev x =? dev) && (i_inum x =? inum) then ret (p, empty)
      else
        let empty' := if (empty =? 0) && (i_ref x =? 0) then p else empty in
        iget_loop k' (p + 1) empty' dev inum
  end.

Definition iget (dev inum : Z) : M fs Z :=
  acquire itable_lock;;
  r <- iget_loop (Z.to_nat NINODE) 1 0 dev inum;;
  let (ip, empty) := (r : Z * Z) in
  if negb (ip =? 0) then
    modi ip (fun x => set_iref (i32 (i_ref x + 1)) x);;
    release itable_lock;;
    ret ip
  else if empty =? 0 then panic "iget: no inodes"
  else
    modi empty (fun x => Inode dev inum 1 (i_lock x) 0 (i_type x) (i_major x) (i_minor x)
                               (i_nlink x) (i_size x) (i_addrs x));;
    release itable_lock;;
    ret empty.

Definition idup (ip : Z) : M fs Z :=
  acquire itable_lock;;
  modi ip (fun x => set_iref (i32 (i_ref x + 1)) x);;
  release itable_lock;;
  ret ip.

Fixpoint ialloc_loop (fuel : nat) (dev type inum : Z) : M fs Z :=
  x <- getsb;;
  if negb (inum <? sb_ninodes x) then
    printf (bytes_of "ialloc: no inodes" ++ [10]) [];;
    ret 0
  else
    match fuel with
    | O => out_of_fuel
    | S fuel' =>
        bp <- bread dev (IBLOCK inum x);;
        v <- bdata bp;;
        let off := inum mod IPB * DINODE in
        if d_type (get_dinode v off) =? 0 then
          bset bp (put_dinode v off (Dinode type 0 0 0 0 (repeat 0 13)));;
          log_write bp;;
          brelse bp;;
          iget dev inum
        else
          brelse bp;;
          ialloc_loop fuel' dev type (inum + 1)
    end.

Definition ialloc (dev type : Z) : M fs Z :=
  x <- getsb;;
  ialloc_loop (Z.to_nat (sb_ninodes x)) dev type 1.

Definition iupdate (ip : Z) : M fs unit :=
  x <- geti ip;;
  b <- getsb;;
  bp <- bread (i_dev x) (IBLOCK (i_inum x) b);;
  v <- bdata bp;;
  bset bp (put_dinode v (i_inum x mod IPB * DINODE)
             (Dinode (i_type x) (i_major x) (i_minor x) (i_nlink x) (i_size x) (i_addrs x)));;
  log_write bp;;
  brelse bp.

Definition ilock (ip : Z) : M fs unit :=
  x <- geti ip;;
  if (ip =? 0) || (i_ref x <? 1) then panic "ilock"
  else
    acquiresleep (ILOCK ip);;
    x <- geti ip;;
    if i_valid x =? 0 then
      b <- getsb;;
      bp <- bread (i_dev x) (IBLOCK (i_inum x) b);;
      v <- bdata bp;;
      let d := get_dinode v (i_inum x mod IPB * DINODE) in
      modi ip (fun x => Inode (i_dev x) (i_inum x) (i_ref x) (i_lock x) (i_valid x) (d_type d)
                              (d_major d) (d_minor d) (d_nlink d) (d_size d) (d_addrs d));;
      brelse bp;;
      modi ip (set_ivalid 1);;
      if d_type d =? 0 then panic "ilock: no type" else ret tt
    else ret tt.

Definition iunlock (ip : Z) : M fs unit :=
  if ip =? 0 then panic "iunlock"
  else
    hold <- holdingsleep (ILOCK ip);;
    x <- geti ip;;
    if negb hold || (i_ref x <? 1) then panic "iunlock"
    else releasesleep (ILOCK ip).

(** ** Inode content *)

(** [&ip->addrs[i]], where [i] is in range. *)
Definition set_addr (ip i a : Z) : M fs unit :=
  modi ip (fun x => set_iaddrs (updZ (i_addrs x) i a) x).

Definition bmap (ip bn : Z) : M fs Z :=
  x <- geti ip;;
  if bn <? NDIRECT then
    let addr := nthZ 0 (i_addrs x) bn in
    if addr =? 0 then
      addr <- balloc (i_dev x);;
      if addr =? 0 then ret 0
      else set_addr ip bn addr;; ret addr
    else ret addr
  else
    let bn := bn - NDIRECT in
    if bn <? NINDIRECT then
      let addr := nthZ 0 (i_addrs x) NDIRECT in
      addr <- (if addr =? 0 then
                 a <- balloc (i_dev x);;
                 (if a =? 0 then ret tt else set_addr ip NDIRECT a);;
                 ret a
               else ret addr);;
      if addr =? 0 then ret 0
      else
        bp <- bread (i_dev x) addr;;
        v <- bdata bp;;
        let addr := get32 v (4 * bn) in
        addr <- (if addr =? 0 then
                   a <- balloc (i_dev x);;
                   (if a =? 0 then ret tt
                    else
                      v <- bdata bp;;
                      bset bp (put32 v (4 * bn) a);;
                      log_write bp);;
                   ret a
                 else ret addr);;
        brelse bp;;
        ret addr
    else panic "bmap: out of range".

Fixpoint itrunc_direct (k : nat) (ip i : Z) : M fs unit :=
  match k with
  | O => ret tt
  | S k' =>
      x <- geti ip;;
      let a := nthZ 0 (i_addrs x) i in
      (if a =? 0 then ret tt
       else bfree (i_dev x) a;; set_addr ip i 0);;
      itrunc_direct k' ip (i + 1)
  end.

Fixpoint itrunc_indirect (k : nat) (dev bp j : Z) : M fs unit :=
  match k with
  | O => ret tt
  | S k' =>
      v <- bdata bp;;
      let a := get32 v (4 * j) in
      (if a =? 0 then ret tt else bfree dev a);;
      itrunc_indirect k' dev bp (j + 1)
  end.

Definition itrunc (ip : Z) : M fs unit :=
  itrunc_direct (Z.to_nat NDIRECT) ip 0;;
  x <- geti ip;;
  (let a := nthZ 0 (i_addrs x) NDIRECT in
   if a =? 0 then ret tt
   else
     bp <- bread (i_dev x) a;;
     itrunc_indirect (Z.to_nat NINDIRECT) (i_dev x) bp 0;;
     brelse bp;;
     bfree (i_dev x) a;;
     set_addr ip NDIRECT 0);;
  modi ip (set_isize 0);;
  iupdate ip.

Definition iput (ip : Z) : M fs unit :=
  acquire itable_lock;;
  x <- geti ip;;
  (if (i_ref x =? 1) && negb (i_valid x =? 0) && (i_nlink x =? 0) then
     acquiresleep (ILOCK ip);;
     release itable_lock;;
     itrunc ip;;
     modi ip (set_itype 0);;
     iupdate ip;;
     modi ip (set_ivalid 0);;
     releasesleep (ILOCK ip);;
     acquire itable_lock
   else ret tt);;
  modi ip (fun x => set_iref (i32 (i_ref x - 1)) x);;
  release itable_lock.

Definition iunlockput (ip : Z) : M fs unit :=
  iunlock ip;;
  iput ip.

(** [struct stat] *)
Record stat := Stat { st_dev : Z; st_ino : Z; st_type : Z; st_nlink : Z; st_size : Z }.

Definition stati (ip : Z) : M fs stat :=
  x <- geti ip;;
  ret (Stat (i32 (i_dev x)) (i_inum x) (i_type x) (i_nlink x) (i_size x)).

End fs.

(** ** Reading and writing inodes, directories and paths (kernel/fs.c)

    A transfer to or from user memory goes through the process layer; one to
    or from a kernel buffer is a list of bytes. *)

(** Where [readi] puts its data, and where [writei] gets it from. *)
Inductive dest := ToKernel | ToUser (va : Z).
Inductive source := FromKernel (bytes : list Z) | FromUser (va : Z).

(** Bytes [off, off + m) of a block, and their replacement. *)
Definition slice (v : list Z) (off m : Z) : list Z := take (Z.to_nat m) (drop (Z.to_nat off) v).
Definition splice (v : list Z) (off : Z) (bytes : list Z) : list Z :=
  take (Z.to_nat off) v ++ bytes ++ drop (Z.to_nat off + length bytes) v.

(** [strncmp] and [strncpy] on kernel buffers given by their strings. *)
Fixpoint strncmp_list (n : nat) (p q : list Z) : Z :=
  match n with
  | O => 0
  | S n' =>
      let c := nthZ 0 p 0 in
      let d := nthZ 0 q 0 in
      if (c =? 0) || negb (c =? d) then c - d
      else strncmp_list n' (drop 1 p) (drop 1 q)
  end.

Fixpoint strncpy_list (n : nat) (t : list Z) : list Z :=
  match n with
  | O => []
  | S n' =>
      match t with
      | c :: t' => if c =? 0 then repeat 0 n else c :: strncpy_list n' t'
      | [] => repeat 0 n
      end
  end.

Definition namecmp (s t : list Z) : Z := strncmp_list (Z.to_nat DIRSIZ) s t.

(** [struct dirent] *)
Definition de_inum (de : list Z) : Z := get16 de 0.
Definition de_name (de : list Z) : list Z := drop 2 de.
Definition mk_dirent (inum : Z) (name : list Z) : list Z :=
  [u16 inum mod 256; u16 inum / 256] ++ strncpy_list (Z.to_nat DIRSIZ) name.

(** ** Paths *)

Definition SLASH : Z := 47.

Fixpoint skip_slashes (path : list Z) : list Z :=
  match path with
  | c :: path' => if c =? SLASH then skip_slashes path' else path
  | [] => []
  end.

(** The characters up to the next slash, and the rest. *)
Fixpoint path_elem (path : list Z) : list Z * list Z :=
  match path with
  | c :: path' =>
      if c =? SLASH then ([], path)
      else let (e, rest) := path_elem path' in (c :: e, rest)
  | [] => ([], [])
  end.

(** [skipelem]: the remaining path and the element, cut to [DIRSIZ] bytes;
    [None] is the null pointer. *)
Definition skipelem (path : list Z) : option (list Z * list Z) :=
  match skip_slashes path with
  | [] => None
  | path' =>
      let (e, rest) := path_elem path' in
      let name := if DIRSIZ <=? Z.of_nat (length e) then take (Z.to_nat DIRSIZ) e else e in
      Some (skip_slashes rest, name)
  end.

Section fs.
Context {C : Type} `{BlockCache C} `{Process C}.
Abbreviation fs := (fsys C).

Definition either_copyout (dst : dest) (tot : Z) (bytes : list Z) : M fs Z :=
  match dst with
  | ToKernel => ret 0
  | ToUser va => copyout_user (u64 (va + tot)) bytes
  end.

(** The result and the bytes that reached the buffer. *)
Definition either_copyin (src : source) (tot m : Z) : M fs (Z * list Z) :=
  match src with
  | FromKernel bytes => ret (0, slice bytes tot m)
  | FromUser va => copyin_user (u64 (va + tot)) m
  end.

(** The loop of [readi]: [acc] is what has been copied so far. *)
Fixpoint readi_loop (fuel : nat) (ip : Z) (dst : dest) (off n tot : Z) (acc : list Z)
  : M fs (Z * list Z) :=
  if negb (tot <? n) then ret (tot, acc)
  else
    match fuel with
    | O => out_of_fuel
    | S fuel' =>
        addr <- bmap ip (off / BSIZE);;
        if addr =? 0 then ret (tot, acc)
        else
          x <- geti ip;;
          bp <- bread (i_dev x) addr;;
          let m := Z.min (n - tot) (BSIZE - off mod BSIZE) in
          v <- bdata bp;;
          let bytes := slice v (off mod BSIZE) m in
          r <- either_copyout dst tot bytes;;
          if r =? -1 then
            brelse bp;;
            ret (-1, acc)
          else
            brelse bp;;
            readi_loop fuel' ip dst (off + m) n (tot + m) (acc ++ bytes)
    end.

(** Every round but the first and the last moves a whole block. *)
Definition readi (ip : Z) (dst : dest) (off n : Z) : M fs (Z * list Z) :=
  x <- geti ip;;
  if (i_size x <? off) || (u32 (off + n) <? off) then ret (0, [])
  else
    let n := if i_size x <? u32 (off + n) then u32 (i_size x - off) else n in
    r <- readi_loop (Z.to_nat (n / BSIZE + 2)) ip dst off n 0 [];;
    let (tot, acc) := (r : Z * list Z) in
    ret (i32 tot, acc).

(** The loop of [writei]; returns [tot] and [off]. *)
Fixpoint writei_loop (fuel : nat) (ip : Z) (src : source) (off n tot : Z) : M fs (Z * Z) :=
  if negb (tot <? n) then ret (tot, off)
  else
    match fuel with
    | O => out_of_fuel
    | S fuel' =>
        addr <- bmap ip (off / BSIZE);;
        if addr =? 0 then ret (tot, off)
        else
          x <- geti ip;;
          bp <- bread (i_dev x) addr;;
          let m := Z.min (n - tot) (BSIZE - off mod BSIZE) in
          r <- either_copyin src tot m;;
          let (r, bytes) := (r : Z * list Z) in
          v <- bdata bp;;
          bset bp (splice v (off mod BSIZE) bytes);;
          if r =? -1 then
            brelse bp;;
            ret (tot, off)
          else
            log_write bp;;
            brelse bp;;
            writei_loop fuel' ip src (off + m) n (tot + m)
    end.

Definition writei (ip : Z) (src : source) (off n : Z) : M fs Z :=
  x <- geti ip;;
  if (i_size x <? off) || (u32 (off + n) <? off) then ret (-1)
  else if MAXFILE * BSIZE <? u32 (off + n) then ret (-1)
  else
    r <- writei_loop (Z.to_nat (n / BSIZE + 2)) ip src off n 0;;
    let (tot, off') := (r : Z * Z) in
    x <- geti ip;;
    (if i_size x <? off' then modi ip (set_isize off') else ret tt);;
    iupdate ip;;
    ret (i32 tot).

(** ** Directories *)

(** [dirlookup]: the inode and the offset of the entry, or the null pointer. *)
Fixpoint dirlookup_loop (fuel : nat) (dp : Z) (name : list Z) (off : Z) : M fs (Z * Z) :=
  x <- geti dp;;
  if negb (off <? i_size x) then ret (0, 0)
  else
    match fuel with
    | O => out_of_fuel
    | S fuel' =>
        r <- readi dp ToKernel off DIRENT;;
        let (n, de) := (r : Z * list Z) in
        if negb (n =? DIRENT) then panic "dirlookup read"
        else if de_inum de =? 0 then dirlookup_loop fuel' dp name (off + DIRENT)
        else if namecmp name (de_name de) =? 0 then
          ip <- iget (i_dev x) (de_inum de);;
          ret (ip, off)
        else dirlookup_loop fuel' dp name (off + DIRENT)
    end.

Definition dirlookup (dp : Z) (name : list Z) : M fs (Z * Z) :=
  x <- geti dp;;
  if negb (i_type x =? T_DIR) then panic "dirlookup not DIR"
  else dirlookup_loop (Z.to_nat (i_size x / DIRENT + 1)) dp name 0.

(** The scan of [dirlink] for an empty entry. *)
Fixpoint dirlink_loop (fuel : nat) (dp off : Z) : M fs Z :=
  x <- geti dp;;
  if negb (off <? i_size x) then ret off
  else
    match fuel with
    | O => out_of_fuel
    | S fuel' =>
        r <- readi dp ToKernel off DIRENT;;
        let (n, de) := (r : Z * list Z) in
        if negb (n =? DIRENT) then panic "dirlink read"
        else if de_inum de =? 0 then ret off
        else dirlink_loop fuel' dp (off + DIRENT)
    end.

Definition dirlink (dp : Z) (name : list Z) (inum : Z) : M fs Z :=
  r <- dirlookup dp name;;
  let (ip, _) := (r : Z * Z) in
  if negb (ip =? 0) then
    iput ip;;
    ret (-1)
  else
    x <- geti dp;;
    off <- dirlink_loop (Z.to_nat (i_size x / DIRENT + 1)) dp 0;;
    n <- writei dp (FromKernel (mk_dirent inum name)) off DIRENT;;
    if negb (n =? DIRENT) then ret (-1) else ret 0.

(** ** Path lookup *)

(** The loop of [namex]; [name] is the last element copied out. *)
Fixpoint namex_loop (fuel : nat) (ip : Z) (path name : list Z) (nameiparent : bool)
  : M fs (Z * list Z) :=
  match skipelem path with
  | None =>
      if nameiparent then
        iput ip;;
        ret (0, name)
      else ret (ip, name)
  | Some (path', name') =>
      match fuel with
      | O => out_of_fuel
      | S fuel' =>
          ilock ip;;
          x <- geti ip;;
          if negb (i_type x =? T_DIR) then
            iunlockput ip;;
            ret (0, name')
          else if nameiparent && (Z.of_nat (length path') =? 0) then
            iunlock ip;;
            ret (ip, name')
          else
            r <- dirlookup ip name';;
            let (next, _) := (r : Z * Z) in
            if next =? 0 then
              iunlockput ip;;
              ret (0, name')
            else
              iunlockput ip;;
              namex_loop fuel' next path' name' nameiparent
      end
  end.

Definition namex (path : list Z) (nameiparent : bool) : M fs (Z * list Z) :=
  ip <- (if nthZ 0 path 0 =? SLASH then iget ROOTDEV ROOTINO
         else
           c <- gets cwd;;
           idup c);;
  namex_loop (S (length path)) ip path [] nameiparent.

Definition namei (path : list Z) : M fs Z :=
  r <- namex path false;;
  ret (fst (r : Z * list Z)).

Definition nameiparent (path : list Z) : M fs (Z * list Z) := namex path true.

End fs.
