(* ===== verification/FsTxn.v ===== *)
(** * File-system code inside a transaction

    [txn d s V L T x W] describes the kernel while the only running file-system
    operation is inside a transaction over the disk [d]: every block [b] reads as [V b]; the
    operation holds the buffers [L] (block number to pointer, and whether its
    contents are safe to release); the inode table is [T], the super block [x],
    and only blocks of [W] have been logged.  The rules say what each
    primitive of the layers below does to this view; none of them writes to
    the disk. *)

From S2P Require Import Prelude KMonad Riscv Trace Sleeplock FsState.
From S2P Require Import Log LogCrash LogOps.

Lemma size_difference_le (X Y : gset Z) : (size (X ∖ Y) <= size X)%nat.
Proof. apply subseteq_size. intros x Hx. now apply elem_of_difference in Hx as [? _]. Qed.

Lemma size_list_to_set_le (l : list Z) : (size (list_to_set l : gset Z) <= length l)%nat.
Proof.
  induction l as [|b l IH]; cbn; [now rewrite size_empty|].
  pose proof (size_union_alt ({[b]} : gset Z) (list_to_set l)) as Hb. rewrite size_singleton in Hb.
  pose proof (size_difference_le (list_to_set l) {[b]}). lia.
Qed.

Abbreviation held := (gmap Z (Z * bool)).

(** The blocks a transaction may have logged, and their number. *)
Definition cnt (W : gset Z) : Z := Z.of_nat (size W).
Definition logged (b : Z) (W : gset Z) : gset Z := {[b]} ∪ W.

Lemma cnt_logged b W : cnt (logged b W) <= cnt W + 1.
Proof.
  unfold cnt, logged. pose proof (size_union_alt ({[b]} : gset Z) W) as E. rewrite size_singleton in E.
  pose proof (size_difference_le W {[b]}). lia.
Qed.

Lemma elem_logged y b W : y ∈ logged b W <-> y = b \/ y ∈ W.
Proof. unfold logged. now rewrite elem_of_union, elem_of_singleton. Qed.

Lemma cnt_pos W : 0 <= cnt W.
Proof. unfold cnt. lia. Qed.

Lemma cnt_mono W W' : W ⊆ W' -> cnt W <= cnt W'.
Proof. intros Hs. apply subseteq_size in Hs. unfold cnt. lia. Qed.

Section txn.
Context {C : Type} `{BlockCacheLaws C BSIZE NBUF ROOTDEV}.
Variables (st sz pid : Z) (h : locks).
Hypothesis Hh : cache_locks_free h.
Hypothesis Hlog : log_lock ∉ h.
Implicit Types (s : fsys C) (V d : disk_t) (L : held) (U : blocks_in_use).

(** The entry of block [b]: one reference of the transaction, one of the
    operation. *)
Definition uses (l : log) L (b : Z) : Z :=
  (if bool_decide (b ∈ tx_blocks l) then 1 else 0) + (if L !! b is Some _ then 1 else 0).

Arguments uses : simpl never.

Record view s V L d U : Prop := {
  vw_cst : cst pid (bc s) d U;
  vw_wf : log_wf st sz (lg s);
  vw_n : 0 <= lh_n (lg s) <= LOGSIZE /\ lh_n (lg s) < sz;
  vw_out : outstanding (lg s) = 1 /\ committing (lg s) = 0;
  vw_distinct : distinct (lg s) (lh_n (lg s));
  vw_home : forall b, b ∈ tx_blocks (lg s) -> home st sz b;
  vw_held : forall b p f, L !! b = Some (p, f) -> home st sz b;
  vw_contents : forall b, contents d U b = V b;
  vw_use : forall b e, U !! b = Some e ->
    e_ref e = uses (lg s) L b /\
    e_holder e = (if L !! b is Some _ then Some pid else None) /\
    (forall p f, L !! b = Some (p, f) -> e_ptr e = p);
  vw_dom : forall b, is_Some (U !! b) <-> 0 < uses (lg s) L b;
  vw_clean : forall b, b ∉ tx_blocks (lg s) -> (forall p, L !! b <> Some (p, false)) -> V b = d b;
}.

Definition txn d s V L (T : Z -> inode) (x : superblock) (W : gset Z) : Prop :=
  (exists U, view s V L d U) /\ itable s = T /\ sb s = x /\ (forall b, b ∈ tx_blocks (lg s) -> b ∈ W).

Lemma uses_None l L b : L !! b = None -> uses l L b = if bool_decide (b ∈ tx_blocks l) then 1 else 0.
Proof. intros E. unfold uses. rewrite E. lia. Qed.

Lemma length_tx l : 0 <= lh_n l -> Z.of_nat (length (tx_blocks l)) = lh_n l.
Proof. intros Hn. unfold tx_blocks. rewrite length_map, length_seqZ. lia. Qed.

(** The blocks in use are those of the transaction and those held. *)
Lemma view_size s V L d U : view s V L d U -> Z.of_nat (size U) <= lh_n (lg s) + Z.of_nat (size L).
Proof.
  intros Hv. destruct (vw_n _ _ _ _ _ Hv) as [[Hn _] _].
  assert (Hsub : dom U ⊆ (list_to_set (tx_blocks (lg s)) ∪ dom L : gset Z)).
  { intros b. rewrite elem_of_dom, (vw_dom _ _ _ _ _ Hv). unfold uses.
    rewrite elem_of_union, elem_of_list_to_set, elem_of_dom.
    case_bool_decide; [auto|]. destruct (L !! b) eqn:E; [|lia]. intros _. right. now exists p. }
  apply subseteq_size in Hsub. rewrite size_dom in Hsub.
  pose proof (size_union_alt (list_to_set (tx_blocks (lg s)) : gset Z) (dom L)) as Hu.
  pose proof (size_list_to_set_le (tx_blocks (lg s))) as Hs1.
  pose proof (size_difference_le (dom L) (list_to_set (tx_blocks (lg s)))) as Hs2.
  pose proof (size_dom L) as Hs3. pose proof (length_tx (lg s) Hn). lia.
Qed.

Lemma distinct_tx l : distinct l (lh_n l) -> NoDup (tx_blocks l).
Proof.
  intros Hd. unfold tx_blocks. apply NoDup_fmap_2_strong; [|apply NoDup_seqZ].
  intros i j Hi Hj. apply Hd; [apply elem_of_seqZ in Hi | apply elem_of_seqZ in Hj]; lia.
Qed.

Lemma txn_count d s V L T x W : txn d s V L T x W -> lh_n (lg s) <= cnt W.
Proof.
  intros ((U & Hv) & _ & _ & HW). destruct (vw_n _ _ _ _ _ Hv) as [[Hn _] _].
  rewrite <- (length_tx _ Hn). unfold cnt.
  rewrite <- (size_list_to_set (C := gset Z) (tx_blocks (lg s))) by apply distinct_tx, Hv.
  apply inj_le, subseteq_size. intros b Hb. apply HW. now apply elem_of_list_to_set in Hb.
Qed.

(** ** The rules *)

Section rules.
Variables (d V : disk_t) (L : held) (T : Z -> inode) (x : superblock) (W : gset Z) (s : fsys C).
Hypothesis Ht : txn d s V L T x W.

Lemma txn_bread b (Q : Z -> fsys C -> Prop) :
  L !! b = None -> home st sz b -> cnt W + Z.of_nat (size L) < NBUF ->
  (forall p s', txn d s' V (<[b := (p, true)]> L) T x W -> Q p s') ->
  wp (bread ROOTDEV b) h s [] Q.
Proof.
  pose proof (txn_count _ _ _ _ _ _ _ Ht) as Hcnt.
  destruct Ht as ((U & Hv) & HT & Hx & Hn). intros HL Hb Hcap HQ.
  pose proof (view_size _ _ _ _ _ Hv) as Hsize.
  destruct Hv as [Hc Hwf Hn' Hout Hdist Hhome Hheld Hcon Huse Hdom Hcl].
  rewrite <- (set_bc_id s). apply (wp_bread pid h Hh (bc s) s d U); auto.
  { split; [destruct Hb; lia|]. destruct (U !! b) as [e|] eqn:E; [|lia].
    destruct (Huse b e E) as (Hr & Hho & _). rewrite HL in Hho. rewrite Hr, uses_None by auto.
    split; auto. case_bool_decide; lia. }
  intros p c' Hptr Hc'. apply HQ. split_and!; auto. exists (<[b := entry_read d U b p pid]> U).
  assert (Hu : uses (lg s) (<[b := (p, true)]> L) b = uses (lg s) L b + 1).
  { unfold uses. rewrite lookup_insert_eq, HL. lia. }
  assert (Hu' : forall y, y <> b -> uses (lg s) (<[b := (p, true)]> L) y = uses (lg s) L y).
  { intros y Hy. unfold uses. now rewrite lookup_insert_ne. }
  split; auto; cbn [lg set_bc].
  - intros y q f. destruct (decide (y = b)) as [-> |]; [auto|]. rewrite lookup_insert_ne by auto. apply Hheld.
  - intros y. unfold contents. destruct (decide (y = b)) as [-> |].
    + rewrite lookup_insert_eq. cbn. apply Hcon. + rewrite lookup_insert_ne by auto. apply Hcon.
  - intros y e. destruct (decide (y = b)) as [-> |].
    + rewrite lookup_insert_eq. intros [= <-]. cbn. rewrite lookup_insert_eq, Hu. split_and!; auto.
      * destruct (U !! b) as [e|] eqn:E; [destruct (Huse b e E); lia|].
        pose proof (Hdom b) as D. rewrite E in D. unfold uses in *. rewrite HL in *.
        case_bool_decide; [|lia]. destruct (proj2 D); [lia | discriminate].
      * congruence.
    + rewrite !lookup_insert_ne, Hu' by auto. apply Huse.
  - intros y. destruct (decide (y = b)) as [-> |].
    + rewrite lookup_insert_eq, Hu. split; [|eauto]. intros _. unfold uses.
      destruct (bool_decide _), (L !! b); lia.
    + rewrite lookup_insert_ne, Hu' by auto. apply Hdom.
  - intros y Hy Hf. apply Hcl; auto. intros q E. apply (Hf q).
    rewrite lookup_insert_ne; [auto|]. intros ->. congruence.
Qed.

(** The entry of a block that is held. *)
Lemma held_entry b p f : L !! b = Some (p, f) ->
  exists U e, view s V L d U /\ U !! b = Some e /\ e_ptr e = p /\ e_holder e = Some pid /\
    e_data e = V b /\ e_ref e = (if bool_decide (b ∈ tx_blocks (lg s)) then 2 else 1).
Proof.
  destruct Ht as ((U & Hv) & _). intros HL.
  assert (is_Some (U !! b)) as [e He].
  { apply (vw_dom _ _ _ _ _ Hv). unfold uses. rewrite HL. case_bool_decide; lia. }
  destruct (vw_use _ _ _ _ _ Hv b e He) as (Hr & Hho & Hp). rewrite HL in Hho.
  exists U, e. split_and!; auto.
  - apply (Hp p f HL).
  - rewrite <- (vw_contents _ _ _ _ _ Hv b). unfold contents. now rewrite He.
  - rewrite Hr. unfold uses. rewrite HL. case_bool_decide; lia.
Qed.

Lemma txn_bdata {A} b p f (k : block -> M (fsys C) A) w Q :
  L !! b = Some (p, f) -> wp (k (V b)) h s w Q -> wp (bind (bdata p) k) h s w Q.
Proof.
  intros HL Hw. destruct (held_entry b p f HL) as (U & e & Hv & He & Hp & _ & Hd & _).
  rewrite <- (set_bc_id s). eapply (wp_bdata pid h _ s d U b e); [apply Hv | auto | auto |].
  now rewrite set_bc_id, Hd.
Qed.

Lemma txn_bset b p f v (Q : unit -> fsys C -> Prop) :
  L !! b = Some (p, f) -> Z.of_nat (length v) = BSIZE ->
  (forall s', txn d s' (dwrite V b v) (<[b := (p, false)]> L) T x W -> Q tt s') ->
  wp (bset p v) h s [] Q.
Proof.
  intros HL Hlen HQ. destruct (held_entry b p f HL) as (U & e & Hv & He & Hp & Hho & Hd & Href).
  destruct Ht as (_ & HT & Hx & Hn). pose proof (vw_held _ _ _ _ _ Hv b p f HL) as Hb.
  destruct Hv as [Hc Hwf Hn' Hout Hdist Hhome Hheld Hcon Huse Hdom Hcl].
  rewrite <- (set_bc_id s). apply (wp_bset pid h (bc s) s d U b e p); auto.
  intros c' Hc'. apply HQ. split_and!; auto. exists (<[b := entry_data v e]> U).
  assert (Hu : forall y, uses (lg s) (<[b := (p, false)]> L) y = uses (lg s) L y).
  { intros y. unfold uses. destruct (decide (y = b)) as [-> |];
      [now rewrite lookup_insert_eq, HL | now rewrite lookup_insert_ne]. }
  split; auto; cbn [lg set_bc].
  - intros y q g. destruct (decide (y = b)) as [-> |]; [auto|]. rewrite lookup_insert_ne by auto. apply Hheld.
  - intros y. unfold contents, dwrite. destruct (Z.eqb_spec y b) as [-> |].
    + now rewrite lookup_insert_eq. + rewrite lookup_insert_ne by auto. apply Hcon.
  - intros y e'. rewrite Hu. destruct (decide (y = b)) as [-> |].
    + rewrite lookup_insert_eq. intros [= <-]. cbn. rewrite lookup_insert_eq.
      destruct (Huse b e He) as (Hr & _ & _). split_and!; auto. congruence.
    + rewrite !lookup_insert_ne by auto. apply Huse.
  - intros y. rewrite Hu, <- Hdom. destruct (decide (y = b)) as [-> |].
    + rewrite lookup_insert_eq, He. split; eauto. + now rewrite lookup_insert_ne.
  - intros y Hy Hf. unfold dwrite. destruct (Z.eqb_spec y b) as [-> |].
    + exfalso. apply (Hf p). now rewrite lookup_insert_eq.
    + apply Hcl; auto. intros q E. apply (Hf q). now rewrite lookup_insert_ne.
Qed.

Lemma txn_log_write b p f (Q : unit -> fsys C -> Prop) :
  L !! b = Some (p, f) -> cnt W < LOGSIZE -> cnt W < sz - 1 ->
  (forall s', txn d s' V (<[b := (p, true)]> L) T x (logged b W) -> Q tt s') ->
  wp (log_write p) h s [] Q.
Proof.
  intros HL Hroom Hroom' HQ. destruct (held_entry b p f HL) as (U & e & Hv & He & Hp & Hho & Hd & Href).
  pose proof (txn_count _ _ _ _ _ _ _ Ht) as Hcnt.
  destruct Ht as (_ & HT & Hx & Hn). pose proof (vw_held _ _ _ _ _ Hv b p f HL) as Hb.
  destruct Hv as [Hc Hwf Hn' Hout Hdist Hhome Hheld Hcon Huse Hdom Hcl].
  assert (Hr : log_room st sz (lg s)).
  { split; auto; try lia. intros i Hi. apply Hhome, elem_tx. auto. }
  rewrite <- (set_bc_id s). eapply wp_mono.
  { apply (log_write_run st sz pid h Hh Hlog s (bc s) d U b e p); auto. rewrite Href. case_bool_decide; lia. }
  intros [] s' (c' & -> & Hc'). apply HQ. set (U' := if bool_decide _ then U else _) in Hc'.
  assert (Hadd : forall y, y ∈ tx_blocks (log_add (lg s) b) <-> y ∈ tx_blocks (lg s) \/ y = b).
  { intros y. apply (elem_log_add st sz); auto. lia. }
  assert (Hln : lh_n (log_add (lg s) b) <= lh_n (lg s) + 1 /\ 0 <= lh_n (log_add (lg s) b) /\
                outstanding (log_add (lg s) b) = outstanding (lg s) /\
                committing (log_add (lg s) b) = committing (lg s)).
  { unfold log_add. case_bool_decide; cbn; lia. }
  split_and!; auto.
  2: { intros y Hy. apply elem_logged. apply Hadd in Hy as [Hy | ->]; auto. }
  exists U'.
  assert (Hu : forall y, y <> b -> uses (log_add (lg s) b) (<[b := (p, true)]> L) y = uses (lg s) L y).
  { intros y Hy. unfold uses. rewrite lookup_insert_ne by auto. f_equal.
    rewrite (bool_decide_ext _ _ (Hadd y)). repeat case_bool_decide; tauto. }
  assert (Hub : uses (log_add (lg s) b) (<[b := (p, true)]> L) b = 2).
  { unfold uses. rewrite lookup_insert_eq, bool_decide_eq_true_2; [lia|]. apply Hadd. auto. }
  assert (HU : forall y, y <> b -> U' !! y = U !! y).
  { intros y Hy. subst U'. case_bool_decide; [auto|]. now rewrite lookup_insert_ne. }
  assert (HUb : U' !! b = Some (entry_ref 2 e)).
  { subst U'. rewrite Href. case_bool_decide as Hin; [rewrite He | now rewrite lookup_insert_eq].
    f_equal. destruct e. cbn in *. rewrite Href. reflexivity. }
  split; cbn [lg set_bc set_lg bc]; [exact Hc' | now apply log_add_wf | lia | lia |..].
  - apply (distinct_log_add st sz); auto. lia.
  - intros y Hy. apply Hadd in Hy as [Hy | ->]; auto.
  - intros y q g. destruct (decide (y = b)) as [-> |]; [auto|]. rewrite lookup_insert_ne by auto. apply Hheld.
  - intros y. rewrite <- Hcon. unfold contents. destruct (decide (y = b)) as [-> |];
      [now rewrite HUb, He | now rewrite HU].
  - intros y e'. destruct (decide (y = b)) as [-> |].
    + rewrite HUb, Hub, lookup_insert_eq. intros [= <-]. cbn. split_and!; auto. congruence.
    + rewrite HU, Hu, lookup_insert_ne by auto. apply Huse.
  - intros y. destruct (decide (y = b)) as [-> |].
    + rewrite HUb, Hub. split; [lia | eauto]. + rewrite HU, Hu by auto. apply Hdom.
  - intros y Hy Hf. rewrite Hadd in Hy. apply Hcl; [tauto|]. intros q E. apply (Hf q).
    rewrite lookup_insert_ne; [auto|]. intros ->. tauto.
Qed.

Lemma txn_brelse b p (Q : unit -> fsys C -> Prop) :
  L !! b = Some (p, true) -> (forall s', txn d s' V (delete b L) T x W -> Q tt s') ->
  wp (brelse p) h s [] Q.
Proof.
  intros HL HQ. destruct (held_entry b p true HL) as (U & e & Hv & He & Hp & Hho & Hd & Href).
  destruct Ht as (_ & HT & Hx & Hn).
  destruct Hv as [Hc Hwf Hn' Hout Hdist Hhome Hheld Hcon Huse Hdom Hcl].
  rewrite <- (set_bc_id s). apply (wp_brelse pid h Hh (bc s) s d U b e p); auto.
  { intros E. rewrite Href in E. case_bool_decide; [lia|]. rewrite Hd. apply Hcl; auto. congruence. }
  intros c' Hc'. apply HQ. split_and!; auto. exists (released U b e).
  assert (Hu : forall y, y <> b -> uses (lg s) (delete b L) y = uses (lg s) L y).
  { intros y Hy. unfold uses. now rewrite lookup_delete_ne. }
  assert (Hub : uses (lg s) (delete b L) b = e_ref e - 1).
  { rewrite uses_None by apply lookup_delete_eq. rewrite Href. now case_bool_decide. }
  assert (HU : forall y, y <> b -> released U b e !! y = U !! y).
  { intros y Hy. unfold released. destruct (_ =? _); [now rewrite lookup_delete_ne | now rewrite lookup_insert_ne]. }
  assert (HUb : released U b e !! b = if bool_decide (b ∈ tx_blocks (lg s))
     then Some (Ent p (V b) 1 None) else None).
  { unfold released. rewrite Href. case_bool_decide; cbn;
      [rewrite lookup_insert_eq, Hp, Hd | rewrite lookup_delete_eq]; auto. }
  split; auto; cbn [lg set_bc].
  - intros y q g. destruct (decide (y = b)) as [-> |]; [now rewrite lookup_delete_eq|].
    rewrite lookup_delete_ne by auto. apply Hheld.
  - intros y. destruct (decide (y = b)) as [-> |]; [|unfold contents; rewrite HU by auto; apply Hcon].
    unfold contents. rewrite HUb. case_bool_decide; auto. symmetry. apply Hcl; auto. congruence.
  - intros y e'. destruct (decide (y = b)) as [-> |].
    + rewrite HUb, Hub, lookup_delete_eq, Href. case_bool_decide; intros [=]; subst; cbn. split_and!; auto. discriminate.
    + rewrite HU, Hu, lookup_delete_ne by auto. apply Huse.
  - intros y. destruct (decide (y = b)) as [-> |]; [|rewrite HU, Hu by auto; apply Hdom].
    rewrite HUb, Hub, Href. case_bool_decide; split; try lia; eauto. now intros [? [=]].
  - intros y Hy Hf. apply Hcl; auto. intros q E. destruct (decide (y = b)) as [-> |]; [congruence|].
    apply (Hf q). now rewrite lookup_delete_ne.
Qed.

End rules.

Lemma txn_length d s V L T x W b : txn d s V L T x W -> Z.of_nat (length (V b)) = BSIZE.
Proof.
  intros ((U & Hv) & _). rewrite <- (vw_contents _ _ _ _ _ Hv b). apply (cb_blocks _ _ _ b (proj1 (vw_cst _ _ _ _ _ Hv))).
Qed.

(** Computations that change only the inode table. *)
Lemma txn_itable d s V L T T' x W :
  txn d s V L T x W -> txn d (set_itable T' s) V L T' x W.
Proof. intros ((U & []) & _ & Hx & Hn). split_and!; auto. exists U. now split. Qed.

Lemma txn_weaken d s V L T x W W' : txn d s V L T x W -> W ⊆ W' -> txn d s V L T x W'.
Proof. intros (Hv & HT & Hx & Hn) Hle. split_and!; auto. Qed.

End txn.
