(* ===== verification/FsCommit.v ===== *)
(** * From a transaction to the disk

    An idle file system, the transaction that [begin_op] opens, and its
    commit by [end_op]: the view of the blocks becomes the disk; a power
    failure leaves the old disk or the view. *)

From S2P Require Import Prelude KMonad Riscv Trace Sleeplock FsState Log LogCrash LogOps LogSpec FsTxn.

Section commit.
Context {C : Type} `{BlockCacheLaws C BSIZE NBUF ROOTDEV}.
Variables (st sz pid : Z) (h : locks).
Hypothesis Hh : cache_locks_free h.
Hypothesis Hlog : log_lock ∉ h.

(** No operation is running, and everything is on the disk [d]. *)
Record idle (d : disk_t) (s : fsys C) : Prop := {
  id_cst : cst pid (bc s) d ∅;
  id_wf : log_wf st sz (lg s);
  id_log : lh_n (lg s) = 0 /\ outstanding (lg s) = 0 /\ committing (lg s) = 0;
  id_header : hdr_n (d st) = 0;
}.

Definition started (s : fsys C) : fsys C := set_lg (set_outstanding (outstanding (lg s) + 1) (lg s)) s.

Lemma txn_started d s : idle d s -> txn st sz pid d (started s) d ∅ (itable s) (sb s) ∅.
Proof.
  intros [Hc Hwf (Hn & Ho & Hcm) Hz].
  assert (Htx : forall b, b ∉ tx_blocks (lg s)).
  { intros b. unfold tx_blocks. rewrite Hn. apply not_elem_of_nil. }
  destruct Hwf as [W1 W2 W3 W4 W5].
  split_and!; auto; [|intros b Hb; now apply Htx in Hb]. exists ∅. split; cbn [bc lg set_lg]; auto.
  - split; auto.
  - cbn. rewrite Hn. unfold LOGSIZE, MAXOPBLOCKS. lia.
  - cbn. rewrite Ho, Hcm. auto.
  - intros i j Hi. cbn in Hi. lia.
  - intros b Hb. now apply Htx in Hb.
  - intros b p f. rewrite lookup_empty. discriminate.
  - intros b. unfold contents. now rewrite lookup_empty.
  - intros b. rewrite uses_None, lookup_empty by apply lookup_empty.
    rewrite bool_decide_eq_false_2 by apply Htx. split; [now intros [] | lia].
Qed.

Lemma begin_op_idle d s : idle d s ->
  wp begin_op h s [] (fun _ s' => txn st sz pid d s' d ∅ (itable s) (sb s) ∅).
Proof.
  intros Hid. pose proof (txn_started d s Hid) as Ht. destruct Hid as [Hc Hwf (Hn & Ho & Hcm) Hz].
  eapply wp_Ret; [|exact Ht].
  unfold begin_op. krun. change WAKEUPS with (S 63). apply begin_op_go; auto; try lia.
  rewrite Hn, Ho. unfold LOGSIZE, MAXOPBLOCKS. lia.
Qed.

Section txn.
Variables (d V : disk_t) (T : Z -> inode) (x : superblock) (W : gset Z) (s : fsys C).
Hypothesis Ht : txn st sz pid d s V ∅ T x W.
Hypothesis Hcap : cnt W < NBUF.

(** The blocks in use at the end of the operation are those of the
    transaction, each with one reference. *)
Lemma txn_blocks U b : view st sz pid s V ∅ d U ->
  match U !! b with
  | Some e => b ∈ tx_blocks (lg s) /\ e_ref e = 1 /\ e_holder e = None /\ e_data e = V b
  | None => b ∉ tx_blocks (lg s)
  end.
Proof.
  intros Hv. pose proof (vw_dom _ _ _ _ _ _ _ _ Hv b) as Hd. rewrite uses_None in Hd by apply lookup_empty.
  destruct (U !! b) as [e|] eqn:E.
  - destruct (vw_use _ _ _ _ _ _ _ _ Hv b e E) as (Hr & Hho & _). rewrite uses_None in Hr by apply lookup_empty.
    rewrite lookup_empty in Hho. assert (Hin : 0 < (if bool_decide (b ∈ tx_blocks (lg s)) then 1 else 0)) by (apply Hd; eauto).
    case_bool_decide; [|lia]. split_and!; auto. rewrite <- (vw_contents _ _ _ _ _ _ _ _ Hv b). unfold contents. now rewrite E.
  - case_bool_decide; [|auto]. destruct (proj2 Hd); [lia | discriminate].
Qed.

Lemma txn_transaction U : view st sz pid s V ∅ d U -> 0 < lh_n (lg s) -> transaction st sz (lg s) U.
Proof.
  intros Hv Hn. pose proof (txn_count _ _ _ _ _ _ _ _ _ _ Ht) as Hc.
  pose proof (view_size _ _ _ _ _ _ _ _ Hv) as Hs. rewrite map_size_empty in Hs.
  pose proof Hv as [Hcst Hwf Hln Hout Hdist Hhome _ _ _ _ _]. split; auto; try lia.
  - intros i Hi. pose proof (elem_tx (lg s) i Hi) as Hin. split; [auto|].
    pose proof (txn_blocks U (lblock (lg s) i) Hv) as Hb. destruct (U !! lblock (lg s) i) as [e|]; [|tauto].
    exists e. destruct Hb as (_ & -> & -> & _). split_and!; auto; lia.
  - intros b Hb. pose proof (txn_blocks U b Hv) as Hu. destruct (U !! b) as [e|] eqn:E; auto.
    destruct (Hhome b (proj1 Hu)). lia.
Qed.

Lemma txn_after_commit U b : view st sz pid s V ∅ d U -> after_commit s d U b = V b.
Proof.
  intros Hv. unfold after_commit, cached. fold (tx_blocks (lg s)). pose proof (txn_blocks U b Hv) as Hb.
  case_bool_decide; destruct (U !! b) as [e|]; try tauto.
  symmetry. apply (vw_clean _ _ _ _ _ _ _ _ Hv b); [auto|]. intros p. rewrite lookup_empty. discriminate.
Qed.

(** The last [end_op]: the view is on the disk. *)
Definition committed (d' : disk_t) (s' : fsys C) : Prop :=
  idle d' s' /\ same_fs st sz d' V /\ itable s' = T /\ sb s' = x.

Lemma end_op_commit U : view st sz pid s V ∅ d U -> 0 < lh_n (lg s) ->
  wp end_op h s (commit_writes st (ending s) d U) (fun _ s' => exists d', committed d' s').
Proof.
  intros Hv Hn. pose proof (txn_transaction U Hv Hn) as Htr.
  pose proof Hv as [Hcst Hwf _ [Ho Hcm] _ _ _ _ _ _ _].
  pose proof (end_op_run st sz pid h Hh Hlog s (bc s) d U Hcm Ho Htr Hcst) as Hrun.
  rewrite set_bc_id in Hrun. eapply wp_mono; [exact Hrun|].
  pose proof (ending_transaction st sz s U Htr) as Htr'.
  intros _ s' (c' & -> & Hc'). eexists. split_and!; cbn; [|..|apply Ht | apply Ht].
  - split; cbn [bc lg set_bc set_lg].
    + match goal with |- cst _ _ _ ∅ => idtac end. eapply (eq_ind _ (fun U' => cst pid c' _ U')); [exact Hc'|].
      apply map_eq. intros b. rewrite lookup_empty.
      pose proof (txn_blocks U b Hv) as Hb. destruct (decide (b ∈ tx_blocks (lg s))) as [Hin | Hin].
      * apply list_elem_of_fmap in Hin as (i & -> & Hi). rewrite elem_of_seqZ in Hi.
        destruct (U_after_tx st sz (ending s) d U Htr' i ltac:(cbn; lia)) as (e & He & E).
        change (lblock (lg (ending s)) i) with (lblock (lg s) i) in *. rewrite E. rewrite He in Hb.
        destruct Hb as (_ & -> & _). reflexivity.
      * rewrite (U_after_other st (ending s) d U b Hin). destruct (U !! b); tauto.
    + destruct Hwf. now split.
    + cbn. auto.
    + rewrite dwrite_eq. apply (H_clear_n st sz _ (ending s) (bc s) d U Htr' Hcst).
  - intros z Hz. rewrite (installed_home st sz _ (ending s) (bc s) d U Htr' Hcst z Hz).
    apply (txn_after_commit U z Hv).
Qed.

Lemma end_op_nothing U : view st sz pid s V ∅ d U -> lh_n (lg s) = 0 -> hdr_n (d st) = 0 ->
  wp end_op h s [] (fun _ s' => exists d', committed d' s').
Proof.
  intros Hv Hn Hz. pose proof Hv as [Hcst Hwf _ [Ho Hcm] _ _ _ _ _ _ _].
  assert (Htx : forall b, b ∉ tx_blocks (lg s)).
  { intros b. unfold tx_blocks. rewrite Hn. apply not_elem_of_nil. }
  exists [EvWakeup ch_log], tt. eexists. split_and!; [|reflexivity|].
  - unfold runs. rewrite end_op_last by auto.
    assert (Ec : commit h (ending s) = Ret tt h (ending s)).
    { unfold commit, getlog. krun. cbn [ending lg set_lg lh_n set_committing set_outstanding]. now rewrite Hn. }
    erewrite bind_Ret by exact Ec. apply end_op_tail, Hlog.
  - exists d. split_and!; cbn; [| |apply Ht | apply Ht].
    + split; cbn; auto; [|destruct Hwf; now split].
      replace ∅ with U; auto. apply map_eq. intros b. rewrite lookup_empty.
      pose proof (txn_blocks U b Hv) as Hb. destruct (U !! b); [|auto]. now destruct (Htx b (proj1 Hb)).
    + intros z Hz'. symmetry. apply (vw_clean _ _ _ _ _ _ _ _ Hv z (Htx z)). intros p. rewrite lookup_empty. discriminate.
Qed.

(** [end_op] of the only operation commits; a failure during it leaves the old
    disk or the new one. *)
Lemma txn_end_op : hdr_n (d st) = 0 -> exists w, wp end_op h s w (fun _ s' => exists d', committed d' s') /\
  forall d1, crash_points w d d1 -> header_ok st sz (d1 st) /\
    (same_fs st sz (logical st d1) d \/ same_fs st sz (logical st d1) V).
Proof.
  intros Hz. pose proof (proj1 Ht) as (U & Hv). destruct (Z.eq_dec (lh_n (lg s)) 0) as [E | E].
  - exists []. split; [now apply (end_op_nothing U)|]. intros d1 Hd. apply crash_points_nil in Hd as ->. split.
    + unfold header_ok. rewrite Hz. unfold LOGSIZE, MAXOPBLOCKS. pose proof (lw_geom _ _ _ (vw_wf _ _ _ _ _ _ _ _ Hv)).
      split_and!; lia.
    + left. intros z _. now rewrite logical_empty.
  - assert (Hn : 0 < lh_n (lg s)) by (pose proof (vw_n _ _ _ _ _ _ _ _ Hv); lia).
    pose proof (txn_transaction U Hv Hn) as Htr.
    exists (commit_writes st (ending s) d U). split; [now apply (end_op_commit U)|].
    intros d1 Hd. destruct (commit_crash st sz pid (ending s) (bc s) d U (ending_transaction st sz s U Htr)
      (vw_cst _ _ _ _ _ _ _ _ Hv) d1 Hz Hd) as [Hok [Ho | Ho]]; split; auto. right.
    intros z Hz'. rewrite (Ho z Hz'). apply (txn_after_commit U z Hv).
Qed.

End txn.
End commit.

(** ** Operations as transactions

    Code that runs inside a transaction, bracketed by [begin_op] and
    [end_op]: it takes effect as a whole, also when the power fails. *)

Lemma wp_then {S A B} (m : M S A) (f : A -> M S B) h s (Q : A -> S -> Prop) R (P : list (Z * block) -> Prop) :
  wp m h s [] Q -> (forall a s1, Q a s1 -> exists w, wp (f a) h s1 w R /\ P w) ->
  exists w, wp (bind m f) h s w R /\ P w.
Proof.
  intros (tr & a & s1 & Hr & Hw & HQ) Hf. destruct (Hf a s1 HQ) as (w & Hwp & HP).
  exists w. split; auto. change w with ([] ++ w). apply wp_bind. exists tr, a, s1. auto.
Qed.

Section atomic.
Context {C : Type} `{BlockCacheLaws C BSIZE NBUF ROOTDEV}.
Variables (x : superblock) (st sz pid : Z) (h : locks).
Hypothesis Hx : geometry x st sz.
Hypothesis Hh : cache_locks_free h.
Hypothesis Hlog : log_lock ∉ h.

Context {A : Type}.
Variables (m : M (fsys C) A) (Post : A -> disk_t -> (Z -> inode) -> Prop) (d : disk_t) (s : fsys C).
Hypothesis Hidle : idle st sz pid d s.
Hypothesis Hm : forall s1, txn st sz pid d s1 d ∅ (itable s) (sb s) ∅ ->
  wp m h s1 [] (fun r s2 => exists V T W,
    txn st sz pid d s2 V ∅ T (sb s) W /\ cnt W < NBUF /\ Post r V T).

Definition operation : M (fsys C) A :=
  begin_op;;
  r <- m;;
  end_op;;
  ret r.

(** What a failure at any point leaves on the disk. *)
Definition old_or_new (d1 : disk_t) : Prop :=
  same_fs st sz (logical st d1) d \/
  exists r V T, Post r V T /\ same_fs st sz (logical st d1) V.

Lemma operation_run : exists w, wp operation h s w (fun r s' => exists d' V,
    idle st sz pid d' s' /\ same_fs st sz d' V /\ Post r V (itable s') /\ sb s' = sb s) /\
  forall d1, crash_points w d d1 -> header_ok st sz (d1 st) /\ old_or_new d1.
Proof.
  unfold operation. eapply wp_then; [apply (begin_op_idle st sz pid h Hlog d s Hidle)|].
  intros [] s1 Ht1. eapply wp_then; [apply (Hm s1 Ht1)|].
  intros r s2 (V & T & W & Ht2 & Hc & HP).
  destruct (txn_end_op st sz pid h Hh Hlog d V T (sb s) W s2 Ht2 Hc (id_header _ _ _ _ _ Hidle)) as (w & Hw & Hcr).
  exists (w ++ []). split.
  - apply wp_bind. eapply wp_mono; [exact Hw|]. intros [] s3 (d' & Hid & Hsame & HT & Hsb).
    apply wp_ret. exists d', V. split_and!; auto. now rewrite HT.
  - rewrite app_nil_r. intros d1 Hd1. destruct (Hcr d1 Hd1) as [Hok Hcase]. split; auto.
    destruct Hcase; [left; auto | right; eauto].
Qed.

Lemma operation_returns : exists w, wp operation h s w (fun r s' => exists d' V,
    idle st sz pid d' s' /\ same_fs st sz d' V /\ Post r V (itable s') /\ sb s' = sb s).
Proof. destruct operation_run as (w & Hw & _). eauto. Qed.

(** After a failure in the operation and any number of failures during
    recovery, the boot that completes finds the old state or the new one. *)
Lemma operation_crash d1 d2 (s2 : fsys C) :
  crash (operation h s) d d1 -> failed_boots x h d1 d2 -> boot_state s2 d2 ->
  exists w, wp (initlog ROOTDEV x) h s2 w (fun _ s3 => exists d3,
    cb_rel (bc s3) d3 ∅ /\ hdr_n (d3 st) = 0 /\
    (same_fs st sz d3 d \/ exists r V T, Post r V T /\ same_fs st sz d3 V)).
Proof.
  intros Hcr Hf Hb. destruct operation_run as (w & Hw & Hcase).
  destruct (Hcase d1 (wp_crash _ _ _ _ _ _ _ Hw Hcr)) as [Hok1 Hon].
  destruct (failed_boots_logical x h st sz d1 d2 Hx Hh Hf Hok1) as [Hok2 Hl2].
  eexists. eapply wp_mono; [apply (initlog_wp x st sz h Hx Hh s2 d2 Hb Hok2)|].
  intros _ s3 (d3 & Hr3 & Hs3 & Hz3 & _). exists d3. split_and!; auto.
  rewrite Hs3, Hl2. destruct Hon as [Hon | (r & V & T & HP & Hon)]; [auto|]. right. exists r, V, T. now rewrite Hs3, Hl2.
Qed.

End atomic.
