(* ===== verification/FsBlocks.v ===== *)
(** * The block allocator of the file system

    The free map as a set of block numbers, and what [bzero], [balloc] and
    [bfree] do to it and to the blocks. *)

From S2P Require Import Prelude KMonad Riscv Printf Trace Sleeplock FsState.
From S2P Require Import Log LogCrash LogOps FsTxn Fs.

(** ** Bits *)

Lemma land_pow2_zero y k : 0 <= k -> (Z.land y (Z.shiftl 1 k) =? 0) = negb (Z.testbit y k).
Proof.
  intros Hk. destruct (Z.testbit y k) eqn:E; cbn.
  - apply Z.eqb_neq. intros H. apply (f_equal (fun z => Z.testbit z k)) in H.
    rewrite Z.land_spec, Z.shiftl_spec, Z.sub_diag, E, Z.bits_0 in H by lia. discriminate.
  - apply Z.eqb_eq, Z.bits_inj'. intros i Hi. rewrite Z.land_spec, Z.shiftl_spec, Z.bits_0 by lia.
    destruct (Z.eq_dec i k) as [-> |]; [now rewrite E|].
    replace (Z.testbit 1 (i - k)) with false; [apply andb_false_r|].
    symmetry. destruct (Z_lt_le_dec i k); [apply Z.testbit_neg_r; lia|].
    change 1 with (2 ^ 0). apply Z.pow2_bits_false. lia.
Qed.

Lemma bit_free_spec v bi : bit_free v bi = negb (Z.testbit (nthZ 0 v (bi / 8)) (bi mod 8)).
Proof. apply land_pow2_zero. apply Z.mod_pos_bound. lia. Qed.

Definition mark (v : block) (bi : Z) : block :=
  updZ v (bi / 8) (Z.lor (nthZ 0 v (bi / 8)) (bit_mask bi)).
Definition unmark (v : block) (bi : Z) : block :=
  updZ v (bi / 8) (Z.land (nthZ 0 v (bi / 8)) (u8 (Z.lnot (bit_mask bi)))).

Lemma byte_bit_inj bi bj : bi / 8 = bj / 8 -> bi mod 8 = bj mod 8 -> bi = bj.
Proof. intros E1 E2. rewrite (Z.div_mod bi 8), (Z.div_mod bj 8) by lia. lia. Qed.

Lemma testbit_mask bi k : 0 <= k -> Z.testbit (bit_mask bi) k = (k =? bi mod 8).
Proof.
  intros Hk. unfold bit_mask. pose proof (Z.mod_pos_bound bi 8).
  rewrite Z.shiftl_1_l. destruct (Z.eqb_spec k (bi mod 8)) as [-> |].
  - apply Z.pow2_bits_true. lia. - apply Z.pow2_bits_false. lia.
Qed.

Lemma bit_free_upd v bi bj y :
  0 <= bi -> 0 <= bj -> bi / 8 < Z.of_nat (length v) ->
  bit_free (updZ v (bi / 8) y) bj =
    if bi / 8 =? bj / 8 then negb (Z.testbit y (bj mod 8)) else bit_free v bj.
Proof.
  intros Hi Hj Hl. rewrite !bit_free_spec.
  assert (0 <= bi / 8 /\ 0 <= bj / 8) as [? ?] by (split; apply Z.div_pos; lia).
  destruct (Z.eqb_spec (bi / 8) (bj / 8)) as [E | E].
  - rewrite <- E, nthZ_updZ_eq by lia. reflexivity.
  - rewrite nthZ_updZ_ne by lia. reflexivity.
Qed.

Lemma mark_free v bi bj :
  0 <= bi -> 0 <= bj -> bi / 8 < Z.of_nat (length v) ->
  bit_free (mark v bi) bj = negb (bj =? bi) && bit_free v bj.
Proof.
  intros Hi Hj Hl. unfold mark. rewrite bit_free_upd by auto.
  pose proof (Z.mod_pos_bound bj 8). rewrite (bit_free_spec v bj).
  destruct (Z.eqb_spec (bi / 8) (bj / 8)) as [E | E].
  - rewrite Z.lor_spec, testbit_mask by lia. rewrite <- E.
    destruct (Z.eqb_spec (bj mod 8) (bi mod 8)) as [E' | E'], (Z.eqb_spec bj bi) as [E2 | E2].
    + subst. now rewrite orb_true_r. + exfalso. now apply E2, byte_bit_inj.
    + subst. lia. + now rewrite orb_false_r.
  - destruct (Z.eqb_spec bj bi); [subst; lia | reflexivity].
Qed.

Lemma unmark_free v bi bj :
  0 <= bi -> 0 <= bj -> bi / 8 < Z.of_nat (length v) ->
  bit_free (unmark v bi) bj = (bj =? bi) || bit_free v bj.
Proof.
  intros Hi Hj Hl. unfold unmark. rewrite bit_free_upd by auto.
  pose proof (Z.mod_pos_bound bj 8). rewrite (bit_free_spec v bj).
  destruct (Z.eqb_spec (bi / 8) (bj / 8)) as [E | E].
  - unfold u8. rewrite Z.land_spec, Z.mod_pow2_bits_low, Z.lnot_spec, testbit_mask by lia. rewrite <- E.
    destruct (Z.eqb_spec (bj mod 8) (bi mod 8)) as [E' | E'], (Z.eqb_spec bj bi) as [E2 | E2]; cbn.
    + now rewrite andb_false_r. + exfalso. now apply E2, byte_bit_inj.
    + subst. lia. + now rewrite andb_true_r.
  - destruct (Z.eqb_spec bj bi); [subst; lia | reflexivity].
Qed.

Lemma free_bit_spec b size v : forall (k : nat) bi, 0 <= bi ->
  match free_bit k bi b size v with
  | Some r => bi <= r < bi + Z.of_nat k /\ b + r < size /\ bit_free v r = true /\
              forall j, bi <= j < r -> bit_free v j = false
  | None => forall j, bi <= j < bi + Z.of_nat k -> b + j < size -> bit_free v j = false
  end.
Proof.
  induction k as [|k IH]; intros bi Hbi; cbn [free_bit]; [intros; lia|].
  destruct (Z.ltb_spec (b + bi) size) as [Hs | Hs]; cbn [negb]; [|intros; lia].
  destruct (bit_free v bi) eqn:E; [split_and!; auto; intros; lia|].
  specialize (IH (bi + 1) ltac:(lia)). destruct (free_bit k (bi + 1) b size v) as [r|].
  - destruct IH as (H1 & H2 & H3 & H4). split_and!; auto; try lia.
    intros j Hj. destruct (Z.eq_dec j bi) as [-> |]; [auto | apply H4; lia].
  - intros j Hj Hs'. destruct (Z.eq_dec j bi) as [-> |]; [auto | apply IH; lia].
Qed.

(** ** Console output *)

Lemma consputs_run {S} (out : list Z) h (s : S) :
  exists tr, runs (consputs out) h s tr tt s /\ writes tr = [].
Proof.
  induction out as [|c out (tr & IH & Hw)]; [exists []; split; [apply runs_ret | reflexivity]|].
  cbn [consputs]. unfold consputc. destruct (c =? BACKSPACE).
  - exists ([EvPutc (u8 8); EvPutc (u8 32); EvPutc (u8 8)] ++ tr). split; [|rewrite writes_app, Hw; reflexivity].
    eapply runs_bind; [reflexivity | exact IH].
  - exists ([EvPutc (u8 c)] ++ tr). split; [|rewrite writes_app, Hw; reflexivity].
    eapply runs_bind; [reflexivity | exact IH].
Qed.

Lemma wp_printf {S A} fmt ap out h (s : S) (f : unit -> M S A) w Q :
  pr_lock ∉ h -> format fmt ap = Some out -> wp (f tt) h s w Q ->
  wp (bind (printf fmt ap) f) h s w Q.
Proof.
  intros Hl Hf Hw. apply wp_seq. destruct (consputs_run out (pr_lock :: h) s) as (tr & Hr & Htr).
  exists tr, tt, s. split_and!; auto. unfold runs, printf in *. rewrite Hf. krun.
  rewrite (bind_emits _ _ _ _ _ _ _ _ Hr). now rewrite release_top.
Qed.

(** ** The allocator *)

Definition block_free (x : superblock) (V : disk_t) (b : Z) : bool :=
  bit_free (V (BBLOCK b x)) (b mod BPB).

Section alloc.
Context {C : Type} `{BlockCacheLaws C BSIZE NBUF ROOTDEV}.
Variables (st sz pid : Z) (h : locks).
Hypothesis Hh : cache_locks_free h.
Hypothesis Hlog : log_lock ∉ h.
Hypothesis Hpr : pr_lock ∉ h.

(** The layout of the disk that mkfs makes: the log, the inodes and the free
    map lie before the data blocks. *)
Record layout (x : superblock) (dstart : Z) : Prop := {
  ly_log : 0 <= st /\ 0 <= sz /\ st + sz <= dstart;
  ly_size : 0 < dstart /\ sb_size x < 2 ^ 31;
  ly_bmap : forall b, 0 <= b < sb_size x -> st + sz <= b / BPB + sb_bmapstart x < dstart;
  ly_inode : forall i, 0 <= i < sb_ninodes x -> st + sz <= i / IPB + sb_inodestart x < dstart;
  ly_small : dstart <= 2 ^ 31;
  ly_order : forall i b, 0 <= i < sb_ninodes x -> 0 <= b < sb_size x ->
    i / IPB + sb_inodestart x < b / BPB + sb_bmapstart x;
}.

Variables (x : superblock) (dstart : Z).
Hypothesis Hly : layout x dstart.

Lemma data_home b : dstart <= b < sb_size x -> home st sz b.
Proof. intros Hb. destruct Hly. split; lia. Qed.

Lemma bblock_home b : 0 <= b < sb_size x -> home st sz (BBLOCK b x) /\ BBLOCK b x < dstart /\
  BBLOCK b x = b / BPB + sb_bmapstart x.
Proof.
  intros Hb. destruct Hly as [Hl Hs Hbm _ Hsm _]. specialize (Hbm b Hb).
  assert (E : BBLOCK b x = b / BPB + sb_bmapstart x) by (apply u32_small; lia).
  rewrite E. split_and!; auto; [split; lia | lia].
Qed.

(** The room a computation needs: [k] more blocks in the log, [c] more buffers. *)
Definition room (W : gset Z) (k : Z) (L : held) (c : Z) : Prop :=
  cnt W + k < sz /\ cnt W + k <= LOGSIZE /\ cnt W + k + Z.of_nat (size L) + c <= NBUF.

(** Store new contents in a held block, log it and release it. *)
Lemma txn_store {A} d s V L T W b p f0 v (f : unit -> M (fsys C) A) Q :
  txn st sz pid d s V (<[b := (p, f0)]> L) T x W -> L !! b = None -> cnt W + 1 < sz -> cnt W + 1 <= LOGSIZE ->
  Z.of_nat (length v) = BSIZE ->
  (forall s', txn st sz pid d s' (dwrite V b v) L T x (logged b W) -> wp (f tt) h s' [] Q) ->
  wp (bset p v;; log_write p;; bind (brelse p) f) h s [] Q.
Proof.
  intros Ht HL R1 R2 Hlen HQ.
  apply wp_seq, (txn_bset st sz pid h d V _ T x W s Ht b p f0); [apply lookup_insert_eq | auto |].
  intros s2 Ht2. rewrite insert_insert_eq in Ht2.
  apply wp_seq, (txn_log_write st sz pid h Hh Hlog d _ _ T x W s2 Ht2 b p false); [apply lookup_insert_eq | lia.. |].
  intros s3 Ht3. rewrite insert_insert_eq in Ht3.
  apply wp_seq, (txn_brelse st sz pid h Hh d _ _ T x _ s3 Ht3 b p); [apply lookup_insert_eq|].
  intros s4 Ht4. rewrite delete_insert_id in Ht4 by auto. now apply HQ.
Qed.

Lemma txn_store_last d s V L T W b p f0 v (Q : unit -> fsys C -> Prop) :
  txn st sz pid d s V (<[b := (p, f0)]> L) T x W -> L !! b = None -> cnt W + 1 < sz -> cnt W + 1 <= LOGSIZE ->
  Z.of_nat (length v) = BSIZE ->
  (forall s', txn st sz pid d s' (dwrite V b v) L T x (logged b W) -> Q tt s') ->
  wp (bset p v;; log_write p;; brelse p) h s [] Q.
Proof.
  intros Ht HL R1 R2 Hlen HQ.
  rewrite <- (bind_ret_r (brelse p)). apply (txn_store d s V L T W b p f0 v ret Q); auto.
  intros s' Ht'. apply wp_ret. auto.
Qed.

Definition zeros : block := repeat 0 (Z.to_nat BSIZE).

Lemma map_zeros v : Z.of_nat (length v) = BSIZE -> map (fun _ : Z => 0) v = zeros.
Proof.
  intros Hl. unfold zeros. rewrite <- Hl, Nat2Z.id. clear. induction v; cbn; congruence.
Qed.

Lemma length_zeros : Z.of_nat (length zeros) = BSIZE.
Proof. unfold zeros. now rewrite repeat_length. Qed.

Lemma bzero_run d s V L T W b (Q : unit -> fsys C -> Prop) :
  txn st sz pid d s V L T x W -> L !! b = None -> home st sz b -> room W 1 L 1 ->
  (forall s', txn st sz pid d s' (dwrite V b zeros) L T x (logged b W) -> Q tt s') ->
  wp (bzero ROOTDEV b) h s [] Q.
Proof.
  intros Ht HL Hb (R1 & R2 & R3) HQ. unfold bzero.
  apply wp_seq, (txn_bread st sz pid h Hh d V L T x W s Ht); auto; [lia|]. intros p s1 Ht1.
  apply (txn_bdata st sz pid h d V _ T x W s1 Ht1 b p true); [apply lookup_insert_eq|].
  rewrite map_zeros by apply (txn_length _ _ _ _ _ _ _ _ _ _ b Ht).
  apply (txn_store_last d s1 V L T W b p true); auto using length_zeros.
Qed.

(** The disk after block [b] has been allocated. *)
Definition allocated (V : disk_t) (b : Z) : disk_t :=
  dwrite (dwrite V (BBLOCK b x) (mark (V (BBLOCK b x)) (b mod BPB))) b zeros.

(** Metadata is in use, and so is every block that is held. *)
Definition meta_used (V : disk_t) : Prop := forall b, 0 <= b < dstart -> b < sb_size x -> block_free x V b = false.
Definition held_used (V : disk_t) (L : held) : Prop :=
  forall b, 0 <= b < sb_size x -> is_Some (L !! b) -> block_free x V b = false.

Lemma bitmap_split b bi : b mod BPB = 0 -> 0 <= bi < BPB -> (b + bi) / BPB = b / BPB /\ (b + bi) mod BPB = bi.
Proof.
  intros Hb Hbi. apply Z.div_exact in Hb; [|discriminate]. rewrite Hb at 1 3. split.
  - rewrite Z.mul_comm, Z.div_add_l by discriminate. rewrite (Z.div_small bi) by auto. lia.
  - rewrite Z.add_comm, Z.mul_comm, Z.mod_add by discriminate. now apply Z.mod_small.
Qed.

Lemma balloc_loop_run d V L T W (Q : Z -> fsys C -> Prop) : forall (fuel : nat) b s,
  txn st sz pid d s V L T x W -> room W 2 L 1 -> meta_used V -> held_used V L ->
  (forall i, 0 <= i < sb_size x -> L !! BBLOCK i x = None) ->
  0 <= b -> b mod BPB = 0 -> sb_size x <= b + Z.of_nat fuel * BPB ->
  (forall i, 0 <= i < b -> i < sb_size x -> block_free x V i = false) ->
  (forall r s', dstart <= r < sb_size x -> block_free x V r = true ->
     (forall i, 0 <= i < r -> block_free x V i = false) ->
     txn st sz pid d s' (allocated V r) L T x (logged r (logged (BBLOCK r x) W)) -> Q r s') ->
  (forall s', (forall i, 0 <= i < sb_size x -> block_free x V i = false) ->
     txn st sz pid d s' V L T x W -> Q 0 s') ->
  wp (balloc_loop fuel ROOTDEV b) h s [] Q.
Proof.
  induction fuel as [|fuel IH]; intros b s Ht (R1 & R2 & R3) Hmeta Hheld HLb Hb Hmod Hfuel Hbefore HQ HQ0;
    cbn [balloc_loop]; unfold getsb; apply wp_gets; rewrite (proj1 (proj2 (proj2 Ht))).
  { destruct (Z.ltb_spec b (sb_size x)); cbn [negb]; [lia|].
    eapply wp_printf; [auto | vm_compute; reflexivity |]. apply wp_ret, HQ0; auto.
    intros i Hi. apply Hbefore; lia. }
  destruct (Z.ltb_spec b (sb_size x)) as [Hs | Hs]; cbn [negb].
  2: { eapply wp_printf; [auto | vm_compute; reflexivity |]. apply wp_ret, HQ0; auto.
       intros i Hi. apply Hbefore; lia. }
  destruct (bblock_home b ltac:(lia)) as (Hhome & Hlt & Eb).
  apply wp_seq, (txn_bread st sz pid h Hh d V L T x W s Ht); [apply HLb; lia | exact Hhome | lia |].
  intros p s1 Ht1.
  apply (txn_bdata st sz pid h d V _ T x W s1 Ht1 (BBLOCK b x) p true); [apply lookup_insert_eq|].
  pose proof (free_bit_spec b (sb_size x) (V (BBLOCK b x)) (Z.to_nat BPB) 0 ltac:(lia)) as Hfree.
  assert (Hsame : forall bi, 0 <= bi < BPB -> block_free x V (b + bi) = bit_free (V (BBLOCK b x)) bi).
  { intros bi Hbi. destruct (bitmap_split b bi Hmod Hbi) as [E1 E2]. unfold block_free, BBLOCK. now rewrite E1, E2. }
  destruct (free_bit _ 0 b (sb_size x) (V (BBLOCK b x))) as [bi|].
  - destruct Hfree as (Hbi & Hbs & Hf & Hmin). rewrite Z2Nat.id in Hbi by discriminate.
    destruct (bitmap_split b bi Hmod ltac:(lia)) as [E1 E2].
    assert (Hr : block_free x V (b + bi) = true) by (rewrite Hsame by lia; auto).
    assert (Hge : dstart <= b + bi).
    { destruct (Z_le_gt_dec dstart (b + bi)); auto. rewrite Hmeta in Hr by lia. discriminate. }
    assert (HLr : L !! (b + bi) = None).
    { destruct (L !! (b + bi)) eqn:E; auto. rewrite (Hheld (b + bi)) in Hr; [discriminate | lia | eauto]. }
    assert (EB : BBLOCK (b + bi) x = BBLOCK b x) by (unfold BBLOCK; now rewrite E1).
    apply (txn_store d s1 V L T W (BBLOCK b x) p true); [auto | apply HLb; lia | lia | lia | |].
    { rewrite length_updZ. apply (txn_length _ _ _ _ _ _ _ _ _ _ (BBLOCK b x) Ht). }
    pose proof (cnt_logged (BBLOCK b x) W). intros s2 Ht2. apply wp_seq. eapply (bzero_run d s2 _ L T (logged (BBLOCK b x) W));
      [exact Ht2 | exact HLr | apply data_home; lia | repeat split; lia |].
    intros s3 Ht3. apply wp_ret, HQ; auto; try lia.
    + intros i Hi. destruct (Z_lt_le_dec i b); [apply Hbefore; lia|].
      replace i with (b + (i - b)) by lia. rewrite Hsame by lia. apply Hmin. lia.
    + unfold allocated. rewrite EB, E2. exact Ht3.
  - apply wp_seq, (txn_brelse st sz pid h Hh d _ _ T x _ s1 Ht1 (BBLOCK b x) p); [apply lookup_insert_eq|].
    intros s2 Ht2. rewrite delete_insert_id in Ht2 by (apply HLb; lia).
    rewrite Z2Nat.id in Hfree by discriminate.
    apply IH; [exact Ht2 | repeat split; lia | auto | auto | auto | unfold BPB, BSIZE; lia | | lia | | auto | auto].
    + rewrite Z.add_mod, Hmod, Z.mod_same by discriminate. reflexivity.
    + intros i Hi Hi'. destruct (Z_lt_le_dec i b); [apply Hbefore; lia|].
      replace i with (b + (i - b)) by lia. rewrite Hsame by lia. apply Hfree; lia.
Qed.

Lemma balloc_run d V L T W s (Q : Z -> fsys C -> Prop) :
  txn st sz pid d s V L T x W -> room W 2 L 1 -> meta_used V -> held_used V L ->
  (forall i, 0 <= i < sb_size x -> L !! BBLOCK i x = None) -> 0 <= sb_size x ->
  (forall r s', dstart <= r < sb_size x -> block_free x V r = true ->
     (forall i, 0 <= i < r -> block_free x V i = false) ->
     txn st sz pid d s' (allocated V r) L T x (logged r (logged (BBLOCK r x) W)) -> Q r s') ->
  (forall s', (forall i, 0 <= i < sb_size x -> block_free x V i = false) ->
     txn st sz pid d s' V L T x W -> Q 0 s') ->
  wp (balloc ROOTDEV) h s [] Q.
Proof.
  intros Ht Hr Hmeta Hheld HLb Hs HQ HQ0. unfold balloc, getsb. apply wp_gets.
  rewrite (proj1 (proj2 (proj2 Ht))).
  apply (balloc_loop_run d V L T W); auto; try lia.
  assert (0 <= sb_size x / BPB) by (apply Z.div_pos; unfold BPB, BSIZE; lia).
  rewrite Z2Nat.id by lia. pose proof (Z.mul_succ_div_gt (sb_size x) BPB). unfold BPB, BSIZE in *. lia.
Qed.

Definition freed (V : disk_t) (b : Z) : disk_t :=
  dwrite V (BBLOCK b x) (unmark (V (BBLOCK b x)) (b mod BPB)).

Lemma bfree_run d V L T W b s (Q : unit -> fsys C -> Prop) :
  txn st sz pid d s V L T x W -> room W 1 L 1 -> 0 <= b < sb_size x -> L !! BBLOCK b x = None ->
  block_free x V b = false ->
  (forall s', txn st sz pid d s' (freed V b) L T x (logged (BBLOCK b x) W) -> Q tt s') ->
  wp (bfree ROOTDEV b) h s [] Q.
Proof.
  intros Ht (R1 & R2 & R3) Hb HL Hf HQ. unfold bfree, getsb. apply wp_gets.
  rewrite (proj1 (proj2 (proj2 Ht))). destruct (bblock_home b Hb) as (Hhome & _).
  apply wp_seq, (txn_bread st sz pid h Hh d V L T x W s Ht); [exact HL | exact Hhome | lia |].
  intros p s1 Ht1.
  apply (txn_bdata st sz pid h d V _ T x W s1 Ht1 (BBLOCK b x) p true); [apply lookup_insert_eq|].
  unfold block_free in Hf. rewrite Hf.
  apply (txn_store_last d s1 V L T W (BBLOCK b x) p true); [auto | auto | lia | lia | | auto].
  rewrite length_updZ. apply (txn_length _ _ _ _ _ _ _ _ _ _ (BBLOCK b x) Ht).
Qed.

(** ** The free map as a set *)

Section freemap.
Variables (V : disk_t) (r : Z).
Hypothesis Hlen : forall b, Z.of_nat (length (V b)) = BSIZE.
Hypothesis Hr : 0 <= r < sb_size x.

Lemma bit_index b : 0 <= b mod BPB /\ b mod BPB / 8 < BSIZE.
Proof.
  pose proof (Z.mod_pos_bound b BPB ltac:(unfold BPB, BSIZE; lia)). split; [lia|].
  apply Z.div_lt_upper_bound; unfold BPB in *; lia.
Qed.

Lemma same_bit b : b / BPB + sb_bmapstart x = r / BPB + sb_bmapstart x ->
  (b mod BPB =? r mod BPB) = (b =? r).
Proof.
  intros E. destruct (Z.eqb_spec (b mod BPB) (r mod BPB)) as [E' | E'], (Z.eqb_spec b r) as [E2 | E2]; auto.
  - exfalso. apply E2. rewrite (Z.div_mod b BPB), (Z.div_mod r BPB) by (unfold BPB, BSIZE; lia). lia.
  - exfalso. subst. auto.
Qed.

Lemma freed_free b : 0 <= b < sb_size x ->
  block_free x (freed V r) b = (b =? r) || block_free x V b.
Proof.
  intros Hb. destruct (bblock_home b Hb) as (_ & _ & Eb). destruct (bblock_home r Hr) as (_ & _ & Er).
  unfold block_free, freed. unfold dwrite. destruct (Z.eqb_spec (BBLOCK b x) (BBLOCK r x)) as [E | E].
  - rewrite unmark_free by (try apply bit_index; rewrite Hlen; apply bit_index).
    rewrite same_bit by congruence. now rewrite E.
  - destruct (Z.eqb_spec b r); [congruence | reflexivity].
Qed.

Lemma allocated_free b : dstart <= r -> 0 <= b < sb_size x ->
  block_free x (allocated V r) b = negb (b =? r) && block_free x V b.
Proof.
  intros Hd Hb. destruct (bblock_home b Hb) as (_ & Hlt & Eb). destruct (bblock_home r Hr) as (_ & _ & Er).
  unfold block_free, allocated. rewrite dwrite_ne by lia. unfold dwrite.
  destruct (Z.eqb_spec (BBLOCK b x) (BBLOCK r x)) as [E | E].
  - rewrite mark_free by (try apply bit_index; rewrite Hlen; apply bit_index).
    rewrite same_bit by congruence. now rewrite E.
  - destruct (Z.eqb_spec b r); [congruence | reflexivity].
Qed.

End freemap.
End alloc.
