(* ===== verification/FsFile.v ===== *)
(** * Files as sequences of blocks

    The block map of an inode, its well-formedness, and [bmap]: looking up a
    block and allocating it when it is missing changes neither the contents
    of the file nor any other block in use.  Then inodes on disk: what [iupdate]
    writes, and how files stay apart when one of them changes. *)

From S2P Require Import Prelude KMonad Riscv Printf Trace Sleeplock FsState Log LogCrash LogOps Fs FsTxn FsBlocks.

(** The indirect block, and the address of block [bn] (0 if there is none). *)
Definition ind_addr (i : inode) : Z := nthZ 0 (i_addrs i) NDIRECT.

Definition file_addr (V : disk_t) (i : inode) (bn : Z) : Z :=
  if bn <? NDIRECT then nthZ 0 (i_addrs i) bn
  else if ind_addr i =? 0 then 0 else get32 (V (ind_addr i)) (4 * (bn - NDIRECT)).

(** The contents of block [bn]: a block that is not there reads as zeros. *)
Definition file_block (V : disk_t) (i : inode) (bn : Z) : block :=
  if file_addr V i bn =? 0 then zeros else V (file_addr V i bn).

(** The blocks of a file. *)
Definition owns (V : disk_t) (i : inode) (b : Z) : Prop :=
  b <> 0 /\ (b = ind_addr i \/ exists bn, 0 <= bn < MAXFILE /\ file_addr V i bn = b).

Section file.
Context {C : Type} `{BlockCacheLaws C BSIZE NBUF ROOTDEV}.
Variables (st sz pid : Z) (h : locks).
Hypothesis Hh : cache_locks_free h.
Hypothesis Hlog : log_lock ∉ h.
Hypothesis Hpr : pr_lock ∉ h.
Variables (x : superblock) (dstart : Z).
Hypothesis Hly : layout st sz x dstart.
Hypothesis Hsize : 0 <= sb_size x.

Definition data_used (V : disk_t) (b : Z) : Prop := dstart <= b < sb_size x /\ block_free x V b = false.

Record file_ok (V : disk_t) (i : inode) : Prop := {
  fo_len : length (i_addrs i) = 13%nat;
  fo_dev : i_dev i = ROOTDEV;
  fo_ind : ind_addr i <> 0 -> data_used V (ind_addr i);
  fo_data : forall bn, 0 <= bn < MAXFILE -> file_addr V i bn <> 0 -> data_used V (file_addr V i bn);
  fo_inj : forall bn bn', 0 <= bn < MAXFILE -> 0 <= bn' < MAXFILE ->
    file_addr V i bn <> 0 -> file_addr V i bn = file_addr V i bn' -> bn = bn';
  fo_ne_ind : forall bn, 0 <= bn < MAXFILE -> file_addr V i bn <> 0 -> file_addr V i bn <> ind_addr i;
}.

(** What allocation may change: nothing but the free map, blocks that were
    free, and the indirect block [ind]. *)
Definition extends (V V' : disk_t) (ind : Z) : Prop :=
  (forall b, 0 <= b < sb_size x -> block_free x V b = false -> block_free x V' b = false) /\
  (forall b, dstart <= b < sb_size x -> block_free x V b = false -> b <> ind -> V' b = V b) /\
  (forall b, b < dstart -> (forall i, 0 <= i < sb_size x -> b <> BBLOCK i x) -> V' b = V b).

Lemma extends_refl V ind : extends V V ind.
Proof. split_and!; auto. Qed.

Lemma extends_trans V1 V2 V3 ind : extends V1 V2 ind -> extends V2 V3 ind -> extends V1 V3 ind.
Proof.
  intros (A1 & A2 & A3) (B1 & B2 & B3). destruct Hly as [_ [Hd _] _ _ _ _]. split_and!; auto.
  - intros b Hb Hf Hne. rewrite B2 by (auto; apply A1; auto; lia). auto.
  - intros b Hb Hn. rewrite B3 by auto. auto.
Qed.

Lemma allocated_extends V r ind :
  (forall b, Z.of_nat (length (V b)) = BSIZE) -> dstart <= r < sb_size x -> block_free x V r = true ->
  extends V (allocated x V r) ind.
Proof.
  intros Hlen Hr Hf. destruct Hly as [_ [Hd _] _ _ _ _].
  destruct (bblock_home st sz x dstart Hly r ltac:(lia)) as (_ & Hlt & _).
  split_and!.
  - intros b Hb Hbf. rewrite (allocated_free st sz x dstart Hly V r Hlen) by lia. rewrite Hbf. apply andb_false_r.
  - intros b Hb Hbf _. unfold allocated. rewrite !dwrite_ne; auto; [lia|]. intros ->. congruence.
  - intros b Hb Hn. unfold allocated. rewrite !dwrite_ne; auto; [|lia]. apply Hn. lia.
Qed.

(** Blocks of the file stay where they are. *)
Definition keeps (V : disk_t) (i : inode) (V' : disk_t) (i' : inode) : Prop :=
  forall bn, 0 <= bn < MAXFILE -> file_addr V i bn <> 0 -> file_addr V' i' bn = file_addr V i bn.

Lemma keeps_trans V i V1 i1 V2 i2 : keeps V i V1 i1 -> keeps V1 i1 V2 i2 -> keeps V i V2 i2.
Proof. intros A B bn Hb Hn. rewrite B, A; auto. rewrite A; auto. Qed.

(** ** Growing a file by one block *)

Lemma file_block_ext V V' i i' bn :
  file_addr V' i' bn = file_addr V i bn ->
  (file_addr V i bn <> 0 -> V' (file_addr V i bn) = V (file_addr V i bn)) ->
  file_block V' i' bn = file_block V i bn.
Proof.
  intros E Hv. unfold file_block. rewrite E. destruct (Z.eqb_spec (file_addr V i bn) 0); auto.
Qed.

Lemma file_grow V V' i i' bn r :
  file_ok V i -> 0 <= bn < MAXFILE -> file_addr V i bn = 0 ->
  file_addr V' i' bn = r -> (forall bn', 0 <= bn' < MAXFILE -> bn' <> bn -> file_addr V' i' bn' = file_addr V i bn') ->
  ind_addr i' = ind_addr i -> length (i_addrs i') = 13%nat -> i_dev i' = ROOTDEV ->
  data_used V' r -> block_free x V r = true -> V' r = zeros -> extends V V' (ind_addr i) ->
  file_ok V' i' /\ (forall bn', 0 <= bn' < MAXFILE -> file_block V' i' bn' = file_block V i bn') /\
  (forall b, owns V' i' b -> owns V i b \/ b = r) /\ keeps V i V' i'.
Proof.
  intros [F1 F2 F3 F4 F5 F6] Hbn Hz Hr Hoth Hind Hlen Hdev [Hdr Hur] Hfr Hzr (E1 & E2 & E3).
  destruct Hly as [_ [Hd _] _ _ _ _].
  assert (Hold : forall bn', 0 <= bn' < MAXFILE -> bn' <> bn -> file_addr V i bn' <> 0 ->
     data_used V' (file_addr V i bn') /\ file_addr V i bn' <> r).
  { intros bn' Hb Hne Ha. destruct (F4 bn' Hb Ha) as [Hda Hua]. split; [split; auto; apply E1; auto; lia|].
    intros E. congruence. }
  split_and!; [split; auto| | |].
  - rewrite Hind. intros Hi. destruct (F3 Hi). split; auto. apply E1; auto. lia.
  - intros bn' Hb. destruct (Z.eq_dec bn' bn) as [-> |]; [now rewrite Hr|].
    rewrite Hoth by auto. intros Ha. now apply Hold.
  - intros bn1 bn2 Hb1 Hb2.
    destruct (Z.eq_dec bn1 bn) as [-> | N1], (Z.eq_dec bn2 bn) as [-> | N2]; auto;
      rewrite ?Hr, ?Hoth by auto; intros Ha Ee.
    + exfalso. destruct (Hold bn2 Hb2 N2 ltac:(congruence)) as [_ Hx]. congruence.
    + exfalso. destruct (Hold bn1 Hb1 N1 Ha) as [_ Hx]. congruence.
    + now apply F5.
  - intros bn' Hb. rewrite Hind. destruct (Z.eq_dec bn' bn) as [-> |].
    + rewrite Hr. intros Ha E. destruct (F3 ltac:(congruence)). congruence.
    + rewrite Hoth by auto. apply F6. auto.
  - intros bn' Hb. destruct (Z.eq_dec bn' bn) as [-> | N].
    + unfold file_block. rewrite Hr, Hz, Hzr. now destruct (r =? 0).
    + apply file_block_ext; [now apply Hoth|]. intros Ha. destruct (F4 bn' Hb Ha).
      apply E2; auto.
  - intros b [Hb [-> | (bn' & Hbn' & <-)]]; [left; split; auto|].
    destruct (Z.eq_dec bn' bn) as [-> | N]; [auto|]. rewrite Hoth in * by auto. left. split; eauto.
  - intros bn' Hb Hn. apply Hoth; auto. congruence.
Qed.

Lemma set_iaddrs_len i bn r : length (i_addrs i) = 13%nat ->
  length (i_addrs (set_iaddrs (updZ (i_addrs i) bn r) i)) = 13%nat.
Proof. intros Hl. cbn. now rewrite length_updZ. Qed.

Lemma get32_zeros off : get32 zeros off = 0.
Proof.
  unfold get32, get_le, zeros. assert (E : forall i, nthZ 0 (repeat 0 (Z.to_nat BSIZE)) i = 0).
  { intros i. unfold nthZ. apply nth_repeat. }
  now rewrite !E.
Qed.

Section grow.
Variables (V : disk_t) (i : inode) (r : Z).
Hypothesis Hok : file_ok V i.
Hypothesis Hlen : forall b, Z.of_nat (length (V b)) = BSIZE.
Hypothesis Hr : dstart <= r < sb_size x.
Hypothesis Hf : block_free x V r = true.

Lemma allocated_used : data_used (allocated x V r) r /\ allocated x V r r = zeros.
Proof.
  split; [|apply dwrite_eq]. split; auto. destruct Hly as [_ [Hd _] _ _ _ _].
  rewrite (allocated_free st sz x dstart Hly V r Hlen) by lia. now rewrite Z.eqb_refl.
Qed.

Lemma allocated_ind : ind_addr i <> 0 -> allocated x V r (ind_addr i) = V (ind_addr i).
Proof.
  intros Hi. destruct (fo_ind _ _ Hok Hi) as [Hd Hu].
  destruct (allocated_extends V r 0 Hlen Hr Hf) as (_ & E & _). apply E; auto; lia.
Qed.

(** A missing direct block. *)
Lemma grow_direct bn : 0 <= bn < NDIRECT -> file_addr V i bn = 0 ->
  let i' := set_iaddrs (updZ (i_addrs i) bn r) i in
  let V' := allocated x V r in
  file_ok V' i' /\ (forall bn', 0 <= bn' < MAXFILE -> file_block V' i' bn' = file_block V i bn') /\
  (forall b, owns V' i' b -> owns V i b \/ b = r) /\ keeps V i V' i' /\ file_addr V' i' bn = r.
Proof.
  intros Hbn Hz i' V'. unfold NDIRECT in *. destruct allocated_used as [Hu Hzr].
  assert (Hind : ind_addr i' = ind_addr i) by (apply nthZ_updZ_ne; unfold NDIRECT; lia).
  assert (Hat : file_addr V' i' bn = r).
  { unfold file_addr, NDIRECT. destruct (Z.ltb_spec bn 12); [|lia]. apply nthZ_updZ_eq.
    rewrite (fo_len _ _ Hok). lia. }
  assert (Hbn' : 0 <= bn < MAXFILE) by (change MAXFILE with 268; lia).
  refine ((fun P => conj (proj1 P) (conj (proj1 (proj2 P)) (conj (proj1 (proj2 (proj2 P))) (conj (proj2 (proj2 (proj2 P))) Hat)))) _).
  apply (file_grow V V' i i' bn r); auto.
  - intros bn' Hb Hne. unfold file_addr. rewrite Hind.
    destruct (Z.ltb_spec bn' NDIRECT); [apply nthZ_updZ_ne; lia|].
    destruct (Z.eqb_spec (ind_addr i) 0); auto. subst V'. now rewrite allocated_ind.
  - apply set_iaddrs_len, Hok. - apply Hok.
  - now apply allocated_extends.
Qed.

(** A missing indirect block. *)
Lemma grow_ind : ind_addr i = 0 ->
  let i' := set_iaddrs (updZ (i_addrs i) NDIRECT r) i in
  let V' := allocated x V r in
  file_ok V' i' /\ (forall bn', 0 <= bn' < MAXFILE -> file_block V' i' bn' = file_block V i bn') /\
  (forall b, owns V' i' b -> owns V i b \/ b = r) /\ keeps V i V' i' /\ ind_addr i' = r.
Proof.
  intros Hz i' V'. destruct allocated_used as [Hu Hzr]. destruct Hly as [_ [Hd _] _ _ _ _].
  assert (Hind : ind_addr i' = r) by (apply nthZ_updZ_eq; rewrite (fo_len _ _ Hok); unfold NDIRECT; lia).
  assert (Hz' : forall bn', NDIRECT <= bn' -> file_addr V' i' bn' = 0).
  { intros bn' Hb. unfold file_addr. destruct (Z.ltb_spec bn' NDIRECT); [lia|].
    rewrite Hind. destruct (Z.eqb_spec r 0); auto. subst V'. rewrite Hzr. apply get32_zeros. }
  assert (Haddr : forall bn', 0 <= bn' -> file_addr V' i' bn' = file_addr V i bn').
  { intros bn' Hb. destruct (Z_lt_le_dec bn' NDIRECT).
    - unfold file_addr. destruct (Z.ltb_spec bn' NDIRECT); [|lia]. apply nthZ_updZ_ne; unfold NDIRECT in *; lia.
    - rewrite Hz' by auto. unfold file_addr. destruct (Z.ltb_spec bn' NDIRECT); [lia|]. now rewrite Hz. }
  destruct (allocated_extends V r 0 Hlen Hr Hf) as (E1 & E2 & _).
  pose proof Hok as [F1 F2 F3 F4 F5 F6]. split_and!; auto.
  - split; auto.
    + now apply set_iaddrs_len. + rewrite Hind. auto.
    + intros bn' Hb. rewrite Haddr by lia. intros Ha. destruct (F4 bn' Hb Ha). split; auto. apply E1; auto. lia.
    + intros b1 b2 Hb1 Hb2. rewrite !Haddr by lia. now apply F5.
    + intros bn' Hb. rewrite Haddr, Hind by lia. intros Ha E. destruct (F4 bn' Hb Ha). congruence.
  - intros bn' Hb. apply file_block_ext; [apply Haddr; lia|]. intros Ha. destruct (F4 bn' Hb Ha).
    apply E2; auto.
  - intros b [Hb [E | (bn' & Hbn' & <-)]]; [right; congruence|].
    rewrite Haddr in * by lia. left. split; eauto.
  - intros bn' Hb _. apply Haddr. lia.
Qed.

(** A missing block listed in the indirect block. *)
Lemma grow_indirect bn : NDIRECT <= bn < MAXFILE -> ind_addr i <> 0 -> file_addr V i bn = 0 ->
  let V' := dwrite (allocated x V r) (ind_addr i) (put32 (V (ind_addr i)) (4 * (bn - NDIRECT)) r) in
  file_ok V' i /\ (forall bn', 0 <= bn' < MAXFILE -> file_block V' i bn' = file_block V i bn') /\
  (forall b, owns V' i b -> owns V i b \/ b = r) /\ keeps V i V' i /\ file_addr V' i bn = r /\ extends V V' (ind_addr i).
Proof.
  intros Hbn Hi Hz V'. destruct allocated_used as [Hu Hzr]. destruct Hly as [_ [Hd Hsz] _ _ _ _].
  destruct (fo_ind _ _ Hok Hi) as [Hdi Hui].
  assert (Hne : r <> ind_addr i) by congruence.
  assert (Hbit : forall b, 0 <= b < sb_size x -> block_free x V' b = block_free x (allocated x V r) b).
  { intros b Hb. unfold block_free. subst V'. destruct (bblock_home st sz x dstart Hly b Hb) as (_ & Hlt & _).
    now rewrite dwrite_ne by lia. }
  assert (Hext : extends V V' (ind_addr i)).
  { destruct (allocated_extends V r 0 Hlen Hr Hf) as (E1 & E2 & E3). split_and!.
    - intros b Hb Hbf. rewrite Hbit by auto. auto.
    - intros b Hb Hbf Hn. subst V'. rewrite dwrite_ne by auto. apply E2; auto. lia.
    - intros b Hb Hn. subst V'. rewrite dwrite_ne by lia. now apply E3. }
  assert (Hget : forall bn', 0 <= bn' < MAXFILE -> file_addr V' i bn' = if bn' =? bn then r else file_addr V i bn').
  { intros bn' Hb. unfold file_addr. change MAXFILE with 268 in *. unfold NDIRECT in *.
    destruct (Z.ltb_spec bn' 12); [destruct (Z.eqb_spec bn' bn); [lia | auto]|].
    destruct (Z.eqb_spec (ind_addr i) 0); [lia|]. subst V'. rewrite dwrite_eq. unfold get32, put32.
    destruct (Z.eqb_spec bn' bn) as [-> | N].
    - rewrite get_put by (rewrite ?Hlen; unfold BSIZE; lia). apply Z.mod_small. cbn. lia.
    - now rewrite get_put_ne by lia. }
  assert (Hbn' : 0 <= bn < MAXFILE) by (unfold NDIRECT in Hbn; lia).
  assert (Hat : file_addr V' i bn = r) by (rewrite Hget by auto; now rewrite Z.eqb_refl).
  refine ((fun P => conj (proj1 P) (conj (proj1 (proj2 P)) (conj (proj1 (proj2 (proj2 P))) (conj (proj2 (proj2 (proj2 P))) (conj Hat Hext))))) _).
  apply (file_grow V V' i i bn r); auto; try apply Hok.
  - intros bn' Hb N. rewrite Hget by auto. destruct (Z.eqb_spec bn' bn); [lia | auto].
  - split; [auto|]. rewrite Hbit by lia. apply Hu.
  - subst V'. now rewrite dwrite_ne.
Qed.

End grow.
(** ** [bmap] *)

(** The outcome [r] of looking up block [bn] of the file. *)
Record grown (V : disk_t) (i : inode) (bn r : Z) (V' : disk_t) (i' : inode) : Prop := {
  gr_ok : file_ok V' i';
  gr_block : forall bn', 0 <= bn' < MAXFILE -> file_block V' i' bn' = file_block V i bn';
  gr_ext : extends V V' (ind_addr i');
  gr_own : forall b, owns V' i' b -> owns V i b \/ block_free x V b = true;
  gr_keep : keeps V i V' i';
  gr_ind : ind_addr i <> 0 -> ind_addr i' = ind_addr i;
  gr_addr : r <> 0 -> file_addr V' i' bn = r;
  gr_full : r = 0 -> forall b, 0 <= b < sb_size x -> block_free x V' b = false;
  gr_inode : i' = set_iaddrs (i_addrs i') i;
}.

(** What [bmap] may log: the block, the indirect block, and their bits. *)
Definition bmap_set (W : gset Z) (i : inode) (r : Z) : gset Z :=
  logged (BBLOCK r x) (logged (BBLOCK (ind_addr i) x) (logged r (logged (ind_addr i) W))).

Lemma bmap_set_le W i r W' : (forall b, b ∈ W' -> b ∈ W \/ b = r \/ b = ind_addr i \/
    b = BBLOCK r x \/ b = BBLOCK (ind_addr i) x) -> W' ⊆ bmap_set W i r.
Proof.
  intros Hs b Hb. unfold bmap_set. rewrite !elem_logged. apply Hs in Hb. tauto.
Qed.

(** What the code relies on: the metadata and the blocks held are in use, and
    the free map is not held. *)
Record usable (V : disk_t) (L : held) : Prop := {
  us_meta : meta_used x dstart V;
  us_held : held_used x V L;
  us_bmap : forall i, 0 <= i < sb_size x -> L !! BBLOCK i x = None;
}.

Lemma usable_extends V V' ind L : extends V V' ind -> usable V L -> usable V' L.
Proof.
  intros (E & _) [U1 U2 U3]. split; auto.
  - intros b Hb Hs. apply E; [lia | auto].
  - intros b Hb Hs. apply E; auto.
Qed.

Lemma usable_insert V L b p : usable V L -> data_used V b -> usable V (<[b := p]> L).
Proof.
  intros [U1 U2 U3] [Hb Hf]. split; auto.
  - intros b' Hb'. destruct (Z.eq_dec b' b) as [-> |]; auto. rewrite lookup_insert_ne by auto. auto.
  - intros i Hi. destruct (bblock_home st sz x dstart Hly i Hi) as (_ & Hlt & _).
    rewrite lookup_insert_ne by lia. auto.
Qed.

Lemma usable_fresh V L b : usable V L -> dstart <= b < sb_size x -> block_free x V b = true -> L !! b = None.
Proof.
  intros [_ U2 _] Hb Hf. destruct Hly as [_ [Hd _] _ _ _ _].
  destruct (L !! b) eqn:E; auto. rewrite U2 in Hf; [discriminate | lia | now exists p].
Qed.

Lemma grown_old V i bn : file_ok V i -> file_addr V i bn <> 0 -> grown V i bn (file_addr V i bn) V i.
Proof. intros Hok Ha. split; auto using extends_refl; [now intros bn' | congruence |]. now destruct i. Qed.

Lemma grown_none V i bn : file_ok V i -> (forall b, 0 <= b < sb_size x -> block_free x V b = false) ->
  grown V i bn 0 V i.
Proof. intros Hok Ha. split; auto using extends_refl; [now intros bn' | congruence |]. now destruct i. Qed.

Lemma bmap_tail d V L T W s ip bn (Q : Z -> fsys C -> Prop) :
  let i := T ip in
  txn st sz pid d s V L T x W -> room sz W 3 L 2 -> usable V L -> file_ok V i ->
  ind_addr i <> 0 -> L !! ind_addr i = None -> NDIRECT <= bn < MAXFILE ->
  (forall r s' V', grown V i bn r V' i -> txn st sz pid d s' V' L T x (logged (ind_addr i) (logged r (logged (BBLOCK r x) W))) -> Q r s') ->
  wp (bp <- bread (i_dev i) (ind_addr i);;
      v <- bdata bp;;
      addr <- (if get32 v (4 * (bn - NDIRECT)) =? 0 then
                 a <- balloc (i_dev i);;
                 (if a =? 0 then ret tt
                  else
                    v <- bdata bp;;
                    bset bp (put32 v (4 * (bn - NDIRECT)) a);;
                    log_write bp);;
                 ret a
               else ret (get32 v (4 * (bn - NDIRECT))));;
      brelse bp;;
      ret addr) h s [] Q.
Proof.
  intros i Ht (R1 & R2 & R3) Hus Hok Hi HL Hbn HQ. rewrite (fo_dev _ _ Hok).
  pose proof (fo_ind _ _ Hok Hi) as Hui.
  assert (Hlen : forall b, Z.of_nat (length (V b)) = BSIZE) by (intros b; eapply txn_length, Ht).
  apply wp_seq, (txn_bread st sz pid h Hh d V L T x W s Ht); [auto | apply (data_home st sz x dstart Hly), Hui | lia |].
  intros p s1 Ht1. pose proof (usable_insert _ _ _ (p, true) Hus Hui) as Hus1.
  assert (Hsz : Z.of_nat (size (<[ind_addr i:=(p, true)]> L)) = Z.of_nat (size L) + 1)
    by (rewrite map_size_insert_None by auto; lia).
  apply (txn_bdata st sz pid h d V _ T x W s1 Ht1 (ind_addr i) p true); [apply lookup_insert_eq|].
  assert (Ea : get32 (V (ind_addr i)) (4 * (bn - NDIRECT)) = file_addr V i bn).
  { unfold file_addr. destruct (Z.ltb_spec bn NDIRECT); [lia|]. now destruct (Z.eqb_spec (ind_addr i) 0). }
  rewrite Ea. destruct (Z.eqb_spec (file_addr V i bn) 0) as [Hz | Hz].
  - apply wp_seq, wp_seq, (balloc_run st sz pid h Hh Hlog Hpr x dstart Hly d V _ T W s1 _ Ht1);
      [split_and!; lia | apply Hus1.. | auto | |].
    + intros r s2 Hr Hf _ Ht2. destruct Hly as [_ [Hd _] _ _ _ _].
      destruct (Z.eqb_spec r 0) as [|Hr0]; [lia|]. apply wp_seq.
      apply (txn_bdata st sz pid h d _ _ T x _ s2 Ht2 (ind_addr i) p true); [apply lookup_insert_eq|].
      rewrite (allocated_ind V i r Hok Hlen Hr Hf Hi).
      apply wp_seq, (txn_bset st sz pid h d _ _ T x _ s2 Ht2 (ind_addr i) p true);
        [apply lookup_insert_eq | unfold put32; rewrite length_put; apply Hlen |].
      intros s3 Ht3. rewrite insert_insert_eq in Ht3.
      pose proof (cnt_logged r (logged (BBLOCK r x) W)). pose proof (cnt_logged (BBLOCK r x) W).
      apply (txn_log_write st sz pid h Hh Hlog d _ _ T x _ s3 Ht3 (ind_addr i) p false);
        [apply lookup_insert_eq | lia.. |].
      intros s4 Ht4. rewrite insert_insert_eq in Ht4. apply wp_ret.
      apply wp_seq, (txn_brelse st sz pid h Hh d _ _ T x _ s4 Ht4 (ind_addr i)); [apply lookup_insert_eq|].
      intros s5 Ht5. rewrite delete_insert_id in Ht5 by auto.
      apply wp_ret. eapply HQ; [|exact Ht5].
      destruct (grow_indirect V i r Hok Hlen Hr Hf bn Hbn Hi Hz) as (G1 & G2 & G3 & Gk & G4 & G5).
      split; auto; [|lia|now destruct i]. intros b Hb. destruct (G3 b Hb) as [| ->]; auto.
    + intros s2 Hfull Ht2. apply wp_ret.
      apply wp_seq, (txn_brelse st sz pid h Hh d _ _ T x _ s2 Ht2 (ind_addr i)); [apply lookup_insert_eq|].
      intros s3 Ht3. rewrite delete_insert_id in Ht3 by auto. apply wp_ret.
      apply (HQ 0 s3 V); [now apply grown_none | eapply txn_weaken; [exact Ht3 | intros b; rewrite !elem_logged; tauto]].
  - apply wp_seq, wp_ret, wp_seq, (txn_brelse st sz pid h Hh d _ _ T x _ s1 Ht1 (ind_addr i)); [apply lookup_insert_eq|].
    intros s3 Ht3. rewrite delete_insert_id in Ht3 by auto. apply wp_ret.
    apply (HQ _ s3 V); [now apply grown_old | eapply txn_weaken; [exact Ht3 | intros b; rewrite !elem_logged; tauto]].
Qed.

Definition upd_inode (T : Z -> inode) (p : Z) (f : inode -> inode) : Z -> inode :=
  fun q => if q =? p then f (T p) else T q.

Lemma upd_inode_eq T p f : upd_inode T p f p = f (T p).
Proof. unfold upd_inode. now rewrite Z.eqb_refl. Qed.

Lemma upd_inode_ne T p f q : q <> p -> upd_inode T p f q = T q.
Proof. unfold upd_inode. now destruct (Z.eqb_spec q p). Qed.

Lemma txn_modi {A} d s V L T W p f (k : unit -> M (fsys C) A) w Q :
  txn st sz pid d s V L T x W ->
  (forall s', txn st sz pid d s' V L (upd_inode T p f) x W -> wp (k tt) h s' w Q) ->
  wp (bind (modi p f) k) h s w Q.
Proof.
  intros Ht Hk. unfold modi. apply wp_modify, Hk. pose proof (proj1 (proj2 Ht)) as E.
  unfold mod_inode, upd_inode. rewrite E. now apply txn_itable with (T := T).
Qed.

Lemma bmap_run d V L T W s ip bn (Q : Z -> fsys C -> Prop) :
  txn st sz pid d s V L T x W -> room sz W 5 L 2 -> usable V L -> file_ok V (T ip) ->
  (ind_addr (T ip) <> 0 -> L !! ind_addr (T ip) = None) -> 0 <= bn < MAXFILE ->
  (forall r s' V' T', grown V (T ip) bn r V' (T' ip) -> (forall q, q <> ip -> T' q = T q) ->
     txn st sz pid d s' V' L T' x (bmap_set W (T' ip) r) -> Q r s') ->
  wp (bmap ip bn) h s [] Q.
Proof.
  intros Ht (R1 & R2 & R3) Hus Hok HL Hbn HQ. unfold bmap, geti. apply wp_gets.
  rewrite (proj1 (proj2 Ht)). set (i := T ip) in *.
  assert (Hlen : forall b, Z.of_nat (length (V b)) = BSIZE) by (intros b; eapply txn_length, Ht).
  pose proof Hly as [_ [Hd _] _ _ _ _].
  assert (Hold : forall s', grown V i bn 0 V i -> txn st sz pid d s' V L T x W -> Q 0 s').
  { intros s' Hg Ht'. apply (HQ 0 s' V T Hg); auto. eapply txn_weaken; [exact Ht' |]; apply bmap_set_le; intros b; rewrite ?elem_logged; tauto. }
  destruct (Z.ltb_spec bn NDIRECT) as [Hdir | Hind].
  - assert (Ea : nthZ 0 (i_addrs i) bn = file_addr V i bn).
    { unfold file_addr. now destruct (Z.ltb_spec bn NDIRECT); [|lia]. }
    rewrite Ea. destruct (Z.eqb_spec (file_addr V i bn) 0) as [Hz | Hz].
    + rewrite (fo_dev _ _ Hok).
      apply wp_seq, (balloc_run st sz pid h Hh Hlog Hpr x dstart Hly d V L T W s _ Ht);
        [split_and!; lia | apply Hus.. | auto | |].
      * intros r s1 Hr Hf _ Ht1. destruct (Z.eqb_spec r 0) as [|Hr0]; [lia|].
        eapply txn_modi; [exact Ht1|]. intros s2 Ht2. apply wp_ret.
        destruct (grow_direct V i r Hok Hlen Hr Hf bn ltac:(lia) Hz) as (G1 & G2 & Go & Gk & G3).
        eapply HQ; [| |eapply txn_weaken; [exact Ht2 |]; apply bmap_set_le; intros b; rewrite ?elem_logged; tauto].
        -- rewrite upd_inode_eq. split; auto; [now apply allocated_extends | | | lia].
           { intros b Hb. destruct (Go b Hb) as [| ->]; auto. }
           intros _. apply nthZ_updZ_ne; unfold NDIRECT in *; lia.
        -- intros q Hq. now apply upd_inode_ne.
      * intros s1 Hfull Ht1. apply wp_ret, Hold; auto. now apply grown_none.
    + apply wp_ret, (HQ _ s V T); auto; [now apply grown_old|]. eapply txn_weaken; [exact Ht |]; apply bmap_set_le; intros b; rewrite ?elem_logged; tauto.
  - destruct (Z.ltb_spec (bn - NDIRECT) NINDIRECT) as [_ | Hx]; [|unfold MAXFILE in Hbn; lia].
    change (nthZ 0 (i_addrs i) NDIRECT) with (ind_addr i).
    destruct (Z.eqb_spec (ind_addr i) 0) as [Hz | Hz].
    + rewrite (fo_dev _ _ Hok).
      apply wp_seq, wp_seq, (balloc_run st sz pid h Hh Hlog Hpr x dstart Hly d V L T W s _ Ht);
        [split_and!; lia | apply Hus.. | auto | |].
      * intros r s1 Hr Hf _ Ht1. destruct (Z.eqb_spec r 0) as [|Hr0]; [lia|].
        eapply txn_modi; [exact Ht1|]. intros s2 Ht2. apply wp_ret.
        destruct (Z.eqb_spec r 0) as [|_]; [lia|].
        destruct (grow_ind V i r Hok Hlen Hr Hf Hz) as (G1 & G2 & Go & Gk & G3).
        set (T1 := upd_inode T ip _) in *. set (i1 := set_iaddrs (updZ (i_addrs i) NDIRECT r) i) in *.
        assert (E1 : T1 ip = i1) by apply upd_inode_eq.
        pose proof (allocated_extends V r r Hlen Hr Hf) as Hx.
        pose proof (cnt_logged r (logged (BBLOCK r x) W)). pose proof (cnt_logged (BBLOCK r x) W).
        pose proof (bmap_tail d (allocated x V r) L T1 (logged r (logged (BBLOCK r x) W)) s2 ip bn Q) as B. cbv zeta in B.
        rewrite E1, G3 in B. rewrite (fo_dev _ _ G1) in B.
        apply B; [exact Ht2 | unfold room; split_and!; lia | now apply (usable_extends V _ r) | exact G1 | lia | now apply (usable_fresh V) | lia |].
        intros r' s' V' Hg' Ht'.
        apply (HQ r' s' V' T1); auto; [|intros q Hq; now apply upd_inode_ne|].
        2: { rewrite E1. eapply txn_weaken; [exact Ht'|]. apply bmap_set_le. rewrite G3.
             intros b. rewrite !elem_logged. tauto. }
        rewrite E1. destruct Hg' as [B1 B2 B3 Bo Bk B4 B5 B6 B7]. split; auto.
        -- intros bn' Hb. rewrite B2, G2; auto.
        -- eapply extends_trans; [|exact B3]. rewrite G3. exact Hx.
        -- intros b Hb. destruct (Bo b Hb) as [Hb1 | Hb1]; [destruct (Go b Hb1) as [| ->]; auto|].
           right. destruct (block_free x V b) eqn:E; auto. rewrite (proj1 Hx b) in Hb1; [discriminate | | auto].
           destruct Hb as [Hb0 [-> | (bn' & Hbn' & <-)]]; [apply (fo_ind _ _ B1) in Hb0 | apply (fo_data _ _ B1 _ Hbn') in Hb0];
             destruct Hb0; lia.
        -- now apply (keeps_trans _ _ _ i1 _ _ Gk).
        -- congruence.
      * intros s1 Hfull Ht1. apply wp_ret, wp_ret, Hold; auto. now apply grown_none.
    + apply wp_seq, wp_ret. rewrite (proj2 (Z.eqb_neq _ 0) Hz).
      apply (bmap_tail d V L T W s ip bn Q); auto; [split_and!; lia | lia |].
      intros r s' V' Hg Ht'. apply (HQ r s' V' T); auto. eapply txn_weaken; [exact Ht' |]; apply bmap_set_le; intros b; rewrite ?elem_logged; tauto.
Qed.

End file.

(** ** Inodes on disk

    The 64-byte [struct dinode] in its slot of an inode block: reading back
    what was written, leaving the other slots alone; [iupdate] stores the
    in-memory inode in its slot. *)

(** Fields within their C types. *)
Record dinode_wf (y : dinode) : Prop := {
  dw_short : forall z, z ∈ [d_type y; d_major y; d_minor y; d_nlink y] -> - 2 ^ 15 <= z < 2 ^ 15;
  dw_size : 0 <= d_size y < 2 ^ 32;
  dw_len : length (d_addrs y) = 13%nat;
  dw_addrs : forall z, z ∈ d_addrs y -> 0 <= z < 2 ^ 32;
}.

Lemma length_put_addrs a : forall v off, length (put_addrs v off a) = length v.
Proof. induction a; cbn [put_addrs]; intros; auto. rewrite IHa. apply length_put. Qed.

Lemma length_put_dinode v off y : length (put_dinode v off y) = length v.
Proof. unfold put_dinode, put16, put32. now rewrite length_put_addrs, !length_put. Qed.

Lemma put_addrs_ne a : forall v off i, 0 <= off -> 0 <= i -> i < off \/ off + 4 * Z.of_nat (length a) <= i ->
  nthZ 0 (put_addrs v off a) i = nthZ 0 v i.
Proof.
  induction a as [|y a IH]; cbn [put_addrs length]; intros v off i Ho Hi Hd; auto.
  rewrite IH by lia. apply nth_put_ne; lia.
Qed.

Lemma get_put_addrs a : forall v off i, 0 <= off -> off + 4 * Z.of_nat (length a) <= Z.of_nat (length v) ->
  0 <= i < Z.of_nat (length a) ->
  get32 (put_addrs v off a) (off + 4 * i) = nthZ 0 a i mod 2 ^ 32.
Proof.
  induction a as [|y a IH]; cbn [put_addrs length]; intros v off i Ho Hl Hi; [lia|].
  destruct (Z.eq_dec i 0) as [-> | N].
  - replace (off + 4 * 0) with off by lia. unfold nthZ. cbn [Z.to_nat nth].
    transitivity (get32 (put32 v off y) off).
    + apply get_ext. intros j Hj. apply put_addrs_ne; lia.
    + unfold get32, put32. rewrite get_put by lia. reflexivity.
  - replace (off + 4 * i) with (off + 4 + 4 * (i - 1)) by lia.
    rewrite IH by (unfold put32; rewrite ?length_put; lia). f_equal. unfold nthZ.
    replace (Z.to_nat i) with (S (Z.to_nat (i - 1))) by lia. reflexivity.
Qed.

(** Bytes outside the slot keep their value. *)
Lemma put_dinode_ne v off y i : length (d_addrs y) = 13%nat -> 0 <= off -> 0 <= i ->
  i < off \/ off + DINODE <= i -> nthZ 0 (put_dinode v off y) i = nthZ 0 v i.
Proof.
  unfold DINODE. intros Hl Ho Hi Hd. unfold put_dinode, put16, put32.
  rewrite put_addrs_ne by (rewrite ?Hl; lia). rewrite !nth_put_ne by lia. reflexivity.
Qed.

Lemma get_put_dinode_ne v off off' y : length (d_addrs y) = 13%nat -> 0 <= off -> 0 <= off' ->
  off' + DINODE <= off \/ off + DINODE <= off' ->
  get_dinode (put_dinode v off y) off' = get_dinode v off'.
Proof.
  unfold DINODE. intros Hl Ho Ho' Hd.
  assert (E : forall n k, 0 <= k -> k + Z.of_nat n <= 64 ->
    get_le n (put_dinode v off y) (off' + k) = get_le n v (off' + k)).
  { intros n k Hk Hn. apply get_ext. intros i Hi. apply put_dinode_ne; unfold DINODE; auto; lia. }
  unfold get_dinode, get_addrs, get16, get32. pose proof (E 2%nat 0) as E0. rewrite Z.add_0_r in E0.
  rewrite E0, !E by lia. f_equal. apply map_ext_in. intros k Hk. apply list_elem_of_In, elem_of_seqZ in Hk.
  unfold NDIRECT in Hk. rewrite <- Z.add_assoc. apply E; lia.
Qed.

Lemma i16_wrap z : - 2 ^ 15 <= z < 2 ^ 15 -> i16 (z mod 2 ^ (8 * Z.of_nat 2)) = z.
Proof.
  intros Hz. unfold i16. change (2 ^ (8 * Z.of_nat 2)) with (2 ^ 16).
  rewrite Zplus_mod_idemp_l, Z.mod_small; lia.
Qed.

Lemma map_nthZ (a : list Z) : length a = 13%nat -> map (nthZ 0 a) (seqZ 0 (NDIRECT + 1)) = a.
Proof. intros Hl. do 14 (destruct a as [|? a]; try discriminate Hl). reflexivity. Qed.

Lemma nthZ_elem (a : list Z) k : 0 <= k < Z.of_nat (length a) -> nthZ 0 a k ∈ a.
Proof. intros Hk. apply list_elem_of_In, nth_In. lia. Qed.

Lemma get_put_dinode v off y : dinode_wf y -> 0 <= off -> off + DINODE <= Z.of_nat (length v) ->
  get_dinode (put_dinode v off y) off = y.
Proof.
  unfold DINODE. intros [Hs Hz Hl Ha] Ho Hlen.
  set (w := put32 (put16 (put16 (put16 (put16 v off (d_type y)) (off + 2) (d_major y))
    (off + 4) (d_minor y)) (off + 6) (d_nlink y)) (off + 8) (d_size y)).
  assert (Ew : forall n k, 0 <= k -> k + Z.of_nat n <= 12 ->
    get_le n (put_dinode v off y) (off + k) = get_le n w (off + k)).
  { intros n k Hk Hn. apply get_ext. intros i Hi. apply put_addrs_ne; lia. }
  assert (El : length w = length v) by (subst w; unfold put16, put32; now rewrite !length_put).
  pose proof (Ew 2%nat 0) as E0. rewrite Z.add_0_r in E0.
  unfold get_dinode, get16, get32. rewrite E0, !Ew by lia. subst w. unfold put16, put32 in *.
  rewrite !(get_put_ne 2 4) by lia.
  repeat rewrite (get_put_ne 2 2 _ off) by lia. repeat rewrite (get_put_ne 2 2 _ (off + 2)) by lia.
  repeat rewrite (get_put_ne 2 2 _ (off + 4)) by lia. rewrite !get_put by (rewrite ?length_put; lia).
  rewrite !i16_wrap by (apply Hs, list_elem_of_In; cbn; tauto).
  rewrite (Z.mod_small (d_size y)) by exact Hz.
  replace (get_addrs _ _) with (d_addrs y); [now destruct y|].
  rewrite <- (map_nthZ (d_addrs y) Hl) at 1. unfold get_addrs, put_dinode.
  apply map_ext_in. intros k Hk. apply list_elem_of_In, elem_of_seqZ in Hk. unfold NDIRECT in Hk.
  rewrite get_put_addrs by (unfold put16, put32; rewrite ?length_put; lia).
  symmetry. apply Z.mod_small, Ha, nthZ_elem. lia.
Qed.

(** The inode of a file, as stored on disk. *)
Definition dinode_of (i : inode) : dinode :=
  Dinode (i_type i) (i_major i) (i_minor i) (i_nlink i) (i_size i) (i_addrs i).

Definition slot (inum : Z) : Z := inum mod IPB * DINODE.

Definition disk_inode (x : superblock) (V : disk_t) (inum : Z) : dinode :=
  get_dinode (V (IBLOCK inum x)) (slot inum).

Lemma slot_range inum : 0 <= slot inum /\ slot inum + DINODE <= BSIZE.
Proof.
  unfold slot. pose proof (Z.mod_pos_bound inum IPB ltac:(reflexivity)) as Hm.
  change IPB with 16 in *. unfold DINODE, BSIZE. lia.
Qed.

Section inode.
Context {C : Type} `{BlockCacheLaws C BSIZE NBUF ROOTDEV}.
Variables (st sz pid : Z) (h : locks).
Hypothesis Hh : cache_locks_free h.
Hypothesis Hlog : log_lock ∉ h.
Variables (x : superblock) (dstart : Z).
Hypothesis Hly : layout st sz x dstart.

Lemma iblock_home inum : 0 <= inum < sb_ninodes x ->
  home st sz (IBLOCK inum x) /\ IBLOCK inum x < dstart /\
  IBLOCK inum x = inum / IPB + sb_inodestart x /\
  (forall b, 0 <= b < sb_size x -> IBLOCK inum x <> BBLOCK b x).
Proof.
  intros Hi. destruct Hly as [Hl Hs _ Hin Hsm Hor]. specialize (Hin inum Hi).
  assert (E : IBLOCK inum x = inum / IPB + sb_inodestart x) by (apply u32_small; lia).
  rewrite E. split_and!; auto; [split; lia | lia |].
  intros b Hb. destruct (bblock_home st sz x dstart Hly b Hb) as (_ & _ & ->). specialize (Hor inum b Hi Hb). lia.
Qed.

(** The disk after [iupdate]. *)
Definition updated (V : disk_t) (i : inode) : disk_t :=
  dwrite V (IBLOCK (i_inum i) x) (put_dinode (V (IBLOCK (i_inum i) x)) (slot (i_inum i)) (dinode_of i)).

Lemma iupdate_run d V L T W s ip (Q : unit -> fsys C -> Prop) :
  let i := T ip in
  txn st sz pid d s V L T x W -> room sz W 1 L 1 -> i_dev i = ROOTDEV -> 0 <= i_inum i < sb_ninodes x ->
  L !! IBLOCK (i_inum i) x = None ->
  (forall s', txn st sz pid d s' (updated V i) L T x (logged (IBLOCK (i_inum i) x) W) -> Q tt s') ->
  wp (iupdate ip) h s [] Q.
Proof.
  intros i Ht (R1 & R2 & R3) Hdev Hi HL HQ. unfold iupdate, geti, getsb. apply wp_gets. rewrite (proj1 (proj2 Ht)).
  apply wp_gets. rewrite (proj1 (proj2 (proj2 Ht))). fold i. rewrite Hdev.
  apply wp_seq, (txn_bread st sz pid h Hh d V L T x W s Ht); [exact HL | apply iblock_home, Hi | lia |].
  intros p s1 Ht1.
  apply (txn_bdata st sz pid h d V _ T x W s1 Ht1 (IBLOCK (i_inum i) x) p true); [apply lookup_insert_eq|].
  eapply (txn_store_last st sz pid h Hh Hlog x d s1 V L T W _ p true); [exact Ht1 | exact HL | lia | lia | | exact HQ].
  rewrite length_put_dinode. apply (txn_length _ _ _ _ _ _ _ _ _ _ _ Ht).
Qed.

(** [iupdate] makes the slot of the inode agree with the table and changes no
    other inode, no other block and no bit of the free map. *)
Lemma updated_same V i : (forall b, Z.of_nat (length (V b)) = BSIZE) -> dinode_wf (dinode_of i) ->
  0 <= i_inum i < sb_ninodes x -> disk_inode x (updated V i) (i_inum i) = dinode_of i.
Proof.
  intros Hlen Hwf Hi. unfold disk_inode, updated. rewrite dwrite_eq. destruct (slot_range (i_inum i)).
  apply get_put_dinode; auto. now rewrite Hlen.
Qed.

Lemma updated_other V i j : dinode_wf (dinode_of i) -> 0 <= i_inum i < sb_ninodes x ->
  0 <= j < sb_ninodes x -> j <> i_inum i -> disk_inode x (updated V i) j = disk_inode x V j.
Proof.
  intros Hwf Hi Hj Hne. unfold disk_inode, updated.
  destruct (iblock_home _ Hi) as (_ & _ & Ei & _). destruct (iblock_home _ Hj) as (_ & _ & Ej & _).
  unfold dwrite. destruct (Z.eqb_spec (IBLOCK j x) (IBLOCK (i_inum i) x)) as [E |]; auto. rewrite E.
  destruct (slot_range (i_inum i)), (slot_range j). apply get_put_dinode_ne; auto; [apply Hwf|].
  unfold slot, DINODE. assert (j / IPB = i_inum i / IPB) by lia.
  assert (j mod IPB <> i_inum i mod IPB); [|lia].
  intros Em. apply Hne. rewrite (Z.div_mod j IPB), (Z.div_mod (i_inum i) IPB) by discriminate. congruence.
Qed.

Lemma updated_block V i b : b <> IBLOCK (i_inum i) x -> updated V i b = V b.
Proof. apply dwrite_ne. Qed.

Lemma updated_free V i b : 0 <= i_inum i < sb_ninodes x -> 0 <= b < sb_size x ->
  block_free x (updated V i) b = block_free x V b.
Proof.
  intros Hi Hb. unfold block_free. rewrite updated_block; auto. apply not_eq_sym. now apply iblock_home.
Qed.

Lemma updated_data V i b : 0 <= i_inum i < sb_ninodes x -> dstart <= b -> updated V i b = V b.
Proof. intros Hi Hb. apply updated_block. destruct (iblock_home _ Hi) as (_ & Hlt & _). lia. Qed.

End inode.
