(* ===== verification/FsIo.v ===== *)
(** * Reading and writing files

    [writei] replaces a range of the bytes of a file and extends it, touching
    no block of another file; [readi] returns the bytes of the file. *)

From S2P Require Import Prelude KMonad Riscv Printf Trace Sleeplock FsState.
From S2P Require Import Log LogCrash LogOps FsTxn Fs FsBlocks FsFile.

(** ** Byte ranges of a block *)

Lemma length_slice v o m : 0 <= o -> 0 <= m -> o + m <= Z.of_nat (length v) ->
  Z.of_nat (length (slice v o m)) = m.
Proof. intros Ho Hm Hl. unfold slice. rewrite length_take, length_drop. lia. Qed.

Lemma nthZ_slice v o m k : 0 <= o -> 0 <= k < m -> nthZ 0 (slice v o m) k = nthZ 0 v (o + k).
Proof.
  intros Ho Hk. unfold slice, nthZ. rewrite !nth_lookup, lookup_take_lt, lookup_drop by lia.
  do 2 f_equal. lia.
Qed.

Lemma length_splice v o bs : 0 <= o -> o + Z.of_nat (length bs) <= Z.of_nat (length v) ->
  length (splice v o bs) = length v.
Proof. intros Ho Hl. unfold splice. rewrite !length_app, length_take, length_drop. lia. Qed.

Lemma nthZ_splice v o bs k : 0 <= o -> o + Z.of_nat (length bs) <= Z.of_nat (length v) -> 0 <= k ->
  nthZ 0 (splice v o bs) k =
    if (o <=? k) && (k <? o + Z.of_nat (length bs)) then nthZ 0 bs (k - o) else nthZ 0 v k.
Proof.
  intros Ho Hl Hk. unfold splice, nthZ. rewrite !nth_lookup.
  destruct (Z.leb_spec o k), (Z.ltb_spec k (o + Z.of_nat (length bs))); cbn [andb].
  - rewrite lookup_app_r, lookup_app_l; rewrite length_take; [|lia..]. do 2 f_equal. lia.
  - rewrite !lookup_app_r, lookup_drop; rewrite ?length_take; [|lia..]. do 2 f_equal. lia.
  - rewrite lookup_app_l, lookup_take_lt; rewrite ?length_take; [auto | lia..].
  - lia.
Qed.

Lemma next_block off m : m = BSIZE - off mod BSIZE -> (off + m) mod BSIZE = 0.
Proof.
  intros ->. replace (off + (BSIZE - off mod BSIZE)) with (0 + (off / BSIZE + 1) * BSIZE).
  - apply Z.mod_add. discriminate.
  - pose proof (Z.div_mod off BSIZE ltac:(discriminate)). lia.
Qed.

(** ** The contents of a file *)

Definition content (V : disk_t) (i : inode) (k : Z) : Z := nthZ 0 (file_block V i (k / BSIZE)) (k mod BSIZE).

Lemma block_range k : 0 <= k < MAXFILE * BSIZE -> 0 <= k / BSIZE < MAXFILE.
Proof.
  intros Hk. split; [apply Z.div_pos; unfold BSIZE; lia|]. apply Z.div_lt_upper_bound; [unfold BSIZE|]; lia.
Qed.

(** The fields that writing does not change. *)
Definition same_inode (i i' : inode) : Prop :=
  set_isize 0 (set_iaddrs [] i') = set_isize 0 (set_iaddrs [] i).

Section io.
Context {C : Type} `{BlockCacheLaws C BSIZE NBUF ROOTDEV} `{!Process C}.
Variables (st sz pid : Z) (h : locks).
Hypothesis Hh : cache_locks_free h.
Hypothesis Hlog : log_lock ∉ h.
Hypothesis Hpr : pr_lock ∉ h.
Variables (x : superblock) (dstart : Z).
Hypothesis Hly : layout st sz x dstart.
Hypothesis Hsize : 0 < sb_size x.

Abbreviation file_ok := (file_ok x dstart).
Abbreviation usable := (usable x dstart).

(** What an operation on the file of [i] leaves alone: blocks in use by
    others, and the metadata outside the free map. *)
Record evolves (V : disk_t) (i : inode) (V' : disk_t) (i' : inode) : Prop := {
  ev_used : forall b, 0 <= b < sb_size x -> block_free x V b = false -> block_free x V' b = false;
  ev_own : forall b, owns V' i' b -> owns V i b \/ block_free x V b = true;
  ev_frame : forall b, dstart <= b < sb_size x -> block_free x V b = false -> ~ owns V i b -> V' b = V b;
  ev_meta : forall b, b < dstart -> (forall j, 0 <= j < sb_size x -> b <> BBLOCK j x) -> V' b = V b;
  ev_inode : same_inode i i';
}.

Lemma owns_used V i b : file_ok V i -> owns V i b -> data_used x dstart V b.
Proof. intros Hok [Hb [-> | (bn & Hbn & <-)]]; [now apply (fo_ind _ _ _ _ Hok) | now apply (fo_data _ _ _ _ Hok)]. Qed.

Lemma evolves_refl V i : evolves V i V i.
Proof. split; auto. reflexivity. Qed.

Lemma evolves_trans V1 i1 V2 i2 V3 i3 : file_ok V3 i3 ->
  evolves V1 i1 V2 i2 -> evolves V2 i2 V3 i3 -> evolves V1 i1 V3 i3.
Proof.
  intros Hok [A1 A2 A3 A4 A5] [B1 B2 B3 B4 B5]. pose proof Hly as [_ [Hd _] _ _ _ _]. split; auto.
  - intros b Hb. pose proof (owns_used _ _ _ Hok Hb) as [Hr _].
    destruct (B2 b Hb) as [Hb1 | Hf]; [auto|]. right. destruct (block_free x V1 b) eqn:E; auto.
    rewrite A1 in Hf; [discriminate | lia | auto].
  - intros b Hb Hf Hn. rewrite B3; auto; [apply A1; auto; lia|]. intros Ho.
    destruct (A2 b Ho); [auto | congruence].
  - intros b Hb Hn. rewrite B4, A4; auto.
  - unfold same_inode in *. congruence.
Qed.

Lemma usable_evolves V i V' i' : evolves V i V' i' -> usable V ∅ -> usable V' ∅.
Proof.
  intros [E _ _ _ _] [U1 U2 U3]. split; auto.
  - intros b Hb Hs. apply E; [lia | auto].
  - intros b Hb [y Hy]. now rewrite lookup_empty in Hy.
Qed.

Lemma grown_evolves V i bn r V' i' : grown x dstart V i bn r V' i' -> evolves V i V' i'.
Proof.
  intros [G1 G2 (E1 & E2 & E3) G4 _ G5 G6 G7 G8]. split; auto.
  - intros b Hb Hf Hn. apply E2; auto. intros ->.
    assert (Hi : ind_addr i' <> 0) by (destruct Hly as [_ [Hd _] _ _ _ _]; lia).
    destruct (G4 (ind_addr i')) as [Ho | Hf']; [split; auto | auto | congruence].
  - unfold same_inode. rewrite G8. reflexivity.
Qed.

Lemma grown_content V i bn r V' i' k : grown x dstart V i bn r V' i' -> 0 <= k < MAXFILE * BSIZE ->
  content V' i' k = content V i k.
Proof.
  intros Hg Hk. unfold content. rewrite (gr_block _ _ _ _ _ _ _ _ Hg); auto.
  split; [apply Z.div_pos; unfold BSIZE; lia|]. apply Z.div_lt_upper_bound; [unfold BSIZE|]; lia.
Qed.

(** Storing new contents in a block of the file. *)
Section store.
Variables (V : disk_t) (i : inode) (bn : Z) (v : block).
Hypothesis Hok : file_ok V i.
Hypothesis Hbn : 0 <= bn < MAXFILE.
Hypothesis Ha : file_addr V i bn <> 0.

Abbreviation V' := (dwrite V (file_addr V i bn) v).

Lemma store_free b : 0 <= b < sb_size x -> block_free x V' b = block_free x V b.
Proof.
  intros Hb. destruct (fo_data _ _ _ _ Hok bn Hbn Ha) as [Hr _].
  destruct (bblock_home st sz x dstart Hly b Hb) as (_ & Hlt & _). unfold block_free. now rewrite dwrite_ne by lia.
Qed.

Lemma store_addr bn' : file_addr V' i bn' = file_addr V i bn'.
Proof.
  unfold file_addr at 1 3. destruct (bn' <? NDIRECT); auto. destruct (ind_addr i =? 0); auto.
  rewrite dwrite_ne; auto. apply not_eq_sym, (fo_ne_ind _ _ _ _ Hok bn Hbn Ha).
Qed.

Lemma store_owns b : owns V' i b <-> owns V i b.
Proof. unfold owns. setoid_rewrite store_addr. reflexivity. Qed.

Lemma store_ok : file_ok V' i.
Proof.
  destruct Hly as [_ [Hd _] _ _ _ _]. pose proof Hok as [F1 F2 F3 F4 F5 F6].
  split; auto; unfold data_used in *.
  - intros Hi. destruct (F3 Hi). split; auto. rewrite store_free; auto. lia.
  - intros bn' Hb. rewrite store_addr. intros Hn. destruct (F4 bn' Hb Hn). split; auto. rewrite store_free; auto. lia.
  - intros b1 b2. rewrite !store_addr. apply F5.
  - intros b1. rewrite store_addr. apply F6.
Qed.

Lemma store_evolves : evolves V i V' i.
Proof.
  destruct (fo_data _ _ _ _ Hok bn Hbn Ha) as [Hr _]. split.
  - intros b Hb. now rewrite store_free.
  - intros b. rewrite store_owns. auto.
  - intros b Hb Hf Hn. apply dwrite_ne. intros ->. apply Hn. split; eauto.
  - intros b Hb Hn. apply dwrite_ne. lia.
  - reflexivity.
Qed.

Lemma store_content k : 0 <= k < MAXFILE * BSIZE ->
  content V' i k = if k / BSIZE =? bn then nthZ 0 v (k mod BSIZE) else content V i k.
Proof.
  intros Hk. assert (Hkb : 0 <= k / BSIZE < MAXFILE).
  { apply block_range. lia. }
  unfold content, file_block. rewrite store_addr.
  destruct (Z.eqb_spec (k / BSIZE) bn) as [-> | N].
  - rewrite (proj2 (Z.eqb_neq _ 0) Ha), dwrite_eq. reflexivity.
  - destruct (Z.eqb_spec (file_addr V i (k / BSIZE)) 0) as [|Hk0]; auto. rewrite dwrite_ne; auto.
    intros E. apply N. apply (fo_inj _ _ _ _ Hok); auto.
Qed.

End store.
(** ** [writei] *)

(** Bytes [base, base + n) of the file are to become [data]; those before
    [off'] have been written. *)
Record wrote (data : list Z) (base off off' : Z) (V : disk_t) (i : inode) (V' : disk_t) (i' : inode) : Prop := {
  wr_ok : file_ok V' i';
  wr_evolves : evolves V i V' i';
  wr_size : i_size i' = i_size i;
  wr_keep : keeps V i V' i';
  wr_there : forall k, 0 <= k < MAXFILE * BSIZE -> off <= k < off' -> file_addr V' i' (k / BSIZE) <> 0;
  wr_content : forall k, 0 <= k < MAXFILE * BSIZE ->
    content V' i' k = if (off <=? k) && (k <? off') then nthZ 0 data (k - base) else content V i k;
}.

Lemma wrote_refl data base off V i : file_ok V i -> wrote data base off off V i V i.
Proof.
  intros Hok. split; auto using evolves_refl; [now intros bn | lia |]. intros k Hk.
  destruct (Z.leb_spec off k), (Z.ltb_spec k off); auto; lia.
Qed.

Lemma wrote_trans data base o1 o2 o3 V1 i1 V2 i2 V3 i3 : o1 <= o2 <= o3 ->
  wrote data base o1 o2 V1 i1 V2 i2 -> wrote data base o2 o3 V2 i2 V3 i3 -> wrote data base o1 o3 V1 i1 V3 i3.
Proof.
  intros Ho [A1 A2 A3 A5 A6 A4] [B1 B2 B3 B5 B6 B4].
  split; auto; [now apply (evolves_trans V1 i1 V2 i2) | congruence | now apply (keeps_trans _ _ V2 i2) | |].
  { intros k Hk Hr. destruct (Z_lt_le_dec k o2); [|apply B6; lia].
    rewrite B5; [apply A6; lia | now apply block_range | apply A6; lia]. }
  intros k Hk. rewrite B4, A4 by auto.
  destruct (Z.leb_spec o2 k), (Z.ltb_spec k o3), (Z.leb_spec o1 k), (Z.ltb_spec k o2); auto; lia.
Qed.

Lemma grown_size V i bn r V' i' : grown x dstart V i bn r V' i' -> i_size i' = i_size i.
Proof. intros Hg. rewrite (gr_inode _ _ _ _ _ _ _ _ Hg). reflexivity. Qed.

(** One round: [bmap], then new bytes in the block. *)
Lemma round_wrote data base off m V i V1 i1 (v : block) :
  let bn := off / BSIZE in
  let r := file_addr V1 i1 bn in
  file_ok V i -> 0 <= off -> 0 < m -> off mod BSIZE + m <= BSIZE -> 0 <= off - base ->
  off - base + m <= Z.of_nat (length data) -> bn < MAXFILE ->
  grown x dstart V i bn r V1 i1 -> r <> 0 -> Z.of_nat (length (V1 r)) = BSIZE ->
  wrote data base off (off + m) V i
    (dwrite V1 r (splice (V1 r) (off mod BSIZE) (slice data (off - base) m))) i1.
Proof.
  intros bn r Hok Ho Hm Hfit Hb0 Hb1 Hbn Hg Hr Hlen.
  pose proof (gr_ok _ _ _ _ _ _ _ _ Hg) as Hok1.
  assert (Hbn0 : 0 <= bn) by (apply Z.div_pos; unfold BSIZE; lia).
  pose proof (Z.mod_pos_bound off BSIZE ltac:(unfold BSIZE; lia)) as Hmod.
  pose proof (Z.div_mod off BSIZE ltac:(unfold BSIZE; lia)) as Hdm. fold bn in Hdm.
  split; [now apply store_ok | | now apply (grown_size _ _ _ _ _ _ Hg) | | |].
  2: { intros bn' Hb Hn. unfold r. rewrite store_addr by auto. now apply (gr_keep _ _ _ _ _ _ _ _ Hg). }
  2: { intros k Hk Hkr. unfold r. rewrite store_addr by auto. replace (k / BSIZE) with bn; auto.
       apply (Z.div_unique k BSIZE bn (k - BSIZE * bn)); [left; lia | lia]. }
  { eapply evolves_trans; [now apply store_ok | apply (grown_evolves _ _ _ _ _ _ Hg) | now apply store_evolves]. }
  intros k Hk. unfold r. rewrite store_content by auto. fold r.
  pose proof (Z.mod_pos_bound k BSIZE ltac:(unfold BSIZE; lia)) as Hkm.
  pose proof (Z.div_mod k BSIZE ltac:(unfold BSIZE; lia)) as Hkd.
  assert (Hls : Z.of_nat (length (slice data (off - base) m)) = m) by (apply length_slice; lia).
  destruct (Z.eqb_spec (k / BSIZE) bn) as [E | E].
  - rewrite nthZ_splice, Hls by (rewrite ?Hls; lia). rewrite E in Hkd.
    destruct (Z.leb_spec (off mod BSIZE) (k mod BSIZE)), (Z.ltb_spec (k mod BSIZE) (off mod BSIZE + m)),
      (Z.leb_spec off k), (Z.ltb_spec k (off + m)); cbn [andb]; try lia.
    + rewrite nthZ_slice by lia. f_equal. lia.
    + rewrite <- (grown_content _ _ _ _ _ _ k Hg Hk). unfold content, file_block. rewrite E. fold r.
      now rewrite (proj2 (Z.eqb_neq r 0) Hr).
    + rewrite <- (grown_content _ _ _ _ _ _ k Hg Hk). unfold content, file_block. rewrite E. fold r.
      now rewrite (proj2 (Z.eqb_neq r 0) Hr).
  - rewrite (grown_content _ _ _ _ _ _ k Hg Hk).
    destruct (Z.leb_spec off k), (Z.ltb_spec k (off + m)); auto. exfalso. apply E.
    symmetry. apply (Z.div_unique k BSIZE bn (k - BSIZE * bn)); [left; lia | lia].
Qed.

(** The number of blocks that may be logged before the end of the loop. *)
Variable bmb : Z.
Hypothesis Hone : forall b, 0 <= b < sb_size x -> BBLOCK b x = bmb.

Definition budget (W : gset Z) (i : inode) : Z :=
  cnt (logged bmb (logged 0 (logged (ind_addr i) W))) + (if ind_addr i =? 0 then 1 else 0).

Lemma cnt_budget W i : cnt W <= budget W i <= cnt W + 3.
Proof.
  unfold budget.
  pose proof (cnt_logged bmb (logged 0 (logged (ind_addr i) W))).
  pose proof (cnt_logged 0 (logged (ind_addr i) W)). pose proof (cnt_logged (ind_addr i) W).
  assert (cnt W <= cnt (logged bmb (logged 0 (logged (ind_addr i) W)))).
  { apply cnt_mono. intros b. rewrite !elem_logged. auto. }
  destruct (Z.eqb_spec (ind_addr i) 0) as [E |]; [|lia].
  assert (cnt (logged 0 (logged (ind_addr i) W)) <= cnt (logged (ind_addr i) W)); [|lia].
  apply cnt_mono. intros b. rewrite !elem_logged. rewrite E. tauto.
Qed.

Lemma budget_round W i i' r : (ind_addr i <> 0 -> ind_addr i' = ind_addr i) ->
  0 <= r < sb_size x -> 0 <= ind_addr i' < sb_size x ->
  budget (logged r (bmap_set x W i' r)) i' <= budget W i + 1.
Proof.
  intros Hi Hr Hi'. unfold budget, bmap_set. rewrite !Hone by auto.
  set (S := logged bmb (logged 0 (logged (ind_addr i) W))).
  destruct (Z.eqb_spec (ind_addr i) 0) as [E | E].
  - assert (Hs : cnt (logged bmb (logged 0 (logged (ind_addr i') (logged r (logged bmb (logged bmb (logged r
      (logged (ind_addr i') W)))))))) <= cnt (logged r (logged (ind_addr i') S))).
    { apply cnt_mono. intros b. subst S. rewrite !elem_logged. tauto. }
    pose proof (cnt_logged r (logged (ind_addr i') S)). pose proof (cnt_logged (ind_addr i') S).
    destruct (Z.eqb_spec (ind_addr i') 0) as [E' |]; [|lia].
    assert (cnt (logged (ind_addr i') S) <= cnt S); [|lia].
    apply cnt_mono. intros b. subst S. rewrite !elem_logged, E', E. tauto.
  - rewrite (Hi E). destruct (Z.eqb_spec (ind_addr i) 0); [lia|].
    pose proof (cnt_logged r S).
    assert (cnt (logged bmb (logged 0 (logged (ind_addr i) (logged r (logged bmb (logged bmb (logged r
      (logged (ind_addr i) W)))))))) <= cnt (logged r S)); [|lia].
    apply cnt_mono. intros b. subst S. rewrite !elem_logged. tauto.
Qed.

Lemma ind_range V i : file_ok V i -> 0 <= ind_addr i < sb_size x.
Proof.
  intros Hok. destruct Hly as [_ [Hd _] _ _ _ _]. destruct (Z.eq_dec (ind_addr i) 0) as [E | E]; [lia|].
  destruct (fo_ind _ _ _ _ Hok E). lia.
Qed.

Lemma grown_budget V i bn r V' i' W : 0 <= bn < MAXFILE -> grown x dstart V i bn r V' i' ->
  budget (logged r (bmap_set x W i' r)) i' <= budget W i + 1.
Proof.
  intros Hbn Hg. apply budget_round; [apply Hg | | eapply ind_range, Hg].
  destruct Hly as [_ [Hd _] _ _ _ _]. destruct (Z.eq_dec r 0) as [-> | Hr]; [lia|].
  pose proof (gr_addr _ _ _ _ _ _ _ _ Hg Hr) as E.
  destruct (fo_data _ _ _ _ (gr_ok _ _ _ _ _ _ _ _ Hg) bn Hbn); [congruence | lia].
Qed.

(** [k] more blocks and the slack of [bmap] fit in the log and the cache. *)
Definition fits (W : gset Z) (i : inode) (k : Z) : Prop :=
  budget W i + k + 5 < sz /\ budget W i + k + 5 <= LOGSIZE /\ budget W i + k + 5 + 2 <= NBUF.

Lemma fits_room W i k : 0 <= k -> fits W i k -> room sz W 5 ∅ 2.
Proof.
  intros Hk (F1 & F2 & F3). pose proof (cnt_budget W i). unfold room. rewrite map_size_empty. split_and!; lia.
Qed.

(** A source of the bytes [data]: copying from it gives them and changes
    nothing. *)
Definition sourced (src : source) (data : list Z) : Prop := forall d s V L T W tot m,
  txn st sz pid d s V L T x W -> 0 <= tot -> 0 <= m -> tot + m <= Z.of_nat (length data) ->
  wp (either_copyin src tot m) h s [] (fun r s' => r = (0, slice data tot m) /\ s' = s).

Lemma sourced_kernel data : sourced (FromKernel data) data.
Proof. intros d s V L T W tot m _ _ _ _. apply wp_ret. auto. Qed.

Section loop.
Variables (d : disk_t) (ip : Z) (src : source) (data : list Z) (base : Z).
Hypothesis Hsrc : sourced src data.
Let n := Z.of_nat (length data).

Definition written (off : Z) (V : disk_t) (T : Z -> inode) (W : gset Z) (k : Z) (tot' off' : Z) (s' : fsys C) : Prop :=
  exists V' T' W', txn st sz pid d s' V' ∅ T' x W' /\ usable V' ∅ /\ off <= off' /\ tot' = off' - base /\
    tot' <= n /\ wrote data base off off' V (T ip) V' (T' ip) /\ (forall q, q <> ip -> T' q = T q) /\
    (tot' < n -> forall b, 0 <= b < sb_size x -> block_free x V' b = false) /\
    budget W' (T' ip) <= budget W (T ip) + k.

Lemma writei_round fuel (Q : Z * Z -> fsys C -> Prop) (k : nat) V T W s off :
  txn st sz pid d s V ∅ T x W -> usable V ∅ -> file_ok V (T ip) ->
  0 <= base <= off -> off - base < n -> base + n <= MAXFILE * BSIZE -> fits W (T ip) (Z.of_nat (S k)) ->
  let m := Z.min (n - (off - base)) (BSIZE - off mod BSIZE) in
  (forall V' T' W' s', txn st sz pid d s' V' ∅ T' x W' -> usable V' ∅ ->
     wrote data base off (off + m) V (T ip) V' (T' ip) -> (forall q, q <> ip -> T' q = T q) ->
     budget W' (T' ip) <= budget W (T ip) + 1 ->
     wp (writei_loop fuel ip src (off + m) n (off - base + m)) h s' [] Q) ->
  (forall s', written off V T W 1 (off - base) off s' -> Q (off - base, off) s') ->
  wp (writei_loop (S fuel) ip src off n (off - base)) h s [] Q.
Proof.
  intros Ht Hus Hok Hb Htot Hmax Hfits m HQ HQ0. cbn [writei_loop].
  destruct (Z.ltb_spec (off - base) n) as [_|]; [|lia]. cbn [negb].
  pose proof (Z.mod_pos_bound off BSIZE ltac:(unfold BSIZE; lia)) as Hmod.
  assert (Hbn : 0 <= off / BSIZE < MAXFILE).
  { apply block_range. lia. }
  assert (Hroom : room sz W 5 ∅ 2) by (apply (fits_room W (T ip) (Z.of_nat (S k))); [lia | exact Hfits]).
  apply wp_seq, (bmap_run st sz pid h Hh Hlog Hpr x dstart Hly ltac:(lia) d V ∅ T W s ip (off / BSIZE));
    auto.
  intros r s1 V1 T1 Hg HT1 Ht1. pose proof (grown_budget _ _ _ _ _ _ W Hbn Hg) as Hbud.
  assert (Hbud' : budget (bmap_set x W (T1 ip) r) (T1 ip) <= budget W (T ip) + 1).
  { etransitivity; [|exact Hbud]. unfold budget. apply Z.add_le_mono_r, cnt_mono.
    intros b. rewrite !elem_logged. tauto. }
  pose proof (grown_evolves _ _ _ _ _ _ Hg) as Hev. pose proof (usable_evolves _ _ _ _ Hev Hus) as Hus1.
  pose proof (gr_ok _ _ _ _ _ _ _ _ Hg) as Hok1.
  destruct (Z.eqb_spec r 0) as [-> | Hr].
  { apply wp_ret, HQ0. exists V1, T1, (bmap_set x W (T1 ip) 0). split_and!; auto; try lia.
    - split; auto; [apply (grown_size _ _ _ _ _ _ Hg) | apply Hg | lia |]. intros j Hj.
      rewrite (grown_content _ _ _ _ _ _ j Hg Hj). destruct (Z.leb_spec off j), (Z.ltb_spec j off); auto; lia.
    - intros _. apply Hg. auto. }
  pose proof (gr_addr _ _ _ _ _ _ _ _ Hg Hr) as Er.
  destruct (fo_data _ _ _ _ Hok1 (off / BSIZE) Hbn ltac:(congruence)) as [Hdr Hur]. rewrite Er in Hdr, Hur.
  destruct Hroom as (R1 & R2 & R3). rewrite map_size_empty in R3.
  pose proof (cnt_budget (bmap_set x W (T1 ip) r) (T1 ip)). destruct Hfits as (F1 & F2 & F3).
  unfold geti. apply wp_gets. rewrite (proj1 (proj2 Ht1)), (fo_dev _ _ _ _ Hok1).
  apply wp_seq, (txn_bread st sz pid h Hh d V1 ∅ T1 x _ s1 Ht1);
    [apply lookup_empty | now apply (data_home st sz x dstart Hly) | rewrite map_size_empty; lia |].
  intros p s2 Ht2. apply wp_seq. eapply wp_mono; [apply (Hsrc _ _ _ _ _ _ (off - base) m Ht2); unfold m, n; lia |]. intros ? ? [-> ->]. cbv beta iota.
  apply (txn_bdata st sz pid h d V1 _ T1 x _ s2 Ht2 r p true); [apply lookup_insert_eq|].
  pose proof (txn_length _ _ _ _ _ _ _ _ _ _ r Ht1) as Hlen.
  assert (Hls : Z.of_nat (length (slice data (off - base) m)) = m) by (apply length_slice; lia).
  apply wp_seq, (txn_bset st sz pid h d V1 _ T1 x _ s2 Ht2 r p true);
    [apply lookup_insert_eq | rewrite length_splice by (fold m; lia); exact Hlen |].
  intros s3 Ht3. rewrite insert_insert_eq in Ht3. change (0 =? -1) with false. cbv iota.
  apply wp_seq, (txn_log_write st sz pid h Hh Hlog d _ _ T1 x _ s3 Ht3 r p false);
    [apply lookup_insert_eq | lia.. |].
  intros s4 Ht4. rewrite insert_insert_eq in Ht4.
  apply wp_seq, (txn_brelse st sz pid h Hh d _ _ T1 x _ s4 Ht4 r p); [apply lookup_insert_eq|].
  intros s5 Ht5. rewrite delete_insert_id in Ht5 by apply lookup_empty.
  fold m in Ht5. eapply HQ; [exact Ht5 | | | auto | exact Hbud].
  - eapply (usable_evolves V1 (T1 ip)); [|exact Hus1]. rewrite <- Er. apply store_evolves; auto. congruence.
  - rewrite <- Er. apply round_wrote; rewrite ?Er; auto; lia.
Qed.

Lemma written_step off off1 V T W V1 T1 W1 k tot' off' s' : 0 <= k -> off <= off1 ->
  wrote data base off off1 V (T ip) V1 (T1 ip) -> (forall q, q <> ip -> T1 q = T q) ->
  budget W1 (T1 ip) <= budget W (T ip) + 1 -> written off1 V1 T1 W1 k tot' off' s' ->
  written off V T W (k + 1) tot' off' s'.
Proof.
  intros Hk Ho Hw HT Hbud (V' & T' & W' & Ht & Hus & Ho' & Et & Htn & Hw' & HT' & Hfull & Hb').
  exists V', T', W'. split_and!; auto; try lia.
  - eapply wrote_trans; [|exact Hw | exact Hw']. lia.
  - intros q Hq. now rewrite HT', HT.
Qed.

Lemma writei_loop_run (Q : Z * Z -> fsys C -> Prop) : forall (k fuel : nat) V T W s off,
  txn st sz pid d s V ∅ T x W -> usable V ∅ -> file_ok V (T ip) -> (k <= fuel)%nat ->
  0 <= base <= off -> off - base <= n -> base + n <= MAXFILE * BSIZE ->
  (off - base = n \/ off mod BSIZE + (n - (off - base)) <= Z.of_nat k * BSIZE) ->
  fits W (T ip) (Z.of_nat k) ->
  (forall tot' off' s', written off V T W (Z.of_nat k) tot' off' s' -> Q (tot', off') s') ->
  wp (writei_loop fuel ip src off n (off - base)) h s [] Q.
Proof.
  intros k. induction k as [|k IH]; intros fuel V T W s off Ht Hus Hok Hfuel Hb Htot Hmax Hk Hfits HQ.
  all: pose proof (Z.mod_pos_bound off BSIZE ltac:(unfold BSIZE; lia)) as Hmod.
  all: destruct (Z.eq_dec (off - base) n) as [E | N].
  1, 3: assert (Hend : writei_loop fuel ip src off n (off - base) = ret (off - base, off))
      by (destruct fuel; cbn [writei_loop]; destruct (Z.ltb_spec (off - base) n); try lia; reflexivity);
    rewrite Hend; apply wp_ret, HQ; exists V, T, W; split_and!; auto using wrote_refl; lia.
  { unfold BSIZE in *. lia. }
  destruct fuel as [|fuel]; [lia|].
  eapply (writei_round fuel Q k V T W s off); auto; [lia | |].
  - set (m := Z.min _ _). intros V' T' W' s' Ht' Hus' Hw HT Hbud.
    assert (Hm : 0 < m) by (subst m; lia).
    replace (off - base + m) with (off + m - base) by lia.
    eapply (IH fuel V' T' W' s' (off + m)); auto; try lia.
    + apply Hw.
    + destruct (Z_le_gt_dec (n - (off - base)) (BSIZE - off mod BSIZE)) as [Hle | Hgt]; [left; subst m; lia|].
      right. assert (Em : m = BSIZE - off mod BSIZE) by (subst m; lia).
      rewrite (next_block off m Em). lia.
    + destruct Hfits as (F1 & F2 & F3). repeat split; lia.
    + intros tot' off' s'' Hwr. apply HQ. rewrite Nat2Z.inj_succ, <- Z.add_1_r.
      eapply written_step; [lia | | exact Hw | auto | exact Hbud | exact Hwr]. lia.
  - intros s' (V' & T' & W' & Hwr). apply HQ. exists V', T', W'. destruct Hwr as (? & ? & ? & ? & ? & ? & ? & ? & ?).
    split_and!; auto. lia.
Qed.

End loop.

(** Changing the size of the inode and storing it on disk. *)
Section update.
Variables (V V' : disk_t) (i i' : inode).
Hypothesis Hdata : forall b, dstart <= b -> V' b = V b.
Hypothesis Hfree : forall b, 0 <= b < sb_size x -> block_free x V' b = block_free x V b.
Hypothesis Haddrs : i_addrs i' = i_addrs i.
Hypothesis Hok : file_ok V i.

Lemma update_addr bn : file_addr V' i' bn = file_addr V i bn.
Proof.
  unfold file_addr, ind_addr. rewrite Haddrs. destruct (bn <? NDIRECT); auto.
  destruct (Z.eqb_spec (nthZ 0 (i_addrs i) NDIRECT) 0) as [|E]; auto.
  rewrite Hdata; auto. apply (fo_ind _ _ _ _ Hok E).
Qed.

Lemma update_content k : 0 <= k < MAXFILE * BSIZE -> content V' i' k = content V i k.
Proof.
  intros Hk. assert (Hkb : 0 <= k / BSIZE < MAXFILE).
  { apply block_range. lia. }
  unfold content, file_block. rewrite update_addr. destruct (Z.eqb_spec (file_addr V i (k / BSIZE)) 0) as [|E]; auto.
  rewrite Hdata; auto. apply (fo_data _ _ _ _ Hok _ Hkb E).
Qed.

Lemma update_ok : i_dev i' = i_dev i -> file_ok V' i'.
Proof.
  intros Hdev. pose proof Hly as [_ [Hd _] _ _ _ _]. pose proof Hok as [F1 F2 F3 F4 F5 F6].
  assert (Hu : forall b, data_used x dstart V b -> data_used x dstart V' b).
  { intros b [Hb Hf]. split; auto. rewrite Hfree; auto. lia. }
  assert (Ei : ind_addr i' = ind_addr i) by (unfold ind_addr; now rewrite Haddrs).
  split; [congruence | congruence | rewrite Ei; auto | intros bn Hb; rewrite update_addr; auto | |].
  - intros b1 b2. rewrite !update_addr. apply F5.
  - intros b1. rewrite update_addr, Ei. apply F6.
Qed.

End update.

Lemma file_addrs_range V i z : file_ok V i -> z ∈ i_addrs i -> 0 <= z < 2 ^ 32.
Proof.
  intros Hok Hz. pose proof Hly as [_ [Hd Hsz] _ _ _ _]. apply list_elem_of_In, (In_nth _ _ 0) in Hz as (k & Hk & <-).
  rewrite (fo_len _ _ _ _ Hok) in Hk. fold (nthZ 0 (i_addrs i) (Z.of_nat k)).
  replace (nth k (i_addrs i) 0) with (nthZ 0 (i_addrs i) (Z.of_nat k)) by (unfold nthZ; now rewrite Nat2Z.id).
  destruct (Z.eq_dec (nthZ 0 (i_addrs i) (Z.of_nat k)) 0) as [-> | N]; [lia|].
  destruct (Z.eq_dec (Z.of_nat k) NDIRECT) as [E | E].
  - rewrite E in *. destruct (fo_ind _ _ _ _ Hok N) as [Hr _]. unfold ind_addr in Hr. lia.
  - unfold NDIRECT in E. assert (Ea : file_addr V i (Z.of_nat k) = nthZ 0 (i_addrs i) (Z.of_nat k)).
    { unfold file_addr, NDIRECT. destruct (Z.ltb_spec (Z.of_nat k) 12); [auto | lia]. }
    rewrite <- Ea in *. destruct (fo_data _ _ _ _ Hok (Z.of_nat k)) as [Hr _]; auto; [|lia].
    change MAXFILE with 268. lia.
Qed.

(** The state after [writei] has written [r] bytes of [data] at [off]. *)
Record write_done (data : list Z) (off r : Z) (V : disk_t) (i : inode) (V' : disk_t) (i' : inode) : Prop := {
  wd_ok : file_ok V' i' /\ usable V' ∅ /\ dinode_wf (dinode_of i');
  wd_same : same_inode i i';
  wd_size : i_size i' = Z.max (i_size i) (off + r);
  wd_content : forall k, 0 <= k < MAXFILE * BSIZE ->
    content V' i' k = if (off <=? k) && (k <? off + r) then nthZ 0 data (k - off) else content V i k;
  wd_there : forall k, 0 <= k < MAXFILE * BSIZE -> off <= k < off + r -> file_addr V' i' (k / BSIZE) <> 0;
  wd_disk : disk_inode x V' (i_inum i) = dinode_of i';
  wd_others : forall j, 0 <= j < sb_ninodes x -> j <> i_inum i -> disk_inode x V' j = disk_inode x V j;
  wd_frame : forall b, dstart <= b < sb_size x -> block_free x V b = false -> ~ owns V i b -> V' b = V b;
  wd_full : r < Z.of_nat (length data) -> forall b, 0 <= b < sb_size x -> block_free x V' b = false;
}.

Lemma write_done_intro data off r V i V1 i1 i' :
  (forall b, Z.of_nat (length (V1 b)) = BSIZE) -> usable V1 ∅ -> dinode_wf (dinode_of i) ->
  0 <= i_inum i < sb_ninodes x -> 0 <= i_size i' < 2 ^ 32 ->
  wrote data off off (off + r) V i V1 i1 -> i' = set_isize (i_size i') i1 ->
  i_size i' = Z.max (i_size i) (off + r) ->
  (r < Z.of_nat (length data) -> forall b, 0 <= b < sb_size x -> block_free x V1 b = false) ->
  write_done data off r V i (updated x V1 i') i'.
Proof.
  intros Hlen Hus Hwf Hinum Hsz [W1 [E1 E2 E3 E4 E5] W3 W5 W6 W4] Ei' Hmax Hfull.
  pose proof Hly as [_ [Hd _] _ _ _ _].
  assert (Hs : same_inode i i') by (unfold same_inode in *; rewrite Ei', <- E5; reflexivity).
  assert (En : i_inum i' = i_inum i) by (apply (f_equal i_inum) in Hs; exact Hs).
  assert (Ea : i_addrs i' = i_addrs i1) by (rewrite Ei'; reflexivity).
  assert (Hdat : forall b, dstart <= b -> updated x V1 i' b = V1 b).
  { intros b Hb. apply (updated_data st sz x dstart Hly); [now rewrite En | auto]. }
  assert (Hfr : forall b, 0 <= b < sb_size x -> block_free x (updated x V1 i') b = block_free x V1 b).
  { intros b Hb. apply (updated_free st sz x dstart Hly); [now rewrite En | auto]. }
  assert (Hok' : file_ok (updated x V1 i') i') by (apply (update_ok V1 _ i1); auto; rewrite Ei'; reflexivity).
  assert (Hwf' : dinode_wf (dinode_of i')).
  { destruct Hwf as [D1 D2 D3 D4]. assert (Ed : dinode_of i' = Dinode (i_type i) (i_major i) (i_minor i) (i_nlink i)
      (i_size i') (i_addrs i')).
    { unfold dinode_of. f_equal; [apply (f_equal i_type) in Hs | apply (f_equal i_major) in Hs |
        apply (f_equal i_minor) in Hs | apply (f_equal i_nlink) in Hs]; exact Hs. }
    rewrite Ed. split; auto; cbn [d_size d_addrs]; [apply (fo_len _ _ _ _ Hok')|].
    intros z. now apply (file_addrs_range _ _ z Hok'). }
  split; auto.
  - split_and!; auto. destruct Hus as [U1 U2 U3]. split; auto.
    + intros b Hb Hb'. rewrite Hfr by lia. now apply U1.
    + intros b Hb [y Hy]. now rewrite lookup_empty in Hy.
  - intros k Hk. rewrite (update_content V1 _ i1 i'); auto.
  - intros k Hk Hr. rewrite (update_addr V1 _ i1 i'); auto.
  - rewrite <- En. now apply (updated_same x); rewrite ?En.
  - intros j Hj Hne. rewrite (updated_other st sz x dstart Hly) by (rewrite ?En; auto).
    unfold disk_inode. rewrite E4; auto; [now apply (iblock_home st sz x dstart Hly)|].
    intros b Hb. now apply (iblock_home st sz x dstart Hly).
  - intros b Hb Hf Hn. rewrite Hdat by lia. now apply E3.
  - intros Hr b Hb. rewrite Hfr by auto. now apply Hfull.
Qed.

(** The number of blocks that bytes [off, off + n) lie in, at most. *)
Definition span (off n : Z) : Z := (off mod BSIZE + n + BSIZE - 1) / BSIZE.

Lemma span_spec off n : 0 <= off -> 0 <= n ->
  0 <= span off n <= n / BSIZE + 2 /\ off mod BSIZE + n <= span off n * BSIZE.
Proof.
  intros Ho Hn. unfold span. pose proof (Z.mod_pos_bound off BSIZE ltac:(reflexivity)) as Hm.
  pose proof (Z.div_mod (off mod BSIZE + n + BSIZE - 1) BSIZE ltac:(discriminate)) as E.
  pose proof (Z.mod_pos_bound (off mod BSIZE + n + BSIZE - 1) BSIZE ltac:(reflexivity)).
  pose proof (Z.div_mod n BSIZE ltac:(discriminate)). pose proof (Z.mod_pos_bound n BSIZE ltac:(reflexivity)).
  unfold BSIZE in *. lia.
Qed.

Lemma writei_run d V T W s ip src data off : sourced src data ->
  let i := T ip in
  let n := Z.of_nat (length data) in
  txn st sz pid d s V ∅ T x W -> usable V ∅ -> file_ok V i -> dinode_wf (dinode_of i) ->
  0 <= i_inum i < sb_ninodes x -> 0 <= off <= i_size i -> i_size i <= MAXFILE * BSIZE ->
  off + n <= MAXFILE * BSIZE -> fits W i (span off n) ->
  wp (writei ip src off n) h s [] (fun r s' => exists V' T' W',
    txn st sz pid d s' V' ∅ T' x W' /\ 0 <= r <= n /\ write_done data off r V i V' (T' ip) /\
    (forall q, q <> ip -> T' q = T q) /\ cnt W' <= cnt W + 4 + span off n).
Proof.
  intros Hsrc i n Ht Hus Hok Hwf Hinum Hoff Hsz Hmax Hfits.
  change (MAXFILE * BSIZE) with 274432 in *. unfold writei, geti. apply wp_gets. rewrite (proj1 (proj2 Ht)). fold i.
  rewrite u32_small by lia.
  destruct (Z.ltb_spec (i_size i) off); [lia|]. destruct (Z.ltb_spec (off + n) off); [lia|]. cbn [orb].
  change (MAXFILE * BSIZE) with 274432. destruct (Z.ltb_spec 274432 (off + n)); [lia|].
  destruct (span_spec off n ltac:(lia) ltac:(lia)) as [Hsp Hsp'].
  apply wp_seq. rewrite <- (Z.sub_diag off) at 1.
  apply (writei_loop_run d ip src data off Hsrc _ (Z.to_nat (span off n)) _ V T W s off); auto; try lia.
  { rewrite Z2Nat.id; lia. } { rewrite Z2Nat.id; auto; lia. }
  intros tot off' s1 (V1 & T1 & W1 & Ht1 & Hus1 & Hoo & -> & Htn & Hw & HT1 & Hfull & Hbud).
  rewrite Z2Nat.id in Hbud by lia. fold n in Htn, Hfull. fold i in Hbud, Hw.
  pose proof (cnt_budget W1 (T1 ip)) as B1. pose proof (cnt_budget W i) as B2. destruct Hfits as (F1 & F2 & F3).
  apply wp_gets. rewrite (proj1 (proj2 Ht1)).
  assert (Hsame : same_inode i (T1 ip)) by apply Hw.
  assert (En : i_inum (T1 ip) = i_inum i) by (apply (f_equal i_inum) in Hsame; exact Hsame).
  assert (Hd1 : i_dev (T1 ip) = ROOTDEV) by apply Hw.
  assert (Hfin : forall s2 T2, txn st sz pid d s2 V1 ∅ T2 x W1 -> (forall q, q <> ip -> T2 q = T1 q) ->
    T2 ip = set_isize (i_size (T2 ip)) (T1 ip) -> i_size (T2 ip) = Z.max (i_size i) off' ->
    wp (iupdate ip;; ret (i32 (off' - off))) h s2 [] (fun r s' => exists V' T' W',
      txn st sz pid d s' V' ∅ T' x W' /\ 0 <= r <= n /\ write_done data off r V i V' (T' ip) /\
      (forall q, q <> ip -> T' q = T q) /\ cnt W' <= cnt W + 4 + span off n)).
  { intros s2 T2 Ht2 HT2 Ei Es.
    assert (En2 : i_inum (T2 ip) = i_inum i) by (rewrite Ei; exact En).
    apply wp_seq, (iupdate_run st sz pid h Hh Hlog x dstart Hly d V1 ∅ T2 W1 s2 ip); auto.
    - unfold room. rewrite map_size_empty. split_and!; lia.
    - rewrite Ei. exact Hd1.
    - now rewrite En2.
    - intros s3 Ht3. apply wp_ret. rewrite i32_small by lia.
      exists (updated x V1 (T2 ip)), T2, (logged (IBLOCK (i_inum (T2 ip)) x) W1). split_and!; auto; try lia.
      + eapply (write_done_intro data off (off' - off) V i V1 (T1 ip)); eauto; try lia.
        * intros b. apply (txn_length _ _ _ _ _ _ _ _ _ _ b Ht1).
        * now replace (off + (off' - off)) with off' by lia.
      + intros q Hq. now rewrite HT2, HT1.
      + pose proof (cnt_logged (IBLOCK (i_inum (T2 ip)) x) W1). lia. }
  rewrite (wr_size _ _ _ _ _ _ _ _ Hw). fold i.
  destruct (Z.ltb_spec (i_size i) off') as [Hlt | Hge].
  - eapply (txn_modi st sz pid h x); [exact Ht1|]. intros s2 Ht2. apply (Hfin s2 _ Ht2).
    + intros q Hq. now apply upd_inode_ne.
    + rewrite upd_inode_eq. reflexivity.
    + rewrite upd_inode_eq. cbn. lia.
  - apply (Hfin s1 T1 Ht1); auto; [|rewrite (wr_size _ _ _ _ _ _ _ _ Hw); fold i; lia].
    now destruct (T1 ip).
Qed.

(** ** [readi] *)

(** [bmap] on a block that is there. *)
Lemma bmap_old d V T W s ip bn (Q : Z -> fsys C -> Prop) :
  let i := T ip in
  txn st sz pid d s V ∅ T x W -> cnt W + 1 <= NBUF -> file_ok V i -> 0 <= bn < MAXFILE -> file_addr V i bn <> 0 ->
  (forall s', txn st sz pid d s' V ∅ T x W -> Q (file_addr V i bn) s') -> wp (bmap ip bn) h s [] Q.
Proof.
  intros i Ht Hcap Hok Hbn Ha HQ. unfold bmap, geti. apply wp_gets. rewrite (proj1 (proj2 Ht)). fold i.
  unfold file_addr in *. destruct (Z.ltb_spec bn NDIRECT).
  { rewrite (proj2 (Z.eqb_neq _ 0) Ha). apply wp_ret. auto. }
  destruct (Z.ltb_spec (bn - NDIRECT) NINDIRECT) as [_ |]; [|unfold MAXFILE in Hbn; lia].
  fold (ind_addr i). destruct (Z.eqb_spec (ind_addr i) 0) as [|Hi]; [congruence|].
  apply wp_seq, wp_ret. rewrite (proj2 (Z.eqb_neq _ 0) Hi), (fo_dev _ _ _ _ Hok).
  destruct (fo_ind _ _ _ _ Hok Hi) as [Hr _].
  apply wp_seq, (txn_bread st sz pid h Hh d V ∅ T x W s Ht);
    [apply lookup_empty | now apply (data_home st sz x dstart Hly) | rewrite map_size_empty; lia |].
  intros p s1 Ht1. apply (txn_bdata st sz pid h d V _ T x W s1 Ht1 (ind_addr i) p true); [apply lookup_insert_eq|].
  rewrite (proj2 (Z.eqb_neq _ 0) Ha).
  apply wp_seq, wp_ret, wp_seq, (txn_brelse st sz pid h Hh d V _ T x W s1 Ht1 (ind_addr i) p); [apply lookup_insert_eq|].
  intros s2 Ht2. rewrite delete_insert_id in Ht2 by apply lookup_empty. apply wp_ret. auto.
Qed.

(** Bytes [off, off + m) of the file. *)
Definition bytes (V : disk_t) (i : inode) (off m : Z) : list Z := map (content V i) (seqZ off m).

Lemma bytes_app V i off m1 m2 : 0 <= m1 -> 0 <= m2 ->
  bytes V i off m1 ++ bytes V i (off + m1) m2 = bytes V i off (m1 + m2).
Proof. intros H1 H2. unfold bytes. rewrite <- map_app, seqZ_app by lia. reflexivity. Qed.

Lemma slice_bytes V i off m : 0 <= off -> 0 <= m -> off mod BSIZE + m <= BSIZE ->
  Z.of_nat (length (file_block V i (off / BSIZE))) = BSIZE ->
  slice (file_block V i (off / BSIZE)) (off mod BSIZE) m = bytes V i off m.
Proof.
  intros Ho Hm Hfit Hlen. pose proof (Z.mod_pos_bound off BSIZE ltac:(reflexivity)) as Hmod.
  pose proof (Z.div_mod off BSIZE ltac:(discriminate)) as Hd.
  assert (Hl : Z.of_nat (length (slice (file_block V i (off / BSIZE)) (off mod BSIZE) m)) = m)
    by (apply length_slice; lia).
  apply (nth_ext _ _ 0 (content V i 0)).
  { unfold bytes. rewrite length_map, length_seqZ. lia. }
  intros k Hk. assert (Hk' : 0 <= Z.of_nat k < m) by lia.
  pose proof (nthZ_slice (file_block V i (off / BSIZE)) (off mod BSIZE) m (Z.of_nat k) ltac:(lia) Hk') as E.
  unfold nthZ at 1 in E. rewrite Nat2Z.id in E. rewrite E. unfold bytes. rewrite map_nth.
  assert (Es : nth k (seqZ off m) 0 = off + Z.of_nat k).
  { apply nth_lookup_Some, lookup_seqZ. lia. }
  rewrite Es. unfold content.
  replace ((off + Z.of_nat k) / BSIZE) with (off / BSIZE)
    by (apply (Z.div_unique _ _ _ (off mod BSIZE + Z.of_nat k)); [left | ]; lia).
  f_equal. apply (Z.mod_unique _ _ (off / BSIZE)); [left|]; lia.
Qed.

Section read.
Variables (d V : disk_t) (T : Z -> inode) (W : gset Z) (ip base n : Z).
Abbreviation i := (T ip).
Hypothesis Hok : file_ok V i.
Hypothesis Hcap : cnt W + 1 <= NBUF.
Hypothesis Hbase : 0 <= base.
Hypothesis Hmax : base + n <= MAXFILE * BSIZE.
Hypothesis Hthere : forall k, base <= k < base + n -> file_addr V i (k / BSIZE) <> 0.

Lemma readi_loop_run (Q : Z * list Z -> fsys C -> Prop) : forall (k fuel : nat) s off,
  txn st sz pid d s V ∅ T x W -> (k <= fuel)%nat ->
  base <= off -> off - base <= n ->
  (off - base = n \/ off mod BSIZE + (n - (off - base)) <= Z.of_nat k * BSIZE) ->
  (forall s', txn st sz pid d s' V ∅ T x W -> Q (n, bytes V i base n) s') ->
  wp (readi_loop fuel ip ToKernel off n (off - base) (bytes V i base (off - base))) h s [] Q.
Proof.
  intros k. induction k as [|k IH]; intros fuel s off Ht Hfuel Hb Htot Hk HQ.
  all: pose proof (Z.mod_pos_bound off BSIZE ltac:(unfold BSIZE; lia)) as Hmod.
  all: destruct (Z.eq_dec (off - base) n) as [E | N].
  1, 3: assert (Hend : forall acc, readi_loop fuel ip ToKernel off n (off - base) acc = ret (off - base, acc))
      by (intros acc; destruct fuel; cbn [readi_loop]; destruct (Z.ltb_spec (off - base) n); try lia; reflexivity);
    rewrite Hend, E; apply wp_ret, HQ, Ht.
  { unfold BSIZE in *. lia. }
  destruct fuel as [|fuel]; [lia|]. cbn [readi_loop].
  destruct (Z.ltb_spec (off - base) n) as [_|]; [|lia]. cbn [negb].
  assert (Hbn : 0 <= off / BSIZE < MAXFILE).
  { apply block_range. lia. }
  assert (Ha : file_addr V i (off / BSIZE) <> 0).
  { apply Hthere. lia. }
  apply wp_seq, (bmap_old d V T W s ip (off / BSIZE)); auto. intros s1 Ht1.
  rewrite (proj2 (Z.eqb_neq _ 0) Ha). unfold geti. apply wp_gets. rewrite (proj1 (proj2 Ht1)), (fo_dev _ _ _ _ Hok).
  destruct (fo_data _ _ _ _ Hok _ Hbn Ha) as [Hr _]. set (r := file_addr V i (off / BSIZE)) in *.
  apply wp_seq, (txn_bread st sz pid h Hh d V ∅ T x W s1 Ht1);
    [apply lookup_empty | now apply (data_home st sz x dstart Hly) | rewrite map_size_empty; lia |].
  intros p s2 Ht2. apply (txn_bdata st sz pid h d V _ T x W s2 Ht2 r p true); [apply lookup_insert_eq|].
  cbn [either_copyout]. apply wp_seq, wp_ret. change (0 =? -1) with false. cbv iota.
  apply wp_seq, (txn_brelse st sz pid h Hh d V _ T x W s2 Ht2 r p); [apply lookup_insert_eq|].
  intros s3 Ht3. rewrite delete_insert_id in Ht3 by apply lookup_empty.
  set (m := Z.min (n - (off - base)) (BSIZE - off mod BSIZE)).
  assert (Eb : V r = file_block V i (off / BSIZE)) by (unfold file_block; fold r; now rewrite (proj2 (Z.eqb_neq r 0) Ha)).
  pose proof (txn_length _ _ _ _ _ _ _ _ _ _ r Ht) as Hlen.
  rewrite Eb in *. rewrite slice_bytes by (subst m; lia).
  replace (bytes V i base (off - base) ++ bytes V i off m) with (bytes V i base (off + m - base)).
  2: { rewrite <- (Zplus_minus base off) at 3. rewrite bytes_app by (subst m; lia). f_equal. lia. }
  replace (off - base + m) with (off + m - base) by lia.
  apply IH; auto; try (subst m; lia).
  destruct (Z_le_gt_dec (n - (off - base)) (BSIZE - off mod BSIZE)) as [Hle | Hgt]; [left; subst m; lia|].
  right. assert (Em : m = BSIZE - off mod BSIZE) by (subst m; lia).
  rewrite (next_block off m Em). lia.
Qed.

End read.

Lemma readi_run d V T W s ip off n :
  let i := T ip in
  let m := Z.min n (i_size i - off) in
  txn st sz pid d s V ∅ T x W -> file_ok V i -> cnt W + 1 <= NBUF ->
  0 <= off <= i_size i -> i_size i <= MAXFILE * BSIZE -> 0 <= n -> off + n < 2 ^ 32 ->
  (forall k, off <= k < off + m -> file_addr V i (k / BSIZE) <> 0) ->
  wp (readi ip ToKernel off n) h s [] (fun r s' =>
    r = (m, bytes V i off m) /\ txn st sz pid d s' V ∅ T x W).
Proof.
  intros i m Ht Hok Hcap Hoff Hsz Hn Hov Hthere.
  change (MAXFILE * BSIZE) with 274432 in *. unfold readi, geti. apply wp_gets. rewrite (proj1 (proj2 Ht)). fold i.
  rewrite u32_small by lia.
  destruct (Z.ltb_spec (i_size i) off); [lia|]. destruct (Z.ltb_spec (off + n) off); [lia|]. cbn [orb].
  replace (if i_size i <? off + n then u32 (i_size i - off) else n) with m.
  2: { subst m. destruct (Z.ltb_spec (i_size i) (off + n)); [rewrite u32_small by lia|]; lia. }
  destruct (span_spec off m ltac:(lia) ltac:(lia)) as [Hsp Hsp'].
  assert (Ez : [] = bytes V i off (off - off)) by (rewrite Z.sub_diag; reflexivity).
  apply wp_seq. rewrite Ez. rewrite <- (Z.sub_diag off) at 1.
  apply (readi_loop_run d V T W ip off m Hok Hcap ltac:(lia) ltac:(change (MAXFILE * BSIZE) with 274432; lia) Hthere
    _ (Z.to_nat (span off m))); auto; try lia.
  { rewrite Z2Nat.id; lia. }
  intros s1 Ht1. apply wp_ret. rewrite i32_small by lia. split; auto.
Qed.

End io.
