(* ===== verification/FsSpec.v ===== *)
(** * Correctness of the file system

    Writing to a file inside a transaction, reading it back, and the
    atomicity of the whole operation with respect to power failures. *)

From S2P Require Import Prelude KMonad Riscv Printf Trace Sleeplock Bio BioSpec FsState Log LogCrash LogOps LogSpec Fs.
From S2P Require Import Fs FsTxn FsCommit FsBlocks FsFile FsIo.

(** ** A freshly made file system for examples

    The disk of a file system with 2000 blocks as mkfs lays it out: the log at
    block 2, the inodes at 32, the free map at 45 with the first 46 blocks in
    use; one empty file, inode 1.  The process layer has no user memory. *)

#[export] Instance demo_process : Process bcache := {|
  copyout_user _ _ := ret (-1);
  copyin_user _ _ := ret (-1, []);
  cwd _ := 1;
|}.

Definition free_map : block := repeat 255 5 ++ [63] ++ repeat 0 1018.
Definition demo_disk : disk_t := fun b => if b =? 45 then free_map else zero_block.

Definition clean_cache (d : disk_t) : bcache := BCache (demo_buf false) d 7.

Definition demo_file : inode := Inode ROOTDEV 1 1 (SLock 1 7) 1 T_FILE 0 0 1 0 (repeat 0 13).

Definition demo_state : fsys bcache :=
  FSys (clean_cache demo_disk) (Log 2 30 0 0 ROOTDEV 0 (repeat 0 30)) demo_sb (fun _ => demo_file).

Lemma clean_rel d : (forall b, Z.of_nat (length (d b)) = BSIZE) -> cache_rel (clean_cache d) d ∅.
Proof.
  intros Hd. assert (Hu : forall i, refcnt (demo_buf false i) = 0 /\ b_dev (demo_buf false i) = 0) by (intros i; now split).
  split; auto.
  - exists (seqZ 0 NBUF). split; [|reflexivity]. vm_compute; tauto.
  - intros i Hi. cbn. split; cbn; try discriminate; try lia; auto.
  - intros i j Hi Hj. cbn. discriminate.
  - intros b e. cbn. rewrite lookup_empty. split; [discriminate|]. intros (i & Hi & Hr & _). now destruct Hr.
Qed.

Lemma demo_length b : Z.of_nat (length (demo_disk b)) = BSIZE.
Proof. unfold demo_disk. now destruct (_ =? _). Qed.

Lemma demo_idle : idle 2 30 7 demo_disk demo_state.
Proof.
  split; cbn; auto; [|split; cbn; auto; lia]. split; [apply clean_rel, demo_length | reflexivity].
Qed.

Lemma demo_bitmap b : 0 <= b < sb_size demo_sb -> b / BPB = 0.
Proof. intros Hb. apply Z.div_small. cbn in Hb. unfold BPB, BSIZE. lia. Qed.

Lemma demo_layout : layout 2 30 demo_sb 46.
Proof.
  assert (Hi : forall i, 0 <= i < 200 -> 0 <= i / IPB < 13).
  { intros i Hi. change IPB with 16. split; [apply Z.div_pos; lia | apply Z.div_lt_upper_bound; lia]. }
  split; cbn; try lia.
  - intros b Hb. rewrite demo_bitmap by exact Hb. lia.
  - intros i Hx. specialize (Hi i Hx). lia.
  - intros i b Hx Hb. rewrite demo_bitmap by exact Hb. specialize (Hi i Hx). lia.
Qed.

Lemma demo_free b : 0 <= b < 2000 -> block_free demo_sb demo_disk b = (46 <=? b).
Proof.
  intros Hb. unfold block_free. assert (E : BBLOCK b demo_sb = 45).
  { unfold BBLOCK. rewrite demo_bitmap by exact Hb. reflexivity. }
  rewrite E, Z.mod_small by (unfold BPB, BSIZE; lia).
  assert (Hall : forallb (fun k => Bool.eqb (bit_free (demo_disk 45) k) (46 <=? k)) (seqZ 0 2000) = true) by (vm_compute; reflexivity).
  rewrite forallb_forall in Hall. apply Bool.eqb_prop, Hall, list_elem_of_In, elem_of_seqZ. lia.
Qed.

Lemma demo_usable : usable demo_sb 46 demo_disk ∅.
Proof.
  split.
  - intros b Hb Hs. rewrite demo_free by (cbn in Hs; lia). destruct (Z.leb_spec 46 b); [lia | auto].
  - intros b Hb [y Hy]. now rewrite lookup_empty in Hy.
  - intros i _. apply lookup_empty.
Qed.

Lemma demo_addr bn : file_addr demo_disk demo_file bn = 0.
Proof.
  unfold file_addr. destruct (bn <? NDIRECT); [|reflexivity]. apply nth_repeat.
Qed.

Lemma demo_file_ok : file_ok demo_sb 46 demo_disk demo_file.
Proof.
  split; auto; try discriminate; intros; exfalso;
    match goal with Hn : file_addr _ _ _ <> 0 |- _ => now rewrite demo_addr in Hn | Hn : ind_addr _ <> 0 |- _ => now apply Hn end.
Qed.

Lemma demo_inode_wf : dinode_wf (dinode_of demo_file).
Proof.
  split; cbn; try lia.
  - intros z Hz. apply list_elem_of_In in Hz. cbn in Hz. unfold T_FILE in Hz. lia.
  - intros z Hz. apply list_elem_of_In in Hz. cbn in Hz. lia.
Qed.

(** The file system mkfs makes: one block of free map is enough. *)
Record fs_layout (x : superblock) (st sz dstart : Z) : Prop := {
  fl_geometry : geometry x st sz;
  fl_layout : layout st sz x dstart;
  fl_bitmap : 0 < sb_size x <= BPB;
}.

(** A file whose bytes [off, off + n) may be written. *)
Record writable (x : superblock) (dstart : Z) (V : disk_t) (i : inode) (off n : Z) : Prop := {
  wb_usable : usable x dstart V ∅;
  wb_file : file_ok x dstart V i;
  wb_inode : dinode_wf (dinode_of i);
  wb_inum : 0 <= i_inum i < sb_ninodes x;
  wb_off : 0 <= off <= i_size i;
  wb_size : i_size i <= MAXFILE * BSIZE /\ off + n <= MAXFILE * BSIZE;
}.

Definition log_space (sz : Z) (W : gset Z) (k : Z) : Prop :=
  cnt W + k + 8 < sz /\ cnt W + k + 10 <= LOGSIZE.

Definition locks_free (h : locks) : Prop := cache_locks_free h /\ (log_lock ∉ h) /\ (pr_lock ∉ h).

Lemma one_bitmap x b : sb_size x <= BPB -> 0 <= b < sb_size x -> BBLOCK b x = BBLOCK 0 x.
Proof. intros Hs Hb. unfold BBLOCK. rewrite (Z.div_small b) by lia. reflexivity. Qed.

Section fs.
Context {C : Type} `{BlockCacheLaws C BSIZE NBUF ROOTDEV} `{!Process C}.
Variables (x : superblock) (st sz dstart pid : Z) (h : locks).
Hypothesis Hfs : fs_layout x st sz dstart.
Hypothesis Hh : locks_free h.

Lemma space_fits W i k : 0 <= k -> log_space sz W k -> fits sz (BBLOCK 0 x) W i k.
Proof.
  intros Hk [S1 S2]. pose proof (cnt_budget (BBLOCK 0 x) W i). unfold fits, NBUF, LOGSIZE, MAXOPBLOCKS in *.
  split_and!; lia.
Qed.

Lemma writei_ok d V T W (s : fsys C) ip src data off : sourced st sz pid h x src data ->
  let i := T ip in
  let n := Z.of_nat (length data) in
  txn st sz pid d s V ∅ T x W -> writable x dstart V i off n -> log_space sz W (span off n) ->
  wp (writei ip src off n) h s [] (fun r s' => exists V' T' W',
    txn st sz pid d s' V' ∅ T' x W' /\ 0 <= r <= n /\ write_done x dstart data off r V i V' (T' ip) /\
    (forall q, q <> ip -> T' q = T q) /\ cnt W' <= cnt W + 4 + span off n).
Proof.
  intros Hsrc i n Ht [W1 W2 W3 W4 W5 [W6 W7]] Hsp. destruct Hfs as [_ Hly [B1 B2]], Hh as (L1 & L2 & L3).
  apply (writei_run st sz pid h L1 L2 L3 x dstart Hly B1 (BBLOCK 0 x)); auto.
  - intros b Hb. now apply one_bitmap.
  - apply space_fits; auto. apply span_spec; unfold n; lia.
Qed.

(** C2: [writei] within a transaction, on every file and range.  It writes
    nothing to the disk and returns the number [r] of bytes written: all of
    them, unless the free map has no free block left.  Then the bytes
    [off, off + r) of the file are the data and all others are as before; the
    size is the larger of the old size and [off + r]; the inode on disk agrees
    with the one in memory; no other inode, no block in use by another file
    and no other entry of the inode table changes.  At most four blocks and
    those the range lies in have been added to the transaction. *)
Theorem writei_spec d V T W (s : fsys C) ip data off :
  let i := T ip in
  let n := Z.of_nat (length data) in
  txn st sz pid d s V ∅ T x W -> writable x dstart V i off n -> log_space sz W (span off n) ->
  wp (writei ip (FromKernel data) off n) h s [] (fun r s' => exists V' T' W',
    txn st sz pid d s' V' ∅ T' x W' /\ 0 <= r <= n /\ write_done x dstart data off r V i V' (T' ip) /\
    (forall q, q <> ip -> T' q = T q) /\ cnt W' <= cnt W + 4 + span off n).
Proof. apply (writei_ok d V T W s ip (FromKernel data) data off), sourced_kernel. Qed.

(** C35: Round trip.  Inside a transaction, [readi] of the range that a
    complete [writei] wrote returns the bytes that were written, and changes
    nothing. *)
Theorem writei_readi d V T W (s : fsys C) ip data off :
  let i := T ip in
  let n := Z.of_nat (length data) in
  txn st sz pid d s V ∅ T x W -> writable x dstart V i off n -> log_space sz W (span off n) ->
  wp (r <- writei ip (FromKernel data) off n;;
      back <- readi ip ToKernel off r;;
      ret (r, back)) h s [] (fun '(r, (m, back)) s' =>
    m = r /\ back = take (Z.to_nat r) data /\
    exists V' T' W', txn st sz pid d s' V' ∅ T' x W' /\ write_done x dstart data off r V i V' (T' ip)).
Proof.
  intros i n Ht Hw Hsp. pose proof Hw as [W1 W2 W3 W4 W5 [W6 W7]].
  apply wp_seq. eapply wp_mono; [apply (writei_ok d V T W s ip (FromKernel data) data off (sourced_kernel st sz pid h x data) Ht Hw Hsp)|].
  intros r s1 (V' & T' & W' & Ht' & Hr & Hd & HT & Hc).
  destruct Hfs as [_ Hly [B1 B2]], Hh as (L1 & L2 & L3).
  pose proof (wd_size _ _ _ _ _ _ _ _ _ Hd) as Hsz. destruct (wd_ok _ _ _ _ _ _ _ _ _ Hd) as (Hok & _ & _).
  change (MAXFILE * BSIZE) with 274432 in *. fold i n in Hsz, Hr.
  assert (Em : Z.min r (i_size (T' ip) - off) = r) by lia.
  destruct Hsp as [S1 S2]. fold n in S1, S2, Hc.
  apply wp_seq. eapply wp_mono.
  { apply (readi_run st sz pid h L1 x dstart Hly d V' T' W' s1 ip off r); auto; rewrite ?Em; try lia.
    - unfold NBUF, LOGSIZE, MAXOPBLOCKS in *. lia.
    - change (MAXFILE * BSIZE) with 274432. lia.
    - intros k Hk. apply (wd_there _ _ _ _ _ _ _ _ _ Hd); change (MAXFILE * BSIZE) with 274432; lia. }
  intros ? s2 [-> Ht2]. rewrite Em. apply wp_ret. split_and!; auto; [|now exists V', T', W'].
  unfold bytes. apply (nth_ext _ _ (content V' (T' ip) 0) 0).
  { rewrite length_map, length_seqZ, length_take. lia. }
  intros k Hk. rewrite length_map, length_seqZ in Hk. rewrite map_nth.
  assert (Es : nth k (seqZ off r) 0 = off + Z.of_nat k) by (apply nth_lookup_Some, lookup_seqZ; lia).
  rewrite Es, (wd_content _ _ _ _ _ _ _ _ _ Hd) by (change (MAXFILE * BSIZE) with 274432; lia).
  destruct (Z.leb_spec off (off + Z.of_nat k)), (Z.ltb_spec (off + Z.of_nat k) (off + r)); try lia. cbn [andb].
  unfold nthZ. replace (Z.to_nat (off + Z.of_nat k - off)) with k by lia.
  rewrite !nth_lookup, lookup_take_lt by lia. reflexivity.
Qed.

(** C1: Atomicity.  A write to a file as a transaction ([begin_op], [writei],
    [end_op]) on an idle file system.  Without a failure it returns with the
    write on the disk and the file system idle again.  If the power fails at any
    point of it, and again any number of times during recovery, the first boot
    that completes finds the disk as it was, or the complete write; never a
    part of it. *)
Theorem write_atomic d (s : fsys C) ip data off :
  let i := itable s ip in
  let n := Z.of_nat (length data) in
  let op := operation (writei ip (FromKernel data) off n) in
  idle st sz pid d s -> sb s = x -> writable x dstart d i off n -> log_space sz ∅ (span off n) ->
  (exists w, wp op h s w (fun r s' => exists d' V, idle st sz pid d' s' /\ same_fs st sz d' V /\
     write_done x dstart data off r d i V (itable s' ip))) /\
  (forall d1 d2 (s2 : fsys C), crash (op h s) d d1 -> failed_boots x h d1 d2 -> boot_state s2 d2 ->
     exists w, wp (initlog ROOTDEV x) h s2 w (fun _ s3 => exists d3,
       cb_rel (bc s3) d3 ∅ /\ hdr_n (d3 st) = 0 /\
       (same_fs st sz d3 d \/
        exists r V i', same_fs st sz d3 V /\ write_done x dstart data off r d i V i'))).
Proof.
  intros i n op Hid Hsb Hw Hsp.
  assert (Hm : forall s1, txn st sz pid d s1 d ∅ (itable s) (sb s) ∅ ->
    wp (writei ip (FromKernel data) off n) h s1 [] (fun r s2 => exists V T W,
      txn st sz pid d s2 V ∅ T (sb s) W /\ cnt W < NBUF /\ write_done x dstart data off r d i V (T ip))).
  { intros s1 Ht. rewrite Hsb in *. eapply wp_mono; [apply (writei_ok d d (itable s) ∅ s1 ip (FromKernel data) data off (sourced_kernel st sz pid h x data) Ht Hw Hsp)|].
    intros r s2 (V & T & W & Ht2 & _ & Hd & _ & Hc). exists V, T, W. split_and!; auto.
    destruct Hsp as [_ S2]. fold n in Hc. unfold NBUF, LOGSIZE, MAXOPBLOCKS in *. lia. }
  pose proof Hfs as [Hg _ _]. destruct Hh as (L1 & L2 & L3). split.
  - destruct (operation_returns st sz pid h L1 L2 _ (fun r V T => write_done x dstart data off r d i V (T ip)) d s Hid Hm)
      as (w & Hwp). exists w. eapply wp_mono; [exact Hwp|]. intros r s' (d' & V & ? & ? & ? & _). eauto.
  - intros d1 d2 s2 Hcr Hf Hb.
    destruct (operation_crash x st sz pid h Hg L1 L2 _ (fun r V T => write_done x dstart data off r d i V (T ip)) d s Hid Hm
      d1 d2 s2 Hcr Hf Hb) as (w & Hwp). exists w. eapply wp_mono; [exact Hwp|].
    intros _ s3 (d3 & H1 & H2 & [H3 | (r & V & T & H3 & H4)]); exists d3; split_and!; auto.
    right. exists r, V, (T ip). auto.
Qed.

(** [balloc] within a transaction finds the first block that the free map
    has free: it returns it marked as in use and zeroed, every other bit and
    block as before; if there is none it returns 0 and changes nothing. *)
Theorem balloc_spec d V L T W (s : fsys C) :
  txn st sz pid d s V L T x W -> usable x dstart V L -> room sz W 2 L 1 ->
  wp (balloc ROOTDEV) h s [] (fun r s' =>
    (exists V', dstart <= r < sb_size x /\ block_free x V r = true /\
       (forall b, 0 <= b < r -> block_free x V b = false) /\
       txn st sz pid d s' V' L T x (logged r (logged (BBLOCK r x) W)) /\ V' r = zeros /\
       (forall b, 0 <= b < sb_size x -> block_free x V' b = negb (b =? r) && block_free x V b) /\
       (forall b, b <> r -> b <> BBLOCK r x -> V' b = V b)) \/
    (r = 0 /\ (forall b, 0 <= b < sb_size x -> block_free x V b = false) /\ txn st sz pid d s' V L T x W)).
Proof.
  intros Ht [U1 U2 U3] Hr. destruct Hfs as [_ Hly [B1 B2]], Hh as (L1 & L2 & L3).
  pose proof Hly as [_ [Hd _] _ _ _ _].
  apply (balloc_run st sz pid h L1 L2 L3 x dstart Hly d V L T W s); auto; [lia|].
  intros r s' Hrr Hf Hmin Ht'. left. exists (allocated x V r). split_and!; auto; try lia.
  - apply dwrite_eq.
  - intros b Hb. apply (allocated_free st sz x dstart Hly); auto; try lia. intros b'. apply (txn_length _ _ _ _ _ _ _ _ _ _ b' Ht).
  - intros b Hb1 Hb2. unfold allocated. now rewrite !dwrite_ne.
Qed.

(** [iupdate] stores the in-memory inode: its slot on disk reads back as
    the inode, and no other inode, no bit of the free map and no data block
    changes. *)
Theorem iupdate_spec d V L T W (s : fsys C) ip :
  let i := T ip in
  txn st sz pid d s V L T x W -> room sz W 1 L 1 -> i_dev i = ROOTDEV -> 0 <= i_inum i < sb_ninodes x ->
  dinode_wf (dinode_of i) -> L !! IBLOCK (i_inum i) x = None ->
  wp (iupdate ip) h s [] (fun _ s' => exists V',
    txn st sz pid d s' V' L T x (logged (IBLOCK (i_inum i) x) W) /\
    disk_inode x V' (i_inum i) = dinode_of i /\
    (forall j, 0 <= j < sb_ninodes x -> j <> i_inum i -> disk_inode x V' j = disk_inode x V j) /\
    (forall b, 0 <= b < sb_size x -> block_free x V' b = block_free x V b) /\
    (forall b, b <> IBLOCK (i_inum i) x -> V' b = V b)).
Proof.
  intros i Ht Hr Hdev Hi Hwf HL. destruct Hfs as [_ Hly [B1 B2]], Hh as (L1 & L2 & L3).
  apply (iupdate_run st sz pid h L1 L2 x dstart Hly d V L T W s ip); auto.
  intros s' Ht'. exists (updated x V i). split_and!; auto.
  - apply (updated_same x); auto. intros b. apply (txn_length _ _ _ _ _ _ _ _ _ _ b Ht).
  - intros j Hj Hne. now apply (updated_other st sz x dstart Hly).
  - intros b Hb. now apply (updated_free st sz x dstart Hly).
  - intros b Hb. now apply updated_block.
Qed.

End fs.

(** ** Examples: writing to the empty file of a fresh file system *)

Lemma demo_fs_layout : fs_layout demo_sb 2 30 46.
Proof. split; [exact demo_geometry | exact demo_layout | cbn; unfold BPB, BSIZE; lia]. Qed.

Lemma demo_locks : locks_free [].
Proof. split_and!; [exact no_cache_locks | apply not_held..]. Qed.

Definition demo_started : fsys bcache := started demo_state.

Lemma demo_txn : txn 2 30 7 demo_disk demo_started demo_disk ∅ (fun _ => demo_file) demo_sb ∅.
Proof. apply (txn_started 2 30 7 demo_disk demo_state), demo_idle. Qed.

Lemma demo_writable n : 0 <= n <= 4096 -> writable demo_sb 46 demo_disk demo_file 0 n.
Proof.
  intros Hn. split; [exact demo_usable | exact demo_file_ok | exact demo_inode_wf | cbn; lia | cbn; lia |].
  change (MAXFILE * BSIZE) with 274432. cbn. lia.
Qed.

Lemma demo_space : log_space 30 ∅ 1.
Proof. unfold log_space, LOGSIZE, MAXOPBLOCKS. change (cnt ∅) with 0. lia. Qed.

Lemma demo_room2 k : 0 <= k <= 2 -> room 30 ∅ k ∅ 1.
Proof.
  intros Hk. unfold room, NBUF, LOGSIZE, MAXOPBLOCKS. change (cnt ∅) with 0. rewrite map_size_empty. lia.
Qed.

Lemma writei_spec_witness :
  wp (writei 1 (FromKernel [104; 105]) 0 2) [] demo_started [] (fun r s' => exists V' T' W',
    txn 2 30 7 demo_disk s' V' ∅ T' demo_sb W' /\ 0 <= r <= 2 /\
    write_done demo_sb 46 [104; 105] 0 r demo_disk demo_file V' (T' 1) /\
    (forall q, q <> 1 -> T' q = demo_file) /\ cnt W' <= 5).
Proof.
  apply (writei_spec demo_sb 2 30 46 7 [] demo_fs_layout demo_locks demo_disk demo_disk (fun _ => demo_file) ∅
    demo_started 1 [104; 105] 0 demo_txn); [apply demo_writable; cbn; lia | exact demo_space].
Defined.

Lemma writei_readi_witness :
  wp (r <- writei 1 (FromKernel [104; 105]) 0 2;;
      back <- readi 1 ToKernel 0 r;;
      ret (r, back)) [] demo_started [] (fun '(r, (m, back)) s' =>
    m = r /\ back = take (Z.to_nat r) [104; 105] /\
    exists V' T' W', txn 2 30 7 demo_disk s' V' ∅ T' demo_sb W' /\
      write_done demo_sb 46 [104; 105] 0 r demo_disk demo_file V' (T' 1)).
Proof.
  apply (writei_readi demo_sb 2 30 46 7 [] demo_fs_layout demo_locks demo_disk demo_disk (fun _ => demo_file) ∅
    demo_started 1 [104; 105] 0 demo_txn); [apply demo_writable; cbn; lia | exact demo_space].
Defined.

Lemma write_atomic_witness :
  exists w, wp (operation (writei 1 (FromKernel [104; 105]) 0 2)) [] demo_state w (fun r s' =>
    exists d' V, idle 2 30 7 d' s' /\ same_fs 2 30 d' V /\
      write_done demo_sb 46 [104; 105] 0 r demo_disk demo_file V (itable s' 1)).
Proof.
  apply (write_atomic demo_sb 2 30 46 7 [] demo_fs_layout demo_locks demo_disk demo_state 1 [104; 105] 0 demo_idle eq_refl);
    [apply demo_writable; cbn; lia | exact demo_space].
Defined.

Lemma balloc_spec_witness :
  wp (balloc ROOTDEV) [] demo_started [] (fun r s' =>
    (exists V', 46 <= r < 2000 /\ block_free demo_sb demo_disk r = true /\
       (forall b, 0 <= b < r -> block_free demo_sb demo_disk b = false) /\
       txn 2 30 7 demo_disk s' V' ∅ (fun _ => demo_file) demo_sb (logged r (logged (BBLOCK r demo_sb) ∅)) /\ V' r = zeros /\
       (forall b, 0 <= b < 2000 -> block_free demo_sb V' b = negb (b =? r) && block_free demo_sb demo_disk b) /\
       (forall b, b <> r -> b <> BBLOCK r demo_sb -> V' b = demo_disk b)) \/
    (r = 0 /\ (forall b, 0 <= b < 2000 -> block_free demo_sb demo_disk b = false) /\
     txn 2 30 7 demo_disk s' demo_disk ∅ (fun _ => demo_file) demo_sb ∅)).
Proof.
  apply (balloc_spec demo_sb 2 30 46 7 [] demo_fs_layout demo_locks demo_disk demo_disk ∅ (fun _ => demo_file) ∅
    demo_started demo_txn demo_usable). apply demo_room2. lia.
Defined.

Lemma iupdate_spec_witness :
  wp (iupdate 1) [] demo_started [] (fun _ s' => exists V',
    txn 2 30 7 demo_disk s' V' ∅ (fun _ => demo_file) demo_sb (logged 32 ∅) /\
    disk_inode demo_sb V' 1 = dinode_of demo_file /\
    (forall j, 0 <= j < 200 -> j <> 1 -> disk_inode demo_sb V' j = disk_inode demo_sb demo_disk j) /\
    (forall b, 0 <= b < 2000 -> block_free demo_sb V' b = block_free demo_sb demo_disk b) /\
    (forall b, b <> 32 -> V' b = demo_disk b)).
Proof.
  apply (iupdate_spec demo_sb 2 30 46 7 [] demo_fs_layout demo_locks demo_disk demo_disk ∅ (fun _ => demo_file) ∅
    demo_started 1 demo_txn); [apply demo_room2; lia | reflexivity | cbn; lia
    | exact demo_inode_wf | reflexivity].
Defined.
