(* ===== verification/Kernel.v ===== *)
(** * The state of the kernel

    The variables of all the components in one record, and the interfaces that
    connect them: the file system runs on the buffer cache and reads and writes
    the memory of the process that runs ([BlockCache], [Process]), pipes and
    the console copy from and to it ([PipeEnv], [ConsUser]).  The process that
    runs, [myproc()], is a class. *)

From S2P Require Import Prelude KMonad Riscv Mem Printf Kalloc Vm Proc ProcFile.
From S2P Require Import Trace Console Pipe Sleeplock Bio BioSpec FsState Log Fs.

Class Thread := myproc : Z.

(** ** The file system over the buffer cache and the processes *)

Record core := Core { kcache : bcache; kps : psys }.

Definition set_cache (b : bcache) (c : core) : core := Core b (kps c).
Definition set_kps (x : psys) (c : core) : core := Core (kcache c) x.

Section core.
Context `{Layout} `{Thread}.

(** The cache as the process that runs sees it: its pid goes into the locks it
    takes. *)
Definition my_cache (c : core) : bcache :=
  BCache (node (kcache c)) (disk (kcache c)) (pid (procs (kps c) myproc)).

Definition cz {A} (m : M bcache A) : M core A := zoom my_cache set_cache m.

#[export] Instance core_cache : BlockCache core := {|
  cb_read dev b := cz (Bio.bread dev b);
  cb_write b := cz (Bio.bwrite b);
  cb_relse b := cz (Bio.brelse b);
  cb_pin b := cz (Bio.bpin b);
  cb_unpin b := cz (Bio.bunpin b);
  cb_data p c := data (node (kcache c) p);
  cb_set_data p v c := set_cache (modnode p (set_data v) (my_cache c)) c;
  cb_blockno p c := blockno (node (kcache c) p);
  cb_pid c := pid (procs (kps c) myproc);
|}.

Definition fs_ps (s : fsys core) : psys := kps (bc s).
Definition set_fs_ps (x : psys) (s : fsys core) : fsys core := set_bc (set_kps x (bc s)) s.

(** Page table of the process that runs, and its memory. *)
Definition my_pagetable (x : psys) : Z := pagetable (procs x myproc).

#[export] Instance core_process : Process core := {|
  copyout_user va bytes := zoom fs_ps set_fs_ps (x <- get;; vm (copyout (my_pagetable x) va bytes));
  copyin_user va n := zoom fs_ps set_fs_ps (x <- get;; vm (copyin (my_pagetable x) va n));
  cwd s := pcwd (procs (fs_ps s) myproc);
|}.

(** Copies of one byte. *)
Definition user_peek (va : Z) (x : psys) : option Z :=
  match copyin (my_pagetable x) va 1 [] (ph x) with
  | Ret (r, bs) _ _ => if r =? -1 then None else Some (nthZ 0 bs 0)
  | _ => None
  end.
Definition user_poke (va b : Z) (x : psys) : option psys :=
  match copyout (my_pagetable x) va [b] [] (ph x) with
  | Ret r _ m => if r <? 0 then None else Some (set_ph m x)
  | _ => None
  end.
Definition user_killed (x : psys) : bool := negb (pkilled (procs x myproc) =? 0).

(** Kernel addresses are physical addresses. *)
#[export] Instance psys_console : ConsUser psys := {|
  cu_in user_src src x := if user_src =? 0 then Some (mem (ph x) src) else user_peek src x;
  cu_out user_dst dst c x :=
    if user_dst =? 0 then Some (set_ph (set_mem (fun m => write_bytes m dst [c]) (ph x)) x) else user_poke dst c x;
  cu_killed := user_killed;
  cu_dump := procdump;
|}.

End core.

(** ** Open files *)

Inductive fdtype := FD_NONE | FD_PIPE | FD_INODE | FD_DEVICE.

#[global] Instance fdtype_eq_dec : EqDecision fdtype.
Proof. solve_decision. Defined.

(** [struct file] *)
Record file := File {
  f_type : fdtype; f_ref : Z; f_readable : Z; f_writable : Z; f_pipe : Z; f_ip : Z; f_off : Z; f_major : Z }.

Definition set_ftype v f := File v (f_ref f) (f_readable f) (f_writable f) (f_pipe f) (f_ip f) (f_off f) (f_major f).
Definition set_fref v f := File (f_type f) v (f_readable f) (f_writable f) (f_pipe f) (f_ip f) (f_off f) (f_major f).
Definition set_fmode r w f := File (f_type f) (f_ref f) r w (f_pipe f) (f_ip f) (f_off f) (f_major f).
Definition set_fpipe v f := File (f_type f) (f_ref f) (f_readable f) (f_writable f) v (f_ip f) (f_off f) (f_major f).
Definition set_fip v f := File (f_type f) (f_ref f) (f_readable f) (f_writable f) (f_pipe f) v (f_off f) (f_major f).
Definition set_foff v f := File (f_type f) (f_ref f) (f_readable f) (f_writable f) (f_pipe f) (f_ip f) v (f_major f).
Definition set_fmajor v f := File (f_type f) (f_ref f) (f_readable f) (f_writable f) (f_pipe f) (f_ip f) (f_off f) v.

(** The function pointers of [struct devsw]: null, or the console's. *)
Inductive devfn := dev_null | dev_console.

(** ** The kernel *)

(** [&ftable.file[i]] is the pointer [i + 1]; a pipe is named by the address of
    its page; [R] is the UART. *)
Record kernel {R : Type} := Kernel {
  kfs : fsys core;
  ftable : Z -> file;
  devsw_read : Z -> devfn; devsw_write : Z -> devfn;
  kpipes : Z -> pipe;
  kcons : con R unit;
  ticks : Z }.
Arguments kernel : clear implicits.
Arguments Kernel {R}.

Section kernel.
Context `{Layout} `{Thread} {R : Type} `{UartRegs R}.
Abbreviation K := (kernel R).

Definition set_kfs (v : fsys core) (k : K) : K := Kernel v (ftable k) (devsw_read k) (devsw_write k) (kpipes k) (kcons k) (ticks k).
Definition set_ftable (v : Z -> file) (k : K) : K := Kernel (kfs k) v (devsw_read k) (devsw_write k) (kpipes k) (kcons k) (ticks k).
Definition set_devsw (r w : Z -> devfn) (k : K) : K := Kernel (kfs k) (ftable k) r w (kpipes k) (kcons k) (ticks k).
Definition set_kpipes (v : Z -> pipe) (k : K) : K := Kernel (kfs k) (ftable k) (devsw_read k) (devsw_write k) v (kcons k) (ticks k).
Definition set_kcons (v : con R unit) (k : K) : K := Kernel (kfs k) (ftable k) (devsw_read k) (devsw_write k) (kpipes k) v (ticks k).
Definition set_ticks (v : Z) (k : K) : K := Kernel (kfs k) (ftable k) (devsw_read k) (devsw_write k) (kpipes k) (kcons k) v.

Definition k_ps (k : K) : psys := fs_ps (kfs k).
Definition set_k_ps (x : psys) (k : K) : K := set_kfs (set_fs_ps x (kfs k)) k.

(** The components inside the kernel. *)
Definition fsm {A} (m : M (fsys core) A) : M K A := zoom kfs set_kfs m.
Definition prm {A} (m : M psys A) : M K A := zoom k_ps set_k_ps m.
Definition vmm {A} (m : M phys A) : M K A := prm (vm m).

Definition k_cons (k : K) : con R psys :=
  let c := kcons k in Con (c_buf c) (c_r c) (c_w c) (c_e c) (tx_buf c) (tx_w c) (tx_r c) (uregs c) (k_ps k).
Definition set_k_cons (c : con R psys) (k : K) : K :=
  set_k_ps (user c) (set_kcons (Con (c_buf c) (c_r c) (c_w c) (c_e c) (tx_buf c) (tx_w c) (tx_r c) (uregs c) tt) k).
Definition conm {A} (m : M (con R psys) A) : M K A := zoom k_cons set_k_cons m.

#[export] Instance kernel_pipes : PipeEnv K := {|
  pipe_of pi k := kpipes k pi;
  set_pipe pi p k := set_kpipes (fun q => if q =? pi then p else kpipes k q) k;
  Pipe.killed k := user_killed (k_ps k);
  peek va k := user_peek va (k_ps k);
  poke va b k := option_map (fun x => set_k_ps x k) (user_poke va b (k_ps k));
|}.

Definition getf (f : Z) : M K file := gets (fun k => ftable k f).
Definition modf (f : Z) (g : file -> file) : M K unit :=
  modify (fun k => set_ftable (fun q => if q =? f then g (ftable k f) else ftable k q) k).

(** The process that runs. *)
Definition me : M K proc := gets (fun k => procs (k_ps k) myproc).

End kernel.
