(* ===== verification/File.v ===== *)
(** * Open files (kernel/file.c, and pipealloc of kernel/pipe.c)

    The table of open files over the state of the kernel. *)

From S2P Require Import Prelude KMonad Riscv Mem Printf Kalloc Vm Proc ProcFile.
From S2P Require Import Trace Console Pipe Sleeplock Bio BioSpec FsState Log Fs Kernel.

(** [for(f = ftable.file; f < ftable.file + NFILE; f++)] *)
Definition all_files : list Z := seqZ 1 NFILE.

Definition CONSOLE : Z := 1.

(** The low [n] bytes of a word, least significant first. *)
Definition le_bytes (n x : Z) : list Z := map (fun i => u8 (Z.shiftr x (8 * i))) (seqZ 0 n).

(** The bytes of a [struct stat]; [pad] are the four bytes between [nlink] and
    [size], which no one has set. *)
Definition stat_bytes (pad : list Z) (x : stat) : list Z :=
  le_bytes 4 (st_dev x) ++ le_bytes 4 (st_ino x) ++ le_bytes 2 (st_type x) ++ le_bytes 2 (st_nlink x) ++ pad ++ le_bytes 8 (st_size x).

(** The most bytes that [filewrite] writes in one transaction. *)
Definition WRITEMAX : Z := (MAXOPBLOCKS - 1 - 1 - 2) / 2 * BSIZE.

Section file.
Context `{Layout} `{Thread} {R : Type} `{UartRegs R}.
Abbreviation K := (kernel R).

Definition fileinit : M K unit := initlock ftable_lock.

Fixpoint filealloc_loop (l : list Z) : M K Z :=
  match l with
  | [] =>
      release ftable_lock;;
      ret 0
  | f :: l' =>
      x <- getf f;;
      if f_ref x =? 0 then
        modf f (set_fref 1);;
        release ftable_lock;;
        ret f
      else filealloc_loop l'
  end.

Definition filealloc : M K Z :=
  acquire ftable_lock;;
  filealloc_loop all_files.

Definition filedup (f : Z) : M K Z :=
  acquire ftable_lock;;
  x <- getf f;;
  if f_ref x <? 1 then panic "filedup"
  else
    modf f (fun x => set_fref (i32 (f_ref x + 1)) x);;
    release ftable_lock;;
    ret f.

(** What happens to the file when the last reference is gone. *)
Definition file_release (ff : file) : M K unit :=
  match f_type ff with
  | FD_PIPE => pipeclose (fun pi => vmm (kfree pi)) (f_pipe ff) (negb (f_writable ff =? 0))
  | FD_INODE | FD_DEVICE =>
      fsm begin_op;;
      fsm (iput (f_ip ff));;
      fsm end_op
  | FD_NONE => ret tt
  end.

Definition fileclose (f : Z) : M K unit :=
  acquire ftable_lock;;
  x <- getf f;;
  if f_ref x <? 1 then panic "fileclose"
  else
    modf f (fun x => set_fref (i32 (f_ref x - 1)) x);;
    ff <- getf f;;
    if 0 <? f_ref ff then release ftable_lock
    else
      modf f (set_fref 0);;
      modf f (set_ftype FD_NONE);;
      release ftable_lock;;
      file_release ff.

(** [pad]: what the stack of the kernel has in the padding of [st]. *)
Definition filestat (pad : list Z) (f addr : Z) : M K Z :=
  p <- me;;
  x <- getf f;;
  match f_type x with
  | FD_INODE | FD_DEVICE =>
      fsm (ilock (f_ip x));;
      st <- fsm (stati (f_ip x));;
      fsm (iunlock (f_ip x));;
      r <- vmm (copyout (pagetable p) addr (stat_bytes pad st));;
      if r <? 0 then ret (-1) else ret 0
  | _ => ret (-1)
  end.

(** A call of [devsw[major].read] and [devsw[major].write]. *)
Definition dev_read (d : devfn) (addr n : Z) : M K Z :=
  match d with
  | dev_null => ret (-1)
  | dev_console => conm (consoleread WAKEUPS 1 addr n)
  end.
Definition dev_write (d : devfn) (addr n : Z) : M K Z :=
  match d with
  | dev_null => ret (-1)
  | dev_console => conm (consolewrite WAKEUPS 1 addr n)
  end.

Definition fileread (f addr n : Z) : M K Z :=
  x <- getf f;;
  if f_readable x =? 0 then ret (-1)
  else
    match f_type x with
    | FD_PIPE => piperead WAKEUPS (f_pipe x) addr n
    | FD_DEVICE =>
        if (f_major x <? 0) || (NDEV <=? f_major x) then ret (-1)
        else
          k <- get;;
          dev_read (devsw_read k (f_major x)) addr n
    | FD_INODE =>
        fsm (ilock (f_ip x));;
        x <- getf f;;
        r <- fsm (readi (f_ip x) (ToUser addr) (f_off x) (u32 n));;
        (if 0 <? fst (r : Z * list Z) then modf f (fun x => set_foff (u32 (f_off x + fst r)) x) else ret tt);;
        fsm (iunlock (f_ip x));;
        ret (fst r)
    | FD_NONE => panic "fileread"
    end.

(** [while(i < n)]: the last value of [i]. *)
Fixpoint filewrite_loop (fuel : nat) (f addr n i : Z) : M K Z :=
  if negb (i <? n) then ret i
  else
    match fuel with
    | O => out_of_fuel
    | S fuel' =>
        let n1 := if WRITEMAX <? n - i then WRITEMAX else n - i in
        fsm begin_op;;
        x <- getf f;;
        fsm (ilock (f_ip x));;
        x <- getf f;;
        r <- fsm (writei (f_ip x) (FromUser (u64 (addr + i))) (f_off x) n1);;
        (if 0 <? r then modf f (fun x => set_foff (u32 (f_off x + r)) x) else ret tt);;
        fsm (iunlock (f_ip x));;
        fsm end_op;;
        if negb (r =? n1) then ret i
        else filewrite_loop fuel' f addr n (i + r)
    end.

Definition filewrite (f addr n : Z) : M K Z :=
  x <- getf f;;
  if f_writable x =? 0 then ret (-1)
  else
    match f_type x with
    | FD_PIPE => pipewrite (Z.to_nat n + WAKEUPS) (f_pipe x) addr n
    | FD_DEVICE =>
        if (f_major x <? 0) || (NDEV <=? f_major x) then ret (-1)
        else
          k <- get;;
          dev_write (devsw_write k (f_major x)) addr n
    | FD_INODE =>
        i <- filewrite_loop (Z.to_nat (n / WRITEMAX + 1)) f addr n 0;;
        ret (if i =? n then n else -1)
    | FD_NONE => panic "filewrite"
    end.

(** ** [pipealloc] *)

Definition pipealloc_bad (pi f0 f1 : Z) : M K (option (Z * Z)) :=
  (if negb (pi =? 0) then vmm (kfree pi) else ret tt);;
  (if negb (f0 =? 0) then fileclose f0 else ret tt);;
  (if negb (f1 =? 0) then fileclose f1 else ret tt);;
  ret None.

(** The two files, or [None] for the result -1. *)
Definition pipealloc : M K (option (Z * Z)) :=
  f0 <- filealloc;;
  if f0 =? 0 then pipealloc_bad 0 0 0
  else
    f1 <- filealloc;;
    if f1 =? 0 then pipealloc_bad 0 f0 0
    else
      pi <- vmm kalloc;;
      if pi =? 0 then pipealloc_bad 0 f0 f1
      else
        pipe_init pi;;
        modf f0 (fun x => set_fpipe pi (set_fmode 1 0 (set_ftype FD_PIPE x)));;
        modf f1 (fun x => set_fpipe pi (set_fmode 0 1 (set_ftype FD_PIPE x)));;
        ret (Some (f0, f1)).

(** The rest of [consoleinit]. *)
Definition consoleinit_devsw : M K unit :=
  modify (fun k => set_devsw (fun d => if d =? CONSOLE then dev_console else devsw_read k d)
                             (fun d => if d =? CONSOLE then dev_console else devsw_write k d) k).

End file.
