(* ===== verification/Sysfile.v ===== *)
(** * System calls on files (kernel/syscall.c, kernel/sysfile.c)

    Fetching the arguments of a system call from the trap frame and the memory
    of the process that runs, and the calls on files and directories. *)

From S2P Require Import Prelude KMonad Riscv Mem Printf Kalloc Vm Proc ProcFile.
From S2P Require Import Trace Console Pipe Sleeplock Bio BioSpec FsState Log Fs Kernel File.

Definition O_RDONLY : Z := 0x000.
Definition O_WRONLY : Z := 0x001.
Definition O_RDWR : Z := 0x002.
Definition O_CREATE : Z := 0x200.
Definition O_TRUNC : Z := 0x400.

(** The word whose bytes are [l]. *)
Fixpoint le_word (l : list Z) : Z :=
  match l with
  | [] => 0
  | c :: l' => c + 256 * le_word l'
  end.

Section sysfile.
Context `{Layout} `{Thread} {R : Type} `{UartRegs R}.
Abbreviation K := (kernel R).

(** ** syscall.c *)

(** The result and [*ip]. *)
Definition fetchaddr (addr : Z) : M K (Z * Z) :=
  p <- me;;
  if (sz p <=? addr) || (sz p <? u64 (addr + 8)) then ret (-1, 0)
  else
    r <- vmm (copyin (pagetable p) addr 8);;
    let (r, bs) := (r : Z * list Z) in
    if negb (r =? 0) then ret (-1, 0) else ret (0, le_word bs).

(** The result and the string in [buf]. *)
Definition fetchstr (addr max : Z) : M K (Z * list Z) :=
  p <- me;;
  r <- vmm (copyinstr (pagetable p) addr max);;
  let (r, bs) := (r : Z * list Z) in
  if r <? 0 then ret (-1, [])
  else
    let s := upto_nul bs in
    ret (Z.of_nat (length s), s).

Definition argraw (n : Z) : M K Z :=
  p <- me;;
  if (0 <=? n) && (n <=? 5) then vmm (read64 (trapframe p + TF_a0 + 8 * n)) else panic "argraw".

Definition argint (n : Z) : M K Z := v <- argraw n;; ret (i32 v).
Definition argaddr (n : Z) : M K Z := argraw n.
Definition argstr (n max : Z) : M K (Z * list Z) := addr <- argaddr n;; fetchstr addr max.

(** ** Descriptors *)

(** The descriptor and the file; [None] is the result -1. *)
Definition argfd (n : Z) : M K (option (Z * Z)) :=
  fd <- argint n;;
  p <- me;;
  if (fd <? 0) || (NOFILE <=? fd) || (nthZ 0 (ofile p) fd =? 0) then ret None
  else ret (Some (fd, nthZ 0 (ofile p) fd)).

Definition set_fd (fd f : Z) : M K unit := prm (modproc myproc (fun p => set_ofile (updZ (ofile p) fd f) p)).

Fixpoint fdalloc_loop (f : Z) (l : list Z) : M K Z :=
  match l with
  | [] => ret (-1)
  | fd :: l' =>
      p <- me;;
      if nthZ 0 (ofile p) fd =? 0 then
        set_fd fd f;;
        ret fd
      else fdalloc_loop f l'
  end.

Definition fdalloc (f : Z) : M K Z := fdalloc_loop f (seqZ 0 NOFILE).

Definition sys_dup : M K Z :=
  a <- argfd 0;;
  match a with
  | None => ret (-1)
  | Some (_, f) =>
      fd <- fdalloc f;;
      if fd <? 0 then ret (-1)
      else
        filedup f;;
        ret fd
  end.

Definition sys_read : M K Z :=
  p <- argaddr 1;;
  n <- argint 2;;
  a <- argfd 0;;
  match a with
  | None => ret (-1)
  | Some (_, f) => fileread f p n
  end.

Definition sys_write : M K Z :=
  p <- argaddr 1;;
  n <- argint 2;;
  a <- argfd 0;;
  match a with
  | None => ret (-1)
  | Some (_, f) => filewrite f p n
  end.

Definition sys_close : M K Z :=
  a <- argfd 0;;
  match a with
  | None => ret (-1)
  | Some (fd, f) =>
      set_fd fd 0;;
      fileclose f;;
      ret 0
  end.

Definition sys_fstat (pad : list Z) : M K Z :=
  st <- argaddr 1;;
  a <- argfd 0;;
  match a with
  | None => ret (-1)
  | Some (_, f) => filestat pad f st
  end.

(** ** Directories *)

Definition itype (ip : Z) : M K Z := fsm (x <- geti ip;; ret (i_type x)).

(** The end of [sys_link] after an error. *)
Definition link_bad (ip : Z) : M K Z :=
  fsm (ilock ip);;
  fsm (modi ip (fun x => set_inlink (i16 (i_nlink x - 1)) x));;
  fsm (iupdate ip);;
  fsm (iunlockput ip);;
  fsm end_op;;
  ret (-1).

Definition sys_link : M K Z :=
  a <- argstr 0 MAXPATH;;
  let (n, old) := (a : Z * list Z) in
  if n <? 0 then ret (-1)
  else
    a <- argstr 1 MAXPATH;;
    let (n, new) := (a : Z * list Z) in
    if n <? 0 then ret (-1)
    else
      fsm begin_op;;
      ip <- fsm (namei old);;
      if ip =? 0 then fsm end_op;; ret (-1)
      else
        fsm (ilock ip);;
        t <- itype ip;;
        if t =? T_DIR then
          fsm (iunlockput ip);;
          fsm end_op;;
          ret (-1)
        else
          fsm (modi ip (fun x => set_inlink (i16 (i_nlink x + 1)) x));;
          fsm (iupdate ip);;
          fsm (iunlock ip);;
          r <- fsm (nameiparent new);;
          let (dp, name) := (r : Z * list Z) in
          if dp =? 0 then link_bad ip
          else
            fsm (ilock dp);;
            x <- fsm (geti ip);;
            d <- fsm (geti dp);;
            r <- (if negb (i_dev d =? i_dev x) then ret (-1) else fsm (dirlink dp name (i_inum x)));;
            if r <? 0 then
              fsm (iunlockput dp);;
              link_bad ip
            else
              fsm (iunlockput dp);;
              fsm (iput ip);;
              fsm end_op;;
              ret 0.

Fixpoint isdirempty_loop (fuel : nat) (dp off : Z) : M K bool :=
  x <- fsm (geti dp);;
  if negb (off <? i_size x) then ret true
  else
    match fuel with
    | O => out_of_fuel
    | S fuel' =>
        r <- fsm (readi dp ToKernel off DIRENT);;
        let (n, de) := (r : Z * list Z) in
        if negb (n =? DIRENT) then panic "isdirempty: readi"
        else if negb (de_inum de =? 0) then ret false
        else isdirempty_loop fuel' dp (off + DIRENT)
    end.

Definition isdirempty (dp : Z) : M K bool :=
  x <- fsm (geti dp);;
  isdirempty_loop (Z.to_nat (i_size x / DIRENT + 1)) dp (2 * DIRENT).

Definition unlink_bad (dp : Z) : M K Z :=
  fsm (iunlockput dp);;
  fsm end_op;;
  ret (-1).

Definition sys_unlink : M K Z :=
  a <- argstr 0 MAXPATH;;
  let (n, path) := (a : Z * list Z) in
  if n <? 0 then ret (-1)
  else
    fsm begin_op;;
    r <- fsm (nameiparent path);;
    let (dp, name) := (r : Z * list Z) in
    if dp =? 0 then fsm end_op;; ret (-1)
    else
      fsm (ilock dp);;
      if (namecmp name (bytes_of ".") =? 0) || (namecmp name (bytes_of "..") =? 0) then unlink_bad dp
      else
        r <- fsm (dirlookup dp name);;
        let (ip, off) := (r : Z * Z) in
        if ip =? 0 then unlink_bad dp
        else
          fsm (ilock ip);;
          x <- fsm (geti ip);;
          if i_nlink x <? 1 then panic "unlink: nlink < 1"
          else
            e <- (if i_type x =? T_DIR then isdirempty ip else ret true);;
            if negb (e : bool) then
              fsm (iunlockput ip);;
              unlink_bad dp
            else
              n <- fsm (writei dp (FromKernel (repeat 0 (Z.to_nat DIRENT))) off DIRENT);;
              if negb (n =? DIRENT) then panic "unlink: writei"
              else
                (if i_type x =? T_DIR then
                   fsm (modi dp (fun d => set_inlink (i16 (i_nlink d - 1)) d));;
                   fsm (iupdate dp)
                 else ret tt);;
                fsm (iunlockput dp);;
                fsm (modi ip (fun x => set_inlink (i16 (i_nlink x - 1)) x));;
                fsm (iupdate ip);;
                fsm (iunlockput ip);;
                fsm end_op;;
                ret 0.

Definition create_fail (dp ip : Z) : M K Z :=
  fsm (modi ip (set_inlink 0));;
  fsm (iupdate ip);;
  fsm (iunlockput ip);;
  fsm (iunlockput dp);;
  ret 0.

Definition create (path : list Z) (type major minor : Z) : M K Z :=
  r <- fsm (nameiparent path);;
  let (dp, name) := (r : Z * list Z) in
  if dp =? 0 then ret 0
  else
    fsm (ilock dp);;
    r <- fsm (dirlookup dp name);;
    let (ip, _) := (r : Z * Z) in
    if negb (ip =? 0) then
      fsm (iunlockput dp);;
      fsm (ilock ip);;
      t <- itype ip;;
      if (type =? T_FILE) && ((t =? T_FILE) || (t =? T_DEVICE)) then ret ip
      else
        fsm (iunlockput ip);;
        ret 0
    else
      d <- fsm (geti dp);;
      ip <- fsm (ialloc (i_dev d) type);;
      if ip =? 0 then
        fsm (iunlockput dp);;
        ret 0
      else
        fsm (ilock ip);;
        fsm (modi ip (fun x => Inode (i_dev x) (i_inum x) (i_ref x) (i_lock x) (i_valid x) (i_type x) major minor 1 (i_size x) (i_addrs x)));;
        fsm (iupdate ip);;
        x <- fsm (geti ip);;
        d <- fsm (geti dp);;
        r <- (if type =? T_DIR then
                r <- fsm (dirlink ip (bytes_of ".") (i_inum x));;
                if r <? 0 then ret (-1) else fsm (dirlink ip (bytes_of "..") (i_inum d))
              else ret 0);;
        if r <? 0 then create_fail dp ip
        else
          r <- fsm (dirlink dp name (i_inum x));;
          if r <? 0 then create_fail dp ip
          else
            (if type =? T_DIR then
               fsm (modi dp (fun d => set_inlink (i16 (i_nlink d + 1)) d));;
               fsm (iupdate dp)
             else ret tt);;
            fsm (iunlockput dp);;
            ret ip.

(** ** Opening *)

(** The inode to open, locked, with the transaction open; [None] when
    [sys_open] has returned -1. *)
Definition open_inode (path : list Z) (omode : Z) : M K (option Z) :=
  if negb (Z.land omode O_CREATE =? 0) then
    ip <- create path T_FILE 0 0;;
    if ip =? 0 then
      fsm end_op;;
      ret None
    else ret (Some ip)
  else
    ip <- fsm (namei path);;
    if ip =? 0 then
      fsm end_op;;
      ret None
    else
      fsm (ilock ip);;
      t <- itype ip;;
      if (t =? T_DIR) && negb (omode =? O_RDONLY) then
        fsm (iunlockput ip);;
        fsm end_op;;
        ret None
      else ret (Some ip).

Definition open_bad (ip : Z) : M K Z :=
  fsm (iunlockput ip);;
  fsm end_op;;
  ret (-1).

(** The fields of the new file. *)
Definition open_file (omode ip : Z) (x : inode) (f : file) : file :=
  let f := if i_type x =? T_DEVICE then set_fmajor (i_major x) (set_ftype FD_DEVICE f)
           else set_foff 0 (set_ftype FD_INODE f) in
  set_fmode (if Z.land omode O_WRONLY =? 0 then 1 else 0)
            (if (Z.land omode O_WRONLY =? 0) && (Z.land omode O_RDWR =? 0) then 0 else 1) (set_fip ip f).

Definition sys_open : M K Z :=
  omode <- argint 1;;
  a <- argstr 0 MAXPATH;;
  let (n, path) := (a : Z * list Z) in
  if n <? 0 then ret (-1)
  else
    fsm begin_op;;
    o <- open_inode path omode;;
    match o with
    | None => ret (-1)
    | Some ip =>
        x <- fsm (geti ip);;
        if (i_type x =? T_DEVICE) && ((i_major x <? 0) || (NDEV <=? i_major x)) then open_bad ip
        else
          f <- filealloc;;
          if f =? 0 then open_bad ip
          else
            fd <- fdalloc f;;
            if fd <? 0 then
              fileclose f;;
              open_bad ip
            else
              modf f (open_file omode ip x);;
              (if negb (Z.land omode O_TRUNC =? 0) && (i_type x =? T_FILE) then fsm (itrunc ip) else ret tt);;
              fsm (iunlock ip);;
              fsm end_op;;
              ret fd
    end.

Definition sys_mkdir : M K Z :=
  fsm begin_op;;
  a <- argstr 0 MAXPATH;;
  let (n, path) := (a : Z * list Z) in
  ip <- (if n <? 0 then ret 0 else create path T_DIR 0 0);;
  if ip =? 0 then
    fsm end_op;;
    ret (-1)
  else
    fsm (iunlockput ip);;
    fsm end_op;;
    ret 0.

Definition sys_mknod : M K Z :=
  fsm begin_op;;
  major <- argint 1;;
  minor <- argint 2;;
  a <- argstr 0 MAXPATH;;
  let (n, path) := (a : Z * list Z) in
  ip <- (if n <? 0 then ret 0 else create path T_DEVICE (i16 major) (i16 minor));;
  if ip =? 0 then
    fsm end_op;;
    ret (-1)
  else
    fsm (iunlockput ip);;
    fsm end_op;;
    ret 0.

Definition sys_chdir : M K Z :=
  fsm begin_op;;
  a <- argstr 0 MAXPATH;;
  let (n, path) := (a : Z * list Z) in
  ip <- (if n <? 0 then ret 0 else fsm (namei path));;
  if ip =? 0 then
    fsm end_op;;
    ret (-1)
  else
    fsm (ilock ip);;
    t <- itype ip;;
    if negb (t =? T_DIR) then
      fsm (iunlockput ip);;
      fsm end_op;;
      ret (-1)
    else
      fsm (iunlock ip);;
      p <- me;;
      fsm (iput (pcwd p));;
      fsm end_op;;
      prm (modproc myproc (set_pcwd ip));;
      ret 0.

(** ** Pipes *)

(** The two descriptors are closed and -1 is returned. *)
Definition pipe_bad (rf wf : Z) : M K Z :=
  fileclose rf;;
  fileclose wf;;
  ret (-1).

Definition sys_pipe : M K Z :=
  fdarray <- argaddr 0;;
  r <- pipealloc;;
  match r with
  | None => ret (-1)
  | Some (rf, wf) =>
      fd0 <- fdalloc rf;;
      if fd0 <? 0 then pipe_bad rf wf
      else
        fd1 <- fdalloc wf;;
        if fd1 <? 0 then
          set_fd fd0 0;;
          pipe_bad rf wf
        else
          p <- me;;
          r <- vmm (copyout (pagetable p) fdarray (le_bytes 4 fd0));;
          r <- (if r <? 0 then ret (-1) else vmm (copyout (pagetable p) (u64 (fdarray + 4)) (le_bytes 4 fd1)));;
          if r <? 0 then
            set_fd fd0 0;;
            set_fd fd1 0;;
            pipe_bad rf wf
          else ret 0
  end.

End sysfile.
