(* ===== verification/Exec.v ===== *)
(** * exec (kernel/exec.c, sys_exec of kernel/sysfile.c)

    Loading a program from a file into a new address space of the process that
    runs.  Headers are the bytes read from the file. *)

From S2P Require Import Prelude KMonad Riscv Mem Printf Kalloc Vm Proc ProcFile.
From S2P Require Import Trace Console Pipe Sleeplock Bio BioSpec FsState Log Fs Kernel File Sysfile.

Definition ELF_MAGIC : Z := 0x464C457F.
Definition ELF_PROG_LOAD : Z := 1.

(** [sizeof(struct elfhdr)] and [sizeof(struct proghdr)] *)
Definition ELFHDR : Z := 64.
Definition PROGHDR : Z := 56.

(** The field of [n] bytes at [off] of a header. *)
Definition field (b : list Z) (off n : Z) : Z := le_word (slice b off n).

(** [struct elfhdr] and [struct proghdr]: the fields that are used. *)
Record elfhdr := Elf { e_magic : Z; e_entry : Z; e_phoff : Z; e_phnum : Z }.
Definition get_elf (b : list Z) : elfhdr := Elf (field b 0 4) (field b 24 8) (field b 32 8) (field b 56 2).

Record proghdr := Ph { ph_type : Z; ph_flags : Z; ph_off : Z; ph_vaddr : Z; ph_filesz : Z; ph_memsz : Z }.
Definition get_ph (b : list Z) : proghdr :=
  Ph (field b 0 4) (field b 4 4) (field b 8 8) (field b 16 8) (field b 32 8) (field b 40 8).

Definition flags2perm (flags : Z) : Z :=
  let perm := if negb (Z.land flags 0x1 =? 0) then PTE_X else 0 in
  if negb (Z.land flags 0x2 =? 0) then Z.lor perm PTE_W else perm.

(** The part of a path after the last slash. *)
Fixpoint last_elem (last s : list Z) : list Z :=
  match s with
  | [] => last
  | c :: s' => if c =? SLASH then last_elem s' s' else last_elem last s'
  end.

Section exec.
Context `{Layout} `{Symbols} `{Thread} {R : Type} `{UartRegs R}.
Abbreviation K := (kernel R).

(** [readi(ip, 0, pa, off, n)] into physical memory. *)
Definition readi_phys (ip pa off n : Z) : M K Z :=
  r <- fsm (readi ip ToKernel off n);;
  let (tot, bytes) := (r : Z * list Z) in
  vmm (modify (set_mem (fun m => write_bytes m pa bytes)));;
  ret tot.

Fixpoint loadseg_loop (fuel : nat) (pt va ip offset size i : Z) : M K Z :=
  if negb (i <? size) then ret 0
  else
    match fuel with
    | O => out_of_fuel
    | S fuel' =>
        pa <- vmm (walkaddr pt (u64 (va + i)));;
        if pa =? 0 then panic "loadseg: address should exist"
        else
          let n := if size - i <? PGSIZE then size - i else PGSIZE in
          r <- readi_phys ip pa (u32 (offset + i)) n;;
          if negb (r =? n) then ret (-1)
          else loadseg_loop fuel' pt va ip offset size (u32 (i + PGSIZE))
    end.

(** [offset] and [sz] are [uint]. *)
Definition loadseg (pt va ip offset size : Z) : M K Z :=
  loadseg_loop (Z.to_nat (size / PGSIZE + 1)) pt va ip offset size 0.

(** The loop over the program headers: [inl size] after the last one,
    [inr size] for [goto bad]. *)
Fixpoint load_loop (k : nat) (pt ip off size : Z) : M K (Z + Z) :=
  match k with
  | O => ret (inl size)
  | S k' =>
      r <- fsm (readi ip ToKernel (u32 off) PROGHDR);;
      let (n, b) := (r : Z * list Z) in
      if negb (n =? PROGHDR) then ret (inr size)
      else
        let x := get_ph b in
        if negb (ph_type x =? ELF_PROG_LOAD) then load_loop k' pt ip (i32 (off + PROGHDR)) size
        else if ph_memsz x <? ph_filesz x then ret (inr size)
        else if u64 (ph_vaddr x + ph_memsz x) <? ph_vaddr x then ret (inr size)
        else if negb (ph_vaddr x mod PGSIZE =? 0) then ret (inr size)
        else
          sz1 <- vmm (uvmalloc pt size (u64 (ph_vaddr x + ph_memsz x)) (flags2perm (ph_flags x)));;
          if sz1 =? 0 then ret (inr size)
          else
            r <- loadseg pt (ph_vaddr x) ip (u32 (ph_off x)) (u32 (ph_filesz x));;
            if r <? 0 then ret (inr sz1)
            else load_loop k' pt ip (i32 (off + PROGHDR)) sz1
  end.

(** The loop over the arguments: [sp] and [ustack], or [None] for
    [goto bad]. *)
Fixpoint push_args (pt sp stackbase argc : Z) (argv ustack : list (list Z)) : M K (option (Z * list (list Z))) :=
  match argv with
  | [] => ret (Some (sp, ustack))
  | s :: argv' =>
      if MAXARG <=? argc then ret None
      else
        let sp := u64 (sp - (Z.of_nat (length s) + 1)) in
        let sp := u64 (sp - sp mod 16) in
        if sp <? stackbase then ret None
        else
          r <- vmm (copyout pt sp (s ++ [0]));;
          if r <? 0 then ret None
          else push_args pt sp stackbase (argc + 1) argv' (ustack ++ [le_bytes 8 sp])
  end.

(** [bad]; [ip] is 0 after the file has been closed. *)
Definition exec_bad (pt size ip : Z) : M K Z :=
  (if negb (pt =? 0) then vmm (proc_freepagetable pt size) else ret tt);;
  (if negb (ip =? 0) then
     fsm (iunlockput ip);;
     fsm end_op
   else ret tt);;
  ret (-1).

(** From the start of the user stack on; [size] is the end of the program. *)
Definition exec_stack (path : list Z) (argv : list (list Z)) (entry pt size : Z) : M K Z :=
  p <- me;;
  let oldsz := sz p in
  let size := PGROUNDUP size in
  sz1 <- vmm (uvmalloc pt size (u64 (size + (USERSTACK + 1) * PGSIZE)) PTE_W);;
  if sz1 =? 0 then exec_bad pt size 0
  else
    let size := sz1 in
    vmm (uvmclear pt (u64 (size - (USERSTACK + 1) * PGSIZE)));;
    let stackbase := u64 (size - USERSTACK * PGSIZE) in
    r <- push_args pt size stackbase 0 argv [];;
    match r with
    | None => exec_bad pt size 0
    | Some (sp, ustack) =>
        let argc := Z.of_nat (length argv) in
        if MAXARG <=? argc then undef
        else
          let sp := u64 (sp - (argc + 1) * 8) in
          let sp := u64 (sp - sp mod 16) in
          if sp <? stackbase then exec_bad pt size 0
          else
            r <- vmm (copyout pt sp (concat ustack ++ le_bytes 8 0));;
            if r <? 0 then exec_bad pt size 0
            else
              vmm (write64 (trapframe p + TF_a1) sp);;
              prm (modproc myproc (fun x => set_pname (safestrcpy_list 16 (pname x) (last_elem path path)) x));;
              prm (modproc myproc (set_pagetable pt));;
              prm (modproc myproc (set_sz size));;
              vmm (write64 (trapframe p + TF_epc) entry);;
              vmm (write64 (trapframe p + TF_sp) sp);;
              vmm (proc_freepagetable (pagetable p) oldsz);;
              ret argc
    end.

Definition exec (path : list Z) (argv : list (list Z)) : M K Z :=
  fsm begin_op;;
  ip <- fsm (namei path);;
  if ip =? 0 then
    fsm end_op;;
    ret (-1)
  else
    fsm (ilock ip);;
    r <- fsm (readi ip ToKernel 0 ELFHDR);;
    let (n, b) := (r : Z * list Z) in
    if negb (n =? ELFHDR) then exec_bad 0 0 ip
    else
      let elf := get_elf b in
      if negb (e_magic elf =? ELF_MAGIC) then exec_bad 0 0 ip
      else
        pt <- prm (proc_pagetable myproc);;
        if pt =? 0 then exec_bad 0 0 ip
        else
          r <- load_loop (Z.to_nat (e_phnum elf)) pt ip (i32 (e_phoff elf)) 0;;
          match r with
          | inr size => exec_bad pt size ip
          | inl size =>
              fsm (iunlockput ip);;
              fsm end_op;;
              exec_stack path argv (e_entry elf) pt size
          end.

(** ** [sys_exec] *)

Fixpoint free_args (l : list Z) : M K unit :=
  match l with
  | [] => ret tt
  | p :: l' => vmm (kfree p);; free_args l'
  end.

(** The loop that fetches the arguments: the pages allocated and the strings
    in them; [false] for [goto bad]. *)
Fixpoint fetch_args (k : nat) (uargv i : Z) (pages : list Z) (strs : list (list Z)) : M K (bool * list Z * list (list Z)) :=
  match k with
  | O => ret (false, pages, strs)
  | S k' =>
      r <- fetchaddr (u64 (uargv + 8 * i));;
      let (r, uarg) := (r : Z * Z) in
      if r <? 0 then ret (false, pages, strs)
      else if uarg =? 0 then ret (true, pages, strs)
      else
        p <- vmm kalloc;;
        if p =? 0 then ret (false, pages, strs)
        else
          r <- fetchstr uarg PGSIZE;;
          let (r, s) := (r : Z * list Z) in
          if r <? 0 then ret (false, pages ++ [p], strs)
          else
            vmm (modify (set_mem (fun m => write_bytes m p (s ++ [0]))));;
            fetch_args k' uargv (i + 1) (pages ++ [p]) (strs ++ [s])
  end.

Definition sys_exec : M K Z :=
  uargv <- argaddr 1;;
  a <- argstr 0 MAXPATH;;
  let (n, path) := (a : Z * list Z) in
  if n <? 0 then ret (-1)
  else
    r <- fetch_args (Z.to_nat MAXARG) uargv 0 [] [];;
    let '(ok, pages, strs) := (r : bool * list Z * list (list Z)) in
    if (ok : bool) then
      r <- exec path strs;;
      free_args pages;;
      ret r
    else
      free_args pages;;
      ret (-1).

End exec.
