(* ===== verification/Syscall.v ===== *)
(** * The system calls (kernel/syscall.c, kernel/sysproc.c)

    The calls on processes and time, and the dispatch of a call by its number.
    The file operations that [fork] and [exit] use are those of the kernel
    ([FileOps]). *)

From S2P Require Import Prelude KMonad Riscv Mem Printf Kalloc Vm Proc ProcFile.
From S2P Require Import Trace Console Pipe Sleeplock Bio BioSpec FsState Log Fs Kernel File Sysfile Exec.

Definition SYS_fork : Z := 1.
Definition SYS_exit : Z := 2.
Definition SYS_wait : Z := 3.
Definition SYS_pipe : Z := 4.
Definition SYS_read : Z := 5.
Definition SYS_kill : Z := 6.
Definition SYS_exec : Z := 7.
Definition SYS_fstat : Z := 8.
Definition SYS_chdir : Z := 9.
Definition SYS_dup : Z := 10.
Definition SYS_getpid : Z := 11.
Definition SYS_sbrk : Z := 12.
Definition SYS_sleep : Z := 13.
Definition SYS_uptime : Z := 14.
Definition SYS_open : Z := 15.
Definition SYS_write : Z := 16.
Definition SYS_mknod : Z := 17.
Definition SYS_unlink : Z := 18.
Definition SYS_link : Z := 19.
Definition SYS_mkdir : Z := 20.
Definition SYS_close : Z := 21.
Definition SYS_pgpte : Z := 33.
Definition SYS_kpgtbl : Z := 34.

Section syscall.
Context `{Layout} `{Symbols} `{Thread} {R : Type} `{UartRegs R}.
Abbreviation K := (kernel R).

#[export] Instance kernel_files : FileOps K := {|
  ps := k_ps;
  set_ps := set_k_ps;
  op_filedup := filedup;
  op_fileclose := fileclose;
  op_idup ip := fsm (idup ip);
  op_iput ip := fsm (iput ip);
  op_begin_op := fsm begin_op;
  op_end_op := fsm end_op;
  op_namei path := fsm (namei path);
|}.

(** ** sysproc.c *)

Definition sys_exit : M K Z :=
  n <- argint 0;;
  exit myproc n;;
  ret 0.

Definition sys_getpid : M K Z := p <- me;; ret (pid p).

Definition sys_fork : M K Z := fork myproc.

Definition sys_wait : M K Z :=
  p <- argaddr 0;;
  prm (wait myproc WAKEUPS p).

Definition sys_sbrk : M K Z :=
  n <- argint 0;;
  p <- me;;
  r <- prm (growproc myproc n);;
  if r <? 0 then ret (-1) else ret (sz p).

Fixpoint sleep_loop (fuel : nat) (ticks0 n : Z) : M K Z :=
  k <- get;;
  if u32 (ticks k - ticks0) <? n then
    d <- prm (Proc.killed myproc);;
    if negb (d =? 0) then
      release tickslock;;
      ret (-1)
    else
      match fuel with
      | O => out_of_fuel
      | S fuel' =>
          KMonad.sleep ch_ticks tickslock;;
          sleep_loop fuel' ticks0 n
      end
  else
    release tickslock;;
    ret 0.

(** A sleeper wakes at each tick. *)
Definition sys_sleep : M K Z :=
  n <- argint 0;;
  let n := if n <? 0 then 0 else n in
  acquire tickslock;;
  k <- get;;
  sleep_loop (S (Z.to_nat n)) (ticks k) n.

Definition sys_pgpte : M K Z :=
  p <- me;;
  va <- argaddr 0;;
  pte <- vmm (pgpte (pagetable p) va);;
  if negb (pte =? 0) then
    v <- vmm (read64 pte);;
    ret (i32 v)
  else ret 0.

Definition sys_kpgtbl : M K Z :=
  p <- me;;
  vmm (vmprint (pagetable p));;
  ret 0.

Definition sys_kill : M K Z :=
  n <- argint 0;;
  prm (kill n).

Definition sys_uptime : M K Z :=
  acquire tickslock;;
  k <- get;;
  release tickslock;;
  ret (ticks k).

(** ** syscall.c *)

(** [syscalls[num]]; [None] is the null pointer. *)
Definition syscalls (pad : list Z) (num : Z) : option (M K Z) :=
  match num with
  | 1 => Some sys_fork | 2 => Some sys_exit | 3 => Some sys_wait | 4 => Some sys_pipe | 5 => Some sys_read
  | 6 => Some sys_kill | 7 => Some sys_exec | 8 => Some (sys_fstat pad) | 9 => Some sys_chdir | 10 => Some sys_dup
  | 11 => Some sys_getpid | 12 => Some sys_sbrk | 13 => Some sys_sleep | 14 => Some sys_uptime | 15 => Some sys_open
  | 16 => Some sys_write | 17 => Some sys_mknod | 18 => Some sys_unlink | 19 => Some sys_link | 20 => Some sys_mkdir
  | 21 => Some sys_close | 33 => Some sys_pgpte | 34 => Some sys_kpgtbl
  | _ => None
  end.

(** [NELEM(syscalls)] *)
Definition NSYSCALLS : Z := 35.

Definition syscall (pad : list Z) : M K unit :=
  p <- me;;
  a7 <- vmm (read64 (trapframe p + TF_a7));;
  let num := i32 a7 in
  match (if (0 <? num) && (num <? NSYSCALLS) then syscalls pad num else None) with
  | Some f =>
      r <- f;;
      vmm (write64 (trapframe p + TF_a0) (u64 r))
  | None =>
      printf (bytes_of "%d %s: unknown sys call %d" ++ [10]) [VInt (pid p); VStr (Some (upto_nul (pname p))); VInt num];;
      vmm (write64 (trapframe p + TF_a0) (u64 (-1)))
  end.

End syscall.
