(* ===== verification/KernelLaws.v ===== *)
(** * The kernel satisfies the interfaces of its components

    The laws that the file system, pipes, the console and [fork] rely on hold
    of the state of the kernel, so that their theorems hold inside it. *)

From Stdlib Require Import FunctionalExtensionality.
From S2P Require Import Prelude KMonad Riscv Mem Printf Kalloc Vm Proc ProcFile.
From S2P Require Import Trace Console Pipe Sleeplock Bio BioSpec FsState Log Fs Kernel File Sysfile Exec Syscall.

(** ** The buffer cache *)

Section core.
Context `{Layout} `{Thread}.
(** The processes do not change while the file system uses the cache. *)
Variable x : psys.

Definition core_rel (c : core) (d : disk_t) (U : blocks_in_use) : Prop := cache_rel (my_cache c) d U /\ kps c = x.

Lemma my_cache_set b c : bc_pid b = pid (procs (kps c) myproc) -> my_cache (set_cache b c) = b.
Proof. intros E. destruct b as [n d p]. unfold my_cache. cbn in *. now rewrite E. Qed.

Lemma cz_runs {A} (m : M bcache A) h c tr a b : runs m h (my_cache c) tr a b -> runs (cz m) h c tr a (set_cache b c).
Proof. apply runs_zoom. Qed.

#[export] Program Instance core_laws : BlockCacheLaws core BSIZE NBUF ROOTDEV := {| cb_rel := core_rel |}.
Next Obligation. intros c d U b [Hr _]. exact (cb_blocks _ d U b Hr). Qed.
Next Obligation. intros c d U b e [Hr _] E. exact (cb_entry _ d U b e Hr E). Qed.
Next Obligation.
  intros c d U b h [Hr Hx] Hh Hb HU. destruct (cb_read_law (BlockCacheLaws := bio_laws) (my_cache c) d U b h Hr Hh Hb HU) as (p & b' & E & Hp & He & Hr').
  exists p, (set_cache b' c). split; [exact (zoom_Ret _ _ _ _ _ _ _ _ E) |]. split; [reflexivity |]. split; [exact He |].
  split; [| exact Hx]. rewrite my_cache_set by exact Hp. exact Hr'.
Qed.
Next Obligation.
  intros c d U b e h [Hr Hx] Hh HU Ho. destruct (cb_write_law (BlockCacheLaws := bio_laws) (my_cache c) d U b e h Hr Hh HU Ho) as (b' & E & Hp & Hr').
  exists (set_cache b' c). split; [exact (cz_runs _ _ _ _ _ _ E) |]. split; [reflexivity |]. split; [| exact Hx]. rewrite my_cache_set by exact Hp. exact Hr'.
Qed.
Next Obligation.
  intros c d U b e h [Hr Hx] Hh HU Ho Hd. destruct (cb_relse_law (BlockCacheLaws := bio_laws) (my_cache c) d U b e h Hr Hh HU Ho Hd) as (tr & b' & E & Hw & Hp & Hr').
  exists tr, (set_cache b' c). split; [exact (cz_runs _ _ _ _ _ _ E) |]. split; [exact Hw |]. split; [reflexivity |]. split; [| exact Hx]. rewrite my_cache_set by exact Hp. exact Hr'.
Qed.
Next Obligation.
  intros c d U b e h [Hr Hx] Hh HU Hb. destruct (cb_pin_law (BlockCacheLaws := bio_laws) (my_cache c) d U b e h Hr Hh HU Hb) as (b' & E & Hp & Hr').
  exists (set_cache b' c). split; [exact (zoom_Ret _ _ _ _ _ _ _ _ E) |]. split; [reflexivity |]. split; [| exact Hx]. rewrite my_cache_set by exact Hp. exact Hr'.
Qed.
Next Obligation.
  intros c d U b e h [Hr Hx] Hh HU Hb. destruct (cb_unpin_law (BlockCacheLaws := bio_laws) (my_cache c) d U b e h Hr Hh HU Hb) as (b' & E & Hp & Hr').
  exists (set_cache b' c). split; [exact (zoom_Ret _ _ _ _ _ _ _ _ E) |]. split; [reflexivity |]. split; [| exact Hx]. rewrite my_cache_set by exact Hp. exact Hr'.
Qed.
Next Obligation.
  intros c d U b e v [Hr Hx] HU Ho Hv. destruct (cb_set_data_law (BlockCacheLaws := bio_laws) (my_cache c) d U b e v Hr HU Ho Hv) as [Hp Hr'].
  split; [reflexivity |]. split; [| exact Hx]. cbn [cb_set_data core_cache]. rewrite my_cache_set by exact Hp. exact Hr'.
Qed.

End core.

(** ** Pipes *)

Section kernel.
Context `{Layout} `{Symbols} `{Thread} {R : Type} `{UartRegs R}.
Abbreviation K := (kernel R).
Implicit Types k : K.

Lemma k_ps_set x k : k_ps (set_k_ps x k) = x.
Proof. reflexivity. Qed.

Lemma set_k_ps_eta k : set_k_ps (k_ps k) k = k.
Proof. destruct k as [[[c x] l b t] f dr dw p c' n]. reflexivity. Qed.

Lemma fupd_same {A} (f : Z -> A) a : (fun q => if q =? a then f a else f q) = f.
Proof. extensionality q. now destruct (Z.eqb_spec q a) as [-> |]. Qed.

#[export] Program Instance kernel_pipe_laws : PipeEnvLaws K.
Next Obligation. intros pi p k. cbn. now rewrite Z.eqb_refl. Qed.
Next Obligation. intros pi k. cbn. unfold set_kpipes. rewrite fupd_same. now destruct k. Qed.
Next Obligation. intros pi p p' k. cbn. unfold set_kpipes. cbn. f_equal. extensionality q. now destruct (q =? pi). Qed.
Next Obligation. reflexivity. Qed.
Next Obligation. reflexivity. Qed.
Next Obligation. intros pi p a b k. cbn. change (k_ps (set_kpipes _ k)) with (k_ps k). now destruct (user_poke a b (k_ps k)). Qed.
Next Obligation. intros pi a b k k'. cbn. destruct (user_poke a b (k_ps k)); [| discriminate]. now intros [= <-]. Qed.

(** ** Open files *)

Definition occurs (f : Z) (l : list Z) : Z := Z.of_nat (count_occ Z.eq_dec l f).

Lemma occurs_nil f : occurs f [] = 0.
Proof. reflexivity. Qed.
Lemma occurs_app f l l' : occurs f (l ++ l') = occurs f l + occurs f l'.
Proof. unfold occurs. rewrite count_occ_app. lia. Qed.
Lemma occurs_cons f g l : occurs f (g :: l) = (if f =? g then 1 else 0) + occurs f l.
Proof. unfold occurs. cbn [count_occ]. destruct (Z.eq_dec g f), (Z.eqb_spec f g); try congruence; lia. Qed.

Definition refs_room (r : Z -> Z) (low : Z) (l : list Z) : Prop := forall f, f ∈ l -> low <= r f /\ r f + Z.of_nat (length l) < 2 ^ 31.

(** The table of files with references added, and that of inodes. *)
Record refs_added (fs ns : list Z) (k k' : K) : Prop := {
  ra_files : forall f, ftable k' f = set_fref (f_ref (ftable k f) + occurs f fs) (ftable k f);
  ra_inodes : forall i, itable (kfs k') i = set_iref (i_ref (itable (kfs k) i) + occurs i ns) (itable (kfs k) i);
  ra_cache : kcache (bc (kfs k')) = kcache (bc (kfs k)) /\ lg (kfs k') = lg (kfs k) /\ sb (kfs k') = sb (kfs k);
  ra_rest : kpipes k' = kpipes k /\ kcons k' = kcons k /\ ticks k' = ticks k /\ devsw_read k' = devsw_read k /\ devsw_write k' = devsw_write k }.

Lemma set_fref_id f : set_fref (f_ref f + 0) f = f.
Proof. rewrite Z.add_0_r. now destruct f. Qed.
Lemma set_iref_id i : set_iref (i_ref i + 0) i = i.
Proof. rewrite Z.add_0_r. now destruct i. Qed.

Lemma filedup_run k h f : ftable_lock ∉ h -> 1 <= f_ref (ftable k f) < 2 ^ 31 - 1 -> exists k', filedup f h k = Ret f h k' /\ k_ps k' = k_ps k /\ refs_added [f] [] k k'.
Proof.
  intros Hh Hf. unfold filedup, getf, modf. krun. rewrite (proj2 (Z.ltb_ge _ 1)) by lia. krun. eexists. split; [reflexivity |]. split; [reflexivity |]. split; auto.
  - intros g. rewrite occurs_cons, occurs_nil. cbn [ftable set_ftable]. destruct (Z.eqb_spec g f) as [-> |]; [rewrite i32_small by lia; reflexivity | now rewrite set_fref_id].
  - intros i. now rewrite occurs_nil, set_iref_id.
Qed.

Lemma idup_run k h i : itable_lock ∉ h -> 0 <= i_ref (itable (kfs k) i) < 2 ^ 31 - 1 -> exists k', fsm (idup i) h k = Ret i h k' /\ k_ps k' = k_ps k /\ refs_added [] [i] k k'.
Proof.
  intros Hh Hi. unfold fsm. eexists. split.
  { apply zoom_Ret. unfold idup, modi. krun. reflexivity. }
  split; [reflexivity |]. split; auto.
  - intros f. now rewrite occurs_nil, set_fref_id.
  - intros j. rewrite occurs_cons, occurs_nil. cbn [kfs set_kfs itable mod_inode set_itable]. destruct (Z.eqb_spec j i) as [-> |]; [rewrite i32_small by lia; reflexivity | now rewrite set_iref_id].
Qed.

#[export] Program Instance kernel_file_laws : FileLaws K := {|
  can_dup k fs ns := refs_room (fun f => f_ref (ftable k f)) 1 fs /\ refs_room (fun i => i_ref (itable (kfs k) i)) 0 ns;
  dupped k k' fs ns := refs_added fs ns k k';
|}.
Next Obligation. reflexivity. Qed.
Next Obligation. exact set_k_ps_eta. Qed.
Next Obligation. reflexivity. Qed.
Next Obligation. intros k. split; auto; [intros f; now rewrite occurs_nil, set_fref_id | intros i; now rewrite occurs_nil, set_iref_id]. Qed.
Next Obligation. intros x k k' fs ns [H1' H2' H3' H4']. split; auto. Qed.
Next Obligation.
  intros k1 k2 k3 fs ns fs' ns' [A1 A2 (A3 & A4 & A5) (A6 & A7 & A8 & A9 & A10)] [B1 B2 (B3 & B4 & B5) (B6 & B7 & B8 & B9 & B10)]. split; try (split_and!; congruence).
  - intros f. rewrite B1, A1, occurs_app. cbn [f_ref set_fref]. now rewrite Z.add_assoc.
  - intros i. rewrite B2, A2, occurs_app. cbn [i_ref set_iref]. now rewrite Z.add_assoc.
Qed.
Next Obligation.
  intros h k f fs ns Hh [Hf Hn]. destruct (Hf f (list_elem_of_here _ _)) as [F1 F2]. cbn [length] in F2.
  destruct (filedup_run k h f Hh ltac:(lia)) as (k' & E & Hp & Ha). exists k'. split; [exact E |]. split; [exact Hp |]. split; [exact Ha |]. split.
  - intros g Hg. destruct (Hf g (list_elem_of_further _ _ _ Hg)) as [G1 G2]. cbn [length] in G2. cbv beta. rewrite (ra_files _ _ _ _ Ha), occurs_cons, occurs_nil. cbn [f_ref set_fref].
    destruct (g =? f); lia.
  - intros i Hi. cbv beta. rewrite (ra_inodes _ _ _ _ Ha), occurs_nil. cbn [i_ref set_iref]. rewrite Z.add_0_r. exact (Hn i Hi).
Qed.
Next Obligation.
  intros h k i ns Hh [_ Hn]. destruct (Hn i (list_elem_of_here _ _)) as [N1 N2]. cbn [length] in N2.
  destruct (idup_run k h i Hh ltac:(lia)) as (k' & E & Hp & Ha). exists k'. split; [exact E |]. split; [exact Hp |]. split; [exact Ha |]. split; [intros f Hf; inversion Hf |].
  intros j Hj. destruct (Hn j (list_elem_of_further _ _ _ Hj)) as [J1 J2]. cbn [length] in J2. cbv beta. rewrite (ra_inodes _ _ _ _ Ha), occurs_cons, occurs_nil. cbn [i_ref set_iref].
  destruct (j =? i); lia.
Qed.

End kernel.
