(* ===== verification/Guarantee.v ===== *)
(** * What code of the kernel leaves alone, also while it sleeps

    A call can sleep and go on when other threads have run.  [stays E m] says
    that [m] relates the states of the kernel by [E] from each point where it
    starts or goes on to the next one where it sleeps or returns: a guarantee
    to the other threads.  [quick m] says that it does not sleep.  The log, the file system, pipes, the console and the
    functions of proc.c leave the descriptors of processes alone. *)

From S2P Require Import Prelude KMonad Riscv Mem Printf Kalloc Vm Proc ProcFile.
From S2P Require Import Trace Console Pipe Sleeplock Bio BioSpec FsState Log Fs Kernel.

(** ** The calculus *)

(** Every stretch of [o] is within [E], the first one from [s0] on, and the
    result and its state satisfy [Q]; [b] says whether [o] may sleep. *)
Fixpoint within {S A} (b : bool) (E : S -> S -> Prop) (Q : A -> S -> Prop) (s0 : S) (o : outcome S A) : Prop :=
  match o with
  | Ret a _ s => E s0 s /\ Q a s
  | Emit _ o => within b E Q s0 o
  | Sleep _ s k => b = true /\ E s0 s /\ forall s', within b E Q s' (k s')
  | _ => True
  end.

Definition stays {S A} (b : bool) (E : S -> S -> Prop) (m : M S A) : Prop := forall h s, within b E (fun _ _ => True) s (m h s).

Section calculus.
Context {S : Type} (b : bool) (E : S -> S -> Prop) `{!PreOrder E}.

Lemma within_mono {A} (P Q : A -> S -> Prop) o : forall s0, (forall a s, P a s -> Q a s) -> within b E P s0 o -> within b E Q s0 o.
Proof. induction o; cbn; intros s0 HPQ Hw; auto; [destruct Hw; split; auto |]. destruct Hw as (Hb & He & Hk). split_and!; auto. Qed.

Lemma within_from {A} (Q : A -> S -> Prop) o : forall s0 s1, E s0 s1 -> within b E Q s1 o -> within b E Q s0 o.
Proof. induction o; cbn; intros s0 s1 H01 Hw; auto; [destruct Hw; split; auto; now transitivity s1 | eauto |]. destruct Hw as (Hb & He & Hk). split_and!; auto. now transitivity s1. Qed.

Lemma within_obind {A B} (P : A -> S -> Prop) (Q : B -> S -> Prop) (f : A -> M S B) o : forall s0,
  within b E P s0 o -> (forall a h s, P a s -> within b E Q s (f a h s)) -> within b E Q s0 (obind o f).
Proof.
  induction o; cbn; intros s0 Hw Hf; auto.
  - destruct Hw. eapply within_from; eauto.
  - destruct Hw as (Hb & He & Hk). split_and!; auto.
Qed.

Lemma within_bind {A B} (P : A -> S -> Prop) (Q : B -> S -> Prop) (m : M S A) (f : A -> M S B) h s :
  within b E P s (m h s) -> (forall a h' s', P a s' -> within b E Q s' (f a h' s')) -> within b E Q s (bind m f h s).
Proof. apply within_obind. Qed.

Lemma within_ret {A} (Q : A -> S -> Prop) a h s : Q a s -> within b E Q s (ret a h s).
Proof. split; [reflexivity | assumption]. Qed.

Lemma stays_bind {A B} (m : M S A) (f : A -> M S B) : stays b E m -> (forall a, stays b E (f a)) -> stays b E (bind m f).
Proof. intros Hm Hf h s. eapply within_bind; [apply Hm |]. intros a h' s' _. apply Hf. Qed.

Lemma stays_ret {A} (a : A) : stays b E (ret a).
Proof. split; [reflexivity | exact I]. Qed.
Lemma stays_get : stays b E get.
Proof. split; [reflexivity | exact I]. Qed.
Lemma stays_gets {A} (f : S -> A) : stays b E (gets f).
Proof. split; [reflexivity | exact I]. Qed.
Lemma stays_modify f : (forall s, E s (f s)) -> stays b E (modify f).
Proof. intros Hf h s. split; [apply Hf | exact I]. Qed.
Lemma stays_panic {A} msg : stays b E (@panic S A msg).
Proof. intros h s. exact I. Qed.
Lemma stays_fuel {A} : stays b E (@out_of_fuel S A).
Proof. intros h s. exact I. Qed.
Lemma stays_undef {A} : stays b E (@undef S A).
Proof. intros h s. exact I. Qed.
Lemma stays_emit e : stays b E (emit e).
Proof. split; [reflexivity | exact I]. Qed.
Lemma stays_wakeup c : stays b E (KMonad.wakeup c).
Proof. apply stays_emit. Qed.
Lemma stays_acquire l : stays b E (acquire l).
Proof. intros h s. unfold acquire. case_decide; split; [reflexivity | exact I]. Qed.
Lemma stays_release l : stays b E (release l).
Proof. intros h s. unfold release. case_decide; [split; [reflexivity | exact I] | exact I]. Qed.
Lemma stays_initlock l : stays b E (initlock l).
Proof. apply stays_ret. Qed.

Lemma stays_consputs l : stays b E (consputs l).
Proof.
  induction l as [|c l IH]; [apply stays_ret |]. cbn [consputs]. apply stays_bind; [| intros; exact IH].
  unfold consputc. case_match; repeat (apply stays_bind; [| intros]); apply stays_emit.
Qed.

Lemma stays_printf fmt ap : stays b E (printf fmt ap).
Proof.
  unfold printf. apply stays_bind; [apply stays_acquire | intros]. apply stays_bind; [| intros; apply stays_release].
  destruct (format fmt ap); [apply stays_consputs | apply stays_undef].
Qed.

Lemma stays_mono (E' : S -> S -> Prop) {A} (m : M S A) : (forall s s', E s s' -> E' s s') -> stays b E m -> stays b E' m.
Proof.
  intros He Hm h s. specialize (Hm h s). revert Hm. generalize (m h s) as o. intros o. revert s.
  induction o; cbn; auto; [intros s0 [H1 H2]; split; auto |]. intros s0 (H1 & H2 & H3). split_and!; auto.
Qed.

Lemma stays_sleeps {A} (m : M S A) : stays false E m -> stays true E m.
Proof.
  intros Hm h s. specialize (Hm h s). revert Hm. generalize (m h s) as o. intros o. revert s.
  induction o; cbn; auto. now intros s0 [? _].
Qed.
End calculus.

Lemma stays_sleep {S} (E : S -> S -> Prop) `{!PreOrder E} c l : stays true E (KMonad.sleep c l).
Proof.
  intros h s. unfold KMonad.sleep. case_decide; [| exact I]. destruct (remove_lock l h); [| exact I].
  split; [reflexivity |]. split; [reflexivity |]. intros s'. split; [reflexivity | exact I].
Qed.

(** A fact about the state that the guarantee preserves. *)
Lemma within_keep {S A} (E : S -> S -> Prop) (P : S -> Prop) (m : M S A) h s :
  stays false E m -> (forall s s', E s s' -> P s -> P s') -> P s -> within false E (fun _ => P) s (m h s).
Proof.
  intros Hm HP. specialize (Hm h s). revert Hm. generalize (m h s) as o. intros o. revert s.
  induction o; cbn; auto; [intros s0 [H1 _] Hs; split; [exact H1 | exact (HP s0 s H1 Hs)] | now intros s0 [? _]].
Qed.

Lemma within_weaken {S A} b (E E' : S -> S -> Prop) (Q : A -> S -> Prop) o : (forall s s', E s s' -> E' s s') -> forall s0, within b E Q s0 o -> within b E' Q s0 o.
Proof. intros He. induction o; cbn; auto; [intros s0 [H1 H2]; auto |]. intros s0 (H1 & H2 & H3). split_and!; auto. Qed.

(** Without sleep, the guarantee holds from the start to the end. *)
Lemma within_final {S A} (E : S -> S -> Prop) (Q : A -> S -> Prop) s o :
  within false E Q s o -> within false (fun _ _ => True) (fun a s' => E s s' /\ Q a s') s o.
Proof. induction o; cbn; auto. now intros [? _]. Qed.

Lemma within_pre {S A} (E : S -> S -> Prop) (P : S -> Prop) (m : M S A) h s :
  stays false E m -> (forall s s', E s s' -> P s -> P s') -> P s -> within false (fun _ _ => True) (fun _ => P) s (m h s).
Proof. intros Hm HP Hs. apply (within_weaken _ E); [auto | now apply within_keep]. Qed.

(** The code of one component inside a larger state. *)
Lemma stays_zoom {S T A} b (E1 : S -> S -> Prop) (E2 : T -> T -> Prop) (g : T -> S) (p : S -> T -> T) (m : M S A) :
  stays b E1 m -> (forall s t, E1 (g t) s -> E2 t (p s t)) -> stays b E2 (zoom g p m).
Proof.
  intros Hm Hp h t. unfold zoom. specialize (Hm h (g t)). revert Hm. generalize (m h (g t)) as o. intros o. revert t.
  induction o; cbn; auto; [intros t [H1 H2]; split; auto |]. intros t (H1 & H2 & H3). split_and!; auto.
Qed.

Lemma stays_true {S A} (m : M S A) : stays true (fun _ _ => True) m.
Proof. intros h s. generalize (m h s) as o. intros o. revert s. induction o; cbn; auto. Qed.

Lemma stays_frame {S T A} (E : T -> T -> Prop) (g : T -> S) (p : S -> T -> T) (m : M S A) :
  (forall s t, E t (p s t)) -> stays true E (zoom g p m).
Proof. intros Hp. eapply stays_zoom; [apply stays_true |]. auto. Qed.

(** Code that does not sleep, and nothing more. *)
Abbreviation quick m := (stays false (fun _ _ => True) m).

#[global] Instance true_preorder {S} : PreOrder (fun _ _ : S => True).
Proof. split; auto. Qed.

Create HintDb stays.

#[export] Hint Constants Opaque : stays.

Ltac stay_leaf :=
  lazymatch goal with
  | |- stays _ _ (ret _) => apply stays_ret
  | |- stays _ _ (gets _) => apply stays_gets
  | |- stays _ _ get => apply stays_get
  | |- stays _ _ (acquire _) => apply stays_acquire
  | |- stays _ _ (release _) => apply stays_release
  | |- stays _ _ (panic _) => apply stays_panic
  | |- stays _ _ out_of_fuel => apply stays_fuel
  | |- stays _ _ undef => apply stays_undef
  | |- stays _ _ (emit _) => apply stays_emit
  | |- stays _ _ (KMonad.wakeup _) => apply stays_wakeup
  | |- stays _ _ (initlock _) => apply stays_initlock
  | |- stays _ _ (KMonad.sleep _ _) => apply stays_sleep
  | |- stays _ _ (printf _ _) => apply stays_printf
  end; typeclasses eauto.

(** Go through the code of a function. *)
Ltac stay :=
  repeat lazymatch goal with
  | |- stays _ _ (bind _ _) => apply stays_bind; [typeclasses eauto | | intros ?]
  | |- stays _ _ (match ?x with _ => _ end) => destruct x
  | |- stays _ _ (let _ := _ in _) => cbv zeta
  | |- _ => first [solve [stay_leaf] | solve [auto with stays nocore] | solve [trivial]]
  end.

(** The rest of a function, whatever is known of its state. *)
Ltac plain :=
  match goal with |- within ?b ?E _ ?s (?m ?h ?s) => let Hm := fresh in cut (stays b E m); [intros Hm; exact (Hm h s) | stay] end.

(** ** Invariants

    [keeps J Q e o]: [e] is what the other threads have, [J e g] the invariant
    when the thread itself has [g].  When [o] sleeps, [J e g] holds for some [g];
    [o] goes on in any state with [J e' g], whatever the other threads then
    have.  When it returns, [Q] holds. *)

Fixpoint keeps {S W G A} (J : W -> G -> S -> Prop) (Q : A -> W -> S -> Prop) (e : W) (o : outcome S A) : Prop :=
  match o with
  | Ret a _ s => Q a e s
  | Emit _ o => keeps J Q e o
  | Sleep _ s k => exists g, J e g s /\ forall e' s', J e' g s' -> keeps J Q e' (k s')
  | _ => True
  end.

Section keeps.
Context {S W G : Type} (J : W -> G -> S -> Prop).

Lemma keeps_mono {A} (P Q : A -> W -> S -> Prop) o : (forall a e s, P a e s -> Q a e s) -> forall e, keeps J P e o -> keeps J Q e o.
Proof. intros HPQ. induction o as [| | | |v o IH|c s k IH]; intros e; cbn; auto. intros (g & Hg & Hk). exists g. auto. Qed.

Lemma keeps_obind {A B} (P : A -> W -> S -> Prop) (Q : B -> W -> S -> Prop) (f : A -> M S B) o : forall e,
  keeps J P e o -> (forall a e h s, P a e s -> keeps J Q e (f a h s)) -> keeps J Q e (obind o f).
Proof. induction o as [| | | |v o IH|c s k IH]; intros e Hp Hf; cbn in *; auto. destruct Hp as (g & Hg & Hk). exists g. auto. Qed.

Lemma keeps_bind {A B} (P : A -> W -> S -> Prop) (Q : B -> W -> S -> Prop) (m : M S A) (f : A -> M S B) e h s :
  keeps J P e (m h s) -> (forall a e' h' s', P a e' s' -> keeps J Q e' (f a h' s')) -> keeps J Q e (bind m f h s).
Proof. apply keeps_obind. Qed.

(** Code with a guarantee that preserves the invariant. *)
Lemma keeps_stays {A} (E : S -> S -> Prop) g (m : M S A) e h s :
  stays true E m -> (forall e s s', E s s' -> J e g s -> J e g s') -> J e g s -> keeps J (fun _ e => J e g) e (m h s).
Proof.
  intros Hm HJ. specialize (Hm h s). revert Hm. generalize (m h s) as o. intros o. revert e s.
  induction o as [a h0 s1| | | |v o IH|c s1 k IH]; cbn; intros e; auto; [intros s0 [H1 _]; exact (HJ _ _ _ H1) | apply IH |]. intros s0 (_ & H2 & H3) Hs. exists g. split; [eauto |]. intros e' s' Hs'. exact (IH s' e' s' (H3 s') Hs').
Qed.

(** Code that does not sleep, and a fact that it preserves. *)
Lemma keeps_quick {A} (E : S -> S -> Prop) (P : W -> S -> Prop) (m : M S A) e h s :
  stays false E m -> (forall s s', E s s' -> P e s -> P e s') -> P e s -> keeps J (fun _ => P) e (m h s).
Proof.
  intros Hm HP. specialize (Hm h s). revert Hm. generalize (m h s) as o. intros o. revert s.
  induction o; cbn; auto; [intros s0 [H1 _]; now apply HP | now intros s0 [? _]].
Qed.

Lemma keeps_zoom {T A} (E : T -> T -> Prop) (Q : A -> T -> Prop) (g : S -> T) (p : T -> S -> S) (m : M T A) e h s :
  within false E Q (g s) (m h (g s)) -> keeps J (fun a e' s' => e' = e /\ exists x, s' = p x s /\ Q a x) e (zoom g p m h s).
Proof. unfold zoom. generalize (g s) at 1. generalize (m h (g s)) as o. induction o; cbn; auto; [intros t [_ Hq]; eauto | now intros t [? _]]. Qed.
End keeps.

(** [ends Q o]: [o] does not return; when it gives up the processor for the last
    time, [Q] holds. *)
Fixpoint ends {S A} (Q : S -> Prop) (o : outcome S A) : Prop :=
  match o with
  | Ret _ _ _ => False
  | Emit _ o => ends Q o
  | Sleep _ s k => Q s /\ forall s', ends (fun _ => False) (k s')
  | _ => True
  end.

Lemma within_ends {S A B} (E : S -> S -> Prop) (P : A -> S -> Prop) (Q : S -> Prop) (m : M S A) (f : A -> M S B) h s :
  within false E P s (m h s) -> (forall a h' s', E s s' -> P a s' -> ends Q (f a h' s')) -> ends Q (bind m f h s).
Proof. unfold bind. generalize (m h s) as o. induction o; cbn; auto; [intros [? ?]; auto | now intros [? _]]. Qed.

Lemma keeps_ends {S W G T A} (J : W -> G -> S -> Prop) n (P : A -> W -> S -> Prop) (Q : T -> Prop) (g : S -> T) (p : T -> S -> S) (o : outcome T A) : forall e s,
  (forall x, Q x -> J e n (p x s)) -> ends Q o -> keeps J P e (ozoom g p o s).
Proof.
  revert Q. induction o as [a h0 s0| | | |v o IH|c x k IH]; intros Q e s HQ; cbn; try tauto; [apply IH, HQ |].
  intros [Hx Hk]. exists n. split; [now apply HQ |]. intros e' s' _. apply (IH (g s') (fun _ => False)); [tauto |]. apply Hk.
Qed.

(** ** Memory management does not sleep *)

Section quick.
Context `{Layout}.

Lemma quick_modify (f : phys -> phys) : quick (modify f).
Proof. now apply stays_modify. Qed.
Lemma quick_read64 a : quick (read64 a).
Proof. apply stays_gets, _. Qed.
Lemma quick_write64 a v : quick (write64 a v).
Proof. apply quick_modify. Qed.
Lemma quick_mset d c n : quick (mset d c n).
Proof. apply quick_modify. Qed.
#[local] Hint Resolve quick_modify quick_read64 quick_write64 quick_mset : stays.

Lemma quick_kfree pa : quick (kfree pa).
Proof. unfold kfree. stay. Qed.
Lemma quick_kalloc : quick kalloc.
Proof. unfold kalloc. stay. Qed.
Lemma quick_superalloc : quick superalloc.
Proof. unfold superalloc. stay. Qed.
Lemma quick_superfree pa : quick (superfree pa).
Proof. unfold superfree. stay. Qed.
#[local] Hint Resolve quick_kfree quick_kalloc quick_superalloc quick_superfree : stays.

Lemma quick_walk_loop level : forall pt va alloc, quick (walk_loop level pt va alloc).
Proof. induction level; intros; cbn [walk_loop]; stay. Qed.
Lemma quick_walk pt va alloc : quick (walk pt va alloc).
Proof. pose proof quick_walk_loop. unfold walk. stay. Qed.
Lemma quick_superwalk pt va alloc : quick (superwalk pt va alloc).
Proof. unfold superwalk. stay. Qed.
#[local] Hint Resolve quick_walk quick_superwalk : stays.

Lemma quick_walkaddr pt va : quick (walkaddr pt va).
Proof. unfold walkaddr. stay. Qed.
Lemma quick_mappages_loop fuel : forall pt a last pa perm, quick (mappages_loop fuel pt a last pa perm).
Proof. induction fuel; intros; cbn [mappages_loop]; stay. Qed.
#[local] Hint Resolve quick_walkaddr quick_mappages_loop : stays.
Lemma quick_mappages pt va size pa perm : quick (mappages pt va size pa perm).
Proof. unfold mappages. stay. Qed.
Lemma quick_supermappages pt va pa perm : quick (supermappages pt va pa perm).
Proof. unfold supermappages. stay. Qed.
Lemma quick_superpage_entry pt a : quick (superpage_entry pt a).
Proof. unfold superpage_entry. stay. Qed.
#[local] Hint Resolve quick_mappages quick_supermappages quick_superpage_entry : stays.

Lemma quick_uvmunmap_loop fuel : forall pt a last df, quick (uvmunmap_loop fuel pt a last df).
Proof. induction fuel; intros; cbn [uvmunmap_loop]; stay. Qed.
#[local] Hint Resolve quick_uvmunmap_loop : stays.
Lemma quick_uvmunmap pt va n df : quick (uvmunmap pt va n df).
Proof. unfold uvmunmap. stay. Qed.
Lemma quick_uvmcreate : quick uvmcreate.
Proof. unfold uvmcreate. stay. Qed.
#[local] Hint Resolve quick_uvmunmap quick_uvmcreate : stays.

Lemma quick_freewalk_entries rec k : (forall pt, quick (rec pt)) -> forall pt i, quick (freewalk_entries rec k pt i).
Proof. intros Hr. induction k; intros; cbn [freewalk_entries]; stay. Qed.
Lemma quick_freewalk fuel : forall pt, quick (freewalk fuel pt).
Proof. induction fuel; intros; cbn [freewalk]; [stay |]. pose proof (quick_freewalk_entries (freewalk fuel)). stay. Qed.
#[local] Hint Resolve quick_freewalk : stays.
Lemma quick_uvmfree pt n : quick (uvmfree pt n).
Proof. unfold uvmfree. stay. Qed.
Lemma quick_copyout_loop fuel : forall pt va src, quick (copyout_loop fuel pt va src).
Proof. induction fuel; intros; cbn [copyout_loop]; stay. Qed.
#[local] Hint Resolve quick_uvmfree quick_copyout_loop : stays.
Lemma quick_copyout pt va src : quick (copyout pt va src).
Proof. unfold copyout. stay. Qed.
Lemma quick_uvmcopy_loop fuel : forall old new i n, quick (uvmcopy_loop fuel old new i n).
Proof. induction fuel; intros; cbn [uvmcopy_loop]; unfold uvmcopy_err; stay. Qed.
Lemma quick_uvmcopy old new n : quick (uvmcopy old new n).
Proof. unfold uvmcopy. apply quick_uvmcopy_loop. Qed.
Lemma quick_user_pagetable tf : quick (user_pagetable tf).
Proof. unfold user_pagetable. stay. Qed.
Lemma quick_proc_freepagetable pt n : quick (proc_freepagetable pt n).
Proof. unfold proc_freepagetable. stay. Qed.

End quick.

#[export] Hint Resolve quick_kfree quick_kalloc quick_copyout quick_uvmcopy quick_user_pagetable quick_proc_freepagetable quick_write64 : stays.

(** ** Descriptors *)

(** A process without a thread. *)
Definition dead (p : proc) : Prop := state p = UNUSED \/ state p = ZOMBIE.

#[global] Instance dead_dec p : Decision (dead p).
Proof. unfold dead. apply _. Defined.

(** The descriptors stay, and no process dies or comes to life. *)
Definition same_fds (x x' : psys) : Prop :=
  forall i, ofile (procs x' i) = ofile (procs x i) /\ (dead (procs x' i) <-> dead (procs x i)).

#[global] Instance same_fds_preorder : PreOrder same_fds.
Proof.
  split; [intros x i; now split |]. intros x y z Hxy Hyz i. destruct (Hxy i) as [E1 D1], (Hyz i) as [E2 D2].
  split; [congruence | tauto].
Qed.

Lemma same_fds_procs x x' : procs x' = procs x -> same_fds x x'.
Proof. intros E i. now rewrite E. Qed.

Lemma same_fds_upd p f x : ofile (f (procs x p)) = ofile (procs x p) -> (dead (f (procs x p)) <-> dead (procs x p)) -> same_fds x (upd_proc p f x).
Proof. intros E D i. cbn. destruct (Z.eqb_spec i p) as [-> |]; [now split | now split]. Qed.

Section procs.
Context `{Layout} `{Symbols}.

Lemma stays_vm {A} (m : M phys A) : stays true same_fds (vm m).
Proof. apply stays_frame. intros s t. now apply same_fds_procs. Qed.
Lemma quick_vm {A} (m : M phys A) : quick m -> stays false same_fds (vm m).
Proof. intros Hm. eapply stays_zoom; [exact Hm |]. intros s t _. now apply same_fds_procs. Qed.

Lemma stays_modproc b p f : (forall x, ofile (f x) = ofile x /\ (dead (f x) <-> dead x)) -> stays b same_fds (modproc p f).
Proof. intros Hf. apply stays_modify. intros s. apply same_fds_upd; apply Hf. Qed.

Lemma stays_getproc b p : stays b same_fds (getproc p).
Proof. apply stays_gets, _. Qed.

#[local] Hint Resolve stays_vm quick_vm stays_getproc : stays.
#[local] Hint Extern 1 (stays _ _ (modproc _ _)) => (apply stays_modproc; intros ?; split; reflexivity) : stays.

Lemma stays_killed b p : stays b same_fds (Proc.killed p).
Proof. unfold Proc.killed. stay. Qed.
Lemma stays_growproc me n : stays true same_fds (growproc me n).
Proof. unfold growproc. stay. Qed.
Lemma stays_proc_pagetable p : stays false same_fds (proc_pagetable p).
Proof. unfold proc_pagetable. stay. Qed.
Lemma stays_swtch : stays true same_fds swtch.
Proof. intros h s. split; [reflexivity |]. split; [reflexivity |]. intros s'. split; [reflexivity | exact I]. Qed.
Lemma stays_sched me : stays true same_fds (sched me).
Proof. intros h s. unfold sched. repeat case_match; try exact I. apply stays_swtch. Qed.

Lemma dead_same p x x' : same_fds x x' -> dead (procs x p) -> dead (procs x' p).
Proof. intros E. apply E. Qed.

(** A process that is dead stays so. *)
Lemma freeproc_within p h s : dead (procs s p) -> within false same_fds (fun _ _ => True) s (freeproc p h s).
Proof.
  intros Hd. unfold freeproc.
  repeat (eapply within_bind; [typeclasses eauto | apply (within_keep same_fds (fun s => dead (procs s p))); [stay | apply dead_same | eassumption] |]; clear h s Hd; intros ? h s Hd).
  split; [| exact I]. apply same_fds_upd; [reflexivity |]. split; [intros _; exact Hd | now left].
Qed.

Lemma stays_wait_scan me addr l : forall hk, stays false same_fds (wait_scan me addr hk l).
Proof.
  induction l as [|pp l IH]; intros hk; cbn [wait_scan]; [stay |]. apply stays_bind; [typeclasses eauto | stay | intros x].
  destruct (parent x =? me); [| apply IH]. apply stays_bind; [typeclasses eauto | stay | intros _].
  intros h s. unfold getproc. rewrite bind_gets. case_decide as Hz; [| plain].
  rewrite bind_gets. eapply within_bind; [typeclasses eauto | apply (within_keep same_fds (fun s => dead (procs s pp))); [stay | apply dead_same | now right] |].
  intros r h1 s1 Hd. destruct (r <? 0); [plain |].
  eapply within_bind; [typeclasses eauto | apply freeproc_within, Hd |]. intros _ h2 s2 _. plain.
Qed.

(** The guarantee of code that the process [me] runs. *)
Definition same_fds_if (me : Z) (x x' : psys) : Prop := ~ dead (procs x me) -> same_fds x x'.

#[export] Instance same_fds_if_preorder me : PreOrder (same_fds_if me).
Proof.
  split; [intros x _; reflexivity |]. intros x y z Hxy Hyz Hx. specialize (Hxy Hx). transitivity y; [exact Hxy |]. apply Hyz.
  intros Hd. apply Hx. now apply Hxy.
Qed.

Lemma stays_if {A} b me (m : M psys A) : stays b same_fds m -> stays b (same_fds_if me) m.
Proof. apply stays_mono. now intros s s' He _. Qed.

Lemma stays_sleep_proc me c lk : stays true (same_fds_if me) (Proc.sleep me c lk).
Proof.
  unfold Proc.sleep. do 3 (apply stays_bind; [typeclasses eauto | apply stays_if; stay | intros _]).
  apply stays_bind; [typeclasses eauto | | intros _].
  - apply stays_modify. intros s Ha. apply same_fds_upd; [reflexivity |]. split; [now intros [] | contradiction].
  - apply stays_if. pose proof stays_sched. stay.
Qed.

Lemma stays_wait_loop me fuel : forall addr, stays true (same_fds_if me) (wait_loop me fuel addr).
Proof.
  induction fuel as [|fuel IH]; intros addr; cbn [wait_loop]; (apply stays_bind; [typeclasses eauto | apply stays_if, stays_sleeps, stays_wait_scan | intros [v|hk]]; [stay |]);
    (apply stays_bind; [typeclasses eauto | apply stays_if; pose proof stays_killed; stay | intros k]; destruct (negb (k =? 0)); [stay |]); [stay |].
  apply stays_bind; [typeclasses eauto | apply stays_sleep_proc | intros _; apply IH].
Qed.

Lemma stays_wait me fuel addr : stays true (same_fds_if me) (wait me fuel addr).
Proof. unfold wait. pose proof stays_wait_loop. stay. Qed.

Lemma stays_kill_loop n l : stays true same_fds (kill_loop n l).
Proof.
  induction l as [|p l IH]; cbn [kill_loop]; [stay |]. apply stays_bind; [typeclasses eauto | stay | intros _].
  intros h s. unfold getproc. rewrite bind_gets. destruct (pid (procs s p) =? n).
  - eapply within_bind; [typeclasses eauto | apply (within_mono _ _ (fun _ s' => state (procs s' p) = state (procs s p))); [intros ? ? Hs; exact Hs | split] |].
    + apply same_fds_upd; reflexivity.
    + cbn. now rewrite Z.eqb_refl.
    + intros [] h1 s1 Es. apply (within_bind true same_fds (fun _ _ => True)); [| intros _ h2 s2 _; plain].
      case_decide as Hsl; [| apply within_ret; [typeclasses eauto | exact I]]. split; [| exact I]. apply same_fds_upd; [reflexivity |].
      split; [now intros [] |]. unfold dead. rewrite Es, Hsl. now intros [].
  - plain.
Qed.

Lemma stays_kill n : stays true same_fds (kill n).
Proof. apply stays_kill_loop. Qed.

Lemma stays_wakeup_loop b me c l : stays b same_fds (wakeup_loop me c l).
Proof.
  induction l as [|p l IH]; cbn [wakeup_loop]; [stay |]. apply stays_bind; [typeclasses eauto | | intros _; exact IH].
  destruct (negb (p =? me)); [| stay]. apply stays_bind; [typeclasses eauto | stay | intros _].
  intros h s. unfold getproc. rewrite bind_gets. apply (within_bind b same_fds (fun _ _ => True)); [| intros [] h2 s2 _; plain].
  case_decide as Hsl; [| apply within_ret; [typeclasses eauto | exact I]]. split; [| exact I]. apply same_fds_upd; [reflexivity |].
  split; [now intros [] |]. unfold dead. destruct Hsl as [-> _]. now intros [].
Qed.

Lemma stays_reparent b me p : stays b same_fds (reparent me p).
Proof.
  unfold reparent. induction all_procs as [|pp l IH]; cbn [reparent_loop]; [stay |]. pose proof stays_wakeup_loop. unfold Proc.wakeup. stay.
Qed.

(** ** Creating a process *)

(** Only whether [np] is alive changes. *)
Definition same_but (np : Z) (x x' : psys) : Prop :=
  forall i, ofile (procs x' i) = ofile (procs x i) /\ (i <> np -> dead (procs x' i) <-> dead (procs x i)).

#[export] Instance same_but_preorder np : PreOrder (same_but np).
Proof.
  split; [intros x i; now split |]. intros x y z Hxy Hyz i. destruct (Hxy i) as [E1 D1], (Hyz i) as [E2 D2].
  split; [congruence |]. intros Hn. specialize (D1 Hn). specialize (D2 Hn). tauto.
Qed.

Lemma same_same_but np x x' : same_fds x x' -> same_but np x x'.
Proof. intros E i. destruct (E i). now split. Qed.

Lemma stays_but {A} b np (m : M psys A) : stays b same_fds m -> stays b (same_but np) m.
Proof. apply stays_mono. apply same_same_but. Qed.

Lemma stays_but_modproc b np f : (forall x, ofile (f x) = ofile x) -> stays b (same_but np) (modproc np f).
Proof.
  intros Hf. apply stays_modify. intros x i. cbn. destruct (Z.eqb_spec i np) as [-> |]; [| now split]. split; [apply Hf |]. now intros [].
Qed.

Lemma freeproc_dead np h s : within false (same_but np) (fun _ s' => dead (procs s' np)) s (freeproc np h s).
Proof.
  unfold freeproc. repeat (eapply (within_bind _ _ (fun _ _ => True)); [match goal with |- within ?b ?E _ ?s (?m ?h ?s) => assert (Hm : stays b E m) by first [apply stays_but_modproc; reflexivity | apply stays_but; stay]; exact (Hm h s) end |]; clear h s; intros ? h s _).
  split; [| left; cbn; now rewrite Z.eqb_refl]. intros i. cbn. destruct (Z.eqb_spec i np) as [-> |]; [| now split]. split; [reflexivity |]. now intros [].
Qed.

(** The process that [find_unused] returns. *)
Lemma find_unused_within l h s :
  within false eq (fun np s' => s' = s /\ (np = 0 \/ np ∈ l /\ state (procs s np) = UNUSED)) s (find_unused l h s).
Proof.
  revert h. induction l as [|p l IH]; intros h; cbn [find_unused]; [split; [reflexivity |]; split; [reflexivity | now left] |].
  unfold acquire, bind at 1. case_decide; [exact I |]. cbn [obind]. unfold getproc. rewrite bind_gets.
  case_decide as Hu; [split; [reflexivity |]; split; [reflexivity |]; right; split; [apply list_elem_of_here | exact Hu] |].
  rewrite bind_Ret with (1 := release_top _ _ _). eapply within_mono; [| apply IH]. intros np s' [-> [-> | [Hin Hs]]]; split; auto.
  right. split; [now apply list_elem_of_further | exact Hs].
Qed.

Lemma stays_allocpid b : stays b same_fds allocpid.
Proof. unfold allocpid. stay. apply stays_modify. intros s. now apply same_fds_procs. Qed.

Definition newborn (s : psys) (np : Z) (s' : psys) : Prop := same_but np s s' /\ ~ dead (procs s' np).

Lemma newborn_same s np x x' : same_fds x x' -> newborn s np x -> newborn s np x'.
Proof. intros E [Hs Hd]. split; [transitivity x; [exact Hs | now apply same_same_but] |]. intros Hd'. apply Hd. now apply E. Qed.

Lemma newborn_gone s np x x' : newborn s np x -> dead (procs s np) -> same_but np x x' -> dead (procs x' np) -> same_fds s x'.
Proof.
  intros [Hs _] Hd Hx Hd' i. destruct (Hs i) as [E1 D1], (Hx i) as [E2 D2]. split; [congruence |]. destruct (decide (i = np)) as [-> | Hn]; [tauto |].
  specialize (D1 Hn). specialize (D2 Hn). tauto.
Qed.

(** [allocproc] returns a process that was unused, or changes nothing that
    matters here. *)
Definition allocated_proc (s : psys) (np : Z) (s' : psys) : Prop :=
  np = 0 /\ same_fds s s' \/ np ∈ all_procs /\ dead (procs s np) /\ newborn s np s'.

Lemma freeproc_gone s np h x (A : Type) (r : A) : newborn s np x -> dead (procs s np) ->
  within false (fun _ _ => True) (fun a x' => a = r /\ same_fds s x') x ((freeproc np;; release (proc_lock np);; ret r) h x).
Proof.
  intros Hx Hd. apply (within_bind _ _ (fun _ x' => same_fds s x')).
  - eapply within_mono; [| apply within_final, freeproc_dead]. intros _ x' [H1 H2]. exact (newborn_gone _ _ _ _ Hx Hd H1 H2).
  - intros [] h' x' Hs. apply (within_bind _ _ (fun _ x' => same_fds s x')); [| intros [] h2 x2 H2; split; [exact I | split; [reflexivity | exact H2]]].
    apply (within_pre same_fds); [stay | intros y y' E Hy; now transitivity y | exact Hs].
Qed.

Ltac newborn_step Hx :=
  match type of Hx with newborn ?s ?np _ => apply (within_bind _ _ (fun _ => newborn s np)); [apply (within_pre same_fds); [pose proof stays_proc_pagetable; stay | intros ? ?; apply newborn_same | exact Hx] |] end.

Lemma allocproc_within h s : within false (fun _ _ => True) (allocated_proc s) s (allocproc h s).
Proof.
  unfold allocproc. eapply (within_bind _ _ (fun np s' => s' = s /\ (np = 0 \/ np ∈ all_procs /\ state (procs s np) = UNUSED))); [apply (within_weaken _ eq); [auto | apply find_unused_within] |].
  clear h. intros np h s1 [-> [-> | [Hin Hu]]]; [split; [exact I | left; now split] |]. assert (Hd : dead (procs s np)) by now left.
  assert (Hnz : (np =? 0) = false) by (apply elem_of_seqZ in Hin; apply Z.eqb_neq; lia). rewrite Hnz.
  apply (within_bind _ _ (fun _ x => same_but np s x)); [apply (within_pre same_fds); [apply stays_allocpid | intros x x' E Hx; transitivity x; [exact Hx | now apply same_same_but] | reflexivity] |].
  clear h. intros n h x Hx. apply (within_bind _ _ (fun _ x => same_but np s x)); [apply (within_pre same_fds); [stay | intros y y' E Hy; transitivity y; [exact Hy | now apply same_same_but] | exact Hx] |].
  clear h x Hx. intros [] h x Hx. apply (within_bind _ _ (fun _ => newborn s np)).
  { split; [exact I |]. split; [| cbn; rewrite Z.eqb_refl; now intros []]. transitivity x; [exact Hx |]. intros i. cbn. destruct (Z.eqb_spec i np) as [-> |]; [| now split]. split; [reflexivity |]. now intros []. }
  clear h x Hx. intros [] h x Hx. do 2 (newborn_step Hx; clear h x Hx; intros ? h x Hx).
  match goal with |- within _ _ _ _ ((if ?b then _ else _) _ _) => destruct b end; [eapply within_mono; [| now apply (freeproc_gone s)]; intros r y [-> Hy]; left; now split |].
  do 2 (newborn_step Hx; clear h x Hx; intros ? h x Hx).
  match goal with |- within _ _ _ _ ((if ?b then _ else _) _ _) => destruct b end; [eapply within_mono; [| now apply (freeproc_gone s)]; intros r y [-> Hy]; left; now split |].
  do 2 (newborn_step Hx; clear h x Hx; intros ? h x Hx). split; [exact I |]. right. now split.
Qed.

End procs.

(** ** The log and the file system *)

Definition fs_same (s s' : fsys core) : Prop := same_fds (fs_ps s) (fs_ps s').

#[global] Instance fs_same_preorder : PreOrder fs_same.
Proof. split; [intros s; unfold fs_same; reflexivity |]. intros x y z. unfold fs_same. apply transitivity. Qed.

Section fs.
Context `{Layout} `{Thread}.

Lemma stays_cache {A} (m : M bcache A) : stays true fs_same (zoom bc set_bc (cz m)).
Proof. eapply (stays_zoom _ (fun c c' => kps c' = kps c)); [apply stays_frame; reflexivity |]. intros c t E. apply same_fds_procs. unfold fs_ps. cbn. now rewrite E. Qed.

Lemma stays_bread dev b : stays true fs_same (FsState.bread dev b).
Proof. apply stays_cache. Qed.
Lemma stays_bwrite b : stays true fs_same (FsState.bwrite b).
Proof. apply stays_cache. Qed.
Lemma stays_brelse b : stays true fs_same (FsState.brelse b).
Proof. apply stays_cache. Qed.
Lemma stays_bpin b : stays true fs_same (FsState.bpin b).
Proof. apply stays_cache. Qed.
Lemma stays_bunpin b : stays true fs_same (FsState.bunpin b).
Proof. apply stays_cache. Qed.
Lemma stays_bdata b : stays true fs_same (bdata b).
Proof. apply stays_gets, _. Qed.
Lemma stays_bno b : stays true fs_same (bno b).
Proof. apply stays_gets, _. Qed.
Lemma stays_bset b v : stays true fs_same (bset b v).
Proof. apply stays_modify. intros s. now apply same_fds_procs. Qed.
Lemma stays_getlog {A} (f : log -> A) : stays true fs_same (getlog f).
Proof. apply stays_gets, _. Qed.
Lemma stays_modlog f : stays true fs_same (modlog f).
Proof. apply stays_modify. intros s. now apply same_fds_procs. Qed.
Lemma stays_geti p : stays true fs_same (geti p).
Proof. apply stays_gets, _. Qed.
Lemma stays_getsb : stays true fs_same getsb.
Proof. apply stays_gets, _. Qed.
Lemma stays_modi p f : stays true fs_same (modi p f).
Proof. apply stays_modify. intros s. now apply same_fds_procs. Qed.
#[local] Hint Resolve stays_bread stays_bwrite stays_brelse stays_bpin stays_bunpin stays_bdata stays_bno stays_bset stays_getlog stays_modlog stays_geti stays_getsb stays_modi : stays.

Lemma stays_lh_get i : stays true fs_same (lh_get i).
Proof. unfold lh_get. stay. Qed.
Lemma stays_lh_set i b : stays true fs_same (lh_set i b).
Proof. unfold lh_set. stay. Qed.
#[local] Hint Resolve stays_lh_get stays_lh_set : stays.

Lemma stays_install_trans_loop k : forall tail r, stays true fs_same (install_trans_loop k tail r).
Proof. induction k; intros; cbn [install_trans_loop]; stay. Qed.
Lemma stays_write_head_loop k : forall i b, stays true fs_same (write_head_loop k i b).
Proof. induction k; intros; cbn [write_head_loop]; stay. Qed.
Lemma stays_write_log_loop k : forall tail, stays true fs_same (write_log_loop k tail).
Proof. induction k; intros; cbn [write_log_loop]; stay. Qed.
Lemma stays_begin_op_loop fuel : stays true fs_same (begin_op_loop fuel).
Proof. induction fuel; cbn [begin_op_loop]; stay. Qed.
#[local] Hint Resolve stays_install_trans_loop stays_write_head_loop stays_write_log_loop stays_begin_op_loop : stays.

Lemma stays_install_trans r : stays true fs_same (install_trans r).
Proof. unfold install_trans. stay. Qed.
Lemma stays_write_head : stays true fs_same write_head.
Proof. unfold write_head. stay. Qed.
Lemma stays_write_log : stays true fs_same write_log.
Proof. unfold write_log. stay. Qed.
#[local] Hint Resolve stays_install_trans stays_write_head stays_write_log : stays.
Lemma stays_commit : stays true fs_same commit.
Proof. unfold commit. stay. Qed.
Lemma stays_begin_op : stays true fs_same begin_op.
Proof. unfold begin_op. stay. Qed.
#[local] Hint Resolve stays_commit stays_begin_op : stays.
Lemma stays_end_op : stays true fs_same end_op.
Proof. unfold end_op. stay. Qed.
Lemma stays_log_write b : stays true fs_same (log_write b).
Proof. unfold log_write. stay. Qed.
#[local] Hint Resolve stays_end_op stays_log_write : stays.

Lemma stays_bzero dev b : stays true fs_same (bzero dev b).
Proof. unfold bzero. stay. Qed.
#[local] Hint Resolve stays_bzero : stays.
Lemma stays_balloc_loop fuel : forall dev b, stays true fs_same (balloc_loop fuel dev b).
Proof. induction fuel; intros; cbn [balloc_loop]; stay. Qed.
#[local] Hint Resolve stays_balloc_loop : stays.
Lemma stays_balloc dev : stays true fs_same (balloc dev).
Proof. unfold balloc. stay. Qed.
Lemma stays_bfree dev b : stays true fs_same (bfree dev b).
Proof. unfold bfree. stay. Qed.
Lemma stays_iget_loop k : forall p e dev inum, stays true fs_same (iget_loop k p e dev inum).
Proof. induction k; intros; cbn [iget_loop]; stay. Qed.
#[local] Hint Resolve stays_balloc stays_bfree stays_iget_loop : stays.
Lemma stays_iget dev inum : stays true fs_same (iget dev inum).
Proof. unfold iget. stay. Qed.
Lemma stays_idup b ip : stays b fs_same (idup ip).
Proof. unfold idup. repeat (apply stays_bind; [typeclasses eauto | first [solve [stay] | apply stays_modify; intros s; now apply same_fds_procs] | intros ?]). stay. Qed.
#[local] Hint Resolve stays_iget stays_idup : stays.
Lemma stays_ialloc_loop fuel : forall dev type inum, stays true fs_same (ialloc_loop fuel dev type inum).
Proof. induction fuel; intros; cbn [ialloc_loop]; stay. Qed.
#[local] Hint Resolve stays_ialloc_loop : stays.
Lemma stays_ialloc dev type : stays true fs_same (ialloc dev type).
Proof. unfold ialloc. stay. Qed.
Lemma stays_iupdate ip : stays true fs_same (iupdate ip).
Proof. unfold iupdate. stay. Qed.

Lemma stays_acquiresleep_loop fuel lk : stays true fs_same (acquiresleep_loop fuel lk).
Proof. induction fuel; cbn [acquiresleep_loop]; stay. Qed.
Lemma stays_slput lk l : stays true fs_same (modify (sl_put lk l)).
Proof. apply stays_modify. intros s. now apply same_fds_procs. Qed.
#[local] Hint Resolve stays_ialloc stays_iupdate stays_acquiresleep_loop stays_slput : stays.
Lemma stays_acquiresleep lk : stays true fs_same (acquiresleep lk).
Proof. unfold acquiresleep. stay. Qed.
Lemma stays_releasesleep lk : stays true fs_same (releasesleep lk).
Proof. unfold releasesleep. stay. Qed.
Lemma stays_holdingsleep lk : stays true fs_same (holdingsleep lk).
Proof. unfold holdingsleep. stay. Qed.
#[local] Hint Resolve stays_acquiresleep stays_releasesleep stays_holdingsleep : stays.
Lemma stays_ilock ip : stays true fs_same (ilock ip).
Proof. unfold ilock. stay. Qed.
Lemma stays_iunlock ip : stays true fs_same (iunlock ip).
Proof. unfold iunlock. stay. Qed.
Lemma stays_set_addr ip i a : stays true fs_same (set_addr ip i a).
Proof. unfold set_addr. stay. Qed.
#[local] Hint Resolve stays_ilock stays_iunlock stays_set_addr : stays.
Lemma stays_bmap ip bn : stays true fs_same (bmap ip bn).
Proof. unfold bmap. stay. Qed.
Lemma stays_itrunc_direct k : forall ip i, stays true fs_same (itrunc_direct k ip i).
Proof. induction k; intros; cbn [itrunc_direct]; stay. Qed.
Lemma stays_itrunc_indirect k : forall dev bp j, stays true fs_same (itrunc_indirect k dev bp j).
Proof. induction k; intros; cbn [itrunc_indirect]; stay. Qed.
#[local] Hint Resolve stays_bmap stays_itrunc_direct stays_itrunc_indirect : stays.
Lemma stays_itrunc ip : stays true fs_same (itrunc ip).
Proof. unfold itrunc. stay. Qed.
#[local] Hint Resolve stays_itrunc : stays.
Lemma stays_iput ip : stays true fs_same (iput ip).
Proof. unfold iput. stay. Qed.
#[local] Hint Resolve stays_iput : stays.
Lemma stays_iunlockput ip : stays true fs_same (iunlockput ip).
Proof. unfold iunlockput. stay. Qed.
Lemma stays_stati ip : stays true fs_same (stati ip).
Proof. unfold stati. stay. Qed.
#[local] Hint Resolve stays_iunlockput stays_stati : stays.

Lemma stays_user {A} (m : M psys A) : stays true same_fds m -> stays true fs_same (zoom fs_ps set_fs_ps m).
Proof. intros Hm. eapply stays_zoom; [exact Hm |]. now intros s t E. Qed.

Lemma stays_either_copyout dst tot bytes : stays true fs_same (either_copyout dst tot bytes).
Proof. unfold either_copyout. destruct dst; [stay |]. apply stays_user. pose proof @stays_vm. stay. Qed.
Lemma stays_either_copyin src tot m : stays true fs_same (either_copyin src tot m).
Proof. unfold either_copyin. destruct src; [stay |]. apply stays_user. pose proof @stays_vm. stay. Qed.
#[local] Hint Resolve stays_either_copyout stays_either_copyin : stays.

Lemma stays_readi_loop fuel : forall ip dst off n tot acc, stays true fs_same (readi_loop fuel ip dst off n tot acc).
Proof. induction fuel; intros; cbn [readi_loop]; stay. Qed.
Lemma stays_writei_loop fuel : forall ip src off n tot, stays true fs_same (writei_loop fuel ip src off n tot).
Proof. induction fuel; intros; cbn [writei_loop]; stay. Qed.
#[local] Hint Resolve stays_readi_loop stays_writei_loop : stays.
Lemma stays_readi ip dst off n : stays true fs_same (readi ip dst off n).
Proof. unfold readi. stay. Qed.
Lemma stays_writei ip src off n : stays true fs_same (writei ip src off n).
Proof. unfold writei. stay. Qed.
#[local] Hint Resolve stays_readi stays_writei : stays.
Lemma stays_dirlookup_loop fuel : forall dp name off, stays true fs_same (dirlookup_loop fuel dp name off).
Proof. induction fuel; intros; cbn [dirlookup_loop]; stay. Qed.
Lemma stays_dirlink_loop fuel : forall dp off, stays true fs_same (dirlink_loop fuel dp off).
Proof. induction fuel; intros; cbn [dirlink_loop]; stay. Qed.
#[local] Hint Resolve stays_dirlookup_loop stays_dirlink_loop : stays.
Lemma stays_dirlookup dp name : stays true fs_same (dirlookup dp name).
Proof. unfold dirlookup. stay. Qed.
#[local] Hint Resolve stays_dirlookup : stays.
Lemma stays_dirlink dp name inum : stays true fs_same (dirlink dp name inum).
Proof. unfold dirlink. stay. Qed.
Lemma stays_namex_loop fuel : forall ip path name np, stays true fs_same (namex_loop fuel ip path name np).
Proof. induction fuel; intros; cbn [namex_loop]; stay. Qed.
#[local] Hint Resolve stays_namex_loop : stays.
Lemma stays_namex path np : stays true fs_same (namex path np).
Proof. unfold namex. stay. Qed.
#[local] Hint Resolve stays_namex : stays.
Lemma stays_namei path : stays true fs_same (namei path).
Proof. unfold namei. stay. Qed.
Lemma stays_nameiparent path : stays true fs_same (nameiparent path).
Proof. unfold nameiparent. stay. Qed.

End fs.

#[export] Hint Resolve stays_begin_op stays_end_op stays_idup stays_ialloc stays_iupdate stays_ilock stays_iunlock stays_itrunc stays_iput stays_iunlockput stays_stati
  stays_readi stays_writei stays_dirlookup stays_dirlink stays_namei stays_nameiparent stays_geti stays_modi : stays.
