(* ===== verification/FileRefs.v ===== *)
(** * Descriptors and reference counts of open files

    Every system call of every process, at each point where it sleeps and when
    it returns, leaves the number of references of each open file equal to the
    number of descriptors that refer to it. *)

From S2P Require Import Prelude KMonad Riscv Mem Printf Kalloc Vm Proc ProcFile.
From S2P Require Import Trace Console Pipe Sleeplock Bio BioSpec FsState Log Fs ConsoleSpec ProcBoot Kernel File Sysfile Exec Syscall KernelLaws Guarantee.

(** ** Calls that touch neither descriptors nor reference counts *)

Section frame.
Context `{Layout} `{Symbols} `{Thread} {R : Type} `{UartRegs R}.
Abbreviation K := (kernel R).

Definition k_same (k k' : K) : Prop :=
  ~ dead (procs (k_ps k) myproc) -> same_fds (k_ps k) (k_ps k') /\ forall f, f_ref (ftable k' f) = f_ref (ftable k f).

#[export] Instance k_same_preorder : PreOrder k_same.
Proof.
  split; [intros k _; now split |]. intros x y z Hxy Hyz Hx. destruct (Hxy Hx) as [S1 F1]. destruct Hyz as [S2 F2]; [intros Hd; apply Hx; now apply S1 |].
  split; [now transitivity (k_ps y) | congruence].
Qed.

Lemma stays_fsm {A} (m : M (fsys core) A) : stays true fs_same m -> stays true k_same (fsm m).
Proof. intros Hm. eapply stays_zoom; [exact Hm |]. intros s t E _. split; [exact E | reflexivity]. Qed.

Lemma stays_prm {A} b (m : M psys A) : stays b (same_fds_if myproc) m -> stays b k_same (prm m).
Proof. intros Hm. eapply stays_zoom; [exact Hm |]. intros s t E Ha. split; [exact (E Ha) | reflexivity]. Qed.

Lemma stays_prm_same {A} b (m : M psys A) : stays b same_fds m -> stays b k_same (prm m).
Proof. intros Hm. now apply stays_prm, stays_if. Qed.

Lemma stays_vmm {A} (m : M phys A) : stays true k_same (vmm m).
Proof. apply stays_prm_same, stays_vm. Qed.

Lemma stays_modf f g : (forall x, f_ref (g x) = f_ref x) -> stays true k_same (modf f g).
Proof.
  intros Hg. apply stays_modify. intros k _. split; [reflexivity |]. intros q. cbn [ftable set_ftable].
  destruct (Z.eqb_spec q f) as [-> |]; [apply Hg | reflexivity].
Qed.

Lemma stays_me : stays true k_same me.
Proof. apply stays_gets, _. Qed.
Lemma stays_getf f : stays true k_same (getf f).
Proof. apply stays_gets, _. Qed.

Definition con_same (c c' : con R psys) : Prop := same_fds (user c) (user c').
#[export] Instance con_same_preorder : PreOrder con_same.
Proof. split; [intros c; unfold con_same; reflexivity |]. intros x y z. unfold con_same. apply transitivity. Qed.

Lemma stays_conm {A} (m : M (con R psys) A) : stays true con_same m -> stays true k_same (conm m).
Proof. intros Hm. eapply stays_zoom; [exact Hm |]. intros s t E _. split; [exact E | reflexivity]. Qed.

End frame.

#[export] Hint Resolve stays_vmm stays_me stays_getf : stays.
#[export] Hint Extern 2 (stays _ _ (fsm _)) => (apply stays_fsm; stay) : stays.
#[export] Hint Extern 2 (stays _ _ (modf _ _)) => (apply stays_modf; intros ?; reflexivity) : stays.

Section calls.
Context `{Layout} `{Symbols} `{Thread} {R : Type} `{UartRegs R}.
Abbreviation K := (kernel R).

(** *** The console *)

Lemma stays_cmodify f : (forall c : con R psys, user (f c) = user c) -> stays true con_same (modify f).
Proof. intros Hf. apply stays_modify. intros c. unfold con_same. now rewrite Hf. Qed.
Lemma stays_ReadReg reg : stays true con_same (ReadReg (R := R) (U := psys) reg).
Proof. intros h c. split; [unfold con_same; reflexivity | exact I]. Qed.
Lemma stays_WriteReg reg v : stays true con_same (WriteReg (R := R) (U := psys) reg v).
Proof. now apply stays_cmodify. Qed.
#[local] Hint Resolve stays_ReadReg stays_WriteReg : stays.
#[local] Hint Extern 2 (stays _ con_same (modify _)) => (apply stays_cmodify; intros ?; reflexivity) : stays.

Lemma stays_uartstart_loop fuel : stays true con_same (uartstart_loop (R := R) (U := psys) fuel).
Proof. induction fuel; cbn [uartstart_loop]; stay. Qed.
Lemma stays_uartputc_wait fuel : stays true con_same (uartputc_wait (R := R) (U := psys) fuel).
Proof. induction fuel; cbn [uartputc_wait]; stay. Qed.
#[local] Hint Resolve stays_uartputc_wait : stays.
Lemma stays_uartstart : stays true con_same (uartstart (R := R) (U := psys)).
Proof. apply stays_uartstart_loop. Qed.
#[local] Hint Resolve stays_uartstart : stays.
Lemma stays_uartputc fuel c : stays true con_same (uartputc (R := R) (U := psys) fuel c).
Proof. unfold uartputc, uartputc_from. stay. Qed.
#[local] Hint Resolve stays_uartputc : stays.
Lemma stays_consolewrite fuel us src n : stays true con_same (consolewrite (R := R) (U := psys) fuel us src n).
Proof. unfold consolewrite. generalize 0 as i. induction (Z.to_nat n); intros i; cbn; stay. Qed.
Lemma stays_consoleread_wait fuel : stays true con_same (consoleread_wait (R := R) (U := psys) fuel).
Proof. induction fuel; cbn [consoleread_wait]; stay. Qed.
#[local] Hint Resolve stays_consoleread_wait : stays.

Lemma user_poke_same va b x x' : user_poke va b x = Some x' -> same_fds x x'.
Proof. unfold user_poke. repeat case_match; try discriminate. intros [= <-]. now apply same_fds_procs. Qed.
Lemma cu_out_same ud dst c x x' : cu_out ud dst c x = Some x' -> same_fds x x'.
Proof. cbn [cu_out psys_console]. case_match; [intros [= <-]; now apply same_fds_procs | apply user_poke_same]. Qed.

Lemma stays_consoleread_loop n : forall wfuel fuel ud dst target, stays true con_same (consoleread_loop (R := R) (U := psys) wfuel fuel ud dst target n).
Proof.
  induction n as [|n IH]; intros; cbn [consoleread_loop]; [stay |].
  apply stays_bind; [typeclasses eauto | stay | intros [|]; [stay |]]. apply stays_bind; [typeclasses eauto | stay | intros c0].
  cbv zeta. apply stays_bind; [typeclasses eauto | stay | intros _]. match goal with |- stays _ _ (if ?b then _ else _) => destruct b end; [stay |].
  intros h s. unfold get at 1. unfold bind at 1. cbn [obind]. destruct (cu_out _ _ _ (user s)) as [u|] eqn:E; [| plain].
  apply (within_bind true con_same (fun _ _ => True)); [split; [exact (cu_out_same _ _ _ _ _ E) | exact I] |]. intros [] h1 s1 _. plain.
Qed.
#[local] Hint Resolve stays_consoleread_loop : stays.
Lemma stays_consoleread fuel ud dst n : stays true con_same (consoleread (R := R) (U := psys) fuel ud dst n).
Proof. unfold consoleread, consoleread_from. stay. Qed.

(** *** Pipes *)

Lemma stays_modp pi f : stays true k_same (modp (S := K) pi f).
Proof. apply stays_modify. intros k _. now split. Qed.
Lemma stays_getp pi : stays true k_same (getp (S := K) pi).
Proof. apply stays_gets, _. Qed.
#[local] Hint Resolve stays_modp stays_getp : stays.

Lemma stays_pipe_init pi : stays true k_same (pipe_init (S := K) pi).
Proof. unfold pipe_init. stay. Qed.
Lemma stays_pipeclose kf pi w : (forall q, stays true k_same (kf q)) -> stays true k_same (pipeclose (S := K) kf pi w).
Proof. intros Hk. unfold pipeclose. stay. Qed.
Lemma stays_pipewrite_loop fuel : forall pi addr n i, stays true k_same (pipewrite_loop (S := K) fuel pi addr n i).
Proof. induction fuel; intros; cbn [pipewrite_loop]; stay. Qed.
#[local] Hint Resolve stays_pipewrite_loop : stays.
Lemma stays_pipewrite fuel pi addr n : stays true k_same (pipewrite (S := K) fuel pi addr n).
Proof. unfold pipewrite, pipewrite_from. stay. Qed.
Lemma stays_piperead_wait fuel : forall pi, stays true k_same (piperead_wait (S := K) fuel pi).
Proof. induction fuel; intros; cbn [piperead_wait]; stay. Qed.

Lemma k_same_poke va b (k k' : K) : poke va b k = Some k' -> k_same k k'.
Proof.
  cbn [poke kernel_pipes]. destruct (user_poke va b (k_ps k)) as [x|] eqn:E; [| discriminate]. intros [= <-] _.
  split; [exact (user_poke_same _ _ _ _ E) | reflexivity].
Qed.

Lemma stays_piperead_copy n : forall pi addr i, stays true k_same (piperead_copy (S := K) n pi addr i).
Proof.
  induction n as [|n IH]; intros; cbn [piperead_copy]; [stay |]. apply stays_bind; [typeclasses eauto | stay | intros p].
  destruct (nread p =? nwrite p); [stay |]. cbv zeta. apply stays_bind; [typeclasses eauto | stay | intros _].
  intros h s. unfold get at 1. unfold bind at 1. cbn [obind]. destruct (poke _ _ s) as [s'|] eqn:E; [| plain].
  apply (within_bind true k_same (fun _ _ => True)); [split; [exact (k_same_poke _ _ _ _ E) | exact I] |]. intros [] h1 s1 _. plain.
Qed.
#[local] Hint Resolve stays_piperead_wait stays_piperead_copy : stays.
Lemma stays_piperead fuel pi addr n : stays true k_same (piperead (S := K) fuel pi addr n).
Proof. unfold piperead, piperead_from. stay. Qed.
#[local] Hint Resolve stays_pipe_init stays_pipewrite stays_piperead stays_vmm stays_me stays_getf : stays.
#[local] Hint Extern 2 (stays _ _ (pipeclose _ _ _)) => (apply stays_pipeclose; intros ?; apply stays_vmm) : stays.
#[local] Hint Extern 2 (stays _ _ (conm _)) => (apply stays_conm; first [apply stays_consoleread | apply stays_consolewrite]) : stays.

(** *** Files *)

Lemma stays_file_release ff : stays true k_same (file_release (R := R) ff).
Proof. unfold file_release. stay. Qed.
Lemma stays_dev_read d addr n : stays true k_same (dev_read (R := R) d addr n).
Proof. unfold dev_read. stay. Qed.
Lemma stays_dev_write d addr n : stays true k_same (dev_write (R := R) d addr n).
Proof. unfold dev_write. stay. Qed.
#[local] Hint Resolve stays_dev_read stays_dev_write : stays.
Lemma stays_filestat pad f addr : stays true k_same (filestat (R := R) pad f addr).
Proof. unfold filestat. stay. Qed.
Lemma stays_fileread f addr n : stays true k_same (fileread (R := R) f addr n).
Proof. unfold fileread. stay. Qed.
Lemma stays_filewrite_loop fuel : forall f addr n i, stays true k_same (filewrite_loop (R := R) fuel f addr n i).
Proof. induction fuel; intros; cbn [filewrite_loop]; stay. Qed.
#[local] Hint Resolve stays_filewrite_loop : stays.
Lemma stays_filewrite f addr n : stays true k_same (filewrite (R := R) f addr n).
Proof. unfold filewrite. stay. Qed.
#[local] Hint Resolve stays_filestat stays_fileread stays_filewrite : stays.

(** *** System calls *)

Lemma stays_fetchaddr addr : stays true k_same (fetchaddr (R := R) addr).
Proof. unfold fetchaddr. stay. Qed.
Lemma stays_fetchstr addr max : stays true k_same (fetchstr (R := R) addr max).
Proof. unfold fetchstr. stay. Qed.
Lemma stays_argraw n : stays true k_same (argraw (R := R) n).
Proof. unfold argraw. stay. Qed.
#[local] Hint Resolve stays_fetchaddr stays_fetchstr stays_argraw : stays.
Lemma stays_argint n : stays true k_same (argint (R := R) n).
Proof. unfold argint. stay. Qed.
Lemma stays_argaddr n : stays true k_same (argaddr (R := R) n).
Proof. unfold argaddr. stay. Qed.
#[local] Hint Resolve stays_argint stays_argaddr : stays.
Lemma stays_argstr n max : stays true k_same (argstr (R := R) n max).
Proof. unfold argstr. stay. Qed.
Lemma stays_argfd n : stays true k_same (argfd (R := R) n).
Proof. unfold argfd. stay. Qed.
#[local] Hint Resolve stays_argstr stays_argfd : stays.
Lemma stays_sys_read : stays true k_same (Sysfile.sys_read (R := R)).
Proof. unfold Sysfile.sys_read. stay. Qed.
Lemma stays_sys_write : stays true k_same (Sysfile.sys_write (R := R)).
Proof. unfold Sysfile.sys_write. stay. Qed.
Lemma stays_sys_fstat pad : stays true k_same (sys_fstat (R := R) pad).
Proof. unfold sys_fstat. stay. Qed.
Lemma stays_itype ip : stays true k_same (itype (R := R) ip).
Proof. unfold itype. stay. Qed.
#[local] Hint Resolve stays_itype : stays.
Lemma stays_link_bad ip : stays true k_same (link_bad (R := R) ip).
Proof. unfold link_bad. stay. Qed.
#[local] Hint Resolve stays_link_bad : stays.
Lemma stays_sys_link : stays true k_same (sys_link (R := R)).
Proof. unfold sys_link. stay. Qed.
Lemma stays_isdirempty_loop fuel : forall dp off, stays true k_same (isdirempty_loop (R := R) fuel dp off).
Proof. induction fuel; intros; cbn [isdirempty_loop]; stay. Qed.
#[local] Hint Resolve stays_isdirempty_loop : stays.
Lemma stays_isdirempty dp : stays true k_same (isdirempty (R := R) dp).
Proof. unfold isdirempty. stay. Qed.
Lemma stays_unlink_bad dp : stays true k_same (unlink_bad (R := R) dp).
Proof. unfold unlink_bad. stay. Qed.
#[local] Hint Resolve stays_isdirempty stays_unlink_bad : stays.
Lemma stays_sys_unlink : stays true k_same (sys_unlink (R := R)).
Proof. unfold sys_unlink. stay. Qed.
Lemma stays_create_fail dp ip : stays true k_same (create_fail (R := R) dp ip).
Proof. unfold create_fail. stay. Qed.
#[local] Hint Resolve stays_create_fail : stays.
Lemma stays_create path type major minor : stays true k_same (create (R := R) path type major minor).
Proof. unfold create. stay. Qed.
#[local] Hint Resolve stays_create : stays.
Lemma stays_open_inode path omode : stays true k_same (open_inode (R := R) path omode).
Proof. unfold open_inode. stay. Qed.
Lemma stays_open_bad ip : stays true k_same (open_bad (R := R) ip).
Proof. unfold open_bad. stay. Qed.
Lemma stays_sys_mkdir : stays true k_same (sys_mkdir (R := R)).
Proof. unfold sys_mkdir. stay. Qed.
Lemma stays_sys_mknod : stays true k_same (sys_mknod (R := R)).
Proof. unfold sys_mknod. stay. Qed.
#[local] Hint Extern 2 (stays _ _ (prm (modproc _ _))) => (apply stays_prm_same, stays_modproc; intros ?; split; reflexivity) : stays.
Lemma stays_sys_chdir : stays true k_same (sys_chdir (R := R)).
Proof. unfold sys_chdir. stay. Qed.
Lemma stays_readi_phys ip pa off n : stays true k_same (readi_phys (R := R) ip pa off n).
Proof. unfold readi_phys. stay. Qed.
#[local] Hint Resolve stays_readi_phys : stays.
Lemma stays_loadseg_loop fuel : forall pt va ip offset size i, stays true k_same (loadseg_loop (R := R) fuel pt va ip offset size i).
Proof. induction fuel; intros; cbn [loadseg_loop]; stay. Qed.
#[local] Hint Resolve stays_loadseg_loop : stays.
Lemma stays_loadseg pt va ip offset size : stays true k_same (loadseg (R := R) pt va ip offset size).
Proof. unfold loadseg. stay. Qed.
#[local] Hint Resolve stays_loadseg : stays.
Lemma stays_load_loop n : forall pt ip off size, stays true k_same (load_loop (R := R) n pt ip off size).
Proof. induction n; intros; cbn [load_loop]; stay. Qed.
Lemma stays_push_args argv : forall pt sp sb argc us, stays true k_same (push_args (R := R) pt sp sb argc argv us).
Proof. induction argv; intros; cbn [push_args]; stay. Qed.
Lemma stays_exec_bad pt size ip : stays true k_same (exec_bad (R := R) pt size ip).
Proof. unfold exec_bad. stay. Qed.
#[local] Hint Resolve stays_load_loop stays_push_args stays_exec_bad : stays.
Lemma stays_exec_stack path argv entry pt size : stays true k_same (exec_stack (R := R) path argv entry pt size).
Proof. unfold exec_stack. stay. Qed.
#[local] Hint Resolve stays_exec_stack : stays.
#[local] Hint Extern 2 (stays _ _ (prm (proc_pagetable _))) => (apply stays_prm_same, stays_sleeps, stays_proc_pagetable) : stays.
Lemma stays_exec path argv : stays true k_same (Exec.exec (R := R) path argv).
Proof. unfold Exec.exec. stay. Qed.
#[local] Hint Resolve stays_exec : stays.
Lemma stays_free_args l : stays true k_same (free_args (R := R) l).
Proof. induction l; cbn [free_args]; stay. Qed.
Lemma stays_fetch_args n : forall uargv i pages strs, stays true k_same (fetch_args (R := R) n uargv i pages strs).
Proof. induction n; intros; cbn [fetch_args]; stay. Qed.
#[local] Hint Resolve stays_free_args stays_fetch_args : stays.
Lemma stays_sys_exec : stays true k_same (sys_exec (R := R)).
Proof. unfold sys_exec. stay. Qed.
Lemma stays_sys_getpid : stays true k_same (sys_getpid (R := R)).
Proof. unfold sys_getpid. stay. Qed.
Lemma stays_sys_wait : stays true k_same (sys_wait (R := R)).
Proof. unfold sys_wait. apply stays_bind; [typeclasses eauto | stay | intros p]. apply stays_prm, stays_wait. Qed.
Lemma stays_sys_sbrk : stays true k_same (Syscall.sys_sbrk (R := R)).
Proof.
  unfold Syscall.sys_sbrk. do 2 (apply stays_bind; [typeclasses eauto | stay | intros ?]).
  apply stays_bind; [typeclasses eauto | apply stays_prm_same, stays_growproc | intros r; stay].
Qed.
Lemma stays_sleep_loop fuel : forall t0 n, stays true k_same (sleep_loop (R := R) fuel t0 n).
Proof. pose proof stays_killed. induction fuel; intros; cbn [sleep_loop]; stay; apply stays_prm_same; auto. Qed.
#[local] Hint Resolve stays_sleep_loop : stays.
Lemma stays_sys_sleep : stays true k_same (sys_sleep (R := R)).
Proof. unfold sys_sleep. stay. Qed.
Lemma stays_sys_pgpte : stays true k_same (sys_pgpte (R := R)).
Proof. unfold sys_pgpte. stay. Qed.
Lemma stays_sys_kpgtbl : stays true k_same (sys_kpgtbl (R := R)).
Proof. unfold sys_kpgtbl. stay. Qed.
Lemma stays_sys_kill : stays true k_same (sys_kill (R := R)).
Proof. unfold sys_kill. apply stays_bind; [typeclasses eauto | stay | intros n]. apply stays_prm_same, stays_kill. Qed.
Lemma stays_sys_uptime : stays true k_same (sys_uptime (R := R)).
Proof. unfold sys_uptime. stay. Qed.

End calls.

(** ** The invariant *)

Abbreviation slot := (Z * Z)%type.

(** The descriptors of all processes: a process and an index. *)
Definition all_slots : list slot := list_prod all_procs (seqZ 0 NOFILE).

Lemma all_slots_nodup : NoDup all_slots.
Proof. apply (bool_decide_unpack _). vm_compute. exact I. Qed.

Lemma elem_all_slots p fd : (p, fd) ∈ all_slots <-> p ∈ all_procs /\ 0 <= fd < NOFILE.
Proof. unfold all_slots. rewrite list_elem_of_In, in_prod_iff, <- !list_elem_of_In, elem_of_seqZ. tauto. Qed.

(** The file that a descriptor refers to.  The descriptors of [D] hold no
    reference: their process is about to fill or to clear them. *)
Definition fd_at (D : list slot) (x : psys) (s : slot) : Z :=
  if decide (s ∈ D) then 0 else nthZ 0 (ofile (procs x (fst s))) (snd s).

Definition descriptors (D : list slot) (x : psys) : list Z := map (fd_at D x) all_slots.

(** The references of each file are its descriptors and those in [held] that
    are in the hands of threads.  [A] are processes with a thread, and what their
    descriptors are. *)
Record fds_ok {R} (held : list Z) (D : list slot) (A : list (Z * list Z)) (k : kernel R) : Prop := {
  fo_refs : forall f, f ∈ all_files -> f_ref (ftable k f) = occurs f (descriptors D (k_ps k)) + occurs f held;
  fo_fds : forall p, p ∈ all_procs -> length (ofile (procs (k_ps k) p)) = Z.to_nat NOFILE /\ forall f, f ∈ ofile (procs (k_ps k) p) -> f = 0 \/ f ∈ all_files;
  fo_dead : forall p i, p ∈ all_procs -> dead (procs (k_ps k) p) -> nthZ 0 (ofile (procs (k_ps k) p)) i = 0;
  fo_dang : forall s, s ∈ D -> ~ dead (procs (k_ps k) (fst s));
  fo_alive : forall p o, (p, o) ∈ A -> p ∈ all_procs /\ ~ dead (procs (k_ps k) p) /\ ofile (procs (k_ps k) p) = o }.

(** ** Counting *)

Lemma elem_of_updZ {B} (l : list B) i v x : x ∈ updZ l i v -> x = v \/ x ∈ l.
Proof.
  unfold updZ. intros Hx. apply list_elem_of_lookup_1 in Hx as [j Hj]. apply list_lookup_insert_Some in Hj as [(_ & <- & _) | [_ Hj]]; [now left |].
  right. now apply list_elem_of_lookup_2 in Hj.
Qed.

Definition hit (f g : Z) : Z := if f =? g then 1 else 0.

Lemma occurs_cons' f g l : occurs f (g :: l) = hit f g + occurs f l.
Proof. apply occurs_cons. Qed.

Lemma occurs_one_change {B} (g g' : B -> Z) f (l : list B) s : NoDup l -> s ∈ l -> (forall s', s' ∈ l -> s' <> s -> g' s' = g s') ->
  occurs f (map g' l) + hit f (g s) = occurs f (map g l) + hit f (g' s).
Proof.
  intros Hnd Hs Hg. induction l as [|a l IH]; [inversion Hs |]. apply NoDup_cons in Hnd as [Hna Hnd]. cbn [map]. rewrite !occurs_cons'.
  assert (Hsame : s ∉ l -> map g' l = map g l).
  { intros Hn. apply map_ext_in. intros b Hb. apply list_elem_of_In in Hb. apply Hg; [now apply list_elem_of_further | intros ->; contradiction]. }
  apply elem_of_cons in Hs as [-> | Hs]; [rewrite Hsame by exact Hna; lia |]. rewrite (Hg a) by (first [apply list_elem_of_here | intros ->; contradiction]). specialize (IH Hnd Hs (fun b Hb => Hg b (list_elem_of_further _ _ _ Hb))). lia.
Qed.

Lemma occurs_bound f l : 0 <= occurs f l <= Z.of_nat (length l).
Proof. unfold occurs. pose proof (count_occ_bound Z.eq_dec f l). lia. Qed.

Lemma descriptors_bound f D x : occurs f (descriptors D x) <= 1024.
Proof. pose proof (occurs_bound f (descriptors D x)) as Hb. unfold descriptors in *. rewrite length_map in Hb. change (Z.of_nat (length all_slots)) with 1024 in Hb. lia. Qed.

(** ** How the invariant changes *)

Section changes.
Context {R : Type}.
Implicit Types k : kernel R.

Lemma fd_at_same D x x' s : ofile (procs x' (fst s)) = ofile (procs x (fst s)) -> fd_at D x' s = fd_at D x s.
Proof. intros E. unfold fd_at. now rewrite E. Qed.

Lemma descriptors_same D x x' : (forall p, ofile (procs x' p) = ofile (procs x p)) -> descriptors D x' = descriptors D x.
Proof. intros E. apply map_ext. intros s. now apply fd_at_same. Qed.

(** Processes can come to life, and [np] can die if it has no descriptors. *)
Lemma fds_ok_procs held D A k k' :
  (forall f, f_ref (ftable k' f) = f_ref (ftable k f)) -> (forall p, ofile (procs (k_ps k') p) = ofile (procs (k_ps k) p)) ->
  (forall p, p ∈ all_procs -> dead (procs (k_ps k') p) -> dead (procs (k_ps k) p) \/ (forall i, nthZ 0 (ofile (procs (k_ps k) p)) i = 0) /\ (forall o, (p, o) ∉ A)) ->
  (forall s, s ∈ D -> dead (procs (k_ps k') (fst s)) -> dead (procs (k_ps k) (fst s))) ->
  fds_ok held D A k -> fds_ok held D A k'.
Proof.
  intros Hf Ho Hd Hdd [F1 F2 F3 F4 F5]. split.
  - intros f Hin. rewrite Hf, (F1 f Hin). now rewrite (descriptors_same _ _ _ Ho).
  - intros p Hp. rewrite Ho. now apply F2.
  - intros p i Hp Hdp. rewrite Ho. destruct (Hd p Hp Hdp) as [Hdk | [Hz _]]; [now apply F3 | apply Hz].
  - intros s Hs Hds. exact (F4 s Hs (Hdd s Hs Hds)).
  - intros p o Hp. destruct (F5 p o Hp) as (H1 & H2 & H3). split_and!; auto; [| now rewrite Ho].
    intros Hdp. destruct (Hd p H1 Hdp) as [Hdk | [_ Hn]]; [contradiction | exact (Hn o Hp)].
Qed.

Lemma fds_ok_same held D A k k' : same_fds (k_ps k) (k_ps k') -> (forall f, f_ref (ftable k' f) = f_ref (ftable k f)) -> fds_ok held D A k -> fds_ok held D A k'.
Proof. intros Hs Hf. apply fds_ok_procs; auto; [intros p; apply Hs | intros p _ Hd; left; now apply Hs | intros s _; apply Hs]. Qed.

(** References of one file taken or given back. *)
Lemma fds_ok_refs held held' D A k k' : k_ps k' = k_ps k ->
  (forall f, f ∈ all_files -> f_ref (ftable k' f) = f_ref (ftable k f) + occurs f held' - occurs f held) ->
  fds_ok held D A k -> fds_ok held' D A k'.
Proof. intros Hp Hf [F1 F2 F3 F4 F5]. split; try (rewrite Hp; assumption). intros f Hin. rewrite Hp, (Hf f Hin), (F1 f Hin). lia. Qed.

Record slot_set (p fd v : Z) (k k' : kernel R) : Prop := {
  ss_ref : forall f, f_ref (ftable k' f) = f_ref (ftable k f);
  ss_dead : forall q, dead (procs (k_ps k') q) <-> dead (procs (k_ps k) q);
  ss_other : forall q, q <> p -> ofile (procs (k_ps k') q) = ofile (procs (k_ps k) q);
  ss_here : ofile (procs (k_ps k') p) = updZ (ofile (procs (k_ps k) p)) fd v }.

(** A descriptor changes, or whether it holds a reference. *)
Lemma fds_ok_slot held held' D D' A p fd v o k k' :
  slot_set p fd v k k' -> 0 <= fd < NOFILE -> v = 0 \/ v ∈ all_files -> (forall s, s <> (p, fd) -> s ∈ D' <-> s ∈ D) ->
  (forall q o', (q, o') ∈ A -> q <> p) ->
  (forall f, f ∈ all_files -> hit f (if decide ((p, fd) ∈ D) then 0 else nthZ 0 o fd) + occurs f held = hit f (if decide ((p, fd) ∈ D') then 0 else v) + occurs f held') ->
  fds_ok held D ((p, o) :: A) k -> fds_ok held' D' ((p, updZ o fd v) :: A) k'.
Proof.
  intros [S1 S2 S3 S4] Hfd Hv HD HA Hc [F1 F2 F3 F4 F5]. destruct (F5 p o (list_elem_of_here _ _)) as (Hp & Hlp & Eo). subst o.
  destruct (F2 p Hp) as [Hlen Hok].
  assert (Hv' : nthZ 0 (ofile (procs (k_ps k') p)) fd = v) by (rewrite S4; apply nthZ_updZ_eq; rewrite Hlen; lia).
  split.
  - intros f Hf. rewrite S1, (F1 f Hf). specialize (Hc f Hf).
    pose proof (occurs_one_change (fd_at D (k_ps k)) (fd_at D' (k_ps k')) f all_slots (p, fd) all_slots_nodup (proj2 (elem_all_slots p fd) (conj Hp Hfd))) as Hch.
    fold (descriptors D (k_ps k)) (descriptors D' (k_ps k')) in Hch. unfold fd_at in Hch at 3 4. cbn [fst snd] in Hch. rewrite Hv' in Hch.
    enough (forall s', s' ∈ all_slots -> s' <> (p, fd) -> fd_at D' (k_ps k') s' = fd_at D (k_ps k) s') as He by (specialize (Hch He); lia).
    intros [q j] Hqj Hne. apply elem_all_slots in Hqj as [_ Hj]. unfold fd_at. cbn [fst snd]. destruct (decide ((q, j) ∈ D)) as [Hin | Hin]; [now rewrite decide_True by (apply HD; assumption) |].
    rewrite decide_False by (rewrite HD; assumption). destruct (decide (q = p)) as [-> | Hq]; [| now rewrite S3].
    rewrite S4. apply nthZ_updZ_ne; [lia | lia |]. intros ->. now apply Hne.
  - intros q Hq. destruct (decide (q = p)) as [-> | Hne]; [| rewrite S3 by exact Hne; now apply F2]. rewrite S4, length_updZ. split; [exact Hlen |].
    intros f Hf. apply elem_of_updZ in Hf as [-> | Hf]; auto.
  - intros q i Hq Hd. rewrite S2 in Hd. rewrite S3; [now apply F3 |]. intros ->. contradiction.
  - intros s Hs. rewrite S2. destruct (decide (s = (p, fd))) as [-> | Hne]; [exact Hlp |]. apply F4. now apply HD.
  - intros q o' Hq. apply elem_of_cons in Hq as [[= -> ->] | Hq]; [split_and!; [exact Hp | now rewrite S2 | exact S4] |].
    destruct (F5 q o' (list_elem_of_further _ _ _ Hq)) as (Q1 & Q2 & Q3). split_and!; [exact Q1 | now rewrite S2 | rewrite S3; [exact Q3 | exact (HA q o' Hq)]].
Qed.

End changes.

(** ** The operations *)

(** What the other threads have: references, descriptors that hold none, and
    the descriptors of their processes. *)
Record env := { e_held : list Z; e_empty : list slot; e_alive : list (Z * list Z) }.

Record others `{Thread} (e : env) : Prop := {
  ot_held : Z.of_nat (length (e_held e)) < 2 ^ 20;
  ot_empty : forall s, s ∈ e_empty e -> fst s <> myproc;
  ot_alive : forall p o, (p, o) ∈ e_alive e -> p <> myproc }.

Section refs.
Context `{Layout} `{Symbols} `{Thread} {R : Type} `{UartRegs R}.
Abbreviation K := (kernel R).
#[local] Hint Resolve stays_pipe_init stays_argaddr stays_argint stays_argstr : stays.
Hypothesis Hme : myproc ∈ all_procs.

(** The thread of the running process holds references to the files [hd], and
    its descriptors [dg] hold none; [o] are its descriptors. *)
Definition mine (e : env) (dg : list Z) : list slot := map (pair myproc) dg ++ e_empty e.
Definition st (hd dg o : list Z) (e : env) (k : K) : Prop :=
  (others e /\ Z.of_nat (length hd) <= 2) /\ fds_ok (hd ++ e_held e) (mine e dg) ((myproc, o) :: e_alive e) k.

(** The invariant while the thread sleeps; [None] when it has ended. *)
Definition inv (e : env) (g : option (list Z * list Z * list Z)) (k : K) : Prop :=
  match g with
  | Some (hd, dg, o) => st hd dg o e k
  | None => others e /\ fds_ok (e_held e) (e_empty e) (e_alive e) k
  end.

Lemma mine_in e dg fd : others e -> (myproc, fd) ∈ mine e dg <-> fd ∈ dg.
Proof.
  intros He. unfold mine. rewrite elem_of_app, list_elem_of_fmap. split.
  - intros [(j & [= ->] & Hj) | Hd]; [exact Hj | now destruct (ot_empty e He _ Hd)].
  - intros Hj. left. now exists fd.
Qed.

Lemma mine_other e dg p fd : p <> myproc -> (p, fd) ∈ mine e dg <-> (p, fd) ∈ e_empty e.
Proof. intros Hp. unfold mine. rewrite elem_of_app, list_elem_of_fmap. split; [intros [(j & [= -> _] & _) | Hd]; auto; contradiction | auto]. Qed.

Lemma st_same hd dg o {e} k k' : k_same k k' -> st hd dg o e k -> st hd dg o e k'.
Proof.
  intros Hs [Hl Hk]. split; [exact Hl |]. destruct Hs as [Hs Hf]; [| exact (fds_ok_same _ _ _ _ _ Hs Hf Hk)].
  now apply (fo_alive _ _ _ _ Hk myproc o), list_elem_of_here.
Qed.

Lemma inv_same g {e} k k' : k_same k k' -> (exists x, g = Some x) -> inv e g k -> inv e g k'.
Proof. intros Hs [[[hd dg] o] ->]. now apply st_same. Qed.

(** Code that touches neither descriptors nor reference counts. *)
Lemma keeps_same {B} (m : M K B) hd dg o {e} h k : stays true k_same m -> st hd dg o e k -> keeps inv (fun _ => st hd dg o) e (m h k).
Proof. intros Hm Hk. apply (keeps_stays inv k_same (Some (hd, dg, o))); [exact Hm | intros e' s s' E; apply inv_same; eauto | exact Hk]. Qed.

Lemma hit_zero f : f ∈ all_files -> hit f 0 = 0.
Proof. intros Hf. apply elem_of_seqZ in Hf. unfold hit. now rewrite (proj2 (Z.eqb_neq f 0)) by lia. Qed.

Lemma st_slot hd hd' dg dg' o fd v {e} k k' :
  slot_set myproc fd v k k' -> 0 <= fd < NOFILE -> v = 0 \/ v ∈ all_files -> (forall j, j <> fd -> j ∈ dg' <-> j ∈ dg) -> Z.of_nat (length hd') <= 2 ->
  (forall f, f ∈ all_files -> hit f (if decide (fd ∈ dg) then 0 else nthZ 0 o fd) + occurs f hd = hit f (if decide (fd ∈ dg') then 0 else v) + occurs f hd') ->
  st hd dg o e k -> st hd' dg' (updZ o fd v) e k'.
Proof.
  intros Hs Hfd Hv Hdg Hl Hc [[He _] Hk]. split; [now split |]. refine (fds_ok_slot _ _ _ _ _ _ _ _ _ _ _ Hs Hfd Hv _ (ot_alive e He) _ Hk).
  - intros [p j] Hne. destruct (decide (p = myproc)) as [-> | Hp]; [rewrite !mine_in by exact He; apply Hdg; congruence | now rewrite !mine_other].
  - intros f Hf. specialize (Hc f Hf). rewrite !occurs_app, !(decide_ext _ _ _ _ (mine_in e _ _ He)). lia.
Qed.

(** References taken and given back. *)
Lemma st_refs hd hd' dg o {e} k k' : k_ps k' = k_ps k -> Z.of_nat (length hd') <= 2 ->
  (forall f, f ∈ all_files -> f_ref (ftable k' f) = f_ref (ftable k f) + occurs f hd' - occurs f hd) -> st hd dg o e k -> st hd' dg o e k'.
Proof.
  intros Hp Hl Hf [[He _] Hk]. split; [now split |]. refine (fds_ok_refs _ _ _ _ _ _ Hp _ Hk). intros f Hin. rewrite !occurs_app, (Hf f Hin). lia.
Qed.

Lemma st_bound hd dg o {e} k f : st hd dg o e k -> f ∈ all_files -> 0 <= f_ref (ftable k f) < 2 ^ 21.
Proof.
  intros [[He Hl] Hk] Hf. rewrite (fo_refs _ _ _ _ Hk f Hf). pose proof (descriptors_bound f (mine e dg) (k_ps k)). pose proof (ot_held e He).
  pose proof (occurs_bound f (descriptors (mine e dg) (k_ps k))). pose proof (occurs_bound f (hd ++ e_held e)) as Hb. rewrite length_app in Hb. lia.
Qed.

Lemma ftable_mod g f (k : K) q : ftable (set_ftable (fun q => if q =? f then g (ftable k f) else ftable k q) k) q = if q =? f then g (ftable k q) else ftable k q.
Proof. cbn. now destruct (Z.eqb_spec q f) as [-> |]. Qed.

Lemma filealloc_keeps hd dg o {e} h k : st hd dg o e k -> Z.of_nat (length hd) <= 1 ->
  keeps inv (fun f e' k' => f = 0 /\ st hd dg o e' k' \/ f ∈ all_files /\ st (f :: hd) dg o e' k') e (filealloc (R := R) h k).
Proof.
  intros Hk Hl. unfold filealloc. eapply keeps_bind; [apply (keeps_same _ hd dg o); [stay | exact Hk] |]. clear e h k Hk. intros [] e h k Hk.
  assert (Hin : forall f, f ∈ all_files -> f ∈ all_files) by auto. revert Hin e h k Hk. generalize all_files at 1 4 as l. intros l Hin.
  induction l as [|f l IH]; intros e h k Hk; cbn [filealloc_loop].
  - eapply keeps_bind; [apply (keeps_same _ hd dg o); [stay | exact Hk] |]. intros [] e' h' k' Hk'. left. now split.
  - unfold getf. rewrite bind_gets. destruct (Z.eqb_spec (f_ref (ftable k f)) 0) as [E |]; [| apply IH; [intros g Hg; apply Hin; now apply list_elem_of_further | exact Hk]].
    unfold modf. rewrite bind_modify. assert (Hf : f ∈ all_files) by apply Hin, list_elem_of_here.
    eapply keeps_bind; [apply (keeps_same _ (f :: hd) dg o); [stay |] |].
    + apply (st_refs hd _ dg o k); [reflexivity | cbn; lia | | exact Hk]. intros g Hg. rewrite ftable_mod, occurs_cons'. unfold hit. destruct (Z.eqb_spec g f) as [-> |]; cbn [f_ref set_fref]; lia.
    + intros [] e' h' k' Hk'. right. now split.
Qed.

(** [filedup] takes a reference. *)
Lemma filedup_ok hd D' A' f {e} h k : fds_ok hd D' A' k -> Z.of_nat (length hd) < 2 ^ 21 ->
  keeps inv (fun r e' k' => e' = e /\ r = f /\ fds_ok (f :: hd) D' A' k' /\ k_ps k' = k_ps k) e (filedup (R := R) f h k).
Proof.
  intros Hk Hl. unfold filedup, acquire, bind at 1. case_decide; [exact I |]. cbn [obind]. unfold getf. rewrite bind_gets.
  destruct (f_ref (ftable k f) <? 1); [exact I |]. unfold modf. rewrite bind_modify, bind_Ret with (1 := release_top _ _ _). cbn [keeps ret]. split_and!; [reflexivity | reflexivity | | reflexivity].
  apply (fds_ok_refs hd _ _ _ k); [reflexivity | | exact Hk]. intros g Hg. rewrite ftable_mod, occurs_cons'. unfold hit. destruct (Z.eqb_spec g f) as [-> |]; [| lia]. cbn [f_ref set_fref].
  pose proof (fo_refs _ _ _ _ Hk f Hg). pose proof (descriptors_bound f D' (k_ps k)). pose proof (occurs_bound f (descriptors D' (k_ps k))). pose proof (occurs_bound f hd).
  rewrite i32_small by lia. lia.
Qed.

Lemma filedup_keeps hd dg o f {e} h k : st hd dg o e k -> Z.of_nat (length hd) <= 1 -> keeps inv (fun _ => st (f :: hd) dg o) e (filedup (R := R) f h k).
Proof.
  intros [[He _] Hk] Hl. pose proof (ot_held e He). eapply keeps_mono; [| refine (filedup_ok _ _ _ f h k Hk _); rewrite length_app; lia].
  intros r e' k' (-> & _ & Hk' & _). split; [split; [exact He | cbn; lia] | exact Hk'].
Qed.

Lemma fileclose_keeps hd dg o f {e} h k : st (f :: hd) dg o e k -> keeps inv (fun _ => st hd dg o) e (fileclose (R := R) f h k).
Proof.
  intros Hk. assert (Hl : Z.of_nat (length hd) <= 2) by (destruct Hk as [[_ Hl] _]; cbn in Hl; lia).
  unfold fileclose, acquire, bind at 1. case_decide; [exact I |]. cbn [obind]. unfold getf. rewrite bind_gets.
  destruct (Z.ltb_spec (f_ref (ftable k f)) 1) as [| Hpos]; [exact I |]. unfold modf. rewrite bind_modify, bind_gets, ftable_mod, Z.eqb_refl. cbn [f_ref set_fref].
  match goal with |- context[set_ftable ?t k] => set (k1 := set_ftable t k) end.
  assert (Hk1 : st hd dg o e k1).
  { apply (st_refs (f :: hd) _ dg o k); [reflexivity | exact Hl | | exact Hk]. intros g Hg. unfold k1. rewrite ftable_mod, occurs_cons'. unfold hit.
    pose proof (st_bound _ _ _ _ _ Hk Hg). destruct (Z.eqb_spec g f) as [-> |]; [cbn [f_ref set_fref]; rewrite i32_small by lia |]; lia. }
  destruct (Z.ltb_spec 0 (i32 (f_ref (ftable k f) - 1))) as [| Hz]; [apply (keeps_same _ hd dg o); [stay | exact Hk1] |].
  rewrite !bind_modify, bind_Ret with (1 := release_top _ _ _). apply (keeps_same _ hd dg o); [apply stays_file_release |].
  apply (st_refs hd _ dg o k1); [reflexivity | exact Hl | | exact Hk1]. intros g Hg. rewrite !ftable_mod. pose proof (st_bound _ _ _ _ _ Hk1 Hg) as Hb.
  destruct (Z.eqb_spec g f) as [-> |]; [| lia]. cbn [f_ref set_fref set_ftype]. unfold k1 in *. rewrite ftable_mod, Z.eqb_refl in *. cbn [f_ref set_fref] in *. lia.
Qed.

(** ** Descriptors *)

Lemma st_mine hd dg o {e} k : st hd dg o e k -> ofile (procs (k_ps k) myproc) = o /\ length o = Z.to_nat NOFILE /\ (forall f, f ∈ o -> f = 0 \/ f ∈ all_files).
Proof.
  intros [_ Hk]. destruct (fo_alive _ _ _ _ Hk myproc o (list_elem_of_here _ _)) as (_ & _ & <-). split; [reflexivity | now apply (fo_fds _ _ _ _ Hk)].
Qed.

Lemma st_fd hd dg o {e} k fd : st hd dg o e k -> nthZ 0 o fd = 0 \/ nthZ 0 o fd ∈ all_files.
Proof.
  intros Hk. destruct (st_mine _ _ _ _ Hk) as (_ & _ & Ho). unfold nthZ. destruct (nth_in_or_default (Z.to_nat fd) o 0) as [Hin | E]; [| now left].
  apply Ho. now apply list_elem_of_In.
Qed.

Lemma st_length hd dg o {e} k : st hd dg o e k -> Z.of_nat (length hd) <= 2.
Proof. now intros [[_ Hl] _]. Qed.

(** A new reference in a descriptor, a reference taken out of one, one that the
    process gives back before it clears the descriptor. *)
Lemma st_settle hd dg o fd f {e} k : st (f :: hd) (fd :: dg) o e k -> 0 <= fd < NOFILE -> fd ∉ dg -> nthZ 0 o fd = f -> st hd dg o e k.
Proof.
  intros Hk Hfd Hn <-. pose proof (st_length _ _ _ _ Hk) as Hl. cbn [length] in Hl. rewrite <- (updZ_same 0 o fd) at 1 by lia. pose proof (st_fd _ _ _ _ fd Hk) as Hv.
  apply (st_slot (nthZ 0 o fd :: hd) hd (fd :: dg) dg o fd (nthZ 0 o fd) k k); auto; [| intros j Hj; rewrite elem_of_cons; tauto | lia |].
  - split; auto. destruct (st_mine _ _ _ _ Hk) as [-> _]. now rewrite updZ_same by lia.
  - intros g Hg. rewrite decide_True, decide_False by (auto; apply list_elem_of_here). rewrite occurs_cons', hit_zero by exact Hg. lia.
Qed.

Lemma st_dangle hd dg o fd {e} k : st hd dg o e k -> Z.of_nat (length hd) <= 1 -> 0 <= fd < NOFILE -> fd ∉ dg -> st (nthZ 0 o fd :: hd) (fd :: dg) o e k.
Proof.
  intros Hk Hl Hfd Hn. rewrite <- (updZ_same 0 o fd) at 2 by lia. pose proof (st_fd _ _ _ _ fd Hk) as Hv.
  apply (st_slot hd _ dg (fd :: dg) o fd (nthZ 0 o fd) k k); auto; [| intros j Hj; rewrite elem_of_cons; tauto | cbn [length]; lia |].
  - split; auto. destruct (st_mine _ _ _ _ Hk) as [-> _]. now rewrite updZ_same by lia.
  - intros g Hg. rewrite (decide_True (P := fd ∈ fd :: dg)), decide_False by (auto; apply list_elem_of_here). rewrite occurs_cons', hit_zero by exact Hg. lia.
Qed.

Lemma set_ofile_slot p fd v (k : K) : slot_set p fd v k (set_k_ps (upd_proc p (fun x => set_ofile (updZ (ofile x) fd v) x) (k_ps k)) k).
Proof.
  split; [reflexivity | intros q; cbn; destruct (Z.eqb_spec q p) as [-> |]; reflexivity | intros q Hq; cbn; now rewrite (proj2 (Z.eqb_neq q p)) by exact Hq | cbn; now rewrite Z.eqb_refl].
Qed.

Lemma set_fd_run fd v h (k : K) : set_fd fd v h k = Ret tt h (set_k_ps (upd_proc myproc (fun x => set_ofile (updZ (ofile x) fd v) x) (k_ps k)) k).
Proof. reflexivity. Qed.

Lemma set_fd_detach hd dg o fd {e} k h : st hd dg o e k -> Z.of_nat (length hd) <= 1 -> 0 <= fd < NOFILE -> fd ∉ dg ->
  keeps inv (fun _ => st (nthZ 0 o fd :: hd) dg (updZ o fd 0)) e (set_fd (R := R) fd 0 h k).
Proof.
  intros Hk Hl Hfd Hn. rewrite set_fd_run. apply (st_slot hd _ dg dg o fd 0 k _ (set_ofile_slot _ _ _ _)); auto; [cbn [length]; lia |].
  intros g Hg. rewrite !decide_False by exact Hn. rewrite occurs_cons', hit_zero by exact Hg. lia.
Qed.

Lemma set_fd_clear hd dg o fd {e} k h : st hd (fd :: dg) o e k -> 0 <= fd < NOFILE -> fd ∉ dg -> keeps inv (fun _ => st hd dg (updZ o fd 0)) e (set_fd (R := R) fd 0 h k).
Proof.
  intros Hk Hfd Hn. pose proof (st_length _ _ _ _ Hk). rewrite set_fd_run. apply (st_slot hd hd (fd :: dg) dg o fd 0 k _ (set_ofile_slot _ _ _ _)); auto; [intros j Hj; rewrite elem_of_cons; tauto |].
  intros g Hg. rewrite decide_True, decide_False by (auto; apply list_elem_of_here). rewrite hit_zero by exact Hg. lia.
Qed.

Lemma fdalloc_keeps hd dg o f {e} h k : f ∈ all_files -> st hd dg o e k ->
  keeps inv (fun fd e' k' => fd = -1 /\ st hd dg o e' k' \/ 0 <= fd < NOFILE /\ nthZ 0 o fd = 0 /\ st hd (fd :: dg) (updZ o fd f) e' k') e (fdalloc (R := R) f h k).
Proof.
  intros Hf Hk. unfold fdalloc. assert (Hin : forall fd, fd ∈ seqZ 0 NOFILE -> 0 <= fd < NOFILE) by (intros fd Hfd; apply elem_of_seqZ in Hfd; lia).
  revert Hin. generalize (seqZ 0 NOFILE) as l. intros l Hin. induction l as [|fd l IH]; cbn [fdalloc_loop]; [left; now split |].
  unfold me. rewrite bind_gets. destruct (st_mine _ _ _ _ Hk) as (-> & Hlen & _).
  destruct (Z.eqb_spec (nthZ 0 o fd) 0) as [E |]; [| apply IH; intros j Hj; apply Hin; now apply list_elem_of_further].
  specialize (Hin fd (list_elem_of_here _ _)). pose proof (st_length _ _ _ _ Hk). right. split; [exact Hin |]. split; [exact E |].
  apply (st_slot hd hd dg (fd :: dg) o fd f k _ (set_ofile_slot _ _ _ _)); auto; [intros j Hj; rewrite elem_of_cons; tauto |].
  intros g Hg. rewrite (decide_True (P := fd ∈ fd :: dg)) by apply list_elem_of_here. rewrite E. now destruct (decide (fd ∈ dg)).
Qed.

Lemma argfd_keeps hd dg o n {e} h k : st hd dg o e k ->
  keeps inv (fun r e' k' => st hd dg o e' k' /\ match r with None => True | Some (fd, f) => 0 <= fd < NOFILE /\ f = nthZ 0 o fd /\ f ∈ all_files end) e (argfd (R := R) n h k).
Proof.
  intros Hk. unfold argfd. eapply keeps_bind; [apply (keeps_same _ hd dg o); [apply stays_argint | exact Hk] |]. clear e h k Hk. intros fd e h k Hk. cbv beta in Hk.
  unfold me. rewrite bind_gets. destruct (st_mine _ _ _ _ Hk) as (-> & _ & _). destruct (_ || _ || _) eqn:E; [now split |].
  apply orb_false_iff in E as [E E3]. apply orb_false_iff in E as [E1 E2]. apply Z.ltb_ge in E1. apply Z.leb_gt in E2. apply Z.eqb_neq in E3.
  cbn. split; [exact Hk |]. split_and!; auto. destruct (st_fd _ _ _ _ fd Hk); [contradiction | assumption].
Qed.

(** ** System calls on descriptors *)

(** The thread holds nothing. *)
Definition settled (e : env) (k : K) : Prop := exists o, st [] [] o e k.

Lemma keeps_settled {B} (m : M K B) o {e} h k : stays true k_same m -> st [] [] o e k -> keeps inv (fun _ => settled) e (m h k).
Proof. intros Hm Hk. eapply keeps_mono; [| exact (keeps_same m [] [] o h k Hm Hk)]. intros a e' s Hs. now exists o. Qed.

Ltac kbind H := eapply keeps_bind; [eapply H |].

Lemma sys_dup_keeps o {e} h k : st [] [] o e k -> keeps inv (fun _ => settled) e (sys_dup (R := R) h k).
Proof.
  intros Hk. unfold sys_dup. kbind argfd_keeps; [exact Hk |]. clear e h k Hk. intros [[fd0 f]|] e h k [Hk Hfd]; [| now exists o]. destruct Hfd as (Hfd0 & Ef & Hf).
  kbind fdalloc_keeps; [exact Hf | exact Hk |]. clear e h k Hk. intros fd e h k [[-> Hk] | (Hfd & E0 & Hk)]; [now exists o |]. rewrite (proj2 (Z.ltb_ge fd 0)) by lia.
  kbind filedup_keeps; [exact Hk | cbn; lia |]. intros r e' h' k' Hk'. exists (updZ o fd f).
  apply (st_settle [] [] _ fd f); [exact Hk' | exact Hfd | apply not_elem_of_nil |]. destruct (st_mine _ _ _ _ Hk') as (_ & Hlen & _). apply nthZ_updZ_eq. rewrite length_updZ in Hlen. rewrite Hlen. lia.
Qed.

Lemma sys_close_keeps o {e} h k : st [] [] o e k -> keeps inv (fun _ => settled) e (Sysfile.sys_close (R := R) h k).
Proof.
  intros Hk. unfold Sysfile.sys_close. kbind argfd_keeps; [exact Hk |]. clear e h k Hk. intros [[fd f]|] e h k [Hk Hfd]; [| now exists o]. destruct Hfd as (Hfd & -> & Hf).
  kbind set_fd_detach; [exact Hk | cbn; lia | exact Hfd | apply not_elem_of_nil |]. clear e h k Hk. intros [] e h k Hk.
  kbind fileclose_keeps; [exact Hk |]. intros [] e' h' k' Hk'. now exists (updZ o fd 0).
Qed.

(** The references to the new files; 0 is none. *)
Definition new_refs (f0 f1 : Z) : list Z := (if f1 =? 0 then [] else [f1]) ++ (if f0 =? 0 then [] else [f0]).

Lemma all_files_nz f : f ∈ all_files -> (f =? 0) = false.
Proof. intros Hf. apply elem_of_seqZ in Hf. apply Z.eqb_neq. lia. Qed.

Definition pipe_files o (r : option (Z * Z)) (e : env) (k : K) : Prop :=
  match r with
  | None => st [] [] o e k
  | Some (f0, f1) => f0 ∈ all_files /\ f1 ∈ all_files /\ st [f1; f0] [] o e k
  end.

(** The order of references does not matter. *)
Lemma st_perm hd hd' dg o {e} k : st hd dg o e k -> (forall f, occurs f hd' = occurs f hd) -> length hd' = length hd -> st hd' dg o e k.
Proof. intros Hk Hc Hl. apply (st_refs hd hd' dg o k k); auto; [rewrite Hl; exact (st_length _ _ _ _ Hk) |]. intros f _. rewrite Hc. lia. Qed.

Lemma pipealloc_bad_keeps pi f0 f1 o {e} h k : st (new_refs f0 f1) [] o e k -> keeps inv (pipe_files o) e (pipealloc_bad (R := R) pi f0 f1 h k).
Proof.
  intros Hk. unfold pipealloc_bad. eapply keeps_bind; [eapply (keeps_same _ _ [] o); [destruct (negb (pi =? 0)); stay | exact Hk] |]. clear e h k Hk. intros [] e h k Hk.
  eapply (keeps_bind _ (fun _ => st (if f1 =? 0 then [] else [f1]) [] o)).
  - unfold new_refs in Hk. destruct (Z.eqb_spec f0 0) as [-> | Hf0]; cbn [negb]; [now rewrite app_nil_r in Hk |]. apply fileclose_keeps.
    apply (st_perm _ _ _ _ _ Hk); [| now destruct (f1 =? 0)]. intros f. rewrite occurs_app, !occurs_cons', occurs_nil. lia.
  - clear e h k Hk. intros [] e h k Hk. eapply (keeps_bind _ (fun _ => st [] [] o)); [| intros [] e' h' k' Hk'; exact Hk'].
    destruct (Z.eqb_spec f1 0); cbn [negb]; [exact Hk | now apply fileclose_keeps].
Qed.

Lemma pipealloc_keeps o {e} h k : st [] [] o e k -> keeps inv (pipe_files o) e (pipealloc (R := R) h k).
Proof.
  intros Hk. unfold pipealloc. kbind filealloc_keeps; [exact Hk | cbn; lia |]. clear e h k Hk. intros f0 e h k [[-> Hk] | [Hf0 Hk]]; [now apply pipealloc_bad_keeps |]. rewrite (all_files_nz f0 Hf0).
  kbind filealloc_keeps; [exact Hk | cbn; lia |]. clear e h k Hk.
  intros f1 e h k [[-> Hk] | [Hf1 Hk]]; [apply pipealloc_bad_keeps; unfold new_refs; now rewrite (all_files_nz f0 Hf0) |]. rewrite (all_files_nz f1 Hf1).
  eapply keeps_bind; [eapply (keeps_same _ _ [] o); [stay | exact Hk] |]. clear e h k Hk. intros pi e h k Hk. cbv beta in Hk.
  destruct (pi =? 0); [apply pipealloc_bad_keeps; unfold new_refs; now rewrite (all_files_nz f0 Hf0), (all_files_nz f1 Hf1) |].
  do 3 (eapply keeps_bind; [eapply (keeps_same _ _ [] o); [stay | exact Hk] |]; clear e h k Hk; intros [] e h k Hk). cbn. split_and!; auto.
Qed.

Lemma st_dgperm hd dg dg' o {e} k : st hd dg o e k -> (forall j, j ∈ dg' <-> j ∈ dg) -> st hd dg' o e k.
Proof.
  intros Hk Hd. pose proof (st_fd _ _ _ _ 0 Hk) as Hv. rewrite <- (updZ_same 0 o 0) by lia.
  apply (st_slot hd hd dg dg' o 0 (nthZ 0 o 0) k k); auto; [| unfold NOFILE; lia | exact (st_length _ _ _ _ Hk) |].
  - split; auto. destruct (st_mine _ _ _ _ Hk) as [-> _]. now rewrite updZ_same by lia.
  - intros f Hf. now rewrite (decide_ext _ _ _ _ (Hd 0)).
Qed.

Lemma pipe_bad_keeps rf wf o {e} h k : st [wf; rf] [] o e k -> keeps inv (fun _ => settled) e (pipe_bad (R := R) rf wf h k).
Proof.
  intros Hk. unfold pipe_bad. kbind fileclose_keeps; [refine (st_perm _ [rf; wf] _ _ _ Hk _ eq_refl); intros f; rewrite !occurs_cons', occurs_nil; lia |].
  clear e h k Hk. intros [] e h k Hk. kbind fileclose_keeps; [exact Hk |]. intros [] e' h' k' Hk'. now exists o.
Qed.

Lemma updZ_at o fd f hd dg {e} k : 0 <= fd < NOFILE -> st hd dg (updZ o fd f) e k -> nthZ 0 (updZ o fd f) fd = f.
Proof. intros Hfd Hk. destruct (st_mine _ _ _ _ Hk) as (_ & Hlen & _). rewrite length_updZ in Hlen. apply nthZ_updZ_eq. rewrite Hlen. lia. Qed.

Lemma sys_pipe_keeps o {e} h k : st [] [] o e k -> keeps inv (fun _ => settled) e (sys_pipe (R := R) h k).
Proof.
  intros Hk. unfold sys_pipe. eapply keeps_bind; [eapply (keeps_same _ _ [] o); [apply stays_argaddr | exact Hk] |]. clear e h k Hk. intros fdarray e h k Hk. cbv beta in Hk.
  kbind pipealloc_keeps; [exact Hk |]. clear e h k Hk. intros [[rf wf]|] e h k Hk; [| now exists o]. destruct Hk as (Hrf & Hwf & Hk).
  kbind fdalloc_keeps; [exact Hrf | exact Hk |]. clear e h k Hk. intros fd0 e h k [[-> Hk] | (Hfd0 & E0 & Hk)]; [now apply (pipe_bad_keeps rf wf o) |]. rewrite (proj2 (Z.ltb_ge fd0 0)) by lia.
  pose proof (updZ_at _ _ _ _ _ _ Hfd0 Hk) as N0. set (o1 := updZ o fd0 rf) in *.
  kbind fdalloc_keeps; [exact Hwf | exact Hk |]. clear e h k Hk. intros fd1 e h k [[-> Hk] | (Hfd1 & E1 & Hk)]; [| rewrite (proj2 (Z.ltb_ge fd1 0)) by lia].
  - kbind set_fd_clear; [exact Hk | exact Hfd0 | apply not_elem_of_nil |]. intros [] e' h' k' Hk'. now apply (pipe_bad_keeps rf wf (updZ o1 fd0 0)).
  - assert (H01 : fd0 <> fd1) by (intros ->; rewrite E1 in N0; subst rf; apply elem_of_seqZ in Hrf; lia).
    pose proof (updZ_at _ _ _ _ _ _ Hfd1 Hk) as N1. set (o2 := updZ o1 fd1 wf) in *.
    assert (N02 : nthZ 0 o2 fd0 = rf) by (unfold o2; rewrite nthZ_updZ_ne by lia; exact N0).
    do 3 (eapply keeps_bind; [eapply (keeps_same _ _ _ o2); [stay | exact Hk] |]; clear e h k Hk; intros ? e h k Hk; cbv beta in Hk).
    match goal with |- keeps _ _ _ ((if ?b then _ else _) _ _) => destruct b end.
    + apply (st_dgperm _ _ [fd0; fd1]) in Hk; [| intros j; rewrite !elem_of_cons; tauto].
      kbind set_fd_clear; [exact Hk | exact Hfd0 | rewrite elem_of_cons; intros [? | Hn]; [contradiction | inversion Hn] |]. clear e h k Hk. intros [] e h k Hk.
      kbind set_fd_clear; [exact Hk | exact Hfd1 | apply not_elem_of_nil |]. intros [] e' h' k' Hk'. now apply (pipe_bad_keeps rf wf (updZ (updZ o2 fd0 0) fd1 0)).
    + exists o2. apply (st_settle [] [] o2 fd0 rf); [| exact Hfd0 | apply not_elem_of_nil | exact N02].
      apply (st_settle [rf] [fd0] o2 fd1 wf); [exact Hk | exact Hfd1 | rewrite elem_of_cons; intros [? | Hn]; [congruence | inversion Hn] | exact N1].
Qed.

Lemma open_keeps path omode o {e} h k : st [] [] o e k -> keeps inv (fun _ => st [] [] o) e (open_inode (R := R) path omode h k).
Proof. apply keeps_same, stays_open_inode. Qed.

Lemma sys_open_keeps o {e} h k : st [] [] o e k -> keeps inv (fun _ => settled) e (Sysfile.sys_open (R := R) h k).
Proof.
  intros Hk. unfold Sysfile.sys_open.
  do 2 (eapply keeps_bind; [eapply (keeps_same _ _ [] o); [first [apply stays_argint | apply stays_argstr] | exact Hk] |]; clear e h k Hk; intros ? e h k Hk; cbv beta in Hk).
  match goal with |- keeps _ _ _ ((let (n, path) := ?a in _) _ _) => destruct a as [n path] end. destruct (n <? 0); [now exists o |].
  eapply keeps_bind; [eapply (keeps_same _ _ [] o); [stay | exact Hk] |]. clear e h k Hk. intros [] e h k Hk.
  kbind open_keeps; [exact Hk |]. clear e h k Hk. intros [ip|] e h k Hk; cbv beta in Hk; [| now exists o].
  eapply keeps_bind; [eapply (keeps_same _ _ [] o); [stay | exact Hk] |]. clear e h k Hk. intros x e h k Hk. cbv beta in Hk.
  match goal with |- keeps _ _ _ ((if ?b then _ else _) _ _) => destruct b end; [apply (keeps_settled _ o); [apply stays_open_bad | exact Hk] |].
  kbind filealloc_keeps; [exact Hk | cbn; lia |]. clear e h k Hk. intros f e h k [[-> Hk] | [Hf Hk]]; [apply (keeps_settled _ o); [apply stays_open_bad | exact Hk] |]. rewrite (all_files_nz f Hf).
  kbind fdalloc_keeps; [exact Hf | exact Hk |]. clear e h k Hk. intros fd e h k [[-> Hk] | (Hfd & E & Hk)]; [| rewrite (proj2 (Z.ltb_ge fd 0)) by lia].
  - kbind fileclose_keeps; [exact Hk |]. intros [] e' h' k' Hk'. apply (keeps_settled _ o); [apply stays_open_bad | exact Hk'].
  - apply (st_settle [] []) in Hk; [| exact Hfd | apply not_elem_of_nil | exact (updZ_at _ _ _ _ _ _ Hfd Hk)]. apply (keeps_settled _ (updZ o fd f)); [| exact Hk].
    apply stays_bind; [typeclasses eauto | | intros []; stay]. apply stays_modf. intros y. unfold open_file. now destruct (i_type x =? T_DEVICE).
Qed.

(** ** fork *)

Definition quiet (k k' : K) : Prop := same_fds (k_ps k) (k_ps k') /\ forall f, f_ref (ftable k' f) = f_ref (ftable k f).

(** The child [np] with the descriptors [on], next to its parent. *)
Record forking (np : Z) (o on : list Z) (e : env) (k : K) : Prop := {
  fk_others : others e;
  fk_np : np ∈ all_procs /\ np <> myproc;
  fk_A : forall p o, (p, o) ∈ e_alive e -> p <> np;
  fk_D : forall s, s ∈ e_empty e -> fst s <> np;
  fk_ok : fds_ok (e_held e) (e_empty e) ((np, on) :: (myproc, o) :: e_alive e) k }.

Lemma forking_quiet np o on {e} k k' : quiet k k' -> forking np o on e k -> forking np o on e k'.
Proof. intros [Hs Hf] [Fe F1 F2 F3 F4]. split; auto. exact (fds_ok_same _ _ _ _ _ Hs Hf F4). Qed.

Lemma forking_pr {B} (m : M psys B) np o on {e} h k : stays false same_fds m -> forking np o on e k -> keeps inv (fun _ => forking np o on) e (pr m h k).
Proof.
  intros Hm Hk. apply (keeps_quick inv quiet (forking np o on)); [| intros x x'; apply forking_quiet | exact Hk].
  eapply stays_zoom; [exact Hm |]. intros s t E. now split.
Qed.

Lemma fds_ok_drop hd D' A' x k : fds_ok hd D' (x :: A') k -> fds_ok (R := R) hd D' A' k.
Proof. intros [F1 F2 F3 F4 F5]. split; auto. intros p o Hp. apply F5. now apply list_elem_of_further. Qed.

Lemma st_nil o {e} k : st [] [] o e k <-> others e /\ fds_ok (e_held e) (e_empty e) ((myproc, o) :: e_alive e) k.
Proof. unfold st, mine. cbn. split; [now intros [[He _] Hk] | intros [He Hk]; split; [split; [exact He | lia] | exact Hk]]. Qed.

Lemma allocproc_keeps o {e} h k : st [] [] o e k ->
  keeps inv (fun np e' k' => np = 0 /\ st [] [] o e' k' \/ exists on, (forall i, nthZ 0 on i = 0) /\ forking np o on e' k') e (pr allocproc h k).
Proof.
  intros Hk. apply st_nil in Hk as [He Hk]. eapply keeps_mono; [| apply keeps_zoom with (1 := allocproc_within h (k_ps k))].
  intros np e' k' (-> & x & -> & [[-> Hs] | (Hin & Hd & Hs & Hl)]); [left; split; [reflexivity |]; apply st_nil; split; [exact He |]; exact (fds_ok_same _ _ _ k (set_k_ps x k) Hs (fun _ => eq_refl) Hk) |].
  right. exists (ofile (procs (k_ps k) np)). split; [intros i; exact (fo_dead _ _ _ _ Hk np i Hin Hd) |].
  assert (Hal : forall p o', (p, o') ∈ (myproc, o) :: e_alive e -> p <> np) by (intros p o' Hp ->; now destruct (fo_alive _ _ _ _ Hk np o' Hp) as (_ & Hn & _)).
  assert (Hk' : fds_ok (e_held e) (e_empty e) ((myproc, o) :: e_alive e) (set_k_ps x k)).
  { apply (fds_ok_procs _ _ _ k); [reflexivity | intros p; apply (Hs p) | | | exact Hk].
    - intros p Hp Hdp. left. apply (Hs p); [intros ->; contradiction | exact Hdp].
    - intros s Hs' Hds. apply (Hs (fst s)); [intros E; rewrite E in Hds; contradiction | exact Hds]. }
  split; [exact He | split; [exact Hin | intros ->; exact (Hal myproc o (list_elem_of_here _ _) eq_refl)] | intros p o' Hp; exact (Hal p o' (list_elem_of_further _ _ _ Hp)) | |].
  - intros s Hs' E. apply (fo_dang _ _ _ _ Hk s Hs'). now rewrite E.
  - destruct Hk' as [F1 F2 F3 F4 F5]. split; auto. intros p o' Hp. apply elem_of_cons in Hp as [[= -> ->] | Hp]; [| now apply F5]. split_and!; [exact Hin | exact Hl | apply Hs].
Qed.

Lemma pr_getproc p h (k : K) : pr (getproc p) h k = Ret (procs (k_ps k) p) h k.
Proof. unfold pr, zoom. cbn. now rewrite set_k_ps_eta. Qed.

Lemma forking_settled np o on {e} k : forking np o on e k -> settled e k.
Proof. intros [He _ _ _ F]. exists o. apply st_nil. split; [exact He | exact (fds_ok_drop _ _ _ _ _ F)]. Qed.

(** The loop over the descriptors: those in [l] are still empty in the child. *)
Lemma dup_files_keeps np o l : forall on e h k, NoDup l -> (forall i, i ∈ l -> 0 <= i < NOFILE /\ nthZ 0 on i = 0) -> forking np o on e k ->
  keeps inv (fun _ e' k' => exists on', forking np o on' e' k') e (dup_files (K := K) myproc np l h k).
Proof.
  induction l as [|i l IH]; intros on e h k Hnd Hl Hk; cbn [dup_files]; [now exists on |]. apply NoDup_cons in Hnd as [Hni Hnd]. destruct (Hl i (list_elem_of_here _ _)) as [Hi E0].
  assert (Hl' : forall j, j ∈ l -> 0 <= j < NOFILE /\ nthZ 0 on j = 0) by (intros j Hj; apply Hl; now apply list_elem_of_further).
  rewrite (bind_Ret _ _ _ _ _ _ _ (pr_getproc myproc h k)). destruct Hk as [He [F0 F1] F2 F3 F4].
  destruct (fo_alive _ _ _ _ F4 myproc o) as (_ & _ & ->); [apply list_elem_of_further, list_elem_of_here |]. set (f := nthZ 0 o i).
  destruct (Z.eqb_spec f 0) as [E | Hf]; cbn [negb]; [rewrite bind_ret; apply (IH on); auto; now split |].
  rewrite bind_bind. eapply keeps_bind; [apply (filedup_ok _ _ _ f h k F4); pose proof (ot_held e He); lia |]. intros r e1 h1 k1 (-> & -> & F5 & _). clear h k F4. rename h1 into h, k1 into k, F5 into F4.
  eapply (keeps_bind _ (fun _ => forking np o (updZ on i f))); [| intros [] e' h' k' Hk'; apply (IH (updZ on i f)); auto; intros j Hj; destruct (Hl' j Hj); split; auto; rewrite nthZ_updZ_ne; auto; try lia; congruence].
  assert (Hff : f ∈ all_files).
  { destruct (fo_alive _ _ _ _ F4 myproc o) as (_ & _ & Eo); [apply list_elem_of_further, list_elem_of_here |]. destruct (fo_fds _ _ _ _ F4 myproc Hme) as [_ Ho]. rewrite Eo in Ho.
    unfold f, nthZ in *. destruct (nth_in_or_default (Z.to_nat i) o 0) as [Hin | E]; [| contradiction]. destruct (Ho (nth (Z.to_nat i) o 0)) as [E | Hin']; [now apply list_elem_of_In | contradiction | exact Hin']. }
  cbn [keeps]. split; auto. refine (fds_ok_slot (f :: e_held e) (e_held e) (e_empty e) (e_empty e) _ np i f on k _ (set_ofile_slot np i f k) Hi (or_intror Hff) (fun s _ => iff_refl _) _ _ F4).
  - intros q o' Hq. apply elem_of_cons in Hq as [[= -> ->] | Hq]; [congruence | exact (F2 q o' Hq)].
  - intros g Hg. rewrite !decide_False by (intros Hd; now destruct (F3 _ Hd)). rewrite occurs_cons', E0, hit_zero by exact Hg. lia.
Qed.

Lemma fork_fails np o on {e} h k (r : Z) : (forall i, nthZ 0 on i = 0) -> forking np o on e k ->
  keeps inv (fun _ => settled) e ((pr (freeproc np);; pr (release (proc_lock np));; ret r) h k).
Proof.
  intros Hz [He [F0 F1] F2 F3 F4]. eapply (keeps_bind _ (fun _ => st [] [] o)).
  - eapply keeps_mono; [| apply keeps_zoom with (1 := within_final _ _ _ _ (freeproc_dead np h (k_ps k)))]. intros _ e' k' (-> & x & -> & Hs & Hd). apply st_nil. split; [exact He |].
    destruct (fo_alive _ _ _ _ F4 np on (list_elem_of_here _ _)) as (_ & _ & Eo). apply (fds_ok_procs _ _ _ k); [reflexivity | intros p; apply (Hs p) | | | exact (fds_ok_drop _ _ _ _ _ F4)].
    + intros p Hp Hdp. destruct (decide (p = np)) as [-> | Hn]; [| left; now apply (Hs p)]. right. split; [now rewrite Eo |].
      intros o' Ho'. apply elem_of_cons in Ho' as [[= E _] | Ho']; [congruence | now destruct (F2 _ _ Ho')].
    + intros s Hs' Hds. apply (Hs (fst s)); [exact (F3 s Hs') | exact Hds].
  - intros [] e' h' k' Hk'. apply (keeps_settled _ o); [| exact Hk']. apply stays_bind; [typeclasses eauto | | intros; stay].
    apply stays_prm_same. stay.
Qed.

Lemma stays_quiet_idup ip : stays false quiet (fsm (R := R) (idup ip)).
Proof. eapply stays_zoom; [apply stays_idup |]. intros s t E. now split. Qed.

Lemma fork_runnable np o on {e} h k : forking np o on e k -> keeps inv (fun _ => forking np o on) e (pr (modproc np (set_state RUNNABLE)) h k).
Proof.
  intros [He F1 F2 F3 F4]. cbn [keeps]. split; auto. apply (fds_ok_procs _ _ _ k); [reflexivity | | | | exact F4].
  - intros p. cbn. now destruct (Z.eqb_spec p np) as [-> |].
  - intros p _. cbn. destruct (Z.eqb_spec p np) as [-> |]; [intros [E | E]; discriminate E | now left].
  - intros s _. cbn. destruct (Z.eqb_spec (fst s) np) as [-> |]; [intros [E | E]; discriminate E | easy].
Qed.

Ltac fork_step np o on :=
  eapply keeps_bind;
    [eapply (forking_pr _ np o on);
       [first [solve [apply stays_getproc] | solve [apply stays_modproc; intros ?; split; reflexivity] | solve [stay_leaf]
              | apply quick_vm; first [solve [apply quick_uvmcopy] | solve [apply quick_modify] | solve [apply quick_write64]]] | eassumption]
    | lazymatch goal with Hk : forking np o on ?e ?k |- _ => clear Hk; try clear e k; intros ? ? ? k Hk; cbv beta in Hk end].

Lemma fork_keeps o {e} h k : st [] [] o e k -> keeps inv (fun _ => settled) e (sys_fork (R := R) h k).
Proof.
  intros Hk. unfold sys_fork, fork. eapply keeps_bind; [apply (allocproc_keeps o), Hk |]. clear e h k Hk. intros np e h k [[-> Hk] | (on & Hz & Hk)]; [now exists o |].
  assert (Hnz : (np =? 0) = false) by (destruct Hk as [_ [Hin _] _ _ _]; apply elem_of_seqZ in Hin; apply Z.eqb_neq; lia). rewrite Hnz. clear Hnz.
  do 3 fork_step np o on. match goal with |- keeps _ _ _ ((if ?b then _ else _) _ _) => destruct b end; [now apply (fork_fails np o on) |].
  do 3 fork_step np o on.
  eapply keeps_bind; [apply (dup_files_keeps np o _ on); [apply NoDup_seqZ | | exact Hk] |]; [intros i Hi; apply elem_of_seqZ in Hi; split; [lia | apply Hz] |].
  clear on Hz k Hk. intros [] ? ? k [on Hk].
  eapply keeps_bind; [exact (keeps_quick inv quiet (forking np o on) _ _ _ _ (stays_quiet_idup _) (fun _ _ => forking_quiet np o on _ _) Hk) |]. clear k Hk. intros ip ? ? k Hk. cbv beta in Hk.
  do 2 fork_step np o on. cbv zeta. do 5 fork_step np o on. eapply keeps_bind; [exact (fork_runnable _ _ _ _ _ Hk) |]. clear k Hk. intros [] ? ? k Hk. cbv beta in Hk.
  fork_step np o on. exact (forking_settled _ _ _ _ Hk).
Qed.

(** ** exit *)

Lemma close_files_keeps l : forall o e h k, NoDup l -> (forall i, i ∈ l -> 0 <= i < NOFILE) -> st [] [] o e k ->
  keeps inv (fun _ e' k' => exists o', (forall i, 0 <= i -> nthZ 0 o' i = 0 \/ (i ∉ l) /\ nthZ 0 o' i = nthZ 0 o i) /\ st [] [] o' e' k') e (close_files (K := K) myproc l h k).
Proof.
  induction l as [|fd l IH]; intros o e h k Hnd Hl Hk; cbn [close_files]; [exists o; split; [intros i _; right; split; [apply not_elem_of_nil | reflexivity] | exact Hk] |].
  apply NoDup_cons in Hnd as [Hni Hnd]. pose proof (Hl fd (list_elem_of_here _ _)) as Hfd. assert (Hl' : forall i, i ∈ l -> 0 <= i < NOFILE) by (intros i Hi; apply Hl; now apply list_elem_of_further).
  rewrite (bind_Ret _ _ _ _ _ _ _ (pr_getproc myproc h k)). destruct (st_mine _ _ _ _ Hk) as (-> & Hlen & _). set (f := nthZ 0 o fd).
  apply (keeps_bind _ (fun _ => st [] [] (updZ o fd 0))).
  - destruct (Z.eqb_spec f 0) as [E | Hf]; cbn [negb]; [cbn [keeps ret]; rewrite <- E; unfold f; now rewrite updZ_same by lia |].
    kbind fileclose_keeps; [apply (st_dangle [] [] o fd k Hk); [cbn; lia | exact Hfd | apply not_elem_of_nil] |]. intros [] e' h' k' Hk'.
    apply (set_fd_clear [] [] o fd k' h' Hk' Hfd). apply not_elem_of_nil.
  - clear e h k Hk. intros [] e h k Hk. eapply keeps_mono; [| exact (IH _ e h k Hnd Hl' Hk)]. intros _ e' k' (o' & Ho' & Hk'). exists o'. split; [| exact Hk'].
    intros i Hi. destruct (Ho' i Hi) as [E | [Hn E]]; [now left |]. destruct (decide (i = fd)) as [-> | Hne]; [left; rewrite E; apply nthZ_updZ_eq; rewrite Hlen; lia |].
    right. split; [rewrite elem_of_cons; tauto | rewrite E; apply nthZ_updZ_ne; lia].
Qed.

Lemma exit_tail_ends me status h x0 x : same_but me x0 x -> ends (fun x' => same_but me x0 x' /\ dead (procs x' me)) (exit_tail me status h x).
Proof.
  intros Hx. unfold exit_tail.
  do 6 (eapply (within_ends (same_but me) (fun _ _ => True));
    [match goal with |- within ?b ?E _ ?s (?m ?h ?s) => assert (Hm : stays b E m) by first [apply stays_but_modproc; reflexivity | apply stays_but; first [apply stays_reparent | apply stays_wakeup_loop | apply stays_getproc | stay_leaf]]; exact (Hm h s) end
    | intros ? h1 x1 Hx1 _; assert (Hx2 : same_but me x0 x1) by exact (transitivity Hx Hx1); clear h x Hx Hx1; rename h1 into h, x1 into x, Hx2 into Hx]).
  unfold modproc. rewrite bind_modify. set (x1 := upd_proc me (set_state ZOMBIE) x).
  assert (Hx1 : same_but me x0 x1 /\ dead (procs x1 me)).
  { split; [transitivity x; [exact Hx |] | unfold x1; cbn; rewrite Z.eqb_refl; now right]. intros i. unfold x1. cbn. destruct (Z.eqb_spec i me) as [-> |]; split; easy. }
  clearbody x1. eapply (within_ends eq (fun _ _ => True)); [apply stays_release; typeclasses eauto |]. intros [] h1 x2 <- _.
  unfold bind, sched. repeat case_match; try exact I. split; [exact Hx1 | intros s'; exact I].
Qed.

Lemma exit_keeps n o {e} h k : st [] [] o e k -> keeps inv (fun _ => settled) e (exit (K := K) myproc n h k).
Proof.
  intros Hk. unfold exit.
  eapply keeps_bind; [eapply (keeps_same _ _ [] o); [apply (stays_prm_same true (gets initproc)); stay | exact Hk] |]. clear e h k Hk. intros init e h k Hk. cbv beta in Hk.
  destruct (myproc =? init); [exact I |].
  eapply keeps_bind; [apply (close_files_keeps _ o); [apply NoDup_seqZ | intros i Hi; apply elem_of_seqZ in Hi; lia | exact Hk] |]. clear e h k Hk. intros [] e h k (o' & Ho & Hk).
  assert (Hz : forall i, nthZ 0 o' i = 0).
  { destruct (st_mine _ _ _ _ Hk) as (_ & Hlen & _). intros i. destruct (decide (i < NOFILE)) as [Hi | Hi]; [| apply nth_overflow; lia].
    replace (nthZ 0 o' i) with (nthZ 0 o' (Z.max 0 i)) by (unfold nthZ; f_equal; lia). destruct (Ho (Z.max 0 i)) as [E | [Hn _]]; [lia | exact E | exfalso; apply Hn, elem_of_seqZ; unfold NOFILE in *; lia]. }
  clear o Ho. do 5 (eapply keeps_bind; [eapply (keeps_same _ [] [] o'); [first [apply stays_fsm; solve [auto with stays nocore] | apply stays_prm_same; first [apply stays_getproc | apply stays_modproc; intros ?; split; reflexivity]] | exact Hk] |]; clear e h k Hk; intros ? e h k Hk; cbv beta in Hk).
  apply st_nil in Hk as [He Hk]. apply (keeps_ends inv None _ _ _ _ _ e k) with (2 := exit_tail_ends _ _ h _ _ (reflexivity (k_ps k))). intros x [Hs Hd]. split; [exact He |].
  destruct (fo_alive _ _ _ _ Hk myproc o' (list_elem_of_here _ _)) as (_ & _ & Eo). apply fds_ok_drop in Hk.
  apply (fds_ok_procs _ _ _ k); [reflexivity | intros p; apply (Hs p) | | | exact Hk].
  - intros p Hp Hdp. destruct (decide (p = myproc)) as [-> | Hn]; [| left; now apply (Hs p)]. right. split; [now rewrite Eo |]. intros o Hin. now destruct (ot_alive e He _ _ Hin).
  - intros s Hin Hds. apply (Hs (fst s)); [exact (ot_empty e He s Hin) | exact Hds].
Qed.

Lemma sys_exit_keeps o {e} h k : st [] [] o e k -> keeps inv (fun _ => settled) e (sys_exit (R := R) h k).
Proof.
  intros Hk. unfold sys_exit. eapply keeps_bind; [eapply (keeps_same _ _ [] o); [apply stays_argint | exact Hk] |]. clear e h k Hk. intros n e h k Hk. cbv beta in Hk.
  eapply keeps_bind; [exact (exit_keeps n o h k Hk) |]. intros [] e' h' k' Hk'. exact Hk'.
Qed.

(** ** All system calls *)

Lemma syscalls_keeps pad num f o {e} h k : syscalls (R := R) pad num = Some f -> st [] [] o e k -> keeps inv (fun _ => settled) e (f h k).
Proof.
  intros E Hk. unfold syscalls in E. repeat case_match; try discriminate E; injection E as <-;
  lazymatch goal with
  | |- keeps _ _ _ (sys_fork _ _) => exact (fork_keeps o h k Hk)
  | |- keeps _ _ _ (sys_exit _ _) => exact (sys_exit_keeps o h k Hk)
  | |- keeps _ _ _ (sys_pipe _ _) => exact (sys_pipe_keeps o h k Hk)
  | |- keeps _ _ _ (sys_dup _ _) => exact (sys_dup_keeps o h k Hk)
  | |- keeps _ _ _ (Sysfile.sys_open _ _) => exact (sys_open_keeps o h k Hk)
  | |- keeps _ _ _ (Sysfile.sys_close _ _) => exact (sys_close_keeps o h k Hk)
  | |- _ => apply (keeps_settled _ o); [| exact Hk]
  end; auto using stays_sys_read, stays_sys_write, stays_sys_fstat, stays_sys_link, stays_sys_unlink, stays_sys_mkdir, stays_sys_mknod, stays_sys_chdir, stays_sys_exec,
    stays_sys_getpid, stays_sys_wait, stays_sys_sbrk, stays_sys_sleep, stays_sys_pgpte, stays_sys_kpgtbl, stays_sys_kill, stays_sys_uptime.
Qed.

Lemma syscall_keeps pad o {e} h k : st [] [] o e k -> keeps inv (fun _ => settled) e (syscall (R := R) pad h k).
Proof.
  intros Hk. unfold syscall.
  do 2 (eapply keeps_bind; [eapply (keeps_same _ _ [] o); [solve [stay] | exact Hk] |]; clear e h k Hk; intros ? e h k Hk; cbv beta in Hk). cbv zeta.
  match goal with |- keeps _ _ _ ((match ?x with _ => _ end) _ _) => destruct x as [f|] eqn:E end; [| apply (keeps_settled _ o); [stay | exact Hk]].
  match type of E with (if ?b then _ else _) = _ => destruct b; [| discriminate E] end. eapply keeps_bind; [exact (syscalls_keeps pad _ f o h k E Hk) |]. intros r e' h' k' [o' Hk']. apply (keeps_settled _ o'); [stay | exact Hk'].
Qed.

End refs.

(** ** Many processes

    The threads of the processes are in the kernel at the same time; they
    interleave where they give up the processor.  A thread comes into the kernel
    with a system call or, when its process was killed, with [exit]. *)

Section threads.
Context `{Layout} `{Symbols} {R : Type} `{UartRegs R}.
Abbreviation K := (kernel R).
Abbreviation cont := (K -> outcome K unit).

Inductive entry (p : Z) : M K unit -> Prop :=
| entry_syscall pad : entry p (let _ : Thread := p in syscall pad)
| entry_exit n : entry p (let _ : Thread := p in exit p n).

(** Where a thread stops: at its return to the user, or asleep. *)
Inductive rests : outcome K unit -> K -> option cont -> Prop :=
| rests_ret h k : rests (Ret tt h k) k None
| rests_sleep c k f : rests (Sleep c k f) k (Some f)
| rests_emit v o k r : rests o k r -> rests (Emit v o) k r.

Definition left_with (p : Z) (r : option cont) : list (Z * cont) :=
  match r with None => [] | Some f => [(p, f)] end.

(** The scheduler, interrupts and devices neither touch descriptors nor end a
    process; the thread of a dead process is not run again. *)
Inductive step : K * list (Z * cont) -> K * list (Z * cont) -> Prop :=
| step_enter p m k k' r T : p ∈ all_procs -> ~ dead (procs (k_ps k) p) -> p ∉ map fst T -> entry p m -> rests (m [] k) k' r ->
    step (k, T) (k', left_with p r ++ T)
| step_resume p f k k' r T1 T2 : rests (f k) k' r -> step (k, T1 ++ (p, f) :: T2) (k', left_with p r ++ T1 ++ T2)
| step_gone p f k T1 T2 : dead (procs (k_ps k) p) -> step (k, T1 ++ (p, f) :: T2) (k, T1 ++ T2)
| step_other k k' T : quiet k k' -> step (k, T) (k', T).

(** What a thread has. *)
Abbreviation ghost := (option (list Z * list Z * list Z)).
Definition g_held (x : Z * ghost) : list Z := match snd x with Some (hd, _, _) => hd | None => [] end.
Definition g_empty (x : Z * ghost) : list slot := match snd x with Some (_, dg, _) => map (pair (fst x)) dg | None => [] end.
Definition g_alive (x : Z * ghost) : list (Z * list Z) := match snd x with Some (_, _, o) => [(fst x, o)] | None => [] end.

Definition env_of (gs : list (Z * ghost)) : env :=
  {| e_held := flat_map g_held gs; e_empty := flat_map g_empty gs; e_alive := flat_map g_alive gs |}.

Definition ok_with (e : env) (k : K) : Prop := fds_ok (e_held e) (e_empty e) (e_alive e) k.

Definition owns (t : Z * cont) (x : Z * ghost) : Prop :=
  fst x = fst t /\ fst t ∈ all_procs /\ Z.of_nat (length (g_held x)) <= 2 /\
  forall e k, inv (H1 := fst t) e (snd x) k -> keeps (inv (H1 := fst t)) (fun _ => settled (H1 := fst t)) e (snd t k).

(** The references are those of the descriptors and of the threads. *)
Definition pool_ok (s : K * list (Z * cont)) : Prop :=
  exists gs, NoDup (map fst (snd s)) /\ Forall2 owns (snd s) gs /\ ok_with (env_of gs) (fst s).

Lemma fds_ok_reorder held held' D D' A A' (k : K) :
  (forall f, occurs f held' = occurs f held) -> (forall s, s ∈ D' <-> s ∈ D) -> (forall x, x ∈ A' -> x ∈ A) -> fds_ok held D A k -> fds_ok held' D' A' k.
Proof.
  intros Hh HD HA [F1 F2 F3 F4 F5]. split; auto; [| intros s Hs; apply F4; now apply HD].
  intros f Hf. rewrite (F1 f Hf), Hh. do 2 f_equal. apply map_ext. intros s. unfold fd_at. now rewrite (decide_ext _ _ _ _ (HD s)).
Qed.

(** The thread [x] in front of the others. *)
Lemma ok_front x gs1 gs2 (k : K) : ok_with (env_of (gs1 ++ x :: gs2)) k <-> ok_with (env_of (x :: gs1 ++ gs2)) k.
Proof.
  assert (Hm : forall {B} (g : Z * ghost -> list B) y, y ∈ flat_map g (gs1 ++ x :: gs2) <-> y ∈ flat_map g (x :: gs1 ++ gs2)).
  { intros B g y. cbn. rewrite !flat_map_app. cbn. rewrite !elem_of_app. tauto. }
  assert (Hc : forall f, occurs f (flat_map g_held (gs1 ++ x :: gs2)) = occurs f (flat_map g_held (x :: gs1 ++ gs2))).
  { intros f. cbn. rewrite !flat_map_app. cbn. rewrite !occurs_app. lia. }
  split; apply fds_ok_reorder; cbn [env_of e_held e_empty e_alive]; intros; now rewrite ?Hc, ?Hm in *.
Qed.

Lemma flat_map_key {B} (g : Z * ghost -> list B) (key : B -> Z) gs y : (forall x y, y ∈ g x -> key y = fst x) -> y ∈ flat_map g gs -> key y ∈ map fst gs.
Proof.
  intros Hg Hy. apply list_elem_of_In, in_flat_map in Hy as (x & Hx & Hy). apply list_elem_of_In in Hy. rewrite (Hg x y Hy). apply list_elem_of_In, in_map, Hx.
Qed.

Lemma g_empty_key x s : s ∈ g_empty x -> fst s = fst x.
Proof. unfold g_empty. destruct (snd x) as [[[hd dg] o]|]; [| inversion 1]. intros Hs. apply list_elem_of_fmap in Hs as (j & -> & _). reflexivity. Qed.
Lemma g_alive_key x (y : Z * list Z) : y ∈ g_alive x -> fst y = fst x.
Proof. unfold g_alive. destruct (snd x) as [[[hd dg] o]|]; [| inversion 1]. intros Hs. apply elem_of_cons in Hs as [-> | Hs]; [reflexivity | inversion Hs]. Qed.

(** The references of the threads are few. *)
Lemma helds_length T gs : Forall2 owns T gs -> Z.of_nat (length (flat_map g_held gs)) <= 2 * Z.of_nat (length T).
Proof. induction 1 as [|t x T gs Hx _ IH]; cbn; [lia |]. rewrite length_app. destruct Hx as (_ & _ & Hl & _). lia. Qed.

Lemma owns_keys T gs : Forall2 owns T gs -> map fst gs = map fst T.
Proof. induction 1 as [|t x T gs Hx _ IH]; cbn; [reflexivity |]. destruct Hx as [-> _]. now rewrite IH. Qed.

Lemma owns_procs T gs p : Forall2 owns T gs -> p ∈ map fst T -> p ∈ all_procs.
Proof. induction 1 as [|t x T gs Hx _ IH]; cbn; [inversion 1 |]. intros Hp. apply elem_of_cons in Hp as [-> | Hp]; [apply Hx | now apply IH]. Qed.

Lemma threads_few T gs : Forall2 owns T gs -> NoDup (map fst T) -> Z.of_nat (length T) <= 64.
Proof.
  intros Ho Hnd. assert (length (map fst T) <= length all_procs)%nat as Hl; [| rewrite length_map in Hl; change (length all_procs) with 64%nat in Hl; lia].
  apply submseteq_length, NoDup_submseteq; [exact Hnd |]. intros q. now apply (owns_procs _ _ _ Ho).
Qed.

Lemma others_of (p : Z) T gs : Forall2 owns T gs -> NoDup (map fst T) -> p ∉ map fst T -> others (H := p) (env_of gs).
Proof.
  intros Ho Hnd Hp. rewrite <- (owns_keys _ _ Ho) in Hp. split; cbn [env_of e_held e_empty e_alive].
  - pose proof (helds_length _ _ Ho). pose proof (threads_few _ _ Ho Hnd). lia.
  - intros s Hs E. change (fst s = p) in E. apply Hp. rewrite <- E. apply (flat_map_key g_empty fst); [apply g_empty_key | exact Hs].
  - intros q o Hq E. change (q = p) in E. subst q. apply Hp. apply (flat_map_key g_alive fst gs (p, o)); [apply g_alive_key | exact Hq].
Qed.

(** The state as the thread [p] sees it. *)
Lemma ok_inv (p : Z) g gs (k : K) : others (H := p) (env_of gs) -> Z.of_nat (length (g_held (p, g))) <= 2 ->
  ok_with (env_of ((p, g) :: gs)) k <-> inv (H1 := p) (env_of gs) g k.
Proof.
  intros He Hl. unfold inv, st, mine, ok_with. destruct g as [[[hd dg] o]|]; cbn; [| tauto]. cbn in Hl. tauto.
Qed.

Lemma inv_length (p : Z) e g (k : K) : inv (H1 := p) e g k -> Z.of_nat (length (g_held (p, g))) <= 2.
Proof. destruct g as [[[hd dg] o]|]; cbn; [| lia]. now intros [[_ Hl] _]. Qed.

Lemma keeps_rests (p : Z) e o k' r : keeps (inv (H1 := p)) (fun _ => settled (H1 := p)) e o -> rests o k' r ->
  match r with
  | None => ok_with e k'
  | Some f => exists g, inv (H1 := p) e g k' /\ forall e' s', inv (H1 := p) e' g s' -> keeps (inv (H1 := p)) (fun _ => settled (H1 := p)) e' (f s')
  end.
Proof.
  intros Hk. induction 1 as [h k | c k f | v o k r _ IH]; [| exact Hk | exact (IH Hk)].
  destruct Hk as [o Hk]. apply st_nil in Hk as [_ Hk]. exact (fds_ok_drop _ _ _ _ _ Hk).
Qed.

Lemma pool_run (p : Z) T gs o k' r : Forall2 owns T gs -> NoDup (map fst T) -> p ∉ map fst T -> p ∈ all_procs ->
  keeps (inv (H1 := p)) (fun _ => settled (H1 := p)) (env_of gs) o -> rests o k' r -> pool_ok (k', left_with p r ++ T).
Proof.
  intros Ho Hnd Hp Hpp Hk Hr. pose proof (keeps_rests _ _ _ _ _ Hk Hr) as Hk'. destruct r as [f|]; cbn [left_with app] in *; [| now exists gs].
  destruct Hk' as (g & Hg & Hf). exists ((p, g) :: gs). split_and!; cbn [fst snd map]; [now apply NoDup_cons | constructor; [| exact Ho] |].
  - split_and!; [reflexivity | exact Hpp | exact (inv_length _ _ _ _ Hg) | exact Hf].
  - apply ok_inv; [exact (others_of p T gs Ho Hnd Hp) | exact (inv_length _ _ _ _ Hg) | exact Hg].
Qed.

Lemma entry_keeps (p : Z) m o e (k : K) : p ∈ all_procs -> entry p m -> st (H1 := p) [] [] o e k -> keeps (inv (H1 := p)) (fun _ => settled (H1 := p)) e (m [] k).
Proof. intros Hp [pad | n] Hk; [exact (syscall_keeps (H1 := p) Hp pad o [] k Hk) | exact (exit_keeps (H1 := p) Hp n o [] k Hk)]. Qed.

Lemma NoDup_middle' (l1 l2 : list Z) p : NoDup (l1 ++ p :: l2) -> (p ∉ l1 ++ l2) /\ NoDup (l1 ++ l2).
Proof. intros Hnd. apply NoDup_cons. now rewrite (Permutation_middle l1 l2 p). Qed.

Lemma step_ok s s' : step s s' -> pool_ok s -> pool_ok s'.
Proof.
  intros Hs (gs & Hnd & Ho & Hk). destruct Hs as [p m k k' r T Hpp Hd Hp Hm Hr | p f k k' r T1 T2 Hr | p f k T1 T2 Hd | k k' T Hq]; cbn [fst snd] in *.
  - refine (pool_run p T gs _ _ _ Ho Hnd Hp Hpp _ Hr). apply (entry_keeps p m (ofile (procs (k_ps k) p))); [exact Hpp | exact Hm |]. apply st_nil. split; [exact (others_of p T gs Ho Hnd Hp) |].
    destruct Hk as [F1 F2 F3 F4 F5]. split; auto. intros q o Hq. apply elem_of_cons in Hq as [[= -> ->] | Hq]; [now split_and! | now apply F5].
  - apply Forall2_app_inv_l in Ho as (gs1 & gs2' & Ho1 & Ho2 & ->). apply Forall2_cons_inv_l in Ho2 as ([q g] & gs2 & Hx & Ho2 & ->). destruct Hx as (E & Hpp & Hl & Hf). cbn [fst snd] in *. subst q.
    rewrite map_app in Hnd. cbn [map fst] in Hnd. apply NoDup_middle' in Hnd as [Hp Hnd]. rewrite <- map_app in Hp, Hnd.
    refine (pool_run p (T1 ++ T2) (gs1 ++ gs2) _ _ _ (Forall2_app Ho1 Ho2) Hnd Hp Hpp _ Hr). apply Hf, ok_inv; [exact (others_of p _ _ (Forall2_app Ho1 Ho2) Hnd Hp) | exact Hl | now apply ok_front].
  - apply Forall2_app_inv_l in Ho as (gs1 & gs2' & Ho1 & Ho2 & ->). apply Forall2_cons_inv_l in Ho2 as ([q g] & gs2 & Hx & Ho2 & ->). destruct Hx as (E & Hpp & Hl & Hf). cbn [fst snd] in *. subst q.
    rewrite map_app in Hnd. cbn [map fst] in Hnd. apply NoDup_middle' in Hnd as [Hp Hnd]. rewrite <- map_app in Hp, Hnd. apply ok_front in Hk.
    exists (gs1 ++ gs2). split_and!; [exact Hnd | now apply Forall2_app |]. destruct g as [[[hd dg] o]|]; [| exact Hk].
    destruct (fo_alive _ _ _ _ Hk p o (list_elem_of_here _ _)) as (_ & Hn & _). contradiction.
  - exists gs. split_and!; auto. destruct Hq as [Hq1 Hq2]. exact (fds_ok_same _ _ _ _ _ Hq1 Hq2 Hk).
Qed.

Lemma reach_ok k0 s : ok_with (env_of []) k0 -> rtc step (k0, []) s -> pool_ok s.
Proof.
  intros Hk Hs. remember (k0, []) as s0 eqn:E. assert (Hp : pool_ok s0) by (subst s0; exists []; split_and!; [constructor | constructor | exact Hk]).
  clear E Hk. induction Hs as [|s1 s2 s3 H12 _ IH]; [exact Hp |]. exact (IH (step_ok _ _ H12 Hp)).
Qed.

(** C25: Processes make system calls, are killed, create others and wait for them,
    in any order and interleaved where they give up the processor.  The number of
    references of an open file is at any time the number of descriptors that
    refer to it, except those that a thread in the kernel is about to fill or to
    clear, plus the references that threads in the kernel hold, at most two
    each. *)
Theorem references_counted (k0 k : K) T : fds_ok [] [] [] k0 -> rtc step (k0, []) (k, T) ->
  exists held empty, Z.of_nat (length held) <= 2 * Z.of_nat (length T) /\ (forall s, s ∈ empty -> fst s ∈ map fst T) /\
    forall f, f ∈ all_files -> f_ref (ftable k f) = occurs f (descriptors empty (k_ps k)) + occurs f held.
Proof.
  intros Hk Hs. destruct (reach_ok k0 (k, T) Hk Hs) as (gs & _ & Ho & Hok). cbn [fst snd] in *. exists (flat_map g_held gs), (flat_map g_empty gs). split_and!.
  - exact (helds_length _ _ Ho).
  - intros s Hin. rewrite <- (owns_keys _ _ Ho). exact (flat_map_key g_empty fst gs s g_empty_key Hin).
  - apply Hok.
Qed.

Lemma occurs_pos f l : f ∈ l -> 1 <= occurs f l.
Proof. intros Hf. unfold occurs. apply list_elem_of_In, (count_occ_In Z.eq_dec) in Hf. lia. Qed.

(** C26: A descriptor of a process that is not in the kernel refers to an open file
    that is in use. *)
Theorem descriptors_live (k0 k : K) T p fd : fds_ok [] [] [] k0 -> rtc step (k0, []) (k, T) ->
  p ∈ all_procs -> p ∉ map fst T -> 0 <= fd < NOFILE -> nthZ 0 (ofile (procs (k_ps k) p)) fd <> 0 ->
  let f := nthZ 0 (ofile (procs (k_ps k) p)) fd in f ∈ all_files /\ 1 <= f_ref (ftable k f).
Proof.
  intros Hk Hs Hp Hn Hfd Hz f. destruct (reach_ok k0 (k, T) Hk Hs) as (gs & _ & Ho & Hok). cbn [fst snd] in *.
  assert (Hf : f ∈ all_files).
  { unfold f, nthZ in *. destruct (fo_fds _ _ _ _ Hok p Hp) as [_ Hof]. destruct (nth_in_or_default (Z.to_nat fd) (ofile (procs (k_ps k) p)) 0) as [Hin | E]; [| contradiction].
    destruct (Hof _ (proj2 (list_elem_of_In _ _) Hin)); [contradiction | assumption]. }
  split; [exact Hf |]. rewrite (fo_refs _ _ _ _ Hok f Hf). pose proof (occurs_bound f (e_held (env_of gs))).
  enough (1 <= occurs f (descriptors (e_empty (env_of gs)) (k_ps k))) by lia. apply occurs_pos. unfold descriptors. apply list_elem_of_fmap. exists (p, fd).
  split; [| now apply elem_all_slots]. unfold fd_at. rewrite decide_False; [reflexivity |]. intros Hin. apply Hn. rewrite <- (owns_keys _ _ Ho). exact (flat_map_key g_empty fst gs (p, fd) g_empty_key Hin).
Qed.

(** C27: In every state that is reached, each process has [NOFILE] descriptors, each
    of them null or a file of the table; a process that is unused or a zombie has
    none; and the reference counts stay in the range of [int]. *)
Theorem descriptors_typed (k0 k : K) T : fds_ok [] [] [] k0 -> rtc step (k0, []) (k, T) ->
  (forall p, p ∈ all_procs -> length (ofile (procs (k_ps k) p)) = Z.to_nat NOFILE /\ forall f, f ∈ ofile (procs (k_ps k) p) -> f = 0 \/ f ∈ all_files) /\
  (forall p f, p ∈ all_procs -> dead (procs (k_ps k) p) -> f ∈ ofile (procs (k_ps k) p) -> f = 0) /\
  (forall f, f ∈ all_files -> 0 <= f_ref (ftable k f) <= 1024 + 2 * 64).
Proof.
  intros Hk Hs. destruct (reach_ok k0 (k, T) Hk Hs) as (gs & Hnd & Ho & Hok). cbn [fst snd] in *. split_and!; [exact (fo_fds _ _ _ _ Hok) | |].
  - intros p f Hp Hd Hf. apply list_elem_of_lookup_1 in Hf as [i Hi]. rewrite <- (fo_dead _ _ _ _ Hok p (Z.of_nat i) Hp Hd). unfold nthZ. rewrite Nat2Z.id. symmetry. now apply nth_lookup_Some.
  - intros f Hf. rewrite (fo_refs _ _ _ _ Hok f Hf). pose proof (descriptors_bound f (e_empty (env_of gs)) (k_ps k)). pose proof (occurs_bound f (descriptors (e_empty (env_of gs)) (k_ps k))).
    pose proof (occurs_bound f (e_held (env_of gs))). pose proof (helds_length _ _ Ho). pose proof (threads_few _ _ Ho Hnd). cbn [env_of e_held] in *. lia.
Qed.

End threads.

(** ** Example: [dup]

    The first process runs and has one descriptor; its trap frame asks for the
    system call [dup] of descriptor 0. *)

Module Demo.
Definition tf : Z := 0x87000000.
Definition demo_proc (p : Z) : proc :=
  if p =? 1 then Proc RUNNING None 0 0 1 0 0 0 0 tf (Ctx 0 0 []) (1 :: repeat 0 15) 0 (repeat 0 16)
  else Proc UNUSED None 0 0 0 0 0 0 0 0 (Ctx 0 0 []) (repeat 0 16) 0 (repeat 0 16).
Definition demo_mem (a : Z) : Z := if a =? tf + TF_a7 then 10 else 0.
Definition demo_kernel : kernel (list Z) :=
  Kernel (FSys (Core (BCache (fun _ => Buf 0 0 0 (SLock 0 0) 0 0 0 []) (fun _ => []) 0) (PSys (mkPhys demo_mem 0 [] 0) demo_proc 2 1 (fun _ => 1)))
      (Log 2 30 0 0 1 0 []) (Superblock 0 0 0 0 0 0 0 0) (fun _ => Inode 0 0 0 (SLock 0 0) 0 0 0 0 0 0 []))
    (fun f => if f =? 1 then File FD_DEVICE 1 1 1 0 0 0 1 else File FD_NONE 0 0 0 0 0 0 0)
    (fun _ => dev_null) (fun _ => dev_null) (fun _ => MkPipe [] 0 0 0 0) (Con [] 0 0 0 [] 0 0 [] tt) 0.
Lemma demo_ok : fds_ok [] [] [] demo_kernel.
Proof.
  split; [| | | intros s Hs; inversion Hs | intros p o Hp; inversion Hp].
  - assert (Hc : forallb (fun f => f_ref (ftable demo_kernel f) =? occurs f (descriptors [] (k_ps demo_kernel)) + occurs f []) all_files = true) by (vm_compute; reflexivity).
    intros f Hf. apply Z.eqb_eq. rewrite forallb_forall in Hc. now apply Hc, list_elem_of_In.
  - intros p _. unfold k_ps. cbn. unfold demo_proc. destruct (p =? 1); (split; [reflexivity |]); apply Forall_forall; apply (bool_decide_unpack _); vm_compute; exact I.
  - intros p i _. unfold k_ps. cbn. unfold demo_proc. destruct (p =? 1); [intros [E | E]; discriminate E |]. intros _. unfold nthZ. cbn [ofile]. apply nth_repeat.
Qed.

Fixpoint final {A} (o : outcome (kernel (list Z)) A) : option (kernel (list Z)) :=
  match o with Ret _ _ k => Some k | Emit _ o => final o | _ => None end.

Lemma rests_final o k : final o = Some k -> rests o k None.
Proof. induction o as [[] h k' | | | | v o IH |]; cbn; try discriminate; [intros [= ->]; constructor | intros E; constructor; auto]. Qed.

Lemma demo_syscall : exists k, rtc step (demo_kernel, []) (k, []) /\ f_ref (ftable k 1) = 2 /\ nthZ 0 (ofile (procs (k_ps k) 1)) 1 = 1.
Proof.
  assert (E : option_map (fun k => (f_ref (ftable k 1), nthZ 0 (ofile (procs (k_ps k) 1)) 1)) (final ((let _ : Thread := 1 in syscall []) [] demo_kernel)) = Some (2, 1)) by (vm_compute; reflexivity).
  destruct (final _) as [k|] eqn:Ek; [injection E as E1 E2 | discriminate E]. exists k. split; [| now split].
  apply rtc_once, (step_enter 1 (let _ : Thread := 1 in syscall []) demo_kernel k None []); [apply elem_of_seqZ; unfold NPROC; lia | intros [Ed | Ed]; discriminate Ed | apply not_elem_of_nil | constructor | now apply rests_final].
Qed.

Lemma references_counted_witness : exists k, rtc step (demo_kernel, []) (k, []) /\ f_ref (ftable k 1) = 2 /\
  exists held empty, Z.of_nat (length held) <= 2 * Z.of_nat (length (@nil (Z * (kernel (list Z) -> outcome (kernel (list Z)) unit)))) /\ (forall s, s ∈ empty -> fst s ∈ map fst (@nil (Z * (kernel (list Z) -> outcome (kernel (list Z)) unit)))) /\
    forall f, f ∈ all_files -> f_ref (ftable k f) = occurs f (descriptors empty (k_ps k)) + occurs f held.
Proof. destruct demo_syscall as (k & Hr & E & _). exists k. split; [exact Hr |]. split; [exact E |]. exact (references_counted demo_kernel k [] demo_ok Hr). Defined.

Lemma descriptors_live_witness : exists k, rtc step (demo_kernel, []) (k, []) /\ 1 ∈ all_files /\ 1 <= f_ref (ftable k 1).
Proof.
  destruct demo_syscall as (k & Hr & _ & E). exists k. split; [exact Hr |]. pose proof (descriptors_live demo_kernel k [] 1 1 demo_ok Hr) as Hl. cbv zeta in Hl. rewrite E in Hl.
  apply Hl; [apply elem_of_seqZ; unfold NPROC; lia | apply not_elem_of_nil | unfold NOFILE; lia | discriminate].
Defined.

Lemma descriptors_typed_witness : exists k, rtc step (demo_kernel, []) (k, []) /\ 0 <= f_ref (ftable k 1) <= 1024 + 2 * 64.
Proof.
  destruct demo_syscall as (k & Hr & _). exists k. split; [exact Hr |]. apply (descriptors_typed demo_kernel k [] demo_ok Hr). apply elem_of_seqZ. unfold NFILE. lia.
Defined.
End Demo.
