(* ===== verification/Csr.v ===== *)
(** * Control registers (kernel/riscv.h)

    The control and status registers of a hart, the accessors of riscv.h, and
    [start], which sets them up before the kernel runs (kernel/start.c). *)

From Stdlib Require Import FunctionalExtensionality.
From S2P Require Import Prelude KMonad Riscv.

Inductive csr :=
| mhartid | mstatus | mepc | sstatus | sip | sie | mie | sepc | medeleg | mideleg | stvec
| sscratch | stimecmp | menvcfg | pmpcfg0 | pmpaddr0 | satp | scause | stval | mcounteren | time | tp.

#[global] Instance csr_eq_dec : EqDecision csr.
Proof. solve_decision. Defined.

(** The registers of one hart. *)
Abbreviation hart := (csr -> Z).

Definition rcsr (c : csr) : M hart Z := gets (fun x => x c).
Definition wcsr (c : csr) (v : Z) : M hart unit := modify (fun x d => if decide (d = c) then u64 v else x d).

Lemma wcsr_eq (x : hart) c v : (if decide (c = c) then u64 v else x c) = u64 v.
Proof. now rewrite decide_True. Qed.

Definition MSTATUS_MPP_MASK : Z := Z.shiftl 3 11.
Definition MSTATUS_MPP_S : Z := Z.shiftl 1 11.
Definition SSTATUS_SPP : Z := Z.shiftl 1 8.
Definition SSTATUS_SPIE : Z := Z.shiftl 1 5.
Definition SSTATUS_SIE : Z := Z.shiftl 1 1.
Definition SIE_SEIE : Z := Z.shiftl 1 9.
Definition SIE_STIE : Z := Z.shiftl 1 5.
Definition SIE_SSIE : Z := Z.shiftl 1 1.
Definition MIE_STIE : Z := Z.shiftl 1 5.

Definition r_mhartid := rcsr mhartid.
Definition r_mstatus := rcsr mstatus.
Definition w_mstatus := wcsr mstatus.
Definition w_mepc := wcsr mepc.
Definition r_sstatus := rcsr sstatus.
Definition w_sstatus := wcsr sstatus.
Definition r_sie := rcsr sie.
Definition w_sie := wcsr sie.
Definition r_mie := rcsr mie.
Definition w_mie := wcsr mie.
Definition w_sepc := wcsr sepc.
Definition r_sepc := rcsr sepc.
Definition w_medeleg := wcsr medeleg.
Definition w_mideleg := wcsr mideleg.
Definition w_stvec := wcsr stvec.
Definition w_stimecmp := wcsr stimecmp.
Definition r_menvcfg := rcsr menvcfg.
Definition w_menvcfg := wcsr menvcfg.
Definition w_pmpcfg0 := wcsr pmpcfg0.
Definition w_pmpaddr0 := wcsr pmpaddr0.
Definition w_satp := wcsr satp.
Definition r_satp := rcsr satp.
Definition r_scause := rcsr scause.
Definition r_stval := rcsr stval.
Definition w_mcounteren := wcsr mcounteren.
Definition r_mcounteren := rcsr mcounteren.
Definition r_time := rcsr time.
Definition r_tp := rcsr tp.
Definition w_tp := wcsr tp.

(** The memory of the model has no stale translations. *)
Definition sfence_vma : M hart unit := ret tt.

Definition intr_on : M hart unit := x <- r_sstatus;; w_sstatus (Z.lor x SSTATUS_SIE).
Definition intr_off : M hart unit := x <- r_sstatus;; w_sstatus (Z.land x (Z.lnot SSTATUS_SIE)).
Definition intr_get : M hart bool := x <- r_sstatus;; ret (negb (Z.land x SSTATUS_SIE =? 0)).

(** [cpuid] of kernel/proc.c. *)
Definition cpuid : M hart Z := id <- r_tp;; ret (i32 id).

(** ** start.c *)

Definition timerinit : M hart unit :=
  x <- r_mie;;
  w_mie (Z.lor x MIE_STIE);;
  x <- r_menvcfg;;
  w_menvcfg (Z.lor x (Z.shiftl 1 63));;
  x <- r_mcounteren;;
  w_mcounteren (Z.lor x 2);;
  x <- r_time;;
  w_stimecmp (x + 1000000).

(** Up to [mret], which goes to [mepc] in the mode that [mstatus] says. *)
Definition start (main : Z) : M hart unit :=
  x <- r_mstatus;;
  let x := Z.land x (Z.lnot MSTATUS_MPP_MASK) in
  let x := Z.lor x MSTATUS_MPP_S in
  w_mstatus x;;
  w_mepc main;;
  w_satp 0;;
  w_medeleg 0xffff;;
  w_mideleg 0xffff;;
  x <- r_sie;;
  w_sie (Z.lor (Z.lor (Z.lor x SIE_SEIE) SIE_STIE) SIE_SSIE);;
  w_pmpaddr0 0x3fffffffffffff;;
  w_pmpcfg0 0xf;;
  timerinit;;
  id <- r_mhartid;;
  w_tp (i32 id).
