(* ===== verification/Trap.v ===== *)
(** * Traps and start-up (kernel/trap.c, kernel/plic.c, kernel/main.c)

    The handlers of system calls, interrupts and exceptions on one hart: the
    kernel, the control registers of the hart, the interrupt controller, whose
    registers are a parameter, and the disk driver.  The assembly around them is
    in [Trampoline]. *)

From S2P Require Import Prelude KMonad Riscv Mem Printf Kalloc Vm Proc ProcFile Virtio.
From S2P Require Import Trace Console Pipe Sleeplock Bio BioSpec FsState Log Fs Kernel File Sysfile Exec Syscall Csr.

(** ** plic.c *)

(** 32-bit registers of the interrupt controller; reading one can change the
    device. *)
Class PlicRegs (P : Type) := { pl_read : Z -> P -> Z * P; pl_write : Z -> Z -> P -> P }.

Definition PLIC_SENABLE (hart : Z) : Z := PLIC + 0x2080 + hart * 0x100.
Definition PLIC_SPRIORITY (hart : Z) : Z := PLIC + 0x201000 + hart * 0x2000.
Definition PLIC_SCLAIM (hart : Z) : Z := PLIC + 0x201004 + hart * 0x2000.

(** Code addresses: [kernelvec], [usertrap], and [uservec] and [userret] from the
    start of the trampoline. *)
Class TrapSymbols := { kernelvec_addr : Z; usertrap_addr : Z; uservec_off : Z; userret_off : Z }.

(** [started] of main.c, [first] of [forkret], [kernel_pagetable] of vm.c and
    [pr.locking] of printf.c. *)
Record mach {R P D : Type} := Mach {
  mkern : kernel R; mhart : hart; mplic : P; mdisk : vdisk D;
  started : Z; first : Z; kernel_pagetable : Z; pr_locking : Z }.
Arguments mach : clear implicits.
Arguments Mach {R P D}.

Section trap.
Context `{Layout} `{Symbols} `{TrapSymbols} `{Thread} {R P D : Type} `{UartRegs R} `{PlicRegs P} `{Mmio D}.
Abbreviation S := (mach R P D).

Definition set_mkern (v : kernel R) (s : S) : S := Mach v (mhart s) (mplic s) (mdisk s) (started s) (first s) (kernel_pagetable s) (pr_locking s).
Definition set_mhart (v : hart) (s : S) : S := Mach (mkern s) v (mplic s) (mdisk s) (started s) (first s) (kernel_pagetable s) (pr_locking s).
Definition set_mplic (v : P) (s : S) : S := Mach (mkern s) (mhart s) v (mdisk s) (started s) (first s) (kernel_pagetable s) (pr_locking s).
Definition set_mdisk (v : vdisk D) (s : S) : S := Mach (mkern s) (mhart s) (mplic s) v (started s) (first s) (kernel_pagetable s) (pr_locking s).
Definition set_started (v : Z) (s : S) : S := Mach (mkern s) (mhart s) (mplic s) (mdisk s) v (first s) (kernel_pagetable s) (pr_locking s).
Definition set_first (v : Z) (s : S) : S := Mach (mkern s) (mhart s) (mplic s) (mdisk s) (started s) v (kernel_pagetable s) (pr_locking s).
Definition set_kernel_pagetable (v : Z) (s : S) : S := Mach (mkern s) (mhart s) (mplic s) (mdisk s) (started s) (first s) v (pr_locking s).
Definition set_pr_locking (v : Z) (s : S) : S := Mach (mkern s) (mhart s) (mplic s) (mdisk s) (started s) (first s) (kernel_pagetable s) v.

Definition km {A} (m : M (kernel R) A) : M S A := zoom mkern set_mkern m.
Definition hm {A} (m : M hart A) : M S A := zoom mhart set_mhart m.
Definition dm {A} (m : M (vdisk D) A) : M S A := zoom mdisk set_mdisk m.

Definition plic_read (a : Z) : M S Z :=
  fun h s => let x := pl_read a (mplic s) in Ret (u32 (fst x)) h (set_mplic (snd x) s).
Definition plic_write (a v : Z) : M S unit := modify (fun s => set_mplic (pl_write a (u32 v) (mplic s)) s).

Definition plicinit : M S unit :=
  plic_write (PLIC + UART0_IRQ * 4) 1;;
  plic_write (PLIC + VIRTIO0_IRQ * 4) 1.

Definition plicinithart : M S unit :=
  hart <- hm cpuid;;
  plic_write (PLIC_SENABLE hart) (Z.lor (Z.shiftl 1 UART0_IRQ) (Z.shiftl 1 VIRTIO0_IRQ));;
  plic_write (PLIC_SPRIORITY hart) 0.

Definition plic_claim : M S Z :=
  hart <- hm cpuid;;
  irq <- plic_read (PLIC_SCLAIM hart);;
  ret (i32 irq).

Definition plic_complete (irq : Z) : M S unit :=
  hart <- hm cpuid;;
  plic_write (PLIC_SCLAIM hart) irq.

(** ** trap.c *)

Definition trapinit : M S unit := initlock tickslock.

Definition trapinithart : M S unit := hm (w_stvec kernelvec_addr).

(** The causes of device and timer interrupts. *)
Definition SCAUSE_EXT : Z := 0x8000000000000009.
Definition SCAUSE_TIMER : Z := 0x8000000000000005.

Definition clockintr : M S unit :=
  id <- hm cpuid;;
  (if id =? 0 then
     acquire tickslock;;
     km (modify (fun k => set_ticks (u32 (ticks k + 1)) k));;
     KMonad.wakeup ch_ticks;;
     release tickslock
   else ret tt);;
  t <- hm r_time;;
  hm (w_stimecmp (t + 1000000)).

(** [fuel] bounds the input of the UART and the completions of the disk. *)
Definition devintr (fuel : nat) : M S Z :=
  scause <- hm r_scause;;
  if scause =? SCAUSE_EXT then
    irq <- plic_claim;;
    (if irq =? UART0_IRQ then km (conm (uartintr fuel))
     else if irq =? VIRTIO0_IRQ then dm (virtio_disk_intr fuel)
     else if negb (irq =? 0) then printf (bytes_of "unexpected interrupt irq=%d" ++ [10]) [VInt irq]
     else ret tt);;
    (if negb (irq =? 0) then plic_complete irq else ret tt);;
    ret 1
  else if scause =? SCAUSE_TIMER then
    clockintr;;
    ret 2
  else ret 0.

(** The argument of the jump to [userret], [satp]. *)
Definition usertrapret : M S Z :=
  p <- km me;;
  hm intr_off;;
  hm (w_stvec (TRAMPOLINE + uservec_off));;
  satp <- hm r_satp;;
  km (vmm (write64 (trapframe p + TF_kernel_satp) satp));;
  km (vmm (write64 (trapframe p + TF_kernel_sp) (u64 (kstack p + PGSIZE))));;
  km (vmm (write64 (trapframe p + TF_kernel_trap) usertrap_addr));;
  tp <- hm r_tp;;
  km (vmm (write64 (trapframe p + TF_kernel_hartid) tp));;
  x <- hm r_sstatus;;
  let x := Z.land x (Z.lnot SSTATUS_SPP) in
  let x := Z.lor x SSTATUS_SPIE in
  hm (w_sstatus x);;
  epc <- km (vmm (read64 (trapframe p + TF_epc)));;
  hm (w_sepc epc);;
  ret (MAKE_SATP (pagetable p)).

(** [if(killed(p)) exit(-1);] *)
Definition exit_if_killed : M S unit :=
  k <- km (prm (Proc.killed myproc));;
  if negb (k =? 0) then km (exit myproc (-1)) else ret tt.

(** [pad] as in [filestat]. *)
Definition usertrap (fuel : nat) (pad : list Z) : M S Z :=
  st <- hm r_sstatus;;
  if negb (Z.land st SSTATUS_SPP =? 0) then panic "usertrap: not from user mode"
  else
    hm (w_stvec kernelvec_addr);;
    p <- km me;;
    epc <- hm r_sepc;;
    km (vmm (write64 (trapframe p + TF_epc) epc));;
    scause <- hm r_scause;;
    which_dev <-
      (if scause =? 8 then
         exit_if_killed;;
         epc <- km (vmm (read64 (trapframe p + TF_epc)));;
         km (vmm (write64 (trapframe p + TF_epc) (u64 (epc + 4))));;
         hm intr_on;;
         km (syscall pad);;
         ret 0
       else
         d <- devintr fuel;;
         if negb (d =? 0) then ret d
         else
           scause <- hm r_scause;;
           printf (bytes_of "usertrap(): unexpected scause 0x%lx pid=%d" ++ [10]) [VInt scause; VInt (pid p)];;
           sepc <- hm r_sepc;;
           stval <- hm r_stval;;
           printf (bytes_of "            sepc=0x%lx stval=0x%lx" ++ [10]) [VInt sepc; VInt stval];;
           km (prm (setkilled myproc));;
           ret 0);;
    exit_if_killed;;
    (if which_dev =? 2 then km (prm (yield myproc)) else ret tt);;
    usertrapret.

Definition kerneltrap (fuel : nat) : M S unit :=
  sepc <- hm r_sepc;;
  sstatus <- hm r_sstatus;;
  scause <- hm r_scause;;
  if Z.land sstatus SSTATUS_SPP =? 0 then panic "kerneltrap: not from supervisor mode"
  else
    on <- hm intr_get;;
    if (on : bool) then panic "kerneltrap: interrupts enabled"
    else
      which_dev <- devintr fuel;;
      if which_dev =? 0 then
        sepc' <- hm r_sepc;;
        stval <- hm r_stval;;
        printf (bytes_of "scause=0x%lx sepc=0x%lx stval=0x%lx" ++ [10]) [VInt scause; VInt sepc'; VInt stval];;
        panic "kerneltrap"
      else
        (if (which_dev =? 2) && negb (myproc =? 0) then km (prm (yield myproc)) else ret tt);;
        hm (w_sepc sepc);;
        hm (w_sstatus sstatus).

(** [forkret] of kernel/proc.c, where a new process starts. *)
Definition forkret : M S Z :=
  release (proc_lock myproc);;
  f <- gets first;;
  (if negb (f =? 0) then
     km (fsm (fsinit ROOTDEV));;
     modify (set_first 0)
   else ret tt);;
  usertrapret.

(** ** main.c *)

(** [kvminit] and [kvminithart] of kernel/vm.c, [printfinit] of
    kernel/printf.c. *)
Definition kvminit : M S unit :=
  pt <- km (vmm kvmmake);;
  modify (set_kernel_pagetable pt).

Definition kvminithart : M S unit :=
  hm sfence_vma;;
  pt <- gets kernel_pagetable;;
  hm (w_satp (MAKE_SATP pt));;
  hm sfence_vma.

Definition printfinit : M S unit :=
  initlock pr_lock;;
  modify (set_pr_locking 1).

(** The disk driver allocates its rings from physical memory. *)
Definition disk_init : M S unit :=
  zoom (fun s => (ph (k_ps (mkern s)), mdisk s))
       (fun x s => set_mdisk (snd x) (set_mkern (set_k_ps (set_ph (fst x) (k_ps (mkern s))) (mkern s)) s))
       virtio_disk_init.

(** The first hart up to the call of [scheduler]. *)
Definition main_first : M S unit :=
  km (conm consoleinit);;
  km consoleinit_devsw;;
  printfinit;;
  printf [10] [];;
  printf (bytes_of "xv6 kernel is booting" ++ [10]) [];;
  printf [10] [];;
  km (vmm kinit);;
  kvminit;;
  kvminithart;;
  km (prm procinit);;
  trapinit;;
  trapinithart;;
  plicinit;;
  plicinithart;;
  km (fsm (zoom bc set_bc (cz binit)));;
  km (fsm iinit);;
  km fileinit;;
  disk_init;;
  km userinit;;
  modify (set_started 1).

(** The other harts, once [started] is set. *)
Definition main_other : M S unit :=
  id <- hm cpuid;;
  printf (bytes_of "hart %d starting" ++ [10]) [VInt id];;
  kvminithart;;
  trapinithart;;
  plicinithart.

(** [while(started == 0) ;]: [fuel] bounds the rounds, and another hart can act in
    each. *)
Fixpoint wait_started (fuel : nat) : M S unit :=
  v <- gets started;;
  if v =? 0 then
    match fuel with
    | O => out_of_fuel
    | Datatypes.S fuel' => fun h s => Sleep ch_dev s (fun s' => wait_started fuel' h s')
    end
  else ret tt.

Definition main (fuel : nat) : M S unit :=
  id <- hm cpuid;;
  if id =? 0 then main_first
  else wait_started fuel;; main_other.

End trap.
