(* ===== verification/TrapSpec.v ===== *)
(** * The return to user space

    Whatever a trap from user space was, and whatever the process did in the
    kernel, [usertrap] returns with the hart and the trap frame ready for the
    program. *)

From S2P Require Import Prelude KMonad Riscv Mem Printf Kalloc Vm Proc ProcFile Virtio.
From S2P Require Import Trace Console Pipe Sleeplock Bio BioSpec FsState Log Fs Kernel File Sysfile Exec Syscall Guarantee Csr Trap FsBlocks.

(** [ends rely Q o]: [o] returns, and its result satisfies [Q], when the states in
    which it goes on after it has slept are related by [rely] to those in which it
    went to sleep; it neither panics nor runs out of fuel. *)
Fixpoint ends {S A} (rely : S -> S -> Prop) (Q : A -> locks -> S -> Prop) (o : outcome S A) : Prop :=
  match o with
  | Ret a h s => Q a h s
  | Emit _ o => ends rely Q o
  | Sleep _ s k => forall s', rely s s' -> ends rely Q (k s')
  | _ => False
  end.

(** [o] does not return, whatever happens while it sleeps. *)
Fixpoint gone {S A} (o : outcome S A) : Prop :=
  match o with
  | Ret _ _ _ => False
  | Emit _ o => gone o
  | Sleep _ _ k => forall s', gone (k s')
  | _ => True
  end.

Lemma ends_bind {S A B} (rely : S -> S -> Prop) (P : A -> locks -> S -> Prop) (Q : B -> locks -> S -> Prop) (m : M S A) (f : A -> M S B) h s :
  ends rely P (m h s) -> (forall a h s, P a h s -> ends rely Q (f a h s)) -> ends rely Q (bind m f h s).
Proof. intros Hm Hf. unfold bind. revert Hm. generalize (m h s) as o. induction o; cbn; auto. Qed.

Lemma ends_mono {S A} (rely : S -> S -> Prop) (P Q : A -> locks -> S -> Prop) (o : outcome S A) : (forall a h s, P a h s -> Q a h s) -> ends rely P o -> ends rely Q o.
Proof. intros HPQ. induction o; cbn; auto. Qed.

(** What happens on the way, as a guarantee. *)
Lemma ends_within {S A} (rely E : S -> S -> Prop) `{!PreOrder E} (Q : A -> locks -> S -> Prop) (o : outcome S A) :
  (forall s s', rely s s' -> E s s') -> forall s0, within true E (fun _ _ => True) s0 o -> ends rely Q o -> ends rely (fun a h s => E s0 s /\ Q a h s) o.
Proof.
  intros HE. assert (Hgen : forall s0 s1, E s0 s1 -> within true E (fun _ _ => True) s1 o -> ends rely Q o -> ends rely (fun a h s => E s0 s /\ Q a h s) o).
  { induction o as [a h s | | | | e o IH | c s k IH]; cbn; try tauto; auto.
    - intros s0 s1 H01 [H1 _] Hq. split; [now transitivity s1 | exact Hq].
    - intros s0 s1 H01 (_ & H1 & Hk) He s' Hr. apply (IH s' s0 s'); [| apply Hk | apply He, Hr]. transitivity s1; [exact H01 |]. transitivity s; [exact H1 | now apply HE]. }
  intros s0. now apply Hgen.
Qed.

Lemma gone_bind {S A B} (m : M S A) (f : A -> M S B) h s : (forall a h s, gone (f a h s)) -> gone (bind m f h s).
Proof. intros Hf. unfold bind. generalize (m h s) as o. induction o; cbn; auto. Qed.
Lemma gone_before {S A B} (m : M S A) (f : A -> M S B) h s : gone (m h s) -> gone (bind m f h s).
Proof. unfold bind. generalize (m h s) as o. induction o; cbn; auto. now intros []. Qed.
Lemma gone_zoom {S T A} (g : T -> S) (p : S -> T -> T) (m : M S A) h t : (forall h s, gone (m h s)) -> gone (zoom g p m h t).
Proof. intros Hm. unfold zoom. specialize (Hm h (g t)). revert Hm. generalize (m h (g t)) as o. intros o. revert t. induction o; cbn; auto. Qed.

Section trap.
Context `{Layout} `{Symbols} `{TrapSymbols} `{Thread} {R P D : Type} `{UartRegs R} `{PlicRegs P} `{Mmio D}.
Abbreviation S := (mach R P D).

Definition user_ready (r : Z) (s : S) : Prop :=
  let p := procs (k_ps (mkern s)) myproc in
  let m := mem (ph (k_ps (mkern s))) in
  r = MAKE_SATP (pagetable p) /\
  mhart s stvec = u64 (TRAMPOLINE + uservec_off) /\
  Z.land (mhart s sstatus) SSTATUS_SPP = 0 /\ Z.land (mhart s sstatus) SSTATUS_SPIE <> 0 /\ Z.land (mhart s sstatus) SSTATUS_SIE = 0 /\
  mhart s sepc = u64 (load64 m (trapframe p + TF_epc)) /\
  load64 m (trapframe p + TF_kernel_satp) = u64 (mhart s satp) /\
  load64 m (trapframe p + TF_kernel_sp) = u64 (kstack p + PGSIZE) /\
  load64 m (trapframe p + TF_kernel_trap) = u64 usertrap_addr /\
  load64 m (trapframe p + TF_kernel_hartid) = u64 (mhart s tp).

Implicit Types s : S.

(** The actions of [usertrapret], one by one. *)
Definition smem (s : S) : memory := mem (ph (k_ps (mkern s))).
Definition poke64 (a v : Z) (s : S) : S :=
  set_mkern (set_k_ps (set_ph (set_mem (fun m => store64 m a v) (ph (k_ps (mkern s)))) (k_ps (mkern s))) (mkern s)) s.
Definition put_csr (c : csr) (v : Z) (s : S) : S := set_mhart (fun d => if decide (d = c) then u64 v else mhart s d) s.

Lemma hm_read c h s : hm (rcsr c) h s = Ret (mhart s c) h s.
Proof. now destruct s. Qed.
Lemma hm_write c v h s : hm (wcsr c v) h s = Ret tt h (put_csr c v s).
Proof. reflexivity. Qed.
Lemma hm_intr_off h s : hm intr_off h s = Ret tt h (put_csr sstatus (Z.land (mhart s sstatus) (Z.lnot SSTATUS_SIE)) s).
Proof. now destruct s. Qed.
Lemma km_me h s : km me h s = Ret (procs (k_ps (mkern s)) myproc) h s.
Proof. now destruct s. Qed.
Lemma km_write a v h s : km (vmm (write64 a v)) h s = Ret tt h (poke64 a v s).
Proof. reflexivity. Qed.
Lemma km_read a h s : km (vmm (read64 a)) h s = Ret (load64 (smem s) a) h s.
Proof. destruct s as [k hh pl dk st fi kp pr]. destruct k as [fs ft dr dw kpp kc tk]. destruct fs as [c l b it]. destruct c as [kc' x]. now destruct x. Qed.

Lemma poke64_hart a v s : mhart (poke64 a v s) = mhart s.
Proof. reflexivity. Qed.
Lemma poke64_procs a v s : procs (k_ps (mkern (poke64 a v s))) = procs (k_ps (mkern s)).
Proof. reflexivity. Qed.
Lemma poke64_mem a v s : smem (poke64 a v s) = store64 (smem s) a v.
Proof. reflexivity. Qed.
Lemma put_csr_mem c v s : smem (put_csr c v s) = smem s.
Proof. reflexivity. Qed.
Lemma put_csr_procs c v s : procs (k_ps (mkern (put_csr c v s))) = procs (k_ps (mkern s)).
Proof. reflexivity. Qed.
Lemma put_csr_hart c v s d : mhart (put_csr c v s) d = if decide (d = c) then u64 v else mhart s d.
Proof. reflexivity. Qed.

(** The program that the process runs: its page table and its registers, of
    which the program counter comes first. *)
Definition context (s : S) : Z * Z * Z * Z := let p := procs (k_ps (mkern s)) myproc in (trapframe p, pagetable p, kstack p, pkilled p).
Definition saved (off : Z) (s : S) : Z := load64 (smem s) (trapframe (procs (k_ps (mkern s)) myproc) + off).

(** The kernel's own words of a trap frame are the first three and the fifth. *)
Definition user_word (off : Z) : Prop := 24 <= off < 32 \/ 40 <= off < TF_SIZE.
Definition same_program (s s' : S) : Prop :=
  context s' = context s /\ forall off, user_word off -> smem s' (trapframe (procs (k_ps (mkern s)) myproc) + off) = smem s (trapframe (procs (k_ps (mkern s)) myproc) + off).

Lemma usertrapret_back h (s : S) : exists r s', usertrapret h s = Ret r h s' /\ user_ready r s' /\ same_program s s'.
Proof.
  unfold usertrapret. rewrite (bind_Ret _ _ _ _ _ _ _ (km_me h s)). set (p := procs (k_ps (mkern s)) myproc).
  rewrite (bind_Ret _ _ _ _ _ _ _ (hm_intr_off h s)). set (s1 := put_csr sstatus _ s). rewrite (bind_Ret _ _ _ _ _ _ _ (hm_write stvec _ h s1)). set (s2 := put_csr stvec _ s1).
  rewrite (bind_Ret _ _ _ _ _ _ _ (hm_read satp h s2)), (bind_Ret _ _ _ _ _ _ _ (km_write _ _ h s2)). set (s3 := poke64 _ _ s2). rewrite (bind_Ret _ _ _ _ _ _ _ (km_write _ _ h s3)). set (s4 := poke64 _ _ s3).
  rewrite (bind_Ret _ _ _ _ _ _ _ (km_write _ _ h s4)). set (s5 := poke64 _ _ s4). rewrite (bind_Ret _ _ _ _ _ _ _ (hm_read tp h s5)), (bind_Ret _ _ _ _ _ _ _ (km_write _ _ h s5)). set (s6 := poke64 _ _ s5).
  rewrite (bind_Ret _ _ _ _ _ _ _ (hm_read sstatus h s6)). cbv zeta. rewrite (bind_Ret _ _ _ _ _ _ _ (hm_write sstatus _ h s6)). set (s7 := put_csr sstatus _ s6).
  rewrite (bind_Ret _ _ _ _ _ _ _ (km_read _ h s7)), (bind_Ret _ _ _ _ _ _ _ (hm_write sepc _ h s7)). set (s8 := put_csr sepc _ s7). exists (MAKE_SATP (pagetable p)), s8. split; [reflexivity |].
  assert (Em : smem s8 = store64 (store64 (store64 (store64 (smem s) (trapframe p + 0) (mhart s2 satp)) (trapframe p + 8) (u64 (kstack p + PGSIZE))) (trapframe p + 16) usertrap_addr) (trapframe p + 32) (mhart s5 tp)) by reflexivity.
  assert (Es : mhart s8 sstatus = u64 (Z.lor (Z.land (u64 (Z.land (mhart s sstatus) (Z.lnot SSTATUS_SIE))) (Z.lnot SSTATUS_SPP)) SSTATUS_SPIE)) by reflexivity.
  assert (Ep : mhart s8 sepc = u64 (load64 (smem s8) (trapframe p + TF_epc))) by (unfold s8; rewrite put_csr_hart, put_csr_mem, decide_True; reflexivity).
  split; [| split; [reflexivity |]; intros off Hoff; fold p; rewrite Em, !store64_out by (destruct Hoff; lia); reflexivity].
  unfold user_ready. change (mem (ph (k_ps (mkern s8)))) with (smem s8). change (procs (k_ps (mkern s8)) myproc) with p. rewrite Es.
  rewrite Ep, Em. change TF_kernel_satp with 0. change TF_kernel_sp with 8. change TF_kernel_trap with 16. change TF_kernel_hartid with 32.
  split; [reflexivity |]. split; [reflexivity |]. split_and!.
  - apply Z.eqb_eq. unfold SSTATUS_SPP at 2. rewrite land_pow2_zero by lia. unfold u64 at 1. rewrite Z.mod_pow2_bits_low, Z.lor_spec, Z.land_spec, Z.lnot_spec by lia. now rewrite andb_false_r.
  - apply Z.eqb_neq. unfold SSTATUS_SPIE at 2. rewrite land_pow2_zero by lia. unfold u64 at 1. rewrite Z.mod_pow2_bits_low, Z.lor_spec by lia. now rewrite orb_true_r.
  - apply Z.eqb_eq. unfold SSTATUS_SIE at 2. rewrite land_pow2_zero by lia. unfold u64. rewrite Z.mod_pow2_bits_low, Z.lor_spec, Z.land_spec, Z.mod_pow2_bits_low, Z.land_spec, !Z.lnot_spec by lia. now rewrite andb_false_r.
  - reflexivity.
  - rewrite !load64_store64_ne by lia. apply (load_store_eq 8).
  - rewrite !load64_store64_ne by lia. etransitivity; [apply (load_store_eq 8) |]. apply Z.mod_mod. lia.
  - rewrite !load64_store64_ne by lia. apply (load_store_eq 8).
  - apply (load_store_eq 8).
Qed.


#[local] Instance same_program_preorder : PreOrder same_program.
Proof.
  split; [intros s; split; auto |]. intros x y z [E1 M1] [E2 M2]. split; [congruence |]. intros off Ho.
  assert (Et : trapframe (procs (k_ps (mkern y)) myproc) = trapframe (procs (k_ps (mkern x)) myproc)) by (unfold context in E1; congruence).
  rewrite Et in M2. now rewrite M2, M1 by exact Ho.
Qed.

Lemma same_program_kps (s s' : S) : k_ps (mkern s') = k_ps (mkern s) -> same_program s s'.
Proof. intros E. unfold same_program, context, smem. rewrite E. auto. Qed.

Lemma same_saved (s s' : S) off : same_program s s' -> 24 = off \/ 40 <= off <= TF_SIZE - 8 -> saved off s' = saved off s.
Proof.
  intros [E M] Ho. unfold saved. assert (Et : trapframe (procs (k_ps (mkern s')) myproc) = trapframe (procs (k_ps (mkern s)) myproc)) by (unfold context in E; congruence).
  rewrite Et. apply load64_ext. intros x Hx. set (tf := trapframe (procs (k_ps (mkern s)) myproc)) in *. replace x with (tf + (x - tf)) by lia. apply M. unfold user_word. lia.
Qed.

(** ** Pieces of [usertrap] *)

Lemma kzoom_get {A} (f : psys -> A) h (s : S) : km (prm (gets f)) h s = Ret (f (k_ps (mkern s))) h s.
Proof. destruct s as [k hh pl dk st fi kp pr]. destruct k as [fs ft dr dw kpp kc tk]. destruct fs as [c l b it]. now destruct c. Qed.

Lemma km_prm_Ret {A} (m : M psys A) h (s : S) a h' : m h (k_ps (mkern s)) = Ret a h' (k_ps (mkern s)) -> km (prm m) h s = Ret a h' s.
Proof.
  intros E. unfold km, prm. erewrite zoom_Ret; [| eapply zoom_Ret; exact E].
  destruct s as [k hh pl dk st fi kp pr]. destruct k as [fs ft dr dw kpp kc tk]. destruct fs as [c l b it]. now destruct c.
Qed.

Lemma km_killed_run (s : S) : km (prm (Proc.killed myproc)) [] s = Ret (pkilled (procs (k_ps (mkern s)) myproc)) [] s.
Proof. apply km_prm_Ret. unfold Proc.killed, getproc. krun. reflexivity. Qed.

Lemma not_killed_run (s : S) : pkilled (procs (k_ps (mkern s)) myproc) = 0 -> exit_if_killed [] s = Ret tt [] s.
Proof. intros E. unfold exit_if_killed. rewrite (bind_Ret _ _ _ _ _ _ _ (km_killed_run s)), E. reflexivity. Qed.

Lemma exit_gone h (k : kernel R) : gone (exit myproc (-1) h k).
Proof.
  assert (Ht : forall h x, gone (exit_tail myproc (-1) h x)) by (intros; unfold exit_tail; repeat (apply gone_bind; intros); exact I).
  unfold exit. apply gone_bind. intros init h1 k1. destruct (_ =? init); [exact I |]. repeat (apply gone_bind; intros). now apply gone_zoom.
Qed.

Lemma killed_gone (s : S) : pkilled (procs (k_ps (mkern s)) myproc) <> 0 -> gone (exit_if_killed [] s).
Proof.
  intros E. unfold exit_if_killed. rewrite (bind_Ret _ _ _ _ _ _ _ (km_killed_run s)), (proj2 (Z.eqb_neq _ 0) E). cbn [negb]. apply gone_zoom. intros. apply exit_gone.
Qed.

(** [yield] switches to the scheduler with the process ready to run. *)
Lemma yield_run (s : S) : exists s1 k, km (prm (yield myproc)) [] s = Sleep ch_cpu s1 k /\ same_program s s1 /\
  state (procs (k_ps (mkern s1)) myproc) = RUNNABLE /\ forall s', k s' = Ret tt [] s'.
Proof.
  assert (Ey : forall x : psys, exists k, yield myproc [] x = Sleep ch_cpu (upd_proc myproc (set_state RUNNABLE) x) k /\ forall x', k x' = Ret tt [] x').
  { intros x. unfold yield, modproc. krun. unfold bind at 1, sched. rewrite bool_decide_eq_true_2 by left. cbn [negb length Z.of_nat Z.eqb Pos.eqb Pos.of_succ_nat].
    rewrite decide_False by (cbn; rewrite Z.eqb_refl; discriminate). eexists. split; [reflexivity |]. intros x'. cbn [obind]. apply release_top. }
  destruct (Ey (k_ps (mkern s))) as (k & E & Hk). unfold km, prm, zoom. rewrite E. cbn [ozoom]. eexists _, _. split; [reflexivity |]. split_and!.
  - split; [| reflexivity]. unfold context. cbn. now rewrite Z.eqb_refl.
  - cbn. now rewrite Z.eqb_refl.
  - intros s'. rewrite Hk. cbn. destruct s' as [k' hh pl dk st fi kp pr]. destruct k' as [fs ft dr dw kpp kc tk]. destruct fs as [c l b it]. now destruct c.
Qed.

(** What is left of [usertrap] when the trap has been handled. *)
Lemma trap_done (s : S) : pkilled (procs (k_ps (mkern s)) myproc) = 0 ->
  exists r s', (exit_if_killed;; usertrapret) [] s = Ret r [] s' /\ user_ready r s' /\ same_program s s'.
Proof. intros Hk. rewrite (bind_Ret _ _ _ _ _ _ _ (not_killed_run s Hk)). apply usertrapret_back. Qed.

(** ** Interrupts leave processes alone *)

Definition con_ps (c c' : con R psys) : Prop := user c' = user c.
#[local] Instance con_ps_preorder : PreOrder con_ps.
Proof. split; [easy |]. intros x y z E1 E2. unfold con_ps in *. congruence. Qed.
#[local] Instance eq_preorder {T} : PreOrder (fun x y : T => y = x).
Proof. split; [easy |]. intros x y z E1 E2. congruence. Qed.

Lemma still_con f : (forall c : con R psys, user (f c) = user c) -> stays true con_ps (modify f).
Proof. intros Hf. apply stays_modify. exact Hf. Qed.
Lemma still_ReadReg reg : stays true con_ps (ReadReg (R := R) (U := psys) reg).
Proof. intros h c. now split. Qed.
Lemma still_WriteReg reg v : stays true con_ps (WriteReg (R := R) (U := psys) reg v).
Proof. now apply still_con. Qed.
Lemma still_consputc {T} (E : T -> T -> Prop) `{!PreOrder E} c : stays true E (consputc c).
Proof. unfold consputc. case_match; repeat (apply stays_bind; [apply _ | | intros]); apply stays_emit, _. Qed.
Lemma still_procdump : stays true (fun x y : psys => y = x) procdump.
Proof.
  unfold procdump. apply stays_bind; [apply _ | apply stays_printf, _ | intros _]. induction all_procs as [|p l IH]; cbn [procdump_loop]; [stay |].
  apply stays_bind; [apply _ | apply stays_gets, _ | intros x]. apply stays_bind; [apply _ | | intros _; exact IH].
  destruct (decide (state x = UNUSED)); [stay |]. apply stays_bind; [apply _ | apply stays_printf, _ | intros _; apply stays_printf, _].
Qed.
#[local] Hint Resolve still_ReadReg still_WriteReg : stays.
#[local] Hint Extern 2 (stays _ _ (consputc _)) => (apply still_consputc, _) : stays.
#[local] Hint Extern 2 (stays _ con_ps (modify _)) => (apply still_con; intros ?; reflexivity) : stays.

Lemma still_dump : stays true con_ps (zoom user set_user cu_dump).
Proof. eapply stays_zoom; [apply still_procdump |]. now intros s t ->. Qed.
Lemma still_kill_line fuel : stays true con_ps (kill_line (R := R) (U := psys) fuel).
Proof. induction fuel; cbn [kill_line]; stay. Qed.
Lemma still_insert_char c : stays true con_ps (insert_char (R := R) (U := psys) c).
Proof. unfold insert_char. stay. Qed.
#[local] Hint Resolve still_dump still_kill_line still_insert_char : stays.
Lemma still_consoleintr c : stays true con_ps (consoleintr (R := R) (U := psys) c).
Proof. unfold consoleintr. stay. Qed.
Lemma still_uartgetc : stays true con_ps (uartgetc (R := R) (U := psys)).
Proof. unfold uartgetc. stay. Qed.
Lemma still_uartstart fuel : stays true con_ps (uartstart_loop (R := R) (U := psys) fuel).
Proof. induction fuel; cbn [uartstart_loop]; stay. Qed.
#[local] Hint Resolve still_consoleintr still_uartgetc still_uartstart : stays.
Lemma still_uartintr_input fuel : stays true con_ps (uartintr_input (R := R) (U := psys) fuel).
Proof. induction fuel; cbn [uartintr_input]; stay. Qed.
#[local] Hint Resolve still_uartintr_input : stays.
Lemma still_uartintr fuel : stays true con_ps (uartintr (R := R) (U := psys) fuel).
Proof. unfold uartintr, uartstart. stay. Qed.

Lemma still_hm {A} (m : M hart A) : stays true same_program (hm m).
Proof. apply stays_frame. intros x s. now apply same_program_kps. Qed.
Lemma still_dm {A} (m : M (vdisk D) A) : stays true same_program (dm m).
Proof. apply stays_frame. intros x s. now apply same_program_kps. Qed.
Lemma still_plic_read a : stays true same_program (plic_read a).
Proof. intros h s. split; [now apply same_program_kps | exact I]. Qed.
Lemma still_plic_write a v : stays true same_program (plic_write a v).
Proof. apply stays_modify. intros s. now apply same_program_kps. Qed.
Lemma still_cons fuel : stays true same_program (km (conm (uartintr fuel))).
Proof.
  eapply (stays_zoom true (fun k k' => k_ps k' = k_ps k)).
  - eapply stays_zoom; [apply still_uartintr |]. intros c k E. exact E.
  - intros k s E. now apply same_program_kps.
Qed.
Lemma still_ticks : stays true same_program (km (modify (fun k => set_ticks (u32 (ticks k + 1)) k))).
Proof. eapply (stays_zoom true (fun k k' => k_ps k' = k_ps k)); [apply stays_modify; reflexivity |]. intros k s E. now apply same_program_kps. Qed.
#[local] Hint Resolve still_hm still_dm still_plic_read still_plic_write still_cons still_ticks : stays.
#[local] Hint Extern 2 (stays _ _ (printf _ _)) => (apply stays_printf, _) : stays.

Lemma still_devintr fuel : stays true same_program (devintr fuel).
Proof. unfold devintr, clockintr, plic_claim, plic_complete. stay. Qed.

(** ** The theorem *)

(** The state in which [usertrap] looks at the cause: traps go to [kernelvec], and
    the program counter is in the trap frame. *)
Definition entered (s : S) : S :=
  poke64 (trapframe (procs (k_ps (mkern s)) myproc) + TF_epc) (mhart s sepc) (put_csr stvec kernelvec_addr s).

(** The program of [s] goes on in [s'] at [pc]: the hart and the trap frame are
    ready for it, and its registers are what they were. *)
Definition resumed (pc : Z) (s : S) (r : Z) (s' : S) : Prop :=
  user_ready r s' /\ context s' = context s /\ mhart s' sepc = u64 pc /\
  forall off, 40 <= off < TF_SIZE -> let tf := trapframe (procs (k_ps (mkern s)) myproc) in smem s' (tf + off) = smem s (tf + off).

Lemma u64_u64 x : u64 (u64 x) = u64 x.
Proof. apply Z.mod_mod. lia. Qed.

Lemma saved_ready r (s' : S) : user_ready r s' -> mhart s' sepc = u64 (saved TF_epc s').
Proof. intros (_ & _ & _ & _ & _ & E & _). exact E. Qed.

Lemma back_resumed (s s0 : S) r s' pc : context s0 = context s -> u64 (saved TF_epc s0) = u64 pc ->
  (forall off, 40 <= off < TF_SIZE -> let tf := trapframe (procs (k_ps (mkern s)) myproc) in smem s0 (tf + off) = smem s (tf + off)) ->
  user_ready r s' -> same_program s0 s' -> resumed pc s r s'.
Proof.
  intros Ec Ep Em Hr Hs. split; [exact Hr |]. split; [rewrite <- Ec; apply Hs |]. split.
  - rewrite (saved_ready _ _ Hr), (same_saved s0 s' TF_epc Hs) by (left; reflexivity). exact Ep.
  - intros off Ho tf. pose proof (Em off Ho) as E0. cbv zeta in E0. fold tf in E0. rewrite <- E0. destruct Hs as [_ Hm]. assert (Et : trapframe (procs (k_ps (mkern s0)) myproc) = tf) by (unfold context in Ec; subst tf; congruence).
    rewrite Et in Hm. apply Hm. right. exact Ho.
Qed.

Lemma entered_facts (s : S) : context (entered s) = context s /\ saved TF_epc (entered s) = u64 (mhart s sepc) /\
  (forall off, 40 <= off < TF_SIZE -> let tf := trapframe (procs (k_ps (mkern s)) myproc) in smem (entered s) (tf + off) = smem s (tf + off)).
Proof.
  split; [reflexivity |]. split.
  - unfold saved, entered. rewrite poke64_mem, poke64_procs, put_csr_procs. apply (load_store_eq 8).
  - intros off Ho tf. unfold entered. rewrite poke64_mem. change TF_epc with 24. rewrite store64_out by (subst tf; lia). reflexivity.
Qed.

Lemma within_emits {A} (E : S -> S -> Prop) s0 tr (a : A) h s' : within true E (fun _ _ => True) s0 (emits tr (Ret a h s')) -> E s0 s'.
Proof. induction tr; cbn; tauto. Qed.

(** A timer interrupt is handled at once. *)
Lemma timer_run fuel (s : S) : mhart s scause = SCAUSE_TIMER -> exists tr s', devintr fuel [] s = emits tr (Ret 2 [] s') /\ same_program s s'.
Proof.
  intros Hc. assert (E : exists tr s', devintr fuel [] s = emits tr (Ret 2 [] s')).
  { unfold devintr. rewrite (bind_Ret _ _ _ _ _ _ _ (hm_read scause [] s)), Hc. change (SCAUSE_TIMER =? SCAUSE_EXT) with false. change (SCAUSE_TIMER =? SCAUSE_TIMER) with true. cbv iota.
    unfold clockintr. rewrite !bind_bind. assert (Eid : hm cpuid [] s = Ret (i32 (mhart s tp)) [] s) by (now destruct s). rewrite (bind_Ret _ _ _ _ _ _ _ Eid).
    destruct (i32 (mhart s tp) =? 0); [eexists [EvWakeup ch_ticks], _ | eexists [], _]; reflexivity. }
  destruct E as (tr & s' & E). exists tr, s'. split; [exact E |]. pose proof (still_devintr fuel [] s) as Hw. rewrite E in Hw. exact (within_emits _ _ _ _ _ _ Hw).
Qed.

Definition from_user (s : S) : Prop := Z.land (mhart s sstatus) SSTATUS_SPP = 0.

(** [usertrap] once the cause is to be looked at. *)
Definition handle (fuel : nat) (pad : list Z) (p : proc) (scause : Z) : M S Z :=
  if scause =? 8 then
    exit_if_killed;;
    epc <- km (vmm (read64 (trapframe p + TF_epc)));;
    km (vmm (write64 (trapframe p + TF_epc) (u64 (epc + 4))));;
    hm intr_on;;
    km (syscall pad);;
    ret 0
  else
    d <- devintr fuel;;
    if negb (d =? 0) then ret d
    else
      scause <- hm r_scause;;
      printf (bytes_of "usertrap(): unexpected scause 0x%lx pid=%d" ++ [10]) [VInt scause; VInt (pid p)];;
      sepc <- hm r_sepc;;
      stval <- hm r_stval;;
      printf (bytes_of "            sepc=0x%lx stval=0x%lx" ++ [10]) [VInt sepc; VInt stval];;
      km (prm (setkilled myproc));;
      ret 0.
Definition finish (d : Z) : M S Z :=
  exit_if_killed;;
  (if d =? 2 then km (prm (yield myproc)) else ret tt);;
  usertrapret.

Lemma usertrap_entered fuel pad (s : S) : from_user s ->
  usertrap fuel pad [] s = (d <- handle fuel pad (procs (k_ps (mkern s)) myproc) (mhart s scause);; finish d) [] (entered s).
Proof.
  intros Hu. unfold usertrap. rewrite (bind_Ret _ _ _ _ _ _ _ (hm_read sstatus [] s)), Hu. cbn [Z.eqb negb].
  rewrite (bind_Ret _ _ _ _ _ _ _ (hm_write stvec _ [] s)). set (s1 := put_csr stvec kernelvec_addr s).
  rewrite (bind_Ret _ _ _ _ _ _ _ (km_me [] s1)), (bind_Ret _ _ _ _ _ _ _ (hm_read sepc [] s1)), (bind_Ret _ _ _ _ _ _ _ (km_write _ _ [] s1)).
  change (poke64 (trapframe (procs (k_ps (mkern s1)) myproc) + TF_epc) (mhart s1 sepc) s1) with (entered s).
  rewrite (bind_Ret _ _ _ _ _ _ _ (hm_read scause [] (entered s))). reflexivity.
Qed.

Lemma finish_gone d (s : S) : pkilled (procs (k_ps (mkern s)) myproc) <> 0 -> gone (finish d [] s).
Proof. intros Hk. apply gone_before, killed_gone, Hk. Qed.

Lemma fault_gone h (s : S) : gone ((km (prm (setkilled myproc));; finish 0) h s).
Proof.
  destruct (decide (proc_lock myproc ∈ h)) as [Hi | Hn].
  - apply gone_before. unfold km, prm, zoom, setkilled, bind. rewrite acquire_held by exact Hi. exact I.
  - assert (E : km (prm (setkilled myproc)) h s = Ret tt h (set_mkern (set_k_ps (upd_proc myproc (set_pkilled 1) (k_ps (mkern s))) (mkern s)) s)).
    { unfold km, prm. erewrite zoom_Ret; [reflexivity |]. erewrite zoom_Ret; [reflexivity |]. unfold setkilled, modproc.
      rewrite (bind_Ret _ _ _ _ _ _ _ (acquire_free _ h _ Hn)). krun. reflexivity. }
    rewrite (bind_Ret _ _ _ _ _ _ _ E). set (s' := set_mkern _ s). apply gone_before. unfold exit_if_killed.
    assert (Ek : km (prm (Proc.killed myproc)) h s' = Ret 1 h s').
    { apply km_prm_Ret. unfold Proc.killed, getproc. rewrite (bind_Ret _ _ _ _ _ _ _ (acquire_free _ h _ Hn)). krun. cbn. now rewrite Z.eqb_refl. }
    rewrite (bind_Ret _ _ _ _ _ _ _ Ek). cbn [Z.eqb Pos.eqb negb]. apply gone_zoom. intros. apply exit_gone.
Qed.

(** *** The causes one by one *)

Lemma timer_case fuel pad (s : S) : from_user s -> pkilled (procs (k_ps (mkern s)) myproc) = 0 -> mhart s scause = SCAUSE_TIMER ->
  exists tr s1 k, usertrap fuel pad [] s = emits tr (Sleep ch_cpu s1 k) /\ state (procs (k_ps (mkern s1)) myproc) = RUNNABLE /\
    forall s', same_program s1 s' -> exists r s'', k s' = Ret r [] s'' /\ resumed (mhart s sepc) s r s''.
Proof.
  intros Hu Hk Hc. rewrite (usertrap_entered _ _ _ Hu), Hc. unfold handle. change (SCAUSE_TIMER =? 8) with false. cbv iota.
  destruct (timer_run fuel (entered s) Hc) as (tr & s2 & E & Hs2). rewrite bind_bind, (bind_emits _ _ _ _ _ _ _ _ E). cbn [Z.eqb negb]. rewrite bind_ret. unfold finish.
  assert (Hk2 : pkilled (procs (k_ps (mkern s2)) myproc) = 0) by (destruct Hs2 as [Ec _]; unfold context in Ec; injection Ec as _ _ _ ->; exact Hk).
  rewrite (bind_Ret _ _ _ _ _ _ _ (not_killed_run s2 Hk2)). cbn [Z.eqb Pos.eqb]. destruct (yield_run s2) as (s3 & k & Ey & Hs3 & Hst & Hkk).
  unfold bind at 1. rewrite Ey. cbn [obind]. eexists tr, s3, _. split; [reflexivity |]. split; [exact Hst |]. intros s' Hs'. cbv beta. rewrite Hkk. cbn [obind].
  destruct (usertrapret_back [] s') as (r & s'' & Er & Hr & Hs''). exists r, s''. split; [exact Er |]. destruct (entered_facts s) as (F1 & F2 & F3).
  apply (back_resumed s (entered s)); auto; [now rewrite F2, u64_u64 |]. etransitivity; [exact Hs2 |]. etransitivity; [exact Hs3 |]. etransitivity; [exact Hs' | exact Hs''].
Qed.

Lemma device_case fuel pad (s : S) : from_user s -> pkilled (procs (k_ps (mkern s)) myproc) = 0 -> mhart s scause = SCAUSE_EXT ->
  ends same_program (fun d h _ => d = 1 /\ h = []) (devintr fuel [] (entered s)) ->
  ends same_program (fun r h s' => h = [] /\ resumed (mhart s sepc) s r s') (usertrap fuel pad [] s).
Proof.
  intros Hu Hk Hc Hd. rewrite (usertrap_entered _ _ _ Hu), Hc. unfold handle. change (SCAUSE_EXT =? 8) with false. cbv iota. rewrite bind_bind.
  eapply ends_bind; [apply (ends_within same_program same_program); [tauto | apply still_devintr | exact Hd] |].
  intros d h s2 (Hs2 & -> & ->). cbn [Z.eqb negb]. rewrite bind_ret. unfold finish. cbn [Z.eqb Pos.eqb].
  assert (Hk2 : pkilled (procs (k_ps (mkern s2)) myproc) = 0) by (destruct Hs2 as [Ec _]; unfold context in Ec; injection Ec as _ _ _ ->; exact Hk).
  rewrite (bind_Ret _ _ _ _ _ _ _ (not_killed_run s2 Hk2)), bind_ret. destruct (usertrapret_back [] s2) as (r & s' & Er & Hr & Hs'). rewrite Er. cbn [ends]. split; [reflexivity |].
  destruct (entered_facts s) as (F1 & F2 & F3). apply (back_resumed s (entered s)); auto; [now rewrite F2, u64_u64 |]. etransitivity; [exact Hs2 | exact Hs'].
Qed.

Lemma syscall_case fuel pad (s : S) : from_user s -> pkilled (procs (k_ps (mkern s)) myproc) = 0 -> mhart s scause = 8 ->
  exists s1 rest, usertrap fuel pad [] s = (km (syscall pad);; rest) [] s1 /\
    context s1 = context s /\ saved TF_epc s1 = u64 (mhart s sepc + 4) /\ mhart s1 stvec = u64 kernelvec_addr /\ Z.land (mhart s1 sstatus) SSTATUS_SIE <> 0 /\
    (forall off, 40 <= off < TF_SIZE -> let tf := trapframe (procs (k_ps (mkern s)) myproc) in smem s1 (tf + off) = smem s (tf + off)) /\
    forall s2, pkilled (procs (k_ps (mkern s2)) myproc) = 0 -> exists r s', rest [] s2 = Ret r [] s' /\ resumed (saved TF_epc s2) s2 r s'.
Proof.
  intros Hu Hk Hc. rewrite (usertrap_entered _ _ _ Hu), Hc. unfold handle. cbn [Z.eqb Pos.eqb]. set (p := procs (k_ps (mkern s)) myproc).
  rewrite !bind_bind, (bind_Ret _ _ _ _ _ _ _ (not_killed_run (entered s) Hk)), !bind_bind, (bind_Ret _ _ _ _ _ _ _ (km_read _ [] (entered s))).
  rewrite !bind_bind, (bind_Ret _ _ _ _ _ _ _ (km_write _ _ [] (entered s))). set (s0 := poke64 _ _ (entered s)).
  assert (Ei : hm intr_on [] s0 = Ret tt [] (put_csr sstatus (Z.lor (mhart s0 sstatus) SSTATUS_SIE) s0)) by (now destruct s0). rewrite !bind_bind, (bind_Ret _ _ _ _ _ _ _ Ei).
  set (s1 := put_csr sstatus _ s0). rewrite !bind_bind. exists s1, (finish 0). destruct (entered_facts s) as (F1 & F2 & F3).
  assert (Em : smem s1 = store64 (smem (entered s)) (trapframe p + 24) (u64 (load64 (smem (entered s)) (trapframe p + 24) + 4))) by reflexivity. split_and!.
  - unfold bind at 1 3. f_equal.
  - reflexivity.
  - unfold saved. rewrite Em. change (procs (k_ps (mkern s1)) myproc) with p. change TF_epc with 24. rewrite load64_store64_eq by apply Z.mod_pos_bound, eq_refl.
    change (load64 (smem (entered s)) (trapframe p + 24)) with (saved TF_epc (entered s)). rewrite F2. unfold u64. now rewrite Zplus_mod_idemp_l.
  - reflexivity.
  - unfold s1. rewrite put_csr_hart, decide_True by reflexivity. apply Z.eqb_neq. unfold SSTATUS_SIE at 2. rewrite land_pow2_zero by lia. unfold u64. rewrite Z.mod_pow2_bits_low, Z.lor_spec by lia. now rewrite orb_true_r.
  - intros off Ho. rewrite Em, store64_out by lia. exact (F3 off Ho).
  - intros s2 Hk2. unfold finish. cbn [Z.eqb]. rewrite (bind_Ret _ _ _ _ _ _ _ (not_killed_run s2 Hk2)), bind_ret. destruct (usertrapret_back [] s2) as (r & s' & Er & Hr & Hs').
    exists r, s'. split; [exact Er |]. apply (back_resumed s2 s2); auto.
Qed.

Lemma fault_case fuel pad (s : S) : from_user s ->
  (mhart s scause = 8 /\ pkilled (procs (k_ps (mkern s)) myproc) <> 0) \/ (mhart s scause <> 8 /\ mhart s scause <> SCAUSE_EXT /\ mhart s scause <> SCAUSE_TIMER) ->
  gone (usertrap fuel pad [] s).
Proof.
  intros Hu [[Hc Hk] | (H8 & He & Ht)]; rewrite (usertrap_entered _ _ _ Hu); unfold handle.
  - rewrite Hc. cbn [Z.eqb Pos.eqb]. apply gone_before, gone_before, killed_gone, Hk.
  - rewrite (proj2 (Z.eqb_neq _ _) H8). assert (Ed : devintr fuel [] (entered s) = Ret 0 [] (entered s)).
    { unfold devintr. rewrite (bind_Ret _ _ _ _ _ _ _ (hm_read scause [] (entered s))). change (mhart (entered s) scause) with (mhart s scause).
      now rewrite (proj2 (Z.eqb_neq _ _) He), (proj2 (Z.eqb_neq _ _) Ht). }
    rewrite bind_bind, (bind_Ret _ _ _ _ _ _ _ Ed). cbn [Z.eqb negb]. do 5 (rewrite bind_bind; apply gone_bind; intros). rewrite bind_bind. apply fault_gone.
Qed.

(** C31: A trap from user mode is handled and the program goes on where it should.
    After a timer interrupt the process gives up the processor, ready to run; when
    it is scheduled again, it returns to the instruction at which it was
    interrupted, with the registers it had.  After an interrupt of a device, if
    the driver returns (from states that differ from those in which it has waited
    for the device, but not in the program), it returns there at once.  A system
    call starts with the saved program counter after the [ecall], interrupts on
    and traps to [kernelvec]; when it is done, a process that has not been killed
    returns to the program counter that is saved then.  A process that makes a
    fault, or a system call when it has been killed, never returns.  To return
    means: interrupts are off, [sret] goes to user mode with interrupts on, traps
    go to [uservec], the page table is that of the process, and the trap frame has
    the page table, the stack, the handler and the hart of the kernel for the next
    trap ([user_ready]).  While the process waits, other threads leave its program
    alone ([same_program]). *)
Theorem usertrap_resumes fuel pad (s : S) : from_user s ->
  let killed := pkilled (procs (k_ps (mkern s)) myproc) in
  (mhart s scause = SCAUSE_TIMER -> killed = 0 ->
    exists tr s1 k, usertrap fuel pad [] s = emits tr (Sleep ch_cpu s1 k) /\ state (procs (k_ps (mkern s1)) myproc) = RUNNABLE /\
      forall s', same_program s1 s' -> exists r s'', k s' = Ret r [] s'' /\ resumed (mhart s sepc) s r s'') /\
  (mhart s scause = SCAUSE_EXT -> killed = 0 -> ends same_program (fun d h _ => d = 1 /\ h = []) (devintr fuel [] (entered s)) ->
    ends same_program (fun r h s' => h = [] /\ resumed (mhart s sepc) s r s') (usertrap fuel pad [] s)) /\
  (mhart s scause = 8 -> killed = 0 ->
    exists s1 rest, usertrap fuel pad [] s = (km (syscall pad);; rest) [] s1 /\
      context s1 = context s /\ saved TF_epc s1 = u64 (mhart s sepc + 4) /\ mhart s1 stvec = u64 kernelvec_addr /\ Z.land (mhart s1 sstatus) SSTATUS_SIE <> 0 /\
      (forall off, 40 <= off < TF_SIZE -> let tf := trapframe (procs (k_ps (mkern s)) myproc) in smem s1 (tf + off) = smem s (tf + off)) /\
      forall s2, pkilled (procs (k_ps (mkern s2)) myproc) = 0 -> exists r s', rest [] s2 = Ret r [] s' /\ resumed (saved TF_epc s2) s2 r s') /\
  (mhart s scause = 8 /\ killed <> 0 \/ mhart s scause <> 8 /\ mhart s scause <> SCAUSE_EXT /\ mhart s scause <> SCAUSE_TIMER ->
    gone (usertrap fuel pad [] s)).
Proof.
  intros Hu killed. split_and!; [intros; now apply timer_case | intros; now apply device_case | intros; now apply syscall_case | now apply fault_case].
Qed.

(** A new process starts where its trap frame says, and releases the lock that the
    scheduler has taken. *)
Theorem forkret_resumes (s : S) : first s = 0 -> exists r s', forkret [proc_lock myproc] s = Ret r [] s' /\ resumed (saved TF_epc s) s r s'.
Proof.
  intros Hf. unfold forkret. rewrite (bind_Ret _ _ _ _ _ _ _ (release_top _ [] s)), bind_gets, Hf. cbn [Z.eqb negb]. rewrite bind_ret.
  destruct (usertrapret_back [] s) as (r & s' & E & Hr & Hs). exists r, s'. split; [exact E |]. now apply (back_resumed s s).
Qed.
End trap.

(** ** A program that is interrupted *)

Module Demo.
#[local] Instance quiet_uart : UartRegs unit := {| ur_read a r := (32, r); ur_write a v r := r |}.
#[local] Instance uart_plic : PlicRegs unit := {| pl_read a r := (UART0_IRQ, r); pl_write a v r := r |}.
#[local] Instance no_disk : Mmio unit := {| reg_read r a := 0; reg_write a v r := r |}.
#[local] Instance demo_symbols : Symbols := {| forkret_addr := 0x80001000 |}.
#[local] Instance demo_trap_symbols : TrapSymbols := {| kernelvec_addr := 0x80005000; usertrap_addr := 0x80002000; uservec_off := 0; userret_off := 0x9c |}.
#[local] Instance demo_thread : Thread := 1.

Definition demo_proc (p : Z) : proc := Proc RUNNING None 0 0 1 0 0 4096 0x87ffe000 0x87fff000 (Ctx 0 0 []) (repeat 0 16) 0 (repeat 0 16).
Definition demo_kernel : kernel unit :=
  Kernel (FSys (Core (BCache (fun _ => Buf 0 0 0 (SLock 0 0) 0 0 0 []) (fun _ => []) 0) (PSys (mkPhys (fun _ => 0) 0 [] 0) demo_proc 2 1 (fun _ => 1)))
      (Log 2 30 0 0 1 0 []) (Superblock 0 0 0 0 0 0 0 0) (fun _ => Inode 0 0 0 (SLock 0 0) 0 0 0 0 0 0 []))
    (fun f => File FD_NONE 0 0 0 0 0 0 0) (fun _ => dev_null) (fun _ => dev_null) (fun _ => MkPipe [] 0 0 0 0) (Con (repeat 0 128) 0 0 0 (repeat 0 32) 0 0 tt tt) 0.
Definition demo_mach (cause : Z) : mach unit unit unit :=
  Mach demo_kernel (fun c => if decide (c = scause) then cause else if decide (c = sepc) then 0x1234 else 0) tt
    (VDisk _ (fun _ => VDesc Null 0 0 0) 0 (fun _ => 0) 0 (fun _ => 0) (fun _ => 1) 0 (fun _ => 0) (fun _ => 0) (fun _ => BlkReq 0 0 0) (fun _ => VBuf 0 0 []) tt) 1 0 0 1.

(** An interrupt of the UART, a tick of the timer, and a system call at 0x1234. *)
Lemma usertrap_resumes_witness :
  ends same_program (fun r h s' => h = [] /\ mhart s' sepc = 0x1234) (usertrap 1 [] [] (demo_mach SCAUSE_EXT)) /\
  (exists tr s1 k, usertrap 1 [] [] (demo_mach SCAUSE_TIMER) = emits tr (Sleep ch_cpu s1 k)) /\
  (exists s1 rest, usertrap 1 [] [] (demo_mach 8) = (km (syscall []);; rest) [] s1 /\ saved TF_epc s1 = 0x1238) /\
  gone (usertrap 1 [] [] (demo_mach 13)).
Proof.
  split_and!.
  - destruct (usertrap_resumes 1 [] (demo_mach SCAUSE_EXT) eq_refl) as (_ & Hd & _).
    eapply ends_mono; [| apply Hd; [reflexivity | reflexivity | vm_compute; auto]]. intros r h s' (-> & _ & _ & -> & _). split; reflexivity.
  - destruct (usertrap_resumes 1 [] (demo_mach SCAUSE_TIMER) eq_refl) as (Ht & _). destruct (Ht eq_refl eq_refl) as (tr & s1 & k & E & _). eauto.
  - destruct (usertrap_resumes 1 [] (demo_mach 8) eq_refl) as (_ & _ & Hs & _). destruct (Hs eq_refl eq_refl) as (s1 & rest & E & _ & Ep & _). exists s1, rest. split; [exact E | exact Ep].
  - destruct (usertrap_resumes 1 [] (demo_mach 13) eq_refl) as (_ & _ & _ & Hg). apply Hg. right. split_and!; discriminate.
Defined.
End Demo.
