(* ===== verification/Trampoline.v ===== *)
(** * Entering and leaving the kernel (kernel/trampoline.S, kernelvec.S, swtch.S)

    The assembly of the kernel as lists of instructions, with the names of the
    registers of the RISC-V calling convention, and a processor that runs them:
    loads and stores go through the page table that [satp] points to, in
    supervisor mode.  A fault is [None]. *)

From S2P Require Import Prelude KMonad Riscv Mem Vm VmTable Csr.

Definition ra : Z := 1.
Definition sp : Z := 2.
Definition gp : Z := 3.
Definition tpr : Z := 4.
Definition t0 : Z := 5.
Definition t1 : Z := 6.
Definition t2 : Z := 7.
Definition s0 : Z := 8.
Definition s1 : Z := 9.
Definition a0 : Z := 10.
Definition a1 : Z := 11.
Definition a2 : Z := 12.
Definition a3 : Z := 13.
Definition a4 : Z := 14.
Definition a5 : Z := 15.
Definition a6 : Z := 16.
Definition a7 : Z := 17.
Definition s2 : Z := 18.
Definition s3 : Z := 19.
Definition s4 : Z := 20.
Definition s5 : Z := 21.
Definition s6 : Z := 22.
Definition s7 : Z := 23.
Definition s8 : Z := 24.
Definition s9 : Z := 25.
Definition s10 : Z := 26.
Definition s11 : Z := 27.
Definition t3 : Z := 28.
Definition t4 : Z := 29.
Definition t5 : Z := 30.
Definition t6 : Z := 31.

(** [Sd r off b] is [sd r, off(b)] and [Ld r off b] is [ld r, off(b)]. *)
Inductive instr :=
| Li (r imm : Z) | Addi (r s imm : Z)
| Sd (r off b : Z) | Ld (r off b : Z)
| Csrw (c : csr) (r : Z) | Csrr (r : Z) (c : csr)
| SfenceVma | Jr (r : Z) | Call (f : Z) | Ret_ | Sret.

Record cpu := Cpu { xr : Z -> Z; cs : hart; cm : memory; pc : Z; user_mode : bool }.

Definition setx (r v : Z) (c : cpu) : cpu :=
  Cpu (fun q => if q =? r then u64 v else xr c q) (cs c) (cm c) (pc c) (user_mode c).
Definition set_cs (d : csr) (v : Z) (c : cpu) : cpu :=
  Cpu (xr c) (fun e => if decide (e = d) then v else cs c e) (cm c) (pc c) (user_mode c).
Definition set_cm (m : memory) (c : cpu) : cpu := Cpu (xr c) (cs c) m (pc c) (user_mode c).
Definition set_pc (v : Z) (c : cpu) : cpu := Cpu (xr c) (cs c) (cm c) v (user_mode c).

(** The root of the page table in [satp]. *)
Definition satp_root (v : Z) : Z := Z.shiftl (Z.land v (2 ^ 44 - 1)) 12.

(** The physical address for an access in supervisor mode that needs [perm]. *)
Definition mmu (m : memory) (satp va perm : Z) : option Z :=
  match sv39_translate m (satp_root satp) va with
  | Some (pa, f) => if flag f perm && negb (flag f PTE_U) then Some pa else None
  | None => None
  end.

(** [sret] gives [SIE] the value of [SPIE], sets [SPIE] and clears [SPP]. *)
Definition sret_status (st : Z) : Z :=
  let st' := Z.land st (Z.lnot (Z.lor SSTATUS_SPP SSTATUS_SIE)) in
  Z.lor (Z.lor st' SSTATUS_SPIE) (if flag st SSTATUS_SPIE then SSTATUS_SIE else 0).

(** [callee] is the code that [Call] runs. *)
Definition step_instr (callee : cpu -> cpu) (i : instr) (c : cpu) : option cpu :=
  match i with
  | Li r imm => Some (setx r imm c)
  | Addi r s imm => Some (setx r (xr c s + imm) c)
  | Sd r off b =>
      match mmu (cm c) (cs c satp) (u64 (xr c b + off)) PTE_W with
      | Some pa => Some (set_cm (store64 (cm c) pa (xr c r)) c)
      | None => None
      end
  | Ld r off b =>
      match mmu (cm c) (cs c satp) (u64 (xr c b + off)) PTE_R with
      | Some pa => Some (setx r (load64 (cm c) pa) c)
      | None => None
      end
  | Csrw d r => Some (set_cs d (xr c r) c)
  | Csrr r d => Some (setx r (cs c d) c)
  | SfenceVma => Some c
  | Jr r => Some (set_pc (xr c r) c)
  | Call f => Some (callee c)
  | Ret_ => Some (set_pc (xr c ra) c)
  | Sret =>
      let st := cs c sstatus in
      let c' := set_cs sstatus (sret_status st) c in
      Some (Cpu (xr c') (cs c') (cm c') (cs c sepc) (negb (flag st SSTATUS_SPP)))
  end.

Fixpoint run (callee : cpu -> cpu) (l : list instr) (c : cpu) : option cpu :=
  match l with
  | [] => Some c
  | i :: l' =>
      match step_instr callee i c with
      | Some c' => run callee l' c'
      | None => None
      end
  end.

(** ** trampoline.S *)

Definition uservec : list instr :=
  [Csrw sscratch a0;
   Li a0 TRAPFRAME;
   Sd ra 40 a0; Sd sp 48 a0; Sd gp 56 a0; Sd tpr 64 a0; Sd t0 72 a0; Sd t1 80 a0; Sd t2 88 a0;
   Sd s0 96 a0; Sd s1 104 a0;
   Sd a1 120 a0; Sd a2 128 a0; Sd a3 136 a0; Sd a4 144 a0; Sd a5 152 a0; Sd a6 160 a0; Sd a7 168 a0;
   Sd s2 176 a0; Sd s3 184 a0; Sd s4 192 a0; Sd s5 200 a0; Sd s6 208 a0; Sd s7 216 a0; Sd s8 224 a0;
   Sd s9 232 a0; Sd s10 240 a0; Sd s11 248 a0;
   Sd t3 256 a0; Sd t4 264 a0; Sd t5 272 a0; Sd t6 280 a0;
   Csrr t0 sscratch;
   Sd t0 112 a0;
   Ld sp 8 a0;
   Ld tpr 32 a0;
   Ld t0 16 a0;
   Ld t1 0 a0;
   SfenceVma;
   Csrw satp t1;
   SfenceVma;
   Jr t0].

Definition userret : list instr :=
  [SfenceVma;
   Csrw satp a0;
   SfenceVma;
   Li a0 TRAPFRAME;
   Ld ra 40 a0; Ld sp 48 a0; Ld gp 56 a0; Ld tpr 64 a0; Ld t0 72 a0; Ld t1 80 a0; Ld t2 88 a0;
   Ld s0 96 a0; Ld s1 104 a0;
   Ld a1 120 a0; Ld a2 128 a0; Ld a3 136 a0; Ld a4 144 a0; Ld a5 152 a0; Ld a6 160 a0; Ld a7 168 a0;
   Ld s2 176 a0; Ld s3 184 a0; Ld s4 192 a0; Ld s5 200 a0; Ld s6 208 a0; Ld s7 216 a0; Ld s8 224 a0;
   Ld s9 232 a0; Ld s10 240 a0; Ld s11 248 a0;
   Ld t3 256 a0; Ld t4 264 a0; Ld t5 272 a0; Ld t6 280 a0;
   Ld a0 112 a0;
   Sret].

(** ** kernelvec.S *)

Definition kernelvec (kerneltrap : Z) : list instr :=
  [Addi sp sp (-256);
   Sd ra 0 sp; Sd sp 8 sp; Sd gp 16 sp; Sd tpr 24 sp; Sd t0 32 sp; Sd t1 40 sp; Sd t2 48 sp;
   Sd a0 72 sp; Sd a1 80 sp; Sd a2 88 sp; Sd a3 96 sp; Sd a4 104 sp; Sd a5 112 sp; Sd a6 120 sp; Sd a7 128 sp;
   Sd t3 216 sp; Sd t4 224 sp; Sd t5 232 sp; Sd t6 240 sp;
   Call kerneltrap;
   Ld ra 0 sp; Ld sp 8 sp; Ld gp 16 sp; Ld t0 32 sp; Ld t1 40 sp; Ld t2 48 sp;
   Ld a0 72 sp; Ld a1 80 sp; Ld a2 88 sp; Ld a3 96 sp; Ld a4 104 sp; Ld a5 112 sp; Ld a6 120 sp; Ld a7 128 sp;
   Ld t3 216 sp; Ld t4 224 sp; Ld t5 232 sp; Ld t6 240 sp;
   Addi sp sp 256;
   Sret].

(** ** swtch.S *)

Definition swtch_code : list instr :=
  [Sd ra 0 a0; Sd sp 8 a0; Sd s0 16 a0; Sd s1 24 a0; Sd s2 32 a0; Sd s3 40 a0; Sd s4 48 a0; Sd s5 56 a0;
   Sd s6 64 a0; Sd s7 72 a0; Sd s8 80 a0; Sd s9 88 a0; Sd s10 96 a0; Sd s11 104 a0;
   Ld ra 0 a1; Ld sp 8 a1; Ld s0 16 a1; Ld s1 24 a1; Ld s2 32 a1; Ld s3 40 a1; Ld s4 48 a1; Ld s5 56 a1;
   Ld s6 64 a1; Ld s7 72 a1; Ld s8 80 a1; Ld s9 88 a1; Ld s10 96 a1; Ld s11 104 a1;
   Ret_].
