(* ===== verification/TrampolineSpec.v ===== *)
(** * Registers survive the way through the kernel

    The assembly that enters and leaves the kernel saves and restores the
    registers: [uservec] and [userret] through the trap frame of the process,
    [kernelvec] on the kernel stack, [swtch] in the contexts. *)

From Stdlib Require Import FunctionalExtensionality.
From S2P Require Import Prelude KMonad Riscv Mem Kalloc Vm Proc VmTable VmWalk VmMap ProcMem ProcSpace ProcRun ProcLife ProcBoot Csr Trampoline.

(** ** Saving and restoring *)

Definition saves (b : Z) (l : list (Z * Z)) : list instr := map (fun x => Sd (fst x) (snd x) b) l.
Definition loads (b : Z) (l : list (Z * Z)) : list instr := map (fun x => Ld (fst x) (snd x) b) l.

(** Memory after the registers [l] have been saved at [pa]. *)
Fixpoint stored (pa : Z) (x : Z -> Z) (l : list (Z * Z)) (m : memory) : memory :=
  match l with
  | [] => m
  | (r, o) :: l' => stored pa x l' (store64 m (pa + o) (x r))
  end.

(** Registers after those of [l] have been loaded from [pa]. *)
Fixpoint loaded (pa : Z) (m : memory) (l : list (Z * Z)) (x : Z -> Z) : Z -> Z :=
  match l with
  | [] => x
  | (r, o) :: l' => loaded pa m l' (fun q => if q =? r then u64 (load64 m (pa + o)) else x q)
  end.

(** Words at offsets that do not overlap. *)
Definition apart (l : list (Z * Z)) : Prop := forall r o r' o', (r, o) ∈ l -> (r', o') ∈ l -> o = o' \/ o + 8 <= o' \/ o' + 8 <= o.

(** [n] bytes at the virtual address [va] are those at [pa]. *)
Definition window (m : memory) (root va pa n : Z) : Prop :=
  forall o, 0 <= o -> o + 8 <= n -> mmu m root (u64 (va + o)) PTE_W = Some (pa + o) /\ mmu m root (u64 (va + o)) PTE_R = Some (pa + o).

Section runs.
Variable f : cpu -> cpu.

Lemma run_step i l c c' : step_instr f i c = Some c' -> run f (i :: l) c = run f l c'.
Proof. intros E. cbn [run]. now rewrite E. Qed.

Lemma run_seq l1 l2 c c' : run f l1 c = Some c' -> run f (l1 ++ l2) c = run f l2 c'.
Proof. revert c. induction l1 as [|i l1 IH]; intros c; cbn [run app]; [now intros [= ->] |]. destruct (step_instr f i c); [apply IH | discriminate]. Qed.

(** [I] says of memory that the translation is there. *)
Lemma run_saves (I : memory -> Prop) b pa n l : forall c,
  (forall m, I m -> window m (cs c satp) (xr c b) pa n) ->
  (forall m o v, I m -> 0 <= o -> o + 8 <= n -> I (store64 m (pa + o) v)) ->
  I (cm c) -> Forall (fun x => 0 <= snd x /\ snd x + 8 <= n) l ->
  run f (saves b l) c = Some (set_cm (stored pa (xr c) l (cm c)) c) /\ I (stored pa (xr c) l (cm c)).
Proof.
  induction l as [|[r o] l IH]; intros c Hw Hst Hi Hl; [now destruct c |]. apply Forall_cons in Hl as [[Ho1 Ho2] Hl]. cbn [fst snd] in *.
  cbn [saves map run step_instr fst snd stored]. rewrite (proj1 (Hw _ Hi o Ho1 Ho2)).
  apply (IH (set_cm (store64 (cm c) (pa + o) (xr c r)) c)); cbn [xr cs cm set_cm]; auto.
Qed.

Lemma run_loads b pa n l : forall c, b ∉ map fst l ->
  window (cm c) (cs c satp) (xr c b) pa n -> Forall (fun x => 0 <= snd x /\ snd x + 8 <= n) l ->
  run f (loads b l) c = Some (Cpu (loaded pa (cm c) l (xr c)) (cs c) (cm c) (pc c) (user_mode c)).
Proof.
  induction l as [|[r o] l IH]; intros c Hb Hw Hl; [now destruct c |]. apply Forall_cons in Hl as [[Ho1 Ho2] Hl]. cbn [fst snd map] in *.
  apply not_elem_of_cons in Hb as [Hne Hb]. cbn [loads map run step_instr fst snd]. rewrite (proj2 (Hw o Ho1 Ho2)).
  specialize (IH (setx r (load64 (cm c) (pa + o)) c)). cbn [xr cs cm setx pc user_mode] in IH. rewrite (proj2 (Z.eqb_neq b r)) in IH by exact Hne.
  unfold loads in IH. now rewrite IH.
Qed.

End runs.

Lemma stored_out pa x l : forall m a, (forall r o, (r, o) ∈ l -> a + 8 <= pa + o \/ pa + o + 8 <= a) -> load64 (stored pa x l m) a = load64 m a.
Proof.
  induction l as [|[r o] l IH]; intros m a Ha; [reflexivity |]. cbn [stored]. rewrite IH.
  - apply load64_store64_ne. apply (Ha r o). apply list_elem_of_here.
  - intros r' o' Hin. apply (Ha r' o'). now apply list_elem_of_further.
Qed.

Lemma stored_byte pa x n l : forall m a, Forall (fun x => 0 <= snd x /\ snd x + 8 <= n) l -> a < pa \/ pa + n <= a -> stored pa x l m a = m a.
Proof.
  induction l as [|[r o] l IH]; intros m a Hl Ha; [reflexivity |]. apply Forall_cons in Hl as [[Ho1 Ho2] Hl]. cbn [fst snd] in *. cbn [stored].
  rewrite IH by assumption. apply store64_out. lia.
Qed.

Lemma setx_ok r v c q : (forall q, 0 <= xr c q < 2 ^ 64) -> 0 <= xr (setx r v c) q < 2 ^ 64.
Proof. intros Hc. cbn [setx xr]. destruct (q =? r); [apply Z.mod_pos_bound; lia | apply Hc]. Qed.

Lemma stored_in pa x l r o : forall m, (forall q, 0 <= x q < 2 ^ 64) -> apart l -> NoDup (map snd l) -> (r, o) ∈ l ->
  load64 (stored pa x l m) (pa + o) = x r.
Proof.
  induction l as [|[r' o'] l IH]; intros m Hx Ha Hn Hin; [inversion Hin |]. cbn [stored map snd] in *. apply NoDup_cons in Hn as [Hno Hn].
  apply elem_of_cons in Hin as [[= -> ->] | Hin].
  - rewrite stored_out.
    + now apply load64_store64_eq.
    + intros r2 o2 Hin2. destruct (Ha r' o' r2 o2) as [-> | Hap]; [apply list_elem_of_here | now apply list_elem_of_further | | lia].
      destruct Hno. apply list_elem_of_fmap. now exists (r2, o2).
  - apply IH; auto. intros r1 o1 r2 o2 H1 H2. apply (Ha r1 o1 r2 o2); now apply list_elem_of_further.
Qed.

Lemma loaded_out pa m l : forall x q, q ∉ map fst l -> loaded pa m l x q = x q.
Proof.
  induction l as [|[r o] l IH]; intros x q Hq; [reflexivity |]. cbn [map fst] in Hq. apply not_elem_of_cons in Hq as [Hne Hq]. cbn [loaded].
  rewrite IH by exact Hq. now rewrite (proj2 (Z.eqb_neq q r)).
Qed.

Lemma loaded_in pa m l r o : forall x, NoDup (map fst l) -> (r, o) ∈ l -> loaded pa m l x r = u64 (load64 m (pa + o)).
Proof.
  induction l as [|[r' o'] l IH]; intros x Hn Hin; [inversion Hin |]. cbn [map fst] in Hn. apply NoDup_cons in Hn as [Hno Hn]. cbn [loaded].
  apply elem_of_cons in Hin as [[= -> ->] | Hin]; [| now apply IH]. rewrite loaded_out by exact Hno. now rewrite Z.eqb_refl.
Qed.

(** What saving and loading does, without how. *)
Record saved_at (pa n : Z) (x : Z -> Z) (l : list (Z * Z)) (m m' : memory) : Prop := {
  sv_in : forall r o, (r, o) ∈ l -> load64 m' (pa + o) = x r;
  sv_out : forall a, (forall r o, (r, o) ∈ l -> a + 8 <= pa + o \/ pa + o + 8 <= a) -> load64 m' a = load64 m a;
  sv_far : forall a, a < pa \/ pa + n <= a -> m' a = m a }.

Record loaded_from (pa : Z) (m : memory) (l : list (Z * Z)) (x x' : Z -> Z) : Prop := {
  ld_in : forall r o, (r, o) ∈ l -> x' r = u64 (load64 m (pa + o));
  ld_out : forall q, q ∉ map fst l -> x' q = x q }.

Definition user_saved : list (Z * Z) :=
  [(ra, 40); (sp, 48); (gp, 56); (tpr, 64); (t0, 72); (t1, 80); (t2, 88); (s0, 96); (s1, 104);
   (a1, 120); (a2, 128); (a3, 136); (a4, 144); (a5, 152); (a6, 160); (a7, 168);
   (s2, 176); (s3, 184); (s4, 192); (s5, 200); (s6, 208); (s7, 216); (s8, 224); (s9, 232); (s10, 240); (s11, 248);
   (t3, 256); (t4, 264); (t5, 272); (t6, 280)].

Definition offsets_ok (n : Z) (l : list (Z * Z)) : bool :=
  forallb (fun x => (0 <=? snd x) && (snd x + 8 <=? n)) l &&
  forallb (fun x => forallb (fun y => (snd x =? snd y) || (snd x + 8 <=? snd y) || (snd y + 8 <=? snd x)) l) l.

Lemma offsets_range n l : offsets_ok n l = true -> Forall (fun x => 0 <= snd x /\ snd x + 8 <= n) l /\ apart l.
Proof.
  unfold offsets_ok. rewrite andb_true_iff, !forallb_forall. intros [H1 H2]. split.
  - apply Forall_forall. intros x Hx. apply list_elem_of_In in Hx. specialize (H1 x Hx). lia.
  - intros r o r' o' Hx Hy. apply list_elem_of_In in Hx, Hy. specialize (H2 _ Hx). rewrite forallb_forall in H2. specialize (H2 _ Hy). cbn in H2. lia.
Qed.

Lemma run_saved f (I : memory -> Prop) b pa n l c :
  (forall m, I m -> window m (cs c satp) (xr c b) pa n) ->
  (forall m o v, I m -> 0 <= o -> o + 8 <= n -> I (store64 m (pa + o) v)) ->
  I (cm c) -> (forall q, 0 <= xr c q < 2 ^ 64) -> offsets_ok n l = true -> NoDup (map snd l) ->
  exists m', run f (saves b l) c = Some (set_cm m' c) /\ I m' /\ saved_at pa n (xr c) l (cm c) m'.
Proof.
  intros Hw Hst Hi Hx Hl Hn. destruct (offsets_range _ _ Hl) as [Hr Hap].
  destruct (run_saves f I b pa n l c Hw Hst Hi Hr) as [E Hi']. exists (stored pa (xr c) l (cm c)). split; [exact E |]. split; [exact Hi' |]. split.
  - intros r o Hin. now apply stored_in.
  - intros a Ha. now apply stored_out.
  - intros a Ha. now apply (stored_byte _ _ n).
Qed.

Lemma run_loaded f b pa n l c :
  window (cm c) (cs c satp) (xr c b) pa n -> offsets_ok n l = true -> NoDup (b :: map fst l) ->
  exists x', run f (loads b l) c = Some (Cpu x' (cs c) (cm c) (pc c) (user_mode c)) /\ loaded_from pa (cm c) l (xr c) x'.
Proof.
  intros Hw Hl Hn. apply NoDup_cons in Hn as [Hbn Hn]. destruct (offsets_range _ _ Hl) as [Hr _]. eexists. split; [now apply (run_loads f b pa n) |]. split.
  - intros r o Hin. now apply loaded_in.
  - intros q Hq. now apply loaded_out.
Qed.

Lemma saved_ok : offsets_ok PGSIZE user_saved = true.
Proof. vm_compute. reflexivity. Qed.
Lemma saved_nodup : NoDup (map snd user_saved) /\ NoDup (map fst user_saved).
Proof. split; apply (bool_decide_unpack _); vm_compute; exact I. Qed.

Lemma saved_nodup0 : NoDup (a0 :: map fst user_saved).
Proof. apply (bool_decide_unpack _); vm_compute; exact I. Qed.

Lemma kwords_nodup : NoDup (a0 :: map fst [(sp, 8); (tpr, 32); (t0, 16); (t1, 0)]).
Proof. apply (bool_decide_unpack _); vm_compute; exact I. Qed.
Ltac kword := apply (bool_decide_unpack _); vm_compute; exact I.

Lemma saved_high : Forall (fun x => (40 <= snd x <= 104 \/ 120 <= snd x) /\ fst x <> a0) user_saved.
Proof. unfold user_saved, a0. repeat (constructor; [cbn; unfold ra, sp, gp, tpr, t0, t1, t2, s0, s1, a1, a2, a3, a4, a5, a6, a7, s2, s3, s4, s5, s6, s7, s8, s9, s10, s11, t3, t4, t5, t6; lia |]). constructor. Qed.

(** ** The trap frame of a process *)

Section user.
Context `{LayoutOk} `{!PoolAbove}.
Variables (f : cpu -> cpu) (a : aspace).
Hypothesis Hown : owns a.

Lemma satp_root_make root : 0 <= root < 2 ^ 56 -> root mod PGSIZE = 0 -> satp_root (MAKE_SATP root) = root.
Proof.
  intros Hr Hal. unfold satp_root, MAKE_SATP, SATP_SV39, PGSIZE in *. rewrite Z.land_lor_distr_l.
  replace (Z.land (Z.shiftl 8 60) (2 ^ 44 - 1)) with 0 by reflexivity. rewrite Z.lor_0_l.
  change (2 ^ 44 - 1) with (Z.ones 44). rewrite Z.land_ones, Z.shiftr_div_pow2, Z.shiftl_mul_pow2 by lia.
  change (2 ^ 12) with 4096. rewrite Z.mod_small; [| split; [apply Z.div_pos; lia | apply Z.div_lt_upper_bound; lia]].
  rewrite Z.mul_comm. symmetry. apply Z.div_exact; lia.
Qed.

Lemma root_page m : space m a -> 0 <= as_root a < 2 ^ 56 /\ as_root a mod PGSIZE = 0.
Proof.
  intros Hsp. destruct (ow_ok _ Hown (as_root a)) as [Hp _]; [right; left; exists []; now apply (pt_root _ _ _ (sp_wf _ _ Hsp)) |].
  pose proof (page_ok_pos _ Hp). destruct Hp as [Hp _]. split; [lia | exact Hp].
Qed.

Lemma tf_window m : space m a -> window m (MAKE_SATP (as_root a)) TRAPFRAME (as_tf a) PGSIZE.
Proof.
  intros Hsp o Ho1 Ho2. unfold PGSIZE in Ho2. assert (Htf : page_ok (as_tf a)) by (apply (ow_ok _ Hown); now left).
  destruct (page_ok_pos _ Htf) as [Hp1 Hp2]. destruct Htf as [Hal _].
  destruct (root_page m Hsp) as [Hr Hra]. unfold mmu. rewrite satp_root_make by assumption.
  assert (Eo : u64 (TRAPFRAME + o) = TRAPFRAME + o) by (apply u64_small; unfold TRAPFRAME, TRAMPOLINE, PGSIZE; change MAXVA with 274877906944; lia).
  rewrite Eo. assert (El : pt_lookup 2 m (as_root a) (TRAPFRAME + o) = Some (mkpte (as_tf a) (Z.lor PTE_R PTE_W), 0%nat)).
  { rewrite <- (sp_trap _ _ Hsp). apply lookup_page. unfold TRAPFRAME, TRAMPOLINE, PGSIZE. change MAXVA with 274877906944. page_lia. }
  rewrite (translate_mkpte m (as_root a) (TRAPFRAME + o) (as_tf a) (Z.lor PTE_R PTE_W) 0%nat); [| split; [lia | exact Hal] | exact rw_perm | exact Hal | exact El].
  assert (Em : (TRAPFRAME + o) mod 2 ^ PXSHIFT (Z.of_nat 0) = o).
  { change (2 ^ PXSHIFT (Z.of_nat 0)) with 4096. unfold TRAPFRAME, TRAMPOLINE, PGSIZE. change MAXVA with 274877906944. page_lia. }
  rewrite Em. split; reflexivity.
Qed.

Lemma tf_space m o v : space m a -> 0 <= o -> o + 8 <= PGSIZE -> space (store64 m (as_tf a + o) v) a.
Proof.
  intros Hsp Ho1 Ho2. apply (space_frame m); [exact Hsp |]. intros q x Hq Hx. apply store64_out.
  destruct (ow_ok _ Hown q) as [[Hq1 Hq2] _]; [right; left; exact Hq |]. destruct (ow_ok _ Hown (as_tf a)) as [[Ht1 Ht2] _]; [now left |].
  assert (q <> as_tf a) by (intros ->; rewrite (proj1 (ow_tf _ Hown)) in Hq; now destruct Hq).
  unfold PGSIZE in *. page_lia.
Qed.

Definition regs_ok (c : cpu) : Prop := forall r, 0 <= xr c r < 2 ^ 64.

(** The trap frame [m'] of the process has the registers of [c]. *)
Definition frame_saved (c : cpu) (m' : memory) : Prop :=
  load64 m' (as_tf a + 112) = xr c a0 /\ forall r o, (r, o) ∈ user_saved -> load64 m' (as_tf a + o) = xr c r.

Lemma uservec_parts : uservec = Csrw sscratch a0 :: Li a0 TRAPFRAME :: saves a0 user_saved ++
  Csrr t0 sscratch :: saves a0 [(t0, 112)] ++ loads a0 [(sp, 8); (tpr, 32); (t0, 16); (t1, 0)] ++ [SfenceVma; Csrw satp t1; SfenceVma; Jr t0].
Proof. reflexivity. Qed.

Lemma userret_parts : userret = SfenceVma :: Csrw satp a0 :: SfenceVma :: Li a0 TRAPFRAME :: loads a0 user_saved ++ [Ld a0 112 a0; Sret].
Proof. reflexivity. Qed.

Lemma uservec_run c : space (cm c) a -> regs_ok c -> cs c satp = MAKE_SATP (as_root a) ->
  exists c1, run f uservec c = Some c1 /\ frame_saved c (cm c1) /\ space (cm c1) a /\
    pc c1 = u64 (load64 (cm c) (as_tf a + 16)) /\ xr c1 sp = u64 (load64 (cm c) (as_tf a + 8)) /\
    xr c1 tpr = u64 (load64 (cm c) (as_tf a + 32)) /\ cs c1 satp = u64 (load64 (cm c) (as_tf a)) /\
    (forall d, d <> sscratch -> d <> satp -> cs c1 d = cs c d) /\
    (forall x, x < as_tf a \/ as_tf a + PGSIZE <= x -> cm c1 x = cm c x).
Proof.
  intros Hsp Hx Hsat.
  rewrite uservec_parts. set (c0 := setx a0 TRAPFRAME (set_cs sscratch (xr c a0) c)).
  rewrite (run_step f (Csrw sscratch a0) _ c _ eq_refl), (run_step f (Li a0 TRAPFRAME) _ _ c0 eq_refl).
  assert (Hw : forall m, space m a -> window m (MAKE_SATP (as_root a)) TRAPFRAME (as_tf a) PGSIZE) by exact tf_window.
  assert (Hs0 : cs c0 satp = MAKE_SATP (as_root a)) by exact Hsat. assert (Ha0 : xr c0 a0 = TRAPFRAME) by reflexivity.
  assert (Hx0 : forall q, 0 <= xr c0 q < 2 ^ 64) by (intros q; apply setx_ok; exact Hx).
  destruct (run_saved f (fun m => space m a) a0 (as_tf a) PGSIZE user_saved c0) as (m1 & E1 & Hs1 & S1);
    [rewrite Hs0, Ha0; exact Hw | intros; now apply tf_space | exact Hsp | exact Hx0 | exact saved_ok | exact (proj1 saved_nodup) |].
  rewrite (run_seq _ _ _ _ _ E1). set (c2 := setx t0 (cs c0 sscratch) (set_cm m1 c0)). rewrite (run_step f (Csrr t0 sscratch) _ _ c2 eq_refl).
  assert (Hs2 : cs c2 satp = MAKE_SATP (as_root a)) by exact Hsat. assert (Ha2 : xr c2 a0 = TRAPFRAME) by reflexivity.
  destruct (run_saved f (fun m => space m a) a0 (as_tf a) PGSIZE [(t0, 112)] c2) as (m2 & E2 & Hs2' & S2);
    [rewrite Hs2, Ha2; exact Hw | intros; now apply tf_space | exact Hs1 | intros q; now apply setx_ok | reflexivity | apply NoDup_singleton |].
  change (cm c2) with m1 in S2. rewrite (run_seq _ _ _ _ _ E2).
  destruct (run_loaded f a0 (as_tf a) PGSIZE [(sp, 8); (tpr, 32); (t0, 16); (t1, 0)] (set_cm m2 c2)) as (x3 & E3 & L3);
    [change (window m2 (cs c2 satp) (xr c2 a0) (as_tf a) PGSIZE); rewrite Hs2, Ha2; now apply Hw | reflexivity | exact kwords_nodup |].
  rewrite (run_seq _ _ _ _ _ E3). do 4 (erewrite run_step by reflexivity). eexists. split; [reflexivity |].
  cbn [set_pc set_cs set_cm cm cs xr pc].
  assert (Et0 : xr c2 t0 = xr c a0) by (apply u64_small, Hx).
  assert (Hlow : forall o, 0 <= o -> o + 8 <= 40 -> load64 m2 (as_tf a + o) = load64 (cm c) (as_tf a + o)).
  { intros o Ho1 Ho2. rewrite (sv_out _ _ _ _ _ _ S2) by (intros r o' [= -> ->]%list_elem_of_singleton; lia). apply (sv_out _ _ _ _ _ _ S1).
    intros r o' Hin. pose proof (proj1 (Forall_forall _ _) saved_high _ Hin) as Hh. cbn in Hh. lia. }
  unfold frame_saved. split_and!.
  - rewrite <- Et0. apply (sv_in _ _ _ _ _ _ S2), list_elem_of_here.
  - intros r o Hin. pose proof (proj1 (Forall_forall _ _) saved_high _ Hin) as Hh. cbn in Hh.
    rewrite (sv_out _ _ _ _ _ _ S2) by (intros r' o' [= -> ->]%list_elem_of_singleton; lia). rewrite (sv_in _ _ _ _ _ _ S1 r o Hin).
    unfold c0. cbn [setx xr set_cs]. rewrite (proj2 (Z.eqb_neq r a0)); [reflexivity |]. tauto.
  - exact Hs2'.
  - rewrite (ld_in _ _ _ _ _ L3 t0 16) by kword. now rewrite Hlow by lia.
  - rewrite (ld_in _ _ _ _ _ L3 sp 8) by kword. now rewrite Hlow by lia.
  - rewrite (ld_in _ _ _ _ _ L3 tpr 32) by kword. now rewrite Hlow by lia.
  - rewrite decide_True by reflexivity. rewrite (ld_in _ _ _ _ _ L3 t1 0) by kword. rewrite Hlow by lia. now rewrite Z.add_0_r.
  - intros d Hd1 Hd2. rewrite decide_False by exact Hd2. unfold c2, c0. cbn [cs setx set_cs set_cm]. rewrite decide_False by exact Hd1. reflexivity.
  - intros x Hout. rewrite (sv_far _ _ _ _ _ _ S2) by exact Hout. apply (sv_far _ _ _ _ _ _ S1). exact Hout.
Qed.

Lemma userret_run c : space (cm c) a -> xr c a0 = MAKE_SATP (as_root a) ->
  exists c', run f userret c = Some c' /\ cm c' = cm c /\ cs c' satp = MAKE_SATP (as_root a) /\ pc c' = cs c sepc /\
    user_mode c' = negb (flag (cs c sstatus) SSTATUS_SPP) /\ cs c' sstatus = sret_status (cs c sstatus) /\
    xr c' a0 = u64 (load64 (cm c) (as_tf a + 112)) /\ forall r o, (r, o) ∈ user_saved -> xr c' r = u64 (load64 (cm c) (as_tf a + o)).
Proof.
  intros Hsp Hsat. rewrite userret_parts. set (c0 := setx a0 TRAPFRAME (set_cs satp (xr c a0) c)).
  rewrite (run_step f SfenceVma _ c _ eq_refl), (run_step f (Csrw satp a0) _ _ _ eq_refl), (run_step f SfenceVma _ _ _ eq_refl), (run_step f (Li a0 TRAPFRAME) _ _ c0 eq_refl).
  assert (Hs0 : cs c0 satp = MAKE_SATP (as_root a)) by exact Hsat. assert (Ha0 : xr c0 a0 = TRAPFRAME) by reflexivity.
  assert (Hw : window (cm c0) (cs c0 satp) (xr c0 a0) (as_tf a) PGSIZE) by (rewrite Hs0, Ha0; now apply tf_window).
  destruct (run_loaded f a0 (as_tf a) PGSIZE user_saved c0) as (x1 & E1 & L1); [exact Hw | exact saved_ok | exact saved_nodup0 |].
  rewrite (run_seq _ _ _ _ _ E1).
  assert (Ex : x1 a0 = TRAPFRAME) by (rewrite (ld_out _ _ _ _ _ L1); [reflexivity | apply (NoDup_cons_1_1 _ _ saved_nodup0)]).
  set (c1 := Cpu x1 (cs c0) (cm c0) (pc c0) (user_mode c0)).
  assert (El : step_instr f (Ld a0 112 a0) c1 = Some (setx a0 (load64 (cm c) (as_tf a + 112)) c1)).
  { cbn [step_instr]. change (mmu (cm c1) (cs c1 satp) (u64 (xr c1 a0 + 112)) PTE_R) with (mmu (cm c0) (cs c0 satp) (u64 (x1 a0 + 112)) PTE_R).
    rewrite Ex, <- Ha0, (proj2 (Hw 112 ltac:(lia) ltac:(unfold PGSIZE; lia))). reflexivity. }
  rewrite (run_step _ _ _ _ _ El). erewrite run_step by reflexivity. eexists. split; [reflexivity |]. cbn [xr cs cm pc user_mode setx set_cs].
  split_and!; try reflexivity; [exact Hsat |]. intros r o Hin. pose proof (proj1 (Forall_forall _ _) saved_high _ Hin) as Hh. cbn in Hh.
  rewrite (proj2 (Z.eqb_neq r a0)) by tauto. exact (ld_in _ _ _ _ _ L1 r o Hin).
Qed.

End user.

(** ** Contexts *)

Definition ctx_saved : list (Z * Z) :=
  [(ra, 0); (sp, 8); (s0, 16); (s1, 24); (s2, 32); (s3, 40); (s4, 48); (s5, 56); (s6, 64); (s7, 72); (s8, 80); (s9, 88); (s10, 96); (s11, 104)].

Lemma swtch_parts : swtch_code = saves a0 ctx_saved ++ loads a1 ctx_saved ++ [Ret_].
Proof. reflexivity. Qed.
Lemma ctx_ok : offsets_ok 112 ctx_saved = true /\ NoDup (map snd ctx_saved) /\ NoDup (a1 :: map fst ctx_saved).
Proof. split_and!; [reflexivity | kword | kword]. Qed.

(** [I] says of memory that the page table maps the contexts at [pa] and [pb]. *)
Lemma swtch_run f (I : memory -> Prop) pa pb c :
  (forall m, I m -> window m (cs c satp) (xr c a0) pa 112) -> (forall m, I m -> window m (cs c satp) (xr c a1) pb 112) ->
  (forall m o v, I m -> 0 <= o -> o + 8 <= 112 -> I (store64 m (pa + o) v)) -> I (cm c) -> (forall q, 0 <= xr c q < 2 ^ 64) ->
  exists m1 x1, run f swtch_code c = Some (Cpu x1 (cs c) m1 (x1 ra) (user_mode c)) /\ I m1 /\
    saved_at pa 112 (xr c) ctx_saved (cm c) m1 /\ loaded_from pb m1 ctx_saved (xr c) x1.
Proof.
  intros Hwa Hwb Hst Hi Hx. destruct ctx_ok as (Ho & Hn & Hn1). rewrite swtch_parts.
  destruct (run_saved f I a0 pa 112 ctx_saved c Hwa Hst Hi Hx Ho Hn) as (m1 & E1 & Hi1 & S1). rewrite (run_seq _ _ _ _ _ E1).
  destruct (run_loaded f a1 pb 112 ctx_saved (set_cm m1 c)) as (x1 & E2 & L1); [exact (Hwb m1 Hi1) | exact Ho | exact Hn1 |].
  rewrite (run_seq _ _ _ _ _ E2). exists m1, x1. split; [reflexivity |]. auto.
Qed.

(** ** The kernel stack *)

Definition kv_rest : list (Z * Z) :=
  [(gp, 16); (t0, 32); (t1, 40); (t2, 48); (a0, 72); (a1, 80); (a2, 88); (a3, 96); (a4, 104); (a5, 112); (a6, 120); (a7, 128);
   (t3, 216); (t4, 224); (t5, 232); (t6, 240)].
Definition kv_saved : list (Z * Z) :=
  [(ra, 0); (sp, 8); (gp, 16); (tpr, 24); (t0, 32); (t1, 40); (t2, 48); (a0, 72); (a1, 80); (a2, 88); (a3, 96); (a4, 104); (a5, 112); (a6, 120); (a7, 128);
   (t3, 216); (t4, 224); (t5, 232); (t6, 240)].
(** Registers that a function leaves as they are. *)
Definition callee_saved : list Z := [s0; s1; s2; s3; s4; s5; s6; s7; s8; s9; s10; s11].

Lemma kernelvec_parts kt : kernelvec kt = Addi sp sp (-256) :: saves sp kv_saved ++ Call kt :: Ld ra 0 sp :: Ld sp 8 sp :: loads sp kv_rest ++ [Addi sp sp 256; Sret].
Proof. reflexivity. Qed.
Lemma kv_ok : offsets_ok 256 kv_saved = true /\ NoDup (map snd kv_saved) /\ offsets_ok 256 kv_rest = true /\ NoDup (sp :: map fst kv_rest).
Proof. split_and!; [reflexivity | kword | reflexivity | kword]. Qed.

Lemma callee_apart : Forall (fun r => (r ∉ map fst kv_rest) /\ r <> sp /\ r <> ra) callee_saved.
Proof. apply (bool_decide_unpack _); vm_compute; exact I. Qed.
Lemma rest_saved x : x ∈ kv_rest -> x ∈ kv_saved.
Proof. intros Hx. assert (Hf : Forall (fun x => x ∈ kv_saved) kv_rest) by kword. exact (proj1 (Forall_forall _ _) Hf _ Hx). Qed.

(** What the compiler guarantees of [kerneltrap]: it returns with the stack
    pointer, the callee-saved registers and the part of the stack above it as
    they were, and the same page table. *)
Record obeys (f : cpu -> cpu) (I : memory -> Prop) (pa : Z) (c : cpu) : Prop := {
  ob_mem : I (cm (f c));
  ob_stack : forall x, pa <= x < pa + 256 -> cm (f c) x = cm c x;
  ob_sp : xr (f c) sp = xr c sp;
  ob_saved : forall r, r ∈ callee_saved -> xr (f c) r = xr c r;
  ob_satp : cs (f c) satp = cs c satp }.

Lemma saved_kept pa x l m m' m'' r o : saved_at pa 256 x l m m' -> (forall x, pa <= x < pa + 256 -> m'' x = m' x) ->
  offsets_ok 256 l = true -> (forall q, 0 <= x q < 2 ^ 64) -> (r, o) ∈ l -> u64 (load64 m'' (pa + o)) = x r.
Proof.
  intros Hs Hm Ho Hx Hin. destruct (offsets_range _ _ Ho) as [Hr _]. pose proof (proj1 (Forall_forall _ _) Hr _ Hin) as Hb. cbn in Hb.
  rewrite (load64_ext m'' m') by (intros y Hy; apply Hm; lia). rewrite (sv_in _ _ _ _ _ _ Hs r o Hin). apply u64_small, Hx.
Qed.

Lemma step_load f r o b c pa n : window (cm c) (cs c satp) (xr c b) pa n -> 0 <= o -> o + 8 <= n ->
  step_instr f (Ld r o b) c = Some (setx r (load64 (cm c) (pa + o)) c).
Proof. intros Hw H0 H1. cbn [step_instr]. now rewrite (proj2 (Hw o H0 H1)). Qed.

Lemma kernelvec_run f (I : memory -> Prop) kt pa c :
  let c0 := setx sp (xr c sp - 256) c in
  (forall m, I m -> window m (cs c satp) (xr c0 sp) pa 256) ->
  (forall m o v, I m -> 0 <= o -> o + 8 <= 256 -> I (store64 m (pa + o) v)) -> I (cm c) -> (forall q, 0 <= xr c q < 2 ^ 64) -> 256 <= xr c sp ->
  (forall m, I m -> obeys f I pa (set_cm m c0)) ->
  exists m x, run f (kernelvec kt) c = step_instr f Sret (Cpu x (cs (f (set_cm m c0))) (cm (f (set_cm m c0))) (pc (f (set_cm m c0))) (user_mode (f (set_cm m c0)))) /\
    (forall r, r ∈ ra :: sp :: callee_saved ++ map fst kv_rest -> x r = xr c r) /\ x tpr = xr (f (set_cm m c0)) tpr.
Proof.
  intros c0 Hw Hst Hi Hx Hsp Hf. destruct kv_ok as (O1 & N1 & O2 & N2).
  assert (Hx0 : forall q, 0 <= xr c0 q < 2 ^ 64) by (intros q; now apply setx_ok).
  rewrite kernelvec_parts, (run_step f (Addi sp sp (-256)) _ c c0 eq_refl).
  destruct (run_saved f I sp pa 256 kv_saved c0 Hw Hst Hi Hx0 O1 N1) as (m & E1 & Hi1 & S1). rewrite (run_seq _ _ _ _ _ E1).
  specialize (Hf m Hi1). destruct Hf as [F1 F2 F3 F4 F5]. set (d := f (set_cm m c0)) in *.
  rewrite (run_step f (Call kt) _ _ d eq_refl). cbn [xr cs cm set_cm] in F2, F3, F4, F5.
  assert (Hk : forall r o, (r, o) ∈ kv_saved -> u64 (load64 (cm d) (pa + o)) = xr c0 r) by (intros r o Hin; now apply (saved_kept pa (xr c0) kv_saved (cm c0) m)).
  assert (Hwd : window (cm d) (cs d satp) (xr c0 sp) pa 256) by (rewrite F5; now apply Hw).
  rewrite (run_step _ _ _ _ _ (step_load f ra 0 sp d pa 256 ltac:(now rewrite F3) ltac:(lia) ltac:(lia))).
  set (d1 := setx ra _ d).
  rewrite (run_step _ _ _ _ _ (step_load f sp 8 sp d1 pa 256 ltac:(now change (xr d1 sp) with (xr d sp); rewrite F3) ltac:(lia) ltac:(lia))).
  set (d2 := setx sp _ d1). assert (E2 : xr d2 sp = xr c0 sp) by (apply Hk; kword).
  destruct (run_loaded f sp pa 256 kv_rest d2) as (x2 & E3 & L2); [now rewrite E2 | exact O2 | exact N2 |]. rewrite (run_seq _ _ _ _ _ E3).
  exists m, (fun q => if q =? sp then u64 (x2 sp + 256) else x2 q). erewrite run_step by reflexivity. split; [reflexivity |].
  assert (Ho : forall q, q ∉ map fst kv_rest -> x2 q = xr d2 q) by exact (ld_out _ _ _ _ _ L2).
  assert (Es : x2 sp = xr c sp - 256) by (rewrite Ho by kword; rewrite E2; apply u64_small; specialize (Hx sp); lia).
  split; [intros r Hr | exact (Ho tpr ltac:(kword))]. destruct (Z.eqb_spec r sp) as [-> | Hne]; [rewrite Es, Z.sub_add; apply u64_small, Hx |].
  rewrite !elem_of_cons, elem_of_app in Hr. destruct Hr as [-> | [-> | [Hr | Hr]]].
  - rewrite Ho by kword. exact (Hk ra 0 ltac:(kword)).
  - now destruct Hne.
  - pose proof (proj1 (Forall_forall _ _) callee_apart _ Hr) as (C1 & C2 & C3). rewrite Ho by exact C1. unfold d2, d1. cbn [setx xr].
    rewrite (proj2 (Z.eqb_neq r sp)), (proj2 (Z.eqb_neq r ra)) by assumption. rewrite F4 by exact Hr. unfold c0. cbn [setx xr].
    now rewrite (proj2 (Z.eqb_neq r sp)) by assumption.
  - apply list_elem_of_fmap in Hr as ([r' o] & -> & Hin). cbn [fst] in *. rewrite (ld_in _ _ _ _ _ L2 r' o Hin).
    change (cm d2) with (cm d). rewrite (Hk r' o) by exact (rest_saved _ Hin). unfold c0. cbn [setx xr]. now rewrite (proj2 (Z.eqb_neq r' sp)).
Qed.

(** ** Registers of interrupted programs

    The theorems about the assembly: a user program, a kernel thread that gives
    up the CPU and kernel code that is interrupted get their registers back. *)

Lemma all_saved r : 1 <= r <= 31 -> r <> a0 -> exists o, (r, o) ∈ user_saved.
Proof.
  intros Hr Hne. assert (Hall : Forall (fun r => r <> a0 -> r ∈ map fst user_saved) (seqZ 1 31)) by kword.
  assert (Hin : r ∈ map fst user_saved) by (apply (proj1 (Forall_forall _ _) Hall); [apply elem_of_seqZ; lia | exact Hne]).
  apply list_elem_of_fmap in Hin as ([r' o] & -> & Hin). now exists o.
Qed.

(** C36: The way of a system call through the assembly.  [uservec], entered
    from user space with the page table of a process, faults nowhere and arrives
    at the address, with the stack, the hart number and the page table that the
    kernel has left in the trap frame; it writes nothing but the trap frame.
    When the kernel has run, has left the saved registers alone except for a
    result in [a0], and goes to [userret], the program continues in user mode at
    [sepc] with its own page table and all of its registers as they were, and
    the result in [a0]. *)
Theorem user_registers_survive `{LayoutOk} `{!PoolAbove} f a c :
  owns a -> space (cm c) a -> (forall r, 0 <= xr c r < 2 ^ 64) -> cs c satp = MAKE_SATP (as_root a) ->
  exists c1, run f uservec c = Some c1 /\
    pc c1 = u64 (load64 (cm c) (as_tf a + 16)) /\ xr c1 sp = u64 (load64 (cm c) (as_tf a + 8)) /\
    xr c1 tpr = u64 (load64 (cm c) (as_tf a + 32)) /\ cs c1 satp = u64 (load64 (cm c) (as_tf a)) /\
    (forall x, x < as_tf a \/ as_tf a + PGSIZE <= x -> cm c1 x = cm c x) /\
    forall c2 v, space (cm c2) a -> xr c2 a0 = MAKE_SATP (as_root a) -> flag (cs c2 sstatus) SSTATUS_SPP = false ->
      (forall x, as_tf a + 40 <= x < as_tf a + 288 -> ~ (as_tf a + 112 <= x < as_tf a + 120) -> cm c2 x = cm c1 x) ->
      load64 (cm c2) (as_tf a + 112) = v -> 0 <= v < 2 ^ 64 ->
      exists c3, run f userret c2 = Some c3 /\ pc c3 = cs c2 sepc /\ user_mode c3 = true /\ cs c3 satp = MAKE_SATP (as_root a) /\
        cm c3 = cm c2 /\ xr c3 a0 = v /\ forall r, 1 <= r <= 31 -> r <> a0 -> xr c3 r = xr c r.
Proof.
  intros Ho Hsp Hx Hsat. destruct (uservec_run f a Ho c Hsp Hx Hsat) as (c1 & E & [_ Hfr] & _ & E1 & E2 & E3 & E4 & _ & Hm).
  exists c1. split_and!; auto. intros c2 v Hsp2 Ha0 Hspp Hkeep Hv Hv64.
  destruct (userret_run f a Ho c2 Hsp2 Ha0) as (c3 & E5 & M3 & S3 & P3 & U3 & _ & A3 & R3).
  exists c3. split_and!; auto; [now rewrite U3, Hspp | rewrite A3, Hv; now apply u64_small |].
  intros r Hr Hne. destruct (all_saved r Hr Hne) as [o Hin]. rewrite (R3 r o Hin).
  pose proof (proj1 (Forall_forall _ _) saved_high _ Hin) as Hh. cbn in Hh.
  destruct (offsets_range 288 user_saved eq_refl) as [Hrg _]. pose proof (proj1 (Forall_forall _ _) Hrg _ Hin) as Hr2. cbn in Hr2.
  rewrite (load64_ext (cm c2) (cm c1)) by (intros x Hx'; apply Hkeep; lia). rewrite (Hfr r o Hin). apply u64_small, Hx.
Qed.

(** C37: [swtch] saves the stack pointer, the return address and the
    callee-saved registers of the thread that gives up the CPU in its context,
    takes those of the other thread and continues at its return address.  When a
    later [swtch] goes back to the first context, with its words as they were
    left, the first thread continues after its call with the registers it had. *)
Theorem swtch_resumes f (I : memory -> Prop) pa pb c :
  (forall m, I m -> window m (cs c satp) (xr c a0) pa 112 /\ window m (cs c satp) (xr c a1) pb 112) ->
  (forall m o v, I m -> 0 <= o -> o + 8 <= 112 -> I (store64 m (pa + o) v) /\ I (store64 m (pb + o) v)) ->
  I (cm c) -> (forall q, 0 <= xr c q < 2 ^ 64) -> pa + 112 <= pb \/ pb + 112 <= pa ->
  exists c1, run f swtch_code c = Some c1 /\ pc c1 = xr c1 ra /\
    (forall r o, (r, o) ∈ ctx_saved -> xr c1 r = u64 (load64 (cm c) (pb + o))) /\
    (forall x, x < pa \/ pa + 112 <= x -> cm c1 x = cm c x) /\
    forall c2, I (cm c2) -> cs c2 satp = cs c satp -> xr c2 a0 = xr c a1 -> xr c2 a1 = xr c a0 -> (forall q, 0 <= xr c2 q < 2 ^ 64) ->
      (forall x, pa <= x < pa + 112 -> cm c2 x = cm c1 x) ->
      exists c3, run f swtch_code c2 = Some c3 /\ pc c3 = xr c ra /\ forall r, r ∈ map fst ctx_saved -> xr c3 r = xr c r.
Proof.
  intros Hw Hst Hi Hx Hd. destruct ctx_ok as (Ho & _ & _). destruct (offsets_range _ _ Ho) as [Hrg _].
  destruct (swtch_run f I pa pb c) as (m1 & x1 & E1 & Hi1 & S1 & L1); [apply Hw | apply Hw | apply Hst | exact Hi | exact Hx |].
  assert (Hoff : forall r o, (r, o) ∈ ctx_saved -> 0 <= o /\ o + 8 <= 112) by (intros r o Hin; exact (proj1 (Forall_forall _ _) Hrg _ Hin)).
  eexists. split; [exact E1 |]. cbn [pc xr cm]. split_and!; [reflexivity | | exact (sv_far _ _ _ _ _ _ S1) |].
  - intros r o Hin. rewrite (ld_in _ _ _ _ _ L1 r o Hin). f_equal. apply load64_ext. intros x Hx'. apply (sv_far _ _ _ _ _ _ S1). specialize (Hoff r o Hin). lia.
  - intros c2 Hi2 Hsat H0 H1 Hx2 Hkeep.
    destruct (swtch_run f I pb pa c2) as (m3 & x3 & E3 & _ & S3 & L3);
      [intros m Hm; rewrite Hsat, H0; now apply Hw | intros m Hm; rewrite Hsat, H1; now apply Hw | apply Hst | exact Hi2 | exact Hx2 |].
    assert (Hback : forall r o, (r, o) ∈ ctx_saved -> x3 r = xr c r).
    { intros r o Hin. specialize (Hoff r o Hin). rewrite (ld_in _ _ _ _ _ L3 r o Hin), (load64_ext m3 m1), (sv_in _ _ _ _ _ _ S1 r o Hin); [apply u64_small, Hx |].
      intros x Hx'. rewrite (sv_far _ _ _ _ _ _ S3) by lia. apply Hkeep. lia. }
    eexists. split; [exact E3 |]. cbn [pc xr]. split; [apply (Hback ra 0); kword |]. intros r Hr. apply list_elem_of_fmap in Hr as ([r' o] & -> & Hin). now apply (Hback r' o).
Qed.

(** C38: Kernel code that is interrupted does not notice.  When [kerneltrap],
    called on the stack of the code that was interrupted, keeps to the calling
    convention, every register but [tp] has its old value when [kernelvec]
    returns, also those that [kerneltrap] may use freely; [tp] names the hart on
    which the thread then runs. *)
Theorem kernelvec_transparent f (I : memory -> Prop) kt pa c :
  let c0 := setx sp (xr c sp - 256) c in
  (forall m, I m -> window m (cs c satp) (xr c0 sp) pa 256) ->
  (forall m o v, I m -> 0 <= o -> o + 8 <= 256 -> I (store64 m (pa + o) v)) -> I (cm c) -> (forall q, 0 <= xr c q < 2 ^ 64) -> 256 <= xr c sp ->
  (forall m, I m -> obeys f I pa (set_cm m c0)) ->
  exists m c', let d := f (set_cm m c0) in run f (kernelvec kt) c = Some c' /\ pc c' = cs d sepc /\ user_mode c' = negb (flag (cs d sstatus) SSTATUS_SPP) /\
    cm c' = cm d /\ xr c' tpr = xr d tpr /\ forall r, 1 <= r <= 31 -> r <> tpr -> xr c' r = xr c r.
Proof.
  intros c0 Hw Hst Hi Hx Hsp Hf. destruct (kernelvec_run f I kt pa c Hw Hst Hi Hx Hsp Hf) as (m & x & E & Hr & Ht).
  exists m. eexists. split; [exact E |]. cbn [pc user_mode cm xr set_cs]. split_and!; auto. intros r Hrr Hne. apply Hr.
  assert (Hall : Forall (fun r => r <> tpr -> r ∈ ra :: sp :: callee_saved ++ map fst kv_rest) (seqZ 1 31)) by kword.
  apply (proj1 (Forall_forall _ _) Hall); [apply elem_of_seqZ; lia | exact Hne].
Qed.

(** ** Examples *)

(** The first process of the small system, trapping with register [r] holding
    [r]. *)
Definition demo_cpu (root : Z) : cpu := Cpu (fun r => if (1 <=? r) && (r <=? 31) then r else 0) (fun d => if decide (d = satp) then MAKE_SATP root else 0) (mem (ph pd1)) 0 true.

Lemma demo_cpu_regs root r : 0 <= xr (demo_cpu root) r < 2 ^ 64.
Proof. cbn [xr demo_cpu]. destruct (Z.leb_spec 1 r), (Z.leb_spec r 31); cbn [andb]; lia. Qed.

Lemma user_registers_survive_witness : exists a, owns a /\ space (mem (ph pd1)) a /\ exists c1, run id uservec (demo_cpu (as_root a)) = Some c1 /\
  pc c1 = u64 (load64 (mem (ph pd1)) (as_tf a + 16)) /\
  forall c2 v, space (cm c2) a -> xr c2 a0 = MAKE_SATP (as_root a) -> flag (cs c2 sstatus) SSTATUS_SPP = false ->
    (forall x, as_tf a + 40 <= x < as_tf a + 288 -> ~ (as_tf a + 112 <= x < as_tf a + 120) -> cm c2 x = cm c1 x) ->
    load64 (cm c2) (as_tf a + 112) = v -> 0 <= v < 2 ^ 64 ->
    exists c3, run id userret c2 = Some c3 /\ xr c3 a0 = v /\ xr c3 s1 = 9.
Proof.
  destruct (inv_space pd1 _ 1 pd_inv1 (proj1 pd_running) (proj2 (proj2 pd_running))) as (l & A & a & Hs & Ha).
  destruct (pm_space _ _ _ (so_mem _ _ _ Hs) 1 a Ha) as (Hsp & Ho & _). exists a. split; [exact Ho |]. split; [exact Hsp |].
  destruct (user_registers_survive id a (demo_cpu (as_root a)) Ho Hsp (demo_cpu_regs _) eq_refl) as (c1 & E & P1 & _ & _ & _ & _ & Hback).
  exists c1. split; [exact E |]. split; [exact P1 |]. intros c2 v H1 H2 H3 H4 H5 H6.
  destruct (Hback c2 v H1 H2 H3 H4 H5 H6) as (c3 & E3 & _ & _ & _ & _ & A3 & R3). exists c3. split; [exact E3 |]. split; [exact A3 |].
  apply (R3 s1); unfold s1, a0; lia.
Defined.

(** A page table whose third entry maps the gigabyte of the kernel to itself. *)
Definition giga_root : Z := 0x80001000.
Definition giga_pte : Z := mkpte KERNBASE (Z.lor PTE_R PTE_W).
Definition giga (m : memory) : Prop := load64 m (giga_root + 16) = giga_pte.
Definition giga_mem : memory := store64 (fun _ => 0) (giga_root + 16) giga_pte.

Lemma giga_window m va n : giga m -> 0x80002000 <= va -> va + n <= 0x80003000 -> window m (MAKE_SATP giga_root) va va n.
Proof.
  intros Hg Hva Hn o Ho1 Ho2. assert (Hr : satp_root (MAKE_SATP giga_root) = giga_root) by reflexivity. unfold mmu. rewrite Hr.
  rewrite u64_small by lia.
  assert (Hp : PX 2 (va + o) = 2) by (rewrite PX_eq by lia; change (2 ^ PXSHIFT 2) with 1073741824; Z.div_mod_to_equations; lia).
  assert (El : pt_lookup 2 m giga_root (va + o) = Some (giga_pte, 2%nat)).
  { cbn [pt_lookup]. change (Z.of_nat 2) with 2. rewrite Hp. unfold pte_at, Vm.entry. change (giga_root + 8 * 2) with (giga_root + 16). rewrite Hg. reflexivity. }
  unfold giga_pte in El. rewrite (translate_mkpte m giga_root (va + o) KERNBASE (Z.lor PTE_R PTE_W) 2%nat);
    [| split; [split; vm_compute; congruence | reflexivity] | exact rw_perm | reflexivity | exact El].
  replace (KERNBASE + (va + o) mod 2 ^ PXSHIFT (Z.of_nat 2)) with (va + o) by (change (2 ^ PXSHIFT (Z.of_nat 2)) with 1073741824; unfold KERNBASE; Z.div_mod_to_equations; lia).
  split; reflexivity.
Qed.

Lemma giga_store m a v : giga m -> 0x80002000 <= a -> giga (store64 m a v).
Proof. intros Hg Ha. unfold giga. rewrite load64_store64_ne; [exact Hg |]. unfold giga_root. lia. Qed.

Lemma giga_start : giga giga_mem.
Proof. unfold giga, giga_mem. apply load64_store64_eq. split; vm_compute; congruence. Qed.

(** A kernel thread with its registers, about to switch between the contexts at
    [0x80002000] and [0x80002100]. *)
Definition giga_cpu : cpu :=
  Cpu (fun r => if r =? a0 then 0x80002000 else if r =? a1 then 0x80002100 else if r =? sp then 0x80002f00 else if (1 <=? r) && (r <=? 31) then r else 0)
      (fun d => if decide (d = satp) then MAKE_SATP giga_root else 0) giga_mem 0 false.

Lemma giga_regs r : 0 <= xr giga_cpu r < 2 ^ 64.
Proof. cbn [xr giga_cpu]. destruct (r =? a0); [lia |]. destruct (r =? a1); [lia |]. destruct (r =? sp); [lia |]. destruct (Z.leb_spec 1 r), (Z.leb_spec r 31); cbn [andb]; lia. Qed.

Lemma swtch_resumes_witness : exists c1, run id swtch_code giga_cpu = Some c1 /\
  forall c2, giga (cm c2) -> cs c2 satp = MAKE_SATP giga_root -> xr c2 a0 = 0x80002100 -> xr c2 a1 = 0x80002000 -> (forall q, 0 <= xr c2 q < 2 ^ 64) ->
    (forall x, 0x80002000 <= x < 0x80002000 + 112 -> cm c2 x = cm c1 x) ->
    exists c3, run id swtch_code c2 = Some c3 /\ pc c3 = 1 /\ forall r, r ∈ map fst ctx_saved -> xr c3 r = xr giga_cpu r.
Proof.
  destruct (swtch_resumes id giga 0x80002000 0x80002100 giga_cpu) as (c1 & E & _ & _ & _ & Hback).
  - intros m Hm. split; (apply giga_window; [exact Hm | cbn; lia | cbn; lia]).
  - intros m o v Hm Ho1 Ho2. split; (apply giga_store; [exact Hm | lia]).
  - exact giga_start.
  - exact giga_regs.
  - lia.
  - exists c1. split; [exact E |]. exact Hback.
Defined.

(** [kerneltrap] as a function that only changes temporary registers. *)
Definition demo_kt (c : cpu) : cpu := setx t0 77 (setx a0 0 c).

Lemma kernelvec_transparent_witness : exists m c', run demo_kt (kernelvec 0) giga_cpu = Some c' /\ cm c' = cm (demo_kt (set_cm m giga_cpu)) /\ xr c' t0 = 5 /\ xr c' a0 = 0x80002000.
Proof.
  destruct (kernelvec_transparent demo_kt giga 0 0x80002e00 giga_cpu) as (m & c' & E & _ & _ & Hm & _ & Hr).
  - intros m Hm. apply giga_window; [exact Hm | vm_compute; congruence | vm_compute; congruence].
  - intros m o v Hm Ho1 Ho2. apply giga_store; [exact Hm | lia].
  - exact giga_start.
  - exact giga_regs.
  - vm_compute. congruence.
  - intros m Hm. split; try reflexivity; [exact Hm |]. intros r Hr.
    assert (Hne : Forall (fun r => r <> t0 /\ r <> a0) callee_saved) by kword. destruct (proj1 (Forall_forall _ _) Hne _ Hr) as [N1 N2].
    unfold demo_kt. cbn [setx xr]. rewrite (proj2 (Z.eqb_neq r t0)), (proj2 (Z.eqb_neq r a0)) by assumption. reflexivity.
  - exists m, c'. split; [exact E |]. split; [exact Hm |]. split; [apply (Hr t0) | apply (Hr a0)]; unfold t0, a0, tpr; lia.
Defined.
