(* ===== verification/User.v ===== *)
(** * User programs: system calls and the library (user/ulib.c)

    A program is a function of the world behind the system calls, whose result
    is a value, an exit, a new program ([exec]), an exhausted fuel bound or
    undefined behaviour.  What the calls do is a parameter ([Sys]).  Strings are
    lists of bytes without their NUL; buffers are arrays (lists of their size)
    with indices. *)

From S2P Require Import Prelude Printf.

Inductive ures (W A : Type) :=
| UOk (a : A) (w : W)
| UExit (status : Z) (w : W)
| UExec (path : list Z) (argv : list (list Z)) (w : W)
| UFuel
| UUndef.
Arguments UOk {W A}.
Arguments UExit {W A}.
Arguments UExec {W A}.
Arguments UFuel {W A}.
Arguments UUndef {W A}.

Definition UM (W A : Type) : Type := W -> ures W A.

Definition uret {W A} (a : A) : UM W A := fun w => UOk a w.
Definition ubind {W A B} (m : UM W A) (f : A -> UM W B) : UM W B :=
  fun w => match m w with UOk a w' => f a w' | UExit n w' => UExit n w' | UExec p v w' => UExec p v w' | UFuel => UFuel | UUndef => UUndef end.
Definition uexit {W A} (n : Z) : UM W A := fun w => UExit n w.
Definition ufuel {W A} : UM W A := fun _ => UFuel.
Definition uundef {W A} : UM W A := fun _ => UUndef.

Declare Scope user_scope.
Delimit Scope user_scope with U.
Notation "x <- c ;; k" := (ubind c (fun x => k)) (at level 100, c at next level, right associativity) : user_scope.
Notation "c1 ;; c2" := (ubind c1 (fun _ => c2)) (at level 100, right associativity) : user_scope.

(** [sys_read fd n]: the result and the bytes stored in the buffer. *)
Class Sys (W : Type) := {
  sys_read : Z -> Z -> W -> Z * list Z * W;
  sys_write : Z -> list Z -> W -> Z * W;
  sys_open : list Z -> Z -> W -> Z * W;
  sys_close : Z -> W -> Z * W;
  sys_sbrk : Z -> W -> Z * W }.

Section calls.
Context {W : Type} `{Sys W}.
Definition read (fd n : Z) : UM W (Z * list Z) := fun w => let '(r, b, w') := sys_read fd n w in UOk (r, b) w'.
Definition write (fd : Z) (b : list Z) : UM W Z := fun w => let '(r, w') := sys_write fd b w in UOk r w'.
Definition open (path : list Z) (mode : Z) : UM W Z := fun w => let '(r, w') := sys_open path mode w in UOk r w'.
Definition close (fd : Z) : UM W Z := fun w => let '(r, w') := sys_close fd w in UOk r w'.
Definition sbrk (n : Z) : UM W Z := fun w => let '(r, w') := sys_sbrk n w in UOk r w'.
End calls.

(** A descriptor [fd] that reads a stream of bytes to its end, and the standard
    output that takes everything: what POSIX says of read and write. *)
Record streams {W} `{Sys W} (fd : Z) (rest out : W -> list Z) : Prop := {
  st_end : forall n w, 0 < n -> rest w = [] ->
    exists w', sys_read fd n w = (0, [], w') /\ rest w' = [] /\ out w' = out w;
  st_read : forall n w, 0 < n -> rest w <> [] ->
    exists b w', sys_read fd n w = (Z.of_nat (length b), b, w') /\ b <> [] /\ Z.of_nat (length b) <= n /\ rest w = b ++ rest w' /\ out w' = out w;
  st_write : forall b w, exists w', sys_write 1 b w = (Z.of_nat (length b), w') /\ rest w' = rest w /\ out w' = out w ++ b }.

(** ** ulib.c *)

(** The string at index [p] of an array: the bytes before the first NUL. *)
Fixpoint cstr (l : list Z) : list Z :=
  match l with
  | [] => []
  | c :: l' => if c =? 0 then [] else c :: cstr l'
  end.
Definition cstr_at (a : list Z) (p : Z) : list Z := cstr (drop (Z.to_nat p) a).

Fixpoint strcmp (p q : list Z) : Z :=
  match p, q with
  | x :: p', y :: q' => if x =? y then strcmp p' q' else x - y
  | x :: _, [] => x
  | [], y :: _ => - y
  | [], [] => 0
  end.

Definition strlen (s : list Z) : Z := Z.of_nat (length s).

(** [strchr]: the index of the first [c]. *)
Fixpoint strchr (s : list Z) (c : Z) : option Z :=
  match s with
  | [] => None
  | x :: s' => if x =? c then Some 0 else option_map Z.succ (strchr s' c)
  end.

(** [atoi]; [None] when the [int] overflows. *)
Fixpoint atoi_loop (s : list Z) (n : Z) : option Z :=
  match s with
  | [] => Some n
  | c :: s' =>
      if (48 <=? c) && (c <=? 57) then
        let n := n * 10 + c - 48 in
        if n <? 2 ^ 31 then atoi_loop s' n else None
      else Some n
  end.
Definition atoi (s : list Z) : option Z := atoi_loop s 0.

(** [strcpy] into the array at [p]. *)
Fixpoint strcpy_at (a : list Z) (p : Z) (t : list Z) : list Z :=
  match t with
  | [] => updZ a p 0
  | c :: t' => strcpy_at (updZ a p c) (p + 1) t'
  end.

(** [memset] on an array. *)
Fixpoint memset_at (k : nat) (a : list Z) (p c : Z) : list Z :=
  match k with
  | O => a
  | S k' => memset_at k' (updZ a p (u8 c)) (p + 1) c
  end.

(** [memmove] within an array, with its two loops. *)
Fixpoint move_up (k : nat) (a : list Z) (dst src : Z) : list Z :=
  match k with
  | O => a
  | S k' => move_up k' (updZ a dst (nthZ 0 a src)) (dst + 1) (src + 1)
  end.
Fixpoint move_down (k : nat) (a : list Z) (dst src : Z) : list Z :=
  match k with
  | O => a
  | S k' => move_down k' (updZ a (dst - 1) (nthZ 0 a (src - 1))) (dst - 1) (src - 1)
  end.
Definition memmove_at (a : list Z) (dst src n : Z) : list Z :=
  if dst <? src then move_up (Z.to_nat n) a dst src
  else move_down (Z.to_nat n) a (dst + n) (src + n).

Fixpoint memcmp (k : nat) (p q : list Z) : Z :=
  match k, p, q with
  | S k', x :: p', y :: q' => if x =? y then memcmp k' p' q' else x - y
  | _, _, _ => 0
  end.

(** [gets]: the bytes stored in [buf] before the NUL. *)
Fixpoint gets_loop {W} `{Sys W} (k : nat) (acc : list Z) : UM W (list Z) :=
  match k with
  | O => uret acc
  | S k' =>
      (x <- read 0 1;;
       match x with
       | (cc, c :: _) =>
           if cc <? 1 then uret acc
           else if (c =? 10) || (c =? 13) then uret (acc ++ [c])
           else gets_loop k' (acc ++ [c])
       | (cc, []) => if cc <? 1 then uret acc else uundef
       end)%U
  end.
Definition gets {W} `{Sys W} (max : Z) : UM W (list Z) := gets_loop (Z.to_nat (max - 1)) [].

(** ** Lemmas *)

Lemma upto_app l r : 0 ∉ l -> cstr (l ++ 0 :: r) = l.
Proof.
  induction l as [|c l IH]; intros Hn; [reflexivity |]. rewrite not_elem_of_cons in Hn. cbn [app cstr].
  rewrite (proj2 (Z.eqb_neq c 0)) by (intros ->; tauto). f_equal. tauto.
Qed.

Lemma strchr_none s c : c ∉ s -> strchr s c = None.
Proof.
  induction s as [|x s IH]; intros Hn; [reflexivity |]. rewrite not_elem_of_cons in Hn. cbn [strchr].
  rewrite (proj2 (Z.eqb_neq x c)) by (intros ->; tauto). rewrite IH by tauto. reflexivity.
Qed.

Lemma strchr_app s c r : c ∉ s -> strchr (s ++ c :: r) c = Some (Z.of_nat (length s)).
Proof.
  induction s as [|x s IH]; intros Hn; cbn [strchr app]; [now rewrite Z.eqb_refl |]. rewrite not_elem_of_cons in Hn.
  rewrite (proj2 (Z.eqb_neq x c)) by (intros ->; tauto). rewrite IH by tauto. cbn. f_equal. lia.
Qed.

Lemma nthZ_app_r {A} (x : A) l r i : nthZ x (l ++ r) (Z.of_nat (length l) + i) = nthZ x r i \/ i < 0.
Proof. destruct (decide (i < 0)); [now right | left]. unfold nthZ. rewrite app_nth2 by lia. f_equal. lia. Qed.

Lemma updZ_app {A} (l : list A) x r v : updZ (l ++ x :: r) (Z.of_nat (length l)) v = l ++ v :: r.
Proof. unfold updZ. rewrite Nat2Z.id. rewrite insert_app_r_alt by lia. now rewrite Nat.sub_diag. Qed.

Lemma move_up_at k : forall a dst src i, 0 <= dst < src -> src + Z.of_nat k <= Z.of_nat (length a) -> 0 <= i ->
  nthZ 0 (move_up k a dst src) i = (if (dst <=? i) && (i <? dst + Z.of_nat k) then nthZ 0 a (src + (i - dst)) else nthZ 0 a i) /\
  length (move_up k a dst src) = length a.
Proof.
  induction k as [|k IH]; intros a dst src i Hd Hl Hi; cbn [move_up]; [split; [zb | reflexivity] |].
  destruct (IH (updZ a dst (nthZ 0 a src)) (dst + 1) (src + 1) i) as [E Elen]; [lia | rewrite length_updZ; lia | lia |].
  rewrite E, Elen, length_updZ. split; [| reflexivity]. destruct (Z.eqb_spec i dst) as [-> | Hne].
  - rewrite (proj2 (Z.leb_gt (dst + 1) dst)), (proj2 (Z.leb_le dst dst)), (proj2 (Z.ltb_lt dst (dst + Z.of_nat (S k)))) by lia. cbn [andb].
    rewrite nthZ_updZ_eq by lia. now replace (src + (dst - dst)) with src by lia.
  - destruct ((dst + 1 <=? i) && (i <? dst + 1 + Z.of_nat k)) eqn:Eb.
    + apply andb_prop in Eb as [E1 E2]. apply Z.leb_le in E1. apply Z.ltb_lt in E2.
      rewrite (proj2 (Z.leb_le dst i)), (proj2 (Z.ltb_lt i _)) by lia. cbn [andb]. rewrite nthZ_updZ_ne by lia. now replace (src + 1 + (i - (dst + 1))) with (src + (i - dst)) by lia.
    + rewrite nthZ_updZ_ne by lia. replace ((dst <=? i) && (i <? dst + Z.of_nat (S k))) with false; [reflexivity |]. symmetry.
      apply andb_false_iff in Eb as [Eb | Eb]; [apply Z.leb_gt in Eb | apply Z.ltb_ge in Eb]; apply andb_false_iff; [left; apply Z.leb_gt | right; apply Z.ltb_ge]; lia.
Qed.

Lemma move_down_at k : forall a dst src i, 0 <= src - Z.of_nat k -> src <= dst <= Z.of_nat (length a) -> 0 <= i ->
  nthZ 0 (move_down k a dst src) i = (if (dst - Z.of_nat k <=? i) && (i <? dst) then nthZ 0 a (src + (i - dst)) else nthZ 0 a i) /\
  length (move_down k a dst src) = length a.
Proof.
  induction k as [|k IH]; intros a dst src i Hs Hd Hi; cbn [move_down]; [split; [zb | reflexivity] |].
  destruct (IH (updZ a (dst - 1) (nthZ 0 a (src - 1))) (dst - 1) (src - 1) i) as [E Elen]; [lia | rewrite length_updZ; lia | lia |].
  rewrite E, Elen, length_updZ. split; [| reflexivity]. destruct (Z.eqb_spec i (dst - 1)) as [-> | Hne].
  - rewrite (proj2 (Z.ltb_ge (dst - 1) (dst - 1))), andb_false_r by lia. rewrite (proj2 (Z.leb_le _ (dst - 1))), (proj2 (Z.ltb_lt (dst - 1) dst)) by lia.
    cbn [andb]. rewrite nthZ_updZ_eq by lia. now replace (src + (dst - 1 - dst)) with (src - 1) by lia.
  - destruct ((dst - 1 - Z.of_nat k <=? i) && (i <? dst - 1)) eqn:Eb.
    + apply andb_prop in Eb as [E1 E2]. apply Z.leb_le in E1. apply Z.ltb_lt in E2.
      rewrite (proj2 (Z.leb_le _ i)), (proj2 (Z.ltb_lt i _)) by lia. cbn [andb]. rewrite nthZ_updZ_ne by lia. now replace (src - 1 + (i - (dst - 1))) with (src + (i - dst)) by lia.
    + rewrite nthZ_updZ_ne by lia. replace ((dst - Z.of_nat (S k) <=? i) && (i <? dst)) with false; [reflexivity |]. symmetry.
      apply andb_false_iff in Eb as [Eb | Eb]; [apply Z.leb_gt in Eb | apply Z.ltb_ge in Eb]; apply andb_false_iff; [left; apply Z.leb_gt | right; apply Z.ltb_ge]; lia.
Qed.

(** The bytes before the move are at the destination after it, and the others
    stay, whether the ranges overlap or not. *)
Lemma memmove_at_spec a dst src n i : 0 <= dst -> 0 <= src -> 0 <= n -> dst + n <= Z.of_nat (length a) -> src + n <= Z.of_nat (length a) -> 0 <= i ->
  nthZ 0 (memmove_at a dst src n) i = (if (dst <=? i) && (i <? dst + n) then nthZ 0 a (src + (i - dst)) else nthZ 0 a i) /\
  length (memmove_at a dst src n) = length a.
Proof.
  intros Hd Hs Hn Hld Hls Hi. unfold memmove_at. destruct (Z.ltb_spec dst src) as [Hlt | Hge].
  - destruct (move_up_at (Z.to_nat n) a dst src i) as [E El]; [lia | lia | lia |]. rewrite E, El. now rewrite Z2Nat.id by lia.
  - destruct (move_down_at (Z.to_nat n) a (dst + n) (src + n) i) as [E El]; [lia | lia | lia |]. rewrite E, El, Z2Nat.id by lia.
    replace (dst + n - n) with dst by lia. now replace (src + n + (i - (dst + n))) with (src + (i - dst)) by lia.
Qed.

(** ** printf for user programs (user/printf.c)

    Each character is a [write] of one byte.  [printint] takes an [int], so the
    64-bit arguments of %ld, %lu and %lx are cut to 32 bits. *)

Section uprintf.
Context {W : Type} `{Sys W}.

Definition putc (fd c : Z) : UM W unit := (write fd [u8 c];; uret tt)%U.

Fixpoint putcs_to (fd : Z) (l : list Z) : UM W unit :=
  match l with
  | [] => uret tt
  | c :: l' => (putc fd c;; putcs_to fd l')%U
  end.

(** The characters of [printint(xx, base, sgn)]; [None] when [buf] overflows. *)
Definition uprintint (xx base : Z) (sgn : bool) : option (list Z) :=
  let xx := i32 xx in
  let neg := sgn && (xx <? 0) in
  let x := if neg then u32 (- xx) else u32 xx in
  match digit_loop DIGIT_FUEL 65 x base [] with
  | None => None
  | Some buf =>
      match (if neg then buf_put buf 45 else Some buf) with
      | None => None
      | Some buf' => Some (rev buf')
      end
  end.

Definition uprintptr (x : Z) : list Z := 48 :: 120 :: printptr_loop 16 65 x.

(** One conversion: the characters, the arguments that are left, and by how
    much [i] moves past [c0]. *)
Definition uconversion (c0 c1 c2 : Z) (ap : list va) : option (list Z * list va * Z) :=
  let num (get : list va -> option (Z * list va)) (base : Z) (sgn : bool) (skip : Z) :=
    and_then (get ap) (fun '(v, ap') =>
    and_then (uprintint v base sgn) (fun out => Some (out, ap', skip))) in
  if c0 =? 100 then num va_int 10 true 0
  else if (c0 =? 108) && (c1 =? 100) then num va_u64 10 true 1
  else if (c0 =? 108) && (c1 =? 108) && (c2 =? 100) then num va_u64 10 true 2
  else if c0 =? 117 then num va_int 10 false 0
  else if (c0 =? 108) && (c1 =? 117) then num va_u64 10 false 1
  else if (c0 =? 108) && (c1 =? 108) && (c2 =? 117) then num va_u64 10 false 2
  else if c0 =? 120 then num va_int 16 false 0
  else if (c0 =? 108) && (c1 =? 120) then num va_u64 16 false 1
  else if (c0 =? 108) && (c1 =? 108) && (c2 =? 120) then num va_u64 16 false 2
  else if c0 =? 112 then and_then (va_u64 ap) (fun '(v, ap') => Some (uprintptr v, ap', 0))
  else if c0 =? 115 then
    match ap with
    | VStr None :: ap' => Some (null_str, ap', 0)
    | VStr (Some s) :: ap' => Some (s, ap', 0)
    | _ => None
    end
  else if c0 =? 37 then Some ([37], ap, 0)
  else Some ([37; c0], ap, 0).

(** The loop of [vprintf] from index [i]; [pct] is [state == '%']. *)
Fixpoint vprintf_loop (fuel : nat) (fd : Z) (fmt : list Z) (i : Z) (pct : bool) (ap : list va) : UM W unit :=
  match fuel with
  | O => ufuel
  | S fuel' =>
      let c0 := chr fmt i in
      if c0 =? 0 then uret tt
      else if negb pct then
        if c0 =? 37 then vprintf_loop fuel' fd fmt (i + 1) true ap
        else (putc fd c0;; vprintf_loop fuel' fd fmt (i + 1) false ap)%U
      else
        let c1 := chr fmt (i + 1) in
        let c2 := if c1 =? 0 then 0 else chr fmt (i + 2) in
        match uconversion c0 c1 c2 ap with
        | None => uundef
        | Some (out, ap', skip) => (putcs_to fd out;; vprintf_loop fuel' fd fmt (i + skip + 1) false ap')%U
        end
  end.

Definition vprintf (fd : Z) (fmt : list Z) (ap : list va) : UM W unit := vprintf_loop (S (length fmt)) fd fmt 0 false ap.
Definition fprintf (fd : Z) (fmt : string) (ap : list va) : UM W unit := vprintf fd (bytes_of fmt) ap.
Definition uprintf (fmt : string) (ap : list va) : UM W unit := vprintf 1 (bytes_of fmt) ap.

End uprintf.
