(* ===== verification/Grep.v ===== *)
(** * grep, wc and cat (user/grep.c, user/wc.c, user/cat.c)

    The pattern matcher with its mutual recursion, and the loops that read a
    file through a buffer.  Patterns and lines are strings without a NUL. *)

From S2P Require Import Prelude Printf User.

(** ** The matcher *)

(** [matchstar]: [here] is [matchhere] of the rest of the pattern. *)
Fixpoint matchstar (c : Z) (here : list Z -> bool) (text : list Z) : bool :=
  if here text then true
  else match text with
       | [] => false
       | x :: text' => if (x =? c) || (c =? 46) then matchstar c here text' else false
       end.

Fixpoint matchhere (re : list Z) (text : list Z) {struct re} : bool :=
  match re with
  | [] => true
  | c :: re1 =>
      let next :=
        match text with
        | x :: text' => if (c =? 46) || (c =? x) then matchhere re1 text' else false
        | [] => false
        end in
      match re1 with
      | s :: re2 => if s =? 42 then matchstar c (matchhere re2) text else next
      | [] => if c =? 36 then match text with [] => true | _ => false end else next
      end
  end.

Fixpoint match_loop (re text : list Z) : bool :=
  if matchhere re text then true
  else match text with [] => false | _ :: text' => match_loop re text' end.

Definition match_ (re text : list Z) : bool :=
  match re with
  | c :: re' => if c =? 94 then matchhere re' text else match_loop re text
  | [] => match_loop re text
  end.

(** ** The language of a pattern *)

(** One character or any number of it; [None] is the dot. *)
Inductive item := One (a : option Z) | Many (a : option Z).

Definition atom (c : Z) : option Z := if c =? 46 then None else Some c.
Definition accepts (a : option Z) (x : Z) : Prop := match a with None => True | Some c => x = c end.

(** The items of a pattern, and whether it ends in a dollar sign. *)
Fixpoint parse_re (re : list Z) : list item * bool :=
  match re with
  | [] => ([], false)
  | c :: re1 =>
      let one := let '(l, e) := parse_re re1 in (One (atom c) :: l, e) in
      match re1 with
      | s :: re2 => if s =? 42 then let '(l, e) := parse_re re2 in (Many (atom c) :: l, e) else one
      | [] => if c =? 36 then ([], true) else one
      end
  end.

Inductive lang : list item -> list Z -> Prop :=
| lang_nil : lang [] []
| lang_one a l x w : accepts a x -> lang l w -> lang (One a :: l) (x :: w)
| lang_many a l v w : Forall (accepts a) v -> lang l w -> lang (Many a :: l) (v ++ w).

(** A prefix of the text is in the language, the whole text if the pattern ends
    in a dollar sign. *)
Definition prefix_match (p : list item * bool) (text : list Z) : Prop :=
  exists w u, text = w ++ u /\ lang (fst p) w /\ (snd p = true -> u = []).

Lemma accepts_atom c x : accepts (atom c) x <-> (c =? 46) || (c =? x) = true.
Proof.
  unfold atom. destruct (Z.eqb_spec c 46); cbn; [tauto |]. rewrite Z.eqb_eq. split; congruence.
Qed.

Lemma prefix_one a l e text : prefix_match (One a :: l, e) text <-> exists x t, text = x :: t /\ accepts a x /\ prefix_match (l, e) t.
Proof.
  split.
  - intros (w & u & E & Hl & He). inversion Hl as [| a' l' x w' Ha Hw |]; subst. exists x, (w' ++ u). split_and!; auto. now exists w', u.
  - intros (x & t & -> & Ha & w & u & -> & Hl & He). exists (x :: w), u. split_and!; auto. now constructor.
Qed.

Lemma prefix_many a l e text : prefix_match (Many a :: l, e) text <-> exists v t, text = v ++ t /\ Forall (accepts a) v /\ prefix_match (l, e) t.
Proof.
  split.
  - intros (w & u & E & Hl & He). inversion Hl as [| | a' l' v w' Ha Hw]; subst. exists v, (w' ++ u). rewrite app_assoc. split_and!; auto. now exists w', u.
  - intros (v & t & -> & Ha & w & u & -> & Hl & He). exists (v ++ w), u. rewrite app_assoc. split_and!; auto. now constructor.
Qed.

(** ** The matcher decides the language *)

Lemma matchstar_correct c here text : matchstar c here text = true <->
  exists v t, text = v ++ t /\ Forall (accepts (atom c)) v /\ here t = true.
Proof.
  induction text as [|x text IH]; cbn [matchstar].
  - destruct (here []) eqn:E.
    + split; [intros _; exists [], []; auto | auto].
    + split; [discriminate |]. intros (v & t & Ev & _ & Ht). apply eq_sym, app_eq_nil in Ev as [-> ->]. congruence.
  - destruct (here (x :: text)) eqn:E; [split; [intros _; exists [], (x :: text); auto | auto] |]. split.
    + destruct ((x =? c) || (c =? 46)) eqn:Ex; [| discriminate]. rewrite IH. intros (v & t & -> & Hv & Ht). exists (x :: v), t.
      split_and!; auto. constructor; auto. apply accepts_atom. rewrite orb_comm, (Z.eqb_sym c x). exact Ex.
    + intros ([|y v] & t & Ev & Hv & Ht); cbn in Ev; [congruence |]. injection Ev as <- Ev. apply Forall_cons in Hv as [Hx Hv].
      apply accepts_atom in Hx. rewrite orb_comm, (Z.eqb_sym c x) in Hx. rewrite Hx. apply IH. eauto.
Qed.

Lemma matchhere_correct_aux n : forall re text, (length re <= n)%nat -> matchhere re text = true <-> prefix_match (parse_re re) text.
Proof.
  induction n as [|n IH]; intros re text Hn.
  - destruct re; [| cbn in Hn; lia]. split; [intros _; exists [], text; split_and!; auto; [constructor | discriminate] | auto].
  - destruct re as [|c re1]; [split; [intros _; exists [], text; split_and!; auto; [constructor | discriminate] | auto] |]. cbn [length] in Hn.
    assert (Hnext : (match text with x :: t => if (c =? 46) || (c =? x) then matchhere re1 t else false | [] => false end) = true <->
      prefix_match (let '(l, e) := parse_re re1 in (One (atom c) :: l, e)) text).
    { pose proof (fun t => IH re1 t ltac:(lia)) as IH1. destruct (parse_re re1) as [l e]. rewrite prefix_one. split.
      - destruct text as [|x t]; [discriminate |]. destruct ((c =? 46) || (c =? x)) eqn:Ex; [| discriminate]. intros Hm.
        exists x, t. split_and!; [reflexivity | now apply accepts_atom | now apply IH1].
      - intros (x & t & -> & Ha & Hp). apply accepts_atom in Ha. rewrite Ha. now apply IH1. }
    destruct re1 as [|s re2]; cbn [matchhere parse_re].
    + destruct (c =? 36); [| exact Hnext]. split.
      * destruct text; [| discriminate]. intros _. exists [], []. split_and!; auto. constructor.
      * intros (w & u & -> & Hl & He). inversion Hl; subst. now rewrite (He eq_refl).
    + destruct (s =? 42); [| exact Hnext]. pose proof (fun t => IH re2 t ltac:(cbn in Hn; lia)) as IH2. destruct (parse_re re2) as [l e].
      rewrite prefix_many, matchstar_correct. split; intros (v & t & -> & Hv & Ht); exists v, t; split_and!; auto; now apply IH2.
Qed.

Lemma matchhere_correct re text : matchhere re text = true <-> prefix_match (parse_re re) text.
Proof. now apply (matchhere_correct_aux (length re)). Qed.

Lemma match_loop_correct re text : match_loop re text = true <-> exists v t, text = v ++ t /\ prefix_match (parse_re re) t.
Proof.
  induction text as [|x text IH]; cbn [match_loop].
  - destruct (matchhere re []) eqn:E.
    + split; [intros _; exists [], []; split; [reflexivity | now apply matchhere_correct] | auto].
    + split; [discriminate |]. intros (v & t & Ev & Ht). apply eq_sym, app_eq_nil in Ev as [-> ->]. apply matchhere_correct in Ht. congruence.
  - destruct (matchhere re (x :: text)) eqn:E; [split; [intros _; exists [], (x :: text); split; [reflexivity | now apply matchhere_correct] | auto] |].
    rewrite IH. split.
    + intros (v & t & -> & Ht). now exists (x :: v), t.
    + intros ([|y v] & t & Ev & Ht); cbn in Ev; [subst t; apply matchhere_correct in Ht; congruence |]. injection Ev as <- ->. eauto.
Qed.

(** C40: grep's matcher decides regular expressions: it succeeds exactly if a
    substring of the text is in the language of the pattern, at the start of the
    text if the pattern begins with a circumflex and reaching its end if the
    pattern ends with a dollar sign. *)
Theorem match_correct re text : match_ re text = true <->
  match re with
  | 94 :: re' => prefix_match (parse_re re') text
  | _ => exists v t, text = v ++ t /\ prefix_match (parse_re re) t
  end.
Proof.
  unfold match_. destruct re as [|c re]; [apply match_loop_correct |]. destruct (Z.eqb_spec c 94) as [-> | Hne]; [apply matchhere_correct |].
  rewrite match_loop_correct. destruct c as [|p|p]; try reflexivity. do 7 (destruct p as [p|p|]; try reflexivity). now destruct Hne.
Qed.

(** ** The loops *)

Definition GREPBUF : Z := 1024.
Definition O_RDONLY : Z := 0.

(** A newline in a format. *)
Definition NL : string := String (Ascii.ascii_of_nat 10) EmptyString.

Section programs.
Context {W : Type} `{Sys W}.

(** [while((q = strchr(p, '\n')) != 0)] *)
Fixpoint grep_lines (fuel : nat) (pattern buf : list Z) (p : Z) : UM W (list Z * Z) :=
  match fuel with
  | O => ufuel
  | S fuel' =>
      match strchr (cstr_at buf p) 10 with
      | None => uret (buf, p)
      | Some i =>
          let q := p + i in
          let buf := updZ buf q 0 in
          (buf <- (if match_ pattern (cstr_at buf p) then
                     let buf := updZ buf q 10 in
                     write 1 (take (Z.to_nat (q + 1 - p)) (drop (Z.to_nat p) buf));;
                     uret buf
                   else uret buf);;
           grep_lines fuel' pattern buf (q + 1))%U
      end
  end.

(** [n] bytes are stored in the buffer from index [m]. *)
Fixpoint store_at (buf : list Z) (m : Z) (b : list Z) : list Z :=
  match b with
  | [] => buf
  | c :: b' => store_at (updZ buf m c) (m + 1) b'
  end.

Fixpoint grep_loop (fuel : nat) (pattern : list Z) (fd : Z) (buf : list Z) (m : Z) : UM W (list Z) :=
  match fuel with
  | O => ufuel
  | S fuel' =>
      (x <- read fd (GREPBUF - m - 1);;
       let '(n, b) := x in
       if 0 <? n then
         let buf := store_at buf m b in
         let m := m + n in
         let buf := updZ buf m 0 in
         y <- grep_lines (S (Z.to_nat GREPBUF)) pattern buf 0;;
         let '(buf, p) := y in
         if 0 <? m then
           let m := m - p in
           grep_loop fuel' pattern fd (memmove_at buf 0 p m) m
         else grep_loop fuel' pattern fd buf m
       else uret buf)%U
  end.

(** The new contents of the static buffer. *)
Definition grep (fuel : nat) (pattern : list Z) (fd : Z) (buf : list Z) : UM W (list Z) := grep_loop fuel pattern fd buf 0.

Fixpoint grep_files (fuel : nat) (pattern : list Z) (files : list (list Z)) (buf : list Z) : UM W unit :=
  match files with
  | [] => uexit 0
  | f :: files' =>
      (fd <- open f O_RDONLY;;
       if fd <? 0 then
         uprintf ("grep: cannot open %s" ++ NL) [VStr (Some f)];;
         uexit 1
       else
         buf <- grep fuel pattern fd buf;;
         close fd;;
         grep_files fuel pattern files' buf)%U
  end.

(** [argv] without the name of the program. *)
Definition grep_main (fuel : nat) (argv : list (list Z)) (buf : list Z) : UM W unit :=
  match argv with
  | [] => (fprintf 2 ("usage: grep pattern [file ...]" ++ NL) [];; uexit 1)%U
  | [pattern] => (grep fuel pattern 0 buf;; uexit 0)%U
  | pattern :: files => grep_files fuel pattern files buf
  end.

(** *** wc *)

Definition wc_space : list Z := [32; 13; 9; 10; 11].

Record wc_state := Wc { wc_l : Z; wc_w : Z; wc_c : Z; wc_in : bool }.

Definition wc_char (x : wc_state) (c : Z) : wc_state :=
  let n := i32 (wc_c x + 1) in
  let l := if c =? 10 then i32 (wc_l x + 1) else wc_l x in
  match strchr wc_space c with
  | Some _ => Wc l (wc_w x) n false
  | None => if wc_in x then Wc l (wc_w x) n true else Wc l (i32 (wc_w x + 1)) n true
  end.

Fixpoint wc_loop (fuel : nat) (fd : Z) (x : wc_state) : UM W wc_state :=
  match fuel with
  | O => ufuel
  | S fuel' =>
      (y <- read fd 512;;
       let '(n, b) := y in
       if 0 <? n then wc_loop fuel' fd (fold_left wc_char b x)
       else if n <? 0 then
         uprintf ("wc: read error" ++ NL) [];;
         uexit 1
       else uret x)%U
  end.

Definition wc (fuel : nat) (fd : Z) (name : list Z) : UM W unit :=
  (x <- wc_loop fuel fd (Wc 0 0 0 false);;
   uprintf ("%d %d %d %s" ++ NL) [VInt (wc_l x); VInt (wc_w x); VInt (wc_c x); VStr (Some name)])%U.

Fixpoint wc_files (fuel : nat) (files : list (list Z)) : UM W unit :=
  match files with
  | [] => uexit 0
  | f :: files' =>
      (fd <- open f O_RDONLY;;
       if fd <? 0 then
         uprintf ("wc: cannot open %s" ++ NL) [VStr (Some f)];;
         uexit 1
       else
         wc fuel fd f;;
         close fd;;
         wc_files fuel files')%U
  end.

Definition wc_main (fuel : nat) (argv : list (list Z)) : UM W unit :=
  match argv with
  | [] => (wc fuel 0 [];; uexit 0)%U
  | _ => wc_files fuel argv
  end.

(** *** cat *)

Fixpoint cat (fuel : nat) (fd : Z) : UM W unit :=
  match fuel with
  | O => ufuel
  | S fuel' =>
      (y <- read fd 512;;
       let '(n, b) := y in
       if 0 <? n then
         r <- write 1 b;;
         if negb (r =? n) then
           fprintf 2 ("cat: write error" ++ NL) [];;
           uexit 1
         else cat fuel' fd
       else if n <? 0 then
         fprintf 2 ("cat: read error" ++ NL) [];;
         uexit 1
       else uret tt)%U
  end.

Fixpoint cat_files (fuel : nat) (files : list (list Z)) : UM W unit :=
  match files with
  | [] => uexit 0
  | f :: files' =>
      (fd <- open f O_RDONLY;;
       if fd <? 0 then
         fprintf 2 ("cat: cannot open %s" ++ NL) [VStr (Some f)];;
         uexit 1
       else
         cat fuel fd;;
         close fd;;
         cat_files fuel files')%U
  end.

Definition cat_main (fuel : nat) (argv : list (list Z)) : UM W unit :=
  match argv with
  | [] => (cat fuel 0;; uexit 0)%U
  | _ => cat_files fuel argv
  end.

(** ** What grep prints *)

(** [read] for no bytes returns 0. *)
Definition reads_nothing (fd : Z) (rest out : W -> list Z) : Prop :=
  forall w, exists w', sys_read fd 0 w = (0, [], w') /\ rest w' = rest w /\ out w' = out w.

(** The output after [data], the unfinished line, and what stays unread, when
    [cur] is the line so far.  A line with a NUL is never finished, and one of 1023
    characters fills the buffer. *)
Fixpoint grepped (pattern cur data : list Z) : list Z * list Z * list Z :=
  match data with
  | [] => ([], cur, [])
  | c :: data' =>
      if 1023 <=? Z.of_nat (length cur) then ([], cur, data)
      else if (c =? 10) && bool_decide (0 ∉ cur) then
        let '(o, r, l) := grepped pattern [] data' in
        ((if match_ pattern cur then cur ++ [10] else []) ++ o, r, l)
      else grepped pattern (cur ++ [c]) data'
  end.

(** The line [cur] is not finished. *)
Definition unfinished (pattern cur : list Z) : Prop := grepped pattern [] cur = ([], cur, []).

Lemma grepped_app pattern d1 d2 : forall cur o r,
  grepped pattern cur d1 = (o, r, []) ->
  grepped pattern cur (d1 ++ d2) = let '(o2, r2, l2) := grepped pattern r d2 in (o ++ o2, r2, l2).
Proof.
  induction d1 as [|c d1 IH]; intros cur o r; cbn [app grepped]; [intros [= <- <-]; now destruct (grepped pattern cur d2) as [[??]?] |].
  destruct (1023 <=? _); [discriminate |]. destruct ((c =? 10) && _); [| apply IH].
  destruct (grepped pattern [] d1) as [[o1 r1] l1] eqn:E. intros [= <- <- ->]. rewrite (IH _ _ _ E). destruct (grepped pattern r1 d2) as [[??]?]. now rewrite app_assoc.
Qed.

Lemma grepped_cur pattern cur data : unfinished pattern cur -> grepped pattern [] (cur ++ data) = grepped pattern cur data.
Proof. intros Hu. rewrite (grepped_app _ _ _ _ _ _ Hu). now destruct (grepped pattern cur data) as [[??]?]. Qed.

(** What fits in the buffer is read. *)
Lemma grepped_fits pattern data : forall cur, Z.of_nat (length (cur ++ data)) <= 1023 -> snd (grepped pattern cur data) = [].
Proof.
  induction data as [|c data IH]; intros cur Hn; cbn [grepped]; [reflexivity |]. rewrite length_app in Hn. cbn [length] in Hn. rewrite (proj2 (Z.leb_gt 1023 _)) by lia.
  destruct ((c =? 10) && _); [| apply IH; rewrite !length_app; cbn; lia].
  specialize (IH [] ltac:(cbn; lia)). now destruct (grepped pattern [] data) as [[??]?].
Qed.

Lemma unfinished_nil pattern : unfinished pattern [].
Proof. reflexivity. Qed.

Lemma grepped_rest pattern data : forall cur, unfinished pattern cur -> Z.of_nat (length cur) <= 1023 ->
  let r := snd (fst (grepped pattern cur data)) in unfinished pattern r /\ Z.of_nat (length r) <= 1023.
Proof.
  induction data as [|c data IH]; intros cur Hu Hn; cbn [grepped]; [auto |]. destruct (Z.leb_spec 1023 (Z.of_nat (length cur))) as [| Hlt]; [auto |].
  destruct ((c =? 10) && _) eqn:E.
  - specialize (IH [] (unfinished_nil _) ltac:(cbn; lia)). now destruct (grepped pattern [] data) as [[??]?].
  - apply IH; [| rewrite length_app; cbn; lia]. unfold unfinished. rewrite grepped_cur by exact Hu. cbn [grepped]. now rewrite (proj2 (Z.leb_gt 1023 _)), E by lia.
Qed.

(** A line that [grep] can find: before a newline, in one buffer, without a NUL. *)
Definition line_ok (l : list Z) : Prop := (0 ∉ l) /\ (10 ∉ l) /\ Z.of_nat (length l) <= 1022.

(** No such line is first in [data]. *)
Definition no_line (data : list Z) : Prop := forall l t, line_ok l -> data <> l ++ 10 :: t.

Lemma grepped_line pattern line data : 0 ∉ line -> 10 ∉ line -> Z.of_nat (length line) <= 1022 ->
  grepped pattern [] (line ++ 10 :: data) = let '(o, r, l) := grepped pattern [] data in ((if match_ pattern line then line ++ [10] else []) ++ o, r, l).
Proof.
  intros H0 H1 Hn. enough (Hg : forall cur, 0 ∉ cur -> Z.of_nat (length (cur ++ line)) <= 1022 ->
    grepped pattern cur (line ++ 10 :: data) = let '(o, r, l) := grepped pattern [] data in ((if match_ pattern (cur ++ line) then (cur ++ line) ++ [10] else []) ++ o, r, l))
    by (apply (Hg []); [apply not_elem_of_nil | exact Hn]).
  clear Hn. induction line as [|c line IH]; intros cur Hc Hn; rewrite length_app in Hn; cbn [app length grepped] in *; rewrite (proj2 (Z.leb_gt 1023 _)) by lia.
  - rewrite bool_decide_eq_true_2 by exact Hc. now rewrite app_nil_r.
  - rewrite not_elem_of_cons in H0, H1. rewrite (proj2 (Z.eqb_neq c 10)) by (intros ->; tauto). cbn [andb]. rewrite IH; [now rewrite <- app_assoc | tauto | tauto | |].
    + rewrite not_elem_of_app, list_elem_of_singleton. split; [exact Hc | tauto].
    + rewrite !length_app. cbn. lia.
Qed.

Lemma grepped_stop pattern data : forall cur, Z.of_nat (length cur) <= 1023 -> (10 ∈ cur -> 0 ∈ cur) -> no_line (cur ++ data) ->
  exists r, grepped pattern cur data = ([], r, drop (1023 - length cur) data).
Proof.
  induction data as [|c data IH]; intros cur Hn Hc Hl; cbn [grepped]; [exists cur; now rewrite drop_nil |].
  destruct (Z.leb_spec 1023 (Z.of_nat (length cur))) as [Hge | Hlt]; [exists cur; now replace (1023 - length cur)%nat with 0%nat by lia |].
  destruct (Z.eqb_spec c 10) as [-> | Hne]; cbn [andb].
  - case_bool_decide as H0; [destruct (Hl cur data); [split_and!; [exact H0 | tauto | lia] | reflexivity] |].
    destruct (IH (cur ++ [10])) as (r & ->); [rewrite length_app; cbn; lia | intros _; apply elem_of_app; left; destruct (decide (0 ∈ cur)); tauto | now rewrite <- app_assoc |].
    exists r. rewrite length_app. now replace (1023 - length cur)%nat with (S (1023 - (length cur + length [10%Z])))%nat by (cbn; lia).
  - destruct (IH (cur ++ [c])) as (r & ->); [rewrite length_app; cbn; lia | | now rewrite <- app_assoc |].
    + rewrite !elem_of_app, !list_elem_of_singleton. intros [Hin | E]; [auto | congruence].
    + exists r. rewrite length_app. now replace (1023 - length cur)%nat with (S (1023 - (length cur + length [c])))%nat by (cbn; lia).
Qed.

(** Every text is lines that [grep] can find, then one that it cannot. *)
Lemma grepped_lines pattern data : exists lines tail, data = concat (map (fun l => l ++ [10]) lines) ++ tail /\ Forall line_ok lines /\ no_line tail /\
  exists r, grepped pattern [] data = (concat (map (fun l => l ++ [10]) (List.filter (match_ pattern) lines)), r, drop 1023 tail).
Proof.
  induction data as [data IH] using (induction_ltof1 _ length).
  assert (Hd : (exists l t, line_ok l /\ data = l ++ 10 :: t) \/ no_line data).
  { destruct (decide (10 ∈ data)) as [Hin | Hin]; [| right; intros l t _ ->; apply Hin; rewrite elem_of_app, elem_of_cons; auto].
    apply list_elem_of_split_l in Hin as (l & t & -> & Hl). destruct (decide ((0 ∉ l) /\ Z.of_nat (length l) <= 1022)) as [[H0 Hn] | Hno]; [left; exists l, t; now split_and! |].
    right. intros l' t' (H0 & H1 & Hn) E. apply Hno. enough (l = l') by now subst. clear - E Hl H1.
    revert l' E H1. induction l as [|c l IHl]; intros [|c' l'] E H1; cbn in E; [reflexivity | | |]; injection E as Ec E; rewrite ?not_elem_of_cons in *;
      [destruct H1; congruence | destruct Hl; congruence |]. f_equal; [exact Ec | apply IHl; tauto]. }
  destruct Hd as [(l & t & (H0 & H1 & Hn) & ->) | Hno].
  - destruct (IH t) as (lines & tail & -> & Hok & Hno & r & E); [unfold ltof; rewrite length_app; cbn; lia |].
    exists (l :: lines), tail. cbn [map concat]. split_and!; [now rewrite <- !app_assoc | now constructor | exact Hno |]. exists r. rewrite grepped_line, E by assumption.
    cbn [List.filter]. now destruct (match_ pattern l).
  - exists [], data. split_and!; auto. destruct (grepped_stop pattern data [] ltac:(cbn; lia) ltac:(easy) Hno) as (r & ->). now exists r.
Qed.

Lemma store_at_app b : forall l x r, length x = length b -> store_at (l ++ x ++ r) (Z.of_nat (length l)) b = l ++ b ++ r.
Proof.
  induction b as [|c b IH]; intros l x r Hl; [now destruct x |]. destruct x as [|y x]; [discriminate |]. injection Hl as Hl. cbn [store_at app].
  rewrite updZ_app. specialize (IH (l ++ [c]) x r Hl). rewrite <- !app_assoc, length_app in IH. cbn [app length] in IH.
  replace (Z.of_nat (length l) + 1) with (Z.of_nat (length l + 1)) by lia. exact IH.
Qed.

Lemma cstr_at_app l x r : 0 ∉ x -> cstr_at (l ++ x ++ 0 :: r) (Z.of_nat (length l)) = x.
Proof. intros Hx. unfold cstr_at. rewrite Nat2Z.id, drop_app_length. now apply upto_app. Qed.

Lemma le_split_lists (l b : list Z) : (length b < length l)%nat -> exists x y z, l = x ++ y :: z /\ length x = length b.
Proof.
  intros Hl. exists (take (length b) l). destruct (drop (length b) l) as [|y z] eqn:E.
  - apply (f_equal length) in E. rewrite length_drop in E. cbn in E. lia.
  - exists y, z. rewrite <- E, take_drop, length_take. split; [reflexivity | lia].
Qed.

(** [memmove(buf, p, m)] *)
Lemma moved_front (before r z : list Z) : exists junk,
  memmove_at (before ++ r ++ z) 0 (Z.of_nat (length before)) (Z.of_nat (length r)) = r ++ junk /\ length (r ++ junk) = length (before ++ r ++ z).
Proof.
  set (a := before ++ r ++ z). set (n := Z.of_nat (length r)). set (a' := memmove_at a 0 (Z.of_nat (length before)) n).
  assert (Hla : Z.of_nat (length a) = Z.of_nat (length before) + n + Z.of_nat (length z)) by (unfold a, n; rewrite !length_app; lia).
  assert (Hsp : forall i, 0 <= i -> nthZ 0 a' i = (if (0 <=? i) && (i <? 0 + n) then nthZ 0 a (Z.of_nat (length before) + (i - 0)) else nthZ 0 a i) /\ length a' = length a)
    by (intros i Hi; apply memmove_at_spec; unfold n in *; lia).
  exists (drop (length r) a'). destruct (Hsp 0 ltac:(lia)) as [_ Hl]. assert (Et : take (length r) a' = r).
  { apply (nth_ext _ _ 0 0); [rewrite length_take, Hl; unfold n in *; lia |]. intros i Hi. rewrite length_take in Hi.
    assert (Hin : (i < length r)%nat) by lia. rewrite nth_lookup, lookup_take_lt, <- nth_lookup by exact Hin.
    specialize (Hsp (Z.of_nat i) ltac:(lia)) as [E _]. unfold nthZ in E. rewrite Nat2Z.id in E. rewrite E, (proj2 (Z.leb_le 0 _)), (proj2 (Z.ltb_lt _ (0 + n))) by (unfold n; lia).
    cbn [andb]. unfold a. replace (Z.to_nat (Z.of_nat (length before) + (Z.of_nat i - 0))) with (length before + i)%nat by lia.
    rewrite app_nth2 by lia. replace (length before + i - length before)%nat with i by lia. now rewrite app_nth1 by exact Hin. }
  assert (Ea : r ++ drop (length r) a' = a') by (rewrite <- (take_drop (length r) a') at 2; now rewrite Et). now rewrite Ea.
Qed.

(** ** grep *)

Section grep.
Variables (fd : Z) (rest out : W -> list Z) (pattern : list Z).
Hypothesis Hs : streams fd rest out.
Hypothesis Hz : reads_nothing fd rest out.

Lemma ubind_write b {A} (f : Z -> UM W A) w : exists w', ubind (write 1 b) f w = f (Z.of_nat (length b)) w' /\ rest w' = rest w /\ out w' = out w ++ b.
Proof. destruct (st_write _ _ _ Hs b w) as (w' & E & Hr & Ho). exists w'. unfold ubind, write. rewrite E. auto. Qed.

(** Either a line is first, or the next NUL is before any newline. *)
Lemma line_split data junk : (exists line data', data = line ++ 10 :: data' /\ (0 ∉ line) /\ (10 ∉ line)) \/
  (exists s t, data ++ 0 :: junk = s ++ 0 :: t /\ (0 ∉ s) /\ (10 ∉ s)) /\ forall l t, line_ok l -> data <> l ++ 10 :: t.
Proof.
  induction data as [|c data IH]; [right; split; [exists [], junk; split_and!; auto using not_elem_of_nil | now intros [|? ?]] |].
  destruct (decide (c = 10)) as [-> | Hc]; [left; exists [], data; split_and!; auto using not_elem_of_nil |].
  destruct (decide (c = 0)) as [-> | Hz0].
  { right. split; [exists [], (data ++ 0 :: junk); split_and!; auto using not_elem_of_nil |]. intros [|c l] t (H0 & _) E; injection E as Ec E; [easy |]. rewrite not_elem_of_cons in H0. tauto. }
  assert (Hcons : forall l, (0 ∉ l) /\ (10 ∉ l) -> (0 ∉ c :: l) /\ (10 ∉ c :: l)) by (intros l [? ?]; rewrite !not_elem_of_cons; split; split; auto).
  destruct IH as [(line & data' & -> & Hl) | [(s & t & E & Hl) Hn]]; [left; exists (c :: line), data'; auto | right]. split; [exists (c :: s), t; cbn; rewrite E; auto |].
  intros [|c' l] t' (H0 & H1 & Hlen) E'; injection E' as Ec E'; [congruence |]. rewrite not_elem_of_cons in H0, H1. cbn in Hlen. apply (Hn l t'); [split_and!; [tauto | tauto | lia] | exact E'].
Qed.

Lemma unfinished_stop data : Z.of_nat (length data) <= 1023 -> no_line data -> unfinished pattern data.
Proof.
  intros Hn Hl. enough (Hg : forall d cur, Z.of_nat (length (cur ++ d)) <= 1023 -> (10 ∈ cur -> 0 ∈ cur) -> no_line (cur ++ d) -> grepped pattern cur d = ([], cur ++ d, []))
    by (apply (Hg data []); [exact Hn | easy | exact Hl]).
  clear. induction d as [|c d IH]; intros cur Hn Hc Hl; cbn [grepped]; [now rewrite app_nil_r |]. rewrite length_app in Hn. cbn [length] in Hn. rewrite (proj2 (Z.leb_gt 1023 _)) by lia.
  assert ((c =? 10) && bool_decide (0 ∉ cur) = false /\ (10 ∈ cur ++ [c] -> 0 ∈ cur ++ [c])) as [-> Hc'].
  { rewrite !elem_of_app, !list_elem_of_singleton. destruct (Z.eqb_spec c 10) as [-> | Hne]; [| split; [reflexivity |]; intros [? | E]; [auto | congruence]]. cbn [andb].
    case_bool_decide as H0; [destruct (Hl cur d); [split_and!; [exact H0 | tauto | lia] | reflexivity] |]. split; [reflexivity |]. intros _. left. destruct (decide (0 ∈ cur)); tauto. }
  rewrite IH; rewrite <- ?app_assoc; auto. rewrite length_app. cbn. lia.
Qed.

Lemma grep_lines_run fuel : forall before data junk w, Z.of_nat (length data) <= 1023 -> (length data < fuel)%nat -> exists before' w',
  let '(o, r, _) := grepped pattern [] data in
  grep_lines fuel pattern (before ++ data ++ 0 :: junk) (Z.of_nat (length before)) w = UOk (before' ++ r ++ 0 :: junk, Z.of_nat (length before')) w' /\
  rest w' = rest w /\ out w' = out w ++ o /\ length (before' ++ r) = length (before ++ data).
Proof.
  induction fuel as [|fuel IH]; intros before data junk w Hd Hf; [lia |]. cbn [grep_lines].
  destruct (line_split data junk) as [(line & data' & -> & H0l & Hline) | [(s & t & Es & H0s & H1s) Hn]].
  - assert (Hs0 : exists s0, cstr_at (before ++ (line ++ 10 :: data') ++ 0 :: junk) (Z.of_nat (length before)) = line ++ 10 :: s0).
    { exists (cstr (data' ++ 0 :: junk)). unfold cstr_at. rewrite Nat2Z.id, drop_app_length, <- app_assoc. cbn [app]. clear - H0l.
      induction line as [|c line IH]; [reflexivity |]. rewrite not_elem_of_cons in H0l. cbn [app cstr]. rewrite (proj2 (Z.eqb_neq c 0)) by (intros ->; tauto). now rewrite IH. }
    destruct Hs0 as (s0 & ->). rewrite strchr_app by exact Hline. rewrite length_app in Hd, Hf. cbn [length] in Hd, Hf.
    replace (Z.of_nat (length before) + Z.of_nat (length line)) with (Z.of_nat (length (before ++ line))) by (rewrite length_app; lia).
    assert (Eb : forall c, before ++ (line ++ c :: data') ++ 0 :: junk = (before ++ line) ++ c :: data' ++ 0 :: junk) by (intros c; now rewrite <- !app_assoc).
    rewrite Eb, updZ_app, <- (Eb 0), <- (app_assoc line (0 :: data')). cbn [app]. rewrite cstr_at_app by exact H0l.
    rewrite grepped_line by (assumption || lia).
    assert (Hgo : forall c w1, exists before' w', let '(o, r, _) := grepped pattern [] data' in
      grep_lines fuel pattern (before ++ line ++ c :: data' ++ 0 :: junk) (Z.of_nat (length (before ++ line)) + 1) w1 =
      UOk (before' ++ r ++ 0 :: junk, Z.of_nat (length before')) w' /\ rest w' = rest w1 /\
      out w' = out w1 ++ o /\ length (before' ++ r) = length (before ++ line ++ c :: data')).
    { intros c w1. destruct (IH (before ++ line ++ [c]) data' junk w1) as (b' & w' & Hg); [lia | lia |]. exists b', w'. destruct (grepped pattern [] data') as [[o r] l]. destruct Hg as (E & Hr & Ho & Hl).
      rewrite <- !app_assoc in E, Hl. cbn [app] in E, Hl. rewrite !length_app in E. cbn [length] in E.
      replace (Z.of_nat (length (before ++ line)) + 1) with (Z.of_nat (length before + (length line + 1))) by (rewrite length_app; lia). auto. }
    destruct (match_ pattern line).
    + replace (before ++ line ++ 0 :: data' ++ 0 :: junk) with ((before ++ line) ++ 0 :: data' ++ 0 :: junk) by now rewrite <- app_assoc.
      rewrite updZ_app, <- app_assoc. cbv zeta. unfold ubind at 1. rewrite Nat2Z.id.
      replace (Z.to_nat (Z.of_nat (length (before ++ line)) + 1 - Z.of_nat (length before))) with (length (line ++ [10])) by (rewrite !length_app; cbn; lia).
      rewrite drop_app_length. replace (line ++ 10 :: data' ++ 0 :: junk) with ((line ++ [10]) ++ data' ++ 0 :: junk) by now rewrite <- app_assoc.
      rewrite take_app_length, <- (app_assoc line [10]). cbn [app].
      destruct (ubind_write (line ++ [10]) (fun _ => uret (before ++ line ++ 10 :: data' ++ 0 :: junk)) w) as (w1 & -> & Hr1 & Ho1). cbn [uret].
      destruct (Hgo 10 w1) as (b' & w' & Hg). exists b', w'. destruct (grepped pattern [] data') as [[o r] l]. destruct Hg as (E & Hr & Ho & Hl).
      split_and!; [exact E | congruence | rewrite Ho, Ho1, <- !app_assoc; reflexivity |]. rewrite Hl, !length_app. reflexivity.
    + destruct (Hgo 0 w) as (b' & w' & Hg). exists b', w'. destruct (grepped pattern [] data') as [[o r] l]. destruct Hg as (E & Hr & Ho & Hl).
      split_and!; [exact E | exact Hr | exact Ho |]. rewrite Hl, !length_app. reflexivity.
  - rewrite Es, cstr_at_app by exact H0s. rewrite strchr_none by exact H1s. exists before, w. rewrite unfinished_stop by assumption. rewrite <- Es, app_nil_r. auto.
Qed.

(** The buffer holds the unfinished line [cur]. *)
Lemma grep_loop_run fuel : forall cur junk w, Z.of_nat (length (cur ++ junk)) = GREPBUF -> Z.of_nat (length cur) <= 1023 -> unfinished pattern cur -> (length (rest w) < fuel)%nat ->
  exists buf w', grep_loop fuel pattern fd (cur ++ junk) (Z.of_nat (length cur)) w = UOk buf w' /\
    length buf = length (cur ++ junk) /\ rest w' = snd (grepped pattern cur (rest w)) /\ out w' = out w ++ fst (fst (grepped pattern cur (rest w))).
Proof.
  induction fuel as [|fuel IH]; intros cur junk w Hb Hc Hu Hf; [lia |]. cbn [grep_loop]. unfold ubind at 1, read at 1.
  destruct (decide (Z.of_nat (length cur) = 1023)) as [Ec | Ec].
  { destruct (Hz w) as (w1 & E & Hr & Ho). replace (GREPBUF - Z.of_nat (length cur) - 1) with 0 by (unfold GREPBUF; lia). rewrite E. cbn. exists (cur ++ junk), w1.
    destruct (rest w) as [|c l]; cbn [grepped]; [| rewrite (proj2 (Z.leb_le 1023 _)) by lia]; cbn; rewrite app_nil_r; auto. }
  destruct (decide (rest w = [])) as [Er | Er].
  - destruct (st_end _ _ _ Hs (GREPBUF - Z.of_nat (length cur) - 1) w) as (w1 & E & Hr & Ho); [unfold GREPBUF; lia | exact Er |]. rewrite E. cbn.
    exists (cur ++ junk), w1. rewrite Er. cbn. rewrite app_nil_r. auto.
  - destruct (st_read _ _ _ Hs (GREPBUF - Z.of_nat (length cur) - 1) w) as (b & w1 & E & Hne & Hlb & Hr & Ho); [unfold GREPBUF; lia | exact Er |].
    rewrite E. assert (Hb0 : (0 < length b)%nat) by (destruct b; [easy | cbn; lia]). rewrite (proj2 (Z.ltb_lt 0 _)) by lia.
    rewrite length_app in Hb. destruct (le_split_lists junk b) as (x & y & z & -> & Hx); [lia |].
    rewrite store_at_app by exact Hx. replace (Z.of_nat (length cur) + Z.of_nat (length b)) with (Z.of_nat (length (cur ++ b))) by (rewrite length_app; lia).
    rewrite app_assoc, updZ_app, <- app_assoc. assert (Hcb : Z.of_nat (length (cur ++ b)) <= 1023) by (rewrite length_app; unfold GREPBUF in Hlb; lia).
    pose proof (grepped_rest pattern b cur Hu Hc) as [Ru Rn]. pose proof (grepped_cur pattern cur b Hu) as Eg. pose proof (grepped_fits pattern b cur Hcb) as Ef.
    destruct (grep_lines_run (S (Z.to_nat GREPBUF)) [] (cur ++ b) z w1 Hcb) as (before & w2 & Hg); [unfold GREPBUF; lia |]. rewrite Eg in Hg.
    destruct (grepped pattern cur b) as [[o r] l] eqn:Eb. cbn [fst snd] in *. subst l. destruct Hg as (El & Hr2 & Ho2 & Hl2).
    cbn [app length] in El. rewrite <- app_assoc in El. change (Z.of_nat 0) with 0 in El. unfold ubind at 1. rewrite El. cbn [app] in Hl2.
    rewrite (proj2 (Z.ltb_lt 0 _)) by (rewrite length_app; lia).
    replace (Z.of_nat (length (cur ++ b)) - Z.of_nat (length before)) with (Z.of_nat (length r)) by (rewrite <- Hl2, length_app; lia).
    destruct (moved_front before r (0 :: z)) as (junk' & Em & Hlj). rewrite Em.
    assert (Hlen : length (r ++ junk') = length (cur ++ x ++ y :: z)).
    { rewrite Hlj, app_assoc, length_app, Hl2, !length_app. cbn. lia. }
    destruct (IH r junk' w2) as (buf & w' & Ef & Hlf & Hrf & Hof); auto.
    + rewrite Hlen, !length_app. rewrite !length_app in Hb. exact Hb.
    + rewrite Hr2. rewrite Hr, length_app in Hf. lia.
    + exists buf, w'. rewrite Ef. rewrite Hof, Hrf, Ho2, Ho, Hr2, Hr, (grepped_app _ _ _ _ _ _ Eb).
      destruct (grepped pattern r (rest w1)) as [[o2 r2] l2]. cbn [fst snd]. split_and!; [reflexivity | congruence | reflexivity | now rewrite app_assoc].
Qed.

End grep.

End programs.
