(* ===== verification/UserSpec.v ===== *)
(** * What the utilities print

    The contract of [grep], [wc] and [cat] over any descriptor that reads a
    stream, whatever the pieces in which [read] hands it out. *)

From S2P Require Import Prelude Printf User Grep.

(** ** Decimal numbers *)

Lemma digits_dec up d : 0 <= d < 10 -> digits up d = 48 + d.
Proof. intros Hd. unfold digits. now rewrite (proj2 (Z.ltb_lt d 10)) by lia. Qed.

Lemma digit_loop_dec up k : forall fuel x buf, (0 < k <= fuel)%nat -> (length buf + k <= 16)%nat -> 0 <= x < 10 ^ Z.of_nat k ->
  exists ds, digit_loop fuel up x 10 buf = Some (buf ++ ds) /\ (length ds <= k)%nat /\ Forall (fun c => 48 <= c <= 57) ds /\
    (x < 2 ^ 31 -> forall s, atoi_loop (rev ds ++ s) 0 = atoi_loop s x).
Proof.
  induction k as [|k IH]; intros fuel x buf Hf Hb Hx; [lia |]. destruct fuel as [|fuel]; [lia |]. cbn [digit_loop]. unfold buf_put.
  rewrite (proj2 (Z.ltb_lt (Z.of_nat (length buf)) PRINTBUF)) by (unfold PRINTBUF; lia).
  pose proof (Z.mod_pos_bound x 10 ltac:(lia)) as Hm. rewrite digits_dec by exact Hm. pose proof (Z.div_mod x 10 ltac:(lia)) as Ex.
  assert (Hone : forall s n, n * 10 + x mod 10 < 2 ^ 31 -> atoi_loop ((48 + x mod 10) :: s) n = atoi_loop s (n * 10 + x mod 10)).
  { intros s n Hn. cbn [atoi_loop]. rewrite (proj2 (Z.leb_le 48 _)), (proj2 (Z.leb_le _ 57)) by lia. cbn [andb].
    replace (n * 10 + (48 + x mod 10) - 48) with (n * 10 + x mod 10) by lia. now rewrite (proj2 (Z.ltb_lt _ (2 ^ 31))) by exact Hn. }
  destruct (Z.eqb_spec (x / 10) 0) as [E | Hne].
  - exists [48 + x mod 10]. split_and!; [reflexivity | cbn; lia | constructor; [lia | constructor] |].
    intros Hlt s. cbn [rev app]. rewrite Hone by lia. f_equal. lia.
  - assert (Hx' : 0 <= x / 10 < 10 ^ Z.of_nat k).
    { split; [apply Z.div_pos; lia |]. apply Z.div_lt_upper_bound; [lia |]. rewrite Nat2Z.inj_succ, Z.pow_succ_r in Hx by lia. lia. }
    destruct k as [|k]; [cbn in Hx'; lia |].
    destruct (IH fuel (x / 10) (buf ++ [48 + x mod 10])) as (ds & E & Hl & Hd & Ha); [lia | rewrite length_app; cbn; lia | exact Hx' |].
    exists ((48 + x mod 10) :: ds). rewrite E, <- app_assoc. split_and!; [reflexivity | cbn; lia | constructor; [lia | exact Hd] |].
    intros Hlt s. cbn [rev]. rewrite <- app_assoc. cbn [app]. rewrite Ha by lia. rewrite Hone by lia. f_equal. lia.
Qed.

Lemma uprintint_dec n : 0 <= n < 2 ^ 31 -> exists ds, uprintint n 10 true = Some ds /\ Forall (fun c => 48 <= c <= 57) ds /\ atoi ds = Some n.
Proof.
  intros Hn. unfold uprintint. rewrite i32_small by lia. rewrite (proj2 (Z.ltb_ge n 0)) by lia. cbn [andb]. rewrite u32_small by lia.
  destruct (digit_loop_dec 65 10 DIGIT_FUEL n []) as (ds & E & _ & Hd & Ha); [unfold DIGIT_FUEL; lia | cbn; lia | lia |].
  rewrite E. exists (rev ds). cbn [app]. split_and!; [reflexivity | now apply Forall_rev |].
  unfold atoi. specialize (Ha ltac:(lia) []). rewrite app_nil_r in Ha. exact Ha.
Qed.

(** [atoi] reads back what [printf] prints for %d. *)
Theorem atoi_printint n : 0 <= n < 2 ^ 31 -> exists ds, uprintint n 10 true = Some ds /\ atoi ds = Some n.
Proof. intros Hn. destruct (uprintint_dec n Hn) as (ds & E & _ & Ha). eauto. Qed.

Lemma atoi_printint_witness : uprintint 2147483647 10 true = Some (bytes_of "2147483647") /\ exists ds, uprintint 2147483647 10 true = Some ds /\ atoi ds = Some 2147483647.
Proof. split; [reflexivity | apply (atoi_printint 2147483647); lia]. Defined.

(** ** printf on a stream *)

(** The characters [vprintf] puts. *)
Fixpoint rendered (fuel : nat) (fmt : list Z) (i : Z) (pct : bool) (ap : list va) : option (list Z) :=
  match fuel with
  | O => None
  | S fuel' =>
      let c0 := chr fmt i in
      if c0 =? 0 then Some []
      else if negb pct then
        if c0 =? 37 then rendered fuel' fmt (i + 1) true ap
        else option_map (cons c0) (rendered fuel' fmt (i + 1) false ap)
      else
        let c1 := chr fmt (i + 1) in
        let c2 := if c1 =? 0 then 0 else chr fmt (i + 2) in
        and_then (uconversion c0 c1 c2 ap) (fun '(o, ap', skip) => option_map (app o) (rendered fuel' fmt (i + skip + 1) false ap'))
  end.

Definition bytes8 (l : list Z) : Prop := Forall (fun c => 0 <= c < 256) l.

(** The fields of [data] between white space, when [cur] is the field so far. *)
Fixpoint fields (cur data : list Z) : list (list Z) :=
  match data with
  | [] => [cur]
  | c :: data' => if bool_decide (c ∈ wc_space) then cur :: fields [] data' else fields (cur ++ [c]) data'
  end.
Definition count_words (data : list Z) : Z := Z.of_nat (length (filter (fun f => f <> []) (fields [] data))).
Definition count_lines (data : list Z) : Z := Z.of_nat (length (filter (fun c => c = 10) data)).

Lemma strchr_elem s c : match strchr s c with Some _ => true | None => false end = bool_decide (c ∈ s).
Proof.
  induction s as [|x s IH]; cbn [strchr]; [reflexivity |]. destruct (Z.eqb_spec x c) as [-> | Hne].
  - symmetry. apply bool_decide_eq_true_2. apply list_elem_of_here.
  - transitivity (bool_decide (c ∈ s)); [rewrite <- IH; now destruct (strchr s c) |]. apply bool_decide_ext. rewrite elem_of_cons. split; [tauto | intros [->|?]; [now destruct Hne | assumption]].
Qed.

Lemma fields_le data : forall cur, (length (filter (fun f => f <> []) (fields cur data)) <= length data + (if bool_decide (cur <> []) then 1 else 0))%nat.
Proof.
  induction data as [|c data IH]; intros cur; cbn [fields]; [now destruct cur |]. destruct (bool_decide (c ∈ wc_space)).
  - specialize (IH []). change (bool_decide ([] <> [] :> list Z)) with false in IH. destruct cur as [|x cur].
    + rewrite filter_cons_False by tauto. change (bool_decide ([] <> [] :> list Z)) with false. cbn [length] in *. lia.
    + rewrite filter_cons_True by discriminate. change (bool_decide (x :: cur <> [])) with true. cbn [length] in *. lia.
  - specialize (IH (cur ++ [c])). rewrite (bool_decide_eq_true_2 (cur ++ [c] <> [])) in IH by (now destruct cur). cbn [length]. lia.
Qed.

Lemma count_words_le data : 0 <= count_words data <= Z.of_nat (length data).
Proof. unfold count_words. pose proof (fields_le data []) as Hl. cbn in Hl. lia. Qed.
Lemma count_lines_le data : 0 <= count_lines data <= Z.of_nat (length data).
Proof. unfold count_lines. pose proof (length_filter (fun c => c = 10) data). lia. Qed.

(** Characters, lines and words are counted one character at a time. *)
Lemma wc_fold data : forall cur l w n, 0 <= l <= n -> 0 <= w <= n -> n + Z.of_nat (length data) < 2 ^ 31 -> exists b,
  fold_left wc_char data (Wc l w n (bool_decide (cur <> []))) =
  Wc (l + count_lines data) (w + Z.of_nat (length (filter (fun f => f <> []) (fields cur data))) - (if bool_decide (cur <> []) then 1 else 0))
     (n + Z.of_nat (length data)) b.
Proof.
  induction data as [|c data IH]; intros cur l w n Hl Hw Hn.
  - exists (bool_decide (cur <> [])). cbn [fold_left fields length]. unfold count_lines. change (filter (fun c => c = 10) []) with (@nil Z). cbn [length].
    destruct cur as [|x cur]; [rewrite filter_cons_False by tauto; change (bool_decide ([] <> [] :> list Z)) with false | rewrite filter_cons_True by discriminate; change (bool_decide (x :: cur <> [])) with true].
    + f_equal; cbn; lia.
    + f_equal; cbn; lia.
  - cbn [fold_left length] in *. unfold wc_char at 2. cbn [wc_l wc_w wc_c wc_in]. pose proof (strchr_elem wc_space c) as Hc. rewrite (i32_small (n + 1)) by lia.
    assert (El : (if c =? 10 then i32 (l + 1) else l) + count_lines data = l + count_lines (c :: data) /\ 0 <= (if c =? 10 then i32 (l + 1) else l) <= n + 1).
    { unfold count_lines. destruct (Z.eqb_spec c 10) as [-> | Hne].
      - rewrite i32_small by lia. rewrite filter_cons_True by reflexivity. cbn [length]. lia.
      - rewrite filter_cons_False by exact Hne. lia. }
    destruct El as [El Hl']. set (l' := if c =? 10 then i32 (l + 1) else l) in *. cbn [fields]. rewrite <- Hc, <- El.
    destruct (strchr wc_space c) as [k|].
    + destruct (IH [] l' w (n + 1)) as (b & E); [lia | lia | lia |]. exists b. change (bool_decide ([] <> [] :> list Z)) with false in E. rewrite E. f_equal; [| lia].
      destruct cur as [|x cur]; [rewrite filter_cons_False by tauto; change (bool_decide ([] <> [] :> list Z)) with false | rewrite filter_cons_True by discriminate; change (bool_decide (x :: cur <> [])) with true; cbn [length]]; lia.
    + destruct (IH (cur ++ [c]) l' (if bool_decide (cur <> []) then w else i32 (w + 1)) (n + 1)) as (b & E); [lia | destruct (bool_decide (cur <> [])); [lia | rewrite i32_small by lia; lia] | lia |].
      exists b. rewrite (bool_decide_eq_true_2 (cur ++ [c] <> [])) in E by (now destruct cur).
      destruct (bool_decide (cur <> [])); rewrite E; [f_equal; lia |]. rewrite i32_small by lia. f_equal; lia.
Qed.

Lemma uprintint_i32 v base sgn : uprintint (i32 v) base sgn = uprintint v base sgn.
Proof.
  unfold uprintint. replace (i32 (i32 v)) with (i32 v); [reflexivity |]. unfold i32.
  pose proof (Z.mod_pos_bound (v + 2 ^ 31) (2 ^ 32) ltac:(lia)). rewrite (Z.mod_small (_ - 2 ^ 31 + 2 ^ 31)) by lia. lia.
Qed.

Lemma uconversion_d c1 c2 v ap ds : uprintint v 10 true = Some ds -> uconversion 100 c1 c2 (VInt v :: ap) = Some (ds, ap, 0).
Proof. intros E. unfold uconversion. cbn [Z.eqb Pos.eqb va_int and_then]. rewrite uprintint_i32, E. reflexivity. Qed.

(** One character of a known format. *)
Lemma rendered_end k f i ap pct : chr f i = 0 -> rendered (S k) f i pct ap = Some [].
Proof. intros E. cbn [rendered]. now rewrite E. Qed.
Lemma rendered_put k f i j ap c : chr f i = c -> c <> 0 -> c <> 37 -> j = i + 1 -> rendered (S k) f i false ap = option_map (cons c) (rendered k f j false ap).
Proof. intros E H0 H1 ->. cbn [rendered]. rewrite E, (proj2 (Z.eqb_neq c 0)), (proj2 (Z.eqb_neq c 37)) by assumption. reflexivity. Qed.
Lemma rendered_conv k f i j c0 ap o ap' : chr f i = 37 -> chr f (i + 1) = c0 -> c0 <> 0 -> (forall c1 c2, uconversion c0 c1 c2 ap = Some (o, ap', 0)) -> j = i + 2 ->
  rendered (S (S k)) f i false ap = option_map (app o) (rendered k f j false ap').
Proof.
  intros E E0 H0 Hu ->. cbn [rendered]. rewrite E, E0, (proj2 (Z.eqb_neq c0 0)) by assumption. cbn [Z.eqb Pos.eqb negb]. rewrite Hu. cbn [and_then].
  now replace (i + 1 + 0 + 1) with (i + 2) by lia.
Qed.

Lemma wc_rendered l w n name dl dw dc : uprintint l 10 true = Some dl -> uprintint w 10 true = Some dw -> uprintint n 10 true = Some dc ->
  rendered 13 (bytes_of ("%d %d %d %s" ++ NL)) 0 false [VInt l; VInt w; VInt n; VStr (Some name)] = Some (dl ++ [32] ++ dw ++ [32] ++ dc ++ [32] ++ name ++ [10]).
Proof.
  intros El Ew Ec. set (f := bytes_of _).
  rewrite (rendered_conv _ f 0 2 100 _ dl _) by first [intros; now apply uconversion_d | reflexivity | discriminate].
  rewrite (rendered_put _ f 2 3 _ 32) by first [reflexivity | discriminate].
  rewrite (rendered_conv _ f 3 5 100 _ dw _) by first [intros; now apply uconversion_d | reflexivity | discriminate].
  rewrite (rendered_put _ f 5 6 _ 32) by first [reflexivity | discriminate].
  rewrite (rendered_conv _ f 6 8 100 _ dc _) by first [intros; now apply uconversion_d | reflexivity | discriminate].
  rewrite (rendered_put _ f 8 9 _ 32) by first [reflexivity | discriminate].
  rewrite (rendered_conv _ f 9 11 115 _ name []) by first [reflexivity | discriminate].
  rewrite (rendered_put _ f 11 12 _ 10) by first [reflexivity | discriminate].
  now rewrite rendered_end by reflexivity.
Qed.

Section specs.
Context {W : Type} `{Sys W}.
Variables (fd : Z) (rest out : W -> list Z).
Hypothesis Hs : streams fd rest out.

Lemma write_run b w : exists w', write 1 b w = UOk (Z.of_nat (length b)) w' /\ rest w' = rest w /\ out w' = out w ++ b.
Proof. unfold write. destruct (st_write _ _ _ Hs b w) as (w' & E & ?). exists w'. now rewrite E. Qed.

Lemma putcs_run l : forall w, bytes8 l -> exists w', putcs_to 1 l w = UOk tt w' /\ rest w' = rest w /\ out w' = out w ++ l.
Proof.
  induction l as [|c l IH]; intros w Hl; [exists w; now rewrite app_nil_r |]. apply Forall_cons in Hl as [Hc Hl]. cbn [putcs_to]. unfold putc, ubind.
  unfold u8. rewrite Z.mod_small by exact Hc. destruct (write_run [c] w) as (w1 & -> & Hr & Ho). cbn. destruct (IH w1 Hl) as (w' & -> & Hr' & Ho').
  exists w'. rewrite Hr', Ho', Ho, <- app_assoc. auto.
Qed.

Lemma vprintf_run fuel fmt : forall i pct ap o w, rendered fuel fmt i pct ap = Some o -> bytes8 o ->
  exists w', vprintf_loop fuel 1 fmt i pct ap w = UOk tt w' /\ rest w' = rest w /\ out w' = out w ++ o.
Proof.
  induction fuel as [|fuel IH]; intros i pct ap o w Hr Ho; [discriminate |]. cbn [rendered vprintf_loop] in *.
  destruct (chr fmt i =? 0); [injection Hr as <-; exists w; now rewrite app_nil_r |]. destruct (negb pct).
  - destruct (chr fmt i =? 37); [eauto |]. destruct (rendered fuel fmt (i + 1) false ap) as [o'|] eqn:E; [| discriminate]. injection Hr as <-.
    apply (Forall_app _ [_]) in Ho as [H1 H2]. destruct (putcs_run [chr fmt i] w H1) as (w1 & E1 & Hr1 & Ho1). cbn in E1. unfold ubind in *.
    destruct (putc 1 (chr fmt i) w) as [[] w1'| | | |]; try discriminate. injection E1 as ->. destruct (IH _ _ _ _ w1 E H2) as (w' & -> & Hr' & Ho').
    exists w'. rewrite Hr', Ho', Ho1, <- app_assoc. auto.
  - destruct (uconversion _ _ _ ap) as [[[o1 ap'] skip]|]; [| discriminate]. cbn [and_then] in Hr.
    destruct (rendered fuel fmt (i + skip + 1) false ap') as [o'|] eqn:E; [| discriminate]. injection Hr as <-.
    apply Forall_app in Ho as [H1 H2]. unfold ubind. destruct (putcs_run o1 w H1) as (w1 & -> & Hr1 & Ho1).
    destruct (IH _ _ _ _ w1 E H2) as (w' & -> & Hr' & Ho'). exists w'. rewrite Hr', Ho', Ho1, <- app_assoc. auto.
Qed.

(** ** cat *)

Lemma read_end n w : 0 < n -> rest w = [] -> exists w', read fd n w = UOk (0, []) w' /\ rest w' = [] /\ out w' = out w.
Proof. intros Hn Hr. unfold read. destruct (st_end _ _ _ Hs n w Hn Hr) as (w' & -> & ?). eauto. Qed.

Lemma read_some n w : 0 < n -> rest w <> [] -> exists b w', read fd n w = UOk (Z.of_nat (length b), b) w' /\
  (0 < length b)%nat /\ Z.of_nat (length b) <= n /\ rest w = b ++ rest w' /\ out w' = out w.
Proof.
  intros Hn Hr. unfold read. destruct (st_read _ _ _ Hs n w Hn Hr) as (b & w' & -> & Hne & ?). exists b, w'. split_and!; try tauto.
  destruct b; [easy | cbn; lia].
Qed.

Lemma cat_run fuel : forall w, (length (rest w) < fuel)%nat -> exists w', cat fuel fd w = UOk tt w' /\ rest w' = [] /\ out w' = out w ++ rest w.
Proof.
  induction fuel as [|fuel IH]; intros w Hf; [lia |]. cbn [cat]. unfold ubind at 1. destruct (decide (rest w = [])) as [Er | Er].
  - destruct (read_end 512 w ltac:(lia) Er) as (w' & -> & Hr & Ho). cbn. exists w'. rewrite Er, app_nil_r. auto.
  - destruct (read_some 512 w ltac:(lia) Er) as (b & w1 & -> & Hb & _ & Hr & Ho). rewrite (proj2 (Z.ltb_lt 0 _)) by lia. unfold ubind.
    destruct (write_run b w1) as (w2 & -> & Hr2 & Ho2). rewrite Z.eqb_refl. cbn [negb].
    destruct (IH w2) as (w' & -> & Hr' & Ho'); [rewrite Hr2; rewrite Hr, length_app in Hf; lia |].
    exists w'. rewrite Ho', Hr2, Ho2, Ho, Hr, <- app_assoc. auto.
Qed.

(** ** wc *)

Lemma wc_loop_run fuel : forall x w, (length (rest w) < fuel)%nat ->
  exists w', wc_loop fuel fd x w = UOk (fold_left wc_char (rest w) x) w' /\ rest w' = [] /\ out w' = out w.
Proof.
  induction fuel as [|fuel IH]; intros x w Hf; [lia |]. cbn [wc_loop]. unfold ubind at 1. destruct (decide (rest w = [])) as [Er | Er].
  - destruct (read_end 512 w ltac:(lia) Er) as (w' & -> & Hr & Ho). cbn. exists w'. rewrite Er. auto.
  - destruct (read_some 512 w ltac:(lia) Er) as (b & w1 & -> & Hb & _ & Hr & Ho). rewrite (proj2 (Z.ltb_lt 0 _)) by lia.
    destruct (IH (fold_left wc_char b x) w1) as (w' & -> & Hr' & Ho'); [rewrite Hr, length_app in Hf; lia |].
    exists w'. rewrite Hr, fold_left_app. split_and!; auto. congruence.
Qed.

Lemma bytes8_dec ds : Forall (fun c => 48 <= c <= 57) ds -> bytes8 ds.
Proof. intros Hd. apply (Forall_impl _ _ _ Hd). intros c Hc. lia. Qed.

Lemma wc_run fuel name w : (length (rest w) < fuel)%nat -> Z.of_nat (length (rest w)) < 2 ^ 31 -> bytes8 name ->
  exists w' dl dw dc, wc fuel fd name w = UOk tt w' /\ rest w' = [] /\
    uprintint (count_lines (rest w)) 10 true = Some dl /\ uprintint (count_words (rest w)) 10 true = Some dw /\
    uprintint (Z.of_nat (length (rest w))) 10 true = Some dc /\
    out w' = out w ++ dl ++ [32] ++ dw ++ [32] ++ dc ++ [32] ++ name ++ [10].
Proof.
  intros Hf Hn Hname. unfold wc, ubind. destruct (wc_loop_run fuel (Wc 0 0 0 false) w Hf) as (w1 & -> & Hr & Ho).
  destruct (wc_fold (rest w) [] 0 0 0) as (b & E); [lia | lia | lia |]. cbn [bool_decide] in E. change (bool_decide ([] <> [] :> list Z)) with false in E.
  rewrite E. cbn [wc_l wc_w wc_c]. rewrite Z.add_0_l, Z.sub_0_r, !Z.add_0_l. fold (count_words (rest w)).
  pose proof (count_words_le (rest w)). pose proof (count_lines_le (rest w)).
  destruct (uprintint_dec (count_lines (rest w))) as (dl & El & Hl & _); [lia |].
  destruct (uprintint_dec (count_words (rest w))) as (dw & Ew & Hw & _); [lia |].
  destruct (uprintint_dec (Z.of_nat (length (rest w)))) as (dc & Ec & Hc & _); [lia |].
  assert (Er : rendered 13 (bytes_of ("%d %d %d %s" ++ NL)) 0 false [VInt (count_lines (rest w)); VInt (count_words (rest w)); VInt (Z.of_nat (length (rest w))); VStr (Some name)]
    = Some (dl ++ [32] ++ dw ++ [32] ++ dc ++ [32] ++ name ++ [10])) by (now apply wc_rendered).
  destruct (vprintf_run _ _ _ _ _ _ w1 Er) as (w' & Ev & Hr' & Ho').
  { assert (H32 : bytes8 [32]) by (repeat constructor; lia). assert (H10 : bytes8 [10]) by (repeat constructor; lia).
    unfold bytes8 in *. rewrite !Forall_app. split_and!; try assumption; now apply bytes8_dec. }
  exists w', dl, dw, dc. split; [exact Ev |]. split; [congruence |]. do 3 (split; [assumption |]). now rewrite Ho', Ho.
Qed.

End specs.

(** ** The contracts *)

(** [cat] copies the whole of a stream to the standard output. *)
Theorem cat_spec {W} `{Sys W} fd rest out fuel w : streams fd rest out -> (length (rest w) < fuel)%nat ->
  exists w', cat fuel fd w = UOk tt w' /\ rest w' = [] /\ out w' = out w ++ rest w.
Proof. intros Hs. apply (cat_run _ _ _ Hs). Qed.

(** [wc] prints the number of newlines, of maximal runs of characters that are
    not white space, and of characters of the whole stream, whatever the pieces
    in which it is read, followed by the name. *)
Theorem wc_spec {W} `{Sys W} fd rest out fuel name w : streams fd rest out ->
  (length (rest w) < fuel)%nat -> Z.of_nat (length (rest w)) < 2 ^ 31 -> bytes8 name ->
  exists w' dl dw dc, wc fuel fd name w = UOk tt w' /\ rest w' = [] /\
    uprintint (count_lines (rest w)) 10 true = Some dl /\ uprintint (count_words (rest w)) 10 true = Some dw /\
    uprintint (Z.of_nat (length (rest w))) 10 true = Some dc /\
    out w' = out w ++ dl ++ [32] ++ dw ++ [32] ++ dc ++ [32] ++ name ++ [10].
Proof. intros Hs. apply (wc_run _ _ _ Hs). Qed.

(** C39: Every text splits into lines that [grep] can find, which end in a newline,
    have no NUL and at most 1022 characters, and a tail that starts with no such line
    (it may be empty, or a last line without a newline).  [grep] prints exactly
    those of the lines that match the pattern, in order, whatever the pieces in
    which the text is read; it reads at most 1023 bytes of the tail and prints none
    of it, and keeps the size of its buffer. *)
Theorem grep_spec {W} `{Sys W} fd rest out fuel pattern buf w : streams fd rest out -> reads_nothing fd rest out ->
  Z.of_nat (length buf) = GREPBUF -> (length (rest w) < fuel)%nat ->
  exists buf' w' lines tail, grep fuel pattern fd buf w = UOk buf' w' /\ length buf' = length buf /\
    rest w = concat (map (fun l => l ++ [10]) lines) ++ tail /\ Forall line_ok lines /\ no_line tail /\
    rest w' = drop 1023 tail /\ out w' = out w ++ concat (map (fun l => l ++ [10]) (List.filter (match_ pattern) lines)).
Proof.
  intros Hs Hz Hb Hf. destruct (grep_loop_run fd rest out pattern Hs Hz fuel [] buf w) as (buf' & w' & E & Hl & Hr & Ho); auto using unfinished_nil; [cbn; lia |].
  destruct (grepped_lines pattern (rest w)) as (lines & tail & Ed & Hok & Hno & r & Eg). rewrite Eg in Hr, Ho. exists buf', w', lines, tail. now split_and!.
Qed.

(** A stream that is handed out at most three bytes at a time. *)
Module Demo.
Record world := World { w_in : list Z; w_out : list Z }.
#[local] Instance demo_sys : Sys world := {|
  sys_read := fun fd n w => let b := take (Z.to_nat (Z.min n 3)) (w_in w) in (Z.of_nat (length b), b, World (drop (Z.to_nat (Z.min n 3)) (w_in w)) (w_out w));
  sys_write := fun fd b w => (Z.of_nat (length b), World (w_in w) (w_out w ++ b));
  sys_open := fun _ _ w => (-1, w); sys_close := fun _ w => (0, w); sys_sbrk := fun _ w => (-1, w) |}.

Lemma demo_streams : streams 0 w_in w_out.
Proof.
  split.
  - intros n w Hn E. exists (World [] (w_out w)). cbn. rewrite E. now rewrite take_nil, drop_nil.
  - intros n w Hn E. eexists _, _. split; [reflexivity |]. cbn. split_and!; [| | symmetry; apply take_drop | reflexivity].
    + destruct (w_in w); [easy |]. destruct (Z.to_nat (Z.min n 3)) eqn:En; [lia | discriminate].
    + rewrite length_take. lia.
  - intros b w. eexists. split; [reflexivity |]. auto.
Qed.

Definition demo : world := World (bytes_of "one two" ++ [10] ++ bytes_of "three" ++ [10]) [].
Definition printed (r : ures world unit) : list Z := match r with UOk _ w => w_out w | _ => [] end.

Lemma cat_spec_witness : (exists w', cat 20 0 demo = UOk tt w' /\ w_in w' = [] /\ w_out w' = w_out demo ++ w_in demo).
Proof. apply (cat_spec 0 w_in w_out 20 demo demo_streams). cbn. lia. Defined.

Lemma wc_spec_witness : printed (wc 20 0 (bytes_of "f") demo) = bytes_of "2 3 14 f" ++ [10] /\
  exists w' dl dw dc, wc 20 0 (bytes_of "f") demo = UOk tt w' /\ w_in w' = [] /\
    uprintint (count_lines (w_in demo)) 10 true = Some dl /\ uprintint (count_words (w_in demo)) 10 true = Some dw /\
    uprintint (Z.of_nat (length (w_in demo))) 10 true = Some dc /\
    w_out w' = w_out demo ++ dl ++ [32] ++ dw ++ [32] ++ dc ++ [32] ++ bytes_of "f" ++ [10].
Proof.
  split; [vm_compute; reflexivity |]. apply (wc_spec 0 w_in w_out 20 (bytes_of "f") demo demo_streams); [cbn; lia | cbn; lia |].
  constructor; [vm_compute; split; [discriminate | reflexivity] | constructor].
Defined.

Lemma demo_nothing : reads_nothing 0 w_in w_out.
Proof. intros w. now exists w; destruct w. Qed.

Definition grep_out (r : ures world (list Z)) : list Z := match r with UOk _ w => w_out w | _ => [] end.

Lemma grep_spec_witness : grep_out (grep 20 (bytes_of "t.*e") 0 (repeat 0 1024) demo) = bytes_of "three" ++ [10] /\
  exists buf' w' lines tail, grep 20 (bytes_of "t.*e") 0 (repeat 0 1024) demo = UOk buf' w' /\ length buf' = length (repeat 0 1024) /\
    w_in demo = concat (map (fun l => l ++ [10]) lines) ++ tail /\ Forall line_ok lines /\ no_line tail /\
    w_in w' = drop 1023 tail /\ w_out w' = w_out demo ++ concat (map (fun l => l ++ [10]) (List.filter (match_ (bytes_of "t.*e")) lines)).
Proof.
  split; [vm_compute; reflexivity |]. apply (grep_spec 0 w_in w_out 20 (bytes_of "t.*e") (repeat 0 1024) demo demo_streams demo_nothing); [vm_compute; reflexivity | cbn; lia].
Defined.

End Demo.
