(* ===== verification/Shell.v ===== *)
(** * The shell (user/sh.c)

    The line is read into memory; the parser works on addresses in it and
    builds nodes that [malloc] gives, which point to each other.  [runcmd] walks
    over them with system calls.  The nodes are kept beside the memory: a
    pointer to a node is its position in the list of all nodes, 0 the null
    pointer. *)

From S2P Require Import Prelude Mem Printf User.

(** ** Process calls

    [sys_exec]: [None] when the program is replaced, the result otherwise. *)
Class Tasks (W : Type) := {
  sys_fork : W -> Z * W;
  sys_wait : W -> Z * W;
  sys_pipe : W -> option (Z * Z) * W;
  sys_dup : Z -> W -> Z * W;
  sys_chdir : list Z -> W -> Z * W;
  sys_exec : list Z -> list (list Z) -> W -> option Z * W }.

(** ** Commands *)

Definition MAXARGS : Z := 10.
Definition LINESZ : Z := 100.

(** [struct cmd] and its kinds. *)
Inductive node :=
| EXEC (argv eargv : list Z)
| REDIR (cmd file efile mode fd : Z)
| PIPE (left right : Z)
| LIST (left right : Z)
| BACK (cmd : Z).

(** The state of the shell: memory, nodes, how many blocks [malloc] can still
    give, and the world behind the system calls. *)
Record sh {W : Type} := Sh { sh_mem : memory; nodes : list node; blocks_left : nat; outside : W }.
Arguments sh : clear implicits.
Arguments Sh {W}.

Definition whitespace : list Z := [32; 9; 13; 10; 11].
Definition symbols : list Z := bytes_of "<|>&;()".

Definition isin (toks : list Z) (c : Z) : bool := match strchr toks c with Some _ => true | None => false end.

(** ** Tokens *)

(** [while(s < es && strchr(whitespace, *s)) s++] *)
Fixpoint skip_space (k : nat) (m : memory) (s es : Z) : Z :=
  match k with
  | O => s
  | S k' => if (s <? es) && isin whitespace (m s) then skip_space k' m (s + 1) es else s
  end.

(** [while(s < es && !strchr(whitespace, *s) && !strchr(symbols, *s)) s++] *)
Fixpoint skip_word (k : nat) (m : memory) (s es : Z) : Z :=
  match k with
  | O => s
  | S k' => if (s <? es) && negb (isin whitespace (m s)) && negb (isin symbols (m s)) then skip_word k' m (s + 1) es else s
  end.

Definition len (s es : Z) : nat := Z.to_nat (es - s).

(** The token, [*q], [*eq] and the new [*ps]. *)
Definition gettoken (m : memory) (s es : Z) : Z * Z * Z * Z :=
  let s := skip_space (len s es) m s es in
  let q := s in
  let c := m s in
  let '(ret, s) :=
    if c =? 0 then (c, s)
    else if isin (bytes_of "|();&<") c then (c, s + 1)
    else if c =? 62 then
      if m (s + 1) =? 62 then (43, s + 2) else (c, s + 1)
    else (97, skip_word (len s es) m s es) in
  (ret, q, s, skip_space (len s es) m s es).

(** The result and the new [*ps]. *)
Definition peek (m : memory) (s es : Z) (toks : list Z) : bool * Z :=
  let s := skip_space (len s es) m s es in
  (negb (m s =? 0) && isin toks (m s), s).

Section shell.
Context {W : Type} `{Sys W} `{Tasks W}.
Abbreviation S := (sh W).

Definition set_mem (m : memory) (x : S) : S := Sh m (nodes x) (blocks_left x) (outside x).
Definition set_nodes (l : list node) (x : S) : S := Sh (sh_mem x) l (blocks_left x) (outside x).
Definition set_outside (w : W) (x : S) : S := Sh (sh_mem x) (nodes x) (blocks_left x) w.

(** Library functions and system calls. *)
Definition io {A} (m : UM W A) : UM S A := fun x =>
  match m (outside x) with
  | UOk a w => UOk a (set_outside w x)
  | UExit n w => UExit n (set_outside w x)
  | UExec p v w => UExec p v (set_outside w x)
  | UFuel => UFuel
  | UUndef => UUndef
  end.

Definition mem_ : UM S memory := fun x => UOk (sh_mem x) x.
Definition store_byte (a v : Z) : UM S unit := fun x => UOk tt (set_mem (upd (sh_mem x) a v) x).

(** The string at [p], for the library and the kernel; all strings are parts of
    the line. *)
Definition str (m : memory) (p : Z) : list Z := bstr m p (Z.to_nat LINESZ).

Definition ufork : UM S Z := io (fun w => let '(r, w') := sys_fork w in UOk r w').
Definition uwait : UM S Z := io (fun w => let '(r, w') := sys_wait w in UOk r w').
Definition upipe : UM S (option (Z * Z)) := io (fun w => let '(r, w') := sys_pipe w in UOk r w').
Definition udup (fd : Z) : UM S Z := io (fun w => let '(r, w') := sys_dup fd w in UOk r w').
Definition uchdir (path : list Z) : UM S Z := io (fun w => let '(r, w') := sys_chdir path w in UOk r w').
Definition uexec (path : list Z) (argv : list (list Z)) : UM S Z := io (fun w =>
  match sys_exec path argv w with
  | (None, w') => UExec path argv w'
  | (Some r, w') => UOk r w'
  end).

Local Open Scope user_scope.

Definition upanic {A} (s : string) : UM S A :=
  io (fprintf 2 ("%s" ++ String (Ascii.ascii_of_nat 10) EmptyString) [VStr (Some (bytes_of s))]);; uexit 1.

Definition fork1 : UM S Z :=
  pid <- ufork;;
  if pid =? -1 then upanic "fork" else uret pid.

(** ** Constructors *)

(** [malloc], then [memset] and the fields; writing through a null pointer is
    undefined. *)
Definition new_node (n : node) : UM S Z := fun x =>
  match blocks_left x with
  | O => UUndef
  | Datatypes.S b => UOk (Z.of_nat (length (nodes x)) + 1) (Sh (sh_mem x) (nodes x ++ [n]) b (outside x))
  end.

Definition execcmd : UM S Z := new_node (EXEC (repeat 0 (Z.to_nat MAXARGS)) (repeat 0 (Z.to_nat MAXARGS))).
Definition redircmd (subcmd file efile mode fd : Z) : UM S Z := new_node (REDIR subcmd file efile mode fd).
Definition pipecmd (left right : Z) : UM S Z := new_node (PIPE left right).
Definition listcmd (left right : Z) : UM S Z := new_node (LIST left right).
Definition backcmd (subcmd : Z) : UM S Z := new_node (BACK subcmd).

Definition node_at (p : Z) : UM S node := fun x =>
  match nodes x !! Z.to_nat (p - 1) with Some n => UOk n x | None => UUndef end.

(** [cmd->argv[argc] = q; cmd->eargv[argc] = eq;] *)
Definition set_arg (cmd argc q eq : Z) : UM S unit := fun x =>
  match nodes x !! Z.to_nat (cmd - 1) with
  | Some (EXEC argv eargv) =>
      if (0 <=? argc) && (argc <? MAXARGS)
      then UOk tt (set_nodes (updZ (nodes x) (cmd - 1) (EXEC (updZ argv argc q) (updZ eargv argc eq))) x)
      else UUndef
  | _ => UUndef
  end.

(** ** The parser

    The functions return the command and the new [*ps].  The loops run at most
    as often as there are characters left. *)

Definition O_RDONLY : Z := 0.
Definition O_WRONLY : Z := 1.
Definition O_RDWR : Z := 2.
Definition O_CREATE : Z := 0x200.
Definition O_TRUNC : Z := 0x400.

Fixpoint redirs_loop (k : nat) (cmd s es : Z) : UM S (Z * Z) :=
  match k with
  | O => ufuel
  | Datatypes.S k' =>
      m <- mem_;;
      let '(b, s) := peek m s es (bytes_of "<>") in
      if b then
        let '(tok, _, _, s) := gettoken m s es in
        let '(t, q, eq, s) := gettoken m s es in
        if negb (t =? 97) then upanic "missing file for redirection"
        else
          cmd <- (if tok =? 60 then redircmd cmd q eq O_RDONLY 0
                  else if tok =? 62 then redircmd cmd q eq (Z.lor (Z.lor O_WRONLY O_CREATE) O_TRUNC) 1
                  else if tok =? 43 then redircmd cmd q eq (Z.lor O_WRONLY O_CREATE) 1
                  else uret cmd);;
          redirs_loop k' cmd s es
      else uret (cmd, s)
  end.
Definition parseredirs (cmd s es : Z) : UM S (Z * Z) := redirs_loop (Datatypes.S (len s es)) cmd s es.

(** The loop of [parseexec] over the arguments. *)
Fixpoint args_loop (k : nat) (cmd ret argc s es : Z) : UM S (Z * Z) :=
  match k with
  | O => ufuel
  | Datatypes.S k' =>
      m <- mem_;;
      let '(b, s) := peek m s es (bytes_of "|)&;") in
      if b then set_arg cmd argc 0 0;; uret (ret, s)
      else
        let '(tok, q, eq, s) := gettoken m s es in
        if tok =? 0 then set_arg cmd argc 0 0;; uret (ret, s)
        else if negb (tok =? 97) then upanic "syntax"
        else
          set_arg cmd argc q eq;;
          let argc := argc + 1 in
          if MAXARGS <=? argc then upanic "too many args"
          else
            x <- parseredirs ret s es;;
            args_loop k' cmd (fst x) argc (snd x) es
  end.

Fixpoint back_loop (k : nat) (cmd s es : Z) : UM S (Z * Z) :=
  match k with
  | O => ufuel
  | Datatypes.S k' =>
      m <- mem_;;
      let '(b, s) := peek m s es (bytes_of "&") in
      if b then
        let '(_, _, _, s) := gettoken m s es in
        cmd <- backcmd cmd;;
        back_loop k' cmd s es
      else uret (cmd, s)
  end.

Fixpoint parseline (fuel : nat) (s es : Z) : UM S (Z * Z) :=
  match fuel with
  | O => ufuel
  | Datatypes.S fuel' =>
      x <- parsepipe fuel' s es;;
      x <- back_loop (Datatypes.S (len (snd x) es)) (fst x) (snd x) es;;
      let '(cmd, s) := x in
      m <- mem_;;
      let '(b, s) := peek m s es (bytes_of ";") in
      if b then
        let '(_, _, _, s) := gettoken m s es in
        y <- parseline fuel' s es;;
        cmd <- listcmd cmd (fst y);;
        uret (cmd, snd y)
      else uret (cmd, s)
  end
with parsepipe (fuel : nat) (s es : Z) : UM S (Z * Z) :=
  match fuel with
  | O => ufuel
  | Datatypes.S fuel' =>
      x <- parseexec fuel' s es;;
      let '(cmd, s) := x in
      m <- mem_;;
      let '(b, s) := peek m s es (bytes_of "|") in
      if b then
        let '(_, _, _, s) := gettoken m s es in
        y <- parsepipe fuel' s es;;
        cmd <- pipecmd cmd (fst y);;
        uret (cmd, snd y)
      else uret (cmd, s)
  end
with parseexec (fuel : nat) (s es : Z) : UM S (Z * Z) :=
  match fuel with
  | O => ufuel
  | Datatypes.S fuel' =>
      m <- mem_;;
      let '(b, s) := peek m s es (bytes_of "(") in
      if b then parseblock fuel' s es
      else
        cmd <- execcmd;;
        x <- parseredirs cmd s es;;
        args_loop (Datatypes.S (len (snd x) es)) cmd (fst x) 0 (snd x) es
  end
with parseblock (fuel : nat) (s es : Z) : UM S (Z * Z) :=
  match fuel with
  | O => ufuel
  | Datatypes.S fuel' =>
      m <- mem_;;
      let '(b, s) := peek m s es (bytes_of "(") in
      if negb b then upanic "parseblock"
      else
        let '(_, _, _, s) := gettoken m s es in
        x <- parseline fuel' s es;;
        let '(cmd, s) := x in
        m <- mem_;;
        let '(b, s) := peek m s es (bytes_of ")") in
        if negb b then upanic "syntax - missing )"
        else
          let '(_, _, _, s) := gettoken m s es in
          parseredirs cmd s es
  end.

(** The loop of [nulterminate] over the arguments. *)
Fixpoint terminate_args (argv eargv : list Z) : UM S unit :=
  match argv, eargv with
  | a :: argv', e :: eargv' => if a =? 0 then uret tt else store_byte e 0;; terminate_args argv' eargv'
  | _, _ => uundef
  end.

Fixpoint nulterminate (fuel : nat) (cmd : Z) : UM S unit :=
  if cmd =? 0 then uret tt
  else
    match fuel with
    | O => ufuel
    | Datatypes.S fuel' =>
        n <- node_at cmd;;
        match n with
        | EXEC argv eargv => terminate_args argv eargv
        | REDIR c _ efile _ _ => nulterminate fuel' c;; store_byte efile 0
        | PIPE l r => nulterminate fuel' l;; nulterminate fuel' r
        | LIST l r => nulterminate fuel' l;; nulterminate fuel' r
        | BACK c => nulterminate fuel' c
        end
    end.

(** Each function of the parser calls the next one, and a character is consumed
    on the way round. *)
Definition parse_fuel (n : Z) : nat := Z.to_nat (4 * n + 4).

Definition parsecmd (s : Z) : UM S Z :=
  m <- mem_;;
  match Mem.strlen (Z.to_nat LINESZ) m s with
  | None => uundef
  | Some n =>
      let es := s + n in
      x <- parseline (parse_fuel n) s es;;
      let '(cmd, s) := x in
      m <- mem_;;
      let '(_, s) := peek m s es [] in
      if negb (s =? es) then
        io (fprintf 2 ("leftovers: %s" ++ String (Ascii.ascii_of_nat 10) EmptyString) [VStr (Some (str m s))]);;
        upanic "syntax"
      else
        nulterminate (Z.to_nat cmd) cmd;;
        uret cmd
  end.

(** ** Running commands *)

Definition NLs : string := String (Ascii.ascii_of_nat 10) EmptyString.

(** The strings of [argv], up to its null pointer. *)
Fixpoint arg_strings (m : memory) (argv : list Z) : list (list Z) :=
  match argv with
  | [] => []
  | a :: argv' => if a =? 0 then [] else str m a :: arg_strings m argv'
  end.

(** The type of a node is always one of the five, so [panic("runcmd")] is not
    reached. *)
Fixpoint runcmd (fuel : nat) (cmd : Z) : UM S unit :=
  if cmd =? 0 then uexit 1
  else
    match fuel with
    | O => ufuel
    | Datatypes.S fuel' =>
        n <- node_at cmd;;
        m <- mem_;;
        match n with
        | EXEC argv _ =>
            if nthZ 0 argv 0 =? 0 then uexit 1
            else
              uexec (str m (nthZ 0 argv 0)) (arg_strings m argv);;
              io (fprintf 2 ("exec %s failed" ++ NLs) [VStr (Some (str m (nthZ 0 argv 0)))]);;
              uexit 0
        | REDIR c file _ mode fd =>
            io (close fd);;
            r <- io (open (str m file) mode);;
            if r <? 0 then
              io (fprintf 2 ("open %s failed" ++ NLs) [VStr (Some (str m file))]);;
              uexit 1
            else
              runcmd fuel' c;;
              uexit 0
        | LIST lc rc =>
            r <- fork1;;
            (if r =? 0 then runcmd fuel' lc else uret tt);;
            uwait;;
            runcmd fuel' rc;;
            uexit 0
        | PIPE lc rc =>
            p <- upipe;;
            match p with
            | None => upanic "pipe"
            | Some (p0, p1) =>
                r <- fork1;;
                (if r =? 0 then
                   io (close 1);;
                   udup p1;;
                   io (close p0);;
                   io (close p1);;
                   runcmd fuel' lc
                 else uret tt);;
                r <- fork1;;
                (if r =? 0 then
                   io (close 0);;
                   udup p0;;
                   io (close p0);;
                   io (close p1);;
                   runcmd fuel' rc
                 else uret tt);;
                io (close p0);;
                io (close p1);;
                uwait;;
                uwait;;
                uexit 0
            end
        | BACK c =>
            r <- fork1;;
            (if r =? 0 then runcmd fuel' c else uret tt);;
            uexit 0
        end
    end.

(** The bytes that [gets] stores one after the other. *)
Fixpoint put_bytes (m : memory) (a : Z) (l : list Z) : memory :=
  match l with
  | [] => m
  | c :: l' => put_bytes (upd m a c) (a + 1) l'
  end.

(** [buf] is the address of the line. *)
Definition getcmd (buf nbuf : Z) : UM S Z :=
  io (write 2 (bytes_of "$ "));;
  m <- mem_;;
  (fun x => UOk tt (set_mem (memset m buf 0 nbuf) x));;
  l <- io (gets nbuf);;
  m <- mem_;;
  (fun x => UOk tt (set_mem (put_bytes m buf (l ++ [0])) x));;
  m <- mem_;;
  if m buf =? 0 then uret (-1) else uret 0.

(** [open("console")] until the descriptor is at least 3. *)
Fixpoint open_console (k : nat) : UM S unit :=
  match k with
  | O => ufuel
  | Datatypes.S k' =>
      fd <- io (open (bytes_of "console") O_RDWR);;
      if fd <? 0 then uret tt
      else if 3 <=? fd then io (close fd);; uret tt
      else open_console k'
  end.

Definition is_cd (m : memory) (buf : Z) : bool :=
  (m buf =? 99) && (m (buf + 1) =? 100) && (m (buf + 2) =? 32).

Fixpoint main_loop (k : nat) (buf : Z) : UM S unit :=
  match k with
  | O => ufuel
  | Datatypes.S k' =>
      r <- getcmd buf LINESZ;;
      if r <? 0 then uexit 0
      else
        m <- mem_;;
        if is_cd m buf then
          match Mem.strlen (Z.to_nat LINESZ) m buf with
          | None => uundef
          | Some n =>
              store_byte (buf + (n - 1)) 0;;
              m <- mem_;;
              r <- uchdir (str m (buf + 3));;
              (if r <? 0 then io (fprintf 2 ("cannot cd %s" ++ NLs) [VStr (Some (str m (buf + 3)))]) else uret tt);;
              main_loop k' buf
          end
        else
          pid <- fork1;;
          (if pid =? 0 then
             cmd <- parsecmd buf;;
             runcmd (Z.to_nat cmd) cmd
           else uret tt);;
          uwait;;
          main_loop k' buf
  end.

Definition sh_main (k : nat) (buf : Z) : UM S unit :=
  open_console k;;
  main_loop k buf.

End shell.
