(* ===== verification/ShellSpec.v ===== *)
(** * The shell: grammar, parser and execution

    The parser accepts exactly the lines of a grammar over tokens, and the nodes
    it builds with the strings it terminates are the tree of the derivation. *)

From S2P Require Import Prelude Mem Printf User Shell.

(** ** Tokens of a line *)

Inductive token := Sym (c : Z) | Append | Word (w : list Z).

Definition is_space (c : Z) : bool := isin whitespace c.
Definition is_symbol (c : Z) : bool := isin symbols c.
Definition wordchar (c : Z) : bool := negb (is_space c) && negb (is_symbol c) && negb (c =? 0).

Definition flush (cur : list Z) : list token := match cur with [] => [] | _ => [Word cur] end.

Fixpoint tokens (cur l : list Z) : list token :=
  match l with
  | [] => flush cur
  | c :: l' =>
      if is_space c then flush cur ++ tokens [] l'
      else if is_symbol c then
        match l' with
        | d :: l'' => if (c =? 62) && (d =? 62) then flush cur ++ Append :: tokens [] l'' else flush cur ++ Sym c :: tokens [] l'
        | [] => flush cur ++ [Sym c]
        end
      else tokens (cur ++ [c]) l'
  end.

(** ** Tokens in memory *)

(** A token with its place. *)
Inductive ptoken := PSym (c : Z) | PAppend | PWord (q eq : Z).

(** The characters from [s] to [es]. *)
Definition chars (m : memory) (s es : Z) : list Z := map m (seqZ s (es - s)).

Definition content (m : memory) (t : ptoken) : token :=
  match t with PSym c => Sym c | PAppend => Append | PWord q eq => Word (chars m q eq) end.

Record text (m : memory) (s es : Z) : Prop := {
  tx_le : s <= es;
  tx_end : m es = 0;
  tx_chars : forall i, s <= i < es -> m i <> 0 }.

(** The code of a token, and the character it starts with. *)
Definition code (t : ptoken) : Z := match t with PSym c => c | PAppend => 43 | PWord _ _ => 97 end.

Definition place (m : memory) (t : ptoken) (q eq : Z) : Prop :=
  match t with
  | PSym c => m q = c /\ is_symbol c = true
  | PAppend => m q = 62
  | PWord q' eq' => q' = q /\ eq' = eq /\ q < eq /\ (forall i, q <= i < eq -> wordchar (m i) = true) /\ wordchar (m eq) = false
  end.

(** What [gettoken] and [peek] see. *)
Inductive lexed (m : memory) (es : Z) : Z -> list ptoken -> Prop :=
| lexed_nil s : s <= es -> skip_space (len s es) m s es = es -> lexed m es s []
| lexed_cons s t ts q eq s' :
    skip_space (len s es) m s es = q -> place m t q eq -> gettoken m s es = (code t, q, eq, s') ->
    s <= q -> q < eq -> eq <= s' -> s' <= es -> lexed m es s' ts -> lexed m es s (t :: ts).

Lemma skip_space_spec m es : forall k s, (len s es <= k)%nat -> s <= es ->
  exists q, skip_space k m s es = q /\ s <= q <= es /\ (forall i, s <= i < q -> is_space (m i) = true) /\ (q < es -> is_space (m q) = false).
Proof.
  unfold len. induction k as [|k IH]; intros s Hk Hs; cbn [skip_space].
  - exists s. split_and!; try lia. 
  - destruct (Z.ltb_spec s es) as [Hlt | Hge]; cbn [andb]; [| exists s; split_and!; lia].
    destruct (isin whitespace (m s)) eqn:E; [| exists s; split_and!; try lia; auto].
    destruct (IH (s + 1)) as (q & Eq & Hq & Hin & Hout); [lia | lia |]. exists q. split_and!; auto; [lia | lia |].
    intros i Hi. destruct (decide (i = s)) as [-> |]; [exact E | apply Hin; lia].
Qed.

Lemma skip_word_spec m es : forall k s, (len s es <= k)%nat -> s <= es -> (forall i, s <= i < es -> m i <> 0) ->
  exists q, skip_word k m s es = q /\ s <= q <= es /\ (forall i, s <= i < q -> wordchar (m i) = true) /\ (q < es -> wordchar (m q) = false).
Proof.
  unfold len. induction k as [|k IH]; intros s Hk Hs Hz; cbn [skip_word].
  - exists s. split_and!; try lia.
  - destruct (Z.ltb_spec s es) as [Hlt | Hge]; cbn [andb]; [| exists s; split_and!; lia].
    assert (Hnz : (m s =? 0) = false) by (apply Z.eqb_neq, Hz; lia).
    destruct (negb (isin whitespace (m s)) && negb (isin symbols (m s))) eqn:E.
    + destruct (IH (s + 1)) as (q & Eq & Hq & Hin & Hout); [lia | lia | intros i Hi; apply Hz; lia |]. exists q. split_and!; auto; [lia | lia |].
      intros i Hi. destruct (decide (i = s)) as [-> |]; [| apply Hin; lia]. unfold wordchar, is_space, is_symbol. now rewrite E, Hnz.
    + exists s. split_and!; try lia. intros _. unfold wordchar, is_space, is_symbol. now rewrite E.
Qed.

Lemma chars_cons m s es : s < es -> chars m s es = m s :: chars m (s + 1) es.
Proof. intros Hs. unfold chars. rewrite seqZ_cons by lia. cbn [map]. do 3 f_equal; lia. Qed.
Lemma chars_nil m s es : es <= s -> chars m s es = [].
Proof. intros Hs. unfold chars. now rewrite seqZ_nil by lia. Qed.
Lemma chars_app m s q es : s <= q <= es -> chars m s es = chars m s q ++ chars m q es.
Proof. intros Hq. unfold chars. rewrite <- map_app. f_equal. replace (es - s) with ((q - s) + (es - q)) by lia. rewrite seqZ_app by lia. do 2 f_equal; lia. Qed.

Lemma isin_elem toks c : isin toks c = true <-> c ∈ toks.
Proof.
  unfold isin. induction toks as [|x l IH]; cbn [strchr]; [split; [discriminate | inversion 1] |].
  destruct (Z.eqb_spec x c) as [-> | Hn]; [split; [intros _; apply list_elem_of_here | reflexivity] |]. rewrite elem_of_cons.
  destruct (strchr l c) eqn:E; cbn [option_map]; (split; [intros Ht; try discriminate Ht; right; now apply IH | intros [-> | Ht]; [contradiction | apply IH in Ht; now try discriminate Ht]]).
Qed.

Lemma symbol_cases c : is_symbol c = isin (bytes_of "|();&<") c || (c =? 62).
Proof.
  apply eq_true_iff_eq. rewrite orb_true_iff, Z.eqb_eq. unfold is_symbol. rewrite !isin_elem. unfold symbols, bytes_of. cbn. rewrite !elem_of_cons. intuition lia.
Qed.

Lemma symbol_not_space c : is_symbol c = true -> is_space c = false.
Proof.
  intros Hs. apply not_true_iff_false. intros Hw. apply isin_elem in Hw. assert (Hf : Forall (fun c => is_symbol c = false) whitespace) by (repeat constructor).
  rewrite Forall_forall in Hf. rewrite (Hf c Hw) in Hs. discriminate Hs.
Qed.

Lemma tokens_space l1 l : Forall (fun c => is_space c = true) l1 -> tokens [] (l1 ++ l) = tokens [] l.
Proof. induction 1 as [|c l1 Hc _ IH]; [reflexivity |]. cbn [app tokens]. rewrite Hc. exact IH. Qed.

Lemma tokens_word w l : forall cur, Forall (fun c => wordchar c = true) w -> tokens cur (w ++ l) = tokens (cur ++ w) l.
Proof.
  induction w as [|c w IH]; intros cur Hw; [now rewrite app_nil_r |]. apply Forall_cons in Hw as [Hc Hw]. cbn [app tokens]. unfold wordchar in Hc.
  apply andb_true_iff in Hc as [Hc _]. apply andb_true_iff in Hc as [H1 H2]. rewrite (proj1 (negb_true_iff _) H1), (proj1 (negb_true_iff _) H2), IH by exact Hw. now rewrite <- app_assoc.
Qed.

Lemma tokens_end cur l : cur <> [] -> (forall c, head l = Some c -> wordchar c = false /\ c <> 0) -> tokens cur l = Word cur :: tokens [] l.
Proof.
  intros Hc Hl. assert (Hf : flush cur = [Word cur]) by now destruct cur. destruct l as [|c l]; cbn [tokens]; rewrite Hf; [reflexivity |].
  destruct (Hl c eq_refl) as [Hw Hz]. unfold wordchar in Hw. rewrite (proj2 (Z.eqb_neq c 0) Hz), andb_true_r in Hw. destruct (is_space c); [reflexivity |].
  destruct (is_symbol c); [| discriminate Hw]. destruct l as [|d l]; [reflexivity |]. destruct ((c =? 62) && (d =? 62)); reflexivity.
Qed.

Lemma chars_Forall (P : Z -> Prop) m s es : (forall i, s <= i < es -> P (m i)) -> Forall P (chars m s es).
Proof. intros Hp. apply Forall_forall. intros c Hc. apply list_elem_of_fmap in Hc as (i & -> & Hi). apply elem_of_seqZ in Hi. apply Hp. lia. Qed.

Lemma chars_head m s es c : head (chars m s es) = Some c -> s < es /\ c = m s.
Proof. destruct (decide (s < es)) as [Hs |]; [rewrite chars_cons by exact Hs; now intros [= <-] | rewrite chars_nil by lia; discriminate]. Qed.

(** One token: what [gettoken] finds is the first token of the line. *)
Lemma gettoken_step m s es q : text m s es -> skip_space (len s es) m s es = q -> s <= q < es -> is_space (m q) = false ->
  exists t eq s', place m t q eq /\ gettoken m s es = (code t, q, eq, s') /\ q < eq <= s' /\ s' <= es /\
    tokens [] (chars m q es) = content m t :: tokens [] (chars m s' es).
Proof.
  intros [T1 T2 T3] Eq Hq Hsp. unfold gettoken. rewrite Eq. assert (Hz : (m q =? 0) = false) by (apply Z.eqb_neq, T3; lia). rewrite Hz.
  assert (Hskip : forall e, q < e <= es -> exists s', skip_space (len e es) m e es = s' /\ e <= s' <= es /\ tokens [] (chars m e es) = tokens [] (chars m s' es)).
  { intros e He. destruct (skip_space_spec m es (len e es) e) as (s' & E & Hs' & Hin & _); [lia | lia |]. exists s'. split_and!; [exact E | lia | lia |].
    rewrite (chars_app m e s' es) by lia. apply tokens_space, chars_Forall. exact Hin. }
  rewrite (chars_cons m q es) by lia. cbn [tokens]. rewrite Hsp. pose proof (symbol_cases (m q)) as Hsym.
  destruct (isin (bytes_of "|();&<") (m q)) eqn:E1; cbn [orb] in Hsym.
  - destruct (Hskip (q + 1)) as (s' & -> & Hs' & Et); [lia |]. exists (PSym (m q)), (q + 1), s'. rewrite Hsym. split_and!; try lia; try reflexivity; [now split |].
    rewrite Et. assert ((m q =? 62) = false) as -> by (apply Z.eqb_neq; intros Ec; rewrite Ec in E1; discriminate E1). cbn [andb flush app].
    destruct (chars m (q + 1) es) as [|d l] eqn:El; [| now rewrite <- Et]. now rewrite <- Et.
  - destruct (Z.eqb_spec (m q) 62) as [E62 | E62]; rewrite Hsym; cbn [andb].
    + destruct (Z.eqb_spec (m (q + 1)) 62) as [Ed | Ed].
      * assert (q + 1 < es) by (destruct (decide (q + 1 = es)) as [Ee |]; [rewrite Ee, T2 in Ed; discriminate Ed | lia]).
        destruct (Hskip (q + 2)) as (s' & -> & Hs' & Et); [lia |]. exists PAppend, (q + 2), s'. split_and!; try lia; try reflexivity; [exact E62 |].
        rewrite (chars_cons m (q + 1) es) by lia. rewrite Ed. cbn [flush app]. replace (q + 1 + 1) with (q + 2) by lia. now rewrite Et.
      * destruct (Hskip (q + 1)) as (s' & -> & Hs' & Et); [lia |]. exists (PSym (m q)), (q + 1), s'. rewrite Et. split_and!; try lia; try (rewrite E62; reflexivity); [now split |].
        cbn [flush app content]. destruct (chars m (q + 1) es) as [|d l] eqn:El; [now rewrite <- Et |]. rewrite <- Et.
        assert ((d =? 62) = false) as ->; [| reflexivity]. apply Z.eqb_neq. destruct (chars_head m (q + 1) es d) as [_ ->]; [now rewrite El | exact Ed].
    + destruct (skip_word_spec m es (len q es) q) as (e & E & He & Hin & Hout); [lia | lia | intros i Hi; apply T3; lia |]. rewrite E.
      assert (Hqe : q < e).
      { destruct (decide (q = e)) as [<- |]; [| lia]. specialize (Hout ltac:(lia)). unfold wordchar in Hout. now rewrite Hsp, Hsym, Hz in Hout. }
      destruct (Hskip e) as (s' & -> & Hs' & Et); [lia |]. exists (PWord q e), e, s'. split_and!; try lia; try reflexivity.
      * split_and!; auto. destruct (decide (e = es)) as [-> |]; [| apply Hout; lia]. unfold wordchar. rewrite T2. apply andb_false_r.
      * rewrite <- Et. cbn [flush content]. replace (m q :: nil) with (chars m q (q + 1)) by (rewrite chars_cons, chars_nil by lia; reflexivity). cbn [app].
        rewrite (chars_app m (q + 1) e es), tokens_word by (try lia; apply chars_Forall; intros i Hi; apply Hin; lia). rewrite <- (chars_app m q (q + 1) e) by lia.
        apply tokens_end; [rewrite chars_cons by lia; discriminate |]. intros c Hc. apply chars_head in Hc as [Hlt ->]. split; [now apply Hout | apply T3; lia].
Qed.

Lemma lex_line m es : forall n s, (len s es <= n)%nat -> text m s es -> exists ts, lexed m es s ts /\ map (content m) ts = tokens [] (chars m s es).
Proof.
  induction n as [|n IH]; intros s Hn Ht.
  - assert (s = es) as -> by (destruct Ht; unfold len in Hn; lia). exists []. rewrite chars_nil by lia. split; [| reflexivity]. apply lexed_nil; [lia |]. unfold len. now rewrite Z.sub_diag.
  - destruct (skip_space_spec m es (len s es) s) as (q & Eq & Hq & Hin & Hout); [lia | apply Ht |].
    rewrite (chars_app m s q es), tokens_space by (try lia; apply chars_Forall; exact Hin).
    destruct (decide (q = es)) as [-> | Hne]; [exists []; split; [apply lexed_nil; [apply Ht | exact Eq] | now rewrite chars_nil by lia] |].
    destruct (gettoken_step m s es q Ht Eq) as (t & eq & s' & Hp & Hg & Hs' & He & Et); [lia | apply Hout; lia |].
    destruct (IH s') as (ts & Hts & Hc); [unfold len in *; lia | destruct Ht as [T1 T2 T3]; split; [lia | exact T2 | intros i Hi; apply T3; lia] |].
    exists (t :: ts). split; [apply (lexed_cons m es s t ts q eq s'); auto; lia |]. cbn [map]. now rewrite Hc, Et.
Qed.

Lemma skip_space_idem m s es q : s <= es -> skip_space (len s es) m s es = q -> skip_space (len q es) m q es = q.
Proof.
  intros Hs E. destruct (skip_space_spec m es (len s es) s) as (q' & E' & Hq & _ & Hout); [lia | exact Hs |]. assert (q' = q) as -> by congruence.
  destruct (len q es) as [|k] eqn:Ek; cbn [skip_space]; [reflexivity |]. unfold len in Ek. rewrite (proj2 (Z.ltb_lt q es)) by lia. unfold is_space in Hout. now rewrite Hout by lia.
Qed.

Definition starts (toks : list Z) (ts : list ptoken) : bool :=
  match ts with PSym c :: _ => isin toks c | PAppend :: _ => isin toks 62 | _ => false end.

Lemma lexed_le m es s ts : lexed m es s ts -> Z.of_nat (length ts) <= es - s.
Proof. induction 1; cbn [length]; lia. Qed.

Lemma peek_lexed m es s ts toks : m es = 0 -> Forall (fun c => is_symbol c = true) toks -> lexed m es s ts ->
  exists q, peek m s es toks = (starts toks ts, q) /\ lexed m es q ts.
Proof.
  intros He Htoks Hl. destruct Hl as [s Hs E | s t ts q eq s' E Hp Hg Hsq Hqe Hes Hse Hl]; unfold peek; rewrite E.
  - exists es. rewrite He. split; [reflexivity |]. apply lexed_nil; [lia |]. unfold len. now rewrite Z.sub_diag.
  - exists q. split.
    + f_equal. destruct t as [c | | q' eq']; cbn [place starts] in *.
      * destruct Hp as [-> Hc]. destruct (Z.eqb_spec c 0) as [-> |]; [discriminate Hc | reflexivity].
      * now rewrite Hp.
      * destruct Hp as (_ & _ & Hlt & Hw & _). specialize (Hw q ltac:(lia)). unfold wordchar in Hw. apply andb_true_iff in Hw as [Hw _]. apply andb_true_iff in Hw as [_ Hw].
        apply andb_false_iff. right. apply not_true_iff_false. intros Hi. apply isin_elem in Hi. rewrite Forall_forall in Htoks. now rewrite (Htoks _ Hi) in Hw.
    + assert (Hs : s <= es) by lia. pose proof (skip_space_idem m s es q Hs E) as Ei. apply (lexed_cons m es q t ts q eq s'); auto; [| lia].
      unfold gettoken in *. now rewrite E in Hg; rewrite Ei.
Qed.

Lemma gettoken_lexed m es s t ts : lexed m es s (t :: ts) -> exists q eq s', gettoken m s es = (code t, q, eq, s') /\ place m t q eq /\ lexed m es s' ts.
Proof. inversion 1; subst; eauto 8. Qed.

Lemma lexed_nil_skip m es s : lexed m es s [] -> skip_space (len s es) m s es = es.
Proof. now inversion 1. Qed.

Lemma gettoken_end m es s : m es = 0 -> lexed m es s [] -> exists q eq s', gettoken m s es = (0, q, eq, s') /\ lexed m es s' [].
Proof.
  intros He Hl. inversion Hl as [s0 Hs E | ]; subst. unfold gettoken. rewrite E, He. cbn [Z.eqb]. do 3 eexists. split; [reflexivity |].
  assert (Ee : skip_space (len es es) m es es = es) by (unfold len; now rewrite Z.sub_diag). rewrite Ee. apply lexed_nil; [lia | exact Ee].
Qed.

(** ** Trees

    What the parser builds, with the places of the words. *)

Inductive tree :=
| TExec (args : list (Z * Z))
| TRedir (t : tree) (q eq mode fd : Z)
| TPipe (a b : tree)
| TList (a b : tree)
| TBack (a : tree).

Definition redir : Type := Z * Z * Z * Z.
Definition wrap1 (t : tree) (r : redir) : tree := let '(q, eq, mode, fd) := r in TRedir t q eq mode fd.
Definition wrap (t : tree) (rs : list redir) : tree := fold_left wrap1 rs t.

(** ** A parser over tokens *)

Definition mode_of (t : ptoken) : option (Z * Z) :=
  match t with
  | PSym c => if c =? 60 then Some (O_RDONLY, 0) else if c =? 62 then Some (Z.lor (Z.lor O_WRONLY O_CREATE) O_TRUNC, 1) else None
  | PAppend => Some (Z.lor O_WRONLY O_CREATE, 1)
  | PWord _ _ => None
  end.

Fixpoint tredirs (ts : list ptoken) : option (list redir * list ptoken) :=
  match ts with
  | t :: ts' =>
      match mode_of t with
      | None => Some ([], ts)
      | Some (mode, fd) =>
          match ts' with
          | PWord q eq :: ts'' =>
              match tredirs ts'' with
              | Some (rs, rest) => Some ((q, eq, mode, fd) :: rs, rest)
              | None => None
              end
          | _ => None
          end
      end
  | [] => Some ([], [])
  end.

(** Words and redirections in any order, after the words [args] and the
    redirections [rs]. *)
Fixpoint titems (args : list (Z * Z)) (rs : list redir) (ts : list ptoken) : option (tree * list ptoken) :=
  match ts with
  | [] => Some (wrap (TExec args) rs, [])
  | PWord q eq :: ts' => if MAXARGS <=? Z.of_nat (length args) + 1 then None else titems (args ++ [(q, eq)]) rs ts'
  | t :: ts' =>
      match mode_of t with
      | Some (mode, fd) => match ts' with PWord q eq :: ts'' => titems args (rs ++ [(q, eq, mode, fd)]) ts'' | _ => None end
      | None => if starts (bytes_of "|)&;") ts then Some (wrap (TExec args) rs, ts) else None
      end
  end.

Fixpoint tback (t : tree) (ts : list ptoken) : tree * list ptoken :=
  match ts with
  | PSym c :: ts' => if c =? 38 then tback (TBack t) ts' else (t, ts)
  | _ => (t, ts)
  end.

(** The outer [None] is the end of the fuel, the inner one a syntax error. *)
Definition pbind (r : option (option (tree * list ptoken))) (f : tree -> list ptoken -> option (option (tree * list ptoken))) :=
  match r with
  | Some (Some (t, ts)) => f t ts
  | _ => r
  end.

Fixpoint tline (fuel : nat) (ts : list ptoken) : option (option (tree * list ptoken)) :=
  match fuel with
  | O => None
  | S f =>
      pbind (tpipe f ts) (fun t ts =>
      let '(t, ts) := tback t ts in
      if starts (bytes_of ";") ts then pbind (tline f (tail ts)) (fun t' ts => Some (Some (TList t t', ts)))
      else Some (Some (t, ts)))
  end
with tpipe (fuel : nat) (ts : list ptoken) : option (option (tree * list ptoken)) :=
  match fuel with
  | O => None
  | S f =>
      pbind (texec f ts) (fun t ts =>
      if starts (bytes_of "|") ts then pbind (tpipe f (tail ts)) (fun t' ts => Some (Some (TPipe t t', ts)))
      else Some (Some (t, ts)))
  end
with texec (fuel : nat) (ts : list ptoken) : option (option (tree * list ptoken)) :=
  match fuel with
  | O => None
  | S f => if starts (bytes_of "(") ts then tblock f ts else Some (titems [] [] ts)
  end
with tblock (fuel : nat) (ts : list ptoken) : option (option (tree * list ptoken)) :=
  match fuel with
  | O => None
  | S f =>
      pbind (tline f (tail ts)) (fun t ts =>
      if starts (bytes_of ")") ts then
        match tredirs (tail ts) with
        | Some (rs, rest) => Some (Some (wrap t rs, rest))
        | None => Some None
        end
      else Some None)
  end.

(** ** The nodes of a tree *)

Definition node_of (ns : list node) (p : Z) : option node := ns !! Z.to_nat (p - 1).

Definition zeros (n : nat) : list Z := repeat 0 (Z.to_nat MAXARGS - n).

Fixpoint repr (ns : list node) (p : Z) (t : tree) : Prop :=
  0 < p /\
  match t with
  | TExec args => node_of ns p = Some (EXEC (map fst args ++ zeros (length args)) (map snd args ++ zeros (length args))) /\ (length args < Z.to_nat MAXARGS)%nat
  | TRedir t q eq mode fd => exists c, node_of ns p = Some (REDIR c q eq mode fd) /\ c < p /\ repr ns c t
  | TPipe a b => exists l r, node_of ns p = Some (PIPE l r) /\ l < p /\ r < p /\ repr ns l a /\ repr ns r b
  | TList a b => exists l r, node_of ns p = Some (LIST l r) /\ l < p /\ r < p /\ repr ns l a /\ repr ns r b
  | TBack a => exists c, node_of ns p = Some (BACK c) /\ c < p /\ repr ns c a
  end.

(** The redirections [rs] around the command [e]. *)
Inductive chain (ns : list node) (e : Z) : list redir -> Z -> Prop :=
| chain_nil : chain ns e [] e
| chain_snoc rs c q eq mode fd p :
    chain ns e rs c -> node_of ns p = Some (REDIR c q eq mode fd) -> c < p -> chain ns e (rs ++ [(q, eq, mode, fd)]) p.

Lemma chain_le ns e rs p : chain ns e rs p -> e <= p.
Proof. induction 1; lia. Qed.

Lemma wrap_snoc t rs r : wrap t (rs ++ [r]) = wrap1 (wrap t rs) r.
Proof. apply fold_left_app. Qed.

Lemma repr_pos ns p t : repr ns p t -> 0 < p.
Proof. destruct t; now intros [? _]. Qed.

Lemma repr_wrap ns e rs p t : repr ns e t -> chain ns e rs p -> repr ns p (wrap t rs).
Proof.
  intros He. induction 1 as [|rs c q eq mode fd p Hc IH Hn Hlt]; [exact He |]. rewrite wrap_snoc. cbn. pose proof (repr_pos _ _ _ IH). split; [lia |]. now exists c.
Qed.

Lemma node_app ns l p n : node_of ns p = Some n -> node_of (ns ++ l) p = Some n.
Proof. apply lookup_app_l_Some. Qed.

Lemma repr_app ns l t : forall p, repr ns p t -> repr (ns ++ l) p t.
Proof.
  induction t as [args | t IH q eq mode fd | a IHa b IHb | a IHa b IHb | a IH]; intros p; cbn [repr]; intros [Hp Hr]; (split; [exact Hp |]).
  - destruct Hr as [E Hl]. split; [now apply node_app | exact Hl].
  - destruct Hr as (c & E & Hc & Hr). exists c. split_and!; auto using node_app.
  - destruct Hr as (u & v & E & Hu & Hv & Hra & Hrb). exists u, v. split_and!; auto using node_app.
  - destruct Hr as (u & v & E & Hu & Hv & Hra & Hrb). exists u, v. split_and!; auto using node_app.
  - destruct Hr as (c & E & Hc & Hr). exists c. split_and!; auto using node_app.
Qed.

Lemma node_chain_app ns l e rs p : chain ns e rs p -> chain (ns ++ l) e rs p.
Proof. induction 1; [constructor | econstructor; eauto using node_app]. Qed.

(** ** The parser builds the tree *)

(** Code that returns, whatever the world. *)
Definition returns {V A} (c : UM V A) : Prop := forall w, exists a w', c w = UOk a w'.

Lemma returns_bind {V A B} (c : UM V A) (f : A -> UM V B) : returns c -> (forall a, returns (f a)) -> returns (ubind c f).
Proof. intros Hc Hf w. destruct (Hc w) as (a & w' & E). unfold ubind. rewrite E. apply Hf. Qed.
Lemma returns_ret {V A} (a : A) : returns (V := V) (uret a).
Proof. intros w. now exists a, w. Qed.

Lemma returns_putc {W} `{Sys W} fd c : returns (V := W) (putc fd c).
Proof. unfold putc. apply returns_bind; [| intros _; apply returns_ret]. intros w. unfold write. destruct (sys_write fd [u8 c] w) as [r w']. eauto. Qed.

Lemma returns_putcs {W} `{Sys W} fd l : returns (V := W) (putcs_to fd l).
Proof. induction l as [|c l IH]; cbn [putcs_to]; [apply returns_ret |]. apply returns_bind; [apply returns_putc | intros _; exact IH]. Qed.

Ltac printed :=
  unfold fprintf, vprintf;
  match goal with |- context [VStr (Some ?v)] => let l := fresh in generalize v as l; intros l end;
  match goal with |- returns (vprintf_loop ?n ?fd ?f ?i ?b ?ap) => let n' := eval vm_compute in n in let f' := eval vm_compute in f in change (returns (vprintf_loop n' fd f' i b ap)) end;
  repeat (lazy -[ubind putc putcs_to uret returns]; first [apply returns_ret | apply returns_bind; [first [apply returns_putc | apply returns_putcs] | intros _]]).

Section parser.
Context {W : Type} `{Sys W} `{Tasks W}.
Abbreviation S := (sh W).
Implicit Types (x y : S) (m : memory).

Lemma io_returns {A} (c : UM W A) x : returns c -> exists a w, io c x = UOk a (set_outside w x).
Proof. intros Hc. unfold io. destruct (Hc (outside x)) as (a & w & ->). eauto. Qed.

Lemma panic_exits {A} s x : exists w, upanic (A := A) s x = UExit 1 (set_outside w x).
Proof.
  unfold upanic, ubind. destruct (io_returns (fprintf 2 ("%s" ++ String (Ascii.ascii_of_nat 10) EmptyString) [VStr (Some (bytes_of s))]) x) as (a & w & ->); [printed |]. now exists w.
Qed.

Lemma ubind_ok {V A B} (c : UM V A) (f : A -> UM V B) w a w' : c w = UOk a w' -> ubind c f w = f a w'.
Proof. intros E. unfold ubind. now rewrite E. Qed.
Lemma ubind_exit {V A B} (c : UM V A) (f : A -> UM V B) w n w' : c w = UExit n w' -> ubind c f w = UExit n w'.
Proof. intros E. unfold ubind. now rewrite E. Qed.

(** New nodes; the old ones stay. *)
Record ext x x' : Prop := {
  ex_mem : sh_mem x' = sh_mem x;
  ex_out : outside x' = outside x;
  ex_nodes : exists l, nodes x' = nodes x ++ l }.

Lemma ext_self x : ext x x.
Proof. split; auto. exists []. now rewrite app_nil_r. Qed.
Lemma ext_ext x y z : ext x y -> ext y z -> ext x z.
Proof. intros [M1 O1 [l1 N1]] [M2 O2 [l2 N2]]. split; [congruence | congruence |]. exists (l1 ++ l2). now rewrite N2, N1, app_assoc. Qed.
Lemma ext_length x y : ext x y -> Z.of_nat (length (nodes x)) <= Z.of_nat (length (nodes y)).
Proof. intros [_ _ [l ->]]. rewrite length_app. lia. Qed.
Lemma ext_repr x y p t : ext x y -> repr (nodes x) p t -> repr (nodes y) p t.
Proof. intros [_ _ [l ->]]. apply repr_app. Qed.
Lemma ext_chain x y e rs p : ext x y -> chain (nodes x) e rs p -> chain (nodes y) e rs p.
Proof. intros [_ _ [l ->]]. apply node_chain_app. Qed.

Definition last_node x : Z := Z.of_nat (length (nodes x)).
Definition left_ x : Z := Z.of_nat (blocks_left x).

Lemma new_node_run n x : 0 < left_ x ->
  exists x', new_node n x = UOk (last_node x + 1) x' /\ ext x x' /\ node_of (nodes x') (last_node x + 1) = Some n /\ last_node x' = last_node x + 1 /\ left_ x' = left_ x - 1.
Proof.
  unfold left_, last_node, new_node. destruct (blocks_left x) as [|b] eqn:E; [lia |]. intros _. eexists. split; [reflexivity |]. cbn. split_and!.
  - split; cbn; auto. now exists [n].
  - unfold node_of. rewrite lookup_app_r by lia. replace (Z.to_nat (Z.of_nat (length (nodes x)) + 1 - 1) - length (nodes x))%nat with O by lia. reflexivity.
  - rewrite length_app. cbn. lia.
  - lia.
Qed.

Lemma chain_cons ns c c1 q eq mode fd rs p : node_of ns c1 = Some (REDIR c q eq mode fd) -> c < c1 -> chain ns c1 rs p -> chain ns c ((q, eq, mode, fd) :: rs) p.
Proof.
  intros E Hc. induction 1 as [|rs c2 q2 eq2 mode2 fd2 p Hch IH E2 Hlt].
  - exact (chain_snoc ns c [] c q eq mode fd c1 (chain_nil _ _) E Hc).
  - exact (chain_snoc ns c ((q, eq, mode, fd) :: rs) c2 q2 eq2 mode2 fd2 p IH E2 Hlt).
Qed.

Lemma peek_run m es s ts toks : forallb is_symbol toks = true -> m es = 0 -> lexed m es s ts -> exists q, peek m s es toks = (starts toks ts, q) /\ lexed m es q ts.
Proof. intros Hf He Hl. apply peek_lexed; auto. apply Forall_forall. intros c Hc. rewrite forallb_forall in Hf. now apply Hf, list_elem_of_In. Qed.

Definition size (ts : list ptoken) : Z := Z.of_nat (length ts).

Lemma mode_starts ts : starts (bytes_of "<>") ts = match ts with t :: _ => match mode_of t with Some _ => true | None => false end | [] => false end.
Proof.
  destruct ts as [|[c | | q eq] ts]; try reflexivity. cbn [starts mode_of]. change (bytes_of "<>") with [60; 62]. unfold isin. cbn [strchr]. rewrite (Z.eqb_sym 60 c), (Z.eqb_sym 62 c).
  destruct (c =? 60); [reflexivity |]. now destruct (c =? 62).
Qed.

Lemma mode_code t mode fd (c : Z) (q eq : Z) : mode_of t = Some (mode, fd) ->
  (if code t =? 60 then redircmd (W := W) c q eq O_RDONLY 0
   else if code t =? 62 then redircmd c q eq (Z.lor (Z.lor O_WRONLY O_CREATE) O_TRUNC) 1
   else if code t =? 43 then redircmd c q eq (Z.lor O_WRONLY O_CREATE) 1 else uret c) = new_node (REDIR c q eq mode fd).
Proof.
  destruct t as [d | | u v]; cbn [mode_of code]; [| intros [= <- <-]; reflexivity | discriminate].
  destruct (d =? 60); [intros [= <- <-]; reflexivity |]. destruct (d =? 62); [intros [= <- <-]; reflexivity | discriminate].
Qed.

Lemma redirs_sim es : forall k ts c s x, sh_mem x es = 0 -> lexed (sh_mem x) es s ts -> (length ts < k)%nat -> size ts <= left_ x -> 0 < c <= last_node x ->
  match tredirs ts with
  | None => exists x', redirs_loop k c s es x = UExit 1 x'
  | Some (rs, ts') => exists p s' x', redirs_loop k c s es x = UOk (p, s') x' /\ lexed (sh_mem x) es s' ts' /\ ext x x' /\ chain (nodes x') c rs p /\
      p <= last_node x' /\ left_ x <= left_ x' + (size ts - size ts') /\ size ts' <= size ts
  end.
Proof.
  induction k as [|k IH]; intros ts c s x He Hl Hk Hb Hc; [lia |]. cbn [redirs_loop]. rewrite (ubind_ok mem_ _ x (sh_mem x) x) by reflexivity.
  destruct (peek_run _ es s ts (bytes_of "<>") eq_refl He Hl) as (q0 & -> & Hl'). rewrite mode_starts.
  destruct ts as [|t ts]; [exists c, q0, x; cbn; split_and!; auto using ext_self, chain_nil; lia |]. cbn [tredirs].
  destruct (mode_of t) as [[mode fd]|] eqn:Em; [| exists c, q0, x; split_and!; auto using ext_self, chain_nil; lia].
  destruct (gettoken_lexed _ _ _ _ _ Hl') as (q1 & eq1 & s1 & -> & _ & Hl1).
  destruct ts as [|t2 ts]; [destruct (gettoken_end _ _ _ He Hl1) as (q2 & eq2 & s2 & -> & _); cbn; destruct (panic_exits (A := Z * Z) "missing file for redirection" x) as (w & ->); eauto |].
  destruct (gettoken_lexed _ _ _ _ _ Hl1) as (q2 & eq2 & s2 & -> & Hp & Hl2).
  destruct t2 as [d | | q eq]; cbn [code place] in *; [| cbn; destruct (panic_exits (A := Z * Z) "missing file for redirection" x) as (w & ->); eauto |].
  - destruct Hp as [_ Hp]. assert ((d =? 97) = false) as -> by (apply Z.eqb_neq; intros ->; discriminate Hp). cbn [negb]. destruct (panic_exits (A := Z * Z) "missing file for redirection" x) as (w & ->); eauto.
  - destruct Hp as (-> & -> & _). change (97 =? 97) with true. cbn [negb]. rewrite (mode_code t mode fd c q2 eq2 Em). unfold size in Hb. cbn [length] in Hb, Hk.
    destruct (new_node_run (REDIR c q2 eq2 mode fd) x) as (x1 & E1 & Hx1 & Hn1 & Hlast & Hleft); [lia |]. rewrite (ubind_ok _ _ _ _ _ E1).
    assert (Hm1 := ex_mem _ _ Hx1). rewrite <- Hm1 in Hl2, He. specialize (IH ts (last_node x + 1) s2 x1 He Hl2 ltac:(lia) ltac:(unfold size; lia) ltac:(lia)).
    destruct (tredirs ts) as [[rs ts']|]; [| exact IH]. destruct IH as (p & s' & x' & -> & Hl3 & Hx' & Hch & Hp & Hleft' & Hsz).
    exists p, s', x'. rewrite <- Hm1. split_and!; auto; [exact (ext_ext _ _ _ Hx1 Hx') | | unfold size in *; cbn [length]; lia | unfold size in *; cbn [length]; lia].
    apply (chain_cons _ c (last_node x + 1)); [| lia | exact Hch]. destruct Hx' as [_ _ [l ->]]. now apply node_app.
Qed.

Lemma tredirs_stop : forall n ts rs ts', (length ts <= n)%nat -> tredirs ts = Some (rs, ts') -> starts (bytes_of "<>") ts' = false.
Proof.
  induction n as [|n IH]; intros [|t ts] rs ts' Hn; cbn [tredirs length] in *; try lia; try (intros [= _ <-]; reflexivity).
  destruct (mode_of t) as [[mode fd]|] eqn:Em; [| intros [= _ <-]; now rewrite mode_starts, Em].
  destruct ts as [|[c | | q eq] ts]; try discriminate. destruct (tredirs ts) as [[rs2 ts2]|] eqn:E; [| discriminate]. intros [= _ <-]. cbn [length] in Hn. apply (IH ts rs2); [lia | exact E].
Qed.

Lemma titems_redirs args : forall n ts rs, (length ts <= n)%nat ->
  titems args rs ts = match tredirs ts with None => None | Some (rs2, ts2) => titems args (rs ++ rs2) ts2 end.
Proof.
  induction n as [|n IH]; intros [|t ts] rs Hn; cbn [length] in *; try lia; try (cbn; now rewrite app_nil_r).
  destruct t as [c | | q eq]; [| | cbn [tredirs mode_of]; now rewrite app_nil_r].
  - cbn [tredirs]. destruct (mode_of (PSym c)) as [[mode fd]|] eqn:Em; [| now rewrite app_nil_r].
    cbn [titems]. rewrite Em. destruct ts as [|[d | | q eq] ts]; try reflexivity. cbn [length] in Hn. rewrite (IH ts) by lia. destruct (tredirs ts) as [[rs2 ts2]|]; [| reflexivity]. now rewrite <- app_assoc.
  - cbn [tredirs titems mode_of]. destruct ts as [|[d | | q eq] ts]; try reflexivity. cbn [length] in Hn. rewrite (IH ts) by lia. destruct (tredirs ts) as [[rs2 ts2]|]; [| reflexivity]. now rewrite <- app_assoc.
Qed.

Lemma upd_args (l : list Z) v : (length l < Z.to_nat MAXARGS)%nat -> updZ (l ++ zeros (length l)) (Z.of_nat (length l)) v = (l ++ [v]) ++ zeros (length (l ++ [v])).
Proof.
  intros Hl. unfold updZ, zeros. rewrite Nat2Z.id, insert_app_r_alt, Nat.sub_diag, length_app by lia. cbn [length].
  replace (Z.to_nat MAXARGS - length l)%nat with (Datatypes.S (Z.to_nat MAXARGS - (length l + 1))) by lia. cbn. now rewrite <- app_assoc.
Qed.

Lemma upd_args0 (l : list Z) : (length l < Z.to_nat MAXARGS)%nat -> updZ (l ++ zeros (length l)) (Z.of_nat (length l)) 0 = l ++ zeros (length l).
Proof.
  intros Hl. rewrite upd_args by exact Hl. unfold zeros. rewrite length_app. cbn [length]. replace (Z.to_nat MAXARGS - length l)%nat with (Datatypes.S (Z.to_nat MAXARGS - (length l + 1))) by lia. cbn. now rewrite <- app_assoc.
Qed.

Lemma set_arg_run x0 x e a b argc q eq : ext x0 x -> e = last_node x0 + 1 -> node_of (nodes x) e = Some (EXEC a b) -> 0 <= argc < MAXARGS ->
  exists x', set_arg e argc q eq x = UOk tt x' /\ ext x0 x' /\ node_of (nodes x') e = Some (EXEC (updZ a argc q) (updZ b argc eq)) /\
    (forall p, e < p -> node_of (nodes x') p = node_of (nodes x) p) /\ last_node x' = last_node x /\ left_ x' = left_ x /\ sh_mem x' = sh_mem x.
Proof.
  intros [X1 X2 [l Xn]] -> En Hargc. unfold set_arg. unfold node_of in *. rewrite En. rewrite (proj2 (Z.leb_le 0 argc)), (proj2 (Z.ltb_lt argc MAXARGS)) by lia. cbn [andb].
  eexists. split; [reflexivity |]. unfold last_node, left_, updZ in *. cbn [nodes set_nodes blocks_left sh_mem]. assert (Hlt : (Z.to_nat (Z.of_nat (length (nodes x0)) + 1 - 1) < length (nodes x))%nat) by (apply lookup_lt_is_Some; eauto).
  split_and!; auto.
  - split; cbn; auto. replace (Z.to_nat (Z.of_nat (length (nodes x0)) + 1 - 1)) with (length (nodes x0) + 0)%nat by lia. rewrite Xn, insert_app_r. eauto.
  - now rewrite list_lookup_insert_eq.
  - intros p Hp. rewrite list_lookup_insert_ne; [reflexivity | lia].
  - now rewrite length_insert.
Qed.

Lemma chain_upd ns ns' e rs p : (forall p, e < p -> node_of ns' p = node_of ns p) -> chain ns e rs p -> chain ns' e rs p.
Proof. intros Hn. induction 1 as [|rs c q eq mode fd p Hc IH E Hlt]; [constructor |]. econstructor; [exact IH | rewrite Hn; [exact E |] | exact Hlt]. apply chain_le in Hc. lia. Qed.

Lemma chain_trans ns e rs c rs2 p : chain ns e rs c -> chain ns c rs2 p -> chain ns e (rs ++ rs2) p.
Proof. intros Hc. induction 1 as [|rs3 c2 q eq mode fd p _ IH E Hlt]; [now rewrite app_nil_r |]. rewrite app_assoc. econstructor; eauto. Qed.

(** The arguments of a simple command. *)
Definition exec_node (args : list (Z * Z)) : node := EXEC (map fst args ++ zeros (length args)) (map snd args ++ zeros (length args)).

Lemma set_arg_exec x0 x e args q eq : ext x0 x -> e = last_node x0 + 1 -> node_of (nodes x) e = Some (exec_node args) -> (length args < Z.to_nat MAXARGS)%nat ->
  exists x', set_arg e (Z.of_nat (length args)) q eq x = UOk tt x' /\ ext x0 x' /\
    node_of (nodes x') e = Some (EXEC (updZ (map fst args ++ zeros (length args)) (Z.of_nat (length args)) q) (updZ (map snd args ++ zeros (length args)) (Z.of_nat (length args)) eq)) /\
    (forall p, e < p -> node_of (nodes x') p = node_of (nodes x) p) /\ last_node x' = last_node x /\ left_ x' = left_ x /\ sh_mem x' = sh_mem x.
Proof. intros Hx He En Hl. apply (set_arg_run x0); auto. unfold MAXARGS in *. lia. Qed.

Lemma args_done x0 x e args rs ret : ext x0 x -> e = last_node x0 + 1 -> node_of (nodes x) e = Some (exec_node args) -> (length args < Z.to_nat MAXARGS)%nat ->
  chain (nodes x) e rs ret -> ret <= last_node x ->
  exists x', set_arg e (Z.of_nat (length args)) 0 0 x = UOk tt x' /\ ext x0 x' /\ repr (nodes x') ret (wrap (TExec args) rs) /\ last_node x' = last_node x /\ left_ x' = left_ x /\ sh_mem x' = sh_mem x.
Proof.
  intros Hx He En Hl Hch Hret. destruct (set_arg_exec x0 x e args 0 0 Hx He En Hl) as (x' & E & Hx' & En' & Hn & Hlast & Hleft & Hm). exists x'. split_and!; auto.
  apply (repr_wrap _ e); [| exact (chain_upd _ _ _ _ _ Hn Hch)]. cbn [repr]. split; [unfold last_node in He; lia |]. split; [| exact Hl].
  rewrite En'. do 2 f_equal; [rewrite <- (length_map fst args) at 1 2 | rewrite <- (length_map snd args) at 1 2]; (rewrite upd_args0 by (rewrite length_map; exact Hl)); now rewrite length_map.
Qed.

Lemma args_sim es x0 e : e = last_node x0 + 1 -> forall k ts args rs ret s x,
  sh_mem x es = 0 -> lexed (sh_mem x) es s ts -> starts (bytes_of "<>") ts = false -> (length ts < k)%nat -> size ts <= left_ x -> ext x0 x ->
  node_of (nodes x) e = Some (exec_node args) -> (length args < Z.to_nat MAXARGS)%nat -> chain (nodes x) e rs ret -> ret <= last_node x ->
  match titems args rs ts with
  | None => exists x', args_loop k e ret (Z.of_nat (length args)) s es x = UExit 1 x'
  | Some (t, ts') => exists p s' x', args_loop k e ret (Z.of_nat (length args)) s es x = UOk (p, s') x' /\ lexed (sh_mem x) es s' ts' /\ ext x0 x' /\ repr (nodes x') p t /\
      p <= last_node x' /\ left_ x <= left_ x' + (size ts - size ts') /\ size ts' <= size ts
  end.
Proof.
  intros He0. induction k as [|k IH]; intros ts args rs ret s x He Hl Hst Hk Hb Hx En Hargs Hch Hret; [lia |]. cbn [args_loop]. rewrite (ubind_ok mem_ _ x (sh_mem x) x) by reflexivity.
  destruct (peek_run _ es s ts (bytes_of "|)&;") eq_refl He Hl) as (q0 & -> & Hl').
  destruct (args_done x0 x e args rs ret Hx He0 En Hargs Hch Hret) as (xd & Ed & Hxd & Hrd & Hlast & Hleft & Hmd).
  destruct ts as [|t ts].
  { cbn [starts]. destruct (gettoken_end _ _ _ He Hl') as (q1 & eq1 & s1 & -> & Hl1). cbn [Z.eqb titems]. rewrite (ubind_ok _ _ _ _ _ Ed). exists ret, s1, xd. split_and!; auto; lia. }
  destruct t as [c | | q eq].
  - assert (Em : mode_of (PSym c) = None) by (rewrite mode_starts in Hst; now destruct (mode_of (PSym c))). cbn [titems]. rewrite Em.
    destruct (starts (bytes_of "|)&;") (PSym c :: ts)) eqn:Es; [rewrite (ubind_ok _ _ _ _ _ Ed); exists ret, q0, xd; split_and!; auto; lia |].
    destruct (gettoken_lexed _ _ _ _ _ Hl') as (q1 & eq1 & s1 & -> & Hp & _). cbn [code place] in *. destruct Hp as [_ Hp].
    assert ((c =? 0) = false) as -> by (apply Z.eqb_neq; intros ->; discriminate Hp). assert ((c =? 97) = false) as -> by (apply Z.eqb_neq; intros ->; discriminate Hp).
    cbn [negb]. destruct (panic_exits (A := Z * Z) "syntax" x) as (w & ->); eauto.
  - discriminate Hst.
  - cbn [starts titems]. destruct (gettoken_lexed _ _ _ _ _ Hl') as (q1 & eq1 & s1 & -> & Hp & Hl1). cbn [code place] in *. destruct Hp as (-> & -> & _). change (97 =? 0) with false. change (97 =? 97) with true. cbn [negb].
    destruct (set_arg_exec x0 x e args q1 eq1 Hx He0 En Hargs) as (x1 & E1 & Hx1 & En1 & Hn1 & Hlast1 & Hleft1 & Hm1). rewrite (ubind_ok _ _ _ _ _ E1).
    destruct (Z.leb_spec MAXARGS (Z.of_nat (length args) + 1)) as [| Hlt]; [destruct (panic_exits (A := Z * Z) "too many args" x1) as (w & ->); eauto |].
    rewrite <- Hm1 in Hl1, He. unfold size in Hb. cbn [length] in Hb, Hk. assert (Hret1 : 0 < ret <= last_node x1) by (apply chain_le in Hch; unfold last_node in *; lia).
    pose proof (redirs_sim es (Datatypes.S (len s1 es)) ts ret s1 x1 He Hl1) as Hr. rewrite (titems_redirs _ (length ts)) by lia. unfold parseredirs.
    destruct (tredirs ts) as [[rs2 ts2]|] eqn:Et; [| destruct Hr as (x' & E'); [apply lexed_le in Hl1; unfold len; lia | unfold size; lia | exact Hret1 |]; rewrite (ubind_exit _ _ _ _ _ E'); eauto].
    destruct Hr as (p & s2 & x2 & E2 & Hl2 & Hx2 & Hch2 & Hp2 & Hleft2 & Hsz2); [apply lexed_le in Hl1; unfold len; lia | unfold size; lia | exact Hret1 |]. rewrite (ubind_ok _ _ _ _ _ E2). cbn [fst snd].
    replace (Z.of_nat (length args) + 1) with (Z.of_nat (length (args ++ [(q1, eq1)]))) by (rewrite length_app; cbn; lia).
    assert (Hm2 := ex_mem _ _ Hx2). rewrite <- Hm2 in Hl2, He.
    assert (En2 : node_of (nodes x2) e = Some (exec_node (args ++ [(q1, eq1)]))).
    { destruct Hx2 as [_ _ [l ->]]. apply node_app. rewrite En1. unfold exec_node. rewrite !map_app. do 2 f_equal; [rewrite <- (length_map fst args) at 1 2 | rewrite <- (length_map snd args) at 1 2];
        (rewrite upd_args by (rewrite length_map; exact Hargs)); cbn [map]; now rewrite !length_app, length_map. }
    pose proof (chain_trans _ _ _ _ _ _ (ext_chain _ _ _ _ _ Hx2 (chain_upd _ _ _ _ _ Hn1 Hch)) Hch2) as Hch3.
    specialize (IH ts2 (args ++ [(q1, eq1)]) (rs ++ rs2) p s2 x2 He Hl2 (tredirs_stop _ _ _ _ (Nat.le_refl _) Et)). unfold size in *.
    destruct (titems (args ++ [(q1, eq1)]) (rs ++ rs2) ts2) as [[t ts']|]; [| apply IH; auto; try lia; [exact (ext_ext _ _ _ Hx1 Hx2) | rewrite length_app; cbn; lia]].
    destruct IH as (p' & s' & x' & E' & Hl3 & Hx' & Hr' & Hp' & Hleft' & Hsz'); auto; try lia; [exact (ext_ext _ _ _ Hx1 Hx2) | rewrite length_app; cbn; lia |].
    exists p', s', x'. rewrite <- Hm1, <- Hm2. cbn [length]. split_and!; auto; lia.
Qed.

Lemma back_sim es : forall k ts c t s x, sh_mem x es = 0 -> lexed (sh_mem x) es s ts -> (length ts < k)%nat -> size ts <= left_ x -> repr (nodes x) c t -> c <= last_node x ->
  let '(t', ts') := tback t ts in
  exists p s' x', back_loop k c s es x = UOk (p, s') x' /\ lexed (sh_mem x) es s' ts' /\ ext x x' /\ repr (nodes x') p t' /\
    p <= last_node x' /\ left_ x <= left_ x' + (size ts - size ts') /\ size ts' <= size ts.
Proof.
  induction k as [|k IH]; intros ts c t s x He Hl Hk Hb Hr Hc; [lia |]. cbn [back_loop]. rewrite (ubind_ok mem_ _ x (sh_mem x) x) by reflexivity.
  destruct (peek_run _ es s ts (bytes_of "&") eq_refl He Hl) as (q0 & -> & Hl').
  assert (Hstop : exists p s' x', uret (c, q0) x = UOk (p, s') x' /\ lexed (sh_mem x) es s' ts /\ ext x x' /\ repr (nodes x') p t /\ p <= last_node x' /\ left_ x <= left_ x' + (size ts - size ts) /\ size ts <= size ts).
  { exists c, q0, x. split_and!; auto using ext_self; lia. }
  destruct ts as [|[d | | q eq] ts]; try exact Hstop. cbn [starts tback]. change (bytes_of "&") with [38]. unfold isin. cbn [strchr]. rewrite (Z.eqb_sym 38 d). destruct (d =? 38); [| exact Hstop]. clear Hstop.
  destruct (gettoken_lexed _ _ _ _ _ Hl') as (q1 & eq1 & s1 & -> & _ & Hl1). unfold size in Hb. cbn [length] in Hb, Hk.
  destruct (new_node_run (BACK c) x) as (x1 & E1 & Hx1 & Hn1 & Hlast & Hleft); [lia |]. unfold backcmd. rewrite (ubind_ok _ _ _ _ _ E1).
  assert (Hm1 := ex_mem _ _ Hx1). rewrite <- Hm1 in Hl1, He.
  assert (Hr1 : repr (nodes x1) (last_node x + 1) (TBack t)) by (cbn; pose proof (repr_pos _ _ _ Hr); split; [lia |]; exists c; split_and!; [exact Hn1 | lia | exact (ext_repr _ _ _ _ Hx1 Hr)]).
  specialize (IH ts (last_node x + 1) (TBack t) s1 x1 He Hl1 ltac:(lia) ltac:(unfold size; lia) Hr1 ltac:(lia)). destruct (tback (TBack t) ts) as [t' ts'].
  destruct IH as (p & s' & x' & -> & Hl2 & Hx' & Hr' & Hp & Hleft' & Hsz). exists p, s', x'. rewrite <- Hm1. unfold size in *. cbn [length]. split_and!; auto; try lia. exact (ext_ext _ _ _ Hx1 Hx').
Qed.

Definition parsed (es : Z) x (r : ures S (Z * Z)) (ts : list ptoken) (o : option (tree * list ptoken)) : Prop :=
  match o with
  | None => exists x', r = UExit 1 x'
  | Some (t, ts') => exists p s' x', r = UOk (p, s') x' /\ lexed (sh_mem x) es s' ts' /\ ext x x' /\ repr (nodes x') p t /\
      p <= last_node x' /\ left_ x <= left_ x' + 2 * (size ts - size ts') + 1 /\ size ts' <= size ts
  end.

(** What is needed to parse the tokens [ts]. *)
Definition ready (es : Z) (ts : list ptoken) s x : Prop := sh_mem x es = 0 /\ lexed (sh_mem x) es s ts /\ 2 * size ts + 1 <= left_ x.

Definition simulates (es : Z) (c : Z -> Z -> UM S (Z * Z)) (p : list ptoken -> option (option (tree * list ptoken))) : Prop :=
  forall ts s x o, ready es ts s x -> p ts = Some o -> parsed es x (c s es x) ts o.

Lemma starts_cons toks ts : starts toks ts = true -> exists t, ts = t :: tail ts.
Proof. destruct ts; [discriminate |]. eauto. Qed.

Lemma pipe_sim es f : simulates es (parseexec f) (texec f) -> simulates es (parsepipe f) (tpipe f) -> simulates es (parsepipe (Datatypes.S f)) (tpipe (Datatypes.S f)).
Proof.
  intros IHe IHp ts s x o (He & Hl & Hb) Ho. cbn [parsepipe tpipe] in *. destruct (texec f ts) as [o1|] eqn:E1; [| discriminate Ho].
  specialize (IHe ts s x o1 (conj He (conj Hl Hb)) E1). destruct o1 as [[t1 ts1]|]; cbn [pbind] in Ho; [| injection Ho as <-; destruct IHe as (x' & E); cbn; rewrite (ubind_exit _ _ _ _ _ E); eauto].
  destruct IHe as (p1 & s1 & x1 & E & Hl1 & Hx1 & Hr1 & Hp1 & Hleft1 & Hsz1). rewrite (ubind_ok _ _ _ _ _ E), (ubind_ok mem_ _ x1 (sh_mem x1) x1) by reflexivity.
  assert (Hm1 := ex_mem _ _ Hx1). rewrite <- Hm1 in Hl1, He. destruct (peek_run _ es s1 ts1 (bytes_of "|") eq_refl He Hl1) as (q1 & -> & Hl1').
  destruct (starts (bytes_of "|") ts1) eqn:Es; [| injection Ho as <-; exists p1, q1, x1; rewrite <- Hm1; split_and!; auto].
  destruct (starts_cons _ _ Es) as [t Et]. remember (tail ts1) as ts2. subst ts1. destruct (gettoken_lexed _ _ _ _ _ Hl1') as (q2 & eq2 & s2 & -> & _ & Hl2). unfold size in *. cbn [length] in *.
  destruct (tpipe f ts2) as [o2|] eqn:E2; [| discriminate Ho]. specialize (IHp ts2 s2 x1 o2 ltac:(split_and!; auto; unfold size; lia) E2).
  destruct o2 as [[t3 ts3]|]; cbn [pbind] in Ho; injection Ho as <-; [| destruct IHp as (x' & E'); cbn; rewrite (ubind_exit _ _ _ _ _ E'); eauto].
  destruct IHp as (p3 & s3 & x3 & E3 & Hl3 & Hx3 & Hr3 & Hp3 & Hleft3 & Hsz3). rewrite (ubind_ok _ _ _ _ _ E3). unfold size in *.
  destruct (new_node_run (PIPE p1 p3) x3) as (x4 & E4 & Hx4 & Hn4 & Hlast4 & Hleft4); [lia |]. unfold pipecmd. cbn [fst snd]. rewrite (ubind_ok _ _ _ _ _ E4).
  exists (last_node x3 + 1), s3, x4. rewrite <- Hm1. pose proof (ext_ext _ _ _ Hx3 Hx4) as Hx14. pose proof (ext_length _ _ Hx3). unfold last_node, parsed, size in *.
  split_and!; auto; try lia; [exact (ext_ext _ _ _ Hx1 Hx14) |]. cbn [repr]. split; [lia |]. exists p1, p3. split_and!; auto; try lia; [exact (ext_repr _ _ _ _ Hx14 Hr1) | exact (ext_repr _ _ _ _ Hx4 Hr3)].
Qed.

Lemma line_sim es f : simulates es (parsepipe f) (tpipe f) -> simulates es (parseline f) (tline f) -> simulates es (parseline (Datatypes.S f)) (tline (Datatypes.S f)).
Proof.
  intros IHp IHl ts s x o (He & Hl & Hb) Ho. cbn [parseline tline] in *. destruct (tpipe f ts) as [o1|] eqn:E1; [| discriminate Ho].
  specialize (IHp ts s x o1 (conj He (conj Hl Hb)) E1). destruct o1 as [[t0 ts0]|]; cbn [pbind] in Ho; [| injection Ho as <-; destruct IHp as (x' & E); cbn; rewrite (ubind_exit _ _ _ _ _ E); eauto].
  destruct IHp as (p0 & s0 & x0 & E0 & Hl0 & Hx0 & Hr0 & Hp0 & Hleft0 & Hsz0). rewrite (ubind_ok _ _ _ _ _ E0). cbn [fst snd].
  assert (Hm0 := ex_mem _ _ Hx0). rewrite <- Hm0 in Hl0, He. pose proof (back_sim es (Datatypes.S (len s0 es)) ts0 p0 t0 s0 x0 He Hl0 ltac:(apply lexed_le in Hl0; unfold len; lia) ltac:(unfold size in *; lia) Hr0 Hp0) as Hbk.
  destruct (tback t0 ts0) as [t1 ts1]. destruct Hbk as (p1 & s1 & x1 & E & Hl1 & Hx1 & Hr1 & Hp1 & Hleft1 & Hsz1). rewrite (ubind_ok _ _ _ _ _ E), (ubind_ok mem_ _ x1 (sh_mem x1) x1) by reflexivity.
  pose proof (ext_ext _ _ _ Hx0 Hx1) as Hx01. assert (Hm1 := ex_mem _ _ Hx01). rewrite Hm0 in Hl1, He. rewrite <- Hm1 in Hl1, He. destruct (peek_run _ es s1 ts1 (bytes_of ";") eq_refl He Hl1) as (q1 & -> & Hl1').
  destruct (starts (bytes_of ";") ts1) eqn:Es; [| injection Ho as <-; exists p1, q1, x1; rewrite <- Hm1; split_and!; auto; lia].
  destruct (starts_cons _ _ Es) as [t Et]. remember (tail ts1) as ts2. subst ts1. destruct (gettoken_lexed _ _ _ _ _ Hl1') as (q2 & eq2 & s2 & -> & _ & Hl2). unfold size in *. cbn [length] in *.
  destruct (tline f ts2) as [o2|] eqn:E2; [| discriminate Ho]. specialize (IHl ts2 s2 x1 o2 ltac:(split_and!; auto; unfold size; lia) E2).
  destruct o2 as [[t3 ts3]|]; cbn [pbind] in Ho; injection Ho as <-; [| destruct IHl as (x' & E'); cbn; rewrite (ubind_exit _ _ _ _ _ E'); eauto].
  destruct IHl as (p3 & s3 & x3 & E3 & Hl3 & Hx3 & Hr3 & Hp3 & Hleft3 & Hsz3). rewrite (ubind_ok _ _ _ _ _ E3). unfold size in *.
  destruct (new_node_run (LIST p1 p3) x3) as (x4 & E4 & Hx4 & Hn4 & Hlast4 & Hleft4); [lia |]. unfold listcmd. cbn [fst snd]. rewrite (ubind_ok _ _ _ _ _ E4).
  exists (last_node x3 + 1), s3, x4. rewrite <- Hm1. pose proof (ext_ext _ _ _ Hx3 Hx4) as Hx14. pose proof (ext_length _ _ Hx3). unfold last_node, parsed, size in *.
  split_and!; auto; try lia; [exact (ext_ext _ _ _ Hx01 Hx14) |]. cbn [repr]. split; [lia |]. exists p1, p3. split_and!; auto; try lia; [exact (ext_repr _ _ _ _ Hx14 Hr1) | exact (ext_repr _ _ _ _ Hx4 Hr3)].
Qed.

Lemma block_sim es f : simulates es (parseline f) (tline f) -> forall ts s x o, ready es ts s x -> starts (bytes_of "(") ts = true -> tblock (Datatypes.S f) ts = Some o ->
  parsed es x (parseblock (Datatypes.S f) s es x) ts o.
Proof.
  intros IHl ts s x o (He & Hl & Hb) Es Ho. cbn [parseblock tblock] in *. rewrite (ubind_ok mem_ _ x (sh_mem x) x) by reflexivity.
  destruct (peek_run _ es s ts (bytes_of "(") eq_refl He Hl) as (q1 & -> & Hl1). rewrite Es. cbn [negb].
  destruct (starts_cons _ _ Es) as [t Et]. remember (tail ts) as ts2. subst ts. destruct (gettoken_lexed _ _ _ _ _ Hl1) as (q2 & eq2 & s2 & -> & _ & Hl2). unfold size in *. cbn [length] in *.
  destruct (tline f ts2) as [o2|] eqn:E2; [| discriminate Ho]. specialize (IHl ts2 s2 x o2 ltac:(split_and!; auto; unfold size; lia) E2).
  destruct o2 as [[t3 ts3]|]; cbn [pbind] in Ho; [| injection Ho as <-; destruct IHl as (x' & E'); cbn; rewrite (ubind_exit _ _ _ _ _ E'); eauto].
  destruct IHl as (p3 & s3 & x3 & E3 & Hl3 & Hx3 & Hr3 & Hp3 & Hleft3 & Hsz3). rewrite (ubind_ok _ _ _ _ _ E3), (ubind_ok mem_ _ x3 (sh_mem x3) x3) by reflexivity.
  assert (Hm3 := ex_mem _ _ Hx3). rewrite <- Hm3 in Hl3, He. destruct (peek_run _ es s3 ts3 (bytes_of ")") eq_refl He Hl3) as (q4 & -> & Hl4).
  destruct (starts (bytes_of ")") ts3) eqn:Es3; cbn [negb]; [| injection Ho as <-; destruct (panic_exits (A := Z * Z) "syntax - missing )" x3) as (w & ->); cbn; eauto].
  destruct (starts_cons _ _ Es3) as [t4 Et4]. remember (tail ts3) as ts4. subst ts3. destruct (gettoken_lexed _ _ _ _ _ Hl4) as (q5 & eq5 & s5 & -> & _ & Hl5). unfold size in *. cbn [length] in *.
  pose proof (redirs_sim es (Datatypes.S (len s5 es)) ts4 p3 s5 x3 He Hl5 ltac:(apply lexed_le in Hl5; unfold len; lia) ltac:(unfold size; lia) (conj (repr_pos _ _ _ Hr3) Hp3)) as Hr.
  unfold parseredirs. destruct (tredirs ts4) as [[rs ts5]|]; injection Ho as <-; [| exact Hr]. destruct Hr as (p & s' & x' & -> & Hl6 & Hx' & Hch & Hp & Hleft & Hsz).
  exists p, s', x'. rewrite <- Hm3. unfold parsed, size in *. cbn [length]. split_and!; auto; try lia; [exact (ext_ext _ _ _ Hx3 Hx') |]. exact (repr_wrap _ _ _ _ _ (ext_repr _ _ _ _ Hx' Hr3) Hch).
Qed.

Lemma exec_sim es f : (forall ts s x o, ready es ts s x -> starts (bytes_of "(") ts = true -> tblock f ts = Some o -> parsed es x (parseblock f s es x) ts o) ->
  simulates es (parseexec (Datatypes.S f)) (texec (Datatypes.S f)).
Proof.
  intros IHb ts s x o (He & Hl & Hb) Ho. cbn [parseexec texec] in *. rewrite (ubind_ok mem_ _ x (sh_mem x) x) by reflexivity.
  destruct (peek_run _ es s ts (bytes_of "(") eq_refl He Hl) as (q1 & -> & Hl1). destruct (starts (bytes_of "(") ts) eqn:Es; [apply IHb; auto; now split_and! |]. injection Ho as <-.
  destruct (new_node_run (exec_node []) x) as (x1 & E1 & Hx1 & Hn1 & Hlast1 & Hleft1); [unfold size in Hb; lia |]. change execcmd with (new_node (W := W) (exec_node [])). rewrite (ubind_ok _ _ _ _ _ E1).
  assert (Hm1 := ex_mem _ _ Hx1). rewrite <- Hm1 in Hl1, He.
  pose proof (redirs_sim es (Datatypes.S (len q1 es)) ts (last_node x + 1) q1 x1 He Hl1 ltac:(apply lexed_le in Hl1; unfold len; lia) ltac:(unfold size in *; lia) ltac:(unfold last_node in *; lia)) as Hr.
  rewrite (titems_redirs [] (length ts)) by lia. unfold parseredirs. destruct (tredirs ts) as [[rs ts2]|] eqn:Et; [| destruct Hr as (x' & E'); cbn; rewrite (ubind_exit _ _ _ _ _ E'); eauto].
  destruct Hr as (p & s2 & x2 & E2 & Hl2 & Hx2 & Hch & Hp & Hleft2 & Hsz2). rewrite (ubind_ok _ _ _ _ _ E2). cbn [fst snd app]. assert (Hm2 := ex_mem _ _ Hx2). rewrite <- Hm2 in Hl2, He.
  pose proof (args_sim es x (last_node x + 1) eq_refl (Datatypes.S (len s2 es)) ts2 [] rs p s2 x2 He Hl2 (tredirs_stop _ _ _ _ (Nat.le_refl _) Et) ltac:(apply lexed_le in Hl2; unfold len; lia) ltac:(unfold size in *; lia) (ext_ext _ _ _ Hx1 Hx2)) as Ha.
  cbn [length] in Ha. change (Z.of_nat 0) with 0 in Ha. assert (Hn2 : node_of (nodes x2) (last_node x + 1) = Some (exec_node [])) by (destruct Hx2 as [_ _ [l ->]]; now apply node_app).
  specialize (Ha Hn2 ltac:(unfold MAXARGS; lia) Hch Hp). destruct (titems [] rs ts2) as [[t ts']|]; [| exact Ha]. destruct Ha as (p' & s' & x' & E' & Hl3 & Hx' & Hr' & Hp' & Hleft' & Hsz').
  exists p', s', x'. rewrite <- Hm1, <- Hm2. unfold size in *. split_and!; auto; lia.
Qed.

Lemma parser_sim es f : simulates es (parseline f) (tline f) /\ simulates es (parsepipe f) (tpipe f) /\ simulates es (parseexec f) (texec f) /\
  (forall ts s x o, ready es ts s x -> starts (bytes_of "(") ts = true -> tblock f ts = Some o -> parsed es x (parseblock f s es x) ts o).
Proof.
  induction f as [|f (IHl & IHp & IHe & IHb)]; [split_and!; repeat intro; discriminate |].
  split_and!; [apply line_sim | apply pipe_sim | apply exec_sim | apply block_sim]; assumption.
Qed.

End parser.

(** ** The grammar *)

(** A command, with the words themselves. *)
Inductive ctree :=
| CExec (args : list (list Z))
| CRedir (t : ctree) (file : list Z) (mode fd : Z)
| CPipe (a b : ctree)
| CList (a b : ctree)
| CBack (a : ctree).

Definition credir : Type := list Z * Z * Z.
Definition cwrap1 (t : ctree) (r : credir) : ctree := let '(w, mode, fd) := r in CRedir t w mode fd.
Definition cwrap (t : ctree) (rs : list credir) : ctree := fold_left cwrap1 rs t.

(** [<] reads, [>] writes a new file, [>>] writes without truncation. *)
Definition redir_mode (t : token) : option (Z * Z) :=
  match t with
  | Sym c => if c =? 60 then Some (0, 0) else if c =? 62 then Some (0x601, 1) else None
  | Append => Some (0x201, 1)
  | Word _ => None
  end.

(** Words and redirections, in any order. *)
Inductive g_items : list (list Z) -> list credir -> list token -> Prop :=
| gi_nil : g_items [] [] []
| gi_word w ws rs ts : g_items ws rs ts -> g_items (w :: ws) rs (Word w :: ts)
| gi_redir k w mode fd ws rs ts : redir_mode k = Some (mode, fd) -> g_items ws rs ts -> g_items ws ((w, mode, fd) :: rs) (k :: Word w :: ts).

(** A command is a simple command of at most nine words or a line in
    parentheses with redirections; [|] binds tighter than [&], and [&] tighter
    than [;]. *)
Inductive g_exec : list token -> ctree -> Prop :=
| g_simple ws rs ts : g_items ws rs ts -> Z.of_nat (length ws) < MAXARGS -> g_exec ts (cwrap (CExec ws) rs)
| g_block ts t rs ts' : g_line ts t -> g_items [] rs ts' -> g_exec (Sym 40 :: ts ++ Sym 41 :: ts') (cwrap t rs)
with g_pipe : list token -> ctree -> Prop :=
| g_pipe1 ts t : g_exec ts t -> g_pipe ts t
| g_pipe2 ts a ts' b : g_exec ts a -> g_pipe ts' b -> g_pipe (ts ++ Sym 124 :: ts') (CPipe a b)
with g_back : list token -> ctree -> Prop :=
| g_back1 ts t : g_pipe ts t -> g_back ts t
| g_back2 ts t : g_back ts t -> g_back (ts ++ [Sym 38]) (CBack t)
with g_line : list token -> ctree -> Prop :=
| g_line1 ts t : g_back ts t -> g_line ts t
| g_line2 ts a ts' b : g_back ts a -> g_line ts' b -> g_line (ts ++ Sym 59 :: ts') (CList a b).

Scheme g_exec_min := Minimality for g_exec Sort Prop
with g_pipe_min := Minimality for g_pipe Sort Prop
with g_back_min := Minimality for g_back Sort Prop
with g_line_min := Minimality for g_line Sort Prop.
Combined Scheme g_min from g_exec_min, g_pipe_min, g_back_min, g_line_min.

Section grammar.
Variable m : memory.

Definition cword (w : Z * Z) : list Z := chars m (fst w) (snd w).
Definition credir_of (r : redir) : credir := let '(q, eq, mode, fd) := r in (chars m q eq, mode, fd).

Fixpoint ctree_of (t : tree) : ctree :=
  match t with
  | TExec args => CExec (map cword args)
  | TRedir t q eq mode fd => CRedir (ctree_of t) (chars m q eq) mode fd
  | TPipe a b => CPipe (ctree_of a) (ctree_of b)
  | TList a b => CList (ctree_of a) (ctree_of b)
  | TBack a => CBack (ctree_of a)
  end.

Lemma ctree_wrap rs : forall t, ctree_of (wrap t rs) = cwrap (ctree_of t) (map credir_of rs).
Proof. induction rs as [|[[[q eq] mode] fd] rs IH]; intros t; [reflexivity |]. change (ctree_of (wrap (TRedir t q eq mode fd) rs) = cwrap (CRedir (ctree_of t) (chars m q eq) mode fd) (map credir_of rs)). now rewrite IH. Qed.

Abbreviation ct := (map (content m)).

Lemma mode_content t : redir_mode (content m t) = mode_of t.
Proof. now destruct t. Qed.

(** *** Soundness *)

Lemma tredirs_sound : forall n ts rs ts', (length ts <= n)%nat -> tredirs ts = Some (rs, ts') -> exists ts1, ts = ts1 ++ ts' /\ g_items [] (map credir_of rs) (ct ts1).
Proof.
  induction n as [|n IH]; intros [|t ts] rs ts' Hn; cbn [tredirs length] in *; try lia; try (intros [= <- <-]; exists []; split; [reflexivity | constructor]).
  destruct (mode_of t) as [[mode fd]|] eqn:Em; [| intros [= <- <-]; exists []; split; [reflexivity | constructor]].
  destruct ts as [|[c | | q eq] ts]; try discriminate. cbn [length] in Hn. destruct (tredirs ts) as [[rs2 ts2]|] eqn:E; [| discriminate]. intros [= <- <-].
  destruct (IH ts rs2 ts2) as (ts1 & -> & Hg); [lia | exact E |]. exists (t :: PWord q eq :: ts1). split; [reflexivity |]. cbn. constructor; [now rewrite mode_content | exact Hg].
Qed.

Lemma titems_sound : forall n ts args rs t ts', (length ts <= n)%nat -> Z.of_nat (length args) < MAXARGS -> titems args rs ts = Some (t, ts') ->
  exists ts1 args1 rs1, ts = ts1 ++ ts' /\ g_items (map cword args1) (map credir_of rs1) (ct ts1) /\ t = wrap (TExec (args ++ args1)) (rs ++ rs1) /\ Z.of_nat (length (args ++ args1)) < MAXARGS.
Proof.
  assert (Hstop : forall args rs ts', Z.of_nat (length args) < MAXARGS -> exists ts1 args1 rs1, ts' = ts1 ++ ts' /\ g_items (map cword args1) (map credir_of rs1) (ct ts1) /\
    wrap (TExec args) rs = wrap (TExec (args ++ args1)) (rs ++ rs1) /\ Z.of_nat (length (args ++ args1)) < MAXARGS).
  { intros args rs ts' Hargs. exists [], [], []. rewrite !app_nil_r. split_and!; auto. constructor. }
  induction n as [|n IH]; intros [|t ts] args rs t' ts' Hn Hargs; cbn [length] in *; try lia; try (intros [= <- <-]; now apply Hstop).
  destruct (mode_of t) as [[mode fd]|] eqn:Em.
  - intros Hi. assert (Hi' : match ts with PWord q eq :: ts'' => titems args (rs ++ [(q, eq, mode, fd)]) ts'' | _ => None end = Some (t', ts')) by (destruct t; [cbn [titems] in Hi; now rewrite Em in Hi | cbn [titems] in Hi; now rewrite Em in Hi | discriminate Em]).
    destruct ts as [|[c | | q eq] ts]; try discriminate. cbn [length] in Hn. destruct (IH ts args _ t' ts' ltac:(lia) Hargs Hi') as (ts1 & args1 & rs1 & -> & Hg & -> & Hl).
    exists (t :: PWord q eq :: ts1), args1, ((q, eq, mode, fd) :: rs1). rewrite <- app_assoc. split_and!; auto. cbn. constructor; [now rewrite mode_content | exact Hg].
  - destruct t as [c | | q eq]; [| discriminate Em |]; cbn [titems]; rewrite ?Em; [destruct (starts _ _); [intros [= <- <-]; now apply Hstop | discriminate] |].
    destruct (Z.leb_spec MAXARGS (Z.of_nat (length args) + 1)) as [| Hlt]; [discriminate |]. intros Hi.
    destruct (IH ts (args ++ [(q, eq)]) rs t' ts') as (ts1 & args1 & rs1 & -> & Hg & -> & Hl); [lia | rewrite length_app; cbn; lia | exact Hi |].
    exists (PWord q eq :: ts1), ((q, eq) :: args1), rs1. rewrite <- app_assoc in *. split_and!; auto. cbn. now constructor.
Qed.

Lemma tback_sound ts : forall t ts0, g_back (ct ts0) (ctree_of t) -> let '(t', ts') := tback t ts in exists ts1, ts = ts1 ++ ts' /\ g_back (ct (ts0 ++ ts1)) (ctree_of t').
Proof.
  assert (Hstop : forall t ts ts0, g_back (ct ts0) (ctree_of t) -> exists ts1, ts = ts1 ++ ts /\ g_back (ct (ts0 ++ ts1)) (ctree_of t)) by (intros t ts' ts0 Hg; exists []; now rewrite app_nil_r).
  induction ts as [|[c | | q eq] ts IH]; intros t ts0 Hg; cbn [tback]; try now apply Hstop. destruct (Z.eqb_spec c 38) as [-> |]; [| now apply Hstop].
  specialize (IH (TBack t) (ts0 ++ [PSym 38])). destruct (tback (TBack t) ts) as [t' ts']. destruct IH as (ts1 & -> & Hg'); [rewrite map_app; cbn; now constructor |].
  exists (PSym 38 :: ts1). split; [reflexivity |]. now rewrite <- app_assoc in Hg'.
Qed.

Lemma starts_one c ts : starts [c] ts = true -> c <> 62 -> ts = PSym c :: tail ts.
Proof.
  destruct ts as [|[d | | q eq] ts]; cbn [starts]; try discriminate; unfold isin; cbn [strchr]; intros Hs Hc.
  - destruct (Z.eqb_spec c d) as [-> |]; [reflexivity | discriminate Hs].
  - destruct (Z.eqb_spec c 62); [contradiction | discriminate Hs].
Qed.

Definition sound (p : list ptoken -> option (option (tree * list ptoken))) (g : list token -> ctree -> Prop) : Prop :=
  forall ts t ts', p ts = Some (Some (t, ts')) -> exists ts1, ts = ts1 ++ ts' /\ g (ct ts1) (ctree_of t).

Lemma tparser_sound f : sound (tline f) g_line /\ sound (tpipe f) g_pipe /\ sound (texec f) g_exec /\
  (forall ts t ts', starts (bytes_of "(") ts = true -> tblock f ts = Some (Some (t, ts')) -> exists ts1, ts = ts1 ++ ts' /\ g_exec (ct ts1) (ctree_of t)).
Proof.
  induction f as [|f (IHl & IHp & IHe & IHb)]; [split_and!; repeat intro; discriminate |]. split_and!.
  - intros ts t ts'. cbn [tline]. destruct (tpipe f ts) as [[[t0 ts0]|]|] eqn:E; cbn [pbind]; try discriminate. destruct (IHp _ _ _ E) as (ts1 & -> & Hg1).
    pose proof (tback_sound ts0 t0 ts1 (g_back1 _ _ Hg1)) as Hb. destruct (tback t0 ts0) as [t1 ts2]. destruct Hb as (ts3 & -> & Hg2).
    destruct (starts (bytes_of ";") ts2) eqn:Es; [| intros [= <- <-]; exists (ts1 ++ ts3); rewrite app_assoc; split; [reflexivity | now constructor]].
    apply starts_one in Es; [| discriminate]. destruct (tline f (tail ts2)) as [[[t3 ts4]|]|] eqn:E2; cbn [pbind]; try discriminate. intros [= <- <-].
    destruct (IHl _ _ _ E2) as (ts5 & E5 & Hg5). rewrite Es, E5. exists ((ts1 ++ ts3) ++ PSym 59 :: ts5). split; [now rewrite <- !app_assoc |]. rewrite map_app. cbn. now constructor.
  - intros ts t ts'. cbn [tpipe]. destruct (texec f ts) as [[[t0 ts0]|]|] eqn:E; cbn [pbind]; try discriminate. destruct (IHe _ _ _ E) as (ts1 & -> & Hg1).
    destruct (starts (bytes_of "|") ts0) eqn:Es; [| intros [= <- <-]; exists ts1; split; [reflexivity | now constructor]].
    apply starts_one in Es; [| discriminate]. destruct (tpipe f (tail ts0)) as [[[t3 ts4]|]|] eqn:E2; cbn [pbind]; try discriminate. intros [= <- <-].
    destruct (IHp _ _ _ E2) as (ts5 & E5 & Hg5). rewrite Es, E5. exists (ts1 ++ PSym 124 :: ts5). split; [now rewrite <- !app_assoc |]. rewrite map_app. cbn. now constructor.
  - intros ts t ts'. cbn [texec]. destruct (starts (bytes_of "(") ts) eqn:Es; [now apply IHb |]. intros [= Hi].
    destruct (titems_sound (length ts) ts [] [] t ts') as (ts1 & args1 & rs1 & -> & Hg & -> & Hl); [lia | reflexivity | exact Hi |]. exists ts1. split; [reflexivity |].
    cbn [app] in *. rewrite ctree_wrap. cbn. apply g_simple; [exact Hg | now rewrite length_map].
  - intros ts t ts' Es. cbn [tblock]. apply starts_one in Es; [| discriminate]. destruct (tline f (tail ts)) as [[[t0 ts0]|]|] eqn:E; cbn [pbind]; try discriminate. destruct (IHl _ _ _ E) as (ts1 & E1 & Hg1).
    destruct (starts (bytes_of ")") ts0) eqn:Es0; [| discriminate]. apply starts_one in Es0; [| discriminate]. destruct (tredirs (tail ts0)) as [[rs rest]|] eqn:Er; [| discriminate]. intros [= <- <-].
    destruct (tredirs_sound _ _ _ _ (Nat.le_refl _) Er) as (ts2 & E2 & Hg2). rewrite Es, E1, Es0, E2. exists (PSym 40 :: ts1 ++ PSym 41 :: ts2). split; [cbn; now rewrite <- app_assoc |].
    cbn. rewrite map_app. cbn. rewrite ctree_wrap. now constructor.
Qed.

(** *** Enough fuel *)

Lemma tail_length (ts : list ptoken) toks : starts toks ts = true -> (length (tail ts) < length ts)%nat.
Proof. intros Es. destruct (starts_cons _ _ Es) as [t ->]. cbn. lia. Qed.

Lemma tparser_shrinks f : (forall ts t ts', tline f ts = Some (Some (t, ts')) -> (length ts' <= length ts)%nat) /\ (forall ts t ts', tpipe f ts = Some (Some (t, ts')) -> (length ts' <= length ts)%nat) /\
  (forall ts t ts', texec f ts = Some (Some (t, ts')) -> (length ts' <= length ts)%nat).
Proof.
  destruct (tparser_sound f) as (Hl & Hp & He & _).
  split_and!; intros ts t ts' E; [destruct (Hl _ _ _ E) as (ts1 & -> & _) | destruct (Hp _ _ _ E) as (ts1 & -> & _) | destruct (He _ _ _ E) as (ts1 & -> & _)]; rewrite length_app; lia.
Qed.

Lemma tback_shrinks ts : forall t, (length (snd (tback t ts)) <= length ts)%nat.
Proof. induction ts as [|[c | | q eq] ts IH]; intros t; cbn; try lia. destruct (c =? 38); cbn; [specialize (IH (TBack t)); lia | lia]. Qed.

Lemma tparser_total f : forall ts, (4 * length ts + 4 <= f -> tline f ts <> None)%nat /\ (4 * length ts + 3 <= f -> tpipe f ts <> None)%nat /\
  (4 * length ts + 2 <= f -> texec f ts <> None)%nat /\ (starts (bytes_of "(") ts = true -> 4 * length ts + 1 <= f -> tblock f ts <> None)%nat.
Proof.
  induction f as [|f IH]; intros ts; [split_and!; intros; lia |]. destruct (tparser_shrinks f) as (Sl & Sp & Se). split_and!; cbn [tline tpipe texec tblock].
  - intros Hf. destruct (tpipe f ts) as [[[t0 ts0]|]|] eqn:E; cbn [pbind]; [| discriminate | now apply (IH ts) in E; [| lia]]. pose proof (tback_shrinks ts0 t0) as Hb. destruct (tback t0 ts0) as [t1 ts1]. cbn [snd] in Hb.
    destruct (starts (bytes_of ";") ts1) eqn:Es; [| discriminate]. pose proof (tail_length _ _ Es). apply Sp in E.
    destruct (tline f (tail ts1)) as [[[t3 ts3]|]|] eqn:E2; cbn [pbind]; try discriminate. apply (IH (tail ts1)) in E2; [contradiction | lia].
  - intros Hf. destruct (texec f ts) as [[[t0 ts0]|]|] eqn:E; cbn [pbind]; [| discriminate | apply (IH ts) in E; [contradiction | lia]].
    destruct (starts (bytes_of "|") ts0) eqn:Es; [| discriminate]. pose proof (tail_length _ _ Es). apply Se in E.
    destruct (tpipe f (tail ts0)) as [[[t3 ts3]|]|] eqn:E2; cbn [pbind]; try discriminate. apply (IH (tail ts0)) in E2; [contradiction | lia].
  - intros Hf. destruct (starts (bytes_of "(") ts) eqn:Es; [| discriminate]. apply (IH ts); [exact Es | lia].
  - intros Es Hf. pose proof (tail_length _ _ Es). destruct (tline f (tail ts)) as [[[t0 ts0]|]|] eqn:E; cbn [pbind]; [| discriminate | apply (IH (tail ts)) in E; [contradiction | lia]].
    destruct (starts (bytes_of ")") ts0); [| discriminate]. destruct (tredirs (tail ts0)) as [[rs rest]|]; discriminate.
Qed.

(** *** Completeness *)

Definition follow (toks : list Z) (rest : list ptoken) : Prop := rest = [] \/ starts toks rest = true.

Lemma ct_app ts a b : ct ts = a ++ b -> exists ts1 ts2, ts = ts1 ++ ts2 /\ ct ts1 = a /\ ct ts2 = b.
Proof. intros E. apply map_eq_app in E as (ts1 & ts2 & -> & <- & <-). eauto. Qed.
Lemma ct_sym ts c a : ct ts = Sym c :: a -> exists ts1, ts = PSym c :: ts1 /\ ct ts1 = a.
Proof. destruct ts as [|[d | | q eq] ts]; try discriminate. cbn. intros [= -> <-]. eauto. Qed.
Lemma ct_word ts w a : ct ts = Word w :: a -> exists q eq ts1, ts = PWord q eq :: ts1 /\ chars m q eq = w /\ ct ts1 = a.
Proof. destruct ts as [|[d | | q eq] ts]; try discriminate. cbn. intros [= <- <-]. eauto 6. Qed.

Lemma follow_mode toks rest : follow toks rest -> isin toks 60 = false -> isin toks 62 = false -> match rest with t :: _ => mode_of t = None | [] => True end.
Proof.
  intros [-> | Es] H60 H62; [exact I |]. destruct rest as [|[c | | q eq] rest]; try discriminate Es; [| cbn in Es; congruence]. cbn in *.
  destruct (Z.eqb_spec c 60) as [-> |]; [congruence |]. destruct (Z.eqb_spec c 62) as [-> |]; [congruence | reflexivity].
Qed.

Lemma tredirs_complete rs ts : g_items [] rs ts -> forall pts rest, ct pts = ts -> follow (bytes_of "|)&;") rest ->
  exists prs, tredirs (pts ++ rest) = Some (prs, rest) /\ map credir_of prs = rs.
Proof.
  remember [] as ws eqn:Ew. induction 1 as [| w ws rs ts Hg IH | k w mode fd ws rs ts Hm Hg IH]; intros pts rest Hp Hf; [| discriminate Ew |].
  - destruct pts; [| discriminate Hp]. exists []. split; [| reflexivity]. pose proof (follow_mode _ _ Hf eq_refl eq_refl) as Hn. cbn [app]. destruct rest as [|t rest]; [reflexivity |]. cbn. now rewrite Hn.
  - destruct pts as [|t pts]; [discriminate Hp |]. injection Hp as <- Hp. apply ct_word in Hp as (q & eq & pts1 & -> & <- & Hp). destruct (IH Ew pts1 rest Hp Hf) as (prs & E & <-).
    rewrite mode_content in Hm. cbn. rewrite Hm, E. exists ((q, eq, mode, fd) :: prs). now split.
Qed.

Lemma titems_mode args rs t q eq ts mode fd : mode_of t = Some (mode, fd) -> titems args rs (t :: PWord q eq :: ts) = titems args (rs ++ [(q, eq, mode, fd)]) ts.
Proof. intros E. destruct t; [| | discriminate E]; cbn [titems]; now rewrite E. Qed.

Lemma titems_complete ws rs ts : g_items ws rs ts -> forall pts rest args rs0, ct pts = ts -> follow (bytes_of "|)&;") rest -> Z.of_nat (length args) + Z.of_nat (length ws) < MAXARGS ->
  exists t, titems args rs0 (pts ++ rest) = Some (t, rest) /\ ctree_of t = cwrap (CExec (map cword args ++ ws)) (map credir_of rs0 ++ rs).
Proof.
  induction 1 as [| w ws rs ts Hg IH | k w mode fd ws rs ts Hm Hg IH]; intros pts rest args rs0 Hp Hf Hl.
  - destruct pts; [| discriminate Hp]. exists (wrap (TExec args) rs0). rewrite ctree_wrap, !app_nil_r. split; [| reflexivity]. cbn [app]. pose proof (follow_mode _ _ Hf eq_refl eq_refl) as Hn.
    destruct rest as [|t rest]; [reflexivity |]. destruct Hf as [Hf | Hf]; [discriminate Hf |]. destruct t; try discriminate Hf. cbn [titems]. now rewrite Hn, Hf.
  - apply ct_word in Hp as (q & eq & pts1 & -> & <- & Hp). cbn [length] in Hl. cbn [app titems]. rewrite (proj2 (Z.leb_gt MAXARGS (Z.of_nat (length args) + 1))) by lia.
    destruct (IH pts1 rest (args ++ [(q, eq)]) rs0 Hp Hf) as (t & E & Et); [rewrite length_app; cbn; lia |]. exists t. rewrite Et, map_app, <- app_assoc. now split.
  - destruct pts as [|t pts]; [discriminate Hp |]. injection Hp as <- Hp. apply ct_word in Hp as (q & eq & pts1 & -> & <- & Hp). rewrite mode_content in Hm. cbn [app]. rewrite (titems_mode _ _ _ _ _ _ _ _ Hm).
    destruct (IH pts1 rest args (rs0 ++ [(q, eq, mode, fd)]) Hp Hf Hl) as (t' & E & Et). exists t'. rewrite Et, map_app, <- app_assoc. now split.
Qed.

Definition answers (p : nat -> list ptoken -> option (option (tree * list ptoken))) (toks : list Z) (ts : list token) (c : ctree) : Prop :=
  forall pts rest f r, ct pts = ts -> follow toks rest -> p f (pts ++ rest) = Some r -> exists t, r = Some (t, rest) /\ ctree_of t = c.

(** A pipeline with [&] after it. *)
Definition answers_back (ts : list token) (c : ctree) : Prop :=
  forall pts rest f r, ct pts = ts -> follow (bytes_of ")&;") rest -> tpipe f (pts ++ rest) = Some r ->
    exists t0 ts0 t, r = Some (t0, ts0) /\ tback t0 ts0 = tback t rest /\ ctree_of t = c.

Lemma follow_weaken toks toks' rest : follow toks rest -> (forall c, isin toks c = true -> isin toks' c = true) -> follow toks' rest.
Proof. intros [-> | Es] Hi; [now left |]. right. destruct rest as [|[c | | q eq] rest]; cbn in *; auto. Qed.

Lemma follow_not toks c rest : follow toks rest -> isin toks c = false -> c <> 62 -> starts [c] rest = false.
Proof.
  intros [-> | Es] Hc Hn; [reflexivity |]. destruct rest as [|[d | | q eq] rest]; cbn in *; try reflexivity; unfold isin at 1; cbn [strchr].
  - destruct (Z.eqb_spec c d) as [-> |]; [congruence | reflexivity].
  - now rewrite (proj2 (Z.eqb_neq c 62) Hn).
Qed.

Lemma tback_follow t rest : follow (bytes_of ");") rest -> tback t rest = (t, rest).
Proof.
  intros [-> | Es]; [reflexivity |]. destruct rest as [|[c | | q eq] rest]; try discriminate Es. cbn in *. destruct (Z.eqb_spec c 38) as [-> |]; [discriminate Es | reflexivity].
Qed.

Ltac weaken := (eapply follow_weaken; [eassumption |]; intros d Hd; apply isin_elem in Hd; apply isin_elem; revert d Hd; apply Forall_forall; apply (bool_decide_unpack _); vm_compute; exact I).

Lemma items_paren ws rs ts pts rest : g_items ws rs ts -> ct pts = ts -> follow (bytes_of "|)&;") rest -> starts (bytes_of "(") (pts ++ rest) = false.
Proof.
  intros Hg Hp Hf. destruct Hg as [| w ws rs ts Hg | k w mode fd ws rs ts Hm Hg].
  - destruct pts; [| discriminate Hp]. exact (follow_not _ 40 rest Hf eq_refl ltac:(discriminate)).
  - apply ct_word in Hp as (q & eq & pts1 & -> & _). reflexivity.
  - destruct pts as [|t pts]; [discriminate Hp |]. injection Hp as <- _. rewrite mode_content in Hm. destruct t as [c | | q eq]; [| reflexivity | discriminate Hm]. cbn in *.
    destruct (Z.eqb_spec c 60) as [-> |]; [reflexivity |]. destruct (Z.eqb_spec c 62) as [-> |]; [reflexivity | discriminate Hm].
Qed.

Lemma pbind_some r f o : pbind r f = Some o -> exists r', r = Some r'.
Proof. destruct r; [eauto | discriminate]. Qed.

Lemma tparser_complete :
  (forall ts c, g_exec ts c -> answers texec (bytes_of "|)&;") ts c) /\ (forall ts c, g_pipe ts c -> answers tpipe (bytes_of ")&;") ts c) /\
  (forall ts c, g_back ts c -> answers_back ts c) /\ (forall ts c, g_line ts c -> answers tline (bytes_of ")") ts c).
Proof.
  apply g_min.
  - intros ws rs ts Hg Hl pts rest [|f] r Hp Hf E; [discriminate E |]. cbn [texec] in E. rewrite (items_paren _ _ _ _ _ Hg Hp Hf) in E. injection E as <-.
    exact (titems_complete _ _ _ Hg pts rest [] [] Hp Hf Hl).
  - intros ts t rs ts' _ IH Hg pts rest [|f] r Hp Hf E; [discriminate E |]. apply ct_sym in Hp as (pts1 & -> & Hp). apply ct_app in Hp as (pts2 & pts3 & -> & Hp2 & Hp). apply ct_sym in Hp as (pts4 & -> & Hp4).
    cbn [texec app starts] in E. change (isin (bytes_of "(") 40) with true in E. cbv iota in E. destruct f as [|f]; [discriminate E |]. cbn [tblock tail] in E. rewrite <- app_assoc in E. cbn [app] in E.
    destruct (pbind_some _ _ _ E) as [r1 E1]. destruct (IH pts2 (PSym 41 :: pts4 ++ rest) f r1 Hp2 (or_intror eq_refl) E1) as (t1 & -> & Et). rewrite E1 in E. cbn [pbind starts tail] in E. change (isin (bytes_of ")") 41) with true in E. cbv iota in E.
    destruct (tredirs_complete rs ts' Hg pts4 rest Hp4 Hf) as (prs & Er & <-). rewrite Er in E. injection E as <-. exists (wrap t1 prs). rewrite ctree_wrap, Et. now split.
  - intros ts t _ IH pts rest [|f] r Hp Hf E; [discriminate E |]. cbn [tpipe] in E. destruct (pbind_some _ _ _ E) as [r1 E1]. destruct (IH pts rest f r1 Hp ltac:(weaken) E1) as (t1 & -> & Et). rewrite E1 in E. cbn [pbind] in E.
    change (bytes_of "|") with [124] in E. rewrite (follow_not _ 124 rest Hf eq_refl ltac:(discriminate)) in E. injection E as <-. eauto.
  - intros ts a ts' b _ IHa _ IHb pts rest [|f] r Hp Hf E; [discriminate E |]. apply ct_app in Hp as (pts1 & pts2 & -> & Hp1 & Hp). apply ct_sym in Hp as (pts3 & -> & Hp3).
    cbn [tpipe] in E. rewrite <- app_assoc in E. cbn [app] in E. destruct (pbind_some _ _ _ E) as [r1 E1]. destruct (IHa pts1 (PSym 124 :: pts3 ++ rest) f r1 Hp1 (or_intror eq_refl) E1) as (t1 & -> & <-). rewrite E1 in E. cbn [pbind starts tail] in E.
    change (isin (bytes_of "|") 124) with true in E. cbv iota in E. destruct (pbind_some _ _ _ E) as [r2 E2]. destruct (IHb pts3 rest f r2 Hp3 Hf E2) as (t2 & -> & <-). rewrite E2 in E. injection E as <-. now exists (TPipe t1 t2).
  - intros ts t _ IH pts rest f r Hp Hf E. destruct (IH pts rest f r Hp Hf E) as (t1 & -> & Et). now exists t1, rest, t1.
  - intros ts t _ IH pts rest f r Hp Hf E. apply ct_app in Hp as (pts1 & pts2 & -> & Hp1 & Hp). apply ct_sym in Hp as (pts3 & -> & Hp3). destruct pts3; [| discriminate Hp3]. rewrite <- app_assoc in E.
    destruct (IH pts1 (PSym 38 :: rest) f r Hp1 (or_intror eq_refl) E) as (t0 & ts0 & t1 & -> & Eb & <-). now exists t0, ts0, (TBack t1).
  - intros ts t _ IH pts rest [|f] r Hp Hf E; [discriminate E |]. cbn [tline] in E. destruct (pbind_some _ _ _ E) as [r1 E1]. destruct (IH pts rest f r1 Hp ltac:(weaken) E1) as (t0 & ts0 & t1 & -> & Eb & Et). rewrite E1 in E. cbn [pbind] in E.
    rewrite Eb, tback_follow in E by weaken. change (bytes_of ";") with [59] in E. rewrite (follow_not _ 59 rest Hf eq_refl ltac:(discriminate)) in E. injection E as <-. eauto.
  - intros ts a ts' b _ IHa _ IHb pts rest [|f] r Hp Hf E; [discriminate E |]. apply ct_app in Hp as (pts1 & pts2 & -> & Hp1 & Hp). apply ct_sym in Hp as (pts3 & -> & Hp3).
    cbn [tline] in E. rewrite <- app_assoc in E. cbn [app] in E. destruct (pbind_some _ _ _ E) as [r1 E1]. destruct (IHa pts1 (PSym 59 :: pts3 ++ rest) f r1 Hp1 (or_intror eq_refl) E1) as (t0 & ts0 & t1 & -> & Eb & <-). rewrite E1 in E. cbn [pbind] in E.
    rewrite Eb, tback_follow in E by (right; reflexivity). cbn [starts tail] in E. change (isin (bytes_of ";") 59) with true in E. cbv iota in E. destruct (pbind_some _ _ _ E) as [r2 E2]. destruct (IHb pts3 rest f r2 Hp3 Hf E2) as (t2 & -> & <-).
    rewrite E2 in E. injection E as <-. now exists (TList t1 t2).
Qed.
End grammar.

(** ** The words of a tree *)

Section words.
Variable P : Z -> Z -> Prop.

Fixpoint all_words (t : tree) : Prop :=
  match t with
  | TExec args => Forall (fun w => P (fst w) (snd w)) args
  | TRedir t q eq _ _ => P q eq /\ all_words t
  | TPipe a b | TList a b => all_words a /\ all_words b
  | TBack a => all_words a
  end.

Definition good (t : ptoken) : Prop := match t with PWord q eq => P q eq | _ => True end.

Lemma wrap_words rs : forall t, all_words t -> Forall (fun r : redir => P (fst (fst (fst r))) (snd (fst (fst r)))) rs -> all_words (wrap t rs).
Proof. induction rs as [|[[[q eq] mode] fd] rs IH]; intros t Ht Hr; [exact Ht |]. apply Forall_cons in Hr as [Hq Hr]. apply (IH (TRedir t q eq mode fd)); [now split | exact Hr]. Qed.

Lemma tredirs_words : forall n ts rs ts', (length ts <= n)%nat -> Forall good ts -> tredirs ts = Some (rs, ts') -> Forall (fun r : redir => P (fst (fst (fst r))) (snd (fst (fst r)))) rs /\ Forall good ts'.
Proof.
  induction n as [|n IH]; intros [|t ts] rs ts' Hn Hg; cbn [tredirs length] in *; try lia; try (intros [= <- <-]; now split).
  destruct (mode_of t) as [[mode fd]|]; [| intros [= <- <-]; now split]. destruct ts as [|[c | | q eq] ts]; try discriminate. cbn [length] in Hn. apply Forall_cons in Hg as [_ Hg]. apply Forall_cons in Hg as [Hq Hg].
  destruct (tredirs ts) as [[rs2 ts2]|] eqn:E; [| discriminate]. intros [= <- <-]. destruct (IH ts rs2 ts2) as [H1 H2]; [lia | exact Hg | exact E |]. split; [now constructor | exact H2].
Qed.

Lemma titems_words : forall n ts args rs t ts', (length ts <= n)%nat -> Forall good ts -> Forall (fun w => P (fst w) (snd w)) args -> Forall (fun r : redir => P (fst (fst (fst r))) (snd (fst (fst r)))) rs ->
  titems args rs ts = Some (t, ts') -> all_words t /\ Forall good ts'.
Proof.
  induction n as [|n IH]; intros [|t ts] args rs t' ts' Hn Hg Ha Hr; cbn [length] in *; try lia; try (intros [= <- <-]; split; [now apply wrap_words | constructor]).
  pose proof Hg as Hg0. apply Forall_cons in Hg as [Ht Hg]. destruct (mode_of t) as [[mode fd]|] eqn:Em.
  - destruct ts as [|[c | | q eq] ts]; try (destruct t; [cbn [titems]; rewrite Em; discriminate | discriminate | discriminate Em]). rewrite (titems_mode _ _ _ _ _ _ _ _ Em). cbn [length] in Hn. apply Forall_cons in Hg as [Hq Hg].
    apply IH; auto; [lia |]. apply Forall_app. split; [exact Hr | now constructor].
  - destruct t as [c | | q eq]; [| discriminate Em |]; cbn [titems]; rewrite ?Em; [destruct (starts _ _); [intros [= <- <-]; split; [now apply wrap_words | exact Hg0] | discriminate] |].
    destruct (_ <=? _); [discriminate |]. apply IH; auto; [lia |]. apply Forall_app. split; [exact Ha | now constructor].
Qed.

Lemma tback_words ts : forall t, all_words t -> Forall good ts -> all_words (fst (tback t ts)) /\ Forall good (snd (tback t ts)).
Proof. induction ts as [|[c | | q eq] ts IH]; intros t Ht Hg; cbn; auto. destruct (c =? 38); cbn; auto. apply Forall_cons in Hg as [_ Hg]. now apply IH. Qed.

Lemma good_tail ts : Forall good ts -> Forall good (tail ts).
Proof. intros Hg. destruct Hg; [constructor | assumption]. Qed.

Definition keeps_words (p : list ptoken -> option (option (tree * list ptoken))) : Prop := forall ts t ts', Forall good ts -> p ts = Some (Some (t, ts')) -> all_words t /\ Forall good ts'.

Lemma tparser_words f : keeps_words (tline f) /\ keeps_words (tpipe f) /\ keeps_words (texec f) /\ keeps_words (tblock f).
Proof.
  induction f as [|f (IHl & IHp & IHe & IHb)]; [split_and!; intros ts t ts' _ E; discriminate E |]. split_and!; intros ts t ts' Hg; cbn [tline tpipe texec tblock].
  - destruct (tpipe f ts) as [[[t0 ts0]|]|] eqn:E; cbn [pbind]; try discriminate. destruct (IHp _ _ _ Hg E) as [H1 H2]. destruct (tback_words ts0 t0 H1 H2) as [H3 H4]. destruct (tback t0 ts0) as [t1 ts1]. cbn [fst snd] in *.
    destruct (starts _ _); [| intros [= <- <-]; now split]. destruct (tline f (tail ts1)) as [[[t3 ts3]|]|] eqn:E2; cbn [pbind]; try discriminate. intros [= <- <-]. destruct (IHl _ _ _ (good_tail _ H4) E2). now split.
  - destruct (texec f ts) as [[[t0 ts0]|]|] eqn:E; cbn [pbind]; try discriminate. destruct (IHe _ _ _ Hg E) as [H1 H2].
    destruct (starts _ _); [| intros [= <- <-]; now split]. destruct (tpipe f (tail ts0)) as [[[t3 ts3]|]|] eqn:E2; cbn [pbind]; try discriminate. intros [= <- <-]. destruct (IHp _ _ _ (good_tail _ H2) E2). now split.
  - destruct (starts _ _); [now apply IHb |]. intros [= Hi]. exact (titems_words (length ts) ts [] [] t ts' (Nat.le_refl _) Hg (Forall_nil_2 _) (Forall_nil_2 _) Hi).
  - destruct (tline f (tail ts)) as [[[t0 ts0]|]|] eqn:E; cbn [pbind]; try discriminate. destruct (IHl _ _ _ (good_tail _ Hg) E) as [H1 H2]. destruct (starts _ _); [| discriminate].
    destruct (tredirs (tail ts0)) as [[rs rest]|] eqn:Er; [| discriminate]. intros [= <- <-]. destruct (tredirs_words _ _ _ _ (Nat.le_refl _) (good_tail _ H2) Er). split; [now apply wrap_words | assumption].
Qed.
End words.

(** A word from [q] to [eq] in the line from [lo] to [hi]. *)
Record word_at (m : memory) (lo hi q eq : Z) : Prop := {
  wa_range : lo <= q < eq /\ eq <= hi;
  wa_chars : forall i, q <= i < eq -> wordchar (m i) = true;
  wa_end : wordchar (m eq) = false }.

Lemma lexed_words m lo es s ts : lexed m es s ts -> lo <= s -> Forall (good (word_at m lo es)) ts.
Proof.
  induction 1 as [s Hs E | s t ts q eq s' E Hp Hg Hsq Hqe Hes Hse Hl IH]; intros Hlo; [constructor |]. constructor; [| apply IH; lia].
  destruct t as [c | | q' eq']; try exact I. cbn in Hp. destruct Hp as (-> & -> & Hlt & Hw & He). split; auto. lia.
Qed.

(** ** NUL termination *)

(** The ends of the words. *)
Fixpoint ends_of (t : tree) : list Z :=
  match t with
  | TExec args => map snd args
  | TRedir t _ eq _ _ => ends_of t ++ [eq]
  | TPipe a b | TList a b => ends_of a ++ ends_of b
  | TBack a => ends_of a
  end.

Record zeroed (l : list Z) (m m' : memory) : Prop := {
  ze_in : forall a, a ∈ l -> m' a = 0;
  ze_out : forall a, a ∉ l -> m' a = m a }.

Lemma zeroed_nil m : zeroed [] m m.
Proof. split; [inversion 1 | reflexivity]. Qed.

Lemma zeroed_app l1 l2 m m1 m2 : zeroed l1 m m1 -> zeroed l2 m1 m2 -> zeroed (l1 ++ l2) m m2.
Proof.
  intros [A1 A2] [B1 B2]. split; intros a Ha.
  - destruct (decide (a ∈ l2)) as [|Hn]; [now apply B1 |]. rewrite (B2 a Hn). apply A1. apply elem_of_app in Ha as [Ha | Ha]; [exact Ha | contradiction].
  - rewrite elem_of_app in Ha. rewrite B2, A2 by tauto. reflexivity.
Qed.

Lemma zeroed_one a m : zeroed [a] m (upd m a 0).
Proof. split; intros b Hb; unfold upd; [apply elem_of_cons in Hb as [-> | Hb]; [now rewrite Z.eqb_refl | inversion Hb] |]. rewrite not_elem_of_cons in Hb. now rewrite (proj2 (Z.eqb_neq b a)) by tauto. Qed.

(** What the nodes and the memory say: a command. *)
Fixpoint command (m : memory) (ns : list node) (p : Z) (c : ctree) : Prop :=
  0 < p /\
  match c with
  | CExec args => exists argv eargv, node_of ns p = Some (EXEC argv eargv) /\ arg_strings m argv = args
  | CRedir c f mode fd => exists q file efile, node_of ns p = Some (REDIR q file efile mode fd) /\ q < p /\ str m file = f /\ command m ns q c
  | CPipe a b => exists l r, node_of ns p = Some (PIPE l r) /\ l < p /\ r < p /\ command m ns l a /\ command m ns r b
  | CList a b => exists l r, node_of ns p = Some (LIST l r) /\ l < p /\ r < p /\ command m ns l a /\ command m ns r b
  | CBack a => exists q, node_of ns p = Some (BACK q) /\ q < p /\ command m ns q a
  end.

Lemma command_unique m ns c : forall c' p, command m ns p c -> command m ns p c' -> c' = c.
Proof.
  induction c as [args | c IH f mode fd | a IHa b IHb | a IHa b IHb | a IHa]; intros [args' | c' f' mode' fd' | a' b' | a' b' | a'] p H1 H2; cbn [command] in *;
    repeat match goal with Hc : _ /\ _ |- _ => destruct Hc | Hc : exists _, _ |- _ => destruct Hc end; simplify_eq; f_equal; eauto.
Qed.

Lemma str_word m m' lo hi q eq : word_at m lo hi q eq -> eq - q < LINESZ -> (forall i, q <= i < eq -> m' i = m i) -> m' eq = 0 -> str m' q = chars m q eq.
Proof.
  intros [[Hq He] Hw _] Hn Hm Hz. unfold str, LINESZ in *. destruct Hq as [_ Hq].
  assert (Hgen : forall n a, q <= a <= eq -> eq - a < Z.of_nat n -> bstr m' a n = chars m a eq); [| apply Hgen; lia].
  induction n as [|n IH]; intros a Ha Hlt; [lia |]. cbn [bstr]. destruct (decide (a = eq)) as [-> | Hne]; [rewrite Hz, chars_nil by lia; reflexivity |].
  rewrite (Hm a), (chars_cons m a eq) by lia. specialize (Hw a ltac:(lia)). unfold wordchar in Hw. apply andb_true_iff in Hw as [_ Hw]. rewrite (proj1 (negb_true_iff _) Hw). f_equal. apply IH; lia.
Qed.

Section terminate.
Context {W : Type} `{Sys W} `{Tasks W}.
Abbreviation S := (sh W).
Implicit Types x : S.

Lemma terminate_args_run args : forall k x, Forall (fun w => fst w <> 0) args -> (0 < k)%nat ->
  exists m', terminate_args (W := W) (map fst args ++ repeat 0 k) (map snd args ++ repeat 0 k) x = UOk tt (set_mem m' x) /\ zeroed (map snd args) (sh_mem x) m'.
Proof.
  induction args as [|[q eq] args IH]; intros k x Hq Hk.
  - destruct k; [lia |]. exists (sh_mem x). split; [now destruct x | apply zeroed_nil].
  - apply Forall_cons in Hq as [Hq Hqs]. cbn. rewrite (proj2 (Z.eqb_neq q 0) Hq). unfold ubind at 1, store_byte.
    destruct (IH k (set_mem (upd (sh_mem x) eq 0) x) Hqs Hk) as (m' & E & Hz). rewrite E. exists m'. split; [reflexivity |]. exact (zeroed_app [eq] _ _ _ _ (zeroed_one eq _) Hz).
Qed.

Lemma nulterminate_run ns t : forall f p x, nodes x = ns -> repr ns p t -> (Z.to_nat p <= f)%nat -> all_words (fun q _ => q <> 0) t ->
  exists m', nulterminate (W := W) f p x = UOk tt (set_mem m' x) /\ zeroed (ends_of t) (sh_mem x) m'.
Proof.
  induction t as [args | t IH q eq mode fd | a IHa b IHb | a IHa b IHb | a IHa]; intros f p x Hn [Hp Hr] Hf Hw; (destruct f as [|f]; [lia |]); cbn [nulterminate];
    (rewrite (proj2 (Z.eqb_neq p 0)) by lia); unfold node_at; unfold ubind at 1; rewrite Hn; fold (node_of ns p).
  - destruct Hr as [-> Hl]. unfold zeros. apply terminate_args_run; [exact Hw | lia].
  - destruct Hr as (c & -> & Hc & Hr). destruct Hw as [_ Hw]. destruct (IH f c x Hn Hr ltac:(lia) Hw) as (m1 & E1 & Hz1). rewrite (ubind_ok _ _ _ _ _ E1).
    exists (upd m1 eq 0). split; [reflexivity |]. exact (zeroed_app _ _ _ _ _ Hz1 (zeroed_one eq m1)).
  - destruct Hr as (l & r & -> & Hl & Hr & Ha & Hb). destruct Hw as [Hwa Hwb]. destruct (IHa f l x Hn Ha ltac:(lia) Hwa) as (m1 & E1 & Hz1). rewrite (ubind_ok _ _ _ _ _ E1).
    destruct (IHb f r (set_mem m1 x) Hn Hb ltac:(lia) Hwb) as (m2 & E2 & Hz2). rewrite E2. exists m2. split; [reflexivity | exact (zeroed_app _ _ _ _ _ Hz1 Hz2)].
  - destruct Hr as (l & r & -> & Hl & Hr & Ha & Hb). destruct Hw as [Hwa Hwb]. destruct (IHa f l x Hn Ha ltac:(lia) Hwa) as (m1 & E1 & Hz1). rewrite (ubind_ok _ _ _ _ _ E1).
    destruct (IHb f r (set_mem m1 x) Hn Hb ltac:(lia) Hwb) as (m2 & E2 & Hz2). rewrite E2. exists m2. split; [reflexivity | exact (zeroed_app _ _ _ _ _ Hz1 Hz2)].
  - destruct Hr as (c & -> & Hc & Hr). exact (IHa f c x Hn Hr ltac:(lia) Hw).
Qed.
End terminate.

(** ** Lines *)

Lemma cstr_text l : forall m s, Mem.cstr m s l -> text m s (s + Z.of_nat (length l)) /\ chars m s (s + Z.of_nat (length l)) = l.
Proof.
  induction l as [|c l IH]; intros m s; cbn [Mem.cstr length].
  - intros E. rewrite Z.add_0_r. split; [split; [lia | exact E | intros i Hi; lia] | now rewrite chars_nil by lia].
  - intros (E & Hc & Hl). destruct (IH m (s + 1) Hl) as [[T1 T2 T3] Ec]. replace (s + Z.of_nat (Datatypes.S (length l))) with (s + 1 + Z.of_nat (length l)) by lia. split.
    + split; [lia | exact T2 |]. intros i Hi. destruct (decide (i = s)) as [-> |]; [congruence | apply T3; lia].
    + rewrite chars_cons by lia. now rewrite E, Ec.
Qed.

Section lines.
Context {W : Type} `{Sys W} `{Tasks W}.
Abbreviation S := (sh W).
Implicit Types x : S.

Lemma repr_command m m' lo hi ns t : (forall a, wordchar (m a) = true -> m' a = m a) -> 0 < lo -> hi - lo < LINESZ -> forall p, repr ns p t -> all_words (word_at m lo hi) t ->
  (forall a, a ∈ ends_of t -> m' a = 0) -> command m' ns p (ctree_of m t).
Proof.
  intros Hm Hlo Hn. assert (Hs : forall q eq, word_at m lo hi q eq -> m' eq = 0 -> str m' q = chars m q eq).
  { intros q eq Hw Hz. destruct (wa_range _ _ _ _ _ Hw). apply (str_word m m' lo hi); [exact Hw | lia | | exact Hz]. intros i Hi. apply Hm, (wa_chars _ _ _ _ _ Hw). lia. }
  induction t as [args | t IH q eq mode fd | a IHa b IHb | a IHa b IHb | a IHa]; intros p [Hp Hr] Hw Hz; cbn [command ctree_of]; (split; [exact Hp |]).
  - destruct Hr as [En _]. do 2 eexists. split; [exact En |]. unfold zeros. generalize (Z.to_nat MAXARGS - length args)%nat as k. intros k. cbn in Hw, Hz. clear En. induction args as [|[q eq] args IH].
    + now destruct k.
    + apply Forall_cons in Hw as [Hq Hw]. cbn. destruct (wa_range _ _ _ _ _ Hq). cbn [fst snd] in *. rewrite (proj2 (Z.eqb_neq q 0)) by lia.
      rewrite (Hs q eq Hq) by (apply Hz; apply list_elem_of_here). rewrite IH; [reflexivity | exact Hw |]. intros a Ha. apply Hz. now apply list_elem_of_further.
  - destruct Hr as (c & En & Hc & Hr). destruct Hw as [Hq Hw]. cbn in Hz. exists c, q, eq. split_and!; [exact En | exact Hc | apply (Hs q eq Hq); apply Hz; rewrite elem_of_app; right; apply list_elem_of_here |].
    apply IH; auto. intros a Ha. apply Hz. rewrite elem_of_app. now left.
  - destruct Hr as (l & r & En & Hl & Hr & Ha & Hb). destruct Hw as [Hwa Hwb]. cbn in Hz. exists l, r. split_and!; [exact En | exact Hl | exact Hr | apply IHa; auto | apply IHb; auto]; intros v Hv; apply Hz; rewrite elem_of_app; tauto.
  - destruct Hr as (l & r & En & Hl & Hr & Ha & Hb). destruct Hw as [Hwa Hwb]. cbn in Hz. exists l, r. split_and!; [exact En | exact Hl | exact Hr | apply IHa; auto | apply IHb; auto]; intros v Hv; apply Hz; rewrite elem_of_app; tauto.
  - destruct Hr as (c & En & Hc & Hr). exists c. split_and!; [exact En | exact Hc |]. now apply IHa.
Qed.

(** A line in memory, and room for the nodes. *)
Record line_at x (s : Z) (l : list Z) : Prop := {
  la_pos : 0 < s;
  la_str : Mem.cstr (sh_mem x) s l;
  la_len : Z.of_nat (length l) < LINESZ;
  la_room : 2 * Z.of_nat (length l) + 1 <= left_ x }.

Lemma all_words_mono (P Q : Z -> Z -> Prop) t : (forall q eq, P q eq -> Q q eq) -> all_words P t -> all_words Q t.
Proof. intros HPQ. induction t; cbn; try tauto; [| firstorder]. intros Hf. eapply Forall_impl; [exact Hf | auto]. Qed.

Lemma words_ends (P : Z -> Z -> Prop) t a : all_words P t -> a ∈ ends_of t -> exists q, P q a.
Proof.
  induction t as [args | t IH q eq mode fd | u IHu v IHv | u IHu v IHv | u IHu]; cbn.
  - intros Hw Ha. apply list_elem_of_fmap in Ha as ([q eq] & -> & Hin). rewrite Forall_forall in Hw. exists q. exact (Hw _ Hin).
  - intros [Hq Hw] Ha. apply elem_of_app in Ha as [Ha | Ha]; [auto |]. apply elem_of_cons in Ha as [-> | Ha]; [eauto | inversion Ha].
  - intros [Hu Hv] Ha. apply elem_of_app in Ha as [Ha | Ha]; auto.
  - intros [Hu Hv] Ha. apply elem_of_app in Ha as [Ha | Ha]; auto.
  - auto.
Qed.

Lemma parsecmd_run x s l : line_at x s l -> let es := s + Z.of_nat (length l) in
  exists pts, lexed (sh_mem x) es s pts /\ map (content (sh_mem x)) pts = tokens [] l /\ exists o, tline (parse_fuel (Z.of_nat (length l))) pts = Some o /\
  match o with
  | Some (t, []) => exists p x', parsecmd s x = UOk p x' /\ repr (nodes x') p t /\ all_words (word_at (sh_mem x) s es) t /\ zeroed (ends_of t) (sh_mem x) (sh_mem x') /\ outside x' = outside x /\ exists k, nodes x' = nodes x ++ k
  | _ => exists x', parsecmd s x = UExit 1 x'
  end.
Proof.
  intros [L1 L2 L3 L4] es. destruct (cstr_text l (sh_mem x) s L2) as [Ht Hc]. fold es in Ht, Hc. destruct (lex_line _ es _ s (Nat.le_refl _) Ht) as (pts & Hl & Hct). rewrite Hc in Hct.
  exists pts. split; [exact Hl |]. split; [exact Hct |]. pose proof (lexed_le _ _ _ _ Hl) as Hle. pose proof (tparser_total (sh_mem x) (parse_fuel (Z.of_nat (length l))) pts) as [Htot _].
  destruct (tline (parse_fuel (Z.of_nat (length l))) pts) as [o|] eqn:Eo; [| exfalso; apply Htot; [unfold parse_fuel; lia | reflexivity]]. exists o. split; [reflexivity |].
  destruct (parser_sim (W := W) es (parse_fuel (Z.of_nat (length l)))) as [Hsim _].
  specialize (Hsim pts s x o ltac:(split_and!; [apply Ht | exact Hl | unfold size; lia]) Eo). unfold parsecmd. rewrite (ubind_ok mem_ _ x (sh_mem x) x) by reflexivity.
  rewrite (strlen_spec _ _ _ l L2) by (unfold LINESZ in *; lia). fold es.
  destruct o as [[t ts']|]; [| destruct Hsim as (x' & E); rewrite (ubind_exit _ _ _ _ _ E); eauto]. destruct Hsim as (p & s' & x1 & E & Hl' & Hx1 & Hr & Hp & _ & _).
  rewrite (ubind_ok _ _ _ _ _ E), (ubind_ok mem_ _ x1 (sh_mem x1) x1) by reflexivity. rewrite (ex_mem _ _ Hx1).
  destruct (peek_run _ es s' ts' [] eq_refl (tx_end _ _ _ Ht) Hl') as (q & Epk & Hl2). rewrite Epk.
  destruct (Z.eqb_spec q es) as [-> | Hq]; cbn [negb].
  - assert (ts' = []) as -> by (destruct ts'; [reflexivity |]; apply lexed_le in Hl2; cbn in Hl2; lia).
    destruct (tparser_words (word_at (sh_mem x) s es) (parse_fuel (Z.of_nat (length l)))) as [Hkw _]. destruct (Hkw _ _ _ (lexed_words _ s es s pts Hl ltac:(lia)) Eo) as [Hw _].
    destruct (nulterminate_run (W := W) (nodes x1) t (Z.to_nat p) p x1 eq_refl Hr ltac:(lia)) as (m' & E2 & Hz); [apply (all_words_mono (word_at (sh_mem x) s es)); [intros a b Hab; destruct (wa_range _ _ _ _ _ Hab); lia | exact Hw] |].
    rewrite (ubind_ok _ _ _ _ _ E2). rewrite (ex_mem _ _ Hx1) in Hz. exists p, (set_mem m' x1). split_and!; auto; [exact (ex_out _ _ Hx1) | exact (ex_nodes _ _ Hx1)].
  - destruct ts' as [|t' ts']; [exfalso; apply Hq; unfold peek in Epk; rewrite (lexed_nil_skip _ _ _ Hl') in Epk; congruence |]. clear Hq.
    destruct (io_returns (fprintf 2 ("leftovers: %s" ++ String (Ascii.ascii_of_nat 10) EmptyString) [VStr (Some (str (sh_mem x) q))]) x1) as (a & w & E2); [printed |].
    rewrite (ubind_ok _ _ _ _ _ E2). destruct (panic_exits (A := Z) "syntax" (set_outside w x1)) as (w' & ->). eauto.
Qed.

Lemma parsecmd_cases x s l : line_at x s l ->
  (exists c p x', parsecmd s x = UOk p x' /\ command (sh_mem x') (nodes x') p c /\ outside x' = outside x /\ g_line (tokens [] l) c /\ forall c', g_line (tokens [] l) c' -> c' = c) \/
  (exists x', parsecmd s x = UExit 1 x') /\ forall c, ~ g_line (tokens [] l) c.
Proof.
  intros Hl. destruct (parsecmd_run x s l Hl) as (pts & Hlex & Hct & o & Eo & Hrun). set (es := s + Z.of_nat (length l)) in *.
  assert (Hcomp : forall c, g_line (tokens [] l) c -> exists t, o = Some (t, []) /\ ctree_of (sh_mem x) t = c).
  { intros c Hg. destruct (tparser_complete (sh_mem x)) as (_ & _ & _ & Hcomp). apply (Hcomp _ _ Hg pts [] (parse_fuel (Z.of_nat (length l))) o Hct (or_introl eq_refl)). now rewrite app_nil_r. }
  destruct o as [[t [|t' ts']]|]; [left | right; split; [exact Hrun |]; intros c Hg; destruct (Hcomp c Hg) as (t0 & E & _); discriminate E | right; split; [exact Hrun |]; intros c Hg; destruct (Hcomp c Hg) as (t0 & E & _); discriminate E].
  destruct Hrun as (p & x' & E & Hr & Hw & [Hz1 Hz2] & Hout & _). exists (ctree_of (sh_mem x) t), p, x'. split_and!; auto.
  - apply (repr_command _ _ s es); auto; [| apply Hl | pose proof (la_len _ _ _ Hl); lia].
    intros a Ha. apply Hz2. intros Hin. destruct (words_ends _ _ _ Hw Hin) as [q Hq]. rewrite (wa_end _ _ _ _ _ Hq) in Ha. discriminate Ha.
  - destruct (tparser_sound (sh_mem x) (parse_fuel (Z.of_nat (length l)))) as [Hs _]. destruct (Hs _ _ _ Eo) as (ts1 & E1 & Hg). rewrite app_nil_r in E1. subst ts1. now rewrite <- Hct.
  - intros c Hg. destruct (Hcomp c Hg) as (t0 & E0 & <-). now injection E0 as <-.
Qed.

(** C28: The parser accepts the lines of the grammar and no others: a line parses to
    the command [c] exactly when the grammar derives [c] from its tokens, and
    the nodes, together with the strings that are NUL-terminated in place, are
    [c].  Otherwise the shell exits with status 1; the parser always ends, and
    what it does is defined. *)
Theorem parsecmd_correct x s l : line_at x s l ->
  (forall c, g_line (tokens [] l) c <-> exists p x', parsecmd s x = UOk p x' /\ command (sh_mem x') (nodes x') p c) /\
  ((exists p x', parsecmd s x = UOk p x') \/ (exists x', parsecmd s x = UExit 1 x')).
Proof.
  intros Hl. destruct (parsecmd_cases x s l Hl) as [(c0 & p0 & x0 & E0 & Hc0 & _ & Hg0 & Hu) | [(x0 & E0) Hn]].
  - split; [intros c; split; [intros Hg; rewrite (Hu c Hg); eauto |] | left; eauto]. intros (p & x' & E & Hc). rewrite E in E0. injection E0 as -> ->. now rewrite (command_unique _ _ _ _ _ Hc0 Hc).
  - split; [intros c; split; [intros Hg; now destruct (Hn c) | intros (p & x' & E & _); congruence] | right; eauto].
Qed.

(** C29: Every pointer of a parsed command is in the line, a simple command has fewer
    than [MAXARGS] arguments, pointers to nodes lead to older nodes, and the
    parser writes no byte outside of the line and no older node. *)
Theorem parsecmd_bounds x s l p x' : line_at x s l -> parsecmd s x = UOk p x' ->
  exists t, repr (nodes x') p t /\ all_words (fun q eq => s <= q < eq /\ eq <= s + Z.of_nat (length l)) t /\
    (forall a, a < s \/ s + Z.of_nat (length l) < a -> sh_mem x' a = sh_mem x a) /\ exists new, nodes x' = nodes x ++ new.
Proof.
  intros Hl E. destruct (parsecmd_run x s l Hl) as (pts & _ & _ & o & _ & Hrun). destruct o as [[t [|t' ts']]|]; [| destruct Hrun as (x2 & E2); congruence | destruct Hrun as (x2 & E2); congruence].
  destruct Hrun as (p2 & x2 & E2 & Hr & Hw & [_ Hz] & _ & Hn). rewrite E in E2. injection E2 as <- <-. exists t. split_and!; auto.
  - apply (all_words_mono _ _ _ (fun q eq Hq => wa_range _ _ _ _ _ Hq) Hw).
  - intros a Ha. apply Hz. intros Hin. destruct (words_ends _ _ _ Hw Hin) as [q Hq]. destruct (wa_range _ _ _ _ _ Hq). lia.
Qed.

End lines.

(** ** Running a command *)

(** What a descriptor refers to: a file that was opened, an end of the [n]-th
    pipe that the process and its ancestors made, or something it started with. *)
Inductive desc := Opened (path : list Z) (mode : Z) | PipeEnd (n : Z) (for_writing : bool) | Given (k : Z).

Abbreviation fdtable := (gmap Z desc).
Definition lowest (t : fdtable) (fd : Z) : Prop := 0 <= fd /\ t !! fd = None /\ forall g, 0 <= g < fd -> t !! g <> None.

(** The calls that shape the tree of processes: a [fork] as its child or its
    parent sees it, and a [wait]. *)
Inductive pcall := Fork (child : bool) | Wait.

(** What has happened in a process and its ancestors: how many pipes were made,
    the calls so far, and whether a call of [open], [pipe], [fork] or [exec] was
    refused. *)
Record trail := Trail { made : Z; calls : list pcall; refused : bool }.
Definition refuse (g : trail) : trail := Trail (made g) (calls g) true.
Definition log_call (e : pcall) (g : trail) : trail := Trail (made g) (calls g ++ [e]) (refused g).
Definition add_pipe (g : trail) : trail := Trail (made g + 1) (calls g) (refused g).

(** What the system calls do to the descriptors of the process: [open], [dup]
    and [pipe] take free ones, [open] and [dup] the lowest; [fork] and [exec]
    leave them.  [history] records the calls. *)
Class Descriptors (W : Type) `{Sys W} `{Tasks W} := {
  table : W -> fdtable;
  history : W -> trail;
  close_law : forall fd w, let w' := snd (sys_close fd w) in table w' = delete fd (table w) /\ history w' = history w;
  open_law : forall path mode w, let '(r, w') := sys_open path mode w in
    r < 0 /\ table w' = table w /\ history w' = refuse (history w) \/
    lowest (table w) r /\ table w' = <[r := Opened path mode]> (table w) /\ history w' = history w;
  dup_law : forall fd d w g, table w !! fd = Some d -> lowest (table w) g -> g < 3 ->
    exists w', sys_dup fd w = (g, w') /\ table w' = <[g := d]> (table w) /\ history w' = history w;
  pipe_law : forall w, match sys_pipe w with
    | (None, w') => table w' = table w /\ history w' = refuse (history w)
    | (Some (p0, p1), w') => table w !! p0 = None /\ table w !! p1 = None /\ p0 <> p1 /\ history w' = add_pipe (history w) /\
        table w' = <[p1 := PipeEnd (made (history w)) true]> (<[p0 := PipeEnd (made (history w)) false]> (table w))
    end;
  fork_law : forall w, let '(r, w') := sys_fork w in table w' = table w /\
    history w' = if r =? -1 then refuse (history w) else log_call (Fork (r =? 0)) (history w);
  wait_law : forall w, table (snd (sys_wait w)) = table w /\ history (snd (sys_wait w)) = log_call Wait (history w);
  write_law : forall fd b w, table (snd (sys_write fd b w)) = table w /\ history (snd (sys_write fd b w)) = history w;
  exec_law : forall path argv w, let '(r, w') := sys_exec path argv w in table w' = table w /\
    history w' = match r with None => history w | Some _ => refuse (history w) end }.

(** What becomes of a process: it turns into a program with its descriptors, or
    it is done. *)
Inductive fate := Runs (argv : list (list Z)) (t : fdtable) | Done.

(** What a command prescribes: [follows n c t es o] when a process that runs the
    command [c] with the descriptors [t], after [n] pipes, and makes the calls
    [es], has the fate [o].  There is a process for each simple command, and in
    between processes that fork them: a list waits for its first command before it
    runs the second, a pipe waits for both sides, and a command in the background
    is not waited for. *)
Inductive follows : Z -> ctree -> fdtable -> list pcall -> fate -> Prop :=
| F_exec n args t : args <> [] -> follows n (CExec args) t [] (Runs args t)
| F_empty n t : follows n (CExec []) t [] Done
| F_redir n c f mode fd t es o : follows n c (<[fd := Opened f mode]> t) es o -> follows n (CRedir c f mode fd) t es o
| F_left n a b t es o : follows (n + 1) a (<[1 := PipeEnd n true]> t) es o -> follows n (CPipe a b) t (Fork true :: es) o
| F_right n a b t es o : follows (n + 1) b (<[0 := PipeEnd n false]> t) es o -> follows n (CPipe a b) t (Fork false :: Fork true :: es) o
| F_both n a b t : follows n (CPipe a b) t [Fork false; Fork false; Wait; Wait] Done
| F_first n a b t es o : follows n a t es o -> follows n (CList a b) t (Fork true :: es) o
| F_second n a b t es o : follows n b t es o -> follows n (CList a b) t (Fork false :: Wait :: es) o
| F_back n a t es o : follows n a t es o -> follows n (CBack a) t (Fork true :: es) o
| F_fore n a t : follows n (CBack a) t [Fork false] Done.

(** Redirections are of descriptor 0 or 1. *)
Fixpoint std_redirs (c : ctree) : Prop :=
  match c with
  | CExec _ => True
  | CRedir c _ _ fd => (fd = 0 \/ fd = 1) /\ std_redirs c
  | CPipe a b | CList a b => std_redirs a /\ std_redirs b
  | CBack a => std_redirs a
  end.

Definition std_open (t : fdtable) : Prop := t !! 0 <> None /\ t !! 1 <> None.

Lemma items_std ws rs ts : g_items ws rs ts -> Forall (fun r : credir => snd r = 0 \/ snd r = 1) rs.
Proof.
  induction 1 as [| w ws rs ts _ IH | k w mode fd ws rs ts Hm _ IH]; auto. constructor; [| exact IH]. cbn. destruct k as [c | |]; try discriminate Hm; cbn in Hm; [| injection Hm as _ <-; auto].
  destruct (c =? 60); [injection Hm as _ <-; auto |]. destruct (c =? 62); [injection Hm as _ <-; auto | discriminate Hm].
Qed.

Lemma cwrap_std rs : forall t, std_redirs t -> Forall (fun r : credir => snd r = 0 \/ snd r = 1) rs -> std_redirs (cwrap t rs).
Proof. induction rs as [|[[w mode] fd] rs IH]; intros t Ht Hr; [exact Ht |]. apply Forall_cons in Hr as [Hfd Hr]. apply (IH (CRedir t w mode fd)); [now split | exact Hr]. Qed.

Lemma grammar_std : (forall ts c, g_exec ts c -> std_redirs c) /\ (forall ts c, g_pipe ts c -> std_redirs c) /\ (forall ts c, g_back ts c -> std_redirs c) /\ (forall ts c, g_line ts c -> std_redirs c).
Proof.
  apply g_min; cbn; auto.
  - intros ws rs ts Hg _. apply cwrap_std; [exact I | exact (items_std _ _ _ Hg)].
  - intros ts t rs ts' _ IH Hg. apply cwrap_std; [exact IH | exact (items_std _ _ _ Hg)].
Qed.

Section run.
Context {W : Type} `{Descriptors W}.
Abbreviation S := (sh W).
Implicit Types x : S.

Record view (m : memory) (ns : list node) (g : trail) (t : fdtable) x : Prop := {
  vw_mem : sh_mem x = m; vw_nodes : nodes x = ns; vw_trail : history (outside x) = g; vw_table : table (outside x) = t }.

(** The process has a fate that the command prescribes, or is done since a call
    was refused. *)
Definition ran (g : trail) (c : ctree) (t : fdtable) (r : ures S unit) : Prop :=
  match r with
  | UExit _ x => refused (history (outside x)) = true \/ exists es, calls (history (outside x)) = calls g ++ es /\ follows (made g) c t es Done
  | UExec path argv x => head argv = Some path /\ exists es, calls (history (outside x)) = calls g ++ es /\ follows (made g) c t es (Runs argv (table (outside x)))
  | _ => False
  end.

Lemma ran_bind g c t (k : UM S unit) (f : unit -> UM S unit) x : ran g c t (k x) -> ran g c t (ubind k f x).
Proof. unfold ubind. now destruct (k x). Qed.

Lemma ran_weaken g c t g' c' t' es0 r : (forall es o, follows (made g) c t es o -> follows (made g') c' t' (es0 ++ es) o) -> calls g = calls g' ++ es0 ->
  ran g c t r -> ran g' c' t' r.
Proof.
  intros Hl Hg. destruct r; cbn; auto.
  - intros [? | (es & E & Hf)]; [now left | right]. exists (es0 ++ es). rewrite E, Hg, <- app_assoc. auto.
  - intros (? & es & E & Hf). split; [assumption |]. exists (es0 ++ es). rewrite E, Hg, <- app_assoc. auto.
Qed.

Lemma view_close fd m ns g t x : view m ns g t x -> exists r x', io (close fd) x = UOk r x' /\ view m ns g (delete fd t) x'.
Proof.
  intros [V1 V2 V3 V4]. unfold io, close. pose proof (close_law fd (outside x)) as [L1 L2]. destruct (sys_close fd (outside x)) as [r w']. cbn in *. eexists _, _. split; [reflexivity |]. split; cbn; congruence.
Qed.

(** Printing leaves no trace. *)
Lemma putc_history fd c (w : W) a w' : putc fd c w = UOk a w' -> history w' = history w.
Proof.
  unfold putc, ubind, write. pose proof (write_law fd [u8 c] w) as [_ L]. destruct (sys_write fd [u8 c] w) as [r w1]. intros [= _ <-]. exact L.
Qed.
Lemma putcs_history fd l : forall (w : W) a w', putcs_to fd l w = UOk a w' -> history w' = history w.
Proof.
  induction l as [|c l IH]; intros w a w' E; cbn [putcs_to] in E; [now injection E as _ <- |]. unfold ubind in E. destruct (putc fd c w) as [b w1| | | |] eqn:E1; try discriminate.
  rewrite (IH _ _ _ E). exact (putc_history _ _ _ _ _ E1).
Qed.
Lemma vprintf_history k fd f : forall i pct ap (w : W) a w', vprintf_loop k fd f i pct ap w = UOk a w' -> history w' = history w.
Proof.
  induction k as [|k IH]; intros i pct ap w a w' E; [discriminate |]. cbn [vprintf_loop] in E. destruct (chr f i =? 0); [now injection E as _ <- |]. destruct (negb pct).
  - destruct (chr f i =? 37); [eauto |]. unfold ubind in E. destruct (putc fd (chr f i) w) as [b w1| | | |] eqn:E1; try discriminate. rewrite (IH _ _ _ _ _ _ E). exact (putc_history _ _ _ _ _ E1).
  - destruct (uconversion _ _ _ ap) as [[[o ap'] skip]|]; [| discriminate]. unfold ubind in E. destruct (putcs_to fd o w) as [b w1| | | |] eqn:E1; try discriminate.
    rewrite (IH _ _ _ _ _ _ E). exact (putcs_history _ _ _ _ _ E1).
Qed.

(** A message and the exit after a call that was refused. *)
Lemma refused_exit g c t fmt ap n x : returns (V := W) (fprintf 2 fmt ap) -> refused (history (outside x)) = true -> ran g c t ((io (fprintf 2 fmt ap);; uexit n)%U x).
Proof.
  intros Hk Hr. destruct (Hk (outside x)) as (a & w & E). unfold ubind, io. rewrite E. cbn. left. rewrite (vprintf_history _ _ _ _ _ _ _ _ _ E). exact Hr.
Qed.
Lemma refused_panic g c t s x : refused (history (outside x)) = true -> ran g c t (upanic s x).
Proof. intros Hr. apply refused_exit; [printed | exact Hr]. Qed.

Lemma view_fork m ns g t x : view m ns g t x ->
  (exists x', fork1 x = UExit 1 x' /\ refused (history (outside x')) = true) \/ (exists r x', fork1 x = UOk r x' /\ view m ns (log_call (Fork (r =? 0)) g) t x').
Proof.
  intros [V1 V2 V3 V4]. pose proof (fork_law (outside x)) as L. destruct (sys_fork (outside x)) as [r w'] eqn:Ef. destruct L as [L1 L2].
  assert (E : fork1 x = (if r =? -1 then upanic "fork" else uret r) (set_outside w' x)) by (unfold fork1, ufork, io, ubind; now rewrite Ef). rewrite E. clear E.
  destruct (r =? -1) eqn:Er; [left | right; eexists _, _; split; [reflexivity |]; split; cbn; congruence].
  assert (Hk : returns (V := W) (fprintf 2 ("%s" ++ String (Ascii.ascii_of_nat 10) EmptyString) [VStr (Some (bytes_of "fork"))])) by printed.
  destruct (Hk w') as (a & w & E). eexists. unfold upanic, ubind, io. cbn [outside set_outside]. rewrite E. split; [reflexivity |]. cbn. rewrite (vprintf_history _ _ _ _ _ _ _ _ _ E). now rewrite L2.
Qed.

Lemma view_wait m ns g t x : view m ns g t x -> exists r x', uwait x = UOk r x' /\ view m ns (log_call Wait g) t x'.
Proof.
  intros [V1 V2 V3 V4]. unfold uwait, io. pose proof (wait_law (outside x)) as [L1 L2]. destruct (sys_wait (outside x)) as [r w']. cbn in *. eexists _, _. split; [reflexivity |]. split; cbn; congruence.
Qed.

Lemma view_dup fd d fd' m ns g t x : view m ns g t x -> t !! fd = Some d -> lowest t fd' -> fd' < 3 -> exists x', udup fd x = UOk fd' x' /\ view m ns g (<[fd' := d]> t) x'.
Proof.
  intros [V1 V2 V3 V4] Hfd Hg Hlt. unfold udup, io. subst t. destruct (dup_law fd d (outside x) fd' Hfd Hg Hlt) as (w' & -> & L1 & L2). eexists. split; [reflexivity |]. split; cbn; congruence.
Qed.

(** [close(fd); open(...)] and [close(fd); dup(...)] reuse the descriptor. *)
Lemma lowest_delete (t : fdtable) fd : std_open t -> fd = 0 \/ fd = 1 -> lowest (delete fd t) fd.
Proof.
  intros [H0' H1'] Hfd. split; [lia |]. split; [apply lookup_delete_eq |]. intros g Hg. assert (g = 0 /\ fd = 1) as [-> ->] by lia. now rewrite lookup_delete_ne by lia.
Qed.

Lemma lowest_unique t g g' : lowest t g -> lowest t g' -> g' = g.
Proof. intros (A1 & A2 & A3) (B1 & B2 & B3). destruct (Z.lt_trichotomy g g') as [Hlt | [E | Hlt]]; [now destruct (B3 g) | now symmetry | now destruct (A3 g')]. Qed.

Lemma std_insert fd d (t : fdtable) : std_open t -> std_open (<[fd := d]> t).
Proof. intros [H0' H1']. split; rewrite lookup_insert; case_decide; congruence. Qed.

(** The descriptors of the left (right) side of a pipe. *)
Lemma pipe_side p0 p1 d0 d1 fd d (t : fdtable) : t !! p0 = None -> t !! p1 = None -> p0 <> p1 -> t !! fd <> None ->
  delete p1 (delete p0 (<[fd := d]> (delete fd (<[p1 := d1]> (<[p0 := d0]> t))))) = <[fd := d]> t.
Proof.
  intros H0' H1' Hne Hfd. assert (p0 <> fd) by congruence. assert (p1 <> fd) by congruence. apply map_eq. intros g. rewrite !lookup_delete, !lookup_insert, !lookup_delete, !lookup_insert.
  repeat case_decide; subst; congruence.
Qed.

(** A process that is done without another call. *)
Lemma done_ran g c t n x es : calls (history (outside x)) = calls g ++ es -> follows (made g) c t es Done -> ran g c t (uexit n x).
Proof. intros E Hf. right. eauto. Qed.

Lemma exec_ran m ns g t argv x : view m ns g t x -> ran g (CExec (arg_strings m argv)) t
  ((if nthZ 0 argv 0 =? 0 then uexit 1
    else uexec (str m (nthZ 0 argv 0)) (arg_strings m argv);; io (fprintf 2 ("exec %s failed" ++ NLs) [VStr (Some (str m (nthZ 0 argv 0)))]);; uexit 0)%U x).
Proof.
  intros [V1 V2 V3 V4]. destruct (Z.eqb_spec (nthZ 0 argv 0) 0) as [Hz | Hnz].
  - apply (done_ran _ _ _ _ _ []); [now rewrite V3, app_nil_r |]. destruct argv as [|a argv]; [constructor |]. change (nthZ 0 (a :: argv) 0) with a in Hz. cbn [arg_strings]. rewrite Hz. constructor.
  - unfold uexec, io at 1, ubind at 1. pose proof (exec_law (str m (nthZ 0 argv 0)) (arg_strings m argv) (outside x)) as L.
    destruct (sys_exec _ _ (outside x)) as [[r|] w']; destruct L as [L1 L2]; [apply refused_exit; [printed | cbn; now rewrite L2] |].
    cbn. destruct argv as [|a argv]; [now destruct Hnz |]. change (nthZ 0 (a :: argv) 0) with a in *. cbn [arg_strings]. rewrite (proj2 (Z.eqb_neq a 0) Hnz). split; [reflexivity |].
    exists []. rewrite L1, L2, V3, V4, app_nil_r. split; [reflexivity | now constructor].
Qed.

Lemma redir_ran m ns g t c f q file mode fd x :
  (forall t x, view m ns g t x -> std_open t -> ran g c t (runcmd f q x)) -> fd = 0 \/ fd = 1 -> std_open t -> view m ns g t x ->
  ran g (CRedir c (str m file) mode fd) t
    ((io (close fd);; r <- io (open (str m file) mode);;
      if r <? 0 then io (fprintf 2 ("open %s failed" ++ NLs) [VStr (Some (str m file))]);; uexit 1 else runcmd f q;; uexit 0)%U x).
Proof.
  intros IH Hfd Ht Hv. destruct (view_close fd _ _ _ _ _ Hv) as (r & x1 & E1 & [V1 V2 V3 V4]). rewrite (ubind_ok _ _ _ _ _ E1). unfold open, io at 1, ubind at 1. pose proof (open_law (str m file) mode (outside x1)) as L.
  destruct (sys_open (str m file) mode (outside x1)) as [r2 w2]. destruct (Z.ltb_spec r2 0) as [Hlt | Hge].
  - destruct L as [(_ & _ & L) | [(? & _) _]]; [| lia]. apply refused_exit; [printed | cbn; now rewrite L].
  - destruct L as [(? & _) | (Hlow & L2 & L1)]; [lia |]. rewrite V4 in Hlow, L2. assert (r2 = fd) as -> by exact (lowest_unique _ _ _ (lowest_delete t fd Ht Hfd) Hlow). rewrite insert_delete_eq in L2.
    apply ran_bind. apply (ran_weaken g c (<[fd := Opened (str m file) mode]> t) g _ _ []); [intros es o; apply F_redir | now rewrite app_nil_r |]. apply IH; [split; cbn; congruence | now apply std_insert].
Qed.

Lemma side_ran m ns g t c p0 p1 d0 d1 src fd d f q x :
  (forall t x, view m ns g t x -> std_open t -> ran g c t (runcmd f q x)) -> std_open t -> fd = 0 \/ fd = 1 -> t !! p0 = None -> t !! p1 = None -> p0 <> p1 ->
  view m ns g (<[p1 := d1]> (<[p0 := d0]> t)) x -> <[p1 := d1]> (<[p0 := d0]> t) !! src = Some d -> src <> fd ->
  ran g c (<[fd := d]> t) ((io (close fd);; udup src;; io (close p0);; io (close p1);; runcmd f q)%U x).
Proof.
  intros IH Ht Hfd H0' H1' Hne Hv Hsrc Hsf. destruct (view_close fd _ _ _ _ _ Hv) as (r1 & x1 & E1 & V1). rewrite (ubind_ok _ _ _ _ _ E1).
  assert (Ht' : std_open (<[p1 := d1]> (<[p0 := d0]> t))) by now do 2 apply std_insert.
  destruct (view_dup src d fd _ _ _ _ _ V1) as (x2 & E2 & V2); [now rewrite lookup_delete_ne by congruence | now apply lowest_delete | lia |]. rewrite (ubind_ok _ _ _ _ _ E2).
  destruct (view_close p0 _ _ _ _ _ V2) as (r3 & x3 & E3 & V3). rewrite (ubind_ok _ _ _ _ _ E3). destruct (view_close p1 _ _ _ _ _ V3) as (r4 & x4 & E4 & V4). rewrite (ubind_ok _ _ _ _ _ E4).
  rewrite pipe_side in V4; auto; [apply IH; [exact V4 | now apply std_insert] |]. destruct Ht, Hfd as [-> | ->]; assumption.
Qed.

Lemma pipe_ran m ns g t a b f l r x :
  (forall g t x, view m ns g t x -> std_open t -> ran g a t (runcmd f l x)) -> (forall g t x, view m ns g t x -> std_open t -> ran g b t (runcmd f r x)) ->
  std_open t -> view m ns g t x ->
  ran g (CPipe a b) t
    ((p <- upipe;;
      match p with
      | None => upanic "pipe"
      | Some (p0, p1) =>
          k <- fork1;;
          (if k =? 0 then io (close 1);; udup p1;; io (close p0);; io (close p1);; runcmd f l else uret tt);;
          k <- fork1;;
          (if k =? 0 then io (close 0);; udup p0;; io (close p0);; io (close p1);; runcmd f r else uret tt);;
          io (close p0);; io (close p1);; uwait;; uwait;; uexit 0
      end)%U x).
Proof.
  intros IHa IHb Ht Hv. unfold upipe, io at 1, ubind at 1. pose proof (pipe_law (outside x)) as L. destruct (sys_pipe (outside x)) as [[[p0 p1]|] w'].
  2: { destruct L as [_ L]. apply refused_panic. cbn. now rewrite L. }
  destruct L as (L0 & L1 & Lne & Ln & Lt). rewrite (vw_table _ _ _ _ _ Hv), (vw_trail _ _ _ _ _ Hv) in *. set (n := made g) in *. set (g1 := add_pipe g) in *.
  assert (Hv1 : view m ns g1 (<[p1 := PipeEnd n true]> (<[p0 := PipeEnd n false]> t)) (set_outside w' x)) by (destruct Hv; split; cbn; congruence).
  revert Hv1. generalize (set_outside w' x) as x1. intros x1 Hv1.
  destruct (view_fork _ _ _ _ _ Hv1) as [(x2 & E2 & Hr) | (r2 & x2 & E2 & Hv2)]; [rewrite (ubind_exit _ _ _ _ _ E2); now left |]. rewrite (ubind_ok _ _ _ _ _ E2).
  destruct (r2 =? 0).
  { apply ran_bind. apply (ran_weaken (log_call (Fork true) g1) a (<[1 := PipeEnd n true]> t) g _ _ [Fork true]); [intros es o; apply F_left | reflexivity |].
    refine (side_ran m ns _ t a p0 p1 _ _ p1 1 _ f l x2 _ Ht (or_intror eq_refl) L0 L1 Lne Hv2 _ _);
      [intros t' x' Hv' Ht'; now apply IHa | apply lookup_insert_eq | intros ->; now destruct Ht]. }
  rewrite (ubind_ok (uret tt) _ x2 tt x2) by reflexivity.
  destruct (view_fork _ _ _ _ _ Hv2) as [(x3 & E3 & Hr) | (r3 & x3 & E3 & Hv3)]; [rewrite (ubind_exit _ _ _ _ _ E3); now left |]. rewrite (ubind_ok _ _ _ _ _ E3).
  destruct (r3 =? 0).
  { apply ran_bind. apply (ran_weaken (log_call (Fork true) (log_call (Fork false) g1)) b (<[0 := PipeEnd n false]> t) g _ _ [Fork false; Fork true]);
      [intros es o; apply F_right | cbn; now rewrite <- app_assoc | refine (side_ran m ns _ t b p0 p1 _ _ p0 0 _ f r x3 _ Ht (or_introl eq_refl) L0 L1 Lne Hv3 _ _)];
      [intros t' x' Hv' Ht'; now apply IHb | rewrite lookup_insert_ne by congruence; apply lookup_insert_eq | intros ->; now destruct Ht]. }
  rewrite (ubind_ok (uret tt) _ x3 tt x3) by reflexivity. destruct (view_close p0 _ _ _ _ _ Hv3) as (r4 & x4 & E4 & Hv4). rewrite (ubind_ok _ _ _ _ _ E4). destruct (view_close p1 _ _ _ _ _ Hv4) as (r5 & x5 & E5 & Hv5). rewrite (ubind_ok _ _ _ _ _ E5).
  destruct (view_wait _ _ _ _ _ Hv5) as (r6 & x6 & E6 & Hv6). rewrite (ubind_ok _ _ _ _ _ E6). destruct (view_wait _ _ _ _ _ Hv6) as (r7 & x7 & E7 & Hv7). rewrite (ubind_ok _ _ _ _ _ E7).
  apply (done_ran _ _ _ _ _ [Fork false; Fork false; Wait; Wait]); [| constructor]. rewrite (vw_trail _ _ _ _ _ Hv7). cbn. now rewrite <- !app_assoc.
Qed.

Lemma runcmd_ran m ns : forall c f p g t x, command m ns p c -> (Z.to_nat p <= f)%nat -> std_redirs c -> std_open t -> view m ns g t x -> ran g c t (runcmd f p x).
Proof.
  induction c as [args | c IH file mode fd | a IHa b IHb | a IHa b IHb | a IHa]; intros f p g t x [Hp Hc] Hf Hs Ht Hv; (destruct f as [|f]; [lia |]); cbn [runcmd]; (rewrite (proj2 (Z.eqb_neq p 0)) by lia);
    unfold node_at; unfold ubind at 1; rewrite (vw_nodes _ _ _ _ _ Hv); fold (node_of ns p); assert (Em : mem_ x = UOk m x) by (unfold mem_; now rewrite (vw_mem _ _ _ _ _ Hv)).
  - destruct Hc as (argv & eargv & -> & <-). rewrite (ubind_ok _ _ _ _ _ Em). exact (exec_ran _ _ _ _ _ _ Hv).
  - destruct Hc as (q & fl & efl & -> & Hq & <- & Hc). rewrite (ubind_ok _ _ _ _ _ Em). destruct Hs as [Hfd Hs]. apply (redir_ran m ns g t c f q fl mode fd x); auto. intros t' x' Hv' Ht'. apply IH; auto. lia.
  - destruct Hc as (l & r & -> & Hl & Hr & Ha & Hb). rewrite (ubind_ok _ _ _ _ _ Em). destruct Hs as [Hsa Hsb].
    apply (pipe_ran m ns g t a b f l r x); auto; intros g' t' x' Hv' Ht'; [apply IHa | apply IHb]; auto; lia.
  - destruct Hc as (l & r & -> & Hl & Hr & Ha & Hb). rewrite (ubind_ok _ _ _ _ _ Em). destruct Hs as [Hsa Hsb].
    destruct (view_fork _ _ _ _ _ Hv) as [(x2 & E2 & Hx) | (r2 & x2 & E2 & Hv2)]; [rewrite (ubind_exit _ _ _ _ _ E2); now left |]. rewrite (ubind_ok _ _ _ _ _ E2).
    destruct (r2 =? 0); [apply ran_bind; apply (ran_weaken (log_call (Fork true) g) a t g _ _ [Fork true]); [intros es o; apply F_first | reflexivity |]; apply IHa; auto; lia |].
    rewrite (ubind_ok (uret tt) _ x2 tt x2) by reflexivity. destruct (view_wait _ _ _ _ _ Hv2) as (r3 & x3 & E3 & Hv3). rewrite (ubind_ok _ _ _ _ _ E3).
    apply ran_bind. apply (ran_weaken (log_call Wait (log_call (Fork false) g)) b t g _ _ [Fork false; Wait]); [intros es o; apply F_second | cbn; now rewrite <- app_assoc | apply IHb; eauto; lia].
  - destruct Hc as (q & -> & Hq & Ha). rewrite (ubind_ok _ _ _ _ _ Em). destruct (view_fork _ _ _ _ _ Hv) as [(x2 & E2 & Hx) | (r2 & x2 & E2 & Hv2)]; [rewrite (ubind_exit _ _ _ _ _ E2); now left |]. rewrite (ubind_ok _ _ _ _ _ E2).
    destruct (r2 =? 0); [| apply (done_ran _ _ _ _ _ [Fork false]); [now rewrite (vw_trail _ _ _ _ _ Hv2) | constructor]].
    apply ran_bind. apply (ran_weaken (log_call (Fork true) g) a t g _ _ [Fork true]); [intros es o; apply F_back | reflexivity |]. apply IHa; auto; lia.
Qed.

(** C30: The process that the shell forks for a line, and each process that it forks
    in turn, has the fate that the command of the line prescribes for the calls of
    [fork] and [wait] that it has made: it becomes the program of a simple command,
    with the files of its redirections, the ends of one pipe for the two sides of
    [|], and otherwise the descriptors of the shell; or it has forked the processes
    of a pipe or of a command in the background, has waited for them where it
    should, and exits.  It exits early only if the line is not in the grammar, or if
    a call of [open], [pipe], [fork] or [exec] was refused.  A process and its child
    are two runs, with other results of [fork]. *)
Theorem shell_runs_line x s l : line_at x s l -> std_open (table (outside x)) ->
  let before := history (outside x) in
  match (cmd <- parsecmd s;; runcmd (Z.to_nat cmd) cmd)%U x with
  | UExit _ x' => (forall c, ~ g_line (tokens [] l) c) \/ refused (history (outside x')) = true \/
      exists c es, g_line (tokens [] l) c /\ calls (history (outside x')) = calls before ++ es /\ follows (made before) c (table (outside x)) es Done
  | UExec path argv x' => head argv = Some path /\
      exists c es, g_line (tokens [] l) c /\ calls (history (outside x')) = calls before ++ es /\ follows (made before) c (table (outside x)) es (Runs argv (table (outside x')))
  | _ => False
  end.
Proof.
  intros Hl Ht before. destruct (parsecmd_cases x s l Hl) as [(c & p & x1 & E & Hc & Ho & Hg & _) | [(x1 & E) Hn]]; [| rewrite (ubind_exit _ _ _ _ _ E); now left]. rewrite (ubind_ok _ _ _ _ _ E).
  assert (Hv : view (sh_mem x1) (nodes x1) before (table (outside x)) x1) by (subst before; split; congruence).
  pose proof (runcmd_ran _ _ c (Z.to_nat p) p _ _ x1 Hc (Nat.le_refl _) (proj2 (proj2 (proj2 grammar_std)) _ _ Hg) Ht Hv) as Hr.
  destruct (runcmd (Z.to_nat p) p x1) as [u w | st w | path argv w | |]; cbn in Hr; auto.
  - destruct Hr as [Hr | (es & Ee & Hf)]; [now right; left | right; right; eauto].
  - destruct Hr as (Hh & es & Ee & Hf). split; [exact Hh |]. eauto.
Qed.
End run.

(** ** Example: a pipeline *)

Module Demo.
Record world := World { w_table : fdtable; w_trail : trail; w_forks : list Z }.

Fixpoint first_free (t : fdtable) (l : list Z) : Z :=
  match l with
  | [] => -1
  | fd :: l' => match t !! fd with None => fd | Some _ => first_free t l' end
  end.
Definition free_fd (t : fdtable) : Z := first_free t (seqZ 0 16).
Definition set_table (t : fdtable) (w : world) : world := World t (w_trail w) (w_forks w).
Definition on_trail (f : trail -> trail) (w : world) : world := World (w_table w) (f (w_trail w)) (w_forks w).
Definition w_made (w : world) : Z := made (w_trail w).

#[local] Instance world_sys : Sys world := {|
  User.sys_read fd n w := (0, [], w);
  User.sys_write fd b w := (Z.of_nat (length b), w);
  User.sys_open path mode w := let r := free_fd (w_table w) in if r <? 0 then (-1, on_trail refuse w) else (r, set_table (<[r := Opened path mode]> (w_table w)) w);
  User.sys_close fd w := (0, set_table (delete fd (w_table w)) w);
  User.sys_sbrk n w := (-1, w) |}.

#[local] Instance world_tasks : Tasks world := {|
  sys_fork w :=
    let '(r, l) := match w_forks w with [] => (1, []) | r :: l => (r, l) end in
    (r, World (w_table w) (if r =? -1 then refuse (w_trail w) else log_call (Fork (r =? 0)) (w_trail w)) l);
  sys_wait w := (1, on_trail (log_call Wait) w);
  sys_pipe w :=
    let p0 := free_fd (w_table w) in
    let p1 := free_fd (<[p0 := PipeEnd (w_made w) false]> (w_table w)) in
    if (p0 <? 0) || (p1 <? 0) then (None, on_trail refuse w)
    else (Some (p0, p1), World (<[p1 := PipeEnd (w_made w) true]> (<[p0 := PipeEnd (w_made w) false]> (w_table w))) (add_pipe (w_trail w)) (w_forks w));
  sys_dup fd w :=
    match w_table w !! fd with
    | None => (-1, w)
    | Some d => let r := free_fd (w_table w) in if r <? 0 then (-1, w) else (r, set_table (<[r := d]> (w_table w)) w)
    end;
  sys_chdir path w := (0, w);
  sys_exec path argv w := (None, w) |}.

Lemma first_free_spec t n : forall i, 0 <= i -> (forall g, 0 <= g < i -> t !! g <> None) ->
  let r := first_free t (seqZ i (Z.of_nat n)) in r = -1 /\ (forall g, 0 <= g < i + Z.of_nat n -> t !! g <> None) \/ lowest t r /\ r < i + Z.of_nat n.
Proof.
  induction n as [|n IH]; intros i Hi Hb; cbv zeta; [left; rewrite Z.add_0_r; now split |]. rewrite seqZ_cons by lia. cbn [first_free]. destruct (t !! i) as [d|] eqn:E; [| right; split; [now split_and! | lia]].
  replace (Z.pred (Z.of_nat (S n))) with (Z.of_nat n) by lia. replace (i + Z.of_nat (S n)) with (Z.succ i + Z.of_nat n) by lia. apply IH; [lia |]. intros g Hg. destruct (decide (g = i)) as [-> |]; [congruence | apply Hb; lia].
Qed.

Lemma free_fd_spec t : free_fd t = -1 /\ (forall g, 0 <= g < 16 -> t !! g <> None) \/ lowest t (free_fd t).
Proof. destruct (first_free_spec t 16 0 ltac:(lia)) as [? | [? _]]; [intros g Hg; lia | now left | now right]. Qed.

#[local] Instance world_descriptors : Descriptors world.
Proof.
  refine {| table := w_table; history := w_trail |}.
  - intros fd w. now split.
  - intros path mode w. cbn. destruct (Z.ltb_spec (free_fd (w_table w)) 0) as [Hlt | Hge]; [left; split; [lia | now split] | right]. split; [| now split].
    destruct (free_fd_spec (w_table w)) as [[E _] | Hl]; [lia | exact Hl].
  - intros fd d w g Hd Hg Hlt. cbn. rewrite Hd. destruct (free_fd_spec (w_table w)) as [[_ Hn] | Hl]; [now destruct (Hn g) as []; [destruct Hg; lia | destruct Hg as (_ & -> & _)] |].
    assert (free_fd (w_table w) = g) as -> by (destruct Hg as (A1 & A2 & A3), Hl as (B1 & B2 & B3); destruct (Z.lt_trichotomy g (free_fd (w_table w))) as [? | [? | ?]]; [now destruct (B3 g) | now symmetry | now destruct (A3 (free_fd (w_table w)))]).
    rewrite (proj2 (Z.ltb_ge g 0)) by (destruct Hg; lia). eexists. split; [reflexivity |]. now split.
  - intros w. cbn. set (p0 := free_fd (w_table w)). set (p1 := free_fd _). destruct (Z.ltb_spec p0 0) as [| H0]; [now split |]. destruct (Z.ltb_spec p1 0) as [| H1]; [now split |]. cbn [orb].
    destruct (free_fd_spec (w_table w)) as [[E _] | (_ & A2 & _)]; [fold p0 in E; lia |]. destruct (free_fd_spec (<[p0 := PipeEnd (w_made w) false]> (w_table w))) as [[E _] | (_ & B2 & _)]; [fold p1 in E; lia |]. fold p0 in A2. fold p1 in B2.
    rewrite lookup_insert in B2. case_decide; [discriminate B2 |]. split_and!; auto.
  - intros w. cbn. destruct (w_forks w) as [| r l]; now split.
  - intros w. now split.
  - intros fd b w. now split.
  - intros path argv w. now split.
Defined.

Definition line : list Z := bytes_of "grep x <in | wc >>out &".
Definition line_buf : Z := 4096.

(** The shell in its child, after it has read the line; [forks] are the results
    of the next calls of [fork]. *)
Definition start (forks : list Z) : sh world :=
  Sh (put_bytes (fun _ => 0) line_buf (line ++ [0])) [] 100 (World (<[0 := Given 0]> (<[1 := Given 1]> (<[2 := Given 2]> ∅))) (Trail 0 [] false) forks).

Definition wanted : ctree :=
  CBack (CPipe (CRedir (CExec [bytes_of "grep"; bytes_of "x"]) (bytes_of "in") 0 0) (CRedir (CExec [bytes_of "wc"]) (bytes_of "out") 0x201 1)).

Lemma start_line forks : line_at (start forks) line_buf line.
Proof. split; [reflexivity | vm_compute; repeat (split; [first [reflexivity | discriminate] |]); first [reflexivity | split; [discriminate | reflexivity]] | reflexivity |]. vm_compute. discriminate. Qed.

Lemma wanted_derived : g_line (tokens [] line) wanted.
Proof.
  change (g_line (([Word (bytes_of "grep"); Word (bytes_of "x"); Sym 60; Word (bytes_of "in")] ++ Sym 124 :: [Word (bytes_of "wc"); Append; Word (bytes_of "out")]) ++ [Sym 38]) wanted).
  apply g_line1, g_back2, g_back1, g_pipe2; [| apply g_pipe1].
  - apply (g_simple [bytes_of "grep"; bytes_of "x"] [(bytes_of "in", 0, 0)]); [| reflexivity]. do 2 apply gi_word. apply gi_redir; [reflexivity | constructor].
  - apply (g_simple [bytes_of "wc"] [(bytes_of "out", 0x201, 1)]); [| reflexivity]. apply gi_word, gi_redir; [reflexivity | constructor].
Qed.

Lemma parsecmd_correct_witness : exists p x', parsecmd line_buf (start []) = UOk p x' /\ command (sh_mem x') (nodes x') p wanted.
Proof. apply (proj1 (parsecmd_correct (start []) line_buf line (start_line [])) wanted). exact wanted_derived. Defined.

Lemma parsecmd_bounds_witness : exists p x' t, parsecmd line_buf (start []) = UOk p x' /\ repr (nodes x') p t /\ all_words (fun q eq => line_buf <= q < eq /\ eq <= line_buf + Z.of_nat (length line)) t.
Proof.
  destruct (parsecmd_cases (start []) line_buf line (start_line [])) as [(c & p & x' & E & _) | [_ Hn]]; [| now destruct (Hn wanted wanted_derived)].
  destruct (parsecmd_bounds (start []) line_buf line p x' (start_line []) E) as (t & Hr & Hw & _). exists p, x', t. now split_and!.
Defined.

(** The process in which every [fork] returns 0: the child for the background
    command, then that for the left side of the pipe. *)
Lemma shell_runs_line_witness : exists path argv x', (cmd <- parsecmd line_buf;; runcmd (Z.to_nat cmd) cmd)%U (start [0; 0]) = UExec path argv x' /\
  path = bytes_of "grep" /\ exists c, g_line (tokens [] line) c /\ follows 0 c (w_table (outside (start [0; 0]))) [Fork true; Fork true] (Runs argv (w_table (outside x'))).
Proof.
  pose proof (shell_runs_line (start [0; 0]) line_buf line (start_line [0; 0])) as Hr. destruct ((cmd <- parsecmd line_buf;; runcmd (Z.to_nat cmd) cmd)%U (start [0; 0])) as [u w | st w | path argv w | |] eqn:E; try (vm_compute in E; discriminate E).
  exists path, argv, w. split; [reflexivity |]. destruct Hr as (_ & c & es & Hg & Hh & Hf); [split; discriminate |].
  assert (calls (history (outside w)) = [Fork true; Fork true] /\ path = bytes_of "grep") as [Hc Hp] by (vm_compute in E; injection E as <- _ <-; now split).
  split; [exact Hp |]. exists c. split; [exact Hg |]. change (calls (history (outside w)) = es) in Hh. rewrite Hc in Hh. subst es. exact Hf.
Defined.

(** The process whose forks return the numbers of their children is done when it
    has started the pipeline in the background. *)
Example shell_goes_on : exists x', (cmd <- parsecmd line_buf;; runcmd (Z.to_nat cmd) cmd)%U (start [7]) = UExit 0 x' /\ calls (history (outside x')) = [Fork false] /\ refused (history (outside x')) = false.
Proof. eexists. split; [vm_compute; reflexivity | now split]. Qed.
End Demo.
