(* ===== verification/Umalloc.v ===== *)
(** * Memory for user programs (user/umalloc.c)

    The memory of the program is a map from addresses to bytes, in which the
    headers of blocks are stored as the C code stores them: the pointer in the
    first eight bytes, the size in the next four.  The free list is circular and
    [base], a header in the data segment, is on it.  [sbrk] is a call of [Sys]. *)

From stdpp Require Import sorting.
From S2P Require Import Prelude Riscv Mem User.
Local Open Scope user_scope.

(** [sizeof(Header)] *)
Definition HEADER : Z := 16.

Record heap {W : Type} := Heap { h_mem : memory; freep : Z; h_world : W }.
Arguments heap : clear implicits.
Arguments Heap {W}.

Section umalloc.
Context {W : Type} `{Sys W}.
Abbreviation S := (heap W).

(** The address of [base]. *)
Variable base : Z.

(** [p->s.ptr] and [p->s.size] *)
Definition get_ptr (p : Z) : UM S Z := fun h => UOk (load64 (h_mem h) p) h.
Definition get_size (p : Z) : UM S Z := fun h => UOk (load 4 (h_mem h) (p + 8)) h.
Definition set_ptr (p v : Z) : UM S unit := fun h => UOk tt (Heap (store64 (h_mem h) p v) (freep h) (h_world h)).
Definition set_size (p v : Z) : UM S unit := fun h => UOk tt (Heap (store 4 (h_mem h) (p + 8) v) (freep h) (h_world h)).
Definition get_freep : UM S Z := fun h => UOk (freep h) h.
Definition set_freep (p : Z) : UM S unit := fun h => UOk tt (Heap (h_mem h) p (h_world h)).
Definition call_sbrk (n : Z) : UM S Z := fun h =>
  let '(r, w) := sys_sbrk n (h_world h) in UOk r (Heap (h_mem h) (freep h) w).

(** The loop of [free]: the block [p] of the list after which [bp] goes. *)
Fixpoint free_loop (k : nat) (bp p : Z) : UM S Z :=
  match k with
  | O => ufuel
  | Datatypes.S k' =>
      next <- get_ptr p;;
      if (p <? bp) && (bp <? next) then uret p
      else if (next <=? p) && ((p <? bp) || (bp <? next)) then uret p
      else free_loop k' bp next
  end.

(** [bp] is put before the block that follows [p], or joined with it. *)
Definition merge_next (bp p : Z) : UM S unit :=
  size <- get_size bp;;
  next <- get_ptr p;;
  if u64 (bp + size * HEADER) =? next then
    next_size <- get_size next;;
    set_size bp (u32 (size + next_size));;
    next <- get_ptr p;;
    after <- get_ptr next;;
    set_ptr bp after
  else set_ptr bp next.

(** [bp] is put after [p], or joined with it. *)
Definition merge_prev (bp p : Z) : UM S unit :=
  size <- get_size p;;
  if u64 (p + size * HEADER) =? bp then
    bp_size <- get_size bp;;
    set_size p (u32 (size + bp_size));;
    next <- get_ptr bp;;
    set_ptr p next
  else set_ptr p bp.

Definition free (fuel : nat) (ap : Z) : UM S unit :=
  let bp := u64 (ap - HEADER) in
  p <- get_freep;;
  p <- free_loop fuel bp p;;
  merge_next bp p;;
  merge_prev bp p;;
  set_freep p.

Definition morecore (fuel : nat) (nu : Z) : UM S Z :=
  let nu := if nu <? 4096 then 4096 else nu in
  p <- call_sbrk (i32 (nu * HEADER));;
  if p =? u64 (-1) then uret 0
  else
    set_size p nu;;
    free fuel (u64 (p + HEADER));;
    get_freep.

(** The loop of [malloc]. *)
Fixpoint malloc_loop (fuel k : nat) (nunits prevp p : Z) : UM S Z :=
  match k with
  | O => ufuel
  | Datatypes.S k' =>
      size <- get_size p;;
      if nunits <=? size then
        p <- (if size =? nunits then
                next <- get_ptr p;;
                set_ptr prevp next;;
                uret p
              else
                set_size p (u32 (size - nunits));;
                size <- get_size p;;
                let p := u64 (p + size * HEADER) in
                set_size p nunits;;
                uret p);;
        set_freep prevp;;
        uret (u64 (p + HEADER))
      else
        first <- get_freep;;
        if p =? first then
          p <- morecore fuel nunits;;
          if p =? 0 then uret 0
          else
            next <- get_ptr p;;
            malloc_loop fuel k' nunits p next
        else
          next <- get_ptr p;;
          malloc_loop fuel k' nunits p next
  end.

Definition malloc (fuel : nat) (nbytes : Z) : UM S Z :=
  let nunits := u32 ((nbytes + HEADER - 1) / HEADER + 1) in
  prevp <- get_freep;;
  prevp <- (if prevp =? 0 then
              set_freep base;;
              set_ptr base base;;
              set_size base 0;;
              uret base
            else uret prevp);;
  p <- get_ptr prevp;;
  malloc_loop fuel (2 * fuel) nunits prevp p.

End umalloc.

(** ** Blocks

    A block is the address of its header and its size in units of 16 bytes, the
    header included. *)

Abbreviation block := (Z * Z)%type.
Definition stop (x : block) : Z := x.1 + HEADER * x.2.

(** The blocks lie one after the other and fill the memory from [lo] to [hi]. *)
Fixpoint tiling (lo : Z) (l : list block) (hi : Z) : Prop :=
  match l with
  | [] => lo = hi
  | x :: l' => x.1 = lo /\ 0 < x.2 /\ tiling (stop x) l' hi
  end.
Definition tiles (lo hi : Z) (l : list block) : Prop := exists l', l ≡ₚ l' /\ tiling lo l' hi.

Lemma tiles_perm lo hi l l' : l ≡ₚ l' -> tiles lo hi l -> tiles lo hi l'.
Proof. intros Hp (t & Ht & H). exists t. split; [now rewrite <- Hp | exact H]. Qed.

Lemma tiling_app lo l1 l2 hi : tiling lo (l1 ++ l2) hi <-> exists mid, tiling lo l1 mid /\ tiling mid l2 hi.
Proof.
  revert lo. induction l1 as [|x l1 IH]; intros lo; cbn [app tiling].
  - split; [eauto | intros (? & -> & ?); auto].
  - rewrite IH. split; [intros (? & ? & mid & ? & ?) | intros (mid & (? & ? & ?) & ?)]; eauto 10.
Qed.

Lemma tiling_range lo l hi : tiling lo l hi -> lo <= hi /\ forall x, x ∈ l -> 0 < x.2 /\ lo <= x.1 /\ stop x <= hi.
Proof.
  revert lo. induction l as [|y l IH]; intros lo; cbn [tiling].
  - intros ->. split; [lia | intros x Hx; now apply elem_of_nil in Hx].
  - intros (E & Hs & Ht). destruct (IH _ Ht) as [Hle Hin]. unfold stop, HEADER in *. split; [lia |].
    intros x [-> | Hx]%elem_of_cons; [lia |]. specialize (Hin x Hx). lia.
Qed.

(** A block and where the others are. *)
Lemma tiles_at lo hi x l : tiles lo hi (x :: l) ->
  exists l1 l2, l ≡ₚ l1 ++ l2 /\ tiling lo l1 x.1 /\ 0 < x.2 /\ tiling (stop x) l2 hi.
Proof.
  intros (t & Hp & Ht). assert (Hx : x ∈ t) by (rewrite <- Hp; left).
  apply list_elem_of_split in Hx as (l1 & l2 & ->). apply tiling_app in Ht as (mid & H1 & E & Hs & H2). subst mid.
  exists l1, l2. split_and!; auto. apply (Permutation_cons_app_inv _ _ Hp).
Qed.

Lemma tiles_range lo hi x l : tiles lo hi l -> x ∈ l -> 0 < x.2 /\ lo <= x.1 /\ stop x <= hi.
Proof. intros (t & Hp & Ht) Hx. apply (proj2 (tiling_range _ _ _ Ht)). now rewrite <- Hp. Qed.

Lemma tiles_apart lo hi x l y : tiles lo hi (x :: l) -> y ∈ l -> stop x <= y.1 \/ stop y <= x.1.
Proof.
  intros (l1 & l2 & Hp & H1 & Hs & H2)%tiles_at Hy. rewrite Hp in Hy.
  apply elem_of_app in Hy as [Hy | Hy]; [apply (tiling_range _ _ _ H1) in Hy | apply (tiling_range _ _ _ H2) in Hy]; lia.
Qed.

(** Blocks are cut, joined, and added at the end. *)
Lemma tiles_cut lo hi a s n l : 0 < s -> 0 < n -> tiles lo hi ((a, s + n) :: l) -> tiles lo hi ((a, s) :: (a + HEADER * s, n) :: l).
Proof.
  intros Hs Hn (l1 & l2 & Hp & H1 & _ & H2)%tiles_at. exists (l1 ++ (a, s) :: (a + HEADER * s, n) :: l2). split.
  - rewrite Hp. now rewrite <- !Permutation_middle.
  - apply tiling_app. exists a. cbn [tiling fst snd]. split_and!; auto. unfold stop in *. cbn [fst snd] in *.
    now replace (a + HEADER * s + HEADER * n) with (a + HEADER * (s + n)) by lia.
Qed.

Lemma tiles_join lo hi a s n l : tiles lo hi ((a, s) :: (a + HEADER * s, n) :: l) -> tiles lo hi ((a, s + n) :: l).
Proof.
  intros (l1 & l2 & Hp & H1 & Hs & H2)%tiles_at. unfold stop in H2. cbn [fst snd] in *.
  assert (Hin : (a + HEADER * s, n) ∈ l1 ++ l2) by (rewrite <- Hp; left). apply elem_of_app in Hin as [Hin | Hin].
  { apply (tiling_range _ _ _ H1) in Hin. unfold stop, HEADER in Hin. cbn in Hin. lia. }
  destruct l2 as [|y l2]; [now apply elem_of_nil in Hin |]. cbn [tiling] in H2. destruct H2 as (E & Hy & H2).
  apply elem_of_cons in Hin as [<- | Hin].
  - exists (l1 ++ (a, s + n) :: l2). split.
    + rewrite <- Permutation_middle in Hp. apply Permutation_cons_inv in Hp. rewrite Hp. now rewrite <- Permutation_middle.
    + apply tiling_app. exists a. cbn [tiling fst snd] in *. split_and!; auto; [lia |]. unfold stop in *. cbn [fst snd] in *.
      now replace (a + HEADER * (s + n)) with (a + HEADER * s + HEADER * n) by lia.
  - apply (tiling_range _ _ _ H2) in Hin. unfold stop, HEADER in *. cbn in Hin. lia.
Qed.

Lemma tiles_more lo hi n l : 0 < n -> tiles lo hi l -> tiles lo (hi + HEADER * n) ((hi, n) :: l).
Proof.
  intros Hn (t & Hp & Ht). exists (t ++ [(hi, n)]). split; [rewrite Hp; now rewrite <- Permutation_cons_append |].
  apply tiling_app. exists hi. cbn. auto.
Qed.

(** ** The free list *)

(** Headers, and the blocks of a list that ends in [z]. *)
Definition header (m : memory) (x : block) (next : Z) : Prop := load64 m x.1 = next /\ load 4 m (x.1 + 8) = x.2.
Definition first (l : list block) (z : Z) : Z := match l with [] => z | x :: _ => x.1 end.
Fixpoint linked (m : memory) (l : list block) (z : Z) : Prop :=
  match l with
  | [] => True
  | x :: l' => header m x (first l' z) /\ linked m l' z
  end.

Lemma first_app l1 l2 z : first (l1 ++ l2) z = first l1 (first l2 z).
Proof. now destruct l1. Qed.

Lemma linked_app m l1 l2 z : linked m (l1 ++ l2) z <-> linked m l1 (first l2 z) /\ linked m l2 z.
Proof. induction l1 as [|x l1 IH]; cbn [app linked]; [tauto | rewrite IH, first_app; tauto]. Qed.

(** The memory changes at most in the headers at [A]. *)
Definition only (A : list Z) (m m' : memory) : Prop := forall a, Forall (fun p => a < p \/ p + HEADER <= a) A -> m' a = m a.

Lemma only_trans A m1 m2 m3 : only A m1 m2 -> only A m2 m3 -> only A m1 m3.
Proof. intros H1 H2 a Ha. rewrite (H2 a Ha). auto. Qed.

Lemma only_weaken A B m m' : A ⊆ B -> only A m m' -> only B m m'.
Proof. intros Hs Ho a Ha. apply Ho. rewrite Forall_forall in *. auto. Qed.

Lemma only_store_ptr m p v A : p ∈ A -> only A m (store64 m p v).
Proof. intros Hp a Ha. rewrite Forall_forall in Ha. specialize (Ha p Hp). unfold HEADER in *. apply store64_out. lia. Qed.

Lemma only_store_size m p v A : p ∈ A -> only A m (store 4 m (p + 8) v).
Proof. intros Hp a Ha. rewrite Forall_forall in Ha. specialize (Ha p Hp). unfold HEADER in *. apply store_out. lia. Qed.

Definition away (A : list Z) (x : block) : Prop := Forall (fun p => x.1 + HEADER <= p \/ p + HEADER <= x.1) A.

Lemma header_only A m m' x n : only A m m' -> away A x -> header m x n -> header m' x n.
Proof.
  intros Ho Ha [H1 H2]. unfold away in Ha. rewrite Forall_forall in Ha. unfold HEADER in *.
  split; [rewrite <- H1; apply load64_ext | rewrite <- H2; apply load_ext]; intros a Hr; apply Ho, Forall_forall; intros p Hp;
    specialize (Ha p Hp); unfold HEADER; lia.
Qed.

Lemma linked_only A m m' l z : only A m m' -> Forall (away A) l -> linked m l z -> linked m' l z.
Proof.
  intros Ho. induction l as [|x l IH]; cbn [linked]; [auto |]. intros [Hx Hl]%Forall_cons [H1 H2].
  split; [now apply (header_only A m) | auto].
Qed.

(** Seen from another of its blocks, a circular list is a circular list. *)
Lemma linked_rotate m l1 l2 z : linked m (l1 ++ l2) (first (l1 ++ l2) z) -> linked m (l2 ++ l1) (first (l2 ++ l1) z).
Proof.
  rewrite !linked_app, !first_app. intros [H1 H2]. destruct l1 as [|x l1], l2 as [|y l2]; cbn [first linked app] in *; auto.
Qed.

Definition before (x y : block) : Prop := x.1 + HEADER <= y.1 /\ stop x < y.1.
Abbreviation ordered := (StronglySorted before).

(** The headers of [l] come after the one at [x]. *)
Abbreviation follow x l := (Forall (fun y : block => x + HEADER <= y.1) l).

Ltac member :=
  repeat match goal with
    | H : context [_ ∈ _ ++ _] |- _ => rewrite elem_of_app in H
    | H : context [_ ∈ _ :: _] |- _ => rewrite elem_of_cons in H
    | |- context [_ ∈ _ ++ _] => rewrite elem_of_app
    | |- context [_ ∈ _ :: _] => rewrite elem_of_cons
    end; rewrite ?elem_of_nil in *; tauto.

Section correct.
Context {W : Type} `{Sys W}.
Abbreviation S := (heap W).
Implicit Types (h : S) (m : memory) (x y : block) (l F : list block).

(** *** free *)

Lemma free_loop_ahead h bp p l2 z l1 : forall k, linked (h_mem h) (l1 ++ p :: l2) z -> ordered (l1 ++ [p]) ->
  p.1 < bp -> bp < first l2 z \/ first l2 z <= p.1 -> (length l1 < k)%nat -> free_loop k bp (first l1 p.1) h = UOk p.1 h.
Proof.
  induction l1 as [|x l1 IH]; intros k Hl Ho Hp Hn Hk; (destruct k as [|k]; [cbn in Hk; lia |]); cbn [app linked first free_loop] in *;
    destruct Hl as [[Hx _] Hl]; unfold ubind, get_ptr; rewrite Hx.
  - destruct Hn; bool_cases; cbn [andb orb]; try reflexivity; lia.
  - apply StronglySorted_cons in Ho as [Hb Ho]. rewrite first_app. cbn [first].
    assert (Hx1 : x.1 < first l1 p.1) by (destruct l1; cbn [app first] in *; apply Forall_cons in Hb as [[] _]; unfold HEADER in *; lia).
    assert (Hx2 : first l1 p.1 <= p.1).
    { destruct l1 as [|y l1]; cbn [first]; [lia |]. apply StronglySorted_cons in Ho as [Hy _]. rewrite Forall_app, Forall_singleton in Hy.
      destruct Hy as [_ []]. unfold HEADER in *. lia. }
    rewrite (proj2 (Z.ltb_ge bp _)), andb_false_r, (proj2 (Z.leb_gt _ x.1)) by lia. cbn [andb]. apply IH; auto. cbn in Hk. lia.
Qed.

Lemma free_loop_wrap h bp z k l : linked (h_mem h) l z -> ordered l -> Forall (fun x => bp < x.1) l -> z < bp ->
  free_loop (length l + k) bp (first l z) h = free_loop k bp z h.
Proof.
  induction l as [|x l IH]; intros Hl Ho Hb Hz; [reflexivity |]. cbn [linked first length Nat.add free_loop] in *.
  destruct Hl as [[Hx _] Hl]. apply StronglySorted_cons in Ho as [Hx' Ho]. apply Forall_cons in Hb as [Hbx Hb]. unfold ubind, get_ptr. rewrite Hx.
  assert (Hn : x.1 < first l z \/ first l z = z) by (destruct l; [now right | left; apply Forall_cons in Hx' as [[] _]; unfold HEADER in *; cbn [first]; lia]).
  rewrite (proj2 (Z.ltb_ge x.1 bp)) by lia. cbn [andb orb].
  replace ((first l z <=? x.1) && (bp <? first l z)) with false by (symmetry; destruct Hn as [Hn | ->]; zb). auto.
Qed.

(** The loop finds the place of a block wherever it starts. *)
Lemma free_loop_finds base h bp l1 p l2 k : linked (h_mem h) (l1 ++ p :: l2) base -> first l1 p.1 = base -> ordered (l1 ++ p :: l2) ->
  p.1 < bp -> Forall (fun x => bp < x.1) l2 -> freep h ∈ map fst (l1 ++ p :: l2) -> (length (l1 ++ p :: l2) <= k)%nat ->
  free_loop k bp (freep h) h = UOk p.1 h.
Proof.
  intros Hl Hb Ho Hp Hl2 Hf Hk. rewrite length_app in Hk. cbn [length] in Hk.
  assert (Ho1 : ordered (l1 ++ [p])) by (rewrite cons_middle, app_assoc in Ho; now apply StronglySorted_app_1_l in Ho).
  assert (Hbp : base <= p.1).
  { rewrite <- Hb. destruct l1 as [|y l1]; cbn [first]; [lia |]. apply StronglySorted_cons in Ho1 as [Hy _].
    rewrite Forall_app, Forall_singleton in Hy. destruct Hy as [_ []]. unfold HEADER in *. lia. }
  assert (Hn : bp < first l2 base \/ first l2 base <= p.1).
  { destruct l2; cbn [first]; [right; exact Hbp | left; now apply Forall_cons in Hl2 as [? _]]. }
  apply list_elem_of_fmap in Hf as (x & -> & Hx). apply elem_of_app in Hx as [Hx | Hx].
  - apply list_elem_of_split in Hx as (a & b & ->). rewrite <- app_assoc in Hl. cbn [app] in Hl. apply linked_app in Hl as [_ Hl].
    apply (free_loop_ahead h bp p l2 base (x :: b)); auto; [| rewrite length_app in Hk; cbn [length] in *; lia].
    rewrite <- app_assoc in Ho1. now apply StronglySorted_app_1_r in Ho1.
  - apply elem_of_cons in Hx as [-> | Hx]; [apply linked_app in Hl as [_ Hl]; apply (free_loop_ahead h bp p l2 base []); cbn [app length]; auto; [repeat constructor | lia] |].
    pose proof Hx as Hx'. apply list_elem_of_split in Hx' as (a & b & ->).
    assert (Hlw : linked (h_mem h) (x :: b) base).
    { apply linked_app in Hl as [_ [_ Hl]]. now apply linked_app in Hl as [_ Hl]. }
    assert (Hlo : ordered (x :: b)).
    { apply StronglySorted_app_1_r, StronglySorted_cons in Ho as [_ Ho]. now apply StronglySorted_app_1_r in Ho. }
    rewrite length_app in Hk. replace k with (length (x :: b) + (k - length (x :: b)))%nat by (cbn [length] in *; lia).
    change x.1 with (first (x :: b) base). rewrite free_loop_wrap; auto; [| now apply Forall_app in Hl2 as [_ ?] | lia].
    rewrite <- Hb. apply (free_loop_ahead h bp p (a ++ x :: b) base); auto. cbn [length] in *. lia.
Qed.

(** A block joined with the one that follows, if it touches it. *)
Definition join (x : block) (l : list block) : list block :=
  match l with
  | y :: l' => if stop x =? y.1 then (x.1, x.2 + y.2) :: l' else x :: l
  | [] => [x]
  end.

Lemma first_join x l z : first (join x l) z = x.1.
Proof. destruct l as [|y l]; [reflexivity | cbn]. now destruct (stop x =? y.1). Qed.

(** Addresses of a program, far below where machine arithmetic wraps around. *)
Definition LIMIT : Z := 2 ^ 32.
Definition sized (x : block) : Prop := 0 < x.1 /\ 0 <= x.2 /\ stop x <= LIMIT /\ x.1 + HEADER <= LIMIT.

Lemma stop_u64 x : sized x -> u64 (x.1 + x.2 * HEADER) = stop x.
Proof. unfold sized, stop, LIMIT, HEADER. intros. rewrite u64_small by lia. lia. Qed.

Lemma linked_joined m x y l z : linked m (y :: l) z -> Forall (away [x.1]) l -> sized x -> sized y -> 0 <= x.2 + y.2 < 2 ^ 32 -> 0 <= first l z < 2 ^ 64 ->
  linked (store64 (store 4 m (x.1 + 8) (u32 (x.2 + y.2))) x.1 (first l z)) ((x.1, x.2 + y.2) :: l) z.
Proof.
  intros [_ Hl] Ha Hx Hy Hs Hz. cbn [linked]. split; [split; cbn [fst snd] |].
  - now apply load64_store64_eq.
  - transitivity (load 4 (store 4 m (x.1 + 8) (u32 (x.2 + y.2))) (x.1 + 8)); [apply load_ext; intros a Ha'; apply store64_out; lia |].
    rewrite load_store_eq, u32_small by lia. now apply Z.mod_small.
  - apply (linked_only [x.1] m); auto. eapply only_trans; [apply only_store_size | apply only_store_ptr]; left.
Qed.

Lemma linked_cons m x l z : linked m l z -> load 4 m (x.1 + 8) = x.2 -> Forall (away [x.1]) l -> 0 <= first l z < 2 ^ 64 ->
  linked (store64 m x.1 (first l z)) (x :: l) z.
Proof.
  intros Hl Hx Ha Hz. cbn [linked]. split; [split |].
  - now apply load64_store64_eq.
  - rewrite <- Hx. apply load_ext. intros a Ha'. apply store64_out. lia.
  - apply (linked_only [x.1] m); auto. apply only_store_ptr. left.
Qed.

Lemma ordered_away x l : Forall (before x) l -> Forall (away [x.1]) l.
Proof. intros Hf. eapply Forall_impl; [exact Hf |]. intros y []. apply Forall_singleton. lia. Qed.

Lemma sized_first l z : Forall sized l -> 0 <= z < LIMIT -> 0 <= first l z < 2 ^ 64.
Proof. intros Hs Hz. unfold LIMIT in *. destruct l as [|x l]; cbn; [lia |]. apply Forall_cons in Hs as [[] _]. unfold HEADER, LIMIT in *. lia. Qed.

Lemma load_size_out m n v a : a + 4 <= n \/ n + 8 <= a -> load 4 (store64 m n v) a = load 4 m a.
Proof. intros Ha. apply load_ext. intros x Hx. apply store64_out. lia. Qed.

Lemma load_ptr_out m n v a : a + 8 <= n \/ n + 4 <= a -> load64 (store 4 m n v) a = load64 m a.
Proof. intros Ha. apply load64_ext. intros x Hx. apply store_out. lia. Qed.

Lemma follow_away (a : Z) l : follow a l -> Forall (away [a]) l.
Proof. intros Hf. eapply Forall_impl; [exact Hf |]. intros y Hy. apply Forall_singleton. cbn beta in Hy. lia. Qed.

Lemma join_cons x l : exists s l', join x l = (x.1, s) :: l'.
Proof. destruct l as [|y l], x; cbn; eauto. destruct (_ =? _); eauto. Qed.

Lemma merge_next_ok h bp p l z : load 4 (h_mem h) (bp.1 + 8) = bp.2 -> load64 (h_mem h) p = first l z -> linked (h_mem h) l z ->
  p + HEADER <= bp.1 -> follow bp.1 l -> 0 <= z < bp.1 -> sized bp -> Forall sized l ->
  exists m, merge_next bp.1 p h = UOk tt (Heap m (freep h) (h_world h)) /\ only [bp.1] (h_mem h) m /\ linked m (join bp l) z.
Proof.
  intros Hs Hp Hl Hlt Hf Hz Hsz Hszl. assert (HzL : 0 <= z < LIMIT) by (unfold sized, HEADER in *; lia). unfold HEADER in Hlt.
  unfold merge_next, ubind, get_size, get_ptr. rewrite Hs, Hp, stop_u64 by exact Hsz. destruct l as [|y l]; cbn [first join].
  - rewrite (proj2 (Z.eqb_neq (stop bp) z)) by (unfold sized, stop, HEADER in *; lia). eexists. split; [reflexivity |].
    split; [apply only_store_ptr; left | apply (linked_cons _ bp [] z); cbn; auto; unfold LIMIT in *; lia].
  - destruct (Z.eqb_spec (stop bp) y.1) as [E | E].
    + destruct Hl as [[Hy1 Hy2] Hl]. rewrite Hy2. unfold set_size, set_ptr. cbn [h_mem freep h_world].
      apply Forall_cons in Hf as [Hy Hf]. apply Forall_cons in Hszl as [Hszy Hszl]. unfold HEADER in Hy. pose proof (sized_first l z Hszl HzL).
      rewrite (load_ptr_out _ _ _ p), Hp by lia. cbn [first]. rewrite load_ptr_out, Hy1 by lia.
      eexists. split; [reflexivity |]. split.
      * eapply only_trans; [apply only_store_size | apply only_store_ptr]; left.
      * apply (linked_joined _ bp y); auto; [split; [split |] | now apply follow_away |]; auto.
        unfold sized, stop, HEADER, LIMIT in *. lia.
    + eexists. split; [reflexivity |]. split; [apply only_store_ptr; left |].
      apply (linked_cons _ bp (y :: l) z); auto; [now apply follow_away | apply (sized_first (y :: l) z); auto].
Qed.

Lemma merge_prev_ok h p l z : load 4 (h_mem h) (p.1 + 8) = p.2 -> linked (h_mem h) l z -> l <> [] ->
  follow p.1 l -> 0 <= z < LIMIT -> sized p -> Forall sized l ->
  exists m, merge_prev (first l z) p.1 h = UOk tt (Heap m (freep h) (h_world h)) /\ only [p.1] (h_mem h) m /\ linked m (join p l) z.
Proof.
  intros Hs Hl Hne Hf Hz Hsz Hszl. destruct l as [|y l]; [done |]. cbn [first join].
  unfold merge_prev, ubind, get_size, get_ptr. rewrite Hs, stop_u64 by exact Hsz. destruct (Z.eqb_spec (stop p) y.1) as [E | E].
  - destruct Hl as [[Hy1 Hy2] Hl]. rewrite Hy2. unfold set_size, set_ptr. cbn [h_mem freep h_world].
    apply Forall_cons in Hf as [Hy Hf]. apply Forall_cons in Hszl as [Hszy Hszl]. unfold HEADER in Hy. pose proof (sized_first l z Hszl Hz).
    rewrite load_ptr_out, Hy1 by lia. eexists. split; [reflexivity |]. split.
    + eapply only_trans; [apply only_store_size | apply only_store_ptr]; left.
    + apply (linked_joined _ p y); auto; [split; [split |] | now apply follow_away |]; auto.
      unfold sized, stop, HEADER, LIMIT in *. lia.
  - eexists. split; [reflexivity |]. split; [apply only_store_ptr; left |].
    apply (linked_cons _ p (y :: l) z); auto; [now apply follow_away | apply (sized_first (y :: l) z); auto].
Qed.

Lemma elem_of_join x l y : y ∈ join x l -> y.1 = x.1 \/ y ∈ l.
Proof.
  destruct l as [|z l]; cbn [join]; [intros ->%list_elem_of_singleton; auto |].
  destruct (_ =? _); intros [-> | Hy]%elem_of_cons; cbn; auto using list_elem_of_further.
Qed.

Lemma ordered_join x l : 0 < x.2 -> ordered l -> Forall (fun y => stop x <= y.1 /\ 0 < y.2) l -> ordered (join x l).
Proof.
  intros Hx Ho Hf. destruct l as [|y l]; cbn [join]; [repeat constructor |]. apply StronglySorted_cons in Ho as [Hy Ho].
  apply Forall_cons in Hf as [Hxy Hf]. assert (Hfy : forall z, z ∈ l -> before y z) by now apply Forall_forall.
  destruct (Z.eqb_spec (stop x) y.1) as [E | E]; apply StronglySorted_cons; split; auto.
  - apply Forall_forall. intros z Hz. specialize (Hfy z Hz). unfold before, stop, HEADER in *. cbn [fst snd]. lia.
  - apply Forall_cons. split; [unfold before, stop, HEADER in *; lia |]. apply Forall_forall. intros z Hz. specialize (Hfy z Hz).
    unfold before, stop, HEADER in *. lia.
  - apply StronglySorted_cons. split; auto.
Qed.

Lemma tiles_joined lo hi x l r : tiles lo hi (x :: l ++ r) -> tiles lo hi (join x l ++ r).
Proof.
  intros Ht. destruct l as [|[b n] l]; [exact Ht |]. cbn [join fst]. destruct (Z.eqb_spec (stop x) b) as [E | E]; [| exact Ht].
  destruct x as [a s]. cbn [fst snd app] in *. apply tiles_join. unfold stop in E. cbn [fst snd] in E. now rewrite E.
Qed.

Lemma length_join x l : (length (join x l) <= length l + 1)%nat.
Proof. destruct l as [|y l]; cbn [join length]; [lia |]. destruct (_ =? _); cbn [length]; lia. Qed.

(** A joined block is no smaller. *)
Lemma join_size x l : (forall y, y ∈ l -> 0 < y.2) -> Exists (fun y => x.2 <= y.2) (join x l).
Proof.
  intros Hl. destruct l as [|y l]; cbn [join]; [left; lia |]. specialize (Hl y ltac:(left)). destruct (_ =? _); left; cbn [snd]; lia.
Qed.

Lemma join_size_later x l n : 0 <= x.2 -> Exists (fun y => n <= y.2) l -> Exists (fun y => n <= y.2) (join x l).
Proof.
  intros Hx He. destruct l as [|y l]; [inversion He |]. cbn [join]. destruct (_ =? _); [| now right].
  apply Exists_cons in He as [He | He]; [left; cbn [snd]; lia | now right].
Qed.

Lemma sized_join x l : sized x -> Forall sized l -> Forall sized (join x l).
Proof.
  intros Hx Hl. destruct l as [|y l]; cbn [join]; [auto |]. destruct (Z.eqb_spec (stop x) y.1) as [E | E]; [| auto].
  apply Forall_cons in Hl as [Hy Hl]. apply Forall_cons. split; [| exact Hl]. unfold sized, stop, HEADER in *. cbn [fst snd]. lia.
Qed.

(** The place of an address in the list. *)
Lemma place x l (bp : Z) : x.1 < bp -> ordered (x :: l) -> Forall (fun y => y.1 <> bp) l ->
  exists l1 p l2, x :: l = l1 ++ p :: l2 /\ p.1 < bp /\ Forall (fun y => bp < y.1) l2.
Proof.
  revert x. induction l as [|y l IH]; intros x Hx Ho Hn; [now exists [], x, [] |].
  apply Forall_cons in Hn as [Hy Hn]. apply StronglySorted_cons in Ho as [Hf Ho]. destruct (Z.ltb_spec y.1 bp) as [Hlt | Hge].
  - destruct (IH y Hlt Ho Hn) as (l1 & p & l2 & E & Hp & Hl). exists (x :: l1), p, l2. rewrite E. auto.
  - exists [], x, (y :: l). split_and!; auto. apply StronglySorted_cons in Ho as [Hfy _]. apply Forall_cons. split; [lia |].
    eapply Forall_impl; [exact Hfy |]. intros z [Hz _]. unfold HEADER in *. lia.
Qed.

End correct.

(** ** The allocator

    What the manual says of [sbrk]: it adds [n] bytes to the memory of the
    program and returns where they start, or it fails and changes nothing.
    There is never more memory than the machine has. *)
Class Sbrk (W : Type) `{Sys W} := {
  brk : W -> Z;
  brk_limit : forall w, brk w <= PHYSTOP - KERNBASE;
  sbrk_law : forall n w, 0 <= n < 2 ^ 31 -> exists r w', sys_sbrk n w = (r, w') /\
    ((r = u64 (-1) /\ brk w' = brk w) \/ (r = brk w /\ brk w' = brk w + n)) }.

Section allocator.
Context {W : Type} `{Sbrk W}.
Abbreviation S := (heap W).
Implicit Types (h : S) (m : memory) (x y : block) (l F live : list block).
Variables base lo : Z.
Hypothesis Hbase : 0 < base /\ base + HEADER <= lo.

Abbreviation root := (base, 0).

(** The free blocks [F] are linked in the order of their addresses, no two of
    them touch, and together with the blocks in use they fill the memory that
    [sbrk] gave since the break was [lo]. *)
Record inv h F live : Prop := {
  iv_freep : freep h ∈ map fst (root :: F);
  iv_linked : linked (h_mem h) (root :: F) base;
  iv_live : Forall (fun x => load 4 (h_mem h) (x.1 + 8) = x.2) live;
  iv_order : ordered F;
  iv_tiles : tiles lo (brk (h_world h)) (F ++ live) }.

Lemma inv_sized h F live x : inv h F live -> x ∈ root :: F ++ live -> sized x.
Proof.
  intros Hi Hx. pose proof (brk_limit (h_world h)). destruct (iv_tiles _ _ _ Hi) as (t & Hp & Ht). pose proof (tiling_range _ _ _ Ht) as [Hlo Hin].
  unfold PHYSTOP, KERNBASE, sized, stop, LIMIT, HEADER in *. apply elem_of_cons in Hx as [-> | Hx]; [cbn; lia |].
  rewrite Hp in Hx. specialize (Hin x Hx). lia.
Qed.

Lemma inv_ordered h F live : inv h F live -> ordered (root :: F).
Proof.
  intros Hi. apply StronglySorted_cons. split; [| apply Hi]. apply Forall_forall. intros x Hx.
  destruct (tiles_range _ _ x _ (iv_tiles _ _ _ Hi)) as (? & ? & _); [apply elem_of_app; auto |]. unfold before, stop, HEADER in *. cbn. lia.
Qed.

(** A block in use is apart from the headers of the list. *)
Lemma inv_apart h F live x y : inv h F (x :: live) -> y ∈ F ++ live -> stop x <= y.1 \/ stop y <= x.1.
Proof. intros Hi. apply (tiles_apart lo (brk (h_world h))). eapply tiles_perm; [| apply Hi]. now rewrite <- Permutation_middle. Qed.

(** No header at [A] is in the block. *)
Definition clear (A : list Z) x : Prop := 0 < x.2 /\ Forall (fun p => p + HEADER <= x.1 \/ stop x <= p) A.

Lemma clear_sub A B x : A ⊆ B -> clear B x -> clear A x.
Proof. intros Hs. unfold clear. rewrite !Forall_forall. intros []. auto. Qed.

Lemma clear_away A x : clear A x -> away A x.
Proof. intros [Hx Ha]. eapply Forall_impl; [exact Ha |]. intros p. unfold stop, HEADER. lia. Qed.

Lemma blocks_clear h F live x l : inv h F live -> F ++ live ≡ₚ x :: l -> clear (map fst (root :: l)) x.
Proof.
  intros Hi Hp. pose proof (tiles_perm _ _ _ _ Hp (iv_tiles _ _ _ Hi)) as Ht. pose proof (fun y => tiles_range _ _ y _ Ht) as Hrg.
  destruct (Hrg x ltac:(left)) as (Hx & Hlo & _). split; [exact Hx |].
  apply Forall_map, Forall_forall. intros y [-> | Hy]%elem_of_cons; [unfold stop, HEADER in *; cbn; lia |].
  pose proof (tiles_apart _ _ _ _ y Ht Hy). pose proof (Hrg y ltac:(now right)). unfold stop, HEADER in *. cbn beta. lia.
Qed.

(** The blocks that stay in use are apart from the headers of all others. *)
Lemma live_clear h F bp live x : inv h F (bp :: live) -> x ∈ live -> clear (map fst (root :: F ++ [bp])) x.
Proof.
  intros Hi (a & b & ->)%list_elem_of_split. eapply clear_sub; [| apply (blocks_clear _ _ _ x (F ++ bp :: a ++ b) Hi)].
  - intros z. cbn [map]. rewrite !map_app. cbn [map]. intros Hz. member.
  - rewrite app_comm_cons, app_assoc, <- Permutation_middle. now rewrite <- app_assoc.
Qed.

Lemma sizes_only A m m' live : only A m m' -> Forall (away A) live -> Forall (fun x => load 4 m (x.1 + 8) = x.2) live ->
  Forall (fun x => load 4 m' (x.1 + 8) = x.2) live.
Proof.
  intros Ho Ha Hs. rewrite Forall_forall in *. intros x Hx.
  now destruct (header_only A m m' x (load64 m x.1) Ho (Ha x Hx) (conj eq_refl (Hs x Hx))).
Qed.

(** A block that is freed is between the others. *)
Lemma free_place h F bp live : inv h F (bp :: live) -> exists l1 p l2, root :: F = l1 ++ p :: l2 /\ first l1 p.1 = base /\
  Forall (fun y => y.1 + HEADER <= bp.1 /\ stop y <= bp.1) (l1 ++ [p]) /\ Forall (fun y => stop bp <= y.1 /\ bp.1 + HEADER <= y.1) l2.
Proof.
  intros Hi. pose proof (inv_ordered _ _ _ Hi) as Ho. pose proof (fun y => tiles_range _ _ y _ (iv_tiles _ _ _ Hi)) as Hrg.
  assert (Hb := Hrg bp ltac:(member)).
  assert (Hap : forall y, y ∈ F -> (stop bp <= y.1 \/ stop y <= bp.1) /\ 0 < y.2)
    by (intros y Hy; split; [apply (inv_apart _ _ _ _ y Hi) | apply (Hrg y)]; member).
  unfold stop, HEADER in *. destruct (place root F bp.1) as (l1 & p & l2 & E & Hp & Hl2); [cbn; lia | exact Ho | |].
  { apply Forall_forall. intros y Hy. destruct (Hap y Hy). lia. }
  exists l1, p, l2. split_and!; auto; [destruct l1; injection E as <-; reflexivity | |]; apply Forall_forall; intros y Hy.
  - assert (Hle : y.1 <= p.1).
    { apply elem_of_app in Hy as [Hy | ->%list_elem_of_singleton]; [| lia]. rewrite E in Ho.
      destruct (StronglySorted_app_1_elem_of _ _ _ y p Ho Hy ltac:(left)). unfold HEADER in *. lia. }
    assert (Hin : y ∈ root :: F); [rewrite E; member |]. apply elem_of_cons in Hin as [-> | Hin]; [cbn; lia | destruct (Hap y Hin); lia].
  - rewrite Forall_forall in Hl2. specialize (Hl2 y Hy). assert (Hin : y ∈ root :: F) by (rewrite E; member).
    apply elem_of_cons in Hin as [-> | Hin]; [cbn in Hl2; lia | destruct (Hap y Hin); lia].
Qed.

(** The list with the block in its place. *)
Lemma free_list h F bp live l1 p l2 : inv h F (bp :: live) -> root :: F = l1 ++ p :: l2 ->
  Forall (fun y => y.1 + HEADER <= bp.1 /\ stop y <= bp.1) (l1 ++ [p]) -> Forall (fun y => stop bp <= y.1 /\ bp.1 + HEADER <= y.1) l2 ->
  exists F', l1 ++ join p (join bp l2) = root :: F' /\ ordered F' /\ tiles lo (brk (h_world h)) (F' ++ live) /\ (length F' <= length F + 1)%nat /\
    Exists (fun y => bp.2 <= y.2) F'.
Proof.
  intros Hi E Hl1 Hl2. pose proof (iv_tiles _ _ _ Hi) as Ht. pose proof (iv_order _ _ _ Hi) as Ho.
  pose proof (fun y => tiles_range _ _ y _ Ht) as Hrg. pose proof (Hrg bp ltac:(member)) as Hb. pose proof (length_join bp l2).
  assert (Hbj : ordered l2 -> (forall y, y ∈ l2 -> y ∈ F) -> ordered (join bp l2)).
  { intros Ho2 Hin. apply ordered_join; [lia | exact Ho2 |]. apply Forall_forall. intros y Hy. rewrite Forall_forall in Hl2.
    specialize (Hl2 y Hy). pose proof (Hrg y ltac:(specialize (Hin y Hy); member)). lia. }
  destruct l1 as [|r l1]; injection E as <- E; [subst F; exists (join bp l2) | exists (l1 ++ join p (join bp l2)); subst F].
  - cbn [app]. split_and!; [| now apply Hbj | apply tiles_joined; eapply tiles_perm; [| exact Ht]; now rewrite <- Permutation_middle | lia |].
    2: { apply join_size. intros y Hy. apply (Hrg y). member. }
    destruct (join_cons bp l2) as (s & l' & ->). cbn [join]. rewrite (proj2 (Z.eqb_neq _ _)); [reflexivity |]. unfold stop, HEADER in *. cbn. lia.
  - apply Forall_app in Hl1 as [_ [Hp _]%Forall_cons]. apply StronglySorted_app in Ho as (Ho1 & Hol1 & [Hop Ho2]%StronglySorted_cons).
    pose proof (Hrg p ltac:(member)) as Hp'. split_and!; [reflexivity | | | |].
    + apply StronglySorted_app. split_and!; auto.
      * intros y z Hy Hz. specialize (Ho1 y p Hy ltac:(left)). unfold before in *. apply elem_of_join in Hz as [-> | Hz]; [lia |].
        apply elem_of_join in Hz as [-> | Hz]; [unfold HEADER in *; lia |]. rewrite Forall_forall in Hl2. specialize (Hl2 z Hz). unfold stop, HEADER in *. lia.
      * apply ordered_join; [lia | apply Hbj; [exact Ho2 | intros y Hy; member] |]. apply Forall_forall. intros y Hy.
        assert (Hy2 : 0 < y.2).
        { destruct l2 as [|z l2]; cbn [join] in Hy; [apply list_elem_of_singleton in Hy as ->; lia |]. pose proof (Hrg z ltac:(member)).
          destruct (_ =? _); apply elem_of_cons in Hy as [-> | Hy]; cbn [snd]; try lia; apply (Hrg y); member. }
        split; [| exact Hy2]. apply elem_of_join in Hy as [-> | Hy]; [lia |]. rewrite Forall_forall in Hl2. specialize (Hl2 y Hy). unfold stop, HEADER in *. lia.
    + eapply tiles_perm with (join p (join bp l2) ++ l1 ++ live); [rewrite !app_assoc; now rewrite (Permutation_app_comm (join p _)) |].
      apply tiles_joined. eapply tiles_perm with (join bp l2 ++ p :: l1 ++ live); [now rewrite <- Permutation_middle |].
      apply tiles_joined. eapply tiles_perm; [| exact Ht]. rewrite <- (Permutation_middle (l1 ++ p :: l2) live bp). apply perm_skip.
      rewrite <- app_assoc. cbn [app]. rewrite <- !Permutation_middle. apply perm_skip. rewrite !app_assoc. now rewrite (Permutation_app_comm l1).
    + pose proof (length_join p (join bp l2)). rewrite !length_app. cbn [length]. lia.
    + apply Exists_app. right. apply join_size_later; [lia |]. apply join_size. intros y Hy. apply (Hrg y). member.
Qed.

Lemma free_ok h F bp live fuel : inv h F (bp :: live) -> (length F < fuel)%nat -> exists m p F',
  free fuel (bp.1 + HEADER) h = UOk tt (Heap m p (h_world h)) /\ inv (Heap m p (h_world h)) F' live /\
  (length F' <= length F + 1)%nat /\ Exists (fun y => bp.2 <= y.2) F' /\ only (map fst (root :: F ++ [bp])) (h_mem h) m.
Proof.
  intros Hi Hfuel. destruct (free_place _ _ _ _ Hi) as (l1 & p & l2 & E & Ef & Hl1 & Hl2).
  pose proof (inv_ordered _ _ _ Hi) as Ho. pose proof (fun y => inv_sized _ _ _ y Hi) as Hsz.
  assert (Hbs : sized bp) by (apply Hsz; member). pose proof (iv_linked _ _ _ Hi) as Hl. rewrite E in Hl, Ho.
  assert (Hs2 : Forall sized l2) by (apply Forall_forall; intros y Hy; apply Hsz; rewrite app_comm_cons, E; member).
  assert (Hps : sized p) by (apply Hsz; rewrite app_comm_cons, E; member).
  apply Forall_app in Hl1 as [Hl1 [Hp1 Hp2]%Forall_singleton].
  assert (Hlf : follow bp.1 l2) by (eapply Forall_impl; [exact Hl2 | now intros y []]).
  pose proof Hl as Hl'. apply linked_app in Hl' as [Hla [[Hlp Hps'] Hlb]]. cbn [first] in Hla.
  pose proof (iv_live _ _ _ Hi) as [Hbsz Hlive]%Forall_cons.
  destruct (tiles_range _ _ bp _ (iv_tiles _ _ _ Hi)) as (Hb0 & Hblo & _); [member |].
  destruct (merge_next_ok h bp p.1 l2 base) as (m1 & R1 & O1 & L1); auto; [unfold HEADER in *; lia |].
  assert (Hjf : follow p.1 (join bp l2)).
  { apply Forall_forall. intros y [-> | Hy]%elem_of_join; [exact Hp1 |]. rewrite Forall_forall in Hlf. specialize (Hlf y Hy). unfold HEADER in *. lia. }
  destruct (header_only [bp.1] (h_mem h) m1 p (first l2 base)) as [_ Hp1']; [exact O1 | apply Forall_singleton; lia | now split |].
  destruct (merge_prev_ok (Heap m1 (freep h) (h_world h)) p (join bp l2) base) as (m2 & R2 & O2 & L2); auto.
  { destruct (join_cons bp l2) as (? & ? & ->). done. }
  { unfold sized, HEADER, LIMIT in *. lia. }
  { now apply sized_join. }
  rewrite first_join in R2. cbn [h_mem freep h_world] in *.
  assert (Ofree : only [p.1; bp.1] (h_mem h) m2) 
    by (apply (only_trans _ _ m1); [apply (only_weaken [bp.1]) | apply (only_weaken [p.1])]; auto; intros z Hz; member).
  assert (Rfree : free fuel (bp.1 + HEADER) h = UOk tt (Heap m2 p.1 (h_world h))).
  { unfold free. replace (u64 (bp.1 + HEADER - HEADER)) with bp.1 by (rewrite u64_small; unfold sized, LIMIT, HEADER in *; lia).
    unfold ubind at 1. unfold get_freep. unfold ubind at 1.
    rewrite (free_loop_finds base h bp.1 l1 p l2 fuel); auto.
    - unfold ubind. rewrite R1, R2. reflexivity.
    - unfold HEADER in *; lia.
    - eapply Forall_impl; [exact Hlf |]. intros y Hy. cbn beta in Hy. unfold HEADER in *. lia.
    - rewrite <- E. apply Hi.
    - rewrite <- E. cbn [length]. lia. }
  destruct (free_list _ _ _ _ l1 p l2 Hi E) as (F' & EF & HoF & HtF & HlF & HeF); [apply Forall_app; auto | exact Hl2 |].
  assert (Hsub : [p.1; bp.1] ⊆ map fst (root :: F ++ [bp])).
  { intros z Hz. rewrite app_comm_cons, E, !map_app. cbn [map]. member. }
  exists m2, p.1, F'. split_and!; auto; [split; cbn [h_mem h_world freep]; auto | eapply only_weaken; [exact Hsub | exact Ofree]].
  - rewrite <- EF, map_app. apply elem_of_app. right. destruct (join_cons p (join bp l2)) as (? & ? & ->). left.
  - rewrite <- EF. apply linked_app. split; [| exact L2]. rewrite first_join. apply (linked_only [p.1; bp.1] (h_mem h)); auto.
    apply Forall_forall. intros y Hy. rewrite Forall_forall in Hl1. destruct (StronglySorted_app_1_elem_of _ _ _ y p Ho Hy ltac:(left)).
    specialize (Hl1 y Hy). unfold away. rewrite !Forall_cons. split_and!; auto; lia.
  - eapply sizes_only; [eapply only_weaken; [exact Hsub | exact Ofree] | | exact Hlive]. apply Forall_forall. intros x. intros Hx. apply clear_away, (live_clear _ _ _ _ x Hi Hx).
Qed.

(** What the blocks in use hold stays. *)
Definition kept live (m m' : memory) : Prop := forall x a, x ∈ live -> x.1 <= a < stop x -> m' a = m a.

Lemma kept_only A m m' live : only A m m' -> (forall x, x ∈ live -> clear A x) -> kept live m m'.
Proof.
  intros Ho Ha x a Hx Hr. destruct (Ha x Hx) as [_ Hc]. apply Ho. eapply Forall_impl; [exact Hc |]. intros p. cbn beta. lia.
Qed.

Lemma kept_trans live m1 m2 m3 : kept live m1 m2 -> kept live m2 m3 -> kept live m1 m3.
Proof. intros H1 H2 x a Hx Hr. rewrite (H2 x a Hx Hr). exact (H1 x a Hx Hr). Qed.

(** *** morecore *)

(** A new block at the end of memory. *)
Lemma inv_more h F live w n m : inv h F live -> 0 < n < 2 ^ 32 -> brk w = brk (h_world h) + HEADER * n ->
  m = store 4 (h_mem h) (brk (h_world h) + 8) n -> inv (Heap m (freep h) w) F ((brk (h_world h), n) :: live) /\ kept live (h_mem h) m.
Proof.
  intros Hi Hn Hw ->. set (b := brk (h_world h)) in *. pose proof (iv_tiles _ _ _ Hi) as Ht. fold b in Ht.
  pose proof (only_store_size (h_mem h) b n [b] ltac:(left)) as Ho.
  assert (Hc : forall x, x ∈ F ++ live -> clear [b] x) by (intros x Hx; destruct (tiles_range _ _ x _ Ht Hx); split; [lia | apply Forall_singleton; lia]).
  assert (Hlb : base + HEADER <= b) by (destruct Ht as (t & _ & Ht); apply tiling_range in Ht; lia).
  split; [| apply (kept_only [b]); [exact Ho | intros x Hx; apply Hc; member]].
  split; cbn [h_mem freep h_world]; [apply Hi | | | apply Hi |].
  - apply (linked_only [b] (h_mem h)); [exact Ho | | apply Hi]. apply Forall_cons. split; [apply Forall_singleton; cbn; lia |].
    apply Forall_forall. intros x Hx. apply clear_away, Hc. member.
  - apply Forall_cons. split; [cbn [fst snd]; rewrite load_store_eq; apply Z.mod_small; exact (conj (Z.lt_le_incl _ _ (proj1 Hn)) (proj2 Hn)) |].
    apply (sizes_only [b] (h_mem h)); [exact Ho | | apply Hi]. apply Forall_forall. intros x Hx. apply clear_away, Hc. member.
  - rewrite Hw. eapply tiles_perm; [| apply (tiles_more lo b n (F ++ live)); [lia | exact Ht]]. apply Permutation_middle.
Qed.

Lemma morecore_ok h F live fuel nu : inv h F live -> (length F < fuel)%nat -> 0 < nu < 2 ^ 27 ->
  (exists w, morecore fuel nu h = UOk 0 (Heap (h_mem h) (freep h) w) /\ inv (Heap (h_mem h) (freep h) w) F live /\
     sys_sbrk (Z.max nu 4096 * HEADER) (h_world h) = (u64 (-1), w)) \/
  (exists h' F', morecore fuel nu h = UOk (freep h') h' /\ freep h' <> 0 /\ inv h' F' live /\ (length F' <= length F + 1)%nat /\
     Exists (fun y => nu <= y.2) F' /\ kept live (h_mem h) (h_mem h')).
Proof.
  intros Hi Hfuel Hnu. set (n := if nu <? 4096 then 4096 else nu). assert (Hn : nu <= n /\ 0 < n < 2 ^ 27) by (subst n; zb).
  pose proof (brk_limit (h_world h)) as Hlim. assert (Hlb : lo <= brk (h_world h)) by (destruct (iv_tiles _ _ _ Hi) as (t & _ & Ht); now apply tiling_range in Ht).
  destruct (sbrk_law (n * HEADER) (h_world h)) as (r & w & Hs & Hr); [unfold HEADER; lia |].
  assert (E : morecore fuel nu h = (if r =? u64 (-1) then uret 0 else set_size r n;; free fuel (u64 (r + HEADER));; get_freep)
    (Heap (h_mem h) (freep h) w)).
  { unfold morecore. fold n. rewrite i32_small by (unfold HEADER; lia). unfold ubind at 1, call_sbrk. now rewrite Hs. }
  rewrite E. clear E.
  destruct Hr as [[-> Hw] | [-> Hw]].
  - left. exists w. rewrite Z.eqb_refl. split_and!; [reflexivity | destruct Hi; split; auto; cbn; now rewrite Hw |].
    replace (Z.max nu 4096) with n by (subst n; zb). exact Hs.
  - right. rewrite (proj2 (Z.eqb_neq _ _)) by (change (u64 (-1)) with (2 ^ 64 - 1); unfold PHYSTOP, KERNBASE in *; lia).
    pose proof (brk_limit w) as Hlim'. rewrite Z.mul_comm in Hw. set (b := brk (h_world h)) in *. unfold ubind at 1, set_size. cbn [h_mem freep h_world].
    destruct (inv_more h F live w n _ Hi ltac:(lia) Hw eq_refl) as [Hi' Hk]. fold b in Hi', Hk.
    rewrite u64_small by (unfold PHYSTOP, KERNBASE, HEADER in *; lia).
    destruct (free_ok _ F (b, n) live fuel Hi' Hfuel) as (m' & p & F' & Hf & Hi2 & Hl & He & Ho). cbn [fst h_world h_mem] in *.
    unfold ubind. rewrite Hf. exists (Heap m' p w), F'. cbn [freep h_mem]. split_and!; auto.
    + pose proof (iv_freep _ _ _ Hi2) as Hp. cbn [freep] in Hp. apply list_elem_of_fmap in Hp as (x & -> & Hx). pose proof (inv_sized _ _ _ x Hi2 ltac:(member)). unfold sized in *. cbn. lia.
    + eapply Exists_impl; [exact He |]. cbn. intros. lia.
    + apply (kept_trans _ _ _ _ Hk). apply (kept_only _ _ _ _ Ho). intros x Hx. apply (live_clear _ _ _ _ x Hi' Hx).
Qed.

(** *** malloc *)

(** The loop over blocks that are too small. *)
Lemma malloc_skip h n fuel l f z : forall prevp k, linked (h_mem h) (l ++ [f]) z -> Forall (fun x => x.2 < n) (l ++ [f]) -> freep h = f.1 ->
  f.1 ∉ map fst l -> (length l < k)%nat -> malloc_loop fuel k n prevp (first l f.1) h =
  (p <- morecore fuel n;; if p =? 0 then uret 0 else next <- get_ptr p;; malloc_loop fuel (k - length l - 1) n p next) h.
Proof.
  induction l as [|x l IH]; intros prevp k Hl Hs Hf Hn Hk; (destruct k as [|k]; [cbn in Hk; lia |]); cbn [app linked first malloc_loop length map] in *;
    destruct Hl as [[Hx1 Hx2] Hl]; apply Forall_cons in Hs as [Hx Hs]; unfold ubind at 1; unfold get_size at 1; cbn beta iota; rewrite Hx2, (proj2 (Z.leb_gt n _)) by lia;
    unfold ubind at 1; unfold get_freep at 1; cbn beta iota; rewrite Hf.
  - rewrite Z.eqb_refl. now replace (Datatypes.S k - 0 - 1)%nat with k by lia.
  - rewrite not_elem_of_cons in Hn. rewrite (proj2 (Z.eqb_neq x.1 f.1)) by (destruct Hn; congruence).
    unfold ubind at 1; unfold get_ptr at 1; cbn beta iota. rewrite Hx1, first_app. cbn [first].
    rewrite (IH x.1 k) by (auto; try tauto; lia). reflexivity.
Qed.

(** The address of the last block, [a] if there is none. *)
Fixpoint final (a : Z) (l : list block) : Z := match l with [] => a | x :: l' => final x.1 l' end.

Lemma malloc_reach h n fuel x rest z l : forall prevp k, linked (h_mem h) (l ++ x :: rest) z -> Forall (fun x => x.2 < n) l -> freep h ∉ map fst l ->
  n <= x.2 -> (length l < k)%nat -> malloc_loop fuel k n prevp (first l x.1) h = malloc_loop fuel 1 n (final prevp l) x.1 h.
Proof.
  induction l as [|y l IH]; intros prevp k Hl Hs Hf Hx Hk; (destruct k as [|k]; [cbn in Hk; lia |]); cbn [app linked first final length map] in *;
    destruct Hl as [[Hy1 Hy2] Hl]; cbn [malloc_loop].
  - unfold ubind at 1; unfold get_size at 1; symmetry; unfold ubind at 1; unfold get_size at 1; cbn beta iota. rewrite Hy2, (proj2 (Z.leb_le n _)) by lia. reflexivity.
  - apply Forall_cons in Hs as [Hy Hs]. rewrite not_elem_of_cons in Hf. unfold ubind at 1; unfold get_size at 1; cbn beta iota. rewrite Hy2, (proj2 (Z.leb_gt n _)) by lia.
    unfold ubind at 1; unfold get_freep at 1; cbn beta iota. rewrite (proj2 (Z.eqb_neq y.1 _)) by (destruct Hf; congruence).
    unfold ubind at 1; unfold get_ptr at 1; cbn beta iota. rewrite Hy1, first_app. cbn [first]. apply IH; auto; [tauto | lia].
Qed.

Lemma inv_live_apart h F live x y : inv h F live -> x ∈ live -> y ∈ F -> stop x <= y.1 \/ stop y <= x.1.
Proof.
  intros Hi (a & b & ->)%list_elem_of_split Hy. apply (tiles_apart lo (brk (h_world h)) x (F ++ a ++ b)); [| member].
  eapply tiles_perm; [| apply Hi]. rewrite app_assoc, <- Permutation_middle. now rewrite <- app_assoc.
Qed.

(** A block of the right size is taken out of the list. *)
Lemma take_whole h F live fuel l1 prev x l2 : inv h F live -> root :: F = l1 ++ prev :: x :: l2 -> 0 < x.2 -> exists h' F',
  malloc_loop fuel 1 x.2 prev.1 x.1 h = UOk (x.1 + HEADER) h' /\ inv h' F' (x :: live) /\ (length F' <= length F)%nat /\ kept live (h_mem h) (h_mem h').
Proof.
  intros Hi E Hn. pose proof (iv_linked _ _ _ Hi) as Hl. pose proof (inv_ordered _ _ _ Hi) as Ho. pose proof (iv_order _ _ _ Hi) as HoF.
  assert (EF : exists A, root :: A = l1 ++ [prev] /\ F = A ++ x :: l2).
  { destruct l1 as [|r l1]; injection E as <- ->; [now exists [] | exists (l1 ++ [prev]); now rewrite <- app_assoc]. }
  destruct EF as (A & EA & ->). rewrite E in Hl, Ho. apply linked_app in Hl as [Hl1 [[_ Hp] [[Hx1 Hx2] Hl2]]].
  assert (Hsz : forall y, y ∈ root :: (A ++ x :: l2) ++ live -> sized y) by (intros y; apply (inv_sized _ _ _ y Hi)).
  assert (Hz2 : 0 <= first l2 base < 2 ^ 64) by (apply sized_first; [apply Forall_forall; intros y Hy; apply Hsz; member | pose proof (Hsz root ltac:(left)); unfold sized, HEADER in *; cbn in *; lia]).
  pose proof (Hsz x ltac:(member)) as Hsx. exists (Heap (store64 (h_mem h) prev.1 (first l2 base)) prev.1 (h_world h)), (A ++ l2).
  apply StronglySorted_app in Ho as (Ho12 & _ & [Hop [_ Hol2]%StronglySorted_cons]%StronglySorted_cons). apply Forall_cons in Hop as [_ Hop].
  pose proof (only_store_ptr (h_mem h) prev.1 (first l2 base) [prev.1] ltac:(left)) as Honly.
  assert (Hprev : prev ∈ root :: A) by (rewrite EA; member).
  assert (Hc : forall y, y ∈ live -> clear [prev.1] y).
  { intros y Hy. destruct (tiles_range _ _ y _ (iv_tiles _ _ _ Hi)) as (? & ? & _); [member |]. split; [lia |]. apply Forall_singleton.
    apply elem_of_cons in Hprev as [-> | Hpr]; [cbn; lia |]. assert (Hpr' : prev ∈ A ++ x :: l2) by member.
    pose proof (inv_live_apart _ _ _ y prev Hi Hy Hpr'). pose proof (tiles_range _ _ prev _ (iv_tiles _ _ _ Hi) ltac:(member)). unfold stop, HEADER in *. lia. }
  split_and!.
  - cbn [malloc_loop]. unfold ubind, get_size, get_ptr, set_ptr, set_freep. rewrite Hx2, Z.leb_refl, Z.eqb_refl, Hx1. cbn [h_mem freep h_world uret].
    rewrite u64_small by (unfold sized, LIMIT, HEADER in *; lia). reflexivity.
  - split; cbn [h_mem freep h_world].
    + rewrite app_comm_cons, map_app. apply elem_of_app. left. now apply list_elem_of_fmap_2.
    + rewrite app_comm_cons, EA, <- app_assoc. cbn [app]. apply linked_app. cbn [first]. split.
      * apply (linked_only [prev.1] (h_mem h)); auto. apply Forall_forall. intros y Hy. destruct (Ho12 y prev Hy ltac:(left)). apply Forall_singleton. lia.
      * apply linked_cons; auto. now apply ordered_away.
    + apply Forall_cons. split; [rewrite load_size_out; [exact Hx2 |] | apply (sizes_only [prev.1] (h_mem h)); auto; [| apply Hi]; apply Forall_forall; intros y Hy; now apply clear_away, Hc].
      pose proof (blocks_clear _ _ _ x (A ++ l2 ++ live) Hi ltac:(rewrite <- app_assoc; cbn [app]; now rewrite <- Permutation_middle)) as [_ Hcx].
      rewrite Forall_forall in Hcx. specialize (Hcx prev.1). rewrite app_comm_cons, map_app in Hcx. specialize (Hcx ltac:(apply elem_of_app; left; now apply list_elem_of_fmap_2)).
      unfold stop, HEADER in *. lia.
    + apply StronglySorted_app in HoF as (HoA & HA & [_ H2]%StronglySorted_cons). apply StronglySorted_app. split_and!; auto. intros y z Hy Hz. apply HoA; member.
    + eapply tiles_perm; [| apply Hi]. rewrite <- !app_assoc. cbn [app]. rewrite <- !Permutation_middle. reflexivity.
  - rewrite !length_app. cbn [length]. lia.
  - now apply (kept_only [prev.1]).
Qed.

(** Of a larger block the end is taken. *)
Lemma take_part h F live fuel l1 prev x l2 n : inv h F live -> root :: F = l1 ++ prev :: x :: l2 -> 0 < n < x.2 -> exists h' F',
  let b := x.1 + HEADER * (x.2 - n) in
  malloc_loop fuel 1 n prev.1 x.1 h = UOk (b + HEADER) h' /\ inv h' F' ((b, n) :: live) /\ (length F' <= length F)%nat /\ kept live (h_mem h) (h_mem h').
Proof.
  intros Hi E Hn. set (b := x.1 + HEADER * (x.2 - n)). pose proof (iv_linked _ _ _ Hi) as Hl. pose proof (iv_order _ _ _ Hi) as HoF.
  assert (EF : exists A, root :: A = l1 ++ [prev] /\ F = A ++ x :: l2).
  { destruct l1 as [|r l1]; injection E as <- ->; [now exists [] | exists (l1 ++ [prev]); now rewrite <- app_assoc]. }
  destruct EF as (A & EA & ->). rewrite app_comm_cons in Hl. apply linked_app in Hl as [Hl1 [[Hx1 Hx2] Hl2]].
  pose proof (inv_sized _ _ _ x Hi ltac:(member)) as Hsx.
  pose proof (tiles_range _ _ x _ (iv_tiles _ _ _ Hi) ltac:(member)) as Hrx.
  set (m1 := store 4 (h_mem h) (x.1 + 8) (u32 (x.2 - n))). set (m2 := store 4 m1 (b + 8) n).
  assert (Hxb : x.1 + HEADER <= b /\ b + HEADER <= stop x) by (unfold b, stop, HEADER in *; lia).
  assert (Honly : only [x.1; b] (h_mem h) m2) by (eapply only_trans; apply only_store_size; member).
  assert (H32 : 0 <= x.2 < 2 ^ 32) by (unfold sized, stop, LIMIT, HEADER in *; lia).
  assert (Hm1 : load 4 m1 (x.1 + 8) = x.2 - n) by (subst m1; rewrite load_store_eq, u32_small by lia; apply Z.mod_small; lia).
  assert (Hap : forall y, y ∈ A ++ l2 -> y.1 + HEADER <= x.1 /\ stop y <= x.1 \/ stop x < y.1).
  { intros y Hy. apply StronglySorted_app in HoF as (HoA & _ & [Hx _]%StronglySorted_cons). rewrite Forall_forall in Hx.
    apply elem_of_app in Hy as [Hy | Hy]; [destruct (HoA y x Hy ltac:(left)) | destruct (Hx y Hy)]; lia. }
  assert (Haw : Forall (away [x.1; b]) (root :: A ++ l2)).
  { apply Forall_forall. intros y [-> | Hy]%elem_of_cons; unfold away; rewrite !Forall_cons; [cbn; unfold HEADER in *; split_and!; auto; lia |].
    specialize (Hap y Hy). unfold stop, HEADER in *. split_and!; auto; lia. }
  rewrite app_comm_cons in Haw. apply Forall_app in Haw as [Haw1 Haw2].
  assert (Hc : forall y, y ∈ live -> clear [x.1; b] y).
  { intros y Hy. destruct (tiles_range _ _ y _ (iv_tiles _ _ _ Hi)) as (? & ? & _); [member |]. split; [lia |]. rewrite !Forall_cons.
    pose proof (inv_live_apart _ _ _ y x Hi Hy ltac:(member)). unfold stop, HEADER in *. split_and!; auto; lia. }
  exists (Heap m2 prev.1 (h_world h)), (A ++ (x.1, x.2 - n) :: l2). split_and!.
  - cbn [malloc_loop]. unfold ubind, get_size, get_ptr, set_size, set_freep. rewrite Hx2, (proj2 (Z.leb_le n _)), (proj2 (Z.eqb_neq x.2 n)) by lia.
    cbn [h_mem freep h_world uret]. fold m1. rewrite Hm1, (Z.mul_comm (x.2 - n)). fold b.
    rewrite (u64_small b), u64_small by (unfold sized, stop, LIMIT, HEADER in *; lia). reflexivity.
  - split; cbn [h_mem freep h_world].
    + rewrite app_comm_cons, EA, !map_app. cbn [map]. member.
    + rewrite app_comm_cons. apply linked_app. split; [now apply (linked_only [x.1; b] (h_mem h)) |]. cbn [linked first]. split; [split; cbn [fst snd] |].
      * subst m2 m1. rewrite !load_ptr_out by (unfold HEADER in *; lia). exact Hx1.
      * subst m2. rewrite load_store_ne by (unfold HEADER in *; lia). exact Hm1.
      * now apply (linked_only [x.1; b] (h_mem h)).
    + apply Forall_cons. split; [subst m2; cbn [fst snd]; rewrite load_store_eq; apply Z.mod_small; lia |].
      apply (sizes_only [x.1; b] (h_mem h)); auto; [| apply Hi]. apply Forall_forall. intros y Hy. now apply clear_away, Hc.
    + apply StronglySorted_app in HoF as (HoA & HA & [Hx H2]%StronglySorted_cons). apply StronglySorted_app. split_and!; auto.
      * intros y z Hy Hz. apply elem_of_cons in Hz as [-> | Hz]; [destruct (HoA y x Hy ltac:(left)) | destruct (HoA y z Hy ltac:(member))]; now split.
      * apply StronglySorted_cons. split; auto. eapply Forall_impl; [exact Hx |]. intros z []. unfold before, stop, HEADER in *. cbn [fst snd]. lia.
    + eapply tiles_perm with ((x.1, x.2 - n) :: (b, n) :: A ++ l2 ++ live).
      { rewrite <- !app_assoc. cbn [app]. rewrite <- !Permutation_middle. reflexivity. }
      apply tiles_cut; [lia | lia |]. replace (x.1, x.2 - n + n) with x by (destruct x; cbn; f_equal; lia).
      eapply tiles_perm; [| apply Hi]. rewrite <- app_assoc. cbn [app]. now rewrite <- Permutation_middle.
  - rewrite !length_app. cbn [length]. lia.
  - now apply (kept_only [x.1; b]).
Qed.

Lemma final_snoc a l x : final a (l ++ [x]) = x.1.
Proof. revert a. induction l as [|y l IH]; intros a; cbn [app final]; auto. Qed.

(** The block before [x] on the way from the block [f] around the list. *)
Lemma path_prev l1 f l2 l x rest : l2 ++ l1 ++ [f] = l ++ x :: rest -> first l1 f.1 <> x.1 ->
  exists a prev b, l1 ++ f :: l2 = a ++ prev :: x :: b /\ final f.1 l = prev.1.
Proof.
  intros E Hne. rewrite cons_middle, app_assoc. apply app_eq_inv in E as [(k & -> & E) | (k & -> & E)].
  - destruct k as [|y k]; [cbn [app] in E; destruct l1; injection E as <- _; now cbn in Hne |]. injection E as <- ->.
    destruct (exists_last (l := f :: l)) as (a & prev & Ea); [done |]. exists (l1 ++ a), prev, k.
    change (final f.1 l) with (final 0 (f :: l)). rewrite Ea, final_snoc. split; [| reflexivity].
    rewrite <- !app_assoc. f_equal. cbn [app]. rewrite app_comm_cons, Ea, <- app_assoc. reflexivity.
  - destruct k as [|y k]; [destruct l1; injection E as -> _; now cbn in Hne |].
    destruct (exists_last (l := y :: k)) as (a & prev & Ea); [done |]. rewrite E, Ea. exists a, prev, (rest ++ l2).
    rewrite app_assoc, final_snoc. split; [| reflexivity]. now rewrite <- !app_assoc.
Qed.

Lemma inv_split h F live : inv h F live -> exists l1 f l2, root :: F = l1 ++ f :: l2 /\ freep h = f.1 /\ first l1 f.1 = base /\
  linked (h_mem h) ((l2 ++ l1) ++ [f]) (first ((l2 ++ l1) ++ [f]) base) /\ load64 (h_mem h) (freep h) = first (l2 ++ l1) f.1 /\ f.1 ∉ map fst (l2 ++ l1).
Proof.
  intros Hi. pose proof (iv_freep _ _ _ Hi) as (f & Ef & Hf)%list_elem_of_fmap. apply list_elem_of_split in Hf as (l1 & l2 & E).
  pose proof (iv_linked _ _ _ Hi) as Hl. pose proof (inv_ordered _ _ _ Hi) as Ho. rewrite E in Hl, Ho.
  assert (Eb : first l1 f.1 = base) by (destruct l1; injection E as <- _; reflexivity).
  exists l1, f, l2. split_and!; auto.
  - rewrite <- app_assoc. apply linked_rotate. rewrite <- app_assoc. cbn [app]. rewrite first_app. cbn [first]. now rewrite Eb.
  - apply linked_app in Hl as [_ [[Hf _] _]]. rewrite Ef, Hf, first_app. now rewrite Eb.
  - rewrite map_app. apply StronglySorted_app in Ho as (Ho1 & _ & [Hf2 _]%StronglySorted_cons). rewrite Forall_forall in Hf2.
    intros [(y & Ey & Hy)%list_elem_of_fmap | (y & Ey & Hy)%list_elem_of_fmap]%elem_of_app; [destruct (Hf2 y Hy) | destruct (Ho1 y f Hy ltac:(left))]; unfold HEADER in *; lia.
Qed.

Lemma first_fit n l : Exists (fun x => n <= x.2) l -> exists l1 x l2, l = l1 ++ x :: l2 /\ Forall (fun x => x.2 < n) l1 /\ n <= x.2.
Proof.
  induction l as [|y l IH]; intros He; [inversion He |]. destruct (Z.leb_spec n y.2); [now exists [], y, l |].
  apply Exists_cons in He as [? | He]; [lia |]. destruct (IH He) as (l1 & x & l2 & -> & ? & ?). exists (y :: l1), x, l2. auto.
Qed.

(** If a block is large enough, the loop takes one. *)
Lemma malloc_fit h F live fuel k n : inv h F live -> Exists (fun x => n <= x.2) F -> 0 < n -> (length F < k)%nat -> exists h' F' b,
  malloc_loop fuel k n (freep h) (load64 (h_mem h) (freep h)) h = UOk (b + HEADER) h' /\ inv h' F' ((b, n) :: live) /\
  (length F' <= length F)%nat /\ kept live (h_mem h) (h_mem h').
Proof.
  intros Hi He Hn Hk. destruct (inv_split _ _ _ Hi) as (l1 & f & l2 & E & Ef & Eb & Hl & -> & Hnf).
  assert (He' : Exists (fun x => n <= x.2) ((l2 ++ l1) ++ [f])).
  { apply Exists_exists in He as (x & Hx & Hnx). apply Exists_exists. exists x. split; [| exact Hnx].
    assert (Hin : x ∈ root :: F) by now right. rewrite E in Hin. member. }
  apply first_fit in He' as (l & x & rest & Ep & Hsm & Hx).
  assert (Hx0 : x ∈ root :: F /\ 0 < x.2) by (rewrite E; split; [assert (x ∈ (l2 ++ l1) ++ [f]) by (rewrite Ep; member); member | lia]).
  destruct (path_prev l1 f l2 l x rest) as (a & prev & b & E' & Efin); [now rewrite app_assoc | |].
  { rewrite Eb. destruct Hx0 as [[-> | Hin]%elem_of_cons Hpos]; [cbn in Hpos; lia |]. pose proof (tiles_range _ _ x _ (iv_tiles _ _ _ Hi) ltac:(member)). unfold HEADER in *. lia. }
  assert (Eloop : malloc_loop fuel k n (freep h) (first (l2 ++ l1) f.1) h = malloc_loop fuel 1 n prev.1 x.1 h).
  { rewrite <- Efin, <- Ef. replace (first (l2 ++ l1) (freep h)) with (first l x.1).
    2: { transitivity (first (l ++ x :: rest) 0); [now rewrite first_app | rewrite <- Ep, first_app, Ef; reflexivity]. }
    rewrite Ep in Hl. eapply malloc_reach; eauto.
    - rewrite Ef. intros Hin. apply Hnf. destruct rest as [|r rest].
      + apply app_inj_tail in Ep as [-> _]. exact Hin.
      + destruct (exists_last (l := r :: rest)) as (r' & g & Er); [done |]. rewrite Er, app_comm_cons, app_assoc in Ep. apply app_inj_tail in Ep as [-> _].
        rewrite map_app. apply elem_of_app. now left.
    - apply (f_equal length) in E, Ep. rewrite !length_app in *. cbn [length] in *. lia. }
  rewrite Eloop, <- E in *. destruct (Z.eqb_spec x.2 n) as [<- | Hne].
  - destruct (take_whole h F live fuel a prev x b Hi E' ltac:(lia)) as (h' & F' & ? & ? & ? & ?). exists h', F', x.1. destruct x. auto.
  - destruct (take_part h F live fuel a prev x b n Hi E' ltac:(lia)) as (h' & F' & ? & ? & ? & ?). eexists h', F', _. eauto.
Qed.

(** The loop of [malloc] ends, with a block or, when [sbrk] fails, without one. *)
Lemma malloc_loop_ok h F live fuel n : inv h F live -> 0 < n < 2 ^ 27 -> (length F + 2 <= fuel)%nat ->
  let r := malloc_loop fuel (2 * fuel) n (freep h) (load64 (h_mem h) (freep h)) h in
  (exists h', r = UOk 0 h' /\ inv h' F live /\ h_mem h' = h_mem h /\ Forall (fun x => x.2 < n) F /\
     sys_sbrk (Z.max n 4096 * HEADER) (h_world h) = (u64 (-1), h_world h')) \/
  (exists h' F' b, r = UOk (b + HEADER) h' /\ inv h' F' ((b, n) :: live) /\ (length F' <= length F + 1)%nat /\ kept live (h_mem h) (h_mem h')).
Proof.
  intros Hi Hn Hfuel r. subst r. destruct (decide (Exists (fun x => n <= x.2) F)) as [He | Hno].
  { right. destruct (malloc_fit h F live fuel (2 * fuel) n Hi He ltac:(lia) ltac:(lia)) as (h' & F' & b & ? & ? & ? & ?). exists h', F', b. split_and!; auto. lia. }
  assert (Hsm : Forall (fun x => x.2 < n) F) by (apply Forall_Exists_neg in Hno; eapply Forall_impl; [exact Hno |]; intros x; cbn beta; lia).
  destruct (inv_split _ _ _ Hi) as (l1 & f & l2 & E & Ef & _ & Hl & -> & Hnf).
  assert (Hlen : length (l2 ++ l1) = length F) by (apply (f_equal length) in E; rewrite !length_app in *; cbn [length] in *; lia).
  rewrite (malloc_skip h n fuel (l2 ++ l1) f _ (freep h) (2 * fuel) Hl); auto; [| | lia].
  2: { apply Forall_forall. intros x Hx. assert (Hin : x ∈ root :: F) by (rewrite E; member). apply elem_of_cons in Hin as [-> | Hin]; [cbn; lia |].
       rewrite Forall_forall in Hsm. auto. }
  rewrite Hlen. destruct (morecore_ok h F live fuel n Hi ltac:(lia) Hn) as [(w & Hm & Hi' & Hs) | (h' & F' & Hm & Hnz & Hi' & Hl' & He & Hk)].
  - left. unfold ubind. rewrite Hm. cbn [Z.eqb]. eexists. split; [reflexivity |]. auto.
  - right. unfold ubind at 1. rewrite Hm, (proj2 (Z.eqb_neq _ _) Hnz). unfold ubind, get_ptr.
    destruct (malloc_fit h' F' live fuel (2 * fuel - length F - 1) n Hi' He ltac:(lia) ltac:(lia)) as (h2 & F2 & b & R & Hi2 & Hl2 & Hk2).
    exists h2, F2, b. split_and!; auto; [lia | now apply (kept_trans _ _ (h_mem h'))].
Qed.

(** The state of the allocator: as the program starts, or later. *)
Definition ready h F live : Prop := (freep h = 0 /\ brk (h_world h) = lo /\ F = [] /\ live = []) \/ inv h F live.

Definition units (nbytes : Z) : Z := (nbytes + HEADER - 1) / HEADER + 1.

Lemma malloc_ok h F live fuel nbytes : ready h F live -> 0 <= nbytes <= 2 ^ 31 - 32 -> (length F + 2 <= fuel)%nat ->
  (exists h', malloc base fuel nbytes h = UOk 0 h' /\ inv h' F live /\ kept live (h_mem h) (h_mem h') /\ Forall (fun x => x.2 < units nbytes) F /\
     sys_sbrk (Z.max (units nbytes) 4096 * HEADER) (h_world h) = (u64 (-1), h_world h')) \/
  (exists h' F' b, malloc base fuel nbytes h = UOk (b + HEADER) h' /\ inv h' F' ((b, units nbytes) :: live) /\ (length F' <= length F + 1)%nat /\
     kept live (h_mem h) (h_mem h')).
Proof.
  intros Hr Hb Hfuel. unfold malloc. fold (units nbytes).
  assert (Hn : 0 < units nbytes < 2 ^ 27).
  { unfold units, HEADER. pose proof (Z.div_pos (nbytes + 16 - 1) 16 ltac:(lia) ltac:(lia)).
    pose proof (Z.div_lt_upper_bound (nbytes + 16 - 1) 16 (2 ^ 27 - 1) ltac:(lia) ltac:(lia)). lia. }
  rewrite u32_small by lia. generalize dependent (units nbytes). intros n Hn.
  destruct Hr as [(E0 & Hlo & -> & ->) | Hi].
  - set (h0 := Heap (store 4 (store64 (h_mem h) base base) (base + 8) 0) base (h_world h)).
    assert (Hi : inv h0 [] []).
    { pose proof (brk_limit (h_world h)) as Hlim. rewrite Hlo in Hlim. split; cbn [h_mem h0 freep h_world map linked app]; [left | | constructor | constructor |].
      - split; [split; cbn [first fst snd] | exact I]; [rewrite load_ptr_out, load64_store64_eq; auto; unfold PHYSTOP, KERNBASE, HEADER in *; lia | now rewrite load_store_eq].
      - exists []. split; [reflexivity |]. symmetry. exact Hlo. }
    assert (E : forall A (f : Z -> UM S A), (prevp <- get_freep;; prevp <- (if prevp =? 0 then set_freep base;; set_ptr base base;; set_size base 0;; uret base
      else uret prevp);; f prevp) h = f (freep h0) h0) by (intros A f; unfold ubind, get_freep; rewrite E0; reflexivity).
    rewrite E. destruct (malloc_loop_ok h0 [] [] fuel n Hi Hn Hfuel) as [(h' & R & Hi' & Hm & Hs & Hf) | (h' & F' & b & R & Hi' & Hl & Hk)]; [left; exists h' | right; exists h', F', b];
      unfold ubind, get_ptr; rewrite R; split_and!; auto; intros x a Hx; now apply elem_of_nil in Hx.
  - assert (E0 : freep h <> 0).
    { pose proof (iv_freep _ _ _ Hi) as (x & -> & Hx)%list_elem_of_fmap. pose proof (inv_sized _ _ _ x Hi ltac:(member)). unfold sized in *. cbn. lia. }
    unfold ubind, get_freep, get_ptr. rewrite (proj2 (Z.eqb_neq _ _) E0). cbn [uret].
    destruct (malloc_loop_ok h F live fuel n Hi Hn Hfuel) as [(h' & R & Hi' & Hm & Hs & Hf) | (h' & F' & b & R & Hi' & Hl & Hk)]; [left; exists h' | right; exists h', F', b];
      unfold uret; rewrite R; split_and!; auto. intros x a Hx Hr. now rewrite Hm.
Qed.

Lemma inv_perm h F live live' : live ≡ₚ live' -> inv h F live -> inv h F live'.
Proof. intros Hp []. split; auto; [now rewrite <- Hp | eapply tiles_perm; [| eassumption]; now rewrite Hp]. Qed.

(** A byte is stored in a block in use. *)
Lemma inv_store h F live x addr v : inv h F live -> x ∈ live -> x.1 + HEADER <= addr < stop x ->
  inv (Heap (upd (h_mem h) addr v) (freep h) (h_world h)) F live.
Proof.
  intros Hi Hx Hr. set (c := x.1 + HEADER * ((addr - x.1) / HEADER)).
  assert (Hc : x.1 + HEADER <= c /\ c <= addr < c + HEADER /\ c + HEADER <= stop x).
  { unfold c, stop, HEADER in *. pose proof (Z.div_mod (addr - x.1) 16 ltac:(lia)). pose proof (Z.mod_pos_bound (addr - x.1) 16 ltac:(lia)). lia. }
  assert (Ho : only [c] (h_mem h) (upd (h_mem h) addr v)).
  { intros a [Ha _]%Forall_cons. apply upd_ne. cbn beta in Ha. lia. }
  assert (Hal : forall y, y ∈ F ++ live -> away [c] y).
  { intros y Hy. apply Forall_singleton. apply elem_of_app in Hy as [Hy | Hy].
    - pose proof (inv_live_apart _ _ _ x y Hi Hx Hy). pose proof (tiles_range _ _ y _ (iv_tiles _ _ _ Hi) ltac:(member)). unfold stop, HEADER in *. lia.
    - apply list_elem_of_split in Hx as (l1 & l2 & ->). assert (Hi' : inv h F (x :: l1 ++ l2)) by (eapply inv_perm; [| exact Hi]; now rewrite <- Permutation_middle).
      apply elem_of_app in Hy as [Hy | [-> | Hy]%elem_of_cons]; [| lia |]; pose proof (inv_apart h F (l1 ++ l2) x y Hi' ltac:(member));
        pose proof (tiles_range _ _ y _ (iv_tiles _ _ _ Hi) ltac:(member)); unfold stop, HEADER in *; lia. }
  pose proof (tiles_range _ _ x _ (iv_tiles _ _ _ Hi) ltac:(member)) as (_ & Hxlo & _).
  destruct Hi as [H1 H2 H3 H4 H5]. split; auto; cbn [h_mem freep h_world].
  - apply (linked_only [c] (h_mem h)); auto. apply Forall_cons. split; [apply Forall_singleton; cbn; lia |].
    apply Forall_forall. intros y Hy. apply Hal. member.
  - apply (sizes_only [c] (h_mem h)); auto. apply Forall_forall. intros y Hy. apply Hal. member.
Qed.

End allocator.

(** ** What a program may rely on

    The blocks that it has, each with an address, a length, and the bytes that
    it has stored there. *)
Record area := Area { a_ptr : Z; a_len : Z; a_data : Z -> option Z }.

(** What a program does with memory. *)
Inductive request := RMalloc (n : Z) | RFree (p : Z) | RStore (p i v : Z) | RLoad (p i : Z).

Definition area_at (p i : Z) (x : area) : Prop := a_ptr x = p /\ 0 <= i < a_len x.

(** The rules: a block has at most 2^31 - 32 bytes, only blocks that it has are
    freed, bytes are stored within a block, and only bytes that were stored are
    loaded. *)
Definition legal (a : list area) (o : request) : Prop :=
  match o with
  | RMalloc n => 0 <= n <= 2 ^ 31 - 32
  | RFree p => Exists (fun x => a_ptr x = p) a
  | RStore p i v => Exists (area_at p i) a /\ 0 <= v < 256
  | RLoad p i => Exists (fun x => area_at p i x /\ a_data x i <> None) a
  end.

(** Two areas have different addresses and do not overlap. *)
Definition separate (p n : Z) (x : area) : Prop := p <> a_ptr x /\ (p + n <= a_ptr x \/ a_ptr x + a_len x <= p).

Definition put_byte (i v : Z) (x : area) : area := Area (a_ptr x) (a_len x) (fun j => if j =? i then Some v else a_data x j).

(** The answer [r] to a request, and the blocks after it. *)
Inductive answer (a : list area) : request -> Z -> list area -> Prop :=
| answer_null n : answer a (RMalloc n) 0 a
| answer_malloc n p : 0 < p -> Forall (separate p n) a -> answer a (RMalloc n) p (Area p n (fun _ => None) :: a)
| answer_free a1 x a2 : a = a1 ++ x :: a2 -> answer a (RFree (a_ptr x)) 0 (a1 ++ a2)
| answer_store a1 x a2 i v : a = a1 ++ x :: a2 -> answer a (RStore (a_ptr x) i v) 0 (a1 ++ put_byte i v x :: a2)
| answer_load x i v : x ∈ a -> a_data x i = Some v -> answer a (RLoad (a_ptr x) i) v a.

Section service.
Context {W : Type} `{Sbrk W}.
Abbreviation S := (heap W).
Implicit Types (h : S) (a : list area) (F live : list block).
Variables base lo : Z.
Hypothesis Hbase : 0 < base /\ base + HEADER <= lo.

Definition perform (fuel : nat) (o : request) : UM S Z :=
  match o with
  | RMalloc n => malloc base fuel n
  | RFree p => free fuel p;; uret 0
  | RStore p i v => fun h => UOk 0 (Heap (upd (h_mem h) (p + i) v) (freep h) (h_world h))
  | RLoad p i => fun h => UOk (h_mem h (p + i)) h
  end.

(** As long as the program keeps to the rules, every request gets an answer, and
    [Q] holds. *)
Fixpoint serves (Q : S -> list area -> Prop) (fuel : nat) h a (os : list request) : Prop :=
  Q h a /\
  match os with
  | [] => True
  | o :: os' => legal a o -> exists r h' a', perform fuel o h = UOk r h' /\ answer a o r a' /\ serves Q fuel h' a' os'
  end.

(** The blocks that are free. *)
Definition free_blocks h F : Prop := freep h = 0 /\ F = [] \/ linked (h_mem h) ((base, 0) :: F) base.

(** There is no room for [n] bytes: every free block is too small, and [sbrk] was
    called and failed. *)
Definition no_room (n : Z) h (h' : S) : Prop :=
  (exists F, free_blocks h F /\ Forall (fun x => x.2 < units n) F) /\ sys_sbrk (Z.max (units n) 4096 * HEADER) (h_world h) = (u64 (-1), h_world h').

Definition null_ok h (o : request) (r : Z) (h' : S) : Prop := match o with RMalloc n => r = 0 -> no_room n h h' | _ => True end.

(** As long as the program keeps to the rules, every request gets an answer, and
    the null pointer only if there is no room. *)
Fixpoint answers (fuel : nat) h a (os : list request) : Prop :=
  match os with
  | [] => True
  | o :: os' => legal a o -> exists r h' a', perform fuel o h = UOk r h' /\ answer a o r a' /\ null_ok h o r h' /\ answers fuel h' a' os'
  end.

Definition block_of (x : area) : block := (a_ptr x - HEADER, units (a_len x)).
Definition holds (m : memory) (x : area) : Prop := 0 <= a_len x /\ forall i v, 0 <= i < a_len x -> a_data x i = Some v -> m (a_ptr x + i) = v.

(** The heap implements the blocks. *)
Definition implements h F a : Prop := ready base lo h F (map block_of a) /\ Forall (holds (h_mem h)) a.

Lemma units_room n : 0 <= n -> HEADER + n <= HEADER * units n.
Proof. intros Hn. unfold units, HEADER. pose proof (Z.div_mod (n + 16 - 1) 16 ltac:(lia)). pose proof (Z.mod_pos_bound (n + 16 - 1) 16 ltac:(lia)). lia. Qed.

Lemma holds_kept a m m' : Forall (holds m) a -> kept (map block_of a) m m' -> Forall (holds m') a.
Proof.
  intros Ha Hk. rewrite Forall_forall in *. intros x Hx. destruct (Ha x Hx) as [Hl Hd]. split; [exact Hl |]. intros i v Hi Hv.
  rewrite (Hk (block_of x) (a_ptr x + i)); [auto | now apply list_elem_of_fmap_2 |].
  pose proof (units_room (a_len x) Hl). unfold stop, block_of, HEADER in *. cbn [fst snd]. lia.
Qed.

Lemma implements_inv h F a x : implements h F a -> x ∈ a -> inv base lo h F (map block_of a).
Proof. intros [[(_ & _ & _ & E) | Hi] _] Hx; [| exact Hi]. destruct a; [now apply elem_of_nil in Hx | discriminate]. Qed.

Lemma block_ptr x : (block_of x).1 + HEADER = a_ptr x.
Proof. unfold block_of. cbn. lia. Qed.

Lemma malloc_step h F a fuel n : implements h F a -> legal a (RMalloc n) -> (length F + 2 <= fuel)%nat -> exists r h' a' F',
  perform fuel (RMalloc n) h = UOk r h' /\ answer a (RMalloc n) r a' /\ null_ok h (RMalloc n) r h' /\ implements h' F' a' /\ (length F' <= length F + 1)%nat.
Proof.
  intros [Hr Ha] Hn Hf. cbn [legal perform] in *.
  destruct (malloc_ok base lo Hbase h F _ fuel n Hr Hn Hf) as [(h' & R & Hi & Hk & Hsm & Hs) | (h' & F' & b & R & Hi & Hl & Hk)].
  - exists 0, h', a, F. split_and!; auto; [constructor | | split; [now right | now apply (holds_kept a (h_mem h))] | lia].
    intros _. split; [exists F; split; [| exact Hsm] | exact Hs]. destruct Hr as [(? & _ & -> & _) | Hi0]; [now left | right; exact (iv_linked _ _ _ _ _ Hi0)].
  - exists (b + HEADER), h', (Area (b + HEADER) n (fun _ => None) :: a), F'. split_and!; auto.
    + destruct (tiles_range _ _ (b, units n) _ (iv_tiles _ _ _ _ _ Hi)) as (Hu & Hb & _); [member |]. cbn [fst snd] in *.
      constructor; [unfold HEADER in *; lia |]. apply Forall_forall. intros x Hx. rewrite Forall_forall in Ha. destruct (Ha x Hx) as [Hx0 _].
      pose proof (inv_apart base lo h' F' (map block_of a) (b, units n) (block_of x) Hi ltac:(apply elem_of_app; right; now apply list_elem_of_fmap_2)).
      pose proof (units_room n ltac:(lia)). pose proof (units_room (a_len x) Hx0). unfold separate, block_of, stop, HEADER in *. cbn [fst snd] in *. lia.
    + destruct (tiles_range _ _ (b, units n) _ (iv_tiles _ _ _ _ _ Hi)) as (_ & Hb & _); [member |]. cbn [fst null_ok] in *. unfold HEADER in *. lia.
    + split; [right |].
      * cbn [map]. unfold block_of at 1. cbn [a_ptr a_len]. now replace (b + HEADER - HEADER) with b by lia.
      * apply Forall_cons. split; [split; [cbn; lia | cbn; discriminate] | now apply (holds_kept a (h_mem h))].
Qed.

Lemma free_step h F a fuel p : implements h F a -> legal a (RFree p) -> (length F + 2 <= fuel)%nat -> exists r h' a' F',
  perform fuel (RFree p) h = UOk r h' /\ answer a (RFree p) r a' /\ implements h' F' a' /\ (length F' <= length F + 1)%nat.
Proof.
  intros Him Hp Hf. cbn [legal perform] in *. apply Exists_exists in Hp as (x & Hx & <-). pose proof (implements_inv _ _ _ x Him Hx) as Hi.
  destruct Him as [_ Ha]. apply list_elem_of_split in Hx as (a1 & a2 & ->).
  assert (Hi' : inv base lo h F (block_of x :: map block_of (a1 ++ a2))).
  { eapply inv_perm; [| exact Hi]. rewrite !map_app. cbn [map]. now rewrite <- Permutation_middle. }
  destruct (free_ok base lo Hbase h F (block_of x) _ fuel Hi' ltac:(lia)) as (m & q & F' & R & Hi2 & Hl & _ & Ho). rewrite block_ptr in R.
  exists 0, (Heap m q (h_world h)), (a1 ++ a2), F'. split_and!; auto.
  - unfold ubind. now rewrite R.
  - now constructor.
  - split; [now right |]. apply (holds_kept _ (h_mem h)).
    + rewrite Forall_app in *. destruct Ha as [? [_ ?]%Forall_cons]. auto.
    + apply (kept_only _ _ _ _ Ho). intros y Hy. apply (live_clear base lo Hbase _ _ _ _ y Hi' Hy).
Qed.

Lemma block_data x i : 0 <= i < a_len x -> (block_of x).1 + HEADER <= a_ptr x + i < stop (block_of x).
Proof. intros Hi. pose proof (units_room (a_len x) ltac:(lia)). unfold block_of, stop in *. cbn [fst snd]. lia. Qed.

Lemma store_step h F a fuel p i v : implements h F a -> legal a (RStore p i v) -> exists r h' a',
  perform fuel (RStore p i v) h = UOk r h' /\ answer a (RStore p i v) r a' /\ implements h' F a'.
Proof.
  intros Him [Hp Hv]. apply Exists_exists in Hp as (x & Hx & <- & Hi). pose proof (implements_inv _ _ _ x Him Hx) as Hinv.
  pose proof (inv_store base lo Hbase h F _ (block_of x) (a_ptr x + i) v Hinv (list_elem_of_fmap_2 _ _ _ Hx) (block_data x i Hi)) as Hinv'.
  destruct Him as [_ Ha]. apply list_elem_of_split in Hx as (a1 & a2 & ->). eexists 0, _, _. split; [reflexivity |]. split; [now constructor |].
  split; [right; revert Hinv'; rewrite !map_app; cbn [map]; auto |]. cbn [h_mem].
  assert (Hother : forall y, y ∈ a1 ++ a2 -> holds (h_mem h) y -> holds (upd (h_mem h) (a_ptr x + i) v) y).
  { intros y Hy [Hl Hd]. split; [exact Hl |]. intros j u Hj Hu. rewrite upd_ne; [auto |]. assert (Hin : block_of y ∈ F ++ map block_of (a1 ++ a2)).
    { apply elem_of_app. right. now apply list_elem_of_fmap_2. }
    assert (Hxi : inv base lo h F (block_of x :: map block_of (a1 ++ a2))) by (eapply inv_perm; [| exact Hinv]; rewrite !map_app; cbn [map]; now rewrite <- Permutation_middle).
    pose proof (inv_apart base lo h F _ _ _ Hxi Hin). pose proof (block_data x i Hi). pose proof (block_data y j Hj). unfold HEADER in *. lia. }
  rewrite Forall_app, Forall_cons in *. destruct Ha as (Ha1 & [Hl Hd] & Ha2). rewrite Forall_forall in Ha1, Ha2.
  split_and!; [apply Forall_forall; intros y Hy; apply Hother; auto; member | | apply Forall_forall; intros y Hy; apply Hother; auto; member].
  split; [exact Hl |]. intros j u Hj Hu. cbn [put_byte a_ptr a_data] in *. destruct (Z.eqb_spec j i) as [-> | Hne]; [injection Hu as <-; apply upd_eq |].
  rewrite upd_ne by lia. auto.
Qed.

Lemma load_step h F a fuel p i : implements h F a -> legal a (RLoad p i) -> exists r, perform fuel (RLoad p i) h = UOk r h /\ answer a (RLoad p i) r a.
Proof.
  intros [_ Ha] Hp. apply Exists_exists in Hp as (x & Hx & (<- & Hi) & Hd). destruct (a_data x i) as [v|] eqn:E; [| done].
  exists v. rewrite Forall_forall in Ha. destruct (Ha x Hx) as [_ Hx']. split; [cbn; now rewrite (Hx' i v) | now constructor].
Qed.

Lemma perform_step h F a fuel o : implements h F a -> legal a o -> (length F + 2 <= fuel)%nat -> exists r h' a' F',
  perform fuel o h = UOk r h' /\ answer a o r a' /\ null_ok h o r h' /\ implements h' F' a' /\ (length F' <= length F + 1)%nat.
Proof.
  intros Him Hleg Hf. destruct o as [n | p | p i v | p i].
  - now apply malloc_step.
  - destruct (free_step h F a fuel p Him Hleg Hf) as (r & h' & a' & F' & ? & ? & ? & ?). exists r, h', a', F'. now split_and!.
  - destruct (store_step h F a fuel p i v Him Hleg) as (r & h' & a' & ? & ? & ?). exists r, h', a', F. split_and!; auto; [exact I | lia].
  - destruct (load_step h F a fuel p i Him Hleg) as (r & ? & ?). exists r, h, a, F. split_and!; auto; [exact I | lia].
Qed.

(** Every request is answered, and the heap is as the blocks say. *)
Lemma serves_implements Q fuel : (forall h F a, implements h F a -> Q h a) -> forall os h F a, implements h F a -> (length F + length os + 2 <= fuel)%nat ->
  serves Q fuel h a os.
Proof.
  intros HQ os. induction os as [|o os IH]; intros h F a Him Hf; cbn [serves length] in *; (split; [eauto |]); [exact I |]. intros Hleg.
  destruct (perform_step h F a fuel o Him Hleg ltac:(lia)) as (r & h' & a' & F' & ? & ? & _ & ? & ?). exists r, h', a'. split_and!; auto. apply (IH _ F'); auto. lia.
Qed.

Lemma answers_implements fuel os : forall h F a, implements h F a -> (length F + length os + 2 <= fuel)%nat -> answers fuel h a os.
Proof.
  induction os as [|o os IH]; intros h F a Him Hf; cbn [answers length] in *; [exact I |]. intros Hleg.
  destruct (perform_step h F a fuel o Him Hleg ltac:(lia)) as (r & h' & a' & F' & ? & ? & ? & ? & ?). exists r, h', a'. split_and!; auto. apply (IH _ F'); auto. lia.
Qed.

(** The blocks that nobody uses are on the list in the order of their
    addresses, no two of them touch, and together with those in use they are all
    of the memory that was obtained; when the program has no block there is at
    most one on the list. *)
Definition tidy h a : Prop :=
  (freep h = 0 /\ brk (h_world h) = lo /\ a = []) \/
  exists F, linked (h_mem h) ((base, 0) :: F) base /\ ordered F /\ tiles lo (brk (h_world h)) (F ++ map block_of a) /\ (a = [] -> (length F <= 1)%nat).

Lemma tiles_ordered hi F : ordered F -> tiles lo hi F -> (length F <= 1)%nat.
Proof.
  intros Ho (t & Hp & Ht). rewrite Hp. destruct t as [|x [|y t]]; cbn [length]; [lia | lia |]. exfalso.
  destruct Ht as (_ & Hx & Ey & Hy & _). assert (Hin : x ∈ F /\ y ∈ F) by (rewrite Hp; split; member).
  destruct Hin as [(l1 & l2 & ->)%list_elem_of_split Hyin]. apply StronglySorted_app in Ho as (Ho1 & _ & [Ho2 _]%StronglySorted_cons).
  rewrite Forall_forall in Ho2. apply elem_of_app in Hyin as [Hyin | [-> | Hyin]%elem_of_cons];
    [destruct (Ho1 y x Hyin ltac:(left)) | | destruct (Ho2 y Hyin)]; unfold stop, HEADER in *; lia.
Qed.

Lemma implements_tidy h F a : implements h F a -> tidy h a.
Proof.
  intros [[(? & ? & _ & E) | Hi] _]; [left; split_and!; auto; now destruct a |]. right. exists F. destruct Hi. split_and!; auto.
  intros ->. eapply tiles_ordered; [eassumption |]. rewrite app_nil_r in *. eassumption.
Qed.

Lemma implements_start h : freep h = 0 -> brk (h_world h) = lo -> implements h [] [].
Proof. intros. split; [left; auto | constructor]. Qed.

(** C32: A program that keeps to the rules, and asks for at most 2^31 - 32 bytes
    at a time, gets memory: [malloc], [free], and the loads and stores of the
    program behave as if each block were an area of its own.  [malloc] returns a new
    area apart from all others; it returns a null pointer only if every block on its
    free list is too small and [sbrk], asked for enough, has failed.  What is stored
    in an area stays there until it is freed, and the calls end. *)
Theorem malloc_refines fuel h os : freep h = 0 -> brk (h_world h) = lo -> (length os + 2 <= fuel)%nat -> answers fuel h [] os.
Proof. intros H1 H2 Hf. apply (answers_implements fuel os h []); [now apply implements_start | cbn; lia]. Qed.

(** C33: After every request of such a program no memory is lost: each byte that
    was obtained from the kernel belongs to one block, in use or on the free
    list; the list is ordered and its blocks are joined where they touch, so that
    a program that has freed everything has one free block. *)
Theorem free_coalesces fuel h os : freep h = 0 -> brk (h_world h) = lo -> (length os + 2 <= fuel)%nat -> serves tidy fuel h [] os.
Proof. intros H1 H2 Hf. apply (serves_implements _ _ implements_tidy os h []); [now apply implements_start | cbn; lia]. Qed.

End service.

(** ** A program on a machine with little memory *)

Module Demo.

Definition TOP : Z := 2 ^ 27.
Definition little_sbrk (n w : Z) : Z * Z := let b := Z.min w TOP in if (0 <=? n) && (b + n <=? TOP) then (b, b + n) else (u64 (-1), w).

(** The world is the break. *)
#[export] Instance little_sys : Sys Z := {|
  sys_read := fun _ _ w => (-1, [], w); sys_write := fun _ _ w => (-1, w); sys_open := fun _ _ w => (-1, w); sys_close := fun _ w => (-1, w);
  sys_sbrk := little_sbrk |}.

Lemma little_limit w : Z.min w TOP <= PHYSTOP - KERNBASE.
Proof. apply Z.le_min_r. Qed.

Lemma little_law n w : 0 <= n < 2 ^ 31 -> exists r w', little_sbrk n w = (r, w') /\
  ((r = u64 (-1) /\ Z.min w' TOP = Z.min w TOP) \/ (r = Z.min w TOP /\ Z.min w' TOP = Z.min w TOP + n)).
Proof.
  intros Hn. unfold little_sbrk. destruct ((0 <=? n) && (Z.min w TOP + n <=? TOP)) eqn:E.
  - apply andb_prop in E as [_ E%Z.leb_le]. eexists _, _. split; [reflexivity |]. right. lia.
  - eexists _, _. split; [reflexivity |]. left. auto.
Qed.

#[export] Instance little_machine : Sbrk Z := {| brk := fun w => Z.min w TOP; brk_limit := little_limit; sbrk_law := little_law |}.

Definition LO : Z := 65536.
Definition start : heap Z := Heap (fun _ => 0) 0 LO.

(** A block of 100 bytes is at the end of what [sbrk] gave. *)
Definition first_block : Z := LO + 65536 - 112.
Definition requests : list request := [RMalloc 100; RStore first_block 99 7; RMalloc 200; RLoad first_block 99; RFree first_block].

Lemma malloc_refines_witness : answers 4096 7 start [] requests /\ malloc 4096 7 100 start <> UOk 0 start.
Proof. split; [apply (malloc_refines 4096 LO); [unfold LO, HEADER; lia | reflexivity | reflexivity | cbn; lia] | vm_compute; discriminate]. Defined.

Lemma free_coalesces_witness : serves 4096 (tidy 4096 LO) 7 start [] requests.
Proof. apply (free_coalesces 4096 LO); [unfold LO, HEADER; lia | reflexivity | reflexivity | cbn; lia]. Defined.

(** Above 2^31 - 32 bytes the size that [morecore] gives to [sbrk] does not fit in
    an [int]: [malloc] asks for 16 bytes and returns a block of 4 GiB. *)
Example malloc_too_large : match malloc 4096 7 (2 ^ 32 - 1) start with UOk p h => p = LO + HEADER /\ h_world h = LO + 16 | _ => False end.
Proof. vm_compute. auto. Qed.

End Demo.
