(* ===== verification/Utils.v ===== *)
(** * The smaller programs (user/ls.c, echo.c, rm.c, ln.c, mkdir.c, kill.c,
    init.c; start and stat of user/ulib.c)

    What [echo] and [ls] print.  The arguments of a program are those after its
    name. *)

From S2P Require Import Prelude Printf User Grep UserSpec Shell.
Local Open Scope user_scope.

(** [struct stat] *)
Record ustat := Ustat { us_dev : Z; us_ino : Z; us_type : Z; us_nlink : Z; us_size : Z }.

(** [sys_fstat]: [None] is -1. *)
Class Names (W : Type) := {
  sys_fstat : Z -> W -> option ustat * W;
  sys_unlink : list Z -> W -> Z * W;
  sys_link : list Z -> list Z -> W -> Z * W;
  sys_mkdir : list Z -> W -> Z * W;
  sys_mknod : list Z -> Z -> Z -> W -> Z * W;
  sys_kill : Z -> W -> Z * W }.

Section calls.
Context {W : Type} `{Names W} `{Tasks W}.
Definition call_fstat (fd : Z) : UM W (option ustat) := fun w => let '(r, w') := sys_fstat fd w in UOk r w'.
Definition call_unlink (path : list Z) : UM W Z := fun w => let '(r, w') := sys_unlink path w in UOk r w'.
Definition call_link (old new : list Z) : UM W Z := fun w => let '(r, w') := sys_link old new w in UOk r w'.
Definition call_mkdir (path : list Z) : UM W Z := fun w => let '(r, w') := sys_mkdir path w in UOk r w'.
Definition call_mknod (path : list Z) (major minor : Z) : UM W Z := fun w => let '(r, w') := sys_mknod path major minor w in UOk r w'.
Definition call_kill (pid : Z) : UM W Z := fun w => let '(r, w') := sys_kill pid w in UOk r w'.
Definition call_fork : UM W Z := fun w => let '(r, w') := sys_fork w in UOk r w'.
Definition call_wait : UM W Z := fun w => let '(r, w') := sys_wait w in UOk r w'.
Definition call_dup (fd : Z) : UM W Z := fun w => let '(r, w') := sys_dup fd w in UOk r w'.
Definition call_exec (path : list Z) (argv : list (list Z)) : UM W Z := fun w =>
  match sys_exec path argv w with (None, w') => UExec path argv w' | (Some r, w') => UOk r w' end.
End calls.

Section programs.
Context {W : Type} `{Sys W} `{Tasks W} `{Names W}.

(** ** ulib.c *)

Definition start (main : UM W unit) : UM W unit := main;; uexit 0.

Definition stat (n : list Z) : UM W (option ustat) :=
  fd <- open n O_RDONLY;;
  if fd <? 0 then uret None
  else
    r <- call_fstat fd;;
    close fd;;
    uret r.

(** ** echo, rm, ln, mkdir, kill *)

Fixpoint echo_args (args : list (list Z)) : UM W unit :=
  match args with
  | [] => uret tt
  | a :: args' =>
      write 1 a;;
      write 1 (match args' with [] => [10] | _ => [32] end);;
      echo_args args'
  end.

Definition echo_main (args : list (list Z)) : UM W unit := echo_args args;; uexit 0.

Fixpoint rm_files (args : list (list Z)) : UM W unit :=
  match args with
  | [] => uret tt
  | a :: args' =>
      r <- call_unlink a;;
      if r <? 0 then fprintf 2 ("rm: %s failed to delete" ++ NL) [VStr (Some a)]
      else rm_files args'
  end.

Definition rm_main (args : list (list Z)) : UM W unit :=
  match args with
  | [] => fprintf 2 ("Usage: rm files..." ++ NL) [];; uexit 1
  | _ => rm_files args;; uexit 0
  end.

Definition ln_main (args : list (list Z)) : UM W unit :=
  match args with
  | [old; new] =>
      r <- call_link old new;;
      (if r <? 0 then fprintf 2 ("link %s %s: failed" ++ NL) [VStr (Some old); VStr (Some new)] else uret tt);;
      uexit 0
  | _ => fprintf 2 ("Usage: ln old new" ++ NL) [];; uexit 1
  end.

Fixpoint mkdirs (args : list (list Z)) : UM W unit :=
  match args with
  | [] => uret tt
  | a :: args' =>
      r <- call_mkdir a;;
      if r <? 0 then fprintf 2 ("mkdir: %s failed to create" ++ NL) [VStr (Some a)]
      else mkdirs args'
  end.

Definition mkdir_main (args : list (list Z)) : UM W unit :=
  match args with
  | [] => fprintf 2 ("Usage: mkdir files..." ++ NL) [];; uexit 1
  | _ => mkdirs args;; uexit 0
  end.

(** [atoi] of a number that is too large is an overflow of an [int]. *)
Fixpoint kill_all (args : list (list Z)) : UM W unit :=
  match args with
  | [] => uret tt
  | a :: args' => match atoi a with None => uundef | Some pid => call_kill pid;; kill_all args' end
  end.

Definition kill_main (args : list (list Z)) : UM W unit :=
  match args with
  | [] => fprintf 2 ("usage: kill pid..." ++ NL) [];; uexit 1
  | _ => kill_all args;; uexit 0
  end.

(** ** init *)

Fixpoint init_wait (fuel : nat) (pid : Z) : UM W unit :=
  match fuel with
  | O => ufuel
  | S fuel' =>
      wpid <- call_wait;;
      if wpid =? pid then uret tt
      else if wpid <? 0 then uprintf ("init: wait returned an error" ++ NL) [];; uexit 1
      else init_wait fuel' pid
  end.

Fixpoint init_loop (fuel : nat) : UM W unit :=
  match fuel with
  | O => ufuel
  | S fuel' =>
      uprintf ("init: starting sh" ++ NL) [];;
      pid <- call_fork;;
      (if pid <? 0 then uprintf ("init: fork failed" ++ NL) [];; uexit 1 else uret tt);;
      (if pid =? 0 then
         call_exec (bytes_of "sh") [bytes_of "sh"];;
         uprintf ("init: exec sh failed" ++ NL) [];;
         uexit 1
       else uret tt);;
      init_wait fuel pid;;
      init_loop fuel'
  end.

Definition init_main (fuel : nat) : UM W unit :=
  fd <- open (bytes_of "console") O_RDWR;;
  (if fd <? 0 then
     call_mknod (bytes_of "console") 1 0;;
     open (bytes_of "console") O_RDWR;;
     uret tt
   else uret tt);;
  call_dup 0;;
  call_dup 0;;
  init_loop fuel.

(** ** ls *)

(** The loop of [fmtname]: the index after the last slash among the first [q]
    characters. *)
Fixpoint after_slash (q : nat) (path : list Z) : nat :=
  match q with
  | O => O
  | S q' => if nthZ 0 path (Z.of_nat q') =? 47 then q else after_slash q' path
  end.

(** The array [buf] of [fmtname] ends in a NUL that is never overwritten. *)
Definition fmtname (path : list Z) : list Z :=
  let p := drop (after_slash (S (length path)) path) path in
  if 14 <=? strlen p then p
  else
    let buf := p ++ drop (length p) (repeat 0 15) in
    cstr (memset_at (Z.to_nat (14 - strlen p)) buf (strlen p) 32).

Definition print_stat (name : list Z) (st : ustat) : UM W unit :=
  uprintf ("%s %d %d %d" ++ NL) [VStr (Some name); VInt (us_type st); VInt (us_ino st); VInt (i32 (us_size st))].

(** [memmove(p, src, n)] into an array of the program. *)
Definition copy_into (buf : list Z) (p : Z) (src : list Z) : UM W (list Z) :=
  if (0 <=? p) && (p + Z.of_nat (length src) <=? Z.of_nat (length buf)) then
    uret (take (Z.to_nat p) buf ++ src ++ drop (Z.to_nat p + length src) buf)
  else uundef.

(** [inum] of a [struct dirent], and its name. *)
Definition dirent_inum (de : list Z) : Z := nthZ 0 de 0 + 256 * nthZ 0 de 1.
Definition dirent_name (de : list Z) : list Z := drop 2 de.

Fixpoint ls_loop (fuel : nat) (fd : Z) (buf : list Z) (p : Z) : UM W unit :=
  match fuel with
  | O => ufuel
  | S fuel' =>
      r <- read fd 16;;
      let '(n, de) := r in
      if negb (n =? 16) then uret tt
      else if dirent_inum de =? 0 then ls_loop fuel' fd buf p
      else
        buf <- copy_into buf p (dirent_name de);;
        buf <- copy_into buf (p + 14) [0];;
        r <- stat (cstr buf);;
        (match r with
         | None => uprintf ("ls: cannot stat %s" ++ NL) [VStr (Some (cstr buf))]
         | Some st => print_stat (fmtname (cstr buf)) st
         end);;
        ls_loop fuel' fd buf p
  end.

(** [any]: what the stack has where [buf] is. *)
Definition ls (fuel : nat) (any path : list Z) : UM W unit :=
  fd <- open path O_RDONLY;;
  if fd <? 0 then fprintf 2 ("ls: cannot open %s" ++ NL) [VStr (Some path)]
  else
    r <- call_fstat fd;;
    match r with
    | None =>
        fprintf 2 ("ls: cannot stat %s" ++ NL) [VStr (Some path)];;
        close fd;;
        uret tt
    | Some st =>
        (if (us_type st =? 3) || (us_type st =? 2) then print_stat (fmtname path) st
         else if us_type st =? 1 then
           if 512 <? strlen path + 1 + 14 + 1 then uprintf ("ls: path too long" ++ NL) []
           else
             buf <- copy_into any 0 (path ++ [0]);;
             let p := strlen (cstr buf) in
             buf <- copy_into buf p [47];;
             ls_loop fuel fd buf (p + 1)
         else uret tt);;
        close fd;;
        uret tt
    end.

Fixpoint ls_all (fuel : nat) (any : list Z) (args : list (list Z)) : UM W unit :=
  match args with
  | [] => uret tt
  | a :: args' => ls fuel any a;; ls_all fuel any args'
  end.

Definition ls_main (fuel : nat) (any : list Z) (args : list (list Z)) : UM W unit :=
  match args with
  | [] => ls fuel any (bytes_of ".");; uexit 0
  | _ => ls_all fuel any args;; uexit 0
  end.

End programs.

(** ** What they print *)

Lemma ubind_run {W A B} (c : UM W A) (f : A -> UM W B) w a w' : c w = UOk a w' -> ubind c f w = f a w'.
Proof. intros E. unfold ubind. now rewrite E. Qed.

(** The arguments with blanks between them, on one line. *)
Fixpoint joined (args : list (list Z)) : list Z :=
  match args with
  | [] => []
  | a :: args' => a ++ (match args' with [] => [10] | _ => [32] end) ++ joined args'
  end.

(** [echo] writes its arguments with single blanks between them and a newline,
    and nothing at all when it has none. *)
Theorem echo_spec {W} `{Sys W} fd (rest out : W -> list Z) args w :
  streams fd rest out -> exists w', echo_main args w = UExit 0 w' /\ rest w' = rest w /\ out w' = out w ++ joined args.
Proof.
  intros Hs. assert (E : exists w', echo_args args w = UOk tt w' /\ rest w' = rest w /\ out w' = out w ++ joined args).
  { revert w. induction args as [|a args IH]; intros w; cbn [echo_args joined]; [exists w; now rewrite app_nil_r |].
    destruct (write_run _ _ _ Hs a w) as (w1 & E1 & R1 & O1). rewrite (ubind_run _ _ _ _ _ E1). set (sep := match args with [] => [10] | _ => [32] end).
    destruct (write_run _ _ _ Hs sep w1) as (w2 & E2 & R2 & O2). rewrite (ubind_run _ _ _ _ _ E2). destruct (IH w2) as (w' & -> & R & O).
    exists w'. rewrite R, R2, R1, O, O2, O1, <- !app_assoc. auto. }
  destruct E as (w' & E & R & O). exists w'. unfold echo_main. rewrite (ubind_run _ _ _ _ _ E). auto.
Qed.

(** *** Strings in arrays *)

Lemma cstr_prefix a b : Forall (fun c => c <> 0) a -> cstr (a ++ b) = a ++ cstr b.
Proof. induction 1 as [|c a Hc _ IH]; [reflexivity |]. cbn [app cstr]. rewrite (proj2 (Z.eqb_neq c 0) Hc). now rewrite IH. Qed.

Lemma cstr_stop a b : cstr (a ++ 0 :: b) = cstr a.
Proof. induction a as [|c a IH]; [reflexivity |]. cbn [app cstr]. now rewrite IH. Qed.

Lemma cstr_nonzero l : Forall (fun c => c <> 0) (cstr l).
Proof. induction l as [|c l IH]; [constructor |]. cbn [cstr]. destruct (Z.eqb_spec c 0); constructor; auto. Qed.

Lemma cstr_sub (P : Z -> Prop) l : Forall P l -> Forall P (cstr l).
Proof. induction 1 as [|c l Hc _ IH]; [constructor |]. cbn [cstr]. destruct (c =? 0); constructor; auto. Qed.

Lemma cstr_length l : (length (cstr l) <= length l)%nat.
Proof. induction l as [|c l IH]; [cbn; lia |]. cbn [cstr]. destruct (c =? 0); cbn; lia. Qed.

Lemma cstr_id a : Forall (fun c => c <> 0) a -> cstr a = a.
Proof. intros Ha. rewrite <- (app_nil_r a) at 1. rewrite cstr_prefix by exact Ha. apply app_nil_r. Qed.

Lemma memset_at_run k : forall a b p c, p = Z.of_nat (length a) -> (k <= length b)%nat -> memset_at k (a ++ b) p c = a ++ repeat (u8 c) k ++ drop k b.
Proof.
  induction k as [|k IH]; intros a b p c -> Hk; [reflexivity |]. destruct b as [|x b]; [cbn in Hk; lia |]. cbn [memset_at].
  assert (E : updZ (a ++ x :: b) (Z.of_nat (length a)) (u8 c) = (a ++ [u8 c]) ++ b).
  { unfold updZ. rewrite Nat2Z.id, <- (Nat.add_0_r (length a)), insert_app_r, <- app_assoc. reflexivity. }
  rewrite E, IH; [| rewrite length_app; cbn; lia | cbn in Hk; lia]. cbn [repeat drop app]. now rewrite <- app_assoc.
Qed.

Lemma copy_into_run {W} `{Sys W} a b c src (w : W) : length b = length src -> copy_into (a ++ b ++ c) (Z.of_nat (length a)) src w = UOk (a ++ src ++ c) w.
Proof.
  intros Hl. unfold copy_into. rewrite !length_app, Hl. rewrite (proj2 (Z.leb_le 0 _)), (proj2 (Z.leb_le (Z.of_nat (length a) + _) _)) by lia. cbn [andb].
  rewrite Nat2Z.id, take_app_length. rewrite <- drop_drop, drop_app_length, <- Hl, drop_app_length. reflexivity.
Qed.

(** *** Lines of ls *)

Lemma uprintint_total v : exists ds, uprintint v 10 true = Some ds /\ bytes8 ds.
Proof.
  unfold uprintint. set (neg := true && (i32 v <? 0)). set (x := if neg then u32 (- i32 v) else u32 (i32 v)). assert (Hx : 0 <= x < 10 ^ Z.of_nat 10).
  { assert (forall y, 0 <= u32 y < 2 ^ 32) by (intros; unfold u32; apply Z.mod_pos_bound; lia). subst x. destruct neg; [specialize (H (- i32 v)) | specialize (H (i32 v))]; lia. }
  destruct (digit_loop_dec 65 10 DIGIT_FUEL x []) as (ds & -> & Hl & Hd & _); [unfold DIGIT_FUEL; lia | cbn; lia | exact Hx |]. cbn [app].
  apply bytes8_dec in Hd. destruct neg; [| exists (rev ds); split; [reflexivity | now apply Forall_rev]].
  unfold buf_put. rewrite (proj2 (Z.ltb_lt (Z.of_nat (length ds)) PRINTBUF)) by (unfold PRINTBUF; lia).
  exists (rev (ds ++ [45])). split; [reflexivity |]. apply Forall_rev, Forall_app. split; [exact Hd | constructor; [lia | constructor]].
Qed.

(** The decimal digits of a number. *)
Definition dec (v : Z) : list Z := match uprintint v 10 true with Some ds => ds | None => [] end.

Lemma dec_some v : uprintint v 10 true = Some (dec v).
Proof. unfold dec. now destruct (uprintint_total v) as (ds & -> & _). Qed.
Lemma dec_bytes v : bytes8 (dec v).
Proof. unfold dec. now destruct (uprintint_total v) as (ds & -> & Hd). Qed.

(** A name, padded with blanks. *)
Definition padded (name : list Z) : list Z := name ++ repeat 32 (14 - length name).

Definition stat_line (name : list Z) (st : ustat) : list Z :=
  name ++ [32] ++ dec (us_type st) ++ [32] ++ dec (us_ino st) ++ [32] ++ dec (us_size st) ++ [10].

Lemma stat_rendered name st :
  rendered 13 (bytes_of ("%s %d %d %d" ++ NL)) 0 false [VStr (Some name); VInt (us_type st); VInt (us_ino st); VInt (i32 (us_size st))] = Some (stat_line name st).
Proof.
  set (f := bytes_of _). pose proof (dec_some (us_type st)) as Et. pose proof (dec_some (us_ino st)) as Ei.
  assert (Es : uprintint (i32 (us_size st)) 10 true = Some (dec (us_size st))) by (rewrite uprintint_i32; apply dec_some).
  rewrite (rendered_conv _ f 0 2 115 _ name _) by first [reflexivity | discriminate].
  rewrite (rendered_put _ f 2 3 _ 32) by first [reflexivity | discriminate].
  rewrite (rendered_conv _ f 3 5 100 _ (dec (us_type st)) _) by first [intros; now apply uconversion_d | reflexivity | discriminate].
  rewrite (rendered_put _ f 5 6 _ 32) by first [reflexivity | discriminate].
  rewrite (rendered_conv _ f 6 8 100 _ (dec (us_ino st)) _) by first [intros; now apply uconversion_d | reflexivity | discriminate].
  rewrite (rendered_put _ f 8 9 _ 32) by first [reflexivity | discriminate].
  rewrite (rendered_conv _ f 9 11 100 _ (dec (us_size st)) []) by first [intros; now apply uconversion_d | reflexivity | discriminate].
  rewrite (rendered_put _ f 11 12 _ 10) by first [reflexivity | discriminate].
  now rewrite rendered_end by reflexivity.
Qed.

Definition missing_line (path : list Z) : list Z := bytes_of "ls: cannot stat " ++ path ++ [10].

Lemma missing_rendered path : rendered 20 (bytes_of ("ls: cannot stat %s" ++ NL)) 0 false [VStr (Some path)] = Some (missing_line path).
Proof. reflexivity. Qed.

Lemma after_slash_none k path name : (forall j, (j < k)%nat -> nthZ 0 (path ++ 47 :: name) (Z.of_nat (S (length path) + j)) <> 47) ->
  after_slash (S (length path) + k) (path ++ 47 :: name) = S (length path).
Proof.
  induction k as [|k IH]; intros Hk.
  - rewrite Nat.add_0_r. cbn [after_slash]. unfold nthZ. rewrite Nat2Z.id, app_nth2, Nat.sub_diag by lia. reflexivity.
  - rewrite Nat.add_succ_r. cbn [after_slash]. rewrite (proj2 (Z.eqb_neq _ _) (Hk k ltac:(lia))). apply IH. intros j Hj. apply Hk. lia.
Qed.

(** [fmtname] of a file in a directory. *)
Lemma fmtname_run path name : Forall (fun c => c <> 0 /\ c <> 47) name -> fmtname (path ++ 47 :: name) = padded name.
Proof.
  intros Hn. unfold fmtname. assert (E : after_slash (S (length (path ++ 47 :: name))) (path ++ 47 :: name) = S (length path)).
  { rewrite length_app. cbn [length]. replace (S (length path + S (length name))) with (S (length path) + S (length name))%nat by lia. apply after_slash_none.
    intros j Hj. unfold nthZ. rewrite Nat2Z.id. rewrite app_nth2 by lia. replace (S (length path) + j - length path)%nat with (S j) by lia. cbn [nth].
    destruct (decide (j < length name)%nat) as [Hl | Hl]; [| rewrite nth_overflow by lia; discriminate].
    rewrite Forall_forall in Hn. apply Hn, list_elem_of_In, nth_In, Hl. }
  rewrite E, drop_app_ge by lia. replace (S (length path) - length path)%nat with 1%nat by lia. rewrite skipn_cons, drop_0. unfold strlen, padded.
  destruct (Z.leb_spec 14 (Z.of_nat (length name))) as [Hl | Hl]; [replace (14 - length name)%nat with 0%nat by lia; cbn [repeat]; now rewrite app_nil_r |].
  rewrite memset_at_run; [| reflexivity | rewrite length_drop, repeat_length; lia]. replace (Z.to_nat (14 - Z.of_nat (length name))) with (14 - length name)%nat by lia.
  rewrite drop_drop. replace (length name + (14 - length name))%nat with 14%nat by lia. cbn [drop repeat]. change (u8 32) with 32.
  rewrite app_assoc, cstr_stop. apply cstr_id, Forall_app. split; [apply (Forall_impl _ _ _ Hn); tauto | apply Forall_forall; intros c Hc; apply list_elem_of_In, repeat_spec in Hc; lia].
Qed.

(** A directory open at [fd]: [rest] is what is left to read of it, which comes in
    whole entries; other descriptors are apart from it; [info] is what [fstat]
    says of the file with a path, and [refers] which path a descriptor is open
    on.  [live] holds while [fd] is open. *)
Record directory {W} `{Sys W} `{Names W} (fd : Z) (rest out : W -> list Z) (info : list Z -> option ustat) (refers : Z -> list Z -> W -> Prop) (live : W -> Prop) : Prop := {
  dr_streams : streams fd rest out;
  dr_read : forall w, (16 <= length (rest w))%nat -> exists w', sys_read fd 16 w = (16, take 16 (rest w), w') /\ rest w' = drop 16 (rest w) /\ out w' = out w;
  dr_open : forall p w r w', live w -> sys_open p O_RDONLY w = (r, w') ->
    live w' /\ rest w' = rest w /\ out w' = out w /\ (r < 0 -> info p = None) /\ (0 <= r -> r <> fd /\ refers r p w');
  dr_fstat : forall r p w, live w -> refers r p w -> exists w', sys_fstat r w = (info p, w') /\ live w' /\ rest w' = rest w /\ out w' = out w;
  dr_close : forall r w x w', live w -> r <> fd -> sys_close r w = (x, w') -> live w' /\ rest w' = rest w /\ out w' = out w;
  dr_live_read : forall n w r b w', live w -> sys_read fd n w = (r, b, w') -> live w';
  dr_live_write : forall b w r w', live w -> sys_write 1 b w = (r, w') -> live w' }.

(** The line for an entry of the directory [path]. *)
Definition entry_line (info : list Z -> option ustat) (path de : list Z) : list Z :=
  if dirent_inum de =? 0 then []
  else
    let name := cstr (dirent_name de) in
    match info (path ++ 47 :: name) with
    | None => missing_line (path ++ 47 :: name)
    | Some st => stat_line (padded name) st
    end.

Section ls.
Context {W : Type} `{Sys W} `{Names W}.
Variables (fd : Z) (rest out : W -> list Z) (info : list Z -> option ustat) (refers : Z -> list Z -> W -> Prop) (live : W -> Prop).
Hypothesis Hd : directory fd rest out info refers live.
Let Hs := dr_streams _ _ _ _ _ _ Hd.

Lemma stat_run p w : live w -> exists w', stat p w = UOk (info p) w' /\ live w' /\ rest w' = rest w /\ out w' = out w.
Proof.
  intros Hl. unfold stat, ubind, open. destruct (sys_open p O_RDONLY w) as [r w1] eqn:E1.
  destruct (dr_open _ _ _ _ _ _ Hd _ _ _ _ Hl E1) as (L1 & R1 & O1 & Hn & Hr). destruct (Z.ltb_spec r 0) as [Hneg | Hpos].
  - exists w1. rewrite (Hn Hneg). auto.
  - destruct (Hr Hpos) as [Hne Hp]. destruct (dr_fstat _ _ _ _ _ _ Hd _ _ _ L1 Hp) as (w2 & E2 & L2 & R2 & O2).
    unfold call_fstat, close. rewrite E2. destruct (sys_close r w2) as [x w3] eqn:E3. destruct (dr_close _ _ _ _ _ _ Hd _ _ _ _ L2 Hne E3) as (L3 & R3 & O3).
    exists w3. rewrite R3, R2, R1, O3, O2, O1. auto.
Qed.

Lemma live_putc c w : live w -> forall a w', putc 1 c w = UOk a w' -> live w'.
Proof.
  intros Hl a w' E. unfold putc, ubind, write in E. destruct (sys_write 1 [u8 c] w) as [r w1] eqn:E1. injection E as _ <-. exact (dr_live_write _ _ _ _ _ _ Hd _ _ _ _ Hl E1).
Qed.

Lemma live_putcs l : forall w, live w -> forall a w', putcs_to 1 l w = UOk a w' -> live w'.
Proof.
  induction l as [|c l IH]; intros w Hl a w' E; cbn [putcs_to] in E; [injection E as _ <-; exact Hl |].
  unfold ubind in E. destruct (putc 1 c w) as [b w1| | | |] eqn:E1; try discriminate. apply (IH w1 (live_putc _ _ Hl _ _ E1) _ _ E).
Qed.

Lemma live_vprintf k f : forall i pct ap w a w', live w -> vprintf_loop k 1 f i pct ap w = UOk a w' -> live w'.
Proof.
  induction k as [|k IH]; intros i pct ap w a w' Hl E; [discriminate |]. cbn [vprintf_loop] in E. destruct (chr f i =? 0); [injection E as _ <-; exact Hl |].
  destruct (negb pct).
  - destruct (chr f i =? 37); [eauto |]. unfold ubind in E. destruct (putc 1 (chr f i) w) as [b w1| | | |] eqn:E1; try discriminate.
    apply (IH _ _ _ w1 _ _ (live_putc _ _ Hl _ _ E1) E).
  - destruct (uconversion _ _ _ ap) as [[[o ap'] skip]|]; [| discriminate]. unfold ubind in E. destruct (putcs_to 1 o w) as [b w1| | | |] eqn:E1; try discriminate.
    apply (IH _ _ _ w1 _ _ (live_putcs _ _ Hl _ _ E1) E).
Qed.

(** What [printf] writes when the arguments fit the format. *)
Lemma uprintf_run fmt ap o w : live w -> rendered (S (length (bytes_of fmt))) (bytes_of fmt) 0 false ap = Some o -> bytes8 o ->
  exists w', uprintf fmt ap w = UOk tt w' /\ live w' /\ rest w' = rest w /\ out w' = out w ++ o.
Proof.
  intros Hl Er Ho. unfold uprintf, vprintf. destruct (vprintf_run _ _ _ Hs _ _ _ _ _ _ w Er Ho) as (w' & E & R & O). exists w'. split_and!; auto.
  exact (live_vprintf _ _ _ _ _ _ _ _ Hl E).
Qed.

(** An entry of a directory: a number and a name without a slash. *)
Record entry (de : list Z) : Prop := {
  en_len : length de = 16%nat;
  en_bytes : bytes8 de;
  en_name : Forall (fun c => c <> 47) (dirent_name de) }.

Lemma padded_bytes name : bytes8 name -> bytes8 (padded name).
Proof. intros Hn. apply Forall_app. split; [exact Hn |]. apply Forall_forall. intros c Hc. apply list_elem_of_In, repeat_spec in Hc. lia. Qed.

Lemma stat_line_bytes name st : bytes8 name -> bytes8 (stat_line name st).
Proof.
  intros Hn. unfold stat_line, bytes8. rewrite !Forall_app. pose proof (dec_bytes (us_type st)). pose proof (dec_bytes (us_ino st)). pose proof (dec_bytes (us_size st)).
  split_and!; auto; repeat constructor; lia.
Qed.

Lemma missing_line_bytes p : bytes8 p -> bytes8 (missing_line p).
Proof. intros Hp. unfold missing_line, bytes8. rewrite !Forall_app. split_and!; auto; repeat constructor; lia. Qed.

Lemma print_entry (path name : list Z) w : live w -> bytes8 path -> bytes8 name -> Forall (fun c => c <> 0 /\ c <> 47) name -> exists w',
  (match info (path ++ 47 :: name) with
   | None => uprintf ("ls: cannot stat %s" ++ NL) [VStr (Some (path ++ 47 :: name))]
   | Some st => print_stat (fmtname (path ++ 47 :: name)) st
   end) w = UOk tt w' /\ live w' /\ rest w' = rest w /\
  out w' = out w ++ match info (path ++ 47 :: name) with None => missing_line (path ++ 47 :: name) | Some st => stat_line (padded name) st end.
Proof.
  intros Hl Hp Hn Hz. destruct (info (path ++ 47 :: name)) as [st|].
  - rewrite fmtname_run by exact Hz. apply uprintf_run; [exact Hl | apply stat_rendered | now apply stat_line_bytes, padded_bytes].
  - apply uprintf_run; [exact Hl | apply missing_rendered | apply missing_line_bytes, Forall_app; split; [exact Hp | constructor; [lia | exact Hn]]].
Qed.

(** The name of an entry goes after the slash, and a NUL after the name. *)
Lemma name_stored path tail de (w : W) : entry de -> (15 <= length tail)%nat -> exists buf1 tail',
  copy_into ((path ++ [47]) ++ tail) (Z.of_nat (length (path ++ [47]))) (dirent_name de) w = UOk buf1 w /\
  copy_into buf1 (Z.of_nat (length (path ++ [47])) + 14) [0] w = UOk ((path ++ [47]) ++ tail') w /\ length tail' = length tail /\
  tail' = dirent_name de ++ 0 :: drop 15 tail.
Proof.
  intros He Hl. assert (Hn : length (dirent_name de) = 14%nat) by (unfold dirent_name; rewrite length_drop, (en_len _ He); reflexivity).
  exists ((path ++ [47]) ++ dirent_name de ++ drop 14 tail), (dirent_name de ++ 0 :: drop 15 tail). split_and!; auto.
  - rewrite <- (take_drop 14 tail) at 1. apply copy_into_run. rewrite length_take, Hn. lia.
  - replace (Z.of_nat (length (path ++ [47])) + 14) with (Z.of_nat (length ((path ++ [47]) ++ dirent_name de))) by (rewrite (length_app (path ++ [47])); lia).
    replace (drop 14 tail) with (take 1 (drop 14 tail) ++ drop 15 tail) by (rewrite <- (take_drop 1 (drop 14 tail)) at 2; now rewrite drop_drop).
    rewrite (app_assoc (path ++ [47])). rewrite copy_into_run by (rewrite length_take, length_drop; change (length [0]) with 1%nat; lia). now rewrite <- app_assoc.
  - rewrite length_app, Hn. cbn [length]. rewrite length_drop. lia.
Qed.

Lemma ls_loop_run path es : forall fuel tail w, live w -> bytes8 path -> Forall (fun c => c <> 0) path -> Forall entry es -> rest w = concat es ->
  (15 <= length tail)%nat -> (length es < fuel)%nat ->
  exists w', ls_loop fuel fd ((path ++ [47]) ++ tail) (Z.of_nat (length (path ++ [47]))) w = UOk tt w' /\ out w' = out w ++ concat (map (entry_line info path) es).
Proof.
  induction es as [|de es IH]; intros fuel tail w Hl Hp Hz He Hr Ht Hf; (destruct fuel as [|fuel]; [cbn in Hf; lia |]); cbn [ls_loop].
  - destruct (read_end _ _ _ Hs 16 w ltac:(lia) Hr) as (w' & E & _ & O). rewrite (ubind_run _ _ _ _ _ E). exists w'. cbn. now rewrite app_nil_r.
  - apply Forall_cons in He as [Hde He]. cbn [concat] in Hr. pose proof (en_len _ Hde) as Hlen.
    destruct (dr_read _ _ _ _ _ _ Hd w) as (w1 & E & R1 & O1); [rewrite Hr, length_app; lia |]. rewrite Hr, <- Hlen, take_app_length in E. rewrite Hr, <- Hlen, drop_app_length in R1.
    rewrite (ubind_run _ _ w (16, de) w1) by (unfold read; now rewrite E). pose proof (dr_live_read _ _ _ _ _ _ Hd _ _ _ _ _ Hl E) as L1.
    cbn [Z.eqb Pos.eqb negb map concat]. unfold entry_line at 1. destruct (dirent_inum de =? 0).
    + destruct (IH fuel tail w1) as (w' & Ew & O'); auto; [cbn in Hf; lia |]. exists w'. rewrite Ew, O', O1. auto.
    + destruct (name_stored path tail de w1 Hde Ht) as (b1 & tail' & E1 & E2 & Ht' & Etail). rewrite (ubind_run _ _ _ _ _ E1), (ubind_run _ _ _ _ _ E2).
      set (name := cstr (dirent_name de)). assert (Ec : cstr ((path ++ [47]) ++ tail') = path ++ 47 :: name).
      { rewrite Etail, <- app_assoc. rewrite cstr_prefix by exact Hz. cbn [app cstr Z.eqb]. f_equal. f_equal. apply cstr_stop. }
      rewrite Ec. destruct (stat_run (path ++ 47 :: name) w1 L1) as (w2 & E3 & L2 & R2 & O2). rewrite (ubind_run _ _ _ _ _ E3).
      assert (Hnb : bytes8 name) by (apply cstr_sub; unfold dirent_name; apply Forall_drop, Hde).
      assert (Hnz : Forall (fun c => c <> 0 /\ c <> 47) name) by (apply Forall_and; split; [apply cstr_nonzero | apply cstr_sub, Hde]).
      destruct (print_entry path name w2 L2 Hp Hnb Hnz) as (w3 & E4 & L3 & R3 & O3). rewrite (ubind_run _ _ _ _ _ E4).
      destruct (IH fuel tail' w3) as (w' & Ew & O'); auto; [congruence | lia | cbn in Hf; lia |]. exists w'. rewrite Ew, O', O3, O2, O1, <- app_assoc. auto.
Qed.

(** [ls] of a directory prints a line for each entry that is in use, in the
    order of the directory: the name padded with blanks, the type, the inode and
    the size of the file, or that there is no such file; the path stays within the
    buffer.  A path for which there is no room is reported. *)
Theorem ls_spec fuel any path es st w w1 w2 : length any = 512%nat -> bytes8 path -> Forall (fun c => c <> 0) path -> Forall entry es ->
  sys_open path O_RDONLY w = (fd, w1) -> 0 <= fd -> sys_fstat fd w1 = (Some st, w2) -> us_type st = 1 -> live w2 -> rest w2 = concat es -> out w2 = out w ->
  (length es < fuel)%nat -> (forall v x v', sys_close fd v = (x, v') -> out v' = out v) ->
  exists w', ls fuel any path w = UOk tt w' /\
    out w' = out w ++ (if 512 <? strlen path + 16 then bytes_of ("ls: path too long" ++ NL) else concat (map (entry_line info path) es)).
Proof.
  intros Hany Hp Hz He Eo Hfd Ef Ht Hl Hr Ho Hf Hclose. unfold ls, ubind at 1, open. rewrite Eo, (proj2 (Z.ltb_ge fd 0) Hfd).
  unfold ubind at 1, call_fstat. rewrite Ef, Ht. cbn [Z.eqb Pos.eqb orb]. replace (strlen path + 1 + 14 + 1) with (strlen path + 16) by lia.
  set (body := if 512 <? strlen path + 16 then _ else _). set (text := if 512 <? strlen path + 16 then _ else _).
  assert (Eb : exists w3, body w2 = UOk tt w3 /\ out w3 = out w2 ++ text).
  { subst body text. destruct (Z.ltb_spec 512 (strlen path + 16)) as [Hlong | Hshort].
    - destruct (uprintf_run ("ls: path too long" ++ NL) [] (bytes_of ("ls: path too long" ++ NL)) w2 Hl eq_refl) as (w3 & E & _ & _ & O); [repeat constructor; lia | eauto].
    - unfold strlen in Hshort. assert (E1 : copy_into any 0 (path ++ [0]) w2 = UOk (path ++ [0] ++ drop (length path + 1) any) w2).
      { rewrite <- (take_drop (length path + 1) any) at 1. rewrite (copy_into_run [] (take (length path + 1) any) (drop (length path + 1) any)) by (rewrite length_take, length_app; change (length [0]) with 1%nat; lia).
        now rewrite <- app_assoc. }
      rewrite (ubind_run _ _ _ _ _ E1). assert (Ec : cstr (path ++ [0] ++ drop (length path + 1) any) = path) by (cbn [app]; rewrite cstr_stop; now apply cstr_id).
      rewrite Ec. unfold strlen. pose proof (copy_into_run path [0] (drop (length path + 1) any) [47] w2 eq_refl) as E2. rewrite (ubind_run _ _ _ _ _ E2).
      replace (Z.of_nat (length path) + 1) with (Z.of_nat (length (path ++ [47]))) by (rewrite length_app; cbn; lia).
      rewrite app_assoc. apply ls_loop_run; auto. rewrite length_drop. lia. }
  destruct Eb as (w3 & Eb & O3). rewrite (ubind_run _ _ _ _ _ Eb). unfold ubind, close. destruct (sys_close fd w3) as [x w4] eqn:E4.
  exists w4. split; [reflexivity |]. rewrite (Hclose _ _ _ E4), O3, Ho. reflexivity.
Qed.
End ls.

(** ** A directory with two files *)

Module Demo.

Record world := World { d_left : list Z; d_out : list Z; d_live : bool; d_file : list Z }.

Definition root : list Z := bytes_of "/".
Definition files (p : list Z) : option ustat :=
  if bool_decide (p = bytes_of "//cat") then Some (Ustat 1 2 2 1 34000) else None.

(** Descriptor 3 is the directory, 4 any other file. *)
#[local] Instance world_sys : Sys world := {
  sys_read fd n w := let b := take (Z.to_nat n) (d_left w) in (Z.of_nat (length b), b, World (drop (Z.to_nat n) (d_left w)) (d_out w) (d_live w) (d_file w));
  sys_write fd b w := (Z.of_nat (length b), World (d_left w) (d_out w ++ b) (d_live w) (d_file w));
  sys_open p mode w :=
    if d_live w then match files p with None => (-1, w) | Some _ => (4, World (d_left w) (d_out w) true p) end
    else (3, World (d_left w) (d_out w) true []);
  sys_close fd w := (0, w);
  sys_sbrk n w := (-1, w) }.

#[local] Instance world_names : Names world := {
  sys_fstat fd w := (if fd =? 4 then files (d_file w) else Some (Ustat 1 1 1 1 1024), w);
  sys_unlink p w := (-1, w);
  sys_link p q w := (-1, w);
  sys_mkdir p w := (-1, w);
  sys_mknod p a b w := (-1, w);
  sys_kill p w := (-1, w) }.

Lemma world_streams : streams 3 d_left d_out.
Proof.
  split.
  - intros n w Hn E. exists (World [] (d_out w) (d_live w) (d_file w)). cbn. rewrite E, take_nil, drop_nil. auto.
  - intros n w Hn E. eexists _, _. split; [reflexivity |]. cbn. split_and!; auto; [| rewrite length_take; lia | now rewrite take_drop].
    destruct (Z.to_nat n) eqn:En; [lia |]. destruct (d_left w); [easy | discriminate].
  - intros b w. eexists. split; [reflexivity |]. auto.
Qed.

Lemma world_directory : directory 3 d_left d_out files (fun r p w => r = 4 /\ d_file w = p) (fun w => d_live w = true).
Proof.
  split; [apply world_streams | | | | | |].
  - intros w Hw. eexists. split; [cbn; rewrite length_take, Nat.min_l by exact Hw; reflexivity |]. auto.
  - intros p w r w' Hl. cbn. rewrite Hl. destruct (files p) eqn:E; intros [= <- <-]; cbn; split_and!; auto; lia.
  - intros r p w Hl [-> <-]. exists w. auto.
  - cbn. intros r w x w' Hl _ [= _ <-]. auto.
  - cbn. intros n w r b w' Hl [= _ _ <-]. exact Hl.
  - cbn. intros b w r w' Hl [= _ <-]. exact Hl.
Qed.

Definition de (inum : Z) (name : list Z) : list Z := [inum; 0] ++ name ++ repeat 0 (14 - length name).
Definition listing : list (list Z) := [de 1 (bytes_of "."); de 2 (bytes_of "cat"); de 0 (bytes_of "rm")].

Lemma listing_entries : Forall entry listing.
Proof.
  apply (Forall_impl (fun e => length e = 16%nat /\ Forall (fun c => 0 <= c < 256) e /\ Forall (fun c => c <> 47) (dirent_name e))); [apply (bool_decide_unpack _); vm_compute; exact I |].
  intros e (Hl & Hb & Hn). split; assumption.
Qed.

Definition closed : world := World (concat listing) [] false [].

Lemma ls_spec_witness : exists w', ls 10 (repeat 7 512) root closed = UOk tt w' /\
  d_out w' = bytes_of ("ls: cannot stat //." ++ NL ++ "cat            2 2 34000" ++ NL).
Proof.
  destruct (ls_spec 3 d_left d_out files _ _ world_directory 10 (repeat 7 512) root listing (Ustat 1 1 1 1 1024) closed
              (World (concat listing) [] true []) (World (concat listing) [] true [])) as (w' & E & O); [reflexivity | | | | reflexivity | lia | reflexivity | reflexivity | reflexivity | reflexivity | reflexivity | cbn; lia | |].
  - apply (bool_decide_unpack _). vm_compute. exact I.
  - apply (bool_decide_unpack _). vm_compute. exact I.
  - apply listing_entries.
  - cbn. now intros v x v' [= _ <-].
  - exists w'. split; [exact E |]. rewrite O. reflexivity.
Defined.

End Demo.
