(* ===== verification/Mkfs.v ===== *)
(** * Making a file system (mkfs/mkfs.c)

    The program runs on the build host, little-endian as the target is, and
    writes an image that the kernel boots from.  The files of the host are a
    parameter; what the program prints is left out.  Blocks, inodes and directory
    entries are those of the kernel, since both sides include kernel/fs.h. *)

From S2P Require Import Prelude KMonad Riscv Printf Trace Sleeplock FsState Log Fs FsBlocks User.
Local Open Scope user_scope.

Definition NINODES : Z := 200.

Definition nbitmap : Z := FSSIZE / BPB + 1.
Definition ninodeblocks : Z := NINODES / IPB + 1.
Definition nlog : Z := LOGSIZE.

(** The host: whether a file can be created, the results of the calls of [read]
    on a file until one that is not positive ([None] if [open] fails), and
    whether the image can be accessed at a sector. *)
Class Host := {
  host_create : list Z -> bool;
  host_open : list Z -> option (list (list Z));
  sector_ok : Z -> bool }.

(** The image file and its length in sectors, and the global variables. *)
Record mkfs := Mk { image : disk_t; sectors : Z; mk_sb : superblock; freeinode : Z; freeblock : Z }.

(** An integer whose bytes on the host are those of [x] on the target. *)
Definition xshort (x : Z) : Z := u8 x + 256 * u8 (Z.shiftr x 8).
Definition xint (x : Z) : Z :=
  u8 x + 256 * (u8 (Z.shiftr x 8) + 256 * (u8 (Z.shiftr x 16) + 256 * u8 (Z.shiftr x 24))).

Definition zeroes : block := repeat 0 (Z.to_nat BSIZE).

Section mkfs.
Context `{Host}.

Definition die {A} : UM mkfs A := uexit 1.

(** [assert]: the process is aborted, which a shell reports as 134. *)
Definition assert_ (b : bool) : UM mkfs unit := if b then uret tt else uexit 134.

Definition wsect (sec : Z) (buf : block) : UM mkfs unit := fun s =>
  if sector_ok sec then UOk tt (Mk (dwrite (image s) sec buf) (Z.max (sectors s) (sec + 1)) (mk_sb s) (freeinode s) (freeblock s))
  else die s.

Definition rsect (sec : Z) : UM mkfs block := fun s =>
  if sector_ok sec && (sec <? sectors s) then UOk (image s sec) s else die s.

Definition get_sb : UM mkfs superblock := fun s => UOk (mk_sb s) s.
Definition set_mksb (x : superblock) : UM mkfs unit := fun s => UOk tt (Mk (image s) (sectors s) x (freeinode s) (freeblock s)).
Definition set_freeblock (b : Z) : UM mkfs unit := fun s => UOk tt (Mk (image s) (sectors s) (mk_sb s) (freeinode s) b).

(** [freeinode++] and [freeblock++] *)
Definition next_inode : UM mkfs Z := fun s => UOk (freeinode s) (Mk (image s) (sectors s) (mk_sb s) (u32 (freeinode s + 1)) (freeblock s)).
Definition next_block : UM mkfs Z := fun s => UOk (freeblock s) (Mk (image s) (sectors s) (mk_sb s) (freeinode s) (u32 (freeblock s + 1))).

Definition winode (inum : Z) (ip : dinode) : UM mkfs unit :=
  sb <- get_sb;;
  let bn := IBLOCK inum sb in
  buf <- rsect bn;;
  wsect bn (put_dinode buf (inum mod IPB * DINODE) ip).

Definition rinode (inum : Z) : UM mkfs dinode :=
  sb <- get_sb;;
  let bn := IBLOCK inum sb in
  buf <- rsect bn;;
  uret (get_dinode buf (inum mod IPB * DINODE)).

Definition ialloc (type : Z) : UM mkfs Z :=
  inum <- next_inode;;
  winode inum (Dinode (i16 (xshort type)) 0 0 (i16 (xshort 1)) (xint 0) (repeat 0 13));;
  uret inum.

(** [for(i = 0; i < used; i++) buf[i/8] = buf[i/8] | (0x1 << (i%8));] *)
Fixpoint mark_used (k : nat) (i : Z) (buf : block) : block :=
  match k with
  | O => buf
  | S k' => mark_used k' (i + 1) (updZ buf (i / 8) (Z.lor (nthZ 0 buf (i / 8)) (Z.shiftl 1 (i mod 8))))
  end.

Definition balloc (used : Z) : UM mkfs unit :=
  assert_ (used <? BPB);;
  sb <- get_sb;;
  wsect (sb_bmapstart sb) (mark_used (Z.to_nat used) 0 zeroes).

Definition set_addr (i v : Z) (d : dinode) : dinode :=
  Dinode (d_type d) (d_major d) (d_minor d) (d_nlink d) (d_size d) (updZ (d_addrs d) i v).
Definition set_size (n : Z) (d : dinode) : dinode :=
  Dinode (d_type d) (d_major d) (d_minor d) (d_nlink d) n (d_addrs d).

(** The block of the file that [iappend] writes to, and the inode with it. *)
Definition append_block (fbn : Z) (din : dinode) : UM mkfs (Z * dinode) :=
  if fbn <? NDIRECT then
    din <- (if xint (nthZ 0 (d_addrs din) fbn) =? 0 then
              b <- next_block;;
              uret (set_addr fbn (xint b) din)
            else uret din);;
    uret (xint (nthZ 0 (d_addrs din) fbn), din)
  else
    din <- (if xint (nthZ 0 (d_addrs din) NDIRECT) =? 0 then
              b <- next_block;;
              uret (set_addr NDIRECT (xint b) din)
            else uret din);;
    let ind := xint (nthZ 0 (d_addrs din) NDIRECT) in
    indirect <- rsect ind;;
    let at_ := 4 * (fbn - NDIRECT) in
    indirect <- (if get32 indirect at_ =? 0 then
                   b <- next_block;;
                   let indirect := put32 indirect at_ (xint b) in
                   wsect ind indirect;;
                   uret indirect
                 else uret indirect);;
    uret (xint (get32 indirect at_), din).

(** The loop of [iappend]; [p] is what is left to write. *)
Fixpoint iappend_loop (fuel : nat) (p : list Z) (off : Z) (din : dinode) : UM mkfs (Z * dinode) :=
  let n := Z.of_nat (length p) in
  if negb (0 <? n) then uret (off, din)
  else
    match fuel with
    | O => ufuel
    | S fuel' =>
        let fbn := off / BSIZE in
        assert_ (fbn <? MAXFILE);;
        r <- append_block fbn din;;
        let '(x, din) := r in
        let n1 := Z.min n ((fbn + 1) * BSIZE - off) in
        buf <- rsect x;;
        wsect x (splice buf (off - fbn * BSIZE) (take (Z.to_nat n1) p));;
        iappend_loop fuel' (drop (Z.to_nat n1) p) (u32 (off + n1)) din
    end.

Definition iappend (inum : Z) (p : list Z) : UM mkfs unit :=
  din <- rinode inum;;
  let off := xint (d_size din) in
  r <- iappend_loop (length p) p off din;;
  let '(off, din) := r in
  winode inum (set_size (xint off) din).

(** A [struct dirent] with its name, cleared before it is filled in. *)
Definition dirent (inum : Z) (name : list Z) : list Z :=
  put16 (repeat 0 2) 0 (xshort inum) ++ strncpy_list (Z.to_nat DIRSIZ) name.

Fixpoint iappend_all (inum : Z) (chunks : list (list Z)) : UM mkfs unit :=
  match chunks with
  | [] => uret tt
  | buf :: chunks' => iappend inum buf;; iappend_all inum chunks'
  end.

(** The name of an argument without the directory, and then without the leading
    underscore. *)
Definition after_user (arg : list Z) : list Z :=
  if bool_decide (take 5 arg = bytes_of "user/") then drop 5 arg else arg.
Definition after_underscore (name : list Z) : list Z :=
  match name with c :: name' => if c =? 95 then name' else name | [] => [] end.

Definition add_file (rootino : Z) (arg : list Z) : UM mkfs unit :=
  let shortname := after_user arg in
  assert_ (match strchr shortname SLASH with None => true | Some _ => false end);;
  match host_open arg with
  | None => die
  | Some chunks =>
      let shortname := after_underscore shortname in
      assert_ (strlen shortname <=? DIRSIZ);;
      inum <- ialloc T_FILE;;
      iappend rootino (dirent inum shortname);;
      iappend_all inum chunks
  end.

Fixpoint add_files (rootino : Z) (args : list (list Z)) : UM mkfs unit :=
  match args with
  | [] => uret tt
  | arg :: args' => add_file rootino arg;; add_files rootino args'
  end.

Fixpoint zero_sectors (k : nat) (i : Z) : UM mkfs unit :=
  match k with
  | O => uret tt
  | S k' => wsect i zeroes;; zero_sectors k' (i + 1)
  end.

(** The bytes of [sb] at the start of a block of zeros. *)
Definition sb_block (sb : superblock) : block :=
  put32 (put32 (put32 (put32 (put32 (put32 (put32 (put32 zeroes 0 (sb_magic sb)) 4 (sb_size sb)) 8 (sb_nblocks sb))
    12 (sb_ninodes sb)) 16 (sb_nlog sb)) 20 (sb_logstart sb)) 24 (sb_inodestart sb)) 28 (sb_bmapstart sb).

(** [argv[1]] and the rest of the arguments. *)
Definition mkfs_main (argv : list (list Z)) : UM mkfs unit :=
  match argv with
  | [] => uexit 1
  | img :: files =>
      assert_ (BSIZE mod DINODE =? 0);;
      assert_ (BSIZE mod DIRENT =? 0);;
      (if host_create img then uret tt else die);;
      let nmeta := 2 + nlog + ninodeblocks + nbitmap in
      let nblocks := FSSIZE - nmeta in
      let sb := Superblock FSMAGIC (xint FSSIZE) (xint nblocks) (xint NINODES) (xint nlog) (xint 2) (xint (2 + nlog))
                           (xint (2 + nlog + ninodeblocks)) in
      set_mksb sb;;
      set_freeblock nmeta;;
      zero_sectors (Z.to_nat FSSIZE) 0;;
      wsect 1 (sb_block sb);;
      rootino <- ialloc T_DIR;;
      assert_ (rootino =? ROOTINO);;
      iappend rootino (dirent rootino (bytes_of "."));;
      iappend rootino (dirent rootino (bytes_of ".."));;
      add_files rootino files;;
      din <- rinode rootino;;
      let off := xint (d_size din) in
      let off := (off / BSIZE + 1) * BSIZE in
      winode rootino (set_size (xint off) din);;
      (fun s => balloc (freeblock s) s);;
      uexit 0
  end.

(** The image is created empty. *)
Definition no_image : mkfs := Mk (fun _ => zeroes) 0 (Superblock 0 0 0 0 0 0 0 0) 1 0.

End mkfs.
