(* ===== verification/MkfsSpec.v ===== *)
(** * What mkfs writes

    The image that mkfs writes is a file system as the theorems of the kernel
    assume it: the layout, the free map, the inodes and their blocks, the root
    directory, and in each file the bytes of the file of the host. *)

From Stdlib Require Import FunctionalExtensionality.
From S2P Require Import Prelude KMonad Riscv Printf Trace Sleeplock FsState Log LogCrash LogOps FsTxn Fs FsBlocks FsFile FsIo FsSpec.
From S2P Require Import User Mkfs.
Local Open Scope user_scope.

(** ** Numbers and bytes *)

Lemma xint_id x : 0 <= x < 2 ^ 32 -> xint x = x.
Proof.
  intros Hx. unfold xint, u8. rewrite !Z.shiftr_div_pow2 by lia. change (2 ^ 8) with 256. change (2 ^ 16) with (256 * 256). change (2 ^ 24) with (256 * (256 * 256)).
  rewrite <- !Z.div_div by lia.
  pose proof (Z.div_mod x 256 ltac:(lia)). pose proof (Z.div_mod (x / 256) 256 ltac:(lia)). pose proof (Z.div_mod (x / 256 / 256) 256 ltac:(lia)).
  rewrite (Z.mod_small (x / 256 / 256 / 256)) by (split; [repeat apply Z.div_pos; lia | repeat apply Z.div_lt_upper_bound; lia]). lia.
Qed.

Lemma xshort_id x : 0 <= x < 2 ^ 16 -> xshort x = x.
Proof.
  intros Hx. unfold xshort, u8. rewrite Z.shiftr_div_pow2 by lia. change (2 ^ 8) with 256. pose proof (Z.div_mod x 256 ltac:(lia)).
  rewrite (Z.mod_small (x / 256)) by (split; [apply Z.div_pos; lia | apply Z.div_lt_upper_bound; lia]). lia.
Qed.

Lemma nthZ_zeroes k : nthZ 0 zeroes k = 0.
Proof. unfold nthZ, zeroes. apply nth_repeat. Qed.

Lemma get32_zeroes k : get32 zeroes k = 0.
Proof. unfold get32. cbn [get_le]. now rewrite !nthZ_zeroes. Qed.

Lemma length_zeroes : Z.of_nat (length zeroes) = BSIZE.
Proof. reflexivity. Qed.

(** ** The blocks of one file *)

(** The first data block. *)
Definition META : Z := 46.

(** An inode with given addresses. *)
Definition mapped (a : list Z) : inode := Inode ROOTDEV 0 0 (SLock 0 0) 0 0 0 0 0 0 a.
Abbreviation addr V a bn := (file_addr V (mapped a) bn).
Abbreviation ind a := (ind_addr (mapped a)).

(** The file has [nb] blocks among those given out so far, each its own. *)
Record fmap (V : disk_t) (fb : Z) (a : list Z) (nb : Z) : Prop := {
  fm_len : length a = 13%nat;
  fm_nb : 0 <= nb <= MAXFILE;
  fm_in : forall bn, 0 <= bn < nb -> META <= addr V a bn < fb;
  fm_out : forall bn, nb <= bn < MAXFILE -> addr V a bn = 0;
  fm_ind : if NDIRECT <? nb then META <= ind a < fb else ind a = 0;
  fm_inj : forall bn bn', 0 <= bn < nb -> 0 <= bn' < nb -> addr V a bn = addr V a bn' -> bn = bn';
  fm_ne : forall bn, 0 <= bn < nb -> addr V a bn <> ind a }.

(** The bytes of the file; those after its end are zero. *)
Definition stores (V : disk_t) (a : list Z) (data : list Z) : Prop :=
  forall k, 0 <= k < MAXFILE * BSIZE -> content V (mapped a) k = nthZ 0 data k.

Definition cost (nb : Z) : Z := nb + (if NDIRECT <? nb then 1 else 0).
Definition blocks (n : Z) : Z := (n + BSIZE - 1) / BSIZE.

Lemma addr_direct V a bn : bn < NDIRECT -> addr V a bn = nthZ 0 a bn.
Proof. intros Hb. unfold file_addr. destruct (Z.ltb_spec bn NDIRECT); [reflexivity | lia]. Qed.

Lemma addr_indirect V a bn : NDIRECT <= bn -> ind a <> 0 -> addr V a bn = get32 (V (ind a)) (4 * (bn - NDIRECT)).
Proof. intros Hb Hi. unfold file_addr. destruct (Z.ltb_spec bn NDIRECT); [lia |]. now rewrite (proj2 (Z.eqb_neq _ 0) Hi). Qed.

Lemma owns_fmap V fb a nb b : fmap V fb a nb -> owns V (mapped a) b <-> (NDIRECT < nb /\ b = ind a) \/ exists bn, 0 <= bn < nb /\ addr V a bn = b.
Proof.
  intros [F1 F2 F3 F4 F5 F6 F7]. unfold owns, META in *. split.
  - intros (Hb & [-> | (bn & Hbn & E)]); [left; destruct (Z.ltb_spec NDIRECT nb); [auto | lia] |]. right. exists bn. split; [| exact E].
    destruct (Z.ltb_spec bn nb); [lia |]. rewrite F4 in E by lia. lia.
  - intros [(Hn & ->) | (bn & Hbn & <-)]; [destruct (Z.ltb_spec NDIRECT nb); [split; [lia | auto] | lia] |].
    specialize (F3 bn Hbn). split; [lia |]. right. exists bn. split; [lia | reflexivity].
Qed.

(** A file does not see changes to blocks that it does not own. *)
Lemma file_frame V V' a : (forall b, owns V (mapped a) b -> V' b = V b) -> forall bn, 0 <= bn < MAXFILE ->
  addr V' a bn = addr V a bn /\ file_block V' (mapped a) bn = file_block V (mapped a) bn.
Proof.
  intros Hf bn Hbn.
  assert (E : addr V' a bn = addr V a bn).
  { unfold file_addr. destruct (bn <? NDIRECT); [reflexivity |]. destruct (Z.eqb_spec (ind a) 0); [reflexivity |]. rewrite Hf; [reflexivity |].
    split; auto. }
  split; [exact E |]. unfold file_block. rewrite E. destruct (Z.eqb_spec (addr V a bn) 0); [reflexivity |]. apply Hf. split; eauto.
Qed.

Lemma fmap_frame V V' fb fb' a nb : fmap V fb a nb -> (forall b, owns V (mapped a) b -> V' b = V b) -> fb <= fb' -> fmap V' fb' a nb.
Proof.
  intros Hm Hf Hle. pose proof (file_frame V V' a Hf) as E. destruct Hm as [F1 F2 F3 F4 F5 F6 F7]. split; auto.
  - intros bn Hb. rewrite (proj1 (E bn ltac:(lia))). specialize (F3 bn Hb). lia.
  - intros bn Hb. rewrite (proj1 (E bn ltac:(lia))). auto.
  - destruct (NDIRECT <? nb); lia.
  - intros bn bn' Hb Hb'. rewrite (proj1 (E bn ltac:(lia))), (proj1 (E bn' ltac:(lia))). auto.
  - intros bn Hb. rewrite (proj1 (E bn ltac:(lia))). auto.
Qed.

Lemma stores_frame V V' a data : stores V a data -> (forall b, owns V (mapped a) b -> V' b = V b) -> stores V' a data.
Proof.
  intros Hs Hf k Hk. rewrite <- (Hs k Hk). unfold content. now rewrite (proj2 (file_frame V V' a Hf (k / BSIZE) (block_range k Hk))).
Qed.

Lemma owns_frame V V' a b : (forall b, owns V (mapped a) b -> V' b = V b) -> owns V' (mapped a) b <-> owns V (mapped a) b.
Proof.
  intros Hf. unfold owns. split; intros (Hb & [E | (bn & Hbn & E)]); split; auto; right; exists bn; split; auto;
    [now rewrite <- (proj1 (file_frame V V' a Hf bn Hbn)) | now rewrite (proj1 (file_frame V V' a Hf bn Hbn))].
Qed.

(** A file gets a block, and an indirect block if it needs its first one. *)
Record grows (V : disk_t) (fb : Z) (a : list Z) (nb : Z) (V' : disk_t) (a' : list Z) (r : Z) : Prop := {
  gr_len : length a' = 13%nat;
  gr_addr : forall bn, 0 <= bn < MAXFILE -> addr V' a' bn = if bn =? nb then r else addr V a bn;
  gr_ind : if nb =? NDIRECT then ind a' = fb else ind a' = ind a;
  gr_new : r = fb + cost (nb + 1) - cost nb - 1;
  gr_same : forall b, b <> ind a' -> V' b = V b;
  gr_none : nb < NDIRECT -> forall b, V' b = V b }.

Lemma cost_next nb : cost (nb + 1) = cost nb + (if nb =? NDIRECT then 2 else 1).
Proof. unfold cost, NDIRECT. zb. Qed.

Section grow.
Variables (V : disk_t) (fb : Z) (a : list Z) (nb : Z) (V' : disk_t) (a' : list Z) (r : Z).
Hypothesis Hm : fmap V fb a nb.
Hypothesis Hg : grows V fb a nb V' a' r.
Hypothesis Hnb : nb < MAXFILE.
Hypothesis Hfb : META <= fb.
Hypothesis Hfresh : V r = zeroes.
Abbreviation fb' := (fb + cost (nb + 1) - cost nb).

Lemma fgrow_ind : if NDIRECT <? nb + 1 then META <= ind a' < fb' /\ (ind a' = ind a \/ ind a' = fb) else ind a' = 0.
Proof.
  pose proof (fm_ind _ _ _ _ Hm) as F5. pose proof (gr_ind _ _ _ _ _ _ _ Hg) as G3. pose proof (cost_next nb). unfold META, NDIRECT in *. zb.
Qed.

Lemma grow_old bn : 0 <= bn < nb -> addr V' a' bn = addr V a bn.
Proof. intros Hb. pose proof (fm_nb _ _ _ _ Hm). rewrite (gr_addr _ _ _ _ _ _ _ Hg) by lia. destruct (Z.eqb_spec bn nb); [lia | reflexivity]. Qed.

Lemma grow_new : addr V' a' nb = r /\ fb <= r < fb' /\ r <> ind a'.
Proof.
  pose proof (fm_nb _ _ _ _ Hm). pose proof (gr_new _ _ _ _ _ _ _ Hg). pose proof (cost_next nb). pose proof (gr_ind _ _ _ _ _ _ _ Hg) as G3.
  pose proof (fm_ind _ _ _ _ Hm) as F5. rewrite (gr_addr _ _ _ _ _ _ _ Hg), Z.eqb_refl by lia. split; [reflexivity |]. unfold META, NDIRECT in *. zb.
Qed.

Lemma grow_ne bn : 0 <= bn < nb -> addr V a bn <> ind a'.
Proof.
  intros Hb. pose proof (fm_in _ _ _ _ Hm bn Hb). pose proof (fm_ne _ _ _ _ Hm bn Hb). pose proof (gr_ind _ _ _ _ _ _ _ Hg) as G3. destruct (nb =? NDIRECT); lia.
Qed.

Lemma grow_fmap : fmap V' fb' a' (nb + 1).
Proof.
  destruct grow_new as (E & Hr & Hri). pose proof fgrow_ind as Hi. pose proof (fm_nb _ _ _ _ Hm) as F2. pose proof (cost_next nb) as Hc.
  split; [apply Hg | lia | | | destruct (NDIRECT <? nb + 1); tauto | |].
  - intros bn Hb. destruct (Z.eq_dec bn nb) as [-> | Hne]; [unfold META in *; lia |]. rewrite grow_old by lia. pose proof (fm_in _ _ _ _ Hm bn ltac:(lia)).
    destruct (nb =? NDIRECT); lia.
  - intros bn Hb. rewrite (gr_addr _ _ _ _ _ _ _ Hg) by lia. destruct (Z.eqb_spec bn nb); [lia |]. apply (fm_out _ _ _ _ Hm). lia.
  - assert (Hold : forall bn, 0 <= bn < nb -> addr V a bn <> r) by (intros bn Hb; pose proof (fm_in _ _ _ _ Hm bn Hb); lia).
    intros b1 b2 H1 H2. destruct (Z.eq_dec b1 nb) as [-> | N1], (Z.eq_dec b2 nb) as [-> | N2]; auto; rewrite ?E, ?grow_old by lia.
    + intros E'. specialize (Hold b2 ltac:(lia)). congruence.
    + intros E'. specialize (Hold b1 ltac:(lia)). congruence.
    + apply (fm_inj _ _ _ _ Hm); lia.
  - intros bn Hb. destruct (Z.eq_dec bn nb) as [-> | Hne]; [lia |]. rewrite grow_old by lia. apply grow_ne. lia.
Qed.

Lemma grow_stores data : stores V a data -> stores V' a' data.
Proof.
  intros Hs k Hk. rewrite <- (Hs k Hk). unfold content. pose proof (block_range k Hk) as Hb. f_equal. unfold file_block.
  rewrite (gr_addr _ _ _ _ _ _ _ Hg) by lia. destruct grow_new as (_ & Hr & Hri). pose proof (fm_nb _ _ _ _ Hm).
  destruct (Z.eqb_spec (k / BSIZE) nb) as [-> | Hne].
  - rewrite (fm_out _ _ _ _ Hm nb) by lia. rewrite (proj2 (Z.eqb_neq r 0)) by (unfold META in *; lia). rewrite (gr_same _ _ _ _ _ _ _ Hg) by exact Hri. exact Hfresh.
  - destruct (Z.eqb_spec (addr V a (k / BSIZE)) 0) as [_ | Ha]; [reflexivity |]. apply (gr_same _ _ _ _ _ _ _ Hg).
    destruct (Z.ltb_spec (k / BSIZE) nb); [apply grow_ne; lia |]. rewrite (fm_out _ _ _ _ Hm) in Ha by lia. lia.
Qed.

Lemma grow_owns b : owns V' (mapped a') b -> owns V (mapped a) b \/ fb <= b < fb'.
Proof.
  rewrite (owns_fmap _ _ _ _ _ grow_fmap), (owns_fmap _ _ _ _ _ Hm). destruct grow_new as (E & Hr & _). pose proof (cost_next nb) as Hc. pose proof (gr_ind _ _ _ _ _ _ _ Hg) as G3.
  intros [[Hn ->] | (bn & Hb & <-)].
  - destruct (Z.eqb_spec nb NDIRECT); [right; lia | left; left; split; [unfold NDIRECT in *; lia | exact G3]].
  - destruct (Z.eq_dec bn nb) as [-> | Hne]; [right; lia |]. left. right. exists bn. rewrite grow_old by lia. split; [lia | reflexivity].
Qed.

Lemma grow_frame b : ~ owns V (mapped a) b -> b < fb -> V' b = V b.
Proof.
  intros Hno Hb. destruct (Z.lt_ge_cases nb NDIRECT) as [Hlt | Hge]; [now apply (gr_none _ _ _ _ _ _ _ Hg) |].
  apply (gr_same _ _ _ _ _ _ _ Hg). intros ->. pose proof (gr_ind _ _ _ _ _ _ _ Hg) as G3. destruct (Z.eqb_spec nb NDIRECT); [lia |].
  apply Hno, (owns_fmap _ _ _ _ _ Hm). left. unfold NDIRECT in *. lia.
Qed.

End grow.

(** A data block of the file is written. *)
Section write.
Variables (V : disk_t) (fb : Z) (a : list Z) (nb fbn : Z) (v : block).
Hypothesis Hm : fmap V fb a nb.
Hypothesis Hfbn : 0 <= fbn < nb.
Hypothesis Hmeta : 0 < META.
Abbreviation x := (addr V a fbn).
Abbreviation V' := (dwrite V x v).

Lemma write_addr bn : 0 <= bn < MAXFILE -> addr V' a bn = addr V a bn.
Proof.
  intros Hb. unfold file_addr at 1 3. destruct (bn <? NDIRECT); [reflexivity |]. destruct (Z.eqb_spec (ind a) 0); [reflexivity |].
  unfold dwrite. rewrite (proj2 (Z.eqb_neq (ind a) x)); [reflexivity |]. intros E. apply (fm_ne _ _ _ _ Hm fbn Hfbn). now rewrite E.
Qed.

Lemma write_fmap : fmap V' fb a nb.
Proof.
  pose proof (fm_nb _ _ _ _ Hm). split; try apply Hm.
  - intros bn Hb. rewrite write_addr by lia. now apply Hm.
  - intros bn Hb. rewrite write_addr by lia. now apply Hm.
  - intros b1 b2 H1 H2. rewrite !write_addr by lia. now apply Hm.
  - intros bn Hb. rewrite write_addr by lia. now apply Hm.
Qed.

Lemma write_block bn : 0 <= bn < MAXFILE -> file_block V' (mapped a) bn = if bn =? fbn then v else file_block V (mapped a) bn.
Proof.
  intros Hb. unfold file_block. rewrite write_addr by exact Hb. pose proof (fm_in _ _ _ _ Hm fbn Hfbn). destruct (Z.eqb_spec bn fbn) as [-> | Hne].
  - rewrite (proj2 (Z.eqb_neq x 0)) by lia. unfold dwrite. now rewrite Z.eqb_refl.
  - destruct (Z.eqb_spec (addr V a bn) 0) as [E | E]; [reflexivity |]. unfold dwrite. rewrite (proj2 (Z.eqb_neq _ x)); [reflexivity |].
    intros E'. apply Hne, (fm_inj _ _ _ _ Hm); auto. destruct (Z.ltb_spec bn nb); [lia |]. rewrite (fm_out _ _ _ _ Hm) in E by lia. lia.
Qed.

Lemma write_owns b : owns V' (mapped a) b -> owns V (mapped a) b.
Proof. intros (Hb & [E | (bn & Hbn & E)]); split; auto. right. exists bn. split; [exact Hbn |]. now rewrite <- write_addr. Qed.

End write.

Lemma write_stores V fb a nb data d : let off := Z.of_nat (length data) in let fbn := off / BSIZE in
  fmap V fb a nb -> stores V a data -> fbn < nb -> off mod BSIZE + Z.of_nat (length d) <= BSIZE -> Z.of_nat (length (V (addr V a fbn))) = BSIZE ->
  stores (dwrite V (addr V a fbn) (splice (V (addr V a fbn)) (off mod BSIZE) d)) a (data ++ d).
Proof.
  intros off fbn Hm Hs Hb Hd Hl k Hk. pose proof (Z.mod_pos_bound off BSIZE ltac:(reflexivity)) as Hmod. pose proof (Z.div_mod off BSIZE ltac:(discriminate)) as Hdm.
  assert (Hfbn : 0 <= fbn < nb) by (split; [apply Z.div_pos; [lia | reflexivity] | exact Hb]).
  unfold content. rewrite (write_block V fb a nb fbn) by (auto using block_range; reflexivity). specialize (Hs k Hk). unfold content in Hs.
  pose proof (Z.div_mod k BSIZE ltac:(discriminate)) as Hdk. pose proof (Z.mod_pos_bound k BSIZE ltac:(reflexivity)) as Hmk. fold fbn in Hdm.
  assert (Ea : forall j, nthZ 0 (data ++ d) j = if (off <=? j) && (j <? off + Z.of_nat (length d)) then nthZ 0 d (j - off) else if 0 <=? j then nthZ 0 data j else nthZ 0 (data ++ d) j).
  { intros j. unfold nthZ. destruct (Z.leb_spec 0 j); [| zb]. destruct (Z.leb_spec off j) as [Ho | Ho]; cbn [andb].
    - rewrite app_nth2 by lia. destruct (Z.ltb_spec j (off + Z.of_nat (length d))); [f_equal; lia |]. rewrite !nth_overflow by lia. reflexivity.
    - rewrite app_nth1 by lia. reflexivity. }
  rewrite Ea. rewrite (proj2 (Z.leb_le 0 k)) by lia. destruct (Z.eqb_spec (k / BSIZE) fbn) as [E | E].
  - rewrite nthZ_splice by lia. assert (Hbb : file_block V (mapped a) (k / BSIZE) = V (addr V a fbn)).
    { unfold file_block. rewrite E. pose proof (fm_in _ _ _ _ Hm fbn Hfbn). unfold META in *. now rewrite (proj2 (Z.eqb_neq _ 0)) by lia. }
    rewrite Hbb in Hs. rewrite Hs. rewrite E in Hdk. destruct (Z.leb_spec (off mod BSIZE) (k mod BSIZE)), (Z.ltb_spec (k mod BSIZE) (off mod BSIZE + Z.of_nat (length d)));
      cbn [andb]; zb. f_equal. lia.
  - rewrite Hs. assert (Hne : k < off \/ off + Z.of_nat (length d) <= k) by (destruct (Z.lt_trichotomy (k / BSIZE) fbn) as [? | [? | ?]]; unfold BSIZE in *; lia). zb.
Qed.

(** What else is on the disk stays when a file grows. *)
Record moved (V : disk_t) (fb : Z) (a : list Z) (V' : disk_t) (fb' : Z) (a' : list Z) : Prop := {
  mv_le : fb <= fb';
  mv_owns : forall b, owns V' (mapped a') b -> owns V (mapped a) b \/ fb <= b < fb';
  mv_frame : forall b, ~ owns V (mapped a) b -> b < fb -> V' b = V b }.

Lemma moved_trans V fb a V1 fb1 a1 V2 fb2 a2 : moved V fb a V1 fb1 a1 -> moved V1 fb1 a1 V2 fb2 a2 -> moved V fb a V2 fb2 a2.
Proof.
  intros [L1 O1 F1] [L2 O2 F2]. split; [lia | |].
  - intros b Hb. destruct (O2 b Hb) as [Hb1 | Hb1]; [destruct (O1 b Hb1); [now left | right; lia] | right; lia].
  - intros b Hno Hb. rewrite F2, F1; auto; [| lia]. intros Ho. destruct (O1 b Ho); [auto | lia].
Qed.

Lemma moved_refl V fb a : moved V fb a V fb a.
Proof. split; auto. lia. Qed.

Lemma grows_moved V fb a nb V' a' r : fmap V fb a nb -> grows V fb a nb V' a' r -> nb < MAXFILE -> META <= fb ->
  moved V fb a V' (fb + cost (nb + 1) - cost nb) a'.
Proof.
  intros Hm Hg Hn Hf. pose proof (cost_next nb). split; [destruct (nb =? NDIRECT); lia | |].
  - intros b. now apply (grow_owns V fb a nb V' a' r).
  - intros b. now apply (grow_frame V fb a nb V' a' r).
Qed.

Lemma write_moved V fb a nb fbn v : fmap V fb a nb -> 0 <= fbn < nb -> moved V fb a (dwrite V (addr V a fbn) v) fb a.
Proof.
  intros Hm Hf. split; [lia | |].
  - intros b Hb. left. now apply (write_owns V fb a nb fbn v).
  - intros b Hno Hb. unfold dwrite. rewrite (proj2 (Z.eqb_neq _ _)); [reflexivity |]. intros ->. apply Hno, (owns_fmap _ _ _ _ _ Hm). right. eauto.
Qed.

(** ** Appending to a file *)

Section mkfs.
Context `{Host}.
Hypothesis Hio : forall b, 0 <= b < FSSIZE -> sector_ok b = true.

Definition with_addrs (a : list Z) (d : dinode) : dinode := Dinode (d_type d) (d_major d) (d_minor d) (d_nlink d) (d_size d) a.
Definition with_disk (V : disk_t) (fb : Z) (s : mkfs) : mkfs := Mk V (sectors s) (mk_sb s) (freeinode s) fb.

Lemma rsect_ok s b : sectors s = FSSIZE -> 0 <= b < FSSIZE -> rsect b s = UOk (image s b) s.
Proof. intros Hs Hb. unfold rsect. rewrite Hio, Hs, (proj2 (Z.ltb_lt _ _)) by lia. reflexivity. Qed.

Lemma wsect_ok s b v : sectors s = FSSIZE -> 0 <= b < FSSIZE -> wsect b v s = UOk tt (with_disk (dwrite (image s) b v) (freeblock s) s).
Proof. intros Hs Hb. unfold wsect, with_disk. rewrite Hio, Z.max_l by lia. reflexivity. Qed.

Lemma with_addrs_same d : with_addrs (d_addrs d) d = d.
Proof. now destruct d. Qed.

(** A new direct block. *)
Lemma grows_direct V fb a nb : fmap V fb a nb -> nb < NDIRECT -> 0 <= fb -> grows V fb a nb V (updZ a nb fb) fb.
Proof.
  intros Hm Hn Hfb. pose proof (fm_nb _ _ _ _ Hm). pose proof (fm_len _ _ _ _ Hm) as Hl. pose proof (cost_next nb). unfold NDIRECT in *.
  assert (Ei : ind (updZ a nb fb) = ind a) by (unfold ind_addr; cbn [i_addrs mapped]; apply nthZ_updZ_ne; unfold NDIRECT; lia).
  split; auto.
  - now rewrite length_updZ.
  - intros bn Hb. unfold file_addr. fold (ind a). fold (ind (updZ a nb fb)). rewrite Ei. cbn [i_addrs mapped]. destruct (Z.ltb_spec bn NDIRECT) as [Hd | Hd].
    + destruct (Z.eqb_spec bn nb) as [-> | Hne]; [apply nthZ_updZ_eq; lia | apply nthZ_updZ_ne; lia].
    + unfold NDIRECT in *. now rewrite (proj2 (Z.eqb_neq bn nb)) by lia.
  - unfold NDIRECT. now rewrite (proj2 (Z.eqb_neq nb 12)) by lia.
  - unfold NDIRECT in *. rewrite (proj2 (Z.eqb_neq nb 12)) in * by lia. lia.
Qed.

(** A new block in the indirect block [b]. *)
Lemma grows_indirect V fb a nb b v r : fmap V fb a nb -> NDIRECT <= nb < MAXFILE -> META <= fb -> 0 <= r < 2 ^ 32 ->
  b = (if nb =? NDIRECT then fb else ind a) -> v = put32 (V b) (4 * (nb - NDIRECT)) r -> (nb = NDIRECT -> V fb = zeroes) -> Z.of_nat (length (V b)) = BSIZE ->
  r = fb + cost (nb + 1) - cost nb - 1 -> grows V fb a nb (dwrite V b v) (updZ a NDIRECT b) r.
Proof.
  intros Hm Hn Hfb Hr Hb Hv Hz Hl Hr'. pose proof (fm_len _ _ _ _ Hm) as Hla. pose proof (fm_ind _ _ _ _ Hm) as Hi.
  assert (Ei : ind (updZ a NDIRECT b) = b) by (unfold ind_addr; cbn [i_addrs mapped]; apply nthZ_updZ_eq; unfold NDIRECT; lia).
  assert (Hb0 : b <> 0) by (unfold META, NDIRECT in *; revert Hb Hi; zb).
  split; auto.
  - now rewrite length_updZ.
  - intros bn Hbn. unfold file_addr at 1. rewrite Ei. cbn [i_addrs mapped]. unfold MAXFILE, NINDIRECT, BSIZE, NDIRECT in *. destruct (Z.ltb_spec bn 12) as [Hd | Hd].
    + rewrite (proj2 (Z.eqb_neq bn nb)), addr_direct by (unfold NDIRECT; lia). apply nthZ_updZ_ne; lia.
    + rewrite (proj2 (Z.eqb_neq b 0) Hb0), dwrite_eq, Hv. change (1024 / 4) with 256 in *. destruct (Z.eqb_spec bn nb) as [-> | Hne].
      * unfold get32, put32. rewrite get_put by lia. apply Z.mod_small. exact Hr.
      * unfold get32, put32. rewrite get_put_ne by lia. destruct (Z.eqb_spec nb 12) as [E | E].
        -- rewrite Hb, Hz by exact E. rewrite (fm_out _ _ _ _ Hm) by (unfold MAXFILE, NINDIRECT, BSIZE, NDIRECT; change (1024 / 4) with 256; lia). apply get32_zeroes.
        -- subst b. rewrite addr_indirect by (unfold NDIRECT; lia). reflexivity.
  - rewrite Ei, Hb. destruct (nb =? NDIRECT); reflexivity.
  - intros c Hc. rewrite Ei in Hc. now apply dwrite_ne.
  - intros. lia.
Qed.

(** The state of the image while a file grows. *)
Record writing (s : mkfs) : Prop := {
  wr_sectors : sectors s = FSSIZE;
  wr_free : META <= freeblock s <= FSSIZE;
  wr_fresh : forall b, freeblock s <= b < FSSIZE -> image s b = zeroes;
  wr_len : forall b, Z.of_nat (length (image s b)) = BSIZE }.

(** The block is there already. *)
Lemma append_block_old s din nb fbn : writing s -> fmap (image s) (freeblock s) (d_addrs din) nb -> 0 <= fbn < nb ->
  append_block fbn din s = UOk (addr (image s) (d_addrs din) fbn, din) s.
Proof.
  intros Hw Hm Hb. pose proof (fm_in _ _ _ _ Hm fbn Hb) as Hin. pose proof (wr_free _ Hw). pose proof (fm_nb _ _ _ _ Hm).
  unfold META, FSSIZE in *. unfold append_block. destruct (Z.ltb_spec fbn NDIRECT) as [Hd | Hd].
  - rewrite addr_direct in * by exact Hd. rewrite xint_id by lia. rewrite (proj2 (Z.eqb_neq _ 0)) by lia. unfold ubind, uret. now rewrite xint_id by lia.
  - pose proof (fm_ind _ _ _ _ Hm) as Hi. rewrite (proj2 (Z.ltb_lt NDIRECT nb)) in Hi by lia. rewrite addr_indirect in * by (unfold META in *; lia).
    change (nthZ 0 (d_addrs din) NDIRECT) with (ind (d_addrs din)). unfold META in *. rewrite xint_id, (proj2 (Z.eqb_neq _ 0)) by lia. unfold ubind, uret.
    change (nthZ 0 (d_addrs din) NDIRECT) with (ind (d_addrs din)). rewrite xint_id, rsect_ok by (try apply Hw; unfold FSSIZE; lia).
    rewrite (proj2 (Z.eqb_neq _ 0)) by lia. now rewrite xint_id by lia.
Qed.

(** An entry of the indirect block [b] is filled. *)
Lemma fill_entry s b o (d : dinode) : sectors s = FSSIZE -> 0 <= b < FSSIZE -> Z.of_nat (length (image s b)) = BSIZE -> 0 <= o -> o + 4 <= BSIZE ->
  get32 (image s b) o = 0 -> 0 <= freeblock s < FSSIZE ->
  (indirect <- (if get32 (image s b) o =? 0 then
                  n <- next_block;;
                  let indirect := put32 (image s b) o (xint n) in
                  wsect b indirect;;
                  uret indirect
                else uret (image s b));;
   uret (xint (get32 indirect o), d)) s =
  UOk (freeblock s, d) (with_disk (dwrite (image s) b (put32 (image s b) o (freeblock s))) (freeblock s + 1) s).
Proof.
  intros Hs Hb Hl Ho Ho' Hz Hf. rewrite Hz. cbn [Z.eqb]. unfold ubind, next_block, FSSIZE in *. rewrite !xint_id by lia.
  rewrite wsect_ok by (auto; unfold FSSIZE; lia). unfold uret. unfold get32, put32. rewrite get_put by lia.
  change (2 ^ (8 * Z.of_nat 4)) with (2 ^ 32). rewrite Z.mod_small, xint_id, u32_small by lia. reflexivity.
Qed.

(** A block is added. *)
Lemma append_block_new s din nb : writing s -> fmap (image s) (freeblock s) (d_addrs din) nb -> nb < MAXFILE ->
  freeblock s + cost (nb + 1) - cost nb <= FSSIZE -> exists V a r,
  append_block nb din s = UOk (r, with_addrs a din) (with_disk V (freeblock s + cost (nb + 1) - cost nb) s) /\
  grows (image s) (freeblock s) (d_addrs din) nb V a r /\ (forall b, Z.of_nat (length (V b)) = BSIZE).
Proof.
  intros Hw Hm Hb Hfit. pose proof (wr_free _ Hw) as Hfree. pose proof (fm_nb _ _ _ _ Hm) as Hnb. pose proof (fm_len _ _ _ _ Hm) as Hl. pose proof (cost_next nb) as Hc.
  unfold append_block. destruct (Z.ltb_spec nb NDIRECT) as [Hd | Hd].
  - rewrite (proj2 (Z.eqb_neq nb NDIRECT)) in Hc by lia. pose proof (fm_out _ _ _ _ Hm nb ltac:(lia)) as E0. rewrite addr_direct in E0 by exact Hd.
    exists (image s), (updZ (d_addrs din) nb (freeblock s)), (freeblock s). rewrite E0. change (xint 0 =? 0) with true. unfold META, FSSIZE in *. split_and!.
    + unfold ubind, next_block, uret. cbn [set_addr d_addrs]. rewrite nthZ_updZ_eq by (unfold NDIRECT in *; lia). rewrite !(xint_id (freeblock s)) by lia.
      rewrite u32_small by lia. unfold with_disk. do 3 f_equal. lia.
    + apply grows_direct; auto. lia.
    + apply Hw.
  - pose proof (fm_ind _ _ _ _ Hm) as Hi. change (nthZ 0 (d_addrs din) NDIRECT) with (ind (d_addrs din)).
    set (b := if nb =? NDIRECT then freeblock s else ind (d_addrs din)).
    set (r := freeblock s + cost (nb + 1) - cost nb - 1).
    assert (Hb' : META <= b < FSSIZE) by (subst b r; unfold META, NDIRECT in *; revert Hi Hc; zb).
    assert (Hr : META <= r < FSSIZE) by (subst r; destruct (nb =? NDIRECT); lia).
    set (v := put32 (image s b) (4 * (nb - NDIRECT)) r).
    exists (dwrite (image s) b v), (updZ (d_addrs din) NDIRECT b), r. split_and!.
    + destruct (Z.eqb_spec nb NDIRECT) as [E | E].
      * assert (Hi0 : ind (d_addrs din) = 0) by (rewrite (proj2 (Z.ltb_ge NDIRECT nb)) in Hi by lia; exact Hi).
        rewrite Hi0. change (xint 0 =? 0) with true. unfold ubind at 1. unfold ubind at 1. unfold next_block at 1. unfold uret at 1.
        cbn [set_addr d_addrs]. rewrite nthZ_updZ_eq by (unfold NDIRECT; lia). fold b. unfold META, FSSIZE in *. rewrite !(xint_id b) by lia.
        unfold ubind at 1. rewrite rsect_ok by (cbn [sectors]; try apply Hw; unfold FSSIZE; lia). cbn [image].
        refine (eq_trans (fill_entry (Mk (image s) (sectors s) (mk_sb s) (freeinode s) (u32 (b + 1))) b (4 * (nb - NDIRECT)) _ _ _ _ _ _ _ _) _);
          cbn [sectors image freeblock]; try rewrite u32_small by lia; try apply Hw; unfold FSSIZE, BSIZE; try lia.
        -- rewrite (wr_fresh _ Hw) by (unfold b, FSSIZE; lia). apply get32_zeroes.
        -- unfold with_disk. cbn [image sectors mk_sb freeinode]. replace (b + 1) with r by (subst r b; lia). do 2 f_equal. subst r b. lia.
      * assert (Hi0 : META <= ind (d_addrs din) < freeblock s) by (rewrite (proj2 (Z.ltb_lt NDIRECT nb)) in Hi by lia; exact Hi).
        unfold META, FSSIZE in *. rewrite xint_id, (proj2 (Z.eqb_neq _ 0)) by lia. unfold ubind at 1. unfold uret at 1.
        change (nthZ 0 (d_addrs din) NDIRECT) with (ind (d_addrs din)). rewrite xint_id by lia. unfold ubind at 1. fold b.
        rewrite rsect_ok by (try apply Hw; unfold FSSIZE; lia). 
        refine (eq_trans (fill_entry s b (4 * (nb - NDIRECT)) _ _ _ _ _ _ _ _) _); try apply Hw; unfold FSSIZE, BSIZE; try lia.
        -- change MAXFILE with 268 in Hb. unfold NDIRECT in *. lia.
        -- pose proof (fm_out _ _ _ _ Hm nb ltac:(lia)) as E0. rewrite addr_indirect in E0 by lia. exact E0.
        -- replace (updZ (d_addrs din) NDIRECT b) with (d_addrs din) by (symmetry; apply (updZ_same 0); unfold NDIRECT; lia). rewrite with_addrs_same.
           unfold v. replace (freeblock s) with r by (subst r; lia). do 2 f_equal. subst r. lia.
    + subst b. apply (grows_indirect _ _ _ _ _ v); auto; [lia | unfold META, FSSIZE in *; lia | | apply Hw].
      intros _. apply (wr_fresh _ Hw). destruct (nb =? NDIRECT); lia.
    + intros c. destruct (Z.eq_dec c b) as [-> | Hne]; [rewrite dwrite_eq; subst v; unfold put32; rewrite length_put | rewrite dwrite_ne by exact Hne]; apply Hw.
Qed.

Lemma blocks_at n : 0 <= n -> blocks n = if n mod BSIZE =? 0 then n / BSIZE else n / BSIZE + 1.
Proof.
  intros Hn. unfold blocks. pose proof (Z.div_mod n BSIZE ltac:(discriminate)) as Hd. pose proof (Z.mod_pos_bound n BSIZE ltac:(reflexivity)) as Hm.
  symmetry. unfold BSIZE in *. destruct (Z.eqb_spec (n mod 1024) 0) as [E | E];
    [apply (Z.div_unique _ _ _ 1023) | apply (Z.div_unique _ _ _ (n mod 1024 - 1))]; lia.
Qed.

Lemma blocks_within n d : 0 <= n -> 0 < d -> n mod BSIZE + d <= BSIZE -> blocks (n + d) = n / BSIZE + 1.
Proof.
  intros Hn Hd Hf. unfold blocks. pose proof (Z.div_mod n BSIZE ltac:(discriminate)) as Hdm. pose proof (Z.mod_pos_bound n BSIZE ltac:(reflexivity)) as Hm.
  symmetry. apply (Z.div_unique _ _ _ (n mod BSIZE + d - 1)); unfold BSIZE in *; lia.
Qed.

Lemma writing_moved s V fb : writing s -> freeblock s <= fb <= FSSIZE -> (forall b, fb <= b < FSSIZE -> V b = image s b) ->
  (forall b, Z.of_nat (length (V b)) = BSIZE) -> writing (with_disk V fb s).
Proof.
  intros [W1 W2 W3 W4] Hfb Hf Hl. split; cbn [with_disk sectors freeblock image]; auto; [lia |]. intros b Hb. rewrite Hf by exact Hb. apply W3. lia.
Qed.

(** The block that [iappend] writes to is there. *)
Lemma append_block_ok s din data : let off := Z.of_nat (length data) in let fbn := off / BSIZE in let nb := blocks off in
  writing s -> fmap (image s) (freeblock s) (d_addrs din) nb -> stores (image s) (d_addrs din) data -> fbn < MAXFILE ->
  freeblock s + cost (fbn + 1) - cost nb <= FSSIZE -> exists V a fb, fb = freeblock s + cost (fbn + 1) - cost nb /\
  append_block fbn din s = UOk (addr V a fbn, with_addrs a din) (with_disk V fb s) /\ writing (with_disk V fb s) /\ fmap V fb a (fbn + 1) /\ stores V a data /\
  moved (image s) (freeblock s) (d_addrs din) V fb a.
Proof.
  intros off fbn nb Hw Hm Hs Hf Hfit. assert (Hnb : nb = if off mod BSIZE =? 0 then fbn else fbn + 1) by (apply blocks_at; lia).
  assert (Hfbn : 0 <= fbn) by (apply Z.div_pos; [lia | reflexivity]). pose proof (wr_free _ Hw). destruct (off mod BSIZE =? 0).
  - rewrite Hnb in *. destruct (append_block_new s din fbn Hw Hm Hf Hfit) as (V & a & r & R & Hg & Hl). pose proof (cost_next fbn).
    destruct (grow_new _ _ _ _ _ _ _ Hm Hg Hf) as (Er & Hr & _); [lia |]. pose proof (grow_fmap _ _ _ _ _ _ _ Hm Hg Hf ltac:(lia)) as Hm'.
    exists V, a, (freeblock s + cost (fbn + 1) - cost fbn). rewrite Er. split_and!; auto.
    + apply writing_moved; auto; [destruct (fbn =? NDIRECT); lia |]. intros b Hb. pose proof (fgrow_ind _ _ _ _ _ _ _ Hm Hg) as Hi.
      destruct (Z.lt_ge_cases fbn NDIRECT); [now apply (gr_none _ _ _ _ _ _ _ Hg) |]. apply (gr_same _ _ _ _ _ _ _ Hg).
      rewrite (proj2 (Z.ltb_lt NDIRECT (fbn + 1))) in Hi by lia. lia.
    + apply (grow_stores _ _ _ _ _ _ _ Hm Hg Hf ltac:(lia)); auto. apply (wr_fresh _ Hw). lia.
    + apply (grows_moved _ _ _ _ _ _ _ Hm Hg Hf). lia.
  - rewrite Hnb in *. exists (image s), (d_addrs din), (freeblock s). rewrite (append_block_old s din (fbn + 1) fbn) by (auto; lia).
    rewrite with_addrs_same. replace (with_disk (image s) (freeblock s) s) with s by now destruct s. split_and!; auto using moved_refl. lia.
Qed.

(** One round of [iappend]. *)
Lemma append_step {A} s din data d (K : dinode -> UM mkfs A) : let off := Z.of_nat (length data) in let fbn := off / BSIZE in
  writing s -> fmap (image s) (freeblock s) (d_addrs din) (blocks off) -> stores (image s) (d_addrs din) data ->
  0 < Z.of_nat (length d) -> off mod BSIZE + Z.of_nat (length d) <= BSIZE -> fbn < MAXFILE ->
  freeblock s + cost (fbn + 1) - cost (blocks off) <= FSSIZE -> exists V a fb, fb = freeblock s + cost (fbn + 1) - cost (blocks off) /\
  (r <- append_block fbn din;; let '(x, din) := r in buf <- rsect x;; wsect x (splice buf (off - fbn * BSIZE) d);; K din) s =
    K (with_addrs a din) (with_disk V fb s) /\
  writing (with_disk V fb s) /\ fmap V fb a (fbn + 1) /\ stores V a (data ++ d) /\ moved (image s) (freeblock s) (d_addrs din) V fb a.
Proof.
  intros off fbn Hw Hm Hs Hd0 Hd Hf Hfit. destruct (append_block_ok s din data Hw Hm Hs Hf Hfit) as (V & a & fb & Hfb & R & Hw' & Hm' & Hs' & Hmv).
  fold off fbn in Hfb, R, Hm'. assert (Hfbn : 0 <= fbn) by (apply Z.div_pos; [lia | reflexivity]).
  pose proof (fm_in _ _ _ _ Hm' fbn ltac:(lia)) as Hx. pose proof (wr_free _ Hw') as Hfree. cbn [with_disk freeblock] in Hfree.
  pose proof (wr_len _ Hw' (addr V a fbn)) as Hlen. cbn [with_disk image] in Hlen.
  pose proof (Z.div_mod off BSIZE ltac:(discriminate)) as Hdm. fold fbn in Hdm. pose proof (Z.mod_pos_bound off BSIZE ltac:(reflexivity)) as Hmod.
  set (v := splice (V (addr V a fbn)) (off mod BSIZE) d).
  exists (dwrite V (addr V a fbn) v), a, fb. unfold META in *. split_and!; auto.
  - unfold ubind at 1. rewrite R. unfold ubind. rewrite rsect_ok by (try apply Hw'; lia). rewrite wsect_ok by (try apply Hw'; lia).
    cbn [with_disk image freeblock]. replace (off - fbn * BSIZE) with (off mod BSIZE) by lia. reflexivity.
  - pose proof Hw' as [W1 W2 W3 W4]. cbn [with_disk sectors freeblock image] in *. split; cbn [with_disk sectors freeblock image]; auto.
    + intros b Hb. rewrite dwrite_ne by lia. auto.
    + intros b. destruct (Z.eq_dec b (addr V a fbn)) as [-> | Hne]; [rewrite dwrite_eq; subst v; rewrite length_splice; lia | rewrite dwrite_ne by exact Hne; auto].
  - apply (write_fmap V fb a (fbn + 1) fbn v Hm'); lia.
  - apply (write_stores V fb a (fbn + 1)); auto. fold off fbn. lia.
  - eapply moved_trans; [exact Hmv |]. apply (write_moved V fb a (fbn + 1)); [exact Hm' | lia].
Qed.

Lemma blocks_mono n m : n <= m -> blocks n <= blocks m.
Proof. intros Hn. unfold blocks. apply Z.div_le_mono; [reflexivity | lia]. Qed.

Lemma cost_mono n m : n <= m -> cost n <= cost m.
Proof. unfold cost, NDIRECT. zb. Qed.

Lemma iappend_loop_ok fuel : forall p s din data, let off := Z.of_nat (length data) in let n := Z.of_nat (length p) in
  (length p <= fuel)%nat -> writing s -> fmap (image s) (freeblock s) (d_addrs din) (blocks off) -> stores (image s) (d_addrs din) data ->
  off + n <= MAXFILE * BSIZE -> freeblock s + cost (blocks (off + n)) - cost (blocks off) <= FSSIZE ->
  exists V a fb, fb = freeblock s + cost (blocks (off + n)) - cost (blocks off) /\
  iappend_loop fuel p off din s = UOk (off + n, with_addrs a din) (with_disk V fb s) /\
  writing (with_disk V fb s) /\ fmap V fb a (blocks (off + n)) /\ stores V a (data ++ p) /\ moved (image s) (freeblock s) (d_addrs din) V fb a.
Proof.
  induction fuel as [|fuel IH]; intros p s din data off n Hfuel Hw Hm Hs Hmax Hfit.
  1: destruct p; [| cbn in Hfuel; lia]. 2: destruct (decide (p = [])) as [-> | Hne].
  1, 2: exists (image s), (d_addrs din), (freeblock s); cbn [length] in n; rewrite with_addrs_same, app_nil_r; replace (with_disk (image s) (freeblock s) s) with s by (now destruct s);
    replace (off + n) with off by (subst n; lia); split_and!; auto using moved_refl; lia.
  cbn [iappend_loop]. fold n. assert (Hn : 0 < n) by (subst n; destruct p; [done | cbn; lia]).
  rewrite (proj2 (Z.ltb_lt 0 n) Hn). cbn [negb]. set (fbn := off / BSIZE). set (n1 := Z.min n ((fbn + 1) * BSIZE - off)).
  pose proof (Z.div_mod off BSIZE ltac:(discriminate)) as Hdm. fold fbn in Hdm. pose proof (Z.mod_pos_bound off BSIZE ltac:(reflexivity)) as Hmod.
  assert (Hfbn : 0 <= fbn < MAXFILE) by (apply block_range; lia). rewrite (proj2 (Z.ltb_lt fbn MAXFILE)) by lia. change MAXFILE with 268 in *. unfold BSIZE in *.
  assert (Hd : Z.of_nat (length (take (Z.to_nat n1) p)) = n1) by (rewrite length_take; lia).
  assert (Hb1 : blocks (off + n1) = fbn + 1) by (apply blocks_within; unfold BSIZE; lia).
  assert (Hle : cost (fbn + 1) <= cost (blocks (off + n))) by (rewrite <- Hb1; apply cost_mono, blocks_mono; lia).
  destruct (append_step s din data (take (Z.to_nat n1) p) (fun din => iappend_loop fuel (drop (Z.to_nat n1) p) (u32 (off + n1)) din) Hw Hm Hs)
    as (V & a & fb & Hfb & R & Hw' & Hm' & Hs' & Hmv); rewrite ?Hd; unfold BSIZE; change MAXFILE with 268; fold off; fold fbn; try lia.
  unfold BSIZE in Hfb, R, Hm'. fold off fbn in Hfb, R, Hm'. unfold ubind at 1. cbn [assert_ uret]. rewrite R.
  destruct (IH (drop (Z.to_nat n1) p) (with_disk V fb s) (with_addrs a din) (data ++ take (Z.to_nat n1) p)) as (V2 & a2 & fb2 & Hfb2 & R2 & Hw2 & Hm2 & Hs2 & Hmv2);
    cbn [with_disk with_addrs d_addrs image freeblock] in *; rewrite ?length_app, ?length_drop, ?Nat2Z.inj_add, ?Hd in *; auto.
  { lia. }
  { fold off. now rewrite Hb1. }
  { fold off. lia. }
  { fold off. replace (off + n1 + Z.of_nat (length p - Z.to_nat n1)) with (off + n) by lia. rewrite Hb1. lia. }
  fold off in Hfb2, R2, Hm2. replace (off + n1 + Z.of_nat (length p - Z.to_nat n1)) with (off + n) in * by lia.
  rewrite <- app_assoc, take_drop in Hs2. exists V2, a2, fb2. rewrite Hb1 in Hfb2. split_and!; auto; [lia | | now apply (moved_trans _ _ _ V fb a)].
  rewrite u32_small by lia. exact R2.
Qed.

(** ** Inodes *)

(** The superblock of the image. *)
Definition SB : superblock := Superblock FSMAGIC FSSIZE 1954 NINODES LOGSIZE 2 32 45.

Abbreviation disk_ino V inum := (disk_inode SB V inum).
Definition put_ino (V : disk_t) (inum : Z) (d : dinode) : disk_t :=
  dwrite V (IBLOCK inum SB) (put_dinode (V (IBLOCK inum SB)) (slot inum) d).

Lemma iblock_at inum : 0 <= inum < 208 -> IBLOCK inum SB = inum / IPB + 32 /\ 32 <= IBLOCK inum SB < 45.
Proof.
  intros Hi. unfold IBLOCK. cbn [SB sb_inodestart]. change IPB with 16. pose proof (Z.div_pos inum 16 ltac:(lia) ltac:(lia)).
  pose proof (Z.div_lt_upper_bound inum 16 13 ltac:(lia) ltac:(lia)). rewrite u32_small by lia. lia.
Qed.

Lemma put_ino_out V inum d b : 0 <= inum < 208 -> b < 32 \/ 45 <= b -> put_ino V inum d b = V b.
Proof. intros Hi Hb. pose proof (iblock_at inum Hi). apply dwrite_ne. lia. Qed.

Lemma put_ino_len V inum d b : Z.of_nat (length (V b)) = BSIZE -> Z.of_nat (length (put_ino V inum d b)) = BSIZE.
Proof.
  intros Hl. unfold put_ino. destruct (Z.eq_dec b (IBLOCK inum SB)) as [-> | Hne]; [rewrite dwrite_eq, length_put_dinode | rewrite dwrite_ne by exact Hne]; exact Hl.
Qed.

Lemma put_ino_eq V inum d : Z.of_nat (length (V (IBLOCK inum SB))) = BSIZE -> dinode_wf d -> disk_ino (put_ino V inum d) inum = d.
Proof.
  intros Hl Hd. unfold disk_inode, put_ino. rewrite dwrite_eq. pose proof (slot_range inum). apply get_put_dinode; [exact Hd | lia | rewrite Hl; lia].
Qed.

Lemma put_ino_ne V inum d inum' : length (d_addrs d) = 13%nat -> 0 <= inum < 208 -> 0 <= inum' < 208 -> inum' <> inum -> disk_ino (put_ino V inum d) inum' = disk_ino V inum'.
Proof.
  intros Hd Hi Hi' Hne. unfold disk_inode, put_ino. destruct (Z.eq_dec (IBLOCK inum' SB) (IBLOCK inum SB)) as [E | E]; [| now rewrite dwrite_ne by exact E].
  rewrite E, dwrite_eq. destruct (iblock_at inum Hi) as [E1 _], (iblock_at inum' Hi') as [E2 _]. pose proof (slot_range inum). pose proof (slot_range inum').
  apply get_put_dinode_ne; [exact Hd | lia | lia |]. unfold slot, DINODE in *. change IPB with 16 in *.
  pose proof (Z.div_mod inum 16 ltac:(lia)). pose proof (Z.div_mod inum' 16 ltac:(lia)). lia.
Qed.

Lemma winode_ok s inum d : sectors s = FSSIZE -> mk_sb s = SB -> 0 <= inum < 208 -> winode inum d s = UOk tt (with_disk (put_ino (image s) inum d) (freeblock s) s).
Proof.
  intros Hs Hsb Hi. pose proof (iblock_at inum Hi). unfold winode, ubind, get_sb. rewrite Hsb. rewrite rsect_ok by (auto; unfold FSSIZE; lia).
  rewrite wsect_ok by (auto; unfold FSSIZE; lia). reflexivity.
Qed.

Lemma rinode_ok s inum : sectors s = FSSIZE -> mk_sb s = SB -> 0 <= inum < 208 -> rinode inum s = UOk (disk_ino (image s) inum) s.
Proof.
  intros Hs Hsb Hi. pose proof (iblock_at inum Hi). unfold rinode, ubind, get_sb. rewrite Hsb. rewrite rsect_ok by (auto; unfold FSSIZE; lia). reflexivity.
Qed.

(** ** The file system as it is built *)

(** The files so far, with type and contents; file [j] has inode [j + 1]. *)
Abbreviation files := (list (Z * list Z)).
Definition size_of (f : Z * list Z) : Z := Z.of_nat (length f.2).
Definition total (L : files) : Z := foldr (fun f n => cost (blocks (size_of f)) + n) 0 L.
Definition ino (j : nat) : Z := 1 + Z.of_nat j.

Record file_on (V : disk_t) (fb : Z) (d : dinode) (f : Z * list Z) : Prop := {
  fi_kind : f.1 = T_DIR \/ f.1 = T_FILE;
  fi_type : d_type d = f.1;
  fi_major : d_major d = 0;
  fi_minor : d_minor d = 0;
  fi_nlink : d_nlink d = 1;
  fi_size : d_size d = size_of f;
  fi_max : size_of f <= MAXFILE * BSIZE;
  fi_map : fmap V fb (d_addrs d) (blocks (size_of f));
  fi_data : stores V (d_addrs d) f.2 }.

Abbreviation owned V inum b := (owns V (mapped (d_addrs (disk_ino V inum))) b).

Record made (s : mkfs) (L : files) : Prop := {
  ma_writing : writing s;
  ma_sb : mk_sb s = SB;
  ma_inodes : freeinode s = ino (length L) /\ (length L < 200)%nat;
  ma_blocks : freeblock s = META + total L;
  ma_files : forall j f, L !! j = Some f -> file_on (image s) (freeblock s) (disk_ino (image s) (ino j)) f;
  ma_apart : forall j k b, (j < length L)%nat -> (k < length L)%nat -> j <> k -> owned (image s) (ino j) b -> ~ owned (image s) (ino k) b;
  ma_unused : forall i, ino (length L) <= i < 208 -> disk_ino (image s) i = zero_dinode;
  ma_meta : forall b, 0 <= b < 32 \/ b = 45 -> image s b = if b =? 1 then sb_block SB else zeroes }.

Lemma total_insert L j f f' : L !! j = Some f -> total (<[j := f']> L) = total L + cost (blocks (size_of f')) - cost (blocks (size_of f)).
Proof.
  revert j. induction L as [|g L IH]; intros [|j] Hj; try discriminate.
  - injection Hj as ->. cbn. lia.
  - change (total (<[S j := f']> (g :: L))) with (cost (blocks (size_of g)) + total (<[j := f']> L)). rewrite (IH j Hj). cbn. unfold total. lia.
Qed.

Lemma owns_range V fb a nb b : fmap V fb a nb -> owns V (mapped a) b -> META <= b < fb.
Proof.
  intros Hm Ho. apply (owns_fmap _ _ _ _ _ Hm) in Ho as [[Hn ->] | (bn & Hb & <-)]; [| now apply (fm_in _ _ _ _ Hm)].
  pose proof (fm_ind _ _ _ _ Hm) as Hi. now rewrite (proj2 (Z.ltb_lt _ _) Hn) in Hi.
Qed.

Lemma fmap_elem V fb a nb z : fmap V fb a nb -> z ∈ a -> z = 0 \/ META <= z < fb.
Proof.
  intros Hm (k & Hk)%list_elem_of_lookup. assert (Hz : nthZ 0 a (Z.of_nat k) = z) by (unfold nthZ; rewrite Nat2Z.id; now apply nth_lookup_Some).
  pose proof (lookup_lt_Some _ _ _ Hk) as Hlt. rewrite (fm_len _ _ _ _ Hm) in Hlt. pose proof (fm_nb _ _ _ _ Hm). destruct (Z.ltb_spec (Z.of_nat k) NDIRECT) as [Hd | Hd].
  - rewrite <- (addr_direct V) in Hz by exact Hd. destruct (Z.ltb_spec (Z.of_nat k) nb); [right; rewrite <- Hz; apply (fm_in _ _ _ _ Hm); lia |].
    left. rewrite <- Hz. apply (fm_out _ _ _ _ Hm). change MAXFILE with 268. unfold NDIRECT in *. lia.
  - replace (Z.of_nat k) with NDIRECT in Hz by (unfold NDIRECT in *; lia). pose proof (fm_ind _ _ _ _ Hm) as Hi. unfold ind_addr in Hi. cbn [i_addrs mapped] in Hi. rewrite Hz in Hi.
    destruct (NDIRECT <? nb); auto.
Qed.

Lemma file_wf V fb d f : file_on V fb d f -> fb <= FSSIZE -> dinode_wf d.
Proof.
  intros Hf Hfb. destruct Hf as [F0 F1 F2 F3 F4 F5 F6 F7 F8]. unfold FSSIZE, T_DIR, T_FILE in *. split.
  - rewrite F1, F2, F3, F4. intros z Hz. rewrite !elem_of_cons, elem_of_nil in Hz. lia.
  - rewrite F5. change (MAXFILE * BSIZE) with 274432 in F6. unfold size_of in *. lia.
  - apply F7.
  - intros z Hz. destruct (fmap_elem _ _ _ _ z F7 Hz); unfold META in *; lia.
Qed.

Lemma file_on_frame V V' fb fb' d f : file_on V fb d f -> (forall b, owns V (mapped (d_addrs d)) b -> V' b = V b) -> fb <= fb' -> file_on V' fb' d f.
Proof. intros [] Hfr Hle. split; auto; [now apply (fmap_frame V V' fb) | now apply (stores_frame V)]. Qed.

(** The rest of the file system when a file is changed and its inode written. *)
Lemma made_update s L j f V fb d f' : made s L -> L !! j = Some f ->
  moved (image s) (freeblock s) (d_addrs (disk_ino (image s) (ino j))) V fb (d_addrs d) -> writing (with_disk V fb s) ->
  file_on V fb d f' -> fb = META + total (<[j := f']> L) -> made (with_disk (put_ino V (ino j) d) fb s) (<[j := f']> L).
Proof.
  intros Hma Hj Hmv Hw Hf Hfb. pose proof (lookup_lt_Some _ _ _ Hj) as Hjl. destruct (ma_inodes _ _ Hma) as [_ Hmax].
  pose proof (wr_free _ (ma_writing _ _ Hma)) as Hfree. pose proof (wr_free _ Hw) as Hfree'. cbn [with_disk freeblock] in Hfree'. unfold ino in *.
  pose proof (file_wf _ _ _ _ Hf ltac:(lia)) as Hwf. pose proof (wr_len _ Hw) as Hlen. cbn [with_disk image] in Hlen.
  assert (Hold : forall k b, (k < length L)%nat -> owned (image s) (1 + Z.of_nat k) b -> META <= b < freeblock s).
  { intros k b Hk. destruct (lookup_lt_is_Some_2 L k Hk) as [g Hg]. apply (owns_range _ _ _ _ _ (fi_map _ _ _ _ (ma_files _ _ Hma k g Hg))). }
  assert (Hmeta : forall b, b < META -> V b = image s b).
  { intros b Hb. apply (mv_frame _ _ _ _ _ _ Hmv); [| lia]. intros Ho. apply (Hold j) in Ho; [lia | exact Hjl]. }
  assert (Hsame : forall k, 0 <= k < 208 -> k <> 1 + Z.of_nat j -> disk_ino (put_ino V (1 + Z.of_nat j) d) k = disk_ino (image s) k).
  { intros k Hk Hne. rewrite put_ino_ne by (try apply Hwf; lia). unfold disk_inode. rewrite Hmeta; [reflexivity |]. pose proof (iblock_at k Hk). unfold META. lia. }
  assert (Hput : forall b, META <= b -> put_ino V (1 + Z.of_nat j) d b = V b) by (intros b Hb; apply put_ino_out; unfold META in *; lia).
  assert (Hk : forall k b, (k < length L)%nat -> k <> j -> owned (image s) (1 + Z.of_nat k) b -> put_ino V (1 + Z.of_nat j) d b = image s b).
  { intros k b Hk Hne Ho. pose proof (Hold k b Hk Ho). rewrite Hput by lia. apply (mv_frame _ _ _ _ _ _ Hmv); [| lia]. exact (ma_apart _ _ Hma k j b Hk Hjl Hne Ho). }
  assert (Ej : disk_ino (put_ino V (1 + Z.of_nat j) d) (1 + Z.of_nat j) = d) by (apply put_ino_eq; auto).
  assert (Hoj : forall b, owns (put_ino V (1 + Z.of_nat j) d) (mapped (d_addrs d)) b <-> owns V (mapped (d_addrs d)) b).
  { intros b. apply owns_frame. intros c Hc. apply Hput. apply (owns_range _ _ _ _ _ (fi_map _ _ _ _ Hf) Hc). }
  assert (Hok : forall k b, (k < length L)%nat -> k <> j -> owned (put_ino V (1 + Z.of_nat j) d) (1 + Z.of_nat k) b <-> owned (image s) (1 + Z.of_nat k) b).
  { intros k b Hkl Hne. rewrite Hsame by lia. apply owns_frame. intros c Hc. now apply (Hk k). }
  split; cbn [with_disk image freeblock freeinode mk_sb]; rewrite ?length_insert; try apply Hma; auto.
  - destruct Hw as [W1 W2 W3 W4]. cbn [with_disk image freeblock sectors] in *. split; cbn [with_disk image freeblock sectors]; auto.
    + intros b Hb. rewrite Hput by lia. auto.
    + intros b. apply put_ino_len. auto.
  - intros k g Hg. unfold ino. destruct (decide (k = j)) as [-> | Hne].
    + rewrite list_lookup_insert_eq in Hg by exact Hjl. injection Hg as <-. rewrite Ej. apply (file_on_frame V _ fb); auto; [| lia].
      intros b Hb. apply Hput. apply (owns_range _ _ _ _ _ (fi_map _ _ _ _ Hf) Hb).
    + rewrite list_lookup_insert_ne in Hg by auto. pose proof (lookup_lt_Some _ _ _ Hg) as Hkl. rewrite Hsame by lia.
      apply (file_on_frame (image s) _ (freeblock s)); [exact (ma_files _ _ Hma k g Hg) | | apply (mv_le _ _ _ _ _ _ Hmv)]. intros b Hb. now apply (Hk k).
  - unfold ino. assert (Hjk : forall k b, (k < length L)%nat -> k <> j -> owned (image s) (1 + Z.of_nat k) b -> ~ owns V (mapped (d_addrs d)) b).
    { intros k b Hkl Hne Ho Hv. pose proof (Hold k b Hkl Ho). destruct (mv_owns _ _ _ _ _ _ Hmv b Hv) as [Hv' | ?]; [| lia].
      exact (ma_apart _ _ Hma j k b Hjl Hkl ltac:(auto) Hv' Ho). }
    intros k1 k2 b H1 H2 Hne. destruct (decide (k1 = j)) as [-> | N1]; [rewrite Ej, Hoj, (Hok k2) by auto; intros Hv Ho; now apply (Hjk k2 b) |].
    destruct (decide (k2 = j)) as [-> | N2]; [rewrite Ej, Hoj, (Hok k1) by auto; apply Hjk; auto |]. rewrite !Hok by auto. now apply (ma_apart _ _ Hma).
  - intros i Hi. unfold ino in Hi. rewrite Hsame by lia. apply (ma_unused _ _ Hma). unfold ino. lia.
  - intros b Hb. rewrite put_ino_out by lia. rewrite Hmeta by (unfold META; lia). now apply (ma_meta _ _ Hma).
Qed.

(** [iappend] adds bytes to a file. *)
Lemma iappend_ok s L j t data p : let f' := (t, data ++ p) in made s L -> L !! j = Some (t, data) -> size_of f' <= MAXFILE * BSIZE ->
  META + total (<[j := f']> L) <= FSSIZE -> exists s', iappend (ino j) p s = UOk tt s' /\ made s' (<[j := f']> L).
Proof.
  intros f' Hma Hj Hmax Hfit. pose proof (lookup_lt_Some _ _ _ Hj) as Hjl. destruct (ma_inodes _ _ Hma) as [_ Hn].
  pose proof (ma_files _ _ Hma j _ Hj) as Hf. pose proof (total_insert L j (t, data) f' Hj) as Ht. pose proof (ma_blocks _ _ Hma) as Hb.
  set (d := disk_ino (image s) (ino j)) in *. pose proof (wr_sectors _ (ma_writing _ _ Hma)) as Hsec.
  assert (Hsz : size_of f' = size_of (t, data) + Z.of_nat (length p)) by (unfold size_of, f'; cbn [snd]; rewrite length_app; lia).
  change (MAXFILE * BSIZE) with 274432 in Hmax.
  destruct (iappend_loop_ok (length p) p s d data ltac:(lia) (ma_writing _ _ Hma) (fi_map _ _ _ _ Hf) (fi_data _ _ _ _ Hf)) as (V & a & fb & Hfb & R & Hw & Hm & Hs & Hmv);
    change (Z.of_nat (length data)) with (size_of (t, data)) in *; rewrite <- ?Hsz in *; [exact Hmax | lia |].
  assert (Hu : xint (d_size d) = size_of (t, data)) by (rewrite (fi_size _ _ _ _ Hf); apply xint_id; unfold size_of in *; lia).
  eexists. split.
  - unfold iappend. unfold ubind at 1. rewrite rinode_ok by (try apply Hma; auto; unfold ino; lia). fold d. rewrite Hu. unfold ubind at 1. rewrite R.
    rewrite winode_ok by (cbn [with_disk sectors mk_sb]; try apply Hma; auto; unfold ino; lia). reflexivity.
  - cbn [with_disk image freeblock sectors mk_sb freeinode]. apply (made_update s L j (t, data) V fb _ f'); auto; [| lia]. rewrite xint_id by (unfold size_of in *; lia).
    destruct Hf as [F0 F1 F2 F3 F4 F5 F6 F7 F8]. split; cbn [set_size with_addrs d_type d_major d_minor d_nlink d_size d_addrs]; auto.
Qed.

Lemma zeros13_map V fb : fmap V fb (repeat 0 13) 0.
Proof.
  assert (Ha : forall bn, 0 <= bn < MAXFILE -> addr V (repeat 0 13) bn = 0).
  { intros bn Hb. unfold file_addr. cbn [mapped i_addrs ind_addr]. change (ind (repeat 0 13)) with 0. cbn [Z.eqb]. destruct (bn <? NDIRECT); [| reflexivity].
    unfold nthZ. apply nth_repeat. }
  split; try (intros; lia); auto; [change MAXFILE with 268; lia | reflexivity].
Qed.

Lemma zeros13_stores V : stores V (repeat 0 13) [].
Proof.
  intros k Hk. unfold content, file_block. rewrite (fm_out _ _ _ _ (zeros13_map V 0)) by (split; apply block_range in Hk; lia). cbn [Z.eqb].
  rewrite nthZ_zeroes. unfold nthZ. now destruct (Z.to_nat k).
Qed.

Lemma total_app L1 L2 : total (L1 ++ L2) = total L1 + total L2.
Proof. induction L1 as [|f L1 IH]; [reflexivity |]. change (total ((f :: L1) ++ L2)) with (cost (blocks (size_of f)) + total (L1 ++ L2)). rewrite IH. cbn. unfold total. lia. Qed.

(** [ialloc] adds an empty file. *)
Lemma ialloc_ok s L t : made s L -> (length L < 199)%nat -> t = T_DIR \/ t = T_FILE ->
  exists s', ialloc t s = UOk (ino (length L)) s' /\ made s' (L ++ [(t, [])]).
Proof.
  intros Hma Hl Ht. destruct (ma_inodes _ _ Hma) as [Hi _]. pose proof (wr_free _ (ma_writing _ _ Hma)) as Hfree.
  set (d := Dinode t 0 0 1 0 (repeat 0 13)). set (V := put_ino (image s) (ino (length L)) d).
  assert (Hf : file_on V (freeblock s) d (t, [])).
  { split; auto; [unfold size_of; cbn [snd length]; change (MAXFILE * BSIZE) with 274432; lia | apply zeros13_map | apply zeros13_stores]. }
  pose proof (file_wf _ _ _ _ Hf ltac:(lia)) as Hwf.
  assert (Hn : 0 <= ino (length L) < 208) by (unfold ino; lia).
  exists (Mk V (sectors s) (mk_sb s) (ino (S (length L))) (freeblock s)). split.
  - unfold ialloc, ubind, next_inode. rewrite Hi, u32_small by (unfold ino; lia). rewrite winode_ok by (cbn [sectors mk_sb]; try apply Hma; lia).
    replace (ino (length L) + 1) with (ino (S (length L))) by (unfold ino; lia). cbn [with_disk image sectors mk_sb freeinode freeblock].
    replace (i16 (xshort t)) with t by (destruct Ht as [-> | ->]; reflexivity). reflexivity.
  - assert (Hput : forall b, META <= b -> V b = image s b) by (intros b Hb; apply put_ino_out; unfold META in *; lia).
    assert (Hown : forall k b, (k < length L)%nat -> owned (image s) (ino k) b -> META <= b).
    { intros k b Hk. destruct (lookup_lt_is_Some_2 L k Hk) as [g Hg]. apply (owns_range _ _ _ _ _ (fi_map _ _ _ _ (ma_files _ _ Hma k g Hg))). }
    assert (Hsame : forall k, 0 <= k < 208 -> k <> ino (length L) -> disk_ino V k = disk_ino (image s) k) by (intros k Hk Hne; apply put_ino_ne; auto).
    assert (Ed : disk_ino V (ino (length L)) = d) by (apply put_ino_eq; [apply (ma_writing _ _ Hma) | exact Hwf]).
    assert (Hok : forall k b, (k < length L)%nat -> owned V (ino k) b <-> owned (image s) (ino k) b).
    { intros k b Hk. rewrite Hsame by (unfold ino; lia). apply owns_frame. intros c Hc. apply Hput, (Hown k c Hk Hc). }
    assert (Hno : forall b, ~ owns V (mapped (repeat 0 13)) b).
    { intros b Ho. apply (owns_range _ _ _ _ _ (zeros13_map V 0)) in Ho. unfold META in Ho. lia. }
    split; cbn [image freeblock freeinode mk_sb]; rewrite ?length_app; cbn [length]; try apply Hma.
    + destruct (ma_writing _ _ Hma) as [W1 W2 W3 W4]. split; cbn [image freeblock sectors]; auto; [intros b Hb; rewrite Hput by lia; auto | intros b; now apply put_ino_len].
    + split; [unfold ino |]; lia.
    + rewrite total_app. change (total [(t, [])]) with 0. rewrite (ma_blocks _ _ Hma). lia.
    + intros k g Hg. apply lookup_app_Some in Hg as [Hg | [Hge Hg]].
      * pose proof (lookup_lt_Some _ _ _ Hg) as Hk. rewrite Hsame by (unfold ino; lia). apply (file_on_frame (image s) _ (freeblock s)); [exact (ma_files _ _ Hma k g Hg) | | lia].
        intros b Hb. apply Hput, (Hown k b Hk Hb).
      * destruct (k - length L)%nat as [|?] eqn:Ek; [| destruct n; discriminate]. injection Hg as <-. replace k with (length L) by lia. rewrite Ed. exact Hf.
    + intros k1 k2 b H1 H2 Hne. destruct (decide (k1 = length L)) as [-> | N1]; [rewrite Ed; intros Ho; exfalso; exact (Hno b Ho) |].
      destruct (decide (k2 = length L)) as [-> | N2]; [rewrite Ed; intros _; exact (Hno b) |]. rewrite !Hok by lia. apply (ma_apart _ _ Hma); lia.
    + intros i Hr. rewrite Hsame by (unfold ino in *; lia). apply (ma_unused _ _ Hma). unfold ino in *. lia.
    + intros b Hb. rewrite <- (ma_meta _ _ Hma b Hb). apply put_ino_out; lia.
Qed.

Lemma total_larger L j t data p : L !! j = Some (t, data) -> total L <= total (<[j := (t, data ++ p)]> L).
Proof.
  intros Hj. rewrite (total_insert L j _ _ Hj). assert (Hs : size_of (t, data) <= size_of (t, data ++ p)) by (unfold size_of; cbn [snd]; rewrite length_app; lia).
  pose proof (cost_mono _ _ (blocks_mono _ _ Hs)). lia.
Qed.

Lemma iappend_all_ok chunks : forall s L j t data, let f' := (t, data ++ concat chunks) in made s L -> L !! j = Some (t, data) -> size_of f' <= MAXFILE * BSIZE ->
  META + total (<[j := f']> L) <= FSSIZE -> exists s', iappend_all (ino j) chunks s = UOk tt s' /\ made s' (<[j := f']> L).
Proof.
  induction chunks as [|c chunks IH]; intros s L j t data f' Hma Hj Hmax Hfit; cbn [iappend_all concat] in *.
  - exists s. split; [reflexivity |]. subst f'. rewrite app_nil_r, list_insert_id; auto.
  - pose proof (lookup_lt_Some _ _ _ Hj) as Hl. subst f'. rewrite app_assoc in *.
    assert (Hj' : <[j := (t, data ++ c)]> L !! j = Some (t, data ++ c)) by now apply list_lookup_insert_eq.
    pose proof (total_larger _ _ _ _ (concat chunks) Hj') as Hle. rewrite list_insert_insert_eq in Hle.
    destruct (iappend_ok s L j t data c Hma Hj) as (s1 & R1 & M1); [unfold size_of in *; cbn [snd] in *; rewrite length_app in Hmax; lia | lia |].
    destruct (IH s1 _ j t (data ++ c) M1 Hj' Hmax) as (s2 & R2 & M2); [now rewrite list_insert_insert_eq |].
    exists s2. unfold ubind. rewrite R1. split; [exact R2 |]. now rewrite list_insert_insert_eq in M2.
Qed.

(** An argument that mkfs accepts, and what it makes of it. *)
Definition short_name (arg : list Z) : list Z := after_underscore (after_user arg).
Definition host_file (arg : list Z) : list Z := match host_open arg with Some chunks => concat chunks | None => [] end.
Definition accepted (arg : list Z) : Prop :=
  strchr (after_user arg) SLASH = None /\ host_open arg <> None /\ strlen (short_name arg) <= DIRSIZ /\ Z.of_nat (length (host_file arg)) <= MAXFILE * BSIZE.

Fixpoint dir_entries (k : nat) (args : list (list Z)) : list Z :=
  match args with
  | [] => []
  | arg :: args' => dirent (ino k) (short_name arg) ++ dir_entries (S k) args'
  end.

(** The files of the image: the root directory, and the files of the host. *)
Definition root_data (args : list (list Z)) : list Z :=
  dirent ROOTINO (bytes_of ".") ++ dirent ROOTINO (bytes_of "..") ++ dir_entries 1 args.
Definition tree (args : list (list Z)) : files := (T_DIR, root_data args) :: map (fun arg => (T_FILE, host_file arg)) args.

Lemma length_strncpy n : forall t, length (strncpy_list n t) = n.
Proof. induction n as [|n IH]; intros t; [reflexivity |]. cbn [strncpy_list]. destruct t as [|c t]; [apply repeat_length |]. destruct (c =? 0); [apply repeat_length | cbn; now rewrite IH]. Qed.

Lemma length_dirent i name : length (dirent i name) = 16%nat.
Proof. unfold dirent, put16. rewrite length_app, length_put, length_strncpy. reflexivity. Qed.

Lemma length_entries args : forall k, length (dir_entries k args) = (16 * length args)%nat.
Proof. induction args as [|arg args IH]; intros k; [reflexivity |]. cbn [dir_entries length]. rewrite length_app, length_dirent, IH. lia. Qed.

Lemma add_file_ok s root L arg : let L' := (T_DIR, root ++ dirent (ino (S (length L))) (short_name arg)) :: L ++ [(T_FILE, host_file arg)] in
  made s ((T_DIR, root) :: L) -> accepted arg -> (length L < 198)%nat -> size_of (T_DIR, root ++ dirent (ino (S (length L))) (short_name arg)) <= MAXFILE * BSIZE ->
  META + total L' <= FSSIZE -> exists s', add_file ROOTINO arg s = UOk tt s' /\ made s' L'.
Proof.
  intros L' Hma (H1 & H2 & H3 & H4) Hl Hr Hfit. unfold add_file. rewrite H1. unfold host_file in *. destruct (host_open arg) as [chunks|]; [| done].
  destruct (ialloc_ok s _ T_FILE Hma) as (s1 & R1 & M1); [cbn; lia | auto |]. cbn [app] in M1.
  set (root' := root ++ dirent (ino (S (length L))) (short_name arg)) in *. set (L1 := (T_DIR, root) :: L ++ [(T_FILE, [])]) in *.
  set (L2 := (T_DIR, root') :: L ++ [(T_FILE, [])]). assert (E2 : L2 = <[0%nat := (T_DIR, root')]> L1) by reflexivity.
  assert (Hj : L2 !! S (length L) = Some (T_FILE, [])) by (change ((L ++ [(T_FILE, [])]) !! length L = Some (T_FILE, @nil Z)); rewrite lookup_app_r, Nat.sub_diag by lia; reflexivity).
  assert (E3 : L' = <[S (length L) := (T_FILE, [] ++ concat chunks)]> L2).
  { change ((T_DIR, root') :: L ++ [(T_FILE, concat chunks)] = (T_DIR, root') :: <[length L := (T_FILE, concat chunks)]> (L ++ [(T_FILE, [])])). f_equal.
    rewrite insert_app_r_alt by lia. now rewrite Nat.sub_diag. }
  pose proof (total_larger _ _ _ _ (concat chunks) Hj) as Hle. rewrite <- E3 in Hle.
  destruct (iappend_ok s1 L1 0 T_DIR root (dirent (ino (S (length L))) (short_name arg)) M1 eq_refl Hr) as (s2 & R2 & M2); [fold root'; rewrite <- E2; lia |].
  fold root' in M2. rewrite <- E2 in M2.
  destruct (iappend_all_ok chunks s2 L2 (S (length L)) T_FILE [] M2 Hj) as (s3 & R3 & M3); [exact H4 | now rewrite <- E3 |].
  exists s3. rewrite <- E3 in M3. split; [| exact M3]. unfold short_name in *. unfold assert_, ubind, uret. rewrite (proj2 (Z.leb_le _ _) H3). cbn [length] in R1. rewrite R1.
  change ROOTINO with (ino 0). rewrite R2. exact R3.
Qed.

Lemma cost_pos n : 0 <= n -> 0 <= cost n.
Proof. unfold cost. zb. Qed.

Lemma total_pos L : 0 <= total L.
Proof.
  induction L as [|f L IH]; [cbn; lia |]. change (total (f :: L)) with (cost (blocks (size_of f)) + total L).
  assert (0 <= cost (blocks (size_of f))); [| lia]. apply cost_pos. unfold blocks, size_of. apply Z.div_pos; [unfold BSIZE; lia | reflexivity].
Qed.

Lemma total_tail t data p L1 L2 : total ((t, data) :: L1) <= total ((t, data ++ p) :: L1 ++ L2).
Proof.
  change (total ((t, data) :: L1)) with (cost (blocks (size_of (t, data))) + total L1).
  change (total ((t, data ++ p) :: L1 ++ L2)) with (cost (blocks (size_of (t, data ++ p))) + total (L1 ++ L2)). rewrite total_app.
  assert (Hs : size_of (t, data) <= size_of (t, data ++ p)) by (unfold size_of; cbn [snd]; rewrite length_app; lia).
  pose proof (cost_mono _ _ (blocks_mono _ _ Hs)). pose proof (total_pos L2). lia.
Qed.

Lemma add_files_ok args : forall s root L, let L' := (T_DIR, root ++ dir_entries (S (length L)) args) :: L ++ map (fun arg => (T_FILE, host_file arg)) args in
  made s ((T_DIR, root) :: L) -> Forall accepted args -> (length L + length args < 199)%nat -> size_of (T_DIR, root ++ dir_entries (S (length L)) args) <= MAXFILE * BSIZE ->
  META + total L' <= FSSIZE -> exists s', add_files ROOTINO args s = UOk tt s' /\ made s' L'.
Proof.
  induction args as [|arg args IH]; intros s root L L' Hma Hac Hl Hr Hfit; subst L'; cbn [add_files dir_entries map] in *.
  - rewrite !app_nil_r in *. eauto.
  - apply Forall_cons in Hac as [Ha Hac]. set (de := dirent (ino (S (length L))) (short_name arg)) in *. set (f := (T_FILE, host_file arg)) in *.
    rewrite app_assoc in *. rewrite (cons_middle f L), (app_assoc L) in *.
    assert (Hlen : length (L ++ [f]) = S (length L)) by (rewrite length_app; cbn; lia). rewrite <- Hlen in *.
    assert (Hle : total ((T_DIR, root ++ de) :: L ++ [f]) <= total ((T_DIR, (root ++ de) ++ dir_entries (S (length (L ++ [f]))) args) :: (L ++ [f]) ++ map (fun arg => (T_FILE, host_file arg)) args)).
    { apply (total_tail T_DIR). }
    assert (Hsz : size_of (T_DIR, root ++ de) <= size_of (T_DIR, (root ++ de) ++ dir_entries (S (length (L ++ [f]))) args)) by (unfold size_of; cbn [snd]; rewrite (length_app (root ++ de)); lia).
    cbn [length] in Hl. destruct (add_file_ok s root L arg Hma Ha) as (s1 & R1 & M1); [lia | rewrite Hlen in *; fold de; lia | fold de f; lia |].
    destruct (IH s1 (root ++ de) (L ++ [f])) as (s2 & R2 & M2); auto; [rewrite Hlen; lia |].
    exists s2. unfold ubind. rewrite R1. auto.
Qed.

(** ** The whole program *)

Lemma zero_sectors_ok k : forall i s, image s = (fun _ => zeroes) -> 0 <= i -> i + Z.of_nat k <= FSSIZE ->
  zero_sectors k i s = UOk tt (Mk (fun _ => zeroes) (if (k =? 0)%nat then sectors s else Z.max (sectors s) (i + Z.of_nat k)) (mk_sb s) (freeinode s) (freeblock s)).
Proof.
  induction k as [|k IH]; intros i s Hi H0 Hk; cbn [zero_sectors].
  - destruct s. cbn in *. now subst.
  - unfold ubind, wsect. rewrite Hio by lia. rewrite IH; cbn [image sectors mk_sb freeinode freeblock]; [| | lia | lia].
    + do 2 f_equal. destruct k; cbn [Nat.eqb]; lia.
    + apply functional_extensionality. intros b. unfold dwrite. rewrite Hi. now destruct (b =? i).
Qed.

Lemma get_dinode_zeroes off : get_dinode zeroes off = zero_dinode.
Proof.
  unfold get_dinode, get_addrs. assert (E16 : forall o, get16 zeroes o = 0) by (intros o; unfold get16; cbn [get_le]; now rewrite !nthZ_zeroes).
  rewrite !E16, get32_zeroes. unfold zero_dinode. f_equal; try reflexivity.
  rewrite (map_ext _ (fun _ => 0)) by (intros; apply get32_zeroes). reflexivity.
Qed.

(** The image after the superblock is written. *)
Definition empty_fs : mkfs := Mk (dwrite (fun _ => zeroes) 1 (sb_block SB)) FSSIZE SB 1 META.

Lemma empty_made : made empty_fs [].
Proof.
  assert (Hl : forall b, Z.of_nat (length (dwrite (fun _ => zeroes) 1 (sb_block SB) b)) = BSIZE).
  { intros b. unfold dwrite. destruct (b =? 1); [| reflexivity]. unfold sb_block, put32. now rewrite !length_put. }
  split; cbn [empty_fs image sectors mk_sb freeinode freeblock length]; auto; try (intros; lia); try discriminate.
  - split; cbn [empty_fs image sectors freeblock]; auto; [unfold META, FSSIZE; lia |]. intros b Hb. apply dwrite_ne. unfold META in Hb. lia.
  - split; [reflexivity | lia].
  - intros i Hi. unfold disk_inode. pose proof (iblock_at i ltac:(unfold ino in Hi; lia)). rewrite dwrite_ne by lia. apply get_dinode_zeroes.
Qed.

Lemma mark_used_free k : forall i v b, 0 <= i -> 0 <= b -> i + Z.of_nat k <= BPB -> Z.of_nat (length v) = BSIZE ->
  bit_free (mark_used k i v) b = if (i <=? b) && (b <? i + Z.of_nat k) then false else bit_free v b.
Proof.
  induction k as [|k IH]; intros i v b Hi Hb Hk Hl; cbn [mark_used]; [zb |]. change (updZ v (i / 8) _) with (mark v i).
  rewrite IH by (unfold mark; rewrite ?length_updZ; lia). rewrite mark_free by (try lia; rewrite Hl; apply Z.div_lt_upper_bound; unfold BPB in *; lia).
  destruct (Z.eqb_spec b i) as [-> | Hne]; cbn [negb andb]; zb.
Qed.

Lemma start_ok {A} img (K : UM mkfs A) : host_create img = true ->
  (assert_ (BSIZE mod DINODE =? 0);;
   assert_ (BSIZE mod DIRENT =? 0);;
   (if host_create img then uret tt else die);;
   let nmeta := 2 + nlog + ninodeblocks + nbitmap in
   let nblocks := FSSIZE - nmeta in
   let sb := Superblock FSMAGIC (xint FSSIZE) (xint nblocks) (xint NINODES) (xint nlog) (xint 2) (xint (2 + nlog))
                        (xint (2 + nlog + ninodeblocks)) in
   set_mksb sb;;
   set_freeblock nmeta;;
   zero_sectors (Z.to_nat FSSIZE) 0;;
   wsect 1 (sb_block sb);;
   K) no_image = K empty_fs.
Proof.
  intros Himg. rewrite Himg. cbv zeta. set (sb := Superblock _ _ _ _ _ _ _ _). assert (Esb : sb = SB) by reflexivity. rewrite Esb. clear sb Esb.
  change (2 + nlog + ninodeblocks + nbitmap) with META. change (BSIZE mod DINODE =? 0) with true. change (BSIZE mod DIRENT =? 0) with true.
  unfold ubind, assert_, uret, set_mksb, set_freeblock. cbn [no_image image sectors mk_sb freeinode freeblock].
  rewrite zero_sectors_ok by (cbn [image]; try reflexivity; unfold FSSIZE; lia). cbn [image sectors mk_sb freeinode freeblock].
  rewrite wsect_ok by (cbn [sectors]; unfold FSSIZE; try reflexivity; lia). reflexivity.
Qed.

(** Everything up to the last two writes. *)
Lemma root_ok args : Forall accepted args -> (length args < 199)%nat -> META + total (tree args) <= FSSIZE -> exists s,
  (forall A (K : Z -> UM mkfs A),
   (rootino <- ialloc T_DIR;;
    assert_ (rootino =? ROOTINO);;
    iappend rootino (dirent rootino (bytes_of "."));;
    iappend rootino (dirent rootino (bytes_of ".."));;
    add_files rootino args;;
    K rootino) empty_fs = K ROOTINO s) /\ made s (tree args).
Proof.
  intros Hac Hl Hfit. set (d1 := dirent ROOTINO (bytes_of ".")). set (d2 := dirent ROOTINO (bytes_of "..")).
  assert (Hroot : size_of (T_DIR, root_data args) = 32 + 16 * Z.of_nat (length args)).
  { unfold size_of, root_data. cbn [snd]. rewrite !length_app, !length_dirent, length_entries. lia. }
  assert (Ht : tree args = (T_DIR, (d1 ++ d2) ++ dir_entries 1 args) :: [] ++ map (fun arg => (T_FILE, host_file arg)) args) by (unfold tree, root_data; now rewrite <- app_assoc).
  pose proof (total_tail T_DIR d1 d2 [] []) as Hle1. pose proof (total_tail T_DIR (d1 ++ d2) (dir_entries 1 args) [] (map (fun arg => (T_FILE, host_file arg)) args)) as Hle2.
  rewrite <- Ht in Hle2. cbn [app] in Hle1. change (MAXFILE * BSIZE) with 274432 in *.
  destruct (ialloc_ok empty_fs [] T_DIR empty_made) as (s1 & R1 & M1); [cbn; lia | auto |]. cbn [app] in M1.
  destruct (iappend_ok s1 _ 0 T_DIR [] d1 M1 eq_refl) as (s2 & R2 & M2); [change (size_of (T_DIR, [] ++ d1)) with 16; change (MAXFILE * BSIZE) with 274432; lia | cbn [insert list_insert app]; lia |].
  cbn [insert list_insert app] in M2.
  destruct (iappend_ok s2 _ 0 T_DIR d1 d2 M2 eq_refl) as (s3 & R3 & M3); [change (size_of (T_DIR, d1 ++ d2)) with 32; change (MAXFILE * BSIZE) with 274432; lia | cbn [insert list_insert app]; lia |].
  cbn [insert list_insert app] in M3.
  destruct (add_files_ok args s3 (d1 ++ d2) [] M3 Hac) as (s4 & R4 & M4); cbn [length].
  { lia. }
  { rewrite <- app_assoc. change (size_of (T_DIR, root_data args) <= MAXFILE * BSIZE). rewrite Hroot. change (MAXFILE * BSIZE) with 274432. lia. }
  { rewrite <- Ht. exact Hfit. }
  exists s4. rewrite Ht. split; [| exact M4]. intros A K. unfold ubind. rewrite R1. change (ino (length (@nil (Z * list Z)))) with ROOTINO in *. cbv beta iota.
  unfold assert_, uret. change (ROOTINO =? ROOTINO) with true. cbv beta iota. fold d1 d2. change (ino 0) with ROOTINO in R2, R3.
  rewrite R2, R3, R4. reflexivity.
Qed.

(** An inode as [ilock] loads it. *)
Definition loaded (inum : Z) (d : dinode) : inode :=
  Inode ROOTDEV inum 1 (SLock 0 0) 1 (d_type d) (d_major d) (d_minor d) (d_nlink d) (d_size d) (d_addrs d).

(** File [j] on the disk: its inode is well formed, its blocks are in use and are
    its own, and it holds the bytes.  The size of the root directory is rounded
    up to whole blocks, and the rest of its last block is zero. *)
Record image_file (V : disk_t) (j : nat) (f : Z * list Z) (d : dinode) : Prop := {
  if_type : d_type d = f.1;
  if_nlink : d_nlink d = 1;
  if_size : d_size d = if (j =? 0)%nat then (size_of f / BSIZE + 1) * BSIZE else size_of f;
  if_wf : dinode_wf d;
  if_ok : file_ok SB META V (loaded (ino j) d);
  if_bytes : forall k, 0 <= k < MAXFILE * BSIZE -> content V (loaded (ino j) d) k = nthZ 0 f.2 k;
  if_there : forall k, 0 <= k < size_of f -> file_addr V (loaded (ino j) d) (k / BSIZE) <> 0 }.

(** A disk with the files [L]. *)
Record image_of (V : disk_t) (L : files) : Prop := {
  im_len : forall b, Z.of_nat (length (V b)) = BSIZE;
  im_sb : V 1 = sb_block SB;
  im_log : hdr_n (V 2) = 0;
  im_free : forall b, 0 <= b < FSSIZE -> block_free SB V b = (META + total L <=? b);
  im_files : forall j f, L !! j = Some f -> image_file V j f (disk_ino V (ino j));
  im_apart : forall j k b, (j < length L)%nat -> (k < length L)%nat -> j <> k -> owned V (ino j) b -> ~ owned V (ino k) b;
  im_unused : forall i, ino (length L) <= i < NINODES -> d_type (disk_ino V i) = 0 }.

(** The disk when the size of the root is fixed and the free map written. *)
Definition final_disk (s : mkfs) : disk_t :=
  let d := disk_ino (image s) ROOTINO in
  dwrite (put_ino (image s) ROOTINO (set_size ((d_size d / BSIZE + 1) * BSIZE) d)) 45 (mark_used (Z.to_nat (freeblock s)) 0 zeroes).

Lemma free_final s b : 46 <= freeblock s <= FSSIZE -> 0 <= b < FSSIZE -> block_free SB (final_disk s) b = (freeblock s <=? b).
Proof.
  intros Hf Hb. unfold FSSIZE in *. unfold block_free. assert (Eb : BBLOCK b SB = 45).
  { unfold BBLOCK. cbn [SB sb_bmapstart]. change BPB with 8192. rewrite Z.div_small by lia. reflexivity. }
  rewrite Eb. unfold final_disk. rewrite dwrite_eq. change BPB with 8192. rewrite Z.mod_small by lia.
  rewrite mark_used_free by (try lia; try reflexivity; change BPB with 8192; lia). rewrite Z2Nat.id by lia.
  destruct (Z.leb_spec 0 b); [| lia]. destruct (Z.ltb_spec b (0 + freeblock s)), (Z.leb_spec (freeblock s) b); cbn [andb]; try lia; auto.
  rewrite bit_free_spec, nthZ_zeroes, Z.bits_0. reflexivity.
Qed.

Lemma length_mark_used k : forall i v, length (mark_used k i v) = length v.
Proof. induction k as [|k IH]; intros i v; cbn [mark_used]; [reflexivity |]. now rewrite IH, length_updZ. Qed.

(** The blocks of a file are as the kernel relies on. *)
Lemma fmap_ok V fb d nb inum : fmap V fb (d_addrs d) nb -> fb <= FSSIZE -> (forall b, META <= b < fb -> block_free SB V b = false) -> file_ok SB META V (loaded inum d).
Proof.
  intros Hm Hfb Hfree.
  assert (Hused : forall b, META <= b < fb -> data_used SB META V b) by (intros b Hb; split; [cbn; lia | auto]).
  assert (Hlt : forall bn, 0 <= bn < MAXFILE -> addr V (d_addrs d) bn <> 0 -> 0 <= bn < nb).
  { intros bn Hb Hne. destruct (Z.ltb_spec bn nb); [lia |]. rewrite (fm_out _ _ _ _ Hm) in Hne by lia. lia. }
  assert (Ea : forall bn, file_addr V (loaded inum d) bn = addr V (d_addrs d) bn) by reflexivity.
  assert (Ei : ind_addr (loaded inum d) = ind (d_addrs d)) by reflexivity.
  split; rewrite ?Ei; try (intros bn; rewrite Ea).
  - apply Hm.
  - reflexivity.
  - intros Hi. apply Hused. pose proof (fm_ind _ _ _ _ Hm) as H5. destruct (NDIRECT <? nb); [exact H5 | lia].
  - intros Hb Hne. apply Hused, (fm_in _ _ _ _ Hm). auto.
  - intros bn' Hb Hb' Hne E. rewrite Ea in E. apply (fm_inj _ _ _ _ Hm); auto. apply Hlt; [exact Hb' |]. now rewrite <- E.
  - intros Hb Hne. apply (fm_ne _ _ _ _ Hm). auto.
Qed.

Lemma final_file V fb j f d d' : file_on V fb d f -> fb <= FSSIZE -> (forall b, META <= b < fb -> block_free SB V b = false) ->
  d' = (if (j =? 0)%nat then set_size ((size_of f / BSIZE + 1) * BSIZE) d else d) -> image_file V j f d'.
Proof.
  intros Hf Hfb Hfree Hd'. pose proof (file_wf _ _ _ _ Hf Hfb) as [W1 W2 W3 W4]. destruct Hf as [F0 F1 F2 F3 F4 F5 F6 F7 F8].
  assert (Ea : d_addrs d' = d_addrs d) by (subst d'; now destruct (j =? 0)%nat).
  assert (Hs0 : 0 <= size_of f) by (unfold size_of; lia). change (MAXFILE * BSIZE) with 274432 in *.
  assert (Hsz : d_size d' = if (j =? 0)%nat then (size_of f / BSIZE + 1) * BSIZE else size_of f) by (subst d'; destruct (j =? 0)%nat; auto).
  assert (Hdiv : 0 <= (size_of f / BSIZE + 1) * BSIZE < 2 ^ 32).
  { pose proof (Z.div_pos (size_of f) BSIZE Hs0 ltac:(reflexivity)). pose proof (Z.div_le_mono (size_of f) 274432 BSIZE ltac:(reflexivity) F6) as Hle.
    change (274432 / BSIZE) with 268 in Hle. unfold BSIZE in *. lia. }
  assert (Hm : fmap V fb (d_addrs d') (blocks (size_of f))) by now rewrite Ea.
  split; auto; try (subst d'; destruct (j =? 0)%nat; assumption).
  - split; rewrite ?Ea; auto; [subst d'; destruct (j =? 0)%nat; assumption |]. rewrite Hsz. destruct (j =? 0)%nat; lia.
  - now apply (fmap_ok V fb d' _ _ Hm).
  - intros k Hk. change (file_addr V (loaded (ino j) d') (k / BSIZE)) with (addr V (d_addrs d') (k / BSIZE)).
    pose proof (fm_in _ _ _ _ Hm (k / BSIZE)) as Hin. unfold META in *.
    assert (Hkb : 0 <= k / BSIZE < blocks (size_of f)); [| specialize (Hin Hkb); lia]. split; [apply Z.div_pos; [lia | reflexivity] |].
    unfold blocks. apply Z.div_lt_upper_bound; [reflexivity |]. pose proof (Z.div_mod (size_of f + BSIZE - 1) BSIZE ltac:(discriminate)).
    pose proof (Z.mod_pos_bound (size_of f + BSIZE - 1) BSIZE ltac:(reflexivity)). lia.
Qed.

Lemma final_image s L : made s L -> L <> [] -> image_of (final_disk s) L.
Proof.
  intros Hma Hne. destruct L as [|f0 L]; [done |]. set (L' := f0 :: L) in *.
  pose proof (ma_files _ _ Hma 0 f0 eq_refl) as Hf0. change (ino 0) with ROOTINO in Hf0. set (d := disk_ino (image s) ROOTINO) in *.
  pose proof (ma_writing _ _ Hma) as Hw. pose proof (wr_free _ Hw) as Hfb. destruct (ma_inodes _ _ Hma) as [_ Hnum].
  set (d' := set_size ((size_of f0 / BSIZE + 1) * BSIZE) d).
  assert (Hfin : final_disk s = dwrite (put_ino (image s) ROOTINO d') 45 (mark_used (Z.to_nat (freeblock s)) 0 zeroes)) by (unfold final_disk; fold d; now rewrite (fi_size _ _ _ _ Hf0)).
  assert (Hout : forall b, b < 32 \/ META <= b -> final_disk s b = image s b).
  { intros b Hb. rewrite Hfin, dwrite_ne by (unfold META in *; lia). apply put_ino_out; unfold ROOTINO, META in *; lia. }
  assert (Hfree : forall b, META <= b < freeblock s -> block_free SB (final_disk s) b = false).
  { intros b Hb. rewrite free_final by (unfold META in *; lia). unfold FSSIZE in *. apply Z.leb_gt. lia. }
  pose proof (file_wf _ _ _ _ Hf0 ltac:(lia)) as Hwf.
  assert (Hsame : forall i, 0 <= i < 208 -> i <> ROOTINO -> disk_ino (final_disk s) i = disk_ino (image s) i).
  { intros i Hi Hni. pose proof (iblock_at i Hi). unfold disk_inode at 1. rewrite Hfin, dwrite_ne by lia. apply (put_ino_ne (image s) ROOTINO d' i); [apply Hwf | unfold ROOTINO; lia | exact Hi | exact Hni]. }
  assert (Hroot : disk_ino (final_disk s) ROOTINO = d').
  { unfold disk_inode at 1. pose proof (iblock_at ROOTINO ltac:(unfold ROOTINO; lia)). rewrite Hfin, dwrite_ne by lia. apply put_ino_eq; [apply Hw |].
    assert (Hon : file_on (final_disk s) (freeblock s) d f0) by (apply (file_on_frame (image s) _ (freeblock s)); auto; [| lia]; intros b Hb; apply Hout; right; apply (owns_range _ _ _ _ _ (fi_map _ _ _ _ Hf0) Hb)).
    apply (if_wf _ _ _ _ (final_file _ _ 0 f0 d d' Hon ltac:(lia) Hfree eq_refl)). }
  assert (Hon : forall j f, L' !! j = Some f -> (forall b, owned (image s) (ino j) b -> final_disk s b = image s b) /\
    d_addrs (disk_ino (final_disk s) (ino j)) = d_addrs (disk_ino (image s) (ino j))).
  { intros j f Hj. pose proof (ma_files _ _ Hma j f Hj) as Hf. pose proof (lookup_lt_Some _ _ _ Hj). split.
    - intros b Hb. apply Hout. right. apply (owns_range _ _ _ _ _ (fi_map _ _ _ _ Hf) Hb).
    - destruct (decide (j = 0%nat)) as [-> | Hj0]; [change (ino 0) with ROOTINO; now rewrite Hroot | rewrite Hsame by (unfold ino, ROOTINO; lia); reflexivity]. }
  split.
  - intros b. rewrite Hfin. destruct (Z.eq_dec b 45) as [-> | Hb]; [rewrite dwrite_eq | rewrite dwrite_ne by exact Hb; apply put_ino_len, Hw].
    now rewrite length_mark_used.
  - rewrite Hout by lia. rewrite (ma_meta _ _ Hma) by lia. reflexivity.
  - rewrite Hout by lia. rewrite (ma_meta _ _ Hma) by lia. reflexivity.
  - intros b Hb. rewrite free_final by (unfold META in *; lia). now rewrite (ma_blocks _ _ Hma).
  - intros j f Hj. pose proof (ma_files _ _ Hma j f Hj) as Hf. destruct (Hon j f Hj) as [Ho _]. pose proof (lookup_lt_Some _ _ _ Hj).
    apply (final_file _ (freeblock s) j f (disk_ino (image s) (ino j))); auto; [apply (file_on_frame (image s) _ (freeblock s)); auto; lia | lia |].
    destruct j as [|j]; cbn [Nat.eqb]; [injection Hj as <-; exact Hroot | apply Hsame; unfold ino, ROOTINO; lia].
  - intros j k b Hj Hk Hjk. destruct (lookup_lt_is_Some_2 L' j Hj) as [f Hf], (lookup_lt_is_Some_2 L' k Hk) as [g Hg].
    destruct (Hon j f Hf) as [Oj Ej], (Hon k g Hg) as [Ok Ek]. rewrite Ej, Ek, (owns_frame (image s) (final_disk s) _ b Oj), (owns_frame (image s) (final_disk s) _ b Ok).
    exact (ma_apart _ _ Hma j k b Hj Hk Hjk).
  - intros i Hi. unfold NINODES in Hi. cbn [length] in Hi. rewrite Hsame by (unfold ino, ROOTINO in *; cbn [length L'] in *; lia). now rewrite (ma_unused _ _ Hma) by lia.
Qed.

(** C34: mkfs ends with status 0 and an image that the kernel can use, whenever its
    arguments are acceptable and everything fits.  On the image are the
    superblock, an empty log, a free map in which exactly the blocks from the
    first data block that no file needed are free, the root directory with an
    entry for every argument, and a file for each with the bytes that [read]
    returned, in whatever pieces.  Inodes and blocks are as the theorems about the
    kernel assume them, and no block belongs to two files. *)
Theorem mkfs_image img args : host_create img = true -> Forall accepted args -> (length args < 199)%nat -> META + total (tree args) <= FSSIZE ->
  exists s, mkfs_main (img :: args) no_image = UExit 0 s /\ sectors s = FSSIZE /\ image_of (image s) (tree args) /\
  fs_layout SB 2 LOGSIZE META /\ usable SB META (image s) ∅.
Proof.
  intros Himg Hac Hl Hfit. destruct (root_ok args Hac Hl Hfit) as (s & R & Hma). pose proof (ma_writing _ _ Hma) as Hw. pose proof (wr_free _ Hw) as Hfb.
  pose proof (final_image s (tree args) Hma ltac:(discriminate)) as Him. pose proof (ma_files _ _ Hma 0 _ eq_refl) as Hf0. change (ino 0) with ROOTINO in Hf0.
  exists (Mk (final_disk s) (sectors s) (mk_sb s) (freeinode s) (freeblock s)). cbn [image sectors]. split_and!; auto; [| apply Hw | |].
  - unfold mkfs_main. rewrite start_ok by exact Himg. rewrite R. unfold ubind at 1. rewrite rinode_ok by (try apply Hma; try apply Hw; unfold ROOTINO; lia).
    set (d := disk_ino (image s) ROOTINO) in *. pose proof (fi_max _ _ _ _ Hf0) as Hmax. change (MAXFILE * BSIZE) with 274432 in Hmax.
    pose proof (fi_size _ _ _ _ Hf0) as Hsz. assert (Hs0 : 0 <= d_size d <= 274432) by (rewrite Hsz; unfold size_of in *; lia).
    assert (Hoff : 0 <= (d_size d / BSIZE + 1) * BSIZE < 2 ^ 32).
    { pose proof (Z.div_pos (d_size d) BSIZE ltac:(lia) ltac:(reflexivity)). pose proof (Z.div_le_mono (d_size d) 274432 BSIZE ltac:(reflexivity) ltac:(lia)) as Hle.
      change (274432 / BSIZE) with 268 in Hle. unfold BSIZE in *. lia. }
    rewrite (xint_id (d_size d)), xint_id by lia. unfold ubind at 1. rewrite winode_ok by (try apply Hma; try apply Hw; unfold ROOTINO; lia). unfold ubind at 1.
    unfold balloc, ubind at 1. cbn [with_disk freeblock]. change BPB with 8192. rewrite (proj2 (Z.ltb_lt _ _)) by (unfold FSSIZE in *; lia). cbn [assert_ uret].
    unfold ubind, get_sb. cbn [with_disk mk_sb]. rewrite (ma_sb _ _ Hma). cbn [SB sb_bmapstart]. rewrite wsect_ok by (cbn [with_disk sectors]; try apply Hw; unfold FSSIZE; lia).
    unfold with_disk, uexit. cbn [image sectors mk_sb freeinode freeblock]. rewrite (ma_sb _ _ Hma). reflexivity.
  - exact demo_fs_layout.
  - split.
    + intros b Hb Hs. rewrite (im_free _ _ Him) by (change (b < FSSIZE) in Hs; lia). apply Z.leb_gt. pose proof (total_pos (tree args)). lia.
    + intros b Hb [y Hy]. now rewrite lookup_empty in Hy.
    + intros i _. apply lookup_empty.
Qed.

End mkfs.

(** ** An image with one small file *)

Module Demo.

Definition cat_path : list Z := bytes_of "user/_cat".

(** A host with this file, which [read] returns in two pieces. *)
#[export] Instance little_host : Host := {|
  host_create := fun _ => true;
  host_open := fun p => if bool_decide (p = cat_path) then Some [[104; 105]; [10]] else None;
  sector_ok := fun _ => true |}.

Lemma cat_accepted : Forall accepted [cat_path].
Proof. apply Forall_singleton. split_and!; [reflexivity | discriminate | vm_compute; discriminate | vm_compute; discriminate]. Qed.

Lemma sectors_ok b : 0 <= b < FSSIZE -> sector_ok b = true.
Proof. reflexivity. Qed.

Lemma mkfs_image_witness : exists s, mkfs_main [bytes_of "fs.img"; cat_path] no_image = UExit 0 s /\ sectors s = FSSIZE /\
  image_of (image s) (tree [cat_path]) /\ fs_layout SB 2 LOGSIZE META /\ usable SB META (image s) ∅.
Proof.
  apply (mkfs_image sectors_ok (bytes_of "fs.img") [cat_path] eq_refl cat_accepted); [cbn; lia | vm_compute; discriminate].
Defined.

Example cat_data : tree [cat_path] !! 1%nat = Some (T_FILE, [104; 105; 10]).
Proof. reflexivity. Qed.

End Demo.
